(* ===== verification/_CoqProject ===== *)
-Q . S2P
Prelude.v
Rlp.v
RlpStream.v
RlpCanonical.v
Common.v
Codec.v
RlpTotal.v
TrieEncoding.v
Trie.v
TrieModel.v
TrieRefine.v
TrieHash.v
TrieMap.v
TrieProof.v
TrieIterator.v
PocContext.v
SecureTrie.v
StateDB.v
StateRevert.v
StateLedger.v
StateUndo.v
StateRecord.v
Keccak.v
KeccakSponge.v
Bitutil.v
ChainConfig.v
Signature.v
Transaction.v
Block.v
ChainDb.v
GoMonad.v
HeaderChain.v
GoSort.v
EpochContext.v
Poc.v
Dao.v
Execution.v
BlockChain.v
ExecutionSpec.v
BlockChainSpec.v
ManagedState.v
GoHeap.v
TxList.v
TxPool.v
TxPoolSpec.v
TxPoolLimits.v
TxOrder.v
Miner.v
MinerSpec.v
