(* ===== verification/Prelude.v ===== *)
(** * AQChainRe: a verification development of the node's core

    AQChainRe is a blockchain node in Go, derived from an Ethereum client.  Blocks are made by
    validators that are elected for epochs from candidates, by their contributions (package
    [consensus/poc]); transactions are transfers, confirmations and transfers of data records,
    and candidate log-ins and log-outs.  This development models the deterministic core of the
    node, from bytes to the block chain, and proves what the parts promise to each other.

    ** The parts and how they interact

    A block ([core/types]) is encoded with RLP ([rlp]) and hashed with Keccak ([crypto/sha3]);
    its transactions are signed ([crypto]).  The state of accounts and the records of confirmed
    data ([core/state]) live in Merkle Patricia tries ([trie]), and so do the five tries of the
    consensus context ([core/types/poc_context.go]); their roots are in the header.  Executing a
    block ([core/state_processor.go], [state_transition.go]) changes the three of them; the
    engine ([consensus/poc]) checks headers and seals, elects validators and finalizes blocks.
    Headers, bodies and positions of transactions are stored under the keys of
    [core/database_util.go]; the header chain ([core/headerchain.go]) and the block chain
    ([core/blockchain.go], [block_validator.go]) keep the tree of blocks, its head and its
    canonical chain in that database.  Transactions that wait for a block are in the pool
    ([core/tx_pool.go], [tx_list.go]), which follows the head of the block chain and keeps the
    next nonces on a copy of its state ([core/state/managed_state.go]).  The miner ([miner]) makes
    a block of them: it executes the dearest ones on the state of the head, has the engine
    finalize and seal the block, and gives it to the block chain.

    ** Files

    Shared: [Prelude] (outcomes with error, panic and divergence; integers at their width; byte
    strings; generic lemmas, tactics and hints), [GoMonad] (methods with a receiver), [GoSort]
    (what [sort.Sort] promises), [GoHeap] ([container/heap]), [Common] ([common/types.go], [bytes.go]), [Codec] (sizes and
    types of encoded values), [Bitutil] ([common/bitutil]).

    RLP: [Rlp] ([rlp/encode.go], [raw.go]), [RlpStream] ([rlp/decode.go]), [RlpCanonical]
    (inversion of the decoder), [RlpTotal] (the types and the termination of the decoder).

    Tries: [TrieEncoding], [Trie] ([trie/encoding.go], [node.go], [trie.go], [hasher.go]),
    [TrieModel] (trees without caches and references, the specification), [TrieRefine],
    [TrieHash], [TrieMap] (the refinement in three steps: operations, hashing and committing,
    finite maps), [TrieProof] ([proof.go]), [TrieIterator] ([iterator.go]), [SecureTrie]
    ([secure_trie.go] and the interface [StateTrie] that the state is written against).

    State: [StateDB] ([core/state/statedb.go], [state_object.go], [journal.go], [database.go]),
    [StateRevert] (snapshots), [StateLedger] (balances, nonces, contributions), [StateRecord]
    ([statedb_record.go], [state_object_record.go], [journal_record.go]), [PocContext].

    Hashes and signatures: [Keccak], [KeccakSponge], [Signature] ([crypto], over the interface
    [Secp256k1] of the C library), [Transaction] ([transaction.go], [transaction_signing.go]),
    [Block] ([block.go], [derive_sha.go], [receipt.go], [log.go], [bloom9.go]), [ChainConfig]
    ([params/config.go]).

    Consensus and execution: [EpochContext], [Poc] ([consensus/poc]), [Dao] ([consensus/misc]),
    [Execution] and [ExecutionSpec].

    Chains: [ChainDb] ([core/database_util.go], the memory database of [ethdb]), [HeaderChain],
    [BlockChain] and [BlockChainSpec].

    Pool: [ManagedState] (copies of the state, managed nonces), [TxList] ([core/tx_list.go]: the
    sorted lists of an account and the heap by price, and their refinement), [TxPool]
    ([core/tx_pool.go], over the interface [PoolState] of nonces and balances, which
    [ManagedState] justifies), [TxPoolSpec] (the invariant and the operations on single
    transactions), [TxPoolLimits] (limits, new heads and the theorems).

    Miner: [TxOrder] ([TransactionsByPriceAndNonce] of [transaction.go]), [Miner]
    ([miner/worker.go], [unconfirmed.go]), [StateUndo] (ledgers and snapshots), [MinerSpec] (the
    transactions of a block).

    ** How the code is modelled

    Functions become Rocq functions with the source's names.  A struct that methods change is a
    record; a method returns the new record, also next to an error.  A Go panic (a nil
    dereference, an index out of range, an explicit [panic]) is the outcome [Panic]; a loop that
    has no structural measure takes fuel and returns [OutOfFuel] when there is not enough, and
    the theorems state how much is enough: the length of the input for the decoders, the length
    of a key for the tries, the height of the blocks for the walks along the chain.  [uint64]
    arithmetic wraps around where the code can reach it ([u64], [i64]); [big.Int] is [Z].  The
    database is a finite map of byte strings; a batch is a map laid over it.  Caches are part of
    the state; the theorems show that they are transparent.  The hash function is the class
    [Hasher], whose only law is the length of its result: where a theorem needs more, it assumes
    that there is no collision on the encodings at hand.  Code outside [src/] (the elliptic
    curve, the LRU and signature caches, the random source, the priority queue of the pool) is a
    class with its documented laws
    and an instance in the witnesses.  A mutex is a flag; a second lock by the same call does not
    return.  The order in which Go walks over a map is open: it is the class [RangeOrder], any
    permutation of the entries, and the theorems hold for every one.  The pool is bounded by
    [2 ^ 24] transactions, up to which the single-precision priorities of its queue are exact,
    and by nonces of accounts below [2 ^ 63], so that the next nonce does not wrap.

    ** What the theorems show

    - RLP: the buffered encoder produces the reference encoding, the decoder undoes it, returns
      values of the type, and accepts canonical encodings only; its loops end for every type but
      slices of [[1]byte], for which they do not.
    - Tries: a trie, whatever is loaded, implements a finite map; the root is a function of the
      map; a committed trie opens again; iterators enumerate; proofs verify; among proof nodes
      stored under their hashes, a verified proof against a trie's root tells what the trie holds
      or contains a collision, and among others it tells anything.
    - State: reverting a snapshot restores every read; the operations on accounts and records
      refine operations on ledgers and record maps; where they do not, a theorem says so.
    - Keccak: the unrolled permutation is Keccak-f[1600], the buffered sponge the sponge function.
    - Transactions and blocks: round trips, signatures attribute a transaction to its signer,
      roots commit to lists, the log filter has no false negatives.
    - Consensus: elections happen at every epoch change and take the best candidates, inactive
      validators are removed, the confirmed block is the one of the specification, an accepted
      seal is by the validator of the time slot, headers verify exactly if they form a chain, with
      numbers compared modulo 2^64.
    - Execution: transactions and blocks, with the DAO fork, the reward and the election, refine a
      specification on an abstract world; headers commit to the result; transfers are not
      replayed, candidate transactions are.
    - Chains: different keys never meet; what is written is read; the head is a heaviest header
      or block, canonical numbers are its ancestry, and the index of transactions is the one of
      that chain, across imports, reorganisations and rewinds; but every reorganisation leaves the
      head header at the lowest new block.
    - Pool: the lists with their heap, cache and caps are lists sorted by nonce; from a new pool
      on, every operation returns and keeps the pending transactions of an account executable in
      a row from the nonce of the state; promotion ends within the limits; an addition does what
      its result says; the managed state is a map of nonces; a removal loses the transactions behind
      the first, and a demotion keeps those behind a gap.
    - Miner: committing the pending transactions ends; what fails leaves no trace, and a node
      that processes the transactions of the block gets to the same abstract world.

    ** Not modelled

    The network (p2p, the eth protocol, downloader, fetcher, filters), RPC and console, starting and
    stopping the miner, key stores, configuration, metrics and logging: they are I/O and concurrency
    around the parts above.  Ethash's memory-hard hash, LevelDB and the elliptic curve: the first
    is not used by the chain's engine, the others are libraries.  JSON forms (generated code) and
    printing.  The file of the pool's journal, the event loops of
    the pool and of the miner and their subscriptions: I/O and goroutines; the journal is the list
    of the transactions written to it, and what the loops do on an event is modelled.
    Of the modelled files: reflection and its cache in [rlp] (the type is an argument),
    amd64 assembly of [crypto/sha3], difference and union iterators, the subscription and
    shutdown functions of the block chain, and interleavings of concurrent calls. *)

From stdpp Require Export base gmap list strings numbers.
From Stdlib Require Export ZArith Lia.

(** ** Scope, hint databases and tactics *)

Declare Scope aq_scope.
Delimit Scope aq_scope with aq.
Open Scope Z_scope.
Open Scope aq_scope.

Create HintDb aq.
Create Rewrite HintDb aq.
Create Rewrite HintDb aqbytes.

(** Splits on the scrutinee of the first [match] or [if] of the goal. *)
Ltac case_goal :=
  match goal with
  | |- context [match ?x with _ => _ end] => let E := fresh "E" in destruct x eqn:E
  end.

(** Splits on the scrutinee of the first [match] or [if] of a hypothesis. *)
Ltac case_hyp H :=
  match type of H with
  | context [match ?x with _ => _ end] => let E := fresh "E" in destruct x eqn:E
  end.

(** Turns boolean comparisons of [Z] into propositions. *)
Ltac zbool :=
  repeat match goal with
  | H : (_ <? _) = true |- _ => apply Z.ltb_lt in H
  | H : (_ <? _) = false |- _ => apply Z.ltb_ge in H
  | H : (_ <=? _) = true |- _ => apply Z.leb_le in H
  | H : (_ <=? _) = false |- _ => apply Z.leb_gt in H
  | H : (_ =? _) = true |- _ => apply Z.eqb_eq in H
  | H : (_ =? _) = false |- _ => apply Z.eqb_neq in H
  | H : andb _ _ = true |- _ => apply andb_true_iff in H; destruct H
  | H : orb _ _ = false |- _ => apply orb_false_iff in H; destruct H
  | H : negb _ = true |- _ => apply negb_true_iff in H
  | H : negb _ = false |- _ => apply negb_false_iff in H
  end.

(** Decides boolean comparisons of the goal whose truth [lia] can establish. *)
Ltac zdecide :=
  repeat match goal with
  | |- context [?a <? ?b] =>
      first [ rewrite (proj2 (Z.ltb_lt a b)) by lia
            | rewrite (proj2 (Z.ltb_ge a b)) by lia ]
  | |- context [?a <=? ?b] =>
      first [ rewrite (proj2 (Z.leb_le a b)) by lia
            | rewrite (proj2 (Z.leb_gt a b)) by lia ]
  | |- context [?a =? ?b] =>
      first [ rewrite (proj2 (Z.eqb_eq a b)) by lia
            | rewrite (proj2 (Z.eqb_neq a b)) by lia ]
  end.

(** ** Outcomes of Go functions

    A Go function that returns [(T, error)] is modelled by [outcome E T]; a
    run-time panic (index out of range, nil dereference, explicit [panic]) is
    the third outcome.  [OutOfFuel] is returned by a loop whose fuel ran out: the
    code is still running at that point.  The theorems that a loop returns say
    that this outcome does not occur. *)

Inductive outcome (E A : Type) : Type :=
| Ok (a : A)
| Err (e : E)
| Panic
| OutOfFuel.
Arguments Ok {E A} a.
Arguments Err {E A} e.
Arguments Panic {E A}.
Arguments OutOfFuel {E A}.

#[export] Instance outcome_ret {E} : MRet (outcome E) := fun A a => Ok a.
#[export] Instance outcome_bind {E} : MBind (outcome E) := fun A B f m =>
  match m with Ok a => f a | Err e => Err e | Panic => Panic | OutOfFuel => OutOfFuel end.

Definition map_err {E E' A} (f : E -> E') (m : outcome E A) : outcome E' A :=
  match m with Ok a => Ok a | Err e => Err (f e) | Panic => Panic | OutOfFuel => OutOfFuel end.

Lemma outcome_bind_ok {E A B} (m : outcome E A) (f : A -> outcome E B) b :
  m ≫= f = Ok b <-> exists a, m = Ok a /\ f a = Ok b.
Proof. destruct m; cbn; (split; [by eauto | by intros (?&[=]&?); subst]). Qed.

(** ** Machine integers *)

Definition u8 (z : Z) : Z := z mod 2 ^ 8.
Definition u32 (z : Z) : Z := z mod 2 ^ 32.
Definition u64 (z : Z) : Z := z mod 2 ^ 64.

(** Two's complement reinterpretation of a 64-bit value: Go's [int64(x)]. *)
Definition i64 (z : Z) : Z := (z + 2 ^ 63) mod 2 ^ 64 - 2 ^ 63.

Definition is_u64 (z : Z) : Prop := 0 <= z < 2 ^ 64.
Definition is_i64 (z : Z) : Prop := - 2 ^ 63 <= z < 2 ^ 63.

Lemma u64_range z : is_u64 (u64 z).
Proof. apply Z.mod_pos_bound; reflexivity. Qed.

Lemma u64_small z : is_u64 z -> u64 z = z.
Proof. intros H; apply Z.mod_small, H. Qed.

Lemma i64_range z : is_i64 (i64 z).
Proof.
  unfold i64, is_i64.
  pose proof (Z.mod_pos_bound (z + 2 ^ 63) (2 ^ 64) ltac:(lia)). lia.
Qed.

Lemma i64_small z : is_i64 z -> i64 z = z.
Proof. unfold i64, is_i64; intros H. rewrite Z.mod_small; lia. Qed.

Lemma i64_u64 z : i64 (u64 z) = i64 z.
Proof. unfold i64, u64. now rewrite Zplus_mod_idemp_l. Qed.

Lemma u64_i64 z : u64 (i64 z) = u64 z.
Proof.
  unfold i64, u64.
  rewrite Zminus_mod_idemp_l. f_equal. lia.
Qed.

#[export] Hint Resolve u64_range i64_range : aq.
#[export] Hint Rewrite i64_u64 u64_i64 : aq.

(** ** Byte strings *)

Abbreviation bytes := (list Z).

Definition byte_ok (b : Z) : Prop := 0 <= b < 256.
Definition bytes_ok (bs : bytes) : Prop := Forall byte_ok bs.

(** [len] is Go's [len], as an integer. *)
Definition len {A} (l : list A) : Z := Z.of_nat (length l).

Lemma len_nonneg {A} (l : list A) : 0 <= len l.
Proof. unfold len; lia. Qed.

Lemma len_app {A} (l k : list A) : len (l ++ k) = len l + len k.
Proof. unfold len. rewrite length_app. lia. Qed.

Lemma len_cons {A} (x : A) (l : list A) : len (x :: l) = 1 + len l.
Proof. unfold len. cbn [length]. lia. Qed.

Lemma len_nil {A} : len (@nil A) = 0.
Proof. reflexivity. Qed.

Lemma len_zero_inv {A} (l : list A) : len l = 0 -> l = [].
Proof. destruct l; unfold len; cbn [length]; [done | lia]. Qed.

#[export] Hint Rewrite @len_app @len_cons @len_nil : aqbytes.
#[export] Hint Resolve len_nonneg : aq.

Lemma bytes_ok_app a b : bytes_ok (a ++ b) <-> bytes_ok a /\ bytes_ok b.
Proof. apply Forall_app. Qed.

Lemma bytes_ok_cons a b : bytes_ok (a :: b) <-> byte_ok a /\ bytes_ok b.
Proof. apply Forall_cons_iff. Qed.

(** Go slice expressions [b[i:j]], [b[i:]] on in-range integers. *)
Definition zdrop {A} (n : Z) (l : list A) : list A := drop (Z.to_nat n) l.
Definition ztake {A} (n : Z) (l : list A) : list A := take (Z.to_nat n) l.

Lemma ztake_app_len {A} (l k : list A) : ztake (len l) (l ++ k) = l.
Proof. unfold ztake, len. rewrite Nat2Z.id. apply take_app_length. Qed.

Lemma zdrop_app_len {A} (l k : list A) : zdrop (len l) (l ++ k) = k.
Proof. unfold zdrop, len. rewrite Nat2Z.id. apply drop_app_length. Qed.

Lemma ztake_zdrop {A} n (l : list A) : ztake n l ++ zdrop n l = l.
Proof. apply take_drop. Qed.

Lemma len_ztake {A} n (l : list A) : 0 <= n <= len l -> len (ztake n l) = n.
Proof. unfold len, ztake. rewrite length_take. lia. Qed.

Lemma len_zdrop {A} n (l : list A) : 0 <= n <= len l -> len (zdrop n l) = len l - n.
Proof. unfold len, zdrop. rewrite length_drop. lia. Qed.

Lemma bytes_ok_ztake n l : bytes_ok l -> bytes_ok (ztake n l).
Proof. apply Forall_take. Qed.

Lemma bytes_ok_zdrop n l : bytes_ok l -> bytes_ok (zdrop n l).
Proof. apply Forall_drop. Qed.

#[export] Hint Resolve bytes_ok_ztake bytes_ok_zdrop : aq.

(** ** Big-endian integers *)

Definition be_decode (bs : bytes) : Z := fold_left (fun acc b => acc * 256 + b) bs 0.

(** The [n] low bytes of [z], most significant first. *)
Fixpoint be_fixed (n : nat) (z : Z) : bytes :=
  match n with
  | O => []
  | S n => be_fixed n (z / 256) ++ [z mod 256]
  end.

(** Number of bytes of a minimal encoding; [big.Int.Bytes] has that length. *)
Definition be_size (z : Z) : nat := if z <=? 0 then O else S (Z.to_nat (Z.log2 z / 8)).

Definition be_min (z : Z) : bytes := be_fixed (be_size z) z.

Lemma be_decode_acc bs : forall acc,
  fold_left (fun acc b => acc * 256 + b) bs acc = acc * 256 ^ len bs + be_decode bs.
Proof.
  unfold be_decode. induction bs as [|b bs IH] using rev_ind; intros acc.
  - cbn. unfold len; cbn. lia.
  - rewrite !fold_left_app, (IH acc), len_app. cbn [fold_left].
    rewrite Z.pow_add_r by auto with aq. change (256 ^ len [b]) with 256. ring.
Qed.

Lemma be_decode_app a b : be_decode (a ++ b) = be_decode a * 256 ^ len b + be_decode b.
Proof. unfold be_decode at 1. rewrite fold_left_app. apply be_decode_acc. Qed.

Lemma be_decode_cons x b : be_decode (x :: b) = x * 256 ^ len b + be_decode b.
Proof. apply (be_decode_app [x] b). Qed.

Lemma be_decode_range bs : bytes_ok bs -> 0 <= be_decode bs < 256 ^ len bs.
Proof.
  induction bs as [|b bs IH]; intros H; [unfold len; cbn; lia|].
  apply bytes_ok_cons in H as [Hb H]. specialize (IH H).
  rewrite be_decode_cons, len_cons, Z.pow_add_r by (auto with aq; lia).
  unfold byte_ok in Hb. change (256 ^ 1) with 256. nia.
Qed.

Lemma length_be_fixed n z : length (be_fixed n z) = n.
Proof.
  revert z; induction n; intros z; cbn; [done|]. rewrite length_app, IHn. cbn. lia.
Qed.

Lemma len_be_fixed n z : len (be_fixed n z) = Z.of_nat n.
Proof. unfold len. now rewrite length_be_fixed. Qed.

Lemma be_fixed_ok n z : bytes_ok (be_fixed n z).
Proof.
  revert z; induction n; intros z; cbn; [constructor|].
  apply bytes_ok_app; split; [apply IHn|].
  constructor; [apply Z.mod_pos_bound; lia | constructor].
Qed.

Lemma be_decode_fixed n z : be_decode (be_fixed n z) = z mod 256 ^ Z.of_nat n.
Proof.
  revert z; induction n as [|n IH]; intros z; cbn [be_fixed].
  - now rewrite Z.mod_1_r.
  - rewrite be_decode_app, IH. change (len [z mod 256]) with 1.
    change (be_decode [z mod 256]) with (z mod 256).
    rewrite Nat2Z.inj_succ, Z.pow_succ_r by lia.
    rewrite (Z.mul_comm 256 (256 ^ _)), Z.mul_comm with (n := 256 ^ Z.of_nat n).
    rewrite Z.rem_mul_r by lia. lia.
Qed.

Lemma be_fixed_decode bs : bytes_ok bs -> be_fixed (length bs) (be_decode bs) = bs.
Proof.
  induction bs as [|b bs IH] using rev_ind; intros H; [done|].
  apply bytes_ok_app in H as [H Hb]. apply bytes_ok_cons in Hb as [Hb _].
  unfold byte_ok in Hb.
  rewrite length_app, Nat.add_comm. cbn [be_fixed length Nat.add].
  rewrite be_decode_app. change (be_decode [b]) with b. change (256 ^ len [b]) with 256.
  rewrite Z.div_add_l, Z.div_small, Z.add_0_r by lia.
  rewrite (Z.add_comm (_ * _)), Z.mod_add, Z.mod_small, IH by (auto; lia). done.
Qed.

Lemma be_size_bounds z :
  0 < z -> 256 ^ (Z.of_nat (be_size z) - 1) <= z < 256 ^ Z.of_nat (be_size z).
Proof.
  intros Hz. unfold be_size. zdecide.
  pose proof (Z.log2_nonneg z). pose proof (Z.log2_spec z Hz) as [L1 L2].
  pose proof (Z.div_pos (Z.log2 z) 8 ltac:(lia) ltac:(lia)).
  rewrite Nat2Z.inj_succ, Z2Nat.id by lia.
  replace (Z.succ (Z.log2 z / 8) - 1) with (Z.log2 z / 8) by lia.
  change 256 with (2 ^ 8). rewrite <- !Z.pow_mul_r by lia.
  pose proof (Z.mul_div_le (Z.log2 z) 8 ltac:(lia)).
  pose proof (Z.mod_pos_bound (Z.log2 z) 8 ltac:(lia)).
  pose proof (Z.div_mod (Z.log2 z) 8 ltac:(lia)).
  split.
  - etransitivity; [|exact L1]. apply Z.pow_le_mono_r; lia.
  - eapply Z.lt_le_trans; [exact L2|]. apply Z.pow_le_mono_r; lia.
Qed.

Lemma be_size_unique z n :
  0 < n -> 256 ^ (n - 1) <= z < 256 ^ n -> Z.of_nat (be_size z) = n.
Proof.
  intros Hn [H1 H2].
  assert (Hz : 0 < z) by (pose proof (Z.pow_pos_nonneg 256 (n - 1)); lia).
  pose proof (be_size_bounds z Hz) as [B1 B2].
  assert (0 < Z.of_nat (be_size z)) by (unfold be_size; zdecide; lia).
  destruct (Z.lt_trichotomy (Z.of_nat (be_size z)) n) as [L|[E|L]]; [|done|].
  - pose proof (Z.pow_le_mono_r 256 (Z.of_nat (be_size z)) (n - 1)). lia.
  - pose proof (Z.pow_le_mono_r 256 n (Z.of_nat (be_size z) - 1)). lia.
Qed.

Lemma be_decode_min z : 0 <= z -> be_decode (be_min z) = z.
Proof.
  intros Hz. unfold be_min. rewrite be_decode_fixed.
  destruct (Z.eq_dec z 0) as [->|N]; [done|].
  pose proof (be_size_bounds z ltac:(lia)). apply Z.mod_small. lia.
Qed.

Lemma be_min_ok z : bytes_ok (be_min z).
Proof. apply be_fixed_ok. Qed.

Lemma be_min_decode bs :
  bytes_ok bs -> hd_error bs <> Some 0 -> be_min (be_decode bs) = bs.
Proof.
  intros H Hh. destruct bs as [|b bs]; [done|].
  assert (E : Z.of_nat (be_size (be_decode (b :: bs))) = Z.of_nat (length (b :: bs))).
  { pose proof (be_decode_range _ H) as R.
    apply bytes_ok_cons in H as [Hb H]. unfold byte_ok in Hb.
    pose proof (be_decode_range _ H). rewrite len_cons in R.
    apply be_size_unique; [cbn; lia|]. rewrite be_decode_cons in *.
    replace (Z.of_nat (length (b :: bs)) - 1) with (len bs) by (unfold len; cbn [length]; lia).
    replace (Z.of_nat (length (b :: bs))) with (1 + len bs) by (unfold len; cbn [length]; lia).
    assert (b <> 0) by (intros ->; done). nia. }
  unfold be_min. apply Nat2Z.inj in E. rewrite E. now apply be_fixed_decode.
Qed.

Lemma be_min_hd z : hd_error (be_min z) <> Some 0.
Proof.
  intros Hh. destruct (Z.le_gt_cases z 0) as [L|L].
  - revert Hh. unfold be_min, be_size. zdecide. done.
  - pose proof (be_decode_min z ltac:(lia)) as D.
    pose proof (be_size_bounds z L) as [B _].
    pose proof (be_min_ok z) as O. pose proof (length_be_fixed (be_size z) z) as Len.
    fold (be_min z) in Len.
    destruct (be_min z) as [|x l]; [done|]. cbn in Hh. injection Hh as ->.
    apply bytes_ok_cons in O as [_ O]. pose proof (be_decode_range l O) as R.
    rewrite be_decode_cons in D. cbn [length] in Len.
    replace (Z.of_nat (be_size z) - 1) with (len l) in B by (unfold len; lia). lia.
Qed.

Lemma len_be_min_le z n : 0 <= n -> z < 256 ^ n -> len (be_min z) <= n.
Proof.
  intros Hn Hz. unfold be_min. rewrite len_be_fixed.
  destruct (Z.le_gt_cases z 0) as [L|L]; [unfold be_size; zdecide; lia|].
  pose proof (be_size_bounds z L) as [B _].
  apply Z.nlt_ge; intros C.
  pose proof (Z.pow_le_mono_r 256 n (Z.of_nat (be_size z) - 1)). lia.
Qed.

Lemma be_min_nonempty z : 0 < z -> be_min z <> [].
Proof.
  intros H E. pose proof (be_decode_min z ltac:(lia)) as D. rewrite E in D. cbn in D. lia.
Qed.

#[export] Hint Resolve be_fixed_ok be_min_ok be_decode_range : aq.
