(* ===== verification/Rlp.v ===== *)
(** * Package [rlp]: the encoder and the raw splitter

    [src/pkg/rlp/encode.go] (the two-pass [encbuf] encoder, with the writers that
    [makeWriter] selects from the reflected type) and [src/pkg/rlp/raw.go]
    ([Split], [SplitString], [SplitList], [CountValues] on byte slices).  The
    reference encoding [enc_value] is the definition of RLP by recursion on the
    value; the theorems show that the buffered encoder produces it and that the
    splitter undoes it. *)

From S2P Require Import Prelude.

(** ** Errors *)

(** Messages of [decodeError] (decode.go 128-168, 364-400, 428). *)
Inductive decode_msg :=
| MsgCanonInt | MsgCanonSize | MsgExpectedList | MsgExpectedString
| MsgTooLong | MsgTooManyElements | MsgTooFewElements | MsgTooShort.

Inductive rlp_error :=
| EOL
| ErrExpectedString | ErrExpectedList | ErrCanonInt | ErrCanonSize
| ErrElemTooLarge | ErrValueTooLarge | ErrMoreThanOneValue
| errNotInList | errNotAtEOL | errUintOverflow
| EOF | ErrUnexpectedEOF
| errNegativeBigInt
| errInvalidBool (num : Z)
| decodeError (msg : decode_msg).

#[export] Instance decode_msg_eq_dec : EqDecision decode_msg.
Proof. solve_decision. Defined.
#[export] Instance rlp_error_eq_dec : EqDecision rlp_error.
Proof. solve_decision. Defined.

Inductive Kind := KByte | KString | KList.

#[export] Instance Kind_eq_dec : EqDecision Kind.
Proof. solve_decision. Defined.

(** ** raw.go *)

(** [b[i]] where the code has already checked that [i] is in range. *)
Definition at_ (b : bytes) (i : nat) : Z := nth i b 0.

Definition readSize (b : bytes) (slen : Z) : outcome rlp_error Z :=
  if len b <? slen then Err ErrUnexpectedEOF
  else
    let s :=
      if slen =? 1 then at_ b 0
      else if slen =? 2 then Z.lor (Z.shiftl (at_ b 0) 8) (at_ b 1)
      else if slen =? 3 then
        Z.lor (Z.lor (Z.shiftl (at_ b 0) 16) (Z.shiftl (at_ b 1) 8)) (at_ b 2)
      else if slen =? 4 then
        Z.lor (Z.lor (Z.lor (Z.shiftl (at_ b 0) 24) (Z.shiftl (at_ b 1) 16))
          (Z.shiftl (at_ b 2) 8)) (at_ b 3)
      else if slen =? 5 then
        Z.lor (Z.lor (Z.lor (Z.lor (Z.shiftl (at_ b 0) 32) (Z.shiftl (at_ b 1) 24))
          (Z.shiftl (at_ b 2) 16)) (Z.shiftl (at_ b 3) 8)) (at_ b 4)
      else if slen =? 6 then
        Z.lor (Z.lor (Z.lor (Z.lor (Z.lor (Z.shiftl (at_ b 0) 40) (Z.shiftl (at_ b 1) 32))
          (Z.shiftl (at_ b 2) 24)) (Z.shiftl (at_ b 3) 16)) (Z.shiftl (at_ b 4) 8)) (at_ b 5)
      else if slen =? 7 then
        Z.lor (Z.lor (Z.lor (Z.lor (Z.lor (Z.lor (Z.shiftl (at_ b 0) 48) (Z.shiftl (at_ b 1) 40))
          (Z.shiftl (at_ b 2) 32)) (Z.shiftl (at_ b 3) 24)) (Z.shiftl (at_ b 4) 16))
          (Z.shiftl (at_ b 5) 8)) (at_ b 6)
      else if slen =? 8 then
        Z.lor (Z.lor (Z.lor (Z.lor (Z.lor (Z.lor (Z.lor (Z.shiftl (at_ b 0) 56)
          (Z.shiftl (at_ b 1) 48)) (Z.shiftl (at_ b 2) 40)) (Z.shiftl (at_ b 3) 32))
          (Z.shiftl (at_ b 4) 24)) (Z.shiftl (at_ b 5) 16)) (Z.shiftl (at_ b 6) 8)) (at_ b 7)
      else 0 in
    (* sizes < 56 and sizes with leading zero bytes are rejected *)
    if (s <? 56) || (at_ b 0 =? 0) then Err ErrCanonSize else Ok s.

(** The switch of [readKind] on the first byte [b] of the buffer [b :: tl]: kind,
    tag size and content size.  [buf[1]] is read before the length of the buffer is
    compared with the size of the value: for a one-byte buffer that is an index out
    of range. *)
Definition kindTag (b : Z) (tl : bytes) : outcome rlp_error (Kind * Z * Z) :=
  if b <? 0x80 then Ok (KByte, 0, 1)
  else if b <? 0xB8 then
    let contentsize := b - 0x80 in
    if contentsize =? 1 then
      match tl with
      | [] => Panic
      | b1 :: _ => if b1 <? 128 then Err ErrCanonSize else Ok (KString, 1, contentsize)
      end
    else Ok (KString, 1, contentsize)
  else if b <? 0xC0 then
    s ← readSize tl (b - 0xB7); Ok (KString, (b - 0xB7) + 1, s)
  else if b <? 0xF8 then Ok (KList, 1, b - 0xC0)
  else s ← readSize tl (b - 0xF7); Ok (KList, (b - 0xF7) + 1, s).

Definition readKind (buf : bytes) : outcome rlp_error (Kind * Z * Z) :=
  match buf with
  | [] => Err ErrUnexpectedEOF
  | b :: tl =>
    '(k, tagsize, contentsize) ← kindTag b tl;
    if u64 (len buf - tagsize) <? contentsize then Err ErrValueTooLarge
    else Ok (k, tagsize, contentsize)
  end.

Definition Split (b : bytes) : outcome rlp_error (Kind * bytes * bytes) :=
  '(k, ts, cs) ← readKind b;
  Ok (k, ztake cs (zdrop ts b), zdrop (ts + cs) b).

Definition SplitString (b : bytes) : outcome rlp_error (bytes * bytes) :=
  '(k, content, rest) ← Split b;
  match k with KList => Err ErrExpectedString | _ => Ok (content, rest) end.

Definition SplitList (b : bytes) : outcome rlp_error (bytes * bytes) :=
  '(k, content, rest) ← Split b;
  match k with KList => Ok (content, rest) | _ => Err ErrExpectedList end.

Fixpoint CountValues_loop (fuel : nat) (b : bytes) (i : Z) : outcome rlp_error Z :=
  match fuel with
  | O => OutOfFuel
  | S fuel =>
    match b with
    | [] => Ok i
    | _ => '(_, tagsize, size) ← readKind b;
           CountValues_loop fuel (zdrop (tagsize + size) b) (i + 1)
    end
  end.

(** Every iteration consumes at least one byte. *)
Definition CountValues (b : bytes) : outcome rlp_error Z := CountValues_loop (S (length b)) b 0.

(** ** encode.go: integers and headers *)

Definition putint (i : Z) : bytes :=
  if i <? 2 ^ 8 then [u8 i]
  else if i <? 2 ^ 16 then [u8 (Z.shiftr i 8); u8 i]
  else if i <? 2 ^ 24 then [u8 (Z.shiftr i 16); u8 (Z.shiftr i 8); u8 i]
  else if i <? 2 ^ 32 then
    [u8 (Z.shiftr i 24); u8 (Z.shiftr i 16); u8 (Z.shiftr i 8); u8 i]
  else if i <? 2 ^ 40 then
    [u8 (Z.shiftr i 32); u8 (Z.shiftr i 24); u8 (Z.shiftr i 16); u8 (Z.shiftr i 8); u8 i]
  else if i <? 2 ^ 48 then
    [u8 (Z.shiftr i 40); u8 (Z.shiftr i 32); u8 (Z.shiftr i 24); u8 (Z.shiftr i 16);
     u8 (Z.shiftr i 8); u8 i]
  else if i <? 2 ^ 56 then
    [u8 (Z.shiftr i 48); u8 (Z.shiftr i 40); u8 (Z.shiftr i 32); u8 (Z.shiftr i 24);
     u8 (Z.shiftr i 16); u8 (Z.shiftr i 8); u8 i]
  else
    [u8 (Z.shiftr i 56); u8 (Z.shiftr i 48); u8 (Z.shiftr i 40); u8 (Z.shiftr i 32);
     u8 (Z.shiftr i 24); u8 (Z.shiftr i 16); u8 (Z.shiftr i 8); u8 i].

(** The loop shifts a 64-bit integer by a byte at a time: at most eight turns. *)
Fixpoint intsize_loop (fuel : nat) (i size : Z) : Z :=
  match fuel with
  | O => size
  | S fuel =>
    let i := Z.shiftr i 8 in
    if i =? 0 then size else intsize_loop fuel i (size + 1)
  end.

Definition intsize (i : Z) : Z := intsize_loop 8 i 1.

Definition headsize (size : Z) : Z := if size <? 56 then 1 else 1 + intsize size.

(** The bytes [puthead] writes; the [int] it returns is their number. *)
Definition puthead (smalltag largetag size : Z) : bytes :=
  if size <? 56 then [u8 (smalltag + u8 size)]
  else let s := putint size in u8 (largetag + u8 (len s)) :: s.

Definition ListSize (contentSize : Z) : Z := u64 (headsize contentSize + contentSize).

(** ** encode.go: the buffer *)

Record listhead := Listhead { lh_offset : Z; lh_size : Z }.

(** [lheads] holds pointers in the code; a head is named here by its index. *)
Record encbuf := Encbuf { eb_str : bytes; eb_lheads : list listhead; eb_lhsize : Z }.

Definition eb_reset : encbuf := Encbuf [] [] 0.

Definition eb_append (b : bytes) (w : encbuf) : encbuf :=
  Encbuf (eb_str w ++ b) (eb_lheads w) (eb_lhsize w).

Definition listhead_encode (h : listhead) : bytes := puthead 0xC0 0xF7 (lh_size h).

Definition eb_size (w : encbuf) : Z := len (eb_str w) + eb_lhsize w.

Definition encodeStringHeader (size : Z) (w : encbuf) : encbuf :=
  if size <? 56 then eb_append [u8 (0x80 + u8 size)] w
  else let s := putint size in eb_append (u8 (0xB7 + u8 (len s)) :: s) w.

Definition encodeString (b : bytes) (w : encbuf) : encbuf :=
  match b with
  | [x] => if x <=? 0x7F then eb_append [x] w
           else eb_append b (encodeStringHeader (len b) w)
  | _ => eb_append b (encodeStringHeader (len b) w)
  end.

Definition eb_list (w : encbuf) : nat * encbuf :=
  (length (eb_lheads w),
   Encbuf (eb_str w) (eb_lheads w ++ [Listhead (len (eb_str w)) (eb_lhsize w)]) (eb_lhsize w)).

Definition eb_listEnd (lh : nat) (w : encbuf) : encbuf :=
  match eb_lheads w !! lh with
  | None => w
  | Some h =>
    let size := eb_size w - lh_offset h - lh_size h in
    Encbuf (eb_str w) (<[lh := Listhead (lh_offset h) size]> (eb_lheads w))
      (if size <? 56 then eb_lhsize w + 1 else eb_lhsize w + (1 + intsize size))
  end.

(** Go's [copy(out[pos:], src)]. *)
Definition copy_at (out : bytes) (pos : Z) (src : bytes) : bytes :=
  let n := Z.min (len out - pos) (len src) in
  ztake pos out ++ ztake n src ++ zdrop (pos + n) out.

(** [toBytes]: the output array is allocated first, with the size the headers
    were accounted for; a header that does not fit is an index out of range. *)
Fixpoint toBytes_loop (heads : list listhead) (str out : bytes) (strpos pos : Z)
    : outcome rlp_error bytes :=
  match heads with
  | [] => Ok (copy_at out pos (zdrop strpos str))
  | h :: heads =>
    let piece := ztake (lh_offset h - strpos) (zdrop strpos str) in
    let n := Z.min (len out - pos) (len piece) in
    let out := copy_at out pos piece in
    let pos := pos + n in
    let strpos := strpos + n in
    let enc := listhead_encode h in
    if len out - pos <? len enc then Panic
    else toBytes_loop heads str (copy_at out pos enc) strpos (pos + len enc)
  end.

Definition toBytes (w : encbuf) : outcome rlp_error bytes :=
  toBytes_loop (eb_lheads w) (eb_str w) (repeat 0 (Z.to_nat (eb_size w))) 0 0.

(** [toWriter] on a writer that accepts every byte (a hash or a [bytes.Buffer]). *)
Fixpoint toWriter_loop (heads : list listhead) (str : bytes) (strpos : Z) : bytes :=
  match heads with
  | [] => if strpos <? len str then zdrop strpos str else []
  | h :: heads =>
    let piece := if 0 <? lh_offset h - strpos
                 then ztake (lh_offset h - strpos) (zdrop strpos str) else [] in
    piece ++ listhead_encode h ++ toWriter_loop heads str (strpos + len piece)
  end.

Definition toWriter (w : encbuf) : bytes := toWriter_loop (eb_lheads w) (eb_str w) 0.

(** ** encode.go: reflected types, values and writers *)

(** The types [makeWriter] and [makeDecoder] distinguish.  [TBig] is [*big.Int],
    [TTail] a slice field tagged [rlp:tail], the flag of [TPtr] the tag [rlp:nil];
    fields tagged [rlp:-] are left out by [structFields]. *)
Local Unset Elimination Schemes.

Inductive rtype :=
| TUint (bits : Z) | TBool | TString | TBig | TBytes | TByteArray (n : nat) | TRaw
| TSlice (t : rtype) | TTail (t : rtype) | TArray (n : nat) (t : rtype)
| TStruct (ts : list rtype)
| TPtr (nilOK : bool) (t : rtype)
| TIface.

(** Values; [VBytes] is a string, a byte slice, a byte array or a raw value, and
    an interface carries its dynamic type. *)
Inductive rval :=
| VUint (i : Z) | VBool (b : bool) | VBytes (b : bytes) | VBig (i : option Z)
| VList (vs : list rval) | VStruct (vs : list rval)
| VPtr (v : option rval)
| VIface (d : option (rtype * rval)).

Local Set Elimination Schemes.

Definition writeUint (i : Z) (w : encbuf) : encbuf :=
  if i =? 0 then eb_append [0x80] w
  else if i <? 128 then eb_append [u8 i] w
  else let s := putint i in eb_append (u8 (0x80 + u8 (len s)) :: s) w.

Definition writeBool (b : bool) (w : encbuf) : encbuf :=
  if b then eb_append [0x01] w else eb_append [0x80] w.

Definition writeBigInt (i : Z) (w : encbuf) : outcome rlp_error encbuf :=
  if i <? 0 then Err errNegativeBigInt
  else if i =? 0 then Ok (eb_append [0x80] w)
  else Ok (encodeString (be_min i) w).

Definition writeEmptyList (w : encbuf) : encbuf :=
  let '(lh, w) := eb_list w in eb_listEnd lh w.

(** The [nilfunc] of [makePtrWriter], by the pointer's element type. *)
Fixpoint writeNil (t : rtype) (w : encbuf) : encbuf :=
  match t with
  | TByteArray _ => eb_append [0x80] w
  | TStruct _ | TArray _ _ | TSlice _ | TTail _ => writeEmptyList w
  | TUint _ => writeUint 0 w
  | TBool => writeBool false w
  | TString | TBytes => encodeString [] w
  | TBig => eb_append [0x80] w
  | TRaw => w
  | TPtr _ t => writeNil t w
  | TIface => eb_append [0xC0] w
  end.

Fixpoint write (t : rtype) (v : rval) (w : encbuf) {struct v} : outcome rlp_error encbuf :=
  match t, v with
  | TRaw, VBytes b => Ok (eb_append b w)
  | TIface, VIface None => Ok (eb_append [0xC0] w)
  | TIface, VIface (Some (t, v)) => write t v w
  | TBig, VBig None => Ok (eb_append [0x80] w)
  | TBig, VBig (Some i) => writeBigInt i w
  | TUint _, VUint i => Ok (writeUint i w)
  | TBool, VBool b => Ok (writeBool b w)
  | TString, VBytes b | TBytes, VBytes b | TByteArray _, VBytes b => Ok (encodeString b w)
  | TSlice t, VList vs | TArray _ t, VList vs =>
    let '(lh, w) := eb_list w in
    w ← (fix writeElems (vs : list rval) (w : encbuf) : outcome rlp_error encbuf :=
           match vs with
           | [] => Ok w
           | v :: vs => w ← write t v w; writeElems vs w
           end) vs w;
    Ok (eb_listEnd lh w)
  | TTail t, VList vs =>
    (fix writeElems (vs : list rval) (w : encbuf) : outcome rlp_error encbuf :=
       match vs with
       | [] => Ok w
       | v :: vs => w ← write t v w; writeElems vs w
       end) vs w
  | TStruct ts, VStruct vs =>
    let '(lh, w) := eb_list w in
    w ← (fix writeFields (ts : list rtype) (vs : list rval) (w : encbuf) {struct vs}
            : outcome rlp_error encbuf :=
           match ts, vs with
           | [], [] => Ok w
           | t :: ts, v :: vs => w ← write t v w; writeFields ts vs w
           | _, _ => Panic
           end) ts vs w;
    Ok (eb_listEnd lh w)
  | TPtr _ t, VPtr None => Ok (writeNil t w)
  | TPtr _ t, VPtr (Some v) => write t v w
  | _, _ => Panic
  end.

Definition EncodeToBytes (t : rtype) (v : rval) : outcome rlp_error bytes :=
  w ← write t v eb_reset; toBytes w.

(** [Encode] into a writer that accepts every byte. *)
Definition Encode (t : rtype) (v : rval) : outcome rlp_error bytes :=
  w ← write t v eb_reset; Ok (toWriter w).

(** ** The reference encoding *)

Definition enc_head (small large n : Z) : bytes :=
  if n <? 56 then [small + n] else (large + len (be_min n)) :: be_min n.

Definition enc_string (b : bytes) : bytes :=
  match b with
  | [x] => if x <=? 0x7F then [x] else enc_head 0x80 0xB7 1 ++ b
  | _ => enc_head 0x80 0xB7 (len b) ++ b
  end.

Definition enc_list (content : bytes) : bytes := enc_head 0xC0 0xF7 (len content) ++ content.

Fixpoint enc_nil (t : rtype) : bytes :=
  match t with
  | TStruct _ | TArray _ _ | TSlice _ | TTail _ => enc_list []
  | TRaw => []
  | TPtr _ t => enc_nil t
  | TIface => enc_list []
  | _ => enc_string []
  end.

Fixpoint enc_value (t : rtype) (v : rval) {struct v} : bytes :=
  match t, v with
  | TRaw, VBytes b => b
  | TIface, VIface None => enc_list []
  | TIface, VIface (Some (t, v)) => enc_value t v
  | TBig, VBig i => enc_string (be_min (default 0 i))
  | TUint _, VUint i => enc_string (be_min i)
  | TBool, VBool b => enc_string (be_min (Z.b2z b))
  | _, VBytes b => enc_string b
  | TSlice t, VList vs | TArray _ t, VList vs => enc_list (concat (map (enc_value t) vs))
  | TTail t, VList vs => concat (map (enc_value t) vs)
  | TStruct ts, VStruct vs =>
    enc_list ((fix enc_fields (ts : list rtype) (vs : list rval) {struct vs} : bytes :=
      match ts, vs with
      | t :: ts, v :: vs => enc_value t v ++ enc_fields ts vs
      | _, _ => []
      end) ts vs)
  | TPtr _ t, VPtr None => enc_nil t
  | TPtr _ t, VPtr (Some v) => enc_value t v
  | _, _ => []
  end.

Fixpoint enc_fields (ts : list rtype) (vs : list rval) {struct vs} : bytes :=
  match ts, vs with
  | t :: ts, v :: vs => enc_value t v ++ enc_fields ts vs
  | _, _ => []
  end.

(** Well-typed values that the encoder accepts. *)
Fixpoint wt (t : rtype) (v : rval) {struct v} : Prop :=
  match t, v with
  | TUint bits, VUint i => 0 <= i < 2 ^ bits /\ 0 <= bits <= 64
  | TBool, VBool _ => True
  | TBig, VBig i => 0 <= default 0 i
  | TString, VBytes b | TBytes, VBytes b | TRaw, VBytes b => bytes_ok b
  | TByteArray n, VBytes b => bytes_ok b /\ length b = n
  | TSlice t, VList vs | TTail t, VList vs =>
    (fix wts (vs : list rval) : Prop :=
       match vs with [] => True | v :: vs => wt t v /\ wts vs end) vs
  | TArray n t, VList vs =>
    length vs = n /\
    (fix wts (vs : list rval) : Prop :=
       match vs with [] => True | v :: vs => wt t v /\ wts vs end) vs
  | TStruct ts, VStruct vs =>
    (fix wtf (ts : list rtype) (vs : list rval) {struct vs} : Prop :=
       match ts, vs with
       | [], [] => True
       | t :: ts, v :: vs => wt t v /\ wtf ts vs
       | _, _ => False
       end) ts vs
  | TPtr _ t, VPtr None => True
  | TPtr _ t, VPtr (Some v) => wt t v
  | TIface, VIface None => True
  | TIface, VIface (Some (t, v)) => wt t v
  | _, _ => False
  end.

Fixpoint wt_fields (ts : list rtype) (vs : list rval) {struct vs} : Prop :=
  match ts, vs with
  | [], [] => True
  | t :: ts, v :: vs => wt t v /\ wt_fields ts vs
  | _, _ => False
  end.

(** ** Lemmas: integers and headers *)

Lemma be_min_of_size i n :
  256 ^ (Z.of_nat n - 1) <= i < 256 ^ Z.of_nat n -> (0 < n)%nat -> be_min i = be_fixed n i.
Proof.
  intros H Hn. unfold be_min. pose proof (be_size_unique i (Z.of_nat n) ltac:(lia) H) as E.
  apply Nat2Z.inj in E. now rewrite E.
Qed.

Lemma be_size_1 i : 0 < i < 256 -> Z.of_nat (be_size i) = 1.
Proof. intros H. apply be_size_unique; cbn; lia. Qed.

Lemma putint_spec i : 0 < i < 2 ^ 64 -> putint i = be_min i.
Proof.
  intros H. unfold putint.
  repeat match goal with
  | |- context [i <? 2 ^ ?k] => destruct (Z.ltb_spec i (2 ^ k))
  end;
  match goal with
  | |- ?l = _ => rewrite (be_min_of_size i (length l)) by (cbn; lia)
  end; cbn [be_fixed length app]; unfold u8;
  rewrite ?Z.shiftr_div_pow2, ?Z.div_div by lia; reflexivity.
Qed.

Lemma intsize_loop_spec fuel : forall i size,
  0 <= i < 256 ^ (1 + Z.of_nat fuel) ->
  intsize_loop fuel i size = size + Z.of_nat (be_size i) - (if i =? 0 then 0 else 1).
Proof.
  induction fuel as [|fuel IH]; intros i size Hi; cbn [intsize_loop].
  - change (1 + Z.of_nat 0) with 1 in Hi.
    destruct (Z.eqb_spec i 0) as [->|N]; [cbn; lia|].
    rewrite be_size_1; lia.
  - rewrite Z.shiftr_div_pow2 by lia. change (2 ^ 8) with 256.
    destruct (Z.eqb_spec i 0) as [->|N]; [change (0 / 256) with 0; cbn; lia|].
    pose proof (Z.div_mod i 256 ltac:(lia)). pose proof (Z.mod_pos_bound i 256 ltac:(lia)).
    destruct (Z.eqb_spec (i / 256) 0) as [E|N'].
    + rewrite be_size_1; lia.
    + rewrite Nat2Z.inj_succ in Hi.
      replace (1 + Z.succ (Z.of_nat fuel)) with (Z.succ (1 + Z.of_nat fuel)) in Hi by lia.
      rewrite Z.pow_succ_r in Hi by lia.
      assert (0 < i / 256) by lia.
      rewrite IH by lia. zdecide.
      pose proof (be_size_bounds (i / 256) ltac:(lia)) as B.
      assert (0 < Z.of_nat (be_size (i / 256))) by (unfold be_size; zdecide; lia).
      rewrite (be_size_unique i (Z.of_nat (be_size (i / 256)) + 1)); [lia|lia|].
      rewrite Z.add_simpl_r, Z.pow_add_r by lia. change (256 ^ 1) with 256.
      split; [|nia].
      replace (Z.of_nat (be_size (i / 256))) with (1 + (Z.of_nat (be_size (i / 256)) - 1)) by lia.
      rewrite Z.pow_add_r by lia. change (256 ^ 1) with 256. nia.
Qed.

Lemma intsize_spec i : 0 < i < 2 ^ 64 -> intsize i = len (be_min i).
Proof.
  intros H. unfold intsize. rewrite intsize_loop_spec by (cbn; lia). zdecide.
  unfold be_min. rewrite len_be_fixed. lia.
Qed.

Lemma len_be_min_u64 i : 0 <= i < 2 ^ 64 -> len (be_min i) <= 8.
Proof. intros H. apply len_be_min_le; [lia|]. change (256 ^ 8) with (2 ^ 64). lia. Qed.

Lemma u8_small z : 0 <= z < 256 -> u8 z = z.
Proof. intros H; apply Z.mod_small; cbn; lia. Qed.

Lemma puthead_spec small large size :
  0 <= small -> small + 55 < 256 -> 0 <= large -> large + 8 < 256 -> 0 <= size < 2 ^ 64 ->
  puthead small large size = enc_head small large size.
Proof.
  intros ? ? ? ? Hs. unfold puthead, enc_head. destruct (Z.ltb_spec size 56).
  - rewrite !u8_small by (rewrite ?u8_small; lia). done.
  - rewrite putint_spec by lia. pose proof (len_be_min_u64 size ltac:(lia)).
    pose proof (len_nonneg (be_min size)).
    rewrite !u8_small by (rewrite ?u8_small; lia). done.
Qed.

Lemma len_enc_head small large size :
  0 <= size < 2 ^ 64 -> len (enc_head small large size) = headsize size.
Proof.
  intros H. unfold enc_head, headsize. destruct (Z.ltb_spec size 56); [done|].
  rewrite len_cons, intsize_spec by lia. lia.
Qed.

Lemma encodeString_spec b w :
  len b < 2 ^ 64 -> encodeString b w = eb_append (enc_string b) w.
Proof.
  intros H. unfold encodeString, enc_string.
  assert (G : eb_append b (encodeStringHeader (len b) w)
              = eb_append (enc_head 0x80 0xB7 (len b) ++ b) w).
  { change (encodeStringHeader (len b) w)
      with (if len b <? 56 then eb_append [u8 (0x80 + u8 (len b))] w
            else eb_append (u8 (0xB7 + u8 (len (putint (len b)))) :: putint (len b)) w).
    rewrite <- (puthead_spec 0x80 0xB7 (len b)) by (pose proof (len_nonneg b); lia).
    unfold puthead. destruct (len b <? 56); unfold eb_append; cbn; by rewrite <- app_assoc. }
  destruct b as [|x [|y b]]; [apply G| |apply G].
  destruct (x <=? 0x7F); [done|apply G].
Qed.

Lemma writeUint_spec i w : 0 <= i < 2 ^ 64 -> writeUint i w = eb_append (enc_string (be_min i)) w.
Proof.
  intros H. unfold writeUint. destruct (Z.eqb_spec i 0) as [->|N]; [done|].
  destruct (Z.ltb_spec i 128).
  - rewrite u8_small, (be_min_of_size i 1) by (cbn; lia). cbn.
    rewrite Z.mod_small by lia. zdecide. done.
  - rewrite putint_spec by lia. f_equal.
    pose proof (len_be_min_u64 i ltac:(lia)) as L. pose proof (len_nonneg (be_min i)).
    rewrite !u8_small by (rewrite ?u8_small; lia).
    destruct (Z.ltb_spec i 256).
    + rewrite (be_min_of_size i 1) by (cbn; lia). cbn. rewrite Z.mod_small by lia. zdecide. done.
    + pose proof (be_size_bounds i ltac:(lia)) as [_ B].
      unfold be_min in *. rewrite len_be_fixed in *.
      assert (2 <= Z.of_nat (be_size i)).
      { apply Z.nlt_ge; intros C. pose proof (Z.pow_le_mono_r 256 (Z.of_nat (be_size i)) 1). lia. }
      pose proof (length_be_fixed (be_size i) i).
      unfold enc_string. destruct (be_fixed (be_size i) i) as [|x [|y l]] eqn:E; cbn in *; try lia.
      unfold enc_head. unfold len. cbn [length].
      zdecide. cbn. do 2 f_equal. lia.
Qed.

(** ** Lemmas: the two-pass buffer *)

(** [seg heads str out]: the list heads (offsets relative to the segment) and the
    string data that writing a piece of output appends to the buffer. *)
Definition shift_head (k : Z) (h : listhead) : listhead := Listhead (k + lh_offset h) (lh_size h).

Fixpoint heads_size (hs : list listhead) : Z :=
  match hs with [] => 0 | h :: hs => headsize (lh_size h) + heads_size hs end.

Inductive seg : list listhead -> bytes -> bytes -> Prop :=
| seg_str s : seg [] s s
| seg_app h1 s1 r1 h2 s2 r2 :
    seg h1 s1 r1 -> seg h2 s2 r2 ->
    seg (h1 ++ map (shift_head (len s1)) h2) (s1 ++ s2) (r1 ++ r2)
| seg_list h s r :
    seg h s r -> len r < 2 ^ 64 -> seg (Listhead 0 (len r) :: h) s (enc_list r).

Definition eb_extend (w : encbuf) (hs : list listhead) (s : bytes) : encbuf :=
  Encbuf (eb_str w ++ s) (eb_lheads w ++ map (shift_head (len (eb_str w))) hs)
    (eb_lhsize w + heads_size hs).

Lemma heads_size_app a b : heads_size (a ++ b) = heads_size a + heads_size b.
Proof. induction a; cbn; [done|]. rewrite IHa. lia. Qed.

Lemma heads_size_shift k a : heads_size (map (shift_head k) a) = heads_size a.
Proof. induction a; cbn; [done|]. now rewrite IHa. Qed.

Lemma map_shift_shift j k a :
  map (shift_head j) (map (shift_head k) a) = map (shift_head (j + k)) a.
Proof.
  rewrite map_map. apply map_ext. intros h. unfold shift_head; cbn. f_equal. lia.
Qed.

Lemma eb_extend_nil w s : eb_extend w [] s = eb_append s w.
Proof. unfold eb_extend, eb_append. cbn. by rewrite app_nil_r, Z.add_0_r. Qed.

Lemma eb_extend_extend w h1 s1 h2 s2 :
  eb_extend (eb_extend w h1 s1) h2 s2 = eb_extend w (h1 ++ map (shift_head (len s1)) h2) (s1 ++ s2).
Proof.
  unfold eb_extend; cbn. rewrite map_app, map_shift_shift, heads_size_app, heads_size_shift, len_app.
  rewrite <- !app_assoc. f_equal. lia.
Qed.

Lemma seg_len h s r : seg h s r -> len r = len s + heads_size h.
Proof.
  induction 1; cbn.
  - lia.
  - rewrite !len_app, heads_size_app, heads_size_shift. lia.
  - unfold enc_list. rewrite len_app, len_enc_head by (pose proof (len_nonneg r); lia). lia.
Qed.

Lemma eb_list_end w h s r :
  seg h s r ->
  let '(lh, w1) := eb_list w in
  eb_listEnd lh (eb_extend w1 h s) = eb_extend w (Listhead 0 (len r) :: h) s.
Proof.
  intros Hseg. cbn [eb_list]. unfold eb_listEnd, eb_extend; cbn.
  rewrite <- app_assoc. cbn [app].
  rewrite list_lookup_middle by done. cbn. unfold eb_size; cbn.
  rewrite !len_app.
  replace (len (eb_str w) + len s + (eb_lhsize w + heads_size h) - len (eb_str w) - eb_lhsize w)
    with (len r) by (rewrite (seg_len _ _ _ Hseg); lia).
  rewrite insert_app_r_alt, Nat.sub_diag by done. cbn.
  unfold shift_head at 2, headsize; cbn. rewrite Z.add_0_r.
  destruct (len r <? 56); f_equal; lia.
Qed.

Lemma zdrop_app_ge {A} n (l k : list A) : len l <= n -> zdrop n (l ++ k) = zdrop (n - len l) k.
Proof.
  unfold zdrop, len. intros H. rewrite drop_app_ge by lia. f_equal. lia.
Qed.

(** What the writer loop has emitted and what it still holds back. *)
Lemma seg_writer h s r :
  seg h s r -> forall pre pend post tl,
  exists out pre' pend',
    pre' ++ pend' = pre ++ pend ++ s /\ out ++ pend' = pend ++ r /\
    toWriter_loop (map (shift_head (len pre + len pend)) h ++ tl) (pre ++ pend ++ s ++ post) (len pre)
    = out ++ toWriter_loop tl (pre ++ pend ++ s ++ post) (len pre').
Proof.
  induction 1 as [s|h1 s1 r1 h2 s2 r2 H1 IH1 H2 IH2|h s r H IH L]; intros pre pend post tl.
  - exists [], pre, (pend ++ s). rewrite app_nil_l. done.
  - rewrite map_app, map_shift_shift, <- app_assoc.
    destruct (IH1 pre pend (s2 ++ post)
      (map (shift_head (len pre + len pend + len s1)) h2 ++ tl)) as (o1 & pre1 & pend1 & E1 & E2 & E3).
    rewrite <- !app_assoc. rewrite E3.
    destruct (IH2 pre1 pend1 post tl) as (o2 & pre2 & pend2 & F1 & F2 & F3).
    exists (o1 ++ o2), pre2, pend2.
    assert (EQ : pre ++ pend ++ s1 ++ s2 ++ post = pre1 ++ pend1 ++ s2 ++ post)
      by (rewrite (app_assoc pre1), E1, <- !app_assoc; done).
    split; [rewrite F1, (app_assoc pre1), E1, <- !app_assoc; done|].
    split; [rewrite <- app_assoc, F2, (app_assoc o1), E2, <- !app_assoc; done|].
    rewrite EQ, <- app_assoc. f_equal. rewrite <- F3. f_equal. f_equal. f_equal. f_equal.
    assert (LE : len (pre1 ++ pend1) = len (pre ++ pend ++ s1)) by now rewrite E1.
    rewrite !len_app in LE. lia.
  - cbn [map app toWriter_loop].
    change (shift_head (len pre + len pend) (Listhead 0 (len r)))
      with (Listhead (len pre + len pend + 0) (len r)); cbn [lh_offset].
    replace (len pre + len pend + 0 - len pre) with (len pend) by lia.
    assert (P : (if 0 <? len pend then ztake (len pend) (zdrop (len pre) (pre ++ pend ++ s ++ post))
                 else []) = pend).
    { rewrite zdrop_app_len, ztake_app_len.
      destruct (Z.ltb_spec 0 (len pend)); [done|].
      symmetry; apply len_zero_inv. pose proof (len_nonneg pend). lia. }
    rewrite P.
    destruct (IH (pre ++ pend) [] post tl) as (o & pre' & pend' & E1 & E2 & E3).
    exists (pend ++ enc_head 0xC0 0xF7 (len r) ++ o), pre', pend'.
    rewrite app_nil_l in *.
    split; [rewrite E1, <- app_assoc; done|].
    split; [unfold enc_list; rewrite <- !app_assoc, E2; done|].
    rewrite len_nil, Z.add_0_r, len_app, <- app_assoc in E3. cbn [app] in E3.
    unfold listhead_encode; cbn [lh_size].
    rewrite puthead_spec by (pose proof (len_nonneg r); lia).
    rewrite E3, <- !app_assoc. done.
Qed.

Lemma toWriter_seg h s r : seg h s r -> toWriter (eb_extend eb_reset h s) = r.
Proof.
  intros H. unfold toWriter, eb_extend; cbn [eb_str eb_lheads eb_reset app].
  destruct (seg_writer _ _ _ H [] [] [] []) as (o & pre & pend & E1 & E2 & E3).
  rewrite !app_nil_r in *. cbn [app] in *. change (len [] + len []) with (len (@nil Z)) in E3.
  change (len (@nil Z)) with 0 in *. rewrite E3, <- E2, <- E1. f_equal. cbn [toWriter_loop].
  rewrite zdrop_app_len, len_app. destruct (Z.ltb_spec (len pre) (len pre + len pend)); [done|].
  symmetry; apply len_zero_inv. pose proof (len_nonneg pend). lia.
Qed.

Lemma copy_at_fits dn rest src :
  len src <= len rest ->
  copy_at (dn ++ rest) (len dn) src = dn ++ src ++ zdrop (len src) rest.
Proof.
  intros H. unfold copy_at. rewrite len_app.
  replace (Z.min (len dn + len rest - len dn) (len src)) with (len src) by lia.
  rewrite ztake_app_len, zdrop_app_ge by (pose proof (len_nonneg src); lia).
  f_equal. f_equal; [|f_equal; lia].
  rewrite <- (app_nil_r src) at 2. apply ztake_app_len.
Qed.

Lemma toBytes_loop_fits heads str : forall dn rest strpos,
  len rest = len (toWriter_loop heads str strpos) -> 0 <= strpos ->
  toBytes_loop heads str (dn ++ rest) strpos (len dn)
  = Ok (dn ++ toWriter_loop heads str strpos).
Proof.
  induction heads as [|h heads IH]; intros dn rest strpos E Hs; cbn [toBytes_loop toWriter_loop] in *.
  - assert (W : (if strpos <? len str then zdrop strpos str else []) = zdrop strpos str).
    { destruct (Z.ltb_spec strpos (len str)); [done|].
      unfold zdrop. rewrite drop_ge; [done|]. unfold len in *. lia. }
    rewrite W in *. rewrite copy_at_fits by lia. do 2 f_equal.
    rewrite (len_zero_inv (zdrop (len (zdrop strpos str)) rest)), app_nil_r; [done|].
    rewrite len_zdrop; pose proof (len_nonneg (zdrop strpos str)); lia.
  - set (piece := if 0 <? lh_offset h - strpos then ztake (lh_offset h - strpos) (zdrop strpos str) else []) in *.
    assert (P : ztake (lh_offset h - strpos) (zdrop strpos str) = piece).
    { subst piece. destruct (Z.ltb_spec 0 (lh_offset h - strpos)); [done|].
      unfold ztake. replace (Z.to_nat (lh_offset h - strpos)) with O by lia. done. }
    rewrite P. rewrite !len_app in *.
    pose proof (len_nonneg (listhead_encode h)).
    pose proof (len_nonneg (toWriter_loop heads str (strpos + len piece))).
    pose proof (len_nonneg piece).
    replace (Z.min (len dn + len rest - len dn) (len piece)) with (len piece) by lia.
    rewrite copy_at_fits by lia. rewrite !len_app, len_zdrop by lia.
    destruct (Z.ltb_spec (len dn + (len piece + (len rest - len piece)) - (len dn + len piece))
                (len (listhead_encode h))); [lia|].
    rewrite (app_assoc dn), <- len_app.
    rewrite copy_at_fits by (rewrite len_zdrop; lia).
    rewrite (app_assoc (dn ++ piece)), <- len_app, IH by (rewrite ?len_zdrop; rewrite ?len_zdrop; lia).
    rewrite <- !app_assoc. done.
Qed.

Lemma toBytes_seg h s r : seg h s r -> toBytes (eb_extend eb_reset h s) = Ok r.
Proof.
  intros H. pose proof (toWriter_seg _ _ _ H) as W. unfold toWriter in W.
  unfold toBytes.
  rewrite <- (app_nil_l (repeat _ _)). change 0 with (len (@nil Z)) at 3.
  rewrite toBytes_loop_fits; [cbn [app]; now rewrite W| |lia].
  rewrite W, (seg_len _ _ _ H). unfold len at 1. rewrite repeat_length.
  unfold eb_size, eb_extend; cbn. pose proof (seg_len _ _ _ H). pose proof (len_nonneg r).
  rewrite Z2Nat.id; lia.
Qed.

(** ** Induction on types and values *)

Section RvalInd.
  Variable P : rval -> Prop.
  Hypothesis P_uint : forall i, P (VUint i).
  Hypothesis P_bool : forall b, P (VBool b).
  Hypothesis P_bytes : forall b, P (VBytes b).
  Hypothesis P_big : forall i, P (VBig i).
  Hypothesis P_list : forall vs, Forall P vs -> P (VList vs).
  Hypothesis P_struct : forall vs, Forall P vs -> P (VStruct vs).
  Hypothesis P_nil : P (VPtr None).
  Hypothesis P_ptr : forall v, P v -> P (VPtr (Some v)).
  Hypothesis P_inil : P (VIface None).
  Hypothesis P_iface : forall t v, P v -> P (VIface (Some (t, v))).

Fixpoint rval_ind (v : rval) : P v :=
    let fix go (vs : list rval) : Forall P vs :=
      match vs with
      | [] => Forall_nil_2 _
      | v :: vs => Forall_cons_2 _ _ _ (rval_ind v) (go vs)
      end in
    match v with
    | VUint i => P_uint i
    | VBool b => P_bool b
    | VBytes b => P_bytes b
    | VBig i => P_big i
    | VList vs => P_list vs (go vs)
    | VStruct vs => P_struct vs (go vs)
    | VPtr None => P_nil
    | VPtr (Some v) => P_ptr v (rval_ind v)
    | VIface None => P_inil
    | VIface (Some (t, v)) => P_iface t v (rval_ind v)
    end.
End RvalInd.

Section RtypeInd.
  Variable P : rtype -> Prop.
  Hypothesis P_uint : forall bits, P (TUint bits).
  Hypothesis P_bool : P TBool.
  Hypothesis P_string : P TString.
  Hypothesis P_big : P TBig.
  Hypothesis P_bytes : P TBytes.
  Hypothesis P_array : forall n, P (TByteArray n).
  Hypothesis P_raw : P TRaw.
  Hypothesis P_slice : forall t, P t -> P (TSlice t).
  Hypothesis P_tail : forall t, P t -> P (TTail t).
  Hypothesis P_arr : forall n t, P t -> P (TArray n t).
  Hypothesis P_struct : forall ts, Forall P ts -> P (TStruct ts).
  Hypothesis P_ptr : forall b t, P t -> P (TPtr b t).
  Hypothesis P_iface : P TIface.

Fixpoint rtype_ind (t : rtype) : P t :=
    let fix go (ts : list rtype) : Forall P ts :=
      match ts with
      | [] => Forall_nil_2 _
      | t :: ts => Forall_cons_2 _ _ _ (rtype_ind t) (go ts)
      end in
    match t with
    | TUint bits => P_uint bits
    | TBool => P_bool
    | TString => P_string
    | TBig => P_big
    | TBytes => P_bytes
    | TByteArray n => P_array n
    | TRaw => P_raw
    | TSlice t => P_slice t (rtype_ind t)
    | TTail t => P_tail t (rtype_ind t)
    | TArray n t => P_arr n t (rtype_ind t)
    | TStruct ts => P_struct ts (go ts)
    | TPtr b t => P_ptr b t (rtype_ind t)
    | TIface => P_iface
    end.
End RtypeInd.

(** ** Lemmas: the writers produce the reference encoding *)

(** The element and field loops of the slice and struct writers. *)
Definition writeElems (t : rtype) : list rval -> encbuf -> outcome rlp_error encbuf :=
  fix writeElems (vs : list rval) (w : encbuf) : outcome rlp_error encbuf :=
    match vs with
    | [] => Ok w
    | v :: vs => w ← write t v w; writeElems vs w
    end.

Fixpoint writeFields (ts : list rtype) (vs : list rval) (w : encbuf) {struct vs} : outcome rlp_error encbuf :=
  match ts, vs with
  | [], [] => Ok w
  | t :: ts, v :: vs => w ← write t v w; writeFields ts vs w
  | _, _ => Panic
  end.

Lemma wt_elems t vs :
  (fix wts (vs : list rval) : Prop :=
     match vs with [] => True | v :: vs => wt t v /\ wts vs end) vs <-> Forall (wt t) vs.
Proof.
  induction vs as [|v vs IH]; [done|]. rewrite Forall_cons_iff, <- IH. done.
Qed.

(** A writer appends a segment that renders to [out]. *)
Definition writes (m : encbuf -> outcome rlp_error encbuf) (out : bytes) : Prop :=
  forall w, exists h s, seg h s out /\ m w = Ok (eb_extend w h s).

Lemma writes_append s : writes (fun w => Ok (eb_append s w)) s.
Proof. intros w. exists [], s. split; [constructor|]. by rewrite eb_extend_nil. Qed.

Lemma writes_ret : writes (fun w => Ok w) [].
Proof.
  intros w. exists [], []. split; [constructor|]. destruct w. unfold eb_extend; cbn.
  by rewrite !app_nil_r, Z.add_0_r.
Qed.

Lemma writes_seq m1 m2 o1 o2 :
  writes m1 o1 -> writes m2 o2 -> writes (fun w => w ← m1 w; m2 w) (o1 ++ o2).
Proof.
  intros H1 H2 w. destruct (H1 w) as (h1 & s1 & S1 & E1).
  destruct (H2 (eb_extend w h1 s1)) as (h2 & s2 & S2 & E2).
  exists (h1 ++ map (shift_head (len s1)) h2), (s1 ++ s2). split; [by constructor|].
  rewrite E1; cbn. by rewrite E2, eb_extend_extend.
Qed.

Lemma writes_list m out :
  writes m out -> len out < 2 ^ 64 ->
  writes (fun w => let '(lh, w) := eb_list w in w ← m w; Ok (eb_listEnd lh w)) (enc_list out).
Proof.
  intros H L w. cbn [eb_list].
  destruct (H (snd (eb_list w))) as (h & s & S & E). cbn [eb_list snd] in E.
  exists (Listhead 0 (len out) :: h), s. split; [by constructor|].
  rewrite E; cbn. f_equal. apply (eb_list_end w h s out S).
Qed.

Lemma writes_elems t vs :
  Forall (fun v => writes (write t v) (enc_value t v)) vs ->
  writes (writeElems t vs) (concat (map (enc_value t) vs)).
Proof.
  induction 1 as [|v vs Hv Hvs IH]; cbn; [apply writes_ret|].
  exact (writes_seq _ _ _ _ Hv IH).
Qed.

Lemma len_enc_list_lt out n : len (enc_list out) < n -> len out < n.
Proof. unfold enc_list. rewrite len_app. pose proof (len_nonneg (enc_head 0xC0 0xF7 (len out))). lia. Qed.

Lemma len_enc_string_ge b : len b <= len (enc_string b).
Proof.
  unfold enc_string. destruct b as [|x [|y b]]; rewrite ?len_app; try case_goal; rewrite ?len_app;
  match goal with |- context [len (enc_head ?a ?b ?c)] => pose proof (len_nonneg (enc_head a b c)) | _ => idtac end; lia.
Qed.

Lemma writes_string b :
  len (enc_string b) < 2 ^ 64 -> writes (fun w => Ok (encodeString b w)) (enc_string b).
Proof.
  intros H w. rewrite encodeString_spec by (pose proof (len_enc_string_ge b); lia).
  apply writes_append.
Qed.

Lemma writes_nil t : writes (fun w => Ok (writeNil t w)) (enc_nil t).
Proof.
  induction t as [| | | | | | | | | | | |] using rtype_ind; intros w; cbn [writeNil enc_nil];
    try (apply writes_append); try apply IHt; try (apply (writes_string []); reflexivity);
    try (apply (writes_list (fun w => Ok w) []); [apply writes_ret|reflexivity]).
  apply writes_ret.
Qed.

Lemma writes_fields ts : forall vs,
  Forall (fun v => forall t, wt t v -> len (enc_value t v) < 2 ^ 64 ->
                   writes (write t v) (enc_value t v)) vs ->
  wt_fields ts vs -> len (enc_fields ts vs) < 2 ^ 64 ->
  writes (writeFields ts vs) (enc_fields ts vs).
Proof.
  induction ts as [|t ts IH]; intros [|v vs] F W L; cbn in W |- *; try done.
  - apply writes_ret.
  - apply Forall_cons_iff in F as [Fv F]. destruct W as [Wv W].
    cbn [enc_fields] in L. rewrite len_app in L.
    pose proof (len_nonneg (enc_value t v)). pose proof (len_nonneg (enc_fields ts vs)).
    exact (writes_seq _ _ _ _ (Fv t Wv ltac:(lia)) (IH vs F W ltac:(lia))).
Qed.

Lemma Forall_writes t vs :
  Forall (fun v => forall t, wt t v -> len (enc_value t v) < 2 ^ 64 ->
                   writes (write t v) (enc_value t v)) vs ->
  Forall (wt t) vs -> len (concat (map (enc_value t) vs)) < 2 ^ 64 ->
  Forall (fun v => writes (write t v) (enc_value t v)) vs.
Proof.
  induction 1 as [|v vs Hv Hvs IH]; intros W L; constructor;
    apply Forall_cons_iff in W as [Wv W]; cbn in L; rewrite len_app in L;
    pose proof (len_nonneg (enc_value t v)); pose proof (len_nonneg (concat (map (enc_value t) vs)));
    [apply Hv; [done|lia] | apply IH; [done|lia]].
Qed.

Lemma write_spec v : forall t,
  wt t v -> len (enc_value t v) < 2 ^ 64 -> writes (write t v) (enc_value t v).
Proof.
  induction v as [i|b|b|i|vs IH|vs IH| |v IH| |t' v IH] using rval_ind;
    intros [bits| | | | |n| |t|t|n t|ts|nk t|] W L; try done; cbn in W.
  - intros w. cbn [write]. rewrite writeUint_spec; [apply writes_append|].
    destruct W as [W1 W2]. pose proof (Z.pow_le_mono_r 2 bits 64). lia.
  - intros w. destruct b; apply (writes_append _ w).
  - apply writes_string, L.
  - apply writes_string, L.
  - apply writes_string, L.
  - apply writes_append.
  - intros w. destruct i as [i|]; [|apply (writes_append _ w)]. cbn [write writeBigInt default] in *.
    unfold writeBigInt. zdecide. cbn in W. destruct (Z.ltb_spec i 0); [lia|].
    destruct (Z.eqb_spec i 0) as [->|N]; [apply (writes_append _ w)|].
    apply writes_string, L.
  - rewrite wt_elems in W. apply len_enc_list_lt in L as L'.
    apply (writes_list (writeElems t vs)); [|done]. apply writes_elems, Forall_writes; done.
  - rewrite wt_elems in W. apply (writes_elems t vs), Forall_writes; done.
  - destruct W as [_ W]. rewrite wt_elems in W. apply len_enc_list_lt in L as L'.
    apply (writes_list (writeElems t vs)); [|done]. apply writes_elems, Forall_writes; done.
  - apply len_enc_list_lt in L as L'.
    apply (writes_list (writeFields ts vs)); [|done]. apply writes_fields; done.
  - apply writes_nil.
  - apply (IH t W L).
  - apply writes_append.
  - apply (IH t' W L).
Qed.

(** ** Lemmas: the splitter *)

Lemma land_shift_small a b k : 0 <= k -> 0 < b < 2 ^ k -> Z.land (Z.shiftl a k) b = 0.
Proof.
  intros Hk Hb. apply Z.bits_inj'; intros n Hn. rewrite Z.land_spec, Z.bits_0.
  destruct (Z.ltb_spec n k); [by rewrite Z.shiftl_spec_low by lia|].
  rewrite (Z.bits_above_log2 b n), andb_false_r; [done|lia|].
  apply Z.log2_lt_pow2; [lia|]. eapply Z.lt_le_trans; [apply Hb|apply Z.pow_le_mono_r; lia].
Qed.

Lemma lor_shift_add a b k : 0 <= k -> 0 <= b < 2 ^ k -> Z.lor (Z.shiftl a k) b = Z.shiftl a k + b.
Proof.
  intros Hk Hb. destruct (Z.eq_dec b 0) as [->|N]; [by rewrite Z.lor_0_r, Z.add_0_r|].
  rewrite <- Z.lxor_lor, Z.add_nocarry_lxor by (apply land_shift_small; lia). done.
Qed.

(** A big-endian word built with shifts and ors, from the most significant byte. *)
Lemma lor_step x b k : 0 <= k -> byte_ok b ->
  Z.lor (Z.shiftl x (8 + k)) (Z.shiftl b k) = Z.shiftl (x * 256 + b) k.
Proof.
  intros Hk Hb. unfold byte_ok in Hb.
  rewrite <- Z.shiftl_shiftl, <- Z.shiftl_lor, lor_shift_add by (cbn; lia).
  by rewrite (Z.shiftl_mul_pow2 x 8) by lia.
Qed.

Lemma lor_last x b : byte_ok b -> Z.lor (Z.shiftl x 8) b = x * 256 + b.
Proof.
  intros Hb. pose proof (lor_step x b 0 ltac:(lia) Hb) as E. by rewrite !Z.shiftl_0_r in E.
Qed.

Lemma at_byte_ok b i : bytes_ok b -> byte_ok (at_ b i).
Proof.
  intros H. unfold at_. destruct (nth_in_or_default i b 0) as [I|E].
  - exact (proj1 (Forall_forall _ _) H _ I).
  - rewrite E. unfold byte_ok. lia.
Qed.

Lemma be_decode_take_S b n :
  (n < length b)%nat -> be_decode (take (S n) b) = be_decode (take n b) * 256 + at_ b n.
Proof.
  intros H. unfold at_. destruct (lookup_lt_is_Some_2 b n H) as [x Hx].
  rewrite (take_S_r _ _ _ Hx), be_decode_app, (nth_lookup_Some _ _ _ _ Hx). done.
Qed.

Definition size_word (b : bytes) (slen : Z) : Z := be_decode (ztake slen b).

Lemma readSize_spec b slen :
  bytes_ok b -> 1 <= slen <= 8 ->
  readSize b slen =
    if len b <? slen then Err ErrUnexpectedEOF
    else if (size_word b slen <? 56) || (at_ b 0 =? 0) then Err ErrCanonSize
    else Ok (size_word b slen).
Proof.
  intros Hb Hs. unfold readSize, size_word. destruct (Z.ltb_spec (len b) slen) as [L|L]; [done|].
  assert (S : slen = 1 \/ slen = 2 \/ slen = 3 \/ slen = 4 \/ slen = 5 \/ slen = 6 \/ slen = 7 \/ slen = 8) by lia.
  unfold len in L.
  destruct S as [->|[->|[->|[->|[->|[->|[->| ->]]]]]]]; cbn [Z.eqb Pos.eqb];
    unfold ztake;
    match goal with
    | |- context [Z.to_nat ?k] => let n := eval vm_compute in (Z.to_nat k) in change (Z.to_nat k) with n
    end;
    rewrite !be_decode_take_S by lia; cbn [take]; change (be_decode []) with 0;
    rewrite ?(lor_step _ _ 48), ?(lor_step _ _ 40), ?(lor_step _ _ 32), ?(lor_step _ _ 24),
      ?(lor_step _ _ 16), ?(lor_step _ _ 8), ?lor_last by (lia || by apply at_byte_ok);
    rewrite ?Z.mul_0_l, ?Z.add_0_l; done.
Qed.

Definition string_kind (b : bytes) : Kind :=
  match b with [x] => if x <=? 0x7F then KByte else KString | _ => KString end.

(** The encoding of an item of kind [k] with content [c]. *)
Definition enc_item (k : Kind) (c : bytes) : bytes :=
  match k with KList => enc_list c | _ => enc_string c end.

Lemma size_word_be_min n tl : size_word (be_min n ++ tl) (len (be_min n)) = be_decode (be_min n).
Proof. unfold size_word. by rewrite ztake_app_len. Qed.

Lemma len_be_min_pos n : 0 < n -> 1 <= len (be_min n).
Proof.
  intros H. pose proof (be_min_nonempty n H). destruct (be_min n) as [|x l]; [done|].
  rewrite len_cons. pose proof (len_nonneg l). lia.
Qed.

Lemma readSize_be_min n tl :
  56 <= n < 2 ^ 64 -> bytes_ok tl -> readSize (be_min n ++ tl) (len (be_min n)) = Ok n.
Proof.
  intros Hn Ht. pose proof (len_be_min_u64 n ltac:(lia)). pose proof (len_be_min_pos n ltac:(lia)).
  rewrite readSize_spec, size_word_be_min, be_decode_min, len_app
    by (lia || (apply bytes_ok_app; auto with aq)).
  pose proof (len_nonneg tl). zdecide.
  pose proof (be_min_hd n) as HD. destruct (be_min n) as [|x l]; [done|]. cbn in *.
  destruct (Z.eqb_spec x 0) as [->|]; done.
Qed.

(** What a header announces, for both families of headers. *)
Lemma kindTag_head k small large n tl :
  (k, small, large) = (KString, 0x80, 0xB7) \/ (k, small, large) = (KList, 0xC0, 0xF7) ->
  0 <= n < 2 ^ 64 -> bytes_ok tl ->
  (k = KString -> n = 1 -> exists x tl', tl = x :: tl' /\ 128 <= x) ->
  exists b hd, enc_head small large n = b :: hd /\
               kindTag b (hd ++ tl) = Ok (k, len (enc_head small large n), n).
Proof.
  intros Hk Hn Ht H1. unfold enc_head. destruct (Z.ltb_spec n 56) as [S|S].
  - exists (small + n), []. split; [done|]. unfold kindTag.
    destruct Hk as [[= -> -> ->]|[= -> -> ->]]; zdecide.
    + replace (0x80 + n - 0x80) with n by lia. destruct (Z.eqb_spec n 1) as [->|]; [|done].
      destruct (H1 eq_refl eq_refl) as (x & tl' & -> & Hx). cbn [app]. zdecide. done.
    + by replace (0xC0 + n - 0xC0) with n by lia.
  - pose proof (len_be_min_u64 n ltac:(lia)). pose proof (len_be_min_pos n ltac:(lia)).
    exists (large + len (be_min n)), (be_min n). split; [done|]. unfold kindTag.
    destruct Hk as [[= -> -> ->]|[= -> -> ->]]; zdecide; rewrite Z.add_simpl_l, readSize_be_min, len_cons by (done || lia);
      cbn -[len]; by rewrite Z.add_comm.
Qed.

Lemma readKind_tag b tl k ts cs :
  kindTag b tl = Ok (k, ts, cs) -> 0 <= ts <= len (b :: tl) -> len (b :: tl) < 2 ^ 64 ->
  readKind (b :: tl) = if len (b :: tl) - ts <? cs then Err ErrValueTooLarge else Ok (k, ts, cs).
Proof.
  intros H Ht L. unfold readKind. rewrite H. cbn -[len u64].
  rewrite u64_small; [done|]. unfold is_u64. lia.
Qed.

Lemma readKind_head k small large n tl :
  (k, small, large) = (KString, 0x80, 0xB7) \/ (k, small, large) = (KList, 0xC0, 0xF7) ->
  0 <= n <= len tl -> len (enc_head small large n ++ tl) < 2 ^ 64 -> bytes_ok tl ->
  (k = KString -> n = 1 -> exists x tl', tl = x :: tl' /\ 128 <= x) ->
  readKind (enc_head small large n ++ tl) = Ok (k, len (enc_head small large n), n).
Proof.
  intros Hk Hn L Ht H1. pose proof (len_nonneg (enc_head small large n)).
  destruct (kindTag_head k small large n tl Hk) as (b & hd & E & T); [|done|done|];
    rewrite ?len_app in L; [lia|].
  rewrite E in *. cbn [app] in *.
  erewrite readKind_tag by (exact T || (rewrite app_comm_cons, len_app; lia)).
  rewrite app_comm_cons, len_app. by zdecide.
Qed.

Lemma Split_enc_item_aux head c rest k :
  readKind (head ++ c ++ rest) = Ok (k, len head, len c) ->
  Split (head ++ c ++ rest) = Ok (k, c, rest).
Proof.
  intros H. unfold Split. rewrite H. cbn -[len].
  rewrite zdrop_app_len, ztake_app_len. do 2 f_equal.
  by rewrite app_assoc, <- len_app, zdrop_app_len.
Qed.

Lemma Split_enc_string c rest :
  bytes_ok (c ++ rest) -> len (enc_string c ++ rest) < 2 ^ 64 ->
  Split (enc_string c ++ rest) = Ok (string_kind c, c, rest).
Proof.
  intros Hok L. pose proof (len_nonneg rest) as Lr. pose proof (len_nonneg c) as Lc.
  assert (G : enc_string c = enc_head 0x80 0xB7 (len c) ++ c ->
     string_kind c = KString -> (len c = 1 -> exists x, c = [x] /\ 128 <= x) ->
     Split (enc_string c ++ rest) = Ok (string_kind c, c, rest)).
  { intros E K H1. rewrite E, K in *. rewrite <- app_assoc in *. apply Split_enc_item_aux.
    apply readKind_head; [by left|rewrite len_app; lia|done|done|].
    intros _ E1. destruct (H1 E1) as (x & -> & Hx). by exists x, rest. }
  destruct c as [|x [|y c]].
  - by apply G.
  - unfold enc_string, string_kind in *. destruct (Z.leb_spec x 0x7F) as [Hx|Hx].
    + apply bytes_ok_app in Hok as [Hok _]. apply bytes_ok_cons in Hok as [Hx' _]. unfold byte_ok in Hx'.
      cbn [app] in *. apply (Split_enc_item_aux [] [x] rest). cbn [app].
      erewrite readKind_tag; [|unfold kindTag; by zdecide|rewrite len_cons; lia|done].
      rewrite len_cons. zdecide. done.
    + apply G; [by zdecide..|]. intros _. exists x. split; [done|lia].
  - apply G; [done..|]. intros E1. rewrite !len_cons in E1.
    pose proof (len_nonneg c). lia.
Qed.

Lemma Split_enc_list c rest :
  bytes_ok (c ++ rest) -> len (enc_list c ++ rest) < 2 ^ 64 ->
  Split (enc_list c ++ rest) = Ok (KList, c, rest).
Proof.
  intros Hok L. unfold enc_list in *. rewrite <- app_assoc in *. apply Split_enc_item_aux.
  pose proof (len_nonneg rest). pose proof (len_nonneg c).
  apply readKind_head; [by right|rewrite len_app; lia|done..].
Qed.

Lemma readSize_inv tl slen s :
  bytes_ok tl -> 1 <= slen <= 8 -> readSize tl slen = Ok s ->
  56 <= s < 2 ^ 64 /\ slen <= len tl /\ be_min s = ztake slen tl.
Proof.
  intros Hok Hs. rewrite readSize_spec by done.
  destruct (Z.ltb_spec (len tl) slen); [done|].
  destruct (_ || _) eqn:E; [done|]. intros [= <-]. zbool. unfold size_word in *.
  pose proof (be_decode_range _ (bytes_ok_ztake slen tl Hok)) as R.
  rewrite len_ztake in R by lia.
  pose proof (Z.pow_le_mono_r 256 slen 8 ltac:(lia) ltac:(lia)).
  change (256 ^ 8) with (2 ^ 64) in *.
  split; [lia|]. split; [done|]. apply be_min_decode; [auto with aq|].
  destruct tl as [|x tl]; [by rewrite len_nil in *; lia|].
  unfold ztake. replace (Z.to_nat slen) with (S (Z.to_nat (slen - 1))) by lia. cbn in *. congruence.
Qed.

Lemma enc_head_split small large s slen tl :
  56 <= s < 2 ^ 64 -> be_min s = ztake slen tl -> 0 <= slen <= len tl ->
  (large + slen) :: tl = enc_head small large s ++ zdrop slen tl /\
  slen + 1 = len (enc_head small large s).
Proof.
  intros Hs E L. unfold enc_head. zdecide. rewrite E, len_cons, len_ztake by lia. cbn [app].
  rewrite ztake_zdrop. split; [done|lia].
Qed.

Lemma kindTag_inv b tl k ts cs :
  kindTag b tl = Ok (k, ts, cs) -> bytes_ok (b :: tl) ->
  (k = KByte /\ ts = 0 /\ cs = 1 /\ b < 0x80) \/
  exists small large tl',
    ((k, small, large) = (KString, 0x80, 0xB7) \/ (k, small, large) = (KList, 0xC0, 0xF7)) /\
    0 <= cs < 2 ^ 64 /\ ts = len (enc_head small large cs) /\
    b :: tl = enc_head small large cs ++ tl' /\
    (k = KString -> cs = 1 -> exists x tl'', tl' = x :: tl'' /\ 128 <= x).
Proof.
  intros H Hok. apply bytes_ok_cons in Hok as [Hb Hok]. unfold byte_ok in Hb. unfold kindTag in H.
  destruct (Z.ltb_spec b 0x80); [left; by inversion H|]. right.
  destruct (Z.ltb_spec b 0xB8).
  { exists 0x80, 0xB7, tl. split; [|split; [|split; [|split]]];
      destruct (Z.eqb_spec (b - 0x80) 1); try (destruct tl as [|y tl]; [done|]; destruct (Z.ltb_spec y 128); [done|]);
      injection H as <- <- <-; try (by left); try lia; try (unfold enc_head; zdecide; done);
      try (unfold enc_head; zdecide; cbn; f_equal; lia); intros; try lia; by exists y, tl. }
  destruct (Z.ltb_spec b 0xC0).
  { apply outcome_bind_ok in H as (s & Hs & [= <- <- <-]).
    apply readSize_inv in Hs as (S1 & S2 & S3); [|done|lia].
    destruct (enc_head_split 0x80 0xB7 s (b - 0xB7) tl S1 S3 ltac:(lia)) as [E1 E2].
    rewrite Zplus_minus in E1. exists 0x80, 0xB7, (zdrop (b - 0xB7) tl).
    split; [by left|]. split; [lia|]. split; [done|]. split; [done|]. intros; lia. }
  destruct (Z.ltb_spec b 0xF8).
  { injection H as <- <- <-. exists 0xC0, 0xF7, tl. split; [by right|]. split; [lia|].
    unfold enc_head; zdecide. split; [done|]. split; [cbn; f_equal; lia|done]. }
  apply outcome_bind_ok in H as (s & Hs & [= <- <- <-]).
  apply readSize_inv in Hs as (S1 & S2 & S3); [|done|lia].
  destruct (enc_head_split 0xC0 0xF7 s (b - 0xF7) tl S1 S3 ltac:(lia)) as [E1 E2].
  rewrite Zplus_minus in E1. exists 0xC0, 0xF7, (zdrop (b - 0xF7) tl).
  split; [by right|]. split; [lia|]. split; [done|]. split; [done|]. done.
Qed.

Lemma readKind_inv buf k ts cs :
  readKind buf = Ok (k, ts, cs) -> bytes_ok buf -> len buf < 2 ^ 64 ->
  (k = KByte /\ ts = 0 /\ cs = 1 /\ exists b tl, buf = b :: tl /\ b < 0x80) \/
  exists small large tl',
    ((k, small, large) = (KString, 0x80, 0xB7) \/ (k, small, large) = (KList, 0xC0, 0xF7)) /\
    0 <= cs <= len tl' /\ ts = len (enc_head small large cs) /\
    buf = enc_head small large cs ++ tl' /\
    (k = KString -> cs = 1 -> exists x tl'', tl' = x :: tl'' /\ 128 <= x).
Proof.
  intros H Hok L. destruct buf as [|b tl]; [done|]. unfold readKind in H.
  apply outcome_bind_ok in H as ([[k' ts'] cs'] & T & H).
  destruct (u64 _ <? _) eqn:E; [done|]. injection H as -> -> ->. zbool.
  destruct (kindTag_inv _ _ _ _ _ T Hok) as [(-> & -> & -> & Hb)|(small & large & tl' & F & C & -> & E' & X)].
  - left. eauto 10.
  - right. exists small, large, tl'. repeat split; try done; [lia|].
    rewrite E', len_app, u64_small in E; [lia|].
    rewrite E', len_app in L. pose proof (len_nonneg tl').
    pose proof (len_nonneg (enc_head small large cs)). unfold is_u64; lia.
Qed.

Lemma enc_string_head c :
  (len c = 1 -> 128 <= at_ c 0) -> enc_string c = enc_head 0x80 0xB7 (len c) ++ c.
Proof.
  intros H. destruct c as [|x [|y c]]; try done. unfold enc_string.
  specialize (H eq_refl). cbn in H. by zdecide.
Qed.

Lemma bytes_ok_enc_string c : bytes_ok (enc_string c) -> bytes_ok c.
Proof.
  unfold enc_string. destruct c as [|x [|y c]]; [constructor| |];
    try case_goal; rewrite ?bytes_ok_app; tauto.
Qed.

Lemma Split_inv b k c rest :
  Split b = Ok (k, c, rest) -> bytes_ok b -> len b < 2 ^ 64 ->
  b = enc_item k c ++ rest /\ (k <> KList -> k = string_kind c).
Proof.
  intros H Hok L. unfold Split in H. apply outcome_bind_ok in H as ([[k' ts] cs] & R & [= -> <- <-]).
  destruct (readKind_inv _ _ _ _ R Hok L)
    as [(-> & -> & -> & b0 & tl & -> & Hb)|(small & large & tl' & F & C & -> & -> & X)].
  - change (b0 :: tl = enc_string [b0] ++ tl /\ (KByte <> KList -> KByte = string_kind [b0])).
    unfold enc_string, string_kind. by zdecide.
  - rewrite zdrop_app_len, zdrop_app_ge by lia.
    replace (_ + cs - _) with cs by lia.
    pose proof (len_ztake cs tl' C) as Lc.
    destruct F as [[= -> -> ->]|[= -> -> ->]]; cbn [enc_item].
    + assert (H1 : len (ztake cs tl') = 1 -> 128 <= at_ (ztake cs tl') 0).
      { rewrite Lc. intros ->. destruct (X eq_refl eq_refl) as (x & tl'' & -> & Hx). done. }
      rewrite enc_string_head by done. rewrite Lc, <- app_assoc, ztake_zdrop. split; [done|].
      intros _. unfold string_kind. destruct (ztake cs tl') as [|x [|y l]]; try done.
      specialize (H1 eq_refl). cbn in H1. by zdecide.
    + unfold enc_list. rewrite Lc, <- app_assoc, ztake_zdrop. done.
Qed.

Lemma readKind_consumes b tl k ts cs : readKind (b :: tl) = Ok (k, ts, cs) -> 0 < ts + cs.
Proof.
  unfold readKind. intros H. apply outcome_bind_ok in H as ([[k' ts'] cs'] & T & H).
  destruct (_ <? _); [done|]. injection H as -> -> ->. revert T. unfold kindTag.
  assert (RS : forall t n s, readSize t n = Ok s -> 56 <= s).
  { intros t n s. unfold readSize. case_goal; [done|].
    cbv zeta. match goal with |- context [?x <? 56] => set (w := x) end.
    destruct (_ || _) eqn:E'; [done|]. intros [= <-]. zbool. done. }
  repeat (case_goal; try done); try (intros [= <- <- <-]; zbool; lia);
    intros H; apply outcome_bind_ok in H as (s & Hs & [= <- <- <-]);
    apply RS in Hs; zbool; lia.
Qed.

Lemma CountValues_loop_fuel fuel : forall b i,
  (length b < fuel)%nat -> CountValues_loop fuel b i <> OutOfFuel.
Proof.
  induction fuel as [|fuel IH]; intros b i Hf; [lia|]. cbn [CountValues_loop].
  destruct b as [|x b]; [done|].
  destruct (readKind (x :: b)) as [[[k ts] cs]| | |] eqn:R; cbn; try done.
  - apply IH. apply readKind_consumes in R. unfold zdrop. rewrite length_drop. cbn in *. lia.
  - revert R. unfold readKind, kindTag, readSize. repeat (cbn; case_goal; try done).
Qed.

(** ** Properties *)

Lemma EncodeToBytes_spec t v :
  wt t v -> len (enc_value t v) < 2 ^ 64 ->
  EncodeToBytes t v = Ok (enc_value t v) /\ Encode t v = Ok (enc_value t v).
Proof.
  intros W L. destruct (write_spec v t W L eb_reset) as (h & s & S & E).
  unfold EncodeToBytes, Encode. rewrite E. cbn -[toBytes toWriter].
  by rewrite (toBytes_seg _ _ _ S), (toWriter_seg _ _ _ S).
Qed.

(** C33. The buffered encoder is RLP: on every well-typed value whose encoding fits a
    64-bit length, [EncodeToBytes] (which fills an array of the size accounted for the
    list headers) and [Encode] (which streams the same buffer) both succeed and
    return the reference encoding, whatever the nesting of lists.  Booleans are among the
    values: they are encoded as the integers 0 and 1. *)
Theorem EncodeToBytes_correct t v :
  wt t v -> len (enc_value t v) < 2 ^ 64 ->
  EncodeToBytes t v = Ok (enc_value t v) /\ Encode t v = Ok (enc_value t v).
Proof. apply EncodeToBytes_spec. Qed.

Lemma EncodeToBytes_correct_witness :
  let t := TStruct [TUint 64; TSlice (TPtr false (TByteArray 3)); TString] in
  let v := VStruct [VUint 128; VList [VPtr None; VPtr (Some (VBytes [1; 2; 3]))]; VBytes [7]] in
  EncodeToBytes t v = Ok [0xC9; 0x81; 0x80; 0xC5; 0x80; 0x83; 1; 2; 3; 7] /\
  Encode t v = Ok [0xC9; 0x81; 0x80; 0xC5; 0x80; 0x83; 1; 2; 3; 7].
Proof.
  apply (EncodeToBytes_correct (TStruct [TUint 64; TSlice (TPtr false (TByteArray 3)); TString])
           (VStruct [VUint 128; VList [VPtr None; VPtr (Some (VBytes [1; 2; 3]))]; VBytes [7]]));
    [|vm_compute; reflexivity].
  cbn. unfold byte_ok. repeat (split || constructor || lia).
Defined.

Lemma Split_enc_item k c rest :
  bytes_ok (enc_item k c ++ rest) -> len (enc_item k c ++ rest) < 2 ^ 64 ->
  (k <> KList -> k = string_kind c) -> Split (enc_item k c ++ rest) = Ok (k, c, rest).
Proof.
  intros Hok L Hk. destruct k; cbn [enc_item] in *.
  1,2: rewrite Hk by done; apply Split_enc_string; [|done].
  3: apply Split_enc_list; [|done].
  all: apply bytes_ok_app in Hok as [Ho Hr]; apply bytes_ok_app; split; [|done].
  1,2: by apply bytes_ok_enc_string.
  by apply bytes_ok_app in Ho as [_ Ho].
Qed.

(** [Split] accepts exactly the canonical encodings: it returns kind, content and
    rest of a buffer if and only if the buffer is the canonical encoding of that
    content, with that kind, followed by that rest.  So an item has one accepted
    encoding. *)
Theorem Split_canonical b k c rest :
  bytes_ok b -> len b < 2 ^ 64 ->
  Split b = Ok (k, c, rest) <->
  b = enc_item k c ++ rest /\ (k <> KList -> k = string_kind c).
Proof.
  intros Hok L. split; [intros H; by apply Split_inv|]. intros [-> Hk]. by apply Split_enc_item.
Qed.

Lemma Split_canonical_witness :
  Split [0x82; 4; 0; 9] = Ok (KString, [4; 0], [9]) /\ [0x82; 4; 0; 9] = enc_item KString [4; 0] ++ [9].
Proof.
  assert (S : Split [0x82; 4; 0; 9] = Ok (KString, [4; 0], [9])) by reflexivity.
  split; [exact S|]. eapply Split_canonical in S; [exact (proj1 S)| |reflexivity].
  repeat constructor; unfold byte_ok; lia.
Defined.

(** The splitter reads [buf[1]] before it knows that the buffer has a second byte:
    on the one-byte buffer [0x81], and on no other, it panics instead of returning
    [ErrValueTooLarge]. *)
Theorem Split_panics_iff b : Split b = Panic <-> b = [0x81].
Proof.
  split; [|by intros ->]. unfold Split, readKind.
  destruct b as [|x tl]; [done|].
  destruct (kindTag x tl) as [[[k ts] cs]| | |] eqn:T; cbn; try done; [by destruct (_ <? _)|].
  intros _. revert T. unfold kindTag.
  assert (RS : forall t n, readSize t n <> Panic).
  { intros t n. unfold readSize. case_goal; [done|]. cbv zeta. by destruct (_ || _). }
  repeat (case_goal; try done); try (intros H; exfalso; destruct (readSize _ _) eqn:R; by try apply RS in R).
  zbool. intros _. f_equal. lia.
Qed.

Lemma CountValues_items items : forall fuel i,
  Forall (fun '(k, c) => k <> KList -> k = string_kind c) items ->
  bytes_ok (concat (map (fun '(k, c) => enc_item k c) items)) ->
  len (concat (map (fun '(k, c) => enc_item k c) items)) < 2 ^ 64 ->
  (length (concat (map (fun '(k, c) => enc_item k c) items)) < fuel)%nat ->
  CountValues_loop fuel (concat (map (fun '(k, c) => enc_item k c) items)) i = Ok (i + len items).
Proof.
  induction items as [|[k c] items IH]; intros fuel i F Hok L Hf.
  - destruct fuel; [cbn in Hf; lia|]. rewrite len_nil, Z.add_0_r. done.
  - apply Forall_cons_iff in F as [Fk F]. cbn [map concat] in *.
    destruct fuel as [|fuel]; [lia|].
    set (rest := concat _) in *.
    assert (Sp : Split (enc_item k c ++ rest) = Ok (k, c, rest)) by (by apply Split_enc_item).
    unfold Split in Sp. apply outcome_bind_ok in Sp as ([[k' ts] cs] & R & [= -> _ E2]).
    destruct (enc_item k c ++ rest) as [|x tl] eqn:E; [done|].
    cbn [CountValues_loop]. rewrite R. cbn -[len]. rewrite E2.
    apply readKind_consumes in R. rewrite <- E in *.
    apply bytes_ok_app in Hok as [_ Hok]. rewrite len_app in L.
    pose proof (len_nonneg (enc_item k c)).
    assert (length rest < fuel)%nat.
    { assert (length rest < length (enc_item k c ++ rest))%nat; [|lia].
      rewrite <- E2 at 1. unfold zdrop. rewrite length_drop, E. cbn [length]. lia. }
    rewrite IH by (done || lia). rewrite len_cons. f_equal. lia.
Qed.

(** [CountValues] returns on every input (its loop consumes at least a byte a
    turn), and on a concatenation of canonical items it returns their number. *)
Theorem CountValues_correct items :
  Forall (fun '(k, c) => k <> KList -> k = string_kind c) items ->
  bytes_ok (concat (map (fun '(k, c) => enc_item k c) items)) ->
  len (concat (map (fun '(k, c) => enc_item k c) items)) < 2 ^ 64 ->
  CountValues (concat (map (fun '(k, c) => enc_item k c) items)) = Ok (len items) /\
  forall b, CountValues b <> OutOfFuel.
Proof.
  intros F Hok L. split.
  - unfold CountValues. rewrite CountValues_items by (done || lia). done.
  - intros b. apply CountValues_loop_fuel. lia.
Qed.

Lemma CountValues_correct_witness :
  CountValues [0x83; 1; 2; 3; 0x05; 0xC1; 0x80] = Ok 3 /\ forall b, CountValues b <> OutOfFuel.
Proof.
  apply (CountValues_correct [(KString, [1; 2; 3]); (KByte, [5]); (KList, [0x80])]).
  - repeat constructor; done.
  - vm_compute; repeat constructor; discriminate.
  - vm_compute; reflexivity.
Defined.
