(* ===== verification/RlpStream.v ===== *)
(** * Package [rlp]: the stream decoder

    [src/pkg/rlp/decode.go]: the [Stream] state machine over a byte reader (kind of the
    value ahead, stack of open lists, input limit) and the decoders that [makeDecoder]
    selects from the reflected type.  The theorems relate it to the reference encoding
    of [Rlp]: decoding undoes encoding, and only canonical encodings are accepted. *)

From S2P Require Import Prelude Rlp.

(** ** The stream *)

(** [s_in] is what is left in the [bytes.Reader]; [s_kind = None] is the code's
    [kind = -1]; the innermost open list is the head of [s_stack]. *)
Record listpos := Listpos { lp_pos : Z; lp_size : Z }.

Record stream := Stream {
  s_in : bytes;
  s_remaining : Z;
  s_limited : bool;
  s_kind : option Kind;
  s_size : Z;
  s_byteval : Z;
  s_kinderr : option rlp_error;
  s_stack : list listpos
}.

(** Stream operations keep the stream they leave behind, also when they fail. *)
Definition sm (A : Type) : Type := stream -> outcome rlp_error A * stream.

Definition sm_ret {A} (a : A) : sm A := fun s => (Ok a, s).
Definition sm_err {A} (e : rlp_error) : sm A := fun s => (Err e, s).
Definition sm_panic {A} : sm A := fun s => (Panic, s).
Definition sm_nofuel {A} : sm A := fun s => (OutOfFuel, s).

Definition sm_bind {A B} (m : sm A) (f : A -> sm B) : sm B := fun s =>
  match m s with
  | (Ok a, s) => f a s
  | (Err e, s) => (Err e, s)
  | (Panic, s) => (Panic, s)
  | (OutOfFuel, s) => (OutOfFuel, s)
  end.

(** [if err != nil { return f(err) }] *)
Definition sm_wrap {A} (f : rlp_error -> rlp_error) (m : sm A) : sm A := fun s =>
  let '(r, s) := m s in (map_err f r, s).

Notation "x <- m ;; k" := (sm_bind m (fun x => k))
  (at level 100, m at next level, right associativity) : aq_scope.

Definition set_kind (k : option Kind) (s : stream) : stream :=
  Stream (s_in s) (s_remaining s) (s_limited s) k (s_size s) (s_byteval s) (s_kinderr s) (s_stack s).
Definition set_size (n : Z) (s : stream) : stream :=
  Stream (s_in s) (s_remaining s) (s_limited s) (s_kind s) n (s_byteval s) (s_kinderr s) (s_stack s).
Definition set_byteval (b : Z) (s : stream) : stream :=
  Stream (s_in s) (s_remaining s) (s_limited s) (s_kind s) (s_size s) b (s_kinderr s) (s_stack s).
Definition set_kinderr (e : option rlp_error) (s : stream) : stream :=
  Stream (s_in s) (s_remaining s) (s_limited s) (s_kind s) (s_size s) (s_byteval s) e (s_stack s).
Definition set_stack (st : list listpos) (s : stream) : stream :=
  Stream (s_in s) (s_remaining s) (s_limited s) (s_kind s) (s_size s) (s_byteval s) (s_kinderr s) st.
Definition set_remaining (n : Z) (s : stream) : stream :=
  Stream (s_in s) n (s_limited s) (s_kind s) (s_size s) (s_byteval s) (s_kinderr s) (s_stack s).
Definition set_in (i : bytes) (s : stream) : stream :=
  Stream i (s_remaining s) (s_limited s) (s_kind s) (s_size s) (s_byteval s) (s_kinderr s) (s_stack s).

Definition lp_left (p : listpos) : Z := u64 (lp_size p - lp_pos p).

(** The position is advanced before the input limit is checked. *)
Definition willRead (n : Z) : sm unit := fun s =>
  let s := set_kind None s in
  let charge (s : stream) :=
    if s_limited s then
      if s_remaining s <? n then (Err ErrValueTooLarge, s)
      else (Ok tt, set_remaining (s_remaining s - n) s)
    else (Ok tt, s) in
  match s_stack s with
  | [] => charge s
  | tos :: st =>
    if lp_left tos <? n then (Err ErrElemTooLarge, s)
    else charge (set_stack (Listpos (u64 (lp_pos tos + n)) (lp_size tos) :: st) s)
  end.

Definition readByte : sm Z :=
  _ <- willRead 1 ;;
  fun s => match s_in s with
           | [] => (Err ErrUnexpectedEOF, s)
           | b :: i => (Ok b, set_in i s)
           end.

(** [readFull] of a buffer of [n] bytes, from a [bytes.Reader]. *)
Definition readFull (n : Z) : sm bytes :=
  _ <- willRead n ;;
  fun s => if len (s_in s) <? n then (Err ErrUnexpectedEOF, set_in [] s)
           else (Ok (ztake n (s_in s)), set_in (zdrop n (s_in s)) s).

(** [size] is a byte; [uintbuf] has eight bytes. *)
Definition readUint (size : Z) : sm Z :=
  if size =? 0 then fun s => (Ok 0, set_kind None s)
  else if size =? 1 then readByte
  else if 8 <? size then sm_panic
  else b <- readFull size ;;
       if at_ b 0 =? 0 then sm_err ErrCanonSize else sm_ret (be_decode b).

(** [readKind] returns a kind and a size also when it fails. *)
Definition stream_readKind : stream -> (Kind * Z * option rlp_error) * stream := fun s =>
  let long (k : Kind) (n : Z) (s : stream) :=
    match readUint n s with
    | (Ok size, s) => ((k, size, if size <? 56 then Some ErrCanonSize else None), s)
    | (Err e, s) => ((k, 0, Some e), s)
    | (_, s) => ((k, 0, Some ErrUnexpectedEOF), s)
    end in
  match readByte s with
  | (Ok b, s) =>
    let s := set_byteval 0 s in
    if b <? 0x80 then ((KByte, 0, None), set_byteval b s)
    else if b <? 0xB8 then ((KString, b - 0x80, None), s)
    else if b <? 0xC0 then long KString (b - 0xB7) s
    else if b <? 0xF8 then ((KList, b - 0xC0, None), s)
    else long KList (b - 0xF7) s
  | (Err e, s) =>
    let e := match s_stack s with
             | [] => match e with ErrUnexpectedEOF | ErrValueTooLarge => EOF | _ => e end
             | _ => e
             end in
    ((KByte, 0, Some e), s)
  | (_, s) => ((KByte, 0, Some ErrUnexpectedEOF), s)
  end.

(** [Kind]: the kind, the size and a sticky error of the value ahead are cached. *)
Definition stream_Kind : sm (Kind * Z) := fun s =>
  let answer (s : stream) :=
    match s_kinderr s with
    | Some e => (Err e, s)
    | None => (Ok (default KByte (s_kind s), s_size s), s)
    end in
  match s_kind s with
  | Some _ => answer s
  | None =>
    let tos := head (s_stack s) in
    let s := set_kinderr None s in
    if match tos with Some p => lp_pos p =? lp_size p | None => false end then (Err EOL, s)
    else
      let '((k, size, e), s) := stream_readKind s in
      let s := set_kinderr e (set_size size (set_kind (Some k) s)) in
      match e with
      | Some _ => answer s
      | None =>
        match tos with
        | None => if s_limited s && (s_remaining s <? size)
                  then answer (set_kinderr (Some ErrValueTooLarge) s) else answer s
        | Some _ =>
          (* [tos] points into the stack: its position has moved past the header *)
          match s_stack s with
          | p :: _ => if lp_left p <? size
                      then answer (set_kinderr (Some ErrElemTooLarge) s) else answer s
          | [] => answer s
          end
        end
      end
  end.

Definition rearm : sm unit := fun s => (Ok tt, set_kind None s).

Definition stream_Bytes : sm bytes :=
  ks <- stream_Kind ;;
  let '(kind, size) := ks in
  match kind with
  | KByte => fun s => (Ok [s_byteval s], set_kind None s)
  | KString =>
    b <- readFull size ;;
    if (size =? 1) && (at_ b 0 <? 128) then sm_err ErrCanonSize else sm_ret b
  | KList => sm_err ErrExpectedString
  end.

Definition stream_Raw : sm bytes :=
  ks <- stream_Kind ;;
  let '(kind, size) := ks in
  match kind with
  | KByte => fun s => (Ok [s_byteval s], set_kind None s)
  | KString => b <- readFull size ;; sm_ret (puthead 0x80 0xB7 size ++ b)
  | KList => b <- readFull size ;; sm_ret (puthead 0xC0 0xF7 size ++ b)
  end.

Definition canonSizeToInt (e : rlp_error) : rlp_error :=
  match e with ErrCanonSize => ErrCanonInt | _ => e end.

Definition stream_uint (maxbits : Z) : sm Z :=
  ks <- stream_Kind ;;
  let '(kind, size) := ks in
  match kind with
  | KByte => fun s => if s_byteval s =? 0 then (Err ErrCanonInt, s)
                      else (Ok (s_byteval s), set_kind None s)
  | KString =>
    if maxbits / 8 <? size then sm_err errUintOverflow
    else
      v <- sm_wrap canonSizeToInt (readUint size) ;;
      if (0 <? size) && (v <? 128) then sm_err ErrCanonSize else sm_ret v
  | KList => sm_err ErrExpectedString
  end.

Definition stream_Bool : sm bool :=
  num <- stream_uint 8 ;;
  if num =? 0 then sm_ret false else if num =? 1 then sm_ret true else sm_err (errInvalidBool num).

Definition stream_List : sm Z :=
  ks <- stream_Kind ;;
  let '(kind, size) := ks in
  match kind with
  | KList => fun s => (Ok size, set_size 0 (set_kind None (set_stack (Listpos 0 size :: s_stack s) s)))
  | _ => sm_err ErrExpectedList
  end.

Definition stream_ListEnd : sm unit := fun s =>
  match s_stack s with
  | [] => (Err errNotInList, s)
  | tos :: st =>
    if negb (lp_pos tos =? lp_size tos) then (Err errNotAtEOL, s)
    else
      let st := match st with
                | [] => []
                | p :: st => Listpos (u64 (lp_pos p + lp_size tos)) (lp_size p) :: st
                end in
      (Ok tt, set_size 0 (set_kind None (set_stack st s)))
  end.

(** ** Decoders *)

Definition wrapStreamError (e : rlp_error) : rlp_error :=
  match e with
  | ErrCanonInt => decodeError MsgCanonInt
  | ErrCanonSize => decodeError MsgCanonSize
  | ErrExpectedList => decodeError MsgExpectedList
  | ErrExpectedString => decodeError MsgExpectedString
  | errUintOverflow => decodeError MsgTooLong
  | errNotAtEOL => decodeError MsgTooManyElements
  | _ => e
  end.

Definition decodeBigInt : sm rval :=
  b <- sm_wrap wrapStreamError stream_Bytes ;;
  if (0 <? len b) && (at_ b 0 =? 0) then sm_err (wrapStreamError ErrCanonInt)
  else sm_ret (VBig (Some (be_decode b))).

(** The error of [s.Uint] is dropped in the [Byte] case: for a zero byte that leaves
    the stream with the kind it has just used. *)
Definition decodeByteArray (vlen : nat) : sm rval :=
  ks <- stream_Kind ;;
  let '(kind, size) := ks in
  match kind with
  | KByte =>
    match vlen with
    | O => sm_err (decodeError MsgTooLong)
    | S (S _) => sm_err (decodeError MsgTooShort)
    | S O => fun s => match stream_uint 64 s with
                      | (Ok bv, s) => (Ok (VBytes [u8 bv]), s)
                      | (Err _, s) => (Ok (VBytes [0]), s)
                      | (Panic, s) => (Panic, s)
                      | (OutOfFuel, s) => (OutOfFuel, s)
                      end
    end
  | KString =>
    if Z.of_nat vlen <? size then sm_err (decodeError MsgTooLong)
    else if size <? Z.of_nat vlen then sm_err (decodeError MsgTooShort)
    else
      slice <- readFull (Z.of_nat vlen) ;;
      if (size =? 1) && (at_ slice 0 <? 128) then sm_err (wrapStreamError ErrCanonSize)
      else sm_ret (VBytes slice)
  | KList => sm_err (wrapStreamError ErrExpectedString)
  end.

(** The loop of [decodeSliceElems] ends when an element decoder returns [EOL]. *)
Fixpoint decodeSliceElems (fuel : nat) (elemdec : sm rval) : sm (list rval) := fun s =>
  match fuel with
  | O => (OutOfFuel, s)
  | S fuel =>
    match elemdec s with
    | (Err EOL, s) => (Ok [], s)
    | (Err e, s) => (Err e, s)
    | (Ok v, s) => (vs <- decodeSliceElems fuel elemdec ;; sm_ret (v :: vs)) s
    | (Panic, s) => (Panic, s)
    | (OutOfFuel, s) => (OutOfFuel, s)
    end
  end.

Definition decodeListSlice (fuel : nat) (elemdec : sm rval) : sm rval :=
  size <- sm_wrap wrapStreamError stream_List ;;
  if size =? 0 then _ <- stream_ListEnd ;; sm_ret (VList [])
  else
    vs <- decodeSliceElems fuel elemdec ;;
    _ <- stream_ListEnd ;;
    sm_ret (VList vs).

Fixpoint decodeArrayElems (n : nat) (elemdec : sm rval) : sm (list rval) := fun s =>
  match n with
  | O => (Ok [], s)
  | S n =>
    match elemdec s with
    | (Err EOL, s) => (Err (decodeError MsgTooFewElements), s)
    | (Err e, s) => (Err e, s)
    | (Ok v, s) => (vs <- decodeArrayElems n elemdec ;; sm_ret (v :: vs)) s
    | (Panic, s) => (Panic, s)
    | (OutOfFuel, s) => (OutOfFuel, s)
    end
  end.

Definition decodeListArray (n : nat) (elemdec : sm rval) : sm rval :=
  _ <- sm_wrap wrapStreamError stream_List ;;
  vs <- decodeArrayElems n elemdec ;;
  _ <- sm_wrap wrapStreamError stream_ListEnd ;;
  sm_ret (VList vs).

(** [EOL] inside a struct is [too few elements]. *)
Definition fieldError (e : rlp_error) : rlp_error :=
  match e with EOL => decodeError MsgTooFewElements | _ => e end.

(** Struct fields are decoded in order, by their own decoders. *)
Definition decodeStruct (fields : sm (list rval)) : sm rval :=
  _ <- sm_wrap wrapStreamError stream_List ;;
  vs <- fields ;;
  _ <- sm_wrap wrapStreamError stream_ListEnd ;;
  sm_ret (VStruct vs).

Definition decodeOptionalPtr (elemdec : sm rval) : sm rval := fun s =>
  match stream_Kind s with
  | (Ok (kind, size), s) =>
    if (size =? 0) && (if decide (kind = KByte) then false else true)
    then (Ok (VPtr None), set_kind None s)
    else (v <- elemdec ;; sm_ret (VPtr (Some v))) s
  | (Err e, s) => (Err e, set_kind None s)
  | (Panic, s) => (Panic, s)
  | (OutOfFuel, s) => (OutOfFuel, s)
  end.

Fixpoint decodeInterface (fuel : nat) : sm rval :=
  match fuel with
  | O => sm_nofuel
  | S fuel =>
    ks <- stream_Kind ;;
    let '(kind, _) := ks in
    match kind with
    | KList =>
      v <- decodeListSlice fuel (decodeInterface fuel) ;;
      sm_ret (VIface (Some (TSlice TIface, v)))
    | _ => b <- stream_Bytes ;; sm_ret (VIface (Some (TBytes, VBytes b)))
    end
  end.

(** The decoder [makeDecoder] builds for a type, run on a stream. *)
Fixpoint decode (fuel : nat) (t : rtype) {struct t} : sm rval :=
  match t with
  | TRaw => b <- stream_Raw ;; sm_ret (VBytes b)
  | TBig => decodeBigInt
  | TUint bits => num <- sm_wrap wrapStreamError (stream_uint bits) ;; sm_ret (VUint num)
  | TBool => b <- sm_wrap wrapStreamError stream_Bool ;; sm_ret (VBool b)
  | TString | TBytes => b <- sm_wrap wrapStreamError stream_Bytes ;; sm_ret (VBytes b)
  | TByteArray n => decodeByteArray n
  | TSlice t => decodeListSlice fuel (decode fuel t)
  | TTail t => vs <- decodeSliceElems fuel (decode fuel t) ;; sm_ret (VList vs)
  | TArray n t => decodeListArray n (decode fuel t)
  | TStruct ts =>
    decodeStruct ((fix decodeFields (ts : list rtype) : sm (list rval) :=
      match ts with
      | [] => sm_ret []
      | t :: ts => v <- sm_wrap fieldError (decode fuel t) ;;
                   vs <- decodeFields ts ;; sm_ret (v :: vs)
      end) ts)
  | TPtr true t => decodeOptionalPtr (decode fuel t)
  | TPtr false t => v <- decode fuel t ;; sm_ret (VPtr (Some v))
  | TIface => decodeInterface fuel
  end.

(** [NewStream] on a [bytes.Reader]: the limit is the length of the input. *)
Definition NewStream (b : bytes) : stream := Stream b (len b) true None 0 0 None [].

Definition DecodeBytes_fuel (fuel : nat) (t : rtype) (b : bytes) : outcome rlp_error rval :=
  match decode fuel t (NewStream b) with
  | (Ok v, s) => if 0 <? len (s_in s) then Err ErrMoreThanOneValue else Ok v
  | (Err e, _) => Err e
  | (Panic, _) => Panic
  | (OutOfFuel, _) => OutOfFuel
  end.

(** Every list element that is decoded consumes a byte of the input, unless it is a
    [[1]byte]: [RlpTotal] shows where this fuel is enough and where none is. *)
Definition DecodeBytes (t : rtype) (b : bytes) : outcome rlp_error rval :=
  DecodeBytes_fuel (S (length b)) t b.

(** ** Lemmas: the stream position *)

(** The part of a stream that matters between two values: size, byte value and
    cached error are overwritten by the next [Kind]. *)
Definition core (s : stream) := (s_in s, s_remaining s, s_limited s, s_kind s, s_stack s).

Definition bump (n : Z) (st : list listpos) : list listpos :=
  match st with [] => [] | p :: st => Listpos (lp_pos p + n) (lp_size p) :: st end.

(** The stream after [n] bytes have been read. *)
Definition advance (n : Z) (s : stream) : stream :=
  Stream (zdrop n (s_in s)) (if s_limited s then s_remaining s - n else s_remaining s)
    (s_limited s) None (s_size s) (s_byteval s) (s_kinderr s) (bump n (s_stack s)).

(** [n] more bytes are available: in the input, under the limit and in the open list. *)
Definition room (s : stream) (n : Z) : Prop :=
  n <= len (s_in s) /\ (s_limited s = true -> n <= s_remaining s) /\
  match s_stack s with
  | [] => True
  | p :: _ => 0 <= lp_pos p /\ lp_pos p + n <= lp_size p /\ lp_size p < 2 ^ 64
  end.

Ltac unstream :=
  unfold set_kind, set_size, set_byteval, set_kinderr, set_stack, set_remaining, set_in, advance, core;
  cbn [s_in s_remaining s_limited s_kind s_size s_byteval s_kinderr s_stack bump lp_pos lp_size].

Lemma room_le s n m : room s n -> m <= n -> room s m.
Proof. unfold room. destruct (s_stack s); intros (?&?&?) ?; repeat split; try lia; intros; auto; specialize (H0 H3); lia. Qed.

Lemma core_advance s s' n : core s = core s' -> core (advance n s) = core (advance n s').
Proof. unfold core, advance; cbn. intros [= -> -> -> _ ->]. done. Qed.

Lemma core_room s s' n : core s = core s' -> room s n -> room s' n.
Proof. unfold core, room. intros [= -> -> -> _ ->]. done. Qed.

Lemma zdrop_zdrop {A} n m (l : list A) : 0 <= n -> 0 <= m -> zdrop m (zdrop n l) = zdrop (n + m) l.
Proof. intros. unfold zdrop. rewrite drop_drop. f_equal. lia. Qed.

Lemma bump_bump n m st : bump m (bump n st) = bump (n + m) st.
Proof. destruct st as [|p st]; cbn; [done|]. by rewrite Z.add_assoc. Qed.

Lemma advance_advance n m s :
  0 <= n -> 0 <= m -> advance m (advance n s) = advance (n + m) s.
Proof.
  intros. unfold advance; cbn. rewrite zdrop_zdrop, bump_bump by done. f_equal.
  destruct (s_limited s); lia.
Qed.

Lemma room_advance s n m : 0 <= n -> 0 <= m -> room s (n + m) -> room (advance n s) m.
Proof.
  unfold room, advance; cbn. intros Hn Hm (L & R & P). rewrite len_zdrop by lia.
  split; [lia|]. split; [intros E; rewrite E; specialize (R E); lia|].
  destruct (s_stack s); cbn; [done|lia].
Qed.

Lemma willRead_ok n s :
  0 <= n -> room s n -> willRead n s = (Ok tt, set_in (s_in s) (advance n s)).
Proof.
  intros Hn (L & R & P). destruct s as [i rem lim k sz bv ke [|p st]]; cbn in *;
    unfold willRead; unstream.
  - destruct lim; [|done]. specialize (R eq_refl). by zdecide.
  - unfold lp_left. rewrite !u64_small by (unfold is_u64; lia). zdecide.
    destruct lim; [|done]. specialize (R eq_refl). by zdecide.
Qed.

Lemma readByte_ok b i s :
  s_in s = b :: i -> room s 1 -> readByte s = (Ok b, advance 1 s).
Proof.
  intros E R. unfold readByte, sm_bind. rewrite willRead_ok by (done || lia). unstream.
  by rewrite E.
Qed.

Lemma readFull_ok n s :
  0 <= n -> room s n -> readFull n s = (Ok (ztake n (s_in s)), advance n s).
Proof.
  intros Hn R. unfold readFull, sm_bind. rewrite willRead_ok by done. unstream.
  destruct R as (L & _). zdecide. done.
Qed.

Lemma readUint_be_min n tl s :
  56 <= n < 2 ^ 64 -> s_in s = be_min n ++ tl -> room s (len (be_min n)) ->
  readUint (len (be_min n)) s = (Ok n, advance (len (be_min n)) s).
Proof.
  intros Hn E R. pose proof (len_be_min_u64 n ltac:(lia)). pose proof (len_be_min_pos n ltac:(lia)).
  unfold readUint. zdecide.
  destruct (Z.eqb_spec (len (be_min n)) 1) as [E1|N1].
  - pose proof (be_decode_min n ltac:(lia)) as D.
    destruct (be_min n) as [|x [|y l]]; try done.
    2: { rewrite !len_cons in E1. pose proof (len_nonneg l). lia. }
    rewrite (readByte_ok x tl) by done. cbn in D. by replace x with n by lia.
  - zdecide. unfold sm_bind. rewrite readFull_ok by (done || lia).
    rewrite E, ztake_app_len.
    pose proof (be_min_hd n) as HD. pose proof (be_decode_min n ltac:(lia)) as D.
    destruct (be_min n) as [|x l]; [done|]. cbn [at_ nth].
    destruct (Z.eqb_spec x 0) as [->|]; [done|]. unfold sm_ret. by rewrite D.
Qed.

(** A stream that is about to read a value and is not at the end of its list. *)
Definition fresh (s : stream) : Prop :=
  s_kind s = None /\ match s_stack s with [] => True | p :: _ => lp_pos p <> lp_size p end.

Lemma fresh_room s n : s_kind s = None -> 0 < n -> room s n -> fresh s.
Proof. unfold fresh, room. intros -> Hn (_ & _ & P). split; [done|]. destruct (s_stack s); [done|lia]. Qed.

Lemma stream_readKind_byte b tl s :
  s_in s = b :: tl -> b < 0x80 -> room s 1 ->
  stream_readKind s = ((KByte, 0, None), set_byteval b (advance 1 s)).
Proof.
  intros E Hb R. unfold stream_readKind. rewrite (readByte_ok b tl) by done. by zdecide.
Qed.

Lemma stream_readKind_head k small large n tl s :
  (k, small, large) = (KString, 0x80, 0xB7) \/ (k, small, large) = (KList, 0xC0, 0xF7) ->
  0 <= n < 2 ^ 64 -> s_in s = enc_head small large n ++ tl -> room s (len (enc_head small large n)) ->
  exists s', stream_readKind s = ((k, n, None), s') /\
             core s' = core (advance (len (enc_head small large n)) s).
Proof.
  intros Hk Hn E R. unfold enc_head in *. destruct (Z.ltb_spec n 56) as [S|S].
  - cbn [app] in E. change (len [small + n]) with 1 in *.
    unfold stream_readKind. rewrite (readByte_ok _ _ _ E R).
    exists (set_byteval 0 (advance 1 s)).
    destruct Hk as [[= -> -> ->]|[= -> -> ->]]; zdecide; split; try done; do 3 f_equal; lia.
  - cbn [app] in E. rewrite len_cons in *.
    pose proof (len_be_min_u64 n ltac:(lia)). pose proof (len_be_min_pos n ltac:(lia)).
    unfold stream_readKind. rewrite (readByte_ok _ _ _ E) by (eapply room_le; [exact R|lia]).
    assert (RU : readUint (len (be_min n)) (set_byteval 0 (advance 1 s))
                 = (Ok n, advance (len (be_min n)) (set_byteval 0 (advance 1 s)))).
    { apply (readUint_be_min n tl); [lia| |].
      - unfold set_byteval, advance; cbn. by rewrite E.
      - apply (core_room (advance 1 s)); [done|]. apply room_advance; [lia..|done]. }
    exists (advance (len (be_min n)) (set_byteval 0 (advance 1 s))).
    split.
    + destruct Hk as [[= -> -> ->]|[= -> -> ->]]; zdecide; rewrite Z.add_simpl_l, RU; by zdecide.
    + rewrite <- advance_advance by lia. by apply core_advance.
Qed.

Lemma stream_Kind_byte b tl s :
  s_kind s = None -> s_in s = b :: tl -> b < 0x80 -> room s 1 ->
  exists s', stream_Kind s = (Ok (KByte, 0), s') /\ s_byteval s' = b /\
             s_kind s' = Some KByte /\ core (set_kind None s') = core (advance 1 s).
Proof.
  intros K E Hb R. destruct (fresh_room s 1 K ltac:(lia) R) as [_ F].
  unfold stream_Kind. rewrite K, (stream_readKind_byte b tl (set_kinderr None s)) by done.
  destruct s as [i rem lim k sz bv ke [|p st]], R as (RL & RR & RP); cbn in *; subst k i.
  - destruct lim; cbn; [specialize (RR eq_refl); zdecide|]; cbn;
      eexists; (split; [reflexivity|]); done.
  - zdecide. unfold lp_left; cbn. rewrite u64_small by (unfold is_u64; lia). zdecide. cbn.
    eexists. split; [reflexivity|]. done.
Qed.

Lemma stream_Kind_head k small large n tl s :
  (k, small, large) = (KString, 0x80, 0xB7) \/ (k, small, large) = (KList, 0xC0, 0xF7) ->
  s_kind s = None -> s_in s = enc_head small large n ++ tl -> 0 <= n < 2 ^ 64 ->
  room s (len (enc_head small large n) + n) ->
  exists s', stream_Kind s = (Ok (k, n), s') /\ s_kind s' = Some k /\
             core (set_kind None s') = core (advance (len (enc_head small large n)) s).
Proof.
  intros Hk K E Hn R. set (h := len (enc_head small large n)) in *.
  assert (Hh : 1 <= h).
  { subst h. unfold enc_head. case_goal; rewrite len_cons; [done|].
    pose proof (len_nonneg (be_min n)). lia. }
  destruct (fresh_room s 1 K ltac:(lia) ltac:(eapply room_le; [exact R|lia])) as [_ F].
  destruct (stream_readKind_head k small large n tl (set_kinderr None s) Hk Hn E)
    as (s1 & RK & C1).
  { apply (core_room s); [done|]. eapply room_le; [exact R|fold h; lia]. }
  fold h in C1. unfold stream_Kind. rewrite K.
  pose proof C1 as C1'. unfold core in C1'. cbn in C1'.
  injection C1' as I1 I2 I3 I4 I5. destruct R as (RL & RR & RP).
  assert (Fin : exists s', (@Ok rlp_error _ (k, n), set_kinderr None (set_size n (set_kind (Some k) s1)))
                           = (Ok (k, n), s') /\
       s_kind s' = Some k /\ core (set_kind None s') = core (advance h s)).
  { eexists. split; [reflexivity|]. split; [done|].
    unfold core; cbn. by rewrite I1, I2, I3, I5. }
  destruct (s_stack s) as [|p st] eqn:St; cbn -[stream_readKind]; cbn in I5.
  - rewrite RK. cbn. rewrite I3, I2. destruct (s_limited s) eqn:Lim; cbn.
    + specialize (RR eq_refl). zdecide. exact Fin.
    + exact Fin.
  - zdecide. rewrite RK. cbn. rewrite I5. unfold lp_left; cbn.
    rewrite u64_small by (unfold is_u64; lia). zdecide. exact Fin.
Qed.

(** [Kind] is idempotent, so a decoder that starts with it may run after it. *)
Lemma stream_Kind_again s r s' :
  stream_Kind s = (Ok r, s') -> stream_Kind s' = (Ok r, s').
Proof.
  unfold stream_Kind at 1. intros H.
  assert (A : forall s2, s_kind s2 <> None ->
     (match s_kinderr s2 with
      | Some e => (Err e, s2)
      | None => (Ok (default KByte (s_kind s2), s_size s2), s2)
      end) = (Ok r, s') -> stream_Kind s' = (Ok r, s')).
  { intros s2 K. destruct (s_kinderr s2) eqn:KE; [done|]. intros [= <- <-].
    unfold stream_Kind. destruct (s_kind s2) eqn:K'; [|done]. by rewrite KE. }
  destruct (s_kind s) eqn:K; [apply (A s); by rewrite K|].
  cbv zeta in H.
  match type of H with (if ?b then _ else _) = _ => destruct b; [done|] end.
  destruct (stream_readKind _) as [[[k n] e] s1].
  destruct e; [by apply A in H|].
  destruct (head (s_stack s)).
  - destruct (s_stack _); [by apply A in H|]. destruct (_ <? _); by apply A in H.
  - destruct (_ && _); by apply A in H.
Qed.

Definition starts_kind {A} (m : sm A) : Prop :=
  forall s r s', stream_Kind s = (Ok r, s') -> m s' = m s.

Lemma starts_kind_bind {A} (f : Kind * Z -> sm A) : starts_kind (sm_bind stream_Kind f).
Proof. intros s r s' H. unfold sm_bind. by rewrite H, (stream_Kind_again _ _ _ H). Qed.

Lemma starts_kind_seq {A B} (m : sm A) (f : A -> sm B) : starts_kind m -> starts_kind (sm_bind m f).
Proof. intros M s r s' H. unfold sm_bind. by rewrite (M _ _ _ H). Qed.

Lemma starts_kind_wrap {A} g (m : sm A) : starts_kind m -> starts_kind (sm_wrap g m).
Proof. intros M s r s' H. unfold sm_wrap. by rewrite (M _ _ _ H). Qed.

Create HintDb rlpkind.
#[export] Hint Resolve starts_kind_bind starts_kind_seq starts_kind_wrap : rlpkind.

(** ** Lemmas: reading an encoded value *)

(** [m] reads the bytes [e] and returns [a], wherever they are in the input. *)
Definition reads {A} (m : sm A) (e : bytes) (a : A) : Prop :=
  forall s rest, s_kind s = None -> s_in s = e ++ rest -> room s (len e) ->
  exists s', m s = (Ok a, s') /\ core s' = core (advance (len e) s).

Lemma reads_map {A B} (m : sm A) (f : A -> B) e a :
  reads m e a -> reads (x <- m ;; sm_ret (f x)) e (f a).
Proof.
  intros H s rest K E R. destruct (H s rest K E R) as (s' & M & C).
  exists s'. split; [|done]. unfold sm_bind. by rewrite M.
Qed.

Lemma reads_wrap {A} (m : sm A) f e a : reads m e a -> reads (sm_wrap f m) e a.
Proof.
  intros H s rest K E R. destruct (H s rest K E R) as (s' & M & C).
  exists s'. split; [|done]. unfold sm_wrap. by rewrite M.
Qed.

Lemma reads_bind_ret {A B} (m : sm A) (f : A -> sm B) e a b :
  reads m e a -> (forall s, f a s = (Ok b, s)) -> reads (sm_bind m f) e b.
Proof.
  intros H F s rest K E R. destruct (H s rest K E R) as (s' & M & C).
  exists s'. split; [|done]. unfold sm_bind. by rewrite M, F.
Qed.

Lemma core_s_in s s' : core s = core s' -> s_in s = s_in s'.
Proof. by intros [= ? ? ? ? ?]. Qed.

Lemma core_kind s s' : core s = core s' -> s_kind s = s_kind s'.
Proof. by intros [= ? ? ? ? ?]. Qed.

Lemma core_set_kind s s' k : core s = core s' -> core (set_kind k s) = core (set_kind k s').
Proof. unfold core; cbn. by intros [= -> -> -> _ ->]. Qed.

Lemma room_kind s k n : room (set_kind k s) n <-> room s n.
Proof. done. Qed.

Lemma advance_kind n k s : advance n (set_kind k s) = advance n s.
Proof. done. Qed.

Lemma s_in_advance_app a b s : s_in s = a ++ b -> s_in (advance (len a) s) = b.
Proof. intros E. cbn. by rewrite E, zdrop_app_len. Qed.

(** The common part of [Bytes], [Raw], [uint] and the byte-array decoder in the
    [String] case: read the [len c] content bytes after the header. *)
Lemma readFull_content s s1 head c rest :
  core (set_kind None s1) = core (advance (len head) s) ->
  s_in s = head ++ c ++ rest -> room s (len head + len c) ->
  exists s2, readFull (len c) s1 = (Ok c, s2) /\ core s2 = core (advance (len head + len c) s).
Proof.
  intros C E R. pose proof (len_nonneg c). pose proof (len_nonneg head).
  assert (I : s_in s1 = c ++ rest).
  { apply core_s_in in C. cbn in C. by rewrite C, E, zdrop_app_len. }
  rewrite readFull_ok; [|done|].
  - exists (advance (len c) s1). rewrite I, ztake_app_len. split; [done|].
    rewrite <- advance_advance by done.
    change (core (advance (len c) (set_kind None s1)) = core (advance (len c) (advance (len head) s))).
    by apply core_advance.
  - change (room (set_kind None s1) (len c)). eapply core_room; [symmetry; exact C|]. by apply room_advance.
Qed.

Lemma enc_string_cases c :
  (exists x, c = [x] /\ x <= 0x7F /\ enc_string c = [x]) \/
  ((len c = 1 -> 128 <= at_ c 0) /\ enc_string c = enc_head 0x80 0xB7 (len c) ++ c).
Proof.
  destruct c as [|x [|y c]]; [by right|destruct (Z.leb_spec x 0x7F)|].
  - left. exists x. unfold enc_string. by zdecide.
  - right. unfold enc_string. zdecide. split; [intros _; cbn; lia|done].
  - right. split; [|done]. rewrite !len_cons. pose proof (len_nonneg c). lia.
Qed.

Lemma reads_Bytes c : len (enc_string c) < 2 ^ 64 -> reads stream_Bytes (enc_string c) c.
Proof.
  intros L s rest K E R. pose proof (len_nonneg c).
  destruct (enc_string_cases c) as [(x & -> & Hx & ES)|[H1 ES]]; rewrite ES in *.
  - destruct (stream_Kind_byte x rest s K E ltac:(lia) R) as (s1 & SK & BV & K1 & C).
    exists (set_kind None s1). split; [|done]. unfold stream_Bytes, sm_bind. by rewrite SK, BV.
  - rewrite len_app in *. rewrite <- app_assoc in E.
    pose proof (len_nonneg (enc_head 0x80 0xB7 (len c))).
    destruct (stream_Kind_head KString 0x80 0xB7 (len c) (c ++ rest) s ltac:(by left) K E ltac:(lia) R)
      as (s1 & SK & K1 & C).
    destruct (readFull_content s s1 _ c rest C E R) as (s2 & RF & C2).
    exists s2. split; [|done]. unfold stream_Bytes, sm_bind. rewrite SK, RF.
    destruct (Z.eqb_spec (len c) 1) as [E1|]; cbn; [|done]. specialize (H1 E1). by zdecide.
Qed.

Lemma reads_Raw k c :
  (k <> KList -> k = string_kind c) -> len (enc_item k c) < 2 ^ 64 ->
  reads stream_Raw (enc_item k c) (enc_item k c).
Proof.
  intros Hk L s rest K E R. pose proof (len_nonneg c).
  assert (G : forall k' small large, k' <> KByte ->
     (k', small, large) = (KString, 0x80, 0xB7) \/ (k', small, large) = (KList, 0xC0, 0xF7) ->
     enc_item k c = enc_head small large (len c) ++ c ->
     exists s', stream_Raw s = (Ok (enc_item k c), s') /\ core s' = core (advance (len (enc_item k c)) s)).
  { intros k' small large NB F EI. rewrite EI in *. rewrite len_app in *. rewrite <- app_assoc in E.
    pose proof (len_nonneg (enc_head small large (len c))).
    destruct (stream_Kind_head k' small large (len c) (c ++ rest) s F K E ltac:(lia) R) as (s1 & SK & K1 & C).
    destruct (readFull_content s s1 _ c rest C E R) as (s2 & RF & C2).
    exists s2. split; [|done]. unfold stream_Raw, sm_bind. rewrite SK.
    destruct F as [[= -> -> ->]|[= -> -> ->]]; rewrite RF; unfold sm_ret; by rewrite puthead_spec by lia. }
  destruct k; [| |by apply (G KList 0xC0 0xF7); [done|right|]].
  all: cbn [enc_item] in *; destruct (enc_string_cases c) as [(x & -> & Hx & ES)|[H1 ES]].
  1,3: rewrite ES in *; destruct (stream_Kind_byte x rest s K E ltac:(lia) R) as (s1 & SK & BV & K1 & C);
       exists (set_kind None s1); split; [|done]; unfold stream_Raw, sm_bind; by rewrite SK, BV.
  all: apply (G KString 0x80 0xB7); [done|by left|done].
Qed.

Lemma reads_uint i bits :
  0 <= i < 2 ^ bits -> bits = 8 \/ bits = 16 \/ bits = 32 \/ bits = 64 ->
  reads (stream_uint bits) (enc_string (be_min i)) i.
Proof.
  intros Hi Hbits s rest K E R.
  assert (H64 : i < 2 ^ 64) by (pose proof (Z.pow_le_mono_r 2 bits 64); lia).
  pose proof (len_be_min_u64 i ltac:(lia)) as L8. pose proof (len_nonneg (be_min i)).
  pose proof (be_decode_min i ltac:(lia)) as D. pose proof (be_min_hd i) as HD.
  destruct (enc_string_cases (be_min i)) as [(x & EM & Hx & ES)|[H1 ES]]; rewrite ES in *.
  - rewrite EM in *. cbn in D, HD. replace x with i in * by lia.
    destruct (stream_Kind_byte i rest s K E ltac:(lia) R) as (s1 & SK & BV & K1 & C).
    exists (set_kind None s1). split; [|done]. unfold stream_uint, sm_bind.
    assert (i <> 0) by congruence. rewrite SK, BV. by zdecide.
  - rewrite len_app in *. rewrite <- app_assoc in E.
    pose proof (len_nonneg (enc_head 0x80 0xB7 (len (be_min i)))).
    destruct (stream_Kind_head KString 0x80 0xB7 (len (be_min i)) (be_min i ++ rest) s
                ltac:(by left) K E ltac:(lia) R) as (s1 & SK & K1 & C).
    destruct (readFull_content s s1 _ (be_min i) rest C E R) as (s2 & RF & C2).
    assert (LB : len (be_min i) <= bits / 8).
    { apply len_be_min_le; [apply Z.div_pos; lia|].
      replace (256 ^ (bits / 8)) with (2 ^ bits) by (destruct Hbits as [->|[->|[->| ->]]]; reflexivity). lia. }
    unfold stream_uint, sm_bind. rewrite SK. zdecide. unfold sm_wrap, readUint.
    destruct (be_min i) as [|x [|y l]] eqn:EM.
    + cbn in D. subst i. exists (set_kind None s1). split; [done|]. rewrite C. by rewrite Z.add_0_r.
    + cbn in D. change (len [x]) with 1 in *. cbn [Z.eqb Pos.eqb].
      assert (RB : readByte s1 = (Ok x, s2)).
      { unfold readFull, readByte, sm_bind in *. destruct (willRead 1 s1) as [[| | |] s1'] eqn:W; try done.
        destruct (Z.ltb_spec (len (s_in s1')) 1); [done|].
        destruct (s_in s1') as [|z i']; [done|]. injection RF as -> <-. done. }
      exists s2. split; [|done]. rewrite RB. cbn. specialize (H1 eq_refl). cbn in H1.
      replace x with i in * by lia. by zdecide.
    + rewrite !len_cons in *. pose proof (len_nonneg l). zdecide.
      exists s2. split; [|done]. unfold sm_bind. rewrite RF. cbn [at_ nth].
      assert (x <> 0) by (intros ->; done). zdecide. unfold sm_ret. cbn [map_err].
      rewrite D. assert (128 <= i); [|by zdecide].
      rewrite <- D, be_decode_cons, len_cons, Z.pow_add_r by lia. change (256 ^ 1) with 256.
      pose proof (be_min_ok i) as O. rewrite EM in O. apply bytes_ok_cons in O as [Ox O].
      pose proof (be_decode_range _ O). unfold byte_ok in Ox.
      pose proof (Z.pow_pos_nonneg 256 (len l)). nia.
Qed.

(** ** Lemmas: sequences and lists *)

(** The innermost open list ends after [n] more bytes. *)
Definition closes (s : stream) (n : Z) : Prop :=
  match s_stack s with p :: _ => lp_pos p + n = lp_size p | [] => False end.

(** [reads] for a decoder that reads up to the end of the open list. *)
Definition reads_all {A} (m : sm A) (e : bytes) (a : A) : Prop :=
  forall s rest, s_kind s = None -> s_in s = e ++ rest -> room s (len e) -> closes s (len e) ->
  exists s', m s = (Ok a, s') /\ core s' = core (advance (len e) s).

Lemma reads_reads_all {A} (m : sm A) e a : reads m e a -> reads_all m e a.
Proof. intros H s rest K E R _. by apply (H s rest). Qed.

Lemma core_closes s s' n : core s = core s' -> closes s n -> closes s' n.
Proof. unfold core, closes. by intros [= _ _ _ _ ->]. Qed.

Lemma closes_advance s n m : closes s (n + m) -> closes (advance n s) m.
Proof. unfold closes, advance; cbn. destruct (s_stack s); cbn; [done|lia]. Qed.

(** Where the stream is after the first part of a sequence. *)
Lemma after_first s s1 e1 e2 rest :
  core s1 = core (advance (len e1) s) -> s_in s = (e1 ++ e2) ++ rest -> room s (len (e1 ++ e2)) ->
  s_kind s1 = None /\ s_in s1 = e2 ++ rest /\ room s1 (len e2) /\
  (closes s (len (e1 ++ e2)) -> closes s1 (len e2)) /\
  (forall s', core s' = core (advance (len e2) s1) -> core s' = core (advance (len (e1 ++ e2)) s)).
Proof.
  intros C E R. rewrite len_app in *. pose proof (len_nonneg e1). pose proof (len_nonneg e2).
  split; [by apply core_kind in C|]. split.
  { apply core_s_in in C. rewrite C. apply s_in_advance_app. by rewrite E, app_assoc. }
  split; [eapply core_room; [symmetry; exact C|by apply room_advance]|]. split.
  { intros H'. eapply core_closes; [symmetry; exact C|by apply closes_advance]. }
  intros s' C'. rewrite C', <- advance_advance by done. by apply core_advance.
Qed.

Lemma reads_seq {A B} (m : sm A) (f : A -> sm B) e1 e2 a b :
  reads m e1 a -> reads (f a) e2 b -> reads (sm_bind m f) (e1 ++ e2) b.
Proof.
  intros H1 H2 s rest K E R.
  destruct (H1 s (e2 ++ rest) K) as (s1 & M1 & C1).
  { by rewrite E, app_assoc. }
  { eapply room_le; [exact R|]. rewrite len_app. pose proof (len_nonneg e2). lia. }
  destruct (after_first _ _ _ _ _ C1 E R) as (K1 & E1 & R1 & _ & Fin).
  destruct (H2 s1 rest K1 E1 R1) as (s2 & M2 & C2).
  exists s2. split; [|by apply Fin]. unfold sm_bind. by rewrite M1.
Qed.

Lemma reads_all_seq {A B} (m : sm A) (f : A -> sm B) e1 e2 a b :
  reads m e1 a -> reads_all (f a) e2 b -> reads_all (sm_bind m f) (e1 ++ e2) b.
Proof.
  intros H1 H2 s rest K E R Cl.
  destruct (H1 s (e2 ++ rest) K) as (s1 & M1 & C1).
  { by rewrite E, app_assoc. }
  { eapply room_le; [exact R|]. rewrite len_app. pose proof (len_nonneg e2). lia. }
  destruct (after_first _ _ _ _ _ C1 E R) as (K1 & E1 & R1 & Cl1 & Fin).
  destruct (H2 s1 rest K1 E1 R1 (Cl1 Cl)) as (s2 & M2 & C2).
  exists s2. split; [|by apply Fin]. unfold sm_bind. by rewrite M1.
Qed.

Lemma reads_all_map {A B} (m : sm A) (f : A -> B) e a :
  reads_all m e a -> reads_all (x <- m ;; sm_ret (f x)) e (f a).
Proof.
  intros H s rest K E R Cl. destruct (H s rest K E R Cl) as (s' & M & C).
  exists s'. split; [|done]. unfold sm_bind. by rewrite M.
Qed.

Lemma reads_ret {A} (a : A) : reads (sm_ret a) [] a.
Proof.
  intros s rest K E R. exists s. split; [done|].
  destruct s as [i rem lim k sz bv ke st]. cbn in *. subst k.
  unfold core, advance; cbn. rewrite len_nil. replace (if lim then rem - 0 else rem) with rem by (destruct lim; lia).
  destruct st as [|[p n] st]; cbn; [done|]. by rewrite Z.add_0_r.
Qed.

Definition at_end (s : stream) : Prop :=
  s_kind s = None /\ match s_stack s with p :: _ => lp_pos p = lp_size p | [] => False end.

(** At the end of a list, [m] returns [EOL] and does not move. *)
Definition eol {A} (m : sm A) : Prop :=
  forall s, at_end s -> exists s', m s = (Err EOL, s') /\ core s' = core s.

Lemma eol_Kind : eol stream_Kind.
Proof.
  intros s [K H]. exists (set_kinderr None s). split; [|done].
  unfold stream_Kind. rewrite K. destruct (s_stack s); [done|]. cbn. by zdecide.
Qed.

Lemma eol_bind {A B} (m : sm A) (f : A -> sm B) : eol m -> eol (sm_bind m f).
Proof. intros H s E. destruct (H s E) as (s' & M & C). exists s'. unfold sm_bind. by rewrite M. Qed.

Lemma eol_wrap {A} g (m : sm A) : g EOL = EOL -> eol m -> eol (sm_wrap g m).
Proof.
  intros G H s E. destruct (H s E) as (s' & M & C). exists s'. unfold sm_wrap. rewrite M. cbn. by rewrite G.
Qed.

Create HintDb rlpeol.
#[export] Hint Resolve eol_Kind eol_bind eol_wrap : rlpeol.

Lemma closes_at_end s : s_kind s = None -> closes s 0 -> at_end s.
Proof. unfold closes, at_end. intros K H. split; [done|]. destruct (s_stack s); [done|lia]. Qed.

Lemma reads_SliceElems {V} (f : V -> rval) (enc : V -> bytes) (dec : sm rval) (xs : list V) :
  Forall (fun x => reads dec (enc x) (f x)) xs -> eol dec ->
  forall fuel, (length xs < fuel)%nat ->
  reads_all (decodeSliceElems fuel dec) (concat (map enc xs)) (map f xs).
Proof.
  intros F Eol. induction F as [|x xs Hx F IH]; intros fuel Hf.
  - intros s rest K E R Cl. destruct fuel as [|fuel]; [cbn in Hf; lia|].
    destruct (Eol s) as (s' & M & C); [by apply closes_at_end|].
    exists s'. cbn [decodeSliceElems]. rewrite M. split; [done|]. rewrite C.
    destruct (reads_ret tt s rest K E R) as (s0 & [= <-] & C0). exact C0.
  - destruct fuel as [|fuel]; [lia|]. cbn [map concat] in *.
    specialize (IH fuel ltac:(cbn in Hf; lia)).
    intros s rest K E R Cl.
    destruct (reads_all_seq dec (fun v => vs <- decodeSliceElems fuel dec ;; sm_ret (v :: vs))
                (enc x) (concat (map enc xs)) (f x) (f x :: map f xs) Hx) with (s := s) (rest := rest)
      as (s' & M & C); [apply (reads_all_map _ (cons (f x)) _ _ IH)|done..|].
    exists s'. split; [|done]. cbn [decodeSliceElems]. unfold sm_bind in M at 1.
    destruct (dec s) as [[v|[]| |] s1]; done.
Qed.

Lemma reads_ArrayElems {V} (f : V -> rval) (enc : V -> bytes) (dec : sm rval) (xs : list V) :
  Forall (fun x => reads dec (enc x) (f x)) xs ->
  reads (decodeArrayElems (length xs) dec) (concat (map enc xs)) (map f xs).
Proof.
  intros F. induction F as [|x xs Hx F IH]; [apply reads_ret|]. cbn [map concat length].
  intros s rest K E R.
  destruct (reads_seq dec (fun v => vs <- decodeArrayElems (length xs) dec ;; sm_ret (v :: vs))
              (enc x) (concat (map enc xs)) (f x) (f x :: map f xs) Hx) with (s := s) (rest := rest)
    as (s' & M & C); [apply (reads_map _ (cons (f x)) _ _ IH)|done..|].
  exists s'. split; [|done]. cbn [decodeArrayElems]. unfold sm_bind in M at 1.
  destruct (dec s) as [[v|[]| |] s1]; done.
Qed.

(** [List] opens an encoded list, and [ListEnd] closes it after its content. *)
Lemma stream_List_frame c rest s :
  s_kind s = None -> s_in s = enc_list c ++ rest -> room s (len (enc_list c)) ->
  len (enc_list c) < 2 ^ 64 ->
  exists s1, stream_List s = (Ok (len c), s1) /\
    s_kind s1 = None /\ s_in s1 = c ++ rest /\ room s1 (len c) /\ closes s1 (len c) /\
    forall s2, core s2 = core (advance (len c) s1) ->
    exists s3, stream_ListEnd s2 = (Ok tt, s3) /\ core s3 = core (advance (len (enc_list c)) s).
Proof.
  intros K E R L. unfold enc_list in *. rewrite len_app in *. rewrite <- app_assoc in E.
  set (h := enc_head 0xC0 0xF7 (len c)) in *. pose proof (len_nonneg h). pose proof (len_nonneg c).
  destruct (stream_Kind_head KList 0xC0 0xF7 (len c) (c ++ rest) s ltac:(by right) K E ltac:(lia) R)
    as (s1 & SK & K1 & C). fold h in C.
  pose proof (f_equal (fun c => c.1.1.1.1) C) as C1. pose proof (f_equal (fun c => c.1.1.1.2) C) as C2.
  pose proof (f_equal (fun c => c.1.1.2) C) as C3. pose proof (f_equal snd C) as C5. cbn in C1, C2, C3, C5.
  eexists. unfold stream_List, sm_bind. rewrite SK. split; [reflexivity|]. split; [done|].
  assert (E1 : s_in s1 = c ++ rest) by (by rewrite C1, E, zdrop_app_len).
  split; [done|]. split.
  { destruct R as (R1 & R2 & R3). unfold room; cbn. rewrite C1, C2, C3, E, zdrop_app_len, len_app.
    pose proof (len_nonneg rest). split; [lia|]. split; [|lia].
    intros Lim. rewrite Lim in *. specialize (R2 eq_refl). lia. }
  split; [done|]. intros s2 D.
  pose proof (f_equal snd D) as D5. unfold core in D5; cbn in D5.
  unfold stream_ListEnd. rewrite D5. cbn [lp_pos lp_size]. rewrite Z.eqb_refl. cbn [negb].
  eexists. split; [reflexivity|].
  injection D as D1 D2 D3 _ _. unfold core; cbn. rewrite D1, D2, D3, C1, C2, C3, C5, zdrop_zdrop by done.
  f_equal; [|destruct R as (_ & _ & R); destruct (s_stack s) as [|p st]; cbn; [done|];
             rewrite u64_small by (unfold is_u64; lia); by rewrite Z.add_assoc].
  do 3 f_equal. destruct (s_limited s); lia.
Qed.

(** ** Values that survive the round trip *)

(** A [tail] slice reads up to the end of the enclosing list; it is the last field of
    a struct. *)
Fixpoint is_tail (t : rtype) : bool :=
  match t with TTail _ => true | TPtr false t => is_tail t | _ => false end.

(** The values that the decoder of a type returns: numbers in range, non-nil big
    integers and plain pointers, a nil pointer only under the [nil] tag where it has
    an encoding of its own, raw values that are one item, interfaces that hold what
    [decodeInterface] stores, and no zero [[1]byte]. *)
Fixpoint rt (t : rtype) (v : rval) {struct v} : Prop :=
  match t, v with
  | TUint bits, VUint i => 0 <= i < 2 ^ bits /\ (bits = 8 \/ bits = 16 \/ bits = 32 \/ bits = 64)
  | TBool, VBool _ => True
  | TBig, VBig (Some i) => 0 <= i
  | TString, VBytes b | TBytes, VBytes b => bytes_ok b
  | TRaw, VBytes b => bytes_ok b /\ exists k c, b = enc_item k c /\ (k <> KList -> k = string_kind c)
  | TByteArray n, VBytes b => bytes_ok b /\ length b = n /\ b <> [0]
  | TSlice t, VList vs | TTail t, VList vs =>
    is_tail t = false /\
    (fix rts (vs : list rval) : Prop := match vs with [] => True | v :: vs => rt t v /\ rts vs end) vs
  | TArray n t, VList vs =>
    is_tail t = false /\ length vs = n /\
    (fix rts (vs : list rval) : Prop := match vs with [] => True | v :: vs => rt t v /\ rts vs end) vs
  | TStruct ts, VStruct vs =>
    (fix rtf (ts : list rtype) (vs : list rval) {struct vs} : Prop :=
       match ts, vs with
       | [], [] => True
       | t :: ts, v :: vs => (is_tail t = true -> ts = []) /\ rt t v /\ rtf ts vs
       | _, _ => False
       end) ts vs
  | TPtr true t, VPtr None => is_tail t = false /\ enc_nil t <> []
  | TPtr true t, VPtr (Some v) =>
    is_tail t = false /\ rt t v /\ enc_value t v <> [0x80] /\ enc_value t v <> [0xC0]
  | TPtr false t, VPtr (Some v) => is_tail t = false /\ rt t v
  | TIface, VIface (Some (t, v)) => (t = TBytes \/ t = TSlice TIface) /\ rt t v
  | _, _ => False
  end.

Fixpoint rt_fields (ts : list rtype) (vs : list rval) {struct vs} : Prop :=
  match ts, vs with
  | [], [] => True
  | t :: ts, v :: vs => (is_tail t = true -> ts = []) /\ rt t v /\ rt_fields ts vs
  | _, _ => False
  end.

Lemma rt_elems t vs :
  (fix rts (vs : list rval) : Prop := match vs with [] => True | v :: vs => rt t v /\ rts vs end) vs
  <-> Forall (rt t) vs.
Proof.
  induction vs as [|v vs IH]; [by split|]. rewrite Forall_cons_iff, <- IH. done.
Qed.

(** Every such value is one item. *)
Definition is_item (e : bytes) : Prop :=
  exists k c, e = enc_item k c /\ (k <> KList -> k = string_kind c).

Lemma is_item_string c : is_item (enc_string c).
Proof. exists (string_kind c), c. split; [|done]. unfold string_kind. by repeat case_goal. Qed.

Lemma is_item_list c : is_item (enc_list c).
Proof. by exists KList, c. Qed.

#[export] Hint Resolve is_item_string is_item_list : rlpkind.

Lemma is_item_nonempty e : is_item e -> 0 < len e.
Proof.
  assert (H : forall s l n, 0 < len (enc_head s l n)).
  { intros s l n. unfold enc_head. case_goal; rewrite len_cons; [done|].
    pose proof (len_nonneg (be_min n)). lia. }
  assert (G : forall s l n c, 0 < len (enc_head s l n ++ c)).
  { intros s l n c. rewrite len_app. pose proof (len_nonneg c). specialize (H s l n). lia. }
  intros (k & c & -> & _). destruct k; cbn [enc_item]; [| |apply G];
    (destruct (enc_string_cases c) as [(x & -> & _ & ->)|[_ ->]]; [done|apply G]).
Qed.

Lemma enc_nil_cases t : enc_nil t = [] \/ enc_nil t = enc_string [] \/ enc_nil t = enc_list [].
Proof. induction t using rtype_ind; cbn; auto. Qed.

Lemma rt_item v : forall t, rt t v -> is_tail t = false -> is_item (enc_value t v).
Proof.
  induction v as [i|b|b|i|vs IH|vs IH| |v IH| |t' v IH] using rval_ind;
    intros [bits| | | | |n| |t|t|n t|ts|[] t|] W T; try done; cbn [enc_value]; auto with rlpkind; cbn in W.
  - apply W.
  - destruct W as [_ W]. destruct (enc_nil_cases t) as [E|[-> | ->]]; [done|apply is_item_string|apply is_item_list].
  - destruct W as (Tt & W & _). by apply IH.
  - destruct W as (Tt & W). by apply IH.
  - destruct W as [[-> | ->] W]; by apply IH.
Qed.

(** ** Lemmas: a decoder that has peeked at the kind *)

Lemma starts_kind_decode fuel t :
  (0 < fuel)%nat -> is_tail t = false -> starts_kind (decode fuel t).
Proof.
  intros Hf. induction t as [| | | | | | | | | | |nilOK t IHt|] using rtype_ind; intros T; cbn [decode]; try done;
    unfold decodeBigInt, decodeByteArray, decodeListSlice, decodeListArray, decodeStruct, stream_Raw,
      stream_Bool, stream_uint, stream_Bytes, stream_List; auto 8 with rlpkind.
  - destruct nilOK; [|by apply starts_kind_seq, IHt].
    intros s r s' H. unfold decodeOptionalPtr. by rewrite H, (stream_Kind_again _ _ _ H).
  - destruct fuel; [lia|]. apply starts_kind_bind.
Qed.

Lemma eol_decode fuel t : (0 < fuel)%nat -> is_tail t = false -> eol (decode fuel t).
Proof.
  intros Hf. induction t as [| | | | | | | | | | |nilOK t IHt|] using rtype_ind; intros T; cbn [decode]; try done;
    unfold decodeBigInt, decodeByteArray, decodeListSlice, decodeListArray, decodeStruct, stream_Raw,
      stream_Bool, stream_uint, stream_Bytes, stream_List; auto 9 with rlpeol.
  - destruct nilOK; [|by apply eol_bind, IHt].
    intros s E. destruct (eol_Kind s E) as (s' & M & C). exists (set_kind None s').
    unfold decodeOptionalPtr. rewrite M. split; [done|].
    rewrite (core_set_kind _ _ None C). destruct s, E as [K _]. cbn in *. by subst.
  - destruct fuel; [lia|]. cbn [decodeInterface]. auto with rlpeol.
Qed.

Lemma stream_Kind_item k c rest s :
  s_kind s = None -> s_in s = enc_item k c ++ rest -> room s (len (enc_item k c)) ->
  (k <> KList -> k = string_kind c) -> len (enc_item k c) < 2 ^ 64 ->
  exists n s1, stream_Kind s = (Ok (k, n), s1) /\
    (k <> KByte -> n = len c /\
      core (set_kind None s1) = core (advance (len (enc_item k c) - len c) s)).
Proof.
  intros K E R Hk L. pose proof (len_nonneg c).
  assert (G : forall small large, k <> KByte ->
     (k, small, large) = (KString, 0x80, 0xB7) \/ (k, small, large) = (KList, 0xC0, 0xF7) ->
     enc_item k c = enc_head small large (len c) ++ c ->
     exists n s1, stream_Kind s = (Ok (k, n), s1) /\
       (k <> KByte -> n = len c /\
         core (set_kind None s1) = core (advance (len (enc_item k c) - len c) s))).
  { intros small large _ F EI. rewrite EI, len_app in *. rewrite <- app_assoc in E.
    pose proof (len_nonneg (enc_head small large (len c))).
    destruct (stream_Kind_head k small large (len c) (c ++ rest) s F K E ltac:(lia) R) as (s1 & SK & K1 & C).
    exists (len c), s1. split; [done|]. by rewrite Z.add_simpl_r. }
  destruct k; [|apply (G 0x80 0xB7); [done|by left|]|apply (G 0xC0 0xF7); [done|by right|done]];
    specialize (Hk ltac:(done)); cbn [enc_item] in *;
    destruct (enc_string_cases c) as [(x & -> & Hx & ES)|[H1 ES]]; try done.
  - rewrite ES in *. destruct (stream_Kind_byte x rest s K E ltac:(lia) R) as (s1 & SK & _).
    exists 0, s1. done.
  - exfalso. destruct c as [|x [|]]; try done. cbn in Hk. specialize (H1 eq_refl). cbn in H1.
    destruct (Z.leb_spec x 127); [lia|done].
  - cbn in Hk. destruct (Z.leb_spec x 127); [done|lia].
Qed.

Lemma reads_starts {A} (m : sm A) (f : Kind * Z -> sm A) k c a :
  reads m (enc_item k c) a -> starts_kind m ->
  (k <> KList -> k = string_kind c) -> len (enc_item k c) < 2 ^ 64 ->
  (forall n s, (k <> KByte -> n = len c) ->
     forall b s', m s = (Ok b, s') -> f (k, n) s = (Ok b, s')) ->
  reads (sm_bind stream_Kind f) (enc_item k c) a.
Proof.
  intros Hm Hs Hk L Hf s rest K E R.
  destruct (stream_Kind_item k c rest s K E R Hk L) as (n & s1 & SK & N).
  destruct (Hm s rest K E R) as (s' & M & C). exists s'. split; [|done].
  unfold sm_bind. rewrite SK. apply Hf; [intros NB; apply (N NB)|]. by rewrite (Hs _ _ _ SK).
Qed.

Lemma reads_ByteArray b :
  b <> [0] -> len (enc_string b) < 2 ^ 64 -> bytes_ok b ->
  reads (decodeByteArray (length b)) (enc_string b) (VBytes b).
Proof.
  intros N0 L Hok s rest K E R. pose proof (len_nonneg b).
  destruct (enc_string_cases b) as [(x & -> & Hx & ES)|[H1 ES]]; rewrite ES in *.
  - destruct (stream_Kind_byte x rest s K E ltac:(lia) R) as (s1 & SK & BV & K1 & C).
    exists (set_kind None s1). split; [|done].
    assert (x <> 0) by congruence. apply bytes_ok_cons in Hok as [Hb _]. unfold byte_ok in Hb.
    unfold decodeByteArray, sm_bind. rewrite SK. cbn [length]. unfold stream_uint, sm_bind.
    rewrite (stream_Kind_again _ _ _ SK), BV. zdecide. by rewrite u8_small by lia.
  - rewrite len_app in *. rewrite <- app_assoc in E.
    pose proof (len_nonneg (enc_head 0x80 0xB7 (len b))).
    destruct (stream_Kind_head KString 0x80 0xB7 (len b) (b ++ rest) s ltac:(by left) K E ltac:(lia) R)
      as (s1 & SK & K1 & C).
    destruct (readFull_content s s1 _ b rest C E R) as (s2 & RF & C2).
    exists s2. split; [|done]. unfold decodeByteArray, sm_bind. rewrite SK. fold (len b).
    rewrite !Z.ltb_irrefl, RF.
    destruct (Z.eqb_spec (len b) 1) as [E1|]; cbn; [|done]. specialize (H1 E1). by zdecide.
Qed.

Lemma reads_BigInt i : 0 <= i -> len (enc_string (be_min i)) < 2 ^ 64 ->
  reads decodeBigInt (enc_string (be_min i)) (VBig (Some i)).
Proof.
  intros Hi L. apply (reads_bind_ret _ _ _ (be_min i)); [by apply reads_wrap, reads_Bytes|].
  intros s. pose proof (be_min_hd i) as HD. pose proof (be_decode_min i Hi) as D.
  assert (Z0 : (0 <? len (be_min i)) && (at_ (be_min i) 0 =? 0) = false).
  { destruct (be_min i) as [|x l]; [done|]. cbn. apply andb_false_iff. right.
    apply Z.eqb_neq. by intros ->. }
  rewrite Z0, D. done.
Qed.

Lemma reads_list (m : Z -> sm (list rval)) (close : sm unit) (f : list rval -> rval) g c vs :
  reads_all (m (len c)) c vs -> len (enc_list c) < 2 ^ 64 ->
  (forall s s', stream_ListEnd s = (Ok tt, s') -> close s = (Ok tt, s')) ->
  reads (n <- sm_wrap g stream_List ;; vs <- m n ;; _ <- close ;; sm_ret (f vs)) (enc_list c) (f vs).
Proof.
  intros Hm L Hc s rest K E R.
  destruct (stream_List_frame c rest s K E R L) as (s1 & SL & K1 & E1 & R1 & Cl1 & Fin).
  destruct (Hm s1 rest K1 E1 R1 Cl1) as (s2 & M & C2).
  destruct (Fin s2 C2) as (s3 & LE & C3). exists s3. split; [|done].
  unfold sm_bind, sm_wrap. rewrite SL. cbn [map_err]. rewrite M, (Hc _ _ LE). done.
Qed.

Lemma wrap_close g s s' : stream_ListEnd s = (Ok tt, s') -> sm_wrap g stream_ListEnd s = (Ok tt, s').
Proof. intros H. unfold sm_wrap. by rewrite H. Qed.

(** ** Lemmas: the round trip *)

Definition decodes (fuel : nat) (t : rtype) (v : rval) : Prop :=
  if is_tail t then reads_all (decode fuel t) (enc_value t v) v
  else reads (decode fuel t) (enc_value t v) v.

(** An interface and a tail need one more unit of fuel than they have bytes. *)
Fixpoint extra_fuel (t : rtype) : nat :=
  match t with TTail _ | TIface => 1 | TPtr _ t => extra_fuel t | _ => 0 end.

Definition roundtrips (v : rval) : Prop :=
  forall t fuel, rt t v -> len (enc_value t v) < 2 ^ 64 ->
  (length (enc_value t v) + extra_fuel t <= fuel)%nat -> decodes fuel t v.

Lemma extra_fuel_le t : (extra_fuel t <= 1)%nat.
Proof. induction t using rtype_ind; cbn; lia. Qed.

Lemma roundtrips_elems t vs fuel :
  Forall roundtrips vs -> Forall (rt t) vs -> is_tail t = false ->
  len (concat (map (enc_value t) vs)) < 2 ^ 64 ->
  (length (concat (map (enc_value t) vs)) < fuel)%nat ->
  Forall (fun v => reads (decode fuel t) (enc_value t v) v) vs /\
  (length vs <= length (concat (map (enc_value t) vs)))%nat.
Proof.
  intros IH W T. induction IH as [|v vs H IH IHvs]; intros L Hf; [done|].
  apply Forall_cons_iff in W as [Wv W]. cbn [map concat length] in *.
  rewrite len_app in L. rewrite length_app in *.
  pose proof (len_nonneg (enc_value t v)). pose proof (len_nonneg (concat (map (enc_value t) vs))).
  destruct (IHvs W ltac:(lia) ltac:(lia)) as [F N].
  pose proof (is_item_nonempty _ (rt_item v t Wv T)) as P. unfold len in P. split; [|lia].
  constructor; [|done]. pose proof (extra_fuel_le t).
  specialize (H t fuel Wv ltac:(lia) ltac:(lia)). unfold decodes in H. by rewrite T in H.
Qed.

Lemma roundtrips_slice t vs fuel :
  Forall roundtrips vs -> Forall (rt t) vs -> is_tail t = false ->
  len (concat (map (enc_value t) vs)) < 2 ^ 64 ->
  (length (concat (map (enc_value t) vs)) < fuel)%nat ->
  reads_all (decodeSliceElems fuel (decode fuel t)) (concat (map (enc_value t) vs)) vs.
Proof.
  intros IH W T L Hf. destruct (roundtrips_elems t vs fuel IH W T L Hf) as [F N].
  rewrite <- (map_id vs) at 2. apply (reads_SliceElems (fun v => v)); [done|apply eol_decode; [lia|done]|lia].
Qed.

Lemma reads_ListSlice (dec : sm rval) fuel c vs :
  reads_all (decodeSliceElems fuel dec) c vs -> (c = [] -> vs = []) -> len (enc_list c) < 2 ^ 64 ->
  reads (decodeListSlice fuel dec) (enc_list c) (VList vs).
Proof.
  intros H E0 L s rest K E R.
  destruct (reads_list (fun n => if n =? 0 then sm_ret [] else decodeSliceElems fuel dec) stream_ListEnd
              VList wrapStreamError c vs) with (s := s) (rest := rest) as (s' & M & C); [|done..|].
  { destruct (Z.eqb_spec (len c) 0) as [Z|]; [|done].
    apply len_zero_inv in Z as ->. rewrite E0 by done. apply reads_reads_all, reads_ret. }
  exists s'. split; [|done]. rewrite <- M. unfold decodeListSlice, sm_bind.
  destruct (sm_wrap _ _ s) as [[n| | |] s1]; try done. by destruct (n =? 0).
Qed.

Definition decodeFields (fuel : nat) : list rtype -> sm (list rval) :=
  fix decodeFields (ts : list rtype) : sm (list rval) :=
    match ts with
    | [] => sm_ret []
    | t :: ts => v <- sm_wrap fieldError (decode fuel t) ;;
                 vs <- decodeFields ts ;; sm_ret (v :: vs)
    end.

Lemma reads_all_wrap {A} (m : sm A) f e a : reads_all m e a -> reads_all (sm_wrap f m) e a.
Proof.
  intros H s rest K E R Cl. destruct (H s rest K E R Cl) as (s' & M & C).
  exists s'. split; [|done]. unfold sm_wrap. by rewrite M.
Qed.

Lemma roundtrips_fields fuel : forall vs ts,
  Forall roundtrips vs -> rt_fields ts vs -> len (enc_fields ts vs) < 2 ^ 64 ->
  (length (enc_fields ts vs) < fuel)%nat ->
  reads_all (decodeFields fuel ts) (enc_fields ts vs) vs.
Proof.
  induction vs as [|v vs IHvs]; intros [|t ts] IH W L Hf; try done.
  - apply reads_reads_all, reads_ret.
  - apply Forall_cons_iff in IH as [H IH]. destruct W as (Tl & Wv & W).
    cbn [enc_fields decodeFields] in *. rewrite len_app in L. rewrite length_app in Hf.
    pose proof (len_nonneg (enc_value t v)). pose proof (len_nonneg (enc_fields ts vs)).
    specialize (IHvs ts IH W ltac:(lia) ltac:(lia)).
    pose proof (extra_fuel_le t). specialize (H t fuel Wv ltac:(lia) ltac:(lia)). unfold decodes in H.
    destruct (is_tail t).
    + rewrite (Tl eq_refl) in *. destruct vs; [|done]. cbn [enc_fields] in *. rewrite app_nil_r in *.
      apply (reads_all_map _ (fun v => [v])), reads_all_wrap, H.
    + eapply reads_all_seq; [apply reads_wrap, H|]. apply (reads_all_map _ (cons v)), IHvs.
Qed.

(** A pointer that may be nil is read by the decoder of its element, which peeks at
    the same kind again. *)
Lemma reads_OptionalPtr_some (dec : sm rval) e v :
  reads dec e v -> starts_kind dec -> is_item e -> len e < 2 ^ 64 -> e <> [0x80] -> e <> [0xC0] ->
  reads (decodeOptionalPtr dec) e (VPtr (Some v)).
Proof.
  intros H St (k & c & -> & Hk) L N1 N2 s rest K E R.
  destruct (stream_Kind_item k c rest s K E R Hk L) as (n & s1 & SK & N).
  destruct (H s rest K E R) as (s' & M & C). exists s'. split; [|done].
  unfold decodeOptionalPtr. rewrite SK.
  assert (B : (n =? 0) && (if decide (k = KByte) then false else true) = false).
  { destruct (decide (k = KByte)) as [->|NB]; [apply andb_false_r|].
    destruct (N NB) as [-> _]. destruct (Z.eqb_spec (len c) 0) as [Z|]; [|done].
    apply len_zero_inv in Z as ->. destruct k; done. }
  rewrite B. unfold sm_bind. by rewrite (St _ _ _ SK), M.
Qed.

Lemma reads_OptionalPtr_nil (dec : sm rval) k :
  k <> KByte -> reads (decodeOptionalPtr dec) (enc_item k []) (VPtr None).
Proof.
  intros NB s rest K E R.
  destruct (stream_Kind_item k [] rest s K E R) as (n & s1 & SK & N); [by destruct k..|].
  destruct (N NB) as [-> C]. rewrite len_nil, Z.sub_0_r in C.
  exists (set_kind None s1). split; [|done]. unfold decodeOptionalPtr. rewrite SK.
  by destruct (decide (k = KByte)).
Qed.

Lemma reads_Interface fuel t v :
  t = TBytes \/ t = TSlice TIface -> rt t v -> reads (decode fuel t) (enc_value t v) v ->
  len (enc_value t v) < 2 ^ 64 ->
  reads (decodeInterface (S fuel)) (enc_value t v) (VIface (Some (t, v))).
Proof.
  intros Ht W H L. cbn [decodeInterface].
  assert (exists k c, enc_value t v = enc_item k c /\ (k <> KList -> k = string_kind c) /\
            (t = TBytes <-> k <> KList)) as (k & c & E & Hk & Hkt).
  { destruct Ht as [-> | ->], v; try done; cbn [enc_value].
    - eexists (string_kind b), b. unfold string_kind. repeat case_goal; done.
    - eexists KList, _. split; [reflexivity|]. done. }
  rewrite E in *.
  apply (reads_starts (v <- decode fuel t ;; sm_ret (VIface (Some (t, v)))) _ k c); try done.
  - by apply (reads_map _ (fun v => VIface (Some (t, v)))).
  - destruct Ht as [-> | ->]; cbn [decode]; unfold decodeListSlice, stream_List, stream_Bytes; auto with rlpkind.
  - intros n s _ b s'. destruct Ht as [-> | ->].
    + destruct k; [| |by destruct (proj1 Hkt eq_refl)]; cbn [decode]; unfold sm_bind at 1 2, sm_wrap, sm_bind at 1;
        destruct (stream_Bytes s) as [[]]; done.
    + destruct k; [by (pose proof (proj2 Hkt ltac:(done))) ..|]. done.
Qed.

Lemma length_enc_list c n : (length (enc_list c) + 0 <= n -> length c < n)%nat.
Proof.
  pose proof (is_item_nonempty (enc_list []) (is_item_list [])).
  unfold enc_list. rewrite length_app. unfold enc_head. case_goal; cbn [length]; lia.
Qed.

Lemma decode_roundtrips v : roundtrips v.
Proof.
  induction v as [i|b|b|i|vs IH|vs IH| |v IH| |t' v IH] using rval_ind;
    intros [bits| | | | |n| |t|t|n t|ts|[] t|] fuel W L Hf; try done; unfold decodes;
    cbn [is_tail decode]; cbn [rt] in W.
  - apply (reads_map _ VUint), reads_wrap. destruct W as [W1 W2]. by apply reads_uint.
  - apply (reads_map _ VBool), reads_wrap. apply (reads_bind_ret _ _ _ (Z.b2z b)).
    + apply reads_uint; [destruct b; cbn; lia|by left].
    + by destruct b.
  - by apply (reads_map _ VBytes), reads_wrap, reads_Bytes.
  - by apply (reads_map _ VBytes), reads_wrap, reads_Bytes.
  - destruct W as (O & <- & N). by apply reads_ByteArray.
  - destruct W as (O & k & c & -> & Hk). by apply (reads_map _ VBytes), reads_Raw.
  - destruct i as [i|]; [|done]. by apply reads_BigInt.
  - destruct W as [T W]. rewrite rt_elems in W. cbn [enc_value] in *.
    apply length_enc_list in Hf. apply len_enc_list_lt in L as L'.
    apply reads_ListSlice; [by apply roundtrips_slice| |done].
    intros E. destruct (roundtrips_elems t vs fuel IH W T L' Hf) as [_ N].
    rewrite E in N. destruct vs; [done|cbn in N; lia].
  - destruct W as [T W]. rewrite rt_elems in W.
    apply (reads_all_map _ VList). apply roundtrips_slice; try done. cbn in *; lia.
  - destruct W as (T & <- & W). rewrite rt_elems in W. cbn [enc_value] in *.
    apply length_enc_list in Hf. apply len_enc_list_lt in L as L'.
    apply (reads_list (fun _ => decodeArrayElems _ _)); [|done|apply wrap_close].
    destruct (roundtrips_elems t vs fuel IH W T L' Hf) as [F _].
    rewrite <- (map_id vs) at 3. by apply reads_reads_all, (reads_ArrayElems (fun v => v)).
  - change (enc_value (TStruct ts) (VStruct vs)) with (enc_list (enc_fields ts vs)) in *.
    apply length_enc_list in Hf. apply len_enc_list_lt in L as L'.
    apply (reads_list (fun _ => decodeFields fuel ts)); [|done|apply wrap_close].
    by apply roundtrips_fields.
  - destruct W as [T N]. cbn [enc_value].
    destruct (enc_nil_cases t) as [E|[-> | ->]]; [done|..].
    + by apply (reads_OptionalPtr_nil _ KString).
    + by apply (reads_OptionalPtr_nil _ KList).
  - destruct W as (T & W & N1 & N2). cbn [enc_value] in *.
    specialize (IH t fuel W L Hf). unfold decodes in IH. rewrite T in IH.
    apply reads_OptionalPtr_some; try done; [|by apply rt_item].
    pose proof (is_item_nonempty _ (rt_item v t W T)) as P. unfold len in P.
    apply starts_kind_decode; [cbn in *; lia|done].
  - destruct W as (T & W). cbn [enc_value] in *.
    specialize (IH t fuel W L Hf). unfold decodes in IH. rewrite T in *.
    by apply (reads_map _ (fun v => VPtr (Some v))).
  - destruct W as (Ht & W). cbn [enc_value extra_fuel] in *. destruct fuel as [|fuel]; [lia|].
    apply reads_Interface; try done.
    destruct Ht as [-> | ->]; (apply (IH _ fuel W L); cbn [extra_fuel]; lia).
Qed.

Lemma room_NewStream b : room (NewStream b) (len b).
Proof. unfold room; cbn. split; [lia|]. split; [lia|done]. Qed.

Lemma rt_wt v : forall t, rt t v -> wt t v.
Proof.
  assert (Elems : forall vs t, Forall (fun v => forall t, rt t v -> wt t v) vs ->
     Forall (rt t) vs -> Forall (wt t) vs).
  { intros vs t H. induction H; intros W; [done|]. apply Forall_cons_iff in W as []. constructor; auto. }
  induction v as [i|b|b|i|vs IH|vs IH| |v IH| |t' v IH] using rval_ind;
    intros [bits| | | | |n| |t|t|n t|ts|[] t|] W; try done; cbn [rt wt] in *.
  - destruct W as [W1 W2]. split; [done|]. lia.
  - by destruct W as (? & ? & _).
  - by destruct W as [? _].
  - by destruct i.
  - destruct W as [_ W]. rewrite wt_elems. apply Elems; [done|]. by apply rt_elems.
  - destruct W as [_ W]. rewrite wt_elems. apply Elems; [done|]. by apply rt_elems.
  - destruct W as (_ & Ln & W). split; [done|]. rewrite wt_elems. apply Elems; [done|]. by apply rt_elems.
  - revert ts W. induction IH as [|v vs H IH IHvs]; intros [|t ts] W; try done.
    destruct W as (_ & Wv & W). split; [by apply H|by apply IHvs].
  - apply IH, W.
  - apply IH, W.
  - apply IH, W.
Qed.

Lemma DecodeBytes_enc_value t v :
  rt t v -> is_tail t = false -> len (enc_value t v) < 2 ^ 64 -> DecodeBytes t (enc_value t v) = Ok v.
Proof.
  intros W T L. pose proof (decode_roundtrips v t (S (length (enc_value t v))) W L) as H.
  pose proof (extra_fuel_le t). specialize (H ltac:(lia)). unfold decodes in H. rewrite T in H.
  destruct (H (NewStream (enc_value t v)) [] eq_refl) as (s & D & C);
    [by rewrite app_nil_r|apply room_NewStream|].
  unfold DecodeBytes, DecodeBytes_fuel. rewrite D. apply core_s_in in C.
  rewrite C, (s_in_advance_app _ []) by (by rewrite app_nil_r). done.
Qed.

(** C29. Decoding undoes encoding: [EncodeToBytes] succeeds and [DecodeBytes] of what it
    writes is the value, through nested lists, arrays, structs with a tail, optional pointers,
    interfaces and booleans.  It holds of the values that [rt] describes, those that survive:
    integers of 8, 16, 32 or 64 bits within their width; byte strings and strings; [[n]byte]
    other than the zero [[1]byte]; big integers and plain pointers that are not nil; under the
    [nil] tag, nil where the element type has an encoding for it, or a pointer to a value that
    is not encoded as the empty string or list; raw values that are one item; interfaces that
    hold a byte slice or a slice of interfaces; structs with a tail in the last field only. *)
Theorem decode_encode_roundtrip t v :
  rt t v -> is_tail t = false -> len (enc_value t v) < 2 ^ 64 ->
  exists b, EncodeToBytes t v = Ok b /\ DecodeBytes t b = Ok v.
Proof.
  intros W T L. exists (enc_value t v).
  split; [apply EncodeToBytes_spec; [by apply rt_wt|done]|by apply DecodeBytes_enc_value].
Qed.

Lemma decode_encode_roundtrip_witness :
  let t := TStruct [TUint 64; TPtr true (TByteArray 20); TSlice (TStruct [TBig; TBool]); TTail TIface] in
  let v := VStruct [VUint 1024; VPtr None; VList [VStruct [VBig (Some 300); VBool true]];
                    VList [VIface (Some (TSlice TIface, VList [VIface (Some (TBytes, VBytes [1; 2]))]))]] in
  exists b, EncodeToBytes t v = Ok b /\ DecodeBytes t b = Ok v.
Proof.
  apply decode_encode_roundtrip; [|reflexivity|vm_compute; reflexivity].
  cbn. unfold byte_ok.
  repeat first [lia | done | split | (right; done) | constructor].
Defined.
