(* ===== verification/RlpCanonical.v ===== *)
(** * Package [rlp]: what the stream decoder accepts

    Inversion of the decoder of [RlpStream]: which bytes a successful read has taken
    from the input.  From it, the decoder accepts canonical encodings only; and where that
    is not so. *)

From S2P Require Import Prelude Rlp RlpStream.

(** ** Well-formed streams *)

(** Open lists lie within each other. *)
Fixpoint nest (st : list listpos) : Prop :=
  match st with
  | [] => True
  | p :: st =>
    (0 <= lp_pos p /\ lp_pos p <= lp_size p /\ lp_size p < 2 ^ 64) /\
    match st with q :: _ => lp_size p <= lp_size q - lp_pos q | [] => True end /\
    nest st
  end.

Definition inv (s : stream) : Prop :=
  s_kind s = None /\ bytes_ok (s_in s) /\ nest (s_stack s) /\
  (s_limited s = true -> 0 <= s_remaining s).

(** The bytes [e] have been read between [s] and [s']. *)
Definition took (s : stream) (e : bytes) (s' : stream) : Prop :=
  (exists rest, s_in s = e ++ rest) /\ room s (len e) /\ core s' = core (advance (len e) s).

Lemma nest_bump n st :
  0 <= n -> match st with [] => True | p :: _ => lp_pos p + n <= lp_size p end ->
  nest st -> nest (bump n st).
Proof. destruct st as [|p st]; cbn; [done|]. intros Hn Hp (H1 & H2 & H3). split; [lia|done]. Qed.

Lemma core_inv s s' : core s = core s' -> inv s -> inv s'.
Proof. unfold core, inv. by intros [= -> -> -> -> ->]. Qed.

Lemma inv_advance s n : 0 <= n -> room s n -> inv s -> inv (advance n s).
Proof.
  intros Hn (R1 & R2 & R3) (K & O & N & Lm). split; [done|]. split; [by apply bytes_ok_zdrop|]. split.
  - apply nest_bump; [done| |done]. destruct (s_stack s); [done|lia].
  - cbn. intros E. rewrite E. specialize (R2 E). lia.
Qed.

Lemma took_in s e s' : took s e s' -> s_in s = e ++ s_in s'.
Proof.
  intros ((rest & E) & _ & C). apply core_s_in in C. rewrite C, (s_in_advance_app _ _ _ E). exact E.
Qed.

Lemma took_inv s e s' : inv s -> took s e s' -> inv s'.
Proof.
  intros I (_ & R & C). eapply core_inv; [symmetry; exact C|]. by apply inv_advance; [apply len_nonneg| |].
Qed.

Lemma took_bytes_ok s e s' : inv s -> took s e s' -> bytes_ok e.
Proof. intros (_ & O & _) T. rewrite (took_in _ _ _ T) in O. by apply bytes_ok_app in O as [O _]. Qed.

Lemma room_add s n m : 0 <= n -> 0 <= m -> room s n -> room (advance n s) m -> room s (n + m).
Proof.
  unfold room, advance; cbn. intros Hn Hm (L & R & P) (L' & R' & P').
  rewrite len_zdrop in L' by lia. split; [lia|]. split.
  - intros E. rewrite E in *. specialize (R' eq_refl). lia.
  - destruct (s_stack s); [done|]. cbn in P'. lia.
Qed.

Lemma took_app s e1 s1 e2 s2 : took s e1 s1 -> took s1 e2 s2 -> took s (e1 ++ e2) s2.
Proof.
  intros T1 T2. pose proof (took_in _ _ _ T1) as I1. pose proof (took_in _ _ _ T2) as I2.
  destruct T1 as (_ & R1 & C1), T2 as (_ & R2 & C2).
  pose proof (len_nonneg e1). pose proof (len_nonneg e2). split; [|split].
  - exists (s_in s2). by rewrite I1, I2, app_assoc.
  - rewrite len_app. apply room_add; try done. eapply core_room; [exact C1|done].
  - rewrite C2, len_app, <- advance_advance by done. by apply core_advance.
Qed.

Lemma room_0 s : inv s -> room s 0.
Proof.
  intros (K & O & N & Lm). split; [apply len_nonneg|]. split; [done|].
  destruct (s_stack s) as [|p st]; [done|]. destruct N as [N _]. lia.
Qed.

Lemma advance_0 s : s_kind s = None -> advance 0 s = s.
Proof.
  destruct s as [i rem lim k sz bv ke st]. cbn. intros ->. unfold advance; cbn. f_equal.
  - destruct lim; lia.
  - destruct st as [|[p n] st]; cbn; [done|]. by rewrite Z.add_0_r.
Qed.

Lemma took_refl s : inv s -> took s [] s.
Proof.
  intros I. split; [by exists (s_in s)|]. split; [by apply room_0|]. by rewrite advance_0 by apply I.
Qed.

Lemma took_core s e s1 s2 : core s1 = core s2 -> took s e s1 -> took s e s2.
Proof. intros C (E & R & C'). split; [done|]. split; [done|]. congruence. Qed.

Lemma took_from s s0 e s1 : core s = core s0 -> took s e s1 -> took s0 e s1.
Proof.
  intros C (E & R & C'). split; [by rewrite <- (core_s_in _ _ C)|]. split; [by eapply core_room|].
  rewrite C'. by apply core_advance.
Qed.

(** ** Inversion of the readers *)

Lemma willRead_inv n s s' :
  0 <= n -> nest (s_stack s) -> willRead n s = (Ok tt, s') ->
  s' = set_in (s_in s) (advance n s) /\ (n <= len (s_in s) -> room s n).
Proof.
  intros Hn N. destruct s as [i rem lim k sz bv ke [|p st]]; unfold willRead, room; cbn.
  - destruct lim; [destruct (Z.ltb_spec rem n); [done|]|]; intros [= <-]; done.
  - cbn in N. destruct N as (N1 & _). unfold lp_left.
    rewrite (u64_small (lp_size p - lp_pos p)) by (unfold is_u64; lia).
    destruct (Z.ltb_spec (lp_size p - lp_pos p) n); [done|].
    rewrite u64_small by (unfold is_u64; lia). cbn.
    destruct lim; [destruct (Z.ltb_spec rem n); [done|]|]; intros [= <-]; split; try done; intros; split; try done; lia.
Qed.

Lemma readByte_inv s b s' :
  nest (s_stack s) -> readByte s = (Ok b, s') -> took s [b] s'.
Proof.
  intros N. unfold readByte, sm_bind. destruct (willRead 1 s) as [[[]| | |] s1] eqn:W; try done.
  apply willRead_inv in W as [-> R]; [|lia|done]. cbn.
  destruct (s_in s) as [|x i] eqn:E; [done|]. intros [= -> <-].
  split; [by exists i|]. split; [apply R; rewrite len_cons; pose proof (len_nonneg i); cbn; lia|].
  unfold core, advance; cbn. by rewrite E.
Qed.

Lemma readFull_inv n s c s' :
  0 <= n -> nest (s_stack s) -> readFull n s = (Ok c, s') -> len c = n /\ took s c s'.
Proof.
  intros Hn N. unfold readFull, sm_bind. destruct (willRead n s) as [[[]| | |] s1] eqn:W; try done.
  apply willRead_inv in W as [-> R]; [|lia|done]. cbn.
  destruct (Z.ltb_spec (len (s_in s)) n) as [|L]; [done|]. intros [= <- <-].
  rewrite len_ztake by lia. split; [done|]. split; [|split].
  - exists (zdrop n (s_in s)). by rewrite ztake_zdrop.
  - rewrite len_ztake by lia. by apply R.
  - by rewrite len_ztake by lia.
Qed.

Lemma readUint_inv n s v s' :
  1 <= n -> nest (s_stack s) -> readUint n s = (Ok v, s') ->
  exists c, len c = n /\ n <= 8 /\ took s c s' /\ v = be_decode c /\ (n = 1 \/ hd_error c <> Some 0).
Proof.
  intros Hn N. unfold readUint. zdecide. destruct (Z.eqb_spec n 1) as [->|N1].
  - intros H. apply readByte_inv in H; [|done]. exists [v]. split; [done|]. split; [lia|]. split; [done|].
    split; [cbn; lia|by left].
  - destruct (Z.ltb_spec 8 n) as [|N8]; [done|]. unfold sm_bind.
    destruct (readFull n s) as [[c| | |] s1] eqn:RF; try done.
    apply readFull_inv in RF as [Lc T]; [|lia|done].
    destruct (Z.eqb_spec (at_ c 0) 0) as [|NZ]; [done|]. intros [= <- <-].
    exists c. do 4 (split; [done|]). right. destruct c as [|x c]; [done|]. cbn in *. congruence.
Qed.

(** The header of an item of a kind other than [Byte]. *)
Definition item_head (k : Kind) (n : Z) : bytes :=
  match k with KList => enc_head 0xC0 0xF7 n | _ => enc_head 0x80 0xB7 n end.

Lemma be_min_canonical c :
  bytes_ok c -> (len c = 1 \/ hd_error c <> Some 0) -> 0 < be_decode c -> be_min (be_decode c) = c.
Proof.
  intros O H P. apply be_min_decode; [done|]. destruct H as [H|H]; [|done].
  destruct c as [|x [|y c]]; try done; cbn in *.
  - intros [= ->]. lia.
  - rewrite !len_cons in H. pose proof (len_nonneg c). lia.
Qed.

Lemma stream_readKind_inv s k n s' :
  inv s -> stream_readKind s = ((k, n, None), s') ->
  (k = KByte /\ n = 0 /\ took s [s_byteval s'] s' /\ s_byteval s' < 0x80) \/
  (k <> KByte /\ 0 <= n < 2 ^ 64 /\ took s (item_head k n) s').
Proof.
  intros I. pose proof I as (K & O & N & _). unfold stream_readKind.
  destruct (readByte s) as [[b| | |] s1] eqn:RB; try done.
  apply readByte_inv in RB; [|done].
  pose proof (took_inv _ _ _ I RB) as (K1 & O1 & N1 & _).
  pose proof (took_bytes_ok _ _ _ I RB) as Ob. apply bytes_ok_cons in Ob as [Ob _]. unfold byte_ok in Ob.
  assert (Long : forall k' small large m, k' <> KByte -> small = (match k' with KList => 0xC0 | _ => 0x80 end) ->
     large = (match k' with KList => 0xF7 | _ => 0xB7 end) -> b = large + m -> 1 <= m ->
     match readUint m (set_byteval 0 s1) with
     | (Ok size, s) => ((k', size, if size <? 56 then Some ErrCanonSize else None), s)
     | (Err e, s) => ((k', 0, Some e), s)
     | (_, s) => ((k', 0, Some ErrUnexpectedEOF), s)
     end = ((k, n, None), s') ->
     k <> KByte /\ 0 <= n < 2 ^ 64 /\ took s (item_head k n) s').
  { intros k' small large m NB -> -> Eb Hm.
    destruct (readUint m (set_byteval 0 s1)) as [[size| | |] s2] eqn:RU; try done.
    apply readUint_inv in RU as (c & Lc & L8 & Tc & -> & Hh); [|done|done].
    destruct (Z.ltb_spec (be_decode c) 56) as [|S]; intros [= -> <- <-]; split; try done.
    apply (took_from _ s1) in Tc; [|done]. pose proof (took_inv _ _ _ I RB) as I1.
    pose proof (took_bytes_ok _ _ _ I1 Tc) as Oc. pose proof (be_decode_range c Oc) as Rg.
    pose proof (Z.pow_le_mono_r 256 (len c) 8 ltac:(lia) ltac:(lia)) as P8. change (256 ^ 8) with (2 ^ 64) in P8.
    split; [lia|]. replace (item_head k (be_decode c)) with ([b] ++ c); [by eapply took_app|].
    rewrite <- Lc in Hh. pose proof (be_min_canonical c Oc Hh ltac:(lia)) as BM.
    unfold item_head, enc_head. rewrite BM. zdecide. by destruct k; cbn; rewrite Lc, Eb. }
  assert (Short : forall k' m, k' <> KByte -> 0 <= m < 56 -> b = m + (match k' with KList => 0xC0 | _ => 0x80 end) ->
     ((k', m, @None rlp_error), set_byteval 0 s1) = ((k, n, None), s') ->
     k <> KByte /\ 0 <= n < 2 ^ 64 /\ took s (item_head k n) s').
  { intros k' m NB Hm Eb [= -> -> <-]. split; [done|]. split; [lia|].
    eapply took_core; [|replace (item_head k n) with [b]; [exact RB|]]; [done|].
    unfold item_head, enc_head. zdecide. destruct k; try done; f_equal; lia. }
  destruct (Z.ltb_spec b 0x80).
  { intros [= <- <- <-]. left. done. }
  destruct (Z.ltb_spec b 0xB8); [intros H'; right; apply (Short KString (b - 0x80)); [done|lia|lia|done]|].
  destruct (Z.ltb_spec b 0xC0); [intros H'; right; eapply (Long KString _ _ (b - 0xB7)); try done; lia|].
  destruct (Z.ltb_spec b 0xF8); [intros H'; right; apply (Short KList (b - 0xC0)); [done|lia|lia|done]|].
  intros H'; right; eapply (Long KList _ _ (b - 0xF7)); try done; lia.
Qed.

(** [n] bytes of content fit in the innermost open list. *)
Definition fits (s : stream) (n : Z) : Prop :=
  match s_stack s with p :: _ => n <= lp_size p - lp_pos p | [] => True end.

Lemma stream_Kind_inv s k n s1 :
  inv s -> stream_Kind s = (Ok (k, n), s1) ->
  (k = KByte /\ n = 0 /\ took s [s_byteval s1] (set_kind None s1) /\ s_byteval s1 < 0x80) \/
  (k <> KByte /\ 0 <= n < 2 ^ 64 /\ took s (item_head k n) (set_kind None s1) /\ fits s1 n).
Proof.
  intros I. pose proof I as (K & O & N & Lm). unfold stream_Kind. rewrite K. cbv zeta.
  destruct (match head (s_stack s) with Some p => _ | None => _ end); [done|].
  destruct (stream_readKind (set_kinderr None s)) as [[[k' n'] [e|]] s2] eqn:RK; [done|].
  apply stream_readKind_inv in RK; [|done].
  assert (Fin : fits s2 n' ->
     (Ok (k', n'), set_kinderr None (set_size n' (set_kind (Some k') s2))) = (@Ok rlp_error _ (k, n), s1) ->
     (k = KByte /\ n = 0 /\ took s [s_byteval s1] (set_kind None s1) /\ s_byteval s1 < 0x80) \/
     (k <> KByte /\ 0 <= n < 2 ^ 64 /\ took s (item_head k n) (set_kind None s1) /\ fits s1 n)).
  { intros F [= -> -> <-].
    destruct RK as [(-> & -> & T & B)|(NB & Hn & T)]; [left|right]; do 2 (split; [done|]); (split; [|done]);
      apply (took_from _ s) in T; try done; (eapply took_core; [|exact T]);
      destruct T as (_ & _ & C); apply core_kind in C; unfold core; cbn; by rewrite C. }
  assert (Hn' : 0 <= n') by (destruct RK as [(_ & -> & _)|(_ & ? & _)]; lia).
  assert (St : exists e, took s e s2).
  { destruct RK as [(_ & _ & T & _)|(_ & _ & T)]; eexists; (eapply took_from; [|exact T]); done. }
  destruct St as [e T]. pose proof (took_inv _ _ _ I T) as (_ & _ & N2 & _).
  destruct T as (_ & _ & C). pose proof (f_equal snd C) as C5. cbn in C5.
  destruct (s_stack s) as [|p st] eqn:St; cbn in C5 |- *.
  - destruct (s_limited s2 && _); cbn; [done|]. apply Fin. unfold fits. by rewrite C5.
  - rewrite C5 in *. cbn in N2. unfold lp_left; cbn. rewrite u64_small by (unfold is_u64; lia).
    destruct (Z.ltb_spec (lp_size p - (lp_pos p + len e)) n') as [|F]; cbn; [done|].
    apply Fin. unfold fits. by rewrite C5.
Qed.

(** [m] takes the bytes [enc a] when it returns [a]. *)
Definition takes {A} (m : sm A) (enc : A -> bytes -> Prop) : Prop :=
  forall s a s', inv s -> m s = (Ok a, s') -> exists e, took s e s' /\ enc a e.

Lemma takes_map {A B} (m : sm A) (f : A -> B) P Q :
  takes m P -> (forall a e, P a e -> Q (f a) e) -> takes (x <- m ;; sm_ret (f x)) Q.
Proof.
  intros T PQ s b s' I. unfold sm_bind. destruct (m s) as [[a| | |] s1] eqn:M; try done.
  intros [= <- <-]. destruct (T s a s1 I M) as (e & Te & Pe). eauto.
Qed.

Lemma takes_impl {A} (m : sm A) (P Q : A -> bytes -> Prop) :
  takes m P -> (forall a e, P a e -> Q a e) -> takes m Q.
Proof. intros T PQ s a s' I M. destruct (T s a s' I M) as (e & Te & Pe). eauto. Qed.

Lemma takes_wrap {A} (m : sm A) g P : takes m P -> takes (sm_wrap g m) P.
Proof.
  intros T s a s' I. unfold sm_wrap. destruct (m s) as [[a'| | |] s1] eqn:M; try done.
  intros [= <- <-]. by apply (T s a' s1).
Qed.

(** After a header, the content is read from the same position. *)
Lemma took_content s h s1 n c s2 :
  inv s -> took s h (set_kind None s1) -> 0 <= n -> readFull n s1 = (Ok c, s2) ->
  len c = n /\ took s (h ++ c) s2.
Proof.
  intros I T Hn RF. change (readFull n (set_kind None s1) = (Ok c, s2)) in RF.
  pose proof (took_inv _ _ _ I T) as (_ & _ & N1 & _).
  apply readFull_inv in RF as [L T2]; [|done|done]. split; [done|]. by eapply took_app.
Qed.

Lemma enc_string_byte x : x < 0x80 -> [x] = enc_string [x].
Proof. intros H. unfold enc_string. by zdecide. Qed.

Lemma enc_string_long c :
  (len c = 1 -> 128 <= at_ c 0) -> enc_string c = item_head KString (len c) ++ c.
Proof.
  intros H. destruct (enc_string_cases c) as [(x & -> & Hx & ->)|[_ ->]]; [|done].
  specialize (H eq_refl). cbn in H. lia.
Qed.

Lemma takes_Bytes : takes stream_Bytes (fun b e => e = enc_string b).
Proof.
  intros s b s' I. unfold stream_Bytes, sm_bind.
  destruct (stream_Kind s) as [[[k n]| | |] s1] eqn:SK; try done.
  apply stream_Kind_inv in SK as [(-> & -> & T & B)|(NB & Hn & T & F)]; [| |done].
  - intros [= <- <-]. eexists. split; [exact T|]. by apply enc_string_byte.
  - destruct k; try done. destruct (readFull n s1) as [[c| | |] s2] eqn:RF; try done.
    apply (took_content _ _ _ _ _ _ I T) in RF as [<- Tc]; [|lia].
    destruct ((len c =? 1) && (at_ c 0 <? 128)) eqn:Cn; [done|]. intros [= <- <-].
    eexists. split; [exact Tc|]. rewrite enc_string_long; [done|]. intros E1.
    rewrite E1 in Cn. cbn in Cn. by apply Z.ltb_ge in Cn.
Qed.

Lemma takes_Raw : takes stream_Raw (fun b e => e = b /\ e <> []).
Proof.
  intros s b s' I. unfold stream_Raw, sm_bind.
  destruct (stream_Kind s) as [[[k n]| | |] s1] eqn:SK; try done.
  apply stream_Kind_inv in SK as [(-> & -> & T & B)|(NB & Hn & T & F)]; [| |done].
  - intros [= <- <-]. eexists. split; [exact T|]. done.
  - destruct k; try done; destruct (readFull n s1) as [[c| | |] s2] eqn:RF; try done;
      apply (took_content _ _ _ _ _ _ I T) in RF as [<- Tc]; [|lia| |lia]; intros [= <- <-];
      rewrite puthead_spec by lia; (eexists; split; [exact Tc|]); (split; [done|]);
      unfold item_head, enc_head; by case_goal.
Qed.

Lemma byte_below bits x : 8 <= bits -> x < 0x80 -> x < 2 ^ bits.
Proof. intros H8 Hx. pose proof (Z.pow_le_mono_r 2 8 bits). lia. Qed.

(** A number of at most [bits / 8] bytes fits in [bits] bits. *)
Lemma word_below bits c : 8 <= bits -> bytes_ok c -> len c <= bits / 8 -> be_decode c < 2 ^ bits.
Proof.
  intros H8 O L. pose proof (be_decode_range c O) as [_ B]. pose proof (len_nonneg c).
  change 256 with (2 ^ 8) in B. rewrite <- Z.pow_mul_r in B by lia.
  pose proof (Z.pow_le_mono_r 2 (8 * len c) bits). pose proof (Z.mul_div_le bits 8). lia.
Qed.

Lemma takes_uint bits :
  bits <= 64 ->
  takes (stream_uint bits) (fun i e => e = enc_string (be_min i) /\ 0 <= i /\ (8 <= bits -> i < 2 ^ bits)).
Proof.
  intros Hb s v s' I. unfold stream_uint, sm_bind.
  destruct (stream_Kind s) as [[[k n]| | |] s1] eqn:SK; try done.
  apply stream_Kind_inv in SK as [(-> & -> & T & B)|(NB & Hn & T & F)]; [| |done].
  - destruct (Z.eqb_spec (s_byteval s1) 0) as [|NZ]; [done|]. intros [= <- <-].
    pose proof (took_bytes_ok _ _ _ I T) as O. pose proof O as O'. apply bytes_ok_cons in O' as [Ob _]. unfold byte_ok in Ob.
    eexists. split; [exact T|]. split; [|split; [lia|intros H8; by apply (byte_below bits)]]. pose proof (be_min_canonical [s_byteval s1] O (or_introl eq_refl)) as BM.
    change (be_decode [s_byteval s1]) with (0 * 256 + s_byteval s1) in BM.
    rewrite Z.add_0_l in BM. rewrite BM by lia. by apply enc_string_byte.
  - destruct k; try done. destruct (Z.ltb_spec (bits / 8) n) as [|Le]; [done|]. unfold sm_wrap.
    pose proof (took_inv _ _ _ I T) as I1. pose proof I1 as (_ & _ & N1 & _).
    destruct (Z.eq_dec n 0) as [->|NZ].
    { cbn. intros [= <- <-]. eexists. split; [exact T|]. split; [done|]. split; [done|]. intros H8. by apply (byte_below bits). }
    destruct (readUint n s1) as [[v'| | |] s2] eqn:RU; cbn [map_err]; try done.
    apply readUint_inv in RU as (c & Lc & L8 & Tc & -> & Hh); [|lia|done].
    change (took (set_kind None s1) c s2) in Tc. pose proof (took_bytes_ok _ _ _ I1 Tc) as Oc.
    zdecide. cbn [andb]. destruct (Z.ltb_spec (be_decode c) 128) as [|G]; [done|]. intros [= <- <-].
    eexists. split; [by eapply took_app|].
    split; [|split; [lia|intros H8; apply (word_below bits); [done|done|lia]]].
    rewrite <- Lc in Hh |- *. rewrite (be_min_canonical c Oc Hh) by lia.
    rewrite enc_string_long; [done|]. intros E1. destruct c as [|x [|y c]]; [done|exact G|].
    rewrite !len_cons in E1. pose proof (len_nonneg c). lia.
Qed.

Lemma takes_Bool : takes stream_Bool (fun b e => e = enc_string (be_min (Z.b2z b))).
Proof.
  intros s b s' I. unfold stream_Bool, sm_bind.
  destruct (stream_uint 8 s) as [[v| | |] s1] eqn:U; try done.
  apply takes_uint in U as (e & T & -> & _ & _); [|lia|done].
  destruct (Z.eqb_spec v 0) as [->|]; [intros [= <- <-]; eauto|].
  destruct (Z.eqb_spec v 1) as [->|]; [intros [= <- <-]; eauto|done].
Qed.

Lemma takes_BigInt : takes decodeBigInt (fun v e => exists i, v = VBig (Some i) /\ e = enc_string (be_min i) /\ 0 <= i).
Proof.
  intros s v s' I. unfold decodeBigInt, sm_bind.
  destruct (sm_wrap wrapStreamError stream_Bytes s) as [[b| | |] s1] eqn:B; try done.
  apply (takes_wrap _ _ _ takes_Bytes) in B as (e & T & ->); [|done].
  destruct ((0 <? len b) && (at_ b 0 =? 0)) eqn:Cn; [done|]. intros [= <- <-].
  pose proof (bytes_ok_enc_string b (took_bytes_ok _ _ _ I T)) as O.
  eexists. split; [exact T|]. eexists. split; [done|].
  split; [|by apply be_decode_range]. rewrite be_min_decode; [done|done|].
  - destruct b as [|x b]; [done|]. cbn in *. intros [= ->]. rewrite len_cons in Cn.
    pose proof (len_nonneg b). destruct (Z.ltb_spec 0 (1 + len b)); [done|lia].
Qed.

Lemma takes_ByteArray n :
  n <> 1%nat -> takes (decodeByteArray n) (fun v e => exists b, v = VBytes b /\ e = enc_string b /\ length b = n).
Proof.
  intros N1 s v s' I. unfold decodeByteArray, sm_bind.
  destruct (stream_Kind s) as [[[k m]| | |] s1] eqn:SK; try done.
  apply stream_Kind_inv in SK as [(-> & -> & T & B)|(NB & Hn & T & F)]; [| |done].
  - by destruct n as [|[|]].
  - destruct k; try done.
    destruct (Z.ltb_spec (Z.of_nat n) m); [done|]. destruct (Z.ltb_spec m (Z.of_nat n)); [done|].
    replace (Z.of_nat n) with m by lia.
    destruct (readFull m s1) as [[c| | |] s2] eqn:RF; try done.
    apply (took_content _ _ _ _ _ _ I T) in RF as [<- Tc]; [|lia].
    destruct ((len c =? 1) && (at_ c 0 <? 128)) eqn:Cn; [done|]. intros [= <- <-].
    eexists. split; [exact Tc|]. eexists. split; [done|]. split; [|unfold len in *; lia].
    rewrite enc_string_long; [done|]. intros E1. rewrite E1 in Cn. cbn in Cn. by apply Z.ltb_ge in Cn.
Qed.

(** ** Inversion of lists *)

Lemma stream_frame_inv s n s1 :
  inv s -> stream_List s = (Ok n, s1) ->
  inv s1 /\ 1 <= len (s_in s) - len (s_in s1) /\
  forall c s2 s3, took s1 c s2 -> stream_ListEnd s2 = (Ok tt, s3) -> n = len c /\ took s (enc_list c) s3.
Proof.
  intros I. unfold stream_List, sm_bind.
  destruct (stream_Kind s) as [[[k m]| | |] s0] eqn:SK; try done.
  apply stream_Kind_inv in SK as [(-> & -> & T & B)|(NB & Hn & T & F)]; [done| |done].
  destruct k; try done. intros [= -> <-].
  pose proof (took_inv _ _ _ I T) as (_ & O0 & N0 & L0). cbn in O0, N0, L0.
  pose proof (took_in _ _ _ T) as In. cbn [s_in set_kind] in In. set (h := item_head KList n) in *.
  assert (1 <= len h).
  { subst h. unfold item_head, enc_head. case_goal; rewrite len_cons; [done|]. pose proof (len_nonneg (be_min n)). lia. }
  assert (Hh : forall c, len c = n -> enc_list c = h ++ c) by (by intros c <-). clearbody h.
  split; [|split].
  - split; [done|]. split; [done|]. split; [|done]. cbn. split; [lia|]. split; [|done].
    unfold fits in F. by destruct (s_stack s0).
  - rewrite In, len_app. cbn [s_in set_size set_kind set_stack]. lia.
  - intros c s2 s3 T2 LE. pose proof (took_in _ _ _ T2) as In2. cbn [s_in set_size set_kind set_stack] in In2.
    destruct T2 as (_ & R2 & C2). unfold stream_ListEnd in LE.
    pose proof (f_equal snd C2) as St2. cbn [core snd advance s_stack bump set_size set_kind set_stack lp_pos lp_size] in St2.
    rewrite St2 in LE. cbn [lp_pos lp_size] in LE. rewrite Z.add_0_l in LE.
    destruct (Z.eqb_spec (len c) n) as [<-|]; [|done]. injection LE as <-. split; [done|].
    destruct T as (_ & R & C). pose proof (len_nonneg c).
    injection C as C1 C2' C3 C5. injection C2 as D1 D2 D3 _ _. cbn in D1, D2, D3.
    assert (Rc : room (advance (len h) s) (len c)).
    { destruct R2 as (R21 & R22 & _). cbn in R21, R22. unfold room; cbn.
      rewrite <- C1, <- C2', <- C5. split; [lia|]. split; [rewrite <- C3; done|].
      unfold fits in F. destruct (s_stack s0); [done|]. cbn in N0. lia. }
    rewrite (Hh c eq_refl). split; [exists (s_in s2)|split].
    + by rewrite In, In2, <- app_assoc.
    + rewrite len_app. by apply room_add; [lia| | |].
    + rewrite len_app, <- advance_advance by (done || apply len_nonneg).
      unfold core; cbn. rewrite D1, D2, D3, C1, C2', C3, C5.
      destruct Rc as (_ & _ & Rc). cbn in Rc. rewrite <- C5 in Rc. f_equal.
      rewrite C5 in Rc. destruct (s_stack s) as [|p st]; cbn in *; [done|].
      by rewrite u64_small by (unfold is_u64; lia).
Qed.

Lemma takes_list (m : Z -> sm (list rval)) (close : sm unit) (f : list rval -> rval) g P :
  (forall n, takes (m n) P) ->
  (forall s s', close s = (Ok tt, s') -> stream_ListEnd s = (Ok tt, s')) ->
  takes (n <- sm_wrap g stream_List ;; vs <- m n ;; _ <- close ;; sm_ret (f vs))
    (fun v e => exists vs c, v = f vs /\ e = enc_list c /\ P vs c).
Proof.
  intros Hm Hc s v s' I. unfold sm_bind, sm_wrap.
  destruct (stream_List s) as [[n| | |] s1] eqn:SL; cbn; try done.
  destruct (stream_frame_inv s n s1 I SL) as (I1 & _ & Fin).
  destruct (m n s1) as [[vs| | |] s2] eqn:M; try done.
  destruct (Hm n s1 vs s2 I1 M) as (c & Tc & Pc).
  destruct (close s2) as [[[]| | |] s3] eqn:LE; try done. intros [= <- <-].
  destruct (Fin c s2 s3 Tc (Hc _ _ LE)) as [_ T]. eauto 8.
Qed.

Lemma unwrap_close g s s' : sm_wrap g stream_ListEnd s = (Ok tt, s') -> stream_ListEnd s = (Ok tt, s').
Proof. unfold sm_wrap. destruct (stream_ListEnd s) as [[[]| | |] s1]; cbn; congruence. Qed.

(** ** Who returns [EOL] *)

(** [EOL] is returned only by a decoder that is at the end of a list when it starts,
    and which then has not moved. *)
Definition eol_inv {A} (m : sm A) : Prop :=
  forall s s', inv s -> m s = (Err EOL, s') -> core s' = core s /\ at_end s.

Definition never {A} (m : sm A) : Prop := forall s, fst (m s) <> Err EOL.

Lemma never_bind {A B} (m : sm A) (f : A -> sm B) :
  never m -> (forall a, never (f a)) -> never (sm_bind m f).
Proof.
  intros M F s. specialize (M s). unfold sm_bind. destruct (m s) as [[a|e| |] s1]; cbn in *; try done.
  - apply F.
  - congruence.
Qed.

Lemma never_wrap {A} (m : sm A) g : (forall e, g e = EOL -> e = EOL) -> never m -> never (sm_wrap g m).
Proof.
  intros G M s. specialize (M s). unfold sm_wrap. destruct (m s) as [[a|e| |] s1]; cbn in *; try done.
  intros [= E]. apply G in E. by subst.
Qed.

Lemma never_ret {A} (a : A) : never (sm_ret a).
Proof. done. Qed.

Lemma never_err {A} e : e <> EOL -> never (@sm_err A e).
Proof. intros H s. cbn. congruence. Qed.

Lemma never_ListEnd : never stream_ListEnd.
Proof. intros s. unfold stream_ListEnd. repeat (case_goal; try done). Qed.

Lemma never_willRead n : never (willRead n).
Proof. intros s. unfold willRead. repeat (case_goal; try done). Qed.

Lemma never_readByte : never readByte.
Proof. apply never_bind; [apply never_willRead|]. intros [] s. by case_goal. Qed.

Lemma never_readFull n : never (readFull n).
Proof. apply never_bind; [apply never_willRead|]. intros [] s. by case_goal. Qed.

Lemma never_readUint n : never (readUint n).
Proof.
  unfold readUint. repeat case_goal; try done; [apply never_readByte|].
  apply never_bind; [apply never_readFull|]. intros b. by case_goal.
Qed.

Create HintDb rlpnever.
#[export] Hint Resolve never_bind never_wrap never_ret never_err never_ListEnd never_readByte never_readFull never_readUint : rlpnever.

Lemma wrapStreamError_EOL e : wrapStreamError e = EOL -> e = EOL.
Proof. by destruct e. Qed.

Lemma canonSizeToInt_EOL e : canonSizeToInt e = EOL -> e = EOL.
Proof. by destruct e. Qed.

#[export] Hint Resolve wrapStreamError_EOL canonSizeToInt_EOL : rlpnever.
#[export] Hint Extern 4 (_ <> EOL) => discriminate : rlpnever.

Lemma eol_inv_Kind : eol_inv stream_Kind.
Proof.
  intros s s' (K & _). unfold stream_Kind. rewrite K. cbv zeta.
  destruct (match head (s_stack s) with Some p => _ | None => _ end) eqn:E.
  { intros [= <-]. split; [done|]. split; [done|]. destruct (s_stack s); [done|]. cbn in E. by zbool. }
  destruct (stream_readKind (set_kinderr None s)) as [[[k n] [e|]] s1] eqn:RK.
  - cbn. intros [= -> _]. exfalso. revert RK. unfold stream_readKind.
    pose proof (never_readByte (set_kinderr None s)) as NB.
    destruct (readByte _) as [[b|e| |] s2]; cbn in NB; try done.
    + repeat case_goal; try done;
        match goal with E : readUint ?n ?s = _ |- _ => pose proof (never_readUint n s) as NU; rewrite E in NU end;
        cbn in NU; congruence.
    + destruct (s_stack s2); [destruct e; try done; congruence|congruence].
  - cbn. repeat case_goal; cbn; done.
Qed.

Lemma eol_inv_bind {A B} (m : sm A) (f : A -> sm B) :
  eol_inv m -> (forall a, never (f a)) -> eol_inv (sm_bind m f).
Proof.
  intros M F s s' I. unfold sm_bind. destruct (m s) as [[a|e| |] s1] eqn:E; try done.
  - intros H. destruct (F a s1). by rewrite H.
  - intros [= -> ->]. by apply M.
Qed.

Lemma eol_inv_wrap {A} (m : sm A) g :
  (forall e, g e = EOL -> e = EOL) -> eol_inv m -> eol_inv (sm_wrap g m).
Proof.
  intros G M s s' I. unfold sm_wrap. destruct (m s) as [[a|e| |] s1] eqn:E; cbn; try done.
  intros [= H ->]. apply G in H. subst. by apply M.
Qed.

Lemma at_end_Kind s r s1 : at_end s -> stream_Kind s <> (Ok r, s1).
Proof. intros E. destruct (eol_Kind s E) as (s' & -> & _). done. Qed.

(** A decoder that peeked at a kind does not return [EOL] afterwards. *)
Lemma eol_peeked {A} (m : sm A) s r s1 s' :
  eol_inv m -> starts_kind m -> inv s -> stream_Kind s = (Ok r, s1) -> m s1 <> (Err EOL, s').
Proof.
  intros M S I K E. rewrite (S _ _ _ K) in E. destruct (M s s' I E) as [_ A'].
  by destruct (at_end_Kind s r s1 A').
Qed.

Lemma never_SliceElems fuel dec : never (decodeSliceElems fuel dec).
Proof.
  induction fuel as [|fuel IH]; intros s; [done|]. cbn [decodeSliceElems].
  destruct (dec s) as [[v|[]| |] s1]; cbn; try done.
  apply never_bind; [done|]. auto with rlpnever.
Qed.

Lemma never_ArrayElems n dec : never (decodeArrayElems n dec).
Proof.
  induction n as [|n IH]; intros s; [done|]. cbn [decodeArrayElems].
  destruct (dec s) as [[v|[]| |] s1]; cbn; try done.
  apply never_bind; [done|]. auto with rlpnever.
Qed.

Lemma never_Fields fuel ts : never (decodeFields fuel ts).
Proof.
  induction ts as [|t ts IH]; [done|]. change (never (v <- sm_wrap fieldError (decode fuel t) ;;
    vs <- decodeFields fuel ts ;; sm_ret (v :: vs))).
  apply never_bind; [|auto with rlpnever].
  intros s. unfold sm_wrap. by destruct (decode fuel t s) as [[|[]| |] s1].
Qed.

#[export] Hint Resolve never_SliceElems never_ArrayElems never_Fields : rlpnever.
#[export] Hint Resolve eol_inv_Kind eol_inv_bind eol_inv_wrap : rlpnever.

(** Leaves of the [match]es after a [Kind]. *)
Ltac never_leaves :=
  repeat (first [ apply never_ret | apply never_err; discriminate | apply never_readFull
    | apply never_readUint | apply never_ListEnd | apply never_SliceElems | apply never_ArrayElems
    | apply never_Fields | apply never_bind; [|intros ?] | apply never_wrap; [by intros []|]
    | progress case_goal | (intros ?; cbn; repeat case_goal; discriminate) ]).

Lemma eol_inv_Bytes : eol_inv stream_Bytes.
Proof. apply eol_inv_bind; [apply eol_inv_Kind|]. intros [[] n]; never_leaves. Qed.

Lemma eol_inv_Raw : eol_inv stream_Raw.
Proof. apply eol_inv_bind; [apply eol_inv_Kind|]. intros [[] n]; never_leaves. Qed.

Lemma eol_inv_uint bits : eol_inv (stream_uint bits).
Proof. apply eol_inv_bind; [apply eol_inv_Kind|]. intros [[] n]; never_leaves. Qed.

Lemma eol_inv_List : eol_inv stream_List.
Proof. apply eol_inv_bind; [apply eol_inv_Kind|]. intros [[] n]; never_leaves. Qed.

Lemma eol_inv_ByteArray n : n <> 1%nat -> eol_inv (decodeByteArray n).
Proof.
  intros N1. apply eol_inv_bind; [apply eol_inv_Kind|].
  destruct n as [|[|n]]; [|done|]; intros [[] m]; never_leaves.
Qed.

Lemma eol_inv_ListSlice fuel dec : eol_inv (decodeListSlice fuel dec).
Proof.
  apply eol_inv_bind; [apply eol_inv_wrap; [by intros []|apply eol_inv_List]|]. intros n; never_leaves.
Qed.

Lemma starts_kind_ListSlice fuel dec : starts_kind (decodeListSlice fuel dec).
Proof. unfold decodeListSlice, stream_List. auto with rlpkind. Qed.

Lemma starts_kind_Bytes : starts_kind stream_Bytes.
Proof. unfold stream_Bytes. auto with rlpkind. Qed.

Lemma eol_inv_Interface fuel : eol_inv (decodeInterface fuel).
Proof.
  intros s s' I. destruct fuel as [|fuel]; [done|]. cbn [decodeInterface]. unfold sm_bind at 1.
  destruct (stream_Kind s) as [[[k n]|e| |] s1] eqn:K; try done.
  - intros H. exfalso. revert H. unfold sm_bind.
    destruct k; [destruct (stream_Bytes s1) as [[|e| |] s2] eqn:B; try done; intros [= -> ->];
                 by eapply (eol_peeked stream_Bytes s _ s1 s' eol_inv_Bytes starts_kind_Bytes)..|].
    destruct (decodeListSlice fuel (decodeInterface fuel) s1) as [[|e| |] s2] eqn:B; try done.
    intros [= -> ->]. by eapply (eol_peeked _ s _ s1 s' (eol_inv_ListSlice fuel _) (starts_kind_ListSlice fuel _)).
  - intros [= -> ->]. by apply eol_inv_Kind.
Qed.

(** Types for which the decoder is canonical: no [[1]byte], tails at the end of
    structs, unsigned integers of at most 64 bits. *)
Fixpoint canonical_type (t : rtype) : bool :=
  match t with
  | TUint bits => bits <=? 64
  | TByteArray n => negb (n =? 1)%nat
  | TSlice t | TTail t | TArray _ t | TPtr _ t => canonical_type t && negb (is_tail t)
  | TStruct ts => (fix go (ts : list rtype) : bool :=
                     match ts with [] => true | t :: ts => canonical_type t && go ts end) ts
  | _ => true
  end.

(** Types without a pointer under the [nil] tag. *)
Fixpoint nilfree (t : rtype) : bool :=
  match t with
  | TSlice t | TTail t | TArray _ t => nilfree t
  | TPtr b t => negb b && nilfree t
  | TStruct ts => (fix go (ts : list rtype) : bool :=
                     match ts with [] => true | t :: ts => nilfree t && go ts end) ts
  | _ => true
  end.

Lemma eol_inv_decode fuel t : (0 < fuel)%nat -> canonical_type t = true -> eol_inv (decode fuel t).
Proof.
  intros Hf. induction t as [| | | | | | |t IHt|t IHt|m t IHt|ts IHts|nilOK t IHt|] using rtype_ind; intros T; cbn [decode].
  1,2,3,4,5,7: (apply eol_inv_bind; [try (apply eol_inv_wrap; [by intros []|])|intros ?; never_leaves]).
  - apply eol_inv_uint.
  - apply eol_inv_bind; [apply eol_inv_uint|intros ?; never_leaves].
  - apply eol_inv_Bytes.
  - apply eol_inv_Bytes.
  - apply eol_inv_Bytes.
  - apply eol_inv_Raw.
  - apply eol_inv_ByteArray. cbn in T. by destruct (Nat.eqb_spec n 1).
  - apply eol_inv_ListSlice.
  - intros s s' I H. exfalso. revert H.
    pose proof (never_bind _ (fun vs => sm_ret (VList vs)) (never_SliceElems fuel (decode fuel t)) (fun _ => never_ret _) s) as NV.
    intros H. by rewrite H in NV.
  - apply eol_inv_bind; [apply eol_inv_wrap; [by intros []|apply eol_inv_List]|]. intros ?; never_leaves.
  - apply eol_inv_bind; [apply eol_inv_wrap; [by intros []|apply eol_inv_List]|]. intros ?.
    change (never (vs <- decodeFields fuel ts ;; _ <- sm_wrap wrapStreamError stream_ListEnd ;; sm_ret (VStruct vs))).
    never_leaves.
  - cbn in T. apply andb_true_iff in T as [T Tl]. apply negb_true_iff in Tl. specialize (IHt T).
    destruct nilOK; [|apply eol_inv_bind; [done|intros ?; never_leaves]].
    intros s s' I. unfold decodeOptionalPtr. destruct (stream_Kind s) as [[[k n]|e| |] s1] eqn:K; try done.
    + case_goal; [done|]. unfold sm_bind. destruct (decode fuel t s1) as [[|e| |] s2] eqn:D; try done.
      intros [= -> ->]. exfalso. by eapply (eol_peeked _ s _ s1 s' IHt (starts_kind_decode fuel t Hf Tl)).
    + intros [= -> <-]. destruct (eol_inv_Kind s s1 I K) as [C A']. split; [|done].
      rewrite (core_set_kind _ _ None C). destruct s, I as [KN _]. cbn in *. by subst.
  - apply eol_inv_Interface.
Qed.

(** ** Inversion of the decoders *)

Lemma takes_ret {A} (a : A) (P : A -> bytes -> Prop) : P a [] -> takes (sm_ret a) P.
Proof. intros H s b s' I [= <- <-]. exists []. split; [by apply took_refl|done]. Qed.

Lemma takes_seq {A B} (m : sm A) (f : A -> sm B) P Q R :
  takes m P -> (forall a, takes (f a) (Q a)) ->
  (forall a b e1 e2, P a e1 -> Q a b e2 -> R b (e1 ++ e2)) -> takes (sm_bind m f) R.
Proof.
  intros M F H s b s' I. unfold sm_bind. destruct (m s) as [[a| | |] s1] eqn:E; try done. intros E2.
  destruct (M s a s1 I E) as (e1 & T1 & P1).
  destruct (F a s1 b s' (took_inv _ _ _ I T1) E2) as (e2 & T2 & P2).
  exists (e1 ++ e2). split; [by eapply took_app|by eapply H].
Qed.

Definition elems (P : rval -> bytes -> Prop) (vs : list rval) (e : bytes) : Prop :=
  exists es, Forall2 P vs es /\ e = concat es.

Lemma elems_cons P v e1 vs e2 : P v e1 -> elems P vs e2 -> elems P (v :: vs) (e1 ++ e2).
Proof. intros H (es & F & ->). exists (e1 :: es). by split; [constructor|]. Qed.

Lemma takes_cons (dec : sm rval) (rest : sm (list rval)) P :
  takes dec P -> takes rest (elems P) ->
  takes (v <- dec ;; vs <- rest ;; sm_ret (v :: vs)) (elems P).
Proof.
  intros T R. apply (takes_seq _ _ P (fun v vs e => exists vs', vs = v :: vs' /\ elems P vs' e)); [done| |].
  - intros v. eapply takes_map; [exact R|]. eauto.
  - intros v vs e1 e2 H1 (vs' & -> & H2). by apply elems_cons.
Qed.

Lemma takes_SliceElems fuel dec P :
  takes dec P -> eol_inv dec -> takes (decodeSliceElems fuel dec) (elems P).
Proof.
  intros T E. induction fuel as [|fuel IH]; intros s vs s' I; [done|]. cbn [decodeSliceElems].
  destruct (dec s) as [[v|e| |] s1] eqn:D; try done.
  - intros H. apply (takes_cons dec _ P T IH s vs s' I). unfold sm_bind at 1. by rewrite D.
  - destruct (decide (e = EOL)) as [->|N].
    + intros [= <- <-]. destruct (E s s1 I D) as [C _]. exists []. split; [|by exists []].
      eapply took_core; [symmetry; exact C|by apply took_refl].
    + by destruct e.
Qed.

Lemma takes_ArrayElems n dec P :
  takes dec P -> takes (decodeArrayElems n dec) (fun vs e => elems P vs e /\ length vs = n).
Proof.
  intros T. induction n as [|n IH]; [apply takes_ret; split; [by exists []|done]|].
  intros s vs s' I. cbn [decodeArrayElems]. destruct (dec s) as [[v|e| |] s1] eqn:D; [|by destruct e|done..].
  destruct (T s v s1 I D) as (e1 & T1 & P1). unfold sm_bind.
  destruct (decodeArrayElems n dec s1) as [[ws| | |] s2] eqn:R; try done. intros [= <- <-].
  destruct (IH s1 ws s2 (took_inv _ _ _ I T1) R) as (e2 & T2 & P2 & L).
  exists (e1 ++ e2). split; [by eapply took_app|]. split; [by apply elems_cons|]. cbn. by rewrite L.
Qed.

(** What a decoder takes: at least one byte, and the encoding of what it returns. *)
Definition dec_post (t : rtype) (v : rval) (e : bytes) : Prop :=
  (is_tail t = false -> e <> []) /\ (nilfree t = true -> e = enc_value t v).

Lemma enc_list_nonempty c : enc_list c <> [].
Proof. intros E. pose proof (is_item_nonempty _ (is_item_list c)) as H. rewrite E in H. done. Qed.

Lemma enc_string_nonempty c : enc_string c <> [].
Proof. intros E. pose proof (is_item_nonempty _ (is_item_string c)) as H. rewrite E in H. done. Qed.

#[local] Hint Resolve enc_list_nonempty enc_string_nonempty : core.

Lemma elems_post t vs e :
  elems (dec_post t) vs e -> nilfree t = true -> e = concat (map (enc_value t) vs).
Proof.
  intros (es & F & ->) N. f_equal. induction F as [|v e vs es (_ & H) F IH]; [done|]. cbn. by rewrite H, IH.
Qed.

Lemma takes_ListSlice fuel t dec :
  takes dec (dec_post t) -> eol_inv dec -> takes (decodeListSlice fuel dec) (dec_post (TSlice t)).
Proof.
  intros T E s v s' I H.
  assert (H' : (n <- sm_wrap wrapStreamError stream_List ;;
                vs <- (if n =? 0 then sm_ret [] else decodeSliceElems fuel dec) ;;
                _ <- stream_ListEnd ;; sm_ret (VList vs)) s = (Ok v, s')).
  { revert H. unfold decodeListSlice, sm_bind. destruct (sm_wrap _ _ s) as [[n| | |] s1]; try done.
    by destruct (n =? 0). }
  apply (takes_list _ _ _ _ (elems (dec_post t))) in H' as (e & Te & vs & c & -> & -> & P); try done.
  - exists (enc_list c). split; [done|]. split; [done|].
    intros N. by rewrite (elems_post t vs c P N).
  - intros n. destruct (n =? 0); [apply takes_ret; by exists []|by apply takes_SliceElems].
Qed.

Lemma takes_peeked {A} (m : sm A) P s r s1 a s' :
  takes m P -> starts_kind m -> inv s -> stream_Kind s = (Ok r, s1) -> m s1 = (Ok a, s') ->
  exists e, took s e s' /\ P a e.
Proof. intros T S I K M. rewrite (S _ _ _ K) in M. by apply T in M. Qed.

Lemma takes_Interface fuel : takes (decodeInterface fuel) (dec_post TIface).
Proof.
  induction fuel as [|fuel IH]; [done|]. intros s v s' I. cbn [decodeInterface]. unfold sm_bind at 1.
  destruct (stream_Kind s) as [[[k n]|e| |] s1] eqn:K; try done.
  assert (B : (b <- stream_Bytes ;; sm_ret (VIface (Some (TBytes, VBytes b)))) s1 = (Ok v, s') ->
     exists e, took s e s' /\ dec_post TIface v e).
  { unfold sm_bind. destruct (stream_Bytes s1) as [[b| | |] s2] eqn:E; try done. intros [= <- <-].
    destruct (takes_peeked _ _ _ _ _ _ _ takes_Bytes starts_kind_Bytes I K E) as (e & T & ->).
    exists (enc_string b). split; [done|]. by split. }
  destruct k; [done|done|]. unfold sm_bind.
  destruct (decodeListSlice fuel (decodeInterface fuel) s1) as [[w| | |] s2] eqn:E; try done. intros [= <- <-].
  pose proof (takes_ListSlice fuel TIface _ IH (eol_inv_Interface fuel)) as TL.
  destruct (takes_peeked _ _ _ _ _ _ _ TL (starts_kind_ListSlice _ _) I K E) as (e & T & NE & EV).
  exists e. split; [done|]. split; [auto|]. intros _. by rewrite EV.
Qed.

Lemma takes_Fields fuel ts :
  Forall (fun t => canonical_type t = true -> takes (decode fuel t) (dec_post t)) ts ->
  canonical_type (TStruct ts) = true ->
  takes (decodeFields fuel ts) (fun vs e => nilfree (TStruct ts) = true -> e = enc_fields ts vs).
Proof.
  induction 1 as [|t ts Ht Hts IH]; intros C; [by apply takes_ret|].
  cbn in C. apply andb_true_iff in C as [Ct C]. specialize (Ht Ct). specialize (IH C).
  change (decodeFields fuel (t :: ts)) with
    (v <- sm_wrap fieldError (decode fuel t) ;; vs <- decodeFields fuel ts ;; sm_ret (v :: vs)).
  eapply takes_seq; [apply takes_wrap, Ht| |].
  - intros v. apply (takes_map _ (cons v) _ (fun vs e => exists vs', vs = v :: vs' /\
      (nilfree (TStruct ts) = true -> e = enc_fields ts vs')) IH). eauto.
  - intros v vs e1 e2 [_ H1] (vs' & -> & H2) N. cbn in N. apply andb_true_iff in N as [Nt N]. cbn [enc_fields]. by rewrite H1, H2.
Qed.

Lemma takes_OptionalPtr fuel t :
  (0 < fuel)%nat -> is_tail t = false ->
  takes (decode fuel t) (dec_post t) -> takes (decodeOptionalPtr (decode fuel t)) (dec_post (TPtr true t)).
Proof.
  intros Hf Tl T s v s' I. unfold decodeOptionalPtr.
  destruct (stream_Kind s) as [[[k n]|e| |] s1] eqn:K; try done.
  destruct ((n =? 0) && _).
  - intros [= <- <-]. apply stream_Kind_inv in K; [|done].
    destruct K as [(_ & _ & Tk & _)|(_ & _ & Tk & _)]; (eexists; split; [exact Tk|]); (split; [intros _|done]); [done|].
    destruct k; unfold item_head, enc_head; by case_goal.
  - unfold sm_bind. destruct (decode fuel t s1) as [[w| | |] s2] eqn:D; try done. intros [= <- <-].
    destruct (takes_peeked _ _ _ _ _ _ _ T (starts_kind_decode fuel t Hf Tl) I K D) as (e & Te & NE & _).
    exists e. split; [done|]. split; [auto|done].
Qed.

Lemma takes_decode fuel t :
  (0 < fuel)%nat -> canonical_type t = true -> takes (decode fuel t) (dec_post t).
Proof.
  intros Hf. induction t as [| | | | | | |t IHt|t IHt|m t IHt|ts IHts|nilOK t IHt|] using rtype_ind;
    intros C; cbn [decode]; cbn in C;
    try (apply andb_true_iff in C as [C Tl]; apply negb_true_iff in Tl; specialize (IHt C)).
  - eapply takes_map; [by apply takes_wrap, takes_uint; zbool|]. intros i e (-> & _). by split.
  - eapply takes_map; [apply takes_wrap, takes_Bool|]. intros b e ->. by split.
  - eapply takes_map; [apply takes_wrap, takes_Bytes|]. intros b e ->. by split.
  - eapply takes_impl; [apply takes_BigInt|]. intros v e (i & -> & -> & H). by split.
  - eapply takes_map; [apply takes_wrap, takes_Bytes|]. intros b e ->. by split.
  - eapply takes_impl; [apply takes_ByteArray; by destruct (Nat.eqb_spec n 1)|].
    intros v e (b & -> & -> & _). by split.
  - eapply takes_map; [apply takes_Raw|]. intros b e [-> NE]. by split.
  - by apply takes_ListSlice; [|apply eol_inv_decode].
  - eapply takes_map; [by apply takes_SliceElems; [|apply eol_inv_decode]|].
    intros vs e P. split; [done|]. intros N. by rewrite (elems_post t vs e P N).
  - eapply takes_impl; [apply takes_list; [intros _; by apply takes_ArrayElems|apply unwrap_close]|].
    intros v e (vs & c & -> & -> & P & _). split; [done|]. intros N. by rewrite (elems_post t vs c P N).
  - eapply takes_impl; [apply takes_list; [intros _; by apply (takes_Fields fuel ts)|apply unwrap_close]|].
    intros v e (vs & c & -> & -> & P). split; [done|]. intros N. by rewrite (P N).
  - destruct nilOK; [by apply takes_OptionalPtr|].
    eapply takes_map; [exact IHt|]. intros v e [NE EV]. by split.
  - apply takes_Interface.
Qed.

Lemma inv_NewStream b : bytes_ok b -> inv (NewStream b).
Proof. intros O. split; [done|]. split; [done|]. split; [done|]. intros _. apply len_nonneg. Qed.

Lemma DecodeBytes_takes t b v :
  bytes_ok b -> canonical_type t = true -> DecodeBytes t b = Ok v -> dec_post t v b.
Proof.
  intros O C. unfold DecodeBytes, DecodeBytes_fuel.
  destruct (decode (S (length b)) t (NewStream b)) as [[w| | |] s] eqn:D; try done.
  destruct (Z.ltb_spec 0 (len (s_in s))) as [|E]; [done|]. intros [= ->].
  destruct (takes_decode (S (length b)) t ltac:(lia) C _ _ _ (inv_NewStream b O) D) as (e & T & H).
  apply took_in in T. cbn in T. rewrite (len_zero_inv (s_in s)), app_nil_r in T by (pose proof (len_nonneg (s_in s)); lia).
  by rewrite T.
Qed.

(** ** Theorems *)

(** C30. The decoder accepts canonical encodings only: for every type without [[1]byte]
    and without [nil]-tagged pointers, a byte string that [DecodeBytes] accepts is the
    reference encoding of the value it returns.  So no value has two encodings, and
    hashing the input or hashing the re-encoded value is the same. *)
Theorem DecodeBytes_canonical t b v :
  bytes_ok b -> canonical_type t = true -> nilfree t = true ->
  DecodeBytes t b = Ok v -> b = enc_value t v.
Proof.
  intros O C N D. by apply (DecodeBytes_takes t b v O C D).
Qed.

Definition wide_type : rtype := TStruct [TUint 64; TPtr false TBig; TByteArray 20; TSlice (TStruct [TBytes; TBool]); TTail TIface].
Definition wide_input : bytes :=
  [0xE1; 0x82; 0x04; 0x00; 0x05; 0x94; 1; 2; 3; 4; 5; 6; 7; 8; 9; 10; 11; 12; 13; 14; 15; 16; 17; 18; 19; 20;
   0xC4; 0xC3; 0x81; 0x80; 0x01; 0xC2; 0xC0; 0x07].

Lemma DecodeBytes_canonical_witness :
  exists v, DecodeBytes wide_type wide_input = Ok v /\ wide_input = enc_value wide_type v.
Proof.
  eexists. split; [vm_compute; reflexivity|].
  apply DecodeBytes_canonical; [|reflexivity|reflexivity|vm_compute; reflexivity].
  repeat constructor; unfold byte_ok; lia.
Defined.

(** The decoder of [[1]byte] drops the error of [Uint] on a zero byte and leaves the
    byte unread.  So a struct of two such arrays does not survive the round trip, and is
    accepted from the encoding of one zero byte. *)
Theorem byte1_array_zero_not_consumed :
  let t := TStruct [TByteArray 1; TByteArray 1] in
  let v := VStruct [VBytes [0]; VBytes [0]] in
  enc_value t v = [0xC2; 0; 0] /\
  DecodeBytes t [0xC2; 0; 0] = Err (decodeError MsgTooManyElements) /\
  DecodeBytes t [0xC1; 0] = Ok v.
Proof. by repeat split; vm_compute. Qed.

(** A [nil]-tagged pointer is decoded to nil from the empty string and from the empty
    list alike, whatever its element type, while the encoder writes one of them: these
    values have two accepted encodings. *)
Theorem optional_ptr_two_encodings t :
  DecodeBytes (TPtr true t) [0x80] = Ok (VPtr None) /\ DecodeBytes (TPtr true t) [0xC0] = Ok (VPtr None).
Proof. by split. Qed.
