(* ===== verification/Common.v ===== *)
(** * Package [common]: hashes, addresses and padding

    [src/pkg/common/types.go] and [bytes.go]: fixed-size byte arrays and the
    conversions that crop and pad on the left. *)

From S2P Require Import Prelude.

(** ** Operations *)

(** The conversion [[]byte(s)] of a string literal. *)
Definition text (s : string) : bytes :=
  map (fun a => Z.of_N (Ascii.N_of_ascii a)) (String.list_ascii_of_string s).

Definition HashLength : Z := 32.
Definition AddressLength : Z := 20.

Definition zeros (n : Z) : bytes := repeat 0 (Z.to_nat n).

(** [Hash] and [Address] arrays, as byte lists of their length. *)
Definition is_hash (h : bytes) : Prop := len h = HashLength /\ bytes_ok h.
Definition is_address (a : bytes) : Prop := len a = AddressLength /\ bytes_ok a.

(** [copy(h[n-len(b):], b)] keeps the leading bytes of the receiver. *)
Definition setBytes (n : Z) (h b : bytes) : bytes :=
  let b := if n <? len b then zdrop (len b - n) b else b in
  ztake (n - len b) h ++ b.

Definition Hash_SetBytes (h b : bytes) : bytes := setBytes HashLength h b.
Definition Address_SetBytes (a b : bytes) : bytes := setBytes AddressLength a b.

Definition BytesToHash (b : bytes) : bytes := Hash_SetBytes (zeros HashLength) b.
Definition BytesToAddress (b : bytes) : bytes := Address_SetBytes (zeros AddressLength) b.
Definition BigToHash (i : Z) : bytes := BytesToHash (be_min (Z.abs i)).
Definition Hash_Big (h : bytes) : Z := be_decode h.
Definition EmptyHash (h : bytes) : bool := bool_decide (h = zeros HashLength).

Definition LeftPadBytes (slice : bytes) (l : Z) : bytes :=
  if l <=? len slice then slice else zeros (l - len slice) ++ slice.
Definition RightPadBytes (slice : bytes) (l : Z) : bytes :=
  if l <=? len slice then slice else slice ++ zeros (l - len slice).

(** ** Lemmas *)

Lemma bytes_ok_text s : bytes_ok (text s).
Proof.
  unfold text. induction (String.list_ascii_of_string s) as [|a l IH]; constructor; [|done].
  pose proof (Ascii.N_ascii_bounded a). unfold byte_ok. lia.
Qed.

Lemma len_zeros n : 0 <= n -> len (zeros n) = n.
Proof. intros H. unfold len, zeros. rewrite repeat_length. lia. Qed.

Lemma bytes_ok_zeros n : bytes_ok (zeros n).
Proof. unfold zeros. induction (Z.to_nat n); cbn; constructor; [|done]. unfold byte_ok; lia. Qed.

Lemma be_decode_zeros n b : be_decode (zeros n ++ b) = be_decode b.
Proof. unfold zeros. induction (Z.to_nat n) as [|m IH]; cbn [repeat app]; [done|]. by rewrite be_decode_cons, IH. Qed.

Lemma len_setBytes n h b : 0 <= n -> len h = n -> len (setBytes n h b) = n.
Proof.
  intros Hn Hh. unfold setBytes. pose proof (len_nonneg b).
  destruct (Z.ltb_spec n (len b)); rewrite len_app.
  - rewrite len_zdrop by lia. rewrite len_ztake by lia. lia.
  - rewrite len_ztake by lia. lia.
Qed.

Lemma bytes_ok_setBytes n h b : bytes_ok h -> bytes_ok b -> bytes_ok (setBytes n h b).
Proof. intros. unfold setBytes. apply bytes_ok_app. split; [auto with aq|]. case_goal; auto with aq. Qed.

Lemma is_hash_BytesToHash b : bytes_ok b -> is_hash (BytesToHash b).
Proof.
  intros H. split; [by apply len_setBytes; [|apply len_zeros]|].
  apply bytes_ok_setBytes; [apply bytes_ok_zeros|done].
Qed.

Lemma is_address_BytesToAddress b : bytes_ok b -> is_address (BytesToAddress b).
Proof.
  intros H. split; [by apply len_setBytes; [|apply len_zeros]|].
  apply bytes_ok_setBytes; [apply bytes_ok_zeros|done].
Qed.

Lemma setBytes_exact n h b : len b = n -> len h = n -> setBytes n h b = b.
Proof. intros Hb Hh. unfold setBytes. zdecide. by replace (n - len b) with 0 by lia. Qed.

Lemma BytesToHash_id h : len h = HashLength -> BytesToHash h = h.
Proof. intros H. by apply setBytes_exact; [|apply len_zeros]. Qed.

Lemma BytesToAddress_id h : len h = AddressLength -> BytesToAddress h = h.
Proof. intros H. by apply setBytes_exact; [|apply len_zeros]. Qed.

Lemma ztake_zeros n m : 0 <= n <= m -> ztake n (zeros m) = zeros n.
Proof.
  intros H. unfold ztake, zeros. rewrite <- (Z2Nat.id n) in H by lia.
  replace (Z.to_nat m) with (Z.to_nat n + (Z.to_nat m - Z.to_nat n))%nat by lia.
  rewrite repeat_app. rewrite <- (repeat_length 0 (Z.to_nat n)) at 1. apply take_app_length.
Qed.

Lemma BytesToHash_pad b : len b <= HashLength -> BytesToHash b = LeftPadBytes b HashLength.
Proof.
  intros H. unfold BytesToHash, Hash_SetBytes, setBytes, LeftPadBytes. pose proof (len_nonneg b).
  unfold HashLength in *. zdecide. rewrite ztake_zeros by lia.
  destruct (Z.leb_spec 32 (len b)); [|done]. by replace (32 - len b) with 0 by lia.
Qed.

(** A 256-bit integer survives the conversion to a hash and back. *)
Theorem BigToHash_Big i : 0 <= i < 2 ^ 256 -> Hash_Big (BigToHash i) = i /\ is_hash (BigToHash i).
Proof.
  intros H. unfold BigToHash. rewrite Z.abs_eq by lia. split; [|by apply is_hash_BytesToHash, be_min_ok].
  assert (L : len (be_min i) <= HashLength) by (apply len_be_min_le; [done|exact (proj2 H)]).
  rewrite BytesToHash_pad by done. unfold LeftPadBytes, Hash_Big.
  destruct (HashLength <=? len (be_min i)); rewrite ?be_decode_zeros; apply be_decode_min; lia.
Qed.

Lemma BigToHash_Big_witness : Hash_Big (BigToHash 258) = 258 /\ is_hash (BigToHash 258).
Proof. apply BigToHash_Big. split; [discriminate|reflexivity]. Defined.
