(* ===== verification/Codec.v ===== *)
(** * Sizes and round trips of encoded values

    Lemmas on the reference encoding that the packages with RLP values share: bounds on
    the length of encodings, and the types of addresses, hashes and slices. *)

From S2P Require Import Prelude Rlp RlpStream Common.

(** ** Lengths *)

Lemma len_enc_head_le s l n : 0 <= n < 2 ^ 64 -> 1 <= len (enc_head s l n) <= 9.
Proof.
  intros H. unfold enc_head. case_goal; rewrite len_cons; [rewrite len_nil; lia|].
  pose proof (len_be_min_u64 n H). pose proof (len_nonneg (be_min n)). lia.
Qed.

Lemma len_enc_string_le v : len v < 2 ^ 64 -> 1 <= len (enc_string v) <= len v + 9.
Proof.
  intros H. pose proof (len_nonneg v). destruct (enc_string_cases v) as [(x & -> & _ & ->)|[_ ->]].
  - rewrite !len_cons, len_nil. lia.
  - rewrite len_app. pose proof (len_enc_head_le 0x80 0xB7 (len v) ltac:(lia)). lia.
Qed.

Lemma len_enc_list_le c : len c < 2 ^ 64 -> len c + 1 <= len (enc_list c) <= len c + 9.
Proof.
  intros H. pose proof (len_nonneg c). unfold enc_list. rewrite len_app.
  pose proof (len_enc_head_le 0xC0 0xF7 (len c) ltac:(lia)). lia.
Qed.

Lemma bytes_ok_enc_head s l n :
  0 <= n < 2 ^ 64 -> (s = 0x80 /\ l = 0xB7) \/ (s = 0xC0 /\ l = 0xF7) -> bytes_ok (enc_head s l n).
Proof.
  intros Hn H. unfold enc_head. destruct (Z.ltb_spec n 56).
  - apply bytes_ok_cons. split; [unfold byte_ok; lia|constructor].
  - pose proof (len_be_min_u64 n Hn). pose proof (len_nonneg (be_min n)).
    apply bytes_ok_cons. split; [unfold byte_ok; lia|apply be_min_ok].
Qed.

Lemma enc_string_ok v : bytes_ok v -> len v < 2 ^ 64 -> bytes_ok (enc_string v).
Proof.
  intros O L. pose proof (len_nonneg v). destruct (enc_string_cases v) as [(x & -> & _ & ->)|[_ ->]]; [done|].
  apply bytes_ok_app. split; [apply bytes_ok_enc_head; [lia|by left]|done].
Qed.

Lemma enc_list_ok c : bytes_ok c -> len c < 2 ^ 64 -> bytes_ok (enc_list c).
Proof.
  intros O L. pose proof (len_nonneg c). apply bytes_ok_app. split; [apply bytes_ok_enc_head; [lia|by right]|done].
Qed.

Lemma len_concat_le {A} (f : A -> bytes) B l :
  0 <= B -> (forall x, x ∈ l -> len (f x) <= B) -> len (concat (map f l)) <= B * len l.
Proof.
  intros HB. induction l as [|x l IH]; intros H; [change (0 <= B * 0); lia|].
  cbn [map concat]. rewrite len_app, len_cons. specialize (IH ltac:(intros; apply H; by right)).
  specialize (H x ltac:(by left)). lia.
Qed.

Lemma rt_address a : is_address a -> rt (TByteArray 20) (VBytes a).
Proof.
  intros [L O]. unfold len, AddressLength in L. split; [done|]. split; [lia|]. intros ->. cbn in L. lia.
Qed.

Lemma rt_hash h : is_hash h -> rt (TByteArray 32) (VBytes h).
Proof.
  intros [L O]. unfold len, HashLength in L. split; [done|]. split; [lia|]. intros ->. cbn in L. lia.
Qed.

Lemma rt_slice ty vs : is_tail ty = false -> Forall (rt ty) vs -> rt (TSlice ty) (VList vs).
Proof. intros T F. split; [done|]. by apply rt_elems. Qed.

Lemma len_concat_bound (B : Z) (l : list bytes) :
  Forall (fun b => len b <= B) l -> len (concat l) <= B * Z.of_nat (length l).
Proof.
  induction 1 as [|b l H _ IH]; cbn [concat length]; [rewrite len_nil; lia|].
  rewrite len_app, Nat2Z.inj_succ. lia.
Qed.

(** A slice of fewer than [2 ^ 32] elements with short encodings. *)
Lemma len_enc_slice ty vs B :
  0 <= B <= 2 ^ 16 -> Forall (fun v => len (enc_value ty v) <= B) vs -> Z.of_nat (length vs) < 2 ^ 32 ->
  len (enc_value (TSlice ty) (VList vs)) < 2 ^ 64.
Proof.
  intros HB F L. cbn [enc_value].
  pose proof (len_concat_bound B (map (enc_value ty) vs)) as H. rewrite length_map in H. rewrite Forall_map in H.
  specialize (H F).
  pose proof (len_enc_list_le (concat (map (enc_value ty) vs))). nia.
Qed.

Lemma len_be_min_big i : 0 <= i < 2 ^ 256 -> len (be_min i) <= 32.
Proof. intros H. apply (len_be_min_le i 32); lia. Qed.

Lemma len_enc_bytes b n : len b <= n -> n <= 64 -> len (enc_string b) <= n + 9.
Proof. intros L N. pose proof (len_enc_string_le b ltac:(lia)). lia. Qed.

(** The bytes and the length of a slice with elements of at most [B] bytes. *)
Lemma enc_slice_ok ty vs B :
  0 <= B <= 2 ^ 16 -> Forall (fun v => bytes_ok (enc_value ty v) /\ len (enc_value ty v) <= B) vs -> Z.of_nat (length vs) < 2 ^ 32 ->
  bytes_ok (enc_value (TSlice ty) (VList vs)) /\ len (enc_value (TSlice ty) (VList vs)) <= B * Z.of_nat (length vs) + 9.
Proof.
  intros HB F L. cbn [enc_value]. pose proof (len_concat_bound B (map (enc_value ty) vs)) as H. rewrite length_map, Forall_map in H.
  specialize (H ltac:(eapply Forall_impl; [|exact F]; by intros v [_ Hv])). pose proof (len_enc_list_le (concat (map (enc_value ty) vs))).
  assert (len (concat (map (enc_value ty) vs)) < 2 ^ 64) by nia. split; [|lia]. apply enc_list_ok; [|done].
  clear - F. induction F as [|v vs [Hv _] _ IH]; [constructor|]. cbn [map concat]. by apply bytes_ok_app.
Qed.
