(* ===== verification/RlpTotal.v ===== *)
(** * Package [rlp]: the decoder on all types

    What holds of the decoder of [RlpStream] for every type, those with [[1]byte] included,
    and for every input: what it returns is a value of the type, and its loops end unless a
    slice has elements of type [[1]byte]. *)

From S2P Require Import Prelude Rlp RlpStream RlpCanonical Common Codec.

(** ** Types of the values *)




























(** ** Termination *)

(** What is ahead: the bytes, and the value whose kind has been read. *)
Definition weight (s : stream) : nat := length (s_in s) + match s_kind s with Some _ => 1 | None => 0 end.

(** The cached error is not the end of a list. *)
Definition tame (s : stream) : Prop := s_kinderr s <> Some EOL.

(** Types whose decoder takes something from the input when it succeeds: not [[1]byte],
    also behind pointers, and not tails. *)
Fixpoint consumes (t : rtype) : bool :=
  match t with TByteArray n => negb (n =? 1)%nat | TPtr _ t => consumes t | TTail _ => false | _ => true end.

(** Types whose slices and tails have such elements. *)
Fixpoint loops_end (t : rtype) : bool :=
  match t with
  | TSlice t | TTail t => consumes t && loops_end t
  | TArray _ t | TPtr _ t => loops_end t
  | TStruct ts => (fix go (ts : list rtype) : bool :=
                     match ts with [] => true | t :: ts => loops_end t && go ts end) ts
  | _ => true
  end.

(** The weight that [m] takes away when it succeeds, for streams that satisfy [Q]. *)
Definition spends {A} (Q : stream -> Prop) (k : nat) (m : sm A) : Prop :=
  forall s, tame s -> Q s -> tame (snd (m s)) /\
    match fst (m s) with
    | Ok _ => (weight (snd (m s)) + k <= weight s)%nat
    | Err EOL => (weight (snd (m s)) <= weight s)%nat
    | _ => True
    end.

Definition anywhere (s : stream) : Prop := True.
Definition peeked (s : stream) : Prop := s_kind s <> None.

Definition stops {A} (m : sm A) : Prop := forall s, fst (m s) <> OutOfFuel.

Lemma stops_bind {A B} (m : sm A) (f : A -> sm B) :
  stops m -> (forall a, stops (f a)) -> stops (sm_bind m f).
Proof.
  intros M F s. specialize (M s). unfold sm_bind. destruct (m s) as [[a|e| |] s1]; cbn in *; try done. apply F.
Qed.

Lemma stops_wrap {A} (m : sm A) g : stops m -> stops (sm_wrap g m).
Proof. intros M s. specialize (M s). unfold sm_wrap. by destruct (m s) as [[a|e| |] s1]. Qed.

Lemma stops_willRead n : stops (willRead n).
Proof. intros s. unfold willRead. repeat (case_goal; try done). Qed.

Lemma stops_readByte : stops readByte.
Proof. apply stops_bind; [apply stops_willRead|]. intros [] s. by case_goal. Qed.

Lemma stops_readFull n : stops (readFull n).
Proof. apply stops_bind; [apply stops_willRead|]. intros [] s. by case_goal. Qed.

Lemma stops_readUint n : stops (readUint n).
Proof.
  unfold readUint. repeat case_goal; try done; [apply stops_readByte|].
  apply stops_bind; [apply stops_readFull|]. intros b. by case_goal.
Qed.

Lemma stops_Kind : stops stream_Kind.
Proof. intros s. unfold stream_Kind. cbv zeta. repeat (case_goal; try done). Qed.

Lemma stops_ListEnd : stops stream_ListEnd.
Proof. intros s. unfold stream_ListEnd. repeat (case_goal; try done). Qed.

Ltac stop_leaves :=
  repeat (first [ done | apply stops_readFull | apply stops_readUint | apply stops_ListEnd
    | apply stops_wrap | apply stops_bind; [|intros ?] | progress case_goal ]).

Lemma stops_Bytes : stops stream_Bytes.
Proof. apply stops_bind; [apply stops_Kind|]. intros [[] n]; stop_leaves. Qed.

Lemma stops_Raw : stops stream_Raw.
Proof. apply stops_bind; [apply stops_Kind|]. intros [[] n]; stop_leaves. Qed.

Lemma stops_uint bits : stops (stream_uint bits).
Proof.
  apply stops_bind; [apply stops_Kind|]. intros [[] n]; stop_leaves. intros s. by case_goal.
Qed.

Lemma stops_List : stops stream_List.
Proof. apply stops_bind; [apply stops_Kind|]. intros [[] n]; stop_leaves. Qed.

Lemma stops_ByteArray n : stops (decodeByteArray n).
Proof.
  apply stops_bind; [apply stops_Kind|]. intros [[] m]; stop_leaves.
  intros s. pose proof (stops_uint 64 s). by destruct (stream_uint 64 s) as [[]].
Qed.

(** With more fuel than there is ahead, [m] does not run out of it. *)
Definition stops_within {A} (fuel : nat) (m : sm A) : Prop :=
  forall s, tame s -> (weight s < fuel)%nat -> fst (m s) <> OutOfFuel.

(** *** What the operations take *)

Lemma spends_le {A} Q k k' (m : sm A) : (k' <= k)%nat -> spends Q k m -> spends Q k' m.
Proof.
  intros L M s T Hs. destruct (M s T Hs) as [T' W]. split; [done|]. destruct (m s) as [[a|e| |] s']; cbn in *; [lia|done..].
Qed.

Lemma spends_any {A} (Q : stream -> Prop) k (m : sm A) : spends anywhere k m -> spends Q k m.
Proof. intros M s T _. by apply M. Qed.

Lemma spends_ret {A} Q (a : A) : spends Q 0 (sm_ret a).
Proof. intros s T _. split; [done|]. cbn. lia. Qed.

Lemma spends_err {A} Q k e : e <> EOL -> spends Q k (@sm_err A e).
Proof. intros N s T _. split; [done|]. cbn. by destruct e. Qed.

Lemma spends_bind {A B} Q k1 k2 (m : sm A) (f : A -> sm B) :
  spends Q k1 m -> (forall a, spends anywhere k2 (f a)) -> spends Q (k1 + k2) (sm_bind m f).
Proof.
  intros M F s T Hs. destruct (M s T Hs) as [T1 W1]. unfold sm_bind. destruct (m s) as [[a|e| |] s1]; cbn in *; try done.
  destruct (F a s1 T1 I) as [T2 W2]. split; [done|]. destruct (f a s1) as [[b|e| |] s2]; cbn in *; try done; [lia|].
  destruct e; try done. lia.
Qed.

Lemma spends_map {A B} Q k (m : sm A) (f : A -> B) : spends Q k m -> spends Q k (a <- m ;; sm_ret (f a)).
Proof. intros M. replace k with (k + 0)%nat by lia. eapply spends_bind; [exact M|]. intros a. apply spends_ret. Qed.

Lemma spends_wrap {A} Q k (m : sm A) g : (forall e, g e = EOL -> e = EOL) -> spends Q k m -> spends Q k (sm_wrap g m).
Proof.
  intros G M s T Hs. destruct (M s T Hs) as [T1 W1]. unfold sm_wrap. destruct (m s) as [[a|e| |] s1]; cbn in *; try done.
  split; [done|]. destruct (g e) eqn:Eg; try done. by rewrite (G e Eg) in W1.
Qed.

(** Operations that never report the end of a list and take what was peeked at. *)
Lemma spends_never {A} Q k (m : sm A) :
  never m -> (forall s, tame s -> Q s -> tame (snd (m s))) ->
  (forall s a s', tame s -> Q s -> m s = (Ok a, s') -> (weight s' + k <= weight s)%nat) -> spends Q k m.
Proof.
  intros N T W s Ts Hs. split; [by apply T|]. specialize (N s). specialize (W s). destruct (m s) as [[a|e| |] s']; cbn in *; try done.
  - by apply (W a s').
  - by destruct e.
Qed.

Lemma willRead_frame n s r s' : willRead n s = (r, s') -> s_in s' = s_in s /\ s_kind s' = None /\ s_kinderr s' = s_kinderr s.
Proof. unfold willRead. cbv zeta. intros H. repeat case_hyp H; injection H as <- <-; done. Qed.

Lemma readByte_frame s r s' :
  readByte s = (r, s') -> s_kind s' = None /\ s_kinderr s' = s_kinderr s /\ (length (s_in s') <= length (s_in s))%nat /\
    forall b, r = Ok b -> (S (length (s_in s')) = length (s_in s))%nat.
Proof.
  unfold readByte, sm_bind. destruct (willRead 1 s) as [r1 s1] eqn:E. destruct (willRead_frame _ _ _ _ E) as (Ei & Ek & Ee).
  destruct r1 as [[]|e| |]; [destruct (s_in s1) as [|b i] eqn:Es|..]; intros [= <- <-]; unstream; rewrite <- ?Ei, ?Es, ?Ek, ?Ee; cbn; repeat split; try lia; done.
Qed.

Lemma readFull_frame n s r s' :
  readFull n s = (r, s') -> s_kind s' = None /\ s_kinderr s' = s_kinderr s /\ (length (s_in s') <= length (s_in s))%nat.
Proof.
  unfold readFull, sm_bind. destruct (willRead n s) as [r1 s1] eqn:E. destruct (willRead_frame _ _ _ _ E) as (Ei & Ek & Ee).
  destruct r1 as [[]|e| |]; [destruct (len (s_in s1) <? n)|..]; intros [= <- <-]; unstream; rewrite <- ?Ei, ?Ek, ?Ee; cbn; repeat split; try lia.
  unfold zdrop. rewrite length_drop. lia.
Qed.

Lemma readUint_frame n s r s' :
  readUint n s = (r, s') -> s_kinderr s' = s_kinderr s /\ (length (s_in s') <= length (s_in s))%nat /\ (s_kind s' = None \/ r = Panic).
Proof.
  unfold readUint. destruct (n =? 0); [by intros [= <- <-]; split; [|split; [|left]]|].
  destruct (n =? 1); [intros (? & ? & ? & _)%readByte_frame; auto|]. destruct (8 <? n); [intros [= <- <-]; auto|].
  unfold sm_bind. destruct (readFull n s) as [r1 s1] eqn:E. destruct (readFull_frame _ _ _ _ E) as (Ek & Ee & L).
  destruct r1 as [b|e| |]; [destruct (at_ b 0 =? 0)|..]; intros [= <- <-]; auto.
Qed.

Lemma weight_none s : s_kind s = None -> weight s = length (s_in s).
Proof. unfold weight. intros ->. lia. Qed.

Lemma weight_some s : peeked s -> weight s = S (length (s_in s)).
Proof. unfold weight, peeked. destruct (s_kind s); [lia|done]. Qed.

Lemma spends_readFull n : spends peeked 1 (readFull n).
Proof.
  apply spends_never; [apply never_readFull|..].
  - intros s T _. destruct (readFull n s) as [r s'] eqn:E. destruct (readFull_frame _ _ _ _ E) as (_ & Ee & _). unfold tame. cbn. by rewrite Ee.
  - intros s a s' T P E. destruct (readFull_frame _ _ _ _ E) as (Ek & _ & L). rewrite (weight_none _ Ek), (weight_some _ P). lia.
Qed.

Lemma spends_readUint n : spends peeked 1 (readUint n).
Proof.
  apply spends_never; [apply never_readUint|..].
  - intros s T _. destruct (readUint n s) as [r s'] eqn:E. destruct (readUint_frame _ _ _ _ E) as (Ee & _). unfold tame. cbn. by rewrite Ee.
  - intros s a s' T P E. destruct (readUint_frame _ _ _ _ E) as (_ & L & [Ek|]); [|done]. rewrite (weight_none _ Ek), (weight_some _ P). lia.
Qed.

(** [readKind] takes a byte, or fails with another error than the end of a list. *)
Lemma readKind_frame s k n e s' :
  stream_readKind s = ((k, n, e), s') -> e <> Some EOL /\ (e = None -> (S (length (s_in s')) <= length (s_in s))%nat).
Proof.
  unfold stream_readKind. destruct (readByte s) as [r s1] eqn:E. destruct (readByte_frame _ _ _ E) as (_ & _ & _ & L).
  pose proof (never_readByte s) as N. rewrite E in N. cbn in N.
  destruct r as [b|er| |]; [|intros [= <- <- <- <-]; split; [|done]; destruct (s_stack s1), er; congruence|by intros [= <- <- <- <-]..].
  specialize (L b eq_refl). set (s2 := set_byteval 0 s1). assert (L2 : length (s_in s2) = length (s_in s1)) by done.
  assert (Lg : forall k' m, match readUint m s2 with
      | (Ok size, s) => ((k', size, if size <? 56 then Some ErrCanonSize else None), s)
      | (Err e, s) => ((k', 0, Some e), s)
      | (_, s) => ((k', 0, Some ErrUnexpectedEOF), s) end = ((k, n, e), s') ->
      e <> Some EOL /\ (e = None -> (S (length (s_in s')) <= length (s_in s))%nat)).
  { intros k' m. pose proof (never_readUint m s2) as Nu. destruct (readUint m s2) as [r' s3] eqn:Eu. destruct (readUint_frame _ _ _ _ Eu) as (_ & Lu & _).
    cbn in Nu. destruct r' as [v|e'| |]; intros [= <- <- <- <-]; (split; [|intros ?; lia || done]); try done; [by case_goal|congruence]. }
  destruct (b <? 0x80); [intros [= <- <- <- <-]; split; [done|]; intros _; unstream; lia|].
  destruct (b <? 0xB8); [intros [= <- <- <- <-]; split; [done|]; intros _; lia|].
  destruct (b <? 0xC0); [apply Lg|]. destruct (b <? 0xF8); [intros [= <- <- <- <-]; split; [done|]; intros _; lia|]. apply Lg.
Qed.

Lemma Kind_frame s r s' :
  tame s -> stream_Kind s = (r, s') -> tame s' /\
    match r with Ok _ => peeked s' /\ (weight s' <= weight s)%nat | Err EOL => (weight s' <= weight s)%nat | _ => True end.
Proof.
  intros T. unfold stream_Kind. destruct (s_kind s) as [k|] eqn:Ek.
  { destruct (s_kinderr s) as [e|] eqn:Ee; intros [= <- <-]; (split; [done|]); [unfold tame in T; by destruct e|]. split; [unfold peeked; by rewrite Ek|done]. }
  cbv zeta. case_goal. { intros [= <- <-]. split; [done|]. unfold weight. unstream. lia. }
  destruct (stream_readKind (set_kinderr None s)) as [[[k n] e] s1] eqn:R. destruct (readKind_frame _ _ _ _ _ R) as [Ne Le].
  assert (Ge : forall er, er <> EOL -> r = Err er -> s_kinderr s' = Some er ->
    tame s' /\ match r with Ok _ => peeked s' /\ (weight s' <= weight s)%nat | Err EOL => (weight s' <= weight s)%nat | _ => True end).
  { intros er N -> E'. split; [unfold tame; congruence|by destruct er]. }
  assert (Go : forall kn, e = None -> r = Ok kn -> s_kinderr s' = None -> s_kind s' = Some k -> s_in s' = s_in s1 ->
    tame s' /\ match r with Ok _ => peeked s' /\ (weight s' <= weight s)%nat | Err EOL => (weight s' <= weight s)%nat | _ => True end).
  { intros kn He -> E' K' I'. split; [unfold tame; congruence|]. split; [unfold peeked; congruence|].
    specialize (Le He). rewrite (weight_none s Ek). unfold weight. rewrite K', I'. cbn in Le. lia. }
  destruct e as [e|]; unstream; intros H.
  { injection H as <- <-. apply (Ge e); [by intros ->|done..]. }
  repeat case_hyp H; injection H as <- <-; first [by eapply Go|by eapply (Ge ErrValueTooLarge)|by eapply (Ge ErrElemTooLarge)].
Qed.

Lemma spends_peek {A} Q k (f : Kind * Z -> sm A) : (forall kn, spends peeked k (f kn)) -> spends Q k (sm_bind stream_Kind f).
Proof.
  intros F s T _. unfold sm_bind. destruct (stream_Kind s) as [r s1] eqn:E. destruct (Kind_frame _ _ _ T E) as [T1 W1].
  destruct r as [kn|e| |]; try done. destruct W1 as [P1 W1]. destruct (F kn s1 T1 P1) as [T2 W2]. split; [done|].
  destruct (f kn s1) as [[a|e| |] s2]; cbn in *; try done; [lia|]. destruct e; try done. lia.
Qed.

Lemma spends_Kind Q : spends Q 0 stream_Kind.
Proof.
  intros s T _. destruct (stream_Kind s) as [r s1] eqn:E. destruct (Kind_frame _ _ _ T E) as [T1 W1]. split; [done|].
  destruct r as [kn|e| |]; cbn; try done. lia.
Qed.

(** What was peeked at is taken without reading on. *)
Lemma spends_drop {A} (g : stream -> A) (h : stream -> stream) :
  (forall s, s_in (h s) = s_in s /\ s_kind (h s) = None /\ s_kinderr (h s) = s_kinderr s) -> spends peeked 1 (fun s => (Ok (g s), h s)).
Proof.
  intros H s T P. destruct (H s) as (Ei & Ek & Ee). unfold tame. cbn. rewrite Ee. split; [done|].
  rewrite (weight_none _ Ek), (weight_some _ P), Ei. lia.
Qed.

Lemma spends_Bytes Q : spends Q 1 stream_Bytes.
Proof.
  apply spends_peek. intros [[] n]; [by apply spends_drop| |by apply spends_err].
  apply (spends_bind _ 1 0); [apply spends_readFull|]. intros b. case_goal; [by apply spends_err|apply spends_ret].
Qed.

Lemma spends_Raw Q : spends Q 1 stream_Raw.
Proof. apply spends_peek. intros [[] n]; [by apply spends_drop|..]; apply spends_map, spends_readFull. Qed.

Lemma spends_uint Q bits : spends Q 1 (stream_uint bits).
Proof.
  apply spends_peek. intros [[] n]; [| |by apply spends_err].
  - intros s T P. case_goal; [done|]. by apply (spends_drop (fun s => s_byteval s)).
  - case_goal; [by apply spends_err|]. apply (spends_bind _ 1 0); [apply spends_wrap; [by intros []|apply spends_readUint]|].
    intros v. case_goal; [by apply spends_err|apply spends_ret].
Qed.

Lemma spends_List Q : spends Q 1 stream_List.
Proof. apply spends_peek. intros [[] n]; [by apply spends_err..|]. by apply (spends_drop (fun _ => n)). Qed.

Lemma spends_ListEnd : spends anywhere 0 stream_ListEnd.
Proof.
  apply spends_never; [apply never_ListEnd|..].
  - intros s T _. unfold stream_ListEnd. repeat case_goal; done.
  - intros s a s' T _. unfold stream_ListEnd. intros H. repeat case_hyp H; injection H as _ <-; unfold weight; unstream; lia.
Qed.

Lemma uint_frame bits s r s' : peeked s -> stream_uint bits s = (r, s') -> (length (s_in s') <= length (s_in s))%nat.
Proof.
  intros P. unfold stream_uint, sm_bind, stream_Kind. destruct (s_kind s) as [k|] eqn:Ek; [|done].
  destruct (s_kinderr s); [by intros [= <- <-]|]. destruct k; cbn; [|case_goal|by intros [= <- <-]].
  - case_goal; by intros [= <- <-].
  - by intros [= <- <-].
  - unfold sm_wrap. destruct (readUint (s_size s) s) as [r1 s1] eqn:Eu. destruct (readUint_frame _ _ _ _ Eu) as (_ & L & _).
    destruct r1; cbn; [case_goal|..]; by intros [= <- <-].
Qed.

(** The decoder of [[1]byte] may leave the byte where it is. *)
Lemma spends_ByteArray Q n : spends Q (if (n =? 1)%nat then 0 else 1) (decodeByteArray n).
Proof.
  apply spends_peek. intros [[] m]; [| |by apply spends_err].
  - destruct n as [|[|n]]; [by apply spends_err| |by apply spends_err]. cbn [Nat.eqb]. intros s T P.
    destruct (spends_uint peeked 64 s T P) as [T' W]. pose proof (uint_frame 64 s) as F.
    destruct (stream_uint 64 s) as [[bv|e| |] s']; cbn in *; try done; (split; [done|]); [lia|].
    specialize (F _ _ P eq_refl). rewrite (weight_some _ P). unfold weight. destruct (s_kind s'); lia.
  - apply (spends_le _ 1); [case_goal; lia|]. repeat (case_goal; [by apply spends_err|]).
    apply (spends_bind _ 1 0); [apply spends_readFull|]. intros b. case_goal; [by apply spends_err|apply spends_ret].
Qed.

Lemma spends_SliceElems Q fuel dec k : spends anywhere k dec -> spends Q 0 (decodeSliceElems fuel dec).
Proof.
  intros D s T _. revert s T. induction fuel as [|fuel IH]; intros s T; [done|]. cbn [decodeSliceElems].
  destruct (D s T I) as [T1 W1]. destruct (dec s) as [[v|e| |] s1]; cbn in *; try done.
  - unfold sm_bind. destruct (IH s1 T1) as [T2 W2]. destruct (decodeSliceElems fuel dec s1) as [[vs|e| |] s2]; cbn in *; try done; (split; [done|]); [lia|].
    destruct e; try done. lia.
  - destruct e; (split; [done|]); try done. cbn. lia.
Qed.

Lemma spends_ArrayElems Q n dec k : spends anywhere k dec -> spends Q 0 (decodeArrayElems n dec).
Proof.
  intros D s T _. revert s T. induction n as [|n IH]; intros s T; [split; [done|]; cbn; lia|]. cbn [decodeArrayElems].
  destruct (D s T I) as [T1 W1]. destruct (dec s) as [[v|e| |] s1]; cbn in *; try done.
  - unfold sm_bind. destruct (IH s1 T1) as [T2 W2]. destruct (decodeArrayElems n dec s1) as [[vs|e| |] s2]; cbn in *; try done; (split; [done|]); [lia|].
    destruct e; try done. lia.
  - by destruct e.
Qed.

Lemma wrap_eol e : wrapStreamError e = EOL -> e = EOL.
Proof. by destruct e. Qed.

Lemma spends_ListSlice Q fuel dec k : spends anywhere k dec -> spends Q 1 (decodeListSlice fuel dec).
Proof.
  intros D. apply (spends_bind _ 1 0); [apply spends_wrap, spends_List; exact wrap_eol|]. intros n. case_goal.
  - apply spends_map, spends_ListEnd.
  - apply (spends_bind _ 0 0); [by eapply spends_SliceElems|]. intros vs. apply spends_map, spends_ListEnd.
Qed.

Lemma spends_Interface Q fuel : spends Q 1 (decodeInterface fuel).
Proof.
  revert Q. induction fuel as [|fuel IH]; intros Q; [by intros s T|]. cbn [decodeInterface].
  apply spends_peek. intros [[] n]; [apply spends_map, spends_Bytes..|]. apply spends_map. eapply spends_ListSlice, IH.
Qed.

(** Decoders of types that consume take something, the others nothing at worst. *)
Definition cost (t : rtype) : nat := if consumes t then 1 else 0.

Lemma spends_OptionalPtr Q k dec : (k <= 1)%nat -> spends anywhere k dec -> spends Q k (decodeOptionalPtr dec).
Proof.
  intros K D s T _. unfold decodeOptionalPtr. destruct (stream_Kind s) as [r s1] eqn:E. destruct (Kind_frame _ _ _ T E) as [T1 W1].
  destruct r as [[kd n]|e| |]; try done.
  - destruct W1 as [P1 W1]. case_goal.
    + destruct (spends_drop (fun _ => VPtr None) (set_kind None) (fun s => conj eq_refl (conj eq_refl eq_refl)) s1 T1 P1) as [T2 W2]. cbn in *.
      split; [done|lia].
    + destruct (spends_map anywhere k dec (fun v => VPtr (Some v)) D s1 T1 I) as [T2 W2]. split; [done|].
      destruct (sm_bind dec _ s1) as [[a|e| |] s2]; cbn in *; try done; [lia|]. destruct e; try done. lia.
  - split; [done|]. destruct e; try done.
    assert (weight (set_kind None s1) <= weight s1)%nat by (unfold weight; cbn; destruct (s_kind s1); lia). cbn [fst snd]. lia.
Qed.

Lemma spends_Fields_of Q fuel ts : Forall (fun t => forall Q, spends Q 0 (decode fuel t)) ts -> spends Q 0 (decodeFields fuel ts).
Proof.
  intros F. revert Q. induction F as [|t ts Ht Hts IH]; intros Q; [apply spends_ret|].
  apply (spends_bind _ 0 0); [apply spends_wrap, Ht; by intros []|]. intros v. apply spends_map, IH.
Qed.

Lemma spends_decode Q fuel t : spends Q (cost t) (decode fuel t).
Proof.
  revert Q. induction t as [| | | | | | |t IHt|t IHt|m t IHt|ts IHts|nilOK t IHt|] using rtype_ind; intros Q; cbn [decode]; unfold cost; cbn [consumes].
  - apply spends_map, spends_wrap, spends_uint. exact wrap_eol.
  - apply spends_map, spends_wrap; [exact wrap_eol|]. apply (spends_bind _ 1 0); [apply spends_uint|].
    intros v. repeat case_goal; first [apply spends_ret|by apply spends_err].
  - apply spends_map, spends_wrap, spends_Bytes. exact wrap_eol.
  - apply (spends_bind _ 1 0); [apply spends_wrap, spends_Bytes; exact wrap_eol|]. intros b. case_goal; [by apply spends_err|apply spends_ret].
  - apply spends_map, spends_wrap, spends_Bytes. exact wrap_eol.
  - eapply spends_le; [|apply spends_ByteArray]. case_goal; [zbool|]; by destruct (Nat.eqb_spec n 1).
  - apply spends_map, spends_Raw.
  - eapply spends_ListSlice, IHt.
  - apply spends_map. eapply spends_SliceElems, IHt.
  - apply (spends_bind _ 1 0); [apply spends_wrap, spends_List; exact wrap_eol|]. intros _.
    apply (spends_bind _ 0 0); [eapply spends_ArrayElems, IHt|]. intros vs. apply spends_map, spends_wrap, spends_ListEnd. exact wrap_eol.
  - apply (spends_bind _ 1 0); [apply spends_wrap, spends_List; exact wrap_eol|]. intros _.
    apply (spends_bind _ 0 0); [|intros vs; apply spends_map, spends_wrap, spends_ListEnd; exact wrap_eol].
    apply (spends_Fields_of _ fuel ts). revert IHts. apply Forall_impl. intros t H Q'. eapply spends_le, H. lia.
  - destruct nilOK; [apply spends_OptionalPtr; [unfold cost; case_goal; lia|apply IHt]|apply spends_map, IHt].
  - apply spends_Interface.
Qed.

Lemma spends_consuming Q fuel t : consumes t = true -> spends Q 1 (decode fuel t).
Proof. intros C. pose proof (spends_decode Q fuel t) as P. unfold cost in P. by rewrite C in P. Qed.

Lemma spends_Fields Q fuel ts : spends Q 0 (decodeFields fuel ts).
Proof. apply spends_Fields_of, Forall_true. intros t Q'. eapply spends_le, spends_decode. lia. Qed.

(** *** Loops *)

Lemma stops_any {A} fuel (m : sm A) : stops m -> stops_within fuel m.
Proof. intros M s _ _. apply M. Qed.

Lemma stops_less {A} fuel (m : sm A) : stops_within (S fuel) m -> stops_within fuel m.
Proof. intros M s T W. apply M; [done|lia]. Qed.

(** What [m] takes, the rest does not have to count. *)
Lemma stops_after {A B} k fuel (m : sm A) (f : A -> sm B) :
  stops_within (k + fuel) m -> spends anywhere k m -> (forall a, stops_within fuel (f a)) -> stops_within (k + fuel) (sm_bind m f).
Proof.
  intros M P F s T W. specialize (M s T W). destruct (P s T I) as [T1 W1]. unfold sm_bind. destruct (m s) as [[a|e| |] s1]; cbn in *; try done.
  apply F; [done|lia].
Qed.

Lemma stops_wrapped {A} fuel (m : sm A) g : stops_within fuel m -> stops_within fuel (sm_wrap g m).
Proof. intros M s T W. specialize (M s T W). unfold sm_wrap. by destruct (m s) as [[a|e| |] s1]. Qed.

(** Every round of the loop takes something. *)
Lemma stops_SliceElems fuel dec : stops_within fuel dec -> spends anywhere 1 dec -> stops_within fuel (decodeSliceElems fuel dec).
Proof.
  intros D P. assert (G : forall n s, tame s -> (weight s < fuel)%nat -> (weight s < n)%nat -> fst (decodeSliceElems n dec s) <> OutOfFuel); [|by intros s T W; apply G].
  induction n as [|n IH]; intros s T W L; [lia|]. cbn [decodeSliceElems]. specialize (D s T W). destruct (P s T I) as [T1 W1].
  destruct (dec s) as [[v|e| |] s1]; cbn in *; try done; [|by destruct e].
  unfold sm_bind. specialize (IH s1 T1 ltac:(lia) ltac:(lia)). by destruct (decodeSliceElems n dec s1) as [[vs|e| |] s2].
Qed.

Lemma stops_ArrayElems fuel n dec : stops_within fuel dec -> spends anywhere 0 dec -> stops_within fuel (decodeArrayElems n dec).
Proof.
  intros D P. induction n as [|n IH]; intros s T W; [done|]. cbn [decodeArrayElems]. specialize (D s T W). destruct (P s T I) as [T1 W1].
  destruct (dec s) as [[v|e| |] s1]; cbn in *; try done; [|by destruct e].
  unfold sm_bind. specialize (IH s1 T1 ltac:(lia)). by destruct (decodeArrayElems n dec s1) as [[vs|e| |] s2].
Qed.

Lemma stops_ListSlice fuel dec : stops_within fuel dec -> spends anywhere 1 dec -> stops_within (S fuel) (decodeListSlice fuel dec).
Proof.
  intros D P. apply (stops_after 1); [apply stops_any, stops_wrap, stops_List|apply spends_wrap, spends_List; exact wrap_eol|].
  intros n. case_goal; [apply stops_any; stop_leaves|].
  apply (stops_after 0); [by apply stops_SliceElems|by eapply spends_SliceElems|]. intros vs. apply stops_any. stop_leaves.
Qed.

Lemma stops_Interface fuel : stops_within fuel (decodeInterface fuel).
Proof.
  induction fuel as [|fuel IH]; [intros s T W; lia|]. cbn [decodeInterface].
  apply (stops_after 0 (S fuel)); [apply stops_any, stops_Kind|apply spends_Kind|].
  intros [[] n]; [apply stops_any, stops_bind; [apply stops_Bytes|done]..|].
  apply (stops_after 0 (S fuel)); [|eapply spends_le, spends_ListSlice, spends_Interface; lia|intros v; by apply stops_any].
  apply stops_ListSlice; [done|apply spends_Interface].
Qed.

Lemma stops_OptionalPtr fuel dec : stops_within fuel dec -> stops_within fuel (decodeOptionalPtr dec).
Proof.
  intros D s T W. unfold decodeOptionalPtr. pose proof (stops_Kind s) as N. destruct (spends_Kind anywhere s T I) as [T1 W1].
  destruct (stream_Kind s) as [[[k n]|e| |] s1]; cbn in *; try done. case_goal; [done|].
  specialize (D s1 T1 ltac:(lia)). unfold sm_bind. by destruct (dec s1) as [[v|e| |] s2].
Qed.

Lemma stops_decode fuel t : loops_end t = true -> stops_within fuel (decode fuel t).
Proof.
  induction t as [| | | | | | |t IHt|t IHt|m t IHt|ts IHts|nilOK t IHt|] using rtype_ind; intros G; cbn [decode]; cbn in G.
  1-5, 7: apply stops_any, stops_bind; [try apply stops_wrap|intros ?; stop_leaves];
    first [apply stops_uint|apply stops_Bytes|apply stops_Raw|apply stops_bind; [apply stops_uint|intros ?; stop_leaves]].
  - apply stops_any, stops_ByteArray.
  - apply andb_true_iff in G as [C G]. apply stops_less, stops_ListSlice; [auto|]. by apply spends_consuming.
  - apply andb_true_iff in G as [C G]. pose proof (spends_consuming anywhere fuel t C) as P.
    apply (stops_after 0); [apply stops_SliceElems; auto|by eapply spends_SliceElems|]. intros vs. by apply stops_any.
  - apply (stops_after 0); [apply stops_any, stops_wrap, stops_List|eapply spends_le; [|apply spends_wrap, spends_List; exact wrap_eol]; lia|]. intros _.
    apply (stops_after 0); [apply stops_ArrayElems; [auto|eapply spends_le, spends_decode; lia]|eapply spends_ArrayElems, spends_decode|].
    intros vs. apply stops_any. stop_leaves.
  - apply (stops_after 0); [apply stops_any, stops_wrap, stops_List|eapply spends_le; [|apply spends_wrap, spends_List; exact wrap_eol]; lia|]. intros _.
    apply (stops_after 0); [|apply spends_Fields|intros vs; apply stops_any; stop_leaves].
    revert G. induction IHts as [|t ts Ht Hts IH]; intros G; [by apply stops_any|]. apply andb_true_iff in G as [Gt G].
    apply (stops_after 0); [by apply stops_wrapped, Ht|apply spends_wrap; [by intros []|]; eapply spends_le, spends_decode; lia|]. intros v.
    apply (stops_after 0); [by apply IH|apply spends_Fields|]. intros vs. by apply stops_any.
  - destruct nilOK; [apply stops_OptionalPtr; auto|]. apply (stops_after 0); [auto|eapply spends_le, spends_decode; lia|]. intros v. by apply stops_any.
  - apply stops_Interface.
Qed.

(** *** A loop that does not end *)

(** [[1]byte], also behind pointers. *)
Fixpoint spins (t : rtype) : bool :=
  match t with TByteArray n => (n =? 1)%nat | TPtr _ t => spins t | _ => false end.

Definition zero_ahead (s : stream) : Prop :=
  s_kind s = Some KByte /\ s_kinderr s = None /\ s_byteval s = 0 /\ s_size s = 0.

Lemma zero_ahead_Kind s : zero_ahead s -> stream_Kind s = (Ok (KByte, 0), s).
Proof. intros (K & E & B & Z). unfold stream_Kind. by rewrite K, E, Z. Qed.

(** Decoding a zero byte into such a type succeeds and leaves the byte ahead. *)
Lemma spins_stays fuel t s s' :
  spins t = true -> stream_Kind s = (Ok (KByte, 0), s') -> zero_ahead s' -> exists v, decode fuel t s = (Ok v, s').
Proof.
  intros G K Z. revert G. revert s K.
  induction t as [| | | | |n| |t IHt|t IHt|m t IHt|ts IHts|nilOK t IHt|] using rtype_ind; intros s K G; cbn in G; try done.
  - apply Nat.eqb_eq in G as ->. exists (VBytes [0]). cbn [decode]. unfold decodeByteArray, sm_bind. rewrite K.
    unfold stream_uint, sm_bind. rewrite (zero_ahead_Kind s' Z). by destruct Z as (_ & _ & -> & _).
  - destruct nilOK; cbn [decode].
    + destruct (IHt s' (zero_ahead_Kind s' Z) G) as (v & E). exists (VPtr (Some v)). unfold decodeOptionalPtr, sm_bind. rewrite K. cbn. by rewrite E.
    + destruct (IHt s K G) as (v & E). exists (VPtr (Some v)). unfold sm_bind. by rewrite E.
Qed.

Lemma spins_forever n fuel t s s' :
  spins t = true -> stream_Kind s = (Ok (KByte, 0), s') -> zero_ahead s' -> fst (decodeSliceElems n (decode fuel t) s) = OutOfFuel.
Proof.
  intros G K Z. revert s K. induction n as [|n IH]; intros s K; [done|]. cbn [decodeSliceElems].
  destruct (spins_stays fuel t s s' G K Z) as (v & ->). unfold sm_bind. specialize (IH s' (zero_ahead_Kind s' Z)).
  by destruct (decodeSliceElems n (decode fuel t) s') as [[vs|e| |] s2].
Qed.

(** Opening a list whose content begins with a zero byte. *)
Lemma zero_item_opens rest tl : len (enc_list (0 :: rest) ++ tl) < 2 ^ 64 ->
  exists s s', sm_wrap wrapStreamError stream_List (NewStream (enc_list (0 :: rest) ++ tl)) = (Ok (len (0 :: rest)), s) /\
    stream_Kind s = (Ok (KByte, 0), s') /\ zero_ahead s'.
Proof.
  assert (N : 1 <= len (0 :: rest)) by (rewrite len_cons; pose proof (len_nonneg rest); lia). remember (0 :: rest) as c eqn:Ec.
  unfold enc_list. rewrite <- app_assoc. set (h := enc_head 0xC0 0xF7 (len c)). set (i := h ++ c ++ tl). intros L.
  assert (Li : len i = len h + len c + len tl) by (unfold i; rewrite !len_app; lia).
  pose proof (len_nonneg h) as Nh. pose proof (len_nonneg tl) as Nt.
  destruct (stream_Kind_head KList 0xC0 0xF7 (len c) (c ++ tl) (NewStream i)) as (s1 & K1 & Ks & C1); [by right|done|done|lia| |].
  { fold h. split; [|split; [|done]]; cbn; lia. }
  fold h in C1. unfold core in C1. cbn in C1. injection C1 as I1 I2 I3 I4.
  set (s2 := set_size 0 (set_kind None (set_stack (Listpos 0 (len c) :: s_stack s1) s1))).
  destruct (stream_Kind_byte 0 (rest ++ tl) s2) as (s3 & K3 & B3 & Kb & _); [done| |lia| |].
  { unfold s2. unstream. rewrite I1. unfold i. rewrite zdrop_app_len. by subst c. }
  { unfold s2, room. unstream. rewrite I1, I2, I3, len_zdrop by lia. repeat split; lia. }
  exists s2, s3. split; [|split; [done|]].
  - unfold sm_wrap, stream_List, sm_bind. by rewrite K1.
  - pose proof (stream_Kind_again _ _ _ K3) as A. unfold stream_Kind in A. rewrite Kb in A. destruct (s_kinderr s3) eqn:Ee; [done|].
    injection A as Az. by split.
Qed.

(** ** Theorems *)




(** C32. Termination of the decoder: for every input, also one that is no encoding of
    anything, the loops and recursions of decoding end within as many rounds as the input has
    bytes, for every type whose slices and tails have elements that take something from the
    input: all types but slices of [[1]byte] or of pointers to it. *)
Theorem DecodeBytes_terminates t b : loops_end t = true -> DecodeBytes t b <> OutOfFuel.
Proof.
  intros G. unfold DecodeBytes, DecodeBytes_fuel.
  pose proof (stops_decode (S (length b)) t G (NewStream b)) as N. unfold weight in N. cbn in N.
  destruct (decode _ t (NewStream b)) as [[w|e| |] s]; try done; [by case_goal|]. exfalso. apply N; [done|lia|done].
Qed.

Lemma DecodeBytes_terminates_witness :
  DecodeBytes (TSlice (TSlice (TByteArray 20))) [0xC3; 0xC0; 0xC1; 0x80] <> OutOfFuel.
Proof. apply DecodeBytes_terminates. reflexivity. Defined.

(** Where the condition on types fails, the decoder loops: any list whose content begins
    with a zero byte, decoded into a slice of [[1]byte] or of pointers to it, runs out of any
    fuel, so no number of rounds is enough: the error of [Uint] on the zero byte is dropped
    and the byte stays ahead for the next element. *)
Theorem DecodeBytes_spins fuel t rest tl :
  spins t = true -> len (enc_list (0 :: rest) ++ tl) < 2 ^ 64 ->
  DecodeBytes_fuel fuel (TSlice t) (enc_list (0 :: rest) ++ tl) = OutOfFuel.
Proof.
  intros G L. destruct (zero_item_opens rest tl L) as (s & s' & O & K & Z). unfold DecodeBytes_fuel. cbn [decode]. unfold decodeListSlice.
  unfold sm_bind at 1. rewrite O. pose proof (len_nonneg rest). rewrite len_cons. zdecide.
  pose proof (spins_forever fuel fuel t s s' G K Z) as F. unfold sm_bind at 1. by destruct (decodeSliceElems fuel _ s) as [[vs|e| |] s2].
Qed.

Lemma DecodeBytes_spins_witness :
  DecodeBytes_fuel 1000 (TSlice (TPtr false (TByteArray 1))) [0xC2; 0; 7] = OutOfFuel.
Proof. apply (DecodeBytes_spins 1000 (TPtr false (TByteArray 1)) [7] []); [reflexivity|vm_compute; reflexivity]. Defined.
