(* ===== verification/TrieEncoding.v ===== *)
(** * Package [trie]: key encodings

    [src/pkg/trie/encoding.go]: KEYBYTES, HEX and COMPACT encodings of trie keys and
    the conversions between them, with their round trips. *)

From S2P Require Import Prelude.

(** ** Operations *)

Definition hasTerm (s : bytes) : bool :=
  match list.last s with Some x => x =? 16 | None => false end.

(** An odd number of nibbles makes the loop index past the end. *)
Fixpoint decodeNibbles {E} (nibbles : bytes) : outcome E bytes :=
  match nibbles with
  | [] => Ok []
  | [_] => Panic
  | hi :: lo :: nibbles =>
    bs ← decodeNibbles nibbles; Ok (Z.lor (u8 (Z.shiftl hi 4)) lo :: bs)
  end.

Definition keybytesToHex (str : bytes) : bytes :=
  concat (map (fun b => [b / 16; b mod 16]) str) ++ [16].

Definition hexToCompact {E} (hex : bytes) : outcome E bytes :=
  let '(terminator, hex) :=
    if hasTerm hex then (1, ztake (len hex - 1) hex) else (0, hex) in
  let flag := u8 (Z.shiftl terminator 5) in
  match (if Z.land (len hex) 1 =? 1 then hex else []) with
  | n :: rest =>
    bs ← decodeNibbles rest; Ok (Z.lor (Z.lor flag (u8 (Z.shiftl 1 4))) n :: bs)
  | [] => bs ← decodeNibbles hex; Ok (flag :: bs)
  end.

(** [base[0]] is out of range for the empty string. *)
Definition compactToHex {E} (compact : bytes) : outcome E bytes :=
  let base := keybytesToHex compact in
  let base := ztake (len base - 1) base in
  match base with
  | [] => Panic
  | b0 :: _ =>
    let base := if 2 <=? b0 then base ++ [16] else base in
    let chop := 2 - Z.land b0 1 in
    Ok (zdrop chop base)
  end.

Definition hexToKeybytes {E} (hex : bytes) : outcome E bytes :=
  let hex := if hasTerm hex then ztake (len hex - 1) hex else hex in
  if negb (Z.land (len hex) 1 =? 0) then Panic else decodeNibbles hex.

Fixpoint prefixLen (a b : bytes) : nat :=
  match a, b with
  | x :: a, y :: b => if x =? y then S (prefixLen a b) else O
  | _, _ => O
  end.

(** ** Hex keys *)

Definition nibble (x : Z) : Prop := 0 <= x < 16.
Definition nibbles (k : bytes) : Prop := Forall nibble k.

(** A complete key: nibbles and the terminator. *)
Definition hexkey (k : bytes) : Prop := exists p, nibbles p /\ k = p ++ [16].

(** A key fragment: nibbles with an optional terminator. *)
Definition hexfrag (k : bytes) : Prop := nibbles k \/ hexkey k.

(** ** Lemmas *)

Lemma hasTerm_app k : hasTerm (k ++ [16]) = true.
Proof. unfold hasTerm. by rewrite last_snoc. Qed.

Lemma hasTerm_nibbles k : nibbles k -> hasTerm k = false.
Proof.
  unfold hasTerm. induction k as [|x k _] using rev_ind; [done|]. intros H. rewrite last_snoc.
  apply Forall_app in H as [_ H]. apply Forall_cons_iff in H as [H _]. unfold nibble in H. apply Z.eqb_neq. lia.
Qed.

Lemma ztake_snoc {A} (k : list A) x : ztake (len (k ++ [x]) - 1) (k ++ [x]) = k.
Proof. rewrite len_app. change (len [x]) with 1. rewrite Z.add_simpl_r. apply ztake_app_len. Qed.

Lemma nibble_pair hi lo : nibble hi -> nibble lo ->
  byte_ok (Z.lor (u8 (Z.shiftl hi 4)) lo) /\
  Z.lor (u8 (Z.shiftl hi 4)) lo / 16 = hi /\ Z.lor (u8 (Z.shiftl hi 4)) lo mod 16 = lo.
Proof.
  unfold nibble, byte_ok. intros H1 H2.
  assert (E : Z.lor (u8 (Z.shiftl hi 4)) lo = hi * 16 + lo).
  { rewrite Z.shiftl_mul_pow2 by lia. change (2 ^ 4) with 16. unfold u8. rewrite Z.mod_small by lia.
    symmetry. apply Z.add_nocarry_lor. apply Z.bits_inj'. intros n Hn. rewrite Z.land_spec, Z.bits_0.
    destruct (Z.ltb_spec n 4).
    - replace (hi * 16) with (Z.shiftl hi 4) by (rewrite Z.shiftl_mul_pow2; lia).
      by rewrite Z.shiftl_spec_low.
    - rewrite andb_comm. destruct (Z.eq_dec lo 0) as [->|]; [by rewrite Z.bits_0|].
      rewrite Z.bits_above_log2; [done|lia|]. enough (Z.log2 lo < 4) by lia. apply Z.log2_lt_pow2; lia. }
  rewrite E. split; [lia|]. split.
  - rewrite Z.div_add_l by lia. rewrite Z.div_small by lia. lia.
  - rewrite Z.add_comm, Z.mod_add by lia. apply Z.mod_small. lia.
Qed.

(** The loop of [decodeNibbles], backwards: bytes written as nibbles. *)
Definition unpack (bs : bytes) : bytes := concat (map (fun b => [b / 16; b mod 16]) bs).

Lemma decodeNibbles_ok {E} k :
  nibbles k -> Nat.Even (length k) ->
  exists bs, @decodeNibbles E k = Ok bs /\ bytes_ok bs /\ unpack bs = k.
Proof.
  remember (length k) as n eqn:Hn. revert k Hn.
  induction n as [n IH] using lt_wf_ind; intros k Hn H Ev.
  destruct k as [|x [|y k]]; [exists []; by repeat constructor|exfalso; subst n; destruct Ev as [m Hm]; cbn in Hm; lia|].
  apply Forall_cons_iff in H as [Hx H]. apply Forall_cons_iff in H as [Hy H].
  cbn in Hn. destruct (IH (length k) ltac:(lia) k eq_refl H) as (bs & D & O & U).
  { subst n. destruct Ev as [m Hm]. exists (m - 1)%nat. lia. }
  destruct (nibble_pair x y Hx Hy) as (B & Q & R).
  eexists. cbn [decodeNibbles]. rewrite D. split; [reflexivity|]. split; [by constructor|].
  unfold unpack in *. cbn [map concat]. by rewrite Q, R, U.
Qed.

Lemma nibbles_unpack bs : bytes_ok bs -> nibbles (unpack bs).
Proof.
  induction bs as [|b bs IH]; intros H; [constructor|]. apply bytes_ok_cons in H as [Hb H]. unfold byte_ok in Hb.
  change (nibbles ([b / 16; b mod 16] ++ unpack bs)). apply Forall_app. split; [|by apply IH].
  assert (0 <= b / 16 < 16) by (split; [apply Z.div_pos|apply Z.div_lt_upper_bound]; lia).
  pose proof (Z.mod_pos_bound b 16 ltac:(lia)). constructor; [done|constructor; [done|constructor]].
Qed.

Lemma length_unpack bs : length (unpack bs) = (2 * length bs)%nat.
Proof. unfold unpack. induction bs as [|b bs IH]; [done|]. cbn in *. rewrite IH. lia. Qed.

Lemma keybytesToHex_unpack str : keybytesToHex str = unpack str ++ [16].
Proof. done. Qed.

Lemma hexkey_keybytes str : bytes_ok str -> hexkey (keybytesToHex str).
Proof. intros H. exists (unpack str). split; [by apply nibbles_unpack|done]. Qed.

Lemma unpack_inj a b : bytes_ok a -> bytes_ok b -> unpack a = unpack b -> a = b.
Proof.
  revert b. induction a as [|x a IH]; intros [|y b] Ha Hb; try done.
  intros E. cbn in E. injection E as E1 E2 E3.
  apply bytes_ok_cons in Ha as [Hx Ha]. apply bytes_ok_cons in Hb as [Hy Hb].
  f_equal; [|by apply IH]. rewrite (Z.div_mod x 16), (Z.div_mod y 16) by lia. lia.
Qed.

Lemma keybytesToHex_inj a b : bytes_ok a -> bytes_ok b -> keybytesToHex a = keybytesToHex b -> a = b.
Proof. intros Ha Hb E. apply app_inv_tail in E. by apply unpack_inj. Qed.

Lemma land_1_even n : Z.land n 1 = 0 -> Z.Even n.
Proof. intros H. rewrite Z.land_ones with (n := 1) in H by lia. change (2 ^ 1) with 2 in H. exists (n / 2). pose proof (Z.div_mod n 2). lia. Qed.

Lemma land_1_cases n : 0 <= n -> (Z.land n 1 = 0 /\ Z.Even n) \/ (Z.land n 1 = 1 /\ Z.Odd n).
Proof.
  intros H. rewrite Z.land_ones with (n := 1) by lia. change (2 ^ 1) with 2.
  pose proof (Z.mod_pos_bound n 2 ltac:(lia)). pose proof (Z.div_mod n 2 ltac:(lia)).
  destruct (Z.eq_dec (n mod 2) 0) as [E|]; [left|right]; (split; [lia|]); exists (n / 2); lia.
Qed.

Lemma even_length {A} (l : list A) : Z.Even (len l) -> Nat.Even (length l).
Proof. intros [m H]. unfold len in H. exists (Z.to_nat m). lia. Qed.

Lemma hexToCompact_nibbles {E} (t : Z) (k : bytes) :
  nibbles k -> t = 0 \/ t = 1 ->
  exists bs, bytes_ok bs /\
    (match (if Z.land (len k) 1 =? 1 then k else []) with
     | n :: rest => bs ← @decodeNibbles E rest; Ok (Z.lor (Z.lor (u8 (Z.shiftl t 5)) (u8 (Z.shiftl 1 4))) n :: bs)
     | [] => bs ← decodeNibbles k; Ok (u8 (Z.shiftl t 5) :: bs)
     end) = Ok bs /\
    unpack bs = 2 * t + Z.land (len k) 1 :: (if Z.land (len k) 1 =? 1 then k else 0 :: k).
Proof.
  intros H Ht. destruct (land_1_cases (len k) (len_nonneg k)) as [[-> Ev]|[-> Od]]; cbn [Z.eqb Pos.eqb].
  - destruct (@decodeNibbles_ok E k H (even_length k Ev)) as (bs & D & O & U). rewrite D.
    eexists. split; [|split; [reflexivity|]].
    + apply bytes_ok_cons. split; [|done]. destruct Ht as [-> | ->]; by vm_compute.
    + unfold unpack in *. cbn [map concat app]. rewrite U. by destruct Ht as [-> | ->].
  - destruct k as [|n k]; [destruct Od as [m Hm]; rewrite len_nil in Hm; lia|].
    apply Forall_cons_iff in H as [Hn H]. rewrite len_cons in Od.
    destruct (@decodeNibbles_ok E k H) as (bs & D & O & U).
    { apply even_length. destruct Od as [m Hm]. exists m. lia. }
    rewrite D. eexists. split; [|split; [reflexivity|]].
    + apply bytes_ok_cons. split; [|done].
      destruct (nibble_pair (2 * t + 1) n ltac:(unfold nibble; lia) Hn) as (B & _).
      destruct Ht as [-> | ->]; exact B.
    + destruct (nibble_pair (2 * t + 1) n ltac:(unfold nibble; lia) Hn) as (_ & Q & R).
      unfold unpack in *. cbn [map concat app].
      replace (Z.lor (Z.lor (u8 (Z.shiftl t 5)) (u8 (Z.shiftl 1 4))) n)
        with (Z.lor (u8 (Z.shiftl (2 * t + 1) 4)) n) by (by destruct Ht as [-> | ->]).
      by rewrite Q, R, U.
Qed.

(** The compact form of a fragment: its first nibble holds terminator and parity. *)
Lemma hexToCompact_ok {E} k :
  hexfrag k -> exists bs, @hexToCompact E k = Ok bs /\ bytes_ok bs /\ bs <> [] /\ @compactToHex E bs = Ok k.
Proof.
  assert (G : forall t p, nibbles p -> t = 0 \/ t = 1 -> k = p ++ (if t =? 1 then [16] else []) ->
    (if hasTerm k then (1, ztake (len k - 1) k) else (0, k)) = (t, p) ->
    exists bs, @hexToCompact E k = Ok bs /\ bytes_ok bs /\ bs <> [] /\ @compactToHex E bs = Ok k).
  { intros t p Hp Ht Ek Eh. unfold hexToCompact. rewrite Eh.
    destruct (@hexToCompact_nibbles E t p Hp Ht) as (bs & O & D & U). exists bs. split; [exact D|].
    split; [done|]. split; [by intros ->|]. unfold compactToHex.
    rewrite keybytesToHex_unpack, ztake_snoc, U.
    assert (Z.land (2 * t + Z.land (len p) 1) 1 = Z.land (len p) 1 /\
            (2 <=? 2 * t + Z.land (len p) 1) = (t =? 1)) as [-> ->].
    { destruct (land_1_cases (len p) (len_nonneg p)) as [[-> _]|[-> _]], Ht as [-> | ->]; done. }
    rewrite Ek. destruct (land_1_cases (len p) (len_nonneg p)) as [[-> _]|[-> _]], Ht as [-> | ->]; cbn;
      by rewrite ?app_nil_r. }
  intros [H|(p & H & ->)].
  - apply (G 0 k H); [by left|by rewrite app_nil_r|]. by rewrite hasTerm_nibbles.
  - apply (G 1 p H); [by right|done|]. by rewrite hasTerm_app, ztake_snoc.
Qed.

Lemma prefixLen_le a b : (prefixLen a b <= length a)%nat /\ (prefixLen a b <= length b)%nat.
Proof.
  revert b. induction a as [|x a IH]; intros [|y b]; cbn; try lia. destruct (x =? y); [|cbn; lia].
  destruct (IH b). lia.
Qed.

Lemma prefixLen_take a b : take (prefixLen a b) a = take (prefixLen a b) b.
Proof.
  revert b. induction a as [|x a IH]; intros [|y b]; cbn; try done.
  destruct (Z.eqb_spec x y) as [->|]; [|done]. cbn. by rewrite IH.
Qed.

(** The first elements after the common prefix differ. *)
Lemma prefixLen_differ a b x y a' b' :
  drop (prefixLen a b) a = x :: a' -> drop (prefixLen a b) b = y :: b' -> x <> y.
Proof.
  revert b. induction a as [|u a IH]; intros [|v b]; cbn; try done.
  destruct (Z.eqb_spec u v) as [->|N]; cbn; [apply IH|]. by intros [= -> _] [= -> _].
Qed.

Lemma prefixLen_app a b : prefixLen (a ++ b) a = length a.
Proof. induction a as [|x a IH]; [by destruct b|]. cbn. by rewrite Z.eqb_refl, IH. Qed.

(** Compact encoding is the inverse of compact decoding: every key fragment (nibbles
    with an optional terminator) has a compact form, made of bytes, which decodes to
    it. *)
Theorem compact_roundtrip k :
  hexfrag k -> exists bs, @hexToCompact unit k = Ok bs /\ bytes_ok bs /\ @compactToHex unit bs = Ok k.
Proof. intros H. destruct (@hexToCompact_ok unit k H) as (bs & ? & ? & _ & ?). eauto. Qed.

Lemma compact_roundtrip_witness :
  exists bs, @hexToCompact unit [1; 2; 3; 16] = Ok bs /\ bytes_ok bs /\ @compactToHex unit bs = Ok [1; 2; 3; 16].
Proof.
  apply compact_roundtrip. right. exists [1; 2; 3]. split; [|reflexivity].
  repeat constructor; lia.
Defined.

Lemma hexToKeybytes_ok {E} str : bytes_ok str -> @hexToKeybytes E (keybytesToHex str) = Ok str.
Proof.
  intros H. unfold hexToKeybytes. rewrite keybytesToHex_unpack, hasTerm_app, ztake_snoc.
  assert (Ev : Nat.Even (length (unpack str))) by (rewrite length_unpack; by exists (length str)).
  destruct (land_1_cases (len (unpack str)) (len_nonneg _)) as [[-> _]|[_ Od]].
  - cbn. destruct (@decodeNibbles_ok E _ (nibbles_unpack str H) Ev) as (bs & -> & O & U).
    f_equal. by apply unpack_inj.
  - exfalso. destruct Od as [m Hm], Ev as [n Hn]. unfold len in Hm. lia.
Qed.

(** Key bytes written as hex nibbles are a complete key, and are read back. *)
Theorem keybytes_roundtrip str :
  bytes_ok str -> hexkey (keybytesToHex str) /\ @hexToKeybytes unit (keybytesToHex str) = Ok str.
Proof. intros H. split; [by apply hexkey_keybytes|by apply hexToKeybytes_ok]. Qed.

Lemma keybytes_roundtrip_witness :
  hexkey (keybytesToHex [0x12; 0xAB]) /\ @hexToKeybytes unit (keybytesToHex [0x12; 0xAB]) = Ok [0x12; 0xAB].
Proof. apply keybytes_roundtrip. repeat constructor; unfold byte_ok; lia. Defined.
