(* ===== verification/Trie.v ===== *)
(** * Package [trie]: the Merkle Patricia trie

    [src/pkg/trie/node.go], [trie.go] and [hasher.go]: nodes with their cache flags,
    lookup, insertion and deletion on partially loaded tries, the node decoder, and
    hashing and committing.  The backing store is a map from hashes to encodings, as
    [ethdb.MemDatabase] is. *)

From S2P Require Import Prelude Rlp TrieEncoding Common.

(** ** The hash function *)

(** What the trie relies on of Keccak-256: a function to 32-byte strings. *)
Class Hasher := {
  keccak256 : bytes -> bytes;
  keccak256_hash : forall b, is_hash (keccak256 b)
}.

Definition u16 (z : Z) : Z := z mod 2 ^ 16.

(** ** Nodes *)

Record nodeFlag := NodeFlag { nf_hash : option bytes; nf_gen : Z; nf_dirty : bool }.

Local Unset Elimination Schemes.

Inductive node :=
| Nil
| valueNode (v : bytes)
| shortNode (Key : bytes) (Val : node) (flags : nodeFlag)
| fullNode (Children : list node) (flags : nodeFlag)
| hashNode (h : bytes).

Local Set Elimination Schemes.

Definition canUnload (f : nodeFlag) (cachegen cachelimit : Z) : bool :=
  negb (nf_dirty f) && (cachelimit <=? u16 (cachegen - nf_gen f)).

(** [cache] and [canUnload] of the [node] interface, by the dynamic type. *)
Definition node_cache (n : node) : option bytes * bool :=
  match n with
  | shortNode _ _ f | fullNode _ f => (nf_hash f, nf_dirty f)
  | _ => (None, true)
  end.

Definition node_canUnload (n : node) (gen limit : Z) : bool :=
  match n with shortNode _ _ f | fullNode _ f => canUnload f gen limit | _ => false end.

(** ** Decoding nodes *)

Inductive node_what :=
| WUnexpectedEOF | WDecode (e : rlp_error) | WRlp (e : rlp_error) | WCount (c : Z)
| WInvalidValue (e : rlp_error) | WOversized (size : Z) | WStringSize (n : Z).

Inductive node_ctx := CtxShort | CtxFull | CtxVal | CtxIndex (i : nat).

Record node_error := NodeError { ne_what : node_what; ne_stack : list node_ctx }.

Definition plain (w : node_what) : node_error := NodeError w [].
Definition wrapError (ctx : node_ctx) (e : node_error) : node_error :=
  NodeError (ne_what e) (ne_stack e ++ [ctx]).

(** [dec] is [decodeNode] on the embedded node at the head of [buf]. *)
Definition decodeRef (dec : bytes -> outcome node_error node) (buf : bytes)
  : outcome node_error (node * bytes) :=
  '(kind, val, rest) ← map_err (fun e => plain (WRlp e)) (Split buf);
  match kind with
  | KList =>
    let size := len buf - len rest in
    if HashLength <? size then Err (plain (WOversized size))
    else n ← dec buf; Ok (n, rest)
  | KString =>
    if len val =? 0 then Ok (Nil, rest)
    else if len val =? 32 then Ok (hashNode val, rest)
    else Err (plain (WStringSize (len val)))
  | KByte => Err (plain (WStringSize (len val)))
  end.

Definition decodeShort (dec : bytes -> outcome node_error node) (hash : option bytes)
    (elems : bytes) (cachegen : Z) : outcome node_error node :=
  '(kbuf, rest) ← map_err (fun e => plain (WRlp e)) (SplitString elems);
  let flag := NodeFlag hash cachegen false in
  key ← compactToHex kbuf;
  if hasTerm key then
    '(val, _) ← map_err (fun e => plain (WInvalidValue e)) (SplitString rest);
    Ok (shortNode key (valueNode val) flag)
  else
    '(r, _) ← map_err (wrapError CtxVal) (decodeRef dec rest);
    Ok (shortNode key r flag).

(** The loop over the first sixteen children, [n] of them left. *)
Fixpoint decodeFull_loop (dec : bytes -> outcome node_error node) (n : nat) (elems : bytes)
  : outcome node_error (list node * bytes) :=
  match n with
  | O => Ok ([], elems)
  | S n =>
    '(cld, rest) ← map_err (wrapError (CtxIndex (15 - n)%nat)) (decodeRef dec elems);
    '(cs, rest) ← decodeFull_loop dec n rest;
    Ok (cld :: cs, rest)
  end.

Definition decodeFull (dec : bytes -> outcome node_error node) (hash : option bytes)
    (elems : bytes) (cachegen : Z) : outcome node_error node :=
  '(cs, elems) ← decodeFull_loop dec 16 elems;
  '(val, _) ← map_err (fun e => plain (WRlp e)) (SplitString elems);
  let c16 := if 0 <? len val then valueNode val else Nil in
  Ok (fullNode (cs ++ [c16]) (NodeFlag hash cachegen false)).

(** Embedded nodes are decoded from a strictly shorter buffer. *)
Fixpoint decodeNode_fuel (fuel : nat) (hash : option bytes) (buf : bytes) (cachegen : Z)
  : outcome node_error node :=
  match fuel with
  | O => OutOfFuel
  | S fuel =>
    if len buf =? 0 then Err (plain WUnexpectedEOF)
    else
      '(elems, _) ← map_err (fun e => plain (WDecode e)) (SplitList buf);
      c ← match CountValues elems with
          | Ok c => Ok c
          | Err _ => Ok 0
          | Panic => Panic
          | OutOfFuel => OutOfFuel
          end;
      let dec b := decodeNode_fuel fuel None b cachegen in
      if c =? 2 then map_err (wrapError CtxShort) (decodeShort dec hash elems cachegen)
      else if c =? 17 then map_err (wrapError CtxFull) (decodeFull dec hash elems cachegen)
      else Err (plain (WCount c))
  end.

Definition decodeNode (hash : option bytes) (buf : bytes) (cachegen : Z) : outcome node_error node :=
  decodeNode_fuel (S (length buf)) hash buf cachegen.

(** ** The trie *)

Abbreviation database := (gmap bytes bytes).

Inductive trie_error := MissingNodeError (NodeHash Path : bytes).

Definition mustDecodeNode (hash buf : bytes) (cachegen : Z) : outcome trie_error node :=
  match decodeNode (Some hash) buf cachegen with
  | Ok n => Ok n
  | Err _ => Panic
  | Panic => Panic
  | OutOfFuel => OutOfFuel
  end.

Definition resolveHash (db : database) (gen : Z) (n prefix : bytes) : outcome trie_error node :=
  match db !! n with
  | None => Err (MissingNodeError (BytesToHash n) prefix)
  | Some enc => mustDecodeNode n enc gen
  end.

Definition resolve (db : database) (gen : Z) (n : node) (prefix : bytes) : outcome trie_error node :=
  match n with hashNode h => resolveHash db gen h prefix | _ => Ok n end.

(** [n.Children[i]] and [n.Children[i] = c]; an index past 16 panics. *)
Definition child (cs : list node) (i : Z) : outcome trie_error node :=
  match cs !! Z.to_nat i with Some c => Ok c | None => Panic end.

Definition set_child (cs : list node) (i : Z) (c : node) : list node := <[Z.to_nat i := c]> cs.

Definition set_gen (gen : Z) (f : nodeFlag) : nodeFlag := NodeFlag (nf_hash f) gen (nf_dirty f).

Definition newFlag (gen : Z) : nodeFlag := NodeFlag None gen true.

(** The returned triple is value, new node and [didResolve]. *)
Fixpoint tryGet (fuel : nat) (db : database) (gen : Z) (origNode : node) (key : bytes) (pos : nat)
  : outcome trie_error (option bytes * node * bool) :=
  match fuel with
  | O => OutOfFuel
  | S fuel =>
    match origNode with
    | Nil => Ok (None, Nil, false)
    | valueNode v => Ok (Some v, origNode, false)
    | shortNode k v f =>
      if (len key - Z.of_nat pos <? len k)
         || negb (bool_decide (k = take (length k) (drop pos key)))
      then Ok (None, origNode, false)
      else
        '(value, newnode, didResolve) ← tryGet fuel db gen v key (pos + length k)%nat;
        Ok (value, if (didResolve : bool) then shortNode k newnode (set_gen gen f) else origNode, didResolve)
    | fullNode cs f =>
      match key !! pos with
      | None => Panic
      | Some i =>
        c ← child cs i;
        '(value, newnode, didResolve) ← tryGet fuel db gen c key (pos + 1)%nat;
        Ok (value, if (didResolve : bool) then fullNode (set_child cs i newnode) (set_gen gen f) else origNode,
            didResolve)
      end
    | hashNode h =>
      c ← resolveHash db gen h (take pos key);
      '(value, newnode, _) ← tryGet fuel db gen c key pos;
      Ok (value, newnode, true)
    end
  end.

(** The returned pair is [dirty] and the new node. *)
Fixpoint insert (fuel : nat) (db : database) (gen : Z) (n : node) (prefix key : bytes) (value : node)
  : outcome trie_error (bool * node) :=
  match fuel with
  | O => OutOfFuel
  | S fuel =>
    match key with
    | [] =>
      match n, value with
      | valueNode v, valueNode v' => Ok (negb (bool_decide (v = v')), value)
      | valueNode _, _ => Panic
      | _, _ => Ok (true, value)
      end
    | k0 :: krest =>
      match n with
      | shortNode k v f =>
        let matchlen := prefixLen key k in
        if (matchlen =? length k)%nat then
          '(dirty, nn) ← insert fuel db gen v (prefix ++ take matchlen key) (drop matchlen key) value;
          if (dirty : bool) then Ok (true, shortNode k nn (newFlag gen)) else Ok (false, n)
        else
          match k !! matchlen, key !! matchlen with
          | Some ki, Some kj =>
            '(_, c1) ← insert fuel db gen Nil (prefix ++ take (matchlen + 1)%nat k) (drop (matchlen + 1)%nat k) v;
            '(_, c2) ← insert fuel db gen Nil (prefix ++ take (matchlen + 1)%nat key) (drop (matchlen + 1)%nat key) value;
            if (16 <? ki) || (16 <? kj) then Panic
            else
              let branch := fullNode (set_child (set_child (replicate 17 Nil) ki c1) kj c2) (newFlag gen) in
              if (matchlen =? 0)%nat then Ok (true, branch)
              else Ok (true, shortNode (take matchlen key) branch (newFlag gen))
          | _, _ => Panic
          end
      | fullNode cs f =>
        c ← child cs k0;
        '(dirty, nn) ← insert fuel db gen c (prefix ++ [k0]) krest value;
        if (dirty : bool) then Ok (true, fullNode (set_child cs k0 nn) (newFlag gen)) else Ok (false, n)
      | Nil => Ok (true, shortNode key value (newFlag gen))
      | hashNode h =>
        rn ← resolveHash db gen h prefix;
        '(dirty, nn) ← insert fuel db gen rn prefix key value;
        if (dirty : bool) then Ok (true, nn) else Ok (false, rn)
      | valueNode _ => Panic
      end
    end
  end.

(** The loop that looks for the single non-nil child: [-1] none, [-2] several. *)
Fixpoint only_child (cs : list node) (i : Z) (pos : Z) : Z :=
  match cs with
  | [] => pos
  | Nil :: cs => only_child cs (i + 1) pos
  | _ :: cs => if pos =? -1 then only_child cs (i + 1) i else -2
  end.

Fixpoint delete (fuel : nat) (db : database) (gen : Z) (n : node) (prefix key : bytes)
  : outcome trie_error (bool * node) :=
  match fuel with
  | O => OutOfFuel
  | S fuel =>
    match n with
    | shortNode k v f =>
      let matchlen := prefixLen key k in
      if (matchlen <? length k)%nat then Ok (false, n)
      else if (matchlen =? length key)%nat then Ok (true, Nil)
      else
        '(dirty, c) ← delete fuel db gen v (prefix ++ take (length k) key) (drop (length k) key);
        if (dirty : bool) then
          match c with
          | shortNode ck cv _ => Ok (true, shortNode (k ++ ck) cv (newFlag gen))
          | _ => Ok (true, shortNode k c (newFlag gen))
          end
        else Ok (false, n)
    | fullNode cs f =>
      match key with
      | [] => Panic
      | k0 :: krest =>
        c ← child cs k0;
        '(dirty, nn) ← delete fuel db gen c (prefix ++ [k0]) krest;
        if (dirty : bool) then
          let cs := set_child cs k0 nn in
          let pos := only_child cs 0 (-1) in
          if 0 <=? pos then
            c ← child cs pos;
            let one := Ok (true, shortNode [pos] c (newFlag gen)) in
            if negb (pos =? 16) then
              cnode ← resolve db gen c prefix;
              match cnode with
              | shortNode ck cv _ => Ok (true, shortNode (pos :: ck) cv (newFlag gen))
              | _ => one
              end
            else one
          else Ok (true, fullNode cs (newFlag gen))
        else Ok (false, n)
      end
    | valueNode _ => Ok (true, Nil)
    | Nil => Ok (false, Nil)
    | hashNode h =>
      rn ← resolveHash db gen h prefix;
      '(dirty, nn) ← delete fuel db gen rn prefix key;
      if (dirty : bool) then Ok (true, nn) else Ok (false, rn)
    end
  end.

(** A step down the trie consumes a nibble of the key or loads a node that is not a
    hash. *)
Definition trie_fuel (key : bytes) : nat := 2 * length key + 4.

(** The database is an argument of the operations.  A [nil] prefix is the empty one. *)
Record trie := Trie {
  t_root : node;
  t_originalRoot : bytes;
  t_prefix : bytes;
  t_cachegen : Z;
  t_cachelimit : Z
}.

Definition set_root (n : node) (t : trie) : trie :=
  Trie n (t_originalRoot t) (t_prefix t) (t_cachegen t) (t_cachelimit t).

Definition emptyRoot : bytes :=
  [0x56; 0xe8; 0x1f; 0x17; 0x1b; 0xcc; 0x55; 0xa6; 0xff; 0x83; 0x45; 0xe6; 0x92; 0xc0; 0xf8; 0x6e;
   0x5b; 0x48; 0xe0; 0x1b; 0x99; 0x6c; 0xad; 0xc0; 0x01; 0x62; 0x2f; 0xb5; 0xe3; 0x63; 0xb4; 0x21].

Definition SetCacheLimit (l : Z) (t : trie) : trie :=
  Trie (t_root t) (t_originalRoot t) (t_prefix t) (t_cachegen t) l.

Definition New (root : bytes) (db : database) : outcome trie_error trie :=
  if negb (EmptyHash root) && negb (bool_decide (root = emptyRoot)) then
    rootnode ← resolveHash db 0 root [];
    Ok (Trie rootnode root [] 0 0)
  else Ok (Trie Nil root [] 0 0).

Definition NewTrieWithPrefix (root prefix : bytes) (db : database) : outcome trie_error trie :=
  t ← New root db;
  Ok (Trie (t_root t) (t_originalRoot t) prefix (t_cachegen t) (t_cachelimit t)).

(** [TryGet] may replace the root by one with more nodes loaded. *)
Definition TryGet (db : database) (t : trie) (key : bytes) : outcome trie_error (option bytes * trie) :=
  let key := keybytesToHex (t_prefix t ++ key) in
  '(value, newroot, didResolve) ← tryGet (trie_fuel key) db (t_cachegen t) (t_root t) key 0;
  Ok (value, if (didResolve : bool) then set_root newroot t else t).

Definition TryDelete (db : database) (t : trie) (key : bytes) : outcome trie_error trie :=
  let k := keybytesToHex (t_prefix t ++ key) in
  '(_, n) ← delete (trie_fuel k) db (t_cachegen t) (t_root t) [] k;
  Ok (set_root n t).

Definition TryUpdate (db : database) (t : trie) (key value : bytes) : outcome trie_error trie :=
  let k := keybytesToHex (t_prefix t ++ key) in
  if negb (len value =? 0) then
    '(_, n) ← insert (trie_fuel k) db (t_cachegen t) (t_root t) [] k (valueNode value);
    Ok (set_root n t)
  else
    '(_, n) ← delete (trie_fuel k) db (t_cachegen t) (t_root t) [] k;
    Ok (set_root n t).

(** [Get], [Update] and [Delete] log the error and leave the trie alone. *)
Definition Get (db : database) (t : trie) (key : bytes) : outcome trie_error (option bytes * trie) :=
  match TryGet db t key with Err _ => Ok (None, t) | r => r end.

Definition Update (db : database) (t : trie) (key value : bytes) : outcome trie_error trie :=
  match TryUpdate db t key value with Err _ => Ok t | r => r end.

Definition Delete (db : database) (t : trie) (key : bytes) : outcome trie_error trie :=
  match TryDelete db t key with Err _ => Ok t | r => r end.

(** ** Hashing *)

(** A node as the value of type [node] that the RLP encoder is given.  The [flags] are
    not exported; a full node's encoder writes its array of children. *)
Fixpoint node_rval (n : node) : rval :=
  match n with
  | Nil => VIface None
  | valueNode b | hashNode b => VIface (Some (TBytes, VBytes b))
  | shortNode k v _ =>
    VIface (Some (TPtr false (TStruct [TBytes; TIface]), VPtr (Some (VStruct [VBytes k; node_rval v]))))
  | fullNode cs _ => VIface (Some (TArray 17 TIface, VList (map node_rval cs)))
  end.

Section Hashing.
Context {HS : Hasher}.

(** The database is [None] when the code's writer is [nil]. *)
Definition store (n : node) (db : option database) (force : bool)
  : outcome unit (node * option database) :=
  match n with
  | Nil | hashNode _ => Ok (n, db)
  | _ =>
    match Encode TIface (node_rval n) with
    | Ok enc =>
      if (len enc <? 32) && negb force then Ok (n, db)
      else
        let hash := match fst (node_cache n) with Some h => h | None => keccak256 enc end in
        Ok (hashNode hash, match db with Some db => Some (<[hash := enc]> db) | None => None end)
    | _ => Panic
    end
  end.

(** The hash and the dirty flag of the copy that replaces a hashed node. *)
Definition mark_hashed (cached hashed : node) (db : option database) : node :=
  let h := match hashed with hashNode h => Some h | _ => None end in
  let upd f := NodeFlag h (nf_gen f) (match db with Some _ => false | None => nf_dirty f end) in
  match cached with
  | shortNode k v f => shortNode k v (upd f)
  | fullNode cs f => fullNode cs (upd f)
  | n => n
  end.

(** The answer of [hash] from the cached data of the node, if it has one. *)
Definition hash_cached (n : node) (db : option database) (gen limit : Z) : option (node * node) :=
  match node_cache n with
  | (Some h, dirty) =>
    match db with
    | None => Some (hashNode h, n)
    | Some _ =>
      if node_canUnload n gen limit then Some (hashNode h, hashNode h)
      else if negb dirty then Some (hashNode h, n)
      else None
    end
  | _ => None
  end.

(** [hash] with [hashChildren]; the result is the collapsed node or its hash, the
    replacement of the original node, and the database. *)
Fixpoint hash (gen limit : Z) (n : node) (db : option database) (force : bool) {struct n}
  : outcome unit (node * node * option database) :=
  match n with
  | Nil => Panic
  | _ =>
    match hash_cached n db gen limit with
    | Some (h, c) => Ok (h, c, db)
    | None =>
      '(collapsed, cached, db) ←
        match n with
        | shortNode k v f =>
          ck ← hexToCompact k;
          '(cv, hv, db) ← match v with
                          | valueNode _ => Ok (v, v, db)
                          | _ => hash gen limit v db false
                          end;
          let cv := match cv with Nil => valueNode [] | _ => cv end in
          Ok (shortNode ck cv f, shortNode k hv f, db)
        | fullNode cs f =>
          '(ccs, hcs, db) ←
            (fix hashChildren (i : nat) (cs : list node) (db : option database) {struct cs}
               : outcome unit (list node * list node * option database) :=
               match cs with
               | [] => Ok ([], [], db)
               | c :: cs =>
                 '(cc, hc, db) ←
                   match c with
                   | Nil => Ok (valueNode [], Nil, db)
                   | _ => if (i <? 16)%nat then hash gen limit c db false else Ok (c, c, db)
                   end;
                 '(ccs, hcs, db) ← hashChildren (S i) cs db;
                 Ok (cc :: ccs, hc :: hcs, db)
               end) O cs db;
          Ok (fullNode ccs f, fullNode hcs f, db)
        | _ => Ok (n, n, db)
        end;
      '(hashed, db) ← store collapsed db force;
      Ok (hashed, mark_hashed cached hashed db, db)
    end
  end.

Definition hashRoot (t : trie) (db : option database) : outcome unit (node * node * option database) :=
  match t_root t with
  | Nil => Ok (hashNode emptyRoot, Nil, db)
  | n => hash (t_cachegen t) (t_cachelimit t) n db true
  end.

(** [hash.(hashNode)] panics on a node that was not hashed. *)
Definition Hash (t : trie) : outcome unit (bytes * trie) :=
  '(h, cached, _) ← hashRoot t None;
  match h with hashNode h => Ok (BytesToHash h, set_root cached t) | _ => Panic end.

Definition CommitTo (t : trie) (db : database) : outcome unit (bytes * trie * database) :=
  '(h, cached, db) ← hashRoot t (Some db);
  match h, db with
  | hashNode h, Some db =>
    Ok (BytesToHash h,
        Trie cached (t_originalRoot t) (t_prefix t) (u16 (t_cachegen t + 1)) (t_cachelimit t), db)
  | _, _ => Panic
  end.

End Hashing.
