(* ===== verification/TrieModel.v ===== *)
(** * Reference Patricia trees

    Trees without flags and hash references, with lookup, insertion and deletion by
    structural recursion: the specification that the nodes of [Trie] refine.  Trees in
    minimal form behave as finite maps and are determined by the map they hold. *)

From S2P Require Import Prelude TrieEncoding.

(** ** Trees *)

Local Unset Elimination Schemes.

Inductive ptree :=
| PNil
| PVal (v : bytes)
| PShort (k : bytes) (t : ptree)
| PFull (cs : list ptree).

Local Set Elimination Schemes.

Fixpoint pget (t : ptree) (key : bytes) : option bytes :=
  match t with
  | PNil => None
  | PVal v => Some v
  | PShort k t =>
    if bool_decide (k = take (length k) key) then pget t (drop (length k) key) else None
  | PFull cs =>
    match key with
    | [] => None
    | i :: rest =>
      (fix go (cs : list ptree) (n : nat) : option bytes :=
         match cs, n with
         | [], _ => None
         | c :: _, O => pget c rest
         | _ :: cs, S n => go cs n
         end) cs (Z.to_nat i)
    end
  end.

(** A node below a key fragment: no short node for the empty fragment. *)
Definition hang (k : bytes) (t : ptree) : ptree := match k with [] => t | _ => PShort k t end.

Definition pset (cs : list ptree) (i : Z) (c : ptree) : list ptree := <[Z.to_nat i := c]> cs.

Definition pbranch (i : Z) (t : ptree) (j : Z) (u : ptree) : ptree :=
  PFull (pset (pset (replicate 17 PNil) i t) j u).

Fixpoint pinsert (t : ptree) (key value : bytes) {struct t} : ptree :=
  match key with
  | [] => PVal value
  | k0 :: krest =>
    match t with
    | PNil => PShort key (PVal value)
    | PVal _ => PVal value
    | PShort k u =>
      let m := prefixLen key k in
      if (m =? length k)%nat then PShort k (pinsert u (drop m key) value)
      else
        match k !! m, key !! m with
        | Some ki, Some kj =>
          hang (take m key)
            (pbranch ki (hang (drop (m + 1) k) u) kj (hang (drop (m + 1) key) (PVal value)))
        | _, _ => t
        end
    | PFull cs =>
      PFull ((fix go (cs : list ptree) (n : nat) : list ptree :=
                match cs, n with
                | [], _ => []
                | c :: cs, O => pinsert c krest value :: cs
                | c :: cs, S n => c :: go cs n
                end) cs (Z.to_nat k0))
    end
  end.

Fixpoint ponly (cs : list ptree) (i : Z) (pos : Z) : Z :=
  match cs with
  | [] => pos
  | PNil :: cs => ponly cs (i + 1) pos
  | _ :: cs => if pos =? -1 then ponly cs (i + 1) i else -2
  end.

(** A full node with a single child becomes a short node. *)
Definition preduce (cs : list ptree) : ptree :=
  let pos := ponly cs 0 (-1) in
  if 0 <=? pos then
    match cs !! Z.to_nat pos with
    | Some (PShort ck cv) => if pos =? 16 then PShort [pos] (PShort ck cv) else PShort (pos :: ck) cv
    | Some c => PShort [pos] c
    | None => PFull cs
    end
  else PFull cs.

Definition pjoin (k : bytes) (t : ptree) : ptree :=
  match t with PShort ck cv => PShort (k ++ ck) cv | _ => PShort k t end.

Fixpoint pdelete (t : ptree) (key : bytes) {struct t} : ptree :=
  match t with
  | PNil => PNil
  | PVal _ => PNil
  | PShort k u =>
    let m := prefixLen key k in
    if (m <? length k)%nat then t
    else if (m =? length key)%nat then PNil
    else pjoin k (pdelete u (drop (length k) key))
  | PFull cs =>
    match key with
    | [] => t
    | k0 :: krest =>
      preduce ((fix go (cs : list ptree) (n : nat) : list ptree :=
                  match cs, n with
                  | [], _ => []
                  | c :: cs, O => pdelete c krest :: cs
                  | c :: cs, S n => c :: go cs n
                  end) cs (Z.to_nat k0))
    end
  end.

(** ** Minimal form *)

(** At least two children are in use. *)
Definition two (cs : list ptree) : Prop :=
  exists i j c d, i <> j /\ cs !! i = Some c /\ cs !! j = Some d /\ c <> PNil /\ d <> PNil.

(** [slot b t]: [t] is in minimal form; [b] says that the path to it ends with the
    terminator. *)
Inductive slot : bool -> ptree -> Prop :=
| slot_nil b : slot b PNil
| slot_val v : v <> [] -> slot true (PVal v)
| slot_leaf p v : nibbles p -> v <> [] -> slot false (PShort (p ++ [16]) (PVal v))
| slot_ext k cs : nibbles k -> k <> [] -> slot false (PFull cs) -> slot false (PShort k (PFull cs))
| slot_full cs :
    length cs = 17%nat ->
    (forall i c, cs !! i = Some c -> slot (bool_decide (i = 16%nat)) c) ->
    two cs -> slot false (PFull cs).

(** The rest of a complete key below such a path. *)
Definition keyrest (b : bool) (k : bytes) : Prop := if b then k = [] else hexkey k.

(** ** Lemmas: keys *)

Lemma hexkey_cons x k :
  hexkey (x :: k) <-> (x = 16 /\ k = []) \/ (nibble x /\ hexkey k).
Proof.
  split.
  - intros (p & Hp & E). destruct p as [|y p]; injection E as -> ->; [by left|].
    apply Forall_cons_iff in Hp as [Hy Hp]. right. split; [done|]. by exists p.
  - intros [[-> ->]|[Hx (p & Hp & ->)]]; [exists []; split; [constructor|done]|]. exists (x :: p). split; [by constructor|done].
Qed.

Lemma hexkey_nil : ~ hexkey [].
Proof. intros (p & _ & E). by destruct p. Qed.

Lemma hexkey_step x k : hexkey (x :: k) -> 0 <= x <= 16 /\ keyrest (bool_decide (Z.to_nat x = 16%nat)) k.
Proof.
  intros H. apply hexkey_cons in H as [[-> ->]|[Hx Hk]]; [split; [lia|done]|].
  unfold nibble in Hx. split; [lia|]. rewrite bool_decide_false by lia. done.
Qed.

Lemma hexkey_intro i k :
  (i < 17)%nat -> keyrest (bool_decide (i = 16%nat)) k -> hexkey (Z.of_nat i :: k).
Proof.
  intros Hi H. apply hexkey_cons. destruct (decide (i = 16%nat)) as [->|N].
  - left. done.
  - rewrite bool_decide_false in H by done. right. split; [unfold nibble; lia|done].
Qed.

Lemma hexkey_app p k : nibbles p -> hexkey k -> hexkey (p ++ k).
Proof. intros Hp (q & Hq & ->). exists (p ++ q). split; [by apply Forall_app|by rewrite app_assoc]. Qed.

Lemma hexkey_app_inv p k : hexkey (p ++ k) -> nibbles p -> hexkey k.
Proof.
  induction p as [|x p IH]; [done|]. cbn. intros H Hp. apply Forall_cons_iff in Hp as [Hx Hp].
  apply hexkey_cons in H as [[-> _]|[_ H]]; [unfold nibble in Hx; lia|]. by apply IH.
Qed.

(** No complete key is a proper prefix of another. *)
Lemma hexkey_prefix_free k r : hexkey k -> hexkey (k ++ r) -> r = [].
Proof.
  induction k as [|x k IH]; intros H1 H2; [by destruct (hexkey_nil H1)|]. cbn in H2.
  apply hexkey_cons in H1. apply hexkey_cons in H2. unfold nibble in *.
  destruct H1 as [[-> ->]|[Hx H1]], H2 as [[E H2]|[Hx' H2]]; try lia; [done|by apply IH].
Qed.

Lemma keyrest_prefix_free b k r : keyrest b k -> keyrest b (k ++ r) -> r = [].
Proof. destruct b; cbn; [by intros ->|apply hexkey_prefix_free]. Qed.

Lemma take_drop_app (k r : bytes) : take (length k) (k ++ r) = k /\ drop (length k) (k ++ r) = r.
Proof. split; [apply take_app_length|apply drop_app_length]. Qed.

(** A key either continues a fragment or does not start with it. *)
Lemma starts_with (k key : bytes) : (exists r, key = k ++ r) \/ k <> take (length k) key.
Proof.
  destruct (decide (k = take (length k) key)) as [E|]; [left|by right].
  exists (drop (length k) key). rewrite E at 1. by rewrite take_drop.
Qed.

(** Two fragments split where they differ. *)
Lemma prefixLen_split key k :
  (prefixLen key k < length k)%nat -> (prefixLen key k < length key)%nat ->
  exists com ki k1 kj k2, k = com ++ ki :: k1 /\ key = com ++ kj :: k2 /\ ki <> kj /\
    prefixLen key k = length com.
Proof.
  intros H1 H2. pose proof (prefixLen_take key k) as T.
  destruct (drop (prefixLen key k) k) as [|ki k1] eqn:D1.
  { apply (f_equal length) in D1. rewrite length_drop in D1. cbn in D1. lia. }
  destruct (drop (prefixLen key k) key) as [|kj k2] eqn:D2.
  { apply (f_equal length) in D2. rewrite length_drop in D2. cbn in D2. lia. }
  exists (take (prefixLen key k) k), ki, k1, kj, k2.
  split; [by rewrite <- D1, take_drop|]. split; [by rewrite <- T, <- D2, take_drop|].
  split; [|rewrite length_take; lia]. intros ->. by apply (prefixLen_differ key k kj kj k2 k1).
Qed.

Lemma prefixLen_full key k : prefixLen key k = length k -> exists r, key = k ++ r.
Proof.
  intros E. exists (drop (length k) key). pose proof (prefixLen_take key k) as T. rewrite E in T.
  rewrite firstn_all in T. by rewrite <- T at 1; rewrite take_drop.
Qed.

(** ** Lemmas: lookup *)

Lemma pget_full cs i rest :
  pget (PFull cs) (i :: rest) = match cs !! Z.to_nat i with Some c => pget c rest | None => None end.
Proof.
  cbn. generalize (Z.to_nat i). induction cs as [|c cs IH]; intros [|n]; done.
Qed.

Lemma pget_short_app k t r : pget (PShort k t) (k ++ r) = pget t r.
Proof. cbn. destruct (take_drop_app k r) as [-> ->]. by rewrite bool_decide_true. Qed.

Lemma pget_short_ne k t key : k <> take (length k) key -> pget (PShort k t) key = None.
Proof. intros H. cbn. by rewrite bool_decide_false. Qed.

Lemma pget_hang k t key : pget (hang k t) key = pget (PShort k t) key.
Proof. destruct k; [|done]. cbn. done. Qed.

Lemma pget_hang_app k t r : pget (hang k t) (k ++ r) = pget t r.
Proof. rewrite pget_hang. apply pget_short_app. Qed.

Lemma pget_hang_ne k t key : k <> take (length k) key -> pget (hang k t) key = None.
Proof. rewrite pget_hang. apply pget_short_ne. Qed.

Lemma lookup_pset cs i c j :
  (Z.to_nat i < length cs)%nat ->
  pset cs i c !! j = if decide (j = Z.to_nat i) then Some c else cs !! j.
Proof.
  intros H. unfold pset. destruct (decide (j = Z.to_nat i)) as [->|N].
  - by rewrite list_lookup_insert_eq.
  - by rewrite list_lookup_insert_ne.
Qed.

Lemma length_pset cs i c : length (pset cs i c) = length cs.
Proof. apply length_insert. Qed.

Lemma pget_branch i t j u x r :
  0 <= i <= 16 -> 0 <= j <= 16 -> i <> j -> 0 <= x <= 16 ->
  pget (pbranch i t j u) (x :: r) = if decide (x = j) then pget u r else if decide (x = i) then pget t r else None.
Proof.
  intros Hi Hj N Hx. unfold pbranch. rewrite pget_full.
  rewrite !lookup_pset by (rewrite ?length_pset, length_replicate; lia).
  destruct (decide (x = j)) as [->|Nj]; [by rewrite decide_True|]. rewrite decide_False by lia.
  destruct (decide (x = i)) as [->|Ni]; [by rewrite decide_True|]. rewrite decide_False by lia.
  by rewrite lookup_replicate_2 by lia.
Qed.

(** ** Lemmas: minimal form *)

(** The fragment [k] leads to [u] and can be cut anywhere. *)
Definition frag (b : bool) (k : bytes) (u : ptree) : Prop :=
  (exists v, u = PVal v /\ v <> [] /\ keyrest b k) \/
  (exists cs, u = PFull cs /\ b = false /\ nibbles k /\ slot false u).

Lemma frag_hang b k u : frag b k u -> slot b (hang k u) /\ hang k u <> PNil.
Proof.
  intros [(v & -> & Hv & Hk)|(cs & -> & -> & Hk & S)].
  - destruct b; cbn in Hk; [subst k; by repeat constructor|].
    destruct Hk as (p & Hp & ->). assert (E : hang (p ++ [16]) (PVal v) = PShort (p ++ [16]) (PVal v)) by (by destruct p).
    rewrite E. by repeat constructor.
  - destruct k as [|x k]; [done|]. cbn. split; [by apply slot_ext|done].
Qed.

Lemma frag_app p k u : frag false (p ++ k) u -> nibbles p -> frag false k u.
Proof.
  intros [(v & -> & Hv & Hk)|(cs & -> & _ & Hk & S)] Hp.
  - left. exists v. split; [done|]. split; [done|]. by eapply hexkey_app_inv.
  - right. exists cs. apply Forall_app in Hk as [_ Hk]. done.
Qed.

Lemma frag_step x k u : frag false (x :: k) u -> 0 <= x <= 16 /\ frag (bool_decide (Z.to_nat x = 16%nat)) k u.
Proof.
  intros [(v & -> & Hv & Hk)|(cs & -> & _ & Hk & S)].
  - apply hexkey_step in Hk as [Hx Hk]. split; [done|]. left. eauto.
  - apply Forall_cons_iff in Hk as [Hx Hk]. unfold nibble in Hx. split; [lia|].
    rewrite bool_decide_false by lia. right. eauto.
Qed.

Lemma frag_prefix com x k u : frag false (com ++ x :: k) u -> nibbles com.
Proof.
  intros [(v & -> & Hv & (p & Hp & E))|(cs & -> & _ & Hk & S)]; [|by apply Forall_app in Hk as [Hk _]].
  destruct (exists_last (l := x :: k) ltac:(done)) as (k' & y & Ek). rewrite Ek, app_assoc in E.
  apply app_inj_tail in E as [<- _]. by apply Forall_app in Hp as [Hp _].
Qed.

Lemma slot_branch i t j u :
  0 <= i <= 16 -> 0 <= j <= 16 -> i <> j ->
  slot (bool_decide (Z.to_nat i = 16%nat)) t -> t <> PNil ->
  slot (bool_decide (Z.to_nat j = 16%nat)) u -> u <> PNil -> slot false (pbranch i t j u).
Proof.
  intros Hi Hj N St Nt Su Nu.
  assert (L : forall n, pset (pset (replicate 17 PNil) i t) j u !! n =
     if decide (n = Z.to_nat j) then Some u else if decide (n = Z.to_nat i) then Some t
     else replicate 17 PNil !! n).
  { intros n. by rewrite !lookup_pset by (rewrite ?length_pset, length_replicate; lia). }
  constructor.
  - by rewrite !length_pset, length_replicate.
  - intros n c. rewrite L. destruct (decide (n = Z.to_nat j)) as [->|]; [by intros [= <-]|].
    destruct (decide (n = Z.to_nat i)) as [->|]; [by intros [= <-]|].
    intros H. apply lookup_replicate in H as [-> _]. constructor.
  - exists (Z.to_nat i), (Z.to_nat j), t, u. rewrite !L.
    split; [lia|]. rewrite decide_False by lia. by rewrite !decide_True.
Qed.

Lemma frag_key_longer k u key :
  frag false k u -> hexkey key -> (prefixLen key k < length k)%nat -> (prefixLen key k < length key)%nat.
Proof.
  intros F Hk L. destruct (prefixLen_le key k) as [L1 _]. apply Nat.le_neq. split; [done|]. intros E.
  pose proof (prefixLen_take key k) as T. rewrite E, firstn_all in T.
  assert (Ek : k = key ++ drop (length key) k) by (rewrite T at 1; by rewrite take_drop).
  destruct F as [(v & -> & Hv & Hk')|(cs & -> & _ & Hk' & S)].
  - rewrite Ek in Hk'. apply hexkey_prefix_free in Hk'; [|done]. rewrite Hk', app_nil_r in Ek. subst k. lia.
  - rewrite Ek in Hk'. apply Forall_app in Hk' as [Hk' _]. destruct Hk as (p & _ & ->).
    apply Forall_app in Hk' as [_ Hk']. apply Forall_cons_iff in Hk' as [Hk' _]. unfold nibble in Hk'. lia.
Qed.

(** ** Lemmas: insertion *)

Definition inserts (b : bool) (t : ptree) (k v : bytes) (t' : ptree) : Prop :=
  slot b t' /\ t' <> PNil /\
  forall k', keyrest b k' -> pget t' k' = if decide (k' = k) then Some v else pget t k'.

Lemma pinsert_full cs k0 krest v :
  pinsert (PFull cs) (k0 :: krest) v = PFull (alter (fun c => pinsert c krest v) (Z.to_nat k0) cs).
Proof.
  cbn. f_equal. generalize (Z.to_nat k0). induction cs as [|c cs IH]; intros [|n]; try done.
  cbn. f_equal. apply IH.
Qed.

Lemma pinsert_split k u key v com ki k1 kj k2 :
  k = com ++ ki :: k1 -> key = com ++ kj :: k2 -> ki <> kj -> prefixLen key k = length com ->
  pinsert (PShort k u) key v = hang com (pbranch ki (hang k1 u) kj (hang k2 (PVal v))).
Proof.
  intros -> -> N E.
  assert (M : forall x r, (com ++ x :: r) !! length com = Some x /\ drop (length com + 1) (com ++ x :: r) = r
                          /\ take (length com) (com ++ x :: r) = com).
  { intros x r. split; [by rewrite lookup_app_r, Nat.sub_diag by lia|]. split; [|apply take_app_length].
    rewrite drop_app_ge by lia. by replace (length com + 1 - length com)%nat with 1%nat by lia. }
  destruct (com ++ kj :: k2) as [|y l] eqn:Ey; [by destruct com|].
  cbn [pinsert]. rewrite <- Ey in *. rewrite E.
  destruct (Nat.eqb_spec (length com) (length (com ++ ki :: k1))) as [L|_]; [rewrite length_app in L; cbn in L; lia|].
  destruct (M ki k1) as (-> & -> & _). by destruct (M kj k2) as (-> & -> & ->).
Qed.

Lemma pinsert_split_spec k u key v com ki k1 kj k2 :
  frag false k u -> hexkey key -> v <> [] ->
  k = com ++ ki :: k1 -> key = com ++ kj :: k2 -> ki <> kj ->
  inserts false (PShort k u) key v (hang com (pbranch ki (hang k1 u) kj (hang k2 (PVal v)))).
Proof.
  intros F Hkey Hv -> -> N.
  pose proof (frag_prefix com ki k1 u F) as Hcom.
  apply frag_app in F as F1; [|done]. apply frag_step in F1 as [Hi F1].
  apply hexkey_app_inv in Hkey as H2; [|done]. apply hexkey_step in H2 as [Hj H2].
  assert (F2 : frag (bool_decide (Z.to_nat kj = 16%nat)) k2 (PVal v)) by (left; eauto).
  destruct (frag_hang _ _ _ F1) as [S1 N1]. destruct (frag_hang _ _ _ F2) as [S2 N2].
  pose proof (slot_branch ki _ kj _ Hi Hj N S1 N1 S2 N2) as SB.
  assert (FB : frag false com (pbranch ki (hang k1 u) kj (hang k2 (PVal v)))) by (right; eauto).
  destruct (frag_hang _ _ _ FB) as [S' N']. split; [done|]. split; [done|].
  intros k' Hk'. destruct (starts_with com k') as [[r ->]|NP].
  - rewrite pget_hang_app. apply hexkey_app_inv in Hk'; [|done].
    destruct r as [|x r]; [by destruct (hexkey_nil Hk')|]. apply hexkey_step in Hk' as [Hx Hk'].
    rewrite pget_branch by done. destruct (decide (x = kj)) as [->|Nj].
    + destruct (decide (com ++ kj :: r = com ++ kj :: k2)) as [E|NE].
      * apply app_inv_head in E as [= ->]. by rewrite <- (app_nil_r k2) at 2; rewrite pget_hang_app.
      * rewrite pget_hang_ne.
        -- symmetry. apply pget_short_ne. intros E. rewrite length_app, firstn_app_2 in E.
           apply app_inv_head in E. cbn in E. congruence.
        -- intros E. apply NE. do 2 f_equal. rewrite <- (take_drop (length k2) r), <- E.
           rewrite (keyrest_prefix_free (bool_decide (Z.to_nat kj = 16%nat)) k2 (drop (length k2) r)); [by rewrite app_nil_r|done|].
           rewrite E at 1. by rewrite take_drop.
    + destruct (decide (com ++ x :: r = com ++ kj :: k2)) as [E|_]; [apply app_inv_head in E; congruence|].
      destruct (decide (x = ki)) as [->|Ni].
      * rewrite pget_hang. cbn. rewrite length_app, firstn_app_2, drop_app_ge by lia.
        replace (length com + length (ki :: k1) - length com)%nat with (length (ki :: k1)) by lia. cbn.
        destruct (decide (k1 = take (length k1) r)) as [E|NE]; [rewrite !bool_decide_true; [done|by rewrite <- E|done]|].
        rewrite !bool_decide_false; [done| |done]. intros E. apply app_inv_head in E. congruence.
      * symmetry. apply pget_short_ne. intros E. rewrite length_app, firstn_app_2 in E.
        apply app_inv_head in E. cbn in E. congruence.
  - rewrite pget_hang_ne by done. rewrite decide_False.
    + symmetry. apply pget_short_ne. intros E. apply NP. rewrite length_app in E.
      apply (f_equal (take (length com))) in E. rewrite take_app_length, take_take in E.
      rewrite E at 1. f_equal. lia.
    + intros ->. apply NP. by rewrite take_app_length.
Qed.

Lemma inserts_leaf k v0 key v :
  hexkey k -> v0 <> [] -> hexkey key -> v <> [] ->
  inserts false (PShort k (PVal v0)) key v (pinsert (PShort k (PVal v0)) key v).
Proof.
  intros Hk Hv0 Hkey Hv.
  assert (F : frag false k (PVal v0)) by (left; eauto).
  destruct (Nat.eq_dec (prefixLen key k) (length k)) as [E|NE].
  - destruct (prefixLen_full key k E) as [r ->]. rewrite (hexkey_prefix_free k r), app_nil_r in * by done.
    destruct k as [|x k'] eqn:Ek; [by destruct (hexkey_nil Hk)|]. cbn [pinsert]. rewrite <- Ek in *. clear Ek x k'.
    rewrite E, Nat.eqb_refl, drop_ge by lia. cbn [pinsert].
    split; [|split; [done|]].
    + destruct Hk as (p & Hp & ->). by constructor.
    + intros k' Hk'. destruct (starts_with k k') as [[r' ->]|NP].
      * rewrite (hexkey_prefix_free k r'), app_nil_r by done. rewrite decide_True by done.
        rewrite <- (app_nil_r k) at 2. by rewrite pget_short_app.
      * rewrite !pget_short_ne by done. rewrite decide_False; [done|]. intros ->. apply NP. by rewrite firstn_all.
  - assert (L : (prefixLen key k < length k)%nat) by (pose proof (prefixLen_le key k); lia).
    pose proof (frag_key_longer k _ key F Hkey L) as L2.
    destruct (prefixLen_split key k L L2) as (com & ki & k1 & kj & k2 & E1 & E2 & N & E3).
    rewrite (pinsert_split _ _ _ _ com ki k1 kj k2) by done. by apply pinsert_split_spec.
Qed.

Lemma inserts_ext k cs key v :
  nibbles k -> k <> [] -> slot false (PFull cs) -> hexkey key -> v <> [] ->
  (forall key, hexkey key -> inserts false (PFull cs) key v (pinsert (PFull cs) key v)) ->
  inserts false (PShort k (PFull cs)) key v (pinsert (PShort k (PFull cs)) key v).
Proof.
  intros Hk NEk S Hkey Hv IH.
  assert (F : frag false k (PFull cs)) by (right; eauto).
  destruct (Nat.eq_dec (prefixLen key k) (length k)) as [E|NE].
  - destruct (prefixLen_full key k E) as [r ->]. apply hexkey_app_inv in Hkey as Hr; [|done].
    assert (EI : pinsert (PShort k (PFull cs)) (k ++ r) v = PShort k (pinsert (PFull cs) r v)).
    { destruct (k ++ r) as [|x l] eqn:El; [by destruct k|]. cbn [pinsert]. rewrite <- El in *.
      by rewrite E, Nat.eqb_refl, drop_app_length. }
    rewrite EI. destruct (IH r Hr) as (S' & _ & G).
    destruct r as [|x r]; [by destruct (hexkey_nil Hr)|]. rewrite pinsert_full in *.
    split; [by apply slot_ext|]. split; [done|]. intros k' Hk'.
    destruct (starts_with k k') as [[r' ->]|NP].
    + rewrite !pget_short_app, G by (by eapply hexkey_app_inv).
      destruct (decide (r' = x :: r)) as [->|N]; [by rewrite decide_True|].
      rewrite decide_False; [done|]. intros E'. by apply app_inv_head in E'.
    + rewrite !pget_short_ne by done. rewrite decide_False; [done|]. intros ->. apply NP. by rewrite take_app_length.
  - assert (L : (prefixLen key k < length k)%nat) by (pose proof (prefixLen_le key k); lia).
    pose proof (frag_key_longer k _ key F Hkey L) as L2.
    destruct (prefixLen_split key k L L2) as (com & ki & k1 & kj & k2 & E1 & E2 & N & E3).
    rewrite (pinsert_split _ _ _ _ com ki k1 kj k2) by done. by apply pinsert_split_spec.
Qed.

Lemma hexkey_cons_inv k : hexkey k -> exists x r, k = x :: r.
Proof. intros H. destruct k as [|x r]; [by destruct (hexkey_nil H)|eauto]. Qed.

(** Replacing one child of a full node. *)
Lemma pget_alter cs f x y r' :
  0 <= x <= 16 -> 0 <= y <= 16 ->
  pget (PFull (alter f (Z.to_nat x) cs)) (y :: r') =
  if decide (y = x) then match cs !! Z.to_nat x with Some c => pget (f c) r' | None => None end
  else pget (PFull cs) (y :: r').
Proof.
  intros Hx Hy. rewrite !pget_full. destruct (decide (y = x)) as [->|N].
  - rewrite list_lookup_alter_eq. by destruct (cs !! Z.to_nat x).
  - rewrite list_lookup_alter_ne by lia. done.
Qed.

Lemma pinsert_spec b t :
  slot b t -> forall k v, keyrest b k -> v <> [] -> inserts b t k v (pinsert t k v).
Proof.
  induction 1 as [b|v0 Hv0|p v0 Hp Hv0|k0 cs Hk0 NE S IH|cs L Sc IH T]; intros k v Hk Hv.
  - destruct b; cbn in Hk.
    + subst k. split; [by constructor|]. split; [done|]. intros k' ->. by rewrite decide_True.
    + destruct (hexkey_cons_inv k Hk) as (x & r & ->). cbn [pinsert].
      split; [|split; [done|]]; [by destruct Hk as (p & Hp & ->); constructor|].
      intros k' Hk'. destruct (starts_with (x :: r) k') as [[r' ->]|NP].
      * rewrite pget_short_app, (hexkey_prefix_free _ r' Hk Hk'), app_nil_r. by rewrite decide_True.
      * rewrite pget_short_ne by done. rewrite decide_False; [done|]. intros ->. apply NP. by rewrite firstn_all.
  - cbn in Hk. subst k. split; [by constructor|]. split; [done|]. intros k' ->. by rewrite decide_True.
  - apply inserts_leaf; try done. by exists p.
  - apply inserts_ext; try done. intros key Hkey. by apply IH.
  - destruct (hexkey_cons_inv k Hk) as (x & r & ->). apply hexkey_step in Hk as [Hx Hr].
    rewrite pinsert_full. destruct (lookup_lt_is_Some_2 cs (Z.to_nat x) ltac:(lia)) as [c Hc].
    destruct (IH _ c Hc r v Hr Hv) as (S' & N' & G).
    split; [|split; [done|]].
    + constructor; [by rewrite length_alter| |].
      * intros i d. destruct (decide (i = Z.to_nat x)) as [->|N].
        -- rewrite list_lookup_alter_eq, Hc. by intros [= <-].
        -- rewrite list_lookup_alter_ne by done. apply Sc.
      * destruct T as (i & j & ci & cj & Nij & Hi & Hj & Ni & Nj).
        assert (A : forall n c, cs !! n = Some c -> c <> PNil ->
                   exists c', alter (fun c => pinsert c r v) (Z.to_nat x) cs !! n = Some c' /\ c' <> PNil).
        { intros n cn Hn Nn. destruct (decide (n = Z.to_nat x)) as [->|N].
          - rewrite list_lookup_alter_eq, Hc. cbn. eauto.
          - rewrite list_lookup_alter_ne by done. eauto. }
        destruct (A i ci Hi Ni) as (ci' & Hi' & Ni'), (A j cj Hj Nj) as (cj' & Hj' & Nj').
        by exists i, j, ci', cj'.
    + intros k' Hk'. destruct (hexkey_cons_inv k' Hk') as (y & r' & ->). apply hexkey_step in Hk' as [Hy Hr'].
      rewrite pget_alter by done. destruct (decide (y = x)) as [->|N].
      * rewrite Hc, G, pget_full, Hc by done.
        destruct (decide (r' = r)) as [->|N]; [by rewrite decide_True|]. rewrite decide_False; [done|congruence].
      * rewrite decide_False; [done|congruence].
Qed.

(** ** Lemmas: deletion *)

Definition deletes (b : bool) (t : ptree) (k : bytes) (t' : ptree) : Prop :=
  slot b t' /\ forall k', keyrest b k' -> pget t' k' = if decide (k' = k) then None else pget t k'.

Lemma pdelete_full cs k0 krest :
  pdelete (PFull cs) (k0 :: krest) = preduce (alter (fun c => pdelete c krest) (Z.to_nat k0) cs).
Proof.
  cbn. f_equal. generalize (Z.to_nat k0). induction cs as [|c cs IH]; intros [|n]; try done.
  cbn. f_equal. apply IH.
Qed.

Lemma ponly_found cs : forall i pos, 0 <= pos ->
  (ponly cs i pos = pos /\ forall n c, cs !! n = Some c -> c = PNil) \/
  (ponly cs i pos = -2 /\ exists n c, cs !! n = Some c /\ c <> PNil).
Proof.
  induction cs as [|c cs IH]; intros i pos Hp; [by left|].
  assert (D : c = PNil \/ c <> PNil) by (destruct c; auto; right; done).
  destruct D as [->|N].
  - cbn. destruct (IH (i + 1) pos Hp) as [[-> H]|[-> (n & d & Hn & Nd)]]; [left|right]; (split; [done|]).
    + intros [|n] d; [by intros [= <-]|apply H].
    + by exists (S n), d.
  - right. split; [|by exists O, c]. assert (Z.eqb pos (-1) = false) as E by lia.
    destruct c; [done|..]; cbn; by rewrite E.
Qed.

Lemma ponly_spec cs : forall i, 0 <= i ->
  (ponly cs i (-1) = -1 /\ forall n c, cs !! n = Some c -> c = PNil) \/
  (exists n c, ponly cs i (-1) = i + Z.of_nat n /\ cs !! n = Some c /\ c <> PNil /\
     forall m d, cs !! m = Some d -> m <> n -> d = PNil) \/
  (ponly cs i (-1) = -2 /\ two cs).
Proof.
  induction cs as [|c cs IH]; intros i Hi; [by left|].
  assert (D : c = PNil \/ c <> PNil) by (destruct c; auto; right; done).
  destruct D as [->|N].
  - cbn. destruct (IH (i + 1) ltac:(lia)) as [[-> H]|[(n & d & -> & Hn & Nd & U)|[-> (n & m & d & e & NE & Hn & Hm & Nd & Ne)]]].
    + left. split; [done|]. intros [|n] d; [by intros [= <-]|apply H].
    + right; left. exists (S n), d. split; [lia|]. split; [done|]. split; [done|].
      intros [|m] e; [by intros [= <-]|]. intros Hm NE. apply (U m e Hm). congruence.
    + right; right. split; [done|]. exists (S n), (S m), d, e. split; [lia|done].
  - assert (E : ponly (c :: cs) i (-1) = ponly cs (i + 1) i) by (by destruct c). rewrite E.
    destruct (ponly_found cs (i + 1) i Hi) as [[-> H]|[-> (n & d & Hn & Nd)]].
    + right; left. exists O, c. split; [lia|]. split; [done|]. split; [done|].
      intros [|m] e; [done|]. intros Hm _. by apply (H m e).
    + right; right. split; [done|]. exists O, (S n), c, d. split; [lia|done].
Qed.

Lemma pget_short_cons x k t y r :
  pget (PShort (x :: k) t) (y :: r) = if decide (y = x) then pget (PShort k t) r else None.
Proof.
  cbn. destruct (decide (y = x)) as [->|N].
  - destruct (decide (k = take (length k) r)) as [E|NE].
    + by rewrite !bool_decide_true by congruence.
    + by rewrite !bool_decide_false by congruence.
  - rewrite bool_decide_false by congruence. done.
Qed.

Lemma pget_short_nil t r : pget (PShort [] t) r = pget t r.
Proof. done. Qed.

Lemma preduce_spec cs :
  length cs = 17%nat -> (forall i c, cs !! i = Some c -> slot (bool_decide (i = 16%nat)) c) ->
  (exists i c, cs !! i = Some c /\ c <> PNil) ->
  slot false (preduce cs) /\ preduce cs <> PNil /\
  forall k, hexkey k -> pget (preduce cs) k = pget (PFull cs) k.
Proof.
  intros L Sc (i0 & c0 & H0 & N0). unfold preduce.
  destruct (ponly_spec cs 0 ltac:(lia)) as [[-> H]|[(n & c & -> & Hn & Nc & U)|[-> T]]]; cbn [Z.leb Z.compare].
  - by destruct (N0 (H i0 c0 H0)).
  - rewrite Z.add_0_l. zdecide. rewrite Nat2Z.id, Hn.
    pose proof (lookup_lt_Some _ _ _ Hn) as Ln. pose proof (Sc n c Hn) as S.
    assert (G : forall k, hexkey k -> pget (PFull cs) k =
       match k with [] => None | y :: r => if decide (y = Z.of_nat n) then pget c r else None end).
    { intros k Hk. destruct (hexkey_cons_inv k Hk) as (y & r & ->). apply hexkey_step in Hk as [Hy _].
      rewrite pget_full. destruct (decide (y = Z.of_nat n)) as [->|N]; [by rewrite Nat2Z.id, Hn|].
      destruct (cs !! Z.to_nat y) as [d|] eqn:Hd; [|done]. by rewrite (U (Z.to_nat y) d Hd) by lia. }
    assert (F : forall ck cv, slot false (PShort (Z.of_nat n :: ck) cv) ->
       (forall r, pget (PShort ck cv) r = pget c r) ->
       slot false (PShort (Z.of_nat n :: ck) cv) /\ PShort (Z.of_nat n :: ck) cv <> PNil /\
       forall k, hexkey k -> pget (PShort (Z.of_nat n :: ck) cv) k = pget (PFull cs) k).
    { intros ck cv S' P. split; [done|]. split; [done|]. intros k Hk. rewrite (G k Hk).
      destruct (hexkey_cons_inv k Hk) as (y & r & ->). rewrite pget_short_cons. by rewrite P. }
    destruct (decide (n = 16%nat)) as [->|N16].
    + inversion S as [|v Hv| | |]; subst; [done|]. apply F; [|done].
      by apply (slot_leaf []); [constructor|].
    + rewrite bool_decide_false in S by done.
      assert (Hnib : nibble (Z.of_nat n)) by (unfold nibble; lia).
      inversion S as [| |p v Hp Hv|ck cs' Hck NE S'|cs' L' Sc' T']; subst; [done|..].
      * zdecide. apply F; [|done]. by apply (slot_leaf (Z.of_nat n :: p)); [constructor|].
      * zdecide. apply F; [|done]. apply slot_ext; [by constructor|done|done].
      * apply F; [|done]. apply slot_ext; [repeat constructor; unfold nibble in Hnib; lia|done|done].
  - split; [by constructor|done].
Qed.

Lemma pget_short_short k ck t : forall r, pget (PShort (k ++ ck) t) r = pget (PShort k (PShort ck t)) r.
Proof.
  induction k as [|x k IH]; intros r; [done|]. destruct r as [|y r]; [done|].
  change ((x :: k) ++ ck) with (x :: (k ++ ck)). rewrite !pget_short_cons. by rewrite IH.
Qed.

Lemma pjoin_spec k t :
  nibbles k -> k <> [] -> slot false t -> t <> PNil ->
  slot false (pjoin k t) /\ forall r, pget (pjoin k t) r = pget (PShort k t) r.
Proof.
  intros Hk NE S N. inversion S as [| |p v Hp Hv|ck cs' Hck NE' S'|cs' L' Sc' T']; subst; [done|..]; cbn [pjoin].
  - split; [|apply pget_short_short]. rewrite app_assoc. apply slot_leaf; [by apply Forall_app|done].
  - split; [|apply pget_short_short]. apply slot_ext; [by apply Forall_app|by destruct k|done].
  - split; [by apply slot_ext|done].
Qed.

Lemma deletes_short_miss k u key :
  slot false (PShort k u) -> (prefixLen key k < length k)%nat -> deletes false (PShort k u) key (PShort k u).
Proof.
  intros S L. split; [done|]. intros k' Hk'. destruct (decide (k' = key)) as [->|]; [|done].
  apply pget_short_ne. intros E. assert (prefixLen key k = length k); [|lia].
  rewrite <- (take_drop (length k) key), <- E. apply prefixLen_app.
Qed.

Lemma pdelete_full_nonnil cs k0 krest :
  slot false (PFull cs) -> (forall c, cs !! Z.to_nat k0 = Some c -> 
     slot (bool_decide (Z.to_nat k0 = 16%nat)) (pdelete c krest)) ->
  slot false (pdelete (PFull cs) (k0 :: krest)) /\ pdelete (PFull cs) (k0 :: krest) <> PNil /\
  forall k, hexkey k -> pget (pdelete (PFull cs) (k0 :: krest)) k =
    pget (PFull (alter (fun c => pdelete c krest) (Z.to_nat k0) cs)) k.
Proof.
  intros S H. inversion S as [| | | |cs' L Sc T]; subst. rewrite pdelete_full. apply preduce_spec.
  - by rewrite length_alter.
  - intros i d. destruct (decide (i = Z.to_nat k0)) as [->|N].
    + rewrite list_lookup_alter_eq. destruct (cs !! Z.to_nat k0) as [c|] eqn:Hc; [|done]. intros [= <-]. by apply H.
    + rewrite list_lookup_alter_ne by done. apply Sc.
  - destruct T as (i & j & c & d & N & Hi & Hj & Ni & Nj).
    destruct (decide (i = Z.to_nat k0)) as [->|Ni'].
    + exists j, d. by rewrite list_lookup_alter_ne by done.
    + exists i, c. by rewrite list_lookup_alter_ne by done.
Qed.

Lemma pdelete_spec b t : slot b t -> forall k, keyrest b k -> deletes b t k (pdelete t k).
Proof.
  induction 1 as [b|v0 Hv0|p v0 Hp Hv0|k0 cs Hk0 NE S IH|cs L Sc IH T]; intros k Hk.
  - split; [constructor|]. intros k' _. cbn. by case_goal.
  - cbn in Hk. subst k. split; [constructor|]. intros k' ->. by rewrite decide_True.
  - assert (Hk0 : hexkey (p ++ [16])) by (by exists p).
    cbn [pdelete]. destruct (Nat.ltb_spec (prefixLen k (p ++ [16])) (length (p ++ [16]))) as [Lt|Ge].
    { apply deletes_short_miss; [by constructor|done]. }
    assert (E : prefixLen k (p ++ [16]) = length (p ++ [16])) by (pose proof (prefixLen_le k (p ++ [16])); lia).
    destruct (prefixLen_full _ _ E) as [r ->]. rewrite (hexkey_prefix_free _ r Hk0 Hk), app_nil_r in *.
    rewrite E, Nat.eqb_refl. split; [constructor|]. intros k' Hk'. cbn [pget].
    destruct (decide (k' = p ++ [16])) as [|N]; [done|]. rewrite bool_decide_false; [done|].
    intros E'. apply N. rewrite <- (take_drop (length (p ++ [16])) k'), <- E'.
    rewrite (hexkey_prefix_free (p ++ [16]) (drop (length (p ++ [16])) k')); [apply app_nil_r|done|].
    by rewrite E' at 1; rewrite take_drop.
  - cbn [pdelete]. destruct (Nat.ltb_spec (prefixLen k k0) (length k0)) as [Lt|Ge].
    { apply deletes_short_miss; [by apply slot_ext|done]. }
    assert (E : prefixLen k k0 = length k0) by (pose proof (prefixLen_le k k0); lia).
    destruct (prefixLen_full _ _ E) as [r ->]. apply hexkey_app_inv in Hk as Hr; [|done].
    destruct (hexkey_cons_inv r Hr) as (x & r' & ->).
    rewrite E, drop_app_length. destruct (Nat.eqb_spec (length k0) (length (k0 ++ x :: r'))) as [C|_].
    { rewrite length_app in C. cbn in C. lia. }
    destruct (IH (x :: r') Hr) as [S' G].
    assert (N' : pdelete (PFull cs) (x :: r') <> PNil).
    { rewrite pdelete_full. unfold preduce. repeat case_goal; done. }
    destruct (pjoin_spec k0 _ Hk0 NE S' N') as [SJ GJ]. split; [exact SJ|].
    intros k' Hk'. rewrite GJ. destruct (starts_with k0 k') as [[q ->]|NP].
    + rewrite !pget_short_app, G by (by eapply hexkey_app_inv).
      destruct (decide (q = x :: r')) as [->|N]; [by rewrite decide_True|].
      rewrite decide_False; [done|]. intros E'. by apply app_inv_head in E'.
    + rewrite !pget_short_ne by done. by case_goal.
  - destruct (hexkey_cons_inv k Hk) as (x & r & ->). apply hexkey_step in Hk as [Hx Hr].
    destruct (lookup_lt_is_Some_2 cs (Z.to_nat x) ltac:(lia)) as [c Hc].
    destruct (IH _ c Hc r Hr) as [S' G'].
    destruct (pdelete_full_nonnil cs x r) as (SD & ND & GD); [by constructor| |].
    { intros c'. rewrite Hc. by intros [= <-]. }
    split; [done|]. intros k' Hk'. rewrite GD by done.
    destruct (hexkey_cons_inv k' Hk') as (y & r' & ->). apply hexkey_step in Hk' as [Hy Hr'].
    rewrite pget_alter by done. destruct (decide (y = x)) as [->|N].
    + rewrite Hc, G', pget_full, Hc by done.
      destruct (decide (r' = r)) as [->|N]; [by rewrite decide_True|]. rewrite decide_False; [done|congruence].
    + rewrite decide_False; [done|congruence].
Qed.

(** ** Lemmas: a tree in minimal form is determined by its content *)

Lemma slot_inhabited b t : slot b t -> t <> PNil -> exists k, keyrest b k /\ pget t k <> None.
Proof.
  induction 1 as [b|v0 Hv0|p v0 Hp Hv0|k0 cs Hk0 NE S IH|cs L Sc IH T]; intros N.
  - done.
  - by exists [].
  - exists (p ++ [16]). split; [by exists p|]. rewrite <- (app_nil_r (p ++ [16])) at 2. by rewrite pget_short_app.
  - destruct IH as (r & Hr & G); [done|]. exists (k0 ++ r). split; [by apply hexkey_app|]. by rewrite pget_short_app.
  - destruct T as (i & j & c & d & _ & Hi & _ & Ni & _). destruct (IH i c Hi Ni) as (r & Hr & G).
    pose proof (lookup_lt_Some _ _ _ Hi). exists (Z.of_nat i :: r). split; [apply hexkey_intro; [lia|done]|].
    by rewrite pget_full, Nat2Z.id, Hi.
Qed.

Lemma full_two_keys cs :
  slot false (PFull cs) ->
  exists i j r r', i <> j /\ hexkey (i :: r) /\ hexkey (j :: r') /\
    pget (PFull cs) (i :: r) <> None /\ pget (PFull cs) (j :: r') <> None.
Proof.
  intros S. inversion S as [| | | |cs' L Sc T]; subst.
  destruct T as (i & j & c & d & N & Hi & Hj & Ni & Nj).
  destruct (slot_inhabited _ _ (Sc i c Hi) Ni) as (r & Hr & Gr).
  destruct (slot_inhabited _ _ (Sc j d Hj) Nj) as (r' & Hr' & Gr').
  pose proof (lookup_lt_Some _ _ _ Hi). pose proof (lookup_lt_Some _ _ _ Hj).
  exists (Z.of_nat i), (Z.of_nat j), r, r'. split; [lia|].
  split; [apply hexkey_intro; [lia|done]|]. split; [apply hexkey_intro; [lia|done]|].
  by rewrite !pget_full, !Nat2Z.id, Hi, Hj.
Qed.

Lemma pget_short_prefix k t key : pget (PShort k t) key <> None -> exists r, key = k ++ r.
Proof. intros H. destruct (starts_with k key) as [|NP]; [done|]. by rewrite pget_short_ne in H. Qed.

Lemma pget_leaf_key p v key : hexkey key -> pget (PShort (p ++ [16]) (PVal v)) key <> None -> nibbles p -> key = p ++ [16].
Proof.
  intros Hk H Hp. apply pget_short_prefix in H as [r ->].
  rewrite (hexkey_prefix_free (p ++ [16]) r); [apply app_nil_r|by exists p|done].
Qed.

Lemma common_prefix (k' k a b r r' : bytes) i j :
  k ++ i :: r = k' ++ a -> k ++ j :: r' = k' ++ b -> i <> j -> exists s, k = k' ++ s.
Proof.
  revert k. induction k' as [|x k' IH]; intros k E1 E2 N; [by exists k|].
  destruct k as [|y k]; cbn in *; [congruence|]. injection E1 as -> E1. injection E2 as E2.
  destruct (IH k E1 E2 N) as [s ->]. by exists s.
Qed.

(** Below a fragment [k], a full node has two keys that differ right after [k]. *)
Lemma ext_two_keys k cs :
  nibbles k -> slot false (PFull cs) ->
  exists i j r r', i <> j /\ hexkey (k ++ i :: r) /\ hexkey (k ++ j :: r') /\
    pget (hang k (PFull cs)) (k ++ i :: r) <> None /\ pget (hang k (PFull cs)) (k ++ j :: r') <> None.
Proof.
  intros Hk S. destruct (full_two_keys cs S) as (i & j & r & r' & N & Hi & Hj & Gi & Gj).
  exists i, j, r, r'. rewrite !pget_hang_app. split; [done|]. split; [by apply hexkey_app|].
  split; [by apply hexkey_app|]. done.
Qed.

Lemma leaf_not_ext p v k cs :
  nibbles p -> nibbles k -> slot false (PFull cs) ->
  ~ (forall key, hexkey key -> pget (PShort (p ++ [16]) (PVal v)) key = pget (hang k (PFull cs)) key).
Proof.
  intros Hp Hk S E. destruct (ext_two_keys k cs Hk S) as (i & j & r & r' & N & Hi & Hj & Gi & Gj).
  rewrite <- E in Gi, Gj by done. apply pget_leaf_key in Gi; [|done..]. apply pget_leaf_key in Gj; [|done..].
  rewrite <- Gj in Gi. apply app_inv_head in Gi. congruence.
Qed.

Lemma ext_same k1 cs1 k2 cs2 :
  nibbles k1 -> nibbles k2 -> slot false (PFull cs1) -> slot false (PFull cs2) ->
  (forall key, hexkey key -> pget (hang k1 (PFull cs1)) key = pget (hang k2 (PFull cs2)) key) -> k1 = k2.
Proof.
  intros H1 H2 S1 S2 E.
  assert (G : forall k cs k' cs', nibbles k -> slot false (PFull cs) ->
     (forall key, hexkey key -> pget (hang k (PFull cs)) key = pget (hang k' (PFull cs')) key) ->
     exists s, k = k' ++ s).
  { intros k cs k' cs' Hk S E'. destruct (ext_two_keys k cs Hk S) as (i & j & r & r' & N & Hi & Hj & Gi & Gj).
    rewrite E' in Gi, Gj by done. rewrite pget_hang in Gi, Gj.
    apply pget_short_prefix in Gi as [a Ea]. apply pget_short_prefix in Gj as [b Eb].
    exact (common_prefix k' k a b r r' i j Ea Eb N). }
  destruct (G k1 cs1 k2 cs2 H1 S1 E) as [s ->].
  destruct (G k2 cs2 (k2 ++ s) cs1 H2 S2) as [s' E']; [intros; symmetry; by apply E|].
  apply (f_equal length) in E'. rewrite !length_app in E'. destruct s; [by rewrite app_nil_r|cbn in E'; lia].
Qed.

Lemma pget_leaf_self k v : pget (PShort k (PVal v)) k = Some v.
Proof. rewrite <- (app_nil_r k) at 2. by rewrite pget_short_app. Qed.

Lemma slot_unique b t1 :
  slot b t1 -> forall t2, slot b t2 -> (forall k, keyrest b k -> pget t1 k = pget t2 k) -> t1 = t2.
Proof.
  assert (Nil : forall b t, slot b t -> (forall k, keyrest b k -> pget t k = None) -> t = PNil).
  { intros b' t S E. destruct t; [done|..]; exfalso;
      (destruct (slot_inhabited _ _ S) as (k' & Hk & G); [done|]; by rewrite E in G). }
  induction 1 as [b|v0 Hv0|p v0 Hp Hv0|k0 cs Hk0 NE S IH|cs L Sc IH T]; intros t2 S2 E.
  - symmetry. apply (Nil b); [done|]. intros k Hk. by rewrite <- E.
  - specialize (E [] eq_refl). inversion S2; subst; cbn in E; congruence.
  - inversion S2 as [|v Hv|q v Hq Hv|k cs Hk NEk Sk|cs L Sc T]; subst.
    + exfalso. specialize (E (p ++ [16]) ltac:(by exists p)). by rewrite pget_leaf_self in E.
    + assert (Hpk : hexkey (p ++ [16])) by (by exists p). pose proof (E (p ++ [16]) Hpk) as Ep.
      rewrite pget_leaf_self in Ep.
      assert (Epq : p ++ [16] = q ++ [16]) by (apply (pget_leaf_key q v); [done|by rewrite <- Ep|done]).
      rewrite Epq, pget_leaf_self in Ep. rewrite Epq. by injection Ep as ->.
    + exfalso. apply (leaf_not_ext p v0 k cs Hp Hk Sk). intros key Hkey. rewrite E by done. by rewrite pget_hang.
    + exfalso. apply (leaf_not_ext p v0 [] cs Hp ltac:(constructor) S2). exact E.
  - inversion S2 as [|v Hv|q v Hq Hv|k cs' Hk NEk Sk|cs' L Sc T]; subst.
    + apply (Nil false); [by apply slot_ext|]. exact E.
    + exfalso. apply (leaf_not_ext q v k0 cs Hq Hk0 S). intros key Hkey. rewrite <- E by done. by rewrite pget_hang.
    + assert (k0 = k) as <-.
      { apply (ext_same k0 cs k cs' Hk0 Hk S Sk). intros key Hkey. by rewrite !pget_hang, E. }
      f_equal. apply IH; [done|]. intros r Hr. specialize (E (k0 ++ r) (hexkey_app _ _ Hk0 Hr)).
      by rewrite !pget_short_app in E.
    + exfalso. apply NE. apply (ext_same k0 cs [] cs' Hk0 ltac:(constructor) S S2).
      intros key Hkey. rewrite pget_hang. by rewrite E.
  - assert (SF : slot false (PFull cs)) by (by constructor).
    inversion S2 as [|v Hv|q v Hq Hv|k cs' Hk NEk Sk|cs' L' Sc' T']; subst.
    + apply (Nil false); [done|exact E].
    + exfalso. apply (leaf_not_ext q v [] cs Hq ltac:(constructor) SF). intros key Hkey. by rewrite <- E.
    + exfalso. apply NEk. symmetry. apply (ext_same [] cs k cs' ltac:(constructor) Hk SF Sk).
      intros key Hkey. rewrite (pget_hang k). by rewrite <- E.
    + f_equal. apply list_eq. intros i. destruct (decide (i < 17)%nat) as [Li|Li].
      2: { by rewrite !lookup_ge_None_2 by lia. }
      destruct (lookup_lt_is_Some_2 cs i ltac:(lia)) as [c Hc].
      destruct (lookup_lt_is_Some_2 cs' i ltac:(lia)) as [c' Hc'].
      rewrite Hc, Hc'. f_equal. apply (IH i c Hc c' (Sc' i c' Hc')). intros k Hk.
      specialize (E (Z.of_nat i :: k) (hexkey_intro i k Li Hk)).
      by rewrite !pget_full, !Nat2Z.id, Hc, Hc' in E.
Qed.
