(* ===== verification/TrieRefine.v ===== *)
(** * Package [trie]: the trie implements a finite map

    Simulation of the operations of [Trie] by those of the reference trees of
    [TrieModel]: a node, with the nodes its hash references load from the database,
    represents a tree, and lookup, insertion and deletion on it do what the tree
    operations do, whatever parts are loaded. *)

From S2P Require Import Prelude Rlp TrieEncoding Common Trie TrieModel.

(** ** Representation *)

(** What loading a hash reference returns. *)
Definition loaded (n : node) : Prop :=
  match n with shortNode _ _ _ | fullNode _ _ => True | _ => False end.

Section Representation.

(** What is known of the cache flags of a node, and of a hash reference, that stand for
    a tree; the boolean says that the node is the root of the trie.  New flags say
    nothing, and the generation counter does not matter. *)
Context (FI : bool -> nodeFlag -> ptree -> Prop) (HI : bool -> bytes -> ptree -> Prop).
Context (FI_new : forall r gen t, FI r (newFlag gen) t).
Context (FI_gen : forall r gen f t, FI r f t -> FI r (set_gen gen f) t).
Context (db : database).

Inductive rep : bool -> node -> ptree -> Prop :=
| rep_nil r : rep r Nil PNil
| rep_val r v : rep r (valueNode v) (PVal v)
| rep_short r k n t f : FI r f (PShort k t) -> rep false n t -> rep r (shortNode k n f) (PShort k t)
| rep_full r cs ts f :
    FI r f (PFull ts) -> length cs = length ts ->
    (forall i c t, cs !! i = Some c -> ts !! i = Some t -> rep false c t) ->
    rep r (fullNode cs f) (PFull ts)
| rep_hash r h nf t :
    HI r h t -> (forall gen p, resolveHash db gen h p = Ok (nf gen)) ->
    (forall gen, loaded (nf gen)) -> (forall gen, rep r (nf gen) t) ->
    rep r (hashNode h) t.

Definition is_hashNode (n : node) : bool := match n with hashNode _ => true | _ => false end.

Definition need (n : node) (k : bytes) : nat := S (2 * length k + (if is_hashNode n then 1 else 0)).

(** ** Lemmas *)

Lemma rep_PNil r n : rep r n PNil <-> n = Nil.
Proof.
  split; [|intros ->; constructor]. intros R. inversion R as [| | | |r' h nf t Ph RH L Rn]; subst; [done|].
  specialize (L 0). specialize (Rn 0). destruct (nf 0); try done; inversion Rn.
Qed.

Lemma rep_PVal r n v : rep r n (PVal v) <-> n = valueNode v.
Proof.
  split; [|intros ->; constructor]. intros R. inversion R as [| | | |r' h nf t Ph RH L Rn]; subst; [done|].
  specialize (L 0). specialize (Rn 0). destruct (nf 0); try done; inversion Rn.
Qed.

Lemma rep_full_set cs ts i c t :
  0 <= i -> rep false c t -> length cs = length ts ->
  (forall i c t, cs !! i = Some c -> ts !! i = Some t -> rep false c t) ->
  length (set_child cs i c) = length (pset ts i t) /\
  forall j c' t', set_child cs i c !! j = Some c' -> pset ts i t !! j = Some t' -> rep false c' t'.
Proof.
  intros Hi R L H. unfold set_child, pset. split; [by rewrite !length_insert|]. intros j c' t'.
  destruct (decide (Z.to_nat i = j)) as [<-|N].
  - intros A B. apply list_lookup_insert_Some in A as [(_ & -> & _)|[? _]]; [|done].
    by apply list_lookup_insert_Some in B as [(_ & -> & _)|[? _]].
  - rewrite !list_lookup_insert_ne by done. apply H.
Qed.

Lemma alter_pset (f : ptree -> ptree) ts i t :
  ts !! Z.to_nat i = Some t -> alter f (Z.to_nat i) ts = pset ts i (f t).
Proof.
  intros H. unfold pset. apply list_eq. intros j. destruct (decide (j = Z.to_nat i)) as [->|N].
  - rewrite list_lookup_alter_eq, H. rewrite list_lookup_insert_eq; [done|]. by eapply lookup_lt_Some.
  - by rewrite list_lookup_alter_ne, list_lookup_insert_ne by done.
Qed.

Lemma child_rep cs ts i t :
  length cs = length ts -> (forall i c t, cs !! i = Some c -> ts !! i = Some t -> rep false c t) ->
  ts !! Z.to_nat i = Some t -> exists c, child cs i = Ok c /\ cs !! Z.to_nat i = Some c /\ rep false c t.
Proof.
  intros L H Ht. destruct (lookup_lt_is_Some_2 cs (Z.to_nat i)) as [c Hc].
  { rewrite L. by eapply lookup_lt_Some. }
  exists c. unfold child. rewrite Hc. split; [done|]. split; [done|]. by eapply H.
Qed.

Lemma insert_nil fuel gen p k x :
  (0 < fuel)%nat ->
  insert fuel db gen Nil p k x = Ok (true, match k with [] => x | _ => shortNode k x (newFlag gen) end).
Proof. intros H. destruct fuel; [lia|]. cbn. by destruct k. Qed.

Lemma rep_hang gen k n t :
  rep false n t -> rep false (match k with [] => n | _ => shortNode k n (newFlag gen) end) (hang k t).
Proof. intros R. destruct k; [done|]. by constructor. Qed.

Lemma rep_branch r gen i c t j d u :
  0 <= i -> 0 <= j -> rep false c t -> rep false d u ->
  rep r (fullNode (set_child (set_child (replicate 17 Nil) i c) j d) (newFlag gen)) (pbranch i t j u).
Proof.
  intros Hi Hj Rc Rd.
  destruct (rep_full_set (replicate 17 Nil) (replicate 17 PNil) i c t Hi Rc) as [L1 H1].
  { done. }
  { intros n x y Hx Hy. apply lookup_replicate in Hx as [-> _]. apply lookup_replicate in Hy as [-> _]. constructor. }
  destruct (rep_full_set _ _ j d u Hj Rd L1 H1) as [L2 H2]. by constructor.
Qed.

(** ** Insertion *)

Definition sim_insert (r : bool) (t : ptree) (k v : bytes) (res : outcome trie_error (bool * node)) : Prop :=
  exists d n', res = Ok (d, n') /\ rep r n' (pinsert t k v) /\ (d = false -> pinsert t k v = t).

Lemma insert_short_sim rt fuel gen k n u f prefix key v :
  FI rt f (PShort k u) -> rep false n u -> frag false k u -> hexkey key -> v <> [] -> (2 * length key < S fuel)%nat ->
  (forall r p, key = k ++ r -> sim_insert false u r v (insert fuel db gen n p r (valueNode v))) ->
  sim_insert rt (PShort k u) key v (insert (S fuel) db gen (shortNode k n f) prefix key (valueNode v)).
Proof.
  intros Ff R F Hkey Hv Hf IH. destruct (hexkey_cons_inv key Hkey) as (x & kr & Ekey).
  cbn [insert]. rewrite Ekey. rewrite <- Ekey.
  destruct (Nat.eqb_spec (prefixLen key k) (length k)) as [E|NE].
  - destruct (prefixLen_full key k E) as [r Er].
    assert (EP : pinsert (PShort k u) key v = PShort k (pinsert u r v)).
    { cbn [pinsert]. rewrite Ekey, <- Ekey, E, Nat.eqb_refl, Er. by rewrite drop_app_length. }
    unfold sim_insert. rewrite EP. rewrite E.
    replace (drop (length k) key) with r by (rewrite Er; by rewrite drop_app_length).
    destruct (IH r (prefix ++ take (length k) key) Er) as (d & n' & -> & R' & D).
    cbn. destruct d; eexists _, _; (split; [reflexivity|]); (split; [|try done]).
    + by constructor.
    + rewrite D by done. by constructor.
    + intros _. by rewrite D.
  - assert (L : (prefixLen key k < length k)%nat) by (pose proof (prefixLen_le key k); lia).
    pose proof (frag_key_longer k _ key F Hkey L) as L2.
    destruct (prefixLen_split key k L L2) as (com & ki & k1 & kj & k2 & E1 & E2 & N & E3).
    pose proof (pinsert_split k u key v com ki k1 kj k2 E1 E2 N E3) as EP.
    unfold sim_insert. rewrite EP, E3. clear EP.
    rewrite E1 in F. pose proof (frag_prefix com ki k1 u F) as Hcom.
    apply frag_app in F as F1; [|done]. apply frag_step in F1 as [Hi _].
    rewrite E2 in Hkey. apply hexkey_app_inv in Hkey as H2; [|done]. apply hexkey_step in H2 as [Hj _].
    assert (M : forall x r, (com ++ x :: r) !! length com = Some x /\ drop (length com + 1) (com ++ x :: r) = r
                            /\ take (length com) (com ++ x :: r) = com).
    { intros y r. split; [by rewrite lookup_app_r, Nat.sub_diag by lia|]. split; [|apply take_app_length].
      rewrite drop_app_ge by lia. by replace (length com + 1 - length com)%nat with 1%nat by lia. }
    rewrite E1, E2. destruct (M ki k1) as (-> & -> & _). destruct (M kj k2) as (-> & -> & ->).
    rewrite !insert_nil by lia. cbn. zdecide. cbn [orb].
    assert (Rb : forall rt', rep rt' (fullNode (set_child (set_child (replicate 17 Nil) ki
         (match k1 with [] => n | _ => shortNode k1 n (newFlag gen) end)) kj
         (match k2 with [] => valueNode v | _ => shortNode k2 (valueNode v) (newFlag gen) end)) (newFlag gen))
         (pbranch ki (hang k1 u) kj (hang k2 (PVal v)))).
    { intros rt'. apply rep_branch; [lia|lia|by apply rep_hang|apply rep_hang; constructor]. }
    destruct com as [|y com]; cbn; eexists _, _; (split; [reflexivity|]); (split; [|done]); [apply Rb|by constructor].
Qed.

Lemma insert_sim rt n t :
  rep rt n t -> forall b fuel gen prefix k v,
  slot b t -> keyrest b k -> v <> [] -> (need n k <= fuel)%nat ->
  sim_insert rt t k v (insert fuel db gen n prefix k (valueNode v)).
Proof.
  unfold need.
  induction 1 as [rt|rt v0|rt k0 n t f Ff R IH|rt cs ts f Ff L R IH|rt h nf t Ph RH Ld R IH]; intros b fuel gen prefix k v S Hk Hv Hf;
    (destruct fuel as [|fuel]; [lia|]).
  - destruct k as [|x k]; cbn; eexists _, _; (split; [reflexivity|]); (split; [by repeat constructor|done]).
  - inversion S; subst. cbn in Hk. subst k. cbn. eexists _, _. split; [reflexivity|]. split; [constructor|].
    intros D. apply negb_false_iff, bool_decide_eq_true in D. by subst.
  - assert (Fr : b = false /\ frag false k0 t /\ exists b', slot b' t /\ forall r, k = k0 ++ r -> keyrest b' r).
    { inversion S as [| |p v0 Hp Hv0|k0' cs Hk0 NE S'|]; subst; (split; [done|]).
      - cbn in Hk. assert (H0 : hexkey (p ++ [16])) by (by exists p).
        split; [left; eauto|]. exists true. split; [by constructor|].
        intros r ->. by apply (hexkey_prefix_free (p ++ [16])).
      - split; [right; eauto|]. exists false. split; [done|]. intros r ->. by eapply hexkey_app_inv. }
    destruct Fr as (-> & F & b' & Sb & Kb). apply insert_short_sim; try done; [lia|].
    intros r p Er. apply (IH b'); try done; [by apply Kb|].
    rewrite Er, length_app in Hf. destruct k0 as [|y k0].
    { destruct F as [(w & _ & _ & C)|(w & -> & _ & _ & C)]; [by destruct (hexkey_nil C)|].
      by inversion S. }
    cbn [length] in Hf. cbn [is_hashNode] in Hf. destruct (is_hashNode n); lia.
  - inversion S as [| | | |ts' L' Sc T]; subst. destruct (hexkey_cons_inv k Hk) as (x & r & ->).
    apply hexkey_step in Hk as [Hx Hr].
    destruct (lookup_lt_is_Some_2 ts (Z.to_nat x) ltac:(lia)) as [t Ht].
    destruct (child_rep cs ts x t L R Ht) as (c & Ec & Hc & Rc).
    destruct (IH _ c t Hc Ht _ fuel gen (prefix ++ [x]) r v (Sc _ _ Ht) Hr Hv) as (d & n' & E & R' & D).
    { cbn [length is_hashNode] in Hf. destruct (is_hashNode c); lia. }
    unfold sim_insert. rewrite pinsert_full, (alter_pset _ ts x t Ht).
    cbn [insert]. rewrite Ec. cbn. rewrite E. cbn.
    destruct (rep_full_set cs ts x n' _ ltac:(lia) R' L R) as [L2 H2].
    destruct d; eexists _, _; (split; [reflexivity|]); [split; [by constructor|done]|].
    rewrite D by done. assert (P : pset ts x t = ts) by (by apply list_insert_id). rewrite P.
    split; [by constructor|done].
  - destruct (hexkey_cons_inv k) as (x & r & ->).
    { destruct b; [|done]. specialize (Ld 0). specialize (R 0). inversion S; subst;
        destruct (nf 0); try done; inversion R. }
    destruct (IH gen b fuel gen prefix (x :: r) v S Hk Hv) as (d & n' & E & R' & D).
    { specialize (Ld gen). destruct (nf gen); cbn [is_hashNode] in *; try done; lia. }
    cbn [insert]. rewrite RH. cbn [mbind outcome_bind]. rewrite E. unfold sim_insert. cbn.
    destruct d; eexists _, _; (split; [reflexivity|]); [done|]. rewrite D by done. split; [apply R|done].
Qed.

(** ** Lookup *)

Definition sim_get (rt : bool) (t : ptree) (k : bytes) (res : outcome trie_error (option bytes * node * bool)) : Prop :=
  exists n' d, res = Ok (pget t k, n', d) /\ rep rt n' t.

(** The test of [tryGet] for a short node. *)
Lemma short_test (key : bytes) pos (k : bytes) :
  k <> [] ->
  (len key - Z.of_nat pos <? len k) || negb (bool_decide (k = take (length k) (drop pos key)))
  = negb (bool_decide (k = take (length k) (drop pos key))).
Proof.
  intros NE. destruct (decide (k = take (length k) (drop pos key))) as [E|N].
  - assert (0 < length k)%nat by (destruct k; [done|cbn; lia]). rewrite !bool_decide_true by done. rewrite orb_false_r. apply Z.ltb_ge.
    apply (f_equal length) in E. rewrite length_take, length_drop in E. unfold len. lia.
  - by rewrite !bool_decide_false, orb_true_r by done.
Qed.

Lemma tryGet_sim rt n t :
  rep rt n t -> forall b fuel gen key pos,
  slot b t -> keyrest b (drop pos key) -> (need n (drop pos key) <= fuel)%nat ->
  sim_get rt t (drop pos key) (tryGet fuel db gen n key pos).
Proof.
  unfold need.
  induction 1 as [rt|rt v0|rt k0 n t f Ff R IH|rt cs ts f Ff L R IH|rt h nf t Ph RH Ld R IH]; intros b fuel gen key pos S Hk Hf;
    (destruct fuel as [|fuel]; [lia|]); cbn [tryGet].
  - eexists _, _. split; [reflexivity|constructor].
  - eexists _, _. split; [reflexivity|constructor].
  - rewrite short_test by (inversion S; [by destruct p|done]). unfold sim_get. cbn [pget].
    destruct (decide (k0 = take (length k0) (drop pos key))) as [E|N].
    2: { rewrite !bool_decide_false by done. cbn. eexists _, _. split; [reflexivity|by constructor]. }
    rewrite bool_decide_true by done. cbn [negb].
    assert (Fr : exists b', slot b' t /\ keyrest b' (drop (length k0) (drop pos key)) /\ (0 < length k0)%nat).
    { rewrite <- (take_drop (length k0) (drop pos key)), <- E in Hk.
      inversion S as [| |p v0 Hp Hv0|k0' cs Hk0 NE S'|]; subst; cbn in Hk.
      - exists true. split; [by constructor|]. split; [|rewrite length_app; cbn; lia].
        apply (hexkey_prefix_free (p ++ [16])); [by exists p|done].
      - exists false. split; [done|]. split; [by eapply hexkey_app_inv|]. destruct k0; [done|cbn; lia]. }
    destruct Fr as (b' & Sb & Kb & L0). rewrite drop_drop in Kb.
    destruct (IH b' fuel gen key (pos + length k0)%nat Sb Kb) as (n' & d & -> & R').
    { rewrite length_drop in *. apply (f_equal length) in E. rewrite length_take, length_drop in E.
      cbn [is_hashNode] in Hf. destruct (is_hashNode n); lia. }
    cbn. rewrite drop_drop. destruct d; eexists _, _; (split; [reflexivity|constructor; auto]).
  - inversion S as [| | | |ts' L' Sc T]; subst. destruct (hexkey_cons_inv _ Hk) as (x & r & Ek).
    assert (Hx : key !! pos = Some x) by (rewrite <- (Nat.add_0_r pos), <- lookup_drop, Ek; done).
    assert (Er : drop (pos + 1) key = r).
    { rewrite <- drop_drop, Ek. done. }
    rewrite Ek in Hk, Hf |- *. rewrite Hx. apply hexkey_step in Hk as [Hx' Hr].
    destruct (lookup_lt_is_Some_2 ts (Z.to_nat x) ltac:(lia)) as [t Ht].
    destruct (child_rep cs ts x t L R Ht) as (c & Ec & Hc & Rc). rewrite Ec. cbn [mbind outcome_bind].
    destruct (IH _ c t Hc Ht _ fuel gen key (pos + 1)%nat (Sc _ _ Ht)) as (n' & d & E & R').
    { by rewrite Er. }
    { rewrite Er. cbn [length is_hashNode] in Hf. destruct (is_hashNode c); lia. }
    unfold sim_get. rewrite pget_full, Ht, E. cbn. rewrite Er.
    destruct (rep_full_set cs ts x n' t ltac:(lia) R' L R) as [L2 H2].
    assert (P : pset ts x t = ts) by (by apply list_insert_id). rewrite P in L2, H2.
    destruct d; eexists _, _; (split; [reflexivity|constructor; auto]).
  - destruct (IH gen b fuel gen key pos S Hk) as (n' & d & E & R').
    { specialize (Ld gen). destruct (nf gen); cbn [is_hashNode] in *; try done; lia. }
    rewrite RH. cbn [mbind outcome_bind]. rewrite E. eexists _, _. split; [reflexivity|done].
Qed.

(** ** Deletion *)

Definition sim_delete (rt : bool) (t : ptree) (k : bytes) (res : outcome trie_error (bool * node)) : Prop :=
  exists d n', res = Ok (d, n') /\ rep rt n' (pdelete t k) /\
    (d = false -> pdelete t k = t) /\ (d = true -> is_hashNode n' = false).

Lemma only_child_sim cs : forall ts i pos,
  length cs = length ts -> (forall i c t, cs !! i = Some c -> ts !! i = Some t -> rep false c t) ->
  only_child cs i pos = ponly ts i pos.
Proof.
  induction cs as [|c cs IH]; intros [|t ts] i pos L H; try done.
  assert (IH' : forall i pos, only_child cs i pos = ponly ts i pos).
  { intros. apply IH; [by injection L|]. intros n c' t' Hc Ht. by apply (H (S n)). }
  pose proof (H O c t eq_refl eq_refl) as R. cbn [only_child ponly].
  destruct t; [apply rep_PNil in R as ->; apply IH'|..];
    (destruct c; [by inversion R|..]); cbn; destruct (pos =? -1); auto.
Qed.

Lemma preduce_two ts : two ts -> preduce ts = PFull ts.
Proof.
  intros T. unfold preduce. destruct (ponly_spec ts 0 ltac:(lia)) as [[-> H]|[(n & c & -> & Hn & Nc & U)|[-> _]]]; try done.
  exfalso. destruct T as (i & j & c1 & c2 & N & Hi & Hj & Ni & Nj).
  destruct (decide (i = n)) as [->|]; [by apply Nj, (U j)|by apply Ni, (U i)].
Qed.

(** Loading a child just to see whether it is a short node. *)
Lemma resolve_rep rt gen c t p :
  rep rt c t -> exists n, resolve db gen c p = Ok n /\ rep rt n t /\ is_hashNode n = false.
Proof.
  intros R. inversion R as [|? v|? k n t' f Ff Rn|? cs ts f Ff L Rc|? h nf t' Ph RH Ld Rn]; subst; try (by eexists).
  exists (nf gen). cbn. split; [apply RH|]. split; [done|]. specialize (Ld gen). by destruct (nf gen).
Qed.

(** The full node after the deletion below it is reduced as the tree is. *)
Lemma reduce_sim rt gen cs ts p :
  length cs = length ts -> length ts = 17%nat ->
  (forall i c t, cs !! i = Some c -> ts !! i = Some t -> rep false c t) ->
  exists n', (let pos := only_child cs 0 (-1) in
      if 0 <=? pos then
        c ← child cs pos;
        let one := Ok (true, shortNode [pos] c (newFlag gen)) in
        if negb (pos =? 16) then
          cnode ← resolve db gen c p;
          match cnode with
          | shortNode ck cv _ => Ok (true, shortNode (pos :: ck) cv (newFlag gen))
          | _ => one
          end
        else one
      else Ok (true, fullNode cs (newFlag gen))) = Ok (true, n') /\
    rep rt n' (preduce ts) /\ is_hashNode n' = false.
Proof.
  intros L L17 H. rewrite (only_child_sim cs ts 0 (-1) L H). unfold preduce. cbv zeta.
  destruct (Z.leb_spec 0 (ponly ts 0 (-1))) as [P|P].
  2: { eexists. split; [reflexivity|]. split; [by constructor|done]. }
  destruct (ts !! Z.to_nat (ponly ts 0 (-1))) as [t|] eqn:Ht.
  - destruct (child_rep cs ts _ t L H Ht) as (c & -> & Hc & Rc). cbn [mbind outcome_bind].
    destruct (ponly ts 0 (-1) =? 16) eqn:E16; cbn [negb].
    + eexists. split; [reflexivity|]. split; [|done]. destruct t; by repeat constructor.
    + destruct (resolve_rep false gen c t p Rc) as (n & -> & Rn & NH). cbn [mbind outcome_bind].
      inversion Rn as [|? v|? k n1 t' f Ff Rn1|? cs' ts' f Ff L' Rc'|? h nf t' Ph RH Ld Rn1]; subst; try done;
        (eexists; split; [reflexivity|]); (split; [by constructor|done]).
  - exfalso. apply lookup_ge_None in Ht.
    destruct (ponly_spec ts 0 ltac:(lia)) as [[E _]|[(n & c & E & Hn & _)|[E _]]]; [lia| |lia].
    apply lookup_lt_Some in Hn. lia.
Qed.

Lemma delete_sim rt n t :
  rep rt n t -> forall b fuel gen prefix k,
  slot b t -> keyrest b k -> (need n k <= fuel)%nat ->
  sim_delete rt t k (delete fuel db gen n prefix k).
Proof.
  unfold need.
  induction 1 as [rt|rt v0|rt k0 n t f Ff R IH|rt cs ts f Ff L R IH|rt h nf t Ph RH Ld R IH]; intros b fuel gen prefix k S Hk Hf;
    (destruct fuel as [|fuel]; [lia|]); cbn [delete].
  - eexists _, _. split; [reflexivity|]. split; [constructor|done].
  - eexists _, _. split; [reflexivity|]. split; [constructor|done].
  - unfold sim_delete. cbn [pdelete].
    destruct (Nat.ltb_spec (prefixLen k k0) (length k0)) as [Lt|Ge].
    { eexists _, _. split; [reflexivity|]. split; [by constructor|done]. }
    assert (E : prefixLen k k0 = length k0) by (pose proof (prefixLen_le k k0); lia). rewrite E.
    destruct (Nat.eqb_spec (length k0) (length k)) as [El|Nl].
    { eexists _, _. split; [reflexivity|]. split; [constructor|done]. }
    destruct (prefixLen_full k k0 E) as [r ->]. rewrite drop_app_length.
    inversion S as [| |p v0 Hp Hv0|k0' ts Hk0 NE S'|]; subst; cbn in Hk.
    { exfalso. apply Nl. rewrite (hexkey_prefix_free (p ++ [16]) r); [by rewrite app_nil_r|by exists p|done]. }
    apply hexkey_app_inv in Hk; [|done].
    destruct (IH false fuel gen (prefix ++ take (length k0) (k0 ++ r)) r S' Hk) as (d & n' & -> & R' & D & NH).
    { rewrite length_app in Hf. destruct k0; [done|]. cbn [length is_hashNode] in Hf. destruct (is_hashNode n); lia. }
    cbn [mbind outcome_bind]. destruct d.
    + specialize (NH eq_refl). unfold pjoin. clear D. revert R'. generalize (pdelete (PFull ts) r) as td. intros td R'.
      inversion R' as [|? v|? k n1 t' f' Ff' Rn1|? cs' ts' f' Ff' L' Rc'|? h nf t' Ph RH Ld Rn1 E']; subst; try done;
        (eexists _, _; split; [reflexivity|]); (split; [by constructor|done]).
    + rewrite D by done. eexists _, _. split; [reflexivity|]. split; [by constructor|done].
  - inversion S as [| | | |ts' L' Sc T]; subst. destruct (hexkey_cons_inv k Hk) as (x & r & ->).
    apply hexkey_step in Hk as [Hx Hr].
    destruct (lookup_lt_is_Some_2 ts (Z.to_nat x) ltac:(lia)) as [t Ht].
    destruct (child_rep cs ts x t L R Ht) as (c & Ec & Hc & Rc).
    destruct (IH _ c t Hc Ht _ fuel gen (prefix ++ [x]) r (Sc _ _ Ht) Hr) as (d & n' & E & R' & D & NH).
    { cbn [length is_hashNode] in Hf. destruct (is_hashNode c); lia. }
    unfold sim_delete. rewrite pdelete_full, (alter_pset _ ts x t Ht), Ec. cbn [mbind outcome_bind]. rewrite E.
    cbn [mbind outcome_bind]. destruct d.
    + destruct (rep_full_set cs ts x n' _ ltac:(lia) R' L R) as [L2 H2].
      destruct (reduce_sim rt gen _ _ prefix L2 ltac:(by rewrite length_pset) H2) as (n2 & E2 & R2 & NH2).
      exists true, n2. split; [exact E2|]. done.
    + rewrite D by done. assert (P : pset ts x t = ts) by (by apply list_insert_id). rewrite P, preduce_two by done.
      eexists _, _. split; [reflexivity|]. split; [by constructor|done].
  - destruct (IH gen b fuel gen prefix k S Hk) as (d & n' & E & R' & D & NH).
    { specialize (Ld gen). destruct (nf gen); cbn [is_hashNode] in *; try done; lia. }
    rewrite RH. cbn [mbind outcome_bind]. rewrite E. unfold sim_delete. cbn.
    destruct d; eexists _, _; (split; [reflexivity|]); [done|]. rewrite D by done. split; [apply R|done].
Qed.


End Representation.
