(* ===== verification/TrieHash.v ===== *)
(** * Package [trie]: hashing and committing

    The reference Merkle encoding of a tree, and the simulation of the node decoder and
    of the hasher: the root hash is a function of the content of the trie, and what
    [CommitTo] writes to the database is enough to load the trie again. *)

From S2P Require Import Prelude Rlp RlpStream TrieEncoding Common Codec Trie TrieModel TrieRefine.

Section Merkle.
Context {HS : Hasher}.

(** ** The reference encoding *)

Definition compact (k : bytes) : bytes := match @hexToCompact unit k with Ok c => c | _ => [] end.

(** A subtree inside its parent: by its encoding when that is short, by hash otherwise. *)
Definition mref (e : bytes) (t : ptree) : bytes :=
  match t with
  | PNil | PVal _ => e
  | _ => if len e <? 32 then e else enc_string (keccak256 e)
  end.

Fixpoint menc (t : ptree) : bytes :=
  match t with
  | PNil => enc_string []
  | PVal v => enc_string v
  | PShort k u => enc_list (enc_string (compact k) ++ mref (menc u) u)
  | PFull cs => enc_list (concat (map (fun c => mref (menc c) c) cs))
  end.

Definition mroot (t : ptree) : bytes :=
  match t with PNil => emptyRoot | _ => keccak256 (menc t) end.

Definition inner (t : ptree) : Prop := match t with PShort _ _ | PFull _ => True | _ => False end.

Lemma mroot_inner t : inner t -> mroot t = keccak256 (menc t).
Proof. by destruct t. Qed.

(** Subtrees, the tree itself included. *)
Inductive below : ptree -> ptree -> Prop :=
| below_refl t : below t t
| below_short u k t : below u t -> below u (PShort k t)
| below_full u cs i c : cs !! i = Some c -> below u c -> below u (PFull cs).

(** Sizes for which the encoder's 64-bit lengths suffice. *)
Inductive sized : ptree -> Prop :=
| sized_nil : sized PNil
| sized_val v : bytes_ok v -> len v < 2 ^ 32 -> sized (PVal v)
| sized_short k t : hexfrag k -> len k < 2 ^ 32 -> sized t -> sized (PShort k t)
| sized_full cs : (forall i c, cs !! i = Some c -> sized c) -> sized (PFull cs).

Definition val_ok (t : ptree) (i : nat) : Prop := match t with PVal _ => i = 16%nat | _ => True end.

(** ** Lemmas: sizes *)

Lemma slot_sized b t :
  slot b t ->
  (forall k v, keyrest b k -> pget t k = Some v -> len k < 2 ^ 32 /\ bytes_ok v /\ len v < 2 ^ 32) -> sized t.
Proof.
  induction 1 as [b|v0 Hv0|p v0 Hp Hv0|k0 cs Hk0 NE S IH|cs L Sc IH T]; intros H.
  - constructor.
  - destruct (H [] v0 eq_refl eq_refl) as (_ & ? & ?). by constructor.
  - destruct (H (p ++ [16]) v0) as (? & ? & ?); [by exists p|apply pget_leaf_self|].
    constructor; [right; by exists p|done|by constructor].
  - constructor; [by left| |].
    + destruct (slot_inhabited false (PFull cs) S) as (r & Hr & G); [done|].
      destruct (pget (PFull cs) r) as [v|] eqn:E; [|done].
      destruct (H (k0 ++ r) v) as (Lk & _); [by apply hexkey_app|by rewrite pget_short_app|].
      rewrite len_app in Lk. pose proof (len_nonneg r). lia.
    + apply IH. intros r v Hr G. destruct (H (k0 ++ r) v) as (Lk & ?); [by apply hexkey_app|by rewrite pget_short_app|].
      rewrite len_app in Lk. pose proof (len_nonneg k0). split; [lia|done].
  - constructor. intros i c Hc. apply (IH i c Hc). intros r v Hr G.
    pose proof (lookup_lt_Some _ _ _ Hc).
    destruct (H (Z.of_nat i :: r) v) as (Lk & ?); [apply hexkey_intro; [lia|done]|by rewrite pget_full, Nat2Z.id, Hc|].
    rewrite len_cons in Lk. split; [lia|done].
Qed.

Lemma compact_ok k : hexfrag k -> bytes_ok (compact k) /\ compact k <> [] /\ forall E, @compactToHex E (compact k) = Ok k.
Proof.
  intros H. unfold compact. destruct (@hexToCompact_ok unit k H) as (bs & -> & O & N & C).
  split; [done|]. split; [done|]. intros E. revert C. unfold compactToHex. case_goal; [done|]. by intros [= <-].
Qed.

Lemma hexToCompact_compact {E} k : hexfrag k -> @hexToCompact E k = Ok (compact k).
Proof.
  intros H. unfold compact. destruct (@hexToCompact_ok unit k H) as (bs & D & _). rewrite D.
  assert (G : forall l bs, @decodeNibbles unit l = Ok bs -> @decodeNibbles E l = Ok bs).
  { intros l. remember (length l) as n eqn:Hn. revert l Hn. induction n as [n IH] using lt_wf_ind.
    intros [|x [|y l]] Hn bs'; cbn; [by intros [= ->]|done|].
    intros D'. apply outcome_bind_ok in D' as (bs1 & D1 & [= <-]).
    rewrite (IH (length l) ltac:(subst n; cbn; lia) l eq_refl bs1 D1). done. }
  revert D. unfold hexToCompact. destruct (if hasTerm k then _ else _) as [t h]. cbv zeta.
  destruct (if Z.land (len h) 1 =? 1 then h else []); intros D'; apply outcome_bind_ok in D' as (bs1 & D1 & [= <-]);
    by rewrite (G _ _ D1).
Qed.

Lemma len_compact k : hexfrag k -> 2 * len (compact k) <= len k + 2.
Proof.
  intros H. destruct (compact_ok k H) as (_ & _ & C). specialize (C unit). revert C. unfold compactToHex.
  rewrite keybytesToHex_unpack, ztake_snoc. pose proof (length_unpack (compact k)) as L.
  destruct (unpack (compact k)) as [|b0 base]; [done|]. intros [= E0].
  assert (0 <= Z.land b0 1 <= 1) as B.
  { rewrite Z.land_ones with (n := 1) by lia. change (2 ^ 1) with 2. pose proof (Z.mod_pos_bound b0 2). lia. }
  apply (f_equal length) in E0. unfold zdrop in E0. rewrite length_drop in E0. unfold len.
  destruct (2 <=? b0); cbn [length app] in *; rewrite ?length_app in E0; cbn [length] in *; lia.
Qed.

Lemma len_keccak b : len (keccak256 b) = 32.
Proof. apply keccak256_hash. Qed.

Lemma bytes_ok_keccak b : bytes_ok (keccak256 b).
Proof. apply keccak256_hash. Qed.

Lemma enc_string_hash b : enc_string (keccak256 b) = 0xA0 :: keccak256 b.
Proof.
  pose proof (len_keccak b) as L. unfold enc_string, enc_head.
  destruct (keccak256 b) as [|x [|y l]] eqn:E; [done|by rewrite len_cons, len_nil in L|]. by rewrite L.
Qed.

Definition menc_ok (t : ptree) : Prop :=
  bytes_ok (menc t) /\ 1 <= len (menc t) < 2 ^ 40 /\ bytes_ok (mref (menc t) t) /\
  len (mref (menc t) t) <= 2 ^ 32 + 9 /\ ((forall v, t <> PVal v) -> len (mref (menc t) t) <= 33).

Lemma menc_ok_inner t :
  inner t -> bytes_ok (menc t) -> 1 <= len (menc t) < 2 ^ 40 -> menc_ok t.
Proof.
  intros I O L. split; [done|]. split; [done|].
  assert (E : mref (menc t) t = if len (menc t) <? 32 then menc t else 0xA0 :: keccak256 (menc t))
    by (destruct t; try done; unfold mref; by rewrite enc_string_hash).
  rewrite E. pose proof (len_keccak (menc t)).
  destruct (Z.ltb_spec (len (menc t)) 32); rewrite ?len_cons.
  - split; [done|]. split; [lia|]. intros _. lia.
  - split; [apply bytes_ok_cons; split; [unfold byte_ok; lia|apply bytes_ok_keccak]|]. split; [lia|]. intros _. lia.
Qed.

Lemma menc_ok_short k t :
  hexfrag k -> len k < 2 ^ 32 -> bytes_ok (mref (menc t) t) /\ len (mref (menc t) t) <= 2 ^ 32 + 9 ->
  menc_ok (PShort k t).
Proof.
  intros Hf Lk [O B]. destruct (compact_ok _ Hf) as (Oc & _). pose proof (len_compact _ Hf) as Lc.
  pose proof (len_nonneg (compact k)). pose proof (len_enc_string_le (compact k) ltac:(lia)).
  set (c := enc_string (compact k) ++ mref (menc t) t).
  assert (Lcc : len c < 2 ^ 34) by (subst c; rewrite len_app; lia). pose proof (len_nonneg c).
  pose proof (len_enc_list_le c ltac:(lia)). apply menc_ok_inner; [done| |cbn [menc]; fold c; lia].
  cbn [menc]. fold c. apply enc_list_ok; [|lia]. apply bytes_ok_app.
  split; [apply enc_string_ok; [done|lia]|done].
Qed.

Lemma bytes_ok_concat es : (forall e, e ∈ es -> bytes_ok e) -> bytes_ok (concat es).
Proof.
  induction es as [|e es IH]; intros H; [constructor|]. cbn. apply bytes_ok_app.
  split; [apply H; by left|apply IH; intros; apply H; by right].
Qed.

Lemma menc_size b t : slot b t -> sized t -> menc_ok t.
Proof.
  induction 1 as [b|v0 Hv0|p v0 Hp Hv0|k0 cs Hk0 NE S IH|cs L Sc IH T]; intros Z.
  - assert (O : bytes_ok [0x80]) by (constructor; [unfold byte_ok; lia|constructor]).
    split; [exact O|]. change (menc PNil) with [0x80]. cbn [mref]. change (len [0x80]) with 1.
    split; [lia|]. split; [exact O|]. split; [lia|]. intros _. lia.
  - inversion Z as [|v O Lv| |]; subst. pose proof (len_enc_string_le v0 ltac:(lia)). pose proof (len_nonneg v0).
    pose proof (enc_string_ok v0 O ltac:(lia)). split; [done|]. cbn [menc mref]. split; [lia|]. split; [done|].
    split; [lia|]. intros C. by destruct (C v0).
  - inversion Z as [| |k t Hf Lk Zt|]; subst. apply menc_ok_short; [done|done|].
    inversion Zt as [|v O Lv| |]; subst. pose proof (len_enc_string_le v0 ltac:(lia)).
    split; [apply enc_string_ok; [done|lia]|]. cbn [menc mref]. lia.
  - inversion Z as [| |k t Hf Lk Zt|]; subst. destruct (IH Zt) as (_ & _ & O & B & _).
    by apply menc_ok_short.
  - inversion Z as [| | |cs' Zc]; subst.
    assert (M : forall i c, cs !! i = Some c -> menc_ok c) by (intros i c Hc; exact (IH i c Hc (Zc i c Hc))).
    assert (Lc : len (concat (map (fun c => mref (menc c) c) cs)) <= (2 ^ 32 + 9) * 17).
    { replace 17 with (len cs) by (unfold len; lia). apply len_concat_le; [lia|].
      intros c Hc. apply list_elem_of_lookup in Hc as [i Hc]. by destruct (M i c Hc) as (_ & _ & _ & ? & _). }
    pose proof (len_nonneg (concat (map (fun c => mref (menc c) c) cs))).
    pose proof (len_enc_list_le (concat (map (fun c => mref (menc c) c) cs)) ltac:(lia)).
    apply menc_ok_inner; [done| |]; cbn [menc]; [|lia].
    apply enc_list_ok; [|lia]. apply bytes_ok_concat. intros e He. apply list_elem_of_fmap in He as (c & -> & Hc).
    apply list_elem_of_lookup in Hc as [i Hc]. by destruct (M i c Hc) as (_ & _ & ? & _).
Qed.

(** ** What the database and the cache flags say *)

(** The subtrees that are referenced by hash are in the database. *)
Definition stored_ref (db : database) (t : ptree) : Prop :=
  forall u, below u t -> inner u -> 32 <= len (menc u) -> db !! keccak256 (menc u) = Some (menc u).

Definition stored_at (db : database) (t : ptree) : Prop :=
  db !! keccak256 (menc t) = Some (menc t) /\ stored_ref db t.

(** A cached hash is the hash of the node's encoding; only the root may have one with a
    short encoding.  A clean node with a cached hash is in the database, and a clean
    node without one is embedded in its parent. *)
Definition flag_ok (db : database) (r : bool) (f : nodeFlag) (t : ptree) : Prop :=
  match nf_hash f with
  | Some h => h = keccak256 (menc t) /\ (r = false -> 32 <= len (menc t)) /\
              (nf_dirty f = false -> stored_at db t)
  | None => nf_dirty f = false -> r = false /\ len (menc t) < 32
  end.

Definition hash_ok (db : database) (r : bool) (h : bytes) (t : ptree) : Prop :=
  h = keccak256 (menc t) /\ (r = false -> 32 <= len (menc t)) /\ stored_at db t.

Definition mrep (db : database) : bool -> node -> ptree -> Prop := rep (flag_ok db) (hash_ok db) db.

Lemma flag_ok_new db r gen t : flag_ok db r (newFlag gen) t.
Proof. done. Qed.

Lemma flag_ok_gen db r gen f t : flag_ok db r f t -> flag_ok db r (set_gen gen f) t.
Proof. done. Qed.

(** ** Lemmas: decoding *)

Definition decodable (db : database) (u : ptree) : Prop :=
  forall fuel r hash gen rest,
  bytes_ok rest -> len (menc u ++ rest) < 2 ^ 64 -> (length (menc u) <= fuel)%nat ->
  flag_ok db r (NodeFlag hash gen false) u ->
  exists n, decodeNode_fuel fuel hash (menc u ++ rest) gen = Ok n /\ loaded n /\ mrep db r n u.

Lemma mref_inner u : inner u -> mref (menc u) u = if len (menc u) <? 32 then menc u else enc_string (keccak256 (menc u)).
Proof. by destruct u. Qed.

Lemma menc_inner u : inner u -> exists c, menc u = enc_list c.
Proof. destruct u; try done; intros _; cbn; eauto. Qed.

Lemma mref_item u : is_item (mref (menc u) u).
Proof.
  destruct u; cbn [menc mref]; try apply is_item_string; case_goal; (apply is_item_string || apply is_item_list).
Qed.

Lemma count_items es :
  Forall is_item es -> bytes_ok (concat es) -> len (concat es) < 2 ^ 64 -> CountValues (concat es) = Ok (len es).
Proof.
  intros F O L.
  assert (exists items, Forall (fun '(k, c) => k <> KList -> k = string_kind c) items /\
            es = map (fun '(k, c) => enc_item k c) items) as (items & Fi & ->).
  { clear O L. induction F as [|e es (k & c & -> & Hk) F (items & Fi & ->)]; [by exists []|].
    exists ((k, c) :: items). split; [by constructor|done]. }
  unfold CountValues. rewrite CountValues_items by (done || lia). unfold len. by rewrite length_map.
Qed.

Lemma mrep_stored db r u :
  decodable db u -> menc_ok u -> stored_at db u -> (r = false -> 32 <= len (menc u)) ->
  mrep db r (hashNode (keccak256 (menc u))) u.
Proof.
  intros D (_ & L & _) St H32. pose proof St as [Lk _].
  assert (M : forall gen, exists n, mustDecodeNode (keccak256 (menc u)) (menc u) gen = Ok n /\ loaded n /\ mrep db r n u).
  { intros gen. unfold mustDecodeNode, decodeNode.
    destruct (D (S (length (menc u))) r (Some (keccak256 (menc u))) gen []) as (n & E & Ld & R).
    - constructor.
    - rewrite app_nil_r. lia.
    - lia.
    - done.
    - rewrite app_nil_r in E. rewrite E. eauto. }
  apply (rep_hash _ _ _ r _ (fun gen => match mustDecodeNode (keccak256 (menc u)) (menc u) gen with Ok n => n | _ => Nil end)).
  - by split.
  - intros gen p. unfold resolveHash. rewrite Lk. by destruct (M gen) as (n & -> & _).
  - intros gen. by destruct (M gen) as (n & -> & ? & _).
  - intros gen. by destruct (M gen) as (n & -> & _ & ?).
Qed.

Lemma len_app_lt (a b c : bytes) n : len ((a ++ b) ++ c) < n -> len (a ++ b ++ c) < n.
Proof. by rewrite app_assoc. Qed.

Lemma decodeRef_mref db u fuel gen rest :
  (inner u -> decodable db u) -> (forall v, u <> PVal v) -> menc_ok u -> stored_ref db u ->
  bytes_ok rest -> len (mref (menc u) u ++ rest) < 2 ^ 64 -> (length (mref (menc u) u) <= fuel)%nat ->
  exists n, decodeRef (fun b => decodeNode_fuel fuel None b gen) (mref (menc u) u ++ rest) = Ok (n, rest) /\
            mrep db false n u.
Proof.
  intros D NV M St Or L Hf. pose proof M as (Om & Lm & Omr & _).
  assert (Hu : u = PNil \/ inner u) by (destruct u as [|v| |]; cbn; auto; by destruct (NV v)).
  unfold decodeRef. destruct Hu as [->|I].
  - exists Nil. cbn [menc mref] in *. rewrite (Split_enc_string [] rest) by done. cbn. split; [done|constructor].
  - specialize (D I). rewrite mref_inner in * by done. destruct (Z.ltb_spec (len (menc u)) 32) as [S|S].
    + destruct (menc_inner u I) as [c Ec].
      assert (Oc : bytes_ok (c ++ rest)).
      { apply bytes_ok_app. split; [|done]. rewrite Ec in Om. by apply bytes_ok_app in Om as [_ Om]. }
      assert (Sp : Split (menc u ++ rest) = Ok (KList, c, rest)).
      { rewrite Ec in *. by apply Split_enc_list. }
      rewrite Sp. cbn [mbind outcome_bind map_err]. rewrite len_app. unfold HashLength.
      zdecide. destruct (D fuel false None gen rest Or L Hf) as (n & -> & _ & R); [done|].
      exists n. done.
    + assert (Sp : Split (enc_string (keccak256 (menc u)) ++ rest) = Ok (KString, keccak256 (menc u), rest)).
      { assert (K : KString = string_kind (keccak256 (menc u))).
        { pose proof (len_keccak (menc u)) as Lk. unfold string_kind.
          destruct (keccak256 (menc u)) as [|x [|]]; try done. }
        rewrite K. apply Split_enc_string; [|done]. apply bytes_ok_app. split; [apply bytes_ok_keccak|done]. }
      rewrite Sp. cbn [mbind outcome_bind map_err]. rewrite len_keccak. cbn.
      exists (hashNode (keccak256 (menc u))). split; [done|]. apply mrep_stored; try done.
      split; [|done]. apply St; [constructor|done|done].
Qed.

Lemma SplitString_enc v rest :
  bytes_ok (v ++ rest) -> len (enc_string v ++ rest) < 2 ^ 64 -> SplitString (enc_string v ++ rest) = Ok (v, rest).
Proof.
  intros O L. unfold SplitString. rewrite Split_enc_string by done. cbn. destruct v as [|x [|]]; cbn; try done. by destruct (x <=? 127).
Qed.

(** The prologue of [decodeNode] on an encoded list of items. *)
Lemma decodeNode_items fuel hash es rest gen :
  Forall is_item es -> bytes_ok (concat es) -> bytes_ok rest -> len (enc_list (concat es) ++ rest) < 2 ^ 64 ->
  decodeNode_fuel (S fuel) hash (enc_list (concat es) ++ rest) gen =
  let dec b := decodeNode_fuel fuel None b gen in
  if len es =? 2 then map_err (wrapError CtxShort) (decodeShort dec hash (concat es) gen)
  else if len es =? 17 then map_err (wrapError CtxFull) (decodeFull dec hash (concat es) gen)
  else Err (plain (WCount (len es))).
Proof.
  intros F O Or L. cbn [decodeNode_fuel].
  assert (len (enc_list (concat es)) <= len (enc_list (concat es) ++ rest)).
  { rewrite len_app. pose proof (len_nonneg rest). lia. }
  pose proof (is_item_nonempty _ (is_item_list (concat es))). zdecide.
  unfold SplitList. rewrite Split_enc_list; [|by apply bytes_ok_app|done]. cbn [mbind outcome_bind map_err].
  rewrite count_items; [done|done|done|]. apply len_enc_list_lt with (n := 2 ^ 64). lia.
Qed.

Lemma decodable_short db k u :
  hexfrag k -> menc_ok (PShort k u) -> menc_ok u -> 
  ((exists v, u = PVal v /\ hexkey k) \/ (inner u /\ nibbles k /\ decodable db u /\ stored_ref db u)) ->
  decodable db (PShort k u).
Proof.
  intros Hf (Om & Lm & _) Mu Hu [|fuel] r hash gen rest Or L Lf FI.
  { pose proof (len_nonneg (menc (PShort k u))). unfold len in Lm. lia. }
  destruct (compact_ok k Hf) as (Oc & _ & CH). pose proof (len_compact k Hf).
  cbn [menc] in *. set (es := [enc_string (compact k); mref (menc u) u]).
  assert (Ees : enc_string (compact k) ++ mref (menc u) u = concat es) by (cbn; by rewrite app_nil_r).
  rewrite Ees in *.
  assert (Oes : bytes_ok (concat es)) by (by apply bytes_ok_app in Om as [_ Om]).
  assert (Les : len (concat es) < 2 ^ 64) by (apply len_enc_list_lt with (n := 2 ^ 64); lia).
  assert (Fs : Forall is_item es) by (repeat constructor; [apply is_item_string|apply mref_item]).
  rewrite decodeNode_items by done. change (len es =? 2) with true. cbv zeta iota.
  unfold decodeShort. rewrite <- Ees in *. rewrite len_app in Les. pose proof (len_nonneg (mref (menc u) u)).
  pose proof (len_nonneg (enc_string (compact k))).
  apply bytes_ok_app in Oes as [Oes1 Oes2].
  rewrite SplitString_enc; [|by apply bytes_ok_app|rewrite len_app; lia].
  cbn [mbind outcome_bind map_err]. rewrite CH. cbn [mbind outcome_bind].
  destruct Hu as [(v & -> & (p & Hp & ->))|(I & Hk & D & St)].
  - rewrite hasTerm_app. cbn [menc mref] in *. rewrite <- (app_nil_r (enc_string v)).
    assert (Ov : bytes_ok v) by (by apply bytes_ok_enc_string).
    rewrite SplitString_enc; [|by rewrite app_nil_r|rewrite app_nil_r; lia].
    eexists. split; [reflexivity|]. split; [done|]. by constructor; [|constructor].
  - rewrite hasTerm_nibbles by done. destruct (decodeRef_mref db u fuel gen []) as (n & E & R); try done.
    + by destruct u.
    + constructor.
    + rewrite app_nil_r. lia.
    + unfold enc_list in Lf. rewrite !length_app in Lf.
      pose proof (is_item_nonempty _ (is_item_string (compact k))) as Le. unfold len in Le. lia.
    + rewrite app_nil_r in E. rewrite E. eexists. split; [reflexivity|]. split; [done|]. by constructor.
Qed.

Lemma decodeFull_loop_mref db fuel gen rest : forall us,
  (forall u, u ∈ us -> (inner u -> decodable db u) /\ (forall v, u <> PVal v) /\ menc_ok u /\ stored_ref db u) ->
  bytes_ok rest -> len (concat (map (fun c => mref (menc c) c) us) ++ rest) < 2 ^ 64 ->
  (length (concat (map (fun c => mref (menc c) c) us)) <= fuel)%nat ->
  exists ns, decodeFull_loop (fun b => decodeNode_fuel fuel None b gen) (length us)
               (concat (map (fun c => mref (menc c) c) us) ++ rest) = Ok (ns, rest) /\
             Forall2 (mrep db false) ns us.
Proof.
  induction us as [|u us IH]; intros H Or L Lf; [by exists []|].
  destruct (H u ltac:(by left)) as (D & NV & M & St). cbn [map concat] in *.
  rewrite length_app in Lf. rewrite <- app_assoc in *. rewrite len_app in L.
  pose proof (len_nonneg (mref (menc u) u)).
  destruct IH as (ns & E & F); [intros; apply H; by right|done|lia|lia|].
  destruct (decodeRef_mref db u fuel gen (concat (map (fun c => mref (menc c) c) us) ++ rest)) as (n & En & Rn); try done.
  - apply bytes_ok_app. split; [|done]. apply bytes_ok_concat. intros e He. apply list_elem_of_fmap in He as (c & -> & Hc).
    by destruct (H c ltac:(by right)) as (_ & _ & (_ & _ & ? & _) & _).
  - rewrite len_app. lia.
  - lia.
  - exists (n :: ns). cbn [length decodeFull_loop]. rewrite En. cbn [mbind outcome_bind map_err]. rewrite E.
    split; [done|by constructor].
Qed.

Lemma Forall2_rep db cs ts :
  Forall2 (mrep db false) cs ts ->
  length cs = length ts /\ forall i c t, cs !! i = Some c -> ts !! i = Some t -> mrep db false c t.
Proof.
  intros F. split; [by eapply Forall2_length|]. intros i c t Hc Ht. by eapply Forall2_lookup_lr.
Qed.

Lemma decodable_full db cs :
  length cs = 17%nat -> menc_ok (PFull cs) ->
  (forall i c, cs !! i = Some c -> slot (bool_decide (i = 16%nat)) c /\ menc_ok c /\ stored_ref db c /\
     (inner c -> decodable db c)) ->
  decodable db (PFull cs).
Proof.
  intros L17 (Om & Lm & _) H [|fuel] r hash gen rest Or L Lf FI.
  { unfold len in Lm. lia. }
  destruct (exists_last (l := cs) ltac:(by destruct cs)) as (us & c16 & E). 
  assert (L16 : length us = 16%nat) by (rewrite E, length_app in L17; cbn in L17; lia).
  assert (Hus : forall u, u ∈ us -> (inner u -> decodable db u) /\ (forall v, u <> PVal v) /\ menc_ok u /\ stored_ref db u).
  { intros u Hu. apply list_elem_of_lookup in Hu as [i Hi]. pose proof (lookup_lt_Some _ _ _ Hi).
    destruct (H i u) as (S & M & St & D); [rewrite E; by rewrite lookup_app_l|].
    rewrite bool_decide_false in S by lia. split; [done|]. split; [|done]. intros v ->. by inversion S. }
  assert (H16 : slot true c16 /\ menc_ok c16).
  { destruct (H 16%nat c16) as (S & M & _); [|done]. rewrite E, lookup_app_r, L16 by lia. done. }
  cbn [menc] in *. set (f := fun c => mref (menc c) c) in *.
  assert (Oes : bytes_ok (concat (map f cs))) by (by apply bytes_ok_app in Om as [_ Om]).
  assert (Les : len (concat (map f cs)) < 2 ^ 64) by (apply len_enc_list_lt with (n := 2 ^ 64); lia).
  rewrite decodeNode_items; [|apply Forall_forall; intros e He; apply in_map_iff in He as (c & <- & _); apply mref_item|done..].
  replace (len (map f cs)) with 17 by (unfold len; rewrite length_map; lia). cbn [Z.eqb Pos.eqb]. cbv zeta.
  unfold decodeFull. subst cs. rewrite map_app, concat_app in *. cbn [map concat] in *. rewrite app_nil_r in *.
  destruct (decodeFull_loop_mref db fuel gen (f c16) us Hus) as (ns & El & F).
  { by apply bytes_ok_app in Oes as [_ Oes]. } { done. }
  { unfold enc_list in Lf. rewrite !length_app in Lf. fold f.
    pose proof (is_item_nonempty _ (mref_item c16)) as P. unfold len in P. fold (f c16) in P. lia. }
  fold f in El. rewrite L16 in El. rewrite El. cbn [mbind outcome_bind].
  assert (G : forall v c, SplitString (f c16) = Ok (v, []) -> c = (if 0 <? len v then valueNode v else Nil) ->
     mrep db false c c16 ->
     exists n, map_err (wrapError CtxFull)
       ('(val, _) ← map_err (fun e => plain (WRlp e)) (SplitString (f c16));
        Ok (fullNode (ns ++ [if 0 <? len val then valueNode val else Nil]) (NodeFlag hash gen false))) = Ok n /\
       loaded n /\ mrep db r n (PFull (us ++ [c16]))).
  { intros v c -> -> Rc. cbn. eexists. split; [reflexivity|]. split; [done|].
    destruct (Forall2_rep db (ns ++ [if 0 <? len v then valueNode v else Nil]) (us ++ [c16])) as [Le He].
    { apply Forall2_app; [done|by constructor]. }
    by constructor. }
  destruct H16 as [S16 M16]. inversion S16 as [|v NE| | |]; subst.
  - apply (G [] Nil); [reflexivity|done|constructor].
  - apply (G v (valueNode v)); [| |constructor].
    + subst f. cbn [menc mref]. rewrite <- (app_nil_r (enc_string v)). destruct M16 as (O16 & L1 & _). cbn [menc] in *.
      rewrite SplitString_enc; [done| |rewrite app_nil_r; lia]. rewrite app_nil_r. by apply bytes_ok_enc_string.
    + destruct v as [|x v]; [done|]. rewrite len_cons. pose proof (len_nonneg v). by zdecide.
Qed.

Lemma below_trans u t w : below u t -> below t w -> below u w.
Proof. intros H1 H2. revert u H1. induction H2; intros; [done|..]; econstructor; eauto. Qed.

Lemma stored_below db t u : stored_ref db t -> below u t -> stored_ref db u.
Proof. intros St B w Bw. apply St. by eapply below_trans. Qed.

Lemma slot_decodable b t db :
  slot b t -> sized t -> stored_ref db t -> inner t -> decodable db t.
Proof.
  induction 1 as [b|v0 Hv0|p v0 Hp Hv0|k0 cs Hk0 NE S IH|cs L Sc IH T]; intros Z St I; try done.
  - pose proof (menc_size false _ (slot_leaf p v0 Hp Hv0) Z) as M.
    inversion Z as [| |k t Hf Lk Zt|]; subst. pose proof (menc_size true _ (slot_val v0 Hv0) Zt).
    apply decodable_short; try done. left. exists v0. split; [done|]. by exists p.
  - pose proof (menc_size false _ (slot_ext k0 cs Hk0 NE S) Z) as M.
    inversion Z as [| |k t Hf Lk Zt|]; subst. pose proof (menc_size false _ S Zt).
    assert (stored_ref db (PFull cs)) by (eapply stored_below; [exact St|]; apply below_short, below_refl).
    apply decodable_short; try done. right. split; [done|]. split; [done|]. split; [by apply IH|done].
  - pose proof (menc_size false _ (slot_full cs L Sc T) Z) as M. inversion Z as [| | |cs' Zc]; subst.
    apply decodable_full; try done. intros i c Hc.
    assert (stored_ref db c) by (eapply stored_below; [exact St|]; by eapply below_full, below_refl).
    split; [by apply Sc|]. split; [by apply (menc_size _ c (Sc i c Hc)), (Zc i)|]. split; [done|].
    intros Ic. by apply (IH i c Hc (Zc i c Hc)).
Qed.

(** ** Lemmas: a growing database *)

Lemma stored_ref_mono db db' t : db ⊆ db' -> stored_ref db t -> stored_ref db' t.
Proof. intros S St u B I L. eapply lookup_weaken; [by apply St|done]. Qed.

Lemma stored_at_mono db db' t : db ⊆ db' -> stored_at db t -> stored_at db' t.
Proof. intros S [L St]. split; [by eapply lookup_weaken|by eapply stored_ref_mono]. Qed.

Lemma flag_ok_mono db db' r f t : db ⊆ db' -> flag_ok db r f t -> flag_ok db' r f t.
Proof.
  unfold flag_ok. intros S. destruct (nf_hash f); [|done]. intros (E & L & St). split; [done|]. split; [done|].
  intros D. eapply stored_at_mono; [done|by apply St].
Qed.

Lemma hash_ok_mono db db' r h t : db ⊆ db' -> hash_ok db r h t -> hash_ok db' r h t.
Proof. intros S (E & L & St). split; [done|]. split; [done|]. by eapply stored_at_mono. Qed.

Lemma mrep_mono db db' r n t : db ⊆ db' -> mrep db r n t -> mrep db' r n t.
Proof.
  intros S. induction 1 as [rt|rt v0|rt k0 n t f Ff R IH|rt cs ts f Ff L R IH|rt h nf t Ph RH Ld R IH].
  - constructor.
  - constructor.
  - constructor; [by eapply flag_ok_mono|done].
  - constructor; [by eapply flag_ok_mono|done|done].
  - eapply (rep_hash _ _ _ _ _ nf); [by eapply hash_ok_mono| |done|done].
    intros gen p. specialize (RH gen p). unfold resolveHash in *.
    destruct (db !! h) as [enc|] eqn:E; [|done]. by rewrite (lookup_weaken _ _ _ _ E S).
Qed.

(** ** Lemmas: encoding collapsed nodes *)

Definition nenc (n : node) : bytes := enc_value TIface (node_rval n).
Definition wtn (n : node) : Prop := wt TIface (node_rval n).

Lemma nenc_short k v f : nenc (shortNode k v f) = enc_list (enc_string k ++ nenc v).
Proof. unfold nenc. cbn. by rewrite app_nil_r. Qed.

Lemma nenc_full cs f : nenc (fullNode cs f) = enc_list (concat (map nenc cs)).
Proof. unfold nenc. cbn. by rewrite map_map. Qed.

Lemma wtn_short k v f : bytes_ok k -> wtn v -> wtn (shortNode k v f).
Proof. intros Hk Hv. cbn. done. Qed.

Lemma wtn_full cs f : length cs = 17%nat -> Forall wtn cs -> wtn (fullNode cs f).
Proof.
  intros L F. change (wt (TArray 17 TIface) (VList (map node_rval cs))). cbn [wt].
  split; [by rewrite length_map|]. clear L. induction F; [done|]. by split.
Qed.

Lemma Encode_node n : wtn n -> len (nenc n) < 2 ^ 64 -> Encode TIface (node_rval n) = Ok (nenc n).
Proof. intros W L. by apply EncodeToBytes_spec. Qed.

(** ** The hasher *)

Definition hashChildren (gen limit : Z)
  : nat -> list node -> option database -> outcome unit (list node * list node * option database) :=
  fix hashChildren (i : nat) (cs : list node) (db : option database) {struct cs} :=
    match cs with
    | [] => Ok ([], [], db)
    | c :: cs =>
      '(cc, hc, db) ←
        match c with
        | Nil => Ok (valueNode [], Nil, db)
        | _ => if (i <? 16)%nat then hash gen limit c db false else Ok (c, c, db)
        end;
      '(ccs, hcs, db) ← hashChildren (S i) cs db;
      Ok (cc :: ccs, hc :: hcs, db)
    end.

Lemma hash_full gen limit cs f db force :
  hash_cached (fullNode cs f) db gen limit = None ->
  hash gen limit (fullNode cs f) db force =
  '(ccs, hcs, db) ← hashChildren gen limit O cs db;
  '(hashed, db) ← store (fullNode ccs f) db force;
  Ok (hashed, mark_hashed (fullNode hcs f) hashed db, db).
Proof.
  intros E. cbn [hash]. rewrite E. fold (hashChildren gen limit).
  by destruct (hashChildren gen limit O cs db) as [[[ccs hcs] db']| | |].
Qed.

Lemma hash_short gen limit k v f db force :
  hash_cached (shortNode k v f) db gen limit = None -> hexfrag k ->
  hash gen limit (shortNode k v f) db force =
  '(cv, hv, db) ← match v with valueNode _ => Ok (v, v, db) | _ => hash gen limit v db false end;
  '(hashed, db) ← store (shortNode (compact k) (match cv with Nil => valueNode [] | _ => cv end) f) db force;
  Ok (hashed, mark_hashed (shortNode k hv f) hashed db, db).
Proof.
  intros E Hk. cbn [hash]. rewrite E, hexToCompact_compact by done. cbn [mbind outcome_bind].
  by destruct (match v with valueNode _ => _ | _ => _ end) as [[[cv hv] db']| | |].
Qed.

(** Hashing with a database to write to, [w = true]: the hash function has no collisions
    among the encodings of the trees in [K], and the database agrees with them. *)
Section Sound.
Context (K : ptree -> Prop).
Context (K_below : forall t u, K t -> below u t -> K u).

Definition agrees (w : bool) (db : database) : Prop :=
  w = true ->
  (forall u v, K u -> K v -> inner u -> inner v -> keccak256 (menc u) = keccak256 (menc v) -> menc u = menc v) /\
  (forall u e, K u -> inner u -> db !! keccak256 (menc u) = Some e -> e = menc u).

Lemma agrees_insert db t :
  K t -> inner t -> agrees true db ->
  db ⊆ <[keccak256 (menc t) := menc t]> db /\ agrees true (<[keccak256 (menc t) := menc t]> db).
Proof.
  intros Kt It A. destruct (A eq_refl) as [K_inj Ad]. split.
  - apply map_subseteq_spec. intros h e Hh. destruct (decide (h = keccak256 (menc t))) as [->|N].
    + by rewrite lookup_insert_eq, (Ad t e Kt It Hh).
    + by rewrite lookup_insert_ne.
  - intros _. split; [done|]. intros u e Ku Iu. destruct (decide (keccak256 (menc u) = keccak256 (menc t))) as [E|N].
    + rewrite E, lookup_insert_eq. intros [= <-]. symmetry. by apply K_inj.
    + rewrite lookup_insert_ne by done. by apply Ad.
Qed.

Definition opt (w : bool) (db : database) : option database := if w then Some db else None.

(** What hashing a node that stands for [t] returns, with the database after it. *)
Definition hash_post (w r : bool) (t : ptree) (db : database)
    (res : outcome unit (node * node * option database)) : Prop :=
  exists hashed cached db',
    res = Ok (hashed, cached, opt w db') /\ (w = false -> db' = db) /\ db ⊆ db' /\ agrees w db' /\
    (w = true -> stored_ref db' t) /\ mrep db' r cached t /\ wtn hashed /\
    (if r || (32 <=? len (menc t))
     then hashed = hashNode (keccak256 (menc t)) /\ (w = true -> db' !! keccak256 (menc t) = Some (menc t))
     else nenc hashed = menc t /\ loaded hashed).

Lemma wtn_hash b : wtn (hashNode (keccak256 b)).
Proof. apply bytes_ok_keccak. Qed.

Lemma store_eq t db force collapsed :
  menc_ok t -> wtn collapsed -> loaded collapsed -> nenc collapsed = menc t ->
  (forall h, fst (node_cache collapsed) = Some h -> h = keccak256 (menc t)) ->
  store collapsed db force =
  Ok (if (len (menc t) <? 32) && negb force then (collapsed, db)
      else (hashNode (keccak256 (menc t)),
            match db with Some db => Some (<[keccak256 (menc t) := menc t]> db) | None => None end)).
Proof.
  intros (_ & Lm & _) W Ld E Ch.
  assert (Enc : Encode TIface (node_rval collapsed) = Ok (menc t)).
  { rewrite <- E. apply Encode_node; [done|]. rewrite E. lia. }
  assert (H : match fst (node_cache collapsed) with Some h => h | None => keccak256 (menc t) end = keccak256 (menc t)).
  { destruct (fst (node_cache collapsed)) as [h|] eqn:C; [by apply Ch|done]. }
  unfold store. destruct collapsed; try done; rewrite Enc; destruct (_ && _); try done; by rewrite H.
Qed.

(** The subtrees below [t] are stored. *)
Definition stored_sub (db : database) (t : ptree) : Prop :=
  forall u, below u t -> u = t \/ (inner u -> 32 <= len (menc u) -> db !! keccak256 (menc u) = Some (menc u)).

Lemma stored_sub_small db t : len (menc t) < 32 -> stored_sub db t -> stored_ref db t.
Proof. intros L St u B I Lu. destruct (St u B) as [->|H]; [lia|by apply H]. Qed.

Lemma stored_sub_insert db t :
  db ⊆ <[keccak256 (menc t) := menc t]> db -> stored_sub db t -> stored_at (<[keccak256 (menc t) := menc t]> db) t.
Proof.
  intros S St. split; [by rewrite lookup_insert_eq|]. intros u B I Lu.
  destruct (St u B) as [->|H]; [by rewrite lookup_insert_eq|]. eapply lookup_weaken; [by apply H|done].
Qed.

(** The last steps of [hash], for a collapsed node with the right encoding. *)
Lemma finish_hash w r t db collapsed cached :
  K t -> inner t -> menc_ok t -> agrees w db -> (w = true -> stored_sub db t) ->
  wtn collapsed -> loaded collapsed -> nenc collapsed = menc t ->
  (forall h, fst (node_cache collapsed) = Some h -> h = keccak256 (menc t)) ->
  (forall db' hashed, db ⊆ db' ->
     match hashed with
     | hashNode h => h = keccak256 (menc t) /\ (r = false -> 32 <= len (menc t)) /\ (w = true -> stored_at db' t)
     | _ => r = false /\ len (menc t) < 32
     end -> mrep db' r (mark_hashed cached hashed (opt w db')) t) ->
  hash_post w r t db
    ('(hashed, db) ← store collapsed (opt w db) r; Ok (hashed, mark_hashed cached hashed db, db)).
Proof.
  intros Kt It M A St W Ld E Ch Rc. rewrite (store_eq t) by done.
  destruct ((len (menc t) <? 32) && negb r) eqn:Sm; cbn [mbind outcome_bind].
  - apply andb_true_iff in Sm as [S R]. apply Z.ltb_lt in S. destruct r; [done|].
    exists collapsed, (mark_hashed cached collapsed (opt w db)), db. do 4 (split; [done|]).
    split; [intros ->; apply stored_sub_small; [done|by apply St]|].
    split; [apply Rc; [done|]; by destruct collapsed|]. split; [done|]. cbn. by zdecide.
  - assert (HC : r || (32 <=? len (menc t)) = true).
    { destruct r; [done|]. cbn in *. rewrite andb_true_r in Sm. apply Z.ltb_ge in Sm. by apply Z.leb_le. }
    assert (H32 : r = false -> 32 <= len (menc t)) by (intros ->; cbn in HC; by apply Z.leb_le).
    unfold hash_post. rewrite HC.
    destruct w; cbn [opt].
    + destruct (agrees_insert db t Kt It A) as [S A']. pose proof (stored_sub_insert db t S (St eq_refl)) as Sa.
      eexists _, _, (<[keccak256 (menc t) := menc t]> db). split; [reflexivity|]. do 3 (split; [done|]).
      split; [intros _; apply Sa|]. split; [by apply (Rc _ (hashNode _))|]. split; [apply wtn_hash|].
      split; [done|]. intros _. by rewrite lookup_insert_eq.
    + eexists _, _, db. split; [reflexivity|]. do 4 (split; [done|]).
      split; [by apply (Rc _ (hashNode _))|]. split; [apply wtn_hash|]. done.
Qed.

(** The answer from the cache. *)
Lemma cached_sim w r n t db gen limit h c :
  mrep db r n t -> slot false t -> sized t -> inner t -> agrees w db ->
  hash_cached n (opt w db) gen limit = Some (h, c) ->
  hash_post w r t db (Ok (h, c, opt w db)).
Proof.
  intros R S Z I A HC.
  assert (C : exists f, node_cache n = (nf_hash f, nf_dirty f) /\ node_canUnload n gen limit = canUnload f gen limit /\
                        flag_ok db r f t).
  { unfold hash_cached in HC.
    inversion R as [|? v|? k n' t' f Ff Rn|? cs ts f Ff L Rc|? h' nf t' Ph RH Ld Rn]; subst; try done; by exists f. }
  destruct C as (f & Cn & Cu & Ff). unfold hash_cached in HC. rewrite Cn, Cu in HC. unfold flag_ok in Ff.
  destruct (nf_hash f) as [h'|]; [|done]. destruct Ff as (-> & H32 & Sd).
  assert (Fin : forall c', mrep db r c' t -> (w = true -> stored_at db t) ->
     hash_post w r t db (Ok (hashNode (keccak256 (menc t)), c', opt w db))).
  { intros c' Rc' Sd'. eexists _, _, db. split; [reflexivity|]. do 3 (split; [done|]).
    split; [intros Hw; apply (Sd' Hw)|]. split; [done|]. split; [apply wtn_hash|].
    assert (r || (32 <=? len (menc t)) = true) as -> by (destruct r; [done|]; by apply Z.leb_le, H32).
    split; [done|]. intros Hw. exact (proj1 (Sd' Hw)). }
  destruct w; cbn [opt] in HC; [|by injection HC as <- <-; apply Fin].
  unfold canUnload in HC. destruct (nf_dirty f); cbn [negb andb] in HC; [done|]. specialize (Sd eq_refl).
  destruct (_ <=? _); injection HC as <- <-; apply Fin; try done.
  apply mrep_stored; try done; [|by eapply menc_size]. eapply slot_decodable; try done. apply Sd.
Qed.

Lemma hash_post_weaken w r t db1 db2 res :
  db1 ⊆ db2 -> (w = false -> db2 = db1) -> hash_post w r t db2 res -> hash_post w r t db1 res.
Proof.
  intros S F (h & c & db' & E & F' & S' & H). exists h, c, db'. split; [done|].
  split; [intros ->; by rewrite F', F|]. split; [by etrans|done].
Qed.

Lemma flag_ok_mark db db' w r f t hashed :
  flag_ok db r f t -> db ⊆ db' ->
  match hashed with
  | hashNode h => h = keccak256 (menc t) /\ (r = false -> 32 <= len (menc t)) /\ (w = true -> stored_at db' t)
  | _ => r = false /\ len (menc t) < 32
  end ->
  flag_ok db' r (NodeFlag (match hashed with hashNode h => Some h | _ => None end) (nf_gen f)
                   (match opt w db' with Some _ => false | None => nf_dirty f end)) t.
Proof.
  intros Ff S H. destruct hashed as [| | | |h]; try (intros _; exact H).
  destruct H as (-> & H32 & Sd). split; [done|]. split; [done|].
  destruct w; cbn [opt nf_dirty]; [by intros _; apply Sd|]. intros D. unfold flag_ok in Ff.
  destruct (nf_hash f); [|destruct (Ff D) as [-> L]; specialize (H32 eq_refl); lia].
  destruct Ff as (_ & _ & St). eapply stored_at_mono; [done|by apply St].
Qed.

Lemma flag_ok_cache db r f t h : flag_ok db r f t -> nf_hash f = Some h -> h = keccak256 (menc t).
Proof. unfold flag_ok. intros H E. rewrite E in H. apply H. Qed.

(** The reference to a hashed child. *)
Lemma hash_post_child w t db res :
  inner t -> hash_post w false t db res ->
  exists hashed cached db', res = Ok (hashed, cached, opt w db') /\ (w = false -> db' = db) /\ db ⊆ db' /\ agrees w db' /\
    (w = true -> stored_ref db' t) /\ mrep db' false cached t /\ wtn hashed /\
    nenc hashed = mref (menc t) t /\ hashed <> Nil.
Proof.
  intros I (h & c & db' & E & F & S & A & St & R & W & H). exists h, c, db'.
  do 5 (split; [done|]). split; [done|]. split; [done|]. rewrite mref_inner by done. cbn [orb] in H.
  destruct (Z.leb_spec 32 (len (menc t))) as [L|L].
  - destruct H as [-> _]. zdecide. done.
  - destruct H as [H Ld]. zdecide. split; [done|]. by intros ->.
Qed.

Lemma hash_sim_short w db r k n t f db1 gen limit :
  flag_ok db r f (PShort k t) -> mrep db false n t ->
  (forall db1, slot false t -> sized t -> inner t -> K t -> db ⊆ db1 -> agrees w db1 ->
     hash_post w false t db1 (hash gen limit n (opt w db1) false)) ->
  slot false (PShort k t) -> sized (PShort k t) -> K (PShort k t) -> db ⊆ db1 -> agrees w db1 ->
  hash_post w r (PShort k t) db1 (hash gen limit (shortNode k n f) (opt w db1) r).
Proof.
  intros Ff R IH S Z Kt Sub A. pose proof (menc_size _ _ S Z) as M.
  destruct (hash_cached (shortNode k n f) (opt w db1) gen limit) as [[h c]|] eqn:HC.
  { cbn [hash]. rewrite HC. eapply cached_sim; try done.
    eapply mrep_mono; [exact Sub|]. by constructor. }
  assert (Hk : hexfrag k) by (by inversion Z).
  destruct (compact_ok k Hk) as (Oc & _). rewrite hash_short by done.
  assert (Fin : forall cv hv db2, (w = false -> db2 = db1) -> db1 ⊆ db2 -> agrees w db2 -> (w = true -> stored_ref db2 t) ->
     mrep db2 false hv t -> wtn cv -> nenc cv = mref (menc t) t -> cv <> Nil ->
     hash_post w r (PShort k t) db1
       ('(hashed, db) ← store (shortNode (compact k) (match cv with Nil => valueNode [] | _ => cv end) f) (opt w db2) r;
        Ok (hashed, mark_hashed (shortNode k hv f) hashed db, db))).
  { intros cv hv db2 F2 S2 A2 St2 R2 W2 E2 N2. apply (hash_post_weaken _ _ _ _ db2); [done|done|].
    replace (match cv with Nil => valueNode [] | _ => cv end) with cv by (by destruct cv).
    apply finish_hash; try done.
    - intros Hw u B. inversion B as [|u' k' t' B'|]; subst; [by left|]. right. by apply St2.
    - rewrite nenc_short, E2. done.
    - intros h. exact (flag_ok_cache db r f (PShort k t) h Ff).
    - intros db' hashed S' H'. cbn [mark_hashed]. constructor; [|by eapply mrep_mono].
      eapply flag_ok_mark; [done|by etrans; [|etrans]|done]. }
  inversion S as [| |p v Hp Hv|k' cs Hk' NE S'|]; subst.
  - apply rep_PVal in R as ->. cbn [mbind outcome_bind].
    inversion Z as [| |? ? _ _ Zv|]; subst. inversion Zv as [|? Ov _| |]; subst.
    apply (Fin (valueNode v) (valueNode v) db1); try done; [|constructor]. intros _ u B. inversion B; subst. done.
  - inversion Z as [| |? ? _ _ Zc|]; subst.
    assert (Kc : K (PFull cs)) by (eapply K_below; [exact Kt|]; apply below_short, below_refl).
    destruct (hash_post_child w (PFull cs) db1 _ ltac:(done) (IH db1 S' Zc ltac:(done) Kc Sub A))
      as (cv & hv & db2 & E & F2 & S2 & A2 & St2 & R2 & W2 & E2 & N2).
    replace (match n with valueNode _ => Ok (n, n, opt w db1) | _ => hash gen limit n (opt w db1) false end)
      with (hash gen limit n (opt w db1) false) by (inversion R; subst; done).
    rewrite E. cbn [mbind outcome_bind]. by apply (Fin cv hv db2).
Qed.

Lemma hashChildren_sim w db gen limit : forall cs ts i db1,
  length cs = length ts -> (i + length cs = 17)%nat ->
  (forall j c t, cs !! j = Some c -> ts !! j = Some t ->
     mrep db false c t /\ slot (bool_decide ((i + j)%nat = 16%nat)) t /\ sized t /\ K t /\
     (inner t -> forall db1, slot false t -> db ⊆ db1 -> agrees w db1 ->
        hash_post w false t db1 (hash gen limit c (opt w db1) false))) ->
  db ⊆ db1 -> agrees w db1 ->
  exists ccs hcs db', hashChildren gen limit i cs (opt w db1) = Ok (ccs, hcs, opt w db') /\
    (w = false -> db' = db1) /\ db1 ⊆ db' /\ agrees w db' /\ map nenc ccs = map (fun c => mref (menc c) c) ts /\ Forall wtn ccs /\
    length ccs = length cs /\ Forall2 (mrep db' false) hcs ts /\
    (w = true -> forall t, t ∈ ts -> stored_ref db' t).
Proof.
  induction cs as [|c cs IH]; intros [|t ts] i db1 L Li H Sub A; try done.
  { exists [], [], db1. do 7 (split; [done|]). split; [constructor|]. intros _ t Ht. by apply not_elem_of_nil in Ht. }
  destruct (H O c t eq_refl eq_refl) as (R & S & Z & Kt & Hh). rewrite Nat.add_0_r in S.
  assert (Step : exists cc hc db2,
     match c with
     | Nil => Ok (valueNode [], Nil, opt w db1)
     | _ => if (i <? 16)%nat then hash gen limit c (opt w db1) false else Ok (c, c, opt w db1)
     end = Ok (cc, hc, opt w db2) /\ (w = false -> db2 = db1) /\ db1 ⊆ db2 /\ agrees w db2 /\ nenc cc = mref (menc t) t /\ wtn cc /\
     mrep db2 false hc t /\ (w = true -> stored_ref db2 t)).
  { unfold mrep in *. assert (Leaf : forall t0, t0 = PNil \/ (exists v, t0 = PVal v) -> stored_ref db1 t0).
    { intros t0 Ht0 u B Iu. destruct Ht0 as [->|[v ->]]; inversion B; subst; done. }
    destruct (decide (i = 16%nat)) as [->|Ni].
    - rewrite bool_decide_true in S by done. inversion S as [|v NE| | |]; subst.
      + apply rep_PNil in R as ->. exists (valueNode []), Nil, db1. do 5 (split; [done|]). split; [constructor|]. split; [constructor|auto].
      + apply rep_PVal in R as ->. inversion Z as [|? Ov _| |]; subst.
        exists (valueNode v), (valueNode v), db1. do 6 (split; [done|]). split; [constructor|]. intros _. apply Leaf. eauto.
    - rewrite bool_decide_false in S by done. cbn in Li.
      assert (Ht : t = PNil \/ inner t) by (inversion S; subst; first [by left|by right]).
      destruct Ht as [->|It].
      + apply rep_PNil in R as ->. exists (valueNode []), Nil, db1. do 5 (split; [done|]). split; [constructor|]. split; [constructor|auto].
      + destruct (hash_post_child w t db1 _ It (Hh It db1 S Sub A)) as (cv & hv & db2 & E & F2 & S2 & A2 & St2 & R2 & W2 & E2 & N2).
        exists cv, hv, db2. assert ((i <? 16)%nat = true) as -> by (apply Nat.ltb_lt; lia).
        split; [|done]. rewrite <- E. inversion R; subst; done. }
  destruct Step as (cc & hc & db2 & E & F2 & S2 & A2 & En & Wc & Rc & St).
  destruct (IH ts (Datatypes.S i) db2) as (ccs & hcs & db' & E' & F' & S' & A' & En' & Wcs & Lc & F & St').
  { by injection L. } { cbn in Li. lia. }
  { intros j c' t' Hc Ht. destruct (H (Datatypes.S j) c' t' Hc Ht) as (R' & S0 & H'). split; [done|].
    split; [|done]. by replace (Datatypes.S i + j)%nat with (i + Datatypes.S j)%nat by lia. }
  { by etrans. } { done. }
  exists (cc :: ccs), (hc :: hcs), db'. cbn [hashChildren]. rewrite E. cbn [mbind outcome_bind].
  fold (hashChildren gen limit). rewrite E'. cbn [mbind outcome_bind map].
  split; [done|]. split; [intros ->; by rewrite F', F2|]. split; [by etrans|]. split; [done|]. split; [by rewrite En, En'|]. split; [by constructor|].
  split; [cbn; by rewrite Lc|]. split; [constructor; [by eapply mrep_mono|done]|].
  intros Hw t' Ht'. apply elem_of_cons in Ht' as [->|Ht']; [eapply stored_ref_mono; [done|by apply St]|by apply St'].
Qed.

Lemma hash_sim_full w db r cs ts f db1 gen limit :
  flag_ok db r f (PFull ts) -> length cs = length ts ->
  (forall i c t, cs !! i = Some c -> ts !! i = Some t -> mrep db false c t) ->
  (forall i c t, cs !! i = Some c -> ts !! i = Some t -> inner t ->
     forall db1, slot false t -> sized t -> K t -> db ⊆ db1 -> agrees w db1 ->
     hash_post w false t db1 (hash gen limit c (opt w db1) false)) ->
  slot false (PFull ts) -> sized (PFull ts) -> K (PFull ts) -> db ⊆ db1 -> agrees w db1 ->
  hash_post w r (PFull ts) db1 (hash gen limit (fullNode cs f) (opt w db1) r).
Proof.
  intros Ff L R IH S Z Kt Sub A. pose proof (menc_size _ _ S Z) as M.
  destruct (hash_cached (fullNode cs f) (opt w db1) gen limit) as [[h c]|] eqn:HC.
  { cbn [hash]. rewrite HC. eapply cached_sim; try done. eapply mrep_mono; [exact Sub|]. by constructor. }
  rewrite hash_full by done.
  inversion S as [| | | |ts' L17 Sc T]; subst. inversion Z as [| | |ts' Zc]; subst.
  destruct (hashChildren_sim w db gen limit cs ts O db1 L ltac:(lia)) as (ccs & hcs & db2 & E & F2 & S2 & A2 & En & Wcs & Lc & F & St).
  { intros j c t Hc Ht. cbn [Nat.add].
    assert (K t) by (eapply K_below; [exact Kt|]; by eapply below_full, below_refl).
    split; [by eapply R|]. split; [by apply Sc|]. split; [by eapply Zc|]. split; [done|].
    intros It dbx St Sx Ax. apply (IH j c t); try done. by eapply Zc. }
  { done. } { done. }
  rewrite E. cbn [mbind outcome_bind]. apply (hash_post_weaken _ _ _ _ db2); [done|done|].
  destruct (Forall2_rep db2 hcs ts F) as [Lh Rh].
  apply finish_hash; try done.
  - intros Hw u B. inversion B as [| |u' ts' i c Hc B']; subst; [by left|]. right.
    apply (St eq_refl c); [|done]. apply list_elem_of_lookup. eauto.
  - apply wtn_full; [lia|done].
  - rewrite nenc_full, En. done.
  - intros h. exact (flag_ok_cache db r f (PFull ts) h Ff).
  - intros db' hashed S' H'. cbn [mark_hashed]. constructor; [|done|].
    + eapply flag_ok_mark; [done|by etrans; [|etrans]|done].
    + intros i c t Hc Ht. eapply mrep_mono; [done|by eapply Rh].
Qed.

Lemma hash_sim w db r n t gen limit :
  mrep db r n t -> forall db1, slot false t -> sized t -> inner t -> K t -> db ⊆ db1 -> agrees w db1 ->
  hash_post w r t db1 (hash gen limit n (opt w db1) r).
Proof.
  induction 1 as [rt|rt v0|rt k0 n t f Ff R IH|rt cs ts f Ff L R IH|rt h nf t Ph RH Ld R IH];
    intros db1 S Z I Kt Sub A; try done.
  - by eapply hash_sim_short.
  - eapply hash_sim_full; try done. intros i c t Hc Ht It dbx St Zt Ktt Sx Ax. by eapply IH.
  - assert (E : hash gen limit (hashNode h) (opt w db1) rt = Ok (hashNode h, hashNode h, opt w db1)) by (by destruct w).
    rewrite E. destruct Ph as (-> & H32 & Sa).
    exists (hashNode (keccak256 (menc t))), (hashNode (keccak256 (menc t))), db1.
    do 4 (split; [done|]).
    pose proof (stored_at_mono _ _ _ Sub Sa) as Sa'. split; [intros _; apply Sa'|].
    split; [apply mrep_stored; try done; [eapply slot_decodable; try done; apply Sa'|by eapply menc_size]|].
    split; [apply wtn_hash|].
    assert (rt || (32 <=? len (menc t)) = true) as -> by (destruct rt; [done|]; by apply Z.leb_le, H32).
    split; [done|]. intros _. exact (proj1 Sa').
Qed.

End Sound.
End Merkle.
