(* ===== verification/TrieMap.v ===== *)
(** * Package [trie]: the trie as an authenticated finite map

    What [trie.go] promises to its clients: a trie implements a finite map, its root
    hash is a function of that map, and a committed trie can be opened again by its
    root.  The nodes may be anywhere: in memory, clean or dirty, or in the database. *)

From S2P Require Import Prelude Rlp RlpStream TrieEncoding Common Trie TrieModel TrieRefine TrieHash.

Section Map.
Context {HS : Hasher}.

(** ** The trie as a finite map *)

(** The tree holds the map [m] from byte-string keys. *)
Definition holds (T : ptree) (m : gmap bytes bytes) : Prop :=
  slot false T /\
  (forall key v, m !! key = Some v -> bytes_ok key) /\
  forall k v, hexkey k -> pget T k = Some v <-> exists key, bytes_ok key /\ k = keybytesToHex key /\ m !! key = Some v.

(** The trie [t], over the database [db], holds the map [m]; keys include the prefix. *)
Definition trie_holds (db : database) (t : trie) (m : gmap bytes bytes) : Prop :=
  exists T, mrep db true (t_root t) T /\ holds T m.

Lemma holds_get T m key : holds T m -> bytes_ok key -> pget T (keybytesToHex key) = m !! key.
Proof.
  intros (S & B & H) O. apply option_eq. intros v. rewrite H by (by apply hexkey_keybytes). split.
  - intros (key' & O' & E & M). apply keybytesToHex_inj in E; [|done..]. by subst.
  - intros M. by exists key.
Qed.

Lemma holds_unique T1 T2 m : holds T1 m -> holds T2 m -> T1 = T2.
Proof.
  intros (S1 & _ & H1) (S2 & _ & H2). apply (slot_unique false); [done|done|].
  intros k Hk. apply option_eq. intros v. by rewrite H1, H2.
Qed.

Lemma holds_insert T m key v :
  holds T m -> bytes_ok key -> v <> [] -> holds (pinsert T (keybytesToHex key) v) (<[key := v]> m).
Proof.
  intros (S & B & H) O NE. pose proof (hexkey_keybytes key O) as HK.
  destruct (pinsert_spec false T S (keybytesToHex key) v HK NE) as (S' & _ & G).
  split; [done|]. split.
  { intros key' w. rewrite lookup_insert. case_decide; [by subst|apply B]. }
  intros k w Hk. rewrite G by done. destruct (decide (k = keybytesToHex key)) as [->|N].
  - split.
    + intros [= <-]. exists key. split; [done|]. split; [done|]. by rewrite lookup_insert_eq.
    + intros (key' & O' & E & M). apply keybytesToHex_inj in E; [|done..]. subst key'. by rewrite lookup_insert_eq in M.
  - rewrite H by done. split; intros (key' & O' & -> & M); exists key'; (split; [done|]); (split; [done|]);
      rewrite lookup_insert_ne in * by congruence; done.
Qed.

Lemma holds_delete T m key :
  holds T m -> bytes_ok key -> holds (pdelete T (keybytesToHex key)) (base.delete key m).
Proof.
  intros (S & B & H) O. pose proof (hexkey_keybytes key O) as HK.
  destruct (pdelete_spec false T S (keybytesToHex key) HK) as (S' & G).
  split; [done|]. split.
  { intros key' w M. apply lookup_delete_Some in M as [_ M]. by eapply B. }
  intros k w Hk. rewrite G by done. destruct (decide (k = keybytesToHex key)) as [->|N].
  - split; [done|]. intros (key' & O' & E & M). apply keybytesToHex_inj in E; [|done..]. subst key'.
    by rewrite lookup_delete_eq in M.
  - rewrite H by done. split; intros (key' & O' & -> & M); exists key'; (split; [done|]); (split; [done|]);
      rewrite lookup_delete_ne in * by congruence; done.
Qed.

Lemma trie_fuel_need n k : (need n k <= trie_fuel k)%nat.
Proof. unfold need, trie_fuel. destruct (is_hashNode n); lia. Qed.

Lemma TryGet_holds db t m key :
  trie_holds db t m -> bytes_ok (t_prefix t ++ key) ->
  exists t', TryGet db t key = Ok (m !! (t_prefix t ++ key), t') /\ trie_holds db t' m /\
             t_prefix t' = t_prefix t.
Proof.
  intros (T & R & H) O. unfold TryGet. cbv zeta. set (k := keybytesToHex (t_prefix t ++ key)).
  pose proof H as (S & _).
  destruct (tryGet_sim (flag_ok db) (hash_ok db) (flag_ok_gen db) db true _ T R false (trie_fuel k) (t_cachegen t) k 0 S) as (n' & d & E & R').
  { by apply hexkey_keybytes. } { apply trie_fuel_need. }
  rewrite drop_0 in E. rewrite E. cbn. pose proof (holds_get T m _ H O) as HG. fold k in HG. rewrite HG.
  destruct d; eexists; (split; [reflexivity|]); (split; [|done]); exists T; done.
Qed.

Lemma TryDelete_holds db t m key :
  trie_holds db t m -> bytes_ok (t_prefix t ++ key) ->
  exists t', TryDelete db t key = Ok t' /\ trie_holds db t' (base.delete (t_prefix t ++ key) m) /\
             t_prefix t' = t_prefix t.
Proof.
  intros (T & R & H) O. unfold TryDelete. cbv zeta. set (k := keybytesToHex (t_prefix t ++ key)).
  pose proof H as (S & _).
  destruct (delete_sim (flag_ok db) (hash_ok db) (flag_ok_new db) db true _ T R false (trie_fuel k) (t_cachegen t) [] k S) as (d & n' & E & R' & _).
  { by apply hexkey_keybytes. } { apply trie_fuel_need. }
  rewrite E. cbn. eexists. split; [reflexivity|]. split; [|done]. exists (pdelete T k). split; [done|].
  by apply holds_delete.
Qed.

Lemma TryUpdate_holds db t m key value :
  trie_holds db t m -> bytes_ok (t_prefix t ++ key) ->
  exists t', TryUpdate db t key value = Ok t' /\ t_prefix t' = t_prefix t /\
    trie_holds db t' (match value with [] => base.delete (t_prefix t ++ key) m
                                     | _ => <[t_prefix t ++ key := value]> m end).
Proof.
  intros TH O. destruct value as [|v0 value].
  - destruct (TryDelete_holds db t m key TH O) as (t' & E & H & P). exists t'. done.
  - destruct TH as (T & R & H). unfold TryUpdate. cbv zeta. set (k := keybytesToHex (t_prefix t ++ key)).
    pose proof H as (S & _). rewrite len_cons. pose proof (len_nonneg value). zdecide. cbn [negb].
    destruct (insert_sim (flag_ok db) (hash_ok db) (flag_ok_new db) db true _ T R false (trie_fuel k) (t_cachegen t) [] k (v0 :: value) S) as (d & n' & E & R' & _).
    { by apply hexkey_keybytes. } { done. } { apply trie_fuel_need. }
    rewrite E. cbn. eexists. split; [reflexivity|]. split; [done|]. exists (pinsert T k (v0 :: value)).
    split; [done|]. by apply holds_insert.
Qed.

Lemma trie_holds_empty db r p g l : trie_holds db (Trie Nil r p g l) ∅.
Proof.
  exists PNil. split; [constructor|]. split; [constructor|]. split; [done|].
  intros k v _. split; [done|]. by intros (key & _ & _ & M).
Qed.


(** ** The specification of the root hash *)

(** The tree of a map, and its root hash. *)
Definition build (m : gmap bytes bytes) : ptree :=
  map_fold (fun key v T => pinsert T (keybytesToHex key) v) PNil m.

Definition map_root (m : gmap bytes bytes) : bytes := mroot (build m).

(** Keys and values for which the encoder's 64-bit lengths suffice. *)
Definition small (m : gmap bytes bytes) : Prop :=
  forall key v, m !! key = Some v -> len key < 2 ^ 30 /\ bytes_ok v /\ len v < 2 ^ 32.

(** The hash function has no collision among the nodes of the trie and with what is in
    the database, and does not hit the two hashes that stand for the empty trie. *)
Definition collision_free (db : database) (m : gmap bytes bytes) : Prop :=
  agrees (fun u => below u (build m)) true db /\
  (m <> ∅ -> map_root m <> emptyRoot /\ EmptyHash (map_root m) = false).

Lemma pget_nonempty b t : slot b t -> forall k v, keyrest b k -> pget t k = Some v -> v <> [].
Proof.
  induction 1 as [b|v0 Hv0|p v0 Hp Hv0|k0 cs Hk0 NE S IH|cs L Sc IH T]; intros k v Hk G.
  - done.
  - cbn in G, Hk. subst k. by injection G as <-.
  - assert (pget (PShort (p ++ [16]) (PVal v0)) k <> None) as N by (by rewrite G).
    rewrite (pget_leaf_key p v0 k Hk N Hp), pget_leaf_self in G. by injection G as <-.
  - destruct (pget_short_prefix k0 (PFull cs) k) as [r ->]; [by rewrite G|].
    rewrite pget_short_app in G. apply (IH r v); [|done]. by apply (hexkey_app_inv k0).
  - destruct k as [|x k]; [done|]. destruct (hexkey_step x k Hk) as [Hx Kr].
    rewrite pget_full in G.
    destruct (cs !! Z.to_nat x) as [c|] eqn:E; [|done]. by apply (IH _ c E k v).
Qed.

Lemma holds_nonempty T m key v : holds T m -> m !! key = Some v -> bytes_ok key /\ v <> [].
Proof.
  intros H M. pose proof H as (S & B & _). pose proof (B _ _ M) as O. split; [done|].
  apply (pget_nonempty false T S (keybytesToHex key)); [by apply hexkey_keybytes|].
  by rewrite (holds_get T m).
Qed.

Lemma holds_empty : holds PNil ∅.
Proof.
  split; [constructor|]. split; [done|]. intros k v _. split; [done|]. by intros (key & _ & _ & M).
Qed.

Lemma holds_build m : (forall key v, m !! key = Some v -> bytes_ok key /\ v <> []) -> holds (build m) m.
Proof.
  unfold build.
  apply (map_fold_weak_ind (fun T m => (forall key v, m !! key = Some v -> bytes_ok key /\ v <> []) -> holds T m)).
  - intros _. apply holds_empty.
  - intros key v m' T N IH H. destruct (H key v) as [O NE]; [by rewrite lookup_insert_eq|].
    apply holds_insert; [|done|done]. apply IH. intros key' v' M. apply (H key' v').
    rewrite lookup_insert_ne; [done|]. intros ->. congruence.
Qed.

Lemma holds_eq_build T m : holds T m -> T = build m.
Proof. intros H. apply (holds_unique _ _ m H), holds_build. intros key v. by apply holds_nonempty with (T := T). Qed.

Lemma len_keybytesToHex key : len (keybytesToHex key) = 2 * len key + 1.
Proof.
  rewrite keybytesToHex_unpack, len_app, len_cons, len_nil.
  assert (len (unpack key) = 2 * len key) as ->; [|lia].
  induction key as [|b key IH]; [done|]. unfold unpack in *. cbn [map concat app]. rewrite !len_cons, IH. lia.
Qed.

Lemma holds_sized T m : holds T m -> small m -> sized T.
Proof.
  intros (S & B & H) Sm. apply (slot_sized false T S). intros k v Hk G.
  apply H in G as (key & O & -> & M); [|done]. destruct (Sm _ _ M) as (L & Ov & Lv).
  rewrite len_keybytesToHex. split; [lia|done].
Qed.

Lemma holds_PNil m : holds PNil m -> m = ∅.
Proof.
  intros H. apply map_eq. intros key. rewrite lookup_empty. destruct (m !! key) as [v|] eqn:M; [|done].
  destruct (holds_nonempty _ _ _ _ H M) as [O _]. by rewrite <- (holds_get _ _ _ H O) in M.
Qed.

Lemma slot_inner T : slot false T -> T = PNil \/ inner T.
Proof. intros S. inversion S; first [by left|by right]. Qed.

(** [hashRoot], with or without a database to write to. *)
Lemma hashRoot_holds K w db t T m :
  (forall t u, K t -> below u t -> K u) -> K T -> agrees K w db ->
  mrep db true (t_root t) T -> holds T m -> small m ->
  exists cached db', hashRoot t (opt w db) = Ok (hashNode (mroot T), cached, opt w db') /\
    (w = false -> db' = db) /\ db ⊆ db' /\ agrees K w db' /\ mrep db' true cached T /\
    (w = true -> inner T -> stored_at db' T).
Proof.
  intros KB KT A R H Sm. pose proof (holds_sized T m H Sm) as Z. pose proof H as (S & _).
  unfold hashRoot. destruct (slot_inner T S) as [->|I].
  - apply rep_PNil in R as ->. exists Nil, db. do 4 (split; [done|]). split; [constructor|done].
  - destruct (hash_sim K KB w db true (t_root t) T (t_cachegen t) (t_cachelimit t) R db S Z I KT ltac:(done) A)
      as (h & c & db' & E & F & Sb & A' & St & R' & _ & -> & Sa). cbn in *.
    exists c, db'. split; [|split; [done|split; [done|split; [done|split; [done|]]]]].
    + rewrite <- (mroot_inner T I) in E. rewrite <- E. inversion R; subst; done.
    + intros Hw _. split; [by apply Sa|by apply St].
Qed.

Lemma len_mroot T : is_hash (mroot T).
Proof. destruct T; [split; [done|repeat constructor; unfold byte_ok; lia]|apply keccak256_hash..]. Qed.

Lemma Hash_holds db t m :
  trie_holds db t m -> small m ->
  exists t', Hash t = Ok (map_root m, t') /\ trie_holds db t' m /\ t_prefix t' = t_prefix t.
Proof.
  intros (T & R & H) Sm.
  destruct (hashRoot_holds (fun _ => True) false db t T m) as (c & db' & E & F & _ & _ & R' & _); try done.
  rewrite (F eq_refl) in *. unfold Hash. cbn [opt] in E. rewrite E. cbn [mbind outcome_bind].
  rewrite BytesToHash_id by apply len_mroot. unfold map_root. rewrite <- (holds_eq_build T m H).
  eexists. split; [reflexivity|]. split; [by exists T|done].
Qed.

(** Opening a trie whose root node is stored. *)
Lemma New_holds db T m :
  holds T m -> small m -> (inner T -> stored_at db T) ->
  (m <> ∅ -> map_root m <> emptyRoot /\ EmptyHash (map_root m) = false) ->
  exists t, New (map_root m) db = Ok t /\ trie_holds db t m.
Proof.
  intros H Sm St NE. pose proof (holds_eq_build T m H) as EB. pose proof H as (S & _).
  unfold New. destruct (slot_inner T S) as [->|I].
  - pose proof (holds_PNil m H) as ->. unfold map_root. rewrite <- EB. cbn [mroot].
    rewrite (bool_decide_true (emptyRoot = emptyRoot)), andb_false_r by done.
    eexists. split; [reflexivity|]. exists PNil. split; [constructor|done].
  - assert (Nm : m <> ∅) by (intros ->; apply (holds_unique _ _ _ holds_empty) in H; by subst T).
    destruct (NE Nm) as [N1 ->]. rewrite bool_decide_false by done. cbn [negb andb].
    pose proof (holds_sized T m H Sm) as Z. pose proof (menc_size false T S Z) as M. specialize (St I).
    assert (R : mrep db true (hashNode (map_root m)) T).
    { unfold map_root. rewrite <- EB, mroot_inner by done. apply mrep_stored; try done.
      eapply slot_decodable; try done. apply St. }
    inversion R as [| | | |r h nf T' Ph RH Ld Rn]; subst. rewrite RH. cbn [mbind outcome_bind].
    eexists. split; [reflexivity|]. exists (build m). split; [apply Rn|done].
Qed.

Lemma CommitTo_stored K db t m :
  (forall t u, K t -> below u t -> K u) -> K (build m) -> agrees K true db ->
  trie_holds db t m -> small m ->
  exists t' db', CommitTo t db = Ok (map_root m, t', db') /\ db ⊆ db' /\ agrees K true db' /\
    trie_holds db' t' m /\ t_prefix t' = t_prefix t /\ (inner (build m) -> stored_at db' (build m)).
Proof.
  intros KB KT A (T & R & H) Sm. pose proof (holds_eq_build T m H) as EB. rewrite <- EB in *.
  destruct (hashRoot_holds K true db t T m) as (c & db' & E & _ & Sb & A' & R' & St); try done.
  unfold CommitTo. cbn [opt] in E. rewrite E. cbn [mbind outcome_bind].
  rewrite BytesToHash_id by apply len_mroot.
  replace (mroot T) with (map_root m) by (unfold map_root; by rewrite <- EB).
  eexists _, db'. split; [reflexivity|]. split; [done|]. split; [done|]. split; [by exists T|]. split; [done|by apply St].
Qed.

Lemma trie_holds_valid db t m : trie_holds db t m -> holds (build m) m.
Proof. intros (T & _ & H). by rewrite <- (holds_eq_build T m H). Qed.

Lemma CommitTo_holds db t m :
  trie_holds db t m -> small m -> collision_free db m ->
  exists t' db', CommitTo t db = Ok (map_root m, t', db') /\ db ⊆ db' /\ trie_holds db' t' m /\
    t_prefix t' = t_prefix t /\ exists t'', New (map_root m) db' = Ok t'' /\ trie_holds db' t'' m.
Proof.
  intros TH Sm [A NE].
  destruct (CommitTo_stored (fun u => below u (build m)) db t m) as (t' & db' & E & Sb & _ & TH' & P & St); try done.
  { intros u v Bu Bv. by apply (below_trans v u). } { constructor. }
  exists t', db'. do 4 (split; [done|]). apply (New_holds db' (build m) m); try done. by apply (trie_holds_valid db t).
Qed.

(** ** Correctness *)

(** C3. The trie is a finite map: on a trie that holds the map [m], with any part of it
    still in the database, [TryGet] returns the value of the key in [m], [TryUpdate]
    yields a trie that holds [m] with the key bound to the value (removed when the
    value is empty), and [TryDelete] one without the key.  None of them fails, panics
    or runs out of fuel. *)
Theorem trie_refines_map db t m key value :
  trie_holds db t m -> bytes_ok (t_prefix t ++ key) ->
  let k := t_prefix t ++ key in
  (exists t', TryGet db t key = Ok (m !! k, t') /\ trie_holds db t' m) /\
  (exists t', TryUpdate db t key value = Ok t' /\
     trie_holds db t' (match value with [] => base.delete k m | _ => <[k := value]> m end)) /\
  (exists t', TryDelete db t key = Ok t' /\ trie_holds db t' (base.delete k m)).
Proof.
  intros H O. cbv zeta. split; [|split].
  - destruct (TryGet_holds db t m key H O) as (t' & ? & ? & _). eauto.
  - destruct (TryUpdate_holds db t m key value H O) as (t' & ? & _ & ?). eauto.
  - destruct (TryDelete_holds db t m key H O) as (t' & ? & ? & _). eauto.
Qed.

(** C5. The root hash is a function of the content: two tries that hold the same map,
    whatever operations built them and whichever of their nodes are loaded, cached or
    dirty, hash to the same root, the Merkle root of the canonical tree of the map;
    hashing leaves the content as it is. *)
Theorem Hash_determined_by_content db1 t1 db2 t2 m :
  trie_holds db1 t1 m -> trie_holds db2 t2 m -> small m ->
  exists t1' t2', Hash t1 = Ok (map_root m, t1') /\ Hash t2 = Ok (map_root m, t2') /\
    trie_holds db1 t1' m /\ trie_holds db2 t2' m.
Proof.
  intros H1 H2 Sm. destruct (Hash_holds _ _ _ H1 Sm) as (t1' & E1 & R1 & _).
  destruct (Hash_holds _ _ _ H2 Sm) as (t2' & E2 & R2 & _). by exists t1', t2'.
Qed.

(** C4. Committing keeps the content: [CommitTo] returns the Merkle root of the map,
    only adds entries to the database, and [New] with that root opens a trie that holds
    the same map, when the hash function does not collide on the nodes involved. *)
Theorem CommitTo_reopens db t m :
  trie_holds db t m -> small m -> collision_free db m ->
  exists t' db', CommitTo t db = Ok (map_root m, t', db') /\ db ⊆ db' /\ trie_holds db' t' m /\
    exists t'', New (map_root m) db' = Ok t'' /\ trie_holds db' t'' m.
Proof.
  intros H Sm CF. destruct (CommitTo_holds db t m H Sm CF) as (t' & db' & E & Sb & R & _ & N). eauto 10.
Qed.

End Map.

(** ** Concrete instances *)

(** A function with 32-byte values, injective on short encodings. *)
Lemma sample_hash_ok b : is_hash (be_fixed 32 (be_decode b)).
Proof. split; [apply len_be_fixed|apply be_fixed_ok]. Qed.

#[local] Instance sample_hasher : Hasher :=
  {| keccak256 b := be_fixed 32 (be_decode b); keccak256_hash := sample_hash_ok |}.

Definition sample_trie : trie := Trie Nil [] [1] 0 0.

Definition sample_map : gmap bytes bytes := {[ [1; 2; 3] := [9] ]}.

Lemma sample_key_ok : bytes_ok (t_prefix sample_trie ++ [2; 3]).
Proof. repeat constructor; unfold byte_ok; lia. Qed.

Lemma sample_trie_update :
  exists t', TryUpdate ∅ sample_trie [2; 3] [9] = Ok t' /\ t_prefix t' = [1] /\ trie_holds ∅ t' sample_map.
Proof. exact (TryUpdate_holds ∅ sample_trie ∅ [2; 3] [9] (trie_holds_empty _ _ _ _ _) sample_key_ok). Qed.

Lemma small_sample : small sample_map.
Proof.
  intros key v M. unfold sample_map in M. apply lookup_singleton_Some in M as [<- <-].
  split; [done|]. split; [repeat constructor; unfold byte_ok; lia|done].
Qed.

Lemma collision_free_sample : collision_free ∅ sample_map.
Proof.
  split; [|intros _; split; [by vm_compute|done]]. intros _.
  assert (E : build sample_map = PShort (keybytesToHex [1; 2; 3]) (PVal [9])) by (by vm_compute).
  rewrite E. split; [|done]. intros u v Bu Bv Iu Iv _.
  inversion Bu as [|? ? ? Bu'|]; subst; [|inversion Bu'; by subst].
  inversion Bv as [|? ? ? Bv'|]; subst; [done|inversion Bv'; by subst].
Qed.

Lemma trie_refines_map_witness :
  exists t', TryUpdate ∅ sample_trie [2; 3] [9] = Ok t' /\ trie_holds ∅ t' sample_map.
Proof.
  destruct (trie_refines_map ∅ sample_trie ∅ [2; 3] [9]) as (_ & H & _).
  - apply trie_holds_empty.
  - apply sample_key_ok.
  - exact H.
Defined.

Lemma Hash_determined_by_content_witness :
  exists t t', TryUpdate ∅ sample_trie [2; 3] [9] = Ok t /\ Hash t = Ok (map_root sample_map, t').
Proof.
  destruct sample_trie_update as (t & E & _ & H).
  destruct (Hash_determined_by_content ∅ t ∅ t sample_map H H small_sample) as (t' & _ & E' & _).
  exists t, t'. split; [exact E|exact E'].
Defined.

Lemma CommitTo_reopens_witness :
  exists t t' db', TryUpdate ∅ sample_trie [2; 3] [9] = Ok t /\ CommitTo t ∅ = Ok (map_root sample_map, t', db').
Proof.
  destruct sample_trie_update as (t & E & _ & H).
  destruct (CommitTo_reopens ∅ t sample_map H small_sample collision_free_sample) as (t' & db' & E' & _).
  exists t, t', db'. split; [exact E|exact E'].
Defined.
