(* ===== verification/TrieProof.v ===== *)
(** * Package [trie]: Merkle proofs

    [src/pkg/trie/proof.go]: [Prove], which collects the encoded nodes on the path to a key,
    and [VerifyProof], which looks a key up in such a collection.  The proof database is a
    map from hashes to encodings. *)

From S2P Require Import Prelude Rlp TrieEncoding Common Trie TrieModel TrieRefine TrieHash TrieMap.

(** ** Model *)

Section Proofs.
Context {HS : Hasher}.

(** The nodes on the path to the key.  A step consumes a part of the key or loads a node;
    a missing prefix of the key ends the loop with the node that shows it. *)
Fixpoint prove_path (fuel : nat) (db : database) (gen : Z) (tn : node) (key : bytes)
  : outcome trie_error (list node) :=
  match fuel with
  | O => OutOfFuel
  | S fuel =>
    match key with
    | [] => Ok []
    | k0 :: krest =>
      match tn with
      | Nil => Ok []
      | shortNode k v _ =>
        if (len key <? len k) || negb (bool_decide (k = take (length k) key)) then Ok [tn]
        else ns ← prove_path fuel db gen v (drop (length k) key); Ok (tn :: ns)
      | fullNode cs _ =>
        c ← child cs k0;
        ns ← prove_path fuel db gen c krest; Ok (tn :: ns)
      | hashNode h =>
        rn ← resolveHash db gen h [];
        prove_path fuel db gen rn key
      | valueNode _ => Panic
      end
    end
  end.

(** [hasher.hashChildren] on a node. *)
Definition hashChildren_node (gen limit : Z) (n : node) (db : option database)
  : outcome unit (node * node * option database) :=
  match n with
  | shortNode k v f =>
    ck ← hexToCompact k;
    '(cv, hv, db) ← match v with
                    | valueNode _ => Ok (v, v, db)
                    | _ => hash gen limit v db false
                    end;
    let cv := match cv with Nil => valueNode [] | _ => cv end in
    Ok (shortNode ck cv f, shortNode k hv f, db)
  | fullNode cs f =>
    '(ccs, hcs, db) ← hashChildren gen limit O cs db;
    Ok (fullNode ccs f, fullNode hcs f, db)
  | _ => Ok (n, n, db)
  end.

(** The loop over the nodes; [first] is [i == 0].  Hashing without a database and encoding a
    collapsed node return no error. *)
Fixpoint prove_put (first : bool) (nodes : list node) (fromLevel : Z) (proofDb : database)
  : outcome unit database :=
  match nodes with
  | [] => Ok proofDb
  | n :: nodes =>
    '(n, _, _) ← hashChildren_node 0 0 n None;
    '(hn, _) ← store n None false;
    let put hash :=
      if 0 <? fromLevel then prove_put false nodes (fromLevel - 1) proofDb
      else
        enc ← map_err (fun _ => tt) (EncodeToBytes TIface (node_rval n));
        prove_put false nodes fromLevel (<[default (keccak256 enc) hash := enc]> proofDb) in
    match hn with
    | hashNode h => put (Some h)
    | _ => if first then put None else prove_put false nodes fromLevel proofDb
    end
  end.

Definition Prove (db : database) (t : trie) (key : bytes) (fromLevel : Z) (proofDb : database)
  : outcome trie_error database :=
  let key := keybytesToHex key in
  nodes ← prove_path (trie_fuel key) db (t_cachegen t) (t_root t) key;
  match prove_put true nodes fromLevel proofDb with
  | Ok proofDb => Ok proofDb
  | OutOfFuel => OutOfFuel
  | _ => Panic
  end.

Inductive proof_error :=
| ProofMissing (i : Z) (wantHash : bytes)
| ProofBad (i : Z) (e : node_error).

(** [get] follows the key inside one decoded node and what is embedded in it. *)
Fixpoint get (tn : node) (key : bytes) {struct tn} : outcome proof_error (bytes * node) :=
  match tn with
  | shortNode k v _ =>
    if (len key <? len k) || negb (bool_decide (k = take (length k) key)) then Ok ([], Nil)
    else get v (drop (length k) key)
  | fullNode cs _ =>
    match key with
    | [] => Panic
    | k0 :: krest =>
      (fix get_child (cs : list node) (i : nat) {struct cs} : outcome proof_error (bytes * node) :=
         match cs, i with
         | [], _ => Panic
         | c :: _, O => get c krest
         | _ :: cs, S i => get_child cs i
         end) cs (Z.to_nat k0)
    end
  | hashNode _ => Ok (key, tn)
  | Nil => Ok (key, Nil)
  | valueNode _ => Ok ([], tn)
  end.

(** The loop of [VerifyProof], which follows references for as long as it is given some: a
    collection of nodes that refer to each other with empty keys keeps it running. *)
Fixpoint verify_loop (fuel : nat) (i : Z) (key wantHash : bytes) (proofDb : database)
  : outcome proof_error (option bytes * Z) :=
  match fuel with
  | O => OutOfFuel
  | S fuel =>
    match proofDb !! wantHash with
    | None => Err (ProofMissing i wantHash)
    | Some buf =>
      n ← map_err (ProofBad i) (decodeNode (Some wantHash) buf 0);
      '(keyrest, cld) ← get n key;
      match cld with
      | Nil => Ok (None, i)
      | hashNode h => verify_loop fuel (i + 1) keyrest h proofDb
      | valueNode v => Ok (Some v, i + 1)
      | _ => verify_loop fuel (i + 1) key wantHash proofDb
      end
    end
  end.

Definition VerifyProof (fuel : nat) (rootHash key : bytes) (proofDb : database)
  : outcome proof_error (option bytes * Z) :=
  verify_loop fuel 0 (keybytesToHex key) rootHash proofDb.

(** ** Lemmas: following a key *)

Lemma get_full cs f k0 krest :
  get (fullNode cs f) (k0 :: krest) = match cs !! Z.to_nat k0 with Some c => get c krest | None => Panic end.
Proof. cbn [get]. generalize (Z.to_nat k0). induction cs as [|c cs IH]; intros [|i]; done. Qed.

(** The trees on the path to a key. *)
Fixpoint ppath (t : ptree) (key : bytes) : list ptree :=
  match t, key with
  | PShort k u, _ :: _ => t :: (if bool_decide (k = take (length k) key) then ppath u (drop (length k) key) else [])
  | PFull cs, k0 :: krest =>
    t :: (fix go (cs : list ptree) (i : nat) : list ptree :=
            match cs, i with [], _ => [] | c :: _, O => ppath c krest | _ :: cs, S i => go cs i end) cs (Z.to_nat k0)
  | _, _ => []
  end.

Lemma ppath_full cs k0 krest :
  ppath (PFull cs) (k0 :: krest) = PFull cs :: match cs !! Z.to_nat k0 with Some c => ppath c krest | None => [] end.
Proof. cbn [ppath]. f_equal. generalize (Z.to_nat k0). induction cs as [|c cs IH]; intros [|i]; done. Qed.

Lemma ppath_short k u r : k <> [] -> ppath (PShort k u) (k ++ r) = PShort k u :: ppath u r.
Proof.
  intros N. destruct k as [|x k]; [done|]. destruct (take_drop_app (x :: k) r) as [T D].
  cbn [ppath app]. change (x :: k ++ r) with ((x :: k) ++ r). by rewrite T, D, bool_decide_true.
Qed.

(** Where [get] stops: at a reference to a tree further down the path, at the value, or
    where the key leaves the tree. *)
Definition get_post (u : ptree) (key : bytes) (res : outcome proof_error (bytes * node)) (strict : bool) : Prop :=
  exists rest cld, res = Ok (rest, cld) /\
  match cld with
  | hashNode h => exists v, h = keccak256 (menc v) /\ 32 <= len (menc v) /\ inner v /\ below v u /\ slot false v /\
      hexkey rest /\ pget u key = pget v rest /\ (exists l, ppath u key = l ++ ppath v rest) /\
      (length rest + (if strict then 1 else 0) <= length key)%nat
  | Nil => pget u key = None
  | valueNode v => pget u key = Some v
  | _ => False
  end.

Lemma get_post_below u v key rest (strict : bool) :
  below v u -> pget u key = pget v rest -> (exists l, ppath u key = l ++ ppath v rest) ->
  (length rest + (if strict then 1 else 0) <= length key)%nat ->
  forall res, get_post v rest res false -> get_post u key res strict.
Proof.
  intros B G [l P] L res (r & cld & -> & H). exists r, cld. split; [done|].
  destruct cld as [|w|? ? ?|? ?|h]; try done; [by rewrite G..|].
  destruct H as (w & -> & H32 & Iw & Bw & Sw & Hr & Gw & [l' Pw] & Lw). exists w. do 3 (split; [done|]).
  split; [by eapply below_trans|]. do 2 (split; [done|]). split; [by rewrite G|].
  split; [exists (l ++ l'); by rewrite P, Pw, app_assoc|]. lia.
Qed.

Lemma get_post_weaken u key res : get_post u key res true -> get_post u key res false.
Proof.
  intros (rest & cld & -> & H). exists rest, cld. split; [done|]. destruct cld; try done.
  destruct H as (v & H1 & H2 & H3 & H4 & H5 & H6 & H7 & H8 & L). exists v. do 8 (split; [done|]). lia.
Qed.

(** [get] on a node whose children are followed rightly. *)
Definition get_ok (n : node) (u : ptree) : Prop :=
  forall b key, slot b u -> keyrest b key -> get_post u key (get n key) false.

Lemma get_short_post k n t f key :
  get_ok n t -> slot false (PShort k t) -> hexkey key -> get_post (PShort k t) key (get (shortNode k n f) key) true.
Proof.
  intros IH S Hk. cbn [get]. destruct (starts_with k key) as [[r ->]|NP].
  - destruct (take_drop_app k r) as [-> ->]. rewrite bool_decide_true, len_app by done.
    pose proof (len_nonneg r). zdecide. cbn [orb negb].
    assert (k <> []) as N by (inversion S; subst; [by destruct p|done]).
    apply (get_post_below _ t _ r); [apply below_short, below_refl|by rewrite pget_short_app| | |].
    + exists [PShort k t]. by rewrite ppath_short.
    + rewrite length_app. destruct k; [done|]. cbn. lia.
    + inversion S as [| |p v Hp Hv|k' cs Hk' NE S'|]; subst.
      * apply (IH true); [by constructor|]. by apply (hexkey_prefix_free (p ++ [16])); [exists p|].
      * apply (IH false); [done|]. by eapply hexkey_app_inv.
  - rewrite (bool_decide_false _ NP), orb_true_r. exists [], Nil. split; [done|]. by apply pget_short_ne.
Qed.

Lemma get_full_post cs ts f key :
  length cs = length ts -> (forall i c t, cs !! i = Some c -> ts !! i = Some t -> get_ok c t) ->
  slot false (PFull ts) -> hexkey key -> get_post (PFull ts) key (get (fullNode cs f) key) true.
Proof.
  intros L IH S Hk. inversion S as [| | | |ts' L17 Sc T]; subst.
  destruct (hexkey_cons_inv key Hk) as (x & rest & ->). destruct (hexkey_step _ _ Hk) as [Hx Hr].
  destruct (lookup_lt_is_Some_2 ts (Z.to_nat x)) as [u Hu]; [lia|].
  destruct (lookup_lt_is_Some_2 cs (Z.to_nat x)) as [c Hc]; [lia|].
  rewrite get_full, Hc. apply (get_post_below _ u _ rest); [by eapply below_full, below_refl|by rewrite pget_full, Hu| |cbn; lia|].
  - exists [PFull ts]. by rewrite ppath_full, Hu.
  - apply (IH _ _ _ Hc Hu (bool_decide (Z.to_nat x = 16%nat))); [by apply Sc|done].
Qed.

(** A reference to a subtree, or the subtree itself, inside its parent. *)
Lemma get_ref db n u : mrep db false n u -> get_ok n u.
Proof.
  intros R. remember false as r eqn:Er. revert Er.
  induction R as [rt|rt v0|rt k0 n t f Ff R IH|rt cs ts f Ff L R IH|rt h nf t Ph RH Ld R IH];
    intros -> b key S Hk; [by exists key, Nil|by exists [], (valueNode v0)|..].
  - assert (b = false) as -> by (by inversion S). apply get_post_weaken, get_short_post; [by apply IH|done|done].
  - assert (b = false) as -> by (by inversion S). apply get_post_weaken, get_full_post; [done| |done|done].
    intros i c t Hc Ht. by apply (IH i c t).
  - destruct Ph as (-> & H32 & Sa). assert (It : inner t).
    { specialize (Ld 0). specialize (R 0). destruct (nf 0); try done; inversion R; subst; done. }
    assert (b = false) as -> by (by inversion S; subst).
    exists key, (hashNode (keccak256 (menc t))). split; [done|]. exists t. split; [done|]. split; [by apply H32|].
    do 2 (split; [done || constructor|]). do 3 (split; [done|]). split; [by exists []|lia].
Qed.

(** A decoded node: the key gets shorter before a reference. *)
Lemma get_node db r n u key :
  mrep db r n u -> loaded n -> slot false u -> hexkey key -> get_post u key (get n key) true.
Proof.
  intros R Ld S Hk. inversion R as [| |rt k0 n' t f Ff R'|rt cs ts f Ff L R'|]; subst; try done.
  - apply get_short_post; [by apply (get_ref db)|done|done].
  - apply get_full_post; [done| |done|done]. intros i c t Hc Ht. by eapply get_ref, R'.
Qed.

(** ** Lemmas: verification *)

Lemma subtrees_finite b T : slot b T -> exists l : list ptree, forall u, u ∈ l <-> below u T.
Proof.
  induction 1 as [b|v0 Hv0|p v0 Hp Hv0|k0 cs Hk0 NE S IH|cs L Sc IH T].
  - exists [PNil]. intros u. rewrite list_elem_of_singleton. split; [intros ->; constructor|by inversion 1].
  - exists [PVal v0]. intros u. rewrite list_elem_of_singleton. split; [intros ->; constructor|by inversion 1].
  - exists [PShort (p ++ [16]) (PVal v0); PVal v0]. intros u. rewrite !list.elem_of_cons, elem_of_nil. split.
    + intros [->|[->|[]]]; [constructor|apply below_short, below_refl].
    + intros B. inversion B as [|? ? ? B'|]; subst; [by left|]. inversion B'; subst. auto.
  - destruct IH as [l Hl]. exists (PShort k0 (PFull cs) :: l). intros u. rewrite list.elem_of_cons, Hl. split.
    + intros [->|B]; [constructor|by apply below_short].
    + intros B. inversion B; subst; auto.
  - clear L T Sc. assert (F : exists ls : list ptree, forall u, u ∈ ls <-> exists i c, cs !! i = Some c /\ below u c).
    { induction cs as [|c cs IHc]; [exists []; intros u; rewrite elem_of_nil; split; [done|by intros (? & ? & ? & _)]|].
      destruct (IH O c eq_refl) as [l Hl]. destruct IHc as [ls Hls]; [intros i d Hd; by apply (IH (S i) d)|].
      exists (l ++ ls). intros u. rewrite elem_of_app, Hl, Hls. split.
      - intros [B|(i & d & Hd & B)]; [by exists O, c|by exists (S i), d].
      - intros ([|i] & d & Hd & B); [injection Hd as <-; by left|right; eauto]. }
    destruct F as [ls Hls]. exists (PFull cs :: ls). intros u. rewrite list.elem_of_cons, Hls. split.
    + intros [->|(i & c & Hc & B)]; [constructor|by eapply below_full].
    + intros B. inversion B; subst; eauto.
Qed.

#[local] Instance inner_dec u : Decision (inner u).
Proof. destruct u; cbn; apply _. Defined.

Definition no_collision (T : ptree) : Prop :=
  forall u v, below u T -> below v T -> inner u -> inner v -> keccak256 (menc u) = keccak256 (menc v) -> menc u = menc v.

(** The database with all the nodes of a tree. *)
Lemma full_database b T :
  slot b T -> no_collision T ->
  exists D : database, forall u, below u T -> inner u -> D !! keccak256 (menc u) = Some (menc u).
Proof.
  intros S N. destruct (subtrees_finite b T S) as [l Hl].
  exists (list_to_map ((fun u => (keccak256 (menc u), menc u)) <$> filter inner l)). intros u B I.
  apply elem_of_list_to_map_1'.
  - intros e He. apply list_elem_of_fmap in He as (v & [= E ->] & Hv). apply list_elem_of_filter in Hv as [Iv Hv].
    first [apply N|symmetry; apply N]; try done; by apply Hl.
  - apply list_elem_of_fmap. exists u. split; [done|]. apply list_elem_of_filter. split; [done|by apply Hl].
Qed.

Lemma sized_below u T : below u T -> sized T -> sized u.
Proof. induction 1 as [|u k t B IH|u cs i c Hc B IH]; intros Z; [done|..]; inversion Z; subst; eauto. Qed.

Section Verify.
Context (T : ptree) (HT : slot false T) (ZT : sized T) (NC : no_collision T).
Context (proofDb : database).
Hypothesis proofDb_ok : forall u e, below u T -> inner u -> proofDb !! keccak256 (menc u) = Some e -> e = menc u.

Lemma decode_proof_node u :
  below u T -> inner u -> slot false u ->
  exists D n, decodeNode (Some (keccak256 (menc u))) (menc u) 0 = Ok n /\ loaded n /\ mrep D true n u.
Proof.
  intros B I S. destruct (full_database false T HT NC) as [D HD].
  assert (St : stored_ref D u) by (intros v Bv Iv _; apply HD; [by eapply below_trans|done]).
  pose proof (sized_below _ _ B ZT) as Z. pose proof (menc_size _ _ S Z) as (_ & Lm & _).
  destruct (slot_decodable false u D S Z St I (Datatypes.S (length (menc u))) true (Some (keccak256 (menc u))) 0 [])
    as (n & E & Ld & R); [constructor|rewrite app_nil_r; lia|lia| |].
  - split; [done|]. split; [done|]. intros _. split; [by apply HD|done].
  - exists D, n. rewrite app_nil_r in E. done.
Qed.

(** What is missing when verification fails. *)
Definition missing (u : ptree) (key : bytes) : Prop :=
  exists w, w ∈ ppath u key /\ (w = u \/ 32 <= len (menc w)) /\ proofDb !! keccak256 (menc w) = None.

Lemma verify_loop_spec fuel : forall u key i,
  below u T -> inner u -> slot false u -> hexkey key -> (length key < fuel)%nat ->
  (exists n, verify_loop fuel i key (keccak256 (menc u)) proofDb = Ok (pget u key, n)) \/
  (exists j h, verify_loop fuel i key (keccak256 (menc u)) proofDb = Err (ProofMissing j h)) /\ missing u key.
Proof.
  induction fuel as [|fuel IH]; intros u key i B I S Hk L; [lia|]. cbn [verify_loop].
  destruct (proofDb !! keccak256 (menc u)) as [buf|] eqn:P.
  2: { right. split; [by eauto|]. exists u. split; [|split; [by left|done]].
       destruct (hexkey_cons_inv key Hk) as (x & r & ->). destruct u; try done; cbn; by left. }
  apply proofDb_ok in P as ->; [|done|done].
  destruct (decode_proof_node u B I S) as (D & n & E & Ld & R). rewrite E. cbn [map_err mbind outcome_bind].
  destruct (get_node D true n u key R Ld S Hk) as (rest & cld & G & H). rewrite G. cbn [mbind outcome_bind].
  destruct cld as [|v|? ? ?|? ?|h]; try done; [left; rewrite H; eauto..|].
  destruct H as (v & -> & H32 & Iv & Bv & Sv & Hr & Pg & [l Pp] & Lr).
  destruct (IH v rest (i + 1) (below_trans _ _ _ Bv B) Iv Sv Hr) as [[n' V]|[V (w & Hw & Hc & Mw)]]; [lia|..].
  - left. exists n'. by rewrite Pg.
  - right. split; [done|]. exists w. rewrite Pp. split; [apply elem_of_app; by right|]. split; [|done].
    right. by destruct Hc as [->|].
Qed.
End Verify.

(** ** Lemmas: construction *)

(** A loaded node of the trie and the tree it stands for. *)
Definition on_path (db : database) (T : ptree) (n : node) (u : ptree) : Prop :=
  loaded n /\ (exists r, mrep db r n u) /\ slot false u /\ below u T.

Lemma on_path_below db T T' n u : below T' T -> on_path db T' n u -> on_path db T n u.
Proof. intros B (Ld & R & S & B'). repeat split; try done. by eapply below_trans. Qed.

Lemma prove_path_spec db gen fuel : forall r n u b key,
  mrep db r n u -> slot b u -> keyrest b key -> (need n key <= fuel)%nat ->
  exists ns, prove_path fuel db gen n key = Ok ns /\ Forall2 (on_path db u) ns (ppath u key).
Proof.
  induction fuel as [|fuel IH]; intros r n u b key R S Hk L; [unfold need in L; lia|].
  destruct key as [|x key'] eqn:Ek.
  { exists []. split; [done|]. destruct u; constructor. }
  rewrite <- Ek in *. assert (b = false) as -> by (by destruct b; [rewrite Ek in Hk|]).
  assert (E : prove_path (Datatypes.S fuel) db gen n key =
     match n with
     | Nil => Ok []
     | shortNode k v _ =>
       if (len key <? len k) || negb (bool_decide (k = take (length k) key)) then Ok [n]
       else ns ← prove_path fuel db gen v (drop (length k) key); Ok (n :: ns)
     | fullNode cs _ => c ← child cs x; ns ← prove_path fuel db gen c key'; Ok (n :: ns)
     | hashNode h => rn ← resolveHash db gen h []; prove_path fuel db gen rn key
     | valueNode _ => Panic
     end) by (rewrite Ek; by destruct n).
  rewrite E. clear E. pose proof R as R0.
  inversion R as [|rt v0|rt k n' t f Ff R'|rt cs ts f Ff Lc R'|rt h nf t Ph RH Ld R']; subst n u; subst.
  - exists []. split; [done|constructor].
  - by inversion S.
  - assert (k <> []) as N by (inversion S; subst; [by destruct p|done]).
    destruct (starts_with k (x :: key')) as [[rest Er]|NP].
    + rewrite Er. destruct (take_drop_app k rest) as [-> ->]. rewrite bool_decide_true, len_app by done.
      pose proof (len_nonneg rest). zdecide. cbn [orb negb].
      assert (exists b', slot b' t /\ keyrest b' rest) as (b' & St & Hr).
      { rewrite Er in Hk. inversion S as [| |p v Hp Hv|k' cs Hk' NE S'|]; subst.
        - exists true. split; [by constructor|]. by apply (hexkey_prefix_free (p ++ [16])); [exists p|].
        - exists false. split; [done|]. by eapply hexkey_app_inv. }
      destruct (IH false n' t b' rest R' St Hr) as (ns & -> & F).
      { apply (f_equal length) in Er. rewrite length_app in Er. unfold need in *. destruct k; [done|]. cbn in *. case_goal; lia. }
      eexists. split; [done|]. rewrite ppath_short by done. constructor.
      * repeat split; [by exists r|done|constructor].
      * eapply Forall2_impl; [|exact F]. intros n1 u1. apply on_path_below, below_short, below_refl.
    + rewrite (bool_decide_false _ NP), orb_true_r. eexists. split; [done|].
      cbn [ppath]. rewrite (bool_decide_false _ NP). constructor; [|constructor]. repeat split; [by exists r|done|constructor].
  - inversion S as [| | | |ts' L17 Sc T]; subst. destruct (hexkey_step _ _ Hk) as [Hx Hr].
    destruct (lookup_lt_is_Some_2 ts (Z.to_nat x)) as [u Hu]; [lia|].
    destruct (lookup_lt_is_Some_2 cs (Z.to_nat x)) as [c Hc]; [lia|].
    unfold child. rewrite Hc. cbn [mbind outcome_bind].
    destruct (IH false c u _ key' (R' _ _ _ Hc Hu) (Sc _ _ Hu) Hr) as (ns & -> & F).
    { unfold need in *. cbn in *. case_goal; lia. }
    eexists. split; [done|]. rewrite ppath_full, Hu. constructor.
    + repeat split; [by exists r|done|constructor].
    + eapply Forall2_impl; [|exact F]. intros n1 u1. apply on_path_below. by eapply below_full, below_refl.
  - rewrite RH. cbn [mbind outcome_bind]. apply (IH r (nf gen) _ false); [apply R'|done|done|].
    specialize (Ld gen). unfold need in *. destruct (nf gen); try done; cbn in *; lia.
Qed.

(** [hashChildren] gives the encoding of the tree. *)
Lemma collapse_spec db r n u :
  mrep db r n u -> loaded n -> slot false u -> sized u ->
  exists collapsed cached, hashChildren_node 0 0 n None = Ok (collapsed, cached, None) /\
    wtn collapsed /\ loaded collapsed /\ nenc collapsed = menc u /\
    (forall h, fst (node_cache collapsed) = Some h -> h = keccak256 (menc u)).
Proof.
  intros R Ld S Z. set (K := fun _ : ptree => True). assert (A : agrees K false db) by done.
  inversion R as [| |rt k n' t f Ff R'|rt cs ts f Ff Lc R'|]; subst; try done.
  - assert (Hk : hexfrag k) by (by inversion Z). destruct (compact_ok k Hk) as (Oc & _).
    cbn [hashChildren_node]. rewrite hexToCompact_compact by done. cbn [mbind outcome_bind].
    assert (Fin : forall cv hv, match n' with valueNode _ => Ok (n', n', None) | _ => hash 0 0 n' None false end = Ok (cv, hv, None) ->
      wtn cv -> nenc cv = mref (menc t) t -> cv <> Nil -> exists collapsed cached,
      ('(cv, hv, db) ← match n' with valueNode _ => Ok (n', n', None) | _ => hash 0 0 n' None false end;
       Ok (shortNode (compact k) (match cv with Nil => valueNode [] | _ => cv end) f, shortNode k hv f, db)) = Ok (collapsed, cached, None) /\
      wtn collapsed /\ loaded collapsed /\ nenc collapsed = menc (PShort k t) /\
      (forall h, fst (node_cache collapsed) = Some h -> h = keccak256 (menc (PShort k t)))).
    { intros cv hv -> W E N. eexists _, _. split; [reflexivity|].
      replace (match cv with Nil => valueNode [] | _ => cv end) with cv by (by destruct cv).
      split; [by apply wtn_short|]. split; [done|]. split; [by rewrite nenc_short, E|].
      intros h. exact (flag_ok_cache db r f (PShort k t) h Ff). }
    inversion S as [| |p v Hp Hv|k' cs Hk' NE S'|]; subst.
    + apply rep_PVal in R' as ->. inversion Z as [| |? ? _ _ Zv|]; subst. inversion Zv as [|? Ov _| |]; subst.
      by apply (Fin (valueNode v) (valueNode v)).
    + inversion Z as [| |? ? _ _ Zc|]; subst.
      destruct (hash_post_child K false (PFull cs) db _ ltac:(done)
        (hash_sim K ltac:(done) false db false n' (PFull cs) 0 0 R' db S' Zc ltac:(done) I ltac:(done) A))
        as (cv & hv & db2 & E & _ & _ & _ & _ & _ & W2 & E2 & N2).
      apply (Fin cv hv); try done. by inversion R'; subst.
  - inversion S as [| | | |ts' L17 Sc T]; subst. inversion Z as [| | |ts' Zc]; subst.
    destruct (hashChildren_sim K false db 0 0 cs ts O db Lc ltac:(lia)) as (ccs & hcs & db2 & E & _ & _ & _ & En & Wcs & Ll & _).
    { intros j c t Hc Ht. cbn [Nat.add]. split; [by eapply R'|]. split; [by apply Sc|]. split; [by eapply Zc|]. split; [done|].
      intros It dbx St Sx Ax. apply (hash_sim K ltac:(done) false db); try done; [by eapply R'|by eapply Zc]. }
    { done. } { done. }
    cbn [hashChildren_node]. cbn [opt] in E. rewrite E. cbn [mbind outcome_bind]. eexists _, _. split; [reflexivity|].
    split; [apply wtn_full; [lia|done]|]. split; [done|]. split; [by rewrite nenc_full, En|].
    intros h. exact (flag_ok_cache db r f (PFull ts) h Ff).
Qed.

(** The entries that [Prove] adds for the trees on the path. *)
Fixpoint puts (first : bool) (us : list ptree) (proofDb : database) : database :=
  match us with
  | [] => proofDb
  | u :: us =>
    puts false us (if first || (32 <=? len (menc u)) then <[keccak256 (menc u) := menc u]> proofDb else proofDb)
  end.

Lemma prove_put_spec db T ns us :
  sized T -> Forall2 (on_path db T) ns us -> forall first proofDb, prove_put first ns 0 proofDb = Ok (puts first us proofDb).
Proof.
  intros Z. induction 1 as [|n u ns us (Ld & [r R] & S & B) F IH]; intros first proofDb; [done|].
  pose proof (sized_below _ _ B Z) as Zu. pose proof (menc_size _ _ S Zu) as M.
  destruct (collapse_spec db r n u R Ld S Zu) as (collapsed & cached & E & W & Lc & En & Ch).
  assert (Enc : EncodeToBytes TIface (node_rval collapsed) = Ok (menc u)).
  { rewrite <- En. apply EncodeToBytes_spec; [done|]. change (enc_value TIface (node_rval collapsed)) with (nenc collapsed).
    rewrite En. destruct M as (_ & Lm & _). lia. }
  cbn [prove_put puts]. rewrite E. cbn [mbind outcome_bind]. rewrite (store_eq u None false collapsed) by done. rewrite Enc.
  cbn [map_err mbind outcome_bind negb]. rewrite andb_true_r. change (0 <? 0) with false. cbv iota.
  destruct (Z.ltb_spec (len (menc u)) 32) as [L|L].
  - replace (32 <=? len (menc u)) with false by (symmetry; by apply Z.leb_gt). rewrite orb_false_r.
    destruct collapsed; try done; destruct first; cbn [default]; apply IH.
  - replace (32 <=? len (menc u)) with true by (symmetry; by apply Z.leb_le). rewrite orb_true_r. apply IH.
Qed.

Lemma puts_spec T us : forall first proofDb,
  (forall u, u ∈ us -> below u T /\ inner u) -> agrees (fun u => below u T) true proofDb ->
  let proofDb' := puts first us proofDb in
  proofDb ⊆ proofDb' /\ agrees (fun u => below u T) true proofDb' /\
  forall w, w ∈ us -> (first = true /\ head us = Some w) \/ 32 <= len (menc w) -> proofDb' !! keccak256 (menc w) = Some (menc w).
Proof.
  induction us as [|u us IH]; intros first proofDb Hu A; cbn [puts].
  { split; [done|]. split; [done|]. intros w Hw. by apply elem_of_nil in Hw. }
  destruct (Hu u) as [B I]; [by left|]. destruct (agrees_insert _ proofDb u B I A) as [Sub Ai].
  set (db1 := if first || (32 <=? len (menc u)) then <[keccak256 (menc u) := menc u]> proofDb else proofDb).
  assert (proofDb ⊆ db1 /\ agrees (fun u => below u T) true db1) as [S1 A1] by (unfold db1; by destruct (_ || _)).
  destruct (IH false db1 ltac:(intros v Hv; apply Hu; by right) A1) as (S2 & A2 & P2).
  split; [by etrans|]. split; [done|]. intros w Hw Hc. apply list.elem_of_cons in Hw as [->|Hw].
  - apply (lookup_weaken db1); [|done]. unfold db1.
    assert (first || (32 <=? len (menc u)) = true) as ->; [|by rewrite lookup_insert_eq].
    destruct Hc as [[-> _]|L]; [done|]. apply orb_true_iff. right. by apply Z.leb_le.
  - destruct Hc as [[Hf Hh]|L]; [|apply P2; auto]. injection Hh as ->. apply (lookup_weaken db1); [|done].
    unfold db1. rewrite Hf. cbn [orb]. by rewrite lookup_insert_eq.
Qed.

Lemma map_root_inner m : holds (build m) m -> m <> ∅ -> inner (build m) /\ map_root m = keccak256 (menc (build m)).
Proof.
  intros H N. assert (I : inner (build m)).
  { destruct (slot_inner (build m)) as [E|I]; [by apply H| |done]. rewrite E in H. by apply holds_PNil in H. }
  split; [done|]. unfold map_root. by apply mroot_inner.
Qed.

(** ** Lemmas: the nodes that a verifier receives *)





(** The hash that [decodeNode] is given is only remembered. *)
Lemma decodeNode_any_hash h h' buf gen n :
  decodeNode (Some h) buf gen = Ok n -> exists n', decodeNode (Some h') buf gen = Ok n' /\ forall key, get n' key = get n key.
Proof.
  unfold decodeNode. cbn [decodeNode_fuel]. destruct (len buf =? 0); [done|].
  destruct (SplitList buf) as [[elems r]|e| |]; try done. cbn [map_err mbind outcome_bind].
  destruct (match CountValues elems with Ok c => Ok c | Err _ => Ok 0 | Panic => Panic | OutOfFuel => OutOfFuel end) as [c|e| |]; try done.
  cbn [mbind outcome_bind]. set (dec := fun b => decodeNode_fuel (length buf) None b gen). destruct (c =? 2); [|destruct (c =? 17); [|done]].
  - unfold decodeShort. destruct (SplitString elems) as [[kbuf rest]|e| |]; try done. cbn [map_err mbind outcome_bind].
    destruct (compactToHex kbuf) as [key|e| |]; try done. cbn [mbind outcome_bind]. destruct (hasTerm key).
    + destruct (SplitString rest) as [[v r']|e| |]; try done. cbn. intros [= <-]. by eexists.
    + destruct (decodeRef dec rest) as [[v r']|e| |]; try done. cbn. intros [= <-]. by eexists.
  - unfold decodeFull. destruct (decodeFull_loop dec 16 elems) as [[cs rest]|e| |]; try done. cbn [map_err mbind outcome_bind].
    destruct (SplitString rest) as [[v r']|e| |]; try done. cbn [map_err mbind outcome_bind]. intros [= <-]. by eexists.
Qed.

(** The encoding of a leaf decodes to a node in which the key is found. *)
Lemma leaf_decodes key value :
  bytes_ok key -> len key < 2 ^ 30 -> bytes_ok value -> value <> [] -> len value < 2 ^ 32 ->
  let T := PShort (keybytesToHex key) (PVal value) in
  exists n, decodeNode (Some (keccak256 (menc T))) (menc T) 0 = Ok n /\ get n (keybytesToHex key) = Ok ([], valueNode value).
Proof.
  intros O Lk Ov Nv Lv T. pose proof (hexkey_keybytes key O) as Hk. pose proof Hk as (p & Hp & Ep).
  assert (S : slot false T) by (unfold T; rewrite Ep; by constructor).
  assert (Z : sized T).
  { constructor; [by right| |by constructor]. rewrite len_keybytesToHex. lia. }
  assert (N : no_collision T).
  { intros u v Bu Bv Iu Iv _. inversion Bu as [|? ? ? Bu'|]; subst; [|by inversion Bu'; subst].
    inversion Bv as [|? ? ? Bv'|]; subst; [done|by inversion Bv'; subst]. }
  destruct (decode_proof_node T S Z N T (below_refl _) I S) as (D & n & E & Ld & R). exists n. split; [done|].
  destruct (get_node D true n T _ R Ld S Hk) as (rest & cld & G & Post). rewrite G.
  inversion R as [| |rt k0 n' t f Ff R'| |]; subst; [|done]. apply rep_PVal in R' as ->. cbn [get] in G. rewrite take_ge in G by done.
  rewrite bool_decide_true, Z.ltb_irrefl in G by done. cbn in G. by injection G as <- <-.
Qed.

(** ** Theorems *)

(** C15. Proofs are complete: for every key, present or absent, of a trie with content, [Prove]
    succeeds, and [VerifyProof] with the collected nodes, or with more of them, returns what
    the trie holds for the key; the loop ends within as many references as the key has
    nibbles. *)
Theorem Prove_verifies db t m key proofDb :
  trie_holds db t m -> small m -> m <> ∅ -> bytes_ok key -> agrees (fun u => below u (build m)) true proofDb ->
  exists proofDb', Prove db t key 0 proofDb = Ok proofDb' /\ proofDb ⊆ proofDb' /\
    agrees (fun u => below u (build m)) true proofDb' /\
    forall proofDb'' fuel, proofDb' ⊆ proofDb'' -> agrees (fun u => below u (build m)) true proofDb'' ->
      (length (keybytesToHex key) < fuel)%nat ->
      exists n, VerifyProof fuel (map_root m) key proofDb'' = Ok (m !! key, n).
Proof.
  intros (T & R & H) Sm NE O A. pose proof (holds_eq_build T m H) as ->. pose proof (hexkey_keybytes key O) as Hk.
  pose proof H as (S & _). pose proof (holds_sized _ _ H Sm) as Z. destruct (map_root_inner m H NE) as [I Er].
  destruct (prove_path_spec db (t_cachegen t) (trie_fuel (keybytesToHex key)) true (t_root t) _ false _ R S Hk (trie_fuel_need _ _)) as (ns & E & F).
  unfold Prove. rewrite E. cbn [mbind outcome_bind]. rewrite (prove_put_spec db _ ns _ Z F).
  set (us := ppath (build m) (keybytesToHex key)) in *.
  assert (Hu : forall u, u ∈ us -> below u (build m) /\ inner u).
  { intros u Hu. apply list_elem_of_lookup in Hu as [i Hi]. destruct (Forall2_lookup_r _ _ _ _ _ F Hi) as (n & _ & Ld & [r Rn] & Su & B).
    split; [done|]. by inversion Rn; subst. }
  destruct (puts_spec (build m) us true proofDb Hu A) as (Sub & A' & P).
  eexists. split; [done|]. split; [done|]. split; [done|]. intros pdb fuel Sub' A'' Hf. unfold VerifyProof. rewrite Er.
  destruct (verify_loop_spec (build m) S Z (proj1 (A eq_refl)) pdb (proj2 (A'' eq_refl)) fuel (build m) (keybytesToHex key) 0
    (below_refl _) I S Hk Hf) as [[n V]|[_ (w & Hw & Hc & Mw)]].
  - exists n. by rewrite V, (holds_get _ _ _ H O).
  - exfalso. fold us in Hw. enough (pdb !! keccak256 (menc w) = Some (menc w)) by congruence.
    eapply lookup_weaken; [|exact Sub']. apply P; [done|]. destruct Hc as [->|L]; [left|by right]. split; [done|].
    unfold us. destruct (hexkey_cons_inv _ Hk) as (x & rest & ->). by destruct (build m).
Qed.


(** The hash of a proof node is not checked: for every root, key and value there is a proof
    database of one entry with which [VerifyProof] returns the value for the key, although
    the comment on it promises an error for a wrong value. *)
Theorem VerifyProof_forged rootHash key value fuel :
  bytes_ok key -> len key < 2 ^ 30 -> bytes_ok value -> value <> [] -> len value < 2 ^ 32 ->
  exists buf, VerifyProof (S fuel) rootHash key {[ rootHash := buf ]} = Ok (Some value, 1).
Proof.
  intros Ok_ Lk Ov Nv Lv. destruct (leaf_decodes key value Ok_ Lk Ov Nv Lv) as (n & D & G).
  destruct (decodeNode_any_hash _ rootHash _ _ _ D) as (n' & D' & G').
  eexists. unfold VerifyProof. cbn [verify_loop]. rewrite lookup_singleton_eq, D'. cbn [map_err mbind outcome_bind].
  by rewrite G', G.
Qed.

(** A proof can crash its verifier: against a root for which the proof consists of the
    single byte 0x81, [VerifyProof] panics in the RLP decoder instead of returning an
    error. *)
Theorem VerifyProof_panics fuel key :
  VerifyProof (S fuel) (keccak256 [0x81]) key {[ keccak256 [0x81] := [0x81] ]} = Panic.
Proof. unfold VerifyProof. cbn [verify_loop]. by rewrite lookup_singleton_eq. Qed.

End Proofs.

(** ** Concrete instances *)

#[local] Existing Instance sample_hasher.

Lemma sample_map_ne : sample_map <> ∅.
Proof. unfold sample_map. apply insert_non_empty. Qed.

Lemma Prove_verifies_witness :
  exists t proofDb n, TryUpdate ∅ sample_trie [2; 3] [9] = Ok t /\ Prove ∅ t [1; 2; 3] 0 ∅ = Ok proofDb /\
    VerifyProof 8 (map_root sample_map) [1; 2; 3] proofDb = Ok (Some [9], n).
Proof.
  destruct sample_trie_update as (t & E & _ & H).
  destruct (Prove_verifies ∅ t sample_map [1; 2; 3] ∅ H small_sample sample_map_ne sample_key_ok (proj1 collision_free_sample))
    as (proofDb & P & _ & A & V).
  destruct (V proofDb 8%nat (reflexivity _) A) as [n Vn]; [apply Nat.ltb_lt; by vm_compute|].
  exists t, proofDb, n. split; [exact E|]. split; [exact P|exact Vn].
Defined.


Lemma VerifyProof_forged_witness :
  exists buf, VerifyProof 1 (map_root sample_map) [1; 2; 3] {[ map_root sample_map := buf ]} = Ok (Some [66], 1).
Proof.
  apply (VerifyProof_forged (map_root sample_map) [1; 2; 3] [66] 0); try done; repeat constructor; unfold byte_ok; lia.
Defined.
