(* ===== verification/TrieIterator.v ===== *)
(** * Package [trie]: iterators

    [iterator.go]: the node iterator with its stack of partly visited nodes, its seek to
    a start key, the prefix iterator and the key-value iterator on top of them.  The
    refinement shows that they enumerate the entries of the map in the order of the
    hex keys. *)

From stdpp Require Import sorting.
From S2P Require Import Prelude Rlp RlpStream TrieEncoding Common Trie TrieModel TrieRefine TrieHash TrieMap.

(** [bytes.Compare] and [bytes.HasPrefix] *)
Fixpoint bytes_compare (a b : bytes) : comparison :=
  match a, b with
  | [], [] => Eq
  | [], _ => Lt
  | _, [] => Gt
  | x :: a, y :: b => match x ?= y with Eq => bytes_compare a b | c => c end
  end.

Definition HasPrefix (s prefix : bytes) : bool :=
  (length prefix <=? length s)%nat && bool_decide (take (length prefix) s = prefix).

Record nodeIteratorState := IterState {
  st_hash : bytes;
  st_node : node;
  st_parent : bytes;
  st_index : Z;
  st_pathlen : nat
}.

Definition set_index (i : Z) (st : nodeIteratorState) : nodeIteratorState :=
  IterState (st_hash st) (st_node st) (st_parent st) i (st_pathlen st).

Inductive iter_error := iteratorEnd | seekError (key : bytes) (err : trie_error) | iterError (err : trie_error).

(** [it_nil] says that the iterator has no trie; the top of the stack comes first. *)
Record nodeIterator := NodeIterator {
  it_nil : bool;
  it_stack : list nodeIteratorState;
  it_path : bytes;
  it_err : option iter_error
}.

Definition set_err (e : option iter_error) (it : nodeIterator) : nodeIterator :=
  NodeIterator (it_nil it) (it_stack it) (it_path it) e.

(** What [peek] returns, with the iterator and the trie as it leaves them. *)
Record peeked := Peeked {
  pk_stack : list nodeIteratorState;
  pk_path : bytes;
  pk_trie : trie;
  pk_next : iter_error + nodeIteratorState * bytes
}.

Section Iterate.
Context {HS : Hasher}.

Definition emptyState : bytes := keccak256 [].

(** The hash of a node that has none is the zero hash. *)
Definition cached_hash (n : node) : bytes := BytesToHash (default [] (fst (node_cache n))).

Definition state_resolve (db : database) (t : trie) (path : bytes) (st : nodeIteratorState)
  : outcome trie_error nodeIteratorState :=
  match st_node st with
  | hashNode h =>
    resolved ← resolveHash db (t_cachegen t) h path;
    Ok (IterState (BytesToHash h) resolved (st_parent st) (st_index st) (st_pathlen st))
  | _ => Ok st
  end.

(** The first child that is not nil, from index [i]. *)
Fixpoint first_child (cs : list node) (i : nat) : option (nat * node) :=
  match cs with
  | [] => None
  | Nil :: cs => first_child cs (S i)
  | c :: _ => Some (i, c)
  end.

(** The next child, with its path and the parent's index, one before the child's. *)
Definition nextChild (parent : nodeIteratorState) (ancestor path : bytes)
  : option (Z * (nodeIteratorState * bytes)) :=
  match st_node parent with
  | fullNode cs _ =>
    let from := Z.to_nat (st_index parent + 1) in
    match first_child (drop from cs) from with
    | Some (i, child) =>
      Some (Z.of_nat i - 1,
            (IterState (cached_hash child) child ancestor (-1) (length path), path ++ [Z.of_nat i]))
    | None => None
    end
  | shortNode k v _ =>
    if st_index parent <? 0 then
      Some (st_index parent, (IterState (cached_hash v) v ancestor (-1) (length path), path ++ k))
    else None
  | _ => None
  end.

Fixpoint peek_up (db : database) (t : trie) (stack : list nodeIteratorState) (path : bytes)
  : outcome trie_error peeked :=
  match stack with
  | [] => Ok (Peeked [] path t (inl iteratorEnd))
  | parent :: rest =>
    let ancestor := if EmptyHash (st_hash parent) then st_parent parent else st_hash parent in
    match nextChild parent ancestor path with
    | Some (idx, (st, p)) =>
      let stack := set_index idx parent :: rest in
      match state_resolve db t p st with
      | Ok st => Ok (Peeked stack path t (inr (st, p)))
      | Err e => Ok (Peeked stack path t (inl (iterError e)))
      | Panic => Panic
      | OutOfFuel => OutOfFuel
      end
    | None => peek_up db t rest (take (st_pathlen parent) path)
    end
  end.

Definition peek (db : database) (t : trie) (it : nodeIterator) (descend : bool) : outcome trie_error peeked :=
  if it_nil it then Panic else
  match it_stack it with
  | [] =>
    match Hash t with
    | Ok (root, t) =>
      let hash := if bool_decide (root = emptyRoot) then zeros HashLength else root in
      match state_resolve db t [] (IterState hash (t_root t) (zeros HashLength) (-1) 0) with
      | Ok st => Ok (Peeked [] (it_path it) t (inr (st, [])))
      | Err e => Ok (Peeked [] (it_path it) t (inl (iterError e)))
      | Panic => Panic
      | OutOfFuel => OutOfFuel
      end
    | _ => Panic
    end
  | top :: rest =>
    if descend then peek_up db t (it_stack it) (it_path it)
    else peek_up db t rest (take (st_pathlen top) (it_path it))
  end.

Definition push (stack : list nodeIteratorState) (st : nodeIteratorState) : list nodeIteratorState :=
  st :: match stack with [] => [] | parent :: rest => set_index (st_index parent + 1) parent :: rest end.

Fixpoint seek_loop (fuel : nat) (db : database) (t : trie) (it : nodeIterator) (prefix key : bytes)
  : outcome trie_error (nodeIterator * trie) :=
  match fuel with
  | O => OutOfFuel
  | S fuel =>
    pk ← peek db t it (HasPrefix key (it_path it));
    match pk_next pk with
    | inl iteratorEnd => Ok (NodeIterator (it_nil it) (pk_stack pk) (pk_path pk) (Some iteratorEnd), pk_trie pk)
    | inl (iterError e) | inl (seekError _ e) =>
      Ok (NodeIterator (it_nil it) (pk_stack pk) (pk_path pk) (Some (seekError prefix e)), pk_trie pk)
    | inr (st, path) =>
      match bytes_compare path key with
      | Lt => seek_loop fuel db (pk_trie pk) (NodeIterator (it_nil it) (push (pk_stack pk) st) path (it_err it)) prefix key
      | _ => Ok (NodeIterator (it_nil it) (pk_stack pk) (pk_path pk) None, pk_trie pk)
      end
    end
  end.

Definition seek (fuel : nat) (db : database) (t : trie) (it : nodeIterator) (prefix : bytes)
  : outcome trie_error (nodeIterator * trie) :=
  let key := keybytesToHex prefix in
  seek_loop fuel db t it prefix (ztake (len key - 1) key).

Definition it_Next (fuel : nat) (db : database) (t : trie) (it : nodeIterator) (descend : bool)
  : outcome trie_error (bool * nodeIterator * trie) :=
  let step it t :=
    pk ← peek db t it descend;
    match pk_next pk with
    | inl e => Ok (false, NodeIterator (it_nil it) (pk_stack pk) (pk_path pk) (Some e), pk_trie pk)
    | inr (st, path) => Ok (true, NodeIterator (it_nil it) (push (pk_stack pk) st) path None, pk_trie pk)
    end in
  match it_err it with
  | Some iteratorEnd => Ok (false, it, t)
  | Some (seekError key _) =>
    '(it, t) ← seek fuel db t it key;
    match it_err it with Some _ => Ok (false, it, t) | None => step it t end
  | _ => step it t
  end.

Definition it_Leaf (it : nodeIterator) : bool := hasTerm (it_path it).

Definition it_LeafBlob (it : nodeIterator) : outcome trie_error bytes :=
  match it_stack it with
  | st :: _ => match st_node st with valueNode v => Ok v | _ => Panic end
  | [] => Panic
  end.

Definition it_LeafKey (it : nodeIterator) : outcome trie_error bytes :=
  match it_stack it with
  | st :: _ => match st_node st with valueNode _ => hexToKeybytes (it_path it) | _ => Panic end
  | [] => Panic
  end.

Definition newNodeIterator (fuel : nat) (db : database) (t : trie) (start : bytes)
  : outcome trie_error (nodeIterator * trie) :=
  match Hash t with
  | Ok (h, t) =>
    if bool_decide (h = emptyState) then Ok (NodeIterator true [] [] None, t)
    else seek fuel db t (NodeIterator false [] [] None) start
  | _ => Panic
  end.

Definition t_NodeIterator (fuel : nat) (db : database) (t : trie) (start : bytes)
  : outcome trie_error (nodeIterator * trie) :=
  newNodeIterator fuel db t (t_prefix t ++ start).

(** ** The prefix iterator *)

Record prefixIterator := PrefixIterator { pi_prefix : bytes; pi_it : nodeIterator }.

Definition newPrefixIterator (fuel : nat) (db : database) (t : trie) (prefix : bytes)
  : outcome trie_error (prefixIterator * trie) :=
  match Hash t with
  | Ok (h, t) =>
    if bool_decide (h = emptyState) then Ok (PrefixIterator [] (NodeIterator true [] [] None), t)
    else
      '(it, t) ← newNodeIterator fuel db t prefix;
      let key := keybytesToHex prefix in
      Ok (PrefixIterator (ztake (len key - 1) key) it, t)
  | _ => Panic
  end.

Definition t_PrefixIterator (fuel : nat) (db : database) (t : trie) (prefix : bytes)
  : outcome trie_error (prefixIterator * trie) :=
  newPrefixIterator fuel db t (t_prefix t ++ prefix).

Definition hasPrefix (it : prefixIterator) : bool := HasPrefix (it_path (pi_it it)) (pi_prefix it).

Definition pi_Next (fuel : nat) (db : database) (t : trie) (it : prefixIterator) (descend : bool)
  : outcome trie_error (bool * prefixIterator * trie) :=
  '(ok, nit, t) ← it_Next fuel db t (pi_it it) descend;
  let it := PrefixIterator (pi_prefix it) nit in
  Ok ((ok : bool) && hasPrefix it, it, t).

Definition pi_Leaf (it : prefixIterator) : bool := hasPrefix it && it_Leaf (pi_it it).

Definition pi_LeafBlob (it : prefixIterator) : outcome trie_error bytes :=
  if hasPrefix it then it_LeafBlob (pi_it it) else Ok [].

Definition pi_LeafKey (it : prefixIterator) : outcome trie_error bytes :=
  if hasPrefix it then it_LeafKey (pi_it it) else Ok [].

(** ** The key-value iterator *)

(** [Iterator.Next] on either node iterator: the entry it moves to, if there is one. *)
Fixpoint Iterator_Next (fuel : nat) (db : database) (t : trie) (it : nodeIterator)
  : outcome trie_error (option (bytes * bytes) * nodeIterator * trie) :=
  match fuel with
  | O => OutOfFuel
  | S fuel' =>
    '(ok, it, t) ← it_Next fuel db t it true;
    if (ok : bool) then
      if it_Leaf it then
        key ← it_LeafKey it;
        value ← it_LeafBlob it;
        Ok (Some (key, value), it, t)
      else Iterator_Next fuel' db t it
    else Ok (None, it, t)
  end.

Fixpoint Iterator_Next_prefix (fuel : nat) (db : database) (t : trie) (it : prefixIterator)
  : outcome trie_error (option (bytes * bytes) * prefixIterator * trie) :=
  match fuel with
  | O => OutOfFuel
  | S fuel' =>
    '(ok, it, t) ← pi_Next fuel db t it true;
    if (ok : bool) then
      if pi_Leaf it then
        key ← pi_LeafKey it;
        value ← pi_LeafBlob it;
        Ok (Some (key, value), it, t)
      else Iterator_Next_prefix fuel' db t it
    else Ok (None, it, t)
  end.

(** ** Specification: the walk of a tree *)

(** The nodes of a tree below the path [p] in pre-order, with the values of the leaves. *)
Fixpoint walk (p : bytes) (t : ptree) : list (bytes * option bytes) :=
  match t with
  | PNil => []
  | PVal v => [(p, Some v)]
  | PShort k u => (p, None) :: walk (p ++ k) u
  | PFull cs =>
    (p, None) ::
    (fix go i cs := match cs with [] => [] | c :: cs => walk (p ++ [Z.of_nat i]) c ++ go (S i) cs end) O cs
  end.

Definition walk_list (p : bytes) : nat -> list ptree -> list (bytes * option bytes) :=
  fix go i cs := match cs with [] => [] | c :: cs => walk (p ++ [Z.of_nat i]) c ++ go (S i) cs end.

(** The part of the walk after the node itself and its first children. *)
Definition rest (p : bytes) (t : ptree) (idx : Z) : list (bytes * option bytes) :=
  match t with
  | PShort k u => if idx <? 0 then walk (p ++ k) u else []
  | PFull cs => walk_list p (Z.to_nat (idx + 1)) (drop (Z.to_nat (idx + 1)) cs)
  | _ => []
  end.

Definition leaf_value (t : ptree) : option bytes := match t with PVal v => Some v | _ => None end.

Definition resolved (n : node) : Prop := match n with hashNode _ => False | _ => True end.

(** The stack: what is left to visit at each level. *)
Inductive srep (db : database) : list nodeIteratorState -> bytes -> list (list (bytes * option bytes)) -> Prop :=
| srep_nil path : srep db [] path []
| srep_cons st stack path r t RS :
    mrep db r (st_node st) t -> resolved (st_node st) -> slot (hasTerm path) t -> -1 <= st_index st ->
    srep db stack (take (st_pathlen st) path) RS ->
    srep db (st :: stack) path (rest path t (st_index st) :: RS).

(** ** Lemmas: the walk *)

Lemma walk_unfold p t : t <> PNil -> walk p t = (p, leaf_value t) :: rest p t (-1).
Proof. by destruct t. Qed.

Lemma walk_list_nil p cs i : (forall c, c ∈ cs -> c = PNil) -> walk_list p i cs = [].
Proof.
  revert i. induction cs as [|c cs IH]; intros i H; [done|]. cbn [walk_list].
  rewrite (H c) by left. cbn [walk app]. apply IH. intros c' Hc. apply H. by right.
Qed.

Lemma hasTerm_snoc p x : hasTerm (p ++ [x]) = (x =? 16).
Proof. unfold hasTerm. by rewrite last_snoc. Qed.

Lemma hasTerm_nibbles_app p k : nibbles k -> k <> [] -> hasTerm (p ++ k) = false.
Proof.
  destruct k as [|x k _] using rev_ind; [done|]. intros H _. rewrite app_assoc, hasTerm_snoc.
  apply Forall_app in H as [_ H]. apply Forall_cons_iff in H as [H _]. unfold nibble in H. apply Z.eqb_neq. lia.
Qed.

Lemma PNil_dec t : t = PNil \/ t <> PNil.
Proof. destruct t; auto. Qed.

Lemma first_child_spec db p : forall cs ts i,
  length cs = length ts -> (forall j c t, cs !! j = Some c -> ts !! j = Some t -> mrep db false c t) ->
  match first_child cs i with
  | None => walk_list p i ts = []
  | Some (j, c) => exists d t, j = (i + d)%nat /\ cs !! d = Some c /\ ts !! d = Some t /\ t <> PNil /\
      walk_list p i ts = walk (p ++ [Z.of_nat j]) t ++ walk_list p (S j) (drop (S d) ts) /\
      walk_list p i ts = walk_list p j (drop d ts)
  end.
Proof.
  induction cs as [|c cs IH]; intros [|t ts] i L R; try done.
  assert (Rc := R O c t eq_refl eq_refl).
  assert (R' : forall j c t, cs !! j = Some c -> ts !! j = Some t -> mrep db false c t) by (intros j; apply (R (S j))).
  injection L as L. destruct (PNil_dec t) as [->|NE].
  - apply rep_PNil in Rc as ->. cbn [first_child walk_list walk app]. specialize (IH ts (S i) L R').
    destruct (first_child cs (S i)) as [[j c]|]; [|done]. destruct IH as (d & t & -> & Hc & Ht & NE & E1 & E2).
    exists (S d), t. split; [lia|]. done.
  - assert (Nc : c <> Nil) by (intros ->; by inversion Rc).
    replace (first_child (c :: cs) i) with (Some (i, c)) by (by destruct c).
    exists O, t. split; [lia|]. done.
Qed.

(** The next child of the state on top of the stack. *)
Lemma nextChild_spec db r st t path anc :
  mrep db r (st_node st) t -> resolved (st_node st) -> slot (hasTerm path) t -> -1 <= st_index st ->
  match nextChild st anc path with
  | None => rest path t (st_index st) = []
  | Some (idx, (st', q)) => exists c x, q = path ++ x /\ c <> PNil /\ mrep db false (st_node st') c /\
      slot (hasTerm q) c /\ st_pathlen st' = length path /\ st_index st' = -1 /\ -1 <= idx /\
      rest path t idx = rest path t (st_index st) /\
      rest path t (st_index st) = walk q c ++ rest path t (idx + 1)
  end.
Proof.
  intros R Rs SL Hi. unfold nextChild.
  inversion R as [|? v|? k n u f Ff Rn|? cs ts f Ff L Rc|? h nf u Ph RH Ld Rn]; subst; match goal with H : _ = st_node st |- _ => rewrite <- H in * end; try done.
  - destruct (Z.ltb_spec (st_index st) 0) as [Lt|Ge]; [|cbn [rest]; by zdecide].
    assert (st_index st = -1) as -> by lia. exists u, k.
    assert (H : u <> PNil /\ slot (hasTerm (path ++ k)) u).
    { inversion SL as [| |p v Hp Hv|k' cs Hk' NE S'|]; subst.
      - split; [done|]. rewrite app_assoc, hasTerm_app. by constructor.
      - split; [done|]. rewrite hasTerm_nibbles_app by done. done. }
    cbn [rest st_node st_pathlen st_index]. rewrite app_nil_r. destruct H as [Nu Su]. eauto 20 with lia.
  - inversion SL as [| | | |ts' L17 Sc T]; subst. set (from := Z.to_nat (st_index st + 1)).
    pose proof (first_child_spec db path (drop from cs) (drop from ts) from) as F.
    destruct (first_child (drop from cs) from) as [[j c]|]; [|apply F; [by rewrite !length_drop, L|]].
    + destruct F as (d & t & -> & Hc & Ht & NE & E1 & E2); [by rewrite !length_drop, L| |].
      { intros j' c' t'. rewrite !lookup_drop. apply Rc. }
      rewrite lookup_drop in Hc. rewrite lookup_drop in Ht. rewrite !drop_drop in E1. rewrite !drop_drop in E2.
      exists t, [Z.of_nat (from + d)]. split; [done|]. split; [done|].
      cbn [rest st_node st_pathlen st_index]. fold from. split; [by eapply Rc|]. split.
      { rewrite hasTerm_snoc. pose proof (Sc _ _ Ht) as Sl.
        replace (Z.of_nat (from + d) =? 16) with (bool_decide ((from + d)%nat = 16%nat)); [done|].
        destruct (decide ((from + d)%nat = 16%nat)); [rewrite bool_decide_true by done; symmetry; apply Z.eqb_eq; lia|].
        rewrite bool_decide_false by done. symmetry. apply Z.eqb_neq. lia. }
      split; [done|]. split; [done|]. split; [lia|].
      replace (Z.to_nat (Z.of_nat (from + d) - 1 + 1)) with (from + d)%nat by lia.
      replace (Z.to_nat (Z.of_nat (from + d) - 1 + 1 + 1)) with (S (from + d))%nat by lia.
      split; [by rewrite E2|]. rewrite E1. by replace (from + S d)%nat with (S (from + d))%nat by lia.
    + intros j' c' t'. rewrite !lookup_drop. apply Rc.
Qed.

Lemma state_resolve_spec db t p st r c :
  mrep db r (st_node st) c ->
  exists st', state_resolve db t p st = Ok st' /\ mrep db r (st_node st') c /\ resolved (st_node st') /\
    st_pathlen st' = st_pathlen st /\ st_index st' = st_index st.
Proof.
  intros R. unfold state_resolve. destruct (st_node st) as [| | | |h] eqn:E;
    try (exists st; rewrite E; done).
  inversion R as [| | | |? h' nf u Ph RH Ld Rn]; subst.
  rewrite RH. cbn [mbind outcome_bind]. eexists. split; [reflexivity|]. split; [apply Rn|].
  split; [|done]. specialize (Ld (t_cachegen t)). cbn. by destruct (nf (t_cachegen t)).
Qed.

Lemma slot_leaf_value b c : slot b c -> c <> PNil -> b = bool_decide (is_Some (leaf_value c)).
Proof.
  intros SL NE. inversion SL; subst; cbn [leaf_value]; try done;
    first [by rewrite bool_decide_true by eauto | by rewrite bool_decide_false by apply is_Some_None].
Qed.

(** What a step forward finds: the next item of the walk. *)
Definition found (db : database) (stack : list nodeIteratorState) (path : bytes) (st : nodeIteratorState)
    (q : bytes) (v : option bytes) (L : list (bytes * option bytes)) : Prop :=
  (exists RS, srep db stack path RS /\ concat RS = (q, v) :: L) /\
  (exists RS, srep db (push stack st) q RS /\ concat RS = L) /\
  hasTerm q = bool_decide (is_Some v) /\ (forall w, v = Some w -> st_node st = valueNode w).

Lemma peek_up_spec db t stack path RS :
  srep db stack path RS ->
  match concat RS with
  | [] => exists path', peek_up db t stack path = Ok (Peeked [] path' t (inl iteratorEnd))
  | (q, v) :: L => exists stack' path' st,
      peek_up db t stack path = Ok (Peeked stack' path' t (inr (st, q))) /\ stack' <> [] /\
      found db stack' path' st q v L
  end.
Proof.
  induction 1 as [path|st stack path r T RS R Rs SL Hi SR IH]; [by eexists|].
  cbn [peek_up concat]. set (anc := if EmptyHash _ then _ else _).
  pose proof (nextChild_spec db r st T path anc R Rs SL Hi) as N.
  destruct (nextChild st anc path) as [[idx [st' q]]|]; [|rewrite N; exact IH].
  destruct N as (c & x & -> & NE & Rc & Sc & Lp & Ix & Hidx & E1 & E2).
  destruct (state_resolve_spec db t (path ++ x) st' false c Rc) as (st2 & -> & R2 & Rs2 & P2 & I2).
  rewrite E2, (walk_unfold _ c NE). cbn [app concat].
  eexists _, _, _. split; [reflexivity|]. split; [done|].
  assert (SR' : srep db (set_index idx st :: stack) path (rest path T idx :: RS)) by (by econstructor).
  split; [|split; [|split]].
  - exists (rest path T idx :: RS). split; [done|]. cbn [concat]. by rewrite E1, E2, (walk_unfold _ c NE).
  - exists (rest (path ++ x) c (-1) :: rest path T (idx + 1) :: RS). split; [|cbn [concat]; by rewrite app_assoc].
    unfold push. rewrite <- Ix, <- I2. econstructor; try done; [lia|]. rewrite P2, Lp, take_app_length.
    change (idx + 1) with (st_index (set_index (idx + 1) st)). econstructor; try done. cbn. lia.
  - by apply slot_leaf_value.
  - intros w Hw. destruct c; try done. injection Hw as ->. by apply rep_PVal in R2.
Qed.

(** The items of the top level are below the current path. *)
Lemma walk_list_in p cs i q v :
  (q, v) ∈ walk_list p i cs -> exists d c, cs !! d = Some c /\ (q, v) ∈ walk (p ++ [Z.of_nat (i + d)]) c.
Proof.
  revert i. induction cs as [|c cs IH]; intros i H; [by apply not_elem_of_nil in H|].
  cbn [walk_list] in H. apply elem_of_app in H as [H|H].
  - exists O, c. by rewrite Nat.add_0_r.
  - destruct (IH _ H) as (d & c' & Hc & Hw). exists (S d), c'. split; [done|].
    by replace (i + S d)%nat with (S i + d)%nat by lia.
Qed.

Lemma walk_below b t : slot b t -> forall p q v, (q, v) ∈ walk p t -> exists x, q = p ++ x.
Proof.
  induction 1 as [b|v0 Hv0|k v0 Hk Hv0|k cs Hk NE SL IH|cs L Sc IH T]; intros p q w H.
  - by apply not_elem_of_nil in H.
  - apply list_elem_of_singleton in H as [= -> ->]. exists []. by rewrite app_nil_r.
  - apply elem_of_cons in H as [[= -> ->]|H]; [exists []; by rewrite app_nil_r|].
    apply list_elem_of_singleton in H as [= -> ->]. by eexists.
  - apply elem_of_cons in H as [[= -> ->]|H]; [exists []; by rewrite app_nil_r|].
    destruct (IH _ _ _ H) as [x ->]. exists (k ++ x). by rewrite app_assoc.
  - apply elem_of_cons in H as [[= -> ->]|H]; [exists []; by rewrite app_nil_r|].
    apply (walk_list_in p cs O) in H as (d & c & Hc & Hw).
    destruct (IH d c Hc _ _ _ Hw) as [x ->]. eexists. by rewrite <- app_assoc.
Qed.

Lemma rest_below b t p idx q v : slot b t -> (q, v) ∈ rest p t idx -> exists x, q = p ++ x.
Proof.
  intros SL H. inversion SL as [|w|k w Hk Hw|k cs Hk NE SL'|cs L Sc T]; subst; cbn [rest] in H.
  - by apply not_elem_of_nil in H.
  - by apply not_elem_of_nil in H.
  - destruct (idx <? 0); [|by apply not_elem_of_nil in H]. apply list_elem_of_singleton in H as [= -> ->]. by eexists.
  - destruct (idx <? 0); [|by apply not_elem_of_nil in H].
    destruct (walk_below false _ SL' _ _ _ H) as [x ->]. eexists. by rewrite <- app_assoc.
  - apply walk_list_in in H as (d & c & Hc & Hw). rewrite lookup_drop in Hc.
    destruct (walk_below _ _ (Sc _ _ Hc) _ _ _ Hw) as [x ->]. eexists. by rewrite <- app_assoc.
Qed.

(** ** Lemmas: the order of paths *)

Definition path_lt (a b : bytes) : Prop := bytes_compare a b = Lt.

Lemma bytes_compare_eq a b : bytes_compare a b = Eq <-> a = b.
Proof.
  revert b. induction a as [|x a IH]; intros [|y b]; try done. cbn [bytes_compare].
  destruct (Z.compare_spec x y) as [->|L|L]; [rewrite IH|..]; split; intros [= ?]; subst; try done; lia.
Qed.

Lemma bytes_compare_app p a b : bytes_compare (p ++ a) (p ++ b) = bytes_compare a b.
Proof. induction p as [|x p IH]; [done|]. cbn. by rewrite Z.compare_refl. Qed.

Lemma bytes_compare_antisym a b : bytes_compare b a = CompOpp (bytes_compare a b).
Proof.
  revert b. induction a as [|x a IH]; intros [|y b]; try done. cbn [bytes_compare].
  rewrite Z.compare_antisym. destruct (x ?= y); cbn; [apply IH|done|done].
Qed.

#[export] Instance path_lt_trans : Transitive path_lt.
Proof.
  unfold path_lt. intros a. induction a as [|x a IH]; intros [|y b] [|z c]; try done. cbn [bytes_compare].
  destruct (Z.compare_spec x y) as [->|L|L]; [| |done].
  - destruct (Z.compare_spec y z) as [->|L'|L']; [apply IH|done|done].
  - destruct (Z.compare_spec y z) as [->|L'|L']; [|intros _ _; destruct (Z.compare_spec x z); try done; lia|done].
    intros _ _. destruct (Z.compare_spec x z); try done; lia.
Qed.

Lemma path_lt_irrefl a : ~ path_lt a a.
Proof. unfold path_lt. by rewrite (proj2 (bytes_compare_eq a a) eq_refl). Qed.

Lemma path_lt_prefix p x : x <> [] -> path_lt p (p ++ x).
Proof. intros NE. unfold path_lt. rewrite <- (app_nil_r p) at 1. rewrite bytes_compare_app. by destruct x. Qed.

Lemma path_lt_step p i j x y : i < j -> path_lt ((p ++ [i]) ++ x) ((p ++ [j]) ++ y).
Proof.
  intros L. unfold path_lt. rewrite <- !app_assoc, bytes_compare_app. cbn. by rewrite (proj2 (Z.compare_lt_iff i j) L).
Qed.

Lemma HasPrefix_spec s p : HasPrefix s p = true <-> exists x, s = p ++ x.
Proof.
  unfold HasPrefix. rewrite andb_true_iff, bool_decide_eq_true, Nat.leb_le. split.
  - intros [_ E]. exists (drop (length p) s). rewrite <- E at 1. by rewrite take_drop.
  - intros [x ->]. rewrite take_app_length, length_app. split; [lia|done].
Qed.

(** Skipping a subtree: what is below a path that is smaller than the key, and no prefix
    of it, is smaller too. *)
Lemma path_lt_extend a k x : path_lt a k -> HasPrefix k a = false -> path_lt (a ++ x) k.
Proof.
  intros L N. assert (N' : ~ exists y, k = a ++ y) by (rewrite <- HasPrefix_spec; by rewrite N).
  clear N. unfold path_lt in *. revert k L N'. induction a as [|z a IH]; intros [|y k] L N; try done.
  - destruct N. by exists (y :: k).
  - cbn [bytes_compare app] in *. destruct (Z.compare_spec z y) as [->|L'|L']; [|done|done].
    apply IH; [done|]. intros [w ->]. apply N. by exists w.
Qed.

Lemma Forall_paths (P : bytes -> Prop) (l : list (bytes * option bytes)) :
  (forall q v, (q, v) ∈ l -> P q) -> Forall P (map fst l).
Proof.
  induction l as [|[q v] l IH]; intros H; constructor; [apply (H q v); by left|].
  apply IH. intros q' v' Hq. apply (H q' v'). by right.
Qed.

Lemma elem_of_paths q (l : list (bytes * option bytes)) : q ∈ map fst l -> exists v, (q, v) ∈ l.
Proof. intros H. apply (list_elem_of_fmap fst l q) in H as ([q' v] & -> & H). by exists v. Qed.

Lemma walk_list_sorted p cs : forall i,
  (forall d c, cs !! d = Some c -> exists b, slot b c) ->
  (forall d c, cs !! d = Some c -> forall p, StronglySorted path_lt (map fst (walk p c))) ->
  StronglySorted path_lt (map fst (walk_list p i cs)).
Proof.
  induction cs as [|c cs IHcs]; intros i Hs Hw; [constructor|]. cbn [walk_list]. rewrite map_app.
  apply StronglySorted_app_2.
  - intros q q' Hq Hq'. apply elem_of_paths in Hq as [v Hq]. apply elem_of_paths in Hq' as [v' Hq'].
    destruct (Hs O c eq_refl) as [b Sb]. destruct (walk_below _ _ Sb _ _ _ Hq) as [x ->].
    apply walk_list_in in Hq' as (d & c' & Hc' & Hw'). destruct (Hs (S d) c' Hc') as [b' Sb'].
    destruct (walk_below _ _ Sb' _ _ _ Hw') as [y ->]. apply path_lt_step. lia.
  - by apply (Hw O).
  - apply IHcs; intros d; [apply (Hs (S d))|apply (Hw (S d))].
Qed.

Lemma walk_sorted b t : slot b t -> forall p, StronglySorted path_lt (map fst (walk p t)).
Proof.
  induction 1 as [b|v0 Hv0|k v0 Hk Hv0|k cs Hk NE SL IH|cs L Sc IH T]; intros p.
  - constructor.
  - repeat constructor.
  - cbn. constructor; [repeat constructor|]. constructor; [|constructor]. apply path_lt_prefix. by destruct k.
  - change (walk p (PShort k (PFull cs))) with ((p, @None bytes) :: walk (p ++ k) (PFull cs)). cbn [map fst].
    constructor; [apply IH|]. apply Forall_paths. intros q v Hq.
    destruct (walk_below _ _ SL _ _ _ Hq) as [x ->]. rewrite <- app_assoc. apply path_lt_prefix. by destruct k.
  - change (walk p (PFull cs)) with ((p, @None bytes) :: walk_list p 0 cs). cbn [map fst].
    constructor; [apply walk_list_sorted; eauto|]. apply Forall_paths. intros q v Hq.
    apply walk_list_in in Hq as (d & c & Hc & Hw). destruct (walk_below _ _ (Sc _ _ Hc) _ _ _ Hw) as [x ->].
    rewrite <- app_assoc. by apply path_lt_prefix.
Qed.

(** ** Lemmas: seeking *)

(** The items from a key on. *)
Definition from_key (key : bytes) (l : list (bytes * option bytes)) : list (bytes * option bytes) :=
  filter (fun qv => bytes_compare (fst qv) key <> Lt) l.

Lemma from_key_skip key l : (forall q v, (q, v) ∈ l -> path_lt q key) -> from_key key l = [].
Proof.
  intros H. unfold from_key. induction l as [|[q v] l IH]; [done|].
  rewrite filter_cons_False; [apply IH; intros; eapply H; by right|]. cbn. intros N. apply N, (H q v). by left.
Qed.

Lemma from_key_all key q v l :
  bytes_compare q key <> Lt -> StronglySorted path_lt (map fst ((q, v) :: l)) ->
  from_key key ((q, v) :: l) = (q, v) :: l.
Proof.
  intros N SS. unfold from_key. cbn [map fst] in SS. inversion SS as [|? ? SS' F]; subst. clear SS.
  rewrite filter_cons_True by done. f_equal.
  induction l as [|[q' v'] l IH]; [done|]. cbn [map fst] in *.
  apply Forall_cons_iff in F as [L F]. inversion SS' as [|? ? SS'' F']; subst.
  rewrite filter_cons_True; [f_equal; by apply IH|]. cbn. intros L'. apply N. by apply (path_lt_trans _ q').
Qed.

Lemma from_key_app key l1 l2 : from_key key (l1 ++ l2) = from_key key l1 ++ from_key key l2.
Proof.
  unfold from_key. induction l1 as [|x l1 IH]; [done|]. cbn [app]. rewrite !filter_cons, IH. by case_decide.
Qed.

(** The walk from the root, which is visited even when the trie is empty. *)
Definition root_walk (T : ptree) : list (bytes * option bytes) := ([], None) :: rest [] T (-1).

(** The iterator over the tree [T] stands before the items of [L]. *)
Definition irep (db : database) (T : ptree) (it : nodeIterator) (L : list (bytes * option bytes)) : Prop :=
  it_nil it = false /\
  ((it_err it = Some iteratorEnd /\ L = []) \/
   (it_err it = None /\ it_stack it = [] /\ L = root_walk T) \/
   (it_err it = None /\ it_stack it <> [] /\ exists RS, srep db (it_stack it) (it_path it) RS /\ concat RS = L)).

Lemma seek_loop_spec db T0 prefix key : forall fuel t it RS,
  it_nil it = false -> it_err it = None -> it_stack it <> [] -> srep db (it_stack it) (it_path it) RS ->
  path_lt (it_path it) key -> StronglySorted path_lt (map fst (concat RS)) -> (length (concat RS) < fuel)%nat ->
  exists it', seek_loop fuel db t it prefix key = Ok (it', t) /\ irep db T0 it' (from_key key (concat RS)).
Proof.
  induction fuel as [|fuel IH]; intros t it RS N Er NE SR Lt SS Hf; [lia|].
  cbn [seek_loop].
  assert (P : exists stack path RS', peek db t it (HasPrefix key (it_path it)) = peek_up db t stack path /\
     srep db stack path RS' /\ from_key key (concat RS') = from_key key (concat RS) /\
     StronglySorted path_lt (map fst (concat RS')) /\ (length (concat RS') <= length (concat RS))%nat).
  { unfold peek. rewrite N. destruct (it_stack it) as [|st stack] eqn:St; [done|].
    destruct (HasPrefix key (it_path it)) eqn:HP; [eexists _, _, RS; split; [reflexivity|done]|].
    inversion SR as [|? ? ? r T RS0 R Rs SL Hi SR0]; subst. eexists _, _, RS0. split; [reflexivity|].
    split; [done|]. cbn [concat] in *. rewrite map_app in SS. split; [|split].
    - rewrite from_key_app, (from_key_skip key (rest (it_path it) T (st_index st))); [done|]. intros q v Hq.
      destruct (rest_below _ _ _ _ _ _ SL Hq) as [x ->]. by apply path_lt_extend.
    - by eapply StronglySorted_app_1_r.
    - rewrite length_app. lia. }
  destruct P as (stack & path & RS' & -> & SR' & <- & SS' & Le).
  pose proof (peek_up_spec db t stack path RS' SR') as P.
  destruct (concat RS') as [|[q v] L] eqn:EL.
  - destruct P as [path' ->]. cbn [mbind outcome_bind pk_next]. eexists. split; [reflexivity|].
    split; [done|]. by left.
  - destruct P as (stack' & path' & st & -> & NE' & (RS1 & SR1 & E1) & (RS2 & SR2 & E2) & _).
    cbn [mbind outcome_bind pk_next]. destruct (bytes_compare q key) eqn:C.
    1,3: eexists; split; [reflexivity|]; split; [done|]; right; right; split; [done|]; split; [done|];
      exists RS1; split; [done|]; rewrite E1; symmetry; apply from_key_all; [congruence|done].
    cbn [pk_stack pk_trie]. destruct (IH t (NodeIterator (it_nil it) (push stack' st) q (it_err it)) RS2) as (it' & E & R); try done.
    { rewrite E2. cbn [map fst] in SS'. by inversion SS'. } { rewrite E2. cbn in *. lia. }
    exists it'. split; [done|]. unfold from_key in *. rewrite E2 in R. rewrite filter_cons_False; [done|]. cbn. rewrite C. auto.
Qed.

(** ** Lemmas: the iterator *)

Lemma walk_list_intro p cs : forall i d c q v,
  cs !! d = Some c -> (q, v) ∈ walk (p ++ [Z.of_nat (i + d)]) c -> (q, v) ∈ walk_list p i cs.
Proof.
  induction cs as [|c' cs IH]; intros i d c q v Hc Hw; [done|]. cbn [walk_list]. apply elem_of_app.
  destruct d as [|d]; [left; injection Hc as ->; by rewrite Nat.add_0_r in Hw|]. right.
  apply (IH (S i) d c); [done|]. by replace (S i + d)%nat with (i + S d)%nat by lia.
Qed.

(** The leaves of the walk are the entries of the tree. *)
Lemma walk_leaf b t : slot b t -> forall p q v,
  (q, Some v) ∈ walk p t <-> exists x, q = p ++ x /\ keyrest b x /\ pget t x = Some v.
Proof.
  induction 1 as [b|v0 Hv0|k v0 Hk Hv0|k cs Hk NE SL IH|cs L Sc IH T]; intros p q v.
  - cbn [walk]. rewrite elem_of_nil. split; [done|]. by intros (x & _ & _ & G).
  - cbn [walk]. rewrite list_elem_of_singleton. split.
    + intros [= -> ->]. exists []. by rewrite app_nil_r.
    + intros (x & -> & Hx & G). cbn in Hx, G. subst x. injection G as ->. by rewrite app_nil_r.
  - cbn [walk]. rewrite elem_of_cons, list_elem_of_singleton. split.
    + intros [[= ? ?]|[= -> ->]]. exists (k ++ [16]). split; [done|]. split; [by exists k|apply pget_leaf_self].
    + intros (x & -> & Hx & G). right.
      assert (x = k ++ [16]) as -> by (apply (pget_leaf_key k v0); [done|by rewrite G|done]).
      rewrite pget_leaf_self in G. by injection G as ->.
  - change (walk p (PShort k (PFull cs))) with ((p, @None bytes) :: walk (p ++ k) (PFull cs)).
    rewrite elem_of_cons, IH. split.
    + intros [[= ? ?]|(x & -> & Hx & G)]. exists (k ++ x). rewrite app_assoc, pget_short_app.
      split; [done|]. split; [by apply hexkey_app|done].
    + intros (x & -> & Hx & G). right. destruct (pget_short_prefix k (PFull cs) x) as [r ->]; [by rewrite G|].
      exists r. rewrite pget_short_app in G. rewrite app_assoc. split; [done|]. split; [by apply (hexkey_app_inv k)|done].
  - change (walk p (PFull cs)) with ((p, @None bytes) :: walk_list p 0 cs). rewrite elem_of_cons. split.
    + intros [[= ? ?]|H]. apply walk_list_in in H as (d & c & Hc & Hw). cbn [Nat.add] in Hw.
      apply (IH d c Hc) in Hw as (x & -> & Hx & G). exists (Z.of_nat d :: x). rewrite <- app_assoc.
      split; [done|]. rewrite pget_full, Nat2Z.id, Hc. split; [|done].
      apply hexkey_intro; [by apply lookup_lt_Some in Hc; lia|done].
    + intros (x & -> & Hx & G). right. destruct x as [|i x]; [by apply hexkey_nil in Hx|].
      destruct (hexkey_step i x Hx) as [Hi Kr]. rewrite pget_full in G.
      destruct (cs !! Z.to_nat i) as [c|] eqn:Hc; [|done].
      apply (walk_list_intro p cs O (Z.to_nat i) c); [done|]. apply (IH _ c Hc). exists x.
      rewrite Nat.add_0_l, Z2Nat.id by lia. rewrite <- app_assoc. done.
Qed.

Lemma root_walk_walk T : slot false T -> forall q v, (q, Some v) ∈ root_walk T <-> (q, Some v) ∈ walk [] T.
Proof.
  intros SL q v. destruct (slot_inner T SL) as [->|I].
  - change (root_walk PNil) with [(@nil Z, @None bytes)]. cbn [walk].
    rewrite list_elem_of_singleton, elem_of_nil. by split; [intros [= ? ?]|].
  - rewrite walk_unfold by (by destruct T). unfold root_walk. rewrite !elem_of_cons. destruct T; naive_solver.
Qed.

Lemma root_walk_sorted T : slot false T -> StronglySorted path_lt (map fst (root_walk T)).
Proof.
  intros SL. destruct (slot_inner T SL) as [->|I]; [repeat constructor|].
  pose proof (walk_sorted false T SL []) as SS. rewrite walk_unfold in SS by (by destruct T). exact SS.
Qed.

(** What a step of the iterator leaves of the trie. *)
Definition same_trie (db : database) (m : gmap bytes bytes) (t t' : trie) : Prop :=
  trie_holds db t' m /\ t_prefix t' = t_prefix t.

Lemma peek_root db t m T it d :
  trie_holds db t m -> small m -> holds T m -> it_nil it = false -> it_stack it = [] ->
  exists t' st, peek db t it d = Ok (Peeked [] (it_path it) t' (inr (st, []))) /\ same_trie db m t t' /\
    srep db [st] [] [rest [] T (-1)].
Proof.
  intros TH Sm H N St. destruct (Hash_holds db t m TH Sm) as (t' & E & TH' & P).
  unfold peek. rewrite N, St, E. pose proof TH' as (T' & R & H').
  rewrite <- (holds_unique _ _ _ H H') in R. set (st0 := IterState _ _ _ _ _).
  destruct (state_resolve_spec db t' [] st0 true T) as (st & -> & R' & Rs & Pl & Ix); [done|].
  eexists t', st. split; [reflexivity|]. split; [done|].
  change (-1) with (st_index st0). rewrite <- Ix. econstructor; [done|done|apply H|rewrite Ix; cbn; lia|constructor].
Qed.

Lemma it_Next_spec fuel db T m t it L :
  irep db T it L -> holds T m -> trie_holds db t m -> small m ->
  exists it' t', same_trie db m t t' /\ it_Next fuel db t it true = Ok (bool_decide (L <> []), it', t') /\
    match L with
    | [] => irep db T it' []
    | (q, v) :: L' => irep db T it' L' /\ it_path it' = q /\ it_Leaf it' = bool_decide (is_Some v) /\
        (forall w, v = Some w -> it_LeafBlob it' = Ok w /\ it_LeafKey it' = hexToKeybytes q)
    end.
Proof.
  intros (N & [(Er & ->)|[(Er & St & ->)|(Er & NE & RS & SR & <-)]]) H TH Sm; unfold it_Next; rewrite Er.
  - exists it, t. split; [done|]. split; [done|]. split; [done|]. by left.
  - destruct (peek_root db t m T it true TH Sm H N St) as (t' & st & -> & ST & SR). cbn [mbind outcome_bind pk_next].
    eexists _, t'. split; [done|]. split; [reflexivity|]. split; [|done].
    split; [done|]. right. right. split; [done|]. split; [done|]. exists [rest [] T (-1)]. split; [done|].
    cbn [concat]. by rewrite app_nil_r.
  - assert (E : peek db t it true = peek_up db t (it_stack it) (it_path it)).
    { unfold peek. rewrite N. by destruct (it_stack it). }
    rewrite E. pose proof (peek_up_spec db t _ _ _ SR) as P. destruct (concat RS) as [|[q v] L'].
    + destruct P as [path' ->]. cbn [mbind outcome_bind pk_next]. eexists _, t. split; [done|].
      split; [reflexivity|]. split; [done|]. by left.
    + destruct P as (stack' & path' & st & -> & _ & _ & (RS2 & SR2 & E2) & Lf & Vl). cbn [mbind outcome_bind pk_next].
      eexists _, t. split; [done|]. split; [reflexivity|]. split; [|split; [done|split; [done|]]].
      * split; [done|]. right. right. split; [done|]. split; [done|]. by exists RS2.
      * intros w Hw. unfold it_LeafBlob, it_LeafKey, push. cbn [it_stack]. by rewrite (Vl w Hw).
Qed.

Definition leaves (L : list (bytes * option bytes)) : list (bytes * bytes) :=
  omap (fun qv => v ← snd qv; Some (fst qv, v)) L.

Definition hex_entry (kv : bytes * bytes) : bytes * bytes := (keybytesToHex (fst kv), snd kv).

(** The iterator will return the entries [l], in at most [n] node steps. *)
Definition iter_holds (db : database) (m : gmap bytes bytes) (n : nat) (it : nodeIterator) (l : list (bytes * bytes)) : Prop :=
  exists T L, holds T m /\ irep db T it L /\ leaves L = map hex_entry l /\ (length L <= n)%nat /\
    forall k v, (k, v) ∈ l -> bytes_ok k.

Lemma iter_irep fuel db m T : holds T m -> small m -> forall L n t it l,
  irep db T it L -> trie_holds db t m -> leaves L = map hex_entry l -> (length L <= n < fuel)%nat ->
  (forall k v, (k, v) ∈ l -> bytes_ok k) ->
  exists it' t', Iterator_Next fuel db t it = Ok (head l, it', t') /\ same_trie db m t t' /\ iter_holds db m n it' (tail l).
Proof.
  intros H Sm. induction fuel as [|fuel IH]; intros L n t it l R TH EL Hn Ok_; [lia|].
  cbn [Iterator_Next]. destruct (it_Next_spec (S fuel) db T m t it L R H TH Sm) as (it' & t' & ST & E & P).
  rewrite E. cbn [mbind outcome_bind]. destruct L as [|[q v] L].
  - rewrite bool_decide_false by auto. destruct l as [|e l]; [|done]. exists it', t'. split; [done|]. split; [done|].
    exists T, []. split; [done|]. split; [done|]. split; [done|]. split; [cbn; lia|done].
  - rewrite bool_decide_true by done. destruct P as (R' & Pq & Lf & Vl). rewrite Lf.
    destruct v as [v|].
    + rewrite bool_decide_true by eauto. destruct (Vl v eq_refl) as [-> ->].
      destruct l as [|[k w] l]; [done|]. cbn in EL. injection EL as -> -> EL.
      rewrite hexToKeybytes_ok by (apply (Ok_ k w); by left). cbn [mbind outcome_bind].
      exists it', t'. split; [done|]. split; [done|]. exists T, L. split; [done|]. split; [done|]. split; [done|].
      split; [cbn in Hn; lia|]. intros k' v' Hk. apply (Ok_ k' v'). by right.
    + rewrite bool_decide_false by apply is_Some_None.
      destruct (IH L (pred n) t' it' l R') as (it2 & t2 & E2 & ST2 & R2); try done; [apply ST|cbn in Hn; lia|].
      exists it2, t2. split; [done|]. split; [split; [apply ST2|by rewrite (proj2 ST2), (proj2 ST)]|].
      destruct R2 as (T2 & L2 & ? & ? & ? & ? & ?). exists T2, L2. eauto 10 with lia.
Qed.

(** ** Specification of the iterators *)

(** Keys are visited in the order of their hex form; a key comes after its extensions. *)
Definition hex_lt (k1 k2 : bytes) : Prop := path_lt (keybytesToHex k1) (keybytesToHex k2).

(** The entries of the map from the start key on, in order. *)
Definition entries_from (m : gmap bytes bytes) (start : bytes) (l : list (bytes * bytes)) : Prop :=
  (forall k v, (k, v) ∈ l <-> m !! k = Some v /\ bytes_compare (keybytesToHex k) (unpack start) <> Lt) /\
  StronglySorted hex_lt (map fst l).

(** The number of nodes an iterator visits at most. *)
Definition node_count (m : gmap bytes bytes) : nat := length (root_walk (build m)).

Lemma elem_of_leaves L q v : (q, v) ∈ leaves L <-> (q, Some v) ∈ L.
Proof.
  unfold leaves. rewrite list_elem_of_omap. split.
  - intros ([q' v'] & Hx & E). cbn in E. destruct v' as [v'|]; [|done]. cbn in E. by injection E as -> ->.
  - intros Hx. exists (q, Some v). by split.
Qed.

Lemma leaves_sorted L : StronglySorted path_lt (map fst L) -> StronglySorted path_lt (map fst (leaves L)).
Proof.
  induction L as [|[q [v|]] L IH]; intros SS; cbn [map fst] in *; inversion SS as [|? ? SS' F]; subst; [constructor| |by apply IH].
  change (leaves ((q, Some v) :: L)) with ((q, v) :: leaves L). cbn [map fst]. constructor; [by apply IH|].
  apply Forall_forall. intros q' Hq'. rewrite Forall_forall in F. apply F.
  apply in_map_iff in Hq' as ([q2 v2] & <- & Hin). apply in_map_iff. exists (q2, Some v2). split; [done|].
  apply list_elem_of_In in Hin. apply elem_of_leaves in Hin. by apply list_elem_of_In.
Qed.

Lemma leaves_entries (m : gmap bytes bytes) (L : list (bytes * bytes)) :
  (forall q v, (q, v) ∈ L -> exists k, bytes_ok k /\ q = keybytesToHex k /\ m !! k = Some v) ->
  exists l, L = map hex_entry l /\ forall k v, (k, v) ∈ l -> bytes_ok k.
Proof.
  induction L as [|[q v] L IH]; intros H; [exists []; split; [done|]; intros k v Hk; by apply not_elem_of_nil in Hk|].
  destruct IH as (l & -> & Ol); [intros; apply H; by right|]. destruct (H q v) as (k & Ok_ & -> & _); [by left|].
  exists ((k, v) :: l). split; [done|]. intros k' v' Hk. apply elem_of_cons in Hk as [[= -> ->]|Hk]; [done|by eapply Ol].
Qed.

Lemma from_key_sorted key L : StronglySorted path_lt (map fst L) -> StronglySorted path_lt (map fst (from_key key L)).
Proof.
  unfold from_key. induction L as [|[q v] L IH]; intros SS; [done|]. cbn [map fst] in SS. inversion SS as [|? ? SS' F]; subst.
  rewrite filter_cons. case_decide; [|by apply IH]. cbn [map fst]. constructor; [by apply IH|].
  apply Forall_paths. intros q' v' Hq. apply list_elem_of_filter in Hq as [_ Hq]. rewrite Forall_forall in F. apply F.
  apply in_map_iff. exists (q', v'). split; [done|]. by apply list_elem_of_In.
Qed.

Lemma hex_sorted l : StronglySorted path_lt (map fst (map hex_entry l)) -> StronglySorted hex_lt (map fst l).
Proof.
  induction l as [|[k v] l IH]; intros SS; [constructor|]. cbn [map fst hex_entry] in *. inversion SS as [|? ? SS' F]; subst.
  constructor; [by apply IH|]. rewrite Forall_forall in *. intros k' Hk. apply F.
  rewrite map_map. apply in_map_iff in Hk as ([k2 v2] & <- & Hin). apply in_map_iff. by exists (k2, v2).
Qed.

(** The entries below a start key, for the items of the walk from it on. *)
Lemma from_key_entries T m start :
  holds T m ->
  exists l, leaves (from_key (unpack start) (root_walk T)) = map hex_entry l /\ entries_from m start l /\
    forall k v, (k, v) ∈ l -> bytes_ok k.
Proof.
  intros H. pose proof H as (SL & B & G).
  assert (I : forall q v, (q, v) ∈ leaves (from_key (unpack start) (root_walk T)) <->
     bytes_compare q (unpack start) <> Lt /\ exists k, bytes_ok k /\ q = keybytesToHex k /\ m !! k = Some v).
  { intros q v. rewrite elem_of_leaves. unfold from_key. rewrite list_elem_of_filter. cbn [fst].
    rewrite root_walk_walk, (walk_leaf false) by done. cbn [app keyrest]. split.
    - intros (N & x & -> & Hx & Gx). split; [done|]. by apply G.
    - intros (N & k & Ok_ & -> & M). split; [done|]. exists (keybytesToHex k). split; [done|].
      split; [by apply hexkey_keybytes|]. apply G; [by apply hexkey_keybytes|]. by exists k. }
  destruct (leaves_entries m (leaves (from_key (unpack start) (root_walk T)))) as (l & E & Ol).
  { intros q v Hq. by apply I in Hq as [_ Hq]. }
  exists l. split; [done|]. split; [|done]. split.
  - intros k v. split.
    + intros Hk. pose proof (Ol k v Hk) as Ok_.
      assert (Hq : (keybytesToHex k, v) ∈ map hex_entry l) by (apply list_elem_of_fmap; by exists (k, v)).
      rewrite <- E in Hq. apply I in Hq as (N & k' & Ok' & Ek & M).
      apply keybytesToHex_inj in Ek; [|done..]. by subst.
    + intros [M N]. pose proof (B _ _ M) as Ok_.
      assert (Hq : (keybytesToHex k, v) ∈ leaves (from_key (unpack start) (root_walk T))) by (apply I; eauto).
      rewrite E in Hq. apply list_elem_of_fmap in Hq as ([k' v'] & Ek & Hl). unfold hex_entry in Ek. cbn in Ek.
      injection Ek as Ek ->. apply keybytesToHex_inj in Ek; [|done|by eapply Ol]. by subst.
  - pose proof (leaves_sorted (from_key (unpack start) (root_walk T))) as SS. rewrite E in SS.
    apply hex_sorted, SS, from_key_sorted. by apply root_walk_sorted.
Qed.

Lemma seek_key start : ztake (len (keybytesToHex start) - 1) (keybytesToHex start) = unpack start.
Proof. rewrite keybytesToHex_unpack. apply ztake_snoc. Qed.

Lemma newNodeIterator_items fuel db t m start :
  trie_holds db t m -> small m -> map_root m <> emptyState -> (S (node_count m) < fuel)%nat ->
  exists T it t' l, newNodeIterator fuel db t start = Ok (it, t') /\ same_trie db m t t' /\ holds T m /\
    irep db T it (from_key (unpack start) (root_walk T)) /\
    leaves (from_key (unpack start) (root_walk T)) = map hex_entry l /\ entries_from m start l /\
    (length (from_key (unpack start) (root_walk T)) <= node_count m)%nat /\
    forall k v, (k, v) ∈ l -> bytes_ok k.
Proof.
  intros TH Sm NE Hf. destruct (Hash_holds db t m TH Sm) as (t' & E & TH' & P).
  unfold newNodeIterator. rewrite E, bool_decide_false by done. unfold seek. rewrite seek_key.
  pose proof TH' as (T & R & H). pose proof H as (SL & _).
  destruct (from_key_entries T m start H) as (l & EL & EF & Ol).
  assert (NC : node_count m = length (root_walk T)) by (unfold node_count; by rewrite <- (holds_eq_build T m H)).
  destruct fuel as [|fuel]; [lia|]. cbn [seek_loop].
  set (it0 := NodeIterator false [] [] None).
  destruct (peek_root db t' m T it0 (HasPrefix (unpack start) (it_path it0)) TH' Sm H eq_refl eq_refl)
    as (t2 & st & -> & ST & SR). cbn [mbind outcome_bind pk_next].
  assert (ST' : same_trie db m t t2) by (split; [apply ST|by rewrite (proj2 ST)]).
  assert (Le : (length (from_key (unpack start) (root_walk T)) <= node_count m)%nat).
  { rewrite NC. unfold from_key. apply length_filter. }
  destruct (unpack start) as [|x k] eqn:U; cbn [bytes_compare pk_stack pk_path pk_trie]; unfold it0; cbn [it_nil it_path it_err].
  - eexists T, _, t2, l. split; [reflexivity|]. split; [done|]. split; [done|]. split; [|done].
    split; [done|]. right. left. split; [done|]. split; [done|].
    unfold root_walk. rewrite from_key_all; [done|done|by apply root_walk_sorted].
  - pose proof (root_walk_sorted T SL) as SS. cbn [root_walk map fst] in SS. inversion SS as [|? ? SS' _]; subst.
    destruct (seek_loop_spec db T start (x :: k) fuel t2 (NodeIterator false (push [] st) [] None) [rest [] T (-1)])
      as (it' & -> & R'); try done.
    { cbn [concat]. by rewrite app_nil_r. }
    { cbn [concat]. rewrite app_nil_r. rewrite NC in Hf. unfold root_walk in Hf. cbn [length] in Hf. lia. }
    exists T, it', t2, l. split; [done|]. split; [done|]. split; [done|]. split; [|done].
    cbn [concat] in R'. rewrite app_nil_r in R'. exact R'.
Qed.

Lemma newNodeIterator_holds fuel db t m start :
  trie_holds db t m -> small m -> map_root m <> emptyState -> (S (node_count m) < fuel)%nat ->
  exists it t' l, newNodeIterator fuel db t start = Ok (it, t') /\ same_trie db m t t' /\
    entries_from m start l /\ iter_holds db m (node_count m) it l.
Proof.
  intros TH Sm NE Hf.
  destruct (newNodeIterator_items fuel db t m start TH Sm NE Hf) as (T & it & t' & l & E & ST & H & R & EL & EF & Le & Ol).
  exists it, t', l. split; [done|]. split; [done|]. split; [done|]. by exists T, (from_key (unpack start) (root_walk T)).
Qed.

Lemma Iterator_Next_holds fuel db m n t it l :
  iter_holds db m n it l -> trie_holds db t m -> small m -> (n < fuel)%nat ->
  exists it' t', Iterator_Next fuel db t it = Ok (head l, it', t') /\ same_trie db m t t' /\
    iter_holds db m n it' (tail l).
Proof.
  intros (T & L & H & R & EL & Ln & Ol) TH Sm Hf. by apply (iter_irep fuel db m T H Sm L n).
Qed.

(** ** Lemmas: the prefix iterator *)

(** The iterator over the entries below a prefix will return the entries [l]. *)
Definition prefix_holds (db : database) (m : gmap bytes bytes) (n : nat) (it : prefixIterator) (l : list (bytes * bytes)) : Prop :=
  exists T L1 L2, holds T m /\ irep db T (pi_it it) (L1 ++ L2) /\ leaves L1 = map hex_entry l /\
    (length (L1 ++ L2) <= n)%nat /\ (forall k v, (k, v) ∈ l -> bytes_ok k) /\
    (forall q v, (q, v) ∈ L1 -> HasPrefix q (pi_prefix it) = true) /\
    (forall q v, (q, v) ∈ L2 -> HasPrefix q (pi_prefix it) = false).

Lemma Iterator_Next_prefix_holds db m : small m -> forall fuel n t it l,
  prefix_holds db m n it l -> trie_holds db t m -> (n < fuel)%nat ->
  exists it' t', Iterator_Next_prefix fuel db t it = Ok (head l, it', t') /\ same_trie db m t t' /\
    prefix_holds db m n it' (tail l).
Proof.
  intros Sm. induction fuel as [|fuel IH]; intros n t it l (T & L1 & L2 & H & R & EL & Ln & Ol & P1 & P2) TH Hf; [lia|].
  cbn [Iterator_Next_prefix]. unfold pi_Next.
  destruct (it_Next_spec (S fuel) db T m t (pi_it it) (L1 ++ L2) R H TH Sm) as (it' & t' & ST & E & P).
  rewrite E. cbn [mbind outcome_bind]. unfold hasPrefix, pi_Leaf, pi_LeafKey, pi_LeafBlob, hasPrefix. cbn [pi_it pi_prefix].
  destruct L1 as [|[q v] L1]; cbn [app length] in *.
  - destruct l as [|e l]; [|done]. exists (PrefixIterator (pi_prefix it) it'), t'.
    assert (PH : prefix_holds db m n (PrefixIterator (pi_prefix it) it') []).
    { exists T, [], (tail L2). split; [done|]. split; [destruct L2 as [|[q v] L2]; [done|apply P]|]. split; [done|].
      split; [destruct L2; cbn in *; lia|]. split; [done|]. split; [intros q v Hq; by apply not_elem_of_nil in Hq|].
      intros q v Hq. apply (P2 q v). destruct L2; [done|by right]. }
    split; [|done]. destruct L2 as [|[q v] L2]; [by rewrite bool_decide_false by auto|].
    rewrite bool_decide_true by done. destruct P as (_ & -> & _). rewrite (P2 q v) by left. done.
  - rewrite bool_decide_true by done. destruct P as (R' & Pq & Lf & Vl). rewrite Pq, (P1 q v), Lf by left. cbn [andb].
    destruct v as [v|].
    + rewrite bool_decide_true by eauto. destruct (Vl v eq_refl) as [-> ->].
      destruct l as [|[k w] l]; [done|]. cbn in EL. injection EL as -> -> EL.
      rewrite hexToKeybytes_ok by (apply (Ol k w); by left). cbn [mbind outcome_bind].
      eexists _, t'. split; [reflexivity|]. split; [done|]. exists T, L1, L2. split; [done|]. split; [done|]. split; [done|].
      split; [lia|]. split; [intros k' v' Hk; apply (Ol k' v'); by right|]. split; [|done].
      intros q' v' Hq. apply (P1 q' v'). by right.
    + rewrite bool_decide_false by apply is_Some_None.
      destruct (IH (pred n) t' (PrefixIterator (pi_prefix it) it') l) as (it2 & t2 & E2 & ST2 & R2);
        [|apply ST|lia|].
      { exists T, L1, L2. split; [done|]. split; [done|]. split; [done|]. split; [lia|]. split; [done|]. split; [|done].
        intros q' v' Hq. apply (P1 q' v'). by right. }
      exists it2, t2. split; [done|]. split; [split; [apply ST2|by rewrite (proj2 ST2), (proj2 ST)]|].
      destruct R2 as (T2 & A & B & ? & ? & ? & ? & ?). exists T2, A, B. eauto 10 with lia.
Qed.

Lemma path_ge_noprefix key q x : ~ path_lt q key -> HasPrefix q key = false -> path_lt (key ++ x) q.
Proof.
  intros N P. assert (P' : ~ exists y, q = key ++ y) by (rewrite <- HasPrefix_spec; by rewrite P). clear P.
  unfold path_lt in *. revert q N P'. induction key as [|z key IH]; intros [|y q] N P.
  - destruct P. by exists [].
  - destruct P. by exists (y :: q).
  - by destruct N.
  - cbn [bytes_compare app] in *. destruct (Z.compare_spec z y) as [->|L|L]; [|done|].
    + rewrite Z.compare_refl in N. apply IH; [done|]. intros [w ->]. apply P. by exists w.
    + exfalso. apply N. by rewrite (proj2 (Z.compare_lt_iff y z) L).
Qed.

(** From a key on, the paths that extend the key come first. *)
Lemma from_key_split key (L : list (bytes * option bytes)) :
  StronglySorted path_lt (map fst L) -> (forall q v, (q, v) ∈ L -> ~ path_lt q key) ->
  exists L1 L2, L = L1 ++ L2 /\ (forall q v, (q, v) ∈ L1 -> HasPrefix q key = true) /\
    (forall q v, (q, v) ∈ L2 -> HasPrefix q key = false).
Proof.
  induction L as [|[q v] L IH]; intros SS N.
  { exists [], []. split; [done|]. split; intros q v Hq; by apply not_elem_of_nil in Hq. }
  cbn [map fst] in SS. inversion SS as [|? ? SS' F]; subst.
  destruct (HasPrefix q key) eqn:P.
  - destruct IH as (L1 & L2 & -> & P1 & P2); [done|intros; eapply N; by right|]. exists ((q, v) :: L1), L2.
    split; [done|]. split; [|done]. intros q' v' Hq. apply elem_of_cons in Hq as [[= -> ->]|Hq]; [done|by eapply P1].
  - exists [], ((q, v) :: L). split; [done|]. split; [intros q' v' Hq; by apply not_elem_of_nil in Hq|].
    intros q' v' Hq. apply elem_of_cons in Hq as [[= -> ->]|Hq]; [done|].
    destruct (HasPrefix q' key) eqn:P'; [|done]. exfalso. apply HasPrefix_spec in P' as [x ->].
    rewrite Forall_forall in F. specialize (F (key ++ x)).
    assert (path_lt (key ++ x) q) by (apply path_ge_noprefix; [eapply N; by left|done]).
    apply (path_lt_irrefl q). etrans; [apply F|done]. apply in_map_iff. exists (key ++ x, v'). split; [done|].
    by apply list_elem_of_In.
Qed.

(** The entries below a prefix, in order. *)
Definition entries_below (m : gmap bytes bytes) (prefix : bytes) (l : list (bytes * bytes)) : Prop :=
  (forall k v, (k, v) ∈ l <-> m !! k = Some v /\ HasPrefix (keybytesToHex k) (unpack prefix) = true) /\
  StronglySorted hex_lt (map fst l).

Lemma app_hex_entry L1 L2 l :
  leaves (L1 ++ L2) = map hex_entry l ->
  exists l1 l2, l = l1 ++ l2 /\ leaves L1 = map hex_entry l1 /\ leaves L2 = map hex_entry l2.
Proof.
  unfold leaves. rewrite omap_app. revert l. generalize (omap (fun qv => v ← snd qv; Some (fst qv, v)) L1) as A.
  induction A as [|a A IH]; intros l E; [by exists [], l|]. destruct l as [|e l]; [done|]. injection E as -> E.
  destruct (IH l E) as (l1 & l2 & -> & -> & ->). by exists (e :: l1), l2.
Qed.

Lemma newPrefixIterator_holds fuel db t m prefix :
  trie_holds db t m -> small m -> map_root m <> emptyState -> (S (node_count m) < fuel)%nat ->
  exists it t' l, newPrefixIterator fuel db t prefix = Ok (it, t') /\ same_trie db m t t' /\
    entries_below m prefix l /\ prefix_holds db m (node_count m) it l.
Proof.
  intros TH Sm NE Hf. destruct (Hash_holds db t m TH Sm) as (t1 & E & TH1 & P1).
  unfold newPrefixIterator. rewrite E, bool_decide_false by done.
  destruct (newNodeIterator_items fuel db t1 m prefix TH1 Sm NE Hf) as (T & it & t2 & l & E2 & ST & H & R & EL & EF & Le & Ol).
  rewrite E2. cbn [mbind outcome_bind]. rewrite seek_key.
  destruct (from_key_split (unpack prefix) (from_key (unpack prefix) (root_walk T))) as (L1 & L2 & EL12 & Q1 & Q2).
  { apply from_key_sorted, root_walk_sorted, H. }
  { intros q v Hq. by apply list_elem_of_filter in Hq as [N _]. }
  rewrite EL12 in EL. destruct (app_hex_entry L1 L2 l EL) as (l1 & l2 & -> & EL1 & EL2). destruct EF as [EF1 EF2].
  eexists _, t2, l1. split; [reflexivity|]. split; [split; [apply ST|by rewrite (proj2 ST)]|]. split.
  - split; [|rewrite map_app in EF2; by eapply StronglySorted_app_1_l].
    assert (In1 : forall k v, (k, v) ∈ l1 -> HasPrefix (keybytesToHex k) (unpack prefix) = true).
    { intros k v Hk. apply (Q1 _ (Some v)), elem_of_leaves. rewrite EL1. apply list_elem_of_fmap. by exists (k, v). }
    assert (In2 : forall k v, (k, v) ∈ l2 -> HasPrefix (keybytesToHex k) (unpack prefix) = false).
    { intros k v Hk. apply (Q2 _ (Some v)), elem_of_leaves. rewrite EL2. apply list_elem_of_fmap. by exists (k, v). }
    intros k v. split.
    + intros Hk. split; [|by eapply In1]. apply (EF1 k v), elem_of_app. by left.
    + intros [M HP]. assert (Hk : (k, v) ∈ l1 ++ l2).
      { apply EF1. split; [done|]. apply HasPrefix_spec in HP as [x ->]. destruct x as [|y x].
        - rewrite app_nil_r, (proj2 (bytes_compare_eq _ _) eq_refl). done.
        - rewrite bytes_compare_antisym. pose proof (path_lt_prefix (unpack prefix) (y :: x) ltac:(done)) as L.
          unfold path_lt in L. by rewrite L. }
      apply elem_of_app in Hk as [Hk|Hk]; [done|]. by rewrite (In2 k v Hk) in HP.
  - exists T, L1, L2. rewrite <- EL12. split; [done|]. split; [done|]. split; [done|]. split; [done|]. split; [|done].
    intros k v Hk. apply (Ol k v), elem_of_app. by left.
Qed.

(** ** Draining an iterator *)

(** The loop [for it.Next() { ... }], with the entries it visits. *)
Fixpoint drain (rounds fuel : nat) (db : database) (t : trie) (it : nodeIterator)
  : outcome trie_error (list (bytes * bytes) * trie) :=
  match rounds with
  | O => OutOfFuel
  | S rounds =>
    '(e, it, t) ← Iterator_Next fuel db t it;
    match e with
    | Some kv => '(l, t) ← drain rounds fuel db t it; Ok (kv :: l, t)
    | None => Ok ([], t)
    end
  end.

Lemma drain_holds db m n fuel : small m -> (n < fuel)%nat -> forall l rounds t it,
  iter_holds db m n it l -> trie_holds db t m -> (length l < rounds)%nat ->
  exists t', drain rounds fuel db t it = Ok (l, t') /\ same_trie db m t t'.
Proof.
  intros Sm Hf. induction l as [|kv l IH]; intros [|rounds] t it R TH Hr; try (cbn in Hr; lia);
    destruct (Iterator_Next_holds fuel db m n t it _ R TH Sm Hf) as (it' & t' & E & ST & R');
    cbn [drain]; rewrite E; cbn [mbind outcome_bind head tail] in *.
  - by exists t'.
  - destruct (IH rounds t' it' R') as (t2 & E2 & ST2); [apply ST|cbn in Hr; lia|]. rewrite E2. cbn [mbind outcome_bind].
    exists t2. split; [done|]. split; [apply ST2|by rewrite (proj2 ST2), (proj2 ST)].
Qed.

Lemma length_leaves L : (length (leaves L) <= length L)%nat.
Proof. unfold leaves. induction L as [|[q [v|]] L IH]; cbn in *; lia. Qed.

Lemma iter_holds_length db m n it l : iter_holds db m n it l -> (length l <= n)%nat.
Proof.
  intros (T & L & _ & _ & E & Ln & _). apply (f_equal length) in E. rewrite length_map in E.
  pose proof (length_leaves L). lia.
Qed.

(** Iterating from a start key to the end. *)
Definition entries (fuel : nat) (db : database) (t : trie) (start : bytes)
  : outcome trie_error (list (bytes * bytes) * trie) :=
  '(it, t) ← t_NodeIterator fuel db t start;
  drain fuel fuel db t it.

Lemma entries_holds fuel db t m start :
  trie_holds db t m -> small m -> map_root m <> emptyState -> (S (node_count m) < fuel)%nat ->
  exists l t', entries fuel db t start = Ok (l, t') /\ same_trie db m t t' /\
    entries_from m (t_prefix t ++ start) l.
Proof.
  intros TH Sm NE Hf. unfold entries, t_NodeIterator.
  destruct (newNodeIterator_holds fuel db t m (t_prefix t ++ start) TH Sm NE Hf) as (it & t1 & l & E & ST & EF & R).
  rewrite E. cbn [mbind outcome_bind]. pose proof (iter_holds_length _ _ _ _ _ R).
  destruct (drain_holds db m _ fuel Sm (ltac:(lia) : (node_count m < fuel)%nat) l fuel t1 it R) as (t2 & E2 & ST2); [apply ST|lia|].
  exists l, t2. split; [done|]. split; [split; [apply ST2|by rewrite (proj2 ST2), (proj2 ST)]|done].
Qed.

(** C27. Iterating over a trie that holds the map [m], from a start key on, visits exactly
    the entries of [m] whose key, with the trie's prefix, is not before the start key, in
    the strict order of their hex form, each once; with enough fuel for the nodes of the
    trie it ends, without error or panic, and leaves the content as it is. *)
Theorem NodeIterator_enumerates fuel db t m start :
  trie_holds db t m -> small m -> map_root m <> emptyState -> (S (node_count m) < fuel)%nat ->
  exists l t', entries fuel db t start = Ok (l, t') /\ trie_holds db t' m /\
    (forall k v, (k, v) ∈ l <->
       m !! k = Some v /\ bytes_compare (keybytesToHex k) (unpack (t_prefix t ++ start)) <> Lt) /\
    StronglySorted hex_lt (map fst l).
Proof.
  intros TH Sm NE Hf. destruct (entries_holds fuel db t m start TH Sm NE Hf) as (l & t' & E & ST & EF).
  exists l, t'. split; [exact E|]. split; [apply ST|exact EF].
Qed.

End Iterate.

Lemma NodeIterator_enumerates_witness :
  exists t l t', TryUpdate ∅ sample_trie [2; 3] [9] = Ok t /\
    @entries sample_hasher 10 ∅ t [] = Ok (l, t') /\ ([1; 2; 3], [9]) ∈ l.
Proof.
  destruct (@sample_trie_update) as (t & E & P & H).
  destruct (@NodeIterator_enumerates sample_hasher 10 ∅ t sample_map [] H small_sample) as (l & t' & El & _ & I & _).
  - vm_compute. discriminate.
  - vm_compute. lia.
  - exists t, l, t'. split; [exact E|]. split; [exact El|]. apply I. split; [reflexivity|]. rewrite P. vm_compute. discriminate.
Defined.
