(* ===== verification/PocContext.v ===== *)
(** * Package [core/types]: the consensus context

    [poc_context.go]: the five prefix tries of the proof-of-contribution consensus
    (validators of the epoch, contributions, latest transactions, candidates, mint
    counts), their roots, commits and the typed values stored in them.  The
    specification is five finite maps and the set of candidates. *)

From stdpp Require Import sorting.
From S2P Require Import Prelude Rlp RlpStream TrieEncoding Common Codec Trie TrieModel TrieRefine TrieHash TrieMap TrieIterator.

(** ** Data *)

(** [pc_db] says whether the context has a database handle of its own, for new tries. *)
Record PocContext := mkPocContext {
  epochTrie : trie;
  contributionTrie : trie;
  latestTxTrie : trie;
  candidateTrie : trie;
  mintCntTrie : trie;
  pc_db : bool
}.

Record PocContextProto := mkPocContextProto {
  EpochHash : bytes;
  ContributionHash : bytes;
  CandidateHash : bytes;
  LatestTxHash : bytes;
  MintCntHash : bytes
}.

Record AccountContribution := mkAccountContribution { ac_Account : bytes; ac_Contribution : Z }.

Record AccountLastedTx := mkAccountLastedTx { lt_Account : bytes; lt_TxHash : bytes; lt_RecordTime : Z }.

Inductive poc_error := PocTrie (e : trie_error) | PocDecode (e : rlp_error) | PocEncode (e : rlp_error).

Definition SetEpoch (t : trie) (pc : PocContext) : PocContext :=
  mkPocContext t (contributionTrie pc) (latestTxTrie pc) (candidateTrie pc) (mintCntTrie pc) (pc_db pc).
Definition SetContribution (t : trie) (pc : PocContext) : PocContext :=
  mkPocContext (epochTrie pc) t (latestTxTrie pc) (candidateTrie pc) (mintCntTrie pc) (pc_db pc).
Definition SetLatestTx (t : trie) (pc : PocContext) : PocContext :=
  mkPocContext (epochTrie pc) (contributionTrie pc) t (candidateTrie pc) (mintCntTrie pc) (pc_db pc).
Definition SetCandidate (t : trie) (pc : PocContext) : PocContext :=
  mkPocContext (epochTrie pc) (contributionTrie pc) (latestTxTrie pc) t (mintCntTrie pc) (pc_db pc).
Definition SetMintCnt (t : trie) (pc : PocContext) : PocContext :=
  mkPocContext (epochTrie pc) (contributionTrie pc) (latestTxTrie pc) (candidateTrie pc) t (pc_db pc).

(** ** Prefixes and keys *)

Definition epochPrefix : bytes := Eval vm_compute in text "epoch-".
Definition contributionPrefix : bytes := Eval vm_compute in text "contributionTrie-".
Definition latestTxPrefix : bytes := Eval vm_compute in text "latestTx-".
Definition candidatePrefix : bytes := Eval vm_compute in text "candidate-".
Definition mintCntPrefix : bytes := Eval vm_compute in text "mintCnt-".

Definition validatorKey : bytes := Eval vm_compute in text "validator".
Definition contributionKey : bytes := Eval vm_compute in text "contribution".

(** ** Creation *)

Definition NewEpochTrie (root : bytes) (db : database) := NewTrieWithPrefix root epochPrefix db.
Definition NewContributionTrie (root : bytes) (db : database) := NewTrieWithPrefix root contributionPrefix db.
Definition NewLatestTxTrie (root : bytes) (db : database) := NewTrieWithPrefix root latestTxPrefix db.
Definition NewCandidateTrie (root : bytes) (db : database) := NewTrieWithPrefix root candidatePrefix db.
Definition NewMintCntTrie (root : bytes) (db : database) := NewTrieWithPrefix root mintCntPrefix db.

Definition NewPocContextFromProto (db : database) (p : PocContextProto) : outcome trie_error PocContext :=
  epoch ← NewEpochTrie (EpochHash p) db;
  contribution ← NewContributionTrie (ContributionHash p) db;
  latestTx ← NewLatestTxTrie (LatestTxHash p) db;
  candidate ← NewCandidateTrie (CandidateHash p) db;
  mintCnt ← NewMintCntTrie (MintCntHash p) db;
  Ok (mkPocContext epoch contribution latestTx candidate mintCnt true).

Definition NewPocContext (db : database) : outcome trie_error PocContext :=
  epoch ← NewEpochTrie (zeros HashLength) db;
  contribution ← NewContributionTrie (zeros HashLength) db;
  latestTx ← NewLatestTxTrie (zeros HashLength) db;
  candidate ← NewCandidateTrie (zeros HashLength) db;
  mintCnt ← NewMintCntTrie (zeros HashLength) db;
  Ok (mkPocContext epoch contribution latestTx candidate mintCnt true).

(** The copies of the tries share nodes, which are never modified in place. *)
Definition Copy (pc : PocContext) : PocContext :=
  mkPocContext (epochTrie pc) (contributionTrie pc) (latestTxTrie pc) (candidateTrie pc) (mintCntTrie pc) false.

Definition Snapshot (pc : PocContext) : PocContext := Copy pc.

Definition RevertToSnapShot (snapshot pc : PocContext) : PocContext :=
  mkPocContext (epochTrie snapshot) (contributionTrie snapshot) (latestTxTrie snapshot)
    (candidateTrie snapshot) (mintCntTrie snapshot) (pc_db pc).

(** A trie without a database can only be empty. *)
Definition open_trie (has_db : bool) (root prefix : bytes) (db : database) : outcome trie_error trie :=
  if has_db || EmptyHash root || bool_decide (root = emptyRoot) then NewTrieWithPrefix root prefix db else Panic.

Definition FromProto (db : database) (p : PocContextProto) (pc : PocContext) : outcome trie_error PocContext :=
  epoch ← open_trie (pc_db pc) (EpochHash p) epochPrefix db;
  contribution ← open_trie (pc_db pc) (ContributionHash p) contributionPrefix db;
  candidate ← open_trie (pc_db pc) (CandidateHash p) candidatePrefix db;
  latestTx ← open_trie (pc_db pc) (LatestTxHash p) latestTxPrefix db;
  mintCnt ← open_trie (pc_db pc) (MintCntHash p) mintCntPrefix db;
  Ok (mkPocContext epoch contribution latestTx candidate mintCnt (pc_db pc)).

(** ** Values *)

Definition Address_type : rtype := TByteArray 20.
Definition Hash_type : rtype := TByteArray 32.
Definition AccountContribution_type : rtype := TStruct [Address_type; TBig].
Definition AccountLastedTx_type : rtype := TStruct [Address_type; Hash_type; TBig].

Definition addresses_val (l : list bytes) : rval := VList (map VBytes l).
Definition contribution_val (c : AccountContribution) : rval :=
  VStruct [VBytes (ac_Account c); VBig (Some (ac_Contribution c))].
Definition lastedTx_val (x : AccountLastedTx) : rval :=
  VStruct [VBytes (lt_Account x); VBytes (lt_TxHash x); VBig (Some (lt_RecordTime x))].

(** What the decoder stored in a variable of the Go type. *)
Definition val_bytes (v : rval) : bytes := match v with VBytes b => b | _ => [] end.
Definition val_big (v : rval) : Z := match v with VBig (Some i) => i | _ => 0 end.
Definition val_list (v : rval) : list rval := match v with VList vs | VStruct vs => vs | _ => [] end.
Definition val_contribution (v : rval) : AccountContribution :=
  match val_list v with a :: c :: _ => mkAccountContribution (val_bytes a) (val_big c) | _ => mkAccountContribution [] 0 end.
Definition val_lastedTx (v : rval) : AccountLastedTx :=
  match val_list v with
  | a :: h :: r :: _ => mkAccountLastedTx (val_bytes a) (val_bytes h) (val_big r)
  | _ => mkAccountLastedTx [] [] 0
  end.

(** [Get] gives nil for an absent key, which the decoder reads as empty input. *)
Definition get_value (db : database) (t : trie) (key : bytes) (ty : rtype) : outcome poc_error (rval * trie) :=
  '(b, t) ← map_err PocTrie (Get db t key);
  v ← map_err PocDecode (DecodeBytes ty (default [] b));
  Ok (v, t).

Definition set_value (db : database) (t : trie) (key : bytes) (ty : rtype) (v : rval) : outcome poc_error trie :=
  b ← map_err PocEncode (EncodeToBytes ty v);
  map_err PocTrie (Update db t key b).

Definition GetValidators (db : database) (pc : PocContext) : outcome poc_error (list bytes * PocContext) :=
  '(v, t) ← get_value db (epochTrie pc) validatorKey (TSlice Address_type);
  Ok (map val_bytes (val_list v), SetEpoch t pc).

Definition SetValidators (db : database) (validators : list bytes) (pc : PocContext) : outcome poc_error PocContext :=
  t ← set_value db (epochTrie pc) validatorKey (TSlice Address_type) (addresses_val validators);
  Ok (SetEpoch t pc).

Definition GetContributions (db : database) (pc : PocContext)
  : outcome poc_error (list AccountContribution * PocContext) :=
  '(v, t) ← get_value db (contributionTrie pc) contributionKey (TSlice AccountContribution_type);
  Ok (map val_contribution (val_list v), SetContribution t pc).

Definition SetContributions (db : database) (cs : list AccountContribution) (pc : PocContext)
  : outcome poc_error PocContext :=
  t ← set_value db (contributionTrie pc) contributionKey (TSlice AccountContribution_type)
        (VList (map contribution_val cs));
  Ok (SetContribution t pc).

Definition GetLastedTx (db : database) (account : bytes) (pc : PocContext)
  : outcome poc_error (AccountLastedTx * PocContext) :=
  '(v, t) ← get_value db (latestTxTrie pc) account AccountLastedTx_type;
  Ok (val_lastedTx v, SetLatestTx t pc).

Definition SetLastedTx (db : database) (x : AccountLastedTx) (pc : PocContext) : outcome poc_error PocContext :=
  t ← set_value db (latestTxTrie pc) (lt_Account x) AccountLastedTx_type (lastedTx_val x);
  Ok (SetLatestTx t pc).

(** A missing node is not reported, and leaves the candidates as they are. *)
Definition KickoutCandidate (db : database) (candidate : bytes) (pc : PocContext) : outcome poc_error PocContext :=
  match TryDelete db (candidateTrie pc) candidate with
  | Ok t => Ok (SetCandidate t pc)
  | Err (MissingNodeError _ _) => Ok pc
  | Panic => Panic
  | OutOfFuel => OutOfFuel
  end.

Definition BecomeCandidate (db : database) (candidate : bytes) (pc : PocContext) : outcome poc_error PocContext :=
  t ← map_err PocTrie (TryUpdate db (candidateTrie pc) candidate candidate);
  Ok (SetCandidate t pc).

(** ** Roots and commits *)

Section Roots.
Context {HS : Hasher}.

(** [rlp.Encode] of a hash into the hash state; its error is dropped. *)
Definition hash_rlp (h : bytes) : bytes := match Encode Hash_type (VBytes h) with Ok b => b | _ => [] end.

Definition Proto_Root (p : PocContextProto) : bytes :=
  keccak256 (hash_rlp (EpochHash p) ++ hash_rlp (ContributionHash p) ++ hash_rlp (CandidateHash p) ++
             hash_rlp (LatestTxHash p) ++ hash_rlp (MintCntHash p)).

Definition ToProto (pc : PocContext) : outcome unit (PocContextProto * PocContext) :=
  '(e, epoch) ← Hash (epochTrie pc);
  '(c, contribution) ← Hash (contributionTrie pc);
  '(d, candidate) ← Hash (candidateTrie pc);
  '(l, latestTx) ← Hash (latestTxTrie pc);
  '(m, mintCnt) ← Hash (mintCntTrie pc);
  Ok (mkPocContextProto e c d l m, mkPocContext epoch contribution latestTx candidate mintCnt (pc_db pc)).

Definition Root (pc : PocContext) : outcome unit (bytes * PocContext) :=
  '(e, epoch) ← Hash (epochTrie pc);
  '(c, contribution) ← Hash (contributionTrie pc);
  '(d, candidate) ← Hash (candidateTrie pc);
  '(l, latestTx) ← Hash (latestTxTrie pc);
  '(m, mintCnt) ← Hash (mintCntTrie pc);
  Ok (keccak256 (hash_rlp e ++ hash_rlp c ++ hash_rlp d ++ hash_rlp l ++ hash_rlp m),
      mkPocContext epoch contribution latestTx candidate mintCnt (pc_db pc)).

(** The tries are committed in this order, each into what the ones before wrote. *)
Definition Poc_CommitTo (db : database) (pc : PocContext)
  : outcome unit (PocContextProto * PocContext * database) :=
  '(e, epoch, db) ← CommitTo (epochTrie pc) db;
  '(c, contribution, db) ← CommitTo (contributionTrie pc) db;
  '(l, latestTx, db) ← CommitTo (latestTxTrie pc) db;
  '(d, candidate, db) ← CommitTo (candidateTrie pc) db;
  '(m, mintCnt, db) ← CommitTo (mintCntTrie pc) db;
  Ok (mkPocContextProto e c d l m, mkPocContext epoch contribution latestTx candidate mintCnt (pc_db pc), db).

Definition GetCandidates (fuel : nat) (db : database) (pc : PocContext)
  : outcome trie_error (list bytes * PocContext) :=
  '(l, t) ← entries fuel db (candidateTrie pc) [];
  Ok (map (fun kv => BytesToAddress (snd kv)) l, SetCandidate t pc).

End Roots.

(** ** Specification *)

(** The content of the five tries; keys include the prefix. *)
Record pc_maps := mkMaps {
  pm_epoch : gmap bytes bytes;
  pm_contribution : gmap bytes bytes;
  pm_latestTx : gmap bytes bytes;
  pm_candidate : gmap bytes bytes;
  pm_mintCnt : gmap bytes bytes
}.

Section Refine.
Context {HS : Hasher}.

Definition thas (db : database) (t : trie) (p : bytes) (m : gmap bytes bytes) : Prop :=
  trie_holds db t m /\ t_prefix t = p.

Definition pc_holds (db : database) (pc : PocContext) (M : pc_maps) : Prop :=
  thas db (epochTrie pc) epochPrefix (pm_epoch M) /\
  thas db (contributionTrie pc) contributionPrefix (pm_contribution M) /\
  thas db (latestTxTrie pc) latestTxPrefix (pm_latestTx M) /\
  thas db (candidateTrie pc) candidatePrefix (pm_candidate M) /\
  thas db (mintCntTrie pc) mintCntPrefix (pm_mintCnt M).

(** The candidate trie holds the set [C] of addresses. *)
Definition candidates (m : gmap bytes bytes) (C : gset bytes) : Prop :=
  (forall a, a ∈ C -> is_address a) /\
  forall k v, m !! k = Some v <-> exists a, a ∈ C /\ k = candidatePrefix ++ a /\ v = a.

(** ** Lemmas: tries with a prefix *)

Lemma prefixes_ok :
  bytes_ok epochPrefix /\ bytes_ok contributionPrefix /\ bytes_ok latestTxPrefix /\
  bytes_ok candidatePrefix /\ bytes_ok mintCntPrefix /\ bytes_ok validatorKey /\ bytes_ok contributionKey.
Proof. repeat split; repeat constructor; unfold byte_ok; lia. Qed.

Lemma Get_holds db t p m key :
  thas db t p m -> bytes_ok p -> bytes_ok key ->
  exists t', Get db t key = Ok (m !! (p ++ key), t') /\ thas db t' p m.
Proof.
  intros [TH <-] Op Ok_. destruct (TryGet_holds db t m key TH) as (t' & E & TH' & P); [by apply bytes_ok_app|].
  unfold Get. rewrite E. exists t'. done.
Qed.

Lemma Update_holds db t p m key v :
  thas db t p m -> bytes_ok p -> bytes_ok key -> v <> [] ->
  exists t', Update db t key v = Ok t' /\ TryUpdate db t key v = Ok t' /\ thas db t' p (<[p ++ key := v]> m).
Proof.
  intros [TH <-] Op Ok_ NE. destruct (TryUpdate_holds db t m key v TH) as (t' & E & P & TH'); [by apply bytes_ok_app|].
  unfold Update. rewrite E. exists t'. split; [done|]. split; [done|]. split; [by destruct v|done].
Qed.

Lemma Delete_holds db t p m key :
  thas db t p m -> bytes_ok p -> bytes_ok key ->
  exists t', TryDelete db t key = Ok t' /\ thas db t' p (base.delete (p ++ key) m).
Proof.
  intros [TH <-] Op Ok_. destruct (TryDelete_holds db t m key TH) as (t' & E & TH' & P); [by apply bytes_ok_app|].
  exists t'. done.
Qed.

(** ** Lemmas: typed values *)

Lemma enc_value_nonempty t v : rt t v -> is_tail t = false -> enc_value t v <> [].
Proof. intros W T E. pose proof (is_item_nonempty _ (rt_item v t W T)) as L. by rewrite E in L. Qed.

Lemma set_value_holds db t p m key ty v :
  thas db t p m -> rt ty v -> is_tail ty = false -> len (enc_value ty v) < 2 ^ 64 -> bytes_ok p -> bytes_ok key ->
  exists t', set_value db t key ty v = Ok t' /\ thas db t' p (<[p ++ key := enc_value ty v]> m).
Proof.
  intros TH W T L Op Ok_. unfold set_value. destruct (EncodeToBytes_spec ty v) as [-> _]; [by apply rt_wt|done|].
  cbn [mbind outcome_bind map_err].
  destruct (Update_holds db t p m key (enc_value ty v) TH Op Ok_) as (t' & -> & _ & TH'); [by apply enc_value_nonempty|].
  by exists t'.
Qed.

Lemma get_value_holds db t p m key ty v :
  thas db t p m -> rt ty v -> is_tail ty = false -> len (enc_value ty v) < 2 ^ 64 -> bytes_ok p -> bytes_ok key ->
  m !! (p ++ key) = Some (enc_value ty v) ->
  exists t', get_value db t key ty = Ok (v, t') /\ thas db t' p m.
Proof.
  intros TH W T L Op Ok_ M. unfold get_value. destruct (Get_holds db t p m key TH Op Ok_) as (t' & -> & TH').
  rewrite M. cbn [mbind outcome_bind map_err]. change (default [] (Some ?b)) with b.
  rewrite DecodeBytes_enc_value by done. cbn [mbind outcome_bind map_err]. by exists t'.
Qed.

(** Lists of addresses that fit in a slice. *)
Definition addresses_ok (l : list bytes) : Prop := Forall is_address l /\ Z.of_nat (length l) < 2 ^ 32.

Definition contribution_ok (c : AccountContribution) : Prop :=
  is_address (ac_Account c) /\ 0 <= ac_Contribution c < 2 ^ 256.

Definition lastedTx_ok (x : AccountLastedTx) : Prop :=
  is_address (lt_Account x) /\ is_hash (lt_TxHash x) /\ 0 <= lt_RecordTime x < 2 ^ 256.

Lemma addresses_value l :
  addresses_ok l ->
  rt (TSlice Address_type) (addresses_val l) /\ len (enc_value (TSlice Address_type) (addresses_val l)) < 2 ^ 64 /\
  map val_bytes (val_list (addresses_val l)) = l.
Proof.
  intros [F L]. split; [|split].
  - apply rt_slice; [done|]. apply Forall_map. eapply Forall_impl; [|exact F]. apply rt_address.
  - apply (len_enc_slice _ _ 29); [lia| |by rewrite length_map]. apply Forall_map. eapply Forall_impl; [|exact F].
    intros a [La _]. apply (len_enc_bytes a 20); [unfold AddressLength in La; lia|lia].
  - cbn. rewrite map_map. apply map_id.
Qed.

Lemma contribution_value c :
  contribution_ok c ->
  rt AccountContribution_type (contribution_val c) /\ len (enc_value AccountContribution_type (contribution_val c)) <= 100 /\
  val_contribution (contribution_val c) = c.
Proof.
  intros [A B]. split; [|split].
  - cbn. split; [done|]. split; [by apply rt_address|]. split; [done|]. split; [lia|done].
  - change (enc_value _ _) with (enc_list (enc_string (ac_Account c) ++ enc_string (be_min (ac_Contribution c)) ++ [])).
    destruct A as [La _]. unfold AddressLength in La.
    pose proof (len_enc_bytes (ac_Account c) 20 ltac:(lia) ltac:(lia)).
    pose proof (len_enc_bytes (be_min (ac_Contribution c)) 32 (len_be_min_big _ B) ltac:(lia)).
    rewrite app_nil_r. pose proof (len_enc_list_le (enc_string (ac_Account c) ++ enc_string (be_min (ac_Contribution c))) ltac:(rewrite len_app; lia)) as H1.
    rewrite len_app in H1. lia.
  - by destruct c.
Qed.

Lemma contribution_bytes c : contribution_ok c -> bytes_ok (enc_value AccountContribution_type (contribution_val c)).
Proof.
  intros [[La Oa] B]. unfold AddressLength in La.
  change (enc_value _ _) with (enc_list (enc_string (ac_Account c) ++ enc_string (be_min (ac_Contribution c)) ++ [])). rewrite app_nil_r.
  pose proof (len_be_min_big _ B). pose proof (len_enc_bytes (ac_Account c) 20 ltac:(lia) ltac:(lia)).
  pose proof (len_enc_bytes (be_min (ac_Contribution c)) 32 ltac:(lia) ltac:(lia)).
  apply enc_list_ok; [|rewrite len_app; lia]. apply bytes_ok_app. split; apply enc_string_ok; [done|lia|apply be_min_ok|lia].
Qed.

Lemma contributions_value cs :
  Forall contribution_ok cs -> Z.of_nat (length cs) < 2 ^ 32 ->
  let ty := TSlice AccountContribution_type in let v := VList (map contribution_val cs) in
  rt ty v /\ len (enc_value ty v) < 2 ^ 64 /\ map val_contribution (val_list v) = cs.
Proof.
  intros F L. cbv zeta. split; [|split].
  - apply rt_slice; [done|]. apply Forall_map. eapply Forall_impl; [|exact F]. intros c Hc. by apply contribution_value.
  - apply (len_enc_slice _ _ 100); [lia| |by rewrite length_map]. apply Forall_map. eapply Forall_impl; [|exact F].
    intros c Hc. by apply contribution_value.
  - cbn [val_list]. rewrite map_map. rewrite <- (map_id cs) at 2. apply map_ext_Forall.
    eapply Forall_impl; [|exact F]. intros c Hc. by apply contribution_value.
Qed.

Lemma lastedTx_value x :
  lastedTx_ok x ->
  rt AccountLastedTx_type (lastedTx_val x) /\ len (enc_value AccountLastedTx_type (lastedTx_val x)) < 2 ^ 64 /\
  val_lastedTx (lastedTx_val x) = x.
Proof.
  intros (A & Hh & B). split; [|split].
  - cbn. split; [done|]. split; [by apply rt_address|]. split; [done|]. split; [by apply rt_hash|].
    split; [done|]. split; [lia|done].
  - change (enc_value _ _) with (enc_list (enc_string (lt_Account x) ++ enc_string (lt_TxHash x) ++ enc_string (be_min (lt_RecordTime x)) ++ [])).
    destruct A as [La _], Hh as [Lh _]. unfold AddressLength, HashLength in *.
    pose proof (len_enc_bytes (lt_Account x) 20 ltac:(lia) ltac:(lia)).
    pose proof (len_enc_bytes (lt_TxHash x) 32 ltac:(lia) ltac:(lia)).
    pose proof (len_enc_bytes (be_min (lt_RecordTime x)) 32 (len_be_min_big _ B) ltac:(lia)).
    rewrite app_nil_r.
    pose proof (len_enc_list_le (enc_string (lt_Account x) ++ enc_string (lt_TxHash x) ++ enc_string (be_min (lt_RecordTime x))) ltac:(rewrite !len_app; lia)) as H2.
    rewrite !len_app in H2. lia.
  - by destruct x.
Qed.

(** ** Lemmas: the operations *)

Definition set_epoch_map (m : gmap bytes bytes) (M : pc_maps) : pc_maps :=
  mkMaps m (pm_contribution M) (pm_latestTx M) (pm_candidate M) (pm_mintCnt M).
Definition set_contribution_map (m : gmap bytes bytes) (M : pc_maps) : pc_maps :=
  mkMaps (pm_epoch M) m (pm_latestTx M) (pm_candidate M) (pm_mintCnt M).
Definition set_latestTx_map (m : gmap bytes bytes) (M : pc_maps) : pc_maps :=
  mkMaps (pm_epoch M) (pm_contribution M) m (pm_candidate M) (pm_mintCnt M).
Definition set_candidate_map (m : gmap bytes bytes) (M : pc_maps) : pc_maps :=
  mkMaps (pm_epoch M) (pm_contribution M) (pm_latestTx M) m (pm_mintCnt M).
Definition set_mintCnt_map (m : gmap bytes bytes) (M : pc_maps) : pc_maps :=
  mkMaps (pm_epoch M) (pm_contribution M) (pm_latestTx M) (pm_candidate M) m.

Definition stored_validators (l : list bytes) (M : pc_maps) : Prop :=
  pm_epoch M !! (epochPrefix ++ validatorKey) = Some (enc_value (TSlice Address_type) (addresses_val l)).

Definition put_validators (l : list bytes) (M : pc_maps) : pc_maps :=
  set_epoch_map (<[epochPrefix ++ validatorKey := enc_value (TSlice Address_type) (addresses_val l)]> (pm_epoch M)) M.

Definition put_contributions (cs : list AccountContribution) (M : pc_maps) : pc_maps :=
  set_contribution_map
    (<[contributionPrefix ++ contributionKey :=
         enc_value (TSlice AccountContribution_type) (VList (map contribution_val cs))]> (pm_contribution M)) M.

Definition put_lastedTx (x : AccountLastedTx) (M : pc_maps) : pc_maps :=
  set_latestTx_map
    (<[latestTxPrefix ++ lt_Account x := enc_value AccountLastedTx_type (lastedTx_val x)]> (pm_latestTx M)) M.

Lemma SetValidators_holds db pc M l :
  pc_holds db pc M -> addresses_ok l ->
  exists pc', SetValidators db l pc = Ok pc' /\ pc_holds db pc' (put_validators l M) /\ pc_db pc' = pc_db pc.
Proof.
  intros (He & Hr) Hl. destruct (addresses_value l Hl) as (W & L & _).
  destruct (set_value_holds _ _ _ _ validatorKey _ _ He W eq_refl L) as (t & E & He'); try apply prefixes_ok; try done.
  unfold SetValidators. rewrite E. cbn [mbind outcome_bind]. eexists. split; [reflexivity|]. done.
Qed.

Lemma GetValidators_holds db pc M l :
  pc_holds db pc M -> addresses_ok l -> stored_validators l M ->
  exists pc', GetValidators db pc = Ok (l, pc') /\ pc_holds db pc' M /\ pc_db pc' = pc_db pc.
Proof.
  intros (He & Hr) Hl Sv. destruct (addresses_value l Hl) as (W & L & V).
  destruct (get_value_holds _ _ _ _ validatorKey _ _ He W eq_refl L) as (t & E & He'); try apply prefixes_ok; try done.
  unfold GetValidators. rewrite E. cbn [mbind outcome_bind]. rewrite V. eexists. split; [reflexivity|]. done.
Qed.

Lemma SetContributions_holds db pc M cs :
  pc_holds db pc M -> Forall contribution_ok cs -> Z.of_nat (length cs) < 2 ^ 32 ->
  exists pc', SetContributions db cs pc = Ok pc' /\ pc_holds db pc' (put_contributions cs M) /\ pc_db pc' = pc_db pc.
Proof.
  intros (He & Hc & Hr) Hl Ln. destruct (contributions_value cs Hl Ln) as (W & L & _).
  destruct (set_value_holds _ _ _ _ contributionKey _ _ Hc W eq_refl L) as (t & E & He'); try apply prefixes_ok; try done.
  unfold SetContributions. rewrite E. cbn [mbind outcome_bind]. eexists. split; [reflexivity|]. done.
Qed.

Lemma GetContributions_holds db pc M cs :
  pc_holds db pc M -> Forall contribution_ok cs -> Z.of_nat (length cs) < 2 ^ 32 ->
  pm_contribution M !! (contributionPrefix ++ contributionKey) =
    Some (enc_value (TSlice AccountContribution_type) (VList (map contribution_val cs))) ->
  exists pc', GetContributions db pc = Ok (cs, pc') /\ pc_holds db pc' M /\ pc_db pc' = pc_db pc.
Proof.
  intros (He & Hc & Hr) Hl Ln Sv. destruct (contributions_value cs Hl Ln) as (W & L & V).
  destruct (get_value_holds _ _ _ _ contributionKey _ _ Hc W eq_refl L) as (t & E & He'); try apply prefixes_ok; try done.
  unfold GetContributions. rewrite E. cbn [mbind outcome_bind]. rewrite V. eexists. split; [reflexivity|]. done.
Qed.

Lemma SetLastedTx_holds db pc M x :
  pc_holds db pc M -> lastedTx_ok x ->
  exists pc', SetLastedTx db x pc = Ok pc' /\ pc_holds db pc' (put_lastedTx x M) /\ pc_db pc' = pc_db pc.
Proof.
  intros (He & Hc & Hl & Hr) Hx. destruct (lastedTx_value x Hx) as (W & L & _). destruct Hx as [[_ Ox] _].
  destruct (set_value_holds _ _ _ _ (lt_Account x) _ _ Hl W eq_refl L) as (t & E & He'); try apply prefixes_ok; try done.
  unfold SetLastedTx. rewrite E. cbn [mbind outcome_bind]. eexists. split; [reflexivity|]. done.
Qed.

Lemma GetLastedTx_holds db pc M x :
  pc_holds db pc M -> lastedTx_ok x ->
  pm_latestTx M !! (latestTxPrefix ++ lt_Account x) = Some (enc_value AccountLastedTx_type (lastedTx_val x)) ->
  exists pc', GetLastedTx db (lt_Account x) pc = Ok (x, pc') /\ pc_holds db pc' M /\ pc_db pc' = pc_db pc.
Proof.
  intros (He & Hc & Hl & Hr) Hx Sv. destruct (lastedTx_value x Hx) as (W & L & V). destruct Hx as [[_ Ox] _].
  destruct (get_value_holds _ _ _ _ (lt_Account x) _ _ Hl W eq_refl L) as (t & E & He'); try apply prefixes_ok; try done.
  unfold GetLastedTx. rewrite E. cbn [mbind outcome_bind]. rewrite V. eexists. split; [reflexivity|]. done.
Qed.

(** ** Lemmas: candidates *)

Lemma candidates_insert m C a :
  candidates m C -> is_address a -> candidates (<[candidatePrefix ++ a := a]> m) (C ∪ {[a]}).
Proof.
  intros [HC HM] Ha. split; [intros b Hb; apply elem_of_union in Hb as [Hb|Hb]; [by apply HC|apply elem_of_singleton in Hb; by subst]|].
  intros k v. destruct (decide (k = candidatePrefix ++ a)) as [->|N].
  - rewrite lookup_insert_eq. split.
    + intros [= <-]. exists a. set_solver.
    + intros (b & _ & E & ->). apply app_inv_head in E. by subst.
  - rewrite lookup_insert_ne by done. rewrite HM. split.
    + intros (b & Hb & ?). exists b. set_solver.
    + intros (b & Hb & -> & ->). exists b. apply elem_of_union in Hb as [Hb|Hb]; [done|].
      apply elem_of_singleton in Hb. by subst.
Qed.

Lemma candidates_delete m C a :
  candidates m C -> candidates (base.delete (candidatePrefix ++ a) m) (C ∖ {[a]}).
Proof.
  intros [HC HM]. split; [set_solver|]. intros k v. rewrite lookup_delete_Some, HM. split.
  - intros (N & b & Hb & -> & ->). exists b. split; [|done]. apply elem_of_difference. split; [done|].
    intros Hab. apply elem_of_singleton in Hab. by subst.
  - intros (b & Hb & -> & ->). apply elem_of_difference in Hb as [Hb N]. split; [|by exists b].
    intros E. apply app_inv_head in E. subst. set_solver.
Qed.

Lemma candidates_small m C : candidates m C -> small m.
Proof.
  intros [HC HM] k v M. apply HM in M as (a & Ha & -> & ->). destruct (HC a Ha) as [L O].
  unfold AddressLength in L. rewrite len_app, L. split; [by vm_compute|]. split; [done|lia].
Qed.

Lemma BecomeCandidate_holds db pc M C a :
  pc_holds db pc M -> candidates (pm_candidate M) C -> is_address a ->
  exists pc' m', BecomeCandidate db a pc = Ok pc' /\ pc_holds db pc' (set_candidate_map m' M) /\
    candidates m' (C ∪ {[a]}) /\ pc_db pc' = pc_db pc.
Proof.
  intros (He & Hc & Hl & Hd & Hm) HC Ha. pose proof Ha as [La Oa].
  destruct (Update_holds _ _ _ _ a a Hd) as (t & _ & E & Hd'); [apply prefixes_ok|done| |].
  { by intros ->. }
  unfold BecomeCandidate. rewrite E. cbn [mbind outcome_bind map_err]. eexists _, _. split; [reflexivity|].
  split; [|split; [by apply candidates_insert|done]]. done.
Qed.

Lemma KickoutCandidate_holds db pc M C a :
  pc_holds db pc M -> candidates (pm_candidate M) C -> is_address a ->
  exists pc' m', KickoutCandidate db a pc = Ok pc' /\ pc_holds db pc' (set_candidate_map m' M) /\
    candidates m' (C ∖ {[a]}) /\ pc_db pc' = pc_db pc.
Proof.
  intros (He & Hc & Hl & Hd & Hm) HC [La Oa].
  destruct (Delete_holds _ _ _ _ a Hd) as (t & E & Hd'); [apply prefixes_ok|done|].
  unfold KickoutCandidate. rewrite E. eexists _, _. split; [reflexivity|].
  split; [|split; [by apply candidates_delete|done]]. done.
Qed.

(** The hex order of keys of the same length is their byte order. *)
Lemma unpack_compare a b x y :
  bytes_ok a -> bytes_ok b -> length a = length b ->
  bytes_compare (unpack a ++ x) (unpack b ++ y) =
  match bytes_compare a b with Eq => bytes_compare x y | c => c end.
Proof.
  intros Ha. revert b. induction Ha as [|i a Hi Ha IH]; intros b Hb L; [by destruct b|].
  destruct b as [|j b]; [done|]. apply Forall_cons_iff in Hb as [Hj Hb]. injection L as L.
  change (unpack (i :: a)) with (i / 16 :: i mod 16 :: unpack a). change (unpack (j :: b)) with (j / 16 :: j mod 16 :: unpack b).
  cbn [app bytes_compare]. rewrite IH by done. unfold byte_ok in *.
  pose proof (Z.div_mod i 16 ltac:(lia)). pose proof (Z.div_mod j 16 ltac:(lia)).
  pose proof (Z.mod_pos_bound i 16 ltac:(lia)). pose proof (Z.mod_pos_bound j 16 ltac:(lia)).
  destruct (Z.compare_spec i j) as [->|Lt|Gt]; [by rewrite !Z.compare_refl|..];
    destruct (Z.compare_spec (i / 16) (j / 16)) as [E|?|?]; try done; try lia;
    destruct (Z.compare_spec (i mod 16) (j mod 16)); try done; lia.
Qed.

Lemma hex_lt_prefix p a b :
  bytes_ok p -> bytes_ok a -> bytes_ok b -> length a = length b -> hex_lt (p ++ a) (p ++ b) <-> path_lt a b.
Proof.
  intros Hp Ha Hb L. unfold hex_lt, path_lt. rewrite !keybytesToHex_unpack, unpack_compare.
  - rewrite bytes_compare_app. by destruct (bytes_compare a b).
  - by apply bytes_ok_app.
  - by apply bytes_ok_app.
  - rewrite !length_app. lia.
Qed.

Lemma hex_prefix p a : HasPrefix (keybytesToHex (p ++ a)) (unpack p) = true.
Proof.
  apply HasPrefix_spec. rewrite keybytesToHex_unpack. unfold unpack. rewrite map_app, concat_app, <- app_assoc. by eexists.
Qed.

Lemma not_lt_prefix p a : bytes_compare (keybytesToHex (p ++ a)) (unpack p) <> Lt.
Proof.
  pose proof (proj1 (HasPrefix_spec _ _) (hex_prefix p a)) as [x ->]. rewrite bytes_compare_antisym.
  destruct x as [|y x]; [by rewrite app_nil_r, (proj2 (bytes_compare_eq _ _) eq_refl)|].
  pose proof (path_lt_prefix (unpack p) (y :: x) ltac:(done)) as L. unfold path_lt in L. by rewrite L.
Qed.

(** The addresses of the entries of the candidate trie. *)
Definition entry_address (kv : bytes * bytes) : bytes := BytesToAddress (snd kv).

Lemma candidate_entries m C l :
  candidates m C -> entries_from m candidatePrefix l ->
  StronglySorted path_lt (map entry_address l) /\ forall a, a ∈ map entry_address l <-> a ∈ C.
Proof.
  intros [HA HM] [EF SS].
  assert (V : forall k v, (k, v) ∈ l -> exists a, a ∈ C /\ k = candidatePrefix ++ a /\ v = a).
  { intros k v Hk. apply EF in Hk as [Mk _]. by apply HM. }
  split.
  - clear EF. induction l as [|[k v] l IH]; [constructor|]. cbn [map fst snd] in *. inversion SS as [|? ? SS' F]; subst.
    destruct (V k v) as (a & Ha & -> & ->); [by left|].
    assert (V' : forall k v, (k, v) ∈ l -> exists a, a ∈ C /\ k = candidatePrefix ++ a /\ v = a) by (intros; apply V; by right).
    constructor; [by apply IH|]. rewrite Forall_forall in *. intros b Hb. apply in_map_iff in Hb as ([k' v'] & <- & Hin).
    pose proof Hin as Hin'. apply list_elem_of_In in Hin'. destruct (V' k' v' Hin') as (c & Hc' & -> & ->).
    unfold entry_address. cbn.
    destruct (HA a Ha) as [La Oa], (HA c Hc') as [Lc Oc]. rewrite !BytesToAddress_id by done.
    apply (hex_lt_prefix candidatePrefix); [apply prefixes_ok|done|done| |].
    + unfold len in *. lia.
    + apply F, in_map_iff. by exists (candidatePrefix ++ c, c).
  - intros a. split.
    + intros Ha. apply list_elem_of_fmap in Ha as ([k v] & -> & Hk). destruct (V k v Hk) as (b & Hb & -> & ->).
      unfold entry_address. cbn. rewrite BytesToAddress_id; [done|]. apply HA, Hb.
    + intros Ha. apply list_elem_of_fmap. exists (candidatePrefix ++ a, a). unfold entry_address. cbn. destruct (HA a Ha) as [La Oa].
      rewrite BytesToAddress_id by done. split; [done|]. apply EF. split; [apply HM; by exists a|exact (not_lt_prefix candidatePrefix a)].
Qed.

Lemma GetCandidates_holds fuel db pc M C :
  pc_holds db pc M -> candidates (pm_candidate M) C -> map_root (pm_candidate M) <> emptyState ->
  (S (node_count (pm_candidate M)) < fuel)%nat ->
  exists l pc', GetCandidates fuel db pc = Ok (l, pc') /\ pc_holds db pc' M /\ pc_db pc' = pc_db pc /\
    StronglySorted path_lt l /\ forall a, a ∈ l <-> a ∈ C.
Proof.
  intros (He & Hc & Hl & [Hd Pd] & Hm) HC NE Hf.
  destruct (entries_holds fuel db (candidateTrie pc) _ [] Hd (candidates_small _ _ HC) NE Hf) as (l & t' & E & [TH P] & EF).
  unfold GetCandidates. rewrite E. cbn [mbind outcome_bind]. rewrite Pd, app_nil_r in *.
  eexists _, _. split; [reflexivity|]. split; [split; [done|]; do 2 (split; [done|]); split; [by split|done]|].
  split; [done|]. by apply (candidate_entries (pm_candidate M)).
Qed.

(** ** Lemmas: commits *)

Definition all_maps (M : pc_maps) : list (gmap bytes bytes) :=
  [pm_epoch M; pm_contribution M; pm_latestTx M; pm_candidate M; pm_mintCnt M].

Lemma all_maps_in M :
  pm_epoch M ∈ all_maps M /\ pm_contribution M ∈ all_maps M /\ pm_latestTx M ∈ all_maps M /\
  pm_candidate M ∈ all_maps M /\ pm_mintCnt M ∈ all_maps M.
Proof. unfold all_maps. rewrite !elem_of_cons. tauto. Qed.

Definition in_maps (M : pc_maps) (u : ptree) : Prop := exists m, m ∈ all_maps M /\ below u (build m).

(** The hash function does not collide on the nodes of the five tries and with what is
    in the database, and hits none of the hashes of the empty trie. *)
Definition pc_collision_free (db : database) (M : pc_maps) : Prop :=
  agrees (in_maps M) true db /\
  forall m, m ∈ all_maps M -> m <> ∅ -> map_root m <> emptyRoot /\ EmptyHash (map_root m) = false.

Definition maps_proto (M : pc_maps) : PocContextProto :=
  mkPocContextProto (map_root (pm_epoch M)) (map_root (pm_contribution M)) (map_root (pm_candidate M))
    (map_root (pm_latestTx M)) (map_root (pm_mintCnt M)).

Definition pc_small (M : pc_maps) : Prop := forall m, m ∈ all_maps M -> small m.

Lemma thas_hash db t p m : thas db t p m -> small m -> exists t', Hash t = Ok (map_root m, t') /\ thas db t' p m.
Proof. intros [TH <-] Sm. destruct (Hash_holds db t m TH Sm) as (t' & E & TH' & P). by exists t'. Qed.

Lemma ToProto_holds db pc M :
  pc_holds db pc M -> pc_small M ->
  exists pc', ToProto pc = Ok (maps_proto M, pc') /\ pc_holds db pc' M /\ pc_db pc' = pc_db pc.
Proof.
  intros (He & Hc & Hl & Hd & Hm) Sm. unfold ToProto.
  destruct (thas_hash _ _ _ _ He) as (te & -> & He'); [apply Sm, (all_maps_in M)|]. cbn [mbind outcome_bind].
  destruct (thas_hash _ _ _ _ Hc) as (tc & -> & Hc'); [apply Sm, (all_maps_in M)|]. cbn [mbind outcome_bind].
  destruct (thas_hash _ _ _ _ Hd) as (td & -> & Hd'); [apply Sm, (all_maps_in M)|]. cbn [mbind outcome_bind].
  destruct (thas_hash _ _ _ _ Hl) as (tl & -> & Hl'); [apply Sm, (all_maps_in M)|]. cbn [mbind outcome_bind].
  destruct (thas_hash _ _ _ _ Hm) as (tm & -> & Hm'); [apply Sm, (all_maps_in M)|]. cbn [mbind outcome_bind].
  eexists. split; [reflexivity|]. done.
Qed.

Lemma trie_holds_mono db db' t m : db ⊆ db' -> trie_holds db t m -> trie_holds db' t m.
Proof. intros S (T & R & H). exists T. split; [by eapply mrep_mono|done]. Qed.

Lemma thas_mono db db' t p m : db ⊆ db' -> thas db t p m -> thas db' t p m.
Proof. intros S [TH P]. split; [by eapply trie_holds_mono|done]. Qed.

Lemma thas_commit M db t p m :
  m ∈ all_maps M -> pc_small M -> agrees (in_maps M) true db -> thas db t p m ->
  exists t' db', CommitTo t db = Ok (map_root m, t', db') /\ db ⊆ db' /\ agrees (in_maps M) true db' /\
    thas db' t' p m /\ (inner (build m) -> stored_at db' (build m)).
Proof.
  intros Hm Sm A [TH <-].
  destruct (CommitTo_stored (in_maps M) db t m) as (t' & db' & E & Sb & A' & TH' & P & St); try done.
  - intros u v (m' & Hm' & B) Bv. exists m'. split; [done|]. by apply (below_trans v u).
  - exists m. split; [done|constructor].
  - by apply Sm.
  - by exists t', db'.
Qed.

Lemma thas_open db db0 db' t p m :
  thas db0 t p m -> small m -> (inner (build m) -> stored_at db (build m)) -> db ⊆ db' ->
  (m <> ∅ -> map_root m <> emptyRoot /\ EmptyHash (map_root m) = false) ->
  exists t', NewTrieWithPrefix (map_root m) p db' = Ok t' /\ thas db' t' p m.
Proof.
  intros [TH _] Sm St Sb NE.
  destruct (New_holds db' (build m) m) as (t' & E & (T & R & H)); try done.
  - by apply (trie_holds_valid db0 t).
  - intros I. eapply stored_at_mono; [done|by apply St].
  - unfold NewTrieWithPrefix. rewrite E. cbn [mbind outcome_bind]. eexists. split; [reflexivity|].
    split; [by exists T|done].
Qed.

Lemma Poc_CommitTo_holds db pc M :
  pc_holds db pc M -> pc_small M -> pc_collision_free db M ->
  exists pc' db' pc2, Poc_CommitTo db pc = Ok (maps_proto M, pc', db') /\ db ⊆ db' /\ pc_holds db' pc' M /\
    NewPocContextFromProto db' (maps_proto M) = Ok pc2 /\ pc_holds db' pc2 M.
Proof.
  intros (He & Hc & Hl & Hd & Hm) Sm [A0 NE]. unfold Poc_CommitTo.
  pose proof (all_maps_in M) as (Ie & Ic & Il & Id & Im).
  destruct (thas_commit M _ _ _ _ Ie Sm A0 He) as (te & db1 & -> & S1 & A1 & He1 & Se). cbn [mbind outcome_bind].
  apply (thas_mono _ _ _ _ _ S1) in Hc, Hl, Hd, Hm.
  destruct (thas_commit M _ _ _ _ Ic Sm A1 Hc) as (tc & db2 & -> & S2 & A2 & Hc2 & Sc). cbn [mbind outcome_bind].
  apply (thas_mono _ _ _ _ _ S2) in He1, Hl, Hd, Hm.
  destruct (thas_commit M _ _ _ _ Il Sm A2 Hl) as (tl & db3 & -> & S3 & A3 & Hl3 & Sl). cbn [mbind outcome_bind].
  apply (thas_mono _ _ _ _ _ S3) in He1, Hc2, Hd, Hm.
  destruct (thas_commit M _ _ _ _ Id Sm A3 Hd) as (td & db4 & -> & S4 & A4 & Hd4 & Sd). cbn [mbind outcome_bind].
  apply (thas_mono _ _ _ _ _ S4) in He1, Hc2, Hl3, Hm.
  destruct (thas_commit M _ _ _ _ Im Sm A4 Hm) as (tm & db5 & -> & S5 & A5 & Hm5 & Sn). cbn [mbind outcome_bind].
  apply (thas_mono _ _ _ _ _ S5) in He1, Hc2, Hl3, Hd4.
  assert (S45 : db4 ⊆ db5) by done. assert (S35 : db3 ⊆ db5) by (by etrans). assert (S25 : db2 ⊆ db5) by (by etrans).
  assert (S15 : db1 ⊆ db5) by (by etrans). assert (S05 : db ⊆ db5) by (by etrans).
  destruct (thas_open db1 _ db5 _ _ _ He1 (Sm _ Ie) Se S15 (NE _ Ie)) as (e2 & Ee & Re).
  destruct (thas_open db2 _ db5 _ _ _ Hc2 (Sm _ Ic) Sc S25 (NE _ Ic)) as (c2 & Ec & Rc).
  destruct (thas_open db3 _ db5 _ _ _ Hl3 (Sm _ Il) Sl S35 (NE _ Il)) as (l2 & El & Rl).
  destruct (thas_open db4 _ db5 _ _ _ Hd4 (Sm _ Id) Sd S45 (NE _ Id)) as (d2 & Ed & Rd).
  destruct (thas_open db5 _ db5 _ _ _ Hm5 (Sm _ Im) Sn ltac:(done) (NE _ Im)) as (m2 & Em & Rm).
  eexists _, db5, (mkPocContext e2 c2 l2 d2 m2 true). split; [reflexivity|]. split; [done|]. split; [done|]. split; [|done].
  unfold NewPocContextFromProto, NewEpochTrie, NewContributionTrie, NewLatestTxTrie, NewCandidateTrie, NewMintCntTrie.
  cbn [maps_proto EpochHash ContributionHash LatestTxHash CandidateHash MintCntHash].
  rewrite Ee, Ec, El, Ed, Em. reflexivity.
Qed.

(** ** Correctness *)

(** The candidate trie is a set of addresses: [BecomeCandidate] adds the address,
    [KickoutCandidate] removes it, both without touching the other tries, and
    [GetCandidates] lists exactly the members, each once, in increasing byte order. *)
Theorem candidates_refine_set fuel db pc M C a :
  pc_holds db pc M -> candidates (pm_candidate M) C -> is_address a ->
  map_root (pm_candidate M) <> emptyState -> (S (node_count (pm_candidate M)) < fuel)%nat ->
  (exists pc' m', BecomeCandidate db a pc = Ok pc' /\ pc_holds db pc' (set_candidate_map m' M) /\
     candidates m' (C ∪ {[a]})) /\
  (exists pc' m', KickoutCandidate db a pc = Ok pc' /\ pc_holds db pc' (set_candidate_map m' M) /\
     candidates m' (C ∖ {[a]})) /\
  (exists pc' l, GetCandidates fuel db pc = Ok (l, pc') /\ pc_holds db pc' M /\
     StronglySorted path_lt l /\ forall b, b ∈ l <-> b ∈ C).
Proof.
  intros H HC Ha NE Hf. split; [|split].
  - destruct (BecomeCandidate_holds db pc M C a H HC Ha) as (pc' & m' & ? & ? & ? & _). eauto.
  - destruct (KickoutCandidate_holds db pc M C a H HC Ha) as (pc' & m' & ? & ? & ? & _). eauto.
  - destruct (GetCandidates_holds fuel db pc M C H HC NE Hf) as (l & pc' & ? & ? & _ & ? & ?). exists pc', l. auto.
Qed.

(** What is stored in the context is read back: the validators of the epoch, the
    contributions and the latest transaction of an account survive their encoding and
    the trie, and storing one leaves what the other tries hold. *)
Theorem context_values_roundtrip db pc M vs cs x :
  pc_holds db pc M -> addresses_ok vs -> Forall contribution_ok cs -> Z.of_nat (length cs) < 2 ^ 32 ->
  lastedTx_ok x ->
  exists pc1 pc2 pc3 pc4 pc5 pc6,
    SetValidators db vs pc = Ok pc1 /\ SetContributions db cs pc1 = Ok pc2 /\ SetLastedTx db x pc2 = Ok pc3 /\
    GetValidators db pc3 = Ok (vs, pc4) /\ GetContributions db pc4 = Ok (cs, pc5) /\
    GetLastedTx db (lt_Account x) pc5 = Ok (x, pc6) /\
    pc_holds db pc6 (put_lastedTx x (put_contributions cs (put_validators vs M))).
Proof.
  intros H Hv Hc Ln Hx.
  destruct (SetValidators_holds db pc M vs H Hv) as (pc1 & E1 & H1 & _).
  destruct (SetContributions_holds db pc1 _ cs H1 Hc Ln) as (pc2 & E2 & H2 & _).
  destruct (SetLastedTx_holds db pc2 _ x H2 Hx) as (pc3 & E3 & H3 & _).
  destruct (GetValidators_holds db pc3 _ vs H3 Hv) as (pc4 & E4 & H4 & _); [apply lookup_insert_eq|].
  destruct (GetContributions_holds db pc4 _ cs H4 Hc Ln) as (pc5 & E5 & H5 & _); [apply lookup_insert_eq|].
  destruct (GetLastedTx_holds db pc5 _ x H5 Hx) as (pc6 & E6 & H6 & _); [apply lookup_insert_eq|].
  by exists pc1, pc2, pc3, pc4, pc5, pc6.
Qed.

(** Committing the context: [CommitTo] returns the roots that [ToProto] computes, adds
    entries to the database only, and [NewPocContextFromProto] opens with these roots a
    context with the same content. *)
Theorem context_commit_reopens db pc M :
  pc_holds db pc M -> pc_small M -> pc_collision_free db M ->
  exists proto pc0 pc1 pc2 db',
    ToProto pc = Ok (proto, pc0) /\ Poc_CommitTo db pc = Ok (proto, pc1, db') /\ db ⊆ db' /\
    pc_holds db' pc1 M /\ NewPocContextFromProto db' proto = Ok pc2 /\ pc_holds db' pc2 M.
Proof.
  intros H Sm CF. destruct (ToProto_holds db pc M H Sm) as (pc0 & E0 & _).
  destruct (Poc_CommitTo_holds db pc M H Sm CF) as (pc1 & db' & pc2 & E1 & S & H1 & E2 & H2).
  exists (maps_proto M), pc0, pc1, pc2, db'. done.
Qed.

End Refine.

(** ** Concrete instances *)

Definition sample_address : bytes := repeat 7 20.

Definition empty_context : PocContext :=
  let t p := Trie Nil (zeros HashLength) p 0 0 in
  mkPocContext (t epochPrefix) (t contributionPrefix) (t latestTxPrefix) (t candidatePrefix) (t mintCntPrefix) true.

Definition empty_maps : pc_maps := mkMaps ∅ ∅ ∅ ∅ ∅.

Lemma empty_context_new db : NewPocContext db = Ok empty_context.
Proof. reflexivity. Qed.

Lemma empty_context_holds `{HS : Hasher} db : pc_holds db empty_context empty_maps.
Proof. repeat split; apply trie_holds_empty. Qed.

Lemma empty_candidates : candidates ∅ ∅.
Proof. split; [set_solver|]. intros k v. split; [done|]. intros (a & Ha & _). set_solver. Qed.

Lemma sample_address_ok : is_address sample_address.
Proof. split; [reflexivity|]. repeat constructor; unfold byte_ok; lia. Qed.

Definition sample_maps : pc_maps := mkMaps ∅ ∅ ∅ {[ candidatePrefix ++ sample_address := sample_address ]} ∅.

Lemma sample_context :
  exists pc, BecomeCandidate ∅ sample_address empty_context = Ok pc /\ @pc_holds sample_hasher ∅ pc sample_maps.
Proof.
  destruct (@empty_context_holds sample_hasher ∅) as (He & Hc & Hl & Hd & Hm).
  destruct (@Update_holds sample_hasher ∅ _ _ _ sample_address sample_address Hd) as (t & _ & E & Hd').
  - apply prefixes_ok.
  - apply sample_address_ok.
  - discriminate.
  - unfold BecomeCandidate. rewrite E. eexists. split; [reflexivity|]. done.
Qed.

Definition sample_candidates : gmap bytes bytes := {[ candidatePrefix ++ sample_address := sample_address ]}.

Lemma sample_maps_cases m : m ∈ all_maps sample_maps -> m = ∅ \/ m = sample_candidates.
Proof.
  unfold all_maps. rewrite !elem_of_cons, elem_of_nil. cbn [sample_maps pm_epoch pm_contribution pm_latestTx pm_candidate pm_mintCnt].
  intros H. decompose [or] H; auto. contradiction.
Qed.

Lemma build_sample_candidates :
  build sample_candidates = PShort (keybytesToHex (candidatePrefix ++ sample_address)) (PVal sample_address).
Proof. by vm_compute. Qed.

Lemma sample_maps_inner u : in_maps sample_maps u -> inner u -> u = build sample_candidates.
Proof.
  intros (m & Hm & B) I. apply sample_maps_cases in Hm as [->| ->].
  - assert (E : build ∅ = PNil) by reflexivity. rewrite E in B. inversion B; by subst.
  - rewrite build_sample_candidates in *. inversion B as [|? ? ? B'|]; subst; [done|]. inversion B'; by subst.
Qed.

Lemma sample_candidates_ok : candidates sample_candidates {[sample_address]}.
Proof.
  pose proof (candidates_insert ∅ ∅ _ empty_candidates sample_address_ok) as H. by rewrite union_empty_l_L in H.
Qed.

Lemma sample_collision_free : @pc_collision_free sample_hasher ∅ sample_maps /\ pc_small sample_maps.
Proof.
  split; [split|].
  - intros _. split; [|done]. intros u v Hu Hv Iu Iv _. by rewrite (sample_maps_inner u Hu Iu), (sample_maps_inner v Hv Iv).
  - intros m Hm NE. apply sample_maps_cases in Hm as [->| ->]; [by destruct NE|].
    split; [vm_compute; discriminate|vm_compute; reflexivity].
  - intros m Hm. apply sample_maps_cases in Hm as [->| ->]; [done|].
    apply (candidates_small _ _ sample_candidates_ok).
Qed.

Lemma candidates_refine_set_witness :
  exists pc' m', BecomeCandidate ∅ sample_address empty_context = Ok pc' /\
    @pc_holds sample_hasher ∅ pc' (set_candidate_map m' empty_maps) /\ candidates m' (∅ ∪ {[sample_address]}).
Proof.
  destruct (@candidates_refine_set sample_hasher 3 ∅ empty_context empty_maps ∅ sample_address) as (H & _).
  - apply empty_context_holds.
  - apply empty_candidates.
  - apply sample_address_ok.
  - discriminate.
  - vm_compute. lia.
  - exact H.
Defined.

Lemma context_values_roundtrip_witness :
  let x := mkAccountLastedTx sample_address (repeat 9 32) 1600000000 in
  exists pc1 pc2 pc3 pc4 pc5 pc6,
    SetValidators ∅ [sample_address] empty_context = Ok pc1 /\
    SetContributions ∅ [mkAccountContribution sample_address 5] pc1 = Ok pc2 /\ SetLastedTx ∅ x pc2 = Ok pc3 /\
    GetValidators ∅ pc3 = Ok ([sample_address], pc4) /\
    GetContributions ∅ pc4 = Ok ([mkAccountContribution sample_address 5], pc5) /\
    GetLastedTx ∅ sample_address pc5 = Ok (x, pc6).
Proof.
  intros x.
  destruct (@context_values_roundtrip sample_hasher ∅ empty_context empty_maps [sample_address]
              [mkAccountContribution sample_address 5] x) as (p1 & p2 & p3 & p4 & p5 & p6 & E1 & E2 & E3 & E4 & E5 & E6 & _).
  - apply empty_context_holds.
  - split; [|vm_compute; reflexivity]. constructor; [apply sample_address_ok|constructor].
  - constructor; [|constructor]. split; [apply sample_address_ok|]. cbn. lia.
  - vm_compute. reflexivity.
  - split; [apply sample_address_ok|]. split; [|cbn; lia]. split; [reflexivity|].
    repeat constructor; unfold byte_ok; lia.
  - exists p1, p2, p3, p4, p5, p6. do 5 (split; [assumption|]). exact E6.
Defined.

Lemma context_commit_reopens_witness :
  exists pc proto pc0 pc1 pc2 db',
    BecomeCandidate ∅ sample_address empty_context = Ok pc /\
    @ToProto sample_hasher pc = Ok (proto, pc0) /\ @Poc_CommitTo sample_hasher ∅ pc = Ok (proto, pc1, db') /\
    NewPocContextFromProto db' proto = Ok pc2.
Proof.
  destruct sample_context as (pc & E & H). destruct sample_collision_free as [CF Sm].
  destruct (@context_commit_reopens sample_hasher ∅ pc sample_maps H Sm CF) as (p & a & b & c & d & E1 & E2 & _ & _ & E3 & _).
  exists pc, p, a, b, c, d. do 3 (split; [assumption|]). exact E3.
Defined.
