(* ===== verification/SecureTrie.v ===== *)
(** * Package [trie]: the secure trie, and the trie interface of the state

    [secure_trie.go]: a trie whose keys are hashed, with the preimages of the keys kept
    until they are committed.  The interface [StateTrie] is the one [core/state] uses
    ([database.go]), with what its implementation promises; the secure trie is the
    instance. *)

From S2P Require Import Prelude Rlp RlpStream TrieEncoding Common Codec Trie TrieModel TrieRefine TrieHash TrieMap.

(** ** The secure trie *)

(** [secKeyCache] is the cache the trie owns: a copy starts with an empty one. *)
Record SecureTrie := mkSecureTrie { sec_trie : trie; secKeyCache : gmap bytes bytes }.

Definition secureKeyPrefix : bytes := Eval vm_compute in text "secure-key-".

Definition NewSecure (root : bytes) (db : database) (cachelimit : Z) : outcome trie_error SecureTrie :=
  t ← New root db;
  Ok (mkSecureTrie (SetCacheLimit cachelimit t) ∅).

Section Secure.
Context {HS : Hasher}.

Definition hashKey (key : bytes) : bytes := keccak256 key.

Definition secKey (key : bytes) : bytes := secureKeyPrefix ++ key.

Definition sec_TryGet (db : database) (s : SecureTrie) (key : bytes) : outcome trie_error (option bytes * SecureTrie) :=
  '(v, t) ← TryGet db (sec_trie s) (hashKey key);
  Ok (v, mkSecureTrie t (secKeyCache s)).

Definition sec_TryUpdate (db : database) (s : SecureTrie) (key value : bytes) : outcome trie_error SecureTrie :=
  let hk := hashKey key in
  t ← TryUpdate db (sec_trie s) hk value;
  Ok (mkSecureTrie t (<[hk := key]> (secKeyCache s))).

(** The preimage is forgotten even when the deletion fails. *)
Definition sec_TryDelete (db : database) (s : SecureTrie) (key : bytes) : outcome trie_error SecureTrie * SecureTrie :=
  let hk := hashKey key in
  let s := mkSecureTrie (sec_trie s) (base.delete hk (secKeyCache s)) in
  (t ← TryDelete db (sec_trie s) hk; Ok (mkSecureTrie t (secKeyCache s)), s).

(** [Get], [Update] and [Delete] log the error. *)
Definition sec_Get (db : database) (s : SecureTrie) (key : bytes) : outcome trie_error (option bytes * SecureTrie) :=
  match sec_TryGet db s key with Err _ => Ok (None, s) | r => r end.

Definition sec_Update (db : database) (s : SecureTrie) (key value : bytes) : outcome trie_error SecureTrie :=
  match sec_TryUpdate db s key value with Err _ => Ok s | r => r end.

Definition sec_Delete (db : database) (s : SecureTrie) (key : bytes) : outcome trie_error SecureTrie :=
  match sec_TryDelete db s key with (Err _, s) => Ok s | (r, _) => r end.

(** nil when the preimage is neither cached nor stored. *)
Definition GetKey (db : database) (s : SecureTrie) (shaKey : bytes) : option bytes :=
  match secKeyCache s !! shaKey with
  | Some key => Some key
  | None => db !! secKey shaKey
  end.

Definition sec_Hash (s : SecureTrie) : outcome unit (bytes * SecureTrie) :=
  '(h, t) ← Hash (sec_trie s);
  Ok (h, mkSecureTrie t (secKeyCache s)).

Definition sec_Copy (s : SecureTrie) : SecureTrie := mkSecureTrie (sec_trie s) ∅.

(** The preimages, then the nodes. *)
Definition put_preimages (cache : gmap bytes bytes) (db : database) : database :=
  map_fold (fun hk key db => <[secKey hk := key]> db) db cache.

Definition sec_CommitTo (s : SecureTrie) (db : database) : outcome unit (bytes * SecureTrie * database) :=
  let db := put_preimages (secKeyCache s) db in
  '(root, t, db) ← CommitTo (sec_trie s) db;
  Ok (root, mkSecureTrie t ∅, db).

(** ** Lemmas *)

Definition sec_holds (db : database) (s : SecureTrie) (m : gmap bytes bytes) : Prop :=
  trie_holds db (sec_trie s) m /\ t_prefix (sec_trie s) = [].

Lemma hashKey_ok key : bytes_ok (hashKey key).
Proof. apply keccak256_hash. Qed.

Lemma sec_TryGet_holds db s m key :
  sec_holds db s m -> exists s', sec_TryGet db s key = Ok (m !! hashKey key, s') /\ sec_holds db s' m.
Proof.
  intros [TH P]. destruct (TryGet_holds db (sec_trie s) m (hashKey key) TH) as (t & E & TH' & P').
  { rewrite P. apply hashKey_ok. }
  unfold sec_TryGet. rewrite E, P. eexists. split; [reflexivity|]. split; [done|]. by rewrite <- P.
Qed.

Lemma sec_TryUpdate_holds db s m key value :
  sec_holds db s m -> value <> [] ->
  exists s', sec_TryUpdate db s key value = Ok s' /\ sec_holds db s' (<[hashKey key := value]> m).
Proof.
  intros [TH P] NE. destruct (TryUpdate_holds db (sec_trie s) m (hashKey key) value TH) as (t & E & P' & TH').
  { rewrite P. apply hashKey_ok. }
  unfold sec_TryUpdate. rewrite E. eexists. split; [reflexivity|].
  split; [rewrite P in TH'; by destruct value|]. by rewrite <- P.
Qed.

Lemma sec_TryDelete_holds db s m key :
  sec_holds db s m ->
  exists s' s0, sec_TryDelete db s key = (Ok s', s0) /\ sec_holds db s' (base.delete (hashKey key) m).
Proof.
  intros [TH P]. destruct (TryDelete_holds db (sec_trie s) m (hashKey key) TH) as (t & E & TH' & P').
  { rewrite P. apply hashKey_ok. }
  unfold sec_TryDelete. cbn [sec_trie]. rewrite E. eexists _, _. split; [reflexivity|].
  split; [by rewrite P in TH'|]. by rewrite <- P.
Qed.

Lemma sec_Hash_holds db s m :
  sec_holds db s m -> small m -> exists s', sec_Hash s = Ok (map_root m, s') /\ sec_holds db s' m.
Proof.
  intros [TH P] Sm. destruct (Hash_holds db (sec_trie s) m TH Sm) as (t & E & TH' & P').
  unfold sec_Hash. rewrite E. eexists. split; [reflexivity|]. split; [done|]. by rewrite <- P.
Qed.

Lemma sec_Copy_holds db s m : sec_holds db s m -> sec_holds db (sec_Copy s) m.
Proof. done. Qed.

(** Preimages are stored under keys that are no hashes. *)
Lemma len_secKey hk : len hk = 32 -> len (secKey hk) <> 32.
Proof. intros L. unfold secKey. rewrite len_app, L. by vm_compute. Qed.

Lemma lookup_put_preimages cache db h :
  (forall hk key, cache !! hk = Some key -> len hk = 32) -> len h = 32 -> put_preimages cache db !! h = db !! h.
Proof.
  unfold put_preimages. intros Hc L.
  revert Hc. apply (map_fold_weak_ind (fun d cache => (forall hk key, cache !! hk = Some key -> len hk = 32) -> d !! h = db !! h)).
  - done.
  - intros hk key c d N IH H. rewrite lookup_insert_ne.
    + apply IH. intros hk' key' E. apply (H hk' key'). rewrite lookup_insert_ne; [done|]. intros ->. congruence.
    + intros E. apply (len_secKey hk); [by apply (H hk key), lookup_insert_eq|by rewrite E].
Qed.

End Secure.

(** ** The interface of the state's tries *)

(** The operations [core/state] uses of a trie, and what it relies on: the trie, over a
    database, holds a map keyed by [tr_key] of the keys. *)
Class StateTrie `{Hasher} := {
  stt : Type;
  tr_open : database -> bytes -> Z -> outcome trie_error stt;
  tr_TryGet : database -> stt -> bytes -> outcome trie_error (option bytes * stt);
  tr_TryUpdate : database -> stt -> bytes -> bytes -> outcome trie_error stt;
  tr_TryDelete : database -> stt -> bytes -> outcome trie_error stt * stt;
  tr_Hash : stt -> outcome unit (bytes * stt);
  tr_CommitTo : stt -> database -> outcome unit (bytes * stt * database);
  tr_copy : stt -> stt;
  tr_key : bytes -> bytes;
  tr_holds : database -> stt -> gmap bytes bytes -> Prop;
  tr_key_hash k : is_hash (tr_key k);
  tr_open_empty db root limit :
    EmptyHash root = true \/ root = emptyRoot -> exists t, tr_open db root limit = Ok t /\ tr_holds db t ∅;
  tr_get_law db t m k :
    tr_holds db t m -> exists t', tr_TryGet db t k = Ok (m !! tr_key k, t') /\ tr_holds db t' m;
  tr_update_law db t m k v :
    tr_holds db t m -> v <> [] ->
    exists t', tr_TryUpdate db t k v = Ok t' /\ tr_holds db t' (<[tr_key k := v]> m);
  tr_delete_law db t m k :
    tr_holds db t m ->
    exists t' t0, tr_TryDelete db t k = (Ok t', t0) /\ tr_holds db t' (base.delete (tr_key k) m);
  tr_hash_law db t m :
    tr_holds db t m -> small m -> exists t', tr_Hash t = Ok (map_root m, t') /\ tr_holds db t' m;
  tr_copy_law db t m : tr_holds db t m -> tr_holds db (tr_copy t) m
}.

Lemma NewSecure_empty `{Hasher} db root limit :
  EmptyHash root = true \/ root = emptyRoot -> exists s, NewSecure root db limit = Ok s /\ sec_holds db s ∅.
Proof.
  intros E. unfold NewSecure, New.
  assert (negb (EmptyHash root) && negb (bool_decide (root = emptyRoot)) = false) as ->.
  { destruct E as [-> | ->]; [done|]. by rewrite bool_decide_true, andb_false_r by done. }
  cbn [mbind outcome_bind]. eexists. split; [reflexivity|]. split; [apply trie_holds_empty|done].
Qed.

#[export] Instance SecureTrie_StateTrie `{HS : Hasher} : StateTrie := {|
  stt := SecureTrie;
  tr_open db root limit := NewSecure root db limit;
  tr_TryGet := sec_TryGet;
  tr_TryUpdate := sec_TryUpdate;
  tr_TryDelete := sec_TryDelete;
  tr_Hash := sec_Hash;
  tr_CommitTo := sec_CommitTo;
  tr_copy := sec_Copy;
  tr_key := hashKey;
  tr_holds := sec_holds;
  tr_key_hash := keccak256_hash;
  tr_open_empty := NewSecure_empty;
  tr_get_law := sec_TryGet_holds;
  tr_update_law := sec_TryUpdate_holds;
  tr_delete_law := sec_TryDelete_holds;
  tr_hash_law := sec_Hash_holds;
  tr_copy_law := sec_Copy_holds
|}.
