(* ===== verification/StateDB.v ===== *)
(** * Package [core/state]: accounts, journal and snapshots

    [state_object.go], [statedb.go], [journal.go] and [database.go]: the cache of account
    objects over the state trie, the journal of changes with snapshots and reverts, and
    the writing of the objects into the trie.  An object is identified with its entry in
    [stateObjects]; it is never reachable otherwise, except through the journal while
    another object has its address. *)

From S2P Require Import Prelude Rlp RlpStream TrieEncoding Common Codec Trie TrieModel TrieRefine TrieHash TrieMap SecureTrie.

(** ** Data *)

Record Account := mkAccount {
  Nonce : Z;
  Balance : Z;
  Contribution : Z;
  Records : list bytes;
  Root : bytes;
  CodeHash : bytes
}.

Definition Account_type : rtype :=
  TStruct [TUint 64; TBig; TBig; TSlice (TByteArray 32); TByteArray 32; TBytes].

Definition account_val (a : Account) : rval :=
  VStruct [VUint (Nonce a); VBig (Some (Balance a)); VBig (Some (Contribution a));
           VList (map VBytes (Records a)); VBytes (Root a); VBytes (CodeHash a)].

Definition val_account (v : rval) : option Account :=
  match v with
  | VStruct [VUint n; VBig (Some b); VBig (Some c); VList rs; VBytes r; VBytes h] =>
    Some (mkAccount n b c (map (fun v => match v with VBytes b => b | _ => [] end) rs) r h)
  | _ => None
  end.

Inductive state_error :=
| StateTrieErr (e : trie_error)          (* from the state trie or a storage trie *)
| StorageOpenErr (e : trie_error)        (* can't create storage trie *)
| StorageSplitErr (e : rlp_error)
| CodeLoadErr (h : bytes).               (* can't load code hash *)

Record Log := mkLog {
  log_Address : bytes;
  log_Topics : list bytes;
  log_Data : bytes;
  log_BlockNumber : Z;
  log_TxHash : bytes;
  log_TxIndex : Z;
  log_BlockHash : bytes;
  log_Index : Z;
  log_Removed : bool
}.

(** [k] is nil for the empty slice of the Go code where the code tells them apart. *)
Definition opt_code (k : option bytes) : bytes := default [] k.

Record revision := mkRevision { rev_id : Z; rev_journalIndex : nat }.

Section State.
Context {HS : Hasher} {ST : StateTrie}.

(** [so_onDirty] says that the callback that marks the object dirty is still set. *)
Record stateObject := mkObject {
  so_address : bytes;
  so_addrHash : bytes;
  so_data : Account;
  so_dbErr : option state_error;
  so_trie : option stt;
  so_code : option bytes;
  so_cachedStorage : gmap bytes bytes;
  so_dirtyStorage : gmap bytes bytes;
  so_dirtyCode : bool;
  so_suicided : bool;
  so_touched : bool;
  so_deleted : bool;
  so_onDirty : bool
}.

Inductive journalEntry :=
| createObjectChange (account : bytes)
| resetObjectChange (prev : stateObject)
| suicideChange (account : bytes) (prev : bool) (prevbalance : Z)
| balanceChange (account : bytes) (prev : Z)
| contributionChange (account : bytes) (prev : Z)
| nonceChange (account : bytes) (prev : Z)
| storageChange (account key prevalue : bytes)
| codeChange (account : bytes) (prevcode : option bytes) (prevhash : bytes)
| recordChange (account : bytes) (prev : list bytes)
| refundChange (prev : Z)
| addLogChange (txhash : bytes)
| addPreimageChange (hash : bytes)
| touchChange (account : bytes) (prev prevDirty : bool).

(** The database with its recent tries. *)
Record cachingDB := mkCachingDB { cd_db : database; pastTries : list stt }.

(** The journal has its newest entry first. *)
Record StateDB := mkStateDB {
  s_db : cachingDB;
  s_trie : stt;
  stateObjects : gmap bytes stateObject;
  stateObjectsDirty : gset bytes;
  s_dbErr : option state_error;
  refund : Z;
  thash : bytes;
  bhash : bytes;
  txIndex : Z;
  logs : gmap bytes (list Log);
  logSize : Z;
  preimages : gmap bytes bytes;
  journal : list journalEntry;
  validRevisions : list revision;
  nextRevisionId : Z
}.

(** ** Field updates *)

Definition set_objects (m : gmap bytes stateObject) (s : StateDB) : StateDB :=
  mkStateDB (s_db s) (s_trie s) m (stateObjectsDirty s) (s_dbErr s) (refund s) (thash s) (bhash s)
    (txIndex s) (logs s) (logSize s) (preimages s) (journal s) (validRevisions s) (nextRevisionId s).
Definition set_dirty (d : gset bytes) (s : StateDB) : StateDB :=
  mkStateDB (s_db s) (s_trie s) (stateObjects s) d (s_dbErr s) (refund s) (thash s) (bhash s)
    (txIndex s) (logs s) (logSize s) (preimages s) (journal s) (validRevisions s) (nextRevisionId s).
Definition set_strie (t : stt) (s : StateDB) : StateDB :=
  mkStateDB (s_db s) t (stateObjects s) (stateObjectsDirty s) (s_dbErr s) (refund s) (thash s) (bhash s)
    (txIndex s) (logs s) (logSize s) (preimages s) (journal s) (validRevisions s) (nextRevisionId s).
Definition set_dbErr (e : option state_error) (s : StateDB) : StateDB :=
  mkStateDB (s_db s) (s_trie s) (stateObjects s) (stateObjectsDirty s) e (refund s) (thash s) (bhash s)
    (txIndex s) (logs s) (logSize s) (preimages s) (journal s) (validRevisions s) (nextRevisionId s).
Definition set_refund (r : Z) (s : StateDB) : StateDB :=
  mkStateDB (s_db s) (s_trie s) (stateObjects s) (stateObjectsDirty s) (s_dbErr s) r (thash s) (bhash s)
    (txIndex s) (logs s) (logSize s) (preimages s) (journal s) (validRevisions s) (nextRevisionId s).
Definition set_logs (l : gmap bytes (list Log)) (n : Z) (s : StateDB) : StateDB :=
  mkStateDB (s_db s) (s_trie s) (stateObjects s) (stateObjectsDirty s) (s_dbErr s) (refund s) (thash s) (bhash s)
    (txIndex s) l n (preimages s) (journal s) (validRevisions s) (nextRevisionId s).
Definition set_preimages (p : gmap bytes bytes) (s : StateDB) : StateDB :=
  mkStateDB (s_db s) (s_trie s) (stateObjects s) (stateObjectsDirty s) (s_dbErr s) (refund s) (thash s) (bhash s)
    (txIndex s) (logs s) (logSize s) p (journal s) (validRevisions s) (nextRevisionId s).
Definition set_journal (j : list journalEntry) (s : StateDB) : StateDB :=
  mkStateDB (s_db s) (s_trie s) (stateObjects s) (stateObjectsDirty s) (s_dbErr s) (refund s) (thash s) (bhash s)
    (txIndex s) (logs s) (logSize s) (preimages s) j (validRevisions s) (nextRevisionId s).
Definition set_revisions (r : list revision) (n : Z) (s : StateDB) : StateDB :=
  mkStateDB (s_db s) (s_trie s) (stateObjects s) (stateObjectsDirty s) (s_dbErr s) (refund s) (thash s) (bhash s)
    (txIndex s) (logs s) (logSize s) (preimages s) (journal s) r n.
Definition set_cdb (d : cachingDB) (s : StateDB) : StateDB :=
  mkStateDB d (s_trie s) (stateObjects s) (stateObjectsDirty s) (s_dbErr s) (refund s) (thash s) (bhash s)
    (txIndex s) (logs s) (logSize s) (preimages s) (journal s) (validRevisions s) (nextRevisionId s).

Definition append_journal (e : journalEntry) (s : StateDB) : StateDB := set_journal (e :: journal s) s.

Definition obj_data (a : Account) (o : stateObject) : stateObject :=
  mkObject (so_address o) (so_addrHash o) a (so_dbErr o) (so_trie o) (so_code o) (so_cachedStorage o)
    (so_dirtyStorage o) (so_dirtyCode o) (so_suicided o) (so_touched o) (so_deleted o) (so_onDirty o).
Definition obj_dbErr (e : option state_error) (o : stateObject) : stateObject :=
  mkObject (so_address o) (so_addrHash o) (so_data o) e (so_trie o) (so_code o) (so_cachedStorage o)
    (so_dirtyStorage o) (so_dirtyCode o) (so_suicided o) (so_touched o) (so_deleted o) (so_onDirty o).
Definition obj_trie (t : option stt) (o : stateObject) : stateObject :=
  mkObject (so_address o) (so_addrHash o) (so_data o) (so_dbErr o) t (so_code o) (so_cachedStorage o)
    (so_dirtyStorage o) (so_dirtyCode o) (so_suicided o) (so_touched o) (so_deleted o) (so_onDirty o).
Definition obj_code (c : option bytes) (d : bool) (o : stateObject) : stateObject :=
  mkObject (so_address o) (so_addrHash o) (so_data o) (so_dbErr o) (so_trie o) c (so_cachedStorage o)
    (so_dirtyStorage o) d (so_suicided o) (so_touched o) (so_deleted o) (so_onDirty o).
Definition obj_storage (c d : gmap bytes bytes) (o : stateObject) : stateObject :=
  mkObject (so_address o) (so_addrHash o) (so_data o) (so_dbErr o) (so_trie o) (so_code o) c d
    (so_dirtyCode o) (so_suicided o) (so_touched o) (so_deleted o) (so_onDirty o).
Definition obj_flags (suicided touched deleted onDirty : bool) (o : stateObject) : stateObject :=
  mkObject (so_address o) (so_addrHash o) (so_data o) (so_dbErr o) (so_trie o) (so_code o) (so_cachedStorage o)
    (so_dirtyStorage o) (so_dirtyCode o) suicided touched deleted onDirty.

Definition acc_nonce (n : Z) (a : Account) : Account :=
  mkAccount n (Balance a) (Contribution a) (Records a) (Root a) (CodeHash a).
Definition acc_balance (b : Z) (a : Account) : Account :=
  mkAccount (Nonce a) b (Contribution a) (Records a) (Root a) (CodeHash a).
Definition acc_contribution (c : Z) (a : Account) : Account :=
  mkAccount (Nonce a) (Balance a) c (Records a) (Root a) (CodeHash a).
Definition acc_records (r : list bytes) (a : Account) : Account :=
  mkAccount (Nonce a) (Balance a) (Contribution a) r (Root a) (CodeHash a).
Definition acc_root (r : bytes) (a : Account) : Account :=
  mkAccount (Nonce a) (Balance a) (Contribution a) (Records a) r (CodeHash a).
Definition acc_codeHash (h : bytes) (a : Account) : Account :=
  mkAccount (Nonce a) (Balance a) (Contribution a) (Records a) (Root a) h.

(** ** Objects *)

Definition emptyCodeHash : bytes := keccak256 [].

Definition emptyAccount : Account := mkAccount 0 0 0 [] (zeros HashLength) emptyCodeHash.

(** [s.empty()] *)
Definition so_empty (o : stateObject) : bool :=
  (Nonce (so_data o) =? 0) && (Balance (so_data o) =? 0) && (Contribution (so_data o) =? 0) &&
  bool_decide (CodeHash (so_data o) = emptyCodeHash).

Definition newObject (address : bytes) (data : Account) (onDirty : bool) : stateObject :=
  mkObject address (keccak256 address) data None None None ∅ ∅ false false false false onDirty.

Definition obj_setError (e : option state_error) (o : stateObject) : stateObject :=
  match so_dbErr o with None => obj_dbErr e o | Some _ => o end.

Definition setError (e : option state_error) (s : StateDB) : StateDB :=
  match s_dbErr s with None => set_dbErr e s | Some _ => s end.

Definition setStateObject (o : stateObject) (s : StateDB) : StateDB :=
  set_objects (<[so_address o := o]> (stateObjects s)) s.

Definition MarkStateObjectDirty (addr : bytes) (s : StateDB) : StateDB :=
  set_dirty ({[addr]} ∪ stateObjectsDirty s) s.

(** The call of the callback and its reset that end every setter of an object, with the
    object written back. *)
Definition put_dirty (o : stateObject) (s : StateDB) : StateDB :=
  if so_onDirty o then
    setStateObject (obj_flags (so_suicided o) (so_touched o) (so_deleted o) false o)
      (MarkStateObjectDirty (so_address o) s)
  else setStateObject o s.

(** Retrieves an object; a deleted one is not found. *)
Definition getStateObject (addr : bytes) (s : StateDB) : outcome unit (option stateObject * StateDB) :=
  match stateObjects s !! addr with
  | Some obj => Ok (if so_deleted obj then None else Some obj, s)
  | None =>
    match tr_TryGet (cd_db (s_db s)) (s_trie s) addr with
    | Ok (Some (b :: enc), t) =>
      let s := set_strie t s in
      match DecodeBytes Account_type (b :: enc) with
      | Ok v =>
        match val_account v with
        | Some data => let obj := newObject addr data true in Ok (Some obj, setStateObject obj s)
        | None => Ok (None, s)
        end
      | Err _ => Ok (None, s)
      | Panic => Panic
      | OutOfFuel => OutOfFuel
      end
    | Ok (_, t) => Ok (None, set_strie t s)
    | Err e => Ok (None, setError (Some (StateTrieErr e)) s)
    | Panic => Panic
    | OutOfFuel => OutOfFuel
    end
  end.

(** Returns the new object and the one it replaces. *)
Definition createObject (addr : bytes) (s : StateDB) : outcome unit (stateObject * option stateObject * StateDB) :=
  '(prev, s) ← getStateObject addr s;
  let newobj := newObject addr (acc_nonce 0 emptyAccount) false in
  let s := MarkStateObjectDirty addr s in
  let s := append_journal (match prev with None => createObjectChange addr | Some p => resetObjectChange p end) s in
  Ok (newobj, prev, setStateObject newobj s).

Definition GetOrNewStateObject (addr : bytes) (s : StateDB) : outcome unit (stateObject * StateDB) :=
  '(obj, s) ← getStateObject addr s;
  match obj with
  | Some o => Ok (o, s)
  | None => '(o, _, s) ← createObject addr s; Ok (o, s)
  end.

(** ** Setters of an object *)

Definition so_touch (o : stateObject) (s : StateDB) : StateDB :=
  let s := append_journal (touchChange (so_address o) (so_touched o) (negb (so_onDirty o))) s in
  let s := if so_onDirty o then MarkStateObjectDirty (so_address o) s else s in
  setStateObject (obj_flags (so_suicided o) true (so_deleted o) false o) s.

Definition so_setBalance (amount : Z) (o : stateObject) (s : StateDB) : StateDB :=
  put_dirty (obj_data (acc_balance amount (so_data o)) o) s.
Definition so_SetBalance (amount : Z) (o : stateObject) (s : StateDB) : StateDB :=
  so_setBalance amount o (append_journal (balanceChange (so_address o) (Balance (so_data o))) s).
Definition so_AddBalance (amount : Z) (o : stateObject) (s : StateDB) : StateDB :=
  if amount =? 0 then (if so_empty o then so_touch o s else s)
  else so_SetBalance (Balance (so_data o) + amount) o s.
Definition so_SubBalance (amount : Z) (o : stateObject) (s : StateDB) : StateDB :=
  if amount =? 0 then s else so_SetBalance (Balance (so_data o) - amount) o s.

Definition so_setContribution (amount : Z) (o : stateObject) (s : StateDB) : StateDB :=
  put_dirty (obj_data (acc_contribution amount (so_data o)) o) s.
Definition so_SetContribution (amount : Z) (o : stateObject) (s : StateDB) : StateDB :=
  so_setContribution amount o (append_journal (contributionChange (so_address o) (Contribution (so_data o))) s).

(** Writes the sum without an entry in the journal. *)
Definition so_AddContribution (amount : Z) (o : stateObject) (s : StateDB) : StateDB :=
  if amount =? 0 then (if so_empty o then so_touch o s else s)
  else so_setContribution (Contribution (so_data o) + amount) o s.
Definition so_SubContribution (amount : Z) (o : stateObject) (s : StateDB) : StateDB :=
  if amount =? 0 then s else so_SetContribution (Contribution (so_data o) - amount) o s.

Definition so_setNonce (n : Z) (o : stateObject) (s : StateDB) : StateDB :=
  put_dirty (obj_data (acc_nonce n (so_data o)) o) s.
Definition so_SetNonce (n : Z) (o : stateObject) (s : StateDB) : StateDB :=
  so_setNonce n o (append_journal (nonceChange (so_address o) (Nonce (so_data o))) s).

Definition so_setRecords (r : list bytes) (o : stateObject) (s : StateDB) : StateDB :=
  put_dirty (obj_data (acc_records r (so_data o)) o) s.
Definition so_SetRecords (r : list bytes) (o : stateObject) (s : StateDB) : StateDB :=
  so_setRecords r o (append_journal (recordChange (so_address o) (Records (so_data o))) s).

(** The code, loaded on the first use. *)
Definition so_Code (db : database) (o : stateObject) : option bytes * stateObject :=
  match so_code o with
  | Some c => (Some c, o)
  | None =>
    if bool_decide (CodeHash (so_data o) = emptyCodeHash) then (None, o)
    else
      match db !! BytesToHash (CodeHash (so_data o)) with
      | Some c => (Some c, obj_code (Some c) (so_dirtyCode o) o)
      | None => (None, obj_setError (Some (CodeLoadErr (CodeHash (so_data o)))) o)
      end
  end.

Definition so_setCode (codeHash : bytes) (code : option bytes) (o : stateObject) (s : StateDB) : StateDB :=
  put_dirty (obj_code code true (obj_data (acc_codeHash codeHash (so_data o)) o)) s.
Definition so_SetCode (codeHash : bytes) (code : option bytes) (o : stateObject) (s : StateDB) : StateDB :=
  let '(prevcode, o) := so_Code (cd_db (s_db s)) o in
  so_setCode codeHash code o (append_journal (codeChange (so_address o) prevcode (CodeHash (so_data o))) s).

(** ** Storage *)

Definition so_getTrie (db : database) (o : stateObject) : outcome unit (stt * stateObject) :=
  match so_trie o with
  | Some t => Ok (t, o)
  | None =>
    match tr_open db (Root (so_data o)) 0 with
    | Ok t => Ok (t, obj_trie (Some t) o)
    | Err e =>
      match tr_open db (zeros HashLength) 0 with
      | Ok t => Ok (t, obj_setError (Some (StorageOpenErr e)) (obj_trie (Some t) o))
      | _ => Panic
      end
    | Panic => Panic
    | OutOfFuel => OutOfFuel
    end
  end.

Definition so_GetState (db : database) (key : bytes) (o : stateObject) : outcome unit (bytes * stateObject) :=
  match so_cachedStorage o !! key with
  | Some v => Ok (v, o)
  | None =>
    '(t, o) ← so_getTrie db o;
    match tr_TryGet db t key with
    | Ok (enc, t) =>
      let o := obj_trie (Some t) o in
      '(value, o) ← match enc with
        | Some (b :: enc) =>
          match Split (b :: enc) with
          | Ok (_, content, _) => Ok (Hash_SetBytes (zeros HashLength) content, o)
          | Err e => Ok (zeros HashLength, obj_setError (Some (StorageSplitErr e)) o)
          | Panic => Panic
          | OutOfFuel => OutOfFuel
          end
        | _ => Ok (zeros HashLength, o)
        end;
      Ok (value, if EmptyHash value then o else obj_storage (<[key := value]> (so_cachedStorage o)) (so_dirtyStorage o) o)
    | Err e => Ok (zeros HashLength, obj_setError (Some (StateTrieErr e)) o)
    | Panic => Panic
    | OutOfFuel => OutOfFuel
    end
  end.

Definition so_setState (key value : bytes) (o : stateObject) (s : StateDB) : StateDB :=
  put_dirty (obj_storage (<[key := value]> (so_cachedStorage o)) (<[key := value]> (so_dirtyStorage o)) o) s.

Definition so_SetState (key value : bytes) (o : stateObject) (s : StateDB) : outcome unit StateDB :=
  '(prev, o) ← so_GetState (cd_db (s_db s)) key o;
  Ok (so_setState key value o (append_journal (storageChange (so_address o) key prev) s)).

(** [bytes.TrimLeft(b, "\x00")] *)
Fixpoint trimLeft (b : bytes) : bytes :=
  match b with 0 :: b => trimLeft b | _ => b end.

(** One entry of [dirtyStorage] written into the storage trie. *)
Definition storage_write (db : database) (kv : bytes * bytes) (o : stateObject) (t : stt)
  : outcome unit (stateObject * stt) :=
  let '(key, value) := kv in
  let o := obj_storage (so_cachedStorage o) (base.delete key (so_dirtyStorage o)) o in
  if EmptyHash value then
    match tr_TryDelete db t key with
    | (Ok t, _) => Ok (o, t)
    | (Err e, t) => Ok (obj_setError (Some (StateTrieErr e)) o, t)
    | (Panic, _) => Panic
    | (OutOfFuel, _) => OutOfFuel
    end
  else
    let v := match EncodeToBytes TBytes (VBytes (trimLeft value)) with Ok v => v | _ => [] end in
    match tr_TryUpdate db t key v with
    | Ok t => Ok (o, t)
    | Err e => Ok (obj_setError (Some (StateTrieErr e)) o, t)
    | Panic => Panic
    | OutOfFuel => OutOfFuel
    end.

Fixpoint storage_writes (db : database) (l : list (bytes * bytes)) (o : stateObject) (t : stt)
  : outcome unit (stateObject * stt) :=
  match l with
  | [] => Ok (o, t)
  | kv :: l => '(o, t) ← storage_write db kv o t; storage_writes db l o t
  end.

Definition updateTrie (db : database) (o : stateObject) : outcome unit stateObject :=
  '(t, o) ← so_getTrie db o;
  '(o, t) ← storage_writes db (map_to_list (so_dirtyStorage o)) o t;
  Ok (obj_trie (Some t) o).

Definition updateRoot (db : database) (o : stateObject) : outcome unit stateObject :=
  o ← updateTrie db o;
  match so_trie o with
  | Some t => '(h, t) ← tr_Hash t; Ok (obj_data (acc_root h (so_data o)) (obj_trie (Some t) o))
  | None => Panic
  end.

(** The error, or the object with its root; the nodes go to [dbw]. *)
Definition CommitTrie (db : database) (o : stateObject) (dbw : database)
  : outcome unit (option state_error * stateObject * database) :=
  o ← updateTrie db o;
  match so_dbErr o with
  | Some e => Ok (Some e, o, dbw)
  | None =>
    match so_trie o with
    | Some t =>
      '(root, t, dbw) ← tr_CommitTo t dbw;
      Ok (None, obj_data (acc_root root (so_data o)) (obj_trie (Some t) o), dbw)
    | None => Panic
    end
  end.

(** ** The state database *)

Definition with_object (f : stateObject -> StateDB -> StateDB) (addr : bytes) (s : StateDB) : outcome unit StateDB :=
  '(o, s) ← GetOrNewStateObject addr s;
  Ok (f o s).

Definition AddBalance (addr : bytes) (amount : Z) := with_object (so_AddBalance amount) addr.
Definition SubBalance (addr : bytes) (amount : Z) := with_object (so_SubBalance amount) addr.
Definition SetBalance (addr : bytes) (amount : Z) := with_object (so_SetBalance amount) addr.
Definition AddContribution (addr : bytes) (amount : Z) := with_object (so_AddContribution amount) addr.
Definition SubContribution (addr : bytes) (amount : Z) := with_object (so_SubContribution amount) addr.

(** Not the setter that writes the journal. *)
Definition SetContribution (addr : bytes) (amount : Z) := with_object (so_setContribution amount) addr.
Definition SetNonce (addr : bytes) (n : Z) := with_object (so_SetNonce n) addr.
Definition SetRecords (addr : bytes) (r : list bytes) := with_object (so_SetRecords r) addr.
Definition SetCode (addr : bytes) (code : option bytes) :=
  with_object (so_SetCode (keccak256 (opt_code code)) code) addr.

(** A record that is there already is not added again. *)
Definition AddRecords (addr record : bytes) : StateDB -> outcome unit StateDB :=
  with_object (fun o s =>
    let records := Records (so_data o) in
    if bool_decide (record ∈ records) then s else so_setRecords (records ++ [record]) o s) addr.

(** The index of the first occurrence, or -1. *)
Fixpoint record_index (record : bytes) (records : list bytes) (k : Z) : Z :=
  match records with
  | [] => -1
  | r :: records => if bool_decide (r = record) then k else record_index record records (k + 1)
  end.

Definition RemoveRecords (addr record : bytes) : StateDB -> outcome unit StateDB :=
  with_object (fun o s =>
    let records := Records (so_data o) in
    let index := record_index record records 0 in
    if 0 <? index then
      so_setRecords (take (Z.to_nat index) records ++ drop (Z.to_nat (index + 1)) records) o s
    else s) addr.

Definition SetState (addr key value : bytes) (s : StateDB) : outcome unit StateDB :=
  '(o, s) ← GetOrNewStateObject addr s;
  so_SetState key value o s.

Definition Suicide (addr : bytes) (s : StateDB) : outcome unit (bool * StateDB) :=
  '(obj, s) ← getStateObject addr s;
  match obj with
  | None => Ok (false, s)
  | Some o =>
    let s := append_journal (suicideChange addr (so_suicided o) (Balance (so_data o))) s in
    let o := obj_flags true (so_touched o) (so_deleted o) (so_onDirty o) o in
    let s := if so_onDirty o then MarkStateObjectDirty (so_address o) s else s in
    let o := obj_flags true (so_touched o) (so_deleted o) false o in
    Ok (true, setStateObject (obj_data (acc_balance 0 (so_data o)) o) s)
  end.

Definition CreateAccount (addr : bytes) (s : StateDB) : outcome unit StateDB :=
  '(o, prev, s) ← createObject addr s;
  match prev with
  | Some p =>
    let s := so_setBalance (Balance (so_data p)) o s in
    match stateObjects s !! addr with
    | Some o => Ok (so_setContribution (Contribution (so_data p)) o s)
    | None => Panic
    end
  | None => Ok s
  end.

Definition AddRefund (gas : Z) (s : StateDB) : StateDB :=
  set_refund (refund s + gas) (append_journal (refundChange (refund s)) s).

Definition AddLog (l : Log) (s : StateDB) : StateDB :=
  let s := append_journal (addLogChange (thash s)) s in
  let l := mkLog (log_Address l) (log_Topics l) (log_Data l) (log_BlockNumber l) (thash s) (txIndex s)
             (bhash s) (logSize s) (log_Removed l) in
  set_logs (<[thash s := default [] (logs s !! thash s) ++ [l]]> (logs s)) (logSize s + 1) s.

Definition AddPreimage (hash preimage : bytes) (s : StateDB) : StateDB :=
  match preimages s !! hash with
  | Some _ => s
  | None => set_preimages (<[hash := preimage]> (preimages s)) (append_journal (addPreimageChange hash) s)
  end.

Definition Prepare (th bh : bytes) (ti : Z) (s : StateDB) : StateDB :=
  mkStateDB (s_db s) (s_trie s) (stateObjects s) (stateObjectsDirty s) (s_dbErr s) (refund s) th bh
    ti (logs s) (logSize s) (preimages s) (journal s) (validRevisions s) (nextRevisionId s).

(** ** Queries *)

Definition GetLogs (hash : bytes) (s : StateDB) : list Log := default [] (logs s !! hash).

Definition read_object {A} (f : stateObject -> A) (dflt : A) (addr : bytes) (s : StateDB) : outcome unit (A * StateDB) :=
  '(obj, s) ← getStateObject addr s;
  Ok (match obj with Some o => f o | None => dflt end, s).

Definition Exist := read_object (fun _ => true) false.
Definition Empty := read_object so_empty true.
Definition GetBalance := read_object (fun o => Balance (so_data o)) 0.
Definition GetContribution := read_object (fun o => Contribution (so_data o)) 0.
Definition GetNonce := read_object (fun o => Nonce (so_data o)) 0.
Definition GetRecords := read_object (fun o => Records (so_data o)) [].
Definition GetCodeHash := read_object (fun o => BytesToHash (CodeHash (so_data o))) (zeros HashLength).
Definition HasSuicided := read_object so_suicided false.

Definition GetCode (addr : bytes) (s : StateDB) : outcome unit (option bytes * StateDB) :=
  '(obj, s) ← getStateObject addr s;
  match obj with
  | Some o => let '(c, o) := so_Code (cd_db (s_db s)) o in Ok (c, setStateObject o s)
  | None => Ok (None, s)
  end.

Definition GetState (addr key : bytes) (s : StateDB) : outcome unit (bytes * StateDB) :=
  '(obj, s) ← getStateObject addr s;
  match obj with
  | Some o => '(v, o) ← so_GetState (cd_db (s_db s)) key o; Ok (v, setStateObject o s)
  | None => Ok (zeros HashLength, s)
  end.

(** ** Snapshots *)

Definition Snapshot (s : StateDB) : Z * StateDB :=
  (nextRevisionId s,
   set_revisions (validRevisions s ++ [mkRevision (nextRevisionId s) (length (journal s))]) (nextRevisionId s + 1) s).

Definition ripemd : bytes := repeat 0 19 ++ [3].

(** A method call on an object that is not found is a nil dereference. *)
Definition undo_object (addr : bytes) (f : stateObject -> StateDB -> StateDB) (s : StateDB) : outcome unit StateDB :=
  '(obj, s) ← getStateObject addr s;
  match obj with Some o => Ok (f o s) | None => Panic end.

Definition undo (e : journalEntry) (s : StateDB) : outcome unit StateDB :=
  match e with
  | createObjectChange a => Ok (set_dirty (stateObjectsDirty s ∖ {[a]}) (set_objects (base.delete a (stateObjects s)) s))
  | resetObjectChange prev => Ok (setStateObject prev s)
  | suicideChange a prev bal =>
    '(obj, s) ← getStateObject a s;
    match obj with
    | Some o => Ok (so_setBalance bal (obj_flags prev (so_touched o) (so_deleted o) (so_onDirty o) o) s)
    | None => Ok s
    end
  | touchChange a prev prevDirty =>
    if negb prev && negb (bool_decide (a = ripemd)) then
      undo_object a (fun o s =>
        let s := setStateObject (obj_flags (so_suicided o) prev (so_deleted o) (so_onDirty o) o) s in
        if prevDirty then s else set_dirty (stateObjectsDirty s ∖ {[a]}) s) s
    else Ok s
  | recordChange a prev => undo_object a (so_setRecords prev) s
  | balanceChange a prev => undo_object a (so_setBalance prev) s
  | contributionChange a prev => undo_object a (so_setContribution prev) s
  | nonceChange a prev => undo_object a (so_setNonce prev) s
  | codeChange a prevcode prevhash => undo_object a (so_setCode (BytesToHash prevhash) prevcode) s
  | storageChange a key prevalue => undo_object a (so_setState key prevalue) s
  | refundChange prev => Ok (set_refund prev s)
  | addLogChange txhash =>
    match default [] (logs s !! txhash) with
    | [] => Panic
    | [_] => Ok (set_logs (base.delete txhash (logs s)) (logSize s - 1) s)
    | ls => Ok (set_logs (<[txhash := take (length ls - 1) ls]> (logs s)) (logSize s - 1) s)
    end
  | addPreimageChange h => Ok (set_preimages (base.delete h (preimages s)) s)
  end.

Fixpoint undo_all (l : list journalEntry) (s : StateDB) : outcome unit StateDB :=
  match l with
  | [] => Ok s
  | e :: l => s ← undo e s; undo_all l s
  end.

(** [sort.Search] for the first revision that is not before [revid]. *)
Fixpoint revision_index (revid : Z) (l : list revision) : nat :=
  match l with
  | [] => O
  | r :: l => if revid <=? rev_id r then O else S (revision_index revid l)
  end.

Definition RevertToSnapshot (revid : Z) (s : StateDB) : outcome unit StateDB :=
  let idx := revision_index revid (validRevisions s) in
  match validRevisions s !! idx with
  | Some r =>
    if rev_id r =? revid then
      let n := (length (journal s) - rev_journalIndex r)%nat in
      s' ← undo_all (take n (journal s)) s;
      Ok (set_revisions (take idx (validRevisions s)) (nextRevisionId s')
            (set_journal (drop n (journal s)) s'))
    else Panic
  | None => Panic
  end.

(** ** Writing the objects *)

Definition clearJournalAndRefund (s : StateDB) : StateDB :=
  set_refund 0 (set_revisions [] (nextRevisionId s) (set_journal [] s)).

(** The encoding of an account fails on negative amounts, and the writer panics. *)
Definition updateStateObject (o : stateObject) (s : StateDB) : outcome unit StateDB :=
  match EncodeToBytes Account_type (account_val (so_data o)) with
  | Ok data =>
    match tr_TryUpdate (cd_db (s_db s)) (s_trie s) (so_address o) data with
    | Ok t => Ok (set_strie t s)
    | Err e => Ok (setError (Some (StateTrieErr e)) s)
    | Panic => Panic
    | OutOfFuel => OutOfFuel
    end
  | _ => Panic
  end.

Definition deleteStateObject (o : stateObject) (s : StateDB) : outcome unit StateDB :=
  let s := setStateObject (obj_flags (so_suicided o) (so_touched o) true (so_onDirty o) o) s in
  match tr_TryDelete (cd_db (s_db s)) (s_trie s) (so_address o) with
  | (Ok t, _) => Ok (set_strie t s)
  | (Err e, t) => Ok (setError (Some (StateTrieErr e)) (set_strie t s))
  | (Panic, _) => Panic
  | (OutOfFuel, _) => OutOfFuel
  end.

Definition finalise_object (deleteEmptyObjects : bool) (addr : bytes) (s : StateDB) : outcome unit StateDB :=
  match stateObjects s !! addr with
  | None => Panic
  | Some o =>
    if so_suicided o || (deleteEmptyObjects && so_empty o) then deleteStateObject o s
    else
      o ← updateRoot (cd_db (s_db s)) o;
      updateStateObject o (setStateObject o s)
  end.

Fixpoint finalise_all (deleteEmptyObjects : bool) (l : list bytes) (s : StateDB) : outcome unit StateDB :=
  match l with
  | [] => Ok s
  | a :: l => s ← finalise_object deleteEmptyObjects a s; finalise_all deleteEmptyObjects l s
  end.

(** The dirty objects stay marked. *)
Definition Finalise (deleteEmptyObjects : bool) (s : StateDB) : outcome unit StateDB :=
  s ← finalise_all deleteEmptyObjects (elements (stateObjectsDirty s)) s;
  Ok (clearJournalAndRefund s).

Definition IntermediateRoot (deleteEmptyObjects : bool) (s : StateDB) : outcome unit (bytes * StateDB) :=
  s ← Finalise deleteEmptyObjects s;
  '(h, t) ← tr_Hash (s_trie s);
  Ok (h, set_strie t s).

Fixpoint delete_suicides (l : list bytes) (s : StateDB) : outcome unit StateDB :=
  match l with
  | [] => Ok s
  | a :: l =>
    match stateObjects s !! a with
    | None => Panic
    | Some o =>
      let s := if so_suicided o then setStateObject (obj_flags true (so_touched o) true (so_onDirty o) o) s else s in
      delete_suicides l (set_dirty (stateObjectsDirty s ∖ {[a]}) s)
    end
  end.

Definition DeleteSuicides (s : StateDB) : outcome unit StateDB :=
  let s := clearJournalAndRefund s in
  delete_suicides (elements (stateObjectsDirty s)) s.

(** An object is written, or deleted when it is suicided, even if it is not dirty. *)
Definition commit_object (deleteEmptyObjects : bool) (addr : bytes) (s : StateDB) (dbw : database)
  : outcome unit (option state_error * StateDB * database) :=
  match stateObjects s !! addr with
  | None => Panic
  | Some o =>
    let isDirty := bool_decide (addr ∈ stateObjectsDirty s) in
    let unmark s := set_dirty (stateObjectsDirty s ∖ {[addr]}) s in
    if so_suicided o || (isDirty && deleteEmptyObjects && so_empty o) then
      s ← deleteStateObject o s; Ok (None, unmark s, dbw)
    else if isDirty then
      let '(o, dbw) :=
        match so_code o with
        | Some c =>
          if so_dirtyCode o then (obj_code (Some c) false o, <[CodeHash (so_data o) := c]> dbw) else (o, dbw)
        | None => (o, dbw)
        end in
      '(err, o, dbw) ← CommitTrie (cd_db (s_db s)) o dbw;
      let s := setStateObject o s in
      match err with
      | Some e => Ok (Some e, s, dbw)
      | None => s ← updateStateObject o s; Ok (None, unmark s, dbw)
      end
    else Ok (None, unmark s, dbw)
  end.

Fixpoint commit_all (deleteEmptyObjects : bool) (l : list bytes) (s : StateDB) (dbw : database)
  : outcome unit (option state_error * StateDB * database) :=
  match l with
  | [] => Ok (None, s, dbw)
  | a :: l =>
    '(err, s, dbw) ← commit_object deleteEmptyObjects a s dbw;
    match err with
    | Some e => Ok (Some e, s, dbw)
    | None => commit_all deleteEmptyObjects l s dbw
    end
  end.

Definition maxPastTries : nat := 12.

Definition pushTrie (t : stt) (d : cachingDB) : cachingDB :=
  mkCachingDB (cd_db d)
    (if (maxPastTries <=? length (pastTries d))%nat then drop 1 (pastTries d) ++ [t] else pastTries d ++ [t]).

(** The root, or the error of an object; the journal is cleared in both cases. *)
Definition CommitTo (deleteEmptyObjects : bool) (s : StateDB) (dbw : database)
  : outcome unit ((state_error + bytes) * StateDB * database) :=
  '(err, s, dbw) ← commit_all deleteEmptyObjects (elements (dom (stateObjects s))) s dbw;
  match err with
  | Some e => Ok (inl e, clearJournalAndRefund s, dbw)
  | None =>
    '(root, t, dbw) ← tr_CommitTo (s_trie s) dbw;
    Ok (inr root, clearJournalAndRefund (set_cdb (pushTrie t (s_db s)) (set_strie t s)), dbw)
  end.

Definition MaxTrieCacheGen : Z := 120.

(** A recent trie with the root is copied, newest first. *)
Fixpoint find_past (root : bytes) (l : list stt) : outcome unit (option stt) :=
  match l with
  | [] => Ok None
  | t :: l => '(h, t) ← tr_Hash t; if bool_decide (h = root) then Ok (Some (tr_copy t)) else find_past root l
  end.

Definition OpenTrie (root : bytes) (d : cachingDB) : outcome trie_error stt :=
  match find_past root (rev (pastTries d)) with
  | Ok (Some t) => Ok t
  | Ok None => tr_open (cd_db d) root MaxTrieCacheGen
  | OutOfFuel => OutOfFuel
  | _ => Panic
  end.

Definition New (root : bytes) (d : cachingDB) : outcome trie_error StateDB :=
  t ← OpenTrie root d;
  Ok (mkStateDB d t ∅ ∅ None 0 (zeros HashLength) (zeros HashLength) 0 ∅ 0 ∅ [] [] 0).

Definition Reset (root : bytes) (s : StateDB) : outcome trie_error StateDB :=
  t ← OpenTrie root (s_db s);
  Ok (clearJournalAndRefund
        (mkStateDB (s_db s) t ∅ ∅ (s_dbErr s) (refund s) (zeros HashLength) (zeros HashLength) 0 ∅ 0 ∅
           (journal s) (validRevisions s) (nextRevisionId s))).

End State.
