(* ===== verification/StateRevert.v ===== *)
(** * Package [core/state]: snapshots and reverts

    What the journal is for: every operation that writes a journal entry can be undone,
    and [RevertToSnapshot] gives a state in which every read returns what it returned
    when the snapshot was taken.  The proofs use the tries through [StateTrie] only. *)

From S2P Require Import Prelude Rlp RlpStream TrieEncoding Common Codec Trie TrieModel TrieRefine TrieHash TrieMap SecureTrie StateDB.

Section Revert.
Context {HS : Hasher} {ST : StateTrie}.

(** ** Specification *)

Definition account_ok (a : Account) : Prop :=
  0 <= Nonce a < 2 ^ 64 /\ 0 <= Balance a < 2 ^ 256 /\ 0 <= Contribution a < 2 ^ 256 /\
  Forall is_hash (Records a) /\ Z.of_nat (length (Records a)) < 2 ^ 32 /\ is_hash (Root a) /\ is_hash (CodeHash a).

Definition enc_account (a : Account) : bytes := enc_value Account_type (account_val a).

(** The state trie holds encoded accounts. *)
Definition accounts (m : gmap bytes bytes) : Prop :=
  forall k v, m !! k = Some v -> exists a, account_ok a /\ v = enc_account a.

Definition dec_account (v : bytes) : option Account :=
  match DecodeBytes Account_type v with Ok v => val_account v | _ => None end.

(** The account of an address in the trie. *)
Definition tacct (m : gmap bytes bytes) (addr : bytes) : option Account := m !! tr_key addr ≫= dec_account.

(** The object that reads of an address see. *)
Definition oview (m : gmap bytes bytes) (s : StateDB) (addr : bytes) : option stateObject :=
  match stateObjects s !! addr with
  | Some o => if so_deleted o then None else Some o
  | None => (fun a => newObject addr a true) <$> tacct m addr
  end.

(** The value of a storage slot. *)
Definition sval (db : database) (o : stateObject) (key : bytes) : option bytes :=
  match so_GetState db key o with Ok (v, _) => Some v | _ => None end.

(** What reads can tell of an object: all but the caches, the dirty marks and the errors. *)
Definition oeq (db : database) (o1 o2 : stateObject) : Prop :=
  so_address o1 = so_address o2 /\ so_data o1 = so_data o2 /\ so_suicided o1 = so_suicided o2 /\
  so_deleted o1 = so_deleted o2 /\ fst (so_Code db o1) = fst (so_Code db o2) /\
  forall key, sval db o1 key = sval db o2 key.

Definition oeq_opt (db : database) (o1 o2 : option stateObject) : Prop :=
  match o1, o2 with Some o1, Some o2 => oeq db o1 o2 | None, None => True | _, _ => False end.

(** Two states that no read tells apart. *)
Record seq (m : gmap bytes bytes) (s1 s2 : StateDB) : Prop := mkSeq {
  seq_db : s_db s1 = s_db s2;
  seq_objects : forall a, oeq_opt (cd_db (s_db s1)) (oview m s1 a) (oview m s2 a);
  seq_refund : refund s1 = refund s2;
  seq_logs : forall h, GetLogs h s1 = GetLogs h s2;
  seq_logSize : logSize s1 = logSize s2;
  seq_preimages : preimages s1 = preimages s2;
  seq_thash : thash s1 = thash s2;
  seq_bhash : bhash s1 = bhash s2;
  seq_txIndex : txIndex s1 = txIndex s2
}.

(** The storage trie of an object can be read. *)
Definition strep (db : database) (o : stateObject) (ms : gmap bytes bytes) : Prop :=
  match so_trie o with
  | Some t => tr_holds db t ms
  | None => exists t, tr_open db (Root (so_data o)) 0 = Ok t /\ tr_holds db t ms
  end.

Definition slot_value (v : bytes) : Prop := match Split v with Ok _ | Err _ => True | _ => False end.

Definition storage_ok (db : database) (o : stateObject) : Prop :=
  exists ms, strep db o ms /\ forall k v, ms !! k = Some v -> slot_value v.

Definition object_ok (db : database) (m : gmap bytes bytes) (a : bytes) (o : stateObject) : Prop :=
  so_address o = a /\ (so_deleted o = true -> tacct m a = None) /\ storage_ok db o /\ len (CodeHash (so_data o)) = 32.

(** The invariant of the state, over a trie that holds [m]. *)
Record wf (m : gmap bytes bytes) (s : StateDB) : Prop := mkWf {
  wf_trie : tr_holds (cd_db (s_db s)) (s_trie s) m;
  wf_objects : forall a o, stateObjects s !! a = Some o -> object_ok (cd_db (s_db s)) m a o
}.

(** The accounts of the trie are readable, with their storage. *)
Record trie_ok (db : database) (m : gmap bytes bytes) : Prop := mkTrieOk {
  tok_accounts : accounts m;
  tok_storage : forall a d, tacct m a = Some d -> storage_ok db (newObject a d true)
}.

(** ** Lemmas: accounts *)

Lemma rt_account a : account_ok a -> rt Account_type (account_val a).
Proof.
  intros (Hn & Hb & Hc & Hr & _ & HR & HC).
  assert (Rs : rt (TSlice (TByteArray 32)) (VList (map VBytes (Records a)))).
  { apply rt_slice; [done|]. apply Forall_map. eapply Forall_impl; [|exact Hr]. intros h. apply rt_hash. }
  pose proof (rt_hash _ HR) as RR.
  split; [done|]. split; [split; [done|auto]|]. split; [done|]. split; [cbn; lia|]. split; [done|]. split; [cbn; lia|].
  split; [done|]. split; [exact Rs|]. split; [done|]. split; [exact RR|]. split; [done|]. split; [apply HC|done].
Qed.

Lemma enc_account_eq a :
  enc_account a = enc_list (enc_string (be_min (Nonce a)) ++ enc_string (be_min (Balance a)) ++ enc_string (be_min (Contribution a)) ++
    enc_list (concat (map enc_string (Records a))) ++ enc_string (Root a) ++ enc_string (CodeHash a)).
Proof. unfold enc_account. cbn. by rewrite map_map, app_nil_r. Qed.

Lemma enc_account_len a : account_ok a -> len (enc_account a) <= 41 * Z.of_nat (length (Records a)) + 300.
Proof.
  intros (Hn & Hb & Hc & Hr & Lr & HR & HC).
  assert (B1 : len (enc_string (be_min (Nonce a))) <= 41) by (apply (len_enc_bytes _ 32); [apply len_be_min_big; lia|lia]).
  assert (B2 : len (enc_string (be_min (Balance a))) <= 41) by (apply (len_enc_bytes _ 32); [apply len_be_min_big; lia|lia]).
  assert (B3 : len (enc_string (be_min (Contribution a))) <= 41) by (apply (len_enc_bytes _ 32); [apply len_be_min_big; lia|lia]).
  assert (B5 : len (enc_string (Root a)) <= 41) by (apply (len_enc_bytes _ 32); [destruct HR as [L _]; unfold HashLength in L; lia|lia]).
  assert (B6 : len (enc_string (CodeHash a)) <= 41) by (apply (len_enc_bytes _ 32); [destruct HC as [L _]; unfold HashLength in L; lia|lia]).
  pose proof (len_concat_bound 41 (map enc_string (Records a))) as B4.
  rewrite Forall_map, length_map in B4. specialize (B4 ltac:(eapply Forall_impl; [|exact Hr]; intros h [L _]; unfold HashLength in L; apply (len_enc_bytes _ 32); lia)).
  set (recs := concat (map enc_string (Records a))) in *.
  rewrite enc_account_eq. fold recs. pose proof (len_enc_list_le recs ltac:(lia)).
  match goal with |- len (enc_list ?c) <= _ => pose proof (len_enc_list_le c) as B end. rewrite !len_app in B. lia.
Qed.

Lemma enc_account_bytes a : account_ok a -> bytes_ok (enc_account a).
Proof.
  intros H. pose proof (enc_account_len a H) as L. destruct H as (Hn & Hb & Hc & Hr & Lr & HR & HC).
  assert (Lb : forall z, 0 <= z < 2 ^ 256 -> bytes_ok (enc_string (be_min z))).
  { intros z Hz. apply enc_string_ok; [apply be_min_ok|]. pose proof (len_be_min_big z Hz). lia. }
  assert (Lh : forall h, is_hash h -> bytes_ok (enc_string h)).
  { intros h [Lh Oh]. unfold HashLength in Lh. apply enc_string_ok; [done|lia]. }
  rewrite enc_account_eq in *. match goal with |- bytes_ok (enc_list ?c) => set (c' := c) in * end.
  assert (Lc : len c' < 2 ^ 64) by (unfold enc_list in L; rewrite len_app in L; pose proof (len_nonneg (enc_head 0xC0 0xF7 (len c'))); lia).
  apply enc_list_ok; [|done]. unfold c' in *. rewrite !len_app in Lc.
  set (recs := concat (map enc_string (Records a))) in *.
  assert (Or : bytes_ok recs).
  { unfold recs. clear -Hr Lh. induction Hr as [|h hs Hh _ IH]; [constructor|]. cbn. apply bytes_ok_app. split; [by apply Lh|done]. }
  assert (Lr' : len recs < 2 ^ 64) by (unfold enc_list in Lc; rewrite !len_app in Lc; repeat match goal with _ : context [len ?x] |- _ => lazymatch goal with _ : 0 <= len x |- _ => fail | _ => pose proof (len_nonneg x) end end; lia).
  rewrite !bytes_ok_app. repeat split; try (apply Lb; lia); try (by apply Lh). by apply enc_list_ok.
Qed.

Lemma len_enc_account a : account_ok a -> len (enc_account a) < 2 ^ 64.
Proof. intros H. pose proof (enc_account_len a H). destruct H as (_ & _ & _ & _ & L & _). lia. Qed.

Lemma val_account_val a : val_account (account_val a) = Some a.
Proof. unfold val_account, account_val. rewrite map_map, map_id. by destruct a. Qed.

Lemma dec_enc_account a : account_ok a -> DecodeBytes Account_type (enc_account a) = Ok (account_val a).
Proof. intros H. apply DecodeBytes_enc_value; [by apply rt_account|done|by apply len_enc_account]. Qed.

Lemma enc_account_nonempty a : account_ok a -> enc_account a <> [].
Proof.
  intros H E. pose proof (is_item_nonempty _ (rt_item _ _ (rt_account a H) eq_refl)) as L.
  unfold enc_account in E. by rewrite E in L.
Qed.

(** ** Lemmas: reading objects *)

(** The state after the lookup of an address: only the caches change. *)
Definition loaded_state (m : gmap bytes bytes) (addr : bytes) (s s' : StateDB) : Prop :=
  wf m s' /\ s_db s' = s_db s /\ stateObjectsDirty s' = stateObjectsDirty s /\ refund s' = refund s /\ logs s' = logs s /\
  logSize s' = logSize s /\ preimages s' = preimages s /\ thash s' = thash s /\ bhash s' = bhash s /\
  txIndex s' = txIndex s /\ journal s' = journal s /\ validRevisions s' = validRevisions s /\
  nextRevisionId s' = nextRevisionId s /\
  (forall a, oview m s' a = oview m s a) /\
  (forall o, oview m s addr = Some o -> stateObjects s' !! addr = Some o).

Lemma getStateObject_spec m s addr :
  wf m s -> trie_ok (cd_db (s_db s)) m ->
  exists s', getStateObject addr s = Ok (oview m s addr, s') /\ loaded_state m addr s s'.
Proof.
  intros [Wt Wo] [TA TS]. unfold getStateObject, oview at 1.
  destruct (stateObjects s !! addr) as [o|] eqn:Eo.
  { exists s. split; [done|]. split; [done|]. do 13 (split; [done|]). intros o'. unfold oview. rewrite Eo.
    destruct (so_deleted o); [done|]. by intros [= <-]. }
  destruct (tr_get_law (cd_db (s_db s)) (s_trie s) m addr Wt) as (t & -> & Wt').
  unfold tacct. destruct (m !! tr_key addr) as [v|] eqn:Em; cbn [mbind option_bind].
  2: { exists (set_strie t s). split; [done|]. split; [by split|]. do 13 (split; [done|]).
       intros o'. unfold oview. rewrite Eo. unfold tacct. by rewrite Em. }
  destruct (TA _ _ Em) as (a & Ha & ->). unfold dec_account.
  pose proof (enc_account_nonempty a Ha) as NE. destruct (enc_account a) as [|b enc] eqn:Ee; [done|]. rewrite <- Ee.
  rewrite dec_enc_account, val_account_val by done.
  assert (Ta : tacct m addr = Some a).
  { unfold tacct. rewrite Em. cbn. unfold dec_account. by rewrite <- Ee, dec_enc_account, val_account_val by done. }
  cbn [fmap option_fmap option_map]. eexists. split; [reflexivity|]. split.
  { split; [done|]. intros a' o'. unfold setStateObject. cbn [stateObjects set_objects set_strie so_address newObject].
    rewrite lookup_insert. case_decide as D; [|apply Wo]. intros [= <-]. subst a'.
    split; [done|]. split; [done|]. split; [by apply TS|]. apply Ha. }
  do 12 (split; [done|]). split.
  - intros a'. unfold oview, setStateObject. cbn [stateObjects set_objects set_strie so_address newObject].
    rewrite lookup_insert. case_decide as D; [|done]. subst a'. rewrite Eo, Ta. done.
  - intros o'. unfold oview. rewrite Eo, Ta. cbn. intros [= <-]. unfold setStateObject. cbn. by rewrite lookup_insert_eq.
Qed.

(** ** Lemmas: equivalence of objects and states *)

#[local] Instance oeq_equiv db : Equivalence (oeq db).
Proof.
  split.
  - done.
  - intros o1 o2 (? & ? & ? & ? & ? & ?). done.
  - intros o1 o2 o3 (A1 & B1 & C1 & D1 & E1 & F1) (A2 & B2 & C2 & D2 & E2 & F2). repeat split; congruence.
Qed.

#[local] Instance oeq_opt_equiv db : Equivalence (oeq_opt db).
Proof.
  split.
  - by intros [o|].
  - intros [o1|] [o2|] H; try done. cbn in *. by symmetry.
  - intros [o1|] [o2|] [o3|] H1 H2; try done. cbn in *. by etrans.
Qed.

#[local] Instance seq_equiv m : Equivalence (seq m).
Proof.
  split.
  - intros s. by split.
  - intros s1 s2 [Ed Eo]. split; try done. intros a. rewrite <- Ed. symmetry. apply Eo.
  - intros s1 s2 s3 [Ed Eo] [Ed' Eo']. split; try congruence. intros a. etrans; [apply Eo|]. rewrite Ed. apply Eo'.
Qed.

(** A slot depends on its cached value, the storage trie and the root. *)
Lemma sval_cong db o1 o2 key :
  so_cachedStorage o1 !! key = so_cachedStorage o2 !! key -> so_trie o1 = so_trie o2 ->
  Root (so_data o1) = Root (so_data o2) -> sval db o1 key = sval db o2 key.
Proof.
  intros Ec Et Er. unfold sval, so_GetState, so_getTrie. rewrite Ec, Et, Er.
  destruct (so_cachedStorage o2 !! key); [done|]. destruct (so_trie o2) as [t|].
  - cbn [mbind outcome_bind]. destruct (tr_TryGet db t key) as [[[[|b e]|] t']| | |]; try done.
    destruct (Split (b :: e)) as [[[? ?] ?]| | |]; done.
  - destruct (tr_open db (Root (so_data o2)) 0) as [t| | |]; cbn [mbind outcome_bind]; try done.
    + destruct (tr_TryGet db t key) as [[[[|b e]|] t']| | |]; try done.
      destruct (Split (b :: e)) as [[[? ?] ?]| | |]; done.
    + destruct (tr_open db (zeros HashLength) 0) as [t| | |]; cbn [mbind outcome_bind]; try done.
      destruct (tr_TryGet db t key) as [[[[|b0 e0]|] t']| | |]; try done.
      destruct (Split (b0 :: e0)) as [[[? ?] ?]| | |]; done.
Qed.

Definition code_view (db : database) (code : option bytes) (h : bytes) : option bytes :=
  match code with
  | Some c => Some c
  | None => if bool_decide (h = emptyCodeHash) then None else db !! BytesToHash h
  end.

Lemma so_Code_view db o : fst (so_Code db o) = code_view db (so_code o) (CodeHash (so_data o)).
Proof.
  unfold so_Code, code_view. destruct (so_code o); [done|]. case_bool_decide; [done|]. by destruct (db !! _).
Qed.

(** The mark of a change does not matter to reads. *)
Definition undirty (o : stateObject) : stateObject :=
  if so_onDirty o then obj_flags (so_suicided o) (so_touched o) (so_deleted o) false o else o.

Lemma undirty_fields o :
  so_address (undirty o) = so_address o /\ so_data (undirty o) = so_data o /\ so_suicided (undirty o) = so_suicided o /\
  so_deleted (undirty o) = so_deleted o /\ so_code (undirty o) = so_code o /\ so_trie (undirty o) = so_trie o /\
  so_cachedStorage (undirty o) = so_cachedStorage o /\ so_dirtyStorage (undirty o) = so_dirtyStorage o /\
  so_touched (undirty o) = so_touched o.
Proof. unfold undirty. by destruct (so_onDirty o). Qed.

Lemma put_dirty_objects o s : stateObjects (put_dirty o s) = <[so_address o := undirty o]> (stateObjects s).
Proof. unfold put_dirty, undirty. by destruct (so_onDirty o). Qed.

(** Objects with the same observable fields. *)
Lemma oeq_fields db o1 o2 :
  so_address o1 = so_address o2 -> so_data o1 = so_data o2 -> so_suicided o1 = so_suicided o2 ->
  so_deleted o1 = so_deleted o2 -> so_code o1 = so_code o2 -> so_trie o1 = so_trie o2 ->
  so_cachedStorage o1 = so_cachedStorage o2 -> oeq db o1 o2.
Proof.
  intros Ea Ed Es Edl Ec Et Est. repeat split; try done.
  - rewrite !so_Code_view. congruence.
  - intros key. apply sval_cong; congruence.
Qed.

Lemma oeq_undirty db o : oeq db (undirty o) o.
Proof. destruct (undirty_fields o) as (? & ? & ? & ? & ? & ? & ? & _). by apply oeq_fields. Qed.

Lemma object_ok_fields db m a o1 o2 :
  so_address o1 = so_address o2 -> so_deleted o1 = so_deleted o2 -> so_trie o1 = so_trie o2 ->
  Root (so_data o1) = Root (so_data o2) -> len (CodeHash (so_data o1)) = 32 ->
  object_ok db m a o2 -> object_ok db m a o1.
Proof.
  intros Ea Ed Et Er Lc (A & D & (ms & R & V) & _). split; [congruence|]. split; [by rewrite Ed|]. split; [|done].
  exists ms. split; [|done]. unfold strep in *. rewrite Et. destruct (so_trie o2); [done|]. by rewrite Er.
Qed.

(** Replacing the object of an address. *)
Lemma view_insert m s o :
  so_deleted o = false ->
  forall a, oview m (put_dirty o s) a = if decide (a = so_address o) then Some (undirty o) else oview m s a.
Proof.
  intros D a. unfold oview. rewrite put_dirty_objects, lookup_insert.
  destruct (decide (a = so_address o)) as [->|N].
  - rewrite decide_True by done. destruct (undirty_fields o) as (_ & _ & _ & -> & _). by rewrite D.
  - by rewrite decide_False by done.
Qed.

Lemma wf_put_dirty m s o :
  wf m s -> object_ok (cd_db (s_db s)) m (so_address o) o -> wf m (put_dirty o s).
Proof.
  intros [Wt Wo] Ho. destruct (undirty_fields o) as (Ea & Ed & _ & Edl & _ & Et & _).
  assert (Hu : object_ok (cd_db (s_db s)) m (so_address o) (undirty o)).
  { eapply object_ok_fields; [..|exact Ho]; try done; [by rewrite Ed|]. rewrite Ed. apply Ho. }
  split.
  - unfold put_dirty. by destruct (so_onDirty o).
  - intros a o'. rewrite put_dirty_objects, lookup_insert.
    replace (s_db (put_dirty o s)) with (s_db s) by (unfold put_dirty; by destruct (so_onDirty o)).
    case_decide as D; [|apply Wo]. intros [= <-]. by subst a.
Qed.

Lemma wf_journal m s j : wf m s -> wf m (set_journal j s).
Proof. by intros [Wt Wo]. Qed.

(** The fields that an update of an object leaves alone. *)
Definition frame (s' s : StateDB) : Prop :=
  s_db s' = s_db s /\ refund s' = refund s /\ logs s' = logs s /\ logSize s' = logSize s /\
  preimages s' = preimages s /\ thash s' = thash s /\ bhash s' = bhash s /\ txIndex s' = txIndex s /\
  validRevisions s' = validRevisions s /\ nextRevisionId s' = nextRevisionId s.

#[export] Instance frame_preorder : PreOrder frame.
Proof.
  split; [done|]. intros s1 s2 s3 (?&?&?&?&?&?&?&?&?&?) (?&?&?&?&?&?&?&?&?&?). repeat split; congruence.
Qed.

Lemma frame_put_dirty o s : frame (put_dirty o s) s.
Proof. unfold put_dirty. by destruct (so_onDirty o). Qed.

Lemma frame_loaded m a s s' : loaded_state m a s s' -> frame s' s.
Proof. intros (_&?&_&?&?&?&?&?&?&?&_&?&?&_). done. Qed.

Lemma seq_frame m s1 s2 :
  frame s1 s2 -> (forall a, oeq_opt (cd_db (s_db s1)) (oview m s1 a) (oview m s2 a)) -> seq m s1 s2.
Proof. intros (?&?&El&?&?&?&?&?&_) V. split; try done. intros h. unfold GetLogs. by rewrite El. Qed.

Lemma seq_loaded m a s s' : loaded_state m a s s' -> seq m s' s.
Proof.
  intros L. apply seq_frame; [by eapply frame_loaded|]. destruct L as (_&_&_&_&_&_&_&_&_&_&_&_&_&V&_).
  intros a'. by rewrite V.
Qed.

(** ** Lemmas: setters *)

(** An update of an object that keeps its identity and respects the equivalence. *)
Definition setter (db : database) (g : stateObject -> stateObject) : Prop :=
  (forall o, so_address (g o) = so_address o /\ so_deleted (g o) = so_deleted o /\ so_trie (g o) = so_trie o /\
     Root (so_data (g o)) = Root (so_data o) /\ (len (CodeHash (so_data o)) = 32 -> len (CodeHash (so_data (g o))) = 32)) /\
  (forall o1 o2, oeq db o1 o2 -> oeq db (g o1) (g o2)).

Lemma sval_data db o1 o2 h1 h2 :
  Root h1 = Root (so_data o1) -> Root h2 = Root (so_data o2) ->
  (forall key, sval db o1 key = sval db o2 key) ->
  forall key, sval db (obj_data h1 o1) key = sval db (obj_data h2 o2) key.
Proof.
  intros E1 E2 V key. rewrite (sval_cong db (obj_data h1 o1) o1), (sval_cong db (obj_data h2 o2) o2); done.
Qed.

Lemma setter_data db (h : Account -> Account) :
  (forall a, Root (h a) = Root a /\ CodeHash (h a) = CodeHash a) -> setter db (fun o => obj_data (h (so_data o)) o).
Proof.
  intros Hh. split.
  - intros o. destruct (Hh (so_data o)) as [Er Ec]. repeat split; try done. cbn. by rewrite Ec.
  - intros o1 o2 (A & D & Su & De & C & V). destruct (Hh (so_data o1)) as [Er1 Ec1], (Hh (so_data o2)) as [Er2 Ec2].
    repeat split; try done; cbn; [by rewrite D| |by apply sval_data].
    rewrite !so_Code_view in *. cbn. by rewrite Ec1, Ec2.
Qed.

Lemma setter_suicide db prev bal :
  setter db (fun o => obj_data (acc_balance bal (so_data o)) (obj_flags prev (so_touched o) (so_deleted o) (so_onDirty o) o)).
Proof.
  split; [done|]. intros o1 o2 (A & D & Su & De & C & V). repeat split; try done; cbn; [by rewrite D| |].
  - rewrite !so_Code_view in *. done.
  - intros key. etrans; [by apply (sval_cong db _ o1)|]. rewrite V. by apply sval_cong.
Qed.

Lemma setter_code db h c : len h = 32 -> setter db (fun o => obj_code c true (obj_data (acc_codeHash h (so_data o)) o)).
Proof.
  intros L. split; [done|]. intros o1 o2 (A & D & Su & De & C & V). repeat split; try done; cbn; [by rewrite D| |].
  - by rewrite !so_Code_view.
  - intros key. etrans; [by apply (sval_cong db _ o1)|]. rewrite V. by apply sval_cong.
Qed.

Definition put_slot (key value : bytes) (o : stateObject) : stateObject :=
  obj_storage (<[key := value]> (so_cachedStorage o)) (<[key := value]> (so_dirtyStorage o)) o.

Lemma sval_put_slot db key value o k :
  sval db (put_slot key value o) k = if decide (k = key) then Some value else sval db o k.
Proof.
  case_decide as D.
  - subst k. unfold sval, so_GetState. cbn. by rewrite lookup_insert_eq.
  - apply sval_cong; try done. cbn. by rewrite lookup_insert_ne.
Qed.

Lemma setter_state db key value : setter db (put_slot key value).
Proof.
  split; [done|]. intros o1 o2 (A & D & Su & De & C & V). repeat split; try done; cbn.
  - rewrite !so_Code_view in *. done.
  - intros k. rewrite !sval_put_slot. by rewrite V.
Qed.

Lemma setter_object_ok db g m a o : setter db g -> object_ok db m a o -> object_ok db m a (g o).
Proof.
  intros [G _] Ho. destruct (G o) as (Ea & Ed & Et & Er & L). eapply object_ok_fields; [..|exact Ho]; try done.
  apply L, Ho.
Qed.

(** ** Lemmas: undoing respects the equivalence *)

Lemma oview_ok m s a o :
  wf m s -> trie_ok (cd_db (s_db s)) m -> oview m s a = Some o -> object_ok (cd_db (s_db s)) m a o /\ so_deleted o = false.
Proof.
  intros W T. unfold oview. destruct (stateObjects s !! a) as [o'|] eqn:E.
  - destruct (so_deleted o') eqn:D; [done|]. intros [= ->]. split; [by apply W|done].
  - destruct (tacct m a) as [d|] eqn:Et; [|done]. intros [= <-]. split; [|done]. split; [done|]. split; [done|].
    split; [by apply T|]. unfold tacct in Et. destruct (m !! tr_key a) as [v|] eqn:Em; [|done]. cbn in Et.
    destruct (tok_accounts _ _ T _ _ Em) as (ac & Ha & ->). unfold dec_account in Et.
    rewrite dec_enc_account, val_account_val in Et by done. injection Et as <-. apply Ha.
Qed.

Lemma seq_insert m s1 s2 o1 o2 :
  seq m s1 s2 -> so_address o1 = so_address o2 -> so_deleted o1 = false -> so_deleted o2 = false ->
  oeq (cd_db (s_db s1)) o1 o2 -> seq m (put_dirty o1 s1) (put_dirty o2 s2).
Proof.
  intros Sq Ea D1 D2 O.
  destruct (frame_put_dirty o1 s1) as (F1&F2&F3&F4&F5&F6&F7&F8&_), (frame_put_dirty o2 s2) as (G1&G2&G3&G4&G5&G6&G7&G8&_).
  destruct Sq. split; try congruence; [|intros h; unfold GetLogs in *; by rewrite F3, G3]. intros a. rewrite F1, !view_insert, <- Ea by done.
  destruct (decide (a = so_address o1)) as [->|N]; [|done]. cbn.
  etrans; [apply oeq_undirty|]. etrans; [exact O|]. symmetry. apply oeq_undirty.
Qed.

(** A change of an object on two equivalent states. *)
Lemma change_object_proper m g a s1 s2 :
  seq m s1 s2 -> wf m s1 -> wf m s2 -> trie_ok (cd_db (s_db s1)) m -> setter (cd_db (s_db s1)) g ->
  forall o1, oview m s1 a = Some o1 -> exists o2 s1' s2',
    oview m s2 a = Some o2 /\
    getStateObject a s1 = Ok (Some o1, s1') /\ getStateObject a s2 = Ok (Some o2, s2') /\
    seq m (put_dirty (g o1) s1') (put_dirty (g o2) s2') /\
    wf m (put_dirty (g o1) s1') /\ wf m (put_dirty (g o2) s2').
Proof.
  intros Sq W1 W2 T G o1 V1. pose proof (seq_objects _ _ _ Sq a) as O. rewrite V1 in O.
  destruct (oview m s2 a) as [o2|] eqn:V2; [|done]. cbn in O.
  pose proof (seq_db _ _ _ Sq) as Ed. assert (T2 : trie_ok (cd_db (s_db s2)) m) by (by rewrite <- Ed).
  destruct (getStateObject_spec m s1 a W1 T) as (s1' & E1 & L1). destruct (getStateObject_spec m s2 a W2 T2) as (s2' & E2 & L2).
  destruct (oview_ok _ _ _ _ W1 T V1) as [O1 D1], (oview_ok _ _ _ _ W2 T2 V2) as [O2 D2].
  exists o2, s1', s2'. rewrite E1, E2, V1, V2. do 3 (split; [done|]).
  pose proof (frame_loaded _ _ _ _ L1) as F1. pose proof (frame_loaded _ _ _ _ L2) as F2. destruct F1 as (Ed1 & _), F2 as (Ed2 & _).
  destruct (proj1 G o1) as (Ga1 & Gd1 & _), (proj1 G o2) as (Ga2 & Gd2 & _).
  assert (Aa1 : so_address o1 = a) by apply O1. assert (Aa2 : so_address o2 = a) by apply O2.
  split; [|split].
  - apply seq_insert; try congruence.
    + etrans; [by eapply seq_loaded|]. etrans; [exact Sq|]. symmetry. by eapply seq_loaded.
    + rewrite Ed1. by apply G.
  - apply wf_put_dirty; [apply L1|]. rewrite Ga1, Ed1, Aa1. by apply setter_object_ok.
  - apply wf_put_dirty; [apply L2|]. rewrite Ga2, Ed2, <- Ed, Aa2. apply setter_object_ok; [done|]. by rewrite Ed.
Qed.

Definition entry_ok (db : database) (m : gmap bytes bytes) (e : journalEntry) : Prop :=
  match e with
  | resetObjectChange p => object_ok db m (so_address p) p /\ so_deleted p = false
  | _ => True
  end.

(** What undoing an entry on equivalent states gives. *)
Definition undo_agrees (m : gmap bytes bytes) (u : StateDB -> outcome unit StateDB) (s1 s2 s1' : StateDB) : Prop :=
  exists s2', u s2 = Ok s2' /\ seq m s1' s2' /\ wf m s1' /\ wf m s2'.

Lemma undo_object_proper m a f g s1 s2 s1' :
  (forall o s, f o s = put_dirty (g o) s) -> setter (cd_db (s_db s1)) g ->
  seq m s1 s2 -> wf m s1 -> wf m s2 -> trie_ok (cd_db (s_db s1)) m ->
  undo_object a f s1 = Ok s1' -> undo_agrees m (undo_object a f) s1 s2 s1'.
Proof.
  intros Ef G Sq W1 W2 T E. unfold undo_agrees, undo_object in *.
  destruct (getStateObject_spec m s1 a W1 T) as (t1 & E1 & L1). rewrite E1 in E. cbn [mbind outcome_bind] in E.
  destruct (oview m s1 a) as [o1|] eqn:V1; [|done].
  destruct (change_object_proper m g a s1 s2 Sq W1 W2 T G o1 V1) as (o2 & u1 & u2 & V2 & E1' & E2 & Sq' & W1' & W2').
  rewrite E1 in E1'. injection E1' as <-. rewrite E2. cbn [mbind outcome_bind]. rewrite Ef in *. injection E as <-. eauto.
Qed.

(** Marks of touching do not matter. *)
Lemma seq_touched m s a o t :
  wf m s -> trie_ok (cd_db (s_db s)) m -> stateObjects s !! a = Some o -> so_deleted o = false ->
  let s' := setStateObject (obj_flags (so_suicided o) t (so_deleted o) (so_onDirty o) o) s in
  seq m s' s /\ wf m s'.
Proof.
  intros W T E D. pose proof (wf_objects _ _ W a o E) as Ho. assert (Ea : so_address o = a) by apply Ho. cbv zeta.
  set (o' := obj_flags _ _ _ _ _). assert (Oe : oeq (cd_db (s_db s)) o' o) by (by apply oeq_fields). split.
  - apply seq_frame; [done|]. intros a'. unfold oview, setStateObject. cbn [stateObjects set_objects].
    change (so_address o') with (so_address o). rewrite Ea, lookup_insert. case_decide as Da; [|done].
    subst a'. rewrite E. cbn. rewrite D. exact Oe.
  - split; [apply W|]. intros a' o2. unfold setStateObject. cbn [stateObjects set_objects].
    change (so_address o') with (so_address o). rewrite Ea, lookup_insert. case_decide as Da; [|apply W].
    intros [= <-]. subst a'. eapply object_ok_fields; [..|exact Ho]; try done. apply Ho.
Qed.

Lemma seq_set_dirty m d s : seq m (set_dirty d s) s.
Proof. by split. Qed.

Lemma wf_set_dirty m d s : wf m s -> wf m (set_dirty d s).
Proof. by intros [? ?]. Qed.

Lemma undo_touch m a prev pd s s' :
  wf m s -> trie_ok (cd_db (s_db s)) m -> undo (touchChange a prev pd) s = Ok s' -> seq m s' s /\ wf m s'.
Proof.
  intros W T. cbn [undo]. destruct (_ && _); [|by intros [= <-]].
  unfold undo_object. destruct (getStateObject_spec m s a W T) as (t & E & L). rewrite E. cbn [mbind outcome_bind].
  destruct (oview m s a) as [o|] eqn:V; [|done]. intros [= <-].
  destruct (oview_ok _ _ _ _ W T V) as [Ho D]. pose proof (frame_loaded _ _ _ _ L) as (Ed & _).
  destruct (seq_touched m t a o prev) as [Sq W']; try done; [apply L|by rewrite Ed|by apply L|].
  assert (Sq' : seq m (setStateObject (obj_flags (so_suicided o) prev (so_deleted o) (so_onDirty o) o) t) s).
  { etrans; [exact Sq|]. by eapply seq_loaded. }
  destruct pd; [done|]. split; [etrans; [apply seq_set_dirty|done]|by apply wf_set_dirty].
Qed.

Lemma touch_some m a prev pd s :
  wf m s -> trie_ok (cd_db (s_db s)) m -> is_Some (oview m s a) -> exists s', undo (touchChange a prev pd) s = Ok s'.
Proof.
  intros W T [o V]. cbn [undo]. destruct (_ && _); [|eauto]. unfold undo_object.
  destruct (getStateObject_spec m s a W T) as (t & E & L). rewrite E, V. cbn [mbind outcome_bind]. eauto.
Qed.

Lemma wf_same m s s' :
  wf m s -> s_db s' = s_db s -> s_trie s' = s_trie s -> stateObjects s' = stateObjects s -> wf m s'.
Proof. intros [Wt Wo] Ed Et Eo. split; [by rewrite Ed, Et|]. intros a o. rewrite Ed, Eo. apply Wo. Qed.

(** The entries that do not concern an object. *)
Lemma seq_other m s1 s2 f :
  seq m s1 s2 ->
  (forall s, s_db (f s) = s_db s /\ stateObjects (f s) = stateObjects s /\ thash (f s) = thash s /\ bhash (f s) = bhash s /\ txIndex (f s) = txIndex s) ->
  refund (f s1) = refund (f s2) -> (forall h, GetLogs h (f s1) = GetLogs h (f s2)) -> logSize (f s1) = logSize (f s2) ->
  preimages (f s1) = preimages (f s2) -> seq m (f s1) (f s2).
Proof.
  intros [] F. destruct (F s1) as (D1 & O1 & A1 & B1 & C1), (F s2) as (D2 & O2 & A2 & B2 & C2).
  intros. split; try congruence. intros a. unfold oview in *. rewrite D1, O1, O2. apply seq_objects0.
Qed.

Lemma undo_log m h s1 s2 s1' :
  seq m s1 s2 -> wf m s1 -> wf m s2 -> undo (addLogChange h) s1 = Ok s1' -> undo_agrees m (undo (addLogChange h)) s1 s2 s1'.
Proof.
  intros Sq W1 W2 E. unfold undo_agrees. cbn [undo] in *. pose proof (seq_logs _ _ _ Sq h) as El. unfold GetLogs in El. rewrite <- El.
  assert (F : forall l, seq m (set_logs (<[h := l]> (logs s1)) (logSize s1 - 1) s1) (set_logs (<[h := l]> (logs s2)) (logSize s2 - 1) s2)).
  { intros l. destruct Sq. split; try done; [|cbn; lia]. intros h'. unfold GetLogs in *. cbn. rewrite !lookup_insert. by case_decide. }
  destruct (default [] (logs s1 !! h)) as [|x [|y l]]; [done|..]; injection E as <-;
    (eexists; split; [reflexivity|]; split; [|split; [by apply (wf_same m s1)|by apply (wf_same m s2)]]); [|apply F].
  destruct Sq. split; try done; [|cbn; lia]. intros h'. unfold GetLogs in *. cbn. rewrite !lookup_delete. by case_decide.
Qed.

Lemma undo_suicide_proper m a pv bal s1 s2 s1' :
  seq m s1 s2 -> wf m s1 -> wf m s2 -> trie_ok (cd_db (s_db s1)) m ->
  undo (suicideChange a pv bal) s1 = Ok s1' -> undo_agrees m (undo (suicideChange a pv bal)) s1 s2 s1'.
Proof.
  intros Sq W1 W2 T E. assert (T2 : trie_ok (cd_db (s_db s2)) m) by (by rewrite <- (seq_db _ _ _ Sq)).
  unfold undo_agrees. cbn [undo] in *.
  destruct (getStateObject_spec m s1 a W1 T) as (t1 & E1 & L1). rewrite E1 in E. cbn [mbind outcome_bind] in E.
  destruct (oview m s1 a) as [o1|] eqn:V1.
  - destruct (change_object_proper m _ a s1 s2 Sq W1 W2 T (setter_suicide _ pv bal) o1 V1) as (o2 & u1 & u2 & V2 & E1' & E2 & Sq' & W1' & W2').
    rewrite E1 in E1'. injection E1' as <-. rewrite E2. cbn [mbind outcome_bind undo]. injection E as <-. eauto.
  - injection E as <-. destruct (getStateObject_spec m s2 a W2 T2) as (t2 & E2 & L2).
    pose proof (seq_objects _ _ _ Sq a) as O. rewrite V1 in O. destruct (oview m s2 a) eqn:V2; [done|].
    cbn [undo]. rewrite E2. cbn [mbind outcome_bind]. eexists. split; [reflexivity|].
    split; [|split; [apply L1|apply L2]].
    etrans; [by eapply seq_loaded|]. etrans; [exact Sq|]. symmetry. by eapply seq_loaded.
Qed.

Lemma undo_touch_proper m a pv pd s1 s2 s1' :
  seq m s1 s2 -> wf m s1 -> wf m s2 -> trie_ok (cd_db (s_db s1)) m ->
  undo (touchChange a pv pd) s1 = Ok s1' -> undo_agrees m (undo (touchChange a pv pd)) s1 s2 s1'.
Proof.
  intros Sq W1 W2 T E. assert (T2 : trie_ok (cd_db (s_db s2)) m) by (by rewrite <- (seq_db _ _ _ Sq)).
  destruct (undo_touch m a pv pd s1 s1' W1 T E) as [Sq1 W1'].
  assert (X : exists s2', undo (touchChange a pv pd) s2 = Ok s2').
  { cbn [undo] in *. destruct (_ && _); [|eauto]. unfold undo_object in *.
    destruct (getStateObject_spec m s1 a W1 T) as (t1 & E1 & L1). rewrite E1 in E. cbn [mbind outcome_bind] in E.
    destruct (getStateObject_spec m s2 a W2 T2) as (t2 & E2 & L2). rewrite E2. cbn [mbind outcome_bind].
    pose proof (seq_objects _ _ _ Sq a) as O. destruct (oview m s1 a); [|done]. destruct (oview m s2 a); [eauto|done]. }
  destruct X as [s2' E2]. destruct (undo_touch m a pv pd s2 s2' W2 T2 E2) as [Sq2 W2'].
  exists s2'. split; [done|]. split; [|done]. etrans; [exact Sq1|]. etrans; [exact Sq|]. by symmetry.
Qed.

Lemma undo_proper m e s1 s2 s1' :
  seq m s1 s2 -> wf m s1 -> wf m s2 -> trie_ok (cd_db (s_db s1)) m -> entry_ok (cd_db (s_db s1)) m e ->
  undo e s1 = Ok s1' -> undo_agrees m (undo e) s1 s2 s1'.
Proof.
  intros Sq W1 W2 T Eo E. pose proof (seq_db _ _ _ Sq) as Ed. assert (T2 : trie_ok (cd_db (s_db s2)) m) by (by rewrite <- Ed).
  destruct e as [a|p|a pv bal|a pv|a pv|a pv|a key pv|a pc ph|a pv|pv|h|h|a pv pd].
  - injection E as <-. eexists. split; [reflexivity|]. split; [|split].
    + destruct Sq. split; try done. intros a'. unfold oview in *. cbn [stateObjects set_dirty set_objects].
      destruct (decide (a' = a)) as [->|N]; [by rewrite !lookup_delete_eq|by rewrite !lookup_delete_ne].
    + apply wf_set_dirty. split; [apply W1|]. intros a' o. cbn. rewrite lookup_delete_Some. intros [_ H']. by apply W1.
    + apply wf_set_dirty. split; [apply W2|]. intros a' o. cbn. rewrite lookup_delete_Some. intros [_ H']. by apply W2.
  - injection E as <-. destruct Eo as [Op Dp]. eexists. split; [reflexivity|].
    assert (Wp : forall s, wf m s -> s_db s = s_db s1 -> wf m (setStateObject p s)).
    { intros s W Es. split; [apply W|]. intros a' o. unfold setStateObject. cbn [stateObjects set_objects].
      rewrite lookup_insert. case_decide; [|apply W]. intros [= <-]. subst a'. cbn. by rewrite Es. }
    split; [|split; [by apply Wp|by apply Wp]].
    destruct Sq. split; try done. intros a'. unfold oview, setStateObject in *. cbn [stateObjects set_objects s_db].
    rewrite !lookup_insert. case_decide; [by rewrite Dp|apply seq_objects0].
  - by apply undo_suicide_proper.
  - eapply undo_object_proper; [reflexivity|..]; try done; [by apply (setter_data _ (acc_balance pv))].
  - eapply undo_object_proper; [reflexivity|..]; try done; [by apply (setter_data _ (acc_contribution pv))].
  - eapply undo_object_proper; [reflexivity|..]; try done; [by apply (setter_data _ (acc_nonce pv))].
  - eapply undo_object_proper; [reflexivity|..]; try done; [by apply (setter_state _ key pv)].
  - eapply undo_object_proper; [reflexivity|..]; try done; [apply (setter_code _ (BytesToHash ph) pc)].
    unfold BytesToHash, Hash_SetBytes. rewrite len_setBytes; [done|done|by apply len_zeros].
  - eapply undo_object_proper; [reflexivity|..]; try done; [by apply (setter_data _ (acc_records pv))].
  - injection E as <-. eexists. split; [reflexivity|]. split; [|split; [by apply (wf_same m s1)|by apply (wf_same m s2)]].
    destruct Sq. apply (seq_other m s1 s2 (set_refund pv)); done.
  - by apply undo_log.
  - injection E as <-. eexists. split; [reflexivity|]. split; [|split; [by apply (wf_same m s1)|by apply (wf_same m s2)]].
    destruct Sq. rewrite <- seq_preimages0. apply (seq_other m s1 s2 (set_preimages _)); done.
  - by apply undo_touch_proper.
Qed.

Lemma getStateObject_db a s o s' : getStateObject a s = Ok (o, s') -> s_db s' = s_db s.
Proof.
  unfold getStateObject. destruct (stateObjects s !! a); [by intros [= _ <-]|].
  destruct (tr_TryGet _ _ _) as [[[[|b e]|] t]|e| |]; try done; try (by intros [= _ <-]).
  - destruct (DecodeBytes _ _) as [v| | |]; try done; [|by intros [= _ <-]].
    destruct (val_account v); by intros [= _ <-].
  - intros [= _ <-]. unfold setError. by destruct (s_dbErr s).
Qed.

Lemma put_dirty_db o s : s_db (put_dirty o s) = s_db s.
Proof. apply frame_put_dirty. Qed.

Lemma undo_db e s s' : undo e s = Ok s' -> s_db s' = s_db s.
Proof.
  assert (U : forall a f, (forall o s, s_db (f o s) = s_db s) -> undo_object a f s = Ok s' -> s_db s' = s_db s).
  { intros a f Hf. unfold undo_object. destruct (getStateObject a s) as [[[o|] t]| | |] eqn:E; try done.
    cbn [mbind outcome_bind]. intros [= <-]. rewrite Hf. by eapply getStateObject_db. }
  destruct e as [a|p|a pv bal|a pv|a pv|a pv|a key pv|a pc ph|a pv|pv|h|h|a pv pd]; cbn [undo];
    try (by intros [= <-]); try (apply U; intros; apply put_dirty_db).
  - destruct (getStateObject a s) as [[[o|] t]| | |] eqn:E; try done; cbn [mbind outcome_bind]; intros [= <-];
      [etrans; [apply put_dirty_db|]|]; by eapply getStateObject_db.
  - destruct (default [] (logs s !! h)) as [|x [|y l]]; try done; by intros [= <-].
  - destruct (_ && _); [|by intros [= <-]]. apply U. intros o t. by destruct pd.
Qed.

(** ** Lemmas: reversible changes *)

Lemma undo_all_app l1 l2 s : undo_all (l1 ++ l2) s = (s' ← undo_all l1 s; undo_all l2 s').
Proof.
  revert s. induction l1 as [|e l1 IH]; intros s; [done|]. cbn [app undo_all].
  destruct (undo e s); cbn [mbind outcome_bind]; [apply IH|done..].
Qed.

Lemma undo_all_proper m l : forall s1 s2 s1',
  seq m s1 s2 -> wf m s1 -> wf m s2 -> trie_ok (cd_db (s_db s1)) m -> Forall (entry_ok (cd_db (s_db s1)) m) l ->
  undo_all l s1 = Ok s1' -> undo_agrees m (undo_all l) s1 s2 s1'.
Proof.
  induction l as [|e l IH]; intros s1 s2 s1' Sq W1 W2 T F E.
  { injection E as <-. by exists s2. }
  apply Forall_cons_iff in F as [Fe F]. cbn [undo_all] in E. destruct (undo e s1) as [t1| | |] eqn:E1; try done.
  destruct (undo_proper m e s1 s2 t1 Sq W1 W2 T Fe E1) as (t2 & E2 & Sq' & W1' & W2').
  pose proof (undo_db e s1 t1 E1) as Ed.
  cbn [mbind outcome_bind] in E. destruct (IH t1 t2 s1' Sq' W1' W2') as (s2' & E' & R); [by rewrite Ed|by rewrite Ed|done|].
  exists s2'. cbn [undo_all]. rewrite E2. done.
Qed.

(** The change from [s] to [s'] can be undone by its journal entries. *)
Definition reversible (m : gmap bytes bytes) (s s' : StateDB) : Prop :=
  wf m s' /\ s_db s' = s_db s /\
  (exists extra, validRevisions s' = validRevisions s ++ extra /\ Forall (fun r => nextRevisionId s <= rev_id r) extra) /\
  nextRevisionId s <= nextRevisionId s' /\
  exists es, journal s' = es ++ journal s /\ Forall (entry_ok (cd_db (s_db s)) m) es /\
    exists s0, undo_all es s' = Ok s0 /\ seq m s0 s /\ wf m s0.

Lemma journal_put_dirty o s : journal (put_dirty o s) = journal s.
Proof. unfold put_dirty. by destruct (so_onDirty o). Qed.

(** Changes of the caches only. *)
Lemma reversible_loaded m a s s' : loaded_state m a s s' -> reversible m s s'.
Proof.
  intros L. pose proof (seq_loaded _ _ _ _ L) as Sq. pose proof (frame_loaded _ _ _ _ L) as (Ed&_&_&_&_&_&_&_&Ev&En).
  destruct L as (W&_&_&_&_&_&_&_&_&_&Ej&_). split; [done|]. split; [done|]. split.
  { exists []. by rewrite app_nil_r. }
  split; [lia|]. exists []. split; [done|]. split; [done|]. by exists s'.
Qed.

Lemma reversible_refl m s : wf m s -> reversible m s s.
Proof.
  intros W. split; [done|]. split; [done|]. split; [exists []; by rewrite app_nil_r|]. split; [lia|].
  exists []. split; [done|]. split; [done|]. by exists s.
Qed.

Lemma reversible_trans m s1 s2 s3 :
  trie_ok (cd_db (s_db s1)) m -> reversible m s1 s2 -> reversible m s2 s3 -> reversible m s1 s3.
Proof.
  intros T (W2 & D2 & (x2 & V2 & X2) & N2 & es2 & J2 & F2 & t2 & U2 & S2 & Wt2)
           (W3 & D3 & (x3 & V3 & X3) & N3 & es3 & J3 & F3 & t3 & U3 & S3 & Wt3).
  split; [done|]. split; [congruence|]. split.
  { exists (x2 ++ x3). split; [by rewrite V3, V2, app_assoc|]. apply Forall_app. split; [done|].
    eapply Forall_impl; [|exact X3]. cbn. lia. }
  split; [lia|]. exists (es3 ++ es2). split; [by rewrite J3, J2, app_assoc|]. split.
  { apply Forall_app. by rewrite D2 in F3. }
  rewrite undo_all_app, U3. cbn [mbind outcome_bind].
  assert (Sq : seq m s2 t3) by (by symmetry).
  destruct (undo_all_proper m es2 s2 t3 t2) as (t & Et & St & _ & Wt); try done; [by rewrite D2|by rewrite D2|].
  exists t. split; [done|]. split; [|done]. etrans; [|exact S2]. by symmetry.
Qed.

(** One entry that undoes its change. *)
Lemma reversible_entry m s s' e :
  wf m s' -> s_db s' = s_db s -> validRevisions s' = validRevisions s -> nextRevisionId s' = nextRevisionId s ->
  journal s' = e :: journal s -> entry_ok (cd_db (s_db s)) m e ->
  (exists s0, undo e s' = Ok s0 /\ seq m s0 s /\ wf m s0) -> reversible m s s'.
Proof.
  intros W D V N J F (s0 & U & R). split; [done|]. split; [done|]. split; [exists []; by rewrite app_nil_r|].
  split; [lia|]. exists [e]. split; [done|]. split; [by constructor|]. exists s0. cbn [undo_all]. by rewrite U.
Qed.

(** An object replaced, with the entry whose undoing is the setter [h]. *)
Lemma reversible_put m s a o o1 e h :
  wf m s -> trie_ok (cd_db (s_db s)) m -> oview m s a = Some o ->
  object_ok (cd_db (s_db s)) m a o1 -> so_deleted o1 = false -> entry_ok (cd_db (s_db s)) m e ->
  (forall s o s', getStateObject a s = Ok (Some o, s') -> undo e s = Ok (put_dirty (h o) s')) ->
  setter (cd_db (s_db s)) h -> oeq (cd_db (s_db s)) (h o1) o ->
  reversible m s (put_dirty o1 (append_journal e s)).
Proof.
  intros W T V Ho D F U Sh O. set (s1 := put_dirty o1 (append_journal e s)).
  assert (A1 : so_address o1 = a) by apply Ho.
  assert (W1 : wf m s1) by (apply wf_put_dirty; [by apply wf_journal|by rewrite A1]).
  assert (Fr1 : frame s1 s) by exact (frame_put_dirty o1 (append_journal e s)).
  pose proof Fr1 as (D1&_&_&_&_&_&_&_&F8&F9).
  assert (T1 : trie_ok (cd_db (s_db s1)) m) by (by rewrite D1).
  assert (V1 : forall a', oview m s1 a' = if decide (a' = a) then Some (undirty o1) else oview m s a').
  { intros a'. unfold s1. rewrite view_insert, A1 by done. done. }
  destruct (getStateObject_spec m s1 a W1 T1) as (t & E & L). rewrite V1, decide_True in E by done.
  pose proof (frame_loaded _ _ _ _ L) as Fr. assert (Dt : s_db t = s_db s) by (destruct Fr as [-> _]; done).
  set (o2 := h (undirty o1)). pose proof Sh as [Sh1 Sh2]. destruct (Sh1 (undirty o1)) as (A2 & D2 & _).
  destruct (undirty_fields o1) as (Au & Du & _ & Dd & _).
  assert (O2 : object_ok (cd_db (s_db s)) m a o2).
  { apply setter_object_ok; [done|]. destruct (undirty_fields o1) as (? & Ed & _ & ? & _ & ? & _).
    eapply object_ok_fields; [..|exact Ho]; try done; [by rewrite Ed|rewrite Ed; apply Ho]. }
  apply (reversible_entry m s s1 e); try done; [by unfold s1; rewrite journal_put_dirty|].
  exists (put_dirty o2 t). split; [by apply U|]. split.
  - apply seq_frame; [by etrans; [apply frame_put_dirty|etrans; [exact Fr|]]|].
    intros a'. rewrite put_dirty_db, Dt, view_insert by (unfold o2; congruence).
    replace (so_address o2) with a by (unfold o2; congruence). destruct (decide (a' = a)) as [->|N].
    + rewrite V. cbn. etrans; [apply oeq_undirty|]. etrans; [|exact O]. apply Sh2, oeq_undirty.
    + destruct L as (_&_&_&_&_&_&_&_&_&_&_&_&_&Lv&_). rewrite Lv, V1. by rewrite decide_False.
  - apply wf_put_dirty; [apply L|]. rewrite Dt. replace (so_address o2) with a by (unfold o2; congruence). done.
Qed.

(** ** Lemmas: creating objects *)

(** The state after an object is replaced by another one, with the caches of [s] kept. *)
Lemma reversible_reset m s s' a p :
  wf m s -> trie_ok (cd_db (s_db s)) m -> oview m s a = Some p -> wf m s' -> frame s' s ->
  journal s' = resetObjectChange p :: journal s ->
  (forall a', a' <> a -> oview m s' a' = oview m s a') -> reversible m s s'.
Proof.
  intros W T V W' Fr J Vo. destruct (oview_ok _ _ _ _ W T V) as [Ho D]. assert (Ap : so_address p = a) by apply Ho.
  pose proof Fr as (Ed&_&_&_&_&_&_&_&Ev&En).
  apply (reversible_entry m s s' (resetObjectChange p)); try done; [by split; [rewrite Ap|]|].
  exists (setStateObject p s'). split; [done|]. split.
  - apply seq_frame; [done|]. intros a'. unfold setStateObject, oview at 1. cbn [stateObjects set_objects s_db].
    rewrite Ap, lookup_insert. case_decide as Da; [subst a'; by rewrite D, V|].
    fold (oview m s' a'). by rewrite Vo.
  - split; [apply W'|]. intros a' o. unfold setStateObject. cbn [stateObjects set_objects s_db].
    rewrite Ap, lookup_insert. case_decide as Da; [|apply W']. intros [= <-]. subst a'. by rewrite Ed.
Qed.

Lemma reversible_create m s s' a :
  wf m s -> oview m s a = None -> wf m s' -> frame s' s ->
  journal s' = createObjectChange a :: journal s ->
  (forall a', a' <> a -> oview m s' a' = oview m s a') -> reversible m s s'.
Proof.
  intros W V W' Fr J Vo. pose proof Fr as (Ed&_&_&_&_&_&_&_&Ev&En).
  assert (Ta : tacct m a = None).
  { unfold oview in V. destruct (stateObjects s !! a) as [o|] eqn:E.
    - destruct (so_deleted o) eqn:D; [|done]. destruct (wf_objects _ _ W a o E) as (_ & H & _). by apply H.
    - by destruct (tacct m a). }
  apply (reversible_entry m s s' (createObjectChange a)); try done.
  eexists. split; [reflexivity|]. split.
  - apply seq_frame; [done|]. intros a'. unfold oview at 1. cbn [stateObjects set_dirty set_objects s_db].
    destruct (decide (a' = a)) as [->|N].
    + rewrite lookup_delete_eq, Ta, V. done.
    + rewrite lookup_delete_ne by done. fold (oview m s' a'). by rewrite Vo.
  - apply wf_set_dirty. split; [apply W'|]. intros a' o. cbn. rewrite lookup_delete_Some. intros [_ H]. by apply W'.
Qed.

Definition fresh_object (a : bytes) : stateObject := newObject a (acc_nonce 0 emptyAccount) false.

Lemma fresh_object_ok db m a : object_ok db m a (fresh_object a).
Proof.
  split; [done|]. split; [done|]. split; [|cbn; apply len_keccak].
  exists ∅. split; [|done]. apply tr_open_empty. left. reflexivity.
Qed.

(** The state that [createObject] leaves. *)
Lemma createObject_spec m a s :
  wf m s -> trie_ok (cd_db (s_db s)) m ->
  exists s', createObject a s = Ok (fresh_object a, oview m s a, s') /\ wf m s' /\ frame s' s /\
    journal s' = match oview m s a with None => createObjectChange a | Some p => resetObjectChange p end :: journal s /\
    stateObjects s' !! a = Some (fresh_object a) /\ (forall a', a' <> a -> oview m s' a' = oview m s a').
Proof.
  intros W T. unfold createObject. destruct (getStateObject_spec m s a W T) as (t & -> & L). cbn [mbind outcome_bind].
  eexists. split; [reflexivity|]. pose proof (frame_loaded _ _ _ _ L) as Fr. pose proof (proj1 Fr) as Ed.
  destruct L as (Wt&_&_&_&_&_&_&_&_&_&Ej&_&_&Lv&_). split; [|split; [done|split; [|split]]].
  - split; [apply Wt|]. intros a' o. unfold setStateObject. cbn [stateObjects set_objects s_db so_address newObject].
    rewrite lookup_insert. case_decide as D; [|apply Wt]. intros [= <-]. subst a'. apply fresh_object_ok.
  - cbn. by rewrite Ej.
  - cbn. apply lookup_insert_eq.
  - intros a' N. etrans; [|apply Lv]. unfold setStateObject, oview. cbn [stateObjects set_objects so_address newObject].
    by rewrite lookup_insert_ne.
Qed.

Lemma createObject_reversible m a s :
  wf m s -> trie_ok (cd_db (s_db s)) m ->
  exists s', createObject a s = Ok (fresh_object a, oview m s a, s') /\ reversible m s s' /\ stateObjects s' !! a = Some (fresh_object a).
Proof.
  intros W T. destruct (createObject_spec m a s W T) as (s' & E & W' & Fr & J & Es & Vo). exists s'. split; [done|]. split; [|done].
  destruct (oview m s a) as [p|] eqn:V; [by eapply reversible_reset|by eapply reversible_create].
Qed.

Lemma live_oview m s a o : stateObjects s !! a = Some o -> so_deleted o = false -> oview m s a = Some o.
Proof. intros E D. unfold oview. by rewrite E, D. Qed.

Lemma GetOrNew_reversible m a s :
  wf m s -> trie_ok (cd_db (s_db s)) m ->
  exists o s', GetOrNewStateObject a s = Ok (o, s') /\ reversible m s s' /\ stateObjects s' !! a = Some o /\ so_deleted o = false.
Proof.
  intros W T. unfold GetOrNewStateObject. destruct (getStateObject_spec m s a W T) as (t & -> & L). cbn [mbind outcome_bind].
  pose proof (reversible_loaded _ _ _ _ L) as R. destruct (oview m s a) as [o|] eqn:V.
  - exists o, t. split; [done|]. split; [done|]. split; [by apply L|]. by eapply oview_ok.
  - pose proof R as (Wt & Ed & _). destruct (createObject_reversible m a t Wt) as (s' & -> & R' & Es); [by rewrite Ed|].
    exists (fresh_object a), s'. split; [done|]. split; [by eapply reversible_trans|]. done.
Qed.

(** The setters that get or make their object first. *)
Lemma with_object_reversible m f a s :
  wf m s -> trie_ok (cd_db (s_db s)) m ->
  (forall o s, wf m s -> trie_ok (cd_db (s_db s)) m -> stateObjects s !! a = Some o -> so_deleted o = false -> reversible m s (f o s)) ->
  exists s', with_object f a s = Ok s' /\ reversible m s s'.
Proof.
  intros W T F. destruct (GetOrNew_reversible m a s W T) as (o & t & E & R & Eo & D). unfold with_object. rewrite E.
  cbn [mbind outcome_bind]. exists (f o t). split; [done|]. eapply reversible_trans; [done..|].
  pose proof R as (Wt & Ed & _). apply F; try done. by rewrite Ed.
Qed.

Lemma CreateAccount_reversible m a s :
  wf m s -> trie_ok (cd_db (s_db s)) m -> exists s', CreateAccount a s = Ok s' /\ reversible m s s'.
Proof.
  intros W T. unfold CreateAccount. destruct (createObject_spec m a s W T) as (s1 & -> & W1 & Fr1 & J1 & Es & Vo).
  cbn [mbind outcome_bind]. destruct (oview m s a) as [p|] eqn:V; [|exists s1; split; [done|by eapply reversible_create]].
  set (o1 := obj_data (acc_balance (Balance (so_data p)) (so_data (fresh_object a))) (fresh_object a)).
  change (so_setBalance (Balance (so_data p)) (fresh_object a) s1) with (put_dirty o1 s1).
  assert (L1 : stateObjects (put_dirty o1 s1) !! a = Some o1).
  { rewrite put_dirty_objects. apply lookup_insert_eq. }
  rewrite L1. set (o2 := obj_data (acc_contribution (Contribution (so_data p)) (so_data o1)) o1).
  change (so_setContribution (Contribution (so_data p)) o1 (put_dirty o1 s1)) with (put_dirty o2 (put_dirty o1 s1)).
  eexists. split; [reflexivity|]. pose proof (fresh_object_ok (cd_db (s_db s1)) m a) as Hf.
  assert (W2 : wf m (put_dirty o1 s1)).
  { apply wf_put_dirty; [done|]. eapply object_ok_fields; [..|exact Hf]; try done. apply Hf. }
  eapply reversible_reset; [done|done|exact V|..].
  - apply wf_put_dirty; [done|]. rewrite put_dirty_db. eapply object_ok_fields; [..|exact Hf]; try done. apply Hf.
  - do 2 (etrans; [apply frame_put_dirty|]). done.
  - by rewrite !journal_put_dirty.
  - intros a' N. rewrite !view_insert by done. rewrite !decide_False by done. by apply Vo.
Qed.

(** ** Lemmas: the setters *)

Definition keeps_roots (h : Account -> Account) : Prop := forall d, Root (h d) = Root d /\ CodeHash (h d) = CodeHash d.

Lemma reversible_data m s a o e h hb :
  wf m s -> trie_ok (cd_db (s_db s)) m -> stateObjects s !! a = Some o -> so_deleted o = false ->
  entry_ok (cd_db (s_db s)) m e ->
  (forall s, undo e s = undo_object a (fun o s => put_dirty (obj_data (hb (so_data o)) o) s) s) ->
  keeps_roots h -> keeps_roots hb -> hb (h (so_data o)) = so_data o ->
  reversible m s (put_dirty (obj_data (h (so_data o)) o) (append_journal e s)).
Proof.
  intros W T E D F U Kh Khb Eb. pose proof (wf_objects _ _ W a o E) as Ho.
  apply (reversible_put m s a o _ e (fun o => obj_data (hb (so_data o)) o)); try done.
  - by apply live_oview.
  - apply (setter_object_ok _ (fun o => obj_data (h (so_data o)) o)); [by apply setter_data|done].
  - intros t o' t' Et. rewrite U. unfold undo_object. by rewrite Et.
  - by apply setter_data.
  - apply oeq_fields; try done.
Qed.

Lemma so_SetBalance_reversible m a v o s :
  wf m s -> trie_ok (cd_db (s_db s)) m -> stateObjects s !! a = Some o -> so_deleted o = false ->
  reversible m s (so_SetBalance v o s).
Proof.
  intros W T E D. destruct (wf_objects _ _ W a o E) as (<- & _).
  eapply (reversible_data m s (so_address o) o _ (acc_balance v) (acc_balance (Balance (so_data o)))); try done.
  by destruct (so_data o).
Qed.

Lemma so_SetContribution_reversible m a v o s :
  wf m s -> trie_ok (cd_db (s_db s)) m -> stateObjects s !! a = Some o -> so_deleted o = false ->
  reversible m s (so_SetContribution v o s).
Proof.
  intros W T E D. destruct (wf_objects _ _ W a o E) as (<- & _).
  eapply (reversible_data m s (so_address o) o _ (acc_contribution v) (acc_contribution (Contribution (so_data o)))); try done.
  by destruct (so_data o).
Qed.

Lemma so_SetNonce_reversible m a v o s :
  wf m s -> trie_ok (cd_db (s_db s)) m -> stateObjects s !! a = Some o -> so_deleted o = false ->
  reversible m s (so_SetNonce v o s).
Proof.
  intros W T E D. destruct (wf_objects _ _ W a o E) as (<- & _).
  eapply (reversible_data m s (so_address o) o _ (acc_nonce v) (acc_nonce (Nonce (so_data o)))); try done.
  by destruct (so_data o).
Qed.

Lemma so_SetRecords_reversible m a v o s :
  wf m s -> trie_ok (cd_db (s_db s)) m -> stateObjects s !! a = Some o -> so_deleted o = false ->
  reversible m s (so_SetRecords v o s).
Proof.
  intros W T E D. destruct (wf_objects _ _ W a o E) as (<- & _).
  eapply (reversible_data m s (so_address o) o _ (acc_records v) (acc_records (Records (so_data o)))); try done.
  by destruct (so_data o).
Qed.

Lemma so_touch_reversible m a o s :
  wf m s -> trie_ok (cd_db (s_db s)) m -> stateObjects s !! a = Some o -> so_deleted o = false ->
  reversible m s (so_touch o s).
Proof.
  intros W T E D. pose proof (wf_objects _ _ W a o E) as Ho. assert (Ea : so_address o = a) by apply Ho.
  set (o' := obj_flags (so_suicided o) true (so_deleted o) false o).
  assert (W1 : wf m (so_touch o s)).
  { split; [unfold so_touch; by destruct (so_onDirty o); apply W|]. intros a' o2.
    assert (Es : stateObjects (so_touch o s) = <[so_address o := o']> (stateObjects s)) by (unfold so_touch; by destruct (so_onDirty o)).
    assert (Ed : s_db (so_touch o s) = s_db s) by (unfold so_touch; by destruct (so_onDirty o)).
    rewrite Es, Ed, Ea, lookup_insert. case_decide as Da; [|apply W]. intros [= <-]. subst a'.
    eapply object_ok_fields; [..|exact Ho]; try done. apply Ho. }
  assert (Fr : frame (so_touch o s) s) by (unfold so_touch; by destruct (so_onDirty o)).
  assert (V : forall a', oeq_opt (cd_db (s_db s)) (oview m (so_touch o s) a') (oview m s a')).
  { intros a'. replace (oview m (so_touch o s) a') with (oview m (setStateObject o' s) a')
      by (unfold oview, so_touch; by destruct (so_onDirty o)).
    unfold oview, setStateObject. cbn [stateObjects set_objects]. change (so_address o') with (so_address o). rewrite Ea, lookup_insert.
    case_decide as Da; [|done]. subst a'. rewrite E. cbn. rewrite D. by apply oeq_fields. }
  pose proof Fr as (Ed&_&_&_&_&_&_&_&Ev&En).
  assert (Sq : seq m (so_touch o s) s) by (apply seq_frame; [done|by rewrite Ed]).
  assert (T1 : trie_ok (cd_db (s_db (so_touch o s))) m) by (by rewrite Ed).
  apply (reversible_entry m s _ (touchChange a (so_touched o) (negb (so_onDirty o)))); try done.
  { unfold so_touch. rewrite Ea. by destruct (so_onDirty o). }
  destruct (touch_some m a (so_touched o) (negb (so_onDirty o)) (so_touch o s) W1 T1) as [s0 U].
  { specialize (V a). rewrite (live_oview m s a o E D) in V. by destruct (oview m (so_touch o s) a). }
  destruct (undo_touch m a _ _ _ s0 W1 T1 U) as [Sq0 W0]. exists s0. split; [done|]. split; [|done]. by etrans.
Qed.

Lemma so_AddBalance_reversible m a v o s :
  wf m s -> trie_ok (cd_db (s_db s)) m -> stateObjects s !! a = Some o -> so_deleted o = false ->
  reversible m s (so_AddBalance v o s).
Proof.
  intros W T E D. unfold so_AddBalance. destruct (v =? 0); [|by eapply so_SetBalance_reversible].
  destruct (so_empty o); [by eapply so_touch_reversible|by apply reversible_refl].
Qed.

Lemma so_SetCode_reversible m a h c o s :
  len h = 32 ->
  wf m s -> trie_ok (cd_db (s_db s)) m -> stateObjects s !! a = Some o -> so_deleted o = false ->
  reversible m s (so_SetCode h c o s).
Proof.
  intros Lh W T E D. pose proof (wf_objects _ _ W a o E) as Ho. unfold so_SetCode.
  pose proof (so_Code_view (cd_db (s_db s)) o) as Cv. destruct (so_Code (cd_db (s_db s)) o) as [pc o0] eqn:Ec. cbn [fst] in Cv.
  assert (F0 : so_address o0 = a /\ so_deleted o0 = false /\ so_data o0 = so_data o /\ so_suicided o0 = so_suicided o /\
    so_trie o0 = so_trie o /\ so_cachedStorage o0 = so_cachedStorage o).
  { assert (A : so_address o = a) by apply Ho. unfold so_Code in Ec. destruct (so_code o); [by injection Ec as <- <-|].
    case_bool_decide; [by injection Ec as <- <-|]. destruct (cd_db (s_db s) !! _); injection Ec as <- <-; [done|].
    unfold obj_setError. by destruct (so_dbErr o). }
  destruct F0 as (A0 & D0 & Ed0 & Su0 & Et0 & Es0). rewrite A0. unfold so_setCode.
  assert (Lc : len (CodeHash (so_data o)) = 32) by apply Ho.
  assert (Ei : BytesToHash (CodeHash (so_data o)) = CodeHash (so_data o)).
  { unfold BytesToHash, Hash_SetBytes. by apply setBytes_exact. }
  eapply (reversible_put m s a o _ _ (fun o1 => obj_code pc true (obj_data (acc_codeHash (BytesToHash (CodeHash (so_data o0))) (so_data o1)) o1))); try done.
  - by apply live_oview.
  - eapply object_ok_fields; [..|exact Ho]; cbn; try done; [by rewrite A0; symmetry; apply Ho|congruence|by rewrite Ed0].
  - intros t o' t' Et. cbn [undo]. unfold undo_object. by rewrite Et.
  - apply setter_code. unfold BytesToHash, Hash_SetBytes. by rewrite len_setBytes; [|done|apply len_zeros].
  - assert (A : so_address o = a) by apply Ho. repeat split; cbn; try congruence.
    + rewrite Ed0, Ei. by destruct (so_data o).
    + rewrite !so_Code_view. cbn. rewrite Ed0, Ei. rewrite Cv. unfold code_view.
      destruct (so_code o); [done|]. case_bool_decide; [done|]. by destruct (cd_db (s_db s) !! _).
    + intros key. apply sval_cong; cbn; congruence.
Qed.

(** ** Lemmas: storage *)

(** The word that a slot of the storage trie holds. *)
Definition slot_word (v : option bytes) : bytes :=
  match v with
  | Some (b :: v) => match Split (b :: v) with Ok (_, content, _) => Hash_SetBytes (zeros HashLength) content | _ => zeros HashLength end
  | _ => zeros HashLength
  end.

Definition slots_ok (db : database) (o : stateObject) (ms : gmap bytes bytes) : Prop :=
  strep db o ms /\ forall k v, ms !! k = Some v -> slot_value v.

(** A read of a slot: the value, and the object with its caches. *)
Lemma so_GetState_spec db o ms key :
  slots_ok db o ms ->
  exists o', so_GetState db key o = Ok (default (slot_word (ms !! tr_key key)) (so_cachedStorage o !! key), o') /\
    slots_ok db o' ms /\ so_address o' = so_address o /\ so_data o' = so_data o /\ so_suicided o' = so_suicided o /\
    so_deleted o' = so_deleted o /\ so_code o' = so_code o /\
    (forall k, default (slot_word (ms !! tr_key k)) (so_cachedStorage o' !! k) = default (slot_word (ms !! tr_key k)) (so_cachedStorage o !! k)).
Proof.
  intros [R V]. unfold so_GetState. destruct (so_cachedStorage o !! key) as [v|] eqn:Ec.
  { exists o. by repeat split. }
  assert (G : exists t o1, so_getTrie db o = Ok (t, o1) /\ tr_holds db t ms /\ so_cachedStorage o1 = so_cachedStorage o /\
    so_address o1 = so_address o /\ so_data o1 = so_data o /\ so_suicided o1 = so_suicided o /\
    so_deleted o1 = so_deleted o /\ so_code o1 = so_code o).
  { unfold so_getTrie, strep in *. destruct (so_trie o) as [t|].
    - by exists t, o.
    - destruct R as (t & -> & Rt). by eexists t, _. }
  destruct G as (t & o1 & -> & Rt & C1 & A1 & D1 & S1 & De1 & Co1). cbn [mbind outcome_bind].
  destruct (tr_get_law db t ms key Rt) as (t' & -> & Rt').
  cbn [default]. change (from_option id ?d None) with d.
  assert (W : exists o2, (match ms !! tr_key key with
      | Some (b :: enc) => match Split (b :: enc) with
          | Ok (_, content, _) => Ok (Hash_SetBytes (zeros HashLength) content, obj_trie (Some t') o1)
          | Err e => Ok (zeros HashLength, obj_setError (Some (StorageSplitErr e)) (obj_trie (Some t') o1))
          | Panic => Panic | OutOfFuel => OutOfFuel end
      | _ => Ok (zeros HashLength, obj_trie (Some t') o1) end : outcome unit (bytes * stateObject)) = Ok (slot_word (ms !! tr_key key), o2) /\
      so_trie o2 = Some t' /\ so_cachedStorage o2 = so_cachedStorage o /\ so_address o2 = so_address o /\ so_data o2 = so_data o /\
      so_suicided o2 = so_suicided o /\ so_deleted o2 = so_deleted o /\ so_code o2 = so_code o).
  { unfold slot_word. destruct (ms !! tr_key key) as [[|b e]|] eqn:Em; [by eexists|..|by eexists].
    pose proof (V _ _ Em) as Sv. unfold slot_value in Sv. destruct (Split (b :: e)) as [[[? ?] ?]|er| |]; try done; [by eexists|].
    eexists. split; [reflexivity|]. unfold obj_setError. by destruct (so_dbErr _). }
  destruct W as (o2 & -> & Et2 & C2 & A2 & D2 & S2 & De2 & Co2). cbn [mbind outcome_bind].
  set (w := slot_word (ms !! tr_key key)). exists (if EmptyHash w then o2 else obj_storage (<[key := w]> (so_cachedStorage o2)) (so_dirtyStorage o2) o2).
  split; [done|]. destruct (EmptyHash w).
  - repeat split; try done; [unfold strep; by rewrite Et2|]. intros k. by rewrite C2.
  - repeat split; try done; [unfold strep; cbn; by rewrite Et2|]. intros k. cbn. rewrite C2, lookup_insert.
    case_decide as Dk; [|done]. subst k. by rewrite Ec.
Qed.

Lemma sval_slots db o ms key :
  slots_ok db o ms -> sval db o key = Some (default (slot_word (ms !! tr_key key)) (so_cachedStorage o !! key)).
Proof. intros H. unfold sval. destruct (so_GetState_spec db o ms key H) as (o' & -> & _). done. Qed.

Lemma so_SetState_reversible m a key v o s :
  wf m s -> trie_ok (cd_db (s_db s)) m -> stateObjects s !! a = Some o -> so_deleted o = false ->
  exists s', so_SetState key v o s = Ok s' /\ reversible m s s'.
Proof.
  intros W T E D. pose proof (wf_objects _ _ W a o E) as Ho. destruct Ho as (A & Dm & (ms & Sl) & Lc).
  destruct (so_GetState_spec _ o ms key Sl) as (o1 & Eg & Sl1 & A1 & D1 & S1 & De1 & Co1 & C1).
  unfold so_SetState. rewrite Eg. cbn [mbind outcome_bind]. eexists. split; [reflexivity|].
  set (prev := default _ _). rewrite A1, A.
  apply (reversible_put m s a o (put_slot key v o1) (storageChange a key prev) (put_slot key prev)); try done.
  - by apply live_oview.
  - split; [cbn; congruence|]. split; [cbn; by rewrite De1|]. split; [|cbn; by rewrite D1]. exists ms. exact Sl1.
  - cbn. congruence.
  - intros t o' t' Et. cbn [undo]. unfold undo_object. by rewrite Et.
  - apply setter_state.
  - repeat split; cbn; try congruence.
    + rewrite !so_Code_view. cbn. congruence.
    + intros k. rewrite !sval_put_slot, (sval_slots _ o ms), (sval_slots _ o1 ms) by done.
      case_decide as Dk; [by subst k|]. by rewrite C1.
Qed.

Lemma Suicide_reversible m a s :
  wf m s -> trie_ok (cd_db (s_db s)) m ->
  exists s', Suicide a s = Ok (bool_decide (is_Some (oview m s a)), s') /\ reversible m s s'.
Proof.
  intros W T. unfold Suicide. destruct (getStateObject_spec m s a W T) as (t & -> & L). cbn [mbind outcome_bind].
  pose proof (reversible_loaded _ _ _ _ L) as R. destruct (oview m s a) as [o|] eqn:V; cbn; [|by exists t].
  destruct (oview_ok _ _ _ _ W T V) as [Ho D]. pose proof R as (Wt & Ed & _). eexists. split; [reflexivity|].
  eapply reversible_trans; [exact T|exact R|].
  set (o1 := obj_data (acc_balance 0 (so_data o)) (obj_flags true (so_touched o) (so_deleted o) (so_onDirty o) o)).
  match goal with |- reversible m t ?s' => assert (Es : s' = put_dirty o1 (append_journal (suicideChange a (so_suicided o) (Balance (so_data o))) t)) end.
  { unfold put_dirty, o1. cbn. by destruct (so_onDirty o). }
  rewrite Es. assert (T1 : trie_ok (cd_db (s_db t)) m) by (by rewrite Ed).
  destruct L as (_&_&_&_&_&_&_&_&_&_&_&_&_&Lv&_).
  apply (reversible_put m t a o o1 _ (fun o1 => obj_data (acc_balance (Balance (so_data o)) (so_data o1))
      (obj_flags (so_suicided o) (so_touched o1) (so_deleted o1) (so_onDirty o1) o1))); try done.
  - by rewrite Lv.
  - rewrite Ed. eapply object_ok_fields; [..|exact Ho]; try done. apply Ho.
  - intros u o' u' Eu. cbn [undo]. by rewrite Eu.
  - apply setter_suicide.
  - apply oeq_fields; try done. cbn. by destruct (so_data o).
Qed.

(** ** Lemmas: the other entries *)

Lemma AddRefund_reversible m g s : wf m s -> reversible m s (AddRefund g s).
Proof.
  intros W. apply (reversible_entry m s _ (refundChange (refund s))); try done; [by apply (wf_same m s)|].
  eexists. split; [reflexivity|]. split; [by split|by apply (wf_same m s)].
Qed.

Lemma AddPreimage_reversible m h p s : wf m s -> reversible m s (AddPreimage h p s).
Proof.
  intros W. unfold AddPreimage. destruct (preimages s !! h) eqn:E; [by apply reversible_refl|].
  apply (reversible_entry m s _ (addPreimageChange h)); try done; [by apply (wf_same m s)|].
  eexists. split; [reflexivity|]. split; [|by apply (wf_same m s)]. split; try done. cbn. by rewrite delete_insert_id.
Qed.

Lemma AddLog_reversible m l s : wf m s -> reversible m s (AddLog l s).
Proof.
  intros W. unfold AddLog. cbn [thash append_journal set_journal logs logSize].
  set (x := mkLog _ _ _ _ _ _ _ _ _). set (old := default [] (logs s !! thash s)).
  apply (reversible_entry m s _ (addLogChange (thash s))); try done; [by apply (wf_same m s)|].
  cbn [undo logs set_logs]. rewrite lookup_insert_eq. change (default [] (Some (old ++ [x]))) with (old ++ [x]).
  assert (Et : take (length (old ++ [x]) - 1) (old ++ [x]) = old).
  { rewrite length_app. cbn [length]. rewrite take_app_le by lia. apply take_ge. lia. }
  destruct (old ++ [x]) as [|y [|z zs]] eqn:Ea; [by destruct old|..];
    (eexists; split; [reflexivity|]; split; [|by apply (wf_same m s)]); split; try done; cbn [logSize set_logs]; try lia;
    intros h; unfold GetLogs; cbn [logs set_logs append_journal set_journal].
  - rewrite delete_insert_eq, lookup_delete. case_decide; [|done]. subst h. fold old. by rewrite <- Et.
  - rewrite insert_insert_eq, Et, lookup_insert. case_decide; [|done]. by subst h.
Qed.

Lemma Snapshot_reversible m s : wf m s -> reversible m s (snd (Snapshot s)).
Proof.
  intros W. split; [by apply (wf_same m s)|]. split; [done|]. split.
  { eexists. split; [reflexivity|]. repeat constructor. cbn. lia. }
  split; [cbn; lia|]. exists []. split; [done|]. split; [done|]. eexists. split; [reflexivity|].
  split; [by split|by apply (wf_same m s)].
Qed.


(** ** Sequences of operations *)

(** The operations that write the journal, and [Snapshot]. *)
Inductive op : Type :=
  | opAddBalance (a : bytes) (v : Z) | opSubBalance (a : bytes) (v : Z) | opSetBalance (a : bytes) (v : Z)
  | opSubContribution (a : bytes) (v : Z) | opSetNonce (a : bytes) (v : Z) | opSetRecords (a : bytes) (r : list bytes)
  | opSetCode (a : bytes) (c : option bytes) | opSetState (a key value : bytes) | opSuicide (a : bytes)
  | opCreateAccount (a : bytes) | opAddRefund (v : Z) | opAddLog (l : Log) | opAddPreimage (h p : bytes) | opSnapshot.

Definition apply_op (o : op) (s : StateDB) : outcome unit StateDB :=
  match o with
  | opAddBalance a v => AddBalance a v s
  | opSubBalance a v => SubBalance a v s
  | opSetBalance a v => SetBalance a v s
  | opSubContribution a v => SubContribution a v s
  | opSetNonce a v => SetNonce a v s
  | opSetRecords a r => SetRecords a r s
  | opSetCode a c => SetCode a c s
  | opSetState a k v => SetState a k v s
  | opSuicide a => '(_, s) ← Suicide a s; Ok s
  | opCreateAccount a => CreateAccount a s
  | opAddRefund v => Ok (AddRefund v s)
  | opAddLog l => Ok (AddLog l s)
  | opAddPreimage h p => Ok (AddPreimage h p s)
  | opSnapshot => Ok (snd (Snapshot s))
  end.

Fixpoint apply_ops (l : list op) (s : StateDB) : outcome unit StateDB :=
  match l with
  | [] => Ok s
  | o :: l => s ← apply_op o s; apply_ops l s
  end.

Lemma apply_op_reversible m o s :
  wf m s -> trie_ok (cd_db (s_db s)) m -> exists s', apply_op o s = Ok s' /\ reversible m s s'.
Proof.
  intros W T. destruct o as [a v|a v|a v|a v|a v|a r|a c|a k v|a|a|v|l|h p|]; cbn [apply_op].
  - apply with_object_reversible; [done..|]. intros. by eapply so_AddBalance_reversible.
  - apply with_object_reversible; [done..|]. intros. unfold so_SubBalance. case_match; [by apply reversible_refl|by eapply so_SetBalance_reversible].
  - apply with_object_reversible; [done..|]. intros. by eapply so_SetBalance_reversible.
  - apply with_object_reversible; [done..|]. intros. unfold so_SubContribution. case_match; [by apply reversible_refl|by eapply so_SetContribution_reversible].
  - apply with_object_reversible; [done..|]. intros. by eapply so_SetNonce_reversible.
  - apply with_object_reversible; [done..|]. intros. by eapply so_SetRecords_reversible.
  - apply with_object_reversible; [done..|]. intros. eapply so_SetCode_reversible; [apply len_keccak|done..].
  - unfold SetState. destruct (GetOrNew_reversible m a s W T) as (o & t & -> & R & Eo & D). cbn [mbind outcome_bind].
    pose proof R as (Wt & Ed & _). destruct (so_SetState_reversible m a k v o t Wt) as (s' & -> & R'); [by rewrite Ed|done..|].
    exists s'. split; [done|]. by eapply reversible_trans.
  - destruct (Suicide_reversible m a s W T) as (s' & -> & R). by exists s'.
  - by apply CreateAccount_reversible.
  - eexists. split; [done|]. by apply AddRefund_reversible.
  - eexists. split; [done|]. by apply AddLog_reversible.
  - eexists. split; [done|]. by apply AddPreimage_reversible.
  - eexists. split; [done|]. by apply Snapshot_reversible.
Qed.

Lemma apply_ops_reversible m l : forall s,
  wf m s -> trie_ok (cd_db (s_db s)) m -> exists s', apply_ops l s = Ok s' /\ reversible m s s'.
Proof.
  induction l as [|o l IH]; intros s W T; [exists s; split; [done|by apply reversible_refl]|]. cbn [apply_ops].
  destruct (apply_op_reversible m o s W T) as (t & -> & R). cbn [mbind outcome_bind]. pose proof R as (Wt & Ed & _).
  destruct (IH t Wt) as (s' & -> & R'); [by rewrite Ed|]. exists s'. split; [done|]. by eapply reversible_trans.
Qed.

(** The revisions are those of earlier snapshots. *)
Definition revisions_ok (s : StateDB) : Prop := Forall (fun r => rev_id r < nextRevisionId s) (validRevisions s).

Lemma revision_index_skip id l r l' :
  Forall (fun r => rev_id r < id) l -> rev_id r = id -> revision_index id (l ++ r :: l') = length l.
Proof.
  intros F E. induction F as [|x l Hx _ IH]; cbn.
  - rewrite E. by rewrite (proj2 (Z.leb_le id id)) by lia.
  - rewrite (proj2 (Z.leb_gt _ _)) by done. by rewrite IH.
Qed.

(** Reverting to a snapshot undoes the entries made since. *)
Lemma RevertToSnapshot_eq s s2 es x :
  revisions_ok s -> validRevisions s2 = validRevisions (snd (Snapshot s)) ++ x -> journal s2 = es ++ journal s ->
  RevertToSnapshot (fst (Snapshot s)) s2 =
    (u ← undo_all es s2; Ok (set_revisions (validRevisions s) (nextRevisionId u) (set_journal (journal s) u))).
Proof.
  intros Ro V J. cbn in V. unfold RevertToSnapshot. cbn [fst Snapshot]. rewrite V, <- app_assoc. cbn [app].
  rewrite revision_index_skip by done.
  rewrite lookup_app_r, Nat.sub_diag by lia. cbn [lookup list_lookup rev_id rev_journalIndex].
  by rewrite Z.eqb_refl, J, length_app, Nat.add_sub, !take_app_length, drop_app_length.
Qed.

Lemma RevertToSnapshot_reversible m s s2 :
  revisions_ok s -> reversible m (snd (Snapshot s)) s2 ->
  exists s3, RevertToSnapshot (fst (Snapshot s)) s2 = Ok s3 /\ seq m s3 s /\ wf m s3 /\
    journal s3 = journal s /\ validRevisions s3 = validRevisions s.
Proof.
  intros Ro (W & D & (x & V & X) & N & es & J & F & t & U & Sq & Wt).
  rewrite (RevertToSnapshot_eq s s2 es x Ro V J), U. cbn [mbind outcome_bind].
  eexists. split; [reflexivity|]. split; [|split; [by apply (wf_same m t)|done]].
  destruct Sq. by split.
Qed.

(** ** Reads *)

Definition answer {A} (r : outcome unit (A * StateDB)) : option A := match r with Ok (a, _) => Some a | _ => None end.

(** Every read of one state succeeds and gives what it gives in the other. *)
Record same_reads (s1 s2 : StateDB) : Prop := mkSameReads {
  reads_exist a : exists r, answer (Exist a s1) = Some r /\ answer (Exist a s2) = Some r;
  reads_empty a : exists r, answer (Empty a s1) = Some r /\ answer (Empty a s2) = Some r;
  reads_balance a : exists r, answer (GetBalance a s1) = Some r /\ answer (GetBalance a s2) = Some r;
  reads_contribution a : exists r, answer (GetContribution a s1) = Some r /\ answer (GetContribution a s2) = Some r;
  reads_nonce a : exists r, answer (GetNonce a s1) = Some r /\ answer (GetNonce a s2) = Some r;
  reads_records a : exists r, answer (GetRecords a s1) = Some r /\ answer (GetRecords a s2) = Some r;
  reads_code a : exists r, answer (GetCode a s1) = Some r /\ answer (GetCode a s2) = Some r;
  reads_codeHash a : exists r, answer (GetCodeHash a s1) = Some r /\ answer (GetCodeHash a s2) = Some r;
  reads_suicided a : exists r, answer (HasSuicided a s1) = Some r /\ answer (HasSuicided a s2) = Some r;
  reads_state a key : exists r, answer (GetState a key s1) = Some r /\ answer (GetState a key s2) = Some r;
  reads_refund : refund s1 = refund s2;
  reads_logs h : GetLogs h s1 = GetLogs h s2;
  reads_logSize : logSize s1 = logSize s2;
  reads_preimages : preimages s1 = preimages s2
}.

Lemma read_object_seq {A} (f : stateObject -> A) d m s1 s2 a :
  seq m s1 s2 -> wf m s1 -> wf m s2 -> trie_ok (cd_db (s_db s1)) m ->
  (forall o1 o2, oeq (cd_db (s_db s1)) o1 o2 -> f o1 = f o2) ->
  exists r, answer (read_object f d a s1) = Some r /\ answer (read_object f d a s2) = Some r.
Proof.
  intros Sq W1 W2 T Pf. assert (T2 : trie_ok (cd_db (s_db s2)) m) by (by rewrite <- (seq_db _ _ _ Sq)).
  unfold read_object. destruct (getStateObject_spec m s1 a W1 T) as (t1 & -> & _), (getStateObject_spec m s2 a W2 T2) as (t2 & -> & _).
  cbn. eexists. split; [reflexivity|]. pose proof (seq_objects _ _ _ Sq a) as O.
  destruct (oview m s1 a), (oview m s2 a); try done. by rewrite (Pf _ _ O).
Qed.

Lemma GetCode_seq m s1 s2 a :
  seq m s1 s2 -> wf m s1 -> wf m s2 -> trie_ok (cd_db (s_db s1)) m ->
  exists r, answer (GetCode a s1) = Some r /\ answer (GetCode a s2) = Some r.
Proof.
  intros Sq W1 W2 T. assert (T2 : trie_ok (cd_db (s_db s2)) m) by (by rewrite <- (seq_db _ _ _ Sq)).
  unfold GetCode. destruct (getStateObject_spec m s1 a W1 T) as (t1 & -> & L1), (getStateObject_spec m s2 a W2 T2) as (t2 & -> & L2).
  cbn [mbind outcome_bind]. pose proof (seq_objects _ _ _ Sq a) as O. pose proof (seq_db _ _ _ Sq) as Ed.
  pose proof (proj1 (frame_loaded _ _ _ _ L1)) as E1. pose proof (proj1 (frame_loaded _ _ _ _ L2)) as E2.
  destruct (oview m s1 a) as [o1|], (oview m s2 a) as [o2|]; try done; [|by exists None].
  destruct O as (_ & _ & _ & _ & C & _). rewrite E1, E2, <- Ed.
  destruct (so_Code _ o1) as [c1 ?], (so_Code _ o2) as [c2 ?]. cbn in *. subst c2. by exists c1.
Qed.

Lemma GetState_seq m s1 s2 a key :
  seq m s1 s2 -> wf m s1 -> wf m s2 -> trie_ok (cd_db (s_db s1)) m ->
  exists r, answer (GetState a key s1) = Some r /\ answer (GetState a key s2) = Some r.
Proof.
  intros Sq W1 W2 T. assert (T2 : trie_ok (cd_db (s_db s2)) m) by (by rewrite <- (seq_db _ _ _ Sq)).
  unfold GetState. destruct (getStateObject_spec m s1 a W1 T) as (t1 & -> & L1), (getStateObject_spec m s2 a W2 T2) as (t2 & -> & L2).
  cbn [mbind outcome_bind]. pose proof (seq_objects _ _ _ Sq a) as O. pose proof (seq_db _ _ _ Sq) as Ed.
  pose proof (proj1 (frame_loaded _ _ _ _ L1)) as E1. pose proof (proj1 (frame_loaded _ _ _ _ L2)) as E2.
  destruct (oview m s1 a) as [o1|] eqn:V1, (oview m s2 a) as [o2|]; try done; [|by eexists].
  destruct O as (_ & _ & _ & _ & _ & V). specialize (V key). rewrite E1, E2, <- Ed. unfold sval in V.
  destruct (oview_ok _ _ _ _ W1 T V1) as [(_ & _ & (ms & Sl) & _) _].
  destruct (so_GetState_spec _ o1 ms key Sl) as (o' & Eg & _). rewrite Eg in V |- *.
  destruct (so_GetState _ _ o2) as [[v2 ?]| | |]; try done. injection V as <-. by eexists.
Qed.

Lemma seq_reads m s1 s2 :
  seq m s1 s2 -> wf m s1 -> wf m s2 -> trie_ok (cd_db (s_db s1)) m -> same_reads s1 s2.
Proof.
  intros Sq W1 W2 T. split; intros; try (eapply read_object_seq; [done..|]); try apply Sq.
  all: try (by intros o1 o2 (? & Ed & ? & ?); unfold so_empty; rewrite ?Ed).
  all: try (by eapply GetCode_seq); try (by eapply GetState_seq).
Qed.


(** ** Lemmas: what the operations write *)

Lemma live_read {A} (f : stateObject -> A) d m s a o :
  wf m s -> trie_ok (cd_db (s_db s)) m -> oview m s a = Some o -> answer (read_object f d a s) = Some (f o).
Proof.
  intros W T V. unfold read_object. destruct (getStateObject_spec m s a W T) as (t & -> & _). by rewrite V.
Qed.

Lemma GetOrNew_live m s a o :
  wf m s -> trie_ok (cd_db (s_db s)) m -> oview m s a = Some o ->
  exists s', GetOrNewStateObject a s = Ok (o, s') /\ loaded_state m a s s'.
Proof.
  intros W T V. unfold GetOrNewStateObject. destruct (getStateObject_spec m s a W T) as (t & -> & L). rewrite V. by exists t.
Qed.

(** A write of the data of an object that keeps its roots, without the journal. *)
Lemma put_data_wf m s a o h :
  wf m s -> object_ok (cd_db (s_db s)) m a o -> keeps_roots h -> wf m (put_dirty (obj_data (h (so_data o)) o) s).
Proof.
  intros W Ho K. assert (A : so_address o = a) by apply Ho. apply wf_put_dirty; [done|]. cbn. rewrite A.
  destruct (K (so_data o)) as [Kr Kc]. eapply object_ok_fields; [..|exact Ho]; try done. cbn. rewrite Kc. apply Ho.
Qed.

(** ** Properties *)

(** C16. A snapshot is restored by [RevertToSnapshot] whatever journalled operations follow it:
    the operations succeed, the revert succeeds, every read gives what it gave when the
    snapshot was taken, and the journal and the revisions are those of that moment. *)
Theorem revert_restores_reads m s l :
  wf m s -> trie_ok (cd_db (s_db s)) m -> revisions_ok s ->
  exists s2 s3, apply_ops l (snd (Snapshot s)) = Ok s2 /\ RevertToSnapshot (fst (Snapshot s)) s2 = Ok s3 /\
    same_reads s3 s /\ wf m s3 /\ journal s3 = journal s /\ validRevisions s3 = validRevisions s.
Proof.
  intros W T R. assert (W1 : wf m (snd (Snapshot s))) by (by apply (wf_same m s)).
  destruct (apply_ops_reversible m l _ W1 T) as (s2 & E & Rv).
  destruct (RevertToSnapshot_reversible m s s2 R Rv) as (s3 & E3 & Sq & W3 & J & V).
  exists s2, s3. split; [done|]. split; [done|]. split; [|done].
  apply (seq_reads m); try done. by rewrite (seq_db _ _ _ Sq).
Qed.

(** [AddContribution] writes no journal entry: after a snapshot, an addition to an
    account that exists and a revert, the account keeps the contribution it was given. *)
Theorem AddContribution_survives_revert m s a o v :
  wf m s -> trie_ok (cd_db (s_db s)) m -> revisions_ok s -> oview m s a = Some o -> v <> 0 ->
  exists s2 s3, AddContribution a v (snd (Snapshot s)) = Ok s2 /\ RevertToSnapshot (fst (Snapshot s)) s2 = Ok s3 /\
    answer (GetContribution a s) = Some (Contribution (so_data o)) /\
    answer (GetContribution a s3) = Some (Contribution (so_data o) + v).
Proof.
  intros W T R V Nz. set (s1 := snd (Snapshot s)). assert (W1 : wf m s1) by (by apply (wf_same m s)).
  destruct (GetOrNew_live m s1 a o W1 T V) as (t & E & L). pose proof (frame_loaded _ _ _ _ L) as Ft. pose proof (proj1 Ft) as Ed.
  unfold AddContribution, with_object. rewrite E. cbn [mbind outcome_bind]. unfold so_AddContribution, so_setContribution.
  rewrite (proj2 (Z.eqb_neq v 0)) by done. set (h := acc_contribution (Contribution (so_data o) + v)).
  change (acc_contribution (Contribution (so_data o) + v) (so_data o)) with (h (so_data o)).
  destruct (oview_ok _ _ _ _ W T V) as [Ho D]. set (s2 := put_dirty (obj_data (h (so_data o)) o) t).
  assert (W2 : wf m s2) by (eapply put_data_wf; [apply L|rewrite Ed; exact Ho|done]).
  assert (Ej : journal s2 = journal s).
  { unfold s2. rewrite journal_put_dirty. destruct L as (_&_&_&_&_&_&_&_&_&_&Ej&_). by rewrite Ej. }
  assert (Ev : validRevisions s2 = validRevisions s1).
  { etrans; [apply frame_put_dirty|]. apply Ft. }
  assert (Er : RevertToSnapshot (fst (Snapshot s)) s2 = Ok (set_revisions (validRevisions s) (nextRevisionId s2) (set_journal (journal s) s2))).
  { apply (RevertToSnapshot_eq s s2 [] []); [done|by rewrite app_nil_r|done]. }
  eexists s2, _. split; [done|]. split; [exact Er|].
  split; [exact (live_read (fun o => Contribution (so_data o)) 0 m s a o W T V)|].
  set (o2 := obj_data (h (so_data o)) o). set (s3 := set_revisions _ _ _).
  assert (V3 : oview m s3 a = Some (undirty o2)).
  { change (oview m s2 a = Some (undirty o2)). unfold s2. rewrite view_insert by done.
    by rewrite decide_True by (symmetry; apply Ho). }
  assert (T3 : trie_ok (cd_db (s_db s3)) m).
  { change (trie_ok (cd_db (s_db s2)) m). unfold s2. rewrite put_dirty_db, Ed. exact T. }
  etrans; [exact (live_read (fun o => Contribution (so_data o)) 0 m s3 a (undirty o2) (wf_same m s2 s3 W2 eq_refl eq_refl eq_refl) T3 V3)|].
  destruct (undirty_fields o2) as (_ & -> & _). done.
Qed.

(** Reverting a touch takes the dirty mark of the object away but not the note that it was
    marked: after a snapshot, an addition of zero to an empty account of the trie and a
    revert, an addition of [v] is seen by reads, yet the object is not dirty, and
    [Finalise] leaves the trie as it was. *)
Theorem touch_revert_drops_update m s a o v d :
  wf m s -> trie_ok (cd_db (s_db s)) m -> revisions_ok s -> stateObjectsDirty s = ∅ ->
  oview m s a = Some o -> so_onDirty o = true -> so_touched o = false -> so_empty o = true -> a <> ripemd -> v <> 0 ->
  exists s2 s3 s4 s5, AddBalance a 0 (snd (Snapshot s)) = Ok s2 /\ RevertToSnapshot (fst (Snapshot s)) s2 = Ok s3 /\
    AddBalance a v s3 = Ok s4 /\ answer (GetBalance a s4) = Some (Balance (so_data o) + v) /\
    Finalise d s4 = Ok s5 /\ tr_holds (cd_db (s_db s5)) (s_trie s5) m.
Proof.
  intros W T R Ed V On To Em Nr Nz. set (s1 := snd (Snapshot s)). assert (W1 : wf m s1) by (by apply (wf_same m s)).
  destruct (GetOrNew_live m s1 a o W1 T V) as (t & E & L). destruct (oview_ok _ _ _ _ W T V) as [Ho De].
  assert (A : so_address o = a) by apply Ho.
  destruct L as (Wt & Edb & Edt & _ & _ & _ & _ & _ & _ & _ & Ej & Ev & En & _ & Lo). specialize (Lo o V).
  unfold AddBalance, with_object. rewrite E. cbn [mbind outcome_bind]. unfold so_AddBalance at 1. cbn [Z.eqb]. rewrite Em.
  set (s2 := so_touch o t).
  set (o2 := obj_flags (so_suicided o) true (so_deleted o) false o).
  set (o3 := obj_flags (so_suicided o) false (so_deleted o) false o).
  set (u := set_dirty (stateObjectsDirty (setStateObject o3 s2) ∖ {[a]}) (setStateObject o3 s2)).
  set (s3 := set_revisions (validRevisions s) (nextRevisionId u) (set_journal (journal s) u)).
  assert (L2 : stateObjects s2 !! a = Some o2).
  { unfold s2, so_touch. rewrite On. cbn. rewrite A. apply lookup_insert_eq. }
  assert (Er : RevertToSnapshot (fst (Snapshot s)) s2 = Ok s3).
  { rewrite (RevertToSnapshot_eq s s2 [touchChange a false false] []); [|done|..].
    - cbn [undo_all undo negb]. rewrite bool_decide_false by done. cbn [andb negb]. unfold undo_object, getStateObject at 1.
      rewrite L2. cbn [mbind outcome_bind so_deleted o2 obj_flags]. by rewrite De.
    - rewrite app_nil_r. unfold s2, so_touch. by rewrite On.
    - unfold s2, so_touch. rewrite On, To, A. cbn. by rewrite Ej. }
  assert (L3 : stateObjects s3 !! a = Some o3).
  { change (stateObjects (setStateObject o3 s2) !! a = Some o3). unfold setStateObject. cbn. rewrite A. apply lookup_insert_eq. }
  assert (D3 : stateObjectsDirty s3 = ∅).
  { change (stateObjectsDirty s2 ∖ {[a]} = ∅). unfold s2, so_touch. rewrite On, A. cbn. rewrite Edt.
    change (stateObjectsDirty s1) with (stateObjectsDirty s). rewrite Ed.
    by rewrite union_empty_r_L, difference_diag_L. }
  set (s4 := so_AddBalance v o3 s3). exists s2, s3, s4, (clearJournalAndRefund s4).
  split; [done|]. split; [done|]. split.
  { unfold GetOrNewStateObject, getStateObject. rewrite L3. cbn [mbind outcome_bind so_deleted o3 obj_flags]. by rewrite De. }
  unfold s4, so_AddBalance. rewrite (proj2 (Z.eqb_neq v 0)) by done.
  unfold so_SetBalance, so_setBalance, put_dirty. cbn [so_onDirty obj_data o3 obj_flags]. set (o4 := obj_data _ _). set (s4' := setStateObject o4 _).
  assert (D4 : stateObjectsDirty s4' = ∅) by exact D3. split.
  - unfold GetBalance, read_object, getStateObject. cbn [s4' setStateObject stateObjects set_objects].
    change (so_address o4) with (so_address o). rewrite A, lookup_insert_eq. cbn. by rewrite De.
  - unfold Finalise. rewrite D4. rewrite elements_empty. cbn [finalise_all mbind outcome_bind]. split; [done|].
    cbn [clearJournalAndRefund set_refund set_revisions set_journal s_db s_trie s4' setStateObject set_objects append_journal].
    assert (s_db s3 = s_db t /\ s_trie s3 = s_trie t) as [-> ->] by (unfold s3, u, s2, so_touch; by rewrite On). apply Wt.
Qed.

Lemma record_index_neg r l k : r ∉ l -> record_index r l k = -1.
Proof.
  revert k. induction l as [|x l IH]; intros k N; [done|]. apply not_elem_of_cons in N as [N1 N2]. cbn.
  rewrite bool_decide_false by congruence. by apply IH.
Qed.

Lemma record_index_app r l1 l2 k : r ∉ l1 -> record_index r (l1 ++ r :: l2) k = k + Z.of_nat (length l1).
Proof.
  revert k. induction l1 as [|x l1 IH]; intros k N; cbn.
  - rewrite bool_decide_true by done. lia.
  - apply not_elem_of_cons in N as [N1 N2]. rewrite bool_decide_false by congruence. rewrite IH by done. lia.
Qed.

(** [RemoveRecords] on an account that exists removes the first occurrence of the record,
    unless that is the first record of the account, which is never removed. *)
Theorem RemoveRecords_keeps_first m s a o r l1 l2 :
  wf m s -> trie_ok (cd_db (s_db s)) m -> oview m s a = Some o ->
  Records (so_data o) = l1 ++ r :: l2 -> r ∉ l1 ->
  exists s', RemoveRecords a r s = Ok s' /\ wf m s' /\
    answer (GetRecords a s') = Some (if decide (l1 = []) then r :: l2 else l1 ++ l2).
Proof.
  intros W T V Er N. destruct (GetOrNew_live m s a o W T V) as (t & E & L).
  pose proof (proj1 (frame_loaded _ _ _ _ L)) as Ed. destruct (oview_ok _ _ _ _ W T V) as [Ho D].
  assert (Tt : trie_ok (cd_db (s_db t)) m) by (by rewrite Ed).
  unfold RemoveRecords, with_object. rewrite E. cbn [mbind outcome_bind]. rewrite Er, record_index_app, Z.add_0_l by done.
  destruct l1 as [|x l1].
  - rewrite decide_True by done. exists t. split; [done|]. split; [apply L|].
    assert (Vt : oview m t a = Some o) by (destruct L as (_&_&_&_&_&_&_&_&_&_&_&_&_&Lv&_); by rewrite Lv).
    etrans; [exact (live_read (fun o => Records (so_data o)) [] m t a o (proj1 L) Tt Vt)|]. cbv beta. by rewrite Er.
  - rewrite decide_False by done. set (n := length (x :: l1)).
    rewrite (proj2 (Z.ltb_lt 0 (Z.of_nat n))) by (unfold n; cbn; lia).
    replace (Z.to_nat (Z.of_nat n + 1)) with (S n) by lia. rewrite Nat2Z.id. unfold n at 1. rewrite take_app_length.
    replace (drop (S n) ((x :: l1) ++ r :: l2)) with l2.
    2: { replace (S n) with (length ((x :: l1) ++ [r])) by (rewrite length_app; cbn; lia).
         change (r :: l2) with ([r] ++ l2). by rewrite app_assoc, drop_app_length. }
    set (h := acc_records ((x :: l1) ++ l2)). unfold so_setRecords. set (o2 := obj_data (h (so_data o)) o).
    change (obj_data (acc_records ((x :: l1) ++ l2) (so_data o)) o) with o2. eexists. split; [reflexivity|].
    assert (W2 : wf m (put_dirty o2 t)) by (eapply put_data_wf; [apply L|rewrite Ed; exact Ho|done]). split; [done|].
    assert (V2 : oview m (put_dirty o2 t) a = Some (undirty o2)).
    { rewrite view_insert by done. by rewrite decide_True by (symmetry; apply Ho). }
    assert (T2 : trie_ok (cd_db (s_db (put_dirty o2 t))) m) by (by rewrite put_dirty_db).
    etrans; [exact (live_read (fun o => Records (so_data o)) [] m _ a (undirty o2) W2 T2 V2)|].
    destruct (undirty_fields o2) as (_ & -> & _). done.
Qed.

End Revert.

(** ** Witnesses *)

#[local] Existing Instance sample_hasher.

Definition sample_addr : bytes := repeat 7 20.
Definition sample_account : Account :=
  mkAccount 0 0 0 [repeat 1 32; repeat 2 32] (zeros HashLength) (keccak256 []).
Definition sample_accounts : gmap bytes bytes := <[tr_key sample_addr := enc_account sample_account]> ∅.

Lemma sample_account_ok : account_ok sample_account.
Proof.
  assert (K : forall x, In x [1; 2] -> is_hash (repeat x 32)).
  { intros x [<-|[<-|[]]]; (split; [done|]); apply Forall_forall; intros y Hy; apply repeat_spec in Hy as ->; unfold byte_ok; lia. }
  split; [cbn; lia|]. split; [cbn; lia|]. split; [cbn; lia|].
  split; [constructor; [apply K; cbn; auto|constructor; [apply K; cbn; auto|constructor]]|].
  split; [done|]. split; [|apply keccak256_hash]. split; [done|]. apply bytes_ok_zeros.
Qed.

Lemma sample_tacct a d : tacct sample_accounts a = Some d -> d = sample_account.
Proof.
  unfold tacct, sample_accounts. rewrite lookup_insert. case_decide; [|done]. cbn [mbind option_bind]. unfold dec_account.
  rewrite dec_enc_account, val_account_val by apply sample_account_ok. by intros [= <-].
Qed.

(** A state whose trie holds one account, which is empty but for its records. *)
Lemma sample_state :
  exists s, wf sample_accounts s /\ trie_ok (cd_db (s_db s)) sample_accounts /\ revisions_ok s /\ stateObjectsDirty s = ∅ /\
    oview sample_accounts s sample_addr = Some (newObject sample_addr sample_account true).
Proof.
  destruct (tr_open_empty ∅ (zeros HashLength) 0) as (t & _ & Ht); [by left|].
  destruct (tr_update_law ∅ t ∅ sample_addr (enc_account sample_account) Ht) as (t' & _ & Ht').
  { apply enc_account_nonempty, sample_account_ok. }
  exists (mkStateDB (mkCachingDB ∅ []) t' ∅ ∅ None 0 (zeros HashLength) (zeros HashLength) 0 ∅ 0 ∅ [] [] 0).
  split; [by split|]. split; [|split; [constructor|split; [done|]]].
  - split.
    + intros k v. unfold sample_accounts. rewrite lookup_insert. case_decide; [|done]. intros [= <-].
      exists sample_account. split; [apply sample_account_ok|done].
    + intros a d Hd. apply sample_tacct in Hd as ->. exists ∅. split; [|done]. apply tr_open_empty. by left.
  - unfold oview, tacct, sample_accounts. cbn [stateObjects]. rewrite lookup_empty, lookup_insert_eq. cbn [mbind option_bind]. unfold dec_account.
    by rewrite dec_enc_account, val_account_val by apply sample_account_ok.
Qed.

(** A code, a nested snapshot, a slot and a suicide are undone. *)
Lemma revert_restores_reads_witness :
  exists s s2 s3,
    apply_ops [opSetCode sample_addr (Some [1; 2]); opSnapshot; opSetState sample_addr (repeat 5 32) (repeat 6 32); opSuicide sample_addr]
      (snd (Snapshot s)) = Ok s2 /\
    RevertToSnapshot (fst (Snapshot s)) s2 = Ok s3 /\ same_reads s3 s.
Proof.
  destruct sample_state as (s & W & T & R & _).
  destruct (revert_restores_reads sample_accounts s
    [opSetCode sample_addr (Some [1; 2]); opSnapshot; opSetState sample_addr (repeat 5 32) (repeat 6 32); opSuicide sample_addr] W T R)
    as (s2 & s3 & E2 & E3 & Rd & _).
  by exists s, s2, s3.
Defined.

Lemma AddContribution_survives_revert_witness :
  exists s s2 s3, AddContribution sample_addr 5 (snd (Snapshot s)) = Ok s2 /\
    RevertToSnapshot (fst (Snapshot s)) s2 = Ok s3 /\
    answer (GetContribution sample_addr s) = Some 0 /\ answer (GetContribution sample_addr s3) = Some 5.
Proof.
  destruct sample_state as (s & W & T & R & _ & V).
  destruct (AddContribution_survives_revert sample_accounts s sample_addr _ 5 W T R V ltac:(lia)) as (s2 & s3 & E).
  by exists s, s2, s3.
Defined.

Lemma touch_revert_drops_update_witness :
  exists s s2 s3 s4 s5, AddBalance sample_addr 0 (snd (Snapshot s)) = Ok s2 /\
    RevertToSnapshot (fst (Snapshot s)) s2 = Ok s3 /\ AddBalance sample_addr 7 s3 = Ok s4 /\
    answer (GetBalance sample_addr s4) = Some 7 /\ Finalise true s4 = Ok s5 /\
    tr_holds (cd_db (s_db s5)) (s_trie s5) sample_accounts.
Proof.
  destruct sample_state as (s & W & T & R & D & V).
  destruct (touch_revert_drops_update sample_accounts s sample_addr _ 7 true W T R D V eq_refl eq_refl)
    as (s2 & s3 & s4 & s5 & E); [by unfold so_empty; cbn; rewrite bool_decide_true|done|lia|].
  by exists s, s2, s3, s4, s5.
Defined.

Lemma RemoveRecords_keeps_first_witness :
  exists s s', RemoveRecords sample_addr (repeat 1 32) s = Ok s' /\
    answer (GetRecords sample_addr s') = Some [repeat 1 32; repeat 2 32].
Proof.
  destruct sample_state as (s & W & T & _ & _ & V).
  destruct (RemoveRecords_keeps_first sample_accounts s sample_addr _ (repeat 1 32) [] [repeat 2 32] W T V) as (s' & E & _ & A);
    [done|apply not_elem_of_nil|].
  by exists s, s'.
Defined.
