(* ===== verification/StateLedger.v ===== *)
(** * Package [core/state]: the ledger

    What the operations of [statedb.go] that a chain without contracts uses do to the
    nonces, balances and contributions of accounts, and that writing the objects into the
    trie keeps them.  The accounts have no storage. *)

From S2P Require Import Prelude Rlp RlpStream TrieEncoding Common Codec Trie TrieModel TrieRefine TrieHash TrieMap SecureTrie StateDB StateRevert.

(** ** Specification *)

Record acct := mkAcct { a_nonce : Z; a_balance : Z; a_contribution : Z }.

Definition zero_acct : acct := mkAcct 0 0 0.

Definition acct_of (d : Account) : acct := mkAcct (Nonce d) (Balance d) (Contribution d).

(** The accounts by address; an account that does not exist is zero. *)
Definition ledger : Type := bytes -> acct.

Definition lset (a : bytes) (x : acct) (L : ledger) : ledger := fun b => if decide (b = a) then x else L b.

Definition plain_root (r : bytes) : Prop := EmptyHash r = true \/ r = emptyRoot.

(** The balances of a set of accounts together. *)
Definition balances (L : ledger) (l : list bytes) : Z := foldr Z.add 0 (map (fun a => a_balance (L a)) l).
Definition supply (A : gset bytes) (L : ledger) : Z := balances L (elements A).

Lemma balances_other L l a x : a ∉ l -> balances (lset a x L) l = balances L l.
Proof.
  unfold balances. induction l as [|b l IH]; intros N; [done|]. apply list.not_elem_of_cons in N as [Nb N]. cbn. rewrite IH by done.
  unfold lset. by rewrite decide_False by congruence.
Qed.

Lemma balances_lset L l a x : NoDup l -> a ∈ l -> balances (lset a x L) l = balances L l - a_balance (L a) + a_balance x.
Proof.
  induction l as [|b l IH]; intros ND Ha; [by apply elem_of_nil in Ha|]. apply list.NoDup_cons in ND as [Nb ND].
  apply list.elem_of_cons in Ha as [->|Ha].
  - pose proof (balances_other L l b x Nb) as E. unfold balances in *. cbn. rewrite E. unfold lset. rewrite decide_True by done. lia.
  - pose proof (IH ND Ha) as E. unfold balances in *. cbn. rewrite E. unfold lset. rewrite decide_False by (intros ->; done). lia.
Qed.

Lemma supply_lset A L a x : a ∈ A -> supply A (lset a x L) = supply A L - a_balance (L a) + a_balance x.
Proof. intros Ha. apply balances_lset; [apply NoDup_elements|by apply elem_of_elements]. Qed.

Lemma balances_ext L L' l : (forall a, a ∈ l -> a_balance (L a) = a_balance (L' a)) -> balances L l = balances L' l.
Proof.
  unfold balances. induction l as [|b l IH]; intros E; [done|]. cbn. rewrite E by (by left). rewrite IH; [done|]. intros a Ha. apply E. by right.
Qed.

Lemma supply_zero A : supply A (fun _ => zero_acct) = 0.
Proof. unfold supply, balances. induction (elements A) as [|a l IH]; [done|]. cbn in *. by rewrite IH. Qed.

Lemma balances_nonneg L l : (forall a, a ∈ l -> 0 <= a_balance (L a)) -> 0 <= balances L l.
Proof.
  unfold balances. induction l as [|b l IH]; intros H; [done|]. cbn. pose proof (H b ltac:(by left)).
  assert (0 <= foldr Z.add 0 (map (fun a => a_balance (L a)) l)) by (apply IH; intros a Ha; apply H; by right). lia.
Qed.

(** No balance exceeds the supply. *)
Lemma balance_supply A L a : (forall b, b ∈ A -> 0 <= a_balance (L b)) -> a ∈ A -> a_balance (L a) <= supply A L.
Proof.
  intros H Ha. pose proof (supply_lset A L a zero_acct Ha) as E. cbn in E.
  assert (0 <= supply A (lset a zero_acct L)); [|lia]. apply balances_nonneg. intros b Hb%elem_of_elements. unfold lset.
  destruct (decide _); [cbn; lia|by apply H].
Qed.

Section Ledger.
Context {HS : Hasher} {ST : StateTrie}.

(** An account without storage, with room for [n] more records. *)
Definition plain (n : Z) (d : Account) : Prop :=
  account_ok d /\ plain_root (Root d) /\ Z.of_nat (length (Records d)) + n < 2 ^ 26.

Definition plain_object (del : bool) (n : Z) (db : database) (o : stateObject) : Prop :=
  plain n (so_data o) /\ so_dirtyStorage o = ∅ /\ strep db o ∅ /\ so_suicided o = false /\
  (so_deleted o = true -> del = true /\ so_empty o = true).

(** The state over a trie that holds [m], for addresses in [A]: objects without storage, the
    dirty ones marked, the others equal to their account in the trie.  [del] says whether
    empty objects are deleted. *)
Record ledger_state (del : bool) (A : gset bytes) (n : Z) (m : gmap bytes bytes) (s : StateDB) : Prop := mkLedgerState {
  ls_wf : wf m s;
  ls_trie : forall k v, m !! k = Some v -> len k = 32 /\ exists d, plain n d /\ v = enc_account d;
  ls_objects : forall a o, stateObjects s !! a = Some o -> a ∈ A /\ plain_object del n (cd_db (s_db s)) o;
  ls_dirty : forall a, a ∈ stateObjectsDirty s -> is_Some (stateObjects s !! a);
  ls_clean : forall a o, stateObjects s !! a = Some o -> a ∉ stateObjectsDirty s ->
    so_onDirty o = true /\ so_deleted o = false /\ tacct m a = Some (so_data o);
  ls_room : 0 <= n < 2 ^ 26
}.

(** The ledger that reads of the state see, and the one in the trie. *)
Definition lview (m : gmap bytes bytes) (s : StateDB) : ledger := fun a =>
  match oview m s a with Some o => acct_of (so_data o) | None => zero_acct end.

Definition tview (m : gmap bytes bytes) : ledger := fun a => match tacct m a with Some d => acct_of d | None => zero_acct end.

(** ** Lemmas: the invariant *)

Lemma plain_mono n n' d : plain n d -> n' <= n -> plain n' d.
Proof. intros (O & P & R) L. split; [done|]. split; [done|lia]. Qed.

Lemma ledger_state_mono del A n n' m s : ledger_state del A n m s -> 0 <= n' <= n -> ledger_state del A n' m s.
Proof.
  intros [W T O D C R] L. split; [done|..|lia]; try done.
  - intros k v E. destruct (T k v E) as (Lk & d & P & ->). split; [done|]. exists d. split; [eapply plain_mono; [done|lia]|done].
  - intros a o E. destruct (O a o E) as (Ia & P & Q). split; [done|]. split; [eapply plain_mono; [done|lia]|done].
Qed.

Lemma tacct_enc m a d : m !! tr_key a = Some (enc_account d) -> account_ok d -> tacct m a = Some d.
Proof.
  intros E O. unfold tacct. rewrite E. cbn [mbind option_bind]. unfold dec_account. by rewrite dec_enc_account, val_account_val.
Qed.

Lemma tacct_none m a : m !! tr_key a = None -> tacct m a = None.
Proof. unfold tacct. by intros ->. Qed.

Lemma tacct_plain del A n m s a d : ledger_state del A n m s -> tacct m a = Some d -> plain n d /\ m !! tr_key a = Some (enc_account d).
Proof.
  intros [W T O D C R] Ed. destruct (m !! tr_key a) as [v|] eqn:E; [|by rewrite tacct_none in Ed].
  destruct (T _ _ E) as (_ & d' & P & ->). rewrite (tacct_enc m a d') in Ed by (done || apply P). by injection Ed as <-.
Qed.

(** What the invariant gives the lemmas on reads. *)
Lemma ledger_trie_ok del A n m s : ledger_state del A n m s -> trie_ok (cd_db (s_db s)) m.
Proof.
  intros H. pose proof H as [W T O D C R]. split.
  - intros k v E. destruct (T k v E) as (_ & d & (Od & _) & ->). by exists d.
  - intros a d Ed. destruct (tacct_plain del A n m s a d) as [(_ & Pr & _) _]; [done..|]. exists ∅. split; [|done].
    apply tr_open_empty. exact Pr.
Qed.

Lemma ledger_small del A n m s : ledger_state del A n m s -> small m.
Proof.
  intros [W T O D C R] k v E. destruct (T k v E) as (Lk & d & (Od & _ & Rd) & ->). split; [lia|]. split.
  - by apply enc_account_bytes.
  - pose proof (enc_account_len d Od). lia.
Qed.

Lemma ledger_journal del A n m s j : ledger_state del A n m s -> ledger_state del A n m (set_journal j s).
Proof. intros [W T O D C R]. by split; [apply wf_journal|..]. Qed.

(** ** Lemmas: looking up objects *)

Lemma getStateObject_objects a s r s' :
  getStateObject a s = Ok (r, s') ->
  (stateObjects s' = stateObjects s \/
   stateObjects s !! a = None /\ exists d, r = Some (newObject a d true) /\ stateObjects s' = <[a := newObject a d true]> (stateObjects s)).
Proof.
  unfold getStateObject. destruct (stateObjects s !! a) as [o|] eqn:E; [intros [= _ <-]; by left|].
  destruct (tr_TryGet _ _ _) as [[[[|b enc]|] t]|e| |]; try done.
  - intros [= _ <-]. by left.
  - destruct (DecodeBytes _ _) as [v|e| |]; try done; [|intros [= _ <-]; by left].
    destruct (val_account v) as [d|]; intros [= <- <-]; [right|by left]. split; [done|]. by exists d.
  - intros [= _ <-]. by left.
  - intros [= _ <-]. left. unfold setError. by destruct (s_dbErr s).
Qed.

Lemma getStateObject_ledger del A n m s a :
  ledger_state del A n m s -> a ∈ A ->
  exists s', getStateObject a s = Ok (oview m s a, s') /\ ledger_state del A n m s' /\ frame s' s /\
    (forall a', oview m s' a' = oview m s a') /\ (forall o, oview m s a = Some o -> stateObjects s' !! a = Some o).
Proof.
  intros H Ha. pose proof H as [W T O D C R]. pose proof (ledger_trie_ok _ _ _ _ _ H) as TO.
  destruct (getStateObject_spec m s a W TO) as (s' & E & L). exists s'. split; [done|].
  pose proof (frame_loaded _ _ _ _ L) as Fr. pose proof (proj1 Fr) as Ed. pose proof L as (W'&_&Edy&_&_&_&_&_&_&_&_&_&_&V&Lo).
  split; [|done]. destruct (getStateObject_objects _ _ _ _ E) as [Eo|(En & d & Er & Eo)].
  - split; rewrite ?Eo, ?Edy, ?Ed; done.
  - assert (Td : tacct m a = Some d).
    { unfold oview in Er. rewrite En in Er. destruct (tacct m a) as [d'|]; [|done]. by injection Er as <-. }
    destruct (tacct_plain _ _ _ _ _ _ _ H Td) as [Pd _].
    split; rewrite ?Eo, ?Edy, ?Ed; try done.
    + intros a' o. rewrite lookup_insert. case_decide as Da; [|apply O]. intros [= <-]. subst a'. split; [done|].
      split; [done|]. split; [done|]. split; [apply tr_open_empty, Pd|done].
    + intros a' Hd. rewrite lookup_insert. case_decide; [done|]. by apply D.
    + intros a' o. rewrite lookup_insert. case_decide as Da; [|apply C]. intros [= <-] _. subst a'. done.
Qed.

Lemma lview_ext m m' s s' a : oview m' s' a = oview m s a -> lview m' s' a = lview m s a.
Proof. unfold lview. by intros ->. Qed.

(** ** Lemmas: writing objects *)

Lemma added_other (a b : bytes) (X : gset bytes) : b ∈ {[a]} ∪ X -> a <> b -> b ∈ X.
Proof. set_solver. Qed.
Lemma not_added (a b : bytes) (X : gset bytes) : b ∉ {[a]} ∪ X -> b <> a /\ b ∉ X.
Proof. set_solver. Qed.

(** Replacing an object that is there, which makes it dirty. *)
Lemma replace_ledger del A n m s s' a o o' :
  ledger_state del A n m s -> stateObjects s !! a = Some o -> s_db s' = s_db s -> s_trie s' = s_trie s ->
  stateObjects s' = <[a := o']> (stateObjects s) ->
  stateObjectsDirty s' = (if so_onDirty o then {[a]} ∪ stateObjectsDirty s else stateObjectsDirty s) ->
  object_ok (cd_db (s_db s)) m a o' -> plain_object del n (cd_db (s_db s)) o' -> so_deleted o' = false ->
  ledger_state del A n m s' /\ forall b, lview m s' b = lset a (acct_of (so_data o')) (lview m s) b.
Proof.
  intros H Eo Edb Etr Eob Edy Ho Po Dl. pose proof H as [W T O D C R]. split.
  - split; rewrite ?Eob, ?Edb, ?Edy; try done.
    + split; rewrite ?Edb, ?Etr; [apply W|]. intros b x. rewrite Eob, lookup_insert. case_decide as Da; [|apply W]. intros [= <-]. by subst b.
    + intros b x. rewrite lookup_insert. case_decide as Da; [|apply O]. intros [= <-]. subst b. split; [by apply (O a o)|done].
    + intros b Hd. rewrite lookup_insert. case_decide as Da; [by eexists|]. apply D. destruct (so_onDirty o); [by eapply added_other|done].
    + intros b x. rewrite lookup_insert. case_decide as Da.
      * subst b. intros _ Nd. destruct (so_onDirty o) eqn:Od; [apply not_added in Nd as [Na _]; by destruct Na|]. destruct (C a o Eo Nd) as (Od' & _). congruence.
      * intros E Nd. apply C; [done|]. destruct (so_onDirty o); [by apply not_added in Nd as [_ Nd]|done].
  - intros b. unfold lset, lview, oview. rewrite Eob, lookup_insert. destruct (decide (b = a)) as [->|N].
    + by rewrite decide_True, Dl by done.
    + by rewrite decide_False by done.
Qed.

(** Replacing the data of an object. *)
Lemma put_account del A n m s a o d :
  ledger_state del A n m s -> stateObjects s !! a = Some o -> so_deleted o = false -> plain n d -> Root d = Root (so_data o) ->
  let s' := put_dirty (obj_data d o) s in
  ledger_state del A n m s' /\ frame s' s /\ forall a', lview m s' a' = lset a (acct_of d) (lview m s) a'.
Proof.
  intros H Eo Dl Pd Er s'. pose proof H as [W T O D C R]. destruct (O a o Eo) as (Ia & Po & Ds & St & Su & _).
  pose proof (wf_objects _ _ W a o Eo) as Ho. assert (Ea : so_address o = a) by apply Ho.
  destruct (undirty_fields (obj_data d o)) as (U1 & U2 & U3 & U4 & U5 & U6 & U7 & U8 & _). cbn in *.
  destruct (replace_ledger del A n m s s' a o (undirty (obj_data d o)) H Eo) as [H' V'].
  - apply put_dirty_db.
  - unfold s', put_dirty. by destruct (so_onDirty _).
  - unfold s'. rewrite put_dirty_objects. cbn. by rewrite Ea.
  - unfold s', put_dirty. cbn. rewrite Ea. by destruct (so_onDirty o).
  - eapply object_ok_fields; [..|exact Ho]; try done; rewrite ?U2; [done|apply Pd].
  - unfold plain_object. rewrite U2, U3, U4, U8, Dl. split; [done|]. split; [done|]. split; [|done].
    unfold strep in *. rewrite U6. cbn. destruct (so_trie o); [done|]. by rewrite U2, Er.
  - by rewrite U4.
  - rewrite U2 in V'. split; [done|]. split; [apply frame_put_dirty|done].
Qed.

Lemma plain_empty n : n < 2 ^ 26 -> plain n (acc_nonce 0 emptyAccount).
Proof.
  intros R. split; [|split; [by left|cbn; lia]]. split; [cbn; lia|]. split; [cbn; lia|]. split; [cbn; lia|].
  split; [constructor|]. split; [cbn; lia|]. split; [split; [done|apply bytes_ok_zeros]|apply keccak256_hash].
Qed.

(** An object for an address without one. *)
Lemma createObject_ledger del A n m s a :
  ledger_state del A n m s -> a ∈ A -> oview m s a = None ->
  exists s', createObject a s = Ok (fresh_object a, None, s') /\ ledger_state del A n m s' /\ frame s' s /\
    stateObjects s' !! a = Some (fresh_object a) /\ forall a', lview m s' a' = lview m s a'.
Proof.
  intros H Ha V. unfold createObject. destruct (getStateObject_ledger del A n m s a H Ha) as (s1 & -> & H1 & F1 & V1 & _).
  rewrite V. cbn [mbind outcome_bind]. eexists. split; [reflexivity|]. pose proof H1 as [W T O D C R].
  split; [|split; [|split]].
  - split; try done.
    + split; [apply W|]. intros a' o. unfold setStateObject. cbn [stateObjects set_objects s_db so_address newObject].
      rewrite lookup_insert. case_decide as Da; [|apply W]. intros [= <-]. subst a'. apply fresh_object_ok.
    + intros a' o. unfold setStateObject. cbn [stateObjects set_objects s_db so_address newObject append_journal set_journal MarkStateObjectDirty set_dirty].
      rewrite lookup_insert. case_decide as Da; [|apply O]. intros [= <-]. subst a'. split; [done|].
      split; [apply plain_empty; lia|]. split; [done|]. split; [apply tr_open_empty; by left|done].
    + intros a'. unfold setStateObject. cbn. intros Hd. rewrite lookup_insert. case_decide as Da; [by eexists|]. apply D. by eapply added_other.
    + intros a' o. unfold setStateObject. cbn. rewrite lookup_insert. intros E Nd. apply not_added in Nd as [Na Nd].
      rewrite decide_False in E by done. by apply C.
  - done.
  - unfold setStateObject. cbn. apply lookup_insert_eq.
  - intros a'. rewrite <- (lview_ext m m s s1 a') by apply V1. unfold lview, oview, setStateObject. cbn. rewrite lookup_insert.
    case_decide as Da; [|done]. subst a'. cbn. specialize (V1 a). rewrite V in V1. unfold oview in V1. by rewrite V1.
Qed.

Lemma GetOrNew_ledger del A n m s a :
  ledger_state del A n m s -> a ∈ A ->
  exists o s', GetOrNewStateObject a s = Ok (o, s') /\ ledger_state del A n m s' /\ frame s' s /\
    stateObjects s' !! a = Some o /\ so_deleted o = false /\ acct_of (so_data o) = lview m s a /\
    forall a', lview m s' a' = lview m s a'.
Proof.
  intros H Ha. unfold GetOrNewStateObject. destruct (getStateObject_ledger del A n m s a H Ha) as (s1 & -> & H1 & F1 & V1 & Lo).
  cbn [mbind outcome_bind]. assert (L1 : forall a', lview m s1 a' = lview m s a') by (intros; by apply lview_ext).
  destruct (oview m s a) as [o|] eqn:V.
  - exists o, s1. split; [done|]. split; [done|]. split; [done|]. split; [by apply Lo|].
    destruct (oview_ok m s a o) as [_ Dl]; [apply H|by eapply ledger_trie_ok|done|]. split; [done|]. split; [|done]. unfold lview. by rewrite V.
  - destruct (createObject_ledger del A n m s1 a H1 Ha) as (s2 & -> & H2 & F2 & E2 & L2); [by rewrite V1|].
    exists (fresh_object a), s2. split; [done|]. split; [done|]. split; [by etrans|]. split; [done|]. split; [done|].
    split; [unfold lview; by rewrite V|]. intros a'. by rewrite L2.
Qed.

(** ** Lemmas: the operations *)

(** The state shows the ledger [L] at the addresses of [A]. *)
Definition lholds (del : bool) (A : gset bytes) (n : Z) (m : gmap bytes bytes) (s : StateDB) (L : ledger) : Prop :=
  ledger_state del A n m s /\ forall a, a ∈ A -> lview m s a = L a.

Lemma lholds_mono del A n n' m s L : lholds del A n m s L -> 0 <= n' <= n -> lholds del A n' m s L.
Proof. intros [H V] Ln. split; [by eapply ledger_state_mono|done]. Qed.

Lemma lholds_ext del A n m s L L' : lholds del A n m s L -> (forall a, a ∈ A -> L a = L' a) -> lholds del A n m s L'.
Proof. intros [H V] E. split; [done|]. intros a Ha. rewrite V, E; done. Qed.

Lemma lset_same a (L : ledger) b : lset a (L a) L b = L b.
Proof. unfold lset. case_decide; [by subst|done]. Qed.

Section Ops.
Context (del : bool) (A : gset bytes) (m : gmap bytes bytes).

(** Setters of the data of an object, with or without an entry in the journal. *)
Lemma with_data_ledger n n' f h a x s L :
  lholds del A n m s L -> a ∈ A -> 0 <= n' <= n ->
  (forall o s, exists j, f o s = put_dirty (obj_data (h (so_data o)) o) (set_journal j s)) ->
  (forall d, plain n d -> acct_of d = L a -> plain n' (h d) /\ Root (h d) = Root d /\ acct_of (h d) = x) ->
  exists s', with_object f a s = Ok s' /\ lholds del A n' m s' (lset a x L) /\ frame s' s.
Proof.
  intros [H V] Ha Ln Ef Eh. unfold with_object. destruct (GetOrNew_ledger del A n m s a H Ha) as (o & s1 & -> & H1 & F1 & Eo & Dl & Ea & V1).
  cbn [mbind outcome_bind]. destruct (Ef o s1) as (j & ->).
  destruct (Eh (so_data o)) as (Pd & Er & Ex); [apply (ls_objects _ _ _ _ _ H1 a o Eo)|by rewrite Ea, V|].
  pose proof (ledger_journal _ _ _ _ _ j (ledger_state_mono _ _ _ n' _ _ H1 Ln)) as H1'.
  destruct (put_account del A n' m (set_journal j s1) a o (h (so_data o)) H1' Eo Dl Pd Er) as (H2 & F2 & V2).
  eexists. split; [reflexivity|]. split; [|by etrans]. split; [done|]. intros b Hb. rewrite V2. unfold lset.
  case_decide; [done|]. change (lview m s1 b = L b). by rewrite V1, V.
Qed.

(** Operations that leave the account as it is. *)
Lemma with_kept_ledger n f a s L :
  lholds del A n m s L -> a ∈ A ->
  (forall o s, ledger_state del A n m s -> stateObjects s !! a = Some o -> so_deleted o = false ->
     ledger_state del A n m (f o s) /\ frame (f o s) s /\ forall b, lview m (f o s) b = lview m s b) ->
  exists s', with_object f a s = Ok s' /\ lholds del A n m s' L /\ frame s' s.
Proof.
  intros [H V] Ha Ef. unfold with_object. destruct (GetOrNew_ledger del A n m s a H Ha) as (o & s1 & -> & H1 & F1 & Eo & Dl & Ea & V1).
  cbn [mbind outcome_bind]. destruct (Ef o s1 H1 Eo Dl) as (H2 & F2 & V2). exists (f o s1). split; [done|]. split; [|by etrans].
  split; [done|]. intros b Hb. by rewrite V2, V1, V.
Qed.

Lemma touch_ledger n a o s :
  ledger_state del A n m s -> stateObjects s !! a = Some o -> so_deleted o = false ->
  ledger_state del A n m (so_touch o s) /\ frame (so_touch o s) s /\ forall b, lview m (so_touch o s) b = lview m s b.
Proof.
  intros H Eo Dl. pose proof H as [W T O D C R]. destruct (O a o Eo) as (Ia & Po & Ds & St & Su & Em).
  pose proof (wf_objects _ _ W a o Eo) as Ho. assert (Ea : so_address o = a) by apply Ho.
  destruct (replace_ledger del A n m s (so_touch o s) a o (obj_flags (so_suicided o) true (so_deleted o) false o) H Eo) as [H' V'].
  - unfold so_touch. by destruct (so_onDirty o).
  - unfold so_touch. by destruct (so_onDirty o).
  - unfold so_touch, setStateObject. cbn. rewrite Ea. by destruct (so_onDirty o).
  - unfold so_touch. cbn. rewrite Ea. by destruct (so_onDirty o).
  - eapply object_ok_fields; [..|exact Ho]; try done. apply Ho.
  - done.
  - done.
  - split; [done|]. split; [unfold so_touch; by destruct (so_onDirty o)|]. intros b. rewrite V'. cbn.
    rewrite <- (lset_same a (lview m s) b). unfold lset. case_decide; [|done]. unfold lview, oview. by rewrite Eo, Dl.
Qed.

Lemma set_journal_same s : set_journal (journal s) s = s.
Proof. by destruct s. Qed.

Lemma SetNonce_ledger n a v s L :
  lholds del A n m s L -> a ∈ A -> 0 <= v < 2 ^ 64 ->
  exists s', SetNonce a v s = Ok s' /\ lholds del A n m s' (lset a (mkAcct v (a_balance (L a)) (a_contribution (L a))) L) /\ frame s' s.
Proof.
  intros H Ha Hv. apply (with_data_ledger n n _ (acc_nonce v)); try done; [destruct H as [[] _]; lia|by eexists|].
  intros d (Od & Pr & Rd) <-. split; [|done]. split; [|done]. destruct Od as (_ & Od). by split.
Qed.

Lemma SubBalance_ledger n a v s L :
  lholds del A n m s L -> a ∈ A -> 0 <= a_balance (L a) - v < 2 ^ 256 ->
  exists s', SubBalance a v s = Ok s' /\
    lholds del A n m s' (lset a (mkAcct (a_nonce (L a)) (a_balance (L a) - v) (a_contribution (L a))) L) /\ frame s' s.
Proof.
  intros H Ha Hv. pose proof (ls_room _ _ _ _ _ (proj1 H)). unfold SubBalance, so_SubBalance. destruct (Z.eqb_spec v 0) as [->|Nz].
  - destruct (with_kept_ledger n (fun _ s => s) a s L H Ha) as (s' & E & H' & F); [done|]. exists s'. split; [done|]. split; [|done].
    eapply lholds_ext; [done|]. intros b _. rewrite <- (lset_same a L b), Z.sub_0_r. by destruct (L a).
  - apply (with_data_ledger n n _ (fun d => acc_balance (Balance d - v) d)); try done; [lia|by eexists|].
    intros d (Od & Pr & Rd) E. rewrite <- E in *. split; [|done]. split; [|done]. destruct Od as (On & _ & Od). by split; [|split].
Qed.

Lemma AddBalance_ledger n a v s L :
  lholds del A n m s L -> a ∈ A -> 0 <= a_balance (L a) + v < 2 ^ 256 ->
  exists s', AddBalance a v s = Ok s' /\
    lholds del A n m s' (lset a (mkAcct (a_nonce (L a)) (a_balance (L a) + v) (a_contribution (L a))) L) /\ frame s' s.
Proof.
  intros H Ha Hv. pose proof (ls_room _ _ _ _ _ (proj1 H)). unfold AddBalance, so_AddBalance. destruct (Z.eqb_spec v 0) as [->|Nz].
  - destruct (with_kept_ledger n (fun o s => if so_empty o then so_touch o s else s) a s L H Ha) as (s' & E & H' & F).
    { intros o t Ht Eo Dl. destruct (so_empty o); [by eapply touch_ledger|done]. }
    exists s'. split; [done|]. split; [|done]. eapply lholds_ext; [done|]. intros b _. rewrite <- (lset_same a L b), Z.add_0_r. by destruct (L a).
  - apply (with_data_ledger n n _ (fun d => acc_balance (Balance d + v) d)); try done; [lia|by eexists|].
    intros d (Od & Pr & Rd) E. rewrite <- E in *. split; [|done]. split; [|done]. destruct Od as (On & _ & Od). by split; [|split].
Qed.

Lemma SetBalance_ledger n a v s L :
  lholds del A n m s L -> a ∈ A -> 0 <= v < 2 ^ 256 ->
  exists s', SetBalance a v s = Ok s' /\ lholds del A n m s' (lset a (mkAcct (a_nonce (L a)) v (a_contribution (L a))) L) /\ frame s' s.
Proof.
  intros H Ha Hv. apply (with_data_ledger n n _ (acc_balance v)); try done; [destruct H as [[] _]; lia|by eexists|].
  intros d (Od & Pr & Rd) <-. split; [|done]. split; [|done]. destruct Od as (On & _ & Od). by split; [|split].
Qed.

Lemma AddContribution_ledger n a v s L :
  lholds del A n m s L -> a ∈ A -> 0 <= a_contribution (L a) + v < 2 ^ 256 ->
  exists s', AddContribution a v s = Ok s' /\
    lholds del A n m s' (lset a (mkAcct (a_nonce (L a)) (a_balance (L a)) (a_contribution (L a) + v)) L) /\ frame s' s.
Proof.
  intros H Ha Hv. pose proof (ls_room _ _ _ _ _ (proj1 H)). unfold AddContribution, so_AddContribution. destruct (Z.eqb_spec v 0) as [->|Nz].
  - destruct (with_kept_ledger n (fun o s => if so_empty o then so_touch o s else s) a s L H Ha) as (s' & E & H' & F).
    { intros o t Ht Eo Dl. destruct (so_empty o); [by eapply touch_ledger|done]. }
    exists s'. split; [done|]. split; [|done]. eapply lholds_ext; [done|]. intros b _. rewrite <- (lset_same a L b), Z.add_0_r. by destruct (L a).
  - apply (with_data_ledger n n _ (fun d => acc_contribution (Contribution d + v) d)); try done; [lia| |].
    { intros o t. exists (journal t). by rewrite set_journal_same. }
    intros d (Od & Pr & Rd) E. rewrite <- E in *. split; [|done]. split; [|done]. destruct Od as (On & Ob & _ & Od). by split; [|split; [|split]].
Qed.

(** The records of an account do not show in the ledger. *)
Lemma with_records_ledger n n' f a s L :
  lholds del A n m s L -> a ∈ A -> 0 <= n' <= n ->
  (forall o s, f o s = s \/ exists r, f o s = so_setRecords r o s /\
     (plain n (so_data o) -> Forall is_hash r /\ Z.of_nat (length r) + n' < 2 ^ 26)) ->
  exists s', with_object f a s = Ok s' /\ lholds del A n' m s' L /\ frame s' s.
Proof.
  intros H Ha Ln Ef. pose proof (ls_room _ _ _ _ _ (proj1 H)) as Rm. destruct H as [H V]. unfold with_object.
  destruct (GetOrNew_ledger del A n m s a H Ha) as (o & s1 & -> & H1 & F1 & Eo & Dl & Ea & V1).
  cbn [mbind outcome_bind]. exists (f o s1). split; [done|]. pose proof (ledger_state_mono _ _ _ n' _ _ H1 Ln) as H1'.
  destruct (Ef o s1) as [->|(r & -> & Hr)].
  - split; [|done]. split; [done|]. intros b Hb. by rewrite V1, V.
  - destruct (ls_objects _ _ _ _ _ H1 a o Eo) as (_ & Pd & _). destruct (Hr Pd) as [Fr Lr]. destruct Pd as (Od & Pr & _).
    assert (Pd' : plain n' (acc_records r (so_data o))).
    { split; [|done]. destruct Od as (O1 & O2 & O3 & _ & _ & O6). split; [done|]. split; [done|]. split; [done|]. split; [done|]. split; [cbn; lia|done]. }
    destruct (put_account del A n' m s1 a o (acc_records r (so_data o)) H1' Eo Dl Pd' eq_refl) as (H2 & F2 & V2).
    split; [|by etrans]. split; [done|]. intros b Hb. unfold so_setRecords. rewrite V2. unfold lset. case_decide as Db; [|by rewrite V1, V].
    subst b. change (acct_of (acc_records r (so_data o))) with (acct_of (so_data o)). by rewrite Ea, V.
Qed.

Lemma AddRecords_ledger n a r s L :
  lholds del A n m s L -> a ∈ A -> 1 <= n -> is_hash r ->
  exists s', AddRecords a r s = Ok s' /\ lholds del A (n - 1) m s' L /\ frame s' s.
Proof.
  intros H Ha Hn Hr. apply (with_records_ledger n); try done; [lia|]. intros o t. cbv zeta beta. destruct (bool_decide _); [by left|]. right.
  eexists. split; [reflexivity|]. intros (Od & _ & Rd). rewrite length_app. cbn. split; [|lia].
  apply Forall_app. split; [by destruct Od as (_ & _ & _ & Fr & _)|constructor; [done|constructor]].
Qed.

Lemma RemoveRecords_ledger n a r s L :
  lholds del A n m s L -> a ∈ A -> exists s', RemoveRecords a r s = Ok s' /\ lholds del A n m s' L /\ frame s' s.
Proof.
  intros H Ha. pose proof (ls_room _ _ _ _ _ (proj1 H)) as Rm. apply (with_records_ledger n); try done; [lia|].
  intros o t. cbv zeta beta. destruct (0 <? _) eqn:E; [right|by left]. eexists. split; [reflexivity|]. intros (Od & _ & Rd).
  set (i := record_index r (Records (so_data o)) 0). split.
  - destruct Od as (_ & _ & _ & Fr & _). apply Forall_app. split; [by apply Forall_take|by apply Forall_drop].
  - rewrite length_app, length_take, length_drop. apply Z.ltb_lt in E. fold i in E. lia.
Qed.

(** Reads do not change what the state shows. *)
Lemma read_ledger {B} (f : stateObject -> B) d n a s L :
  lholds del A n m s L -> a ∈ A ->
  exists s', read_object f d a s = Ok (match oview m s a with Some o => f o | None => d end, s') /\ lholds del A n m s' L /\ frame s' s /\
    forall b, oview m s' b = oview m s b.
Proof.
  intros [H V] Ha. unfold read_object. destruct (getStateObject_ledger del A n m s a H Ha) as (s1 & -> & H1 & F1 & V1 & _).
  cbn [mbind outcome_bind]. exists s1. split; [done|]. split; [|done]. split; [done|]. intros b Hb. rewrite (lview_ext m m s s1 b); [by apply V|done].
Qed.

Lemma GetNonce_ledger n a s L :
  lholds del A n m s L -> a ∈ A -> exists s', GetNonce a s = Ok (a_nonce (L a), s') /\ lholds del A n m s' L /\ frame s' s.
Proof.
  intros H Ha. destruct (read_ledger (fun o => Nonce (so_data o)) 0 n a s L H Ha) as (s' & E & H' & F & _). exists s'. split; [|done].
  unfold GetNonce. rewrite E, <- (proj2 H a Ha). unfold lview. by destruct (oview m s a).
Qed.

Lemma GetBalance_ledger n a s L :
  lholds del A n m s L -> a ∈ A -> exists s', GetBalance a s = Ok (a_balance (L a), s') /\ lholds del A n m s' L /\ frame s' s.
Proof.
  intros H Ha. destruct (read_ledger (fun o => Balance (so_data o)) 0 n a s L H Ha) as (s' & E & H' & F & _). exists s'. split; [|done].
  unfold GetBalance. rewrite E, <- (proj2 H a Ha). unfold lview. by destruct (oview m s a).
Qed.

Lemma GetContribution_ledger n a s L :
  lholds del A n m s L -> a ∈ A -> exists s', GetContribution a s = Ok (a_contribution (L a), s') /\ lholds del A n m s' L /\ frame s' s.
Proof.
  intros H Ha. destruct (read_ledger (fun o => Contribution (so_data o)) 0 n a s L H Ha) as (s' & E & H' & F & _). exists s'. split; [|done].
  unfold GetContribution. rewrite E, <- (proj2 H a Ha). unfold lview. by destruct (oview m s a).
Qed.

(** The fields of an account are within their widths. *)
Lemma lholds_range n a s L :
  lholds del A n m s L -> a ∈ A ->
  0 <= a_nonce (L a) < 2 ^ 64 /\ 0 <= a_balance (L a) < 2 ^ 256 /\ 0 <= a_contribution (L a) < 2 ^ 256.
Proof.
  intros [H V] Ha. rewrite <- (V a Ha). unfold lview.
  destruct (getStateObject_ledger del A n m s a H Ha) as (s1 & _ & H1 & _ & _ & E). destruct (oview m s a) as [o|]; [|cbn; lia].
  destruct (ls_objects _ _ _ _ _ H1 a o (E o eq_refl)) as (_ & ((Hn & Hb & Hc & _) & _) & _). done.
Qed.

(** An account that is created when it does not exist. *)
Lemma ensure_ledger n a s L :
  lholds del A n m s L -> a ∈ A ->
  exists s', ('(ex, s) ← Exist a s; if (ex : bool) then Ok s else CreateAccount a s) = Ok s' /\ lholds del A n m s' L /\ frame s' s /\
    is_Some (oview m s' a).
Proof.
  intros H Ha. destruct (read_ledger (fun _ => true) false n a s L H Ha) as (s1 & E & [H1 V1] & F1 & Ov). unfold Exist. rewrite E.
  cbn [mbind outcome_bind]. destruct (oview m s a) as [o|] eqn:V.
  - exists s1. split; [done|]. split; [done|]. split; [done|]. rewrite Ov, V. by eexists.
  - unfold CreateAccount. destruct (createObject_ledger del A n m s1 a H1 Ha) as (s2 & -> & H2 & F2 & E2 & V2); [by rewrite Ov|].
    exists s2. split; [done|]. split; [|split; [by etrans|unfold oview; rewrite E2; by eexists]]. split; [done|]. intros b Hb. by rewrite V2, V1.
Qed.

End Ops.

(** ** Lemmas: writing the objects into the trie *)

(** Starting a transaction changes no account. *)
Lemma Prepare_ledger del A n m th bh i s L : lholds del A n m s L -> lholds del A n m (Prepare th bh i s) L.
Proof. intros [[[Wt Wo] T O D C R] V]. split; [by split|done]. Qed.

(** A state over an empty trie has no accounts. *)
Lemma New_empty_ledger del A n d :
  pastTries d = [] -> 0 <= n < 2 ^ 26 -> exists s, New (zeros HashLength) d = Ok s /\ s_db s = d /\ lholds del A n ∅ s (fun _ => zero_acct).
Proof.
  intros Ep Hn. unfold New, OpenTrie. rewrite Ep. cbn [rev find_past].
  destruct (tr_open_empty (cd_db d) (zeros HashLength) MaxTrieCacheGen) as (t & -> & Ht); [by left|]. cbn [mbind outcome_bind].
  eexists. split; [reflexivity|]. split; [done|]. split; [|done]. by split.
Qed.

Lemma map_root_empty : map_root ∅ = emptyRoot.
Proof. reflexivity. Qed.

Lemma is_hash_emptyRoot : is_hash emptyRoot.
Proof. split; [done|]. unfold emptyRoot. repeat constructor; unfold byte_ok; lia. Qed.

Lemma tacct_key m m' a : m' !! tr_key a = m !! tr_key a -> tacct m' a = tacct m a.
Proof. unfold tacct. by intros ->. Qed.

(** An object without storage gets the root of the empty trie. *)
Lemma updateRoot_plain del n db o :
  plain_object del n db o ->
  exists t, updateRoot db o = Ok (obj_data (acc_root emptyRoot (so_data o)) (obj_trie (Some t) o)) /\ tr_holds db t ∅.
Proof.
  intros (_ & Ds & St & _). unfold updateRoot, updateTrie.
  assert (G : exists t, so_getTrie db o = Ok (t, obj_trie (Some t) o) /\ tr_holds db t ∅).
  { unfold strep in St. unfold so_getTrie. destruct (so_trie o) as [t|] eqn:Et.
    - exists t. split; [|done]. rewrite <- Et. by destruct o.
    - destruct St as (t & -> & Ht). by exists t. }
  destruct G as (t & -> & Ht). cbn [mbind outcome_bind]. cbn [obj_trie so_dirtyStorage]. rewrite Ds, map_to_list_empty.
  cbn [storage_writes mbind outcome_bind obj_trie so_trie]. destruct (tr_hash_law db t ∅ Ht) as (t' & -> & Ht'); [by intros ? ?|].
  cbn [mbind outcome_bind]. exists t'. split; [|done]. by rewrite map_root_empty.
Qed.

Section Write.
Context (del : bool) (A : gset bytes) (keys : forall a b, a ∈ A -> b ∈ A -> tr_key a = tr_key b -> a = b).

(** The state after the object of [a] is written, over the trie that holds [m']. *)
Definition written (n : Z) (m m' : gmap bytes bytes) (a : bytes) (s s' : StateDB) : Prop :=
  ledger_state del A n m' s' /\ frame s' s /\ stateObjectsDirty s' = stateObjectsDirty s /\
  (forall b, b ∈ A -> lview m' s' b = lview m s b) /\ tview m' a = lview m s a /\
  (forall b, b ∈ A -> b <> a -> tacct m' b = tacct m b).

(** Replacing the object and the account of an address together. *)
Lemma write_ledger n m m' s s' a o o' :
  ledger_state del A n m s -> stateObjects s !! a = Some o -> a ∈ stateObjectsDirty s -> frame s' s ->
  stateObjects s' = <[a := o']> (stateObjects s) -> stateObjectsDirty s' = stateObjectsDirty s ->
  tr_holds (cd_db (s_db s)) (s_trie s') m' ->
  (forall k, k <> tr_key a -> m' !! k = m !! k) ->
  (if so_deleted o' then m' !! tr_key a = None else m' !! tr_key a = Some (enc_account (so_data o'))) ->
  object_ok (cd_db (s_db s)) m' a o' -> plain_object del n (cd_db (s_db s)) o' ->
  lview m s a = (if so_deleted o' then zero_acct else acct_of (so_data o')) ->
  written n m m' a s s'.
Proof.
  intros H Eo Hd Fr Eob Edy Ht Hm Ha Ho Po Va. pose proof H as [W T O D C R]. pose proof (proj1 Fr) as Edb.
  assert (Ia : a ∈ A) by apply (O a o Eo).
  assert (Kb : forall b, b ∈ A -> b <> a -> tacct m' b = tacct m b).
  { intros b Hb N. apply tacct_key, Hm. intros E. by apply N, keys. }
  assert (Ta : tview m' a = lview m s a).
  { rewrite Va. unfold tview. destruct (so_deleted o'); [by rewrite (tacct_none _ _ Ha)|]. by rewrite (tacct_enc _ _ _ Ha) by apply Po. }
  split; [|split; [done|split; [done|split; [|done]]]].
  - split; rewrite ?Eob, ?Edb, ?Edy; try done.
    + split; rewrite ?Edb; [done|]. intros b x. rewrite Eob, lookup_insert. case_decide as Da; [intros [= <-]; by subst b|].
      intros E. destruct (wf_objects _ _ W b x E) as (W1 & W2 & W3). split; [done|]. split; [|done]. intros Dx.
      rewrite Kb; [by apply W2|by apply (O b x E)|done].
    + intros k v E. destruct (decide (k = tr_key a)) as [->|N]; [|rewrite Hm in E by done; by apply T].
      split; [apply tr_key_hash|]. destruct (so_deleted o'); [congruence|]. rewrite Ha in E. injection E as <-.
      exists (so_data o'). split; [apply Po|done].
    + intros b x. rewrite lookup_insert. case_decide as Da; [|apply O]. intros [= <-]. subst b. done.
    + intros b Hb. rewrite lookup_insert. case_decide; [by eexists|]. by apply D.
    + intros b x. rewrite lookup_insert. case_decide as Da; [by subst b|]. intros E Nd.
      rewrite Kb; [by apply C|by apply (O b x E)|done].
  - intros b Hb. destruct (decide (b = a)) as [->|N].
    + rewrite Va. unfold lview, oview. rewrite Eob, lookup_insert_eq. by destruct (so_deleted o').
    + unfold lview, oview. rewrite Eob, lookup_insert_ne, Kb by done. done.
Qed.

Lemma finalise_object_ledger n m s a :
  ledger_state del A n m s -> a ∈ stateObjectsDirty s ->
  exists s' m', finalise_object del a s = Ok s' /\ written n m m' a s s'.
Proof.
  intros H Hd. pose proof H as [W T O D C R]. destruct (D a Hd) as [o Eo]. unfold finalise_object. rewrite Eo.
  destruct (O a o Eo) as (Ia & Po). pose proof Po as (Pd & Ds & St & Su & De). pose proof (wf_objects _ _ W a o Eo) as Ho.
  assert (Ea : so_address o = a) by apply Ho. rewrite Su. cbn [orb]. destruct (del && so_empty o) eqn:Em.
  - apply andb_true_iff in Em as [Ed Em]. unfold deleteStateObject. cbn [s_trie setStateObject set_objects s_db]. rewrite Ea.
    destruct (tr_delete_law _ _ _ a (wf_trie _ _ W)) as (t & t0 & -> & Ht). eexists _, (base.delete (tr_key a) m). split; [reflexivity|].
    apply (write_ledger n m _ s _ a o (obj_flags false (so_touched o) true (so_onDirty o) o)); try done.
    + unfold setStateObject. cbn. by rewrite Ea, Su.
    + intros k N. by rewrite lookup_delete_ne.
    + apply lookup_delete_eq.
    + split; [done|]. split; [intros _; apply tacct_none, lookup_delete_eq|]. apply Ho.
    + cbn. unfold lview, oview. rewrite Eo. destruct (so_deleted o); [done|]. unfold so_empty in Em. rewrite !andb_true_iff, !Z.eqb_eq in Em.
      destruct Em as [[[E1 E2] E3] _]. unfold acct_of. by rewrite E1, E2, E3.
  - assert (Dl : so_deleted o = false).
    { destruct (so_deleted o); [|done]. destruct (De eq_refl) as [-> E]. by rewrite E in Em. }
    destruct (updateRoot_plain del n _ o Po) as (t & -> & Ht). cbn [mbind outcome_bind].
    set (d := acc_root emptyRoot (so_data o)). assert (Pd' : plain n d).
    { destruct Pd as ((O1 & O2 & O3 & O4 & O5 & _ & O7) & _ & Rd). split; [|by split; [right|]].
      do 5 (split; [done|]). split; [apply is_hash_emptyRoot|done]. }
    unfold updateStateObject. cbn [so_data obj_data].
    destruct (EncodeToBytes_spec Account_type (account_val d)) as [-> _]; [apply rt_wt, rt_account, Pd'|apply len_enc_account, Pd'|].
    cbn [setStateObject set_objects s_db s_trie so_address obj_data obj_trie]. rewrite Ea.
    destruct (tr_update_law _ _ _ a (enc_account d) (wf_trie _ _ W)) as (t' & E & Ht'); [apply enc_account_nonempty, Pd'|].
    assert (Dl' : so_deleted (obj_data d (obj_trie (Some t) o)) = false) by done.
    unfold enc_account in E. rewrite E. eexists _, (<[tr_key a := enc_account d]> m). split; [reflexivity|].
    apply (write_ledger n m _ s _ a o (obj_data d (obj_trie (Some t) o))); try done.
    + unfold setStateObject. cbn. by rewrite Ea.
    + intros k N. by rewrite lookup_insert_ne.
    + rewrite Dl'. apply lookup_insert_eq.
    + split; [done|]. split; [by rewrite Dl'|]. split; [by exists ∅|apply Ho].
    + rewrite Dl'. unfold lview, oview. by rewrite Eo, Dl.
Qed.

(** Writing a list of dirty objects: the accounts written so far are in the trie. *)
Lemma finalise_all_ledger n l : forall m s,
  ledger_state del A n m s -> (forall a, a ∈ l -> a ∈ stateObjectsDirty s) -> NoDup l ->
  exists s' m', finalise_all del l s = Ok s' /\ ledger_state del A n m' s' /\ frame s' s /\ stateObjectsDirty s' = stateObjectsDirty s /\
    (forall b, b ∈ A -> lview m' s' b = lview m s b) /\ (forall a, a ∈ l -> tview m' a = lview m s a) /\
    (forall b, b ∈ A -> b ∉ l -> tacct m' b = tacct m b).
Proof.
  induction l as [|a l IH]; intros m s H Hd ND.
  - exists s, m. split; [done|]. split; [done|]. split; [done|]. split; [done|]. split; [done|]. split; [|done]. intros a Ha. by apply elem_of_nil in Ha.
  - apply list.NoDup_cons in ND as [Na ND]. cbn [finalise_all].
    destruct (finalise_object_ledger n m s a H) as (s1 & m1 & -> & H1 & F1 & D1 & V1 & T1 & K1); [apply Hd; by left|].
    cbn [mbind outcome_bind]. assert (IA : forall b, b ∈ a :: l -> b ∈ A).
    { intros b Hb. destruct (ls_dirty _ _ _ _ _ H b (Hd b Hb)) as [o Eo]. by apply (ls_objects _ _ _ _ _ H b o Eo). }
    destruct (IH m1 s1 H1) as (s2 & m2 & -> & H2 & F2 & D2 & V2 & T2 & K2); [intros b Hb; rewrite D1; apply Hd; by right|done|].
    exists s2, m2. split; [done|]. split; [done|]. split; [by etrans|]. split; [congruence|]. split; [|split].
    + intros b Hb. by rewrite V2, V1.
    + intros b Hb. apply list.elem_of_cons in Hb as [->|Hb].
      * unfold tview. rewrite K2; [done|apply IA; by left|done].
      * rewrite T2 by done. apply V1, IA. by right.
    + intros b Hb Nb. apply list.not_elem_of_cons in Nb as [Nb1 Nb2]. by rewrite K2, K1.
Qed.

Lemma ledger_clear n m s : ledger_state del A n m s -> ledger_state del A n m (clearJournalAndRefund s).
Proof. intros [[Wt Wo] T O D C R]. by split. Qed.

Lemma Finalise_ledger n m s L :
  lholds del A n m s L ->
  exists s' m', Finalise del s = Ok s' /\ lholds del A n m' s' L /\ (forall a, a ∈ A -> tview m' a = L a) /\
    logs s' = logs s /\ s_db s' = s_db s /\ thash s' = thash s /\ bhash s' = bhash s /\ txIndex s' = txIndex s.
Proof.
  intros [H V]. unfold Finalise.
  destruct (finalise_all_ledger n (elements (stateObjectsDirty s)) m s H) as (s1 & m1 & -> & H1 & F1 & D1 & V1 & T1 & K1);
    [intros a; by rewrite elem_of_elements|apply NoDup_elements|].
  cbn [mbind outcome_bind]. eexists _, m1. split; [reflexivity|].
  destruct F1 as (Fd & _ & Fl & _ & _ & Ft & Fb & Fi & _). split; [|split; [|done]].
  - split; [by apply ledger_clear|]. intros a Ha. rewrite <- V, <- V1 by done. done.
  - intros a Ha. destruct (decide (a ∈ stateObjectsDirty s)) as [Hd|Nd].
    + by rewrite T1, V by (done || by apply elem_of_elements).
    + unfold tview. rewrite K1 by (done || by rewrite elem_of_elements). rewrite <- V by done. unfold lview, oview.
      destruct (stateObjects s !! a) as [o|] eqn:Eo; [|by destruct (tacct m a)].
      destruct (ls_clean _ _ _ _ _ H a o Eo Nd) as (_ & -> & ->). done.
Qed.

Lemma IntermediateRoot_ledger n m s L :
  lholds del A n m s L ->
  exists s' m', IntermediateRoot del s = Ok (map_root m', s') /\ lholds del A n m' s' L /\ (forall a, a ∈ A -> tview m' a = L a) /\
    logs s' = logs s /\ s_db s' = s_db s /\ thash s' = thash s /\ bhash s' = bhash s /\ txIndex s' = txIndex s.
Proof.
  intros H. unfold IntermediateRoot. destruct (Finalise_ledger n m s L H) as (s1 & m1 & -> & [H1 V1] & T1 & Fr).
  cbn [mbind outcome_bind]. destruct (tr_hash_law _ _ _ (wf_trie _ _ (ls_wf _ _ _ _ _ H1))) as (t & -> & Ht); [by eapply ledger_small|].
  cbn [mbind outcome_bind]. exists (set_strie t s1), m1. split; [done|]. split; [|done]. split; [|done].
  destruct H1 as [[Wt Wo] T O D C R]. by split.
Qed.

End Write.

End Ledger.
