(* ===== verification/StateUndo.v ===== *)
(** * Ledgers and snapshots

    What a transaction that fails does to the state before it fails: it may make accounts and
    set nonces.  Reverting to the snapshot taken before gives back a state that shows the same
    ledger and satisfies the invariant of [StateLedger], although the caches and the marks of
    dirty objects are not those of before. *)

From S2P Require Import Prelude Rlp RlpStream TrieEncoding Common Codec Trie TrieModel TrieRefine TrieHash TrieMap SecureTrie StateDB StateRevert StateLedger.

Section Undo.
Context {HS : Hasher} {ST : StateTrie}.
Context (del : bool) (A : gset bytes) (n : Z) (m : gmap bytes bytes).

(** The entries of accounts made and nonces set. *)
Definition plain_entry (e : journalEntry) : Prop :=
  match e with
  | createObjectChange _ => True
  | nonceChange a v => a ∈ A /\ 0 <= v < 2 ^ 64
  | _ => False
  end.

Lemma plain_nonce k v d : plain k d -> 0 <= v < 2 ^ 64 -> plain k (acc_nonce v d).
Proof. intros ((_ & Od) & P) Hv. split; [by split|done]. Qed.

(** Undoing such an entry keeps the invariant. *)
Lemma undo_ledger e s s' : plain_entry e -> ledger_state del A n m s -> undo e s = Ok s' -> ledger_state del A n m s' /\ frame s' s.
Proof.
  intros Pe H E. destruct e; try done; cbn [undo] in E.
  - injection E as <-. pose proof H as [W T O D C R]. split; [|done]. split; try done.
    + split; [apply W|]. intros b o. cbn. rewrite lookup_delete_Some. intros [_ Eb]. by apply W.
    + intros b o. cbn. rewrite lookup_delete_Some. intros [_ Eb]. by apply O.
    + intros b. cbn. rewrite elem_of_difference, elem_of_singleton. intros [Hb Nb]. rewrite lookup_delete_ne by congruence. by apply D.
    + intros b o. cbn. rewrite lookup_delete_Some, elem_of_difference, elem_of_singleton. intros [Nb Eb] Nd. apply (C b o Eb). intros Hd. apply Nd. split; [done|congruence].
  - match type of E with undo_object ?a (so_setNonce ?v) _ = _ => rename a into addr; rename v into prev end. destruct Pe as [Ha Hv]. unfold undo_object in E. destruct (getStateObject_ledger del A n m s _ H Ha) as (s1 & Eg & H1 & F1 & _ & Lo). rewrite Eg in E. cbn [mbind outcome_bind] in E.
    destruct (oview m s addr) as [o|] eqn:V; [|done]. injection E as <-. specialize (Lo o eq_refl).
    destruct (put_account del A n m s1 _ o (acc_nonce prev (so_data o)) H1 Lo) as (H2 & F2 & _); [|apply plain_nonce; [apply (ls_objects _ _ _ _ _ H1 _ o Lo)|done]|done|].
    + assert (Vo : oview m s1 addr = Some o) by (destruct (getStateObject_spec m s addr (ls_wf _ _ _ _ _ H) (ledger_trie_ok _ _ _ _ _ H)) as (s2 & Eg2 & L2); rewrite Eg in Eg2; injection Eg2 as _ <-; destruct L2 as (_&_&_&_&_&_&_&_&_&_&_&_&_&Lv&_); by rewrite Lv).
      unfold oview in Vo. rewrite Lo in Vo. by destruct (so_deleted o).
    + split; [exact H2|]. by etrans.
Qed.

Lemma undo_all_ledger es : forall s s', Forall plain_entry es -> ledger_state del A n m s -> undo_all es s = Ok s' -> ledger_state del A n m s' /\ frame s' s.
Proof.
  induction es as [|e es IH]; intros s s' F H E; [injection E as <-; done|]. apply list.Forall_cons in F as [Fe F]. cbn [undo_all] in E.
  destruct (undo e s) as [s1|x| |] eqn:E1; try done. cbn [mbind outcome_bind] in E. destruct (undo_ledger e s s1 Fe H E1) as [H1 F1].
  destruct (IH s1 s' F H1 E) as [H2 F2]. split; [done|]. by etrans.
Qed.

(** A change of the state that its entries, plain ones, undo. *)
Record mild (s s' : StateDB) : Prop := mkMild {
  md_reversible : reversible m s s';
  md_ledger : ledger_state del A n m s';
  md_frame : frame s' s;
  md_entries : exists es, journal s' = es ++ journal s /\ Forall plain_entry es
}.

Lemma mild_refl s : ledger_state del A n m s -> mild s s.
Proof. intros H. split; [apply reversible_refl, H|done|done|]. by exists []. Qed.

Lemma mild_trans s1 s2 s3 : ledger_state del A n m s1 -> mild s1 s2 -> mild s2 s3 -> mild s1 s3.
Proof.
  intros H [R1 L1 F1 (es1 & J1 & P1)] [R2 L2 F2 (es2 & J2 & P2)]. split; [|done|by etrans|].
  - by eapply reversible_trans; [eapply ledger_trie_ok|..].
  - exists (es2 ++ es1). split; [by rewrite J2, J1, app_assoc|by apply Forall_app].
Qed.

Lemma mild_get a s : ledger_state del A n m s -> a ∈ A -> exists s', getStateObject a s = Ok (oview m s a, s') /\ mild s s' /\ (forall b, oview m s' b = oview m s b).
Proof.
  intros H Ha. destruct (getStateObject_ledger del A n m s a H Ha) as (s1 & E & H1 & F1 & V1 & _). exists s1. split; [done|]. split; [|done].
  destruct (getStateObject_spec m s a (ls_wf _ _ _ _ _ H) (ledger_trie_ok _ _ _ _ _ H)) as (s2 & E2 & L2). rewrite E in E2. injection E2 as <-.
  split; [by eapply reversible_loaded|done|done|]. exists []. split; [|done]. by destruct L2 as (_&_&_&_&_&_&_&_&_&_&J&_).
Qed.

Lemma mild_read {B} (f : stateObject -> B) d a s : ledger_state del A n m s -> a ∈ A -> exists x s', read_object f d a s = Ok (x, s') /\ mild s s'.
Proof. intros H Ha. unfold read_object. destruct (mild_get a s H Ha) as (s' & -> & Md & _). by eexists _, s'. Qed.

Lemma mild_create a s : ledger_state del A n m s -> a ∈ A -> oview m s a = None -> exists s', createObject a s = Ok (fresh_object a, None, s') /\ mild s s'.
Proof.
  intros H Ha V. destruct (createObject_ledger del A n m s a H Ha V) as (s1 & E & H1 & F1 & _). exists s1. split; [done|].
  destruct (createObject_spec m a s (ls_wf _ _ _ _ _ H) (ledger_trie_ok _ _ _ _ _ H)) as (s2 & E2 & W2 & F2 & J2 & _ & V2). rewrite V in E2, J2. rewrite E in E2. injection E2 as <-.
  split; [by apply (reversible_create m s s1 a (ls_wf _ _ _ _ _ H) V)|done|done|]. exists [createObjectChange a]. split; [done|]. by repeat constructor.
Qed.

(** The account is made if it is not there. *)
Lemma mild_ensure a s : ledger_state del A n m s -> a ∈ A ->
  exists s', ('(ex, s) ← Exist a s; if (ex : bool) then Ok s else CreateAccount a s) = Ok s' /\ mild s s'.
Proof.
  intros H Ha. unfold Exist, read_object. destruct (mild_get a s H Ha) as (s1 & -> & M1 & V1). cbn [mbind outcome_bind]. destruct (oview m s a) as [o|] eqn:V; [by exists s1|].
  unfold CreateAccount. destruct (mild_create a s1 (md_ledger _ _ M1) Ha) as (s2 & -> & M2); [by rewrite V1|]. exists s2. split; [done|]. by eapply mild_trans.
Qed.

Lemma mild_object a s : ledger_state del A n m s -> a ∈ A -> exists o s', GetOrNewStateObject a s = Ok (o, s') /\ mild s s' /\ stateObjects s' !! a = Some o /\ so_deleted o = false.
Proof.
  intros H Ha. destruct (GetOrNew_reversible m a s (ls_wf _ _ _ _ _ H) (ledger_trie_ok _ _ _ _ _ H)) as (o & s' & E & _ & Eo & Dl). exists o, s'. split; [done|]. split; [|done].
  unfold GetOrNewStateObject in E. destruct (mild_get a s H Ha) as (s1 & Eg & M1 & V1). rewrite Eg in E. cbn [mbind outcome_bind] in E. destruct (oview m s a) as [x|] eqn:V; [by injection E as _ <-|].
  destruct (mild_create a s1 (md_ledger _ _ M1) Ha) as (s2 & Ec & M2); [by rewrite V1|]. rewrite Ec in E. injection E as _ <-. by eapply mild_trans.
Qed.

Lemma mild_nonce a v s : ledger_state del A n m s -> a ∈ A -> 0 <= v < 2 ^ 64 -> exists s', SetNonce a v s = Ok s' /\ mild s s'.
Proof.
  intros H Ha Hv. unfold SetNonce, with_object. destruct (mild_object a s H Ha) as (o & s1 & -> & M1 & Eo & Dl). cbn [mbind outcome_bind]. eexists. split; [done|].
  pose proof (md_ledger _ _ M1) as H1. eapply mild_trans; [exact H|exact M1|]. destruct (ls_objects _ _ _ _ _ H1 a o Eo) as (_ & Po & _). pose proof (wf_objects _ _ (ls_wf _ _ _ _ _ H1) a o Eo) as (Ea & _).
  unfold so_SetNonce, so_setNonce. set (s2 := append_journal _ s1). destruct (put_account del A n m s2 a o (acc_nonce v (so_data o))) as (H2 & F2 & _); [by apply ledger_journal|done|done|by apply plain_nonce|done|].
  split; [apply (so_SetNonce_reversible m a v o s1 (ls_wf _ _ _ _ _ H1) (ledger_trie_ok _ _ _ _ _ H1) Eo Dl)|done|by etrans|].
  exists [nonceChange a (Nonce (so_data o))]. split; [rewrite journal_put_dirty; cbn; by rewrite Ea|]. constructor; [|constructor]. split; [done|]. apply Po.
Qed.

(** Reverting to the snapshot gives the ledger back. *)
Lemma RevertToSnapshot_mild s s2 L : lholds del A n m s L -> revisions_ok s -> mild (snd (Snapshot s)) s2 ->
  exists s3, RevertToSnapshot (fst (Snapshot s)) s2 = Ok s3 /\ lholds del A n m s3 L /\ validRevisions s3 = validRevisions s /\ logs s3 = logs s.
Proof.
  intros [H V] Ro [Rv H2 F2 (es & J & P)]. destruct (RevertToSnapshot_reversible m s s2 Ro Rv) as (s3 & E & Sq & W3 & J3 & V3). exists s3. split; [done|].
  destruct Rv as (_ & _ & (x & Vr & _) & _). assert (J' : journal s2 = es ++ journal s) by exact J. rewrite (RevertToSnapshot_eq s s2 es x Ro Vr J') in E.
  destruct (undo_all es s2) as [u|?| |] eqn:Eu; try done. cbn [mbind outcome_bind] in E. injection E as <-. destruct (undo_all_ledger es s2 u P H2 Eu) as [Hu Fu].
  split; [|split; [done|]].
  - split; [destruct Hu as [[Wt Wo] T O D C R]; by split|]. intros a Ha. rewrite <- V by done. pose proof (seq_objects _ _ _ Sq a) as Q. unfold lview.
    destruct (oview m _ a) as [o1|], (oview m s a) as [o2|]; try done. destruct Q as (_ & Ed & _). by rewrite Ed.
  - destruct Fu as (_ & _ & Lu & _). destruct F2 as (_ & _ & L2 & _). cbn. by rewrite Lu, L2.
Qed.
End Undo.
