(* ===== verification/StateRecord.v ===== *)
(** * Package [core/state]: the records of confirmed data

    [state_object_record.go], [statedb_record.go] and [journal_record.go]: the cache of record
    objects over the record trie, its journal, and the writing of the objects into the trie.
    It mirrors the cache of accounts of [StateDB]; the undo methods of half of the journal
    entries are not implemented and panic. *)

From S2P Require Import Prelude Rlp RlpStream TrieEncoding Common Codec Trie TrieModel TrieRefine TrieHash TrieMap SecureTrie StateDB StateRevert StateLedger.

(** ** Data *)

Record RecordData := mkRecordData {
  Origin : bytes;
  Owner : bytes;
  Txs : list bytes;
  Status : Z;
  RecRoot : bytes
}.

Definition Record_type : rtype := TStruct [TByteArray 20; TByteArray 20; TSlice (TByteArray 32); TUint 8; TByteArray 32].

Definition record_val (r : RecordData) : rval :=
  VStruct [VBytes (Origin r); VBytes (Owner r); VList (map VBytes (Txs r)); VUint (Status r); VBytes (RecRoot r)].

Definition val_record (v : rval) : option RecordData :=
  match v with
  | VStruct [VBytes o; VBytes w; VList ts; VUint st; VBytes r] =>
    Some (mkRecordData o w (map (fun v => match v with VBytes b => b | _ => [] end) ts) st r)
  | _ => None
  end.

Definition zeroRecord : RecordData := mkRecordData (zeros AddressLength) (zeros AddressLength) [] 0 (zeros HashLength).

Definition rec_origin (x : bytes) (r : RecordData) : RecordData := mkRecordData x (Owner r) (Txs r) (Status r) (RecRoot r).
Definition rec_owner (x : bytes) (r : RecordData) : RecordData := mkRecordData (Origin r) x (Txs r) (Status r) (RecRoot r).
Definition rec_txs (x : list bytes) (r : RecordData) : RecordData := mkRecordData (Origin r) (Owner r) x (Status r) (RecRoot r).
Definition rec_status (x : Z) (r : RecordData) : RecordData := mkRecordData (Origin r) (Owner r) (Txs r) x (RecRoot r).
Definition rec_root (x : bytes) (r : RecordData) : RecordData := mkRecordData (Origin r) (Owner r) (Txs r) (Status r) x.

Section RecordState.
Context {HS : Hasher} {ST : StateTrie}.

(** [ro_onDirty] says that the callback that marks the object dirty is still set. *)
Record stateObjectRecord := mkObjectRecord {
  ro_hash : bytes;
  ro_data : RecordData;
  ro_dbErr : option state_error;
  ro_trie : option stt;
  ro_cachedStorage : gmap bytes bytes;
  ro_dirtyStorage : gmap bytes bytes;
  ro_suicided : bool;
  ro_touched : bool;
  ro_deleted : bool;
  ro_onDirty : bool
}.

Inductive journalEntryRecord :=
| createObjectChangeRecord (record : bytes)
| resetObjectChangeRecord (prev : stateObjectRecord)
| suicideChangeRecord (record : bytes) (prev : bool) (prevbalance : Z)
| storageChangeRecord (account key prevalue : bytes)
| addLogChangeRecord (txhash : bytes)
| addPreimageChangeRecord (hash : bytes)
| touchChangeRecord (account : bytes) (prev prevDirty : bool)
| originChange (hash prev : bytes)
| ownerChange (hash prev : bytes)
| txsChange (hash : bytes) (prev : list bytes)
| statusChange (hash : bytes) (prev : Z).

(** The journal has its newest entry first. *)
Record StateDBRecord := mkStateDBRecord {
  r_db : cachingDB;
  r_trie : stt;
  r_stateObjects : gmap bytes stateObjectRecord;
  r_stateObjectsDirty : gset bytes;
  r_dbErr : option state_error;
  r_thash : bytes;
  r_bhash : bytes;
  r_txIndex : Z;
  r_logs : gmap bytes (list Log);
  r_logSize : Z;
  r_preimages : gmap bytes bytes;
  r_journal : list journalEntryRecord;
  r_validRevisions : list revision;
  r_nextRevisionId : Z
}.

(** ** Field updates *)

Definition set_r_objects (m : gmap bytes stateObjectRecord) (s : StateDBRecord) : StateDBRecord :=
  mkStateDBRecord (r_db s) (r_trie s) m (r_stateObjectsDirty s) (r_dbErr s) (r_thash s) (r_bhash s) (r_txIndex s) (r_logs s)
    (r_logSize s) (r_preimages s) (r_journal s) (r_validRevisions s) (r_nextRevisionId s).
Definition set_r_dirty (d : gset bytes) (s : StateDBRecord) : StateDBRecord :=
  mkStateDBRecord (r_db s) (r_trie s) (r_stateObjects s) d (r_dbErr s) (r_thash s) (r_bhash s) (r_txIndex s) (r_logs s)
    (r_logSize s) (r_preimages s) (r_journal s) (r_validRevisions s) (r_nextRevisionId s).
Definition set_r_trie (t : stt) (s : StateDBRecord) : StateDBRecord :=
  mkStateDBRecord (r_db s) t (r_stateObjects s) (r_stateObjectsDirty s) (r_dbErr s) (r_thash s) (r_bhash s) (r_txIndex s) (r_logs s)
    (r_logSize s) (r_preimages s) (r_journal s) (r_validRevisions s) (r_nextRevisionId s).
Definition set_r_dbErr (e : option state_error) (s : StateDBRecord) : StateDBRecord :=
  mkStateDBRecord (r_db s) (r_trie s) (r_stateObjects s) (r_stateObjectsDirty s) e (r_thash s) (r_bhash s) (r_txIndex s) (r_logs s)
    (r_logSize s) (r_preimages s) (r_journal s) (r_validRevisions s) (r_nextRevisionId s).
Definition set_r_logs (l : gmap bytes (list Log)) (n : Z) (s : StateDBRecord) : StateDBRecord :=
  mkStateDBRecord (r_db s) (r_trie s) (r_stateObjects s) (r_stateObjectsDirty s) (r_dbErr s) (r_thash s) (r_bhash s) (r_txIndex s) l
    n (r_preimages s) (r_journal s) (r_validRevisions s) (r_nextRevisionId s).
Definition set_r_preimages (p : gmap bytes bytes) (s : StateDBRecord) : StateDBRecord :=
  mkStateDBRecord (r_db s) (r_trie s) (r_stateObjects s) (r_stateObjectsDirty s) (r_dbErr s) (r_thash s) (r_bhash s) (r_txIndex s) (r_logs s)
    (r_logSize s) p (r_journal s) (r_validRevisions s) (r_nextRevisionId s).
Definition set_r_journal (j : list journalEntryRecord) (s : StateDBRecord) : StateDBRecord :=
  mkStateDBRecord (r_db s) (r_trie s) (r_stateObjects s) (r_stateObjectsDirty s) (r_dbErr s) (r_thash s) (r_bhash s) (r_txIndex s) (r_logs s)
    (r_logSize s) (r_preimages s) j (r_validRevisions s) (r_nextRevisionId s).
Definition set_r_revisions (l : list revision) (n : Z) (s : StateDBRecord) : StateDBRecord :=
  mkStateDBRecord (r_db s) (r_trie s) (r_stateObjects s) (r_stateObjectsDirty s) (r_dbErr s) (r_thash s) (r_bhash s) (r_txIndex s) (r_logs s)
    (r_logSize s) (r_preimages s) (r_journal s) l n.
Definition set_r_tx (th bh : bytes) (ti : Z) (s : StateDBRecord) : StateDBRecord :=
  mkStateDBRecord (r_db s) (r_trie s) (r_stateObjects s) (r_stateObjectsDirty s) (r_dbErr s) th bh ti (r_logs s)
    (r_logSize s) (r_preimages s) (r_journal s) (r_validRevisions s) (r_nextRevisionId s).

Definition append_journalRecord (e : journalEntryRecord) (s : StateDBRecord) : StateDBRecord := set_r_journal (e :: r_journal s) s.

Definition ro_set_data (d : RecordData) (o : stateObjectRecord) : stateObjectRecord :=
  mkObjectRecord (ro_hash o) d (ro_dbErr o) (ro_trie o) (ro_cachedStorage o) (ro_dirtyStorage o) (ro_suicided o) (ro_touched o)
    (ro_deleted o) (ro_onDirty o).
Definition ro_set_dbErr (e : option state_error) (o : stateObjectRecord) : stateObjectRecord :=
  mkObjectRecord (ro_hash o) (ro_data o) e (ro_trie o) (ro_cachedStorage o) (ro_dirtyStorage o) (ro_suicided o) (ro_touched o)
    (ro_deleted o) (ro_onDirty o).
Definition ro_set_trie (t : option stt) (o : stateObjectRecord) : stateObjectRecord :=
  mkObjectRecord (ro_hash o) (ro_data o) (ro_dbErr o) t (ro_cachedStorage o) (ro_dirtyStorage o) (ro_suicided o) (ro_touched o)
    (ro_deleted o) (ro_onDirty o).
Definition ro_set_storage (c d : gmap bytes bytes) (o : stateObjectRecord) : stateObjectRecord :=
  mkObjectRecord (ro_hash o) (ro_data o) (ro_dbErr o) (ro_trie o) c d (ro_suicided o) (ro_touched o) (ro_deleted o) (ro_onDirty o).
Definition ro_set_flags (suicided touched deleted onDirty : bool) (o : stateObjectRecord) : stateObjectRecord :=
  mkObjectRecord (ro_hash o) (ro_data o) (ro_dbErr o) (ro_trie o) (ro_cachedStorage o) (ro_dirtyStorage o) suicided touched deleted onDirty.

(** ** Objects *)

(** [s.empty()] *)
Definition ro_empty (o : stateObjectRecord) : bool := false.

Definition newObjectRecord (hash : bytes) (data : RecordData) (onDirty : bool) : stateObjectRecord :=
  mkObjectRecord hash data None None ∅ ∅ false false false onDirty.

Definition ro_setError (e : option state_error) (o : stateObjectRecord) : stateObjectRecord :=
  match ro_dbErr o with None => ro_set_dbErr e o | Some _ => o end.

Definition rec_setError (e : option state_error) (s : StateDBRecord) : StateDBRecord :=
  match r_dbErr s with None => set_r_dbErr e s | Some _ => s end.

Definition rec_setStateObject (o : stateObjectRecord) (s : StateDBRecord) : StateDBRecord :=
  set_r_objects (<[ro_hash o := o]> (r_stateObjects s)) s.

Definition rec_MarkStateObjectDirty (h : bytes) (s : StateDBRecord) : StateDBRecord :=
  set_r_dirty ({[h]} ∪ r_stateObjectsDirty s) s.

(** The call of the callback and its reset that end every setter of an object, with the
    object written back. *)
Definition rec_put_dirty (o : stateObjectRecord) (s : StateDBRecord) : StateDBRecord :=
  if ro_onDirty o then
    rec_setStateObject (ro_set_flags (ro_suicided o) (ro_touched o) (ro_deleted o) false o) (rec_MarkStateObjectDirty (ro_hash o) s)
  else rec_setStateObject o s.

(** Retrieves an object; a deleted one is not found. *)
Definition rec_getStateObject (h : bytes) (s : StateDBRecord) : outcome unit (option stateObjectRecord * StateDBRecord) :=
  match r_stateObjects s !! h with
  | Some obj => Ok (if ro_deleted obj then None else Some obj, s)
  | None =>
    match tr_TryGet (cd_db (r_db s)) (r_trie s) h with
    | Ok (Some (b :: enc), t) =>
      let s := set_r_trie t s in
      match DecodeBytes Record_type (b :: enc) with
      | Ok v =>
        match val_record v with
        | Some data => let obj := newObjectRecord h data true in Ok (Some obj, rec_setStateObject obj s)
        | None => Ok (None, s)
        end
      | Err _ => Ok (None, s)
      | Panic => Panic
      | OutOfFuel => OutOfFuel
      end
    | Ok (_, t) => Ok (None, set_r_trie t s)
    | Err e => Ok (None, rec_setError (Some (StateTrieErr e)) s)
    | Panic => Panic
    | OutOfFuel => OutOfFuel
    end
  end.

(** Returns the new object and the one it replaces. *)
Definition rec_createObject (h : bytes) (s : StateDBRecord)
  : outcome unit (stateObjectRecord * option stateObjectRecord * StateDBRecord) :=
  '(prev, s) ← rec_getStateObject h s;
  let newobj := newObjectRecord h (rec_status 0 zeroRecord) false in
  let s := rec_MarkStateObjectDirty h s in
  let s := append_journalRecord (match prev with None => createObjectChangeRecord h | Some p => resetObjectChangeRecord p end) s in
  Ok (newobj, prev, rec_setStateObject newobj s).

Definition rec_GetOrNewStateObject (h : bytes) (s : StateDBRecord) : outcome unit (stateObjectRecord * StateDBRecord) :=
  '(obj, s) ← rec_getStateObject h s;
  match obj with
  | Some o => Ok (o, s)
  | None => '(o, _, s) ← rec_createObject h s; Ok (o, s)
  end.

(** ** Setters of an object *)

Definition ro_setOrigin (a : bytes) (o : stateObjectRecord) (s : StateDBRecord) : StateDBRecord :=
  rec_put_dirty (ro_set_data (rec_origin a (ro_data o)) o) s.
Definition ro_SetOrigin (a : bytes) (o : stateObjectRecord) (s : StateDBRecord) : StateDBRecord :=
  ro_setOrigin a o (append_journalRecord (originChange (ro_hash o) (Origin (ro_data o))) s).
Definition ro_setOwner (a : bytes) (o : stateObjectRecord) (s : StateDBRecord) : StateDBRecord :=
  rec_put_dirty (ro_set_data (rec_owner a (ro_data o)) o) s.
Definition ro_SetOwner (a : bytes) (o : stateObjectRecord) (s : StateDBRecord) : StateDBRecord :=
  ro_setOwner a o (append_journalRecord (ownerChange (ro_hash o) (Owner (ro_data o))) s).
Definition ro_setTxs (l : list bytes) (o : stateObjectRecord) (s : StateDBRecord) : StateDBRecord :=
  rec_put_dirty (ro_set_data (rec_txs l (ro_data o)) o) s.
Definition ro_SetTxs (l : list bytes) (o : stateObjectRecord) (s : StateDBRecord) : StateDBRecord :=
  ro_setTxs l o (append_journalRecord (txsChange (ro_hash o) (Txs (ro_data o))) s).
Definition ro_setStatus (st : Z) (o : stateObjectRecord) (s : StateDBRecord) : StateDBRecord :=
  rec_put_dirty (ro_set_data (rec_status st (ro_data o)) o) s.
Definition ro_SetStatus (st : Z) (o : stateObjectRecord) (s : StateDBRecord) : StateDBRecord :=
  ro_setStatus st o (append_journalRecord (statusChange (ro_hash o) (Status (ro_data o))) s).

Definition ro_touch (o : stateObjectRecord) (s : StateDBRecord) : StateDBRecord :=
  let s := append_journalRecord (touchChangeRecord (ro_hash o) (ro_touched o) (negb (ro_onDirty o))) s in
  let s := if ro_onDirty o then rec_MarkStateObjectDirty (ro_hash o) s else s in
  rec_setStateObject (ro_set_flags (ro_suicided o) true (ro_deleted o) false o) s.

(** ** Storage *)

Definition ro_getTrie (db : database) (o : stateObjectRecord) : outcome unit (stt * stateObjectRecord) :=
  match ro_trie o with
  | Some t => Ok (t, o)
  | None =>
    match tr_open db (RecRoot (ro_data o)) 0 with
    | Ok t => Ok (t, ro_set_trie (Some t) o)
    | Err e =>
      match tr_open db (zeros HashLength) 0 with
      | Ok t => Ok (t, ro_setError (Some (StorageOpenErr e)) (ro_set_trie (Some t) o))
      | _ => Panic
      end
    | Panic => Panic
    | OutOfFuel => OutOfFuel
    end
  end.

Definition ro_GetState (db : database) (key : bytes) (o : stateObjectRecord) : outcome unit (bytes * stateObjectRecord) :=
  match ro_cachedStorage o !! key with
  | Some v => Ok (v, o)
  | None =>
    '(t, o) ← ro_getTrie db o;
    match tr_TryGet db t key with
    | Ok (enc, t) =>
      let o := ro_set_trie (Some t) o in
      '(value, o) ← match enc with
        | Some (b :: enc) =>
          match Split (b :: enc) with
          | Ok (_, content, _) => Ok (Hash_SetBytes (zeros HashLength) content, o)
          | Err e => Ok (zeros HashLength, ro_setError (Some (StorageSplitErr e)) o)
          | Panic => Panic
          | OutOfFuel => OutOfFuel
          end
        | _ => Ok (zeros HashLength, o)
        end;
      Ok (value, if EmptyHash value then o else ro_set_storage (<[key := value]> (ro_cachedStorage o)) (ro_dirtyStorage o) o)
    | Err e => Ok (zeros HashLength, ro_setError (Some (StateTrieErr e)) o)
    | Panic => Panic
    | OutOfFuel => OutOfFuel
    end
  end.

Definition ro_setState (key value : bytes) (o : stateObjectRecord) (s : StateDBRecord) : StateDBRecord :=
  rec_put_dirty (ro_set_storage (<[key := value]> (ro_cachedStorage o)) (<[key := value]> (ro_dirtyStorage o)) o) s.

Definition ro_SetState (key value : bytes) (o : stateObjectRecord) (s : StateDBRecord) : outcome unit StateDBRecord :=
  '(prev, o) ← ro_GetState (cd_db (r_db s)) key o;
  Ok (ro_setState key value o (append_journalRecord (storageChangeRecord (ro_hash o) key prev) s)).

(** One entry of [dirtyStorage] written into the storage trie. *)
Definition ro_storage_write (db : database) (kv : bytes * bytes) (o : stateObjectRecord) (t : stt) : outcome unit (stateObjectRecord * stt) :=
  let '(key, value) := kv in
  let o := ro_set_storage (ro_cachedStorage o) (base.delete key (ro_dirtyStorage o)) o in
  if EmptyHash value then
    match tr_TryDelete db t key with
    | (Ok t, _) => Ok (o, t)
    | (Err e, t) => Ok (ro_setError (Some (StateTrieErr e)) o, t)
    | (Panic, _) => Panic
    | (OutOfFuel, _) => OutOfFuel
    end
  else
    let v := match EncodeToBytes TBytes (VBytes (trimLeft value)) with Ok v => v | _ => [] end in
    match tr_TryUpdate db t key v with
    | Ok t => Ok (o, t)
    | Err e => Ok (ro_setError (Some (StateTrieErr e)) o, t)
    | Panic => Panic
    | OutOfFuel => OutOfFuel
    end.

Fixpoint ro_storage_writes (db : database) (l : list (bytes * bytes)) (o : stateObjectRecord) (t : stt) : outcome unit (stateObjectRecord * stt) :=
  match l with
  | [] => Ok (o, t)
  | kv :: l => '(o, t) ← ro_storage_write db kv o t; ro_storage_writes db l o t
  end.

Definition ro_updateTrie (db : database) (o : stateObjectRecord) : outcome unit stateObjectRecord :=
  '(t, o) ← ro_getTrie db o;
  '(o, t) ← ro_storage_writes db (map_to_list (ro_dirtyStorage o)) o t;
  Ok (ro_set_trie (Some t) o).

Definition ro_updateRoot (db : database) (o : stateObjectRecord) : outcome unit stateObjectRecord :=
  o ← ro_updateTrie db o;
  match ro_trie o with
  | Some t => '(h, t) ← tr_Hash t; Ok (ro_set_data (rec_root h (ro_data o)) (ro_set_trie (Some t) o))
  | None => Panic
  end.

(** The error, or the object with its root; the nodes go to [dbw]. *)
Definition ro_CommitTrie (db : database) (o : stateObjectRecord) (dbw : database)
  : outcome unit (option state_error * stateObjectRecord * database) :=
  o ← ro_updateTrie db o;
  match ro_dbErr o with
  | Some e => Ok (Some e, o, dbw)
  | None =>
    match ro_trie o with
    | Some t =>
      '(root, t, dbw) ← tr_CommitTo t dbw;
      Ok (None, ro_set_data (rec_root root (ro_data o)) (ro_set_trie (Some t) o), dbw)
    | None => Panic
    end
  end.

(** ** The record database *)

Definition NewRecord (root : bytes) (d : cachingDB) : outcome trie_error StateDBRecord :=
  t ← OpenTrie root d;
  Ok (mkStateDBRecord d t ∅ ∅ None (zeros HashLength) (zeros HashLength) 0 ∅ 0 ∅ [] [] 0).

Definition rec_clearJournalAndRefund (s : StateDBRecord) : StateDBRecord :=
  set_r_revisions [] (r_nextRevisionId s) (set_r_journal [] s).

Definition rec_Reset (root : bytes) (s : StateDBRecord) : outcome trie_error StateDBRecord :=
  t ← OpenTrie root (r_db s);
  Ok (rec_clearJournalAndRefund
        (mkStateDBRecord (r_db s) t ∅ ∅ (r_dbErr s) (zeros HashLength) (zeros HashLength) 0 ∅ 0 ∅
           (r_journal s) (r_validRevisions s) (r_nextRevisionId s))).

Definition rec_AddLog (l : Log) (s : StateDBRecord) : StateDBRecord :=
  let s := append_journalRecord (addLogChangeRecord (r_thash s)) s in
  let l := mkLog (log_Address l) (log_Topics l) (log_Data l) (log_BlockNumber l) (r_thash s) (r_txIndex s)
             (r_bhash s) (r_logSize s) (log_Removed l) in
  set_r_logs (<[r_thash s := default [] (r_logs s !! r_thash s) ++ [l]]> (r_logs s)) (r_logSize s + 1) s.

Definition rec_GetLogs (h : bytes) (s : StateDBRecord) : list Log := default [] (r_logs s !! h).

Definition rec_AddPreimage (hash preimage : bytes) (s : StateDBRecord) : StateDBRecord :=
  match r_preimages s !! hash with
  | Some _ => s
  | None => set_r_preimages (<[hash := preimage]> (r_preimages s)) (append_journalRecord (addPreimageChangeRecord hash) s)
  end.

Definition rec_Prepare (th bh : bytes) (ti : Z) (s : StateDBRecord) : StateDBRecord := set_r_tx th bh ti s.

(** ** Queries *)

Definition rec_read {A} (f : stateObjectRecord -> A) (dflt : A) (h : bytes) (s : StateDBRecord) : outcome unit (A * StateDBRecord) :=
  '(obj, s) ← rec_getStateObject h s;
  Ok (match obj with Some o => f o | None => dflt end, s).

Definition rec_Exist := rec_read (fun _ => true) false.
Definition rec_Empty := rec_read ro_empty true.
Definition rec_GetOrigin := rec_read (fun o => Origin (ro_data o)) (zeros AddressLength).
Definition rec_GetOwner := rec_read (fun o => Owner (ro_data o)) (zeros AddressLength).
Definition rec_GetRecordTxs := rec_read (fun o => Txs (ro_data o)) [].
Definition rec_GetStatus := rec_read (fun o => Status (ro_data o)) 100.
Definition rec_HasSuicided := rec_read ro_suicided false.

Definition rec_GetState (h key : bytes) (s : StateDBRecord) : outcome unit (bytes * StateDBRecord) :=
  '(obj, s) ← rec_getStateObject h s;
  match obj with
  | Some o => '(v, o) ← ro_GetState (cd_db (r_db s)) key o; Ok (v, rec_setStateObject o s)
  | None => Ok (zeros HashLength, s)
  end.

(** ** Setters *)

Definition with_record (f : stateObjectRecord -> StateDBRecord -> StateDBRecord) (h : bytes) (s : StateDBRecord) : outcome unit StateDBRecord :=
  '(o, s) ← rec_GetOrNewStateObject h s;
  Ok (f o s).

Definition rec_SetOrigin (h account : bytes) := with_record (ro_SetOrigin account) h.

(** It calls [SetOrigin] of the object. *)
Definition rec_SetOwner (h account : bytes) := with_record (ro_SetOrigin account) h.

Definition rec_AddTxHash (h tx : bytes) := with_record (fun o s => ro_SetTxs (Txs (ro_data o) ++ [tx]) o s) h.

Definition rec_SetState (h key value : bytes) (s : StateDBRecord) : outcome unit StateDBRecord :=
  '(o, s) ← rec_GetOrNewStateObject h s;
  ro_SetState key value o s.

(** The origin and owner of the new object, which are zero, go to the object that is
    replaced, and so into the entry of the journal that holds it. *)
Definition CreateRecord (h : bytes) (s : StateDBRecord) : outcome unit StateDBRecord :=
  '(o, prev, s) ← rec_createObject h s;
  match prev with
  | Some p =>
    let p := ro_set_data (rec_owner (Origin (ro_data o)) (rec_origin (Origin (ro_data o)) (ro_data p))) p in
    let p := ro_set_flags (ro_suicided p) (ro_touched p) (ro_deleted p) false p in
    Ok (set_r_journal (resetObjectChangeRecord p :: drop 1 (r_journal s)) s)
  | None => Ok s
  end.

(** ** Snapshots *)

Definition rec_Snapshot (s : StateDBRecord) : Z * StateDBRecord :=
  (r_nextRevisionId s,
   set_r_revisions (r_validRevisions s ++ [mkRevision (r_nextRevisionId s) (length (r_journal s))]) (r_nextRevisionId s + 1) s).

(** A method call on an object that is not found is a nil dereference. *)
Definition rec_undo_object (h : bytes) (f : stateObjectRecord -> StateDBRecord -> StateDBRecord) (s : StateDBRecord) : outcome unit StateDBRecord :=
  '(obj, s) ← rec_getStateObject h s;
  match obj with Some o => Ok (f o s) | None => Panic end.

(** Four of the entries panic with "implement me"; the one of the transactions calls the setter
    that writes the journal. *)
Definition rec_undo (e : journalEntryRecord) (s : StateDBRecord) : outcome unit StateDBRecord :=
  match e with
  | txsChange h prev => rec_undo_object h (ro_SetTxs prev) s
  | statusChange h prev => rec_undo_object h (ro_setStatus prev) s
  | originChange h prev => rec_undo_object h (ro_setOrigin prev) s
  | ownerChange h prev => rec_undo_object h (ro_setOwner prev) s
  | addPreimageChangeRecord _ | addLogChangeRecord _ | storageChangeRecord _ _ _ | touchChangeRecord _ _ _ => Panic
  | createObjectChangeRecord h =>
    Ok (set_r_dirty (r_stateObjectsDirty s ∖ {[h]}) (set_r_objects (base.delete h (r_stateObjects s)) s))
  | resetObjectChangeRecord prev => Ok (rec_setStateObject prev s)
  | suicideChangeRecord h _ _ => '(_, s) ← rec_getStateObject h s; Ok s
  end.

Fixpoint rec_undo_all (l : list journalEntryRecord) (s : StateDBRecord) : outcome unit StateDBRecord :=
  match l with
  | [] => Ok s
  | e :: l => s ← rec_undo e s; rec_undo_all l s
  end.

(** The entries that undoing appends to the journal are cut off with the others. *)
Definition rec_RevertToSnapshot (revid : Z) (s : StateDBRecord) : outcome unit StateDBRecord :=
  let idx := revision_index revid (r_validRevisions s) in
  match r_validRevisions s !! idx with
  | Some r =>
    if rev_id r =? revid then
      let n := (length (r_journal s) - rev_journalIndex r)%nat in
      s' ← rec_undo_all (take n (r_journal s)) s;
      Ok (set_r_revisions (take idx (r_validRevisions s)) (r_nextRevisionId s') (set_r_journal (drop n (r_journal s)) s'))
    else Panic
  | None => Panic
  end.

(** ** Writing the objects *)

Definition rec_updateStateObject (o : stateObjectRecord) (s : StateDBRecord) : outcome unit StateDBRecord :=
  match EncodeToBytes Record_type (record_val (ro_data o)) with
  | Ok data =>
    match tr_TryUpdate (cd_db (r_db s)) (r_trie s) (ro_hash o) data with
    | Ok t => Ok (set_r_trie t s)
    | Err e => Ok (rec_setError (Some (StateTrieErr e)) s)
    | Panic => Panic
    | OutOfFuel => OutOfFuel
    end
  | _ => Panic
  end.

Definition rec_deleteStateObject (o : stateObjectRecord) (s : StateDBRecord) : outcome unit StateDBRecord :=
  let s := rec_setStateObject (ro_set_flags (ro_suicided o) (ro_touched o) true (ro_onDirty o) o) s in
  match tr_TryDelete (cd_db (r_db s)) (r_trie s) (ro_hash o) with
  | (Ok t, _) => Ok (set_r_trie t s)
  | (Err e, t) => Ok (rec_setError (Some (StateTrieErr e)) (set_r_trie t s))
  | (Panic, _) => Panic
  | (OutOfFuel, _) => OutOfFuel
  end.

Definition rec_finalise_object (deleteEmptyObjects : bool) (h : bytes) (s : StateDBRecord) : outcome unit StateDBRecord :=
  match r_stateObjects s !! h with
  | None => Panic
  | Some o =>
    if ro_suicided o || (deleteEmptyObjects && ro_empty o) then rec_deleteStateObject o s
    else
      o ← ro_updateRoot (cd_db (r_db s)) o;
      rec_updateStateObject o (rec_setStateObject o s)
  end.

Fixpoint rec_finalise_all (deleteEmptyObjects : bool) (l : list bytes) (s : StateDBRecord) : outcome unit StateDBRecord :=
  match l with
  | [] => Ok s
  | h :: l => s ← rec_finalise_object deleteEmptyObjects h s; rec_finalise_all deleteEmptyObjects l s
  end.

(** The dirty objects stay marked. *)
Definition rec_Finalise (deleteEmptyObjects : bool) (s : StateDBRecord) : outcome unit StateDBRecord :=
  s ← rec_finalise_all deleteEmptyObjects (elements (r_stateObjectsDirty s)) s;
  Ok (rec_clearJournalAndRefund s).

Definition rec_IntermediateRoot (deleteEmptyObjects : bool) (s : StateDBRecord) : outcome unit (bytes * StateDBRecord) :=
  s ← rec_Finalise deleteEmptyObjects s;
  '(h, t) ← tr_Hash (r_trie s);
  Ok (h, set_r_trie t s).

Fixpoint rec_delete_suicides (l : list bytes) (s : StateDBRecord) : outcome unit StateDBRecord :=
  match l with
  | [] => Ok s
  | h :: l =>
    match r_stateObjects s !! h with
    | None => Panic
    | Some o =>
      let s := if ro_suicided o then rec_setStateObject (ro_set_flags true (ro_touched o) true (ro_onDirty o) o) s else s in
      rec_delete_suicides l (set_r_dirty (r_stateObjectsDirty s ∖ {[h]}) s)
    end
  end.

Definition rec_DeleteSuicides (s : StateDBRecord) : outcome unit StateDBRecord :=
  let s := rec_clearJournalAndRefund s in
  rec_delete_suicides (elements (r_stateObjectsDirty s)) s.

Definition rec_commit_object (deleteEmptyObjects : bool) (h : bytes) (s : StateDBRecord) (dbw : database)
  : outcome unit (option state_error * StateDBRecord * database) :=
  match r_stateObjects s !! h with
  | None => Panic
  | Some o =>
    let isDirty := bool_decide (h ∈ r_stateObjectsDirty s) in
    let unmark s := set_r_dirty (r_stateObjectsDirty s ∖ {[h]}) s in
    if ro_suicided o || (isDirty && deleteEmptyObjects && ro_empty o) then
      s ← rec_deleteStateObject o s; Ok (None, unmark s, dbw)
    else if isDirty then
      '(err, o, dbw) ← ro_CommitTrie (cd_db (r_db s)) o dbw;
      let s := rec_setStateObject o s in
      match err with
      | Some e => Ok (Some e, s, dbw)
      | None => s ← rec_updateStateObject o s; Ok (None, unmark s, dbw)
      end
    else Ok (None, unmark s, dbw)
  end.

Fixpoint rec_commit_all (deleteEmptyObjects : bool) (l : list bytes) (s : StateDBRecord) (dbw : database)
  : outcome unit (option state_error * StateDBRecord * database) :=
  match l with
  | [] => Ok (None, s, dbw)
  | h :: l =>
    '(err, s, dbw) ← rec_commit_object deleteEmptyObjects h s dbw;
    match err with
    | Some e => Ok (Some e, s, dbw)
    | None => rec_commit_all deleteEmptyObjects l s dbw
    end
  end.

(** The root, or the error of an object; the journal is cleared in both cases. *)
Definition rec_CommitTo (deleteEmptyObjects : bool) (s : StateDBRecord) (dbw : database)
  : outcome unit ((state_error + bytes) * StateDBRecord * database) :=
  '(err, s, dbw) ← rec_commit_all deleteEmptyObjects (elements (dom (r_stateObjects s))) s dbw;
  match err with
  | Some e => Ok (inl e, rec_clearJournalAndRefund s, dbw)
  | None =>
    '(root, t, dbw) ← tr_CommitTo (r_trie s) dbw;
    let d := mkStateDBRecord (pushTrie t (r_db s)) t (r_stateObjects s) (r_stateObjectsDirty s) (r_dbErr s) (r_thash s) (r_bhash s)
      (r_txIndex s) (r_logs s) (r_logSize s) (r_preimages s) (r_journal s) (r_validRevisions s) (r_nextRevisionId s) in
    Ok (inr root, rec_clearJournalAndRefund d, dbw)
  end.

(** ** Specification *)

Record rec := mkRec { rc_origin : bytes; rc_owner : bytes; rc_txs : list bytes; rc_status : Z }.

Definition rec_of (d : RecordData) : rec := mkRec (Origin d) (Owner d) (Txs d) (Status d).

(** The records by hash. *)
Definition records : Type := bytes -> option rec.

Definition rset (h : bytes) (x : rec) (R : records) : records := fun b => if decide (b = h) then Some x else R b.

(** A record without storage, with room for [n] more transactions. *)
Definition rplain (n : Z) (d : RecordData) : Prop :=
  is_address (Origin d) /\ is_address (Owner d) /\ Forall is_hash (Txs d) /\ Z.of_nat (length (Txs d)) + n < 2 ^ 26 /\
  0 <= Status d < 256 /\ is_hash (RecRoot d) /\ plain_root (RecRoot d).

Definition enc_record (d : RecordData) : bytes := enc_value Record_type (record_val d).

Definition dec_record (v : bytes) : option RecordData :=
  match DecodeBytes Record_type v with Ok v => val_record v | _ => None end.

(** The record of a hash in the trie. *)
Definition trec (m : gmap bytes bytes) (h : bytes) : option RecordData := m !! tr_key h ≫= dec_record.

Definition rstrep (db : database) (o : stateObjectRecord) : Prop :=
  match ro_trie o with
  | Some t => tr_holds db t ∅
  | None => exists t, tr_open db (RecRoot (ro_data o)) 0 = Ok t /\ tr_holds db t ∅
  end.

Definition rplain_object (n : Z) (db : database) (h : bytes) (o : stateObjectRecord) : Prop :=
  ro_hash o = h /\ rplain n (ro_data o) /\ ro_dirtyStorage o = ∅ /\ rstrep db o /\ ro_suicided o = false /\ ro_deleted o = false.

(** The state over a trie that holds [m], for hashes in [A]: objects without storage, the
    dirty ones marked, the others equal to their record in the trie. *)
Record rec_state (A : gset bytes) (n : Z) (m : gmap bytes bytes) (s : StateDBRecord) : Prop := mkRecState {
  rs_holds : tr_holds (cd_db (r_db s)) (r_trie s) m;
  rs_trie : forall k v, m !! k = Some v -> len k = 32 /\ exists d, rplain n d /\ v = enc_record d;
  rs_objects : forall h o, r_stateObjects s !! h = Some o -> h ∈ A /\ rplain_object n (cd_db (r_db s)) h o;
  rs_dirty : forall h, h ∈ r_stateObjectsDirty s -> is_Some (r_stateObjects s !! h);
  rs_clean : forall h o, r_stateObjects s !! h = Some o -> h ∉ r_stateObjectsDirty s -> ro_onDirty o = true /\ trec m h = Some (ro_data o);
  rs_room : 0 <= n < 2 ^ 26
}.

(** The object that reads of a hash see, and the records they show. *)
Definition roview (m : gmap bytes bytes) (s : StateDBRecord) (h : bytes) : option stateObjectRecord :=
  match r_stateObjects s !! h with
  | Some o => Some o
  | None => (fun d => newObjectRecord h d true) <$> trec m h
  end.

Definition rview (m : gmap bytes bytes) (s : StateDBRecord) : records := fun h => (fun o => rec_of (ro_data o)) <$> roview m s h.

Definition rholds (A : gset bytes) (n : Z) (m : gmap bytes bytes) (s : StateDBRecord) (R : records) : Prop :=
  rec_state A n m s /\ forall h, h ∈ A -> rview m s h = R h.

(** ** Lemmas: records *)

Lemma rt_record n d : rplain n d -> rt Record_type (record_val d).
Proof.
  intros (Ho & Hw & Ht & _ & Hs & Hr & _).
  assert (Ts : rt (TSlice (TByteArray 32)) (VList (map VBytes (Txs d)))).
  { apply rt_slice; [done|]. apply Forall_map. eapply Forall_impl; [|exact Ht]. intros h. apply rt_hash. }
  pose proof (rt_address _ Ho) as R1. pose proof (rt_address _ Hw) as R2. pose proof (rt_hash _ Hr) as R5.
  split; [done|]. split; [exact R1|]. split; [done|]. split; [exact R2|]. split; [done|]. split; [exact Ts|].
  split; [done|]. split; [split; [done|auto]|]. split; [done|]. split; [exact R5|done].
Qed.

Lemma enc_record_eq d :
  enc_record d = enc_list (enc_string (Origin d) ++ enc_string (Owner d) ++ enc_list (concat (map enc_string (Txs d))) ++
    enc_string (be_min (Status d)) ++ enc_string (RecRoot d)).
Proof. unfold enc_record. cbn. by rewrite map_map, app_nil_r. Qed.

Lemma enc_record_len n d : rplain n d -> 0 <= n -> len (enc_record d) < 2 ^ 32.
Proof.
  intros ([Lo Oo] & [Lw Ow] & Ht & Hn & Hs & [Lr Or] & _) Hn0. unfold AddressLength, HashLength in *.
  assert (B1 : len (enc_string (Origin d)) <= 41) by (apply (len_enc_bytes _ 32); lia).
  assert (B2 : len (enc_string (Owner d)) <= 41) by (apply (len_enc_bytes _ 32); lia).
  assert (B3 : len (enc_string (be_min (Status d))) <= 41) by (apply (len_enc_bytes _ 32); [apply len_be_min_big; lia|lia]).
  assert (B5 : len (enc_string (RecRoot d)) <= 41) by (apply (len_enc_bytes _ 32); lia).
  pose proof (len_concat_bound 41 (map enc_string (Txs d))) as B4.
  rewrite Forall_map, length_map in B4. specialize (B4 ltac:(eapply Forall_impl; [|exact Ht]; intros h [L _]; unfold HashLength in L; apply (len_enc_bytes _ 32); lia)).
  rewrite enc_record_eq. set (recs := concat (map enc_string (Txs d))) in *. pose proof (len_enc_list_le recs ltac:(lia)).
  match goal with |- len (enc_list ?c) < _ => pose proof (len_enc_list_le c) as B end. rewrite !len_app in B. lia.
Qed.

Lemma enc_record_bytes n d : rplain n d -> 0 <= n -> bytes_ok (enc_record d).
Proof.
  intros P Hn. pose proof (enc_record_len n d P Hn) as L. destruct P as (Ho & Hw & Ht & _ & Hs & Hr & _).
  assert (Lh : forall h, bytes_ok h -> len h <= 32 -> bytes_ok (enc_string h)) by (intros; apply enc_string_ok; [done|lia]).
  assert (H32 : forall h, is_hash h -> bytes_ok (enc_string h)) by (intros h [L1 L2]; unfold HashLength in L1; apply Lh; [done|lia]).
  assert (H20 : forall h, is_address h -> bytes_ok (enc_string h)) by (intros h [L1 L2]; unfold AddressLength in L1; apply Lh; [done|lia]).
  rewrite enc_record_eq in *. match goal with |- bytes_ok (enc_list ?c) => set (c' := c) in * end.
  assert (Lc : len c' < 2 ^ 64) by (unfold enc_list in L; rewrite len_app in L; pose proof (len_nonneg (enc_head 0xC0 0xF7 (len c'))); lia).
  apply enc_list_ok; [|done]. unfold c' in *. rewrite !len_app in Lc. set (recs := concat (map enc_string (Txs d))) in *.
  assert (Or : bytes_ok recs).
  { unfold recs. clear -Ht H32. induction Ht as [|h hs Hh _ IH]; [constructor|]. cbn. apply bytes_ok_app. split; [by apply H32|done]. }
  assert (Lr : len recs < 2 ^ 64).
  { unfold enc_list in Lc. rewrite len_app in Lc. pose proof (len_nonneg (enc_head 0xC0 0xF7 (len recs))).
    pose proof (len_nonneg (enc_string (Origin d))). pose proof (len_nonneg (enc_string (Owner d))).
    pose proof (len_nonneg (enc_string (be_min (Status d)))). pose proof (len_nonneg (enc_string (RecRoot d))). lia. }
  rewrite !bytes_ok_app. split; [by apply H20|]. split; [by apply H20|]. split; [by apply enc_list_ok|]. split; [|by apply H32].
  apply Lh; [apply be_min_ok|apply len_be_min_big; lia].
Qed.

Lemma val_record_val d : val_record (record_val d) = Some d.
Proof. unfold val_record, record_val. rewrite map_map, map_id. by destruct d. Qed.

Lemma dec_enc_record n d : rplain n d -> 0 <= n -> DecodeBytes Record_type (enc_record d) = Ok (record_val d).
Proof.
  intros H Hn. apply DecodeBytes_enc_value; [by eapply rt_record|done|]. pose proof (enc_record_len n d H Hn). unfold enc_record in *. lia.
Qed.

Lemma enc_record_nonempty n d : rplain n d -> enc_record d <> [].
Proof.
  intros H E. pose proof (is_item_nonempty _ (rt_item _ _ (rt_record n d H) eq_refl)) as L. unfold enc_record in E. by rewrite E in L.
Qed.

Lemma rplain_mono n n' d : rplain n d -> n' <= n -> rplain n' d.
Proof. intros (? & ? & ? & R & ?) L. split; [done|]. split; [done|]. split; [done|]. split; [lia|done]. Qed.

Lemma trec_enc n m h d : m !! tr_key h = Some (enc_record d) -> rplain n d -> 0 <= n -> trec m h = Some d.
Proof.
  intros E P Hn. unfold trec. rewrite E. cbn [mbind option_bind]. unfold dec_record. by rewrite (dec_enc_record n), val_record_val.
Qed.

Lemma trec_plain A n m s h d : rec_state A n m s -> trec m h = Some d -> rplain n d /\ m !! tr_key h = Some (enc_record d).
Proof.
  intros [W T O D C R] Ed. unfold trec in Ed. destruct (m !! tr_key h) as [v|] eqn:E; [|done]. destruct (T _ _ E) as (_ & d' & P & ->).
  cbn [mbind option_bind] in Ed. unfold dec_record in Ed. rewrite (dec_enc_record n), val_record_val in Ed by (done || lia). by injection Ed as <-.
Qed.

Lemma rec_state_mono A n n' m s : rec_state A n m s -> 0 <= n' <= n -> rec_state A n' m s.
Proof.
  intros [W T O D C R] L. split; [done|..|done|done|lia].
  - intros k v E. destruct (T k v E) as (Lk & d & P & ->). split; [done|]. exists d. split; [eapply rplain_mono; [done|lia]|done].
  - intros h o E. destruct (O h o E) as (Ih & Eh & P & Q). split; [done|]. split; [done|]. split; [eapply rplain_mono; [done|lia]|done].
Qed.

Lemma rec_small A n m s : rec_state A n m s -> small m.
Proof.
  intros [W T O D C R] k v E. destruct (T k v E) as (Lk & d & P & ->). split; [lia|]. split; [by apply (enc_record_bytes n); [|lia]|].
  apply (enc_record_len n); [done|lia].
Qed.

Lemma rec_journal A n m s j : rec_state A n m s -> rec_state A n m (set_r_journal j s).
Proof. intros [W T O D C R]. by split. Qed.

(** ** Lemmas: looking up objects *)

(** The fields that an update of an object leaves alone. *)
Definition rframe (s' s : StateDBRecord) : Prop :=
  r_db s' = r_db s /\ r_logs s' = r_logs s /\ r_thash s' = r_thash s /\ r_bhash s' = r_bhash s /\ r_txIndex s' = r_txIndex s.

#[export] Instance rframe_preorder : PreOrder rframe.
Proof. split; [done|]. intros s1 s2 s3 (?&?&?&?&?) (?&?&?&?&?). repeat split; congruence. Qed.

Lemma rec_getStateObject_holds A n m s h :
  rec_state A n m s -> h ∈ A ->
  exists s', rec_getStateObject h s = Ok (roview m s h, s') /\ rec_state A n m s' /\ rframe s' s /\
    (forall b, roview m s' b = roview m s b) /\ (forall o, roview m s h = Some o -> r_stateObjects s' !! h = Some o).
Proof.
  intros H Hh. pose proof H as [W T O D C R]. unfold rec_getStateObject, roview at 1.
  destruct (r_stateObjects s !! h) as [o|] eqn:Eo.
  { destruct (O h o Eo) as (_ & _ & _ & _ & _ & _ & ->). exists s. split; [done|]. split; [done|]. split; [done|]. split; [done|].
    intros o'. unfold roview. rewrite Eo. done. }
  destruct (tr_get_law _ _ m h W) as (t & -> & W'). destruct (trec m h) as [d|] eqn:Et.
  - destruct (trec_plain A n m s h d H Et) as [Pd Em]. rewrite Em.
    pose proof (enc_record_nonempty n d Pd) as NE. destruct (enc_record d) as [|b enc] eqn:Ee; [done|]. rewrite <- Ee.
    rewrite (dec_enc_record n), val_record_val by (done || lia). eexists. split; [reflexivity|].
    assert (Eob : r_stateObjects (rec_setStateObject (newObjectRecord h d true) (set_r_trie t s)) = <[h := newObjectRecord h d true]> (r_stateObjects s)) by done.
    split; [|split; [done|split]].
    + split; rewrite ?Eob; try done.
      * intros b' o. rewrite lookup_insert. case_decide as Db; [|apply O]. intros [= <-]. subst b'. split; [done|].
        split; [done|]. split; [done|]. split; [done|]. split; [apply tr_open_empty, Pd|done].
      * intros b' Hd. rewrite lookup_insert. case_decide; [done|]. by apply D.
      * intros b' o. rewrite lookup_insert. case_decide as Db; [|apply C]. intros [= <-] _. subst b'. done.
    + intros b'. unfold roview. rewrite Eob, lookup_insert. case_decide as Db; [|done]. subst b'. by rewrite Eo, Et.
    + intros o. unfold roview. rewrite Eo, Et. cbn [fmap option_fmap option_map]. intros [= <-]. rewrite Eob. apply lookup_insert_eq.
  - assert (En : exists v, m !! tr_key h = v /\ (v = None)).
    { destruct (m !! tr_key h) as [v|] eqn:E; [|by eexists]. destruct (T _ _ E) as (_ & d & P & ->).
      rewrite (trec_enc n m h d) in Et by (done || lia). done. }
    destruct En as (v & -> & ->). exists (set_r_trie t s). split; [done|]. split; [by split|]. split; [done|]. split; [done|].
    intros o. unfold roview. by rewrite Eo, Et.
Qed.

(** ** Lemmas: writing objects *)

Definition ro_undirty (o : stateObjectRecord) : stateObjectRecord :=
  if ro_onDirty o then ro_set_flags (ro_suicided o) (ro_touched o) (ro_deleted o) false o else o.

Lemma rec_put_dirty_objects o s : r_stateObjects (rec_put_dirty o s) = <[ro_hash o := ro_undirty o]> (r_stateObjects s).
Proof. unfold rec_put_dirty, ro_undirty. by destruct (ro_onDirty o). Qed.

(** Replacing the data of an object. *)
Lemma put_record A n m s h o d :
  rec_state A n m s -> r_stateObjects s !! h = Some o -> rplain n d -> RecRoot d = RecRoot (ro_data o) ->
  let s' := rec_put_dirty (ro_set_data d o) s in
  rec_state A n m s' /\ rframe s' s /\ r_stateObjects s' !! h = Some (ro_undirty (ro_set_data d o)) /\
  forall b, rview m s' b = rset h (rec_of d) (rview m s) b.
Proof.
  intros H Eo Pd Er s'. pose proof H as [W T O D C R]. destruct (O h o Eo) as (Ih & Eh & Po & Ds & St & Su & De).
  assert (Eob : r_stateObjects s' = <[h := ro_undirty (ro_set_data d o)]> (r_stateObjects s)).
  { unfold s'. rewrite rec_put_dirty_objects. cbn. by rewrite Eh. }
  assert (Edb : r_db s' = r_db s /\ r_trie s' = r_trie s) by (unfold s', rec_put_dirty; by destruct (ro_onDirty _)). destruct Edb as [Edb Etr].
  assert (Edy : r_stateObjectsDirty s' = (if ro_onDirty o then {[h]} ∪ r_stateObjectsDirty s else r_stateObjectsDirty s)).
  { unfold s', rec_put_dirty. cbn. rewrite Eh. by destruct (ro_onDirty o). }
  assert (Po' : rplain_object n (cd_db (r_db s)) h (ro_undirty (ro_set_data d o))).
  { unfold ro_undirty, rplain_object, rstrep in *. cbn. destruct (ro_onDirty o); cbn; (destruct (ro_trie o); [done|]; rewrite Er; done). }
  split; [|split; [unfold s', rec_put_dirty; by destruct (ro_onDirty _)|split; [rewrite Eob; apply lookup_insert_eq|]]].
  - split; rewrite ?Eob, ?Edb, ?Etr, ?Edy; try done.
    + intros b x. rewrite lookup_insert. case_decide as Db; [|apply O]. intros [= <-]. by subst b.
    + intros b Hd. rewrite lookup_insert. case_decide as Db; [by eexists|]. apply D. destruct (ro_onDirty o); [by eapply added_other|done].
    + intros b x. rewrite lookup_insert. case_decide as Db.
      * subst b. intros _ Nd. destruct (ro_onDirty o) eqn:Od; [apply not_added in Nd as [Na _]; by destruct Na|]. destruct (C h o Eo Nd) as [Od' _]. congruence.
      * intros E Nd. apply C; [done|]. destruct (ro_onDirty o); [by apply not_added in Nd as [_ Nd]|done].
  - intros b. unfold rset, rview, roview. rewrite Eob, lookup_insert. destruct (decide (b = h)) as [->|N].
    + rewrite decide_True by done. unfold ro_undirty. by destruct (ro_onDirty _).
    + by rewrite decide_False by done.
Qed.

Definition fresh_record (h : bytes) : stateObjectRecord := newObjectRecord h (rec_status 0 zeroRecord) false.

Lemma rplain_zero n : n < 2 ^ 26 -> rplain n (rec_status 0 zeroRecord).
Proof.
  intros R. assert (Z20 : is_address (zeros AddressLength)) by (split; [done|apply bytes_ok_zeros]).
  split; [done|]. split; [done|]. split; [constructor|]. split; [cbn; lia|]. split; [cbn; lia|].
  split; [split; [done|apply bytes_ok_zeros]|by left].
Qed.

Lemma rec_GetOrNew_holds A n m s h :
  rec_state A n m s -> h ∈ A ->
  exists o s', rec_GetOrNewStateObject h s = Ok (o, s') /\ rec_state A n m s' /\ rframe s' s /\ r_stateObjects s' !! h = Some o /\
    rec_of (ro_data o) = default (rec_of zeroRecord) (rview m s h) /\
    forall b, rview m s' b = if decide (b = h) then Some (rec_of (ro_data o)) else rview m s b.
Proof.
  intros H Hh. unfold rec_GetOrNewStateObject. destruct (rec_getStateObject_holds A n m s h H Hh) as (s1 & -> & H1 & F1 & V1 & Lo).
  cbn [mbind outcome_bind]. assert (R1 : forall b, rview m s1 b = rview m s b) by (intros; unfold rview; by rewrite V1).
  unfold rview at 1. destruct (roview m s h) as [o|] eqn:V.
  - exists o, s1. split; [done|]. split; [done|]. split; [done|]. split; [by apply Lo|]. split; [done|].
    intros b. rewrite R1. case_decide; [|done]. subst b. unfold rview. by rewrite V.
  - unfold rec_createObject. destruct (rec_getStateObject_holds A n m s1 h H1 Hh) as (s2 & -> & H2 & F2 & V2 & _).
    rewrite V1, V. cbn [mbind outcome_bind]. exists (fresh_record h). eexists. split; [reflexivity|]. pose proof H2 as [W T O D C R].
    split; [|split; [by etrans|split; [apply lookup_insert_eq|split; [done|]]]].
    + split; try done.
      * intros b x. unfold rec_setStateObject. cbn [r_stateObjects set_r_objects r_db ro_hash newObjectRecord append_journalRecord set_r_journal rec_MarkStateObjectDirty set_r_dirty].
        rewrite lookup_insert. case_decide as Db; [|apply O]. intros [= <-]. subst b. split; [done|]. split; [done|].
        split; [apply rplain_zero; lia|]. split; [done|]. split; [apply tr_open_empty; by left|done].
      * intros b. unfold rec_setStateObject. cbn. intros Hd. rewrite lookup_insert. case_decide as Db; [by eexists|]. apply D. by eapply added_other.
      * intros b x. unfold rec_setStateObject. cbn. rewrite lookup_insert. intros E Nd. apply not_added in Nd as [Na Nd].
        rewrite decide_False in E by done. by apply C.
    + intros b. unfold rview, roview, rec_setStateObject. cbn. rewrite lookup_insert. destruct (decide (b = h)) as [->|N].
      * by rewrite decide_True by done.
      * rewrite decide_False by done. fold (roview m s2 b). rewrite V2, V1. done.
Qed.

(** ** Lemmas: the operations *)

Lemma NewRecord_empty A n d :
  pastTries d = [] -> 0 <= n < 2 ^ 26 -> exists s, NewRecord (zeros HashLength) d = Ok s /\ r_db s = d /\ rholds A n ∅ s (fun _ => None).
Proof.
  intros Ep Hn. unfold NewRecord, OpenTrie. rewrite Ep. cbn [rev find_past].
  destruct (tr_open_empty (cd_db d) (zeros HashLength) MaxTrieCacheGen) as (t & -> & Ht); [by left|]. cbn [mbind outcome_bind].
  eexists. split; [reflexivity|]. split; [done|]. split; [|done]. by split.
Qed.

Lemma rec_read_holds {B} (f : stateObjectRecord -> B) d A n m s R h :
  rholds A n m s R -> h ∈ A ->
  exists s', rec_read f d h s = Ok (match roview m s h with Some o => f o | None => d end, s') /\ rholds A n m s' R /\ rframe s' s.
Proof.
  intros [H V] Hh. unfold rec_read. destruct (rec_getStateObject_holds A n m s h H Hh) as (s1 & -> & H1 & F1 & V1 & _).
  cbn [mbind outcome_bind]. exists s1. split; [done|]. split; [|done]. split; [done|]. intros b Hb. unfold rview. rewrite V1. by apply V.
Qed.

Lemma rec_Exist_holds A n m s R h :
  rholds A n m s R -> h ∈ A -> exists s', rec_Exist h s = Ok (bool_decide (is_Some (R h)), s') /\ rholds A n m s' R /\ rframe s' s.
Proof.
  intros H Hh. destruct (rec_read_holds (fun _ => true) false A n m s R h H Hh) as (s' & E & H' & F). exists s'. split; [|done].
  unfold rec_Exist. rewrite E, <- (proj2 H h Hh). unfold rview. by destruct (roview m s h).
Qed.

Lemma rec_GetOwner_holds A n m s R h :
  rholds A n m s R -> h ∈ A ->
  exists s', rec_GetOwner h s = Ok (match R h with Some r => rc_owner r | None => zeros AddressLength end, s') /\ rholds A n m s' R /\ rframe s' s.
Proof.
  intros H Hh. destruct (rec_read_holds (fun o => Owner (ro_data o)) (zeros AddressLength) A n m s R h H Hh) as (s' & E & H' & F). exists s'.
  split; [|done]. unfold rec_GetOwner. rewrite E, <- (proj2 H h Hh). unfold rview. by destruct (roview m s h).
Qed.

Lemma rec_GetStatus_holds A n m s R h :
  rholds A n m s R -> h ∈ A ->
  exists s', rec_GetStatus h s = Ok (match R h with Some r => rc_status r | None => 100 end, s') /\ rholds A n m s' R /\ rframe s' s.
Proof.
  intros H Hh. destruct (rec_read_holds (fun o => Status (ro_data o)) 100 A n m s R h H Hh) as (s' & E & H' & F). exists s'.
  split; [|done]. unfold rec_GetStatus. rewrite E, <- (proj2 H h Hh). unfold rview. by destruct (roview m s h).
Qed.

(** The setters of an object that is in the cache. *)
Lemma ro_set_holds A n n' m s R h o f g :
  rholds A n m s R -> r_stateObjects s !! h = Some o -> 0 <= n' <= n ->
  (exists j, f o s = rec_put_dirty (ro_set_data (g (ro_data o)) o) (set_r_journal j s)) ->
  rplain n' (g (ro_data o)) -> RecRoot (g (ro_data o)) = RecRoot (ro_data o) ->
  rholds A n' m (f o s) (rset h (rec_of (g (ro_data o))) R) /\ rframe (f o s) s /\
  r_stateObjects (f o s) !! h = Some (ro_undirty (ro_set_data (g (ro_data o)) o)).
Proof.
  intros [H V] Eo Ln (j & ->) Pd Er. pose proof (rec_journal _ _ _ _ j (rec_state_mono _ _ n' _ _ H Ln)) as H1.
  destruct (put_record A n' m (set_r_journal j s) h o (g (ro_data o)) H1 Eo Pd Er) as (H2 & F2 & E2 & V2).
  split; [|split; [done|done]]. split; [done|]. intros b Hb. rewrite V2. unfold rset. case_decide; [done|]. change (rview m s b = R b). by apply V.
Qed.

Lemma with_record_holds A n n' m s R h f g :
  rholds A n m s R -> h ∈ A -> 0 <= n' <= n ->
  (forall o s, exists j, f o s = rec_put_dirty (ro_set_data (g (ro_data o)) o) (set_r_journal j s)) ->
  (forall d, rplain n d -> rplain n' (g d) /\ RecRoot (g d) = RecRoot d) ->
  exists s' d, with_record f h s = Ok s' /\ rec_of d = default (rec_of zeroRecord) (R h) /\
    rholds A n' m s' (rset h (rec_of (g d)) R) /\ rframe s' s.
Proof.
  intros H Hh Ln Ef Eg. unfold with_record. destruct H as [H V]. destruct (rec_GetOrNew_holds A n m s h H Hh) as (o & s1 & -> & H1 & F1 & Eo & Ed & V1).
  cbn [mbind outcome_bind]. destruct (rs_objects _ _ _ _ H1 h o Eo) as (_ & _ & Po & _). destruct (Eg _ Po) as [Pd Er].
  assert (H1' : rholds A n m s1 (rset h (rec_of (ro_data o)) R)).
  { split; [done|]. intros b Hb. rewrite V1. unfold rset. case_decide; [done|by apply V]. }
  destruct (ro_set_holds A n n' m s1 _ h o f g H1' Eo Ln (Ef o s1) Pd Er) as ([H2 V2] & F2 & _).
  exists (f o s1), (ro_data o). split; [done|]. split; [by rewrite Ed, V|]. split; [|by etrans]. split; [done|].
  intros b Hb. rewrite V2 by done. unfold rset. by case_decide.
Qed.

(** ** Lemmas: writing the objects into the trie *)

Lemma ro_updateRoot_plain n db h o :
  rplain_object n db h o ->
  exists t, ro_updateRoot db o = Ok (ro_set_data (rec_root emptyRoot (ro_data o)) (ro_set_trie (Some t) o)) /\ tr_holds db t ∅.
Proof.
  intros (_ & _ & Ds & St & _). unfold ro_updateRoot, ro_updateTrie.
  assert (G : exists t, ro_getTrie db o = Ok (t, ro_set_trie (Some t) o) /\ tr_holds db t ∅).
  { unfold rstrep in St. unfold ro_getTrie. destruct (ro_trie o) as [t|] eqn:Et.
    - exists t. split; [|done]. rewrite <- Et. by destruct o.
    - destruct St as (t & -> & Ht). by exists t. }
  destruct G as (t & -> & Ht). cbn [mbind outcome_bind]. cbn [ro_set_trie ro_dirtyStorage]. rewrite Ds, map_to_list_empty.
  cbn [ro_storage_writes mbind outcome_bind ro_set_trie ro_trie]. destruct (tr_hash_law db t ∅ Ht) as (t' & -> & Ht'); [by intros ? ?|].
  cbn [mbind outcome_bind]. exists t'. split; [|done]. by rewrite map_root_empty.
Qed.

Section WriteRecords.
Context (A : gset bytes) (keys : forall a b, a ∈ A -> b ∈ A -> tr_key a = tr_key b -> a = b).

(** The records in the trie. *)
Definition trecords (m : gmap bytes bytes) : records := fun h => rec_of <$> trec m h.

Lemma rec_finalise_object_holds del n m s h :
  rec_state A n m s -> h ∈ r_stateObjectsDirty s ->
  exists s' m', rec_finalise_object del h s = Ok s' /\ rec_state A n m' s' /\ rframe s' s /\ r_stateObjectsDirty s' = r_stateObjectsDirty s /\
    (forall b, b ∈ A -> rview m' s' b = rview m s b) /\ trecords m' h = rview m s h /\
    (forall b, b ∈ A -> b <> h -> trec m' b = trec m b).
Proof.
  intros H Hd. pose proof H as [W T O D C R]. destruct (D h Hd) as [o Eo]. unfold rec_finalise_object. rewrite Eo.
  destruct (O h o Eo) as (Ih & Po). pose proof Po as (Eh & Pd & Ds & St & Su & De).
  rewrite Su. replace (del && ro_empty o) with false by (by destruct del). cbn [orb].
  destruct (ro_updateRoot_plain n _ h o Po) as (t & -> & Ht). cbn [mbind outcome_bind].
  set (d := rec_root emptyRoot (ro_data o)). assert (Pd' : rplain n d).
  { destruct Pd as (P1 & P2 & P3 & P4 & P5 & _). do 5 (split; [done|]). split; [apply is_hash_emptyRoot|by right]. }
  set (o' := ro_set_data d (ro_set_trie (Some t) o)). unfold rec_updateStateObject. change (ro_data o') with d.
  destruct (EncodeToBytes_spec Record_type (record_val d)) as [-> _];
    [by eapply rt_wt, rt_record|pose proof (enc_record_len n d Pd' ltac:(lia)); unfold enc_record in *; lia|].
  cbn [rec_setStateObject set_r_objects r_db r_trie ro_hash ro_set_data ro_set_trie]. change (ro_hash o') with (ro_hash o). rewrite Eh.
  destruct (tr_update_law _ _ _ h (enc_record d) W) as (t' & E & Ht'); [by eapply enc_record_nonempty|].
  unfold enc_record in E. rewrite E. set (m' := <[tr_key h := enc_record d]> m) in *.
  assert (Kb : forall b, b ∈ A -> b <> h -> trec m' b = trec m b).
  { intros b Hb N. unfold trec, m'. rewrite lookup_insert_ne; [done|]. intros E'. by apply N, keys. }
  assert (Th : trec m' h = Some d) by (apply (trec_enc n); [apply lookup_insert_eq|done|lia]).
  eexists _, m'. split; [reflexivity|]. split; [|split; [done|split; [done|split; [|split; [|done]]]]].
  - split; try done.
    + intros k v. unfold m'. rewrite lookup_insert. case_decide as Dk; [|apply T]. intros [= <-]. subst k. split; [apply tr_key_hash|]. by exists d.
    + intros b x. cbn. rewrite Eh, lookup_insert. case_decide as Db; [|apply O]. intros [= <-]. subst b. split; [done|].
      split; [done|]. split; [done|]. split; [done|]. split; [exact Ht|done].
    + intros b Hb. cbn. rewrite Eh, lookup_insert. case_decide; [by eexists|]. by apply D.
    + intros b x. cbn. rewrite Eh, lookup_insert. case_decide as Db; [by subst b|]. intros E' Nd. rewrite Kb; [by apply C|by apply (O b x E')|done].
  - intros b Hb. unfold rview, roview. cbn. rewrite Eh, lookup_insert. case_decide as Db; [subst b; by rewrite Eo|]. by rewrite Kb by done.
  - unfold trecords, rview, roview. by rewrite Th, Eo.
Qed.

Lemma rec_finalise_all_holds del n l : forall m s,
  rec_state A n m s -> (forall a, a ∈ l -> a ∈ r_stateObjectsDirty s) -> NoDup l ->
  exists s' m', rec_finalise_all del l s = Ok s' /\ rec_state A n m' s' /\ rframe s' s /\ r_stateObjectsDirty s' = r_stateObjectsDirty s /\
    (forall b, b ∈ A -> rview m' s' b = rview m s b) /\ (forall a, a ∈ l -> trecords m' a = rview m s a) /\
    (forall b, b ∈ A -> b ∉ l -> trec m' b = trec m b).
Proof.
  induction l as [|a l IH]; intros m s H Hd ND.
  - exists s, m. split; [done|]. split; [done|]. split; [done|]. split; [done|]. split; [done|]. split; [|done]. intros a Ha. by apply elem_of_nil in Ha.
  - apply list.NoDup_cons in ND as [Na ND]. cbn [rec_finalise_all].
    destruct (rec_finalise_object_holds del n m s a H) as (s1 & m1 & -> & H1 & F1 & D1 & V1 & T1 & K1); [apply Hd; by left|].
    cbn [mbind outcome_bind]. assert (IA : forall b, b ∈ a :: l -> b ∈ A).
    { intros b Hb. destruct (rs_dirty _ _ _ _ H b (Hd b Hb)) as [o Eo]. by apply (rs_objects _ _ _ _ H b o Eo). }
    destruct (IH m1 s1 H1) as (s2 & m2 & -> & H2 & F2 & D2 & V2 & T2 & K2); [intros b Hb; rewrite D1; apply Hd; by right|done|].
    exists s2, m2. split; [done|]. split; [done|]. split; [by etrans|]. split; [congruence|]. split; [|split].
    + intros b Hb. by rewrite V2, V1.
    + intros b Hb. apply list.elem_of_cons in Hb as [->|Hb].
      * unfold trecords. rewrite K2; [done|apply IA; by left|done].
      * rewrite T2 by done. apply V1, IA. by right.
    + intros b Hb Nb. apply list.not_elem_of_cons in Nb as [Nb1 Nb2]. by rewrite K2, K1.
Qed.

(** Writing the objects keeps the records, and the trie then shows them. *)
Lemma rec_Finalise_holds del n m s R :
  rholds A n m s R ->
  exists s' m', rec_Finalise del s = Ok s' /\ rholds A n m' s' R /\ (forall h, h ∈ A -> trecords m' h = R h) /\ rframe s' s.
Proof.
  intros [H V]. unfold rec_Finalise.
  destruct (rec_finalise_all_holds del n (elements (r_stateObjectsDirty s)) m s H) as (s1 & m1 & -> & H1 & F1 & D1 & V1 & T1 & K1);
    [intros a; by rewrite elem_of_elements|apply NoDup_elements|].
  cbn [mbind outcome_bind]. eexists _, m1. split; [reflexivity|]. split; [|split; [|done]].
  - split; [destruct H1 as [W T O D C Rm]; by split|]. intros a Ha. rewrite <- V, <- V1 by done. done.
  - intros a Ha. destruct (decide (a ∈ r_stateObjectsDirty s)) as [Hd|Nd].
    + by rewrite T1, V by (done || by apply elem_of_elements).
    + unfold trecords. rewrite K1 by (done || by rewrite elem_of_elements). rewrite <- V by done. unfold rview, roview.
      destruct (r_stateObjects s !! a) as [o|] eqn:Eo; [|by destruct (trec m a)].
      destruct (rs_clean _ _ _ _ H a o Eo Nd) as [_ ->]. done.
Qed.

Lemma rec_IntermediateRoot_holds del n m s R :
  rholds A n m s R ->
  exists s' m', rec_IntermediateRoot del s = Ok (map_root m', s') /\ rholds A n m' s' R /\ (forall h, h ∈ A -> trecords m' h = R h) /\ rframe s' s.
Proof.
  intros H. unfold rec_IntermediateRoot. destruct (rec_Finalise_holds del n m s R H) as (s1 & m1 & -> & [H1 V1] & T1 & Fr).
  cbn [mbind outcome_bind]. destruct (tr_hash_law _ _ _ (rs_holds _ _ _ _ H1)) as (t & -> & Ht); [by eapply rec_small|].
  cbn [mbind outcome_bind]. exists (set_r_trie t s1), m1. split; [done|]. split; [|done]. split; [|done].
  destruct H1 as [W T O D C R1]. by split.
Qed.

End WriteRecords.
End RecordState.
