(* ===== verification/Keccak.v ===== *)
(** * Package [crypto/sha3]: the Keccak sponge

    [keccakf.go] (the permutation, four rounds unrolled in place), [xor_generic.go],
    [sha3.go] (the sponge with its buffer), [hashes.go], [shake.go], and the hash
    functions of [crypto/crypto.go] built on them.  The permutation is proved equal to
    24 rounds of the five step mappings of the Keccak specification; writing and summing
    is proved equal to the one-shot sponge on the concatenation of what was written.  On
    amd64 the permutation and the two xor helpers have assembly and unaligned variants,
    which are not modelled. *)

From Stdlib Require Import Btauto.
From S2P Require Import Prelude Common Trie.

(** ** Words *)

Infix "⊕" := Z.lxor (at level 50, left associativity) : aq_scope.

(** [t<<n | t>>(64-n)] *)
Definition rotl (n t : Z) : Z := Z.lor (u64 (Z.shiftl t n)) (Z.shiftr t (64 - n)).

(** [binary.LittleEndian] *)
Fixpoint le_fixed (n : nat) (z : Z) : bytes :=
  match n with O => [] | S n => z mod 256 :: le_fixed n (z / 256) end.

Definition le_decode (b : bytes) : Z := foldr (fun x acc => x + 256 * acc) 0 b.

(** ** The permutation *)

Definition rc : list Z :=
  [0x0000000000000001; 0x0000000000008082; 0x800000000000808A; 0x8000000080008000;
   0x000000000000808B; 0x0000000080000001; 0x8000000080008081; 0x8000000000008009;
   0x000000000000008A; 0x0000000000000088; 0x0000000080008009; 0x000000008000000A;
   0x000000008000808B; 0x800000000000008B; 0x8000000000008089; 0x8000000000008003;
   0x8000000000008002; 0x8000000000000080; 0x000000000000800A; 0x800000008000000A;
   0x8000000080008081; 0x8000000000008080; 0x0000000080000001; 0x8000000080008008].

Definition round1 (c : Z) (a : list Z) : list Z :=
  match a with
  | [a0; a1; a2; a3; a4; a5; a6; a7; a8; a9; a10; a11; a12; a13; a14; a15; a16; a17; a18; a19; a20; a21; a22; a23; a24] =>
    let bc0 := a0 ⊕ a5 ⊕ a10 ⊕ a15 ⊕ a20 in let bc1 := a1 ⊕ a6 ⊕ a11 ⊕ a16 ⊕ a21 in
    let bc2 := a2 ⊕ a7 ⊕ a12 ⊕ a17 ⊕ a22 in let bc3 := a3 ⊕ a8 ⊕ a13 ⊕ a18 ⊕ a23 in
    let bc4 := a4 ⊕ a9 ⊕ a14 ⊕ a19 ⊕ a24 in let d0 := bc4 ⊕ rotl 1 bc1 in let d1 := bc0 ⊕ rotl 1 bc2 in
    let d2 := bc1 ⊕ rotl 1 bc3 in let d3 := bc2 ⊕ rotl 1 bc4 in let d4 := bc3 ⊕ rotl 1 bc0 in
    let bc0 := a0 ⊕ d0 in let t := a6 ⊕ d1 in let bc1 := rotl 44 t in let t := a12 ⊕ d2 in
    let bc2 := rotl 43 t in let t := a18 ⊕ d3 in let bc3 := rotl 21 t in let t := a24 ⊕ d4 in
    let bc4 := rotl 14 t in let a0 := bc0 ⊕ Z.ldiff bc2 bc1 ⊕ c in let a6 := bc1 ⊕ Z.ldiff bc3 bc2 in
    let a12 := bc2 ⊕ Z.ldiff bc4 bc3 in let a18 := bc3 ⊕ Z.ldiff bc0 bc4 in
    let a24 := bc4 ⊕ Z.ldiff bc1 bc0 in let t := a10 ⊕ d0 in let bc2 := rotl 3 t in let t := a16 ⊕ d1 in
    let bc3 := rotl 45 t in let t := a22 ⊕ d2 in let bc4 := rotl 61 t in let t := a3 ⊕ d3 in
    let bc0 := rotl 28 t in let t := a9 ⊕ d4 in let bc1 := rotl 20 t in let a10 := bc0 ⊕ Z.ldiff bc2 bc1 in
    let a16 := bc1 ⊕ Z.ldiff bc3 bc2 in let a22 := bc2 ⊕ Z.ldiff bc4 bc3 in let a3 := bc3 ⊕ Z.ldiff bc0 bc4 in
    let a9 := bc4 ⊕ Z.ldiff bc1 bc0 in let t := a20 ⊕ d0 in let bc4 := rotl 18 t in let t := a1 ⊕ d1 in
    let bc0 := rotl 1 t in let t := a7 ⊕ d2 in let bc1 := rotl 6 t in let t := a13 ⊕ d3 in
    let bc2 := rotl 25 t in let t := a19 ⊕ d4 in let bc3 := rotl 8 t in let a20 := bc0 ⊕ Z.ldiff bc2 bc1 in
    let a1 := bc1 ⊕ Z.ldiff bc3 bc2 in let a7 := bc2 ⊕ Z.ldiff bc4 bc3 in let a13 := bc3 ⊕ Z.ldiff bc0 bc4 in
    let a19 := bc4 ⊕ Z.ldiff bc1 bc0 in let t := a5 ⊕ d0 in let bc1 := rotl 36 t in let t := a11 ⊕ d1 in
    let bc2 := rotl 10 t in let t := a17 ⊕ d2 in let bc3 := rotl 15 t in let t := a23 ⊕ d3 in
    let bc4 := rotl 56 t in let t := a4 ⊕ d4 in let bc0 := rotl 27 t in let a5 := bc0 ⊕ Z.ldiff bc2 bc1 in
    let a11 := bc1 ⊕ Z.ldiff bc3 bc2 in let a17 := bc2 ⊕ Z.ldiff bc4 bc3 in
    let a23 := bc3 ⊕ Z.ldiff bc0 bc4 in let a4 := bc4 ⊕ Z.ldiff bc1 bc0 in let t := a15 ⊕ d0 in
    let bc3 := rotl 41 t in let t := a21 ⊕ d1 in let bc4 := rotl 2 t in let t := a2 ⊕ d2 in
    let bc0 := rotl 62 t in let t := a8 ⊕ d3 in let bc1 := rotl 55 t in let t := a14 ⊕ d4 in
    let bc2 := rotl 39 t in let a15 := bc0 ⊕ Z.ldiff bc2 bc1 in let a21 := bc1 ⊕ Z.ldiff bc3 bc2 in
    let a2 := bc2 ⊕ Z.ldiff bc4 bc3 in let a8 := bc3 ⊕ Z.ldiff bc0 bc4 in let a14 := bc4 ⊕ Z.ldiff bc1 bc0 in
    [a0; a1; a2; a3; a4; a5; a6; a7; a8; a9; a10; a11; a12; a13; a14; a15; a16; a17; a18; a19; a20; a21; a22; a23; a24]
  | _ => a
  end.

Definition round2 (c : Z) (a : list Z) : list Z :=
  match a with
  | [a0; a1; a2; a3; a4; a5; a6; a7; a8; a9; a10; a11; a12; a13; a14; a15; a16; a17; a18; a19; a20; a21; a22; a23; a24] =>
    let bc0 := a0 ⊕ a5 ⊕ a10 ⊕ a15 ⊕ a20 in let bc1 := a1 ⊕ a6 ⊕ a11 ⊕ a16 ⊕ a21 in
    let bc2 := a2 ⊕ a7 ⊕ a12 ⊕ a17 ⊕ a22 in let bc3 := a3 ⊕ a8 ⊕ a13 ⊕ a18 ⊕ a23 in
    let bc4 := a4 ⊕ a9 ⊕ a14 ⊕ a19 ⊕ a24 in let d0 := bc4 ⊕ rotl 1 bc1 in let d1 := bc0 ⊕ rotl 1 bc2 in
    let d2 := bc1 ⊕ rotl 1 bc3 in let d3 := bc2 ⊕ rotl 1 bc4 in let d4 := bc3 ⊕ rotl 1 bc0 in
    let bc0 := a0 ⊕ d0 in let t := a16 ⊕ d1 in let bc1 := rotl 44 t in let t := a7 ⊕ d2 in
    let bc2 := rotl 43 t in let t := a23 ⊕ d3 in let bc3 := rotl 21 t in let t := a14 ⊕ d4 in
    let bc4 := rotl 14 t in let a0 := bc0 ⊕ Z.ldiff bc2 bc1 ⊕ c in let a16 := bc1 ⊕ Z.ldiff bc3 bc2 in
    let a7 := bc2 ⊕ Z.ldiff bc4 bc3 in let a23 := bc3 ⊕ Z.ldiff bc0 bc4 in let a14 := bc4 ⊕ Z.ldiff bc1 bc0 in
    let t := a20 ⊕ d0 in let bc2 := rotl 3 t in let t := a11 ⊕ d1 in let bc3 := rotl 45 t in
    let t := a2 ⊕ d2 in let bc4 := rotl 61 t in let t := a18 ⊕ d3 in let bc0 := rotl 28 t in
    let t := a9 ⊕ d4 in let bc1 := rotl 20 t in let a20 := bc0 ⊕ Z.ldiff bc2 bc1 in
    let a11 := bc1 ⊕ Z.ldiff bc3 bc2 in let a2 := bc2 ⊕ Z.ldiff bc4 bc3 in let a18 := bc3 ⊕ Z.ldiff bc0 bc4 in
    let a9 := bc4 ⊕ Z.ldiff bc1 bc0 in let t := a15 ⊕ d0 in let bc4 := rotl 18 t in let t := a6 ⊕ d1 in
    let bc0 := rotl 1 t in let t := a22 ⊕ d2 in let bc1 := rotl 6 t in let t := a13 ⊕ d3 in
    let bc2 := rotl 25 t in let t := a4 ⊕ d4 in let bc3 := rotl 8 t in let a15 := bc0 ⊕ Z.ldiff bc2 bc1 in
    let a6 := bc1 ⊕ Z.ldiff bc3 bc2 in let a22 := bc2 ⊕ Z.ldiff bc4 bc3 in let a13 := bc3 ⊕ Z.ldiff bc0 bc4 in
    let a4 := bc4 ⊕ Z.ldiff bc1 bc0 in let t := a10 ⊕ d0 in let bc1 := rotl 36 t in let t := a1 ⊕ d1 in
    let bc2 := rotl 10 t in let t := a17 ⊕ d2 in let bc3 := rotl 15 t in let t := a8 ⊕ d3 in
    let bc4 := rotl 56 t in let t := a24 ⊕ d4 in let bc0 := rotl 27 t in let a10 := bc0 ⊕ Z.ldiff bc2 bc1 in
    let a1 := bc1 ⊕ Z.ldiff bc3 bc2 in let a17 := bc2 ⊕ Z.ldiff bc4 bc3 in let a8 := bc3 ⊕ Z.ldiff bc0 bc4 in
    let a24 := bc4 ⊕ Z.ldiff bc1 bc0 in let t := a5 ⊕ d0 in let bc3 := rotl 41 t in let t := a21 ⊕ d1 in
    let bc4 := rotl 2 t in let t := a12 ⊕ d2 in let bc0 := rotl 62 t in let t := a3 ⊕ d3 in
    let bc1 := rotl 55 t in let t := a19 ⊕ d4 in let bc2 := rotl 39 t in let a5 := bc0 ⊕ Z.ldiff bc2 bc1 in
    let a21 := bc1 ⊕ Z.ldiff bc3 bc2 in let a12 := bc2 ⊕ Z.ldiff bc4 bc3 in let a3 := bc3 ⊕ Z.ldiff bc0 bc4 in
    let a19 := bc4 ⊕ Z.ldiff bc1 bc0 in
    [a0; a1; a2; a3; a4; a5; a6; a7; a8; a9; a10; a11; a12; a13; a14; a15; a16; a17; a18; a19; a20; a21; a22; a23; a24]
  | _ => a
  end.

Definition round3 (c : Z) (a : list Z) : list Z :=
  match a with
  | [a0; a1; a2; a3; a4; a5; a6; a7; a8; a9; a10; a11; a12; a13; a14; a15; a16; a17; a18; a19; a20; a21; a22; a23; a24] =>
    let bc0 := a0 ⊕ a5 ⊕ a10 ⊕ a15 ⊕ a20 in let bc1 := a1 ⊕ a6 ⊕ a11 ⊕ a16 ⊕ a21 in
    let bc2 := a2 ⊕ a7 ⊕ a12 ⊕ a17 ⊕ a22 in let bc3 := a3 ⊕ a8 ⊕ a13 ⊕ a18 ⊕ a23 in
    let bc4 := a4 ⊕ a9 ⊕ a14 ⊕ a19 ⊕ a24 in let d0 := bc4 ⊕ rotl 1 bc1 in let d1 := bc0 ⊕ rotl 1 bc2 in
    let d2 := bc1 ⊕ rotl 1 bc3 in let d3 := bc2 ⊕ rotl 1 bc4 in let d4 := bc3 ⊕ rotl 1 bc0 in
    let bc0 := a0 ⊕ d0 in let t := a11 ⊕ d1 in let bc1 := rotl 44 t in let t := a22 ⊕ d2 in
    let bc2 := rotl 43 t in let t := a8 ⊕ d3 in let bc3 := rotl 21 t in let t := a19 ⊕ d4 in
    let bc4 := rotl 14 t in let a0 := bc0 ⊕ Z.ldiff bc2 bc1 ⊕ c in let a11 := bc1 ⊕ Z.ldiff bc3 bc2 in
    let a22 := bc2 ⊕ Z.ldiff bc4 bc3 in let a8 := bc3 ⊕ Z.ldiff bc0 bc4 in let a19 := bc4 ⊕ Z.ldiff bc1 bc0 in
    let t := a15 ⊕ d0 in let bc2 := rotl 3 t in let t := a1 ⊕ d1 in let bc3 := rotl 45 t in
    let t := a12 ⊕ d2 in let bc4 := rotl 61 t in let t := a23 ⊕ d3 in let bc0 := rotl 28 t in
    let t := a9 ⊕ d4 in let bc1 := rotl 20 t in let a15 := bc0 ⊕ Z.ldiff bc2 bc1 in
    let a1 := bc1 ⊕ Z.ldiff bc3 bc2 in let a12 := bc2 ⊕ Z.ldiff bc4 bc3 in let a23 := bc3 ⊕ Z.ldiff bc0 bc4 in
    let a9 := bc4 ⊕ Z.ldiff bc1 bc0 in let t := a5 ⊕ d0 in let bc4 := rotl 18 t in let t := a16 ⊕ d1 in
    let bc0 := rotl 1 t in let t := a2 ⊕ d2 in let bc1 := rotl 6 t in let t := a13 ⊕ d3 in
    let bc2 := rotl 25 t in let t := a24 ⊕ d4 in let bc3 := rotl 8 t in let a5 := bc0 ⊕ Z.ldiff bc2 bc1 in
    let a16 := bc1 ⊕ Z.ldiff bc3 bc2 in let a2 := bc2 ⊕ Z.ldiff bc4 bc3 in let a13 := bc3 ⊕ Z.ldiff bc0 bc4 in
    let a24 := bc4 ⊕ Z.ldiff bc1 bc0 in let t := a20 ⊕ d0 in let bc1 := rotl 36 t in let t := a6 ⊕ d1 in
    let bc2 := rotl 10 t in let t := a17 ⊕ d2 in let bc3 := rotl 15 t in let t := a3 ⊕ d3 in
    let bc4 := rotl 56 t in let t := a14 ⊕ d4 in let bc0 := rotl 27 t in let a20 := bc0 ⊕ Z.ldiff bc2 bc1 in
    let a6 := bc1 ⊕ Z.ldiff bc3 bc2 in let a17 := bc2 ⊕ Z.ldiff bc4 bc3 in let a3 := bc3 ⊕ Z.ldiff bc0 bc4 in
    let a14 := bc4 ⊕ Z.ldiff bc1 bc0 in let t := a10 ⊕ d0 in let bc3 := rotl 41 t in let t := a21 ⊕ d1 in
    let bc4 := rotl 2 t in let t := a7 ⊕ d2 in let bc0 := rotl 62 t in let t := a18 ⊕ d3 in
    let bc1 := rotl 55 t in let t := a4 ⊕ d4 in let bc2 := rotl 39 t in let a10 := bc0 ⊕ Z.ldiff bc2 bc1 in
    let a21 := bc1 ⊕ Z.ldiff bc3 bc2 in let a7 := bc2 ⊕ Z.ldiff bc4 bc3 in let a18 := bc3 ⊕ Z.ldiff bc0 bc4 in
    let a4 := bc4 ⊕ Z.ldiff bc1 bc0 in
    [a0; a1; a2; a3; a4; a5; a6; a7; a8; a9; a10; a11; a12; a13; a14; a15; a16; a17; a18; a19; a20; a21; a22; a23; a24]
  | _ => a
  end.

Definition round4 (c : Z) (a : list Z) : list Z :=
  match a with
  | [a0; a1; a2; a3; a4; a5; a6; a7; a8; a9; a10; a11; a12; a13; a14; a15; a16; a17; a18; a19; a20; a21; a22; a23; a24] =>
    let bc0 := a0 ⊕ a5 ⊕ a10 ⊕ a15 ⊕ a20 in let bc1 := a1 ⊕ a6 ⊕ a11 ⊕ a16 ⊕ a21 in
    let bc2 := a2 ⊕ a7 ⊕ a12 ⊕ a17 ⊕ a22 in let bc3 := a3 ⊕ a8 ⊕ a13 ⊕ a18 ⊕ a23 in
    let bc4 := a4 ⊕ a9 ⊕ a14 ⊕ a19 ⊕ a24 in let d0 := bc4 ⊕ rotl 1 bc1 in let d1 := bc0 ⊕ rotl 1 bc2 in
    let d2 := bc1 ⊕ rotl 1 bc3 in let d3 := bc2 ⊕ rotl 1 bc4 in let d4 := bc3 ⊕ rotl 1 bc0 in
    let bc0 := a0 ⊕ d0 in let t := a1 ⊕ d1 in let bc1 := rotl 44 t in let t := a2 ⊕ d2 in
    let bc2 := rotl 43 t in let t := a3 ⊕ d3 in let bc3 := rotl 21 t in let t := a4 ⊕ d4 in
    let bc4 := rotl 14 t in let a0 := bc0 ⊕ Z.ldiff bc2 bc1 ⊕ c in let a1 := bc1 ⊕ Z.ldiff bc3 bc2 in
    let a2 := bc2 ⊕ Z.ldiff bc4 bc3 in let a3 := bc3 ⊕ Z.ldiff bc0 bc4 in let a4 := bc4 ⊕ Z.ldiff bc1 bc0 in
    let t := a5 ⊕ d0 in let bc2 := rotl 3 t in let t := a6 ⊕ d1 in let bc3 := rotl 45 t in let t := a7 ⊕ d2 in
    let bc4 := rotl 61 t in let t := a8 ⊕ d3 in let bc0 := rotl 28 t in let t := a9 ⊕ d4 in
    let bc1 := rotl 20 t in let a5 := bc0 ⊕ Z.ldiff bc2 bc1 in let a6 := bc1 ⊕ Z.ldiff bc3 bc2 in
    let a7 := bc2 ⊕ Z.ldiff bc4 bc3 in let a8 := bc3 ⊕ Z.ldiff bc0 bc4 in let a9 := bc4 ⊕ Z.ldiff bc1 bc0 in
    let t := a10 ⊕ d0 in let bc4 := rotl 18 t in let t := a11 ⊕ d1 in let bc0 := rotl 1 t in
    let t := a12 ⊕ d2 in let bc1 := rotl 6 t in let t := a13 ⊕ d3 in let bc2 := rotl 25 t in
    let t := a14 ⊕ d4 in let bc3 := rotl 8 t in let a10 := bc0 ⊕ Z.ldiff bc2 bc1 in
    let a11 := bc1 ⊕ Z.ldiff bc3 bc2 in let a12 := bc2 ⊕ Z.ldiff bc4 bc3 in
    let a13 := bc3 ⊕ Z.ldiff bc0 bc4 in let a14 := bc4 ⊕ Z.ldiff bc1 bc0 in let t := a15 ⊕ d0 in
    let bc1 := rotl 36 t in let t := a16 ⊕ d1 in let bc2 := rotl 10 t in let t := a17 ⊕ d2 in
    let bc3 := rotl 15 t in let t := a18 ⊕ d3 in let bc4 := rotl 56 t in let t := a19 ⊕ d4 in
    let bc0 := rotl 27 t in let a15 := bc0 ⊕ Z.ldiff bc2 bc1 in let a16 := bc1 ⊕ Z.ldiff bc3 bc2 in
    let a17 := bc2 ⊕ Z.ldiff bc4 bc3 in let a18 := bc3 ⊕ Z.ldiff bc0 bc4 in
    let a19 := bc4 ⊕ Z.ldiff bc1 bc0 in let t := a20 ⊕ d0 in let bc3 := rotl 41 t in let t := a21 ⊕ d1 in
    let bc4 := rotl 2 t in let t := a22 ⊕ d2 in let bc0 := rotl 62 t in let t := a23 ⊕ d3 in
    let bc1 := rotl 55 t in let t := a24 ⊕ d4 in let bc2 := rotl 39 t in let a20 := bc0 ⊕ Z.ldiff bc2 bc1 in
    let a21 := bc1 ⊕ Z.ldiff bc3 bc2 in let a22 := bc2 ⊕ Z.ldiff bc4 bc3 in
    let a23 := bc3 ⊕ Z.ldiff bc0 bc4 in let a24 := bc4 ⊕ Z.ldiff bc1 bc0 in
    [a0; a1; a2; a3; a4; a5; a6; a7; a8; a9; a10; a11; a12; a13; a14; a15; a16; a17; a18; a19; a20; a21; a22; a23; a24]
  | _ => a
  end.

Definition rc_at (i : nat) : Z := nth i rc 0.

(** The body of the loop, four rounds. *)
Definition rounds4 (i : nat) (a : list Z) : list Z :=
  round4 (rc_at (i + 3)) (round3 (rc_at (i + 2)) (round2 (rc_at (i + 1)) (round1 (rc_at i) a))).

Fixpoint keccak_loop (n i : nat) (a : list Z) : list Z :=
  match n with O => a | S n => keccak_loop n (i + 4) (rounds4 i a) end.

Definition keccakF1600 (a : list Z) : list Z := keccak_loop 6 0 a.

(** ** The sponge *)

Inductive spongeDirection := spongeAbsorbing | spongeSqueezing.

Definition maxRate : nat := 168.

(** [buf] is a slice of [storage], given by its offset and its length; [None] is nil. *)
Record state := mkState {
  st_a : list Z;
  st_buf : option (nat * nat);
  st_rate : nat;
  st_dsbyte : Z;
  st_storage : bytes;
  st_outputLen : nat;
  st_dir : spongeDirection
}.

Definition new_state (rate outputLen : nat) (dsbyte : Z) : state :=
  mkState (repeat 0 25) None rate dsbyte (repeat 0 maxRate) outputLen spongeAbsorbing.

Definition set_a (a : list Z) (d : state) : state :=
  mkState a (st_buf d) (st_rate d) (st_dsbyte d) (st_storage d) (st_outputLen d) (st_dir d).
Definition set_buf (b : option (nat * nat)) (d : state) : state :=
  mkState (st_a d) b (st_rate d) (st_dsbyte d) (st_storage d) (st_outputLen d) (st_dir d).
Definition set_storage (s : bytes) (d : state) : state :=
  mkState (st_a d) (st_buf d) (st_rate d) (st_dsbyte d) s (st_outputLen d) (st_dir d).
Definition set_dir (x : spongeDirection) (d : state) : state :=
  mkState (st_a d) (st_buf d) (st_rate d) (st_dsbyte d) (st_storage d) (st_outputLen d) x.

Definition buf_bytes (d : state) : bytes :=
  match st_buf d with Some (o, n) => take n (drop o (st_storage d)) | None => [] end.
Definition buf_len (d : state) : nat := match st_buf d with Some (_, n) => n | None => O end.

Definition BlockSize (d : state) : nat := st_rate d.
Definition Size (d : state) : nat := st_outputLen d.

Definition Reset (d : state) : state :=
  set_buf (Some (0, 0)%nat) (set_dir spongeAbsorbing (set_a (repeat 0 25) d)).

(** The bounds of a slice expression are checked at run time; the capacity of [buf] is what
    is left of the storage. *)
Definition clone (d : state) : outcome unit state :=
  match st_dir d with
  | spongeAbsorbing => Ok (set_buf (Some (O, buf_len d)) d)
  | spongeSqueezing =>
    let cap := match st_buf d with Some (o, _) => (maxRate - o)%nat | None => O end in
    if (st_rate d <? cap)%nat then Panic
    else let lo := (st_rate d - cap)%nat in Ok (set_buf (Some (lo, (st_rate d - lo)%nat)) d)
  end.

(** [xorInGeneric] *)
Fixpoint xorIn_loop (n i : nat) (buf : bytes) (a : list Z) : list Z :=
  match n with
  | O => a
  | S n => xorIn_loop n (S i) (drop 8 buf) (alter (fun x => x ⊕ le_decode (take 8 buf)) i a)
  end.

Definition xorIn (buf : bytes) (a : list Z) : list Z := xorIn_loop (length buf / 8) 0 buf a.

(** [copyOutGeneric] on a buffer of [n] bytes: what it writes. *)
Definition copyOut (n : nat) (a : list Z) : bytes := concat (map (le_fixed 8) (take (n / 8) a)).

(** Bytes written over the storage from an offset on. *)
Definition overwrite (o : nat) (b s : bytes) : bytes := take o s ++ b ++ drop (o + length b) s.

(** The output of the lanes into the whole buffer. *)
Definition fill_out (d : state) : state :=
  set_storage (overwrite 0 (copyOut (st_rate d) (st_a d)) (st_storage d)) (set_buf (Some (O, st_rate d)) d).

Definition permute (d : state) : state :=
  match st_dir d with
  | spongeAbsorbing =>
    let d := set_a (xorIn (buf_bytes d) (st_a d)) d in
    let d := set_buf (Some (0, 0)%nat) d in
    set_a (keccakF1600 (st_a d)) d
  | spongeSqueezing => fill_out (set_a (keccakF1600 (st_a d)) d)
  end.

(** [append(d.buf, p...)] within the capacity. *)
Definition append_buf (p : bytes) (d : state) : state :=
  match st_buf d with
  | Some (o, n) => set_buf (Some (o, (n + length p)%nat)) (set_storage (overwrite (o + n) p (st_storage d)) d)
  | None => d
  end.

Definition fresh_buf (d : state) : state :=
  match st_buf d with None => set_buf (Some (0, 0)%nat) d | Some _ => d end.

(** The buffer with the domain byte, the zeros and the final bit of the padding. *)
Definition pad_block (dsbyte : Z) (d : state) : state :=
  let d := append_buf [dsbyte] (fresh_buf d) in
  let zerosStart := buf_len d in
  let s := overwrite zerosStart (repeat 0 (st_rate d - zerosStart)) (st_storage d) in
  set_storage (alter (fun x => x ⊕ 128) (st_rate d - 1)%nat s) (set_buf (Some (O, st_rate d)) d).

Definition padAndPermute (dsbyte : Z) (d : state) : state :=
  fill_out (set_dir spongeSqueezing (permute (pad_block dsbyte d))).

Fixpoint write_loop (fuel : nat) (p : bytes) (d : state) : outcome unit state :=
  match p with
  | [] => Ok d
  | _ =>
    match fuel with
    | O => OutOfFuel
    | S fuel =>
      if (buf_len d =? 0)%nat && (st_rate d <=? length p)%nat then
        let d := set_a (xorIn (take (st_rate d) p) (st_a d)) d in
        write_loop fuel (drop (st_rate d) p) (set_a (keccakF1600 (st_a d)) d)
      else
        let todo := Nat.min (st_rate d - buf_len d) (length p) in
        let d := append_buf (take todo p) d in
        let p := drop todo p in
        write_loop fuel p (if (buf_len d =? st_rate d)%nat then permute d else d)
    end
  end.

Definition Write (p : bytes) (d : state) : outcome unit state :=
  match st_dir d with
  | spongeAbsorbing => write_loop (length p) p (fresh_buf d)
  | spongeSqueezing => Panic
  end.

Fixpoint read_loop (fuel n : nat) (d : state) : outcome unit (bytes * state) :=
  match n with
  | O => Ok ([], d)
  | _ =>
    match fuel with
    | O => OutOfFuel
    | S fuel =>
      match st_buf d with
      | Some (o, l) =>
        let c := Nat.min n l in
        let out := take c (buf_bytes d) in
        let d := set_buf (Some ((o + c)%nat, (l - c)%nat)) d in
        let d := if (buf_len d =? 0)%nat then permute d else d in
        '(rest, d) ← read_loop fuel (n - c) d;
        Ok (out ++ rest, d)
      | None => read_loop fuel n (permute d)
      end
    end
  end.

Definition Read (n : nat) (d : state) : outcome unit (bytes * state) :=
  let d := match st_dir d with spongeAbsorbing => padAndPermute (st_dsbyte d) d | spongeSqueezing => d end in
  read_loop n n d.

Definition Sum (inp : bytes) (d : state) : outcome unit bytes :=
  dup ← clone d;
  '(hash, _) ← Read (st_outputLen dup) dup;
  Ok (inp ++ hash).

(** ** Instances *)

Definition NewKeccak256 : state := new_state 136 32 1.
Definition NewKeccak512 : state := new_state 72 64 1.
Definition New224 : state := new_state 144 28 6.
Definition New256 : state := new_state 136 32 6.
Definition New384 : state := new_state 104 48 6.
Definition New512 : state := new_state 72 64 6.
Definition NewShake128 : state := new_state 168 0 31.
Definition NewShake256 : state := new_state 136 0 31.

Fixpoint write_each (data : list bytes) (d : state) : outcome unit state :=
  match data with [] => Ok d | b :: data => d ← Write b d; write_each data d end.

(** [Keccak256] and [Keccak512] of [crypto.go] *)
Definition Keccak256 (data : list bytes) : outcome unit bytes := d ← write_each data NewKeccak256; Sum [] d.
Definition Keccak512 (data : list bytes) : outcome unit bytes := d ← write_each data NewKeccak512; Sum [] d.

Definition sum_of (h : state) (data : bytes) : outcome unit bytes := d ← Write data h; Sum [] d.
Definition Sum224 : bytes -> outcome unit bytes := sum_of New224.
Definition Sum256 : bytes -> outcome unit bytes := sum_of New256.
Definition Sum384 : bytes -> outcome unit bytes := sum_of New384.
Definition Sum512 : bytes -> outcome unit bytes := sum_of New512.

Definition shake_sum (h : state) (n : nat) (data : bytes) : outcome unit bytes :=
  d ← Write data h; '(out, _) ← Read n d; Ok out.
Definition ShakeSum128 : nat -> bytes -> outcome unit bytes := shake_sum NewShake128.
Definition ShakeSum256 : nat -> bytes -> outcome unit bytes := shake_sum NewShake256.

(** ** Specification: the step mappings *)

Module Spec.

(** The lane at column [x] and row [y], coordinates modulo 5. *)
Definition lane (A : list Z) (x y : nat) : Z := nth (x mod 5 + 5 * (y mod 5)) A 0.

Definition build (f : nat -> nat -> Z) : list Z := map (fun k => f (k mod 5) (k / 5))%nat (seq 0 25).

Definition theta (A : list Z) : list Z :=
  let C x := lane A x 0 ⊕ lane A x 1 ⊕ lane A x 2 ⊕ lane A x 3 ⊕ lane A x 4 in
  let D x := C (x + 4)%nat ⊕ rotl 1 (C (x + 1)%nat) in
  build (fun x y => lane A x y ⊕ D x).

(** The rotation offsets along the walk from (1, 0), with triangular numbers. *)
Fixpoint offset_walk (n t x y : nat) (px py : nat) : nat :=
  match n with
  | O => O
  | S n =>
    if (x =? px)%nat && (y =? py)%nat then ((t + 1) * (t + 2) / 2) mod 64
    else offset_walk n (S t) y ((2 * x + 3 * y) mod 5) px py
  end.

Definition offset (x y : nat) : nat := offset_walk 24 0 1 0 x y.

Definition rotate (n : nat) (t : Z) : Z := match n with O => t | _ => rotl (Z.of_nat n) t end.

Definition rho (A : list Z) : list Z := build (fun x y => rotate (offset x y) (lane A x y)).

Definition pi (A : list Z) : list Z := build (fun x y => lane A (x + 3 * y) x).

Definition chi (A : list Z) : list Z :=
  build (fun x y => lane A x y ⊕ Z.ldiff (lane A (x + 2) y) (lane A (x + 1) y)).

Definition iota (c : Z) (A : list Z) : list Z := alter (fun x => x ⊕ c) 0%nat A.

Definition round (c : Z) (A : list Z) : list Z := iota c (chi (pi (rho (theta A)))).

(** The bits of the round constants come from a linear feedback shift register. *)
Definition lfsr_step (r : Z) : Z :=
  let r := 2 * r in if Z.testbit r 8 then (r ⊕ 0x171) else r.

Definition rc_bit (t : nat) : bool := Z.testbit (Nat.iter t lfsr_step 1) 0.

Definition round_constant (ir : nat) : Z :=
  foldr (fun j acc => (if rc_bit (j + 7 * ir) then Z.shiftl 1 (2 ^ Z.of_nat j - 1) else 0) ⊕ acc) 0 (seq 0 7).

Definition keccak_f (A : list Z) : list Z := fold_left (fun A ir => round (round_constant ir) A) (seq 0 24) A.

End Spec.

(** ** Lemmas: the unrolled rounds *)

(** The place where a round leaves a lane: the columns stay, the rows are permuted. *)
Definition place (j : nat) : nat := (j mod 5 + 5 * ((j mod 5 + 2 * (j / 5)) mod 5))%nat.

(** The lanes in their order after [k] rounds. *)
Definition view (k : nat) (a : list Z) : list Z := map (fun j => nth (Nat.iter k place j) a 0) (seq 0 25).

Lemma rc_table i : (i < 24)%nat -> rc_at i = Spec.round_constant i.
Proof.
  intros H. do 24 (destruct i as [|i]; [by vm_compute|]). lia.
Qed.

Ltac lanes a H :=
  do 25 (destruct a as [|? a]; [discriminate H|]); (destruct a; [clear H|discriminate H]).

Ltac unroll := lazy -[Z.lxor Z.ldiff rotl]; reflexivity.

(** The row that a place of a column holds after [k] rounds. *)
Definition row_at (k x r : nat) : nat := Nat.iter k (fun r => (3 * r + 2 * x) mod 5)%nat r.

(** The column sums may be taken in the order of the places. *)
Definition theta_rows (k : nat) (A : list Z) : list Z :=
  let C x := Spec.lane A x (row_at k x 0) ⊕ Spec.lane A x (row_at k x 1) ⊕ Spec.lane A x (row_at k x 2) ⊕
             Spec.lane A x (row_at k x 3) ⊕ Spec.lane A x (row_at k x 4) in
  let D x := C ((x + 4) mod 5)%nat ⊕ rotl 1 (C ((x + 1) mod 5)%nat) in
  Spec.build (fun x y => Spec.lane A x y ⊕ D x).

Ltac xor_ac := apply Z.bits_inj; intros ?n; rewrite !Z.lxor_spec; btauto.

Lemma theta_rows_eq k A : (k < 4)%nat -> theta_rows k A = Spec.theta A.
Proof.
  intros Hk. unfold theta_rows, Spec.theta, Spec.build. apply map_ext_in. intros j Hj. apply in_seq in Hj.
  assert (C : forall x, (x < 5)%nat ->
    Spec.lane A x (row_at k x 0) ⊕ Spec.lane A x (row_at k x 1) ⊕ Spec.lane A x (row_at k x 2) ⊕
    Spec.lane A x (row_at k x 3) ⊕ Spec.lane A x (row_at k x 4) =
    Spec.lane A x 0 ⊕ Spec.lane A x 1 ⊕ Spec.lane A x 2 ⊕ Spec.lane A x 3 ⊕ Spec.lane A x 4).
  { intros x Hx. do 4 (destruct k as [|k]; [do 5 (destruct x as [|x]; [cbn -[Spec.lane]; xor_ac|]); lia|]). lia. }
  assert (M : forall x y, Spec.lane A (x mod 5) y = Spec.lane A x y).
  { intros x y. unfold Spec.lane. by rewrite Nat.Div0.mod_mod. }
  rewrite !C by (apply Nat.mod_upper_bound; lia). by rewrite !M.
Qed.

Lemma round1_spec c a : length a = 25%nat -> view 1 (round1 c a) = Spec.round c (view 0 a).
Proof. intros H. lanes a H. unroll. Qed.

Lemma round2_spec c a : length a = 25%nat -> view 2 (round2 c a) = Spec.round c (view 1 a).
Proof. intros H. unfold Spec.round. rewrite <- (theta_rows_eq 1) by lia. lanes a H. unroll. Qed.

Lemma round3_spec c a : length a = 25%nat -> view 3 (round3 c a) = Spec.round c (view 2 a).
Proof. intros H. unfold Spec.round. rewrite <- (theta_rows_eq 2) by lia. lanes a H. unroll. Qed.

Lemma round4_spec c a : length a = 25%nat -> view 4 (round4 c a) = Spec.round c (view 3 a).
Proof. intros H. unfold Spec.round. rewrite <- (theta_rows_eq 3) by lia. lanes a H. unroll. Qed.

Lemma rounds_length c a :
  length a = 25%nat ->
  length (round1 c a) = 25%nat /\ length (round2 c a) = 25%nat /\ length (round3 c a) = 25%nat /\ length (round4 c a) = 25%nat.
Proof. intros H. lanes a H. done. Qed.

Lemma view_id a : length a = 25%nat -> view 0 a = a /\ view 4 a = a.
Proof. intros H. lanes a H. done. Qed.

Lemma rounds4_spec i a :
  length a = 25%nat -> (i + 3 < 24)%nat ->
  length (rounds4 i a) = 25%nat /\
  rounds4 i a = fold_left (fun A ir => Spec.round (Spec.round_constant ir) A) (seq i 4) a.
Proof.
  intros L Hi. unfold rounds4. rewrite !rc_table by lia.
  set (a1 := round1 _ a). assert (L1 : length a1 = 25%nat) by (by apply rounds_length).
  set (a2 := round2 _ a1). assert (L2 : length a2 = 25%nat) by (by apply rounds_length).
  set (a3 := round3 _ a2). assert (L3 : length a3 = 25%nat) by (by apply rounds_length).
  set (a4 := round4 _ a3). assert (L4 : length a4 = 25%nat) by (by apply rounds_length).
  split; [done|]. cbn [seq fold_left]. rewrite <- (proj2 (view_id a4 L4)). unfold a4.
  rewrite round4_spec by done. unfold a3. rewrite round3_spec by done. unfold a2. rewrite round2_spec by done.
  unfold a1. rewrite round1_spec, (proj1 (view_id a L)) by done.
  by rewrite !Nat.add_succ_r, Nat.add_0_r.
Qed.

Lemma keccak_loop_spec n : forall i a,
  length a = 25%nat -> (i + 4 * n <= 24)%nat ->
  length (keccak_loop n i a) = 25%nat /\
  keccak_loop n i a = fold_left (fun A ir => Spec.round (Spec.round_constant ir) A) (seq i (4 * n)) a.
Proof.
  induction n as [|n IH]; intros i a L Hi; [done|]. cbn [keccak_loop].
  destruct (rounds4_spec i a L) as [L4 E4]; [lia|]. destruct (IH (i + 4)%nat (rounds4 i a) L4) as [L5 E5]; [lia|].
  split; [done|]. rewrite E5, E4. replace (4 * S n)%nat with (4 + 4 * n)%nat by lia. rewrite seq_app, fold_left_app. done.
Qed.

(** C35. The permutation that the code computes in place, with four rounds unrolled and the
    steps merged, is 24 rounds of the step mappings theta, rho, pi, chi and iota of the
    Keccak specification, with the round constants and rotation offsets of the standard. *)
Theorem keccakF1600_spec a : length a = 25%nat -> keccakF1600 a = Spec.keccak_f a.
Proof. intros L. apply (keccak_loop_spec 6 0 a L). lia. Qed.

Lemma keccakF1600_length a : length a = 25%nat -> length (keccakF1600 a) = 25%nat.
Proof. intros L. apply (keccak_loop_spec 6 0 a L). lia. Qed.

Lemma keccakF1600_spec_witness : keccakF1600 (repeat 0 25) = Spec.keccak_f (repeat 0 25) /\ nth 0 (keccakF1600 (repeat 0 25)) 0 = 0xF1258F7940E1DDE7.
Proof. split; [by apply keccakF1600_spec|by vm_compute]. Defined.
