(* ===== verification/KeccakSponge.v ===== *)
(** * Package [crypto/sha3]: correctness of the sponge

    The sponge of [sha3.go], with its buffer inside a fixed storage, implements the
    one-shot sponge function: whatever the pieces in which the input is written and the
    output is read. *)

From S2P Require Import Prelude Common Trie Keccak.

#[local] Opaque keccakF1600.

(** ** Specification: the sponge *)

Module Sponge.

(** One block of [rate] bytes absorbed. *)
Definition absorb1 (a : list Z) (block : bytes) : list Z := keccakF1600 (xorIn block a).

Fixpoint absorb (rate n : nat) (a : list Z) (msg : bytes) : list Z :=
  match n with O => a | S n => absorb rate n (absorb1 a (take rate msg)) (drop rate msg) end.

(** The last block: the rest of the message, the domain byte, zeros, and the final bit. *)
Definition pad (rate : nat) (ds : Z) (rest : bytes) : bytes :=
  alter (fun x => x ⊕ 128) (rate - 1)%nat (rest ++ ds :: repeat 0 (rate - 1 - length rest)).

Fixpoint squeeze (rate n : nat) (a : list Z) : bytes :=
  match n with O => [] | S n => copyOut rate a ++ squeeze rate n (keccakF1600 a) end.

(** The state after a whole message. *)
Definition absorbed (rate : nat) (ds : Z) (msg : bytes) : list Z :=
  let n := (length msg / rate)%nat in
  absorb1 (absorb rate n (repeat 0 25) (take (n * rate) msg)) (pad rate ds (drop (n * rate) msg)).

(** The first [out] bytes that the sponge gives for a message. *)
Definition sponge (rate out : nat) (ds : Z) (msg : bytes) : bytes :=
  take out (squeeze rate out (absorbed rate ds msg)).

End Sponge.

(** ** Lemmas: the sponge *)

Definition rate_ok (rate : nat) : Prop := (0 < rate <= maxRate)%nat /\ (rate mod 8 = 0)%nat.

Lemma length_overwrite o b s : (o + length b <= length s)%nat -> length (overwrite o b s) = length s.
Proof. intros H. unfold overwrite. rewrite !length_app, length_take, length_drop. lia. Qed.

Lemma take_overwrite o b s : (o + length b <= length s)%nat -> take (o + length b) (overwrite o b s) = take o s ++ b.
Proof.
  intros H. unfold overwrite. rewrite app_assoc. apply take_app_length'. rewrite length_app, length_take. lia.
Qed.

Lemma length_xorIn n : forall i buf a, length (xorIn_loop n i buf a) = length a.
Proof. induction n as [|n IH]; intros i buf a; cbn; [done|]. by rewrite IH, length_alter. Qed.

Lemma length_absorb1 a b : length a = 25%nat -> length (Sponge.absorb1 a b) = 25%nat.
Proof. intros L. apply keccakF1600_length. unfold xorIn. by rewrite length_xorIn. Qed.

Lemma length_absorb rate n : forall a msg, length a = 25%nat -> length (Sponge.absorb rate n a msg) = 25%nat.
Proof. induction n as [|n IH]; intros a msg L; [done|]. cbn. by apply IH, length_absorb1. Qed.

Lemma absorb_app rate n : forall k a w1 w2,
  length w1 = (n * rate)%nat ->
  Sponge.absorb rate (n + k) a (w1 ++ w2) = Sponge.absorb rate k (Sponge.absorb rate n a w1) w2.
Proof.
  induction n as [|n IH]; intros k a w1 w2 L; [by apply nil_length_inv in L as ->|]. cbn in L |- *.
  rewrite take_app_le, drop_app_le by lia. apply IH. rewrite length_drop. lia.
Qed.

Lemma absorb_snoc rate n a w1 b :
  length w1 = (n * rate)%nat -> length b = rate ->
  Sponge.absorb rate (S n) a (w1 ++ b) = Sponge.absorb1 (Sponge.absorb rate n a w1) b.
Proof.
  intros L1 L2. replace (S n) with (n + 1)%nat by lia. rewrite absorb_app by done. cbn. by rewrite take_ge by lia.
Qed.

(** The state has absorbed the blocks of [w] and keeps the rest in its buffer. *)
Record absorbing (d : state) (rate : nat) (w : bytes) (n : nat) (w1 w2 : bytes) : Prop := mkAbsorbing {
  ab_dir : st_dir d = spongeAbsorbing;
  ab_rate : st_rate d = rate;
  ab_split : w = w1 ++ w2;
  ab_len1 : length w1 = (n * rate)%nat;
  ab_len2 : (length w2 < rate)%nat;
  ab_a : st_a d = Sponge.absorb rate n (repeat 0 25) w1;
  ab_buf : st_buf d = Some (O, length w2);
  ab_storage : length (st_storage d) = maxRate;
  ab_bytes : take (length w2) (st_storage d) = w2
}.

Definition has_absorbed (d : state) (rate : nat) (ds : Z) (out : nat) (w : bytes) : Prop :=
  st_dsbyte d = ds /\ st_outputLen d = out /\ exists n w1 w2, absorbing d rate w n w1 w2.

Lemma append_buf_spec d b n :
  st_buf d = Some (O, n) -> (n + length b <= length (st_storage d))%nat ->
  st_buf (append_buf b d) = Some (O, n + length b)%nat /\ length (st_storage (append_buf b d)) = length (st_storage d) /\
  take (n + length b) (st_storage (append_buf b d)) = take n (st_storage d) ++ b.
Proof.
  intros E L. unfold append_buf. rewrite E. cbn. split; [done|]. split; [by apply length_overwrite|by apply take_overwrite].
Qed.

Lemma write_loop_spec rate ds out : rate_ok rate -> forall fuel p d w,
  has_absorbed d rate ds out w -> (length p <= fuel)%nat ->
  exists d', write_loop fuel p d = Ok d' /\ has_absorbed d' rate ds out (w ++ p).
Proof.
  intros [[R0 Rm] R8]. induction fuel as [|fuel IH]; intros p d w (Eds & Eo & n & w1 & w2 & []) Hf.
  { destruct p; [|cbn in Hf; lia]. exists d. split; [done|]. rewrite app_nil_r. split; [done|]. split; [done|]. by exists n, w1, w2. }
  destruct p as [|x p]; [exists d; split; [done|]; rewrite app_nil_r; split; [done|]; split; [done|]; by exists n, w1, w2|].
  set (q := x :: p) in *. assert (Lq : (0 < length q)%nat) by (unfold q; cbn; lia).
  assert (E : write_loop (S fuel) q d = if (buf_len d =? 0)%nat && (st_rate d <=? length q)%nat then
      let d := set_a (xorIn (take (st_rate d) q) (st_a d)) d in
      write_loop fuel (drop (st_rate d) q) (set_a (keccakF1600 (st_a d)) d)
    else
      let todo := Nat.min (st_rate d - buf_len d) (length q) in
      let d := append_buf (take todo q) d in
      write_loop fuel (drop todo q) (if (buf_len d =? st_rate d)%nat then permute d else d)) by done.
  rewrite E. clear E. unfold buf_len at 1 2. rewrite ab_buf0, ab_rate0.
  destruct ((length w2 =? 0)%nat && (rate <=? length q)%nat) eqn:C.
  - apply andb_true_iff in C as [C1 C2]. apply Nat.eqb_eq, nil_length_inv in C1. apply Nat.leb_le in C2. subst w2.
    rewrite app_nil_r in ab_split0. subst w.
    destruct (IH (drop rate q) (set_a (keccakF1600 (xorIn (take rate q) (st_a d))) d) (w1 ++ take rate q)) as (d' & Ed & Hd).
    { split; [done|]. split; [done|]. exists (S n), (w1 ++ take rate q), []. split; cbn -[Sponge.absorb]; try done.
      - by rewrite app_nil_r.
      - rewrite length_app, length_take. lia.
      - rewrite absorb_snoc by (done || (rewrite length_take; lia)). by rewrite ab_a0. }
    { rewrite length_drop. unfold q in *. cbn in *. lia. }
    exists d'. cbn [st_rate set_a st_a]. rewrite ab_rate0. split; [done|]. by rewrite <- app_assoc, take_drop in Hd.
  - set (todo := Nat.min (rate - length w2) (length q)).
    assert (Lt : length (take todo q) = todo) by (rewrite length_take; lia).
    assert (Htodo : (0 < todo)%nat) by lia.
    destruct (append_buf_spec d (take todo q) (length w2) ab_buf0) as (B1 & B2 & B3); [rewrite Lt, ab_storage0; lia|].
    rewrite Lt, ab_bytes0 in *. set (d1 := append_buf (take todo q) d) in *.
    assert (F1 : st_dir d1 = spongeAbsorbing /\ st_rate d1 = rate /\ st_a d1 = st_a d /\ st_dsbyte d1 = ds /\ st_outputLen d1 = out).
    { unfold d1, append_buf. by rewrite ab_buf0. }
    destruct F1 as (F1 & F2 & F3 & F4 & F5). cbn zeta. unfold buf_len. rewrite B1, F2.
    assert (H2 : has_absorbed (if (length w2 + todo =? rate)%nat then permute d1 else d1) rate ds out (w ++ take todo q)).
    { subst w. destruct (length w2 + todo =? rate)%nat eqn:C3.
      - apply Nat.eqb_eq in C3. unfold permute. rewrite F1. split; [done|]. split; [done|].
        exists (S n), (w1 ++ w2 ++ take todo q), []. split; cbn -[Sponge.absorb]; try done.
        + by rewrite app_nil_r, app_assoc.
        + rewrite !length_app, Lt. lia.
        + rewrite absorb_snoc by (done || (rewrite length_app, Lt; lia)). unfold buf_bytes. by rewrite B1, drop_0, B3, F3, ab_a0.
        + by rewrite B2.
      - apply Nat.eqb_neq in C3. split; [done|]. split; [done|]. exists n, w1, (w2 ++ take todo q).
        split; cbn; try done; rewrite ?length_app, ?Lt; try done; try lia; first [by rewrite app_assoc|by rewrite F3|by rewrite B2]. }
    destruct (IH (drop todo q) _ (w ++ take todo q) H2) as (d' & Ed & Hd); [rewrite length_drop; unfold q in *; cbn in *; lia|].
    exists d'. split; [done|]. by rewrite <- app_assoc, take_drop in Hd.
Qed.

(** A state that may still have a nil buffer. *)
Definition ready (d : state) (rate : nat) (ds : Z) (out : nat) (w : bytes) : Prop := has_absorbed (fresh_buf d) rate ds out w.

Lemma ready_new rate ds out : rate_ok rate -> ready (new_state rate out ds) rate ds out [].
Proof. intros [[R0 _] _]. split; [done|]. split; [done|]. by exists O, [], []. Qed.

Lemma fresh_absorbed d rate ds out w : has_absorbed d rate ds out w -> fresh_buf d = d.
Proof. intros (_ & _ & n & w1 & w2 & []). unfold fresh_buf. by rewrite ab_buf0. Qed.

Lemma Write_ready rate ds out p d w :
  rate_ok rate -> ready d rate ds out w -> exists d', Write p d = Ok d' /\ ready d' rate ds out (w ++ p).
Proof.
  intros R H. destruct (write_loop_spec rate ds out R (length p) p _ w H) as (d' & E & H'); [done|].
  unfold Write. assert (st_dir d = spongeAbsorbing) as ->.
  { destruct H as (_ & _ & n & w1 & w2 & []). unfold fresh_buf in *. by destruct (st_buf d). }
  exists d'. split; [done|]. unfold ready. by rewrite (fresh_absorbed _ _ _ _ _ H').
Qed.

Lemma write_each_ready rate ds out data : rate_ok rate -> forall d w,
  ready d rate ds out w -> exists d', write_each data d = Ok d' /\ ready d' rate ds out (w ++ concat data).
Proof.
  intros R. induction data as [|p data IH]; intros d w H; [exists d; by rewrite app_nil_r|]. cbn [write_each concat].
  destruct (Write_ready rate ds out p d w R H) as (d1 & -> & H1). cbn [mbind outcome_bind].
  destruct (IH d1 _ H1) as (d' & E & H'). exists d'. by rewrite app_assoc.
Qed.

(** The state gives the bytes of the lanes [a] from the offset [o] on. *)
Record squeezing (d : state) (rate : nat) (a : list Z) (o : nat) : Prop := mkSqueezing {
  sq_dir : st_dir d = spongeSqueezing;
  sq_rate : st_rate d = rate;
  sq_a : st_a d = a;
  sq_lanes : length a = 25%nat;
  sq_buf : st_buf d = Some (o, rate - o)%nat;
  sq_off : (o < rate)%nat;
  sq_storage : length (st_storage d) = maxRate;
  sq_bytes : take rate (st_storage d) = copyOut rate a
}.

Lemma length_le_fixed n z : length (le_fixed n z) = n.
Proof. revert z. induction n as [|n IH]; intros z; cbn; [done|]. by rewrite IH. Qed.

Lemma length_copyOut rate a : rate_ok rate -> length a = 25%nat -> length (copyOut rate a) = rate.
Proof.
  intros [[R0 Rm] R8] L. unfold copyOut, maxRate in *.
  assert (H : forall l, length (concat (map (le_fixed 8) l)) = (8 * length l)%nat).
  { induction l as [|x l IH]; [done|]. cbn [map concat]. rewrite length_app, length_le_fixed, IH. cbn. lia. }
  rewrite H, length_take, L. pose proof (Nat.div_mod_eq rate 8).
  assert (rate / 8 <= 21)%nat by (apply Nat.Div0.div_le_upper_bound; lia). lia.
Qed.

Lemma take_alter_lt {A} (f : A -> A) i n (l : list A) : (i < n)%nat -> take n (alter f i l) = alter f i (take n l).
Proof.
  intros H. apply list_eq. intros j. destruct (decide (j < n)%nat) as [Hj|Hj].
  - rewrite lookup_take_lt by done. destruct (decide (i = j)) as [->|N].
    + rewrite !list_lookup_alter_eq. by rewrite lookup_take_lt.
    + rewrite !list_lookup_alter_ne by done. by rewrite lookup_take_lt.
  - rewrite lookup_take_ge by lia. symmetry. apply lookup_ge_None. rewrite length_alter, length_take. lia.
Qed.

(** A full block of output in the storage. *)
Lemma fill_out_squeezing d rate a :
  rate_ok rate -> length a = 25%nat -> length (st_storage d) = maxRate -> st_dir d = spongeSqueezing -> st_rate d = rate ->
  st_a d = a -> squeezing (fill_out d) rate a 0.
Proof.
  intros R L Ls Ed Er Ea. pose proof (length_copyOut rate a R L) as Lc. pose proof R as [[R0 Rm] _]. unfold fill_out. rewrite Er, Ea.
  split; try done; [cbn; by rewrite Nat.sub_0_r|..]; cbn [st_storage set_storage].
  - rewrite length_overwrite; [done|]. rewrite Ls, Lc. cbn. lia.
  - unfold overwrite. rewrite take_0. cbn [app]. by apply take_app_length'.
Qed.

Lemma length_pad rate ds w : (length w < rate)%nat -> length (Sponge.pad rate ds w) = rate.
Proof. intros H. unfold Sponge.pad. rewrite length_alter, length_app. cbn. rewrite repeat_length. lia. Qed.

Lemma pad_block_spec rate ds d w n w1 w2 :
  rate_ok rate -> absorbing (fresh_buf d) rate w n w1 w2 ->
  st_dir (pad_block ds d) = spongeAbsorbing /\ st_rate (pad_block ds d) = rate /\
  st_a (pad_block ds d) = Sponge.absorb rate n (repeat 0 25) w1 /\ length (st_storage (pad_block ds d)) = maxRate /\
  buf_bytes (pad_block ds d) = Sponge.pad rate ds w2.
Proof.
  intros [[R0 Rm] R8] []. unfold pad_block. set (d0 := fresh_buf d) in *.
  destruct (append_buf_spec d0 [ds] (length w2) ab_buf0) as (B1 & B2 & B3); [cbn; rewrite ab_storage0; lia|]. cbn [length] in *.
  set (d1 := append_buf [ds] d0) in *.
  assert (F1 : st_dir d1 = spongeAbsorbing /\ st_rate d1 = rate /\ st_a d1 = st_a d0) by (unfold d1, append_buf; by rewrite ab_buf0).
  destruct F1 as (F1 & F2 & F3). rewrite ab_bytes0 in B3. unfold buf_len. rewrite B1, F2. cbv zeta.
  set (z := (length w2 + 1)%nat) in *. set (s2 := overwrite z (repeat 0 (rate - z)) (st_storage d1)).
  assert (L1 : length (st_storage d1) = maxRate) by (by rewrite B2).
  assert (L2 : length s2 = maxRate).
  { unfold s2. rewrite length_overwrite; [done|]. rewrite L1, repeat_length. lia. }
  assert (T2 : take rate s2 = w2 ++ ds :: repeat 0 (rate - 1 - length w2)).
  { unfold s2. replace rate with (z + length (repeat 0%Z (rate - z)))%nat at 1 by (rewrite repeat_length; lia).
    rewrite take_overwrite by (rewrite L1, repeat_length; lia). rewrite B3, <- app_assoc. cbn.
    by replace (rate - z)%nat with (rate - 1 - length w2)%nat by lia. }
  cbn [st_dir st_rate st_a st_storage set_storage set_buf]. split; [done|]. split; [done|]. split; [by rewrite F3|].
  split; [by rewrite length_alter|]. unfold buf_bytes. cbn [st_buf st_storage set_storage set_buf].
  rewrite drop_0, take_alter_lt, T2 by lia. done.
Qed.

Lemma padAndPermute_spec rate ds out d w :
  rate_ok rate -> ready d rate ds out w -> squeezing (padAndPermute ds d) rate (Sponge.absorbed rate ds w) 0.
Proof.
  intros R (_ & _ & n & w1 & w2 & Ab). destruct (pad_block_spec rate ds d w n w1 w2 R Ab) as (P1 & P2 & P3 & P4 & P5).
  unfold padAndPermute. set (d1 := pad_block ds d) in *.
  assert (Ea : keccakF1600 (xorIn (Sponge.pad rate ds w2) (Sponge.absorb rate n (repeat 0 25) w1)) = Sponge.absorbed rate ds w).
  { destruct Ab. unfold Sponge.absorbed, Sponge.absorb1. assert (length w / rate = n)%nat as ->.
    { symmetry. apply (Nat.div_unique _ _ n (length w2)); [done|]. subst w. rewrite length_app. lia. }
    subst w. by rewrite take_app_length', drop_app_length' by done. }
  assert (Ep : permute d1 = set_a (Sponge.absorbed rate ds w) (set_buf (Some (0, 0)%nat) d1)).
  { unfold permute. rewrite P1, P3, P5. cbn [st_a set_a set_buf]. by rewrite Ea. }
  rewrite Ep. apply fill_out_squeezing; try done.
  unfold Sponge.absorbed. apply length_absorb1, length_absorb, repeat_length.
Qed.

Lemma length_squeeze rate n : rate_ok rate -> forall a, length a = 25%nat -> length (Sponge.squeeze rate n a) = (n * rate)%nat.
Proof.
  intros R. induction n as [|n IH]; intros a L; [done|]. cbn [Sponge.squeeze].
  rewrite length_app, length_copyOut, IH by (done || by apply keccakF1600_length). lia.
Qed.

Lemma iter_lanes j a : length a = 25%nat -> length (Nat.iter j keccakF1600 a) = 25%nat.
Proof. intros L. induction j as [|j IH]; [done|]. cbn. by apply keccakF1600_length. Qed.

Lemma squeeze_app rate j k : forall a, Sponge.squeeze rate (j + k) a = Sponge.squeeze rate j a ++ Sponge.squeeze rate k (Nat.iter j keccakF1600 a).
Proof.
  induction j as [|j IH]; intros a; [done|]. cbn [Nat.add Sponge.squeeze]. rewrite IH, <- app_assoc.
  by rewrite Nat.iter_succ_r.
Qed.

(** Reading [n] bytes gives the next [n] bytes of the output stream. *)
Lemma read_loop_spec rate : rate_ok rate -> forall fuel n d a o k,
  squeezing d rate a o -> (n <= fuel)%nat -> (o + n <= k * rate)%nat ->
  exists d' j o', read_loop fuel n d = Ok (take n (drop o (Sponge.squeeze rate k a)), d') /\
    squeezing d' rate (Nat.iter j keccakF1600 a) o' /\ (o + n = j * rate + o')%nat.
Proof.
  intros R. pose proof R as [[R0 Rm] _]. induction fuel as [|fuel IH]; intros n d a o k S Hn Hk.
  { replace n with O by lia. exists d, O, o. split; [done|]. split; [done|lia]. }
  destruct n as [|n]; [exists d, O, o; split; [done|]; split; [done|lia]|].
  cbn [read_loop]. destruct S. rewrite sq_buf0. set (N := S n) in *.
  set (c := Nat.min N (rate - o)). cbn [st_buf set_buf buf_len].
  assert (Lc : length (copyOut rate a) = rate) by (by apply length_copyOut).
  assert (Eb : buf_bytes d = drop o (copyOut rate a)).
  { unfold buf_bytes. rewrite sq_buf0, <- sq_bytes0. rewrite take_drop_commute. by replace (o + (rate - o))%nat with rate by lia. }
  destruct k as [|k]; [lia|]. cbn [Sponge.squeeze]. rewrite drop_app_le by lia.
  destruct (decide (N < rate - o)%nat) as [C|C].
  - replace c with N by lia. unfold buf_len. cbn [st_buf set_buf]. rewrite (proj2 (Nat.eqb_neq (rate - o - N) 0)) by lia.
    rewrite Nat.sub_diag. assert (E0 : forall x, read_loop fuel 0 x = Ok ([], x)) by (by destruct fuel). rewrite E0.
    cbn [mbind outcome_bind]. rewrite app_nil_r, Eb, take_app_le by (rewrite length_drop; lia).
    eexists _, O, (o + N)%nat. split; [reflexivity|]. split; [|lia]. split; try done; cbn; [|lia].
    by replace (rate - (o + N))%nat with (rate - o - N)%nat by lia.
  - replace c with (rate - o)%nat by lia. unfold buf_len. cbn [st_buf set_buf]. rewrite Nat.sub_diag. cbn [Nat.eqb].
    set (d1 := permute _).
    assert (S1 : squeezing d1 rate (keccakF1600 a) 0).
    { unfold d1, permute. cbn [st_dir set_buf]. rewrite sq_dir0. apply fill_out_squeezing; try done.
      - by apply keccakF1600_length.
      - cbn. by rewrite sq_a0. }
    destruct (IH (N - (rate - o))%nat d1 (keccakF1600 a) O k S1) as (d' & j & o' & E & S' & Ej); [lia|cbn in Hk; lia|].
    rewrite E. cbn [mbind outcome_bind]. rewrite drop_0. exists d', (S j), o'. split; [|split; [by rewrite Nat.iter_succ_r|cbn; lia]].
    do 2 f_equal. rewrite Eb, (take_ge (drop o _)) by (rewrite length_drop; lia).
    rewrite take_app_ge by (rewrite length_drop; lia). by rewrite length_drop, Lc.
Qed.

Lemma take_squeeze rate n k a :
  rate_ok rate -> length a = 25%nat -> (n <= k * rate)%nat -> take n (Sponge.squeeze rate k a) = take n (Sponge.squeeze rate n a).
Proof.
  intros R L H. pose proof R as [[R0 _] _]. destruct (Nat.le_ge_cases n k) as [C|C].
  - replace k with (n + (k - n))%nat by lia. rewrite squeeze_app, take_app_le; [done|]. rewrite length_squeeze by done. nia.
  - replace n with (k + (n - k))%nat at 3 by lia. rewrite squeeze_app, take_app_le; [done|]. by rewrite length_squeeze.
Qed.

Lemma Read_ready rate ds out n d w :
  rate_ok rate -> ready d rate ds out w ->
  exists d', Read n d = Ok (Sponge.sponge rate n ds w, d') /\
    exists j o', squeezing d' rate (Nat.iter j keccakF1600 (Sponge.absorbed rate ds w)) o' /\ n = (j * rate + o')%nat.
Proof.
  intros R H. pose proof R as [[R0 _] _]. pose proof (padAndPermute_spec rate ds out d w R H) as S.
  destruct H as (Eds & _ & m & w1 & w2 & []). unfold Read.
  assert (st_dir d = spongeAbsorbing /\ st_dsbyte d = ds) as [-> ->] by (unfold fresh_buf in *; by destruct (st_buf d)).
  destruct (read_loop_spec rate R n n _ _ O n S) as (d' & j & o' & E & S' & Ej); [done|nia|].
  rewrite drop_0 in E. exists d'. split; [exact E|]. by exists j, o'.
Qed.

Lemma clone_ready d rate ds out w : ready d rate ds out w -> exists d', clone d = Ok d' /\ ready d' rate ds out w /\ st_outputLen d' = out.
Proof.
  intros H. exists (fresh_buf d). pose proof H as (Ed & Eo & n & w1 & w2 & []). unfold clone.
  assert (st_dir d = spongeAbsorbing) as -> by (unfold fresh_buf in *; by destruct (st_buf d)).
  split; [|split; [unfold ready; by rewrite (fresh_absorbed _ _ _ _ _ H)|done]].
  unfold fresh_buf, buf_len in *. destruct (st_buf d) as [[o l]|] eqn:E; [|done]. rewrite E in ab_buf0. injection ab_buf0 as -> ->.
  f_equal. unfold set_buf. rewrite <- E. by destruct d.
Qed.

Lemma Sum_ready rate ds out inp d w :
  rate_ok rate -> ready d rate ds out w -> Sum inp d = Ok (inp ++ Sponge.sponge rate out ds w).
Proof.
  intros R H. unfold Sum. destruct (clone_ready d rate ds out w H) as (d1 & -> & H1 & Eo). cbn [mbind outcome_bind]. rewrite Eo.
  destruct (Read_ready rate ds out out d1 w R H1) as (d2 & -> & _). done.
Qed.

Lemma bytes_ok_le n z : bytes_ok (le_fixed n z).
Proof. revert z. induction n as [|n IH]; intros z; constructor; [|apply IH]. apply Z.mod_pos_bound. lia. Qed.

Lemma copyOut_ok n a : bytes_ok (copyOut n a).
Proof.
  unfold copyOut. induction (take (n / 8) a) as [|x l IH]; [constructor|]. cbn [map concat]. apply bytes_ok_app.
  split; [apply bytes_ok_le|done].
Qed.

Lemma sponge_ok rate out ds w : rate_ok rate -> length (Sponge.sponge rate out ds w) = out /\ bytes_ok (Sponge.sponge rate out ds w).
Proof.
  intros R. pose proof R as [[R0 _] _]. unfold Sponge.sponge. set (a := Sponge.absorbed rate ds w).
  assert (L : length a = 25%nat) by (unfold a, Sponge.absorbed; apply length_absorb1, length_absorb, repeat_length). split.
  - rewrite length_take, length_squeeze by done. nia.
  - apply Forall_take. clearbody a. clear L. generalize out as k. intros k. revert a. induction k as [|k IH]; intros a; [constructor|].
    cbn [Sponge.squeeze]. apply bytes_ok_app. split; [apply copyOut_ok|apply IH].
Qed.

Lemma rates_ok : rate_ok 136 /\ rate_ok 72 /\ rate_ok 168.
Proof. unfold rate_ok, maxRate. repeat split; lia. Qed.

(** ** Properties *)

(** C36. Hashing does not depend on the pieces in which the input is written, and equals the
    one-shot sponge function on their concatenation: [Write] never fails, [Sum] appends
    the digest of everything written so far and can be repeated. *)
Theorem Sum_of_writes rate out ds data inp :
  rate_ok rate ->
  exists d, write_each data (new_state rate out ds) = Ok d /\
    Sum inp d = Ok (inp ++ Sponge.sponge rate out ds (concat data)) /\ length (Sponge.sponge rate out ds (concat data)) = out.
Proof.
  intros R. destruct (write_each_ready rate ds out data R _ _ (ready_new rate ds out R)) as (d & E & H).
  exists d. split; [done|]. split; [by apply Sum_ready|]. by apply sponge_ok.
Qed.

Lemma Sum_of_writes_witness :
  exists d, write_each [[1; 2]; []; [3]] (new_state 136 32 1) = Ok d /\ Sum [] d = Keccak256 [[1; 2; 3]].
Proof.
  destruct (Sum_of_writes 136 32 1 [[1; 2]; []; [3]] []) as (d & E & S & _); [apply rates_ok|].
  exists d. split; [exact E|]. rewrite S. by vm_compute.
Defined.

(** Reading the output of a hash in two pieces gives the same bytes as reading it at
    once, across the blocks of the sponge. *)
Theorem Read_in_pieces rate out ds data n k :
  rate_ok rate ->
  exists d x d1 y d2, write_each data (new_state rate out ds) = Ok d /\ Read n d = Ok (x, d1) /\ Read k d1 = Ok (y, d2) /\
    x ++ y = Sponge.sponge rate (n + k) ds (concat data).
Proof.
  intros R. pose proof R as [[R0 _] _].
  destruct (write_each_ready rate ds out data R _ _ (ready_new rate ds out R)) as (d & E & H). cbn [app] in H.
  destruct (Read_ready rate ds out n d _ R H) as (d1 & E1 & j & o & S & En).
  set (a := Sponge.absorbed rate ds (concat data)) in *.
  assert (La : length a = 25%nat) by (unfold a, Sponge.absorbed; apply length_absorb1, length_absorb, repeat_length).
  destruct (read_loop_spec rate R k k d1 _ o (o + k)%nat S) as (d2 & j' & o' & E2 & _ & _); [done|nia|].
  eexists d, _, d1, _, d2. split; [done|]. split; [done|]. unfold Read. rewrite (sq_dir _ _ _ _ S). split; [exact E2|].
  unfold Sponge.sponge. fold a.
  rewrite <- (take_squeeze rate n (j + (o + k))), <- (take_squeeze rate (n + k) (j + (o + k))) by (done || nia).
  rewrite squeeze_app. set (u := Sponge.squeeze rate j a). set (v := Sponge.squeeze rate (o + k) _).
  assert (Lu : length u = (j * rate)%nat) by (by apply length_squeeze).
  rewrite !take_app_ge by (rewrite Lu; lia). rewrite Lu, <- app_assoc.
  replace (n - j * rate)%nat with o by lia. replace (n + k - j * rate)%nat with (o + k)%nat by lia.
  f_equal. rewrite Nat.add_comm, <- (take_drop o (take (k + o) v)), take_take, Nat.min_l by lia.
  f_equal. rewrite take_drop_commute. f_equal. f_equal. lia.
Qed.

Lemma Read_in_pieces_witness :
  exists d x d1 y d2, write_each [[7]] NewShake128 = Ok d /\ Read 3 d = Ok (x, d1) /\ Read 200 d1 = Ok (y, d2) /\
    x ++ y = Sponge.sponge 168 203 31 [7].
Proof.
  destruct (Read_in_pieces 168 0 31 [[7]] 3 200) as (d & x & d1 & y & d2 & E); [apply rates_ok|]. by exists d, x, d1, y, d2.
Defined.

(** A clone of a hash that has been read from is only right for the largest rate: for
    SHAKE-256, taking a clone after reading fewer than 32 bytes panics. *)
Theorem Clone_after_Read_panics data n :
  (n < 32)%nat ->
  exists d x d1, write_each data NewShake256 = Ok d /\ Read n d = Ok (x, d1) /\ clone d1 = Panic.
Proof.
  intros Hn. assert (R : rate_ok 136) by apply rates_ok.
  destruct (write_each_ready 136 31 0 data R _ _ (ready_new 136 31 0 R)) as (d & E & H). cbn [app] in H.
  destruct (Read_ready 136 31 0 n d _ R H) as (d1 & E1 & j & o & [] & En).
  eexists d, _, d1. split; [done|]. split; [done|]. unfold clone. rewrite sq_dir0, sq_buf0, sq_rate0.
  unfold maxRate. by rewrite (proj2 (Nat.ltb_lt 136 (168 - o))) by lia.
Qed.

Lemma Clone_after_Read_panics_witness :
  exists d x d1, write_each [[1]] NewShake256 = Ok d /\ Read 10 d = Ok (x, d1) /\ clone d1 = Panic.
Proof. apply (Clone_after_Read_panics [[1]] 10). lia. Defined.

(** ** The hash functions of [crypto] *)

Lemma Keccak256_sponge data : Keccak256 data = Ok (Sponge.sponge 136 32 1 (concat data)).
Proof.
  assert (R : rate_ok 136) by apply rates_ok. unfold Keccak256.
  destruct (write_each_ready 136 1 32 data R _ _ (ready_new 136 1 32 R)) as (d & E & H).
  change NewKeccak256 with (new_state 136 32 1). rewrite E. by apply (Sum_ready 136 1 32 [] d _ R H).
Qed.

Lemma Keccak512_sponge data : Keccak512 data = Ok (Sponge.sponge 72 64 1 (concat data)).
Proof.
  assert (R : rate_ok 72) by apply rates_ok. unfold Keccak512.
  destruct (write_each_ready 72 1 64 data R _ _ (ready_new 72 1 64 R)) as (d & E & H).
  change NewKeccak512 with (new_state 72 64 1). rewrite E. by apply (Sum_ready 72 1 64 [] d _ R H).
Qed.

Definition keccak256_of (b : bytes) : bytes := match Keccak256 [b] with Ok h => h | _ => zeros HashLength end.
Definition keccak512_of (b : bytes) : bytes := match Keccak512 [b] with Ok h => h | _ => zeros 64 end.

Lemma keccak256_of_hash b : is_hash (keccak256_of b).
Proof.
  unfold keccak256_of. rewrite Keccak256_sponge. assert (R : rate_ok 136) by apply rates_ok.
  destruct (sponge_ok 136 32 1 (concat [b]) R) as [L O]. split; [|done]. unfold len. by rewrite L.
Qed.

Lemma keccak512_of_ok b : len (keccak512_of b) = 64 /\ bytes_ok (keccak512_of b).
Proof.
  unfold keccak512_of. rewrite Keccak512_sponge. assert (R : rate_ok 72) by apply rates_ok.
  destruct (sponge_ok 72 64 1 (concat [b]) R) as [L O]. split; [|done]. unfold len. by rewrite L.
Qed.

(** The hash function that the rest of the code is given. *)
Definition keccak_Hasher : Hasher := {| keccak256 := keccak256_of; keccak256_hash := keccak256_of_hash |}.

(** The empty string and the root of the empty trie. *)
Lemma keccak256_empty :
  keccak256_of [] = be_fixed 32 0xc5d2460186f7233c927e7db2dcc703c0e500b653ca82273b7bfad8045d85a470 /\
  keccak256_of [128] = emptyRoot.
Proof. by vm_compute. Qed.
