(* ===== verification/Bitutil.v ===== *)
(** Bit and byte strings of [common/bitutil]: the bytewise operations of [bitutil.go], in
    their word-at-a-time and their byte-at-a-time form, and the sparse bit set compression
    of [compress.go] that the bloom-bit index stores its vectors with. *)
From stdpp Require Import base list.
From Stdlib Require Import ZArith Lia.
From S2P Require Import Prelude Keccak.
Local Open Scope Z_scope.

(** ** Bytewise operations ([bitutil.go])

    [dst], [a] and [b] are different slices here.  Writing beyond [dst] is the outcome
    [Panic]: the byte loops panic there, the word loops, whose slice header claims
    [len(dst)] words, write into whatever follows [dst] in memory. *)

Definition wordSize : nat := 8.

Section Bytewise.
Context (op : Z -> Z -> Z).

Fixpoint safe_loop (k i : nat) (a b dst : bytes) : outcome unit bytes :=
  match k with
  | O => Ok dst
  | S k => match a !! i, b !! i, dst !! i with
           | Some x, Some y, Some _ => safe_loop k (S i) a b (<[i := op x y]> dst)
           | _, _, _ => Panic
           end
  end.

Definition safeBytes (dst a b : bytes) : outcome unit (bytes * Z) :=
  let n := Nat.min (length a) (length b) in
  dst ← safe_loop n 0 a b dst; Ok (dst, Z.of_nat n).

(** The word [i] of a slice read as a slice of [uintptr], and its assignment. *)
Definition word_at (i : nat) (l : bytes) : Z := le_decode (take wordSize (drop (wordSize * i) l)).
Definition set_word (i : nat) (w : Z) (l : bytes) : bytes :=
  take (wordSize * i) l ++ le_fixed wordSize w ++ drop (wordSize * i + wordSize) l.

Fixpoint word_loop (k i : nat) (a b dst : bytes) : outcome unit bytes :=
  match k with
  | O => Ok dst
  | S k => if (length dst <? wordSize * i + wordSize)%nat then Panic
           else word_loop k (S i) a b (set_word i (op (word_at i a) (word_at i b)) dst)
  end.

Definition fastBytes (dst a b : bytes) : outcome unit (bytes * Z) :=
  let n := Nat.min (length a) (length b) in
  dst ← word_loop (n / wordSize) 0 a b dst;
  dst ← safe_loop (n mod wordSize) (n - n mod wordSize) a b dst;
  Ok (dst, Z.of_nat n).
End Bytewise.

Section Platform.
Context (supportsUnaligned : bool).

Definition XORBytes (dst a b : bytes) : outcome unit (bytes * Z) :=
  if supportsUnaligned then fastBytes Z.lxor dst a b else safeBytes Z.lxor dst a b.
Definition ANDBytes (dst a b : bytes) : outcome unit (bytes * Z) :=
  if supportsUnaligned then fastBytes Z.land dst a b else safeBytes Z.land dst a b.
Definition ORBytes (dst a b : bytes) : outcome unit (bytes * Z) :=
  if supportsUnaligned then fastBytes Z.lor dst a b else safeBytes Z.lor dst a b.

Fixpoint safeTestBytes (p : bytes) : bool :=
  match p with [] => false | x :: p => if negb (x =? 0) then true else safeTestBytes p end.

Fixpoint test_words (k i : nat) (p : bytes) : bool :=
  match k with
  | O => false
  | S k => if negb (word_at i p =? 0) then true else test_words k (S i) p
  end.

Definition fastTestBytes (p : bytes) : bool :=
  let n := length p in
  if test_words (n / wordSize) 0 p then true
  else safeTestBytes (drop (n - n mod wordSize) p).

Definition TestBytes (p : bytes) : bool :=
  if supportsUnaligned then fastTestBytes p else safeTestBytes p.
End Platform.

(** ** Compression ([compress.go]) *)

Inductive bit_error : Type :=
| errMissingData
| errUnreferencedData
| errExceededTarget
| errZeroContent.

(** Index [i] is below eight times the length of the bit set in both functions. *)
Definition bit_mask (i : Z) : Z := Z.shiftl 1 (7 - i mod 8).
Definition set_bit (i : Z) (bs : bytes) : bytes :=
  alter (fun x => Z.lor x (bit_mask i)) (Z.to_nat (i / 8)) bs.
Definition get_bit (i : Z) (bs : bytes) : bool :=
  negb (Z.land (default 0 (bs !! Z.to_nat (i / 8))) (bit_mask i) =? 0).

Fixpoint gather (i : Z) (data nonZeroBitset nonZeroBytes : bytes) : bytes * bytes :=
  match data with
  | [] => (nonZeroBitset, nonZeroBytes)
  | b :: data =>
    if negb (b =? 0) then gather (i + 1) data (set_bit i nonZeroBitset) (nonZeroBytes ++ [b])
    else gather (i + 1) data nonZeroBitset nonZeroBytes
  end.

Definition bitset_size (n : nat) : nat := (n + 7) / 8.

Fixpoint bitsetEncode (fuel : nat) (data : bytes) : outcome bit_error bytes :=
  match fuel, data with
  | O, _ => OutOfFuel
  | _, [] => Ok []
  | _, [b] => Ok (if b =? 0 then [] else [b])
  | S fuel, _ =>
    let '(nonZeroBitset, nonZeroBytes) := gather 0 data (replicate (bitset_size (length data)) 0) [] in
    match nonZeroBytes with
    | [] => Ok []
    | _ => e ← bitsetEncode fuel nonZeroBitset; Ok (e ++ nonZeroBytes)
    end
  end.

Definition bitsetEncodeBytes (data : bytes) : outcome bit_error bytes :=
  bitsetEncode (S (length data)) data.

Definition CompressBytes (data : bytes) : outcome bit_error bytes :=
  out ← bitsetEncodeBytes data;
  if len out <? len data then Ok out else Ok data.

(** The loop that distributes the bytes [data[ptr:]] over [decomp]: [k] bits are left. *)
Fixpoint distribute (k : nat) (i : Z) (bitset data decomp : bytes) (ptr : Z) : outcome bit_error (bytes * Z) :=
  match k with
  | O => Ok (decomp, ptr)
  | S k =>
    if get_bit i bitset then
      match data !! Z.to_nat ptr with
      | None => Err errMissingData
      | Some x =>
        if len decomp <=? i then Err errExceededTarget
        else if x =? 0 then Err errZeroContent
        else distribute k (i + 1) bitset data (<[Z.to_nat i := x]> decomp) (ptr + 1)
      end
    else distribute k (i + 1) bitset data decomp ptr
  end.

Fixpoint bitsetDecodePartial (fuel : nat) (data : bytes) (target : nat) : outcome bit_error (bytes * Z) :=
  match fuel with
  | O => OutOfFuel
  | S fuel =>
    match target, data with
    | O, _ => Ok ([], 0)
    | _, [] => Ok (replicate target 0, 0)
    | S O, x :: _ => Ok ([x], if negb (x =? 0) then 1 else 0)
    | _, _ =>
      r ← bitsetDecodePartial fuel data (bitset_size target);
      distribute (8 * length r.1) 0 r.1 data (replicate target 0) r.2
    end
  end.

Definition bitsetDecodePartialBytes (data : bytes) (target : nat) : outcome bit_error (bytes * Z) :=
  bitsetDecodePartial (S target) data target.

Definition bitsetDecodeBytes (data : bytes) (target : nat) : outcome bit_error bytes :=
  r ← bitsetDecodePartialBytes data target;
  if negb (r.2 =? len data) then Err errUnreferencedData else Ok r.1.

Definition DecompressBytes (data : bytes) (target : Z) : outcome bit_error bytes :=
  if target <? len data then Err errExceededTarget
  else if len data =? target then Ok data
  else bitsetDecodeBytes data (Z.to_nat target).

(** The fuzzing entry points ([compress_fuzz.go]); [proc, _ :=] drops the error and the
    slice is then nil. *)
Definition fuzzEncode (data : bytes) : outcome bit_error Z :=
  e ← bitsetEncodeBytes data;
  match bitsetDecodeBytes e (length data) with
  | Ok proc => if bool_decide (data = proc) then Ok 0 else Panic
  | Err _ => if bool_decide (data = []) then Ok 0 else Panic
  | Panic => Panic
  | OutOfFuel => OutOfFuel
  end.

Definition fuzzDecode (data : bytes) : outcome bit_error Z :=
  match bitsetDecodeBytes data 1024 with
  | Ok blob => comp ← bitsetEncodeBytes blob; if bool_decide (comp = data) then Ok 0 else Panic
  | Err _ => Ok 0
  | Panic => Panic
  | OutOfFuel => OutOfFuel
  end.

Definition Fuzz (data : bytes) : outcome bit_error Z :=
  match data with
  | [] => Ok (-1)
  | x :: data => if x mod 2 =? 0 then fuzzEncode data else fuzzDecode data
  end.

(** ** Lemmas: bits *)

Definition nonzero (x : Z) : bool := negb (x =? 0).
#[local] Arguments nonzero : simpl never.
Definition nonzeros (l : bytes) : bytes := List.filter nonzero l.

Lemma land_pow2_bit x k : 0 <= k -> negb (Z.land x (Z.shiftl 1 k) =? 0) = Z.testbit x k.
Proof.
  intros Hk. rewrite Z.shiftl_1_l. destruct (Z.eqb_spec (Z.land x (2 ^ k)) 0) as [E|N]; cbn.
  - pose proof (f_equal (fun y => Z.testbit y k) E) as B. cbn in B.
    by rewrite Z.land_spec, Z.pow2_bits_true, andb_true_r, Z.bits_0 in B by done.
  - destruct (Z.testbit x k) eqn:B; [done|]. destruct N. apply Z.bits_inj. intros m.
    rewrite Z.land_spec, Z.bits_0, Z.pow2_bits_eqb by done.
    destruct (Z.eqb_spec k m) as [->|]; [by rewrite B|by rewrite andb_false_r].
Qed.

Lemma get_bit_testbit i bs :
  get_bit i bs = Z.testbit (default 0 (bs !! Z.to_nat (i / 8))) (7 - i mod 8).
Proof. unfold get_bit, bit_mask. pose proof (Z.mod_pos_bound i 8). apply land_pow2_bit. lia. Qed.

Lemma length_set_bit i bs : length (set_bit i bs) = length bs.
Proof. apply length_alter. Qed.

Lemma get_set_bit i j bs :
  0 <= i < 8 * len bs -> 0 <= j -> get_bit j (set_bit i bs) = get_bit j bs || (i =? j).
Proof.
  intros Hi Hj. rewrite !get_bit_testbit. unfold set_bit, bit_mask.
  pose proof (Z.mod_pos_bound i 8 ltac:(lia)). pose proof (Z.mod_pos_bound j 8 ltac:(lia)).
  pose proof (Z.div_mod i 8 ltac:(lia)). pose proof (Z.div_mod j 8 ltac:(lia)).
  destruct (decide (i / 8 = j / 8)) as [E|N].
  - rewrite <- E, list_lookup_alter_eq. unfold len in Hi.
    destruct (lookup_lt_is_Some_2 bs (Z.to_nat (i / 8))) as [x Hx]; [lia|]. rewrite Hx. cbn [fmap option_fmap option_map default].
    unfold id. rewrite Z.shiftl_1_l, Z.lor_spec, Z.pow2_bits_eqb by lia. f_equal.
    destruct (Z.eqb_spec (7 - i mod 8) (7 - j mod 8)), (Z.eqb_spec i j); lia.
  - assert (0 <= i / 8) by (apply Z.div_pos; lia). assert (0 <= j / 8) by (apply Z.div_pos; lia).
    rewrite list_lookup_alter_ne by lia. destruct (Z.eqb_spec i j) as [->|]; [done|by rewrite orb_false_r].
Qed.

Lemma byte_ok_lor x y : byte_ok x -> byte_ok y -> byte_ok (Z.lor x y).
Proof.
  unfold byte_ok. intros Hx Hy. assert (0 <= Z.lor x y) by (apply Z.lor_nonneg; lia). split; [done|].
  destruct (Z.eq_dec (Z.lor x y) 0) as [->|NZ]; [done|]. apply (Z.log2_lt_pow2 _ 8); [lia|].
  rewrite Z.log2_lor by lia. pose proof (Z.log2_le_mono x 255). pose proof (Z.log2_le_mono y 255).
  change (Z.log2 255) with 7 in *. lia.
Qed.

Lemma byte_ok_mask i : byte_ok (bit_mask i).
Proof.
  unfold byte_ok, bit_mask. rewrite Z.shiftl_1_l. pose proof (Z.mod_pos_bound i 8 ltac:(lia)).
  pose proof (Z.pow_pos_nonneg 2 (7 - i mod 8)). pose proof (Z.pow_le_mono_r 2 (7 - i mod 8) 7). lia.
Qed.

Lemma bytes_ok_set_bit i bs : bytes_ok bs -> bytes_ok (set_bit i bs).
Proof.
  intros O. apply Forall_alter; [done|]. intros x Hx Ox. apply byte_ok_lor; [done|apply byte_ok_mask].
Qed.

(** Two bit sets of bytes with the same bits are equal. *)
Lemma bitset_ext a b :
  bytes_ok a -> bytes_ok b -> length a = length b ->
  (forall j, 0 <= j < 8 * len a -> get_bit j a = get_bit j b) -> a = b.
Proof.
  intros Oa Ob L H. apply list_eq_same_length with (length a); [done|done|]. intros k x y Hk Ka Kb.
  pose proof (proj1 (Forall_lookup _ _) Oa _ _ Ka) as Ox. pose proof (proj1 (Forall_lookup _ _) Ob _ _ Kb) as Oy. cbn beta in Ox, Oy.
  apply Z.bits_inj'. intros m Hm. destruct (Z.lt_ge_cases m 8) as [L8|G8].
  - specialize (H (8 * Z.of_nat k + (7 - m))). rewrite !get_bit_testbit in H.
    replace ((8 * Z.of_nat k + (7 - m)) / 8) with (Z.of_nat k) in H by (rewrite Z.mul_comm, Z.div_add_l by lia; rewrite (Z.div_small (7 - m)); lia).
    replace ((8 * Z.of_nat k + (7 - m)) mod 8) with (7 - m) in H by (rewrite Z.add_comm, Z.mul_comm, Z.mod_add by lia; rewrite Z.mod_small; lia).
    rewrite Nat2Z.id, Ka, Kb in H. cbn in H. unfold id in H. replace (7 - (7 - m)) with m in H by lia.
    apply H. unfold len. lia.
  - unfold byte_ok in *. rewrite !Z.bits_above_log2; try done; try lia.
    + destruct (Z.eq_dec y 0) as [->|]; [cbn; lia|]. pose proof (Z.log2_lt_pow2 y 8). lia.
    + destruct (Z.eq_dec x 0) as [->|]; [cbn; lia|]. pose proof (Z.log2_lt_pow2 x 8). lia.
Qed.

(** ** Lemmas: the two loops *)

Lemma gather_spec data : forall i bs nz,
  0 <= i -> i + len data <= 8 * len bs -> bytes_ok bs ->
  exists bs', gather i data bs nz = (bs', nz ++ nonzeros data) /\ length bs' = length bs /\ bytes_ok bs' /\
    forall j, 0 <= j -> get_bit j bs' = get_bit j bs || ((i <=? j) && nonzero (default 0 (data !! Z.to_nat (j - i)))).
Proof.
  induction data as [|b data IH]; intros i bs nz Hi L O.
  { exists bs. cbn. rewrite app_nil_r. split; [done|]. split; [done|]. split; [done|]. intros j _.
    by rewrite andb_false_r, orb_false_r. }
  rewrite len_cons in L. pose proof (len_nonneg data). cbn [gather nonzeros List.filter]. fold (nonzero b).
  assert (Next : forall j, 0 <= j -> i <> j ->
    (i + 1 <=? j) && nonzero (default 0 (data !! Z.to_nat (j - (i + 1)))) =
    (i <=? j) && nonzero (default 0 ((b :: data) !! Z.to_nat (j - i)))).
  { intros j Hj N. destruct (Z.leb_spec i j); [|by zdecide]. zdecide.
    by replace (Z.to_nat (j - i)) with (S (Z.to_nat (j - (i + 1)))) by lia. }
  destruct (nonzero b) eqn:NB.
  - destruct (IH (i + 1) (set_bit i bs) (nz ++ [b])) as (bs' & E & L' & O' & G);
      [lia|unfold len in *; rewrite length_set_bit; lia|by apply bytes_ok_set_bit|].
    exists bs'. rewrite E, <- app_assoc. split; [done|]. split; [by rewrite L', length_set_bit|]. split; [done|].
    intros j Hj. rewrite G, get_set_bit, <- orb_assoc by lia. f_equal. destruct (Z.eqb_spec i j) as [->|N]; [|by apply Next].
    cbn [orb]. zdecide. rewrite Z.sub_diag. symmetry. exact NB.
  - destruct (IH (i + 1) bs nz) as (bs' & E & L' & O' & G); [lia|lia|done|].
    exists bs'. split; [done|]. split; [done|]. split; [done|]. intros j Hj. rewrite G by done. f_equal.
    destruct (decide (i = j)) as [<-|N]; [|by apply Next].
    zdecide. rewrite Z.sub_diag. symmetry. exact NB.
Qed.

Lemma get_bit_zeros j n : get_bit j (replicate n 0) = false.
Proof.
  unfold get_bit. destruct (replicate n 0 !! Z.to_nat (j / 8)) as [x|] eqn:E; cbn; [|done].
  apply lookup_replicate in E as [-> _]. done.
Qed.

Lemma bytes_ok_replicate0 n : bytes_ok (replicate n 0).
Proof. by apply Forall_replicate. Qed.

Lemma bitset_size_spec n : (n <= 8 * bitset_size n)%nat.
Proof. unfold bitset_size. pose proof (Nat.div_mod (n + 7) 8). pose proof (Nat.mod_upper_bound (n + 7) 8). lia. Qed.

Lemma bitset_size_lt n : (2 <= n -> 1 <= bitset_size n < n)%nat.
Proof. unfold bitset_size. pose proof (Nat.div_mod (n + 7) 8). pose proof (Nat.mod_upper_bound (n + 7) 8). lia. Qed.

(** The bit set of a byte string: bit [j] says whether byte [j] is not zero. *)
Lemma gather_bitset data :
  exists bs, gather 0 data (replicate (bitset_size (length data)) 0) [] = (bs, nonzeros data) /\
    length bs = bitset_size (length data) /\ bytes_ok bs /\
    forall j, 0 <= j -> get_bit j bs = nonzero (default 0 (data !! Z.to_nat j)).
Proof.
  destruct (gather_spec data 0 (replicate (bitset_size (length data)) 0) []) as (bs & E & L & O & G).
  - done.
  - unfold len. rewrite length_replicate. pose proof (bitset_size_spec (length data)). lia.
  - apply bytes_ok_replicate0.
  - exists bs. split; [done|]. rewrite length_replicate in L. split; [done|]. split; [done|].
    intros j Hj. rewrite G, get_bit_zeros by done. zdecide. by rewrite Z.sub_0_r.
Qed.

(** The output of which the first [i] bytes are in place. *)
Definition placed (out : bytes) (i : nat) : bytes := take i out ++ replicate (length out - i) 0.

Lemma length_placed out i : length (placed out i) = length out.
Proof. unfold placed. rewrite length_app, length_take, length_replicate. lia. Qed.

Lemma placed_step out i x : out !! i = Some x -> <[i := x]> (placed out i) = placed out (S i).
Proof.
  intros H. pose proof (lookup_lt_Some _ _ _ H). unfold placed. rewrite (take_S_r _ _ _ H).
  replace (length out - i)%nat with (S (length out - S i)) by lia. cbn [replicate].
  rewrite insert_app_r_alt by (rewrite length_take; lia). rewrite length_take_le by lia.
  rewrite Nat.sub_diag, <- app_assoc. done.
Qed.

Lemma placed_zero out i : out !! i = Some 0 -> placed out i = placed out (S i).
Proof.
  intros H. rewrite <- (placed_step _ _ _ H). symmetry. apply list_insert_id.
  pose proof (lookup_lt_Some _ _ _ H). unfold placed. rewrite lookup_app_r by (rewrite length_take; lia).
  apply lookup_replicate. rewrite length_take. lia.
Qed.

Lemma placed_done out i : (length out <= i)%nat -> placed out i = out.
Proof. intros H. unfold placed. rewrite take_ge by done. replace (length out - i)%nat with 0%nat by lia. apply app_nil_r. Qed.

Lemma nonzeros_drop out i x :
  out !! i = Some x -> nonzeros (drop i out) = (if nonzero x then [x] else []) ++ nonzeros (drop (S i) out).
Proof. intros H. rewrite (drop_S _ _ _ H). cbn. by destruct (nonzero x). Qed.

Lemma distribute_forward k : forall i bitset data out ptr rest,
  (length out <= i + k)%nat -> 0 <= ptr ->
  (forall j, (i <= j)%nat -> get_bit (Z.of_nat j) bitset = nonzero (default 0 (out !! j))) ->
  zdrop ptr data = nonzeros (drop i out) ++ rest ->
  distribute k (Z.of_nat i) bitset data (placed out i) ptr = Ok (out, ptr + len (nonzeros (drop i out))).
Proof.
  induction k as [|k IH]; intros i bitset data out ptr rest L Hp G E.
  { cbn [distribute]. rewrite placed_done, drop_ge by lia. by rewrite Z.add_0_r. }
  cbn [distribute]. rewrite (G i) by lia. replace (Z.of_nat i + 1) with (Z.of_nat (S i)) by lia.
  destruct (out !! i) as [x|] eqn:X; cbn [default]; unfold id.
  - rewrite (nonzeros_drop _ _ _ X) in E |- *. destruct (nonzero x) eqn:NX; cbn [app] in E |- *.
    + assert (D : data !! Z.to_nat ptr = Some x).
      { unfold zdrop in E. by rewrite <- (Nat.add_0_r (Z.to_nat ptr)), <- lookup_drop, E. }
      rewrite D. pose proof (lookup_lt_Some _ _ _ X). unfold len at 1. rewrite length_placed. zdecide.
      unfold nonzero in NX. apply negb_true_iff in NX. rewrite NX, Nat2Z.id, (placed_step _ _ _ X).
      rewrite (IH _ _ _ _ _ rest); [rewrite len_cons; do 2 f_equal; lia|lia|lia|intros j Hj; apply G; lia|].
      unfold zdrop in *. rewrite Z2Nat.inj_add by lia. rewrite <- drop_drop, E. done.
    + assert (x = 0) as -> by (unfold nonzero in NX; apply negb_false_iff in NX; by zbool).
      rewrite (placed_zero _ _ X). apply (IH _ _ _ _ _ rest); [lia|done|intros j Hj; apply G; lia|done].
  - apply lookup_ge_None in X.
    replace (placed out i) with (placed out (S i)) by (by rewrite !placed_done by lia).
    replace (drop i out) with (drop (S i) out) in * by (by rewrite !drop_ge by lia).
    apply (IH _ _ _ _ _ rest); [lia|done|intros j Hj; apply G; lia|done].
Qed.

Lemma distribute_inverse k : forall i bitset data decomp ptr out ptr',
  0 <= ptr -> (forall j x, (i <= j)%nat -> decomp !! j = Some x -> x = 0) ->
  bytes_ok data -> bytes_ok decomp ->
  distribute k (Z.of_nat i) bitset data decomp ptr = Ok (out, ptr') ->
  length out = length decomp /\ take i out = take i decomp /\ bytes_ok out /\
  (forall j, (i <= j < i + k)%nat -> get_bit (Z.of_nat j) bitset = nonzero (default 0 (out !! j))) /\
  zdrop ptr data = nonzeros (drop i out) ++ zdrop ptr' data /\ ptr' = ptr + len (nonzeros (drop i out)).
Proof.
  induction k as [|k IH]; intros i bitset data decomp ptr out ptr' Hp Z0 Od Oc D; cbn [distribute] in D.
  { injection D as <- <-. assert (nonzeros (drop i decomp) = []) as ->.
    { assert (F : Forall (fun x => x = 0) (drop i decomp)).
      { apply Forall_lookup. intros j x Hx. rewrite lookup_drop in Hx. by apply (Z0 (i + j)%nat); [lia|]. }
      by induction F as [|x l -> F IHF]. }
    rewrite Z.add_0_r. split; [done|]. split; [done|]. split; [done|]. split; [lia|done]. }
  replace (Z.of_nat i + 1) with (Z.of_nat (S i)) in D by lia.
  assert (Step : forall decomp' p, 0 <= p -> bytes_ok decomp' -> length decomp' = length decomp ->
    (forall j, j <> i -> decomp' !! j = decomp !! j) ->
    distribute k (Z.of_nat (S i)) bitset data decomp' p = Ok (out, ptr') ->
    length out = length decomp /\ take i out = take i decomp /\ bytes_ok out /\ out !! i = decomp' !! i /\
    (forall j, (S i <= j < S i + k)%nat -> get_bit (Z.of_nat j) bitset = nonzero (default 0 (out !! j))) /\
    zdrop p data = nonzeros (drop (S i) out) ++ zdrop ptr' data /\ ptr' = p + len (nonzeros (drop (S i) out))).
  { intros d' p Hp' Oc' Ld Sd E. apply IH in E as (L & T & Oo & G & Dr & P); [|done| |done|done].
    - split; [by rewrite L|]. split; [|split; [done|split; [|done]]].
      + apply (f_equal (take i)) in T. rewrite !take_take, !Nat.min_l in T by lia. rewrite T.
        apply list_eq. intros j. rewrite !lookup_take. case_decide; [|done]. apply Sd. lia.
      + rewrite <- (lookup_take_lt out (S i)), T by lia. apply lookup_take_lt. lia.
    - intros j x Hj Hx. rewrite Sd in Hx by lia. by apply (Z0 j); [lia|]. }
  destruct (get_bit (Z.of_nat i) bitset) eqn:B.
  - destruct (data !! Z.to_nat ptr) as [x|] eqn:X; [|done].
    destruct (Z.leb_spec (len decomp) (Z.of_nat i)); [done|]. destruct (Z.eqb_spec x 0) as [|NX]; [done|].
    assert (nonzero x = true) as Nx by (by apply negb_true_iff, Z.eqb_neq).
    rewrite Nat2Z.id in D. unfold len in *. apply Step in D as (L & T & Oo & Xi & G & Dr & ->);
      [|lia|apply Forall_insert; [done|by eapply (proj1 (Forall_lookup _ _) Od)]|by rewrite length_insert|
       intros j Hj; by apply list_lookup_insert_ne].
    rewrite list_lookup_insert_eq in Xi by lia. split; [done|]. split; [done|]. split; [done|].
    rewrite (nonzeros_drop _ _ _ Xi), Nx. split; [|split; [|rewrite length_app; cbn; lia]].
    + intros j Hj. destruct (decide (j = i)) as [->|]; [by rewrite B, Xi|apply G; lia].
    + cbn [app]. rewrite <- Dr. unfold zdrop. rewrite Z2Nat.inj_add by lia. rewrite (drop_S _ _ _ X). do 2 f_equal. lia.
  - apply Step in D as (L & T & Oo & Xi & G & Dr & ->); [|done|done|done|done].
    split; [done|]. split; [done|]. split; [done|].
    assert (nonzero (default 0 (out !! i)) = false /\ nonzeros (drop i out) = nonzeros (drop (S i) out)) as [Nx Nd].
    { destruct (out !! i) as [x|] eqn:X; cbn [default]; unfold id.
      - assert (x = 0) as -> by (apply (Z0 i); [lia|done]). split; [done|]. by rewrite (nonzeros_drop _ _ _ X).
      - apply lookup_ge_None in X. split; [done|]. by rewrite !drop_ge by lia. }
    rewrite Nd. split; [|done]. intros j Hj. destruct (decide (j = i)) as [->|]; [by rewrite B, Nx|apply G; lia].
Qed.

(** ** Lemmas: encoding and decoding *)

Lemma nonzeros_zeros n : nonzeros (replicate n 0) = [].
Proof. by induction n. Qed.

Lemma nonzeros_default l i : nonzeros l = [] -> nonzero (default 0 (l !! i)) = false.
Proof.
  intros H. destruct (l !! i) as [x|] eqn:X; [|done]. cbn [default]. unfold id.
  destruct (nonzero x) eqn:N; [|done]. apply list_elem_of_lookup_2, list_elem_of_In in X.
  assert (In x (nonzeros l)) as I by (by apply List.filter_In). by rewrite H in I.
Qed.

Lemma get_bit_nonzeros j l : nonzeros l = [] -> get_bit j l = false.
Proof.
  intros H. rewrite get_bit_testbit. apply (nonzeros_default _ (Z.to_nat (j / 8))) in H.
  unfold nonzero in H. apply negb_false_iff, Z.eqb_eq in H. rewrite H. apply Z.bits_0.
Qed.

(** A byte string with a byte that is not zero has a bit set with one. *)
Lemma bitset_nonzeros data bs :
  nonzeros data <> [] -> (forall j, 0 <= j -> get_bit j bs = nonzero (default 0 (data !! Z.to_nat j))) ->
  nonzeros bs <> [].
Proof.
  intros N G E. apply N. unfold nonzeros. destruct (List.filter nonzero data) as [|x l] eqn:F; [done|].
  assert (I : In x (List.filter nonzero data)) by (rewrite F; by left). apply List.filter_In in I as [I Nx].
  apply list_elem_of_In, list_elem_of_lookup_1 in I as [i Hi].
  specialize (G (Z.of_nat i) ltac:(lia)). rewrite Nat2Z.id, Hi, get_bit_nonzeros in G by done. cbn in G. unfold id in G. congruence.
Qed.

Lemma bitsetEncode_long fuel data bs :
  (2 <= length data)%nat -> nonzeros data <> [] ->
  gather 0 data (replicate (bitset_size (length data)) 0) [] = (bs, nonzeros data) ->
  bitsetEncode (S fuel) data = (e ← bitsetEncode fuel bs; Ok (e ++ nonzeros data)).
Proof.
  intros L N G. destruct data as [|x [|y data]]; [cbn in L; lia..|]. cbn [bitsetEncode]. rewrite G.
  by destruct (nonzeros (x :: y :: data)).
Qed.

Lemma bitsetDecode_long fuel data target :
  (2 <= target)%nat -> data <> [] ->
  bitsetDecodePartial (S fuel) data target =
  (r ← bitsetDecodePartial fuel data (bitset_size target); distribute (8 * length r.1) 0 r.1 data (replicate target 0) r.2).
Proof. intros L N. destruct target as [|[|n]]; [lia..|]. by destruct data. Qed.

Lemma bitsetDecode_nil fuel target : bitsetDecodePartial (S fuel) [] target = Ok (replicate target 0, 0).
Proof. by destruct target as [|[|n]]. Qed.

Lemma bitset_forward fuel : forall data,
  (length data < fuel)%nat ->
  exists e, bitsetEncode fuel data = Ok e /\ (nonzeros data = [] -> e = []) /\
    (nonzeros data <> [] -> e <> [] /\ forall fuel' rest, (length data < fuel')%nat ->
       bitsetDecodePartial fuel' (e ++ rest) (length data) = Ok (data, len e)).
Proof.
  induction fuel as [|fuel IH]; intros data Lf; [lia|].
  destruct data as [|x [|y data']]; [by exists []| |].
  { exists (if x =? 0 then [] else [x]). cbn [bitsetEncode nonzeros List.filter]. unfold nonzero.
    destruct (Z.eqb_spec x 0) as [->|N]; cbn; [done|]. split; [done|]. split; [done|]. intros _. split; [done|].
    intros [|f] rest L; [lia|]. cbn. by zdecide. }
  set (data := x :: y :: data') in *. assert (L2 : (2 <= length data)%nat) by (cbn; lia). clearbody data. clear x y data'.
  destruct (gather_bitset data) as (bs & G & Lb & Ob & Bits). pose proof (bitset_size_lt _ L2).
  destruct (decide (nonzeros data = [])) as [E|N].
  { exists []. split; [|done]. destruct data as [|x [|y data]]; [cbn in L2; lia..|]. cbn [bitsetEncode]. by rewrite G, E. }
  destruct (IH bs) as (e & Ee & _ & Dec); [lia|]. destruct (Dec (bitset_nonzeros _ _ N Bits)) as [Ne Dec']. clear Dec.
  exists (e ++ nonzeros data). rewrite (bitsetEncode_long fuel data bs L2 N G), Ee. split; [done|]. split; [done|]. intros _.
  split; [by destruct e|]. intros [|f] rest Lf'; [lia|].
  rewrite bitsetDecode_long, <- Lb, <- app_assoc by (done || by destruct e). rewrite Dec' by lia.
  cbn [mbind outcome_bind fst snd]. rewrite len_app.
  replace (replicate (length data) 0) with (placed data 0) by (unfold placed; by rewrite Nat.sub_0_r).
  apply (distribute_forward _ 0 bs _ data (len e) rest); rewrite ?drop_0.
  - pose proof (bitset_size_spec (length data)). lia.
  - apply len_nonneg.
  - intros j _. rewrite Bits, Nat2Z.id by lia. done.
  - apply zdrop_app_len.
Qed.

Lemma bitset_inverse fuel : forall data target out ptr,
  bytes_ok data -> bitsetDecodePartial fuel data target = Ok (out, ptr) ->
  length out = target /\ bytes_ok out /\ 0 <= ptr /\ (nonzeros out = [] -> ptr = 0) /\
  (nonzeros out <> [] -> forall fuel', (target < fuel')%nat ->
     exists e, bitsetEncode fuel' out = Ok e /\ data = e ++ zdrop ptr data /\ len e = ptr).
Proof.
  induction fuel as [|fuel IH]; intros data target out ptr O D; [done|].
  destruct target as [|[|n]]; cbn [bitsetDecodePartial] in D.
  - injection D as <- <-. split; [done|]. split; [constructor|]. split; [done|]. by split.
  - destruct data as [|x data]; injection D as <- <-; [split; [done|]; split; [apply (bytes_ok_replicate0 1)|]; split; [done|]; by split|].
    apply bytes_ok_cons in O as [Ox O]. unfold nonzeros, nonzero. cbn. destruct (Z.eqb_spec x 0) as [->|N]; cbn.
    + split; [done|]. split; [by constructor|]. split; [done|]. by split.
    + split; [done|]. split; [by constructor|]. split; [done|]. split; [done|]. intros _ [|f] L; [lia|].
      exists [x]. cbn. by zdecide.
  - set (target := S (S n)) in *. assert (T2 : (2 <= target)%nat) by lia. clearbody target. clear n.
    destruct data as [|y data']; [injection D as <- <-; rewrite length_replicate|].
    { split; [done|]. split; [apply bytes_ok_replicate0|]. split; [done|]. split; [done|]. intros N. destruct N. clear. by induction target. }
    set (data := y :: data') in *. clearbody data. clear y data'.
    destruct (bitsetDecodePartial fuel data (bitset_size target)) as [[bs p]| | |] eqn:D1; try done. cbn [mbind outcome_bind fst snd] in D.
    apply IH in D1 as (Lb & Ob & Hp & P0 & Enc); [|done]. change 0 with (Z.of_nat 0) in D at 1.
    apply distribute_inverse in D as (L & _ & Oo & Bits & Dr & ->); [|done| |done|apply bytes_ok_replicate0].
    2: { intros j x _ Hx. by apply lookup_replicate in Hx as [-> _]. }
    rewrite length_replicate in L. rewrite drop_0 in Dr |- *. pose proof (len_nonneg (nonzeros out)).
    pose proof (bitset_size_spec target). pose proof (bitset_size_lt target T2).
    assert (Bits' : forall j, 0 <= j < 8 * len bs -> get_bit j bs = nonzero (default 0 (out !! Z.to_nat j))).
    { intros j Hj. unfold len in Hj. rewrite <- (Bits (Z.to_nat j)) by lia. by rewrite Z2Nat.id by lia. }
    destruct (gather_bitset out) as (bs' & G & Lb' & Ob' & Bg). rewrite L in *.
    assert (bs' = bs) as ->.
    { apply bitset_ext; [done|done|lia|]. intros j Hj. unfold len in *. rewrite Bg, Bits' by lia. done. }
    split; [done|]. split; [done|]. split; [lia|]. split.
    + intros E. rewrite E, P0; [done|]. rewrite (bitset_ext bs (replicate (length bs) 0)); [apply nonzeros_zeros|done|apply bytes_ok_replicate0|by rewrite length_replicate|].
      intros j Hj. rewrite Bg, get_bit_zeros by lia. by apply nonzeros_default.
    + intros N [|f] Lf; [lia|]. destruct (Enc (bitset_nonzeros _ _ N Bg) f) as (e & Ee & Ed & Le); [lia|].
      exists (e ++ nonzeros out). rewrite (bitsetEncode_long f out bs); [|lia|done|by rewrite L]. rewrite Ee. split; [done|].
      rewrite len_app. split; [|lia]. by rewrite <- app_assoc, <- Dr.
Qed.

Lemma distribute_returns k : forall i bitset data decomp ptr,
  match distribute k i bitset data decomp ptr with Ok _ | Err _ => True | _ => False end.
Proof.
  induction k as [|k IH]; intros; [done|]. cbn [distribute].
  destruct (get_bit _ _); [|apply IH]. destruct (_ !! _); [|done]. destruct (_ <=? _); [done|]. destruct (_ =? 0); [done|apply IH].
Qed.

Lemma bitsetDecode_returns fuel : forall data target,
  (target < fuel)%nat -> match bitsetDecodePartial fuel data target with Ok _ | Err _ => True | _ => False end.
Proof.
  induction fuel as [|fuel IH]; intros data target L; [lia|].
  destruct (decide (2 <= target)%nat) as [T2|T2]; [|by destruct target as [|[|n]], data; try done; lia].
  destruct (decide (data = [])) as [->|N]; [by destruct target as [|[|n]]|].
  rewrite bitsetDecode_long by done. pose proof (bitset_size_lt _ T2). specialize (IH data (bitset_size target) ltac:(lia)).
  destruct (bitsetDecodePartial fuel data (bitset_size target)) as [[bs p]| | |]; try done. apply distribute_returns.
Qed.

Lemma bitsetDecodeBytes_returns data target :
  match bitsetDecodeBytes data target with Ok _ | Err _ => True | _ => False end.
Proof.
  unfold bitsetDecodeBytes, bitsetDecodePartialBytes.
  pose proof (bitsetDecode_returns (S target) data target ltac:(lia)) as R.
  destruct (bitsetDecodePartial _ _ _); try done. cbn [mbind outcome_bind]. by destruct (negb _).
Qed.

Lemma nonzeros_nil_inv l : nonzeros l = [] -> l = replicate (length l) 0.
Proof.
  induction l as [|x l IH]; [done|]. unfold nonzeros. cbn [List.filter]. destruct (nonzero x) eqn:N; [done|].
  intros H. unfold nonzero in N. apply negb_false_iff, Z.eqb_eq in N as ->. cbn. f_equal. by apply IH.
Qed.

Lemma bitset_roundtrip data :
  exists e, bitsetEncodeBytes data = Ok e /\ bitsetDecodeBytes e (length data) = Ok data.
Proof.
  destruct (bitset_forward (S (length data)) data) as (e & E & Z & N); [lia|]. exists e. split; [done|].
  unfold bitsetDecodeBytes, bitsetDecodePartialBytes. destruct (decide (nonzeros data = [])) as [H|H].
  - rewrite (Z H), bitsetDecode_nil. cbn. by rewrite <- nonzeros_nil_inv.
  - destruct (N H) as [_ D]. specialize (D (S (length data)) [] ltac:(lia)). rewrite app_nil_r in D. rewrite D.
    cbn [mbind outcome_bind fst snd]. by rewrite Z.eqb_refl.
Qed.

Lemma bitset_canonical data target out :
  bytes_ok data -> bitsetDecodeBytes data target = Ok out -> length out = target /\ bitsetEncodeBytes out = Ok data.
Proof.
  intros O. unfold bitsetDecodeBytes, bitsetDecodePartialBytes.
  destruct (bitsetDecodePartial (S target) data target) as [[o p]| | |] eqn:D; try done. cbn [mbind outcome_bind fst snd].
  destruct (Z.eqb_spec p (len data)) as [->|]; [|done]. intros [= ->].
  apply bitset_inverse in D as (L & _ & _ & Z & N); [|done]. split; [done|].
  destruct (decide (nonzeros out = [])) as [H|H].
  - specialize (Z H). apply len_zero_inv in Z as ->. unfold bitsetEncodeBytes.
    destruct (bitset_forward (S (length out)) out) as (e & -> & Z & _); [lia|]. by rewrite (Z H).
  - destruct (N H (S (length out))) as (e & E & Ed & Le); [lia|]. unfold bitsetEncodeBytes. rewrite E. f_equal.
    unfold len in Le. unfold zdrop, len in Ed. rewrite Nat2Z.id, drop_all, app_nil_r in Ed. done.
Qed.

(** ** Lemmas: words and bytes *)

Section Words.
Context (op : Z -> Z -> Z) (f : bool -> bool -> bool).
Hypothesis op_bits : forall x y n, 0 <= n -> Z.testbit (op x y) n = f (Z.testbit x n) (Z.testbit y n).
Hypothesis f_zero : f false false = false.

Lemma op_byte x y X Y : byte_ok x -> byte_ok y -> op (x + 256 * X) (y + 256 * Y) = op x y + 256 * op X Y /\ byte_ok (op x y).
Proof.
  intros Hx Hy. unfold byte_ok in *.
  assert (Low : forall a A n, 0 <= a < 256 -> 0 <= n -> Z.testbit (a + 256 * A) n = if n <? 8 then Z.testbit a n else Z.testbit A (n - 8)).
  { intros a A n Ha Hn. destruct (Z.ltb_spec n 8).
    - rewrite <- (Z.mod_pow2_bits_low _ 8) by done. f_equal. change (2 ^ 8) with 256.
      rewrite Z.mul_comm, Z.mod_add by lia. by apply Z.mod_small.
    - replace n with (n - 8 + 8) at 1 by lia. rewrite <- Z.div_pow2_bits by lia. f_equal. change (2 ^ 8) with 256.
      rewrite Z.mul_comm, Z.div_add, Z.div_small by lia. lia. }
  assert (Hi : forall a n, 0 <= a < 256 -> 8 <= n -> Z.testbit a n = false).
  { intros a n Ha Hn. destruct (Z.eq_dec a 0) as [->|]; [apply Z.bits_0|]. apply Z.bits_above_log2; [lia|].
    pose proof (Z.log2_lt_pow2 a 8). lia. }
  assert (B : byte_ok (op x y)).
  { assert (op x y = op x y mod 2 ^ 8) as E; [|unfold byte_ok; rewrite E; apply Z.mod_pos_bound; lia].
    apply Z.bits_inj'. intros n Hn. destruct (Z.lt_ge_cases n 8); [by rewrite Z.mod_pow2_bits_low|].
    rewrite Z.mod_pow2_bits_high, op_bits, !Hi by lia. done. }
  split; [|done]. apply Z.bits_inj'. intros n Hn. rewrite (Low (op x y)), op_bits, !Low by (unfold byte_ok in B; lia).
  destruct (Z.ltb_spec n 8); [by rewrite op_bits|]. rewrite op_bits by lia. done.
Qed.

Lemma le_word a : forall b, bytes_ok a -> bytes_ok b -> length a = length b ->
  le_fixed (length a) (op (le_decode a) (le_decode b)) = zip_with op a b.
Proof.
  induction a as [|x a IH]; intros [|y b] Oa Ob L; try done. cbn [le_decode foldr length le_fixed zip_with].
  fold (le_decode a) (le_decode b). apply bytes_ok_cons in Oa as [Ox Oa], Ob as [Oy Ob].
  destruct (op_byte x y (le_decode a) (le_decode b) Ox Oy) as [-> B]. unfold byte_ok in B.
  rewrite (Z.mul_comm 256), Z.mod_add, Z.mod_small, Z.div_add, Z.div_small by lia. f_equal. apply IH; [done|done|by injection L].
Qed.

(** What has been computed after [i] bytes. *)
Definition combined (a b dst : bytes) (i : nat) : bytes := zip_with op (take i a) (take i b) ++ drop i dst.

Lemma length_combined a b dst i :
  (i <= length a)%nat -> (i <= length b)%nat -> (i <= length dst)%nat -> length (combined a b dst i) = length dst.
Proof. intros. unfold combined. rewrite length_app, length_zip_with, !length_take, length_drop. lia. Qed.

Lemma safe_loop_spec a b dst k : forall i,
  (i + k <= length a)%nat -> (i + k <= length b)%nat -> (i + k <= length dst)%nat ->
  safe_loop op k i a b (combined a b dst i) = Ok (combined a b dst (i + k)).
Proof.
  induction k as [|k IH]; intros i La Lb Ld; cbn [safe_loop]; [by rewrite Nat.add_0_r|].
  destruct (lookup_lt_is_Some_2 a i) as [x Hx]; [lia|]. destruct (lookup_lt_is_Some_2 b i) as [y Hy]; [lia|].
  destruct (lookup_lt_is_Some_2 dst i) as [z Hz]; [lia|]. rewrite Hx, Hy.
  destruct (lookup_lt_is_Some_2 (combined a b dst i) i) as [z' ->]; [rewrite length_combined; lia|].
  replace (<[i := op x y]> (combined a b dst i)) with (combined a b dst (S i)).
  - rewrite IH by lia. do 2 f_equal. lia.
  - unfold combined. rewrite (take_S_r _ _ _ Hx), (take_S_r _ _ _ Hy), (drop_S dst _ _ Hz).
    assert (Lz : length (zip_with op (take i a) (take i b)) = i) by (rewrite length_zip_with, !length_take; lia).
    rewrite zip_with_app, <- app_assoc by (rewrite !length_take; lia).
    rewrite insert_app_r_alt, Lz, Nat.sub_diag by lia. done.
Qed.

Lemma word_loop_spec a b dst k : forall i,
  bytes_ok a -> bytes_ok b ->
  (8 * (i + k) <= length a)%nat -> (8 * (i + k) <= length b)%nat -> (8 * (i + k) <= length dst)%nat ->
  word_loop op k i a b (combined a b dst (8 * i)) = Ok (combined a b dst (8 * (i + k))).
Proof.
  induction k as [|k IH]; intros i Oa Ob La Lb Ld; cbn [word_loop]; [by rewrite Nat.add_0_r|].
  rewrite length_combined by lia. unfold wordSize. rewrite (proj2 (Nat.ltb_ge _ _)) by lia.
  replace (set_word _ _ _) with (combined a b dst (8 * S i)).
  - rewrite IH by (done || lia). do 3 f_equal. lia.
  - unfold set_word, word_at, wordSize.
    assert (Lc : forall l : bytes, (8 * i + 8 <= length l)%nat -> length (take 8 (drop (8 * i) l)) = 8%nat).
    { intros l Hl. rewrite length_take, length_drop. lia. }
    rewrite <- (Lc a) at 4 by lia. rewrite le_word; [|by apply Forall_take, Forall_drop..|by rewrite !Lc by lia].
    assert (Lz : length (zip_with op (take (8 * i) a) (take (8 * i) b)) = (8 * i)%nat) by (rewrite length_zip_with, !length_take; lia).
    unfold combined. rewrite take_app_length' by done. rewrite drop_app_ge, Lz, drop_drop by lia.
    replace (8 * i + (8 * i + 8 - 8 * i))%nat with (8 * i + 8)%nat by lia.
    replace (8 * S i)%nat with (8 * i + 8)%nat by lia. rewrite app_assoc. f_equal.
    rewrite <- zip_with_app by (rewrite !length_take; lia). by rewrite !take_take_drop.
Qed.

Lemma fast_safe dst a b :
  bytes_ok a -> bytes_ok b -> (Nat.min (length a) (length b) <= length dst)%nat ->
  let n := Nat.min (length a) (length b) in
  fastBytes op dst a b = Ok (combined a b dst n, Z.of_nat n) /\ safeBytes op dst a b = Ok (combined a b dst n, Z.of_nat n).
Proof.
  intros Oa Ob L n. unfold fastBytes, safeBytes. fold n. change dst with (combined a b dst 0) at 1 3.
  pose proof (Nat.div_mod n 8 ltac:(lia)) as E. pose proof (Nat.mod_upper_bound n 8 ltac:(lia)).
  split; [|rewrite safe_loop_spec by lia; done].
  change (combined a b dst 0) with (combined a b dst (8 * 0)). unfold wordSize. rewrite word_loop_spec by (done || lia).
  cbn [mbind outcome_bind]. rewrite Nat.add_0_l. replace (n - n mod 8)%nat with (8 * (n / 8))%nat by lia.
  rewrite safe_loop_spec by lia. cbn [mbind outcome_bind]. by rewrite <- E.
Qed.
End Words.

Lemma safeTestBytes_app l k : safeTestBytes (l ++ k) = safeTestBytes l || safeTestBytes k.
Proof. induction l as [|x l IH]; [done|]. cbn. by destruct (x =? 0). Qed.

Lemma safeTestBytes_word l : bytes_ok l -> negb (le_decode l =? 0) = safeTestBytes l.
Proof.
  assert (Nn : forall k, bytes_ok k -> 0 <= le_decode k).
  { induction 1 as [|x k Hx _ IH]; [done|]. unfold byte_ok in Hx. cbn. fold (le_decode k). lia. }
  induction 1 as [|x l Hx Hl IH]; [done|]. specialize (Nn l Hl). unfold byte_ok in Hx.
  cbn [le_decode foldr safeTestBytes]. fold (le_decode l). rewrite <- IH.
  destruct (Z.eqb_spec x 0) as [->|]; cbn [negb]; [|by zdecide].
  destruct (Z.eqb_spec (le_decode l) 0); by zdecide.
Qed.

Lemma test_words_spec p k : forall i, bytes_ok p -> test_words k i p = safeTestBytes (take (8 * k) (drop (8 * i) p)).
Proof.
  induction k as [|k IH]; intros i O; [done|]. cbn [test_words]. rewrite IH by done. unfold word_at, wordSize.
  rewrite safeTestBytes_word by by apply Forall_take, Forall_drop.
  replace (8 * S k)%nat with (8 + 8 * k)%nat by lia. rewrite <- take_take_drop, safeTestBytes_app, drop_drop.
  replace (8 * i + 8)%nat with (8 * S i)%nat by lia. by destruct (safeTestBytes (take 8 _)).
Qed.

(** ** Theorems *)

(** Compression loses nothing and never grows: whatever the data, [CompressBytes] returns
    a string that is not longer, and decompressing it to the length of the data returns the
    data.  Neither runs out of its recursion. *)
Theorem Compress_roundtrip data :
  exists c, CompressBytes data = Ok c /\ len c <= len data /\ DecompressBytes c (len data) = Ok data.
Proof.
  destruct (bitset_roundtrip data) as (e & E & D). unfold CompressBytes. rewrite E. cbn [mbind outcome_bind].
  unfold DecompressBytes. destruct (Z.ltb_spec (len e) (len data)) as [L|L].
  - exists e. split; [done|]. split; [lia|]. zdecide. unfold len. by rewrite Nat2Z.id.
  - exists data. split; [done|]. split; [lia|]. zdecide. done.
Qed.

(** The fuzzer has nothing to find: [Fuzz] panics on no input.  Every byte string that the
    bit set decoder accepts is the one the encoder produces for the result, and decoding
    what the encoder produces gives the input. *)
Theorem Fuzz_never_panics data : bytes_ok data -> exists r, Fuzz data = Ok r.
Proof.
  intros O. unfold Fuzz. destruct data as [|x data]; [by eauto|]. apply bytes_ok_cons in O as [_ O].
  destruct (x mod 2 =? 0).
  - unfold fuzzEncode. destruct (bitset_roundtrip data) as (e & -> & D). cbn [mbind outcome_bind]. rewrite D.
    rewrite bool_decide_eq_true_2 by done. eauto.
  - unfold fuzzDecode. destruct (bitsetDecodeBytes data 1024) as [blob| | |] eqn:D; [|by eauto|exfalso..].
    + destruct (bitset_canonical _ _ _ O D) as [_ ->]. cbn [mbind outcome_bind]. rewrite bool_decide_eq_true_2 by done. eauto.
    + by pose proof (bitsetDecodeBytes_returns data 1024) as R; rewrite D in R.
    + by pose proof (bitsetDecodeBytes_returns data 1024) as R; rewrite D in R.
Qed.

Lemma Fuzz_never_panics_witness :
  (exists r, Fuzz [1; 0x80; 0x10; 0x07] = Ok r) /\ (exists r, Fuzz [0; 0; 5; 0; 7] = Ok r).
Proof. split; (apply Fuzz_never_panics; repeat constructor; unfold byte_ok; lia). Defined.

(** The word-at-a-time operations do what the byte-at-a-time ones do, on every platform,
    when the destination has room: [XORBytes], [ANDBytes] and [ORBytes] combine the common
    prefix, leave the rest of the destination and return the number of bytes; [TestBytes]
    does not depend on the platform. *)
Theorem bytewise_platform_free u dst a b :
  bytes_ok a -> bytes_ok b -> (Nat.min (length a) (length b) <= length dst)%nat ->
  let n := Nat.min (length a) (length b) in
  XORBytes u dst a b = Ok (zip_with Z.lxor (take n a) (take n b) ++ drop n dst, Z.of_nat n) /\
  ANDBytes u dst a b = Ok (zip_with Z.land (take n a) (take n b) ++ drop n dst, Z.of_nat n) /\
  ORBytes u dst a b = Ok (zip_with Z.lor (take n a) (take n b) ++ drop n dst, Z.of_nat n) /\
  TestBytes u a = existsb nonzero a.
Proof.
  intros Oa Ob L n. unfold XORBytes, ANDBytes, ORBytes, TestBytes.
  destruct (fast_safe Z.lxor xorb (fun x y k _ => Z.lxor_spec x y k) eq_refl dst a b Oa Ob L) as [X1 X2].
  destruct (fast_safe Z.land andb (fun x y k _ => Z.land_spec x y k) eq_refl dst a b Oa Ob L) as [A1 A2].
  destruct (fast_safe Z.lor orb (fun x y k _ => Z.lor_spec x y k) eq_refl dst a b Oa Ob L) as [O1 O2].
  rewrite X1, X2, A1, A2, O1, O2. split; [by destruct u|]. split; [by destruct u|]. split; [by destruct u|].
  assert (fastTestBytes a = safeTestBytes a) as ->.
  { unfold fastTestBytes. rewrite test_words_spec, drop_0 by done. unfold wordSize.
    pose proof (Nat.div_mod (length a) 8 ltac:(lia)).
    replace (length a - length a mod 8)%nat with (8 * (length a / 8))%nat by lia.
    transitivity (safeTestBytes (take (8 * (length a / 8)) a ++ drop (8 * (length a / 8)) a)); [|by rewrite take_drop].
    rewrite safeTestBytes_app. by destruct (safeTestBytes (take _ _)). }
  assert (safeTestBytes a = existsb nonzero a) as ->; [|by destruct u].
  clear. induction a as [|x a IH]; [done|]. cbn. rewrite IH. unfold nonzero. by destruct (x =? 0).
Qed.

Lemma bytewise_platform_free_witness :
  XORBytes true [0; 0; 0; 0; 0; 0; 0; 0; 0; 9] [1; 2; 3; 4; 5; 6; 7; 8; 9] [255; 0; 255; 0; 255; 0; 255; 0; 255; 0] =
    Ok ([254; 2; 252; 4; 250; 6; 248; 8; 246; 9], 9).
Proof.
  assert (O : bytes_ok [1; 2; 3; 4; 5; 6; 7; 8; 9] /\ bytes_ok [255; 0; 255; 0; 255; 0; 255; 0; 255; 0]).
  { split; repeat constructor; unfold byte_ok; lia. }
  destruct O as [Oa Ob].
  exact (proj1 (bytewise_platform_free true [0; 0; 0; 0; 0; 0; 0; 0; 0; 9] _ _ Oa Ob ltac:(apply Nat.leb_le; reflexivity))).
Defined.
