(* ===== verification/ChainConfig.v ===== *)
(** * Package [params]: the chain configuration

    [config.go]: the fork schedule, the tests whether a fork is active, and
    [CheckCompatible], which finds how far a stored chain must be rewound to be valid
    under a new configuration. *)

From S2P Require Import Prelude Common.

(** ** Data *)

(** A fork block that is [None] is not scheduled. *)
Record ChainConfig := mkChainConfig {
  ChainId : option Z;
  HomesteadBlock : option Z;
  DAOForkBlock : option Z;
  DAOForkSupport : bool;
  EIP150Block : option Z;
  EIP150Hash : bytes;
  EIP155Block : option Z;
  EIP158Block : option Z;
  ByzantiumBlock : option Z
}.

Inductive compat_what :=
  | HomesteadForkBlock | DAOForkBlockWhat | DAOForkSupportFlag | EIP150ForkBlock | EIP155ForkBlock
  | EIP158ForkBlock | EIP158ChainID | ByzantiumForkBlock.

Record ConfigCompatError := mkCompatError {
  What : compat_what;
  StoredConfig : option Z;
  NewConfig : option Z;
  RewindTo : Z
}.

Record Rules := mkRules {
  r_ChainId : Z; r_IsHomestead : bool; r_IsEIP150 : bool; r_IsEIP155 : bool; r_IsEIP158 : bool; r_IsByzantium : bool
}.

(** ** Forks *)

Definition isForked (s head : option Z) : bool :=
  match s, head with Some s, Some head => s <=? head | _, _ => false end.

Definition configNumEqual (x y : option Z) : bool :=
  match x, y with
  | None, None => true
  | Some x, Some y => x =? y
  | _, _ => false
  end.

Definition isForkIncompatible (s1 s2 head : option Z) : bool :=
  (isForked s1 head || isForked s2 head) && negb (configNumEqual s1 s2).

Definition IsHomestead (c : ChainConfig) (num : option Z) : bool := isForked (HomesteadBlock c) num.
Definition IsDAOFork (c : ChainConfig) (num : option Z) : bool := isForked (DAOForkBlock c) num.
Definition IsEIP150 (c : ChainConfig) (num : option Z) : bool := isForked (EIP150Block c) num.
Definition IsEIP155 (c : ChainConfig) (num : option Z) : bool := isForked (EIP155Block c) num.
Definition IsEIP158 (c : ChainConfig) (num : option Z) : bool := isForked (EIP158Block c) num.
Definition IsByzantium (c : ChainConfig) (num : option Z) : bool := isForked (ByzantiumBlock c) num.

Definition rules (c : ChainConfig) (num : option Z) : Rules :=
  mkRules (default 0 (ChainId c)) (IsHomestead c num) (IsEIP150 c num) (IsEIP155 c num) (IsEIP158 c num)
    (IsByzantium c num).

(** ** Compatibility *)

Definition newCompatError (what : compat_what) (storedblock newblock : option Z) : ConfigCompatError :=
  let rew :=
    match storedblock, newblock with
    | None, _ => newblock
    | Some _, None => storedblock
    | Some s, Some n => if s <? n then storedblock else newblock
    end in
  mkCompatError what storedblock newblock
    (match rew with Some r => if 0 <? r then u64 (u64 r - 1) else 0 | None => 0 end).

Definition checkCompatible (c newcfg : ChainConfig) (head : option Z) : option ConfigCompatError :=
  if isForkIncompatible (HomesteadBlock c) (HomesteadBlock newcfg) head then
    Some (newCompatError HomesteadForkBlock (HomesteadBlock c) (HomesteadBlock newcfg))
  else if isForkIncompatible (DAOForkBlock c) (DAOForkBlock newcfg) head then
    Some (newCompatError DAOForkBlockWhat (DAOForkBlock c) (DAOForkBlock newcfg))
  else if IsDAOFork c head && negb (Bool.eqb (DAOForkSupport c) (DAOForkSupport newcfg)) then
    Some (newCompatError DAOForkSupportFlag (DAOForkBlock c) (DAOForkBlock newcfg))
  else if isForkIncompatible (EIP150Block c) (EIP150Block newcfg) head then
    Some (newCompatError EIP150ForkBlock (EIP150Block c) (EIP150Block newcfg))
  else if isForkIncompatible (EIP155Block c) (EIP155Block newcfg) head then
    Some (newCompatError EIP155ForkBlock (EIP155Block c) (EIP155Block newcfg))
  else if isForkIncompatible (EIP158Block c) (EIP158Block newcfg) head then
    Some (newCompatError EIP158ForkBlock (EIP158Block c) (EIP158Block newcfg))
  else if IsEIP158 c head && negb (configNumEqual (ChainId c) (ChainId newcfg)) then
    Some (newCompatError EIP158ChainID (EIP158Block c) (EIP158Block newcfg))
  else if isForkIncompatible (ByzantiumBlock c) (ByzantiumBlock newcfg) head then
    Some (newCompatError ByzantiumForkBlock (ByzantiumBlock c) (ByzantiumBlock newcfg))
  else None.

Fixpoint compat_loop (fuel : nat) (c newcfg : ChainConfig) (bhead : Z) (lasterr : option ConfigCompatError)
  : outcome unit (option ConfigCompatError) :=
  match fuel with
  | O => OutOfFuel
  | S fuel =>
    match checkCompatible c newcfg (Some bhead) with
    | None => Ok lasterr
    | Some err =>
      if match lasterr with Some l => RewindTo err =? RewindTo l | None => false end then Ok lasterr
      else compat_loop fuel c newcfg (RewindTo err) (Some err)
    end
  end.

Definition CheckCompatible (fuel : nat) (c newcfg : ChainConfig) (height : Z) : outcome unit (option ConfigCompatError) :=
  compat_loop fuel c newcfg (u64 height) None.

(** ** Lemmas *)

(** What an error at a head says: a fork that one of the schedules has passed. *)
Definition conflict_at (head : Z) (e : ConfigCompatError) : Prop :=
  exists r, r <= head /\ RewindTo e = if 0 <? r then u64 (u64 r - 1) else 0.

Lemma newCompatError_conflict what s n head :
  isForked s (Some head) = true \/ isForked n (Some head) = true -> conflict_at head (newCompatError what s n).
Proof.
  unfold newCompatError, conflict_at, isForked. cbn [RewindTo].
  destruct s as [s|], n as [n|]; intros [H|H]; zbool; try done.
  - destruct (s <? n) eqn:E; zbool; [exists s|exists n]; (split; [lia|done]).
  - destruct (s <? n) eqn:E; zbool; [exists s|exists n]; (split; [lia|done]).
  - by exists s.
  - by exists n.
Qed.

Lemma isForkIncompatible_forked s n head :
  isForkIncompatible s n head = true -> isForked s head = true \/ isForked n head = true.
Proof. unfold isForkIncompatible. intros H. apply andb_true_iff in H as [H _]. by apply orb_true_iff in H. Qed.

Lemma checkCompatible_conflict c n head e : checkCompatible c n (Some head) = Some e -> conflict_at head e.
Proof.
  unfold checkCompatible. intros H.
  repeat match type of H with
  | (if isForkIncompatible ?s ?n ?h then _ else _) = _ =>
      destruct (isForkIncompatible s n h) eqn:?Ef; [injection H as <-; by apply newCompatError_conflict, isForkIncompatible_forked|]
  | (if ?b && _ then _ else _) = _ =>
      destruct b eqn:?Eb; cbn [andb] in H;
      [case_match; [injection H as <-; apply newCompatError_conflict; left; done|]|]
  end; try discriminate.
Qed.

Lemma conflict_rewind head e : 0 <= head < 2 ^ 64 -> conflict_at head e -> 0 <= RewindTo e /\ (RewindTo e < head \/ RewindTo e = 0).
Proof.
  intros Hh (r & Hr & ->). destruct (0 <? r) eqn:E; [|lia]. zbool.
  rewrite (u64_small r) by (unfold is_u64; lia). rewrite u64_small by (unfold is_u64; lia). lia.
Qed.

(** What the loop returns: the last conflict, after which there is none, or none can be undone. *)
Definition compat_result (c n : ChainConfig) (last : option ConfigCompatError) (height : Z) (r : option ConfigCompatError) : Prop :=
  match r with
  | None => last = None /\ checkCompatible c n (Some height) = None
  | Some e => 0 <= RewindTo e <= height /\ (checkCompatible c n (Some (RewindTo e)) = None \/ RewindTo e = 0)
  end.

Lemma compat_loop_spec c n : forall fuel head last,
  0 <= head < 2 ^ 64 -> (forall l, last = Some l -> RewindTo l = head) -> (Z.to_nat head + 1 < fuel)%nat ->
  exists r, compat_loop fuel c n head last = Ok r /\ compat_result c n last head r.
Proof.
  induction fuel as [|fuel IH]; intros head last Hh Hl Hf; [lia|]. cbn [compat_loop].
  destruct (checkCompatible c n (Some head)) as [err|] eqn:E.
  2: { exists last. split; [done|]. destruct last as [l|]; cbn; [rewrite (Hl l) by done; split; [lia|by left]|done]. }
  destruct (conflict_rewind head err Hh (checkCompatible_conflict c n head err E)) as [R0 R].
  destruct last as [l|]; [rewrite (Hl l) by done; destruct (RewindTo err =? head) eqn:Er; zbool|].
  - exists (Some l). split; [done|]. cbn. rewrite (Hl l) by done. split; [lia|]. right. lia.
  - destruct (IH (RewindTo err) (Some err)) as (r & Hr & Rr); [lia|by intros ? [= <-]|lia|].
    exists r. split; [done|]. destruct r as [e|]; [|by destruct Rr]. cbn in *. split; [lia|apply Rr].
  - destruct (decide (RewindTo err < head)) as [L|L].
    + destruct (IH (RewindTo err) (Some err)) as (r & Hr & Rr); [lia|by intros ? [= <-]|lia|].
      exists r. split; [done|]. destruct r as [e|]; [|by destruct Rr]. cbn in *. split; [lia|apply Rr].
    + assert (RewindTo err = 0) as R1 by lia. assert (head = 0) as -> by lia. destruct fuel as [|fuel]; [lia|].
      cbn [compat_loop]. rewrite R1, E. cbv iota. rewrite R1. exists (Some err). split; [done|]. cbn. split; [lia|by right].
Qed.

(** [CheckCompatible] ends, and returns nil exactly when no fork conflicts at the
    height; otherwise it returns a conflict whose rewind target is not above the height,
    and at that target no conflict is left, unless it is the genesis block. *)
Theorem CheckCompatible_rewind c n height fuel :
  0 <= height < 2 ^ 64 -> (Z.to_nat height + 1 < fuel)%nat ->
  exists r, CheckCompatible fuel c n height = Ok r /\
    match r with
    | None => checkCompatible c n (Some height) = None
    | Some e => checkCompatible c n (Some height) <> None /\ 0 <= RewindTo e <= height /\
        (checkCompatible c n (Some (RewindTo e)) = None \/ RewindTo e = 0)
    end.
Proof.
  intros Hh Hf. unfold CheckCompatible. rewrite u64_small by done.
  destruct (compat_loop_spec c n fuel height None Hh) as (r & E & R); [done|done|].
  exists r. split; [done|]. destruct r as [e|]; [|apply R]. split; [|exact R]. intros N.
  destruct fuel as [|fuel]; [lia|]. cbn [compat_loop] in E. by rewrite N in E.
Qed.

(** Two conflicts: the lower one decides. *)
Lemma CheckCompatible_rewind_witness :
  exists r, CheckCompatible 32 (mkChainConfig (Some 1) (Some 0) None false (Some 20) [] (Some 10) None None)
      (mkChainConfig (Some 1) (Some 0) None false (Some 25) [] (Some 12) None None) 30 = Ok (Some r) /\ RewindTo r = 9.
Proof.
  destruct (CheckCompatible_rewind (mkChainConfig (Some 1) (Some 0) None false (Some 20) [] (Some 10) None None)
    (mkChainConfig (Some 1) (Some 0) None false (Some 25) [] (Some 12) None None) 30 32) as (r & E & _); [lia|lia|].
  vm_compute in E. injection E as <-. eexists. split; [vm_compute; reflexivity|reflexivity].
Defined.
