(* ===== verification/Signature.v ===== *)
(** * Package [crypto]: signatures and addresses

    The Go side of the secp256k1 signatures ([crypto/signature_cgo.go],
    [crypto/secp256k1/secp256.go], [crypto/crypto.go]) and the integer helpers it uses
    ([common/math/big.go]).  The C library below it is the interface [Secp256k1], with the
    documented behaviour of its signing and recovery. *)

From S2P Require Import Prelude Rlp Common Codec Trie.

(** ** Integers ([common/math]) *)

Definition BitLen (x : Z) : Z := if x =? 0 then 0 else Z.log2 (Z.abs x) + 1.

(** The absolute value in the last bytes of a buffer. *)
Definition ReadBits (x : Z) (n : nat) : bytes := be_fixed n (Z.abs x).

Definition PaddedBigBytes (x : Z) (n : nat) : bytes :=
  if Z.of_nat n <=? BitLen x / 8 then be_min (Z.abs x) else ReadBits x n.

(** ** The C library *)

Definition secp256k1_N : Z := 0xfffffffffffffffffffffffffffffffebaaedce6af48a03bbfd25e8cd0364141.
Definition secp256k1_halfN : Z := secp256k1_N / 2.

(** A compact signature is [r || s] of 64 bytes with a recovery id; signatures made by the
    library have [s] in the lower half and the recovery id 0 or 1, as [secp256k1/secp256.go]
    documents of [Sign].  (The C code returns 2 or 3 when the first coordinate of the nonce
    point is not below the order of the group, and calls that cryptographically unreachable,
    since one has to find such a point's discrete logarithm to hit it.) *)
Class Secp256k1 := {
  seckey_verify : bytes -> bool;
  ecdsa_sign_recoverable : bytes -> bytes -> option (bytes * Z);
  ecdsa_recover_pubkey : bytes -> bytes -> option bytes;
  pubkey_create : bytes -> bytes;
  seckey_verify_law key :
    seckey_verify key = true <-> bytes_ok key /\ len key = 32 /\ 1 <= be_decode key < secp256k1_N;
  sign_law msg key :
    len msg = 32 -> seckey_verify key = true ->
    exists sig recid, ecdsa_sign_recoverable msg key = Some (sig, recid) /\ bytes_ok sig /\ len sig = 64 /\
      (recid = 0 \/ recid = 1) /\ 1 <= be_decode (ztake 32 sig) < secp256k1_N /\
      1 <= be_decode (zdrop 32 sig) <= secp256k1_halfN /\
      ecdsa_recover_pubkey (sig ++ [recid]) msg = Some (pubkey_create key);
  pubkey_law key : seckey_verify key = true ->
    exists xy, pubkey_create key = 4 :: xy /\ len xy = 64 /\ bytes_ok xy
}.

Inductive sig_error :=
  | ErrInvalidMsgLen | ErrInvalidSignatureLen | ErrInvalidRecoveryID | ErrInvalidKey | ErrSignFailed | ErrRecoverFailed
  | ErrHashLength.

Section Sig.
Context {HS : Hasher} {EC : Secp256k1}.

(** ** [secp256.go] *)

Definition checkSignature (sig : bytes) : option sig_error :=
  if negb (len sig =? 65) then Some ErrInvalidSignatureLen
  else if 4 <=? nth 64 sig 0 then Some ErrInvalidRecoveryID
  else None.

Definition secp_Sign (msg seckey : bytes) : outcome sig_error bytes :=
  if negb (len msg =? 32) then Err ErrInvalidMsgLen
  else if negb (len seckey =? 32) then Err ErrInvalidKey
  else if negb (seckey_verify seckey) then Err ErrInvalidKey
  else
    match ecdsa_sign_recoverable msg seckey with
    | None => Err ErrSignFailed
    | Some (sig, recid) => Ok (sig ++ [u8 recid])
    end.

Definition RecoverPubkey (msg sig : bytes) : outcome sig_error bytes :=
  if negb (len msg =? 32) then Err ErrInvalidMsgLen
  else
    match checkSignature sig with
    | Some e => Err e
    | None => match ecdsa_recover_pubkey sig msg with None => Err ErrRecoverFailed | Some pub => Ok pub end
    end.

(** ** [crypto] *)

Definition Ecrecover (hash sig : bytes) : outcome sig_error bytes := RecoverPubkey hash sig.

(** A private key is its scalar [D]. *)
Definition Sign (hash : bytes) (D : Z) : outcome sig_error bytes :=
  if negb (len hash =? 32) then Err ErrHashLength
  else secp_Sign hash (PaddedBigBytes D 32).

Definition ValidateSignatureValues (v r s : Z) (homestead : bool) : bool :=
  if (r <? 1) || (s <? 1) then false
  else if homestead && (secp256k1_halfN <? s) then false
  else (r <? secp256k1_N) && (s <? secp256k1_N) && ((v =? 0) || (v =? 1)).

(** The address of an uncompressed public key. *)
Definition pubkey_address (pub : bytes) : bytes := zdrop 12 (keccak256 (zdrop 1 pub)).

Definition PubkeyToAddress (pub : bytes) : bytes := BytesToAddress (pubkey_address pub).

(** The key pair of a scalar. *)
Definition pubkey_of (D : Z) : bytes := pubkey_create (PaddedBigBytes D 32).

Definition CreateAddress (b : bytes) (nonce : Z) : bytes :=
  let data := match EncodeToBytes (TSlice TIface)
      (VList [VIface (Some (TByteArray 20, VBytes b)); VIface (Some (TUint 64, VUint nonce))]) with Ok d => d | _ => [] end in
  BytesToAddress (zdrop 12 (keccak256 data)).

(** ** Lemmas *)

Lemma BitLen_bound x n : 0 <= x < 2 ^ n -> 0 <= n -> BitLen x <= n.
Proof.
  intros H N. unfold BitLen. destruct (x =? 0) eqn:E; zbool; [lia|].
  rewrite Z.abs_eq by lia. pose proof (Z.log2_lt_pow2 x n ltac:(lia)). lia.
Qed.

Lemma PaddedBigBytes_fixed x : 0 <= x < 2 ^ 256 -> PaddedBigBytes x 32 = be_fixed 32 x.
Proof.
  intros H. unfold PaddedBigBytes, ReadBits. rewrite Z.abs_eq by lia. destruct (Z.of_nat 32 <=? BitLen x / 8) eqn:E; [|done].
  zbool. assert (B : 255 < BitLen x) by (pose proof (Z.div_mod (BitLen x) 8 ltac:(lia)); pose proof (Z.mod_pos_bound (BitLen x) 8 ltac:(lia)); lia).
  apply (be_min_of_size x 32); [|lia]. unfold BitLen in B. destruct (x =? 0) eqn:E0; zbool; [lia|].
  rewrite Z.abs_eq in B by lia. split; [|lia]. pose proof (Z.log2_spec x ltac:(lia)) as [L _].
  etrans; [|exact L]. change (256 ^ (Z.of_nat 32 - 1)) with (2 ^ 248). apply Z.pow_le_mono_r; lia.
Qed.

Lemma seckey_ok D : 1 <= D < secp256k1_N -> seckey_verify (PaddedBigBytes D 32) = true.
Proof.
  intros H. assert (B : 0 <= D < 2 ^ 256) by (unfold secp256k1_N in H; lia).
  apply seckey_verify_law. rewrite PaddedBigBytes_fixed by done. split; [apply be_fixed_ok|]. split; [apply len_be_fixed|].
  rewrite be_decode_fixed, Z.mod_small; [done|]. split; [lia|]. unfold secp256k1_N in H. change (256 ^ Z.of_nat 32) with (2 ^ 256). lia.
Qed.

(** What a signature is: 65 bytes that validate and recover the public key. *)
Record signature_of (hash : bytes) (D : Z) (sig : bytes) : Prop := mkSignatureOf {
  so_ok : bytes_ok sig;
  so_len : len sig = 65;
  so_v : nth 64 sig 0 = 0 \/ nth 64 sig 0 = 1;
  so_r : 1 <= be_decode (ztake 32 sig) < secp256k1_N;
  so_s : 1 <= be_decode (ztake 32 (zdrop 32 sig)) <= secp256k1_halfN;
  so_recover : Ecrecover hash sig = Ok (pubkey_of D)
}.

Lemma Sign_ok hash D : len hash = 32 -> 1 <= D < secp256k1_N -> exists sig, Sign hash D = Ok sig /\ signature_of hash D sig.
Proof.
  intros Lh HD. pose proof (seckey_ok D HD) as K. destruct (proj1 (seckey_verify_law _) K) as (Ok_ & Lk & _).
  destruct (sign_law hash _ Lh K) as (sig & recid & E & O & L & R & Hr & Hs & Rec).
  unfold Sign, secp_Sign. rewrite Lh, Lk, K, E. cbn [Z.eqb negb].
  assert (Er : u8 recid = recid) by (by destruct R as [-> | ->]). rewrite Er. exists (sig ++ [recid]). split; [done|].
  assert (Ln : length sig = 64%nat) by (unfold len in L; lia).
  assert (En : nth 64 (sig ++ [recid]) 0 = recid) by (by rewrite app_nth2, Ln by lia).
  assert (Lx : len (sig ++ [recid]) = 65) by (rewrite len_app, L; done).
  split; try done.
  - apply bytes_ok_app. split; [done|]. constructor; [|constructor]. destruct R as [-> | ->]; unfold byte_ok; lia.
  - by rewrite En.
  - replace (ztake 32 (sig ++ [recid])) with (ztake 32 sig); [done|]. unfold ztake. symmetry. apply take_app_le. lia.
  - replace (ztake 32 (zdrop 32 (sig ++ [recid]))) with (zdrop 32 sig); [done|]. unfold ztake, zdrop.
    rewrite drop_app_le by lia. symmetry. apply take_app_length'. rewrite length_drop. lia.
  - unfold Ecrecover, RecoverPubkey, checkSignature. rewrite Lh, Lx, En. cbn [Z.eqb negb].
    destruct R as [-> | ->]; cbn [Z.leb Z.compare Pos.compare Pos.compare_cont]; by rewrite Rec.
Qed.

Lemma ValidateSignatureValues_signed hash D sig homestead :
  signature_of hash D sig ->
  ValidateSignatureValues (nth 64 sig 0) (be_decode (ztake 32 sig)) (be_decode (ztake 32 (zdrop 32 sig))) homestead = true.
Proof.
  intros []. assert (secp256k1_halfN < secp256k1_N) by (by vm_compute). unfold ValidateSignatureValues. zdecide. cbn [orb].
  rewrite andb_false_r. by destruct so_v0 as [-> | ->].
Qed.

Lemma pubkey_address_ok D : 1 <= D < secp256k1_N -> is_address (pubkey_address (pubkey_of D)).
Proof.
  intros _. unfold pubkey_address. destruct (keccak256_hash (zdrop 1 (pubkey_of D))) as [L O]. unfold HashLength in L. split.
  - rewrite len_zdrop by lia. unfold AddressLength. lia.
  - by apply bytes_ok_zdrop.
Qed.

End Sig.

(** ** An instance *)

(** A scheme that signs with [r] the key and [s] one: it shows that the interface can be met. *)
Definition toy_verify (key : bytes) : bool :=
  bool_decide (bytes_ok key) && (len key =? 32) && (1 <=? be_decode key) && (be_decode key <? secp256k1_N).

Definition toy_pub (key : bytes) : bytes := 4 :: key ++ repeat 0 32.

Lemma toy_verify_law key : toy_verify key = true <-> bytes_ok key /\ len key = 32 /\ 1 <= be_decode key < secp256k1_N.
Proof.
  unfold toy_verify. rewrite !andb_true_iff, bool_decide_eq_true, Z.eqb_eq, Z.leb_le, Z.ltb_lt. tauto.
Qed.

#[refine] Definition toy_secp : Secp256k1 := {|
  seckey_verify := toy_verify;
  ecdsa_sign_recoverable msg key := Some (key ++ be_fixed 32 1, 0);
  ecdsa_recover_pubkey sig msg := Some (toy_pub (ztake 32 sig));
  pubkey_create := toy_pub;
  seckey_verify_law := toy_verify_law
|}.
Proof.
  - intros msg key _ K. apply toy_verify_law in K as (O & L & D). exists (key ++ be_fixed 32 1), 0.
    assert (E : ztake 32 (key ++ be_fixed 32 1) = key) by (rewrite <- L; apply ztake_app_len).
    assert (E2 : zdrop 32 (key ++ be_fixed 32 1) = be_fixed 32 1) by (rewrite <- L; apply zdrop_app_len).
    split; [done|]. split; [apply bytes_ok_app; split; [done|apply be_fixed_ok]|].
    split; [rewrite len_app, L, len_be_fixed; done|]. split; [by left|]. rewrite E, E2. split; [done|].
    split; [by vm_compute|]. rewrite <- app_assoc, <- L, ztake_app_len. done.
  - intros key K. apply toy_verify_law in K as (O & L & D). exists (key ++ repeat 0 32). split; [done|]. split.
    + rewrite len_app, L. done.
    + apply bytes_ok_app. split; [done|]. apply Forall_forall. intros x Hx. apply repeat_spec in Hx as ->. unfold byte_ok. lia.
Defined.
