(* ===== verification/Transaction.v ===== *)
(** * Package [core/types]: transactions and their signatures

    [transaction.go] (the data of a transaction, its RLP form, hash, size and caches,
    [Validate], messages) and [transaction_signing.go] (the Frontier, Homestead and EIP-155
    signers, [SignTx], [Sender]). *)

From S2P Require Import Prelude Rlp RlpStream Common Codec Trie TrieMap Signature ChainConfig.

(** ** Big integers *)

(** [x.Uint64()] and [x.Int64()] of a [big.Int]: the low bits of the absolute value. *)
Definition big_Uint64 (x : Z) : Z := u64 (Z.abs x).
Definition big_Int64 (x : Z) : Z := i64 (if x <? 0 then - u64 (Z.abs x) else u64 (Z.abs x)).

(** ** Data *)

Definition Binary : Z := 0.
Definition LoginCandidate : Z := 1.
Definition LogoutCandidate : Z := 2.
Definition ConfirmationData : Z := 3.
Definition AuthorizationData : Z := 4.
Definition TransferData : Z := 5.

Record txdata := mkTxdata {
  td_Type : Z;
  td_AccountNonce : Z;
  td_Price : Z;
  td_GasLimit : Z;
  td_Recipient : option bytes;
  td_Amount : Z;
  td_Payload : bytes;
  td_V : Z;
  td_R : Z;
  td_S : Z
}.

Inductive Signer := EIP155Signer (chainId chainIdMul : Z) | HomesteadSigner | FrontierSigner.

(** A transaction with its caches. *)
Record Transaction := mkTransaction {
  tx_data : txdata;
  tx_hash : option bytes;
  tx_size : option Z;
  tx_from : option (Signer * bytes)
}.

Record Message := mkMessage {
  msg_to : option bytes;
  msg_from : bytes;
  msg_nonce : Z;
  msg_amount : Z;
  msg_price : Z;
  msg_gasLimit : Z;
  msg_data : bytes;
  msg_checkNonce : bool;
  msg_type : Z
}.

Inductive tx_error :=
  | ErrInvalidSig | ErrInvalidChainId | ErrInvalidPubkey | ErrSignature (e : sig_error)
  | ErrValueNotZero | ErrRecipientRequired | ErrPayloadNotEmpty.

(** ** RLP *)

Definition txdata_type : rtype :=
  TStruct [TUint 8; TUint 64; TBig; TBig; TPtr true (TByteArray 20); TBig; TBytes; TBig; TBig; TBig].

Definition txdata_val (d : txdata) : rval :=
  VStruct [VUint (td_Type d); VUint (td_AccountNonce d); VBig (Some (td_Price d)); VBig (Some (td_GasLimit d));
           VPtr (VBytes <$> td_Recipient d); VBig (Some (td_Amount d)); VBytes (td_Payload d);
           VBig (Some (td_V d)); VBig (Some (td_R d)); VBig (Some (td_S d))].

Definition val_txdata (v : rval) : option txdata :=
  match v with
  | VStruct [VUint ty; VUint nonce; VBig price; VBig gas; VPtr to; VBig amount; VBytes payload; VBig v; VBig r; VBig s] =>
    Some (mkTxdata ty nonce (default 0 price) (default 0 gas)
            (match to with Some (VBytes a) => Some a | _ => None end) (default 0 amount) payload
            (default 0 v) (default 0 r) (default 0 s))
  | _ => None
  end.

Section Tx.
Context {HS : Hasher} {EC : Secp256k1}.

(** The error of the encoder is dropped, and nothing was written in that case. *)
Definition rlpHash (t : rtype) (v : rval) : bytes := keccak256 (match Encode t v with Ok b => b | _ => [] end).

Definition EncodeRLP (tx : Transaction) : outcome rlp_error bytes := Encode txdata_type (txdata_val (tx_data tx)).

(** [DecodeRLP] from a whole input, with the size of the list stored. *)
Definition DecodeRLP (b : bytes) : outcome rlp_error Transaction :=
  v ← DecodeBytes txdata_type b;
  match val_txdata v with
  | Some d => Ok (mkTransaction d None (Some (len b)) None)
  | None => Panic
  end.

(** ** Creation *)

Definition newTransaction (txType nonce : Z) (to : option bytes) (amount gasLimit gasPrice : option Z) (data : bytes) : Transaction :=
  mkTransaction (mkTxdata txType nonce (default 0 gasPrice) (default 0 gasLimit) to (default 0 amount) data 0 0 0) None None None.

Definition NewTransaction (txType nonce : Z) (to : bytes) (amount gasLimit gasPrice : option Z) (data : bytes) : Transaction :=
  if negb (txType =? Binary) && bool_decide (to = zeros AddressLength) then
    newTransaction txType nonce None amount gasLimit gasPrice data
  else newTransaction txType nonce (Some to) amount gasLimit gasPrice data.

Definition NewContractCreation (nonce : Z) (amount gasLimit gasPrice : option Z) (data : bytes) : Transaction :=
  newTransaction Binary nonce None amount gasLimit gasPrice data.

Definition NewMessage (from : bytes) (to : option bytes) (nonce amount gasLimit price : Z) (data : bytes) (checkNonce : bool) : Message :=
  mkMessage to from nonce amount price gasLimit data checkNonce 0.

(** ** Queries *)

Definition deriveChainId (v : Z) : Z :=
  if BitLen v <=? 64 then
    let v := big_Uint64 v in
    if (v =? 27) || (v =? 28) then 0 else u64 (v - 35) / 2
  else (v - 35) / 2.

Definition isProtectedV (v : Z) : bool :=
  if BitLen v <=? 8 then let v := big_Uint64 v in negb (v =? 27) && negb (v =? 28)
  else true.

Definition Protected (tx : Transaction) : bool := isProtectedV (td_V (tx_data tx)).
Definition tx_ChainId (tx : Transaction) : Z := deriveChainId (td_V (tx_data tx)).

Definition Validate (tx : Transaction) : option tx_error :=
  let d := tx_data tx in
  if negb (td_Type d =? Binary) then
    if negb (td_Type d =? TransferData) && negb (big_Uint64 (td_Amount d) =? 0) then Some ErrValueNotZero
    else if bool_decide (td_Recipient d = None) && negb (td_Type d =? LoginCandidate) && negb (td_Type d =? LogoutCandidate) &&
            negb (td_Type d =? ConfirmationData) && negb (td_Type d =? ConfirmationData) then Some ErrRecipientRequired
    else if ((td_Type d =? LoginCandidate) || (td_Type d =? LogoutCandidate)) && (0 <? len (td_Payload d)) then Some ErrPayloadNotEmpty
    else None
  else None.

Definition Cost (tx : Transaction) : Z := td_Price (tx_data tx) * td_GasLimit (tx_data tx) + td_Amount (tx_data tx).

(** The hash and the size are computed once. *)
Definition Hash (tx : Transaction) : bytes * Transaction :=
  match tx_hash tx with
  | Some h => (h, tx)
  | None =>
    let h := rlpHash txdata_type (txdata_val (tx_data tx)) in
    (h, mkTransaction (tx_data tx) (Some h) (tx_size tx) (tx_from tx))
  end.

Definition Size (tx : Transaction) : Z * Transaction :=
  match tx_size tx with
  | Some n => (n, tx)
  | None =>
    let n := match EncodeRLP tx with Ok b => len b | _ => 0 end in
    (n, mkTransaction (tx_data tx) (tx_hash tx) (Some n) (tx_from tx))
  end.

(** [TxDifference] on the hashes. *)
Definition TxDifference (a b : list Transaction) : list Transaction :=
  let remove : gset bytes := list_to_set (map (fun tx => fst (Hash tx)) b) in
  filter (fun tx => fst (Hash tx) ∉ remove) a.

(** ** Signers *)

Definition NewEIP155Signer (chainId : option Z) : Signer := EIP155Signer (default 0 chainId) (default 0 chainId * 2).

Definition MakeSigner (config : ChainConfig) (blockNumber : option Z) : Signer :=
  if IsEIP155 config blockNumber then NewEIP155Signer (ChainId config)
  else if IsHomestead config blockNumber then HomesteadSigner
  else FrontierSigner.

Definition deriveSigner (v : Z) : Signer :=
  if negb (v =? 0) && isProtectedV v then NewEIP155Signer (Some (deriveChainId v)) else HomesteadSigner.

Definition Signer_Equal (s s2 : Signer) : bool :=
  match s, s2 with
  | EIP155Signer c _, EIP155Signer c2 _ => c2 =? c
  | HomesteadSigner, HomesteadSigner => true
  | FrontierSigner, FrontierSigner => true
  | _, _ => false
  end.

Definition iface (t : rtype) (v : rval) : rval := VIface (Some (t, v)).

(** The fields that are signed. *)
Definition sig_fields (d : txdata) : list rval :=
  [iface (TUint 64) (VUint (td_AccountNonce d)); iface TBig (VBig (Some (td_Price d)));
   iface TBig (VBig (Some (td_GasLimit d))); iface (TPtr false (TByteArray 20)) (VPtr (VBytes <$> td_Recipient d));
   iface TBig (VBig (Some (td_Amount d))); iface TBytes (VBytes (td_Payload d))].

Definition Signer_Hash (s : Signer) (tx : Transaction) : bytes :=
  match s with
  | EIP155Signer c _ =>
    rlpHash (TSlice TIface) (VList (sig_fields (tx_data tx) ++
      [iface TBig (VBig (Some c)); iface (TUint 64) (VUint 0); iface (TUint 64) (VUint 0)]))
  | _ => rlpHash (TSlice TIface) (VList (sig_fields (tx_data tx)))
  end.

(** [R, S, V] of a signature; a signature of another length is a panic. *)
Definition frontier_SignatureValues (sig : bytes) : outcome tx_error (Z * Z * Z) :=
  if negb (len sig =? 65) then Panic
  else Ok (be_decode (ztake 32 sig), be_decode (ztake 32 (zdrop 32 sig)), u8 (nth 64 sig 0 + 27)).

Definition SignatureValues (s : Signer) (sig : bytes) : outcome tx_error (Z * Z * Z) :=
  match s with
  | EIP155Signer c cm =>
    '(r, s, v) ← frontier_SignatureValues sig;
    Ok (r, s, if negb (c =? 0) then u8 (nth 64 sig 0 + 35) + cm else v)
  | _ => frontier_SignatureValues sig
  end.

Definition recoverPlain (sighash : bytes) (R S Vb : Z) (homestead : bool) : outcome tx_error bytes :=
  if 8 <? BitLen Vb then Err ErrInvalidSig
  else
    let V := u8 (u64 (big_Uint64 Vb - 27)) in
    if negb (ValidateSignatureValues V R S homestead) then Err ErrInvalidSig
    else
      let r := be_min (Z.abs R) in
      let s := be_min (Z.abs S) in
      if (32 <? len r) || (32 <? len s) then Panic
      else
        let sig := LeftPadBytes r 32 ++ LeftPadBytes s 32 ++ [V] in
        pub ← map_err ErrSignature (Ecrecover sighash sig);
        match pub with
        | 4 :: _ => Ok (pubkey_address pub)
        | _ => Err ErrInvalidPubkey
        end.

Definition Signer_Sender (s : Signer) (tx : Transaction) : outcome tx_error bytes :=
  let d := tx_data tx in
  match s with
  | EIP155Signer c cm =>
    if negb (Protected tx) then recoverPlain (Signer_Hash HomesteadSigner tx) (td_R d) (td_S d) (td_V d) true
    else if negb (tx_ChainId tx =? c) then Err ErrInvalidChainId
    else recoverPlain (Signer_Hash s tx) (td_R d) (td_S d) (td_V d - cm - 8) true
  | HomesteadSigner => recoverPlain (Signer_Hash s tx) (td_R d) (td_S d) (td_V d) true
  | FrontierSigner => recoverPlain (Signer_Hash s tx) (td_R d) (td_S d) (td_V d) false
  end.

(** The sender, from the cache when it was derived with the same signer. *)
Definition Sender (s : Signer) (tx : Transaction) : outcome tx_error (bytes * Transaction) :=
  match tx_from tx with
  | Some (s', from) =>
    if Signer_Equal s' s then Ok (from, tx)
    else
      addr ← Signer_Sender s tx;
      Ok (addr, mkTransaction (tx_data tx) (tx_hash tx) (tx_size tx) (Some (s, addr)))
  | None =>
    addr ← Signer_Sender s tx;
    Ok (addr, mkTransaction (tx_data tx) (tx_hash tx) (tx_size tx) (Some (s, addr)))
  end.

Definition WithSignature (s : Signer) (sig : bytes) (tx : Transaction) : outcome tx_error Transaction :=
  '(r, s, v) ← SignatureValues s sig;
  let d := tx_data tx in
  Ok (mkTransaction (mkTxdata (td_Type d) (td_AccountNonce d) (td_Price d) (td_GasLimit d) (td_Recipient d) (td_Amount d)
                       (td_Payload d) v r s) None None None).

Definition SignTx (tx : Transaction) (s : Signer) (prv : Z) : outcome tx_error Transaction :=
  sig ← map_err ErrSignature (Sign (Signer_Hash s tx) prv);
  WithSignature s sig tx.

Definition AsMessage (s : Signer) (tx : Transaction) : outcome tx_error (Message * Transaction) :=
  let d := tx_data tx in
  '(from, tx) ← Sender s tx;
  Ok (mkMessage (td_Recipient d) from (td_AccountNonce d) (td_Amount d) (td_Price d) (td_GasLimit d) (td_Payload d) true (td_Type d), tx).

(** ** Lemmas: signatures *)

Lemma LeftPad_fixed x : 0 <= x < 2 ^ 256 -> LeftPadBytes (be_min x) 32 = be_fixed 32 x.
Proof.
  intros H. pose proof (len_be_min_big x H) as L. pose proof (len_nonneg (be_min x)).
  assert (E : exists n, 0 <= n /\ LeftPadBytes (be_min x) 32 = zeros n ++ be_min x /\ n + len (be_min x) = 32).
  { unfold LeftPadBytes. destruct (32 <=? len (be_min x)) eqn:E; zbool; [exists 0|exists (32 - len (be_min x))];
      (split; [lia|]); (split; [done|]); lia. }
  destruct E as (n & Hn & -> & Ln). rewrite <- (be_fixed_decode (zeros n ++ be_min x)).
  - rewrite be_decode_zeros, be_decode_min by lia. f_equal.
    apply Nat2Z.inj. change (Z.of_nat (length (zeros n ++ be_min x))) with (len (zeros n ++ be_min x)).
    rewrite len_app, len_zeros by done. lia.
  - apply bytes_ok_app. split; [apply bytes_ok_zeros|apply be_min_ok].
Qed.

Lemma sig_pieces sig : len sig = 65 -> sig = ztake 32 sig ++ ztake 32 (zdrop 32 sig) ++ [nth 64 sig 0].
Proof.
  intros L. unfold len in L. assert (Ln : length sig = 65%nat) by lia. unfold ztake, zdrop. cbn [Z.to_nat Pos.to_nat].
  change (Pos.to_nat 32) with 32%nat.
  rewrite <- (take_drop 32 sig) at 1. f_equal. rewrite <- (take_drop 32 (drop 32 sig)) at 1. f_equal.
  rewrite drop_drop. change (32 + 32)%nat with 64%nat.
  do 65 (destruct sig as [|? sig]; [discriminate Ln|]). by destruct sig.
Qed.

Lemma recoverPlain_signed hash D sig homestead :
  1 <= D < secp256k1_N -> signature_of hash D sig ->
  recoverPlain hash (be_decode (ztake 32 sig)) (be_decode (ztake 32 (zdrop 32 sig))) (nth 64 sig 0 + 27) homestead
    = Ok (pubkey_address (pubkey_of D)).
Proof.
  intros HD S. pose proof (ValidateSignatureValues_signed hash D sig homestead S) as Va. destruct S. unfold recoverPlain.
  assert (HN : secp256k1_N < 2 ^ 256) by (by vm_compute). assert (HH : secp256k1_halfN < 2 ^ 256) by (by vm_compute).
  set (v := nth 64 sig 0) in *. set (r := be_decode (ztake 32 sig)) in *. set (s := be_decode (ztake 32 (zdrop 32 sig))) in *.
  assert (B : (8 <? BitLen (v + 27)) = false) by (by destruct so_v as [-> | ->]). rewrite B.
  assert (Ev : u8 (u64 (big_Uint64 (v + 27) - 27)) = v) by (by destruct so_v as [-> | ->]). rewrite Ev, Va. cbn [negb].
  rewrite !Z.abs_eq by lia. pose proof (len_be_min_big r ltac:(lia)). pose proof (len_be_min_big s ltac:(lia)). zdecide. cbn [orb].
  rewrite !LeftPad_fixed by lia.
  assert (Lr : length (ztake 32 sig) = 32%nat) by (pose proof (len_ztake 32 sig ltac:(lia)) as E; unfold len in E; lia).
  assert (Ls : length (ztake 32 (zdrop 32 sig)) = 32%nat).
  { pose proof (len_ztake 32 (zdrop 32 sig)) as E. rewrite len_zdrop in E by lia. specialize (E ltac:(lia)). unfold len in E. lia. }
  assert (Er : be_fixed 32 r = ztake 32 sig).
  { unfold r. rewrite <- Lr at 1. apply be_fixed_decode. by apply bytes_ok_ztake. }
  assert (Es : be_fixed 32 s = ztake 32 (zdrop 32 sig)).
  { unfold s. rewrite <- Ls at 1. apply be_fixed_decode. by apply bytes_ok_ztake, bytes_ok_zdrop. }
  rewrite Er, Es. unfold v. rewrite <- sig_pieces by done. rewrite so_recover. cbn [map_err mbind outcome_bind].
  destruct (pubkey_law _ (seckey_ok D HD)) as (xy & Ep & _). unfold pubkey_of. by rewrite Ep.
Qed.

Lemma len_rlpHash t v : len (rlpHash t v) = 32.
Proof. destruct (keccak256_hash (match Encode t v with Ok b => b | _ => [] end)) as [L _]. exact L. Qed.

Lemma len_Signer_Hash s tx : len (Signer_Hash s tx) = 32.
Proof. destruct s; apply len_rlpHash. Qed.

(** The hash that is signed does not cover the signature. *)
Definition unsigned_eq (d d' : txdata) : Prop :=
  td_AccountNonce d = td_AccountNonce d' /\ td_Price d = td_Price d' /\ td_GasLimit d = td_GasLimit d' /\
  td_Recipient d = td_Recipient d' /\ td_Amount d = td_Amount d' /\ td_Payload d = td_Payload d'.

Lemma Signer_Hash_unsigned s tx tx' : unsigned_eq (tx_data tx) (tx_data tx') -> Signer_Hash s tx = Signer_Hash s tx'.
Proof.
  intros (E1 & E2 & E3 & E4 & E5 & E6). unfold Signer_Hash, sig_fields. by rewrite E1, E2, E3, E4, E5, E6.
Qed.

Lemma BitLen_le x n : 0 <= x -> 0 <= n -> BitLen x <= n -> x < 2 ^ n.
Proof.
  intros Hx Hn. unfold BitLen. destruct (x =? 0) eqn:E; zbool; [intros; subst; by apply Z.pow_pos_nonneg|].
  rewrite Z.abs_eq by lia. intros H. pose proof (Z.log2_spec x ltac:(lia)) as [_ L].
  eapply Z.lt_le_trans; [exact L|]. apply Z.pow_le_mono_r; lia.
Qed.

(** The chain id is read back from [V]. *)
Lemma eip155_V c v : 0 < c -> v = 0 \/ v = 1 -> isProtectedV (v + 35 + c * 2) = true /\ deriveChainId (v + 35 + c * 2) = c.
Proof.
  intros Hc Hv. set (V := v + 35 + c * 2). assert (HV : 37 <= V) by lia.
  assert (Ec : (V - 35) / 2 = c) by (replace (V - 35) with (v + c * 2) by lia; rewrite Z.div_add by lia; by destruct Hv as [-> | ->]).
  split.
  - unfold isProtectedV. destruct (BitLen V <=? 8) eqn:E; [|done]. zbool. pose proof (BitLen_le V 8 ltac:(lia) ltac:(lia) E).
    unfold big_Uint64. rewrite Z.abs_eq, u64_small by (unfold is_u64; lia). zdecide. done.
  - unfold deriveChainId. destruct (BitLen V <=? 64) eqn:E; [|done]. zbool. pose proof (BitLen_le V 64 ltac:(lia) ltac:(lia) E).
    unfold big_Uint64. rewrite Z.abs_eq, u64_small by (unfold is_u64; lia). zdecide. cbn [orb]. rewrite u64_small by (unfold is_u64; lia). done.
Qed.

(** A signer that can be used for signing: an EIP-155 one has a chain id. *)
Definition signer_ok (s : Signer) : Prop := match s with EIP155Signer c cm => 0 < c /\ cm = c * 2 | _ => True end.

Lemma SignTx_Signer_Sender s tx D :
  signer_ok s -> 1 <= D < secp256k1_N ->
  exists tx', SignTx tx s D = Ok tx' /\ Signer_Sender s tx' = Ok (pubkey_address (pubkey_of D)) /\
    unsigned_eq (tx_data tx') (tx_data tx) /\ td_Type (tx_data tx') = td_Type (tx_data tx) /\ tx_from tx' = None.
Proof.
  intros Hs HD. destruct (Sign_ok (Signer_Hash s tx) D (len_Signer_Hash s tx) HD) as (sig & E & S).
  unfold SignTx. rewrite E. cbn [map_err mbind outcome_bind]. unfold WithSignature, SignatureValues, frontier_SignatureValues.
  pose proof S as []. rewrite so_len. cbn [Z.eqb negb Pos.eqb]. set (v := nth 64 sig 0) in *.
  assert (E27 : u8 (v + 27) = v + 27) by (by destruct so_v as [-> | ->]).
  assert (E35 : u8 (v + 35) = v + 35) by (by destruct so_v as [-> | ->]).
  destruct s as [c cm| |]; cbn [mbind outcome_bind].
  - destruct Hs as [Hc ->]. rewrite (proj2 (Z.eqb_neq c 0)) by lia. cbn [negb]. eexists. split; [reflexivity|].
    split; [|repeat split]. unfold Signer_Sender, Protected, tx_ChainId. cbn [tx_data td_V td_R td_S]. rewrite E35.
    destruct (eip155_V c v Hc so_v) as [-> ->]. rewrite Z.eqb_refl. cbn [negb].
    rewrite (Signer_Hash_unsigned _ _ tx) by done. replace (v + 35 + c * 2 - c * 2 - 8) with (v + 27) by lia.
    by apply recoverPlain_signed.
  - eexists. split; [reflexivity|]. split; [|repeat split]. unfold Signer_Sender. cbn [tx_data td_V td_R td_S].
    rewrite E27, (Signer_Hash_unsigned _ _ tx) by done. by apply recoverPlain_signed.
  - eexists. split; [reflexivity|]. split; [|repeat split]. unfold Signer_Sender. cbn [tx_data td_V td_R td_S].
    rewrite E27, (Signer_Hash_unsigned _ _ tx) by done. by apply recoverPlain_signed.
Qed.

(** ** Lemmas: RLP *)

Definition tx_ok (d : txdata) : Prop :=
  0 <= td_Type d < 2 ^ 8 /\ 0 <= td_AccountNonce d < 2 ^ 64 /\ 0 <= td_Price d < 2 ^ 256 /\ 0 <= td_GasLimit d < 2 ^ 256 /\
  (forall a, td_Recipient d = Some a -> is_address a) /\ 0 <= td_Amount d < 2 ^ 256 /\
  bytes_ok (td_Payload d) /\ len (td_Payload d) < 2 ^ 32 /\
  0 <= td_V d < 2 ^ 256 /\ 0 <= td_R d < 2 ^ 256 /\ 0 <= td_S d < 2 ^ 256.

Definition enc_tx (d : txdata) : bytes := enc_value txdata_type (txdata_val d).

Lemma rt_txdata d : tx_ok d -> rt txdata_type (txdata_val d).
Proof.
  intros (Ht & Hn & Hp & Hg & Ha & Hm & Hpl & Hl & Hv & Hr & Hs).
  assert (Hto : rt (TPtr true (TByteArray 20)) (VPtr (VBytes <$> td_Recipient d))).
  { destruct (td_Recipient d) as [a|]; cbn [fmap option_fmap option_map].
    - specialize (Ha a eq_refl). split; [done|]. split; [by apply rt_address|]. destruct Ha as [La _].
      assert (E : enc_value (TByteArray 20) (VBytes a) = enc_string a) by done. rewrite E.
      assert (L : 2 <= len (enc_string a)).
      { destruct (enc_string_cases a) as [(x & -> & _)|[_ ->]]; [by unfold AddressLength in La; cbn in La|].
        pose proof (len_nonneg (enc_head 0x80 0xB7 (len a))). rewrite len_app. unfold AddressLength in La. lia. }
      split; intros Eq; rewrite Eq in L; vm_compute in L; by apply L.
    - split; [done|]. cbn. done. }
  repeat (split; [done|]). split; [split; [done|auto]|]. split; [done|]. split; [split; [done|auto]|].
  do 2 (split; [done|]; split; [cbn; lia|]). split; [done|]. split; [exact Hto|].
  split; [done|]. split; [cbn; lia|]. split; [done|]. split; [done|]. do 3 (split; [done|]; split; [cbn; lia|]). done.
Qed.

Lemma len_enc_tx d : tx_ok d -> len (enc_tx d) < 2 ^ 64.
Proof.
  intros (Ht & Hn & Hp & Hg & Ha & Hm & Hpl & Hl & Hv & Hr & Hs).
  assert (B : forall z, 0 <= z < 2 ^ 256 -> 0 <= len (enc_string (be_min z)) <= 41).
  { intros z Hz. split; [apply len_nonneg|]. apply (len_enc_bytes _ 32); [by apply len_be_min_big|lia]. }
  set (to := enc_value (TPtr true (TByteArray 20)) (VPtr (VBytes <$> td_Recipient d))).
  assert (Bt : 0 <= len to <= 41).
  { split; [apply len_nonneg|]. unfold to. destruct (td_Recipient d) as [a|]; cbn [fmap option_fmap option_map].
    - destruct (Ha a eq_refl) as [La _]. change (len (enc_string a) <= 41). apply (len_enc_bytes a 32); [unfold AddressLength in La; lia|lia].
    - by vm_compute. }
  pose proof (len_enc_string_le (td_Payload d) ltac:(lia)) as Bp.
  assert (E : enc_tx d = enc_list (enc_string (be_min (td_Type d)) ++ enc_string (be_min (td_AccountNonce d)) ++
    enc_string (be_min (td_Price d)) ++ enc_string (be_min (td_GasLimit d)) ++ to ++ enc_string (be_min (td_Amount d)) ++
    enc_string (td_Payload d) ++ enc_string (be_min (td_V d)) ++ enc_string (be_min (td_R d)) ++ enc_string (be_min (td_S d)) ++ [])) by done.
  rewrite E, app_nil_r.
  match goal with |- len (enc_list ?c) < _ => pose proof (len_enc_list_le c) as Bl end. rewrite !len_app in Bl.
  pose proof (B (td_Type d) ltac:(lia)). pose proof (B (td_AccountNonce d) ltac:(lia)). pose proof (B (td_Price d) ltac:(lia)).
  pose proof (B (td_GasLimit d) ltac:(lia)). pose proof (B (td_Amount d) ltac:(lia)). pose proof (B (td_V d) ltac:(lia)).
  pose proof (B (td_R d) ltac:(lia)). pose proof (B (td_S d) ltac:(lia)). lia.
Qed.

Lemma val_txdata_val d : val_txdata (txdata_val d) = Some d.
Proof. unfold val_txdata, txdata_val. by destruct d as [? ? ? ? [a|] ? ? ? ? ?]. Qed.

Lemma EncodeRLP_ok tx : tx_ok (tx_data tx) -> EncodeRLP tx = Ok (enc_tx (tx_data tx)).
Proof. intros H. apply EncodeToBytes_spec; [by apply rt_wt, rt_txdata|by apply len_enc_tx]. Qed.

Lemma DecodeRLP_ok d : tx_ok d -> DecodeRLP (enc_tx d) = Ok (mkTransaction d None (Some (len (enc_tx d))) None).
Proof.
  intros H. unfold DecodeRLP, enc_tx. rewrite DecodeBytes_enc_value; [|by apply rt_txdata|done|by apply len_enc_tx].
  cbn [mbind outcome_bind]. by rewrite val_txdata_val.
Qed.

(** ** Lemmas: caches *)

Definition signer_wf (s : Signer) : Prop := match s with EIP155Signer c cm => cm = c * 2 | _ => True end.

Lemma Signer_Equal_eq s s' : signer_wf s -> signer_wf s' -> Signer_Equal s s' = true -> s = s'.
Proof. destruct s, s'; cbn; try done. intros -> -> E. zbool. by subst. Qed.

(** The caches of a transaction hold what a fresh computation gives. *)
Definition coherent (tx : Transaction) : Prop :=
  (forall h, tx_hash tx = Some h -> h = rlpHash txdata_type (txdata_val (tx_data tx))) /\
  (forall n, tx_size tx = Some n -> EncodeRLP tx = Ok (enc_tx (tx_data tx)) -> n = len (enc_tx (tx_data tx))) /\
  (forall s a, tx_from tx = Some (s, a) -> signer_wf s /\ Signer_Sender s tx = Ok a).

(** The sender depends on the data only. *)
Lemma Signer_Sender_data s tx tx' : tx_data tx = tx_data tx' -> Signer_Sender s tx = Signer_Sender s tx'.
Proof.
  intros E. unfold Signer_Sender, Protected, tx_ChainId.
  by rewrite E, !(fun s => Signer_Hash_unsigned s tx tx' ltac:(by rewrite E)).
Qed.

Lemma Sender_coherent s tx a :
  coherent tx -> signer_wf s -> Signer_Sender s tx = Ok a -> exists tx', Sender s tx = Ok (a, tx') /\ coherent tx' /\ tx_data tx' = tx_data tx.
Proof.
  intros C Hs E. pose proof C as (C1 & C2 & C3). set (new := mkTransaction (tx_data tx) (tx_hash tx) (tx_size tx) (Some (s, a))).
  assert (N : coherent new).
  { split; [done|]. split; [done|]. intros s' a' [= <- <-]. split; [done|]. by rewrite (Signer_Sender_data s new tx). }
  unfold Sender. destruct (tx_from tx) as [[s' a']|] eqn:F.
  - destruct (C3 s' a' eq_refl) as [Ws' E']. destruct (Signer_Equal s' s) eqn:Eq.
    + apply Signer_Equal_eq in Eq as ->; [|done..]. exists tx. rewrite E in E'. injection E' as ->. done.
    + rewrite E. by exists new.
  - rewrite E. by exists new.
Qed.

(** ** Properties *)

(** C34. A transaction signed with a key is attributed to the address of that key, by each of
    the three signers; an EIP-155 signer must have a nonzero chain id.  Signing changes the
    signature only. *)
Theorem SignTx_Sender s tx D :
  signer_ok s -> 1 <= D < secp256k1_N ->
  exists tx' tx'', SignTx tx s D = Ok tx' /\ Sender s tx' = Ok (pubkey_address (pubkey_of D), tx'') /\
    unsigned_eq (tx_data tx') (tx_data tx) /\ td_Type (tx_data tx') = td_Type (tx_data tx) /\
    is_address (pubkey_address (pubkey_of D)).
Proof.
  intros Hs HD. destruct (SignTx_Signer_Sender s tx D Hs HD) as (tx' & E & S & U & Ty & F).
  eexists tx', _. split; [done|]. unfold Sender. rewrite F, S. cbn [mbind outcome_bind].
  split; [reflexivity|]. split; [done|]. split; [done|]. by apply pubkey_address_ok.
Qed.

(** What is signed does not cover the type of a transaction: changing the type of a
    signed transaction leaves its sender unchanged, for every signer, so that a transfer
    can be turned into a registration as candidate or a data record by anyone. *)
Theorem Sender_ignores_type s d ty :
  Signer_Sender s (mkTransaction (mkTxdata ty (td_AccountNonce d) (td_Price d) (td_GasLimit d) (td_Recipient d) (td_Amount d)
      (td_Payload d) (td_V d) (td_R d) (td_S d)) None None None) = Signer_Sender s (mkTransaction d None None None).
Proof. by destruct s, d. Qed.

(** Decoding the RLP form of a transaction gives the transaction back, with the size of
    the encoding; so two transactions with the same RLP form, or with the same hash when the
    hash function does not collide on them, have the same data. *)
Theorem tx_rlp_roundtrip tx tx2 :
  tx_ok (tx_data tx) -> tx_ok (tx_data tx2) -> coherent tx -> coherent tx2 ->
  exists b, EncodeRLP tx = Ok b /\ DecodeRLP b = Ok (mkTransaction (tx_data tx) None (Some (len b)) None) /\
    fst (Size tx) = len b /\ fst (Hash tx) = keccak256 b /\
    (forall b2, EncodeRLP tx2 = Ok b2 -> fst (Hash tx) = fst (Hash tx2) -> (keccak256 b = keccak256 b2 -> b = b2) ->
       tx_data tx = tx_data tx2).
Proof.
  intros O O2 (C1 & C2 & _) (D1 & _). exists (enc_tx (tx_data tx)). pose proof (EncodeRLP_ok tx O) as E. pose proof (EncodeRLP_ok tx2 O2) as E2.
  assert (H1 : fst (Hash tx) = keccak256 (enc_tx (tx_data tx))).
  { unfold Hash. assert (R : rlpHash txdata_type (txdata_val (tx_data tx)) = keccak256 (enc_tx (tx_data tx))).
    { unfold rlpHash. unfold EncodeRLP in E. by rewrite E. }
    destruct (tx_hash tx) as [h|]; cbn; [by rewrite (C1 h eq_refl)|done]. }
  assert (H2 : fst (Hash tx2) = keccak256 (enc_tx (tx_data tx2))).
  { unfold Hash. assert (R : rlpHash txdata_type (txdata_val (tx_data tx2)) = keccak256 (enc_tx (tx_data tx2))).
    { unfold rlpHash. unfold EncodeRLP in E2. by rewrite E2. }
    destruct (tx_hash tx2) as [h|]; cbn; [by rewrite (D1 h eq_refl)|done]. }
  split; [done|]. split; [by apply DecodeRLP_ok|]. split.
  { unfold Size. destruct (tx_size tx) as [n|]; [by apply C2|]. by rewrite E. }
  split; [done|]. intros b2 Eb Eh K. rewrite E2 in Eb. injection Eb as <-. rewrite H1, H2 in Eh. specialize (K Eh).
  pose proof (DecodeRLP_ok _ O) as X. rewrite K, DecodeRLP_ok in X by done. by injection X as <-.
Qed.

(** The caches of a transaction are transparent: on a transaction whose caches are
    coherent, [Hash], [Size] and [Sender] return what a fresh computation returns, whatever
    signer the cached sender was derived with, and leave the caches coherent. *)
Theorem caches_transparent s tx :
  tx_ok (tx_data tx) -> coherent tx -> signer_wf s ->
  (fst (Hash tx) = rlpHash txdata_type (txdata_val (tx_data tx)) /\ coherent (snd (Hash tx))) /\
  (EncodeRLP tx = Ok (enc_tx (tx_data tx)) /\ fst (Size tx) = len (enc_tx (tx_data tx)) /\ coherent (snd (Size tx))) /\
  match Signer_Sender s tx with
  | Ok a => exists tx', Sender s tx = Ok (a, tx') /\ coherent tx' /\ tx_data tx' = tx_data tx
  | Err e => Sender s tx = Err e
  | _ => True
  end.
Proof.
  intros O C Hs. pose proof C as (C1 & C2 & C3). pose proof (EncodeRLP_ok tx O) as E. split; [|split].
  - unfold Hash. destruct (tx_hash tx) as [h|] eqn:F; [split; [by apply C1|done]|]. cbn [fst snd]. split; [done|].
    split; [by intros h [= <-]|]. split; [done|]. done.
  - split; [done|]. unfold Size. destruct (tx_size tx) as [n|] eqn:F; [split; [by apply C2|done]|]. rewrite E. cbn [fst snd].
    split; [done|]. split; [done|]. split; [by intros n [= <-]|done].
  - destruct (Signer_Sender s tx) as [a|e| |] eqn:Es; try done; [by apply Sender_coherent|].
    unfold Sender. destruct (tx_from tx) as [[s' a']|] eqn:F; [|by rewrite Es].
    destruct (Signer_Equal s' s) eqn:Eq; [|by rewrite Es]. destruct (C3 s' a' eq_refl) as [Ws' E'].
    apply Signer_Equal_eq in Eq as ->; [|done..]. by rewrite Es in E'.
Qed.

(** [Validate] tests the low 64 bits of the value only: a candidate registration whose
    value is any multiple of 2^64 is accepted. *)
Theorem Validate_accepts_value k nonce price gas to v r s :
  Validate (mkTransaction (mkTxdata LoginCandidate nonce price gas to (k * 2 ^ 64) [] v r s) None None None) = None.
Proof.
  unfold Validate. cbn [tx_data td_Type td_Amount td_Recipient td_Payload]. unfold big_Uint64, u64.
  rewrite Z.abs_mul. change (Z.abs (2 ^ 64)) with (2 ^ 64). rewrite Z.mod_mul by lia. by case_bool_decide.
Qed.

End Tx.

(** ** Witnesses *)

Definition sample_tx : Transaction :=
  newTransaction Binary 7 (Some (repeat 9 20)) (Some 100) (Some 21000) (Some 3) [1; 2].

Lemma sample_tx_ok : tx_ok (tx_data sample_tx).
Proof.
  do 4 (split; [by vm_compute|]). split; [intros a [= <-]; split; [done|]; repeat constructor; unfold byte_ok; lia|].
  split; [by vm_compute|]. split; [repeat constructor; unfold byte_ok; lia|]. by vm_compute.
Qed.

Lemma sample_tx_coherent : @coherent sample_hasher toy_secp sample_tx.
Proof. done. Qed.

Lemma SignTx_Sender_witness :
  exists tx' tx'', @SignTx sample_hasher toy_secp sample_tx (NewEIP155Signer (Some 5)) 11 = Ok tx' /\
    @Sender sample_hasher toy_secp (NewEIP155Signer (Some 5)) tx' = Ok (@pubkey_address sample_hasher (@pubkey_of toy_secp 11), tx'').
Proof.
  destruct (@SignTx_Sender sample_hasher toy_secp (NewEIP155Signer (Some 5)) sample_tx 11) as (tx' & tx'' & E & S & _).
  - by vm_compute.
  - split; [lia|by vm_compute].
  - by exists tx', tx''.
Defined.

Lemma tx_rlp_roundtrip_witness :
  exists b, EncodeRLP sample_tx = Ok b /\ DecodeRLP b = Ok (mkTransaction (tx_data sample_tx) None (Some (len b)) None).
Proof.
  destruct (@tx_rlp_roundtrip sample_hasher toy_secp sample_tx sample_tx sample_tx_ok sample_tx_ok sample_tx_coherent sample_tx_coherent)
    as (b & E & D & _).
  by exists b.
Defined.

Lemma caches_transparent_witness :
  @coherent sample_hasher toy_secp (snd (@Hash sample_hasher sample_tx)) /\ fst (Size sample_tx) = len (enc_tx (tx_data sample_tx)).
Proof.
  pose proof (@caches_transparent sample_hasher toy_secp HomesteadSigner sample_tx sample_tx_ok sample_tx_coherent I) as H.
  split; [exact (proj2 (proj1 H))|exact (proj1 (proj2 (proj1 (proj2 H))))].
Defined.
