(* ===== verification/Block.v ===== *)
(** * Package [core/types]: headers, blocks, receipts and bloom filters

    [block.go], [derive_sha.go], [receipt.go], [log.go] and [bloom9.go]: the data of a
    block, the RLP forms, the hashes that a header commits to, and the log filter. *)

From S2P Require Import Prelude Rlp RlpStream TrieEncoding Common Codec Trie TrieModel TrieRefine TrieHash TrieMap PocContext StateDB Signature Transaction.

(** ** Headers *)

Record Header := mkHeader {
  hd_ParentHash : bytes;
  hd_UncleHash : bytes;
  hd_Validator : bytes;
  hd_Coinbase : bytes;
  hd_Root : bytes;
  hd_RecordRoot : bytes;
  hd_TxHash : bytes;
  hd_ReceiptHash : bytes;
  hd_PocContext : option PocContextProto;
  hd_Bloom : bytes;
  hd_Difficulty : option Z;
  hd_Number : option Z;
  hd_GasLimit : option Z;
  hd_GasUsed : option Z;
  hd_Time : option Z;
  hd_Extra : bytes;
  hd_MixDigest : bytes;
  hd_Nonce : bytes
}.

Definition EncodeNonce (i : Z) : bytes := be_fixed 8 i.
Definition BlockNonce_Uint64 (n : bytes) : Z := be_decode n.

Definition Proto_type : rtype := TStruct [Hash_type; Hash_type; Hash_type; Hash_type; Hash_type].
Definition proto_val (p : PocContextProto) : rval :=
  VStruct [VBytes (EpochHash p); VBytes (ContributionHash p); VBytes (CandidateHash p); VBytes (LatestTxHash p); VBytes (MintCntHash p)].
Definition val_proto (v : rval) : option PocContextProto :=
  match v with
  | VStruct [VBytes e; VBytes c; VBytes d; VBytes l; VBytes m] => Some (mkPocContextProto e c d l m)
  | _ => None
  end.

Definition BloomByteLength : Z := 256.
Definition BloomBitLength : Z := 8 * BloomByteLength.
Definition Bloom_type : rtype := TByteArray 256.

Definition Header_type : rtype :=
  TStruct [Hash_type; Hash_type; Address_type; Address_type; Hash_type; Hash_type; Hash_type; Hash_type;
           TPtr false Proto_type; Bloom_type; TBig; TBig; TBig; TBig; TBig; TBytes; Hash_type; TByteArray 8].

Definition header_val (h : Header) : rval :=
  VStruct [VBytes (hd_ParentHash h); VBytes (hd_UncleHash h); VBytes (hd_Validator h); VBytes (hd_Coinbase h);
           VBytes (hd_Root h); VBytes (hd_RecordRoot h); VBytes (hd_TxHash h); VBytes (hd_ReceiptHash h);
           VPtr (proto_val <$> hd_PocContext h); VBytes (hd_Bloom h); VBig (hd_Difficulty h); VBig (hd_Number h);
           VBig (hd_GasLimit h); VBig (hd_GasUsed h); VBig (hd_Time h); VBytes (hd_Extra h); VBytes (hd_MixDigest h);
           VBytes (hd_Nonce h)].

Definition val_header (v : rval) : option Header :=
  match v with
  | VStruct [VBytes parent; VBytes uncle; VBytes validator; VBytes coinbase; VBytes root; VBytes record; VBytes tx; VBytes receipt;
             VPtr poc; VBytes bloom; VBig difficulty; VBig number; VBig gasLimit; VBig gasUsed; VBig time; VBytes extra; VBytes mix;
             VBytes nonce] =>
    Some (mkHeader parent uncle validator coinbase root record tx receipt (poc ≫= val_proto) bloom difficulty number gasLimit
            gasUsed time extra mix nonce)
  | _ => None
  end.

(** ** Bodies, blocks *)

Record Body := mkBody { bd_Transactions : list Transaction; bd_Uncles : list Header }.

(** A block with its caches; the total difficulty and the relay fields are left out. *)
Record Block := mkBlock {
  b_header : Header;
  b_uncles : list Header;
  b_transactions : list Transaction;
  b_hash : option bytes;
  b_size : option Z;
  b_PocContext : option PocContext
}.

(** ** Receipts *)

Record Receipt := mkReceipt {
  rc_PostState : bytes;
  rc_PostStateRecord : bytes;
  rc_Status : Z;
  rc_Bloom : bytes;
  rc_Logs : list Log;
  rc_TxHash : bytes;
  rc_ContractAddress : bytes;
  rc_GasUsed : option Z
}.

Definition receiptStatusFailedRLP : bytes := [].
Definition receiptStatusSuccessfulRLP : bytes := [1].
Definition ReceiptStatusFailed : Z := 0.
Definition ReceiptStatusSuccessful : Z := 1.

Definition NewReceipt (root rootRecord : bytes) (failed : bool) : Receipt :=
  mkReceipt root rootRecord (if failed then ReceiptStatusFailed else ReceiptStatusSuccessful) (zeros BloomByteLength) []
    (zeros HashLength) (zeros AddressLength) None.

Definition statusEncoding (r : Receipt) : bytes :=
  match rc_PostState r with
  | [] => if rc_Status r =? ReceiptStatusFailed then receiptStatusFailedRLP else receiptStatusSuccessfulRLP
  | _ => rc_PostState r
  end.

Inductive receipt_error := ReceiptRlp (e : rlp_error) | InvalidStatus (b : bytes).

Definition setStatus (b : bytes) (r : Receipt) : outcome receipt_error Receipt :=
  if bool_decide (b = receiptStatusSuccessfulRLP) then
    Ok (mkReceipt (rc_PostState r) (rc_PostStateRecord r) ReceiptStatusSuccessful (rc_Bloom r) (rc_Logs r) (rc_TxHash r) (rc_ContractAddress r) (rc_GasUsed r))
  else if bool_decide (b = receiptStatusFailedRLP) then
    Ok (mkReceipt (rc_PostState r) (rc_PostStateRecord r) ReceiptStatusFailed (rc_Bloom r) (rc_Logs r) (rc_TxHash r) (rc_ContractAddress r) (rc_GasUsed r))
  else if len b =? HashLength then
    Ok (mkReceipt b (rc_PostStateRecord r) (rc_Status r) (rc_Bloom r) (rc_Logs r) (rc_TxHash r) (rc_ContractAddress r) (rc_GasUsed r))
  else Err (InvalidStatus b).

(** The consensus and the storage forms of logs and receipts. *)
Definition rlpLog_type : rtype := TStruct [Address_type; TSlice Hash_type; TBytes].
Definition rlpLog_val (l : Log) : rval := VStruct [VBytes (log_Address l); VList (map VBytes (log_Topics l)); VBytes (log_Data l)].
Definition val_rlpLog (v : rval) : option Log :=
  match v with
  | VStruct [VBytes a; VList ts; VBytes d] =>
    Some (mkLog a (map val_bytes ts) d 0 (zeros HashLength) 0 (zeros HashLength) 0 false)
  | _ => None
  end.

Definition rlpStorageLog_type : rtype :=
  TStruct [Address_type; TSlice Hash_type; TBytes; TUint 64; Hash_type; TUint 64; Hash_type; TUint 64].
Definition rlpStorageLog_val (l : Log) : rval :=
  VStruct [VBytes (log_Address l); VList (map VBytes (log_Topics l)); VBytes (log_Data l); VUint (log_BlockNumber l);
           VBytes (log_TxHash l); VUint (log_TxIndex l); VBytes (log_BlockHash l); VUint (log_Index l)].
Definition val_rlpStorageLog (v : rval) : option Log :=
  match v with
  | VStruct [VBytes a; VList ts; VBytes d; VUint n; VBytes th; VUint ti; VBytes bh; VUint i] =>
    Some (mkLog a (map val_bytes ts) d n th ti bh i false)
  | _ => None
  end.

Definition receiptRLP_type : rtype := TStruct [TBytes; Bloom_type; TSlice rlpLog_type].
Definition receiptRLP_val (r : Receipt) : rval :=
  VStruct [VBytes (statusEncoding r); VBytes (rc_Bloom r); VList (map rlpLog_val (rc_Logs r))].

Definition receiptStorageRLP_type : rtype :=
  TStruct [TBytes; Bloom_type; Hash_type; Address_type; TSlice rlpStorageLog_type; TBig].
Definition receiptStorageRLP_val (r : Receipt) : rval :=
  VStruct [VBytes (statusEncoding r); VBytes (rc_Bloom r); VBytes (rc_TxHash r); VBytes (rc_ContractAddress r);
           VList (map rlpStorageLog_val (rc_Logs r)); VBig (rc_GasUsed r)].

(** A receipt variable before decoding. *)
Definition zeroReceipt : Receipt :=
  mkReceipt [] [] 0 (zeros BloomByteLength) [] (zeros HashLength) (zeros AddressLength) None.

Definition Receipt_EncodeRLP (r : Receipt) : outcome rlp_error bytes := Encode receiptRLP_type (receiptRLP_val r).

Definition Receipt_DecodeRLP (b : bytes) : outcome receipt_error Receipt :=
  v ← map_err ReceiptRlp (DecodeBytes receiptRLP_type b);
  match v with
  | VStruct [VBytes st; VBytes bloom; VList logs] =>
    r ← setStatus st zeroReceipt;
    Ok (mkReceipt (rc_PostState r) (rc_PostStateRecord r) (rc_Status r) bloom (omap val_rlpLog logs) (rc_TxHash r)
          (rc_ContractAddress r) (rc_GasUsed r))
  | _ => Panic
  end.

Definition ReceiptForStorage_EncodeRLP (r : Receipt) : outcome rlp_error bytes :=
  Encode receiptStorageRLP_type (receiptStorageRLP_val r).

(** The receipt of a decoded [receiptStorageRLP]. *)
Definition val_receiptStorageRLP (v : rval) : outcome receipt_error Receipt :=
  match v with
  | VStruct [VBytes st; VBytes bloom; VBytes th; VBytes ca; VList logs; VBig gas] =>
    r ← setStatus st zeroReceipt;
    Ok (mkReceipt (rc_PostState r) (rc_PostStateRecord r) (rc_Status r) bloom (omap val_rlpStorageLog logs) th ca gas)
  | _ => Panic
  end.

Definition ReceiptForStorage_DecodeRLP (b : bytes) : outcome receipt_error Receipt :=
  v ← map_err ReceiptRlp (DecodeBytes receiptStorageRLP_type b);
  val_receiptStorageRLP v.

Section Blocks.
Context {HS : Hasher}.

(** ** Bloom filters *)

Definition bloom_bit (h : bytes) (i : nat) : Z := Z.land (nth (i + 1) h 0 + Z.shiftl (nth i h 0) 8) 2047.

Definition bloom9 (b : bytes) : Z :=
  let h := keccak256 b in
  fold_left (fun r i => Z.lor r (Z.shiftl 1 (bloom_bit h i))) [0; 2; 4]%nat 0.

(** [SetBytes] panics when there are too many bytes. *)
Definition Bloom_SetBytes (d b : bytes) : outcome unit bytes :=
  if len b <? len d then Panic else Ok (ztake (BloomByteLength - len d) b ++ d).

Definition BytesToBloom (b : bytes) : outcome unit bytes := Bloom_SetBytes b (zeros BloomByteLength).
Definition Bloom_Big (b : bytes) : Z := be_decode b.

Definition Bloom_Add (d : Z) (b : bytes) : outcome unit bytes :=
  let bin := Z.lor (be_decode b) (bloom9 (be_min (Z.abs d))) in
  Bloom_SetBytes (be_min bin) b.

Definition BloomLookup (bin topic : bytes) : bool :=
  let cmp := bloom9 topic in Z.land (Bloom_Big bin) cmp =? cmp.

Definition Bloom_Test (test : Z) (b : bytes) : bool := BloomLookup b (be_min (Z.abs test)).
Definition Bloom_TestBytes (test b : bytes) : bool := Bloom_Test (be_decode test) b.

Definition log_bloom (bin : Z) (l : Log) : Z :=
  fold_left (fun bin t => Z.lor bin (bloom9 t)) (log_Topics l) (Z.lor bin (bloom9 (log_Address l))).
Definition LogsBloom (logs : list Log) : Z := fold_left log_bloom logs 0.
Definition CreateBloom (receipts : list Receipt) : outcome unit bytes :=
  BytesToBloom (be_min (fold_left (fun bin r => Z.lor bin (LogsBloom (rc_Logs r))) receipts 0)).

(** ** Derived hashes *)

(** [DeriveSha] of a list given by its RLP items: a fresh trie without a database. *)
Fixpoint derive_loop (i : Z) (rlps : list bytes) (t : trie) : outcome trie_error trie :=
  match rlps with
  | [] => Ok t
  | r :: rlps => t ← Update ∅ t (match Encode (TUint 64) (VUint i) with Ok b => b | _ => [] end) r; derive_loop (i + 1) rlps t
  end.

Definition DeriveSha (rlps : list bytes) : outcome unit bytes :=
  t ← map_err (fun _ => tt) (derive_loop 0 rlps (Trie Nil (zeros HashLength) [] 0 0));
  '(h, _) ← Trie.Hash t;
  Ok h.

(** [GetRlp] panics when an item cannot be encoded. *)
Fixpoint get_rlps {A} (enc : A -> outcome rlp_error bytes) (l : list A) : outcome unit (list bytes) :=
  match l with
  | [] => Ok []
  | x :: l => match enc x with Ok b => bs ← get_rlps enc l; Ok (b :: bs) | _ => Panic end
  end.

Definition Transactions_GetRlp (tx : Transaction) : outcome rlp_error bytes := EncodeToBytes txdata_type (txdata_val (tx_data tx)).
Definition Receipts_GetRlp (r : Receipt) : outcome rlp_error bytes := EncodeToBytes receiptRLP_type (receiptRLP_val r).

Definition txs_sha (txs : list Transaction) : outcome unit bytes := bs ← get_rlps Transactions_GetRlp txs; DeriveSha bs.
Definition receipts_sha (rs : list Receipt) : outcome unit bytes := bs ← get_rlps Receipts_GetRlp rs; DeriveSha bs.

Definition Header_Hash (h : Header) : bytes := rlpHash Header_type (header_val h).

Definition HashNoNonce (h : Header) : bytes :=
  rlpHash (TSlice TIface) (VList
    [iface Hash_type (VBytes (hd_ParentHash h)); iface Hash_type (VBytes (hd_UncleHash h));
     iface Address_type (VBytes (hd_Validator h)); iface Address_type (VBytes (hd_Coinbase h));
     iface Hash_type (VBytes (hd_Root h)); iface Hash_type (VBytes (hd_RecordRoot h));
     iface Hash_type (VBytes (hd_TxHash h)); iface Hash_type (VBytes (hd_ReceiptHash h));
     iface Bloom_type (VBytes (hd_Bloom h)); iface TBig (VBig (hd_Difficulty h)); iface TBig (VBig (hd_Number h));
     iface TBig (VBig (hd_GasLimit h)); iface TBig (VBig (hd_GasUsed h)); iface TBig (VBig (hd_Time h));
     iface TBytes (VBytes (hd_Extra h))]).

Definition Uncles_type : rtype := TSlice (TPtr false Header_type).
Definition uncles_val (us : list Header) : rval := VList (map (fun h => VPtr (Some (header_val h))) us).
Definition CalcUncleHash (us : list Header) : bytes := rlpHash Uncles_type (uncles_val us).

Definition EmptyUncleHash : bytes := CalcUncleHash [].
Definition EmptyRootHash : outcome unit bytes := DeriveSha [].

(** ** Blocks *)

(** Fresh integers for the nil ones, and an empty proto for a nil one. *)
Definition CopyHeader (h : Header) : Header :=
  mkHeader (hd_ParentHash h) (hd_UncleHash h) (hd_Validator h) (hd_Coinbase h) (hd_Root h) (hd_RecordRoot h) (hd_TxHash h)
    (hd_ReceiptHash h)
    (Some (default (mkPocContextProto (zeros HashLength) (zeros HashLength) (zeros HashLength) (zeros HashLength) (zeros HashLength))
             (hd_PocContext h)))
    (hd_Bloom h) (Some (default 0 (hd_Difficulty h))) (Some (default 0 (hd_Number h))) (Some (default 0 (hd_GasLimit h)))
    (Some (default 0 (hd_GasUsed h))) (Some (default 0 (hd_Time h))) (hd_Extra h) (hd_MixDigest h) (hd_Nonce h).

Definition set_hashes (txh rch bloom uh : bytes) (h : Header) : Header :=
  mkHeader (hd_ParentHash h) uh (hd_Validator h) (hd_Coinbase h) (hd_Root h) (hd_RecordRoot h) txh rch (hd_PocContext h) bloom
    (hd_Difficulty h) (hd_Number h) (hd_GasLimit h) (hd_GasUsed h) (hd_Time h) (hd_Extra h) (hd_MixDigest h) (hd_Nonce h).

Definition NewBlock (header : Header) (txs : list Transaction) (uncles : list Header) (receipts : list Receipt) : outcome unit Block :=
  let h := CopyHeader header in
  txh ← (match txs with [] => EmptyRootHash | _ => txs_sha txs end);
  rch ← (match receipts with [] => EmptyRootHash | _ => receipts_sha receipts end);
  bloom ← (match receipts with [] => Ok (hd_Bloom h) | _ => CreateBloom receipts end);
  let uh := match uncles with [] => EmptyUncleHash | _ => CalcUncleHash uncles end in
  Ok (mkBlock (set_hashes txh rch bloom uh h) (map CopyHeader uncles) txs None None None).

Definition NewBlockWithHeader (header : Header) : Block := mkBlock (CopyHeader header) [] [] None None None.

(** The copy of [WithSeal] is shallow; the block drops its caches. *)
Definition WithSeal (header : Header) (b : Block) : Block :=
  mkBlock header (b_uncles b) (b_transactions b) None None (b_PocContext b).

Definition WithBody (transactions : list Transaction) (uncles : list Header) (b : Block) : Block :=
  mkBlock (CopyHeader (b_header b)) (map CopyHeader uncles) transactions None None None.

Definition Block_Header (b : Block) : Header := CopyHeader (b_header b).
Definition Block_Body (b : Block) : Body := mkBody (b_transactions b) (b_uncles b).

Definition Block_Hash (b : Block) : bytes * Block :=
  match b_hash b with
  | Some h => (h, b)
  | None =>
    let v := Header_Hash (b_header b) in
    (v, mkBlock (b_header b) (b_uncles b) (b_transactions b) (Some v) (b_size b) (b_PocContext b))
  end.

(** The transaction with a hash; the hashes of those before it are cached. *)
Fixpoint Block_Transaction (hash : bytes) (txs : list Transaction) : option Transaction :=
  match txs with
  | [] => None
  | tx :: txs => let '(h, tx) := Transaction.Hash tx in if bool_decide (h = hash) then Some tx else Block_Transaction hash txs
  end.

(** ** RLP *)

Definition extblock_type : rtype :=
  TStruct [TPtr false Header_type; TSlice txdata_type; Uncles_type].
Definition extblock_val (b : Block) : rval :=
  VStruct [VPtr (Some (header_val (b_header b))); VList (map (fun tx => txdata_val (tx_data tx)) (b_transactions b));
           uncles_val (b_uncles b)].

Definition Block_EncodeRLP (b : Block) : outcome rlp_error bytes := Encode extblock_type (extblock_val b).

Definition val_uncle (v : rval) : option Header := match v with VPtr (Some v) => val_header v | _ => None end.

(** A transaction in the list of a block, with the size of its own encoding. *)
Definition val_tx (v : rval) : option Transaction :=
  (fun d => mkTransaction d None (Some (len (match Encode txdata_type v with Ok b => b | _ => [] end))) None) <$> val_txdata v.

Definition Block_DecodeRLP (b : bytes) : outcome rlp_error Block :=
  v ← DecodeBytes extblock_type b;
  match v with
  | VStruct [VPtr (Some h); VList txs; VList us] =>
    match val_header h with
    | Some h => Ok (mkBlock h (omap val_uncle us) (omap val_tx txs) None (Some (len b)) None)
    | None => Panic
    end
  | _ => Panic
  end.

Definition Block_Size (b : Block) : Z * Block :=
  match b_size b with
  | Some n => (n, b)
  | None =>
    let n := len (match Block_EncodeRLP b with Ok e => e | _ => [] end) in
    (n, mkBlock (b_header b) (b_uncles b) (b_transactions b) (b_hash b) (Some n) (b_PocContext b))
  end.

End Blocks.

(** ** Lemmas: round trips *)

Definition proto_ok (p : PocContextProto) : Prop :=
  is_hash (EpochHash p) /\ is_hash (ContributionHash p) /\ is_hash (CandidateHash p) /\ is_hash (LatestTxHash p) /\ is_hash (MintCntHash p).

(** Headers as the decoder makes them: no nil field, arrays of their length. *)
Record header_ok (h : Header) : Prop := mkHeaderOk {
  ho_ParentHash : is_hash (hd_ParentHash h);
  ho_UncleHash : is_hash (hd_UncleHash h);
  ho_Validator : is_address (hd_Validator h);
  ho_Coinbase : is_address (hd_Coinbase h);
  ho_Root : is_hash (hd_Root h);
  ho_RecordRoot : is_hash (hd_RecordRoot h);
  ho_TxHash : is_hash (hd_TxHash h);
  ho_ReceiptHash : is_hash (hd_ReceiptHash h);
  ho_PocContext : exists p, hd_PocContext h = Some p /\ proto_ok p;
  ho_Bloom : bytes_ok (hd_Bloom h) /\ len (hd_Bloom h) = BloomByteLength;
  ho_Difficulty : exists z, hd_Difficulty h = Some z /\ 0 <= z;
  ho_Number : exists z, hd_Number h = Some z /\ 0 <= z;
  ho_GasLimit : exists z, hd_GasLimit h = Some z /\ 0 <= z;
  ho_GasUsed : exists z, hd_GasUsed h = Some z /\ 0 <= z;
  ho_Time : exists z, hd_Time h = Some z /\ 0 <= z;
  ho_Extra : bytes_ok (hd_Extra h);
  ho_MixDigest : is_hash (hd_MixDigest h);
  ho_Nonce : bytes_ok (hd_Nonce h) /\ len (hd_Nonce h) = 8
}.

Lemma rt_byte_array n b : bytes_ok b -> len b = Z.of_nat n -> (1 < n)%nat -> rt (TByteArray n) (VBytes b).
Proof. intros O L N. split; [done|]. unfold len in L. split; [lia|]. intros ->. cbn in L. lia. Qed.

Lemma rt_big o : (exists z, o = Some z /\ 0 <= z) -> rt TBig (VBig o).
Proof. by intros (z & -> & ?). Qed.

Lemma rt_struct_nil : rt (TStruct []) (VStruct []).
Proof. done. Qed.

Lemma rt_struct_cons t ts v vs : is_tail t = false -> rt t v -> rt (TStruct ts) (VStruct vs) -> rt (TStruct (t :: ts)) (VStruct (v :: vs)).
Proof. intros T W Ws. split; [by rewrite T|]. done. Qed.

Create HintDb rt.
#[local] Hint Resolve rt_hash rt_address rt_struct_nil rt_big : rt.

Lemma rt_proto p : proto_ok p -> rt Proto_type (proto_val p).
Proof. intros (? & ? & ? & ? & ?). repeat (apply rt_struct_cons; [done|by apply rt_hash|]). done. Qed.

Lemma rt_header h : header_ok h -> rt Header_type (header_val h).
Proof.
  intros H. unfold Header_type, header_val.
  do 2 (apply rt_struct_cons; [done|apply rt_hash, H|]). do 2 (apply rt_struct_cons; [done|apply rt_address, H|]).
  do 4 (apply rt_struct_cons; [done|apply rt_hash, H|]).
  destruct (ho_PocContext h H) as (p & -> & Hp).
  apply rt_struct_cons; [done|split; [done|by apply rt_proto]|].
  apply rt_struct_cons; [done|by apply rt_byte_array; [apply H|rewrite (proj2 (ho_Bloom h H))|lia]|].
  do 5 (apply rt_struct_cons; [done|apply rt_big, H|]).
  apply rt_struct_cons; [done|apply H|]. apply rt_struct_cons; [done|apply rt_hash, H|].
  apply rt_struct_cons; [done|by apply rt_byte_array; [apply H|rewrite (proj2 (ho_Nonce h H))|lia]|]. done.
Qed.

Lemma val_proto_val p : val_proto (proto_val p) = Some p.
Proof. by destruct p. Qed.

Lemma val_header_val h : val_header (header_val h) = Some h.
Proof. destruct h as [? ? ? ? ? ? ? ? [p|] ? ? ? ? ? ? ? ? ?]; cbn; [by destruct p|done]. Qed.

(** Blocks as the decoder makes them, with an encoding that fits. *)
Definition block_ok (b : Block) : Prop :=
  header_ok (b_header b) /\ Forall header_ok (b_uncles b) /\ Forall (fun tx => tx_ok (tx_data tx)) (b_transactions b) /\
  len (enc_value extblock_type (extblock_val b)) < 2 ^ 64.

Lemma rt_block b : block_ok b -> rt extblock_type (extblock_val b).
Proof.
  intros (Hh & Hu & Ht & _). apply rt_struct_cons; [done|split; [done|by apply rt_header]|].
  apply rt_struct_cons; [done| |].
  { apply rt_slice; [done|]. apply Forall_map. eapply Forall_impl; [|exact Ht]. intros tx. apply rt_txdata. }
  apply rt_struct_cons; [done| |done]. apply rt_slice; [done|]. apply Forall_map. eapply Forall_impl; [|exact Hu].
  intros h Hh'. split; [done|by apply rt_header].
Qed.

Lemma Forall_elem {A} (P : A -> Prop) l x : Forall P l -> x ∈ l -> P x.
Proof. intros F H. apply list_elem_of_In in H. revert x H. by apply List.Forall_forall. Qed.

Lemma omap_map {A B} (f : A -> B) (g : B -> option A) l : (forall x, x ∈ l -> g (f x) = Some x) -> omap g (map f l) = l.
Proof.
  induction l as [|x l IH]; intros H; [done|]. cbn. rewrite (H x) by left. f_equal. apply IH. intros y Hy. apply H. by right.
Qed.

Lemma omap_map_with {A B C} (f : A -> B) (g : B -> option C) (k : A -> C) l :
  (forall x, x ∈ l -> g (f x) = Some (k x)) -> omap g (map f l) = map k l.
Proof.
  induction l as [|x l IH]; intros H; [done|]. cbn. rewrite (H x) by left. f_equal. apply IH. intros y Hy. apply H. by right.
Qed.

(** A transaction as decoded: no hash and sender cached, the size of its encoding. *)
Definition decoded_tx (tx : Transaction) : Transaction := mkTransaction (tx_data tx) None (Some (len (enc_tx (tx_data tx)))) None.

Lemma val_tx_val tx : tx_ok (tx_data tx) -> val_tx (txdata_val (tx_data tx)) = Some (decoded_tx tx).
Proof.
  intros H. unfold val_tx. rewrite val_txdata_val. cbn [fmap option_fmap option_map].
  pose proof (EncodeRLP_ok tx H) as E. unfold EncodeRLP in E. by rewrite E.
Qed.

Lemma Block_DecodeRLP_ok b :
  block_ok b ->
  Block_DecodeRLP (enc_value extblock_type (extblock_val b)) =
    Ok (mkBlock (b_header b) (b_uncles b) (map decoded_tx (b_transactions b)) None
          (Some (len (enc_value extblock_type (extblock_val b)))) None).
Proof.
  intros H. unfold Block_DecodeRLP. rewrite DecodeBytes_enc_value; [|by apply rt_block|done|apply H].
  cbn [mbind outcome_bind]. unfold extblock_val at 1, uncles_val. rewrite val_header_val.
  rewrite (omap_map (fun h => VPtr (Some (header_val h))) val_uncle) by (intros; apply val_header_val).
  rewrite (omap_map_with (fun tx => txdata_val (tx_data tx)) val_tx decoded_tx); [done|].
  intros tx Hin. apply val_tx_val. destruct H as (_ & _ & Ht & _). by apply (Forall_elem _ _ _ Ht).
Qed.

(** ** Lemmas: derived hashes *)

Section Derive.
Context {HS : Hasher}.

Definition index_key (i : Z) : bytes := enc_string (be_min i).

Fixpoint index_map (i : Z) (rlps : list bytes) : gmap bytes bytes :=
  match rlps with [] => ∅ | r :: rlps => <[index_key i := r]> (index_map (i + 1) rlps) end.

Lemma index_key_enc i : 0 <= i < 2 ^ 64 -> Encode (TUint 64) (VUint i) = Ok (index_key i) /\ DecodeBytes (TUint 64) (index_key i) = Ok (VUint i).
Proof.
  intros H. assert (W : rt (TUint 64) (VUint i)) by (split; [done|auto]).
  assert (L : len (index_key i) < 2 ^ 64).
  { unfold index_key. pose proof (len_be_min_le i 8 ltac:(lia) ltac:(apply H)) as B. pose proof (len_enc_bytes (be_min i) 8 B ltac:(lia)). lia. }
  split; [apply EncodeToBytes_spec; [by apply rt_wt|done]|by apply (DecodeBytes_enc_value (TUint 64) (VUint i))].
Qed.

Lemma index_key_inj i j : 0 <= i < 2 ^ 64 -> 0 <= j < 2 ^ 64 -> index_key i = index_key j -> i = j.
Proof.
  intros Hi Hj E. pose proof (proj2 (index_key_enc i Hi)) as D. rewrite E, (proj2 (index_key_enc j Hj)) in D. by injection D.
Qed.

Lemma index_key_ok i : 0 <= i < 2 ^ 64 -> bytes_ok (index_key i) /\ len (index_key i) <= 17.
Proof.
  intros H. pose proof (len_be_min_le i 8 ltac:(lia) ltac:(apply H)) as B.
  split; [apply enc_string_ok; [apply be_min_ok|lia]|by apply (len_enc_bytes _ 8)].
Qed.

Lemma index_map_fresh i j rlps :
  0 <= j < i -> i + len rlps <= 2 ^ 64 -> index_map i rlps !! index_key j = None.
Proof.
  revert i. induction rlps as [|r rlps IH]; intros i Hj L; [done|]. rewrite len_cons in L. pose proof (len_nonneg rlps).
  cbn [index_map]. rewrite lookup_insert_ne; [apply IH; lia|]. intros E. apply index_key_inj in E; lia.
Qed.

Lemma index_map_lookup i rlps (k : nat) :
  0 <= i -> i + len rlps <= 2 ^ 64 -> i + Z.of_nat k < 2 ^ 64 -> index_map i rlps !! index_key (i + Z.of_nat k) = rlps !! k.
Proof.
  revert i k. induction rlps as [|r rlps IH]; intros i k Hi L Hk; [done|]. rewrite len_cons in L. pose proof (len_nonneg rlps).
  cbn [index_map]. destruct k as [|k]; [by rewrite Z.add_0_r, lookup_insert_eq|].
  rewrite lookup_insert_ne by (intros E; apply index_key_inj in E; lia).
  replace (i + Z.of_nat (S k)) with (i + 1 + Z.of_nat k) by lia. cbn. apply IH; lia.
Qed.

Lemma index_map_inj l l' : len l < 2 ^ 64 -> len l' < 2 ^ 64 -> index_map 0 l = index_map 0 l' -> l = l'.
Proof.
  intros L L' E. apply list_eq. intros k. destruct (Z.lt_ge_cases (Z.of_nat k) (2 ^ 64)) as [H|H].
  - rewrite <- (index_map_lookup 0 l k), <- (index_map_lookup 0 l' k), E by lia. done.
  - unfold len in *. rewrite !lookup_ge_None_2 by lia. done.
Qed.

(** Items that a trie stores as they are. *)
Definition item_ok (r : bytes) : Prop := r <> [] /\ bytes_ok r /\ len r < 2 ^ 32.

Lemma index_map_entries i rlps k v :
  0 <= i -> i + len rlps <= 2 ^ 64 -> index_map i rlps !! k = Some v -> (exists j, 0 <= j < 2 ^ 64 /\ k = index_key j) /\ v ∈ rlps.
Proof.
  revert i. induction rlps as [|r rlps IH]; intros i Hi L; [done|]. rewrite len_cons in L. pose proof (len_nonneg rlps).
  cbn [index_map]. rewrite lookup_insert_Some. intros [[<- <-]|[_ H0]].
  - split; [exists i; split; [lia|done]|left].
  - destruct (IH (i + 1) ltac:(lia) ltac:(lia) H0) as [E I]. split; [done|by right].
Qed.

Lemma index_map_small rlps : len rlps < 2 ^ 64 -> Forall item_ok rlps -> small (index_map 0 rlps).
Proof.
  intros L F k v E. destruct (index_map_entries 0 rlps k v ltac:(lia) ltac:(lia) E) as [(j & Hj & ->) Hv].
  destruct (index_key_ok j Hj) as [_ B]. destruct (Forall_elem _ _ _ F Hv) as (_ & Ov & Lv). split; [lia|]. done.
Qed.

Lemma derive_loop_holds rlps : forall i t m,
  0 <= i -> i + len rlps <= 2 ^ 64 -> Forall item_ok rlps -> trie_holds ∅ t m -> t_prefix t = [] ->
  exists t', derive_loop i rlps t = Ok t' /\ trie_holds ∅ t' (index_map i rlps ∪ m).
Proof.
  induction rlps as [|r rlps IH]; intros i t m Hi L F TH P.
  { exists t. split; [done|]. cbn [index_map]. by rewrite (left_id_L ∅ (∪)). }
  rewrite len_cons in L. pose proof (len_nonneg rlps). apply Forall_cons_iff in F as [(Nr & _) F].
  cbn [derive_loop]. rewrite (proj1 (index_key_enc i ltac:(lia))).
  destruct (Update_holds ∅ t [] m (index_key i) r) as (t' & -> & _ & TH' & P'); [done|constructor|apply index_key_ok; lia|done|].
  cbn [mbind outcome_bind]. destruct (IH (i + 1) t' _ ltac:(lia) ltac:(lia) F TH' P') as (t'' & -> & TH'').
  exists t''. split; [done|]. cbn [index_map]. rewrite <- insert_union_l. rewrite insert_union_r; [done|]. apply index_map_fresh; lia.
Qed.

Lemma DeriveSha_root rlps : len rlps < 2 ^ 64 -> Forall item_ok rlps -> DeriveSha rlps = Ok (map_root (index_map 0 rlps)).
Proof.
  intros L F. unfold DeriveSha.
  destruct (derive_loop_holds rlps 0 (Trie Nil (zeros HashLength) [] 0 0) ∅) as (t & -> & TH); [lia|lia|done|apply trie_holds_empty|done|].
  cbn [map_err mbind outcome_bind]. rewrite (right_id_L ∅ (∪)) in TH.
  destruct (Hash_holds ∅ t _ TH) as (t' & -> & _); [by apply index_map_small|]. done.
Qed.

(** The hash function does not collide on the nodes of the two tries, and does not hit the
    two hashes that stand for the empty trie. *)
Definition no_collision (m m' : gmap bytes bytes) : Prop :=
  agrees (fun u => below u (build m) \/ below u (build m')) true ∅ /\
  (m <> ∅ -> map_root m <> emptyRoot /\ EmptyHash (map_root m) = false) /\
  (m' <> ∅ -> map_root m' <> emptyRoot /\ EmptyHash (map_root m') = false).

(** The root hash determines the content. *)
Lemma map_root_inj t t' m m' :
  trie_holds ∅ t m -> trie_holds ∅ t' m' -> small m -> small m' -> no_collision m m' -> map_root m = map_root m' -> m = m'.
Proof.
  intros H H' S S' (A & N & N') E. set (K := fun u => below u (build m) \/ below u (build m')) in *.
  assert (KB : forall u v, K u -> below v u -> K v).
  { intros u v [B|B] Bv; [left|right]; by apply (below_trans v u). }
  destruct (CommitTo_stored K ∅ t m KB ltac:(left; constructor) A H S) as (t1 & db1 & _ & Sb & A1 & _ & _ & St).
  pose proof (trie_holds_mono ∅ db1 t' m' Sb H') as H1.
  destruct (CommitTo_stored K db1 t' m' KB ltac:(right; constructor) A1 H1 S') as (t2 & db2 & _ & Sb2 & _ & _ & _ & St').
  destruct (New_holds db2 (build m) m) as (u & E1 & U1); [by eapply trie_holds_valid|done| |done|].
  { intros I. eapply stored_at_mono; [exact Sb2|by apply St]. }
  destruct (New_holds db2 (build m') m') as (u' & E2 & U2); [by eapply trie_holds_valid|done|done|done|].
  rewrite E, E2 in E1. injection E1 as <-.
  assert (P : t_prefix u' = []). { unfold Trie.New in E2. case_hyp E2; [|by injection E2 as <-].
    destruct (resolveHash _ _ _ _); try done. by injection E2 as <-. }
  assert (G : forall k, bytes_ok k -> m !! k = m' !! k).
  { intros k Ok_. destruct (TryGet_holds db2 u' m k U1) as (x & X & _); [by rewrite P|].
    destruct (TryGet_holds db2 u' m' k U2) as (y & Y & _); [by rewrite P|]. rewrite X in Y. rewrite P in Y. by injection Y. }
  apply trie_holds_valid in H, H'. apply map_eq. intros k.
  destruct (m !! k) as [v|] eqn:Ek.
  - rewrite <- G, Ek; [done|]. by eapply (holds_nonempty _ m k v).
  - destruct (m' !! k) as [v|] eqn:Ek'; [|done]. rewrite <- Ek, G, Ek'; [done|]. by eapply (holds_nonempty _ m' k v).
Qed.

Lemma index_map_trie rlps : len rlps < 2 ^ 64 -> Forall item_ok rlps -> exists t, trie_holds ∅ t (index_map 0 rlps).
Proof.
  intros L F. destruct (derive_loop_holds rlps 0 (Trie Nil (zeros HashLength) [] 0 0) ∅) as (t & _ & TH); [lia|lia|done|apply trie_holds_empty|done|].
  exists t. by rewrite (right_id_L ∅ (∪)) in TH.
Qed.

Lemma DeriveSha_inj l l' :
  len l < 2 ^ 64 -> len l' < 2 ^ 64 -> Forall item_ok l -> Forall item_ok l' -> no_collision (index_map 0 l) (index_map 0 l') ->
  DeriveSha l = DeriveSha l' -> l = l'.
Proof.
  intros L L' F F' NC E. rewrite !DeriveSha_root in E by done. injection E as E. apply index_map_inj; [done..|].
  destruct (index_map_trie l L F) as (t & T). destruct (index_map_trie l' L' F') as (t' & T').
  by apply (map_root_inj t t'); [..|apply index_map_small|apply index_map_small| |].
Qed.

End Derive.

(** ** Lemmas: bloom filters *)

Section BloomLemmas.
Context {HS : Hasher}.

Lemma lor_below n a b : 0 <= n -> 0 <= a < 2 ^ n -> 0 <= b < 2 ^ n -> 0 <= Z.lor a b < 2 ^ n.
Proof.
  intros Hn Ha Hb. assert (P : 0 <= Z.lor a b) by (apply Z.lor_nonneg; lia). split; [done|].
  assert (E : Z.shiftr (Z.lor a b) n = 0) by (rewrite Z.shiftr_lor, !Z.shiftr_div_pow2, !Z.div_small by lia; done).
  rewrite Z.shiftr_div_pow2 in E by done. apply Z.div_small_iff in E; lia.
Qed.

Lemma bloom_bit_range h i : 0 <= bloom_bit h i < BloomBitLength.
Proof. unfold bloom_bit. change 2047 with (Z.ones 11). rewrite Z.land_ones by lia. by apply Z.mod_pos_bound. Qed.

Lemma bloom9_range b : 0 <= bloom9 b < 2 ^ BloomBitLength.
Proof.
  assert (B : forall i, 0 <= Z.shiftl 1 (bloom_bit (keccak256 b) i) < 2 ^ BloomBitLength).
  { intros i. pose proof (bloom_bit_range (keccak256 b) i). rewrite Z.shiftl_1_l.
    split; [apply Z.pow_nonneg; lia|apply Z.pow_lt_mono_r; lia]. }
  assert (Z0 : 0 <= 0 < 2 ^ BloomBitLength) by by vm_compute.
  unfold bloom9. cbn [fold_left]. by repeat apply lor_below.
Qed.

(** [bin] has the bits of the item [b]. *)
Definition covers (bin : Z) (b : bytes) : Prop := Z.land bin (bloom9 b) = bloom9 b.

Lemma covers_lor_r bin b : covers (Z.lor bin (bloom9 b)) b.
Proof. unfold covers. apply Z.bits_inj'. intros n _. rewrite Z.land_spec, Z.lor_spec. by destruct (Z.testbit bin n), (Z.testbit (bloom9 b) n). Qed.

Lemma covers_lor_l bin x b : covers bin b -> covers (Z.lor bin x) b.
Proof.
  unfold covers. intros E. apply Z.bits_inj'. intros n Hn. pose proof (f_equal (fun z => Z.testbit z n) E) as En. cbn beta in En.
  rewrite Z.land_spec in *. rewrite Z.lor_spec. by destruct (Z.testbit bin n), (Z.testbit x n), (Z.testbit (bloom9 b) n).
Qed.

Lemma topics_bloom ts bin :
  0 <= bin < 2 ^ BloomBitLength ->
  0 <= fold_left (fun bin t => Z.lor bin (bloom9 t)) ts bin < 2 ^ BloomBitLength /\
  (forall b, covers bin b \/ b ∈ ts -> covers (fold_left (fun bin t => Z.lor bin (bloom9 t)) ts bin) b).
Proof.
  revert bin. induction ts as [|t ts IH]; intros bin Hb; cbn [fold_left].
  - split; [done|]. intros b [H|H]; [done|by apply elem_of_nil in H].
  - destruct (IH (Z.lor bin (bloom9 t))) as [R C]; [apply lor_below; [done|done|apply bloom9_range]|]. split; [done|].
    intros b [H|H]; [apply C; left; by apply covers_lor_l|]. apply list.elem_of_cons in H as [->|H]; apply C; [left; apply covers_lor_r|by right].
Qed.

(** The items that a log puts in the filter. *)
Definition log_items (l : Log) : list bytes := log_Address l :: log_Topics l.

Lemma LogsBloom_covers logs bin :
  0 <= bin < 2 ^ BloomBitLength ->
  0 <= fold_left log_bloom logs bin < 2 ^ BloomBitLength /\
  (forall b, covers bin b \/ (exists l, l ∈ logs /\ b ∈ log_items l) -> covers (fold_left log_bloom logs bin) b).
Proof.
  revert bin. induction logs as [|l logs IH]; intros bin Hb; cbn [fold_left].
  - split; [done|]. intros b [H|(l & H & _)]; [done|by apply elem_of_nil in H].
  - destruct (topics_bloom (log_Topics l) (Z.lor bin (bloom9 (log_Address l)))) as [R1 C1]; [apply lor_below; [done|done|apply bloom9_range]|].
    destruct (IH (log_bloom bin l) R1) as [R C]. split; [done|].
    intros b [H|(l' & H & Hb')]; [apply C; left; apply C1; left; by apply covers_lor_l|].
    apply list.elem_of_cons in H as [->|H]; [|apply C; right; by exists l'].
    apply C. left. apply C1. apply list.elem_of_cons in Hb' as [->|Hb']; [left; apply covers_lor_r|by right].
Qed.

Lemma CreateBloom_covers rs bin :
  0 <= bin < 2 ^ BloomBitLength ->
  let f := fold_left (fun bin r => Z.lor bin (LogsBloom (rc_Logs r))) rs bin in
  0 <= f < 2 ^ BloomBitLength /\
  (forall b, covers bin b \/ (exists r l, r ∈ rs /\ l ∈ rc_Logs r /\ b ∈ log_items l) -> covers f b).
Proof.
  revert bin. induction rs as [|r rs IH]; intros bin Hb; cbn [fold_left].
  - split; [done|]. intros b [H|(r & l & H & _)]; [done|by apply elem_of_nil in H].
  - assert (Z0 : 0 <= 0 < 2 ^ BloomBitLength) by by vm_compute.
    destruct (LogsBloom_covers (rc_Logs r) 0 Z0) as [R1 C1].
    destruct (IH (Z.lor bin (LogsBloom (rc_Logs r)))) as [R C]; [by apply lor_below|]. split; [done|].
    intros b [H|(r' & l & H & Hl & Hb')]; [apply C; left; by apply covers_lor_l|].
    apply list.elem_of_cons in H as [->|H]; [|apply C; right; by exists r', l].
    apply C. left. rewrite Z.lor_comm. apply covers_lor_l, C1. right. by exists l.
Qed.

Lemma be_min_bloom z : 0 <= z < 2 ^ BloomBitLength -> len (be_min z) <= BloomByteLength.
Proof. intros H. apply len_be_min_le; [done|]. replace (256 ^ BloomByteLength) with (2 ^ BloomBitLength) by (by vm_compute). lia. Qed.

Lemma BytesToBloom_big z :
  0 <= z < 2 ^ BloomBitLength ->
  exists b, BytesToBloom (be_min z) = Ok b /\ len b = BloomByteLength /\ bytes_ok b /\ Bloom_Big b = z.
Proof.
  intros H. pose proof (be_min_bloom z H) as L. pose proof (len_nonneg (be_min z)).
  unfold BytesToBloom, Bloom_SetBytes. rewrite len_zeros by done. zdecide. rewrite ztake_zeros by lia.
  eexists. split; [reflexivity|]. split; [rewrite len_app, len_zeros; lia|].
  split; [apply bytes_ok_app; split; [apply bytes_ok_zeros|apply be_min_ok]|].
  unfold Bloom_Big. rewrite be_decode_zeros. apply be_decode_min. lia.
Qed.

End BloomLemmas.

(** ** Lemmas: receipts *)

Definition log_ok (l : Log) : Prop :=
  is_address (log_Address l) /\ Forall is_hash (log_Topics l) /\ bytes_ok (log_Data l) /\ 0 <= log_BlockNumber l < 2 ^ 64 /\
  is_hash (log_TxHash l) /\ 0 <= log_TxIndex l < 2 ^ 64 /\ is_hash (log_BlockHash l) /\ 0 <= log_Index l < 2 ^ 64 /\ log_Removed l = false.

(** A receipt with a post state or a status, as [NewReceipt] makes it. *)
Definition receipt_ok (r : Receipt) : Prop :=
  (is_hash (rc_PostState r) /\ rc_Status r = 0 \/ rc_PostState r = [] /\ (rc_Status r = 0 \/ rc_Status r = 1)) /\
  bytes_ok (rc_Bloom r) /\ len (rc_Bloom r) = BloomByteLength /\ Forall log_ok (rc_Logs r) /\ is_hash (rc_TxHash r) /\
  is_address (rc_ContractAddress r) /\ (exists g, rc_GasUsed r = Some g /\ 0 <= g) /\
  len (enc_value receiptStorageRLP_type (receiptStorageRLP_val r)) < 2 ^ 64.

Lemma setStatus_statusEncoding r r0 :
  is_hash (rc_PostState r) /\ rc_Status r = 0 \/ rc_PostState r = [] /\ (rc_Status r = 0 \/ rc_Status r = 1) ->
  rc_PostState r0 = [] -> rc_Status r0 = 0 ->
  setStatus (statusEncoding r) r0 =
    Ok (mkReceipt (rc_PostState r) (rc_PostStateRecord r0) (rc_Status r) (rc_Bloom r0) (rc_Logs r0) (rc_TxHash r0) (rc_ContractAddress r0) (rc_GasUsed r0)).
Proof.
  intros H P S. unfold setStatus, statusEncoding. destruct H as [[[L O] ->]|[-> [-> | ->]]].
  - destruct (rc_PostState r) as [|x l] eqn:E; [done|]. unfold receiptStatusSuccessfulRLP, receiptStatusFailedRLP.
    rewrite bool_decide_false by (intros [= -> ->]; done). rewrite bool_decide_false by done. rewrite L, S. done.
  - by rewrite P.
  - by rewrite P.
Qed.

Lemma rt_storage_log l : log_ok l -> rt rlpStorageLog_type (rlpStorageLog_val l).
Proof.
  intros (Ha & Ht & Hd & Hn & Hth & Hti & Hbh & Hi & _).
  assert (U : forall i, 0 <= i < 2 ^ 64 -> rt (TUint 64) (VUint i)) by (intros i Hi'; split; [done|auto]).
  apply rt_struct_cons; [done|by apply rt_address|]. apply rt_struct_cons; [done| |].
  { apply rt_slice; [done|]. apply Forall_map. eapply Forall_impl; [|exact Ht]. apply rt_hash. }
  apply rt_struct_cons; [done|done|]. apply rt_struct_cons; [done|by apply U|]. apply rt_struct_cons; [done|by apply rt_hash|].
  apply rt_struct_cons; [done|by apply U|]. apply rt_struct_cons; [done|by apply rt_hash|]. apply rt_struct_cons; [done|by apply U|]. done.
Qed.

Lemma val_storage_log l : log_ok l -> val_rlpStorageLog (rlpStorageLog_val l) = Some l.
Proof.
  intros (_ & _ & _ & _ & _ & _ & _ & _ & R). destruct l as [a ts d n th ti bh i rm]. cbn in *. subst rm.
  unfold val_rlpStorageLog, rlpStorageLog_val. cbn. by rewrite map_map, map_id.
Qed.

Lemma statusEncoding_ok r :
  is_hash (rc_PostState r) /\ rc_Status r = 0 \/ rc_PostState r = [] /\ (rc_Status r = 0 \/ rc_Status r = 1) -> bytes_ok (statusEncoding r).
Proof.
  unfold statusEncoding. intros [[[L O] _]|[-> [-> | ->]]]; [by destruct (rc_PostState r)|constructor|].
  repeat constructor; unfold byte_ok; lia.
Qed.

(** What is left of a receipt after it is stored. *)
Definition stored_receipt (r : Receipt) : Receipt :=
  mkReceipt (rc_PostState r) [] (rc_Status r) (rc_Bloom r) (rc_Logs r) (rc_TxHash r) (rc_ContractAddress r) (rc_GasUsed r).

Lemma rt_receiptStorageRLP r : receipt_ok r -> rt receiptStorageRLP_type (receiptStorageRLP_val r).
Proof.
  intros (S & Ob & Lb & Hl & Ht & Ha & Hg & L).
  apply rt_struct_cons; [done|by apply statusEncoding_ok|]. apply rt_struct_cons; [done|by apply rt_byte_array; [|rewrite Lb|lia]|].
  apply rt_struct_cons; [done|by apply rt_hash|]. apply rt_struct_cons; [done|by apply rt_address|]. apply rt_struct_cons; [done| |].
  - apply rt_slice; [done|]. apply Forall_map. eapply Forall_impl; [|exact Hl]. apply rt_storage_log.
  - apply rt_struct_cons; [done|by apply rt_big|done].
Qed.

Lemma val_receiptStorageRLP_val r : receipt_ok r -> val_receiptStorageRLP (receiptStorageRLP_val r) = Ok (stored_receipt r).
Proof.
  intros (S & Ob & Lb & Hl & Ht & Ha & Hg & L). unfold val_receiptStorageRLP, receiptStorageRLP_val.
  rewrite setStatus_statusEncoding by done. cbn [mbind outcome_bind rc_PostState rc_PostStateRecord rc_Status zeroReceipt].
  rewrite (omap_map rlpStorageLog_val val_rlpStorageLog); [done|]. intros l Hin. apply val_storage_log. by apply (Forall_elem _ _ _ Hl).
Qed.

(** ** Properties *)

Section Properties.
Context {HS : Hasher}.

(** A block survives its RLP form: what [EncodeRLP] writes is decoded to a block with the
    same header, uncles and transaction data, so with the same hash, and with the size of
    the encoding. *)
Theorem block_rlp_roundtrip b :
  block_ok b ->
  exists e b', Block_EncodeRLP b = Ok e /\ Block_DecodeRLP e = Ok b' /\
    b_header b' = b_header b /\ b_uncles b' = b_uncles b /\ map tx_data (b_transactions b') = map tx_data (b_transactions b) /\
    fst (Block_Hash b') = Header_Hash (b_header b) /\ fst (Block_Size b') = len e.
Proof.
  intros H. exists (enc_value extblock_type (extblock_val b)). eexists.
  split; [apply EncodeToBytes_spec; [by apply rt_wt, rt_block|apply H]|]. split; [by apply Block_DecodeRLP_ok|].
  cbn [b_header b_uncles b_transactions]. split; [done|]. split; [done|]. split; [by rewrite map_map|]. done.
Qed.

(** C28. The transaction root of a header commits to the list: [DeriveSha] does not fail, and
    two lists with the same root are equal, order included, when the hash function does not
    collide on the nodes of their tries. *)
Theorem DeriveSha_commits l l' :
  len l < 2 ^ 64 -> len l' < 2 ^ 64 -> Forall item_ok l -> Forall item_ok l' ->
  (exists h, DeriveSha l = Ok h /\ is_hash h) /\
  (no_collision (index_map 0 l) (index_map 0 l') -> DeriveSha l = DeriveSha l' -> l = l').
Proof.
  intros L L' F F'. split; [|by apply DeriveSha_inj]. exists (map_root (index_map 0 l)). split; [by apply DeriveSha_root|]. apply len_mroot.
Qed.

(** The filter of the receipts has no false negatives: [CreateBloom] does not panic, and
    the address and the topics of every log are found by [BloomLookup]. *)
Theorem CreateBloom_complete receipts :
  exists bloom, CreateBloom receipts = Ok bloom /\ len bloom = BloomByteLength /\
    forall r l b, r ∈ receipts -> l ∈ rc_Logs r -> b ∈ log_items l -> BloomLookup bloom b = true.
Proof.
  assert (Z0 : 0 <= 0 < 2 ^ BloomBitLength) by by vm_compute.
  destruct (CreateBloom_covers receipts 0 Z0) as [R C]. destruct (BytesToBloom_big _ R) as (bloom & E & L & _ & B).
  exists bloom. split; [done|]. split; [done|]. intros r l b Hr Hl Hb. unfold BloomLookup. rewrite B. apply Z.eqb_eq, C.
  right. by exists r, l.
Qed.

(** A receipt survives its storage form except for the root of the record state, which is
    not written: reading back what was written gives the receipt without it. *)
Theorem receipt_storage_roundtrip r :
  receipt_ok r ->
  exists e, ReceiptForStorage_EncodeRLP r = Ok e /\
    ReceiptForStorage_DecodeRLP e = Ok (mkReceipt (rc_PostState r) [] (rc_Status r) (rc_Bloom r) (rc_Logs r) (rc_TxHash r) (rc_ContractAddress r) (rc_GasUsed r)).
Proof.
  intros H. pose proof (rt_receiptStorageRLP r H) as W. pose proof H as (_ & _ & _ & _ & _ & _ & _ & L).
  eexists. split; [apply EncodeToBytes_spec; [by apply rt_wt|done]|].
  unfold ReceiptForStorage_DecodeRLP. rewrite DecodeBytes_enc_value by done. by apply val_receiptStorageRLP_val.
Qed.

(** [TestBytes] does not look for the bytes it is given: leading zero bytes are dropped,
    so that an address or a topic that begins with a zero byte is looked up as a shorter
    string than the one that was added to the filter. *)
Theorem TestBytes_drops_zeros n b bloom : Bloom_TestBytes (zeros n ++ b) bloom = BloomLookup bloom (be_min (Z.abs (be_decode b))).
Proof. unfold Bloom_TestBytes, Bloom_Test. by rewrite be_decode_zeros. Qed.

End Properties.

(** ** Witnesses *)

(** A hash that keeps the last bytes. *)
Definition tail_hash (b : bytes) : bytes := map (fun x => x mod 256) (take 32 (rev_append b (repeat 0 32))).

Lemma tail_hash_ok b : is_hash (tail_hash b).
Proof.
  unfold tail_hash. split.
  - unfold len. rewrite length_map, length_take, rev_append_rev, length_app, repeat_length. unfold HashLength. lia.
  - apply List.Forall_forall. intros x Hx. apply in_map_iff in Hx as (y & <- & _). unfold byte_ok. pose proof (Z.mod_pos_bound y 256). lia.
Qed.

Definition tail_hasher : Hasher := {| keccak256 := tail_hash; keccak256_hash := tail_hash_ok |}.

Definition sample_proto : PocContextProto :=
  mkPocContextProto (zeros 32) (repeat 1 32) (repeat 2 32) (repeat 3 32) (repeat 4 32).

Definition sample_header : Header :=
  mkHeader (repeat 5 32) (repeat 6 32) (repeat 7 20) (repeat 8 20) (repeat 9 32) (repeat 10 32) (repeat 11 32) (repeat 12 32)
    (Some sample_proto) (zeros 256) (Some 1) (Some 4) (Some 1000000) (Some 21000) (Some 1440) (zeros 97) (zeros 32) (zeros 8).

Lemma sample_header_ok : header_ok sample_header.
Proof.
  assert (H : forall x n, byte_ok x -> bytes_ok (repeat x n)) by (intros x n Hx; induction n; constructor; done).
  assert (B : forall x, (0 <=? x) && (x <? 256) = true -> byte_ok x) by (intros x Hx; zbool; unfold byte_ok; lia).
  split; try (split; [done|]; by apply H, B); try by eexists.
  - exists sample_proto. split; [done|]. repeat (split; [split; [done|by apply H, B]|]). split; [done|by apply H, B].
  - split; [by apply H, B|done].
  - by apply H, B.
  - split; [by apply H, B|done].
Qed.

Definition sample_block : Block := mkBlock sample_header [sample_header] [sample_tx] None None None.

Lemma sample_block_ok : block_ok sample_block.
Proof.
  split; [apply sample_header_ok|]. split; [constructor; [apply sample_header_ok|constructor]|].
  split; [constructor; [apply sample_tx_ok|constructor]|]. by vm_compute.
Qed.

Lemma block_rlp_roundtrip_witness :
  exists e b', Block_EncodeRLP sample_block = Ok e /\ Block_DecodeRLP e = Ok b' /\ b_header b' = sample_header.
Proof.
  destruct (@block_rlp_roundtrip sample_hasher sample_block sample_block_ok) as (e & b' & E & D & H & _).
  exists e, b'. split; [exact E|]. split; [exact D|exact H].
Defined.

Lemma sample_items_ok x : byte_ok x -> Forall item_ok [[x]].
Proof. intros H. constructor; [|constructor]. split; [done|]. split; [by constructor|done]. Qed.

Lemma build_one x : build (index_map 0 [[x]]) = PShort (keybytesToHex [0x80]) (PVal [x]).
Proof. by vm_compute. Qed.

Lemma no_collision_sample : @no_collision sample_hasher (index_map 0 [[5]]) (index_map 0 [[6]]).
Proof.
  assert (I : forall u x, below u (build (index_map 0 [[x]])) -> inner u -> u = PShort (keybytesToHex [0x80]) (PVal [x])).
  { intros u x B Iu. rewrite build_one in B. inversion B as [|? ? ? B'|]; subst; [done|]. inversion B'; by subst. }
  split; [|split; intros _; (split; [by vm_compute|done])]. intros _. split; [|done].
  intros u v [Bu|Bu] [Bv|Bv] Iu Iv E; apply I in Bu as ->; apply I in Bv as ->; try done; by vm_compute in E.
Qed.

Lemma DeriveSha_commits_witness : @DeriveSha sample_hasher [[5]] <> @DeriveSha sample_hasher [[6]].
Proof.
  destruct (@DeriveSha_commits sample_hasher [[5]] [[6]]) as [_ H].
  - by vm_compute.
  - by vm_compute.
  - apply sample_items_ok. unfold byte_ok. lia.
  - apply sample_items_ok. unfold byte_ok. lia.
  - intros E. specialize (H no_collision_sample E). discriminate.
Defined.

Definition sample_log : Log := mkLog (repeat 7 20) [repeat 1 32] [1; 2; 3] 4 (repeat 2 32) 0 (repeat 3 32) 5 false.
Definition sample_receipt : Receipt :=
  mkReceipt (repeat 4 32) (repeat 5 32) 0 (zeros 256) [sample_log] (repeat 2 32) (zeros 20) (Some 21000).

Lemma sample_receipt_ok : receipt_ok sample_receipt.
Proof.
  assert (H : forall x n, byte_ok x -> bytes_ok (repeat x n)) by (intros x n Hx; induction n; constructor; done).
  assert (B : forall x, (0 <=? x) && (x <? 256) = true -> byte_ok x) by (intros x Hx; zbool; unfold byte_ok; lia).
  split; [left; split; [split; [done|by apply H, B]|done]|]. split; [by apply H, B|]. split; [done|].
  split; [|split; [split; [done|by apply H, B]|split; [split; [done|by apply H, B]|split; [by eexists|by vm_compute]]]].
  constructor; [|constructor]. split; [split; [done|by apply H, B]|]. split; [constructor; [split; [done|by apply H, B]|constructor]|].
  split; [repeat constructor; unfold byte_ok; lia|]. split; [by vm_compute|]. split; [split; [done|by apply H, B]|].
  split; [by vm_compute|]. split; [split; [done|by apply H, B]|]. by vm_compute.
Qed.

Lemma receipt_storage_roundtrip_witness :
  exists e r, ReceiptForStorage_EncodeRLP sample_receipt = Ok e /\ ReceiptForStorage_DecodeRLP e = Ok r /\ rc_Logs r = [sample_log].
Proof.
  destruct (receipt_storage_roundtrip sample_receipt sample_receipt_ok) as (e & E & D). eexists e, _. split; [exact E|].
  split; [exact D|reflexivity].
Defined.
