(* ===== verification/ChainDb.v ===== *)
(** * Package [core]: the chain database

    [src/pkg/core/database_util.go]: the keys under which headers, bodies, total
    difficulties, receipts, transaction positions and heads are stored, and their readers,
    writers and deleters; and the table and batch of [ethdb] that they use.  The database is
    the map from byte strings to byte strings that the tries live in too. *)

From S2P Require Import Prelude Rlp RlpStream RlpCanonical TrieEncoding Common Codec Trie PocContext StateDB Signature Transaction Block.

(** ** Keys *)

Definition headHeaderKey : bytes := Eval vm_compute in text "LastHeader".
Definition headBlockKey : bytes := Eval vm_compute in text "LastBlock".
Definition headFastKey : bytes := Eval vm_compute in text "LastFast".

Definition headerPrefix : bytes := Eval vm_compute in text "h".
Definition tdSuffix : bytes := Eval vm_compute in text "t".
Definition numSuffix : bytes := Eval vm_compute in text "n".
Definition blockHashPrefix : bytes := Eval vm_compute in text "H".
Definition bodyPrefix : bytes := Eval vm_compute in text "b".
Definition blockReceiptsPrefix : bytes := Eval vm_compute in text "r".
Definition lookupPrefix : bytes := Eval vm_compute in text "l".
Definition bloomBitsPrefix : bytes := Eval vm_compute in text "B".
Definition preimagePrefix : bytes := Eval vm_compute in text "secure-key-".
Definition configPrefix : bytes := Eval vm_compute in text "ethereum-config-".
Definition versionKey : bytes := Eval vm_compute in text "BlockchainVersion".
Definition oldReceiptsPrefix : bytes := Eval vm_compute in text "receipts-".
Definition oldTxMetaSuffix : bytes := [1].

Definition encodeBlockNumber (number : Z) : bytes := be_fixed 8 number.

Definition canonicalKey (number : Z) : bytes := headerPrefix ++ encodeBlockNumber number ++ numSuffix.
Definition headerKey (hash : bytes) (number : Z) : bytes := headerPrefix ++ encodeBlockNumber number ++ hash.
Definition tdKey (hash : bytes) (number : Z) : bytes := headerPrefix ++ encodeBlockNumber number ++ hash ++ tdSuffix.
Definition numberKey (hash : bytes) : bytes := blockHashPrefix ++ hash.
Definition blockBodyKey (hash : bytes) (number : Z) : bytes := bodyPrefix ++ encodeBlockNumber number ++ hash.
Definition receiptsKey (hash : bytes) (number : Z) : bytes := blockReceiptsPrefix ++ encodeBlockNumber number ++ hash.
Definition lookupKey (hash : bytes) : bytes := lookupPrefix ++ hash.
Definition bloomBitsKey (bit section : Z) (head : bytes) : bytes :=
  bloomBitsPrefix ++ be_fixed 2 bit ++ be_fixed 8 section ++ head.

(** ** Readers

    A reader ignores the error of the database: what is not there is the empty string. *)

Definition Get (db : database) (key : bytes) : bytes := default [] (db !! key).
Definition Has (db : database) (key : bytes) : bool := bool_decide (is_Some (db !! key)).

Definition hash_at (db : database) (key : bytes) : bytes :=
  let data := Get db key in
  if len data =? 0 then zeros HashLength else BytesToHash data.

Definition GetCanonicalHash (db : database) (number : Z) : bytes := hash_at db (canonicalKey number).

Definition missingNumber : Z := 0xffffffffffffffff.

Definition GetBlockNumber (db : database) (hash : bytes) : Z :=
  let data := Get db (numberKey hash) in
  if negb (len data =? 8) then missingNumber else be_decode data.

Definition GetHeadHeaderHash (db : database) : bytes := hash_at db headHeaderKey.
Definition GetHeadBlockHash (db : database) : bytes := hash_at db headBlockKey.
Definition GetHeadFastBlockHash (db : database) : bytes := hash_at db headFastKey.

(** [rlp.Decode] from a [bytes.Reader]: what follows the value is not looked at. *)
Definition Decode (t : rtype) (b : bytes) : outcome rlp_error rval :=
  fst (decode (S (length b)) t (NewStream b)).

(** A value that is read and decoded: nil when it is absent or malformed. *)
Definition read_value {A} (dec : bytes -> outcome rlp_error rval) (f : rval -> option A) (data : bytes)
  : outcome unit (option A) :=
  if len data =? 0 then Ok None
  else match dec data with
       | Ok v => match f v with Some a => Ok (Some a) | None => Panic end
       | Err _ => Ok None
       | Panic => Panic
       | OutOfFuel => OutOfFuel
       end.

Definition GetHeaderRLP (db : database) (hash : bytes) (number : Z) : bytes := Get db (headerKey hash number).

Definition GetHeader (db : database) (hash : bytes) (number : Z) : outcome unit (option Header) :=
  read_value (Decode Header_type) val_header (GetHeaderRLP db hash number).

Definition GetBodyRLP (db : database) (hash : bytes) (number : Z) : bytes := Get db (blockBodyKey hash number).

Definition Body_type : rtype := TStruct [TSlice txdata_type; Uncles_type].
Definition body_val (b : Body) : rval :=
  VStruct [VList (map (fun tx => txdata_val (tx_data tx)) (bd_Transactions b)); uncles_val (bd_Uncles b)].
Definition val_body (v : rval) : option Body :=
  match v with
  | VStruct [VList txs; VList us] => Some (mkBody (omap val_tx txs) (omap val_uncle us))
  | _ => None
  end.

Definition GetBody (db : database) (hash : bytes) (number : Z) : outcome unit (option Body) :=
  read_value (Decode Body_type) val_body (GetBodyRLP db hash number).

Definition val_big (v : rval) : option Z := match v with VBig z => z | _ => None end.

Definition GetTd (db : database) (hash : bytes) (number : Z) : outcome unit (option Z) :=
  read_value (Decode TBig) val_big (Get db (tdKey hash number)).

Definition getPocContextTrie (db : database) (header : Header) : outcome unit (option PocContext) :=
  match hd_PocContext header with
  | Some proto =>
    match NewPocContextFromProto db proto with
    | Ok pc => Ok (Some pc)
    | Err _ => Ok None
    | Panic => Panic
    | OutOfFuel => OutOfFuel
    end
  | None => Ok None
  end.

Definition GetBlock (db : database) (hash : bytes) (number : Z) : outcome unit (option Block) :=
  h ← GetHeader db hash number;
  match h with
  | None => Ok None
  | Some header =>
    b ← GetBody db hash number;
    match b with
    | None => Ok None
    | Some body =>
      let block := WithBody (bd_Transactions body) (bd_Uncles body) (NewBlockWithHeader header) in
      pc ← getPocContextTrie db header;
      Ok (Some (mkBlock (b_header block) (b_uncles block) (b_transactions block) (b_hash block) (b_size block) pc))
    end
  end.

(** A slice of receipts: one that does not decode fails the slice. *)
Fixpoint val_receipts (vs : list rval) : outcome receipt_error (list Receipt) :=
  match vs with
  | [] => Ok []
  | VPtr (Some v) :: vs => r ← val_receiptStorageRLP v; rs ← val_receipts vs; Ok (r :: rs)
  | _ => Panic
  end.

Definition receipts_type : rtype := TSlice (TPtr false receiptStorageRLP_type).
Definition receipts_val (rs : list Receipt) : rval := VList (map (fun r => VPtr (Some (receiptStorageRLP_val r))) rs).

Definition decode_receipts (data : bytes) : outcome receipt_error (list Receipt) :=
  v ← map_err ReceiptRlp (DecodeBytes receipts_type data);
  match v with VList vs => val_receipts vs | _ => Panic end.

Definition GetBlockReceipts (db : database) (hash : bytes) (number : Z) : outcome unit (option (list Receipt)) :=
  let data := Get db (receiptsKey hash number) in
  if len data =? 0 then Ok None
  else match decode_receipts data with
       | Ok rs => Ok (Some rs)
       | Err _ => Ok None
       | Panic => Panic
       | OutOfFuel => OutOfFuel
       end.

Record TxLookupEntry := mkTxLookupEntry { le_BlockHash : bytes; le_BlockIndex : Z; le_Index : Z }.

Definition TxLookupEntry_type : rtype := TStruct [Hash_type; TUint 64; TUint 64].
Definition entry_val (e : TxLookupEntry) : rval := VStruct [VBytes (le_BlockHash e); VUint (le_BlockIndex e); VUint (le_Index e)].
Definition val_entry (v : rval) : option TxLookupEntry :=
  match v with VStruct [VBytes h; VUint n; VUint i] => Some (mkTxLookupEntry h n i) | _ => None end.

Definition noEntry : TxLookupEntry := mkTxLookupEntry (zeros HashLength) 0 0.

Definition GetTxLookupEntry (db : database) (hash : bytes) : outcome unit TxLookupEntry :=
  e ← read_value (DecodeBytes TxLookupEntry_type) val_entry (Get db (lookupKey hash));
  Ok (default noEntry e).

(** [int(index)] is negative for an index of 2^63 and more, which the slice then panics on. *)
Definition at_index {A} (l : list A) (index : Z) : outcome unit (option A) :=
  if len l <=? i64 index then Ok None
  else match l !! Z.to_nat index with Some a => Ok (Some a) | None => Panic end.

Definition decode_tx (data : bytes) : outcome unit (option Transaction) :=
  match DecodeRLP data with
  | Ok tx => Ok (Some tx)
  | Err _ => Ok None
  | Panic => Panic
  | OutOfFuel => OutOfFuel
  end.

Definition GetTransaction (db : database) (hash : bytes) : outcome unit (option (Transaction * TxLookupEntry)) :=
  e ← GetTxLookupEntry db hash;
  if negb (bool_decide (le_BlockHash e = zeros HashLength)) then
    b ← GetBody db (le_BlockHash e) (le_BlockIndex e);
    match b with
    | None => Ok None
    | Some body => tx ← at_index (bd_Transactions body) (le_Index e); Ok (option_map (fun tx => (tx, e)) tx)
    end
  else
    let data := Get db hash in
    if len data =? 0 then Ok None
    else
      t ← decode_tx data;
      match t with
      | None => Ok None
      | Some tx =>
        m ← read_value (DecodeBytes TxLookupEntry_type) val_entry (Get db (hash ++ oldTxMetaSuffix));
        Ok (option_map (fun e => (tx, e)) m)
      end.

(** An old receipt that does not decode is returned as the empty one. *)
Definition GetReceipt (db : database) (hash : bytes) : outcome unit (option (Receipt * TxLookupEntry)) :=
  e ← GetTxLookupEntry db hash;
  if negb (bool_decide (le_BlockHash e = zeros HashLength)) then
    rs ← GetBlockReceipts db (le_BlockHash e) (le_BlockIndex e);
    r ← at_index (default [] rs) (le_Index e);
    Ok (option_map (fun r => (r, e)) r)
  else
    let data := Get db (oldReceiptsPrefix ++ hash) in
    if len data =? 0 then Ok None
    else match ReceiptForStorage_DecodeRLP data with
         | Ok r => Ok (Some (r, noEntry))
         | Err _ => Ok (Some (zeroReceipt, noEntry))
         | Panic => Panic
         | OutOfFuel => OutOfFuel
         end.

Definition GetBloomBits (db : database) (bit section : Z) (head : bytes) : option bytes := db !! bloomBitsKey bit section head.

(** ** Writers *)

Definition Put (key value : bytes) (db : database) : database := <[key := value]> db.

Definition WriteCanonicalHash (hash : bytes) (number : Z) (db : database) : database := Put (canonicalKey number) hash db.
Definition WriteHeadHeaderHash (hash : bytes) (db : database) : database := Put headHeaderKey hash db.
Definition WriteHeadBlockHash (hash : bytes) (db : database) : database := Put headBlockKey hash db.
Definition WriteHeadFastBlockHash (hash : bytes) (db : database) : database := Put headFastKey hash db.

(** [big.Int.Uint64] of a number that is not nil. *)
Definition Uint64_of (z : option Z) : outcome rlp_error Z := match z with Some z => Ok (big_Uint64 z) | None => Panic end.

Section Writers.
Context {HS : Hasher}.

Definition WriteHeader (header : Header) (db : database) : outcome rlp_error database :=
  data ← EncodeToBytes (TPtr false Header_type) (VPtr (Some (header_val header)));
  let hash := Header_Hash header in
  num ← Uint64_of (hd_Number header);
  let db := Put (numberKey hash) (encodeBlockNumber num) db in
  Ok (Put (headerKey hash num) data db).

Definition WriteBodyRLP (hash : bytes) (number : Z) (rlp : bytes) (db : database) : database :=
  Put (blockBodyKey hash number) rlp db.

Definition WriteBody (hash : bytes) (number : Z) (body : Body) (db : database) : outcome rlp_error database :=
  data ← EncodeToBytes (TPtr false Body_type) (VPtr (Some (body_val body)));
  Ok (WriteBodyRLP hash number data db).

Definition WriteTd (hash : bytes) (number td : Z) (db : database) : outcome rlp_error database :=
  data ← EncodeToBytes (TPtr false TBig) (VPtr (Some (VBig (Some td))));
  Ok (Put (tdKey hash number) data db).

Definition NumberU64 (b : Block) : outcome rlp_error Z := Uint64_of (hd_Number (b_header b)).

Definition WriteBlock (block : Block) (db : database) : outcome rlp_error database :=
  number ← NumberU64 block;
  db ← WriteBody (fst (Block_Hash block)) number (Block_Body block) db;
  WriteHeader (Block_Header block) db.

Definition WriteBlockReceipts (hash : bytes) (number : Z) (receipts : list Receipt) (db : database) : outcome rlp_error database :=
  bytes ← EncodeToBytes receipts_type (receipts_val receipts);
  Ok (Put (receiptsKey hash number) bytes db).

Fixpoint write_entries (hash : bytes) (number i : Z) (txs : list Transaction) (db : database) : outcome rlp_error database :=
  match txs with
  | [] => Ok db
  | tx :: txs =>
    data ← EncodeToBytes TxLookupEntry_type (entry_val (mkTxLookupEntry hash number i));
    write_entries hash number (i + 1) txs (Put (lookupKey (fst (Transaction.Hash tx))) data db)
  end.

(** The number of a block without transactions is not read. *)
Definition WriteTxLookupEntries (block : Block) (db : database) : outcome rlp_error database :=
  match b_transactions block with
  | [] => Ok db
  | txs => number ← NumberU64 block; write_entries (fst (Block_Hash block)) number 0 txs db
  end.
End Writers.

Definition WriteBloomBits (bit section : Z) (head bits : bytes) (db : database) : database :=
  Put (bloomBitsKey bit section head) bits db.

(** ** Deleters *)

Definition Del (key : bytes) (db : database) : database := base.delete key db.

Definition DeleteCanonicalHash (number : Z) (db : database) : database := Del (canonicalKey number) db.
Definition DeleteHeader (hash : bytes) (number : Z) (db : database) : database := Del (headerKey hash number) (Del (numberKey hash) db).
Definition DeleteBody (hash : bytes) (number : Z) (db : database) : database := Del (blockBodyKey hash number) db.
Definition DeleteTd (hash : bytes) (number : Z) (db : database) : database := Del (tdKey hash number) db.
Definition DeleteBlockReceipts (hash : bytes) (number : Z) (db : database) : database := Del (receiptsKey hash number) db.
Definition DeleteBlock (hash : bytes) (number : Z) (db : database) : database :=
  DeleteTd hash number (DeleteBody hash number (DeleteHeader hash number (DeleteBlockReceipts hash number db))).
Definition DeleteTxLookupEntry (hash : bytes) (db : database) : database := Del (lookupKey hash) db.

(** ** Tables, batches, preimages and the version *)

Definition batch : Type := list (bytes * bytes).
Definition batch_Put (key value : bytes) (b : batch) : batch := b ++ [(key, value)].
Definition batch_Write (b : batch) (db : database) : database := fold_left (fun db kv => Put (fst kv) (snd kv) db) b db.

Definition table_key (prefix key : bytes) : bytes := prefix ++ key.

(** A preimage is written when the table has none for the hash. *)
Definition preimage_batch (preimages : list (bytes * bytes)) (db : database) : batch :=
  fold_left (fun b kv => if Has db (table_key preimagePrefix (fst kv)) then b
                         else batch_Put (table_key preimagePrefix (fst kv)) (snd kv) b) preimages [].

Definition WritePreimages (preimages : gmap bytes bytes) (db : database) : database :=
  let b := preimage_batch (map_to_list preimages) db in
  if 0 <? len b then batch_Write b db else db.

Definition GetBlockChainVersion (db : database) : outcome unit Z :=
  match DecodeBytes (TUint 64) (Get db versionKey) with
  | Ok (VUint vsn) => Ok (i64 vsn)
  | Ok _ => Panic
  | Err _ => Ok 0
  | Panic => Panic
  | OutOfFuel => OutOfFuel
  end.

Definition WriteBlockChainVersion (vsn : Z) (db : database) : outcome rlp_error database :=
  match EncodeToBytes (TUint 64) (VUint (u64 vsn)) with
  | Ok enc => Ok (Put versionKey enc db)
  | Err _ => Ok (Put versionKey [] db)
  | Panic => Panic
  | OutOfFuel => OutOfFuel
  end.

(** ** The key space *)

(** What is stored, the nodes of the tries included. *)
Inductive dbkey :=
| KHeadHeader | KHeadBlock | KHeadFast | KVersion
| KCanonical (number : Z) | KHeader (hash : bytes) (number : Z) | KTd (hash : bytes) (number : Z) | KNumber (hash : bytes)
| KBody (hash : bytes) (number : Z) | KReceipts (hash : bytes) (number : Z) | KLookup (hash : bytes)
| KBloomBits (bit section : Z) (head : bytes) | KPreimage (hash : bytes) | KConfig (hash : bytes) | KNode (hash : bytes).

Definition key_of (k : dbkey) : bytes :=
  match k with
  | KHeadHeader => headHeaderKey | KHeadBlock => headBlockKey | KHeadFast => headFastKey | KVersion => versionKey
  | KCanonical n => canonicalKey n | KHeader h n => headerKey h n | KTd h n => tdKey h n | KNumber h => numberKey h
  | KBody h n => blockBodyKey h n | KReceipts h n => receiptsKey h n | KLookup h => lookupKey h
  | KBloomBits bit section head => bloomBitsKey bit section head
  | KPreimage h => table_key preimagePrefix h | KConfig h => configPrefix ++ h | KNode h => h
  end.

(** Hashes of 32 bytes, numbers of their width. *)
Definition key_ok (k : dbkey) : Prop :=
  match k with
  | KCanonical n => is_u64 n
  | KHeader h n | KTd h n | KBody h n | KReceipts h n => len h = 32 /\ is_u64 n
  | KNumber h | KLookup h | KPreimage h | KConfig h | KNode h => len h = 32
  | KBloomBits bit section head => 0 <= bit < 2 ^ 16 /\ is_u64 section /\ len head = 32
  | _ => True
  end.

(** Length and first byte tell the kinds of keys apart. *)
Definition key_tag (b : bytes) : Z * Z := (len b, if len b =? 32 then 0 else hd 0 b).
Definition kind_tag (k : dbkey) : Z * Z :=
  match k with
  | KHeadHeader => (10, 76) | KHeadBlock => (9, 76) | KHeadFast => (8, 76) | KVersion => (17, 66)
  | KCanonical _ => (10, 104) | KHeader _ _ => (41, 104) | KTd _ _ => (42, 104) | KNumber _ => (33, 72)
  | KBody _ _ => (41, 98) | KReceipts _ _ => (41, 114) | KLookup _ => (33, 108) | KBloomBits _ _ _ => (43, 66)
  | KPreimage _ => (43, 115) | KConfig _ => (48, 101) | KNode _ => (32, 0)
  end.

Lemma key_tag_of k : key_ok k -> key_tag (key_of k) = kind_tag k.
Proof.
  destruct k; cbn [key_ok]; intros H; try reflexivity;
    try (destruct H as (Hl & Hn)); try (destruct Hn as (Hs & Hh));
    unfold key_tag, key_of, canonicalKey, headerKey, tdKey, numberKey, blockBodyKey, receiptsKey, lookupKey, bloomBitsKey,
      table_key, encodeBlockNumber;
    rewrite ?len_app, ?len_be_fixed; rewrite ?H, ?Hl, ?Hh; reflexivity.
Qed.

Lemma be_fixed_app_inj n x y (a b : bytes) :
  0 <= x < 256 ^ Z.of_nat n -> 0 <= y < 256 ^ Z.of_nat n -> be_fixed n x ++ a = be_fixed n y ++ b -> x = y /\ a = b.
Proof.
  intros Hx Hy E. apply app_inj_1 in E as [E ->]; [|pose proof (len_be_fixed n x); pose proof (len_be_fixed n y); unfold len in *; lia].
  split; [|done]. apply (f_equal be_decode) in E. by rewrite !be_decode_fixed, !Z.mod_small in E.
Qed.

Lemma number_app_inj x y (a b : bytes) : is_u64 x -> is_u64 y -> encodeBlockNumber x ++ a = encodeBlockNumber y ++ b -> x = y /\ a = b.
Proof. unfold encodeBlockNumber, is_u64. intros Hx Hy. by apply (be_fixed_app_inj 8). Qed.

Lemma key_of_inj k k' : key_ok k -> key_ok k' -> key_of k = key_of k' -> k = k'.
Proof.
  intros O O' E. assert (T : kind_tag k = kind_tag k') by (rewrite <- !key_tag_of by done; by rewrite E).
  destruct k, k'; try discriminate T; clear T; try reflexivity; cbn [key_of key_ok] in *;
    unfold canonicalKey, headerKey, tdKey, numberKey, blockBodyKey, receiptsKey, lookupKey, bloomBitsKey, table_key in E;
    repeat (apply app_inv_head in E); try (by subst).
  - by apply number_app_inj in E as [-> _].
  - apply number_app_inj in E as [-> ->]; [done|apply O|apply O'].
  - apply number_app_inj in E as [-> E]; [|apply O|apply O']. by apply app_inv_tail in E as ->.
  - apply number_app_inj in E as [-> ->]; [done|apply O|apply O'].
  - apply number_app_inj in E as [-> ->]; [done|apply O|apply O'].
  - destruct O as (Ob & Os & _), O' as (Ob' & Os' & _).
    apply (be_fixed_app_inj 2) in E as [-> E]; [|done|done]. by apply number_app_inj in E as [-> ->].
Qed.

#[export] Instance dbkey_eq_dec : EqDecision dbkey.
Proof. solve_decision. Defined.

(** Reading after writing, by the kind of key. *)
Lemma Get_Put k k' v db :
  key_ok k -> key_ok k' -> Get (Put (key_of k) v db) (key_of k') = if decide (k = k') then v else Get db (key_of k').
Proof.
  intros O O'. unfold Get, Put. destruct (decide (k = k')) as [->|N]; [by rewrite lookup_insert_eq|].
  rewrite lookup_insert_ne; [done|]. intros E. by apply N, key_of_inj.
Qed.

Lemma Get_Del k k' db :
  key_ok k -> key_ok k' -> Get (Del (key_of k) db) (key_of k') = if decide (k = k') then [] else Get db (key_of k').
Proof.
  intros O O'. unfold Get, Del. destruct (decide (k = k')) as [->|N]; [by rewrite lookup_delete_eq|].
  rewrite lookup_delete_ne; [done|]. intros E. by apply N, key_of_inj.
Qed.

(** Reads a key of a known kind through writes and deletes of known kinds. *)
Lemma lookup_Put k k' v db :
  key_ok k -> key_ok k' -> Put (key_of k) v db !! key_of k' = if decide (k = k') then Some v else db !! key_of k'.
Proof.
  intros O O'. unfold Put. destruct (decide (k = k')) as [->|N]; [by rewrite lookup_insert_eq|].
  rewrite lookup_insert_ne; [done|]. intros E. by apply N, key_of_inj.
Qed.

Lemma lookup_Del k k' db :
  key_ok k -> key_ok k' -> Del (key_of k) db !! key_of k' = if decide (k = k') then None else db !! key_of k'.
Proof.
  intros O O'. unfold Del. destruct (decide (k = k')) as [->|N]; [by rewrite lookup_delete_eq|].
  rewrite lookup_delete_ne; [done|]. intros E. by apply N, key_of_inj.
Qed.

Lemma Get_lookup db db' k : db' !! k = db !! k -> Get db' k = Get db k.
Proof. unfold Get. by intros ->. Qed.

Lemma Has_lookup db db' k : db' !! k = db !! k -> Has db' k = Has db k.
Proof. unfold Has. by intros ->. Qed.

Ltac dbget :=
  repeat first [ rewrite Get_Put by done | rewrite Get_Del by done ];
  repeat first [ rewrite decide_True by done | rewrite decide_False by (first [discriminate | done | by intros <-]) ].

(** ** Lemmas: what is written is read back *)

Lemma Decode_enc_value t v :
  rt t v -> is_tail t = false -> len (enc_value t v) < 2 ^ 64 -> Decode t (enc_value t v) = Ok v.
Proof.
  intros W T L. pose proof (DecodeBytes_enc_value t v W T L) as H. unfold DecodeBytes, DecodeBytes_fuel in H. unfold Decode.
  destruct (decode _ t _) as [[w| | |] s]; try done. cbn. destruct (0 <? len (s_in s)); [done|congruence].
Qed.

Lemma read_value_enc {A} t (f : rval -> option A) v a :
  rt t v -> is_tail t = false -> len (enc_value t v) < 2 ^ 64 -> f v = Some a -> enc_value t v <> [] ->
  read_value (Decode t) f (enc_value t v) = Ok (Some a) /\ read_value (DecodeBytes t) f (enc_value t v) = Ok (Some a).
Proof.
  intros W T L E NE. unfold read_value. destruct (Z.eqb_spec (len (enc_value t v)) 0) as [Z|_]; [by apply len_zero_inv in Z|].
  by rewrite Decode_enc_value, DecodeBytes_enc_value, E.
Qed.

(** Headers that decode to themselves and whose encoding fits, with a 64-bit number. *)
Definition stored_header (h : Header) (n : Z) : Prop :=
  header_ok h /\ len (enc_value Header_type (header_val h)) < 2 ^ 64 /\ hd_Number h = Some n /\ is_u64 n.

Lemma CopyHeader_ok h : header_ok h -> CopyHeader h = h.
Proof.
  intros [_ _ _ _ _ _ _ _ (p & Hp & _) _ (d & Hd & _) (n & Hn & _) (l & Hl & _) (u & Hu & _) (t & Ht & _) _ _ _].
  destruct h. unfold CopyHeader. cbn in *. by subst.
Qed.

Lemma big_Uint64_u64 n : is_u64 n -> big_Uint64 n = n.
Proof. unfold is_u64, big_Uint64. intros H. rewrite Z.abs_eq by lia. apply u64_small. exact H. Qed.

Section Stored.
Context {HS : Hasher}.

Lemma len_Header_Hash h : len (Header_Hash h) = 32.
Proof. apply len_rlpHash. Qed.

Definition enc_header (h : Header) : bytes := enc_value Header_type (header_val h).

Lemma WriteHeader_eq h n db :
  stored_header h n ->
  WriteHeader h db = Ok (Put (key_of (KHeader (Header_Hash h) n)) (enc_header h)
                           (Put (key_of (KNumber (Header_Hash h))) (encodeBlockNumber n) db)).
Proof.
  intros (Ho & L & Hn & U). unfold WriteHeader.
  destruct (EncodeToBytes_spec (TPtr false Header_type) (VPtr (Some (header_val h)))) as [-> _];
    [apply (rt_wt (header_val h) Header_type); by apply rt_header|exact L|].
  cbn [mbind outcome_bind]. unfold Uint64_of. rewrite Hn, big_Uint64_u64 by done. done.
Qed.

Lemma GetHeader_enc h n db hash m :
  stored_header h n -> Get db (key_of (KHeader hash m)) = enc_header h -> GetHeader db hash m = Ok (Some h).
Proof.
  intros (Ho & L & Hn & U) E. unfold GetHeader, GetHeaderRLP. change (headerKey hash m) with (key_of (KHeader hash m)). rewrite E.
  apply read_value_enc; [by apply rt_header|done|exact L|apply val_header_val|apply enc_list_nonempty].
Qed.

Lemma GetHeader_none db hash m : Get db (key_of (KHeader hash m)) = [] -> GetHeader db hash m = Ok None.
Proof. intros E. unfold GetHeader, GetHeaderRLP. change (headerKey hash m) with (key_of (KHeader hash m)). by rewrite E. Qed.

(** Total difficulties of a size that the encoder accepts. *)
Definition td_ok (td : Z) : Prop := 0 <= td /\ len (enc_string (be_min td)) < 2 ^ 64.

Lemma WriteTd_eq hash n td db : td_ok td -> WriteTd hash n td db = Ok (Put (key_of (KTd hash n)) (enc_string (be_min td)) db).
Proof.
  intros [H L]. unfold WriteTd. destruct (EncodeToBytes_spec (TPtr false TBig) (VPtr (Some (VBig (Some td))))) as [-> _]; [exact H|exact L|done].
Qed.

Lemma GetTd_enc db hash n td : td_ok td -> Get db (key_of (KTd hash n)) = enc_string (be_min td) -> GetTd db hash n = Ok (Some td).
Proof.
  intros [H L] E. unfold GetTd. change (tdKey hash n) with (key_of (KTd hash n)). rewrite E.
  apply (read_value_enc TBig val_big (VBig (Some td))); [apply rt_big; by exists td|done|exact L|done|apply enc_string_nonempty].
Qed.

Lemma GetTd_none db hash n : Get db (key_of (KTd hash n)) = [] -> GetTd db hash n = Ok None.
Proof. intros E. unfold GetTd. change (tdKey hash n) with (key_of (KTd hash n)). by rewrite E. Qed.

Lemma hash_at_hash db k h : Get db k = h -> len h = 32 -> hash_at db k = h.
Proof. intros E L. unfold hash_at. rewrite E, L. cbn. by apply BytesToHash_id. Qed.

Lemma hash_at_none db k : Get db k = [] -> hash_at db k = zeros HashLength.
Proof. intros E. unfold hash_at. by rewrite E. Qed.

Lemma GetBlockNumber_enc db hash n : is_u64 n -> Get db (key_of (KNumber hash)) = encodeBlockNumber n -> GetBlockNumber db hash = n.
Proof.
  intros U E. unfold GetBlockNumber. change (numberKey hash) with (key_of (KNumber hash)). rewrite E.
  unfold encodeBlockNumber. rewrite len_be_fixed. cbn [negb Z.of_nat Z.eqb Pos.of_succ_nat Pos.succ Pos.eqb].
  rewrite be_decode_fixed. by apply Z.mod_small.
Qed.

Lemma GetBlockNumber_none db hash : Get db (key_of (KNumber hash)) = [] -> GetBlockNumber db hash = missingNumber.
Proof. intros E. unfold GetBlockNumber. change (numberKey hash) with (key_of (KNumber hash)). by rewrite E. Qed.

(** Bodies and their encoding. *)
Definition body_ok (b : Body) : Prop :=
  Forall (fun tx => tx_ok (tx_data tx)) (bd_Transactions b) /\ Forall header_ok (bd_Uncles b) /\
  len (enc_value Body_type (body_val b)) < 2 ^ 64.

Definition decoded_body (b : Body) : Body := mkBody (map decoded_tx (bd_Transactions b)) (bd_Uncles b).

Lemma rt_body b : body_ok b -> rt Body_type (body_val b).
Proof.
  intros (Ht & Hu & _). apply rt_struct_cons; [done| |].
  { apply rt_slice; [done|]. apply Forall_map. eapply Forall_impl; [|exact Ht]. intros tx. apply rt_txdata. }
  apply rt_struct_cons; [done| |done]. apply rt_slice; [done|]. apply Forall_map. eapply Forall_impl; [|exact Hu].
  intros h Hh'. split; [done|by apply rt_header].
Qed.

Lemma val_body_val b : body_ok b -> val_body (body_val b) = Some (decoded_body b).
Proof.
  intros (Ht & _). unfold val_body, body_val, uncles_val, decoded_body.
  rewrite (omap_map (fun h => VPtr (Some (header_val h))) val_uncle) by (intros; apply val_header_val).
  rewrite (omap_map_with (fun tx => txdata_val (tx_data tx)) val_tx decoded_tx); [done|].
  intros tx Hin. apply val_tx_val. by apply (Forall_elem _ _ _ Ht).
Qed.

Definition enc_body (b : Body) : bytes := enc_value Body_type (body_val b).

Lemma WriteBody_eq hash n b db : body_ok b -> WriteBody hash n b db = Ok (Put (key_of (KBody hash n)) (enc_body b) db).
Proof.
  intros O. unfold WriteBody. destruct (EncodeToBytes_spec (TPtr false Body_type) (VPtr (Some (body_val b)))) as [-> _];
    [apply (rt_wt (body_val b) Body_type); by apply rt_body|apply O|done].
Qed.

Lemma GetBody_enc db hash n b :
  body_ok b -> Get db (key_of (KBody hash n)) = enc_body b -> GetBody db hash n = Ok (Some (decoded_body b)).
Proof.
  intros O E. unfold GetBody, GetBodyRLP. change (blockBodyKey hash n) with (key_of (KBody hash n)). rewrite E.
  apply read_value_enc; [by apply rt_body|done|apply O|by apply val_body_val|apply enc_list_nonempty].
Qed.

(** The receipts of a block. *)
Definition receipts_ok (rs : list Receipt) : Prop :=
  Forall receipt_ok rs /\ len (enc_value receipts_type (receipts_val rs)) < 2 ^ 64.

Lemma rt_receipts rs : receipts_ok rs -> rt receipts_type (receipts_val rs).
Proof.
  intros [F _]. apply rt_slice; [done|]. apply Forall_map. eapply Forall_impl; [|exact F].
  intros r Hr. split; [done|by apply rt_receiptStorageRLP].
Qed.

Lemma val_receipts_val rs :
  Forall receipt_ok rs -> val_receipts (map (fun r => VPtr (Some (receiptStorageRLP_val r))) rs) = Ok (map stored_receipt rs).
Proof.
  induction 1 as [|r rs Hr F IH]; [done|]. cbn [map val_receipts]. rewrite val_receiptStorageRLP_val by done.
  cbn [mbind outcome_bind]. by rewrite IH.
Qed.

Definition enc_receipts (rs : list Receipt) : bytes := enc_value receipts_type (receipts_val rs).

Lemma WriteBlockReceipts_eq hash n rs db :
  receipts_ok rs -> WriteBlockReceipts hash n rs db = Ok (Put (key_of (KReceipts hash n)) (enc_receipts rs) db).
Proof.
  intros O. unfold WriteBlockReceipts. destruct (EncodeToBytes_spec receipts_type (receipts_val rs)) as [-> _];
    [by apply rt_wt, rt_receipts|apply O|done].
Qed.

Lemma GetBlockReceipts_enc db hash n rs :
  receipts_ok rs -> Get db (key_of (KReceipts hash n)) = enc_receipts rs -> GetBlockReceipts db hash n = Ok (Some (map stored_receipt rs)).
Proof.
  intros O E. unfold GetBlockReceipts. change (receiptsKey hash n) with (key_of (KReceipts hash n)). rewrite E.
  destruct (Z.eqb_spec (len (enc_receipts rs)) 0) as [Z|_]; [apply len_zero_inv in Z; by destruct (enc_list_nonempty _ Z)|].
  unfold decode_receipts. unfold enc_receipts. rewrite DecodeBytes_enc_value; [|by apply rt_receipts|done|apply O].
  cbn [map_err mbind outcome_bind receipts_val]. by rewrite val_receipts_val by apply O.
Qed.

(** Positions of transactions. *)
Definition enc_entry (hash : bytes) (n i : Z) : bytes := enc_value TxLookupEntry_type (entry_val (mkTxLookupEntry hash n i)).

Lemma rt_entry hash n i : is_hash hash -> is_u64 n -> is_u64 i -> rt TxLookupEntry_type (entry_val (mkTxLookupEntry hash n i)).
Proof.
  intros Hh Hn Hi. apply rt_struct_cons; [done|by apply rt_hash|].
  assert (U : forall i, is_u64 i -> rt (TUint 64) (VUint i)) by (intros j Hj; split; [done|auto]).
  apply rt_struct_cons; [done|by apply U|]. apply rt_struct_cons; [done|by apply U|done].
Qed.

Lemma len_enc_entry hash n i : is_hash hash -> is_u64 n -> is_u64 i -> len (enc_entry hash n i) < 2 ^ 64.
Proof.
  intros [Lh _] Hn Hi. change HashLength with 32 in Lh. unfold enc_entry. change (enc_value TxLookupEntry_type (entry_val (mkTxLookupEntry hash n i)))
    with (enc_list (enc_string hash ++ enc_string (be_min n) ++ enc_string (be_min i) ++ [])).
  assert (B : forall j, is_u64 j -> len (be_min j) <= 8).
  { intros j [J0 J1]. apply len_be_min_le; [done|]. change (256 ^ 8) with (2 ^ 64). lia. }
  pose proof (B n Hn). pose proof (B i Hi).
  assert (S : forall b, len b <= 55 -> len (enc_string b) <= 56).
  { intros b Hb. unfold enc_string, enc_head. destruct b as [|x [|y b]]; [done|case_goal; by vm_compute|].
    replace (len (x :: y :: b) <? 56) with true by (symmetry; apply Z.ltb_lt; lia). rewrite len_app, len_cons, len_nil. lia. }
  pose proof (S hash ltac:(lia)). pose proof (S (be_min n) ltac:(lia)). pose proof (S (be_min i) ltac:(lia)).
  unfold enc_list, enc_head. rewrite !len_app. case_goal; rewrite ?len_cons, ?len_nil; [lia|].
  match goal with |- context [be_min ?x] => pose proof (B x); pose proof (len_nonneg (enc_string (be_min n))); pose proof (len_nonneg (enc_string (be_min i)));
    pose proof (len_nonneg (enc_string hash)) end. unfold is_u64 in *. lia.
Qed.

Lemma WriteEntry_eq hash n i :
  is_hash hash -> is_u64 n -> is_u64 i -> EncodeToBytes TxLookupEntry_type (entry_val (mkTxLookupEntry hash n i)) = Ok (enc_entry hash n i).
Proof. intros Hh Hn Hi. apply EncodeToBytes_spec; [by apply rt_wt, rt_entry|by apply len_enc_entry]. Qed.

Lemma GetTxLookupEntry_enc db h hash n i :
  is_hash hash -> is_u64 n -> is_u64 i -> Get db (key_of (KLookup h)) = enc_entry hash n i ->
  GetTxLookupEntry db h = Ok (mkTxLookupEntry hash n i).
Proof.
  intros Hh Hn Hi E. unfold GetTxLookupEntry. change (lookupKey h) with (key_of (KLookup h)). rewrite E.
  destruct (read_value_enc TxLookupEntry_type val_entry (entry_val (mkTxLookupEntry hash n i)) (mkTxLookupEntry hash n i)) as [_ R];
    [by apply rt_entry|done|by apply len_enc_entry|done|apply enc_list_nonempty|].
  unfold enc_entry. by rewrite R.
Qed.

(** The hashes of transactions, from their caches or computed. *)
Definition tx_hashes (txs : list Transaction) : list bytes := map (fun tx => fst (Transaction.Hash tx)) txs.

Lemma write_entries_spec hash n txs : forall i db,
  is_hash hash -> is_u64 n -> 0 <= i -> i + len txs <= 2 ^ 64 -> NoDup (tx_hashes txs) -> Forall (fun h => len h = 32) (tx_hashes txs) ->
  exists db', write_entries hash n i txs db = Ok db' /\
    (forall j h, tx_hashes txs !! j = Some h -> db' !! key_of (KLookup h) = Some (enc_entry hash n (i + Z.of_nat j))) /\
    (forall k, key_ok k -> (forall h, h ∈ tx_hashes txs -> k <> KLookup h) -> db' !! key_of k = db !! key_of k).
Proof.
  induction txs as [|tx txs IH]; intros i db Hh Hn Hi L ND F; cbn [write_entries].
  { exists db. split; [done|]. split; [done|]. done. }
  rewrite len_cons in L. pose proof (len_nonneg txs). cbn [tx_hashes map] in ND, F. apply list.NoDup_cons in ND as [Nin ND].
  apply Forall_cons_iff in F as [Lt F]. rewrite WriteEntry_eq by (done || (unfold is_u64; lia)). cbn [mbind outcome_bind].
  set (h0 := fst (Transaction.Hash tx)) in *. change (lookupKey h0) with (key_of (KLookup h0)).
  destruct (IH (i + 1) (Put (key_of (KLookup h0)) (enc_entry hash n i) db) Hh Hn ltac:(lia) ltac:(lia) ND F) as (db' & E & G & O).
  exists db'. split; [exact E|]. split.
  - intros [|j] h Hj.
    + injection Hj as <-. fold h0. rewrite O; [|done|by intros h Hin [= <-]]. rewrite lookup_Put by done.
      rewrite decide_True by done. do 2 f_equal. lia.
    + rewrite (G j h Hj). do 2 f_equal. lia.
  - intros k Ok' Nk. rewrite O; [|done|intros h Hin; apply Nk; by right]. rewrite lookup_Put by done.
    rewrite decide_False; [done|]. intros <-. by apply (Nk h0); [left|].
Qed.

Lemma WriteTxLookupEntries_spec b n db :
  is_hash (fst (Block_Hash b)) -> hd_Number (b_header b) = Some n -> is_u64 n -> len (b_transactions b) <= 2 ^ 64 ->
  NoDup (tx_hashes (b_transactions b)) -> Forall (fun h => len h = 32) (tx_hashes (b_transactions b)) ->
  exists db', WriteTxLookupEntries b db = Ok db' /\
    (forall j h, tx_hashes (b_transactions b) !! j = Some h -> db' !! key_of (KLookup h) = Some (enc_entry (fst (Block_Hash b)) n (Z.of_nat j))) /\
    (forall k, key_ok k -> (forall h, h ∈ tx_hashes (b_transactions b) -> k <> KLookup h) -> db' !! key_of k = db !! key_of k).
Proof.
  intros Hh En Hn L ND F. destruct (write_entries_spec (fst (Block_Hash b)) n (b_transactions b) 0 db Hh Hn ltac:(lia) L ND F) as (db' & E & G & O).
  exists db'. split; [|done]. unfold WriteTxLookupEntries, NumberU64, Uint64_of. rewrite En, big_Uint64_u64 by done.
  destruct (b_transactions b); [|exact E]. by injection E as <-.
Qed.

(** ** Theorems *)

Lemma WriteBlock_eq b n db :
  stored_header (b_header b) n -> body_ok (Block_Body b) -> fst (Block_Hash b) = Header_Hash (b_header b) ->
  let hash := Header_Hash (b_header b) in
  WriteBlock b db = Ok (Put (key_of (KHeader hash n)) (enc_header (b_header b)) (Put (key_of (KNumber hash)) (encodeBlockNumber n)
                          (Put (key_of (KBody hash n)) (enc_body (Block_Body b)) db))).
Proof.
  intros Hs Hb Eh hash. pose proof Hs as (Ho & _ & En & Hn). unfold WriteBlock, NumberU64, Uint64_of. rewrite En, big_Uint64_u64 by done.
  cbn [mbind outcome_bind]. rewrite Eh, WriteBody_eq by done. cbn [mbind outcome_bind]. unfold Block_Header.
  rewrite CopyHeader_ok by done. by rewrite (WriteHeader_eq _ n).
Qed.

(** C24. Different keys never meet: the keys of headers, bodies, total difficulties, receipts,
    positions, heads, bloom bits, preimages and trie nodes are told apart by their kind, their
    number and their hash, although they share prefixes and one database.  So writing or
    deleting what is stored under one key leaves what is read under every other one. *)
Theorem keys_injective k k' :
  key_ok k -> key_ok k' -> k <> k' ->
  key_of k <> key_of k' /\
  forall v db, Get (Put (key_of k) v db) (key_of k') = Get db (key_of k') /\ Get (Del (key_of k) db) (key_of k') = Get db (key_of k').
Proof.
  intros K K' N. split; [intros E; by apply N, key_of_inj|]. intros v db.
  split; apply Get_lookup; [rewrite lookup_Put|rewrite lookup_Del]; try done; by rewrite decide_False.
Qed.

(** Blocks are stored and found: after [WriteBlock] the block is read back with its header,
    uncles and transactions and with the consensus tries of its header, its number is found
    by its hash, and nothing but its header, body and number was touched; after
    [DeleteBlock] it is gone. *)
Theorem WriteBlock_GetBlock b n db :
  stored_header (b_header b) n -> body_ok (Block_Body b) -> fst (Block_Hash b) = Header_Hash (b_header b) ->
  let hash := Header_Hash (b_header b) in
  exists db', WriteBlock b db = Ok db' /\ GetBlockNumber db' hash = n /\
    GetBlock db' hash n = (pc ← getPocContextTrie db' (b_header b);
                           Ok (Some (mkBlock (b_header b) (b_uncles b) (map decoded_tx (b_transactions b)) None None pc))) /\
    (forall k, key_ok k -> k <> KHeader hash n -> k <> KNumber hash -> k <> KBody hash n -> Get db' (key_of k) = Get db (key_of k)) /\
    GetBlock (DeleteBlock hash n db') hash n = Ok None /\ GetBlockNumber (DeleteBlock hash n db') hash = missingNumber.
Proof.
  intros Hs Hb Eh hash. pose proof Hs as (Ho & _ & _ & Hn). pose proof (len_Header_Hash (b_header b)) as Lh. fold hash in Lh.
  assert (KO : key_ok (KHeader hash n) /\ key_ok (KNumber hash) /\ key_ok (KBody hash n) /\ key_ok (KTd hash n) /\ key_ok (KReceipts hash n))
    by done. destruct KO as (K1 & K2 & K3 & K4 & K5).
  eexists. split; [by apply WriteBlock_eq|]. split; [|split; [|split; [|split]]].
  - apply GetBlockNumber_enc; [done|]. by dbget.
  - unfold GetBlock. erewrite GetHeader_enc; [|exact Hs|by dbget]. cbn [mbind outcome_bind].
    erewrite GetBody_enc; [|exact Hb|by dbget]. cbn [mbind outcome_bind].
    unfold NewBlockWithHeader, WithBody, decoded_body. cbn [b_header b_uncles b_transactions b_hash b_size bd_Transactions bd_Uncles Block_Body].
    rewrite !CopyHeader_ok by (done || by rewrite CopyHeader_ok).
    replace (map CopyHeader (b_uncles b)) with (b_uncles b); [done|]. destruct Hb as (_ & Hu & _). cbn [Block_Body bd_Uncles] in Hu.
    clear -Hu. induction Hu as [|u us Hu F IH]; [done|]. cbn. by rewrite CopyHeader_ok, <- IH.
  - intros k Ok' N1 N2 N3. by dbget.
  - unfold GetBlock, DeleteBlock, DeleteTd, DeleteBody, DeleteHeader, DeleteBlockReceipts. rewrite GetHeader_none; [done|].
    change (tdKey hash n) with (key_of (KTd hash n)). change (blockBodyKey hash n) with (key_of (KBody hash n)).
    change (headerKey hash n) with (key_of (KHeader hash n)). by dbget.
  - apply GetBlockNumber_none. unfold DeleteBlock, DeleteTd, DeleteBody, DeleteHeader, DeleteBlockReceipts.
    change (tdKey hash n) with (key_of (KTd hash n)). change (blockBodyKey hash n) with (key_of (KBody hash n)).
    change (headerKey hash n) with (key_of (KHeader hash n)). change (numberKey hash) with (key_of (KNumber hash)).
    by dbget.
Qed.

(** C23. Transactions and receipts are found by hash: after a block, its receipts and its
    positions are written, every transaction of the block is found under its hash with the
    hash and number of the block and its index, and so is its receipt. *)
Theorem transactions_found b n rs db :
  stored_header (b_header b) n -> body_ok (Block_Body b) -> fst (Block_Hash b) = Header_Hash (b_header b) ->
  Header_Hash (b_header b) <> zeros HashLength -> receipts_ok rs -> length rs = length (b_transactions b) ->
  len (b_transactions b) < 2 ^ 63 -> NoDup (tx_hashes (b_transactions b)) -> Forall (fun h => len h = 32) (tx_hashes (b_transactions b)) ->
  let hash := Header_Hash (b_header b) in
  exists db1 db2 db3, WriteBlock b db = Ok db1 /\ WriteBlockReceipts hash n rs db1 = Ok db2 /\ WriteTxLookupEntries b db2 = Ok db3 /\
    forall i tx r, b_transactions b !! i = Some tx -> rs !! i = Some r ->
      let h := fst (Transaction.Hash tx) in let e := mkTxLookupEntry hash n (Z.of_nat i) in
      GetTransaction db3 h = Ok (Some (decoded_tx tx, e)) /\ GetReceipt db3 h = Ok (Some (stored_receipt r, e)).
Proof.
  intros Hs Hb Eh NZ Hr Lr Lt ND F hash. pose proof Hs as (_ & _ & En & Hn).
  assert (Hh : is_hash hash) by apply keccak256_hash. pose proof (len_Header_Hash (b_header b)) as Lh. fold hash in Lh.
  assert (K1 : key_ok (KHeader hash n)) by done. assert (K2 : key_ok (KNumber hash)) by done.
  assert (K3 : key_ok (KBody hash n)) by done. assert (K4 : key_ok (KReceipts hash n)) by done.
  eexists _, _. rewrite (WriteBlock_eq b n) by done.
  edestruct (WriteTxLookupEntries_spec b n) as (db3 & E & G & O); [by rewrite Eh|done|done|lia|done|done|].
  exists db3. split; [reflexivity|]. split; [by apply WriteBlockReceipts_eq|]. split; [exact E|].
  intros i tx r Hi Hri h e. assert (Hin : tx_hashes (b_transactions b) !! i = Some h) by (unfold tx_hashes; by rewrite list_lookup_fmap, Hi).
  pose proof (lookup_lt_Some _ _ _ Hi) as Li. assert (Ui : is_u64 (Z.of_nat i)) by (unfold is_u64, len in *; lia).
  specialize (G i h Hin). rewrite Eh in G. assert (Gl : Get db3 (key_of (KLookup h)) = enc_entry hash n (Z.of_nat i)) by (unfold Get; by rewrite G).
  assert (At : forall A (l : list A) a, l !! i = Some a -> length l = length (b_transactions b) -> at_index l (Z.of_nat i) = Ok (Some a)).
  { intros A l a Ha Ll. unfold at_index. unfold len in *. rewrite i64_small by (unfold is_i64; lia). rewrite Ll.
    replace (_ <=? _) with false by (symmetry; apply Z.leb_gt; lia). by rewrite Nat2Z.id, Ha. }
  split.
  - unfold GetTransaction. rewrite (GetTxLookupEntry_enc db3 h hash n (Z.of_nat i)) by done. cbn [mbind outcome_bind le_BlockHash le_BlockIndex le_Index].
    rewrite bool_decide_false by done. cbn [negb].
    erewrite GetBody_enc; [|exact Hb|erewrite Get_lookup by (by apply O); by dbget]. cbn [mbind outcome_bind decoded_body bd_Transactions Block_Body].
    rewrite (At _ _ (decoded_tx tx)); [done|by rewrite list_lookup_fmap, Hi|by rewrite length_map].
  - unfold GetReceipt. rewrite (GetTxLookupEntry_enc db3 h hash n (Z.of_nat i)) by done. cbn [mbind outcome_bind le_BlockHash le_BlockIndex le_Index].
    rewrite bool_decide_false by done. cbn [negb].
    erewrite GetBlockReceipts_enc; [|exact Hr|erewrite Get_lookup by (by apply O); by dbget]. cbn [mbind outcome_bind default].
    unfold id. rewrite (At _ _ (stored_receipt r)); [done|by rewrite list_lookup_fmap, Hri|by rewrite length_map].
Qed.
End Stored.

(** ** Concrete instances *)

(** The key of a total difficulty extends the one of the header, and the key of a canonical
    number starts like both. *)
Lemma keys_injective_witness :
  let h := repeat 7 32 in
  key_of (KHeader h 3) <> key_of (KTd h 3) /\ key_of (KCanonical 3) <> key_of (KHeader h 3) /\
  (forall v db, Get (Put (key_of (KBody h 3)) v db) (key_of (KReceipts h 3)) = Get db (key_of (KReceipts h 3))).
Proof.
  intros h. split; [|split].
  - apply (keys_injective (KHeader h 3) (KTd h 3)); [by vm_compute|by vm_compute|discriminate].
  - apply (keys_injective (KCanonical 3) (KHeader h 3)); [by vm_compute|by vm_compute|discriminate].
  - intros v db. apply (keys_injective (KBody h 3) (KReceipts h 3)); [by vm_compute|by vm_compute|discriminate].
Defined.

Lemma sample_stored : stored_header sample_header 4.
Proof. split; [apply sample_header_ok|]. split; [by vm_compute|]. split; [done|by vm_compute]. Qed.

Lemma sample_body_ok : body_ok (Block_Body sample_block).
Proof.
  split; [constructor; [apply sample_tx_ok|constructor]|]. split; [constructor; [apply sample_header_ok|constructor]|]. by vm_compute.
Qed.

Lemma WriteBlock_GetBlock_witness :
  let hash := @Header_Hash TrieMap.sample_hasher sample_header in
  exists db, @WriteBlock TrieMap.sample_hasher sample_block ∅ = Ok db /\ GetBlockNumber db hash = 4.
Proof.
  intros hash. destruct (@WriteBlock_GetBlock TrieMap.sample_hasher sample_block 4 ∅ sample_stored sample_body_ok eq_refl)
    as (db & E & N & _). exists db. split; [exact E|exact N].
Defined.

Lemma transactions_found_witness :
  exists db tx e, @GetTransaction db (fst (@Transaction.Hash TrieMap.sample_hasher sample_tx)) = Ok (Some (tx, e)) /\ tx_data tx = tx_data sample_tx.
Proof.
  destruct (@transactions_found TrieMap.sample_hasher sample_block 4 [sample_receipt] ∅ sample_stored sample_body_ok eq_refl)
    as (db1 & db2 & db3 & _ & _ & _ & H).
  - by vm_compute.
  - split; [constructor; [apply sample_receipt_ok|constructor]|by vm_compute].
  - reflexivity.
  - by vm_compute.
  - apply list.NoDup_singleton.
  - constructor; [apply len_rlpHash|constructor].
  - destruct (H O sample_tx sample_receipt eq_refl eq_refl) as [G _]. eexists db3, _, _. split; [exact G|reflexivity].
Defined.
