(* ===== verification/GoMonad.v ===== *)
(** * Methods with a receiver

    A Go method that changes its receiver and returns [(T, error)] changes the receiver also
    when it returns an error.  [go S E A] is a computation over a receiver of type [S] with
    errors [E]: the new receiver and an error or a result, or a panic, or not enough fuel. *)

From S2P Require Import Prelude.

Definition go (S E A : Type) : Type := S -> outcome unit (S * (E + A)).

#[export] Instance go_ret {S E} : MRet (go S E) := fun A a s => Ok (s, inr a).
#[export] Instance go_bind {S E} : MBind (go S E) := fun A B f m s =>
  match m s with
  | Ok (s, inr a) => f a s
  | Ok (s, inl e) => Ok (s, inl e)
  | Err e => Err e
  | Panic => Panic
  | OutOfFuel => OutOfFuel
  end.

Definition throw {S E A} (e : E) : go S E A := fun s => Ok (s, inl e).
Definition go_panic {S E A} : go S E A := fun _ => Panic.
Definition go_diverge {S E A} : go S E A := fun _ => OutOfFuel.
Definition gets {S E A} (f : S -> A) : go S E A := fun s => Ok (s, inr (f s)).
Definition modify {S E} (f : S -> S) : go S E unit := fun s => Ok (f s, inr tt).

(** A nil pointer is dereferenced. *)
Definition deref {S E A} (o : option A) : go S E A := match o with Some a => mret a | None => go_panic end.

(** A call on a part of the receiver; one that fails leaves it as it is. *)
Definition on_part {S T E E' A} (get : S -> T) (put : T -> S -> S) (wrap : E' -> E) (f : T -> outcome E' (A * T)) : go S E A := fun s =>
  match f (get s) with
  | Ok (a, t) => Ok (put t s, inr a)
  | Err e => Ok (s, inl (wrap e))
  | Panic => Panic
  | OutOfFuel => OutOfFuel
  end.

(** A call of a method of a part of the receiver. *)
Definition on_go {S T E E' A} (get : S -> T) (put : T -> S -> S) (wrap : E' -> E) (m : go T E' A) : go S E A := fun s =>
  match m (get s) with
  | Ok (t, inr a) => Ok (put t s, inr a)
  | Ok (t, inl e) => Ok (put t s, inl (wrap e))
  | Err e => Err e
  | Panic => Panic
  | OutOfFuel => OutOfFuel
  end.

(** The error of a call as a value. *)
Definition catch {S E A} (m : go S E A) : go S E (E + A) := fun s => '(s, r) ← m s; Ok (s, inr r).

(** A function that fails without a receiver. *)
Definition of_outcome {S E E' A} (wrap : E' -> E) (o : outcome E' A) : go S E A := fun s =>
  match o with
  | Ok a => Ok (s, inr a)
  | Err e => Ok (s, inl (wrap e))
  | Panic => Panic
  | OutOfFuel => OutOfFuel
  end.

(** ** Running a computation step by step *)

Lemma go_bind_ok {S E A B} (m : go S E A) (k : A -> go S E B) s s' a : m s = Ok (s', inr a) -> (m ≫= k) s = k a s'.
Proof. intros H. unfold mbind, go_bind. by rewrite H. Qed.

Lemma go_bind_err {S E A B} (m : go S E A) (k : A -> go S E B) s s' e : m s = Ok (s', inl e) -> (m ≫= k) s = Ok (s', inl e).
Proof. intros H. unfold mbind, go_bind. by rewrite H. Qed.

(** Runs the first step of a computation, whose result is given by [H] or by evaluation. *)
Tactic Notation "go_step" constr(H) := rewrite (go_bind_ok _ _ _ _ _ H); cbn beta iota.
Tactic Notation "go_step" := erewrite go_bind_ok by reflexivity; cbn beta iota.
