(* ===== verification/HeaderChain.v ===== *)
(** * Package [core]: the header chain

    [src/pkg/core/headerchain.go]: the tree of headers in the database with the canonical
    chain in it, its head, and the caches in front of it; insertion of headers with the
    switch to the heaviest chain, and rewinding.  [FindCommonAncestor] is from
    [database_util.go] and the banned hashes from [blocks.go]. *)

From S2P Require Import Prelude Rlp RlpStream TrieEncoding Common Codec Trie PocContext StateDB Signature Transaction Block ChainDb GoMonad.

(** ** Caches *)

(** The LRU cache of a library: what it returns for a key was added for that key, and it
    contains a key only if something was added for it.  [lru_all P c] says that all entries
    of [c] satisfy [P]; entries are evicted at any time. *)
Class Lru := {
  lru : Type -> Type;
  lru_New : forall V, Z -> lru V;
  lru_Get : forall V, bytes -> lru V -> option V * lru V;
  lru_Contains : forall V, bytes -> lru V -> bool;
  lru_Keys : forall V, lru V -> list bytes;
  lru_Peek : forall V, bytes -> lru V -> option V;
  lru_Add : forall V, bytes -> V -> lru V -> lru V;
  lru_Remove : forall V, bytes -> lru V -> lru V;
  lru_Purge : forall V, lru V -> lru V;
  lru_all : forall V, (bytes -> V -> Prop) -> lru V -> Prop;
  lru_New_all : forall V P n, lru_all V P (lru_New V n);
  lru_Get_all : forall V P k c, lru_all V P c ->
    lru_all V P (snd (lru_Get V k c)) /\ forall v, fst (lru_Get V k c) = Some v -> P k v;
  lru_Peek_all : forall V P k c v, lru_all V P c -> lru_Peek V k c = Some v -> P k v;
  lru_Contains_all : forall V P k c, lru_all V P c -> lru_Contains V k c = true -> exists v, P k v;
  lru_Add_all : forall V P k v c, lru_all V P c -> P k v -> lru_all V P (lru_Add V k v c);
  lru_Remove_all : forall V P k c, lru_all V P c -> lru_all V P (lru_Remove V k c);
  lru_Purge_all : forall V P c, lru_all V P (lru_Purge V c);
  lru_all_impl : forall V (P Q : bytes -> V -> Prop) c, (forall k v, P k v -> Q k v) -> lru_all V P c -> lru_all V Q c
}.
Arguments lru_New {_ V} _.
Arguments lru_Get {_ V} _ _.
Arguments lru_Contains {_ V} _ _.
Arguments lru_Keys {_ V} _.
Arguments lru_Peek {_ V} _ _.
Arguments lru_Add {_ V} _ _ _.
Arguments lru_Remove {_ V} _ _.
Arguments lru_Purge {_ V} _.
Arguments lru_all {_ V} _ _.

(** ** The header chain *)

Inductive hc_error :=
| ErrUnknownAncestor
| ErrNoGenesis
| ErrBlacklistedHash
| ErrAborted
| NonContiguous (i : Z)
| VerifyFailed (e : option Z).

(** [WriteStatus] *)
Inductive WriteStatus := NonStatTy | CanonStatTy | SideStatTy.

Definition BadHashes : list bytes := Eval vm_compute in
  [be_fixed 32 0x05bef30ef572270f654746da22639a7a0c97dd97a7050b9e252391996aaeb689;
   be_fixed 32 0x7d05d08cbc596a2e5e4f13b80a743e53e09221b5323c3a61946b20873e58583f].

Section HeaderChain.
Context {HS : Hasher} {LC : Lru}.

Definition headerCacheLimit : Z := 512.
Definition tdCacheLimit : Z := 1024.
Definition numberCacheLimit : Z := 2048.

Record HeaderChain := mkHeaderChain {
  chainDb : database;
  genesisHeader : option Header;
  currentHeader : option Header;
  currentHeaderHash : bytes;
  headerCache : lru Header;
  tdCache : lru Z;
  numberCache : lru Z
}.

Definition set_db (db : database) (s : HeaderChain) : HeaderChain :=
  mkHeaderChain db (genesisHeader s) (currentHeader s) (currentHeaderHash s) (headerCache s) (tdCache s) (numberCache s).
Definition set_head (h : option Header) (hash : bytes) (s : HeaderChain) : HeaderChain :=
  mkHeaderChain (chainDb s) (genesisHeader s) h hash (headerCache s) (tdCache s) (numberCache s).
Definition set_caches (hc : lru Header) (tc nc : lru Z) (s : HeaderChain) : HeaderChain :=
  mkHeaderChain (chainDb s) (genesisHeader s) (currentHeader s) (currentHeaderHash s) hc tc nc.
Definition set_headerCache (c : lru Header) (s : HeaderChain) : HeaderChain := set_caches c (tdCache s) (numberCache s) s.
Definition set_tdCache (c : lru Z) (s : HeaderChain) : HeaderChain := set_caches (headerCache s) c (numberCache s) s.
Definition set_numberCache (c : lru Z) (s : HeaderChain) : HeaderChain := set_caches (headerCache s) (tdCache s) c s.
Definition SetGenesis (head : Header) (s : HeaderChain) : HeaderChain :=
  mkHeaderChain (chainDb s) (Some head) (currentHeader s) (currentHeaderHash s) (headerCache s) (tdCache s) (numberCache s).

Abbreviation HM := (go HeaderChain hc_error).

(** Reads of the database, and writes of it; an error of a write ends the process. *)
Definition read {A} (f : database -> outcome unit A) : HM A := fun s => a ← f (chainDb s); Ok (s, inr a).
Definition write_db (f : database -> database) : HM unit := modify (fun s => set_db (f (chainDb s)) s).
Definition write_crit (f : database -> outcome rlp_error database) : HM unit := fun s =>
  match f (chainDb s) with
  | Ok db => Ok (set_db db s, inr tt)
  | OutOfFuel => OutOfFuel
  | _ => Panic
  end.

Definition header_number (h : Header) : HM Z := n ← deref (hd_Number h); mret (big_Uint64 n).

(** [x - 1] of a [uint64]. *)
Definition pred64 (n : Z) : Z := u64 (n - 1).

(** ** Reading *)

Definition hc_GetBlockNumber (hash : bytes) : HM Z :=
  c ← gets numberCache;
  let '(cached, c) := lru_Get hash c in
  modify (set_numberCache c);;
  match cached with
  | Some n => mret n
  | None =>
    number ← gets (fun s => GetBlockNumber (chainDb s) hash);
    (if number =? missingNumber then mret tt else modify (fun s => set_numberCache (lru_Add hash number (numberCache s)) s));;
    mret number
  end.

Definition hc_GetTd (hash : bytes) (number : Z) : HM (option Z) :=
  c ← gets tdCache;
  let '(cached, c) := lru_Get hash c in
  modify (set_tdCache c);;
  match cached with
  | Some td => mret (Some td)
  | None =>
    td ← read (fun db => GetTd db hash number);
    match td with
    | None => mret None
    | Some td => modify (fun s => set_tdCache (lru_Add hash td (tdCache s)) s);; mret (Some td)
    end
  end.

Definition hc_GetTdByHash (hash : bytes) : HM (option Z) := n ← hc_GetBlockNumber hash; hc_GetTd hash n.

Definition hc_WriteTd (hash : bytes) (number td : Z) : HM unit :=
  write_crit (WriteTd hash number td);;
  modify (fun s => set_tdCache (lru_Add hash td (tdCache s)) s).

Definition hc_GetHeader (hash : bytes) (number : Z) : HM (option Header) :=
  c ← gets headerCache;
  let '(cached, c) := lru_Get hash c in
  modify (set_headerCache c);;
  match cached with
  | Some h => mret (Some h)
  | None =>
    h ← read (fun db => GetHeader db hash number);
    match h with
    | None => mret None
    | Some h => modify (fun s => set_headerCache (lru_Add hash h (headerCache s)) s);; mret (Some h)
    end
  end.

Definition hc_GetHeaderByHash (hash : bytes) : HM (option Header) := n ← hc_GetBlockNumber hash; hc_GetHeader hash n.

Definition hc_HasHeader (hash : bytes) (number : Z) : HM bool :=
  gets (fun s => lru_Contains hash (numberCache s) || lru_Contains hash (headerCache s) || Has (chainDb s) (headerKey hash number)).

Definition hc_GetHeaderByNumber (number : Z) : HM (option Header) :=
  hash ← gets (fun s => GetCanonicalHash (chainDb s) number);
  if bool_decide (hash = zeros HashLength) then mret None else hc_GetHeader hash number.

Definition CurrentHeader (s : HeaderChain) : option Header := currentHeader s.

(** The hash of a pointer; a nil one is encoded as the empty list. *)
Definition ptr_Hash (h : option Header) : bytes := match h with Some h => Header_Hash h | None => keccak256 [0xC0] end.

Definition SetCurrentHeader (head : option Header) : HM unit :=
  write_db (WriteHeadHeaderHash (ptr_Hash head));;
  modify (set_head head (ptr_Hash head)).

(** The loop of [GetBlockHashesFromHash], [max] hashes at most. *)
Fixpoint hashes_loop (max : nat) (header : Header) : HM (list bytes) :=
  match max with
  | O => mret []
  | S max =>
    let next := hd_ParentHash header in
    n ← header_number header;
    h ← hc_GetHeader next (pred64 n);
    match h with
    | None => mret []
    | Some header =>
      z ← deref (hd_Number header);
      if z =? 0 then mret [next]
      else rest ← hashes_loop max header; mret (next :: rest)
    end
  end.

Definition GetBlockHashesFromHash (hash : bytes) (max : nat) : HM (list bytes) :=
  h ← hc_GetHeaderByHash hash;
  match h with None => mret [] | Some header => hashes_loop max header end.

(** ** Writing *)

(** The assignments above the new head are deleted up to the first gap. *)
Fixpoint delete_above (fuel : nat) (i : Z) : HM unit :=
  match fuel with
  | O => go_diverge
  | S fuel =>
    hash ← gets (fun s => GetCanonicalHash (chainDb s) i);
    if bool_decide (hash = zeros HashLength) then mret tt
    else write_db (DeleteCanonicalHash i);; delete_above fuel (u64 (i + 1))
  end.

(** The stale assignments below it are overwritten; a missing header is dereferenced. *)
Fixpoint overwrite_stale (fuel : nat) (headHash : bytes) (headNumber : Z) (headHeader : option Header) : HM unit :=
  match fuel with
  | O => go_diverge
  | S fuel =>
    hash ← gets (fun s => GetCanonicalHash (chainDb s) headNumber);
    if bool_decide (hash = headHash) then mret tt
    else
      write_db (WriteCanonicalHash headHash headNumber);;
      header ← deref headHeader;
      n ← header_number header;
      let headHash := hd_ParentHash header in
      let headNumber := pred64 n in
      headHeader ← hc_GetHeader headHash headNumber;
      overwrite_stale fuel headHash headNumber headHeader
  end.

(** The header becomes the head of the canonical chain. *)
Definition become_head (fuel : nat) (header : Header) (number : Z) : HM unit :=
  let hash := Header_Hash header in
  delete_above fuel (u64 (number + 1));;
  headHeader ← hc_GetHeader (hd_ParentHash header) (pred64 number);
  overwrite_stale fuel (hd_ParentHash header) (pred64 number) headHeader;;
  write_db (WriteCanonicalHash hash number);;
  write_db (WriteHeadHeaderHash hash);;
  modify (set_head (Some (CopyHeader header)) hash).

(** [coin] is the outcome of [mrand.Float64() < 0.5]. *)
Definition hc_WriteHeader (fuel : nat) (coin : bool) (header : Header) : HM WriteStatus :=
  let hash := Header_Hash header in
  number ← header_number header;
  p ← hc_GetTd (hd_ParentHash header) (pred64 number);
  match p with
  | None => throw ErrUnknownAncestor
  | Some ptd =>
    current ← gets currentHeader;
    current ← deref current;
    cn ← header_number current;
    ch ← gets currentHeaderHash;
    l ← hc_GetTd ch cn;
    d ← deref (hd_Difficulty header);
    let externTd := d + ptd in
    hc_WriteTd hash number externTd;;
    write_crit (WriteHeader header);;
    localTd ← deref l;
    status ←
      (if (localTd <? externTd) || ((externTd =? localTd) && coin) then
         become_head fuel header number;;
         mret CanonStatTy
       else mret SideStatTy);
    modify (fun s => set_headerCache (lru_Add hash header (headerCache s)) s);;
    modify (fun s => set_numberCache (lru_Add hash number (numberCache s)) s);;
    mret status
  end.

(** The import loop with [writeHeader]; [interrupt] tells of which headers the import finds
    [procInterrupt] set. *)
Fixpoint insert_headers (fuel : nat) (interrupt coins : nat -> bool) (i : nat) (chain : list Header) : HM unit :=
  match chain with
  | [] => mret tt
  | header :: chain =>
    if interrupt i then throw ErrAborted
    else
      n ← header_number header;
      known ← hc_HasHeader (Header_Hash header) n;
      (if (known : bool) then mret tt else hc_WriteHeader fuel (coins i) header;; mret tt);;
      insert_headers fuel interrupt coins (S i) chain
  end.

(** The report at the end takes the last header of the chain. *)
Definition hc_InsertHeaderChain (fuel : nat) (interrupt coins : nat -> bool) (chain : list Header) : HM unit :=
  insert_headers fuel interrupt coins O chain;;
  match chain with [] => go_panic | _ => mret tt end.

(** ** Validation of a batch *)

Definition linked_to (prev h : Header) : HM bool :=
  n ← header_number h;
  p ← header_number prev;
  mret ((n =? u64 (p + 1)) && bool_decide (hd_ParentHash h = Header_Hash prev)).

Fixpoint contiguous (i : Z) (prev : Header) (chain : list Header) : HM unit :=
  match chain with
  | [] => mret tt
  | h :: chain =>
    ok ← linked_to prev h;
    if (ok : bool) then contiguous (i + 1) h chain else throw (NonContiguous i)
  end.

(** The headers whose seal is verified: one of every [checkFreq], at random, and the last. *)
Definition pick_seals (rnd : nat -> Z) (checkFreq : Z) (n : nat) : list bool :=
  let picked := map (fun i => Z.min (Z.of_nat i * checkFreq + rnd i) (Z.of_nat n - 1)) (seq 0 (Z.to_nat (Z.of_nat n / checkFreq))) in
  map (fun j => bool_decide (Z.of_nat j ∈ picked) || (S j =? n)%nat) (seq 0 n).

Fixpoint verdicts (interrupt : nat -> bool) (i : nat) (chain : list Header) (results : list (option Z)) : HM unit :=
  match chain, results with
  | [], _ => mret tt
  | h :: chain, r :: results =>
    if interrupt i then throw ErrAborted
    else if bool_decide (Header_Hash h ∈ BadHashes) then throw ErrBlacklistedHash
    else match r with
         | Some e => throw (VerifyFailed (Some e))
         | None => verdicts interrupt (S i) chain results
         end
  | _ :: _, [] => go_diverge
  end.

(** [rnd i] is the [i]-th [rand.Intn(checkFreq)]; [verify] gives the results of the engine. *)
Definition ValidateHeaderChain (rnd : nat -> Z) (interrupt : nat -> bool) (verify : list Header -> list bool -> list (option Z))
    (chain : list Header) (checkFreq : Z) : HM unit :=
  match chain with
  | [] => go_panic
  | h :: rest =>
    contiguous 1 h rest;;
    if checkFreq =? 0 then go_panic
    else verdicts interrupt O chain (verify chain (pick_seals rnd checkFreq (length chain)))
  end.

(** ** Rewinding *)

Fixpoint rewind (fuel : nat) (head : Z) (delFn : bytes -> Z -> database -> database) : HM unit :=
  match fuel with
  | O => go_diverge
  | S fuel =>
    current ← gets currentHeader;
    match current with
    | None => mret tt
    | Some h =>
      num ← header_number h;
      if num <=? head then mret tt
      else
        let hash := Header_Hash h in
        write_db (delFn hash num);;
        write_db (DeleteHeader hash num);;
        write_db (DeleteTd hash num);;
        p ← hc_GetHeader (hd_ParentHash h) (pred64 num);
        modify (fun s => set_head p (currentHeaderHash s) s);;
        rewind fuel head delFn
    end
  end.

(** Numbers [head + k] down to [head + 1]. *)
Fixpoint delete_numbers (head : Z) (k : nat) : HM unit :=
  match k with
  | O => mret tt
  | S k => write_db (DeleteCanonicalHash (head + Z.of_nat (S k)));; delete_numbers head k
  end.

Definition hc_SetHead (fuel : nat) (head : Z) (delFn : bytes -> Z -> database -> database) : HM unit :=
  current ← gets currentHeader;
  height ← (match current with Some h => header_number h | None => mret 0 end);
  rewind fuel head delFn;;
  delete_numbers head (Z.to_nat (height - head));;
  modify (fun s => set_caches (lru_Purge (headerCache s)) (lru_Purge (tdCache s)) (lru_Purge (numberCache s)) s);;
  current ← gets currentHeader;
  genesis ← gets genesisHeader;
  let h := match current with Some h => Some h | None => genesis end in
  modify (set_head h (ptr_Hash h));;
  write_db (WriteHeadHeaderHash (ptr_Hash h)).

(** ** Opening *)

Definition NewHeaderChain (db : database) : outcome unit (hc_error + HeaderChain) :=
  let s := mkHeaderChain db None None (zeros HashLength) (lru_New headerCacheLimit) (lru_New tdCacheLimit) (lru_New numberCacheLimit) in
  '(s, g) ← hc_GetHeaderByNumber 0 s;
  match g with
  | inl e => Ok (inl e)
  | inr None => Ok (inl ErrNoGenesis)
  | inr (Some g) =>
    let s := SetGenesis g (set_head (Some g) (Header_Hash g) s) in
    let head := GetHeadBlockHash db in
    if bool_decide (head = zeros HashLength) then Ok (inr s)
    else
      '(s, h) ← hc_GetHeaderByHash head s;
      match h with
      | inr (Some h) => Ok (inr (set_head (Some h) (Header_Hash h) s))
      | inr None => Ok (inr s)
      | inl e => Ok (inl e)
      end
  end.

(** ** The common ancestor of two headers *)

Definition num64 (h : Header) : outcome unit Z := match hd_Number h with Some z => Ok (big_Uint64 z) | None => Panic end.
Definition parent_in (db : database) (h : Header) : outcome unit (option Header) :=
  n ← num64 h; ChainDb.GetHeader db (hd_ParentHash h) (pred64 n).

(** The two loops that bring one header down to the number of the other. *)
Fixpoint descend (fuel : nat) (db : database) (a : Header) (bn : Z) : outcome unit (option Header) :=
  match fuel with
  | O => OutOfFuel
  | S fuel =>
    an ← num64 a;
    if bn <? an then
      p ← parent_in db a;
      match p with None => Ok None | Some a => descend fuel db a bn end
    else Ok (Some a)
  end.

(** The loop that takes both down until they meet. *)
Fixpoint meet (fuel : nat) (db : database) (a b : Header) : outcome unit (option Header) :=
  match fuel with
  | O => OutOfFuel
  | S fuel =>
    if bool_decide (Header_Hash a = Header_Hash b) then Ok (Some a)
    else
      pa ← parent_in db a;
      match pa with
      | None => Ok None
      | Some a =>
        pb ← parent_in db b;
        match pb with None => Ok None | Some b => meet fuel db a b end
      end
  end.

Definition FindCommonAncestor (fuel : nat) (db : database) (a b : Header) : outcome unit (option Header) :=
  bn ← num64 b;
  a ← descend fuel db a bn;
  match a with
  | None => Ok None
  | Some a =>
    an ← num64 a;
    b ← descend fuel db b an;
    match b with None => Ok None | Some b => meet fuel db a b end
  end.

(** ** The tree of headers *)

Definition num (h : Header) : Z := default 0 (hd_Number h).
Definition height (h : Header) : nat := Z.to_nat (num h).
Definition diff (h : Header) : Z := default 0 (hd_Difficulty h).

(** The headers that are stored, by hash, and their total difficulties. *)
Abbreviation headers := (gmap bytes Header).
Abbreviation difficulties := (gmap bytes Z).

Record tree_ok (g : bytes) (hs : headers) (tds : difficulties) : Prop := mkTreeOk {
  t_hash : forall h hdr, hs !! h = Some hdr ->
    Header_Hash hdr = h /\ stored_header hdr (num hdr) /\ num hdr + 1 < 2 ^ 64 /\ h <> zeros HashLength;
  t_genesis : exists hdr, hs !! g = Some hdr /\ num hdr = 0;
  t_root : forall h hdr, hs !! h = Some hdr -> num hdr = 0 -> h = g;
  t_parent : forall h hdr, hs !! h = Some hdr -> num hdr <> 0 ->
    exists p, hs !! hd_ParentHash hdr = Some p /\ num hdr = num p + 1;
  t_dom : forall h, is_Some (hs !! h) <-> is_Some (tds !! h);
  t_td : forall h t, tds !! h = Some t -> td_ok t;
  t_sum : forall h hdr t, hs !! h = Some hdr -> num hdr <> 0 -> tds !! h = Some t ->
    exists tp, tds !! hd_ParentHash hdr = Some tp /\ t = diff hdr + tp
}.

(** The hashes from height zero to a header. *)
Definition parent_of (hs : headers) (h : bytes) : bytes := match hs !! h with Some hdr => hd_ParentHash hdr | None => [] end.
Fixpoint ancestry (hs : headers) (n : nat) (h : bytes) : list bytes :=
  match n with O => [h] | S n => ancestry hs n (parent_of hs h) ++ [h] end.

Lemma length_ancestry hs n h : length (ancestry hs n h) = S n.
Proof. revert h. induction n as [|n IH]; intros h; [done|]. cbn. rewrite length_app, IH. cbn. lia. Qed.

Lemma ancestry_last hs n h : ancestry hs n h !! n = Some h.
Proof.
  destruct n as [|n]; [done|]. cbn [ancestry]. rewrite lookup_app_r by (rewrite length_ancestry; lia).
  rewrite length_ancestry, Nat.sub_diag. done.
Qed.

Lemma ancestry_take hs n : forall h j h', (j <= n)%nat -> ancestry hs n h !! j = Some h' -> take (S j) (ancestry hs n h) = ancestry hs j h'.
Proof.
  induction n as [|n IH]; intros h j h' L E.
  { assert (j = 0)%nat as -> by lia. cbn in E. by injection E as ->. }
  destruct (decide (j = S n)) as [->|N].
  - rewrite ancestry_last in E. injection E as <-. rewrite take_ge by (rewrite length_ancestry; lia). done.
  - cbn [ancestry] in *. rewrite lookup_app_l in E by (rewrite length_ancestry; lia).
    rewrite take_app_le by (rewrite length_ancestry; lia). by apply IH; [lia|].
Qed.

(** Equal at one height, equal below it. *)
Lemma ancestry_agree hs n h m h' j x :
  (j <= n)%nat -> (j <= m)%nat -> ancestry hs n h !! j = Some x -> ancestry hs m h' !! j = Some x ->
  forall i, (i <= j)%nat -> ancestry hs n h !! i = ancestry hs m h' !! i.
Proof.
  intros Ln Lm En Em i Hi. rewrite <- (lookup_take_lt _ (S j)), (ancestry_take hs n h j x Ln En) by lia.
  rewrite <- (ancestry_take hs m h' j x Lm Em), lookup_take_lt by lia. done.
Qed.

Section Tree.
Context (g : bytes) (hs : headers) (tds : difficulties) (T : tree_ok g hs tds).

Lemma num_nonneg h hdr : hs !! h = Some hdr -> 0 <= num hdr.
Proof. intros H. apply (t_hash _ _ _ T) in H as (_ & (_ & _ & _ & [U _]) & _). exact U. Qed.

Lemma ancestry_stored h hdr : hs !! h = Some hdr ->
  forall j h', ancestry hs (height hdr) h !! j = Some h' -> exists hdr', hs !! h' = Some hdr' /\ height hdr' = j.
Proof.
  remember (height hdr) as n eqn:En. revert h hdr En. induction n as [|n IH]; intros h hdr En H j h' E.
  - destruct j; [|done]. injection E as <-. exists hdr. by rewrite <- En.
  - pose proof (num_nonneg h hdr H). destruct (t_parent _ _ _ T h hdr H) as (p & Hp & Np); [unfold height in En; lia|].
    pose proof (num_nonneg _ p Hp). cbn [ancestry] in E. unfold parent_of in E. rewrite H in E. destruct (decide (j = S n)) as [->|N].
    + rewrite lookup_app_r in E by (rewrite length_ancestry; lia). rewrite length_ancestry, Nat.sub_diag in E. injection E as <-. by exists hdr.
    + pose proof (lookup_lt_Some _ _ _ E) as L. rewrite length_app, length_ancestry in L. cbn in L.
      rewrite lookup_app_l in E by (rewrite length_ancestry; lia).
      apply (IH (hd_ParentHash hdr) p); [unfold height in *; lia|done|done].
Qed.

Lemma ancestry_root h hdr : hs !! h = Some hdr -> ancestry hs (height hdr) h !! O = Some g.
Proof.
  intros H. destruct (lookup_lt_is_Some_2 (ancestry hs (height hdr) h) O) as [x Hx]; [rewrite length_ancestry; lia|].
  destruct (ancestry_stored h hdr H O x Hx) as (hdr' & Hh & N). rewrite Hx. f_equal.
  apply (t_root _ _ _ T x hdr'); [done|]. pose proof (num_nonneg x hdr' Hh). unfold height in N. lia.
Qed.

(** A new leaf does not change who the ancestors are. *)
Lemma ancestry_insert h hdr x xd :
  hs !! h = Some hdr -> (hs !! x = None \/ hs !! x = Some xd) ->
  ancestry (<[x := xd]> hs) (height hdr) h = ancestry hs (height hdr) h.
Proof.
  intros H [N|E]; [|by rewrite (fin_maps.insert_id hs x xd)]. remember (height hdr) as n eqn:En. revert h hdr En H.
  induction n as [|n IH]; intros h hdr En H; [done|]. pose proof (num_nonneg h hdr H).
  destruct (t_parent _ _ _ T h hdr H) as (p & Hp & Np); [unfold height in En; lia|]. pose proof (num_nonneg _ p Hp).
  cbn [ancestry]. unfold parent_of. rewrite lookup_insert_ne by (intros ->; congruence). rewrite H. f_equal.
  apply (IH _ p); [unfold height in *; lia|done].
Qed.
End Tree.

(** ** What a header chain holds *)

(** The entries of the database are those of the tree. *)
Definition db_holds (db : database) (hs : headers) (tds : difficulties) : Prop :=
  forall h, len h = 32 ->
  Get db (key_of (KNumber h)) = match hs !! h with Some hdr => encodeBlockNumber (num hdr) | None => [] end /\
  forall n, is_u64 n ->
  Get db (key_of (KHeader h n)) = match hs !! h with Some hdr => if num hdr =? n then enc_header hdr else [] | None => [] end /\
  Get db (key_of (KTd h n)) =
    match hs !! h, tds !! h with Some hdr, Some t => if num hdr =? n then enc_string (be_min t) else [] | _, _ => [] end /\
  (Has db (key_of (KHeader h n)) = true -> exists hdr, hs !! h = Some hdr /\ num hdr = n).

(** The canonical numbering is a given function. *)
Definition numbering (db : database) (f : nat -> option bytes) : Prop :=
  forall i : nat, Z.of_nat i < 2 ^ 64 -> Get db (key_of (KCanonical (Z.of_nat i))) = default [] (f i).

Record caches_ok (hs : headers) (tds : difficulties) (s : HeaderChain) : Prop := mkCachesOk {
  co_header : lru_all (fun h hdr => hs !! h = Some hdr) (headerCache s);
  co_td : lru_all (fun h t => tds !! h = Some t) (tdCache s);
  co_number : lru_all (fun h n => exists hdr, hs !! h = Some hdr /\ num hdr = n) (numberCache s)
}.

(** Two chains that differ in their caches only. *)
Definition same (s s' : HeaderChain) : Prop :=
  chainDb s' = chainDb s /\ genesisHeader s' = genesisHeader s /\ currentHeader s' = currentHeader s /\
  currentHeaderHash s' = currentHeaderHash s.

Lemma same_trans s1 s2 s3 : same s1 s2 -> same s2 s3 -> same s1 s3.
Proof. unfold same. intros (A & B & C & D) (A' & B' & C' & D'). by rewrite A', B', C', D'. Qed.

Section Reads.
Context (g : bytes) (hs : headers) (tds : difficulties) (T : tree_ok g hs tds).

Lemma tree_len h : is_Some (hs !! h) -> len h = 32.
Proof. intros [hdr H]. apply (t_hash _ _ _ T) in H as (<- & _). apply len_Header_Hash. Qed.

Lemma tree_u64 h hdr : hs !! h = Some hdr -> is_u64 (num hdr).
Proof. intros H. by apply (t_hash _ _ _ T) in H as (_ & (_ & _ & _ & U) & _). Qed.

(** A hash with the number of its header, if it has one. *)
Definition numbered (h : bytes) (n : Z) : Prop := len h = 32 /\ is_u64 n /\ forall hdr, hs !! h = Some hdr -> num hdr = n.

Lemma GetHeader_holds db h n : db_holds db hs tds -> numbered h n -> ChainDb.GetHeader db h n = Ok (hs !! h).
Proof.
  intros D (L & U & N). destruct (D h L) as [_ G]. destruct (G n U) as [E _]. destruct (hs !! h) as [hdr|] eqn:H.
  - rewrite (N hdr eq_refl), Z.eqb_refl in E. apply (GetHeader_enc hdr (num hdr)); [|done]. by apply (t_hash _ _ _ T) in H as (_ & S & _).
  - by apply GetHeader_none.
Qed.

Lemma GetTd_holds db h n : db_holds db hs tds -> numbered h n -> ChainDb.GetTd db h n = Ok (tds !! h).
Proof.
  intros D (L & U & N). destruct (D h L) as [_ G]. destruct (G n U) as (_ & E & _). pose proof (t_dom _ _ _ T h) as Dm.
  destruct (hs !! h) as [hdr|] eqn:H.
  - destruct (tds !! h) as [t|] eqn:Ht; [|destruct (proj1 Dm ltac:(eauto)); done].
    rewrite (N hdr eq_refl), Z.eqb_refl in E. apply GetTd_enc; [by apply (t_td _ _ _ T h)|done].
  - destruct (tds !! h) as [t|]; [destruct (proj2 Dm ltac:(eauto)); done|]. by apply GetTd_none.
Qed.

Lemma GetBlockNumber_holds db h :
  db_holds db hs tds -> len h = 32 -> ChainDb.GetBlockNumber db h = match hs !! h with Some hdr => num hdr | None => missingNumber end.
Proof.
  intros D L. destruct (D h L) as [E _]. destruct (hs !! h) as [hdr|] eqn:H; [|by apply GetBlockNumber_none].
  apply GetBlockNumber_enc; [by eapply tree_u64|done].
Qed.

Lemma hc_GetTd_holds h n s :
  db_holds (chainDb s) hs tds -> caches_ok hs tds s -> numbered h n ->
  exists s', hc_GetTd h n s = Ok (s', inr (tds !! h)) /\ same s s' /\ caches_ok hs tds s'.
Proof.
  intros D [C1 C2 C3] N. unfold hc_GetTd, mbind, go_bind, gets, modify.
  destruct (lru_Get_all _ _ h _ C2) as [Cg Hg]. destruct (lru_Get h (tdCache s)) as [[t|] c]; cbn [fst snd] in *.
  - rewrite (Hg t eq_refl). eexists. split; [reflexivity|]. by split.
  - unfold read. cbn [chainDb set_tdCache set_caches]. rewrite GetTd_holds by done. cbn [mbind outcome_bind].
    destruct (tds !! h) as [t|] eqn:Ht; (eexists; split; [reflexivity|]); (split; [done|]); split; cbn; try done.
    by apply lru_Add_all.
Qed.

Lemma hc_GetHeader_holds h n s :
  db_holds (chainDb s) hs tds -> caches_ok hs tds s -> numbered h n ->
  exists s', hc_GetHeader h n s = Ok (s', inr (hs !! h)) /\ same s s' /\ caches_ok hs tds s'.
Proof.
  intros D [C1 C2 C3] N. unfold hc_GetHeader, mbind, go_bind, gets, modify.
  destruct (lru_Get_all _ _ h _ C1) as [Cg Hg]. destruct (lru_Get h (headerCache s)) as [[t|] c]; cbn [fst snd] in *.
  - rewrite (Hg t eq_refl). eexists. split; [reflexivity|]. by split.
  - unfold read. cbn [chainDb set_headerCache set_caches]. rewrite GetHeader_holds by done. cbn [mbind outcome_bind].
    destruct (hs !! h) as [hdr|] eqn:Hh; (eexists; split; [reflexivity|]); (split; [done|]); split; cbn; try done.
    by apply lru_Add_all.
Qed.

Lemma hc_GetBlockNumber_holds h s :
  db_holds (chainDb s) hs tds -> caches_ok hs tds s -> len h = 32 ->
  exists s', hc_GetBlockNumber h s = Ok (s', inr (match hs !! h with Some hdr => num hdr | None => missingNumber end)) /\
    same s s' /\ caches_ok hs tds s'.
Proof.
  intros D [C1 C2 C3] L. unfold hc_GetBlockNumber, mbind, go_bind, gets, modify.
  destruct (lru_Get_all _ _ h _ C3) as [Cg Hg]. destruct (lru_Get h (numberCache s)) as [[t|] c]; cbn [fst snd] in *.
  - destruct (Hg t eq_refl) as (hdr & -> & <-). eexists. split; [reflexivity|]. by split.
  - cbn [chainDb set_numberCache set_caches]. rewrite GetBlockNumber_holds by done. destruct (hs !! h) as [hdr|] eqn:Hh.
    + destruct (Z.eqb_spec (num hdr) missingNumber); (eexists; split; [reflexivity|]); (split; [done|]); split; cbn; try done.
      apply lru_Add_all; [done|by exists hdr].
    + rewrite Z.eqb_refl. eexists. split; [reflexivity|]. by split.
Qed.
End Reads.

(** ** The canonical numbering *)

Definition only_numbers (db db' : database) : Prop :=
  forall k, key_ok k -> (forall n, k <> KCanonical n) -> db' !! key_of k = db !! key_of k.

Lemma only_numbers_refl db : only_numbers db db.
Proof. done. Qed.

Lemma only_numbers_trans db1 db2 db3 : only_numbers db1 db2 -> only_numbers db2 db3 -> only_numbers db1 db3.
Proof. intros A B k O N. by rewrite B, A. Qed.

(** The tree is read at these keys only. *)
Definition tree_key (k : dbkey) : Prop := match k with KNumber _ | KHeader _ _ | KTd _ _ => True | _ => False end.

Lemma db_holds_frame db db' hs tds :
  (forall k, key_ok k -> tree_key k -> db' !! key_of k = db !! key_of k) -> db_holds db hs tds -> db_holds db' hs tds.
Proof.
  intros O D h L. destruct (D h L) as [E G]. rewrite (Get_lookup db) by by apply O. split; [done|]. intros n U.
  rewrite (Get_lookup db _ (key_of (KHeader h n))), (Get_lookup db _ (key_of (KTd h n))), (Has_lookup db) by by apply O. by apply G.
Qed.

Lemma db_holds_numbers db db' hs tds : only_numbers db db' -> db_holds db hs tds -> db_holds db' hs tds.
Proof. intros O. apply db_holds_frame. intros k K Tk. apply O; [done|]. by intros n ->. Qed.

Lemma key_ok_number (i : nat) : Z.of_nat i < 2 ^ 64 -> key_ok (KCanonical (Z.of_nat i)).
Proof. intros H. cbn. unfold is_u64. lia. Qed.

Lemma numbering_write db f i h :
  numbering db f -> Z.of_nat i < 2 ^ 64 ->
  numbering (WriteCanonicalHash h (Z.of_nat i) db) (fun j => if (j =? i)%nat then Some h else f j) /\
  only_numbers db (WriteCanonicalHash h (Z.of_nat i) db).
Proof.
  intros N Hi. pose proof (key_ok_number i Hi) as Ki.
  assert (E : forall k, key_ok k -> Get (WriteCanonicalHash h (Z.of_nat i) db) (key_of k) =
                if decide (KCanonical (Z.of_nat i) = k) then h else Get db (key_of k)) by (intros k Hk; exact (Get_Put (KCanonical (Z.of_nat i)) k h db Ki Hk)).
  split.
  - intros j Hj. rewrite E by by apply key_ok_number. destruct (Nat.eqb_spec j i) as [->|Nj]; [by rewrite decide_True|].
    rewrite decide_False by (intros [= ?]; lia). by apply N.
  - intros k Hk Nk. etrans; [exact (lookup_Put (KCanonical (Z.of_nat i)) k h db Ki Hk)|].
    rewrite decide_False; [done|]. intros <-. by apply (Nk (Z.of_nat i)).
Qed.

Lemma numbering_delete db f i :
  numbering db f -> Z.of_nat i < 2 ^ 64 ->
  numbering (DeleteCanonicalHash (Z.of_nat i) db) (fun j => if (j =? i)%nat then None else f j) /\
  only_numbers db (DeleteCanonicalHash (Z.of_nat i) db).
Proof.
  intros N Hi. pose proof (key_ok_number i Hi) as Ki.
  assert (E : forall k, key_ok k -> Get (DeleteCanonicalHash (Z.of_nat i) db) (key_of k) =
                if decide (KCanonical (Z.of_nat i) = k) then [] else Get db (key_of k)) by (intros k Hk; exact (Get_Del (KCanonical (Z.of_nat i)) k db Ki Hk)).
  split.
  - intros j Hj. rewrite E by by apply key_ok_number. destruct (Nat.eqb_spec j i) as [->|Nj]; [by rewrite decide_True|].
    rewrite decide_False by (intros [= ?]; lia). by apply N.
  - intros k Hk Nk. etrans; [exact (lookup_Del (KCanonical (Z.of_nat i)) k db Ki Hk)|].
    rewrite decide_False; [done|]. intros <-. by apply (Nk (Z.of_nat i)).
Qed.

Lemma numbering_ext db f f' : numbering db f -> (forall i, Z.of_nat i < 2 ^ 64 -> f i = f' i) -> numbering db f'.
Proof. intros N E i Hi. by rewrite <- E; [apply N|]. Qed.

(** Hashes that are told apart from the absence of one. *)
Definition hashes_ok (l : list bytes) : Prop := forall (i : nat) h, l !! i = Some h -> len h = 32 /\ h <> zeros HashLength.

Lemma GetCanonicalHash_numbering db f (i : nat) :
  numbering db f -> Z.of_nat i < 2 ^ 64 -> (forall h, f i = Some h -> len h = 32) ->
  GetCanonicalHash db (Z.of_nat i) = default (zeros HashLength) (f i).
Proof.
  intros N Hi L. specialize (N i Hi). unfold GetCanonicalHash. change (canonicalKey (Z.of_nat i)) with (key_of (KCanonical (Z.of_nat i))).
  destruct (f i) as [h|]; [apply hash_at_hash; [done|by apply L]|by apply hash_at_none].
Qed.

Lemma delete_above_spec l : forall fuel i s,
  hashes_ok l -> numbering (chainDb s) (fun j => l !! j) -> (length l < i + fuel)%nat -> (0 < fuel)%nat -> Z.of_nat (length l) < 2 ^ 64 -> Z.of_nat i < 2 ^ 64 ->
  exists db, delete_above fuel (Z.of_nat i) s = Ok (set_db db s, inr tt) /\ numbering db (fun j => take i l !! j) /\
    only_numbers (chainDb s) db.
Proof.
  intros fuel i s Hl N L F0 Ll. remember (fun j => l !! j) as f eqn:Ef.
  assert (Hf : (forall j, (j < i)%nat -> f j = l !! j) /\ (forall j, (i <= j)%nat -> f j = l !! j)) by (by subst).
  destruct Hf as [Lo Hi]. clear Ef. revert fuel i s f N L F0 Lo Hi.
  assert (Main : forall fuel i i0 s (f : nat -> option bytes), numbering (chainDb s) f -> (length l < i + fuel)%nat -> (0 < fuel)%nat -> (i0 <= i)%nat ->
     (forall j, (j < i0)%nat -> f j = l !! j) -> (forall j, (i0 <= j < i)%nat -> f j = None) -> (forall j, (i <= j)%nat -> f j = l !! j) ->
     Z.of_nat i < 2 ^ 64 ->
     exists db, delete_above fuel (Z.of_nat i) s = Ok (set_db db s, inr tt) /\ numbering db (fun j => take i0 l !! j) /\ only_numbers (chainDb s) db).
  2: { intros fuel i s f N L F0 Lo Hi Bi. apply (Main fuel i i s f); try done; lia. }
  induction fuel as [|fuel IH]; intros i i0 s f N L F0 Le Lo Mid Hi Bi; [lia|]. cbn [delete_above]. unfold mbind at 1, go_bind, gets.
  rewrite (GetCanonicalHash_numbering _ f i N Bi) by (intros h Hh; rewrite Hi in Hh by lia; by apply (Hl i)).
  rewrite (Hi i) by lia. destruct (l !! i) as [h|] eqn:E; cbn [default]; unfold id.
  - destruct (Hl i h E) as [_ Nz]. rewrite bool_decide_false by done. pose proof (lookup_lt_Some _ _ _ E) as Li.
    unfold write_db, modify, mbind, go_bind. rewrite u64_small by (unfold is_u64; lia).
    replace (Z.of_nat i + 1) with (Z.of_nat (S i)) by lia. destruct (numbering_delete _ f i N Bi) as [N' O'].
    destruct (IH (S i) i0 (set_db (DeleteCanonicalHash (Z.of_nat i) (chainDb s)) s) _ N') as (db & E' & Nd & Od); try lia.
    + intros j Hj. rewrite (proj2 (Nat.eqb_neq j i)) by lia. by apply Lo.
    + intros j Hj. destruct (Nat.eqb_spec j i); [done|]. apply Mid. lia.
    + intros j Hj. rewrite (proj2 (Nat.eqb_neq j i)) by lia. apply Hi. lia.
    + exists db. split; [exact E'|]. split; [done|]. by eapply only_numbers_trans.
  - rewrite bool_decide_true by done. exists (chainDb s). split; [by destruct s|]. split; [|done].
    eapply numbering_ext; [exact N|]. intros j Hj. apply lookup_ge_None in E. rewrite lookup_take. case_decide as Hd.
    + by apply Lo.
    + destruct (decide (j < i)%nat); [apply Mid; lia|]. rewrite Hi by lia. apply lookup_ge_None. lia.
Qed.

(** Two chains that differ in their caches and the canonical numbering. *)
Definition moved (s s' : HeaderChain) : Prop :=
  only_numbers (chainDb s) (chainDb s') /\ genesisHeader s' = genesisHeader s /\ currentHeader s' = currentHeader s /\
  currentHeaderHash s' = currentHeaderHash s.

Lemma same_moved s s' : same s s' -> moved s s'.
Proof. intros (E & R). split; [by rewrite E|done]. Qed.

Lemma moved_trans s1 s2 s3 : moved s1 s2 -> moved s2 s3 -> moved s1 s3.
Proof. unfold moved. intros (A & B & C & D) (A' & B' & C' & D'). split; [by eapply only_numbers_trans|]. by rewrite B', C', D'. Qed.

Section Loops.
Context (g : bytes) (hs : headers) (tds : difficulties) (T : tree_ok g hs tds).

Lemma header_number_eq h n s : hd_Number h = Some n -> is_u64 n -> header_number h s = Ok (s, inr n).
Proof. intros E U. unfold header_number, mbind, go_bind, deref. rewrite E. cbn. by rewrite big_Uint64_u64. Qed.

Lemma tree_number h hdr s : hs !! h = Some hdr -> header_number hdr s = Ok (s, inr (num hdr)).
Proof. intros H. apply (t_hash _ _ _ T) in H as (_ & (_ & _ & E & U) & _). by apply header_number_eq. Qed.

Lemma parent_numbered h hdr : hs !! h = Some hdr -> num hdr <> 0 ->
  exists p, hs !! hd_ParentHash hdr = Some p /\ S (height p) = height hdr /\ pred64 (num hdr) = Z.of_nat (height p) /\
    numbered hs (hd_ParentHash hdr) (Z.of_nat (height p)).
Proof.
  intros H Nz. destruct (t_parent _ _ _ T h hdr H Nz) as (p & Hp & E). exists p. split; [done|].
  pose proof (tree_u64 _ _ _ T _ _ H) as U. pose proof (tree_u64 _ _ _ T _ _ Hp) as Up. unfold is_u64 in *.
  unfold height, pred64. rewrite Z2Nat.id by lia. split; [lia|]. split; [rewrite u64_small; unfold is_u64; lia|].
  split; [by apply (tree_len _ _ _ T)|]. split; [done|]. intros q Hq. congruence.
Qed.

(** The loop below the new head rewrites the numbering into the ancestry of the parent. *)
Lemma overwrite_stale_spec : forall (j fuel : nat) h hdr s f,
  hs !! h = Some hdr -> height hdr = j -> (j < fuel)%nat ->
  db_holds (chainDb s) hs tds -> caches_ok hs tds s -> numbering (chainDb s) f -> f O = Some g ->
  (forall i x, f i = Some x -> len x = 32) ->
  (forall i, (i <= j)%nat -> f i = ancestry hs j h !! i -> forall i', (i' <= i)%nat -> f i' = ancestry hs j h !! i') ->
  exists s', overwrite_stale fuel h (Z.of_nat j) (Some hdr) s = Ok (s', inr tt) /\ caches_ok hs tds s' /\ moved s s' /\
    numbering (chainDb s') (fun i => if (i <=? j)%nat then ancestry hs j h !! i else f i).
Proof.
  induction j as [|j IH]; intros fuel h hdr s f H Ej Lf D C N F0 Fl Ag; (destruct fuel as [|fuel]; [lia|]);
    pose proof (tree_u64 _ _ _ T _ _ H) as U; unfold is_u64 in U;
    assert (Uj : Z.of_nat (height hdr) < 2 ^ 64) by (unfold height; lia); rewrite Ej in Uj;
    cbn [overwrite_stale]; unfold mbind at 1, go_bind, gets;
    rewrite (GetCanonicalHash_numbering _ f _ N Uj (Fl _));
    destruct (t_hash _ _ _ T _ _ H) as (_ & _ & _ & Nz).
  - assert (h = g) as -> by (apply (t_root _ _ _ T h hdr H); unfold height in Ej; lia).
    rewrite F0. cbn [default]. unfold id. rewrite bool_decide_true by done. exists s. split; [done|]. split; [done|].
    split; [by apply same_moved|]. eapply numbering_ext; [exact N|]. intros [|i] _; [by rewrite F0|done].
  - case_bool_decide as Eh.
    { exists s. split; [done|]. split; [done|]. split; [by apply same_moved|]. eapply numbering_ext; [exact N|].
      intros i _. destruct (Nat.leb_spec i (S j)) as [Le|]; [|done]. apply (Ag (S j)); [lia| |done].
      rewrite ancestry_last. destruct (f (S j)); cbn in Eh; unfold id in Eh; congruence. }
    destruct (parent_numbered h hdr H) as (p & Hp & Ep & Pn & Nu); [unfold height in Ej; lia|].
    destruct (numbering_write _ f (S j) h N Uj) as [N1 O1]. unfold write_db, modify, mbind at 1, go_bind.
    unfold mbind at 1, go_bind, deref. cbn [mret go_ret]. unfold mbind at 1, go_bind. rewrite (tree_number h hdr) by done. rewrite Pn.
    assert (Hj : height p = j) by lia. rewrite Hj in *.
    destruct (hc_GetHeader_holds g hs tds T (hd_ParentHash hdr) (Z.of_nat j)
                (set_db (WriteCanonicalHash h (Z.of_nat (S j)) (chainDb s)) s)) as (s1 & E1 & S1 & C1);
      [by eapply db_holds_numbers|by destruct C|done|].
    unfold mbind, go_bind. rewrite E1, Hp. destruct S1 as (S1 & S2 & S3 & S4). cbn [set_db chainDb] in S1.
    destruct (IH fuel (hd_ParentHash hdr) p s1 (fun i => if (i =? S j)%nat then Some h else f i)) as (s2 & E2 & C2 & M2 & N2); try done; try lia.
    + rewrite S1. by eapply db_holds_numbers.
    + by rewrite S1.
    + intros i x. destruct (Nat.eqb_spec i (S j)); [intros [= <-]; apply (tree_len _ _ _ T); by exists hdr|apply Fl].
    + assert (Q : forall i, (i <= j)%nat -> ancestry hs (S j) h !! i = ancestry hs j (hd_ParentHash hdr) !! i).
      { intros i Hi. cbn [ancestry]. unfold parent_of. rewrite H. apply lookup_app_l. rewrite length_ancestry. lia. }
      intros i Hi Ei i' Hi'. rewrite (proj2 (Nat.eqb_neq i' (S j))) by lia. rewrite (proj2 (Nat.eqb_neq i (S j))) in Ei by lia.
      rewrite <- Q by lia. apply (Ag i); [lia|by rewrite Q by lia|done].
    + exists s2. split; [exact E2|]. split; [done|]. split.
      { eapply moved_trans; [|exact M2]. split; [by rewrite S1|done]. }
      eapply numbering_ext; [exact N2|]. intros i _. cbn [ancestry]. unfold parent_of. rewrite H.
      destruct (Nat.leb_spec i j) as [Le|Gt]; cbn beta.
      * rewrite (proj2 (Nat.leb_le i (S j))) by lia. symmetry. apply lookup_app_l. rewrite length_ancestry. lia.
      * destruct (Nat.eqb_spec i (S j)) as [->|Ni]; [|by rewrite (proj2 (Nat.leb_gt i (S j))) by lia].
        rewrite (proj2 (Nat.leb_le (S j) (S j))) by lia. rewrite lookup_app_r by (rewrite length_ancestry; lia).
        by rewrite length_ancestry, Nat.sub_diag.
Qed.
End Loops.

(** ** A header is added *)

(** A header that can be added below its parent: its number follows the parent's if the
    parent is known, its hash is not another header's, and the new total difficulty is one
    the encoder accepts. *)
Record addable (hs : headers) (tds : difficulties) (hdr : Header) : Prop := mkAddable {
  a_stored : stored_header hdr (num hdr);
  a_number : 1 <= num hdr /\ num hdr + 1 < 2 ^ 64;
  a_hash : Header_Hash hdr <> zeros HashLength;
  a_fresh : hs !! Header_Hash hdr = None \/ hs !! Header_Hash hdr = Some hdr;
  a_parent : forall p, hs !! hd_ParentHash hdr = Some p -> num hdr = num p + 1;
  a_td : forall t, tds !! hd_ParentHash hdr = Some t -> td_ok (diff hdr + t)
}.

Section Add.
Context (g : bytes) (hs : headers) (tds : difficulties) (T : tree_ok g hs tds).
Context (hdr : Header) (A : addable hs tds hdr) (ptd : Z) (P : tds !! hd_ParentHash hdr = Some ptd).

Abbreviation hash := (Header_Hash hdr).
Abbreviation hs' := (<[hash := hdr]> hs).
Abbreviation tds' := (<[hash := diff hdr + ptd]> tds).

Lemma add_parent : exists p, hs !! hd_ParentHash hdr = Some p /\ num hdr = num p + 1.
Proof.
  destruct (proj2 (t_dom _ _ _ T (hd_ParentHash hdr)) ltac:(eauto)) as [p Hp]. exists p. split; [done|]. by apply (a_parent _ _ _ A).
Qed.

(** The header was new, or everything is as it was. *)
Lemma add_cases : (hs !! hash = None /\ tds !! hash = None) \/ (hs' = hs /\ tds' = tds).
Proof.
  destruct (a_fresh _ _ _ A) as [F|F].
  - left. split; [done|]. destruct (tds !! hash) eqn:E; [|done]. destruct (proj2 (t_dom _ _ _ T hash) ltac:(eauto)). congruence.
  - right. destruct (proj1 (t_dom _ _ _ T hash) ltac:(eauto)) as [t Ht].
    destruct (t_sum _ _ _ T hash hdr t F) as (tp & Htp & ->); [destruct (a_number _ _ _ A); lia|done|].
    assert (tp = ptd) as -> by congruence. split; by apply fin_maps.insert_id.
Qed.

Lemma add_mono h d : hs !! h = Some d -> hs' !! h = Some d.
Proof. intros H. destruct add_cases as [[F _]|[-> _]]; [|done]. rewrite lookup_insert_ne; [done|]. intros <-. congruence. Qed.

Lemma add_mono_td h t : tds !! h = Some t -> tds' !! h = Some t.
Proof. intros H. destruct add_cases as [[_ F]|[_ ->]]; [|done]. rewrite lookup_insert_ne; [done|]. intros <-. congruence. Qed.

Lemma tree_add : tree_ok g hs' tds'.
Proof.
  destruct add_cases as [[F Ft]|[-> ->]]; [|done]. destruct add_parent as (p & Hp & Np). destruct (a_number _ _ _ A) as [N1 N2].
  pose proof add_mono as M. pose proof add_mono_td as Mt. split.
  - intros h d H. apply lookup_insert_Some in H as [[<- <-]|[_ H]]; [|by apply (t_hash _ _ _ T)].
    split; [done|]. split; [apply (a_stored _ _ _ A)|]. split; [lia|apply (a_hash _ _ _ A)].
  - destruct (t_genesis _ _ _ T) as (d & H & Z). exists d. split; [by apply M|done].
  - intros h d H Z. apply lookup_insert_Some in H as [[<- <-]|[_ H]]; [lia|by apply (t_root _ _ _ T h d)].
  - intros h d H Z. apply lookup_insert_Some in H as [[<- <-]|[_ H]]; [exists p; split; [by apply M|done]|].
    destruct (t_parent _ _ _ T h d H Z) as (q & Hq & Nq). exists q. split; [by apply M|done].
  - intros h. rewrite !lookup_insert_is_Some. split; (intros [E|[E I]]; [by left|right; split; [done|by apply (t_dom _ _ _ T)]]).
  - intros h t H. apply lookup_insert_Some in H as [[<- <-]|[_ H]]; [by apply (a_td _ _ _ A)|by apply (t_td _ _ _ T h)].
  - intros h d t H Z Ht. apply lookup_insert_Some in H as [[<- <-]|[Ne H]].
    + rewrite lookup_insert_eq in Ht. injection Ht as <-. exists ptd. split; [by apply Mt|done].
    + rewrite lookup_insert_ne in Ht by done. destruct (t_sum _ _ _ T h d t H Z Ht) as (tp & Hp' & E). exists tp. split; [by apply Mt|done].
Qed.

Lemma caches_add s : caches_ok hs tds s -> caches_ok hs' tds' s.
Proof.
  intros [C1 C2 C3]. split; (eapply lru_all_impl; [|eassumption]); cbn beta.
  - apply add_mono.
  - apply add_mono_td.
  - intros h n (d & H & E). exists d. split; [by apply add_mono|done].
Qed.

(** The two writes, and what they leave alone. *)
Definition add_db (db : database) : database :=
  Put (key_of (KHeader hash (num hdr))) (enc_header hdr) (Put (key_of (KNumber hash)) (encodeBlockNumber (num hdr))
    (Put (key_of (KTd hash (num hdr))) (enc_string (be_min (diff hdr + ptd))) db)).

Lemma add_u64 : is_u64 (num hdr).
Proof. by destruct (a_stored _ _ _ A) as (_ & _ & _ & U). Qed.

Lemma add_keys k : key_ok k -> k <> KHeader hash (num hdr) -> k <> KNumber hash -> k <> KTd hash (num hdr) -> forall db,
  add_db db !! key_of k = db !! key_of k.
Proof.
  intros K N1 N2 N3 db. pose proof add_u64. pose proof (len_Header_Hash hdr). unfold add_db.
  rewrite !lookup_Put by done. rewrite !decide_False by congruence. done.
Qed.

Lemma db_add db : db_holds db hs tds -> db_holds (add_db db) hs' tds'.
Proof.
  intros D h L. destruct (D h L) as [E G]. pose proof add_u64 as U. pose proof (len_Header_Hash hdr) as Lh.
  destruct (decide (h = hash)) as [->|Ne].
  - rewrite !lookup_insert_eq. unfold add_db. split; [by dbget|]. intros n Un.
    destruct (Z.eqb_spec (num hdr) n) as [<-|Nn]; [split; [by dbget|split; [by dbget|by eexists]]|].
    rewrite !Get_Put by done. rewrite !decide_False by congruence. destruct (G n Un) as (E1 & E2 & E3).
    rewrite (Has_lookup db) by (unfold add_db; rewrite !lookup_Put by done; by rewrite !decide_False by congruence).
    destruct add_cases as [[F Ft]|[Q _]]; [rewrite E1, E2, F; split; [done|]; split; [done|]; by intros (? & ? & _)%E3; congruence|].
    assert (F : hs !! hash = Some hdr) by (rewrite <- Q; apply lookup_insert_eq). rewrite E1, E2, F, (proj2 (Z.eqb_neq _ _)) by done.
    rewrite F in E3. split; [done|]. split; [by destruct (tds !! hash)|done].
  - rewrite !lookup_insert_ne by done. rewrite (Get_lookup db) by (apply add_keys; done || congruence). split; [done|]. intros n Un.
    rewrite (Get_lookup db _ (key_of (KHeader h n))), (Get_lookup db _ (key_of (KTd h n))), (Has_lookup db) by (apply add_keys; done || congruence). by apply G.
Qed.
End Add.

(** ** The switch to a new head *)

Section Switch.
Context (g : bytes) (hs : headers) (tds : difficulties) (T : tree_ok g hs tds).

Lemma ancestry_hashes h hdr : hs !! h = Some hdr -> hashes_ok (ancestry hs (height hdr) h).
Proof.
  intros H i x E. destruct (ancestry_stored g hs tds T h hdr H i x E) as (d & Hd & _). split; [apply (tree_len _ _ _ T); by exists d|].
  by apply (t_hash _ _ _ T) in Hd as (_ & _ & _ & Nz).
Qed.

Lemma ancestry_step h hdr p : hs !! h = Some hdr -> S (height p) = height hdr ->
  ancestry hs (height hdr) h = ancestry hs (height p) (hd_ParentHash hdr) ++ [h].
Proof. intros H <-. cbn [ancestry]. unfold parent_of. by rewrite H. Qed.

(** Both loops: the numbers below the new head become its ancestors, those above are gone. *)
Lemma switch_spec fuel h hdr a ahdr s :
  hs !! h = Some hdr -> 1 <= num hdr -> hs !! a = Some ahdr ->
  db_holds (chainDb s) hs tds -> caches_ok hs tds s -> numbering (chainDb s) (fun i => ancestry hs (height ahdr) a !! i) ->
  (S (height hdr) < fuel)%nat -> (S (height ahdr) < fuel)%nat ->
  exists p s1 s2 s3, delete_above fuel (u64 (num hdr + 1)) s = Ok (s1, inr tt) /\
    hc_GetHeader (hd_ParentHash hdr) (pred64 (num hdr)) s1 = Ok (s2, inr (Some p)) /\
    overwrite_stale fuel (hd_ParentHash hdr) (pred64 (num hdr)) (Some p) s2 = Ok (s3, inr tt) /\
    caches_ok hs tds s3 /\ moved s s3 /\
    forall i, i <> height hdr -> Z.of_nat i < 2 ^ 64 ->
      Get (chainDb s3) (key_of (KCanonical (Z.of_nat i))) = default [] (ancestry hs (height hdr) h !! i).
Proof.
  intros H N1 Ha D C N F1 F2. pose proof (ancestry_hashes a ahdr Ha) as Ho.
  destruct (t_hash _ _ _ T _ _ H) as (_ & _ & Bn & _). destruct (t_hash _ _ _ T _ _ Ha) as (_ & _ & Ba & _).
  pose proof (num_nonneg _ _ _ T _ _ Ha) as Za.
  assert (Zn : u64 (num hdr + 1) = Z.of_nat (S (height hdr))) by (rewrite u64_small; unfold is_u64, height; lia).
  destruct (delete_above_spec (ancestry hs (height ahdr) a) fuel (S (height hdr)) s) as (db & E1 & Nd & Od); try done;
    rewrite ?length_ancestry; try (unfold height in *; lia). rewrite <- Zn in E1.
  destruct (parent_numbered g hs tds T h hdr H) as (p & Hp & Ep & Pn & Nu); [lia|].
  destruct (hc_GetHeader_holds g hs tds T _ _ (set_db db s) (db_holds_numbers _ _ _ _ Od D) ltac:(by destruct C) Nu) as (s2 & E2 & (S1 & S2) & C2).
  cbn [chainDb set_db] in S1.
  destruct (overwrite_stale_spec g hs tds T (height p) fuel (hd_ParentHash hdr) p s2
             (fun j => take (S (height hdr)) (ancestry hs (height ahdr) a) !! j)) as (s3 & E3 & C3 & M3 & N3); try done; try lia.
  - rewrite S1. by eapply db_holds_numbers.
  - by rewrite S1.
  - rewrite lookup_take_lt by lia. by apply (ancestry_root g hs tds T).
  - intros i x. rewrite lookup_take. case_decide; [|done]. apply Ho.
  - intros i Hi Ei i' Hi'. rewrite lookup_take_lt in * by lia.
    destruct (ancestry hs (height p) (hd_ParentHash hdr) !! i) as [x|] eqn:Ex; [|by apply lookup_ge_None in Ex; rewrite length_ancestry in Ex; lia].
    apply (ancestry_agree hs _ _ _ _ i x); try done. apply lookup_lt_Some in Ei. rewrite length_ancestry in Ei. lia.
  - exists p, (set_db db s), s2, s3. rewrite Pn. rewrite Hp in E2. split; [done|]. split; [done|]. split; [done|]. split; [done|].
    split. { eapply moved_trans; [|exact M3]. split; [by rewrite S1|done]. }
    intros i Ni Hi. rewrite (N3 i Hi), (ancestry_step h hdr p) by done. destruct (Nat.leb_spec i (height p)) as [Le|Gt].
    + rewrite lookup_app_l by (rewrite length_ancestry; lia). done.
    + rewrite (lookup_ge_None_2 (_ ++ _)) by (rewrite length_app, length_ancestry; cbn; lia).
      by rewrite lookup_take_ge by lia.
Qed.
End Switch.

(** ** The invariant *)

(** The chain holds a tree of headers with their total difficulties; [head] is a heaviest
    header of it, the canonical numbering is its ancestry and nothing else. *)
Record hc_holds (g : bytes) (hs : headers) (tds : difficulties) (head : bytes) (s : HeaderChain) : Prop := mkHcHolds {
  h_tree : tree_ok g hs tds;
  h_db : db_holds (chainDb s) hs tds;
  h_caches : caches_ok hs tds s;
  h_genesis : genesisHeader s = hs !! g;
  h_hash : currentHeaderHash s = head;
  h_key : Get (chainDb s) (key_of KHeadHeader) = head;
  h_head : exists hdr, hs !! head = Some hdr /\ currentHeader s = Some hdr /\
    numbering (chainDb s) (fun i => ancestry hs (height hdr) head !! i);
  h_heaviest : exists t, tds !! head = Some t /\ forall h t', tds !! h = Some t' -> t' <= t
}.

(** The head after a header of total difficulty [t] was added. *)
Definition preferred (tds : difficulties) (head : bytes) (t : Z) (coin : bool) : bool :=
  let l := default 0 (tds !! head) in (l <? t) || ((t =? l) && coin).

Lemma WriteHeader_unknown fuel coin g hs tds head s hdr :
  hc_holds g hs tds head s -> addable hs tds hdr -> hs !! hd_ParentHash hdr = None ->
  exists s', hc_WriteHeader fuel coin hdr s = Ok (s', inl ErrUnknownAncestor) /\ hc_holds g hs tds head s'.
Proof.
  intros [T D C G Hh K Hd Hv] A Np. destruct (a_stored _ _ _ A) as (Ho & _ & En & U). unfold hc_WriteHeader, mbind, go_bind.
  rewrite (header_number_eq hdr (num hdr)) by done. destruct (a_number _ _ _ A) as [N1 _].
  destruct (hc_GetTd_holds g hs tds T (hd_ParentHash hdr) (pred64 (num hdr)) s D C) as (s1 & E1 & (S1 & S2 & S3 & S4) & C1).
  { split; [apply (ho_ParentHash _ Ho)|]. split; [apply u64_range|]. intros ? ?. congruence. }
  rewrite E1. destruct (tds !! hd_ParentHash hdr) as [t|] eqn:Et.
  { destruct (proj2 (t_dom _ _ _ T (hd_ParentHash hdr)) ltac:(eauto)). congruence. }
  exists s1. split; [done|]. split; try done; rewrite ?S1, ?S2, ?S3, ?S4; done.
Qed.

Lemma preferred_heaviest g hs tds head s hdr ptd coin :
  hc_holds g hs tds head s -> addable hs tds hdr -> tds !! hd_ParentHash hdr = Some ptd ->
  let tds' := <[Header_Hash hdr := diff hdr + ptd]> tds in
  let head' := if preferred tds head (diff hdr + ptd) coin then Header_Hash hdr else head in
  exists t, tds' !! head' = Some t /\ forall h t', tds' !! h = Some t' -> t' <= t.
Proof.
  intros I A P. pose proof (add_mono_td g hs tds (h_tree _ _ _ _ _ I) hdr A ptd P) as M.
  destruct (h_heaviest _ _ _ _ _ I) as (t & Ht & Mx). unfold preferred. rewrite Ht. cbn [default]. unfold id. cbn zeta.
  destruct (Z.ltb_spec t (diff hdr + ptd)) as [L|L]; cbn [orb].
  - exists (diff hdr + ptd). split; [apply lookup_insert_eq|]. intros h t' H. apply lookup_insert_Some in H as [[_ <-]|[_ H]]; [lia|]. apply Mx in H. lia.
  - destruct ((diff hdr + ptd =? t) && coin) eqn:B.
    + apply andb_true_iff in B as [B _]. apply Z.eqb_eq in B. exists t. split; [rewrite lookup_insert_eq; by f_equal|].
      intros h t' H. apply lookup_insert_Some in H as [[_ <-]|[_ H]]; [lia|by apply Mx in H].
    + exists t. split; [by apply M|]. intros h t' H. apply lookup_insert_Some in H as [[_ <-]|[_ H]]; [lia|by apply Mx in H].
Qed.

Lemma numbering_put_head db f h : numbering db f -> numbering (WriteHeadHeaderHash h db) f.
Proof. intros N i Hi. pose proof (key_ok_number i Hi). unfold WriteHeadHeaderHash. change headHeaderKey with (key_of KHeadHeader). dbget. by apply N. Qed.

Lemma db_holds_put_head db hs tds h : db_holds db hs tds -> db_holds (WriteHeadHeaderHash h db) hs tds.
Proof.
  apply db_holds_frame. intros k K Tk. unfold WriteHeadHeaderHash. change headHeaderKey with (key_of KHeadHeader).
  rewrite lookup_Put by done. rewrite decide_False; [done|]. by intros <-.
Qed.

Lemma become_head_spec g hs tds fuel hdr a ahdr s :
  tree_ok g hs tds -> hs !! Header_Hash hdr = Some hdr -> 1 <= num hdr -> hs !! a = Some ahdr ->
  db_holds (chainDb s) hs tds -> caches_ok hs tds s -> numbering (chainDb s) (fun i => ancestry hs (height ahdr) a !! i) ->
  (S (height hdr) < fuel)%nat -> (S (height ahdr) < fuel)%nat ->
  exists s', become_head fuel hdr (num hdr) s = Ok (s', inr tt) /\ db_holds (chainDb s') hs tds /\ caches_ok hs tds s' /\
    genesisHeader s' = genesisHeader s /\ currentHeader s' = Some hdr /\ currentHeaderHash s' = Header_Hash hdr /\
    Get (chainDb s') (key_of KHeadHeader) = Header_Hash hdr /\
    numbering (chainDb s') (fun i => ancestry hs (height hdr) (Header_Hash hdr) !! i).
Proof.
  intros T H N1 Ha D C N F1 F2. destruct (switch_spec g hs tds T fuel _ hdr a ahdr s H N1 Ha D C N F1 F2)
    as (p & s1 & s2 & s3 & E1 & E2 & E3 & C3 & (O3 & G3 & _) & N3).
  pose proof (tree_u64 _ _ _ T _ _ H) as U. unfold is_u64 in U.
  assert (Zh : num hdr = Z.of_nat (height hdr)) by (unfold height; lia).
  unfold become_head. go_step E1. go_step E2. go_step E3. go_step. go_step. unfold modify. eexists. split; [reflexivity|].
  cbn [set_db set_head chainDb genesisHeader currentHeader currentHeaderHash].
  assert (Wn : numbering (WriteCanonicalHash (Header_Hash hdr) (num hdr) (chainDb s3)) (fun i => ancestry hs (height hdr) (Header_Hash hdr) !! i) /\
               only_numbers (chainDb s3) (WriteCanonicalHash (Header_Hash hdr) (num hdr) (chainDb s3))).
  { assert (Q : numbering (chainDb s3) (fun i => if (i =? height hdr)%nat then Some (Get (chainDb s3) (key_of (KCanonical (Z.of_nat i))))
                                              else ancestry hs (height hdr) (Header_Hash hdr) !! i)).
    { intros i Hi. destruct (Nat.eqb_spec i (height hdr)); [done|by apply N3]. }
    rewrite Zh. destruct (numbering_write _ _ (height hdr) (Header_Hash hdr) Q ltac:(lia)) as [W O]. split; [|done].
    eapply numbering_ext; [exact W|]. intros i _. cbn beta. destruct (Nat.eqb_spec i (height hdr)) as [->|]; [by rewrite ancestry_last|done]. }
  destruct Wn as [Wn Wo]. split; [apply db_holds_put_head; eapply db_holds_numbers; [exact Wo|by eapply db_holds_numbers]|].
  split; [by destruct C3|]. split; [done|]. destruct (t_hash _ _ _ T _ _ H) as (_ & (Ho & _) & _). split; [by rewrite CopyHeader_ok|].
  split; [done|]. split; [|by apply numbering_put_head]. unfold WriteHeadHeaderHash. change headHeaderKey with (key_of KHeadHeader). by dbget.
Qed.

(** The header is added to the caches at the end. *)
Lemma hc_holds_cached g hs tds head s hdr :
  hc_holds g hs tds head s -> hs !! Header_Hash hdr = Some hdr ->
  hc_holds g hs tds head (set_numberCache (lru_Add (Header_Hash hdr) (num hdr) (numberCache s))
                            (set_headerCache (lru_Add (Header_Hash hdr) hdr (headerCache s)) s)).
Proof. intros [T D [C1 C2 C3] G Hh K Hd Hv] H. split; try done. split; cbn; [by apply lru_Add_all|done|apply lru_Add_all; [done|by exists hdr]]. Qed.

(** The database and the caches after the header and its total difficulty are written. *)
Lemma hc_written g hs tds head s hdr ptd s2 (I : hc_holds g hs tds head s) :
  addable hs tds hdr -> tds !! hd_ParentHash hdr = Some ptd -> same s s2 -> caches_ok hs tds s2 ->
  let hs' := <[Header_Hash hdr := hdr]> hs in let tds' := <[Header_Hash hdr := diff hdr + ptd]> tds in
  exists s3, (hc_WriteTd (Header_Hash hdr) (num hdr) (diff hdr + ptd) s2 = Ok (s3, inr tt)) /\
  exists s4, write_crit (WriteHeader hdr) s3 = Ok (s4, inr tt) /\
    tree_ok g hs' tds' /\ db_holds (chainDb s4) hs' tds' /\ caches_ok hs' tds' s4 /\ genesisHeader s4 = hs' !! g /\
    currentHeader s4 = currentHeader s /\ currentHeaderHash s4 = head /\ Get (chainDb s4) (key_of KHeadHeader) = head /\
    exists chdr, currentHeader s = Some chdr /\ hs' !! head = Some chdr /\ numbering (chainDb s4) (fun i => ancestry hs' (height chdr) head !! i).
Proof.
  intros A P (Q1 & Q2 & Q3 & Q4) C2. cbn zeta. destruct I as [T D C G Hh K (chdr & Hhd & Cu & Nm) _].
  pose proof (caches_add g hs tds T hdr A ptd P s2 C2) as [C4 C5 C6]. pose proof (add_mono g hs tds T hdr A ptd P) as M.
  pose proof (add_keys hs tds hdr A ptd) as Ak.
  unfold hc_WriteTd, write_crit, modify, mbind, go_bind. rewrite WriteTd_eq by (by apply (a_td _ _ _ A)). eexists. split; [reflexivity|].
  cbn [set_tdCache set_caches set_db chainDb]. rewrite (WriteHeader_eq hdr (num hdr)) by apply (a_stored _ _ _ A). eexists. split; [reflexivity|].
  cbn [set_tdCache set_caches set_db chainDb genesisHeader currentHeader currentHeaderHash]. rewrite Q1, Q2, Q3, Q4.
  change (Put (key_of (KHeader (Header_Hash hdr) (num hdr))) (enc_header hdr) _) with (add_db hdr ptd (chainDb s)).
  split; [by apply tree_add|]. split; [by apply (db_add g)|]. split.
  { split; cbn; [done| |done]. apply lru_Add_all; [done|apply lookup_insert_eq]. }
  split. { rewrite G. destruct (t_genesis _ _ _ T) as (gh & Hg & _). by rewrite Hg, (M _ _ Hg). }
  split; [done|]. split; [done|]. split; [by rewrite (Get_lookup (chainDb s)) by by apply Ak|]. exists chdr. split; [done|]. split; [by apply M|].
  rewrite (ancestry_insert g hs tds T head chdr) by (done || apply (a_fresh _ _ _ A)).
  intros i Hi. rewrite (Get_lookup (chainDb s)) by (apply Ak; done || by apply key_ok_number). by apply Nm.
Qed.

Lemma WriteHeader_known fuel coin g hs tds head s hdr ptd chdr :
  hc_holds g hs tds head s -> addable hs tds hdr -> tds !! hd_ParentHash hdr = Some ptd -> currentHeader s = Some chdr ->
  (S (height hdr) < fuel)%nat -> (S (height chdr) < fuel)%nat ->
  let canon := preferred tds head (diff hdr + ptd) coin in
  exists s', hc_WriteHeader fuel coin hdr s = Ok (s', inr (if canon then CanonStatTy else SideStatTy)) /\
    hc_holds g (<[Header_Hash hdr := hdr]> hs) (<[Header_Hash hdr := diff hdr + ptd]> tds) (if canon then Header_Hash hdr else head) s'.
Proof.
  intros I A P Cu F1 F2. pose proof (preferred_heaviest g hs tds head s hdr ptd coin I A P) as Hv'. cbn zeta in *.
  pose proof I as [T D C G Hh K (hd & Hhd & Cu' & Nm) (lt & Hlt & Mx)]. assert (hd = chdr) as -> by congruence.
  destruct (add_parent g hs tds T hdr A ptd P) as (p & Hp & Np). pose proof (num_nonneg g hs tds T _ _ Hp) as Zp.
  destruct (a_stored _ _ _ A) as (Ho & Ls & En & U). destruct (a_number _ _ _ A) as [N1 N2].
  destruct (hc_GetTd_holds g hs tds T (hd_ParentHash hdr) (pred64 (num hdr)) s D C) as (s1 & E1 & S1 & C1).
  { split; [apply (ho_ParentHash _ Ho)|]. split; [apply u64_range|]. intros q Hq. unfold pred64. rewrite u64_small; unfold is_u64 in *; [|lia].
    assert (q = p) as -> by congruence. lia. }
  destruct (hc_GetTd_holds g hs tds T head (num chdr) s1) as (s2 & E2 & S2 & C2); [by rewrite (proj1 S1)|done| |].
  { split; [apply (tree_len _ _ _ T); by exists chdr|]. split; [exact (tree_u64 _ _ _ T _ _ Hhd)|]. intros; congruence. }
  destruct (hc_written g hs tds head s hdr ptd s2 I A P (same_trans _ _ _ S1 S2) C2)
    as (s3 & E3 & s4 & E4 & T' & D4 & C4 & G4 & Cu4 & Ch4 & K4 & chdr' & Cu5 & Hh4 & N4). assert (chdr' = chdr) as -> by congruence.
  unfold hc_WriteHeader. go_step (header_number_eq hdr (num hdr) s En U). rewrite P in E1. go_step E1.
  destruct S1 as (_ & _ & S13 & S14). go_step. rewrite S13, Cu. go_step. go_step (tree_number g hs tds T head chdr s1 Hhd). go_step.
  rewrite S14, Hh. rewrite Hlt in E2. go_step E2. destruct (ho_Difficulty _ Ho) as (d & Ed & _).
  assert (Df : diff hdr = d) by (unfold diff; by rewrite Ed). rewrite Df in *. rewrite Ed. go_step. go_step E3. go_step E4. go_step.
  unfold preferred in *. rewrite Hlt in *. cbn [default] in *. unfold id in *.
  destruct ((lt <? d + ptd) || ((d + ptd =? lt) && coin)).
  - destruct (become_head_spec g _ _ fuel hdr head chdr s4 T' (lookup_insert_eq _ _ _) N1 Hh4 D4 C4 N4 F1 F2)
      as (s5 & E5 & D5 & C5 & G5 & Cu6 & Ch5 & K5 & N5).
    erewrite go_bind_ok; [|rewrite (go_bind_ok _ _ _ _ _ E5); reflexivity]. cbn beta. go_step. go_step. eexists. split; [reflexivity|].
    apply (hc_holds_cached _ _ _ _ s5 hdr); [|apply lookup_insert_eq]. split; try done; [by rewrite G5|]. exists hdr. by rewrite lookup_insert_eq.
  - do 3 go_step. eexists. split; [reflexivity|].
    apply (hc_holds_cached _ _ _ _ s4 hdr); [|apply lookup_insert_eq]. split; try done. exists chdr. by rewrite Cu4.
Qed.

(** ** Importing a chain of headers *)

Definition add_header (t : headers * difficulties) (hdr : Header) : headers * difficulties :=
  (<[Header_Hash hdr := hdr]> (fst t), <[Header_Hash hdr := diff hdr + default 0 (snd t !! hd_ParentHash hdr)]> (snd t)).
Definition added (t : headers * difficulties) (chain : list Header) : headers * difficulties := foldl add_header t chain.

(** Each header can be added, below a parent that is known by then. *)
Fixpoint importable (t : headers * difficulties) (chain : list Header) : Prop :=
  match chain with
  | [] => True
  | hdr :: chain => addable (fst t) (snd t) hdr /\ is_Some (fst t !! hd_ParentHash hdr) /\ importable (add_header t hdr) chain
  end.

Lemma HasHeader_holds g hs tds head s hdr :
  hc_holds g hs tds head s -> addable hs tds hdr ->
  exists b, hc_HasHeader (Header_Hash hdr) (num hdr) s = Ok (s, inr b) /\ (b = true -> hs !! Header_Hash hdr = Some hdr).
Proof.
  intros [T D [C1 _ C3] _ _ _ _ _] A. unfold hc_HasHeader, gets. eexists. split; [reflexivity|]. intros B.
  assert (X : is_Some (hs !! Header_Hash hdr)).
  { apply orb_true_iff in B as [B|B]; [apply orb_true_iff in B as [B|B]|].
    - destruct (lru_Contains_all _ _ _ _ C3 B) as (n & d & H & _). by exists d.
    - by destruct (lru_Contains_all _ _ _ _ C1 B) as (d & H).
    - destruct (D (Header_Hash hdr) (len_Header_Hash hdr)) as [_ G]. destruct (G (num hdr)) as (_ & _ & X); [by eapply add_u64|]. destruct (X B) as (d & H & _). by exists d. }
  destruct X as [d Hd]. destruct (a_fresh _ _ _ A) as [F|F]; congruence.
Qed.

(** One round of the loop, the header known or not. *)
Lemma import_one fuel coin g hs tds head s hdr :
  hc_holds g hs tds head s -> addable hs tds hdr -> is_Some (hs !! hd_ParentHash hdr) ->
  (S (height hdr) < fuel)%nat -> (forall d, hs !! head = Some d -> (S (height d) < fuel)%nat) ->
  exists b s' head', hc_HasHeader (Header_Hash hdr) (num hdr) s = Ok (s, inr b) /\
    (if b then mret tt else hc_WriteHeader fuel coin hdr;; mret tt) s = Ok (s', inr tt) /\
    hc_holds g (fst (add_header (hs, tds) hdr)) (snd (add_header (hs, tds) hdr)) head' s' /\
    (head' = head \/ head' = Header_Hash hdr) /\
    (forall d, fst (add_header (hs, tds) hdr) !! head' = Some d -> (S (height d) < fuel)%nat).
Proof.
  intros I A [p Hp] F1 F2. destruct (HasHeader_holds g hs tds head s hdr I A) as (b & Eb & Kn).
  destruct (proj1 (t_dom _ _ _ (h_tree _ _ _ _ _ I) (hd_ParentHash hdr)) ltac:(eauto)) as [ptd P].
  destruct (h_head _ _ _ _ _ I) as (chdr & Hc & Cu & _).
  pose proof (add_mono g hs tds (h_tree _ _ _ _ _ I) hdr A ptd P) as M.
  unfold add_header. cbn [fst snd]. rewrite P. cbn [default]. unfold id. exists b. destruct b.
  - exists s, head. destruct (add_cases g hs tds (h_tree _ _ _ _ _ I) hdr A ptd P) as [[F _]|[-> ->]]; [rewrite Kn in F by done; done|].
    split; [done|]. split; [done|]. split; [done|]. split; [by left|done].
  - destruct (WriteHeader_known fuel coin g hs tds head s hdr ptd chdr I A P Cu F1 (F2 chdr Hc)) as (s' & E & I').
    cbn zeta in I'. eexists s', _. split; [done|]. split; [by go_step E|]. split; [exact I'|]. destruct (preferred _ _ _ _).
    + split; [by right|]. intros d. rewrite lookup_insert_eq. by intros [= <-].
    + split; [by left|]. intros d. rewrite (M _ _ Hc). intros [= <-]. by apply F2.
Qed.

Lemma import_all fuel interrupt coins g : forall chain i t head s,
  hc_holds g (fst t) (snd t) head s -> importable t chain ->
  Forall (fun h => (S (height h) < fuel)%nat) chain -> (forall d, fst t !! head = Some d -> (S (height d) < fuel)%nat) ->
  exists k s' head', insert_headers fuel interrupt coins i chain s = Ok (s', if (k =? length chain)%nat then inr tt else inl ErrAborted) /\
    (k <= length chain)%nat /\ (forall j, (j < k)%nat -> interrupt (i + j)%nat = false) /\
    ((k < length chain)%nat -> interrupt (i + k)%nat = true) /\
    hc_holds g (fst (added t (take k chain))) (snd (added t (take k chain))) head' s' /\
    (head' = head \/ head' ∈ Header_Hash <$> take k chain).
Proof.
  induction chain as [|hdr chain IH]; intros i t head s I Im Fo Fh.
  { exists O, s, head. cbn. split; [done|]. split; [lia|]. split; [lia|]. split; [lia|]. split; [done|by left]. }
  destruct Im as (A & Pa & Im). apply list.Forall_cons in Fo as [F1 Fo]. cbn [insert_headers]. destruct (interrupt i) eqn:Ei.
  { exists O, s, head. cbn. rewrite Nat.add_0_r. split; [done|]. split; [lia|]. split; [lia|]. split; [done|]. split; [done|by left]. }
  destruct (a_stored _ _ _ A) as (_ & _ & En & U). destruct t as [hs tds].
  destruct (import_one fuel (coins i) g hs tds head s hdr I A Pa F1 Fh) as (b & s1 & head1 & Eb & E1 & I1 & H1 & F2).
  destruct (IH (S i) (add_header (hs, tds) hdr) head1 s1 I1 Im Fo F2) as (k & s' & head' & E & Lk & Lo & Hi & I' & H').
  exists (S k), s', head'. go_step (header_number_eq hdr (num hdr) s En U). go_step Eb. go_step E1.
  split; [exact E|]. cbn [length take fmap list_fmap]. split; [lia|].
  split. { intros [|j] Hj; [by rewrite Nat.add_0_r|]. replace (i + S j)%nat with (S i + j)%nat by lia. apply Lo. lia. }
  split. { intros Hk. replace (i + S k)%nat with (S i + k)%nat by lia. apply Hi. lia. }
  split; [exact I'|]. rewrite list.elem_of_cons. destruct H' as [ -> |H']; [|by right; right]. destruct H1 as [ -> | -> ]; [by left|by right; left].
Qed.

(** ** Reading the canonical chain *)

Lemma GetHeaderByNumber_holds g hs tds head s hdr (i : nat) :
  hc_holds g hs tds head s -> hs !! head = Some hdr -> Z.of_nat i < 2 ^ 64 ->
  exists s', hc_GetHeaderByNumber (Z.of_nat i) s = Ok (s', inr (h ← ancestry hs (height hdr) head !! i; hs !! h)) /\
    hc_holds g hs tds head s' /\ chainDb s' = chainDb s.
Proof.
  intros I H Hi. pose proof I as [T D C G Hh K (d & Hd & Cu & Nm) Hv]. assert (d = hdr) as -> by congruence.
  unfold hc_GetHeaderByNumber. go_step. rewrite (GetCanonicalHash_numbering _ _ i Nm Hi).
  2: { intros h E. by apply (ancestry_hashes g hs tds T head hdr H i h). }
  destruct (ancestry hs (height hdr) head !! i) as [h|] eqn:E; cbn [default]; unfold id.
  - destruct (ancestry_stored g hs tds T head hdr H i h E) as (x & Hx & Ex). destruct (t_hash _ _ _ T _ _ Hx) as (_ & _ & _ & Nz).
    rewrite bool_decide_false by done.
    destruct (hc_GetHeader_holds g hs tds T h (Z.of_nat i) s D C) as (s' & E' & (S1 & S2 & S3 & S4) & C').
    { split; [apply (tree_len _ _ _ T); by exists x|]. split; [by unfold is_u64; lia|]. intros y Hy. assert (y = x) as -> by congruence.
      pose proof (num_nonneg _ _ _ T _ _ Hx). rewrite <- Ex. unfold height. lia. }
    exists s'. split; [exact E'|]. split; [|done]. split; rewrite ?S1, ?S2, ?S3, ?S4; try done. exists hdr. by rewrite Cu.
  - rewrite bool_decide_true by done. exists s. done.
Qed.

(** ** The common ancestor *)

Section Common.
Context (g : bytes) (hs : headers) (tds : difficulties) (T : tree_ok g hs tds) (db : database) (D : db_holds db hs tds).

Lemma num64_tree h hdr : hs !! h = Some hdr -> num64 hdr = Ok (Z.of_nat (height hdr)).
Proof.
  intros H. pose proof (num_nonneg _ _ _ T _ _ H). apply (t_hash _ _ _ T) in H as (_ & (_ & _ & E & U) & _). unfold num64. rewrite E, big_Uint64_u64 by done.
  unfold height. f_equal. lia.
Qed.

Lemma parent_in_tree h hdr n : hs !! h = Some hdr -> height hdr = S n ->
  exists p, parent_in db hdr = Ok (Some p) /\ hs !! hd_ParentHash hdr = Some p /\ height p = n /\
    ancestry hs (S n) h = ancestry hs n (hd_ParentHash hdr) ++ [h].
Proof.
  intros H Eh. destruct (parent_numbered g hs tds T h hdr H) as (p & Hp & Ep & Pn & Nu); [unfold height in Eh; lia|].
  exists p. unfold parent_in. rewrite (num64_tree h hdr H). cbn [mbind outcome_bind].
  assert (Z.of_nat (height hdr) = num hdr) as -> by (pose proof (num_nonneg _ _ _ T _ _ H); unfold height; lia).
  rewrite Pn, (GetHeader_holds g hs tds T db) by done. rewrite Hp. split; [done|]. split; [done|]. split; [lia|].
  cbn [ancestry]. unfold parent_of. by rewrite H.
Qed.

Lemma descend_spec (m : nat) : forall n fuel h hdr, hs !! h = Some hdr -> height hdr = n -> (n < fuel)%nat ->
  exists x d, descend fuel db hdr (Z.of_nat m) = Ok (Some d) /\ hs !! x = Some d /\ height d = Nat.min n m /\
    ancestry hs n h !! Nat.min n m = Some x.
Proof.
  induction n as [|n IH]; intros fuel h hdr H Eh F; (destruct fuel as [|fuel]; [lia|]); cbn [descend];
    rewrite (num64_tree h hdr H), Eh; cbn [mbind outcome_bind].
  - rewrite (proj2 (Z.ltb_ge _ _)) by lia. by exists h, hdr.
  - destruct (Z.ltb_spec (Z.of_nat m) (Z.of_nat (S n))) as [L|L].
    + destruct (parent_in_tree h hdr n H Eh) as (p & -> & Hp & Hn & ->). cbn [mbind outcome_bind].
      destruct (IH fuel (hd_ParentHash hdr) p Hp Hn) as (x & d & E & Hx & Ed & Ax); [lia|]. exists x, d.
      replace (Nat.min (S n) m) with (Nat.min n m) by lia. rewrite lookup_app_l by (rewrite length_ancestry; lia). done.
    + replace (Nat.min (S n) m) with (S n) by lia. exists h, hdr. split; [done|]. split; [done|]. split; [done|apply ancestry_last].
Qed.

Lemma meet_spec : forall n fuel a ahdr b bhdr, hs !! a = Some ahdr -> hs !! b = Some bhdr -> height ahdr = n -> height bhdr = n -> (n < fuel)%nat ->
  exists k x d, meet fuel db ahdr bhdr = Ok (Some d) /\ hs !! x = Some d /\ ancestry hs n a !! k = Some x /\ ancestry hs n b !! k = Some x /\
    forall j, (k < j <= n)%nat -> ancestry hs n a !! j <> ancestry hs n b !! j.
Proof.
  induction n as [|n IH]; intros fuel a ahdr b bhdr Ha Hb Ea Eb F; (destruct fuel as [|fuel]; [lia|]); cbn [meet];
    destruct (t_hash _ _ _ T _ _ Ha) as (-> & _); destruct (t_hash _ _ _ T _ _ Hb) as (-> & _).
  - assert (a = g) as -> by (apply (t_root _ _ _ T a ahdr Ha); pose proof (num_nonneg _ _ _ T _ _ Ha); unfold height in *; lia).
    assert (b = g) as -> by (apply (t_root _ _ _ T b bhdr Hb); pose proof (num_nonneg _ _ _ T _ _ Hb); unfold height in *; lia).
    rewrite bool_decide_true by done. exists O, g, ahdr. split; [done|]. split; [done|]. split; [done|]. split; [done|]. lia.
  - case_bool_decide as E.
    { exists (S n), a, ahdr. rewrite <- E, ancestry_last. split; [done|]. split; [done|]. split; [done|]. split; [done|]. lia. }
    destruct (parent_in_tree a ahdr n Ha Ea) as (p & -> & Hp & Hn & Ap). cbn [mbind outcome_bind].
    destruct (parent_in_tree b bhdr n Hb Eb) as (q & -> & Hq & Hm & Aq). cbn [mbind outcome_bind].
    destruct (IH fuel _ p _ q Hp Hq Hn Hm) as (k & x & d & E' & Hx & Ka & Kb & Df); [lia|]. exists k, x, d.
    pose proof (lookup_lt_Some _ _ _ Ka) as Lk. rewrite length_ancestry in Lk. split; [done|]. split; [done|].
    rewrite Ap, Aq. rewrite !lookup_app_l by (rewrite length_ancestry; lia). split; [done|]. split; [done|].
    intros j Hj. destruct (decide (j = S n)) as [->|Nj].
    + rewrite !lookup_app_r by (rewrite length_ancestry; lia). rewrite !length_ancestry, Nat.sub_diag. cbn. congruence.
    + rewrite !lookup_app_l by (rewrite length_ancestry; lia). apply Df. lia.
Qed.

Lemma common_ancestor fuel a ahdr b bhdr :
  hs !! a = Some ahdr -> hs !! b = Some bhdr -> (height ahdr < fuel)%nat -> (height bhdr < fuel)%nat ->
  exists k x d, FindCommonAncestor fuel db ahdr bhdr = Ok (Some d) /\ hs !! x = Some d /\
    ancestry hs (height ahdr) a !! k = Some x /\ ancestry hs (height bhdr) b !! k = Some x /\
    forall j y, (k < j)%nat -> ancestry hs (height ahdr) a !! j = Some y -> ancestry hs (height bhdr) b !! j <> Some y.
Proof.
  intros Ha Hb Fa Fb. unfold FindCommonAncestor. rewrite (num64_tree b bhdr Hb). cbn [mbind outcome_bind].
  destruct (descend_spec (height bhdr) (height ahdr) fuel a ahdr Ha eq_refl Fa) as (a' & da & -> & Ha' & Na & Aa). cbn [mbind outcome_bind].
  rewrite (num64_tree a' da Ha'). cbn [mbind outcome_bind].
  destruct (descend_spec (height da) (height bhdr) fuel b bhdr Hb eq_refl Fb) as (b' & d' & -> & Hb' & Nb & Ab). cbn [mbind outcome_bind].
  set (m := Nat.min (height ahdr) (height bhdr)) in *. assert (Em : (m <= height ahdr)%nat /\ (m <= height bhdr)%nat /\ (height ahdr = m \/ height bhdr = m)) by lia.
  clearbody m. replace (Nat.min (height bhdr) (height da)) with m in * by lia.
  destruct (meet_spec m fuel a' da b' d' Ha' Hb' Na Nb) as (k & x & d & E & Hx & Ka & Kb & Df); [lia|]. exists k, x, d.
  assert (Qa : forall j, (j <= m)%nat -> ancestry hs (height ahdr) a !! j = ancestry hs m a' !! j).
  { intros j Hj. rewrite <- (ancestry_take hs (height ahdr) a m a') by (done || lia). rewrite lookup_take_lt by lia. done. }
  assert (Qb : forall j, (j <= m)%nat -> ancestry hs (height bhdr) b !! j = ancestry hs m b' !! j).
  { intros j Hj. rewrite <- (ancestry_take hs (height bhdr) b m b') by (done || lia). rewrite lookup_take_lt by lia. done. }
  pose proof (lookup_lt_Some _ _ _ Ka) as Lk. rewrite length_ancestry in Lk. split; [done|]. split; [done|].
  rewrite Qa, Qb by lia. split; [done|]. split; [done|]. intros j y Hj Ey Ey'.
  pose proof (lookup_lt_Some _ _ _ Ey) as L1. pose proof (lookup_lt_Some _ _ _ Ey') as L2. rewrite length_ancestry in L1, L2.
  apply (Df j); [lia|]. rewrite <- Qa, <- Qb by lia. congruence.
Qed.
End Common.

(** ** Rewinding *)

(** A tree without some of its headers. *)
Definition without {V} (l : list bytes) (m : gmap bytes V) : gmap bytes V := filter (fun kv => kv.1 ∉ l) m.

Lemma lookup_without {V} (l : list bytes) (m : gmap bytes V) h : without l m !! h = if bool_decide (h ∈ l) then None else m !! h.
Proof.
  unfold without. case_bool_decide as E; [apply map_lookup_filter_None_2; right; cbn; tauto|].
  destruct (m !! h) as [v|] eqn:H; [by apply map_lookup_filter_Some_2|apply map_lookup_filter_None_2; by left].
Qed.

Lemma without_cons {V} (x : bytes) (l : list bytes) (m : gmap bytes V) : without (x :: l) m = base.delete x (without l m).
Proof.
  apply map_eq. intros h. rewrite lookup_without. destruct (decide (h = x)) as [->|N].
  - rewrite lookup_delete_eq, bool_decide_true; [done|]. apply list.elem_of_cons. by left.
  - rewrite lookup_delete_ne, lookup_without by done. rewrite (bool_decide_ext (h ∈ x :: l) (h ∈ l)); [done|]. rewrite list.elem_of_cons. tauto.
Qed.

Lemma without_nil {V} (m : gmap bytes V) : without [] m = m.
Proof. apply map_eq. intros h. rewrite lookup_without, bool_decide_false; [done|]. apply not_elem_of_nil. Qed.

(** A callback that deletes neither headers nor numbers. *)
Definition keeps_headers (delFn : bytes -> Z -> database -> database) : Prop :=
  forall h n db k, key_ok k -> tree_key k \/ (exists i, k = KCanonical i) -> delFn h n db !! key_of k = db !! key_of k.

Lemma db_holds_delete db hs tds h hdr :
  len h = 32 -> is_u64 (num hdr) -> hs !! h = Some hdr -> db_holds db hs tds ->
  db_holds (DeleteTd h (num hdr) (DeleteHeader h (num hdr) db)) (base.delete h hs) (base.delete h tds).
Proof.
  intros L U H D x Lx. destruct (D x Lx) as [E G]. unfold DeleteTd, DeleteHeader.
  change (tdKey h (num hdr)) with (key_of (KTd h (num hdr))). change (headerKey h (num hdr)) with (key_of (KHeader h (num hdr))).
  change (numberKey h) with (key_of (KNumber h)). destruct (decide (x = h)) as [->|N].
  - rewrite !lookup_delete_eq. split; [by dbget|]. intros n Un. destruct (G n Un) as (G1 & G2 & G3). unfold Has. rewrite !Get_Del, !lookup_Del by done.
    rewrite H in *. destruct (decide (num hdr = n)) as [<-|Nn].
    + split; [by rewrite decide_False, decide_True by (done || congruence)|]. split; [by rewrite decide_True|].
      rewrite decide_False, decide_True by (done || congruence). intros X%bool_decide_eq_true. by destruct X.
    + rewrite (proj2 (Z.eqb_neq _ _)) in * by done. rewrite !decide_False by congruence. split; [done|]. split; [by destruct (tds !! h)|].
      intros X. destruct (G3 X) as (d & [= <-] & ?). congruence.
  - rewrite !lookup_delete_ne by done. split; [rewrite !Get_Del by done; by rewrite !decide_False by congruence|]. intros n Un. unfold Has. rewrite !Get_Del, !lookup_Del by done.
    rewrite !decide_False by congruence. by apply G.
Qed.

Section Rewind.
Context (g : bytes) (hs : headers) (tds : difficulties) (T : tree_ok g hs tds).

(** The caches know the whole tree, the database at least the header that is asked for. *)
Lemma hc_GetHeader_found h n hdr s :
  caches_ok hs tds s -> hs !! h = Some hdr -> Get (chainDb s) (key_of (KHeader h n)) = enc_header hdr ->
  exists s', hc_GetHeader h n s = Ok (s', inr (Some hdr)) /\ same s s' /\ caches_ok hs tds s'.
Proof.
  intros [C1 C2 C3] H G. unfold hc_GetHeader, mbind, go_bind, gets, modify.
  destruct (lru_Get_all _ _ h _ C1) as [Cg Hg]. destruct (lru_Get h (headerCache s)) as [[t|] c]; cbn [fst snd] in *.
  - assert (t = hdr) as -> by (specialize (Hg t eq_refl); congruence). eexists. split; [reflexivity|]. by split.
  - unfold read. cbn [chainDb set_headerCache set_caches]. destruct (t_hash _ _ _ T _ _ H) as (_ & S & _). rewrite (GetHeader_enc hdr _ _ _ _ S G).
    cbn [mbind outcome_bind]. eexists. split; [reflexivity|]. split; [done|]. split; cbn; try done. by apply lru_Add_all.
Qed.

Definition keeps_numbers (db db' : database) : Prop := forall i, is_u64 i -> db' !! key_of (KCanonical i) = db !! key_of (KCanonical i).

Lemma delete_keeps_numbers h n db : len h = 32 -> is_u64 n -> keeps_numbers db (DeleteTd h n (DeleteHeader h n db)).
Proof.
  intros L U i Ui. unfold DeleteTd, DeleteHeader. change (tdKey h n) with (key_of (KTd h n)). change (headerKey h n) with (key_of (KHeader h n)).
  change (numberKey h) with (key_of (KNumber h)). by rewrite !lookup_Del.
Qed.

Lemma rewind_spec delFn (m : nat) : keeps_headers delFn -> forall n fuel h hdr l s,
  hs !! h = Some hdr -> height hdr = (m + n)%nat -> (n < fuel)%nat -> caches_ok hs tds s -> currentHeader s = Some hdr ->
  (forall i x, ancestry hs (m + n) h !! i = Some x -> x ∉ l) ->
  db_holds (chainDb s) (without l hs) (without l tds) ->
  exists s' x d, rewind fuel (Z.of_nat m) delFn s = Ok (s', inr tt) /\ hs !! x = Some d /\ ancestry hs (m + n) h !! m = Some x /\
    currentHeader s' = Some d /\ genesisHeader s' = genesisHeader s /\
    keeps_numbers (chainDb s) (chainDb s') /\
    let l' := drop (S m) (ancestry hs (m + n) h) ++ l in db_holds (chainDb s') (without l' hs) (without l' tds).
Proof.
  intros Kf. induction n as [|n IH]; intros fuel h hdr l s H Eh F C Cu Nl D; (destruct fuel as [|fuel]; [lia|]); cbn [rewind];
    pose proof (num_nonneg _ _ _ T _ _ H) as Zh; go_step; rewrite Cu; go_step (tree_number g hs tds T h hdr s H).
  - rewrite Nat.add_0_r in *. rewrite (proj2 (Z.leb_le _ _)) by (unfold height in Eh; lia). exists s, h, hdr. rewrite ancestry_last.
    cbn zeta. rewrite drop_ge by (rewrite length_ancestry; lia). done.
  - rewrite (proj2 (Z.leb_gt _ _)) by (unfold height in Eh; lia). destruct (t_hash _ _ _ T _ _ H) as (Eq & _). rewrite Eq.
    pose proof (tree_u64 _ _ _ T _ _ H) as U. assert (Lh : len h = 32) by (apply (tree_len _ _ _ T); by exists hdr).
    destruct (parent_numbered g hs tds T h hdr H) as (p & Hp & Ep & Pn & Nu); [unfold height in Eh; lia|].
    assert (Ap : ancestry hs (m + S n) h = ancestry hs (m + n) (hd_ParentHash hdr) ++ [h]).
    { replace (m + S n)%nat with (S (m + n)) by lia. cbn [ancestry]. unfold parent_of. by rewrite H. }
    assert (Hl : hs !! h = without l hs !! h).
    { rewrite lookup_without, bool_decide_false; [done|]. apply (Nl (m + S n)%nat). apply ancestry_last. }
    do 3 go_step. set (db' := DeleteTd h (num hdr) (DeleteHeader h (num hdr) (delFn h (num hdr) (chainDb s)))).
    assert (D' : db_holds db' (without (h :: l) hs) (without (h :: l) tds)).
    { rewrite !without_cons. apply db_holds_delete; [done|done|by rewrite <- Hl|]. eapply db_holds_frame; [|exact D]. intros k Kk Tk. apply Kf; [done|by left]. }
    assert (Nl' : forall i x, ancestry hs (m + n) (hd_ParentHash hdr) !! i = Some x -> x ∉ h :: l).
    { intros i x Ex. pose proof (lookup_lt_Some _ _ _ Ex) as Li. rewrite length_ancestry in Li. rewrite list.not_elem_of_cons. split.
      - intros ->. replace (m + n)%nat with (height p) in Ex by lia. destruct (ancestry_stored g hs tds T _ p Hp i h Ex) as (d & Hd & Ed).
        assert (d = hdr) as -> by congruence. lia.
      - apply (Nl i). rewrite Ap. by apply lookup_app_l_Some. }
    assert (Gp : Get db' (key_of (KHeader (hd_ParentHash hdr) (Z.of_nat (height p)))) = enc_header p).
    { destruct Nu as (Lp & Up & Np). destruct (D' _ Lp) as [_ G]. destruct (G _ Up) as (-> & _). rewrite lookup_without, bool_decide_false.
      - by rewrite Hp, (Np p Hp), Z.eqb_refl.
      - apply (Nl' (m + n)%nat). apply ancestry_last. }
    destruct (hc_GetHeader_found _ _ p (set_db db' s) ltac:(by destruct C) Hp Gp) as (s1 & E1 & (S1 & S2 & S3 & S4) & C1).
    rewrite Pn. erewrite go_bind_ok by exact E1. cbn beta. go_step. cbn [chainDb set_db] in S1.
    destruct (IH fuel (hd_ParentHash hdr) p (h :: l) (set_head (Some p) (currentHeaderHash s1) s1)) as (s2 & x & d & E2 & Hx & Ax & Cu2 & G2 & K2 & D2);
      try done; [lia|lia|by destruct C1|cbn; by rewrite S1|].
    cbn [chainDb set_head genesisHeader] in *. exists s2, x, d. split; [done|]. split; [done|].
    split. { rewrite Ap. by apply lookup_app_l_Some. } split; [done|]. split; [by rewrite G2, S2|].
    split. { intros i Ui. rewrite K2, S1 by done. unfold db'. rewrite delete_keeps_numbers by done. apply Kf; [done|right; by exists i]. }
    rewrite Ap, drop_app_le by (rewrite length_ancestry; lia). rewrite <- app_assoc. exact D2.
Qed.
End Rewind.

Lemma delete_numbers_spec (m : nat) : forall k s f, numbering (chainDb s) f -> Z.of_nat (m + k) < 2 ^ 64 ->
  exists db, delete_numbers (Z.of_nat m) k s = Ok (set_db db s, inr tt) /\ only_numbers (chainDb s) db /\
    numbering db (fun i => if ((m <? i) && (i <=? m + k))%nat then None else f i).
Proof.
  induction k as [|k IH]; intros s f N B.
  - exists (chainDb s). split; [by destruct s|]. split; [done|]. eapply numbering_ext; [exact N|]. intros i _.
    destruct (Nat.ltb_spec m i), (Nat.leb_spec i (m + 0)); try done. lia.
  - cbn [delete_numbers]. replace (Z.of_nat m + Z.of_nat (S k)) with (Z.of_nat (m + S k)) by lia. go_step.
    destruct (numbering_delete _ f (m + S k) N B) as [N1 O1].
    destruct (IH (set_db (DeleteCanonicalHash (Z.of_nat (m + S k)) (chainDb s)) s) _ N1 ltac:(lia)) as (db & E & O & Nd).
    exists db. split; [exact E|]. split; [by eapply only_numbers_trans|]. eapply numbering_ext; [exact Nd|]. intros i _. cbn beta.
    destruct (Nat.eqb_spec i (m + S k)), (Nat.ltb_spec m i), (Nat.leb_spec i (m + k)), (Nat.leb_spec i (m + S k)); cbn; done || lia.
Qed.

(** [SetHead] to a number [m] that is not above the head [head] of a header chain ends
    (with fuel for the chain's height) with the ancestor of the old head at height [m] as the
    head, in memory and in the database; exactly the headers of the old canonical chain above
    [m], with their total difficulties, are gone, and the canonical numbering is the
    ancestry of the new head, provided the callback deletes neither headers nor numbers. *)
Theorem SetHead_rewinds fuel delFn g hs tds head s hdr (m : nat) :
  hc_holds g hs tds head s -> keeps_headers delFn -> hs !! head = Some hdr -> (m <= height hdr)%nat -> (height hdr < fuel)%nat ->
  let l := drop (S m) (ancestry hs (height hdr) head) in
  exists s' x d, hc_SetHead fuel (Z.of_nat m) delFn s = Ok (s', inr tt) /\
    ancestry hs (height hdr) head !! m = Some x /\ hs !! x = Some d /\
    currentHeader s' = Some d /\ currentHeaderHash s' = x /\ Get (chainDb s') (key_of KHeadHeader) = x /\
    db_holds (chainDb s') (without l hs) (without l tds) /\ caches_ok (without l hs) (without l tds) s' /\
    numbering (chainDb s') (fun i => ancestry hs m x !! i).
Proof.
  intros [T D C G Hh K (hd & Hhd & Cu & Nm) _] Kf H Lm F. cbn zeta. assert (hd = hdr) as -> by congruence.
  destruct (t_hash _ _ _ T _ _ H) as (_ & _ & Bn & _). pose proof (num_nonneg _ _ _ T _ _ H) as Zn.
  destruct (rewind_spec g hs tds T delFn m Kf (height hdr - m) fuel head hdr [] s) as (s1 & x & d & E1 & Hx & Ax & Cu1 & _ & K1 & D1);
    try done; [lia|lia|intros; apply not_elem_of_nil|by rewrite !without_nil|].
  replace (m + (height hdr - m))%nat with (height hdr) in * by lia. cbn zeta in D1. rewrite app_nil_r in D1.
  assert (N1 : numbering (chainDb s1) (fun i => ancestry hs (height hdr) head !! i)).
  { intros i Hi. rewrite (Get_lookup (chainDb s)) by (apply K1; unfold is_u64; lia). by apply Nm. }
  destruct (delete_numbers_spec m (height hdr - m) s1 _ N1) as (db & E2 & O2 & N2); [unfold height in *; lia|].
  unfold hc_SetHead. go_step. rewrite Cu. go_step (tree_number g hs tds T head hdr s H). go_step E1.
  replace (Z.to_nat (num hdr - Z.of_nat m)) with (height hdr - m)%nat by (unfold height in *; lia). go_step E2. do 3 go_step.
  cbn [currentHeader set_caches set_db]. rewrite Cu1. cbn zeta. go_step. eexists _, x, d. split; [reflexivity|]. cbn [ptr_Hash].
  destruct (t_hash _ _ _ T _ _ Hx) as (Eq & _). rewrite Eq. split; [done|]. split; [done|].
  cbn [currentHeader currentHeaderHash chainDb set_db set_caches set_head]. split; [done|]. split; [done|].
  split. { unfold WriteHeadHeaderHash. change headHeaderKey with (key_of KHeadHeader). by dbget. }
  split. { apply db_holds_put_head. by eapply db_holds_numbers. }
  split. { split; cbn; apply lru_Purge_all. }
  apply numbering_put_head. eapply numbering_ext; [exact N2|]. intros i _. cbn beta.
  rewrite <- (ancestry_take hs (height hdr) head m x Lm Ax), lookup_take.
  destruct (Nat.ltb_spec m i), (Nat.leb_spec i (m + (height hdr - m))), (decide (i < S m)%nat); cbn; try done; try lia.
  apply lookup_ge_None. rewrite length_ancestry. lia.
Qed.

(** ** The chain that starts at a genesis header *)

Definition genesis_chain (gh : Header) (td : Z) : HeaderChain :=
  let hash := Header_Hash gh in
  let db := WriteHeadHeaderHash hash (WriteCanonicalHash hash 0
    (Put (key_of (KHeader hash 0)) (enc_header gh) (Put (key_of (KNumber hash)) (encodeBlockNumber 0)
    (Put (key_of (KTd hash 0)) (enc_string (be_min td)) ∅)))) in
  mkHeaderChain db (Some gh) (Some gh) hash (lru_New headerCacheLimit) (lru_New tdCacheLimit) (lru_New numberCacheLimit).

Lemma genesis_holds gh td :
  stored_header gh 0 -> Header_Hash gh <> zeros HashLength -> td_ok td ->
  hc_holds (Header_Hash gh) {[Header_Hash gh := gh]} {[Header_Hash gh := td]} (Header_Hash gh) (genesis_chain gh td).
Proof.
  intros St Nz Td. pose proof St as (_ & _ & En & U). assert (N0 : num gh = 0) by (unfold num; by rewrite En).
  pose proof (len_Header_Hash gh) as Lg. set (hash := Header_Hash gh) in *.
  assert (Ho : height gh = O) by (unfold height; by rewrite N0).
  assert (Lk : forall k, key_ok k -> chainDb (genesis_chain gh td) !! key_of k =
     if decide (KHeadHeader = k) then Some hash else if decide (KCanonical 0 = k) then Some hash else
     if decide (KHeader hash 0 = k) then Some (enc_header gh) else if decide (KNumber hash = k) then Some (encodeBlockNumber 0) else
     if decide (KTd hash 0 = k) then Some (enc_string (be_min td)) else None).
  { intros k K. unfold genesis_chain, WriteHeadHeaderHash, WriteCanonicalHash. cbn [chainDb]. fold hash.
    change headHeaderKey with (key_of KHeadHeader). change (canonicalKey 0) with (key_of (KCanonical 0)). by rewrite !lookup_Put by done. }
  split; try done.
  - split.
    + intros h d H%lookup_singleton_Some. destruct H as [<- <-]. rewrite N0. split; [done|]. split; [done|]. split; [lia|done].
    + exists gh. by rewrite lookup_singleton_eq.
    + intros h d H%lookup_singleton_Some. by destruct H as [<- _].
    + intros h d H%lookup_singleton_Some Nz'. destruct H as [<- <-]. done.
    + intros h. by rewrite !lookup_singleton_is_Some.
    + intros h t H%lookup_singleton_Some. by destruct H as [_ <-].
    + intros h d t H%lookup_singleton_Some Nz'. destruct H as [<- <-]. done.
  - intros h L. unfold Get, Has. rewrite Lk by done. destruct (decide (h = hash)) as [->|Ne].
    + rewrite !lookup_singleton_eq, N0. split; [by rewrite !decide_False, decide_True by (done || congruence)|]. intros n Un. rewrite !Lk by done.
      destruct (Z.eqb_spec 0 n) as [<-|Nn].
      * rewrite !decide_False, decide_True by (done || congruence). split; [done|]. split; [by rewrite !decide_False, decide_True by (done || congruence)|]. by exists gh.
      * rewrite !decide_False by congruence. split; [done|]. split; [done|]. by intros [x [=]]%bool_decide_eq_true.
    + rewrite !lookup_singleton_ne by done. split; [by rewrite !decide_False by congruence|]. intros n Un. rewrite !Lk by done.
      rewrite !decide_False by congruence. split; [done|]. split; [done|]. by intros [x [=]]%bool_decide_eq_true.
  - split; cbn; apply lru_New_all.
  - cbn. by rewrite lookup_singleton_eq.
  - unfold Get. rewrite Lk by done. by rewrite decide_True.
  - exists gh. rewrite lookup_singleton_eq. split; [done|]. split; [done|]. intros i Hi. unfold Get. rewrite Lk by by apply key_ok_number. rewrite Ho.
    destruct i as [|i]; [by rewrite decide_False, decide_True by done|]. rewrite !decide_False by (done || (intros [= ?]; lia)). done.
  - exists td. rewrite lookup_singleton_eq. split; [done|]. intros h t H%lookup_singleton_Some. destruct H as [_ <-]. lia.
Qed.

(** ** The theorems *)

(** C13. [WriteHeader] keeps what a header chain promises.  For a header that can be added to
    the tree of stored headers: if the parent is unknown it fails with [ErrUnknownAncestor]
    and nothing changes; otherwise it returns (never panics, fuel for both heights is
    enough), the tree has the header with the parent's total difficulty plus its own, and
    the head moves to it exactly if the new total is larger than the head's, or equal and
    the coin says so.  In every case afterwards the canonical numbering is exactly the
    ancestry of the head, no header is heavier than the head, and caches, database and
    memory agree. *)
Theorem WriteHeader_heaviest fuel coin g hs tds head s hdr :
  hc_holds g hs tds head s -> addable hs tds hdr ->
  (S (height hdr) < fuel)%nat -> (forall d, hs !! head = Some d -> (S (height d) < fuel)%nat) ->
  match tds !! hd_ParentHash hdr with
  | None => exists s', hc_WriteHeader fuel coin hdr s = Ok (s', inl ErrUnknownAncestor) /\ hc_holds g hs tds head s'
  | Some ptd =>
    let canon := preferred tds head (diff hdr + ptd) coin in
    exists s', hc_WriteHeader fuel coin hdr s = Ok (s', inr (if canon then CanonStatTy else SideStatTy)) /\
      hc_holds g (<[Header_Hash hdr := hdr]> hs) (<[Header_Hash hdr := diff hdr + ptd]> tds) (if canon then Header_Hash hdr else head) s'
  end.
Proof.
  intros I A F1 F2. pose proof I as [T _ _ _ _ _ (chdr & Hc & Cu & _) _]. destruct (tds !! hd_ParentHash hdr) as [ptd|] eqn:P.
  - by apply (WriteHeader_known fuel coin g hs tds head s hdr ptd chdr); auto.
  - apply (WriteHeader_unknown fuel coin g hs tds head s hdr); [done|done|]. destruct (hs !! hd_ParentHash hdr) eqn:E; [|done].
    destruct (proj1 (t_dom _ _ _ T (hd_ParentHash hdr)) ltac:(eauto)). congruence.
Qed.

(** [InsertHeaderChain] of headers each of which can be added below a known parent,
    whatever the interruptions and the coins: the headers before the first interruption are
    in the tree, no other, the result is [errors.New("aborted")] exactly if there was one,
    and the chain holds the new tree with a heaviest header as its head, the old one or one
    of the new ones. *)
Theorem InsertHeaderChain_imports fuel interrupt coins g t head s chain :
  hc_holds g (fst t) (snd t) head s -> importable t chain -> chain <> [] ->
  Forall (fun h => (S (height h) < fuel)%nat) chain -> (forall d, fst t !! head = Some d -> (S (height d) < fuel)%nat) ->
  exists k s' head',
    hc_InsertHeaderChain fuel interrupt coins chain s = Ok (s', if (k =? length chain)%nat then inr tt else inl ErrAborted) /\
    (k <= length chain)%nat /\ (forall j, (j < k)%nat -> interrupt j = false) /\ ((k < length chain)%nat -> interrupt k = true) /\
    hc_holds g (fst (added t (take k chain))) (snd (added t (take k chain))) head' s' /\
    (head' = head \/ head' ∈ Header_Hash <$> take k chain).
Proof.
  intros I Im Ne Fo Fh. destruct (import_all fuel interrupt coins g chain O t head s I Im Fo Fh) as (k & s' & head' & E & R).
  exists k, s', head'. split; [|exact R]. unfold hc_InsertHeaderChain. destruct (Nat.eqb_spec k (length chain)).
  - go_step E. by destruct chain.
  - by rewrite (go_bind_err _ _ _ _ _ E).
Qed.

(** [FindCommonAncestor] of two stored headers returns (with fuel for their heights) the
    header at which their ancestries meet: it is at the same height in both, and above it
    they have no header in common. *)
Theorem FindCommonAncestor_deepest fuel g hs tds db a ahdr b bhdr :
  tree_ok g hs tds -> db_holds db hs tds -> hs !! a = Some ahdr -> hs !! b = Some bhdr ->
  (height ahdr < fuel)%nat -> (height bhdr < fuel)%nat ->
  exists k x d, FindCommonAncestor fuel db ahdr bhdr = Ok (Some d) /\ hs !! x = Some d /\
    ancestry hs (height ahdr) a !! k = Some x /\ ancestry hs (height bhdr) b !! k = Some x /\
    forall j y, (k < j)%nat -> ancestry hs (height ahdr) a !! j = Some y -> ancestry hs (height bhdr) b !! j <> Some y.
Proof. intros T D. by apply (common_ancestor g hs tds T db D). Qed.

End HeaderChain.

(** ** Concrete instances *)

Module HeaderSamples.
#[local] Existing Instance tail_hasher.

(** A cache that forgets nothing. *)
#[local] Instance map_lru : Lru.
Proof.
  refine {| lru V := gmap bytes V; lru_New _ _ := ∅; lru_Get _ k c := (c !! k, c); lru_Contains _ k c := bool_decide (is_Some (c !! k));
    lru_Keys _ c := elements (dom c); lru_Peek _ k c := c !! k; lru_Add _ k v c := <[k := v]> c; lru_Remove _ k c := base.delete k c; lru_Purge _ _ := ∅; lru_all _ P c := map_Forall P c |}.
  - intros. apply map_Forall_empty.
  - intros V P k c H. split; [done|]. cbn. intros v. apply H.
  - intros V P k c v H Hv. by apply (H k).
  - intros V P k c H [v Hv]%bool_decide_eq_true. exists v. by apply (H k).
  - intros V P k v c H Hp. by apply map_Forall_insert_2.
  - intros V P k c H. by apply map_Forall_delete.
  - intros. apply map_Forall_empty.
  - intros V P Q c I H. by eapply map_Forall_impl.
Defined.

Definition chain_header (n : Z) (parent : bytes) (d nonce : Z) : Header :=
  mkHeader parent (repeat 6 32) (repeat 7 20) (repeat 8 20) (repeat 9 32) (repeat 10 32) (repeat 11 32) (repeat 12 32)
    (Some sample_proto) (zeros 256) (Some d) (Some n) (Some 1000000) (Some 21000) (Some 1440) (zeros 97) (zeros 32) (be_fixed 8 nonce).

Lemma chain_header_ok n parent d nonce : is_hash parent -> 0 <= n -> 0 <= d -> header_ok (chain_header n parent d nonce).
Proof.
  intros Hp Hn Hd. destruct sample_header_ok. split; cbn; try done.
  - by exists d.
  - by exists n.
  - split; [apply (be_fixed_ok 8 nonce)|apply (len_be_fixed 8 nonce)].
Qed.

Definition zero_header : Header := chain_header 0 (zeros 32) 1 1.
Definition h0 : bytes := Eval vm_compute in Header_Hash zero_header.
Definition header_a1 : Header := chain_header 1 h0 5 2.
Definition h_a1 : bytes := Eval vm_compute in Header_Hash header_a1.
Definition header_a2 : Header := chain_header 2 h_a1 5 3.
Definition header_b2 : Header := chain_header 2 h_a1 4 4.
Definition h_b2 : bytes := Eval vm_compute in Header_Hash header_b2.
Definition header_b3 : Header := chain_header 3 h_b2 4 5.

Definition chain0 : HeaderChain := genesis_chain zero_header 1.

Lemma chain0_holds : hc_holds (Header_Hash zero_header) {[Header_Hash zero_header := zero_header]} {[Header_Hash zero_header := 1]} (Header_Hash zero_header) chain0.
Proof.
  apply genesis_holds.
  - split; [apply chain_header_ok; [split; [done|repeat constructor; unfold byte_ok; lia]|lia|lia]|]. split; [by vm_compute|]. split; [done|by vm_compute].
  - by vm_compute.
  - split; [lia|by vm_compute].
Qed.

Lemma a1_addable : addable {[Header_Hash zero_header := zero_header]} {[Header_Hash zero_header := 1]} header_a1.
Proof.
  split.
  - split; [apply chain_header_ok; [split; [done|repeat constructor; unfold byte_ok; lia]|lia|lia]|].
    split; [by vm_compute|]. split; [done|by vm_compute].
  - split; [by vm_compute|by vm_compute].
  - by vm_compute.
  - left. by vm_compute.
  - intros p H%lookup_singleton_Some. by destruct H as [_ <-].
  - intros t H%lookup_singleton_Some. destruct H as [_ <-]. split; [by vm_compute|by vm_compute].
Qed.

Lemma parent_a1 : ({[Header_Hash zero_header := 1]} : gmap bytes Z) !! hd_ParentHash header_a1 = Some 1.
Proof. by vm_compute. Qed.

Lemma a1_preferred : preferred {[Header_Hash zero_header := 1]} (Header_Hash zero_header) (diff header_a1 + 1) false = true.
Proof. by vm_compute. Qed.

Lemma WriteHeader_heaviest_witness :
  exists s', hc_WriteHeader 5 false header_a1 chain0 = Ok (s', inr CanonStatTy) /\ currentHeaderHash s' = Header_Hash header_a1.
Proof.
  pose proof (WriteHeader_heaviest 5 false _ _ _ _ chain0 header_a1 chain0_holds a1_addable ltac:(apply Nat.ltb_lt; by vm_compute)) as W.
  rewrite parent_a1 in W. cbv zeta in W. rewrite a1_preferred in W. destruct W as (s' & E & I).
  - intros d H. apply lookup_singleton_Some in H as [_ <-]. apply Nat.ltb_lt. by vm_compute.
  - exists s'. split; [exact E|exact (h_hash _ _ _ _ _ I)].
Defined.

Lemma InsertHeaderChain_imports_witness :
  exists s', hc_InsertHeaderChain 5 (fun _ => false) (fun _ => false) [header_a1] chain0 = Ok (s', inr tt).
Proof.
  destruct (InsertHeaderChain_imports 5 (fun _ => false) (fun _ => false) _ ({[Header_Hash zero_header := zero_header]}, {[Header_Hash zero_header := 1]}) _
              chain0 [header_a1] chain0_holds) as (k & s' & head' & E & L & _ & Hi & _).
  - split; [apply a1_addable|]. split; [|done]. cbn [fst]. exists zero_header. by vm_compute.
  - done.
  - constructor; [apply Nat.ltb_lt; by vm_compute|constructor].
  - intros d H. cbn [fst] in H. apply lookup_singleton_Some in H as [_ <-]. apply Nat.ltb_lt. by vm_compute.
  - exists s'. assert (Ek : k = length [header_a1]).
    { destruct (Nat.lt_ge_cases k (length [header_a1])) as [X|X]; [discriminate (Hi X)|by apply Nat.le_antisymm]. }
    rewrite E, Ek, Nat.eqb_refl. reflexivity.
Defined.

Lemma FindCommonAncestor_deepest_witness : FindCommonAncestor 3 (chainDb chain0) zero_header zero_header = Ok (Some zero_header).
Proof.
  pose proof chain0_holds as I. assert (H : ({[Header_Hash zero_header := zero_header]} : gmap bytes Header) !! Header_Hash zero_header = Some zero_header) by apply lookup_singleton_eq.
  destruct (FindCommonAncestor_deepest 3 _ _ _ _ _ zero_header _ zero_header (h_tree _ _ _ _ _ I) (h_db _ _ _ _ _ I) H H) as (k & x & d & E & Hx & _).
  - apply Nat.ltb_lt. by vm_compute.
  - apply Nat.ltb_lt. by vm_compute.
  - rewrite E. apply lookup_singleton_Some in Hx as [_ <-]. reflexivity.
Defined.

Lemma SetHead_rewinds_witness : exists s', hc_SetHead 3 0 (fun _ _ db => db) chain0 = Ok (s', inr tt) /\ currentHeader s' = Some zero_header.
Proof.
  destruct (SetHead_rewinds 3 (fun _ _ db => db) _ _ _ _ chain0 zero_header 0 chain0_holds) as (s' & x & d & E & A & Hx & C & _).
  - by intros h n db k _ _.
  - apply lookup_singleton_eq.
  - apply Nat.le_0_l.
  - apply Nat.ltb_lt. by vm_compute.
  - exists s'. split; [exact E|]. rewrite C. apply lookup_singleton_Some in Hx as [_ <-]. reflexivity.
Defined.

Definition is_panic {E A} (m : outcome E A) : bool := match m with Panic => true | _ => false end.

Lemma is_panic_eq {E A} (m : outcome E A) : is_panic m = true -> m = Panic.
Proof. by destruct m. Qed.

(** Rewinding deletes the headers of the canonical chain but not those of side chains
    above the new head.  With a canonical chain [a1; a2] and a side header [b2] on [a1], after
    [SetHead(0)] the header [b2] is still stored without its parent, and inserting [b3] on top
    of it dereferences the missing parent while it rewrites the canonical numbering: the
    process panics. *)
Theorem SetHead_leaves_orphans :
  (hc_InsertHeaderChain 9 (fun _ => false) (fun _ => false) [header_a1; header_a2; header_b2];;
   hc_SetHead 9 0 (fun _ _ db => db);;
   hc_WriteHeader 9 false header_b3) chain0 = Panic.
Proof. apply is_panic_eq. vm_compute. reflexivity. Qed.
End HeaderSamples.
