(* ===== verification/GoSort.v ===== *)
(** * Go's [sort.Sort]

    A slice that implements [sort.Interface] is sorted by its [Less].  The algorithm of the
    library is not stable, so that its result is determined only where [Less] tells the
    elements apart; then it is the sorted permutation, whatever algorithm is used. *)

From stdpp Require Import sorting.
From S2P Require Import Prelude.

Section Sort.
Context {A : Type} (Less : A -> A -> bool).

(** [x] may stand before [y]: the library leaves no pair with [Less] the wrong way round. *)
Definition in_order (x y : A) : Prop := Less y x = false.

#[global] Instance in_order_dec x y : Decision (in_order x y).
Proof. unfold in_order. apply _. Defined.

Definition go_sort (l : list A) : list A := merge_sort in_order l.

Lemma go_sort_Permutation l : go_sort l ≡ₚ l.
Proof. apply merge_sort_Permutation. Qed.

Lemma elem_of_go_sort l x : x ∈ go_sort l <-> x ∈ l.
Proof. by rewrite go_sort_Permutation. Qed.

Lemma length_go_sort l : length (go_sort l) = length l.
Proof. by rewrite go_sort_Permutation. Qed.

Context (asym : forall x y, Less x y = true -> Less y x = false)
        (trans : forall x y z, Less y x = false -> Less z y = false -> Less z x = false).

#[local] Instance in_order_total : Total in_order.
Proof. intros x y. unfold in_order. destruct (Less y x) eqn:E; [right; by apply asym|by left]. Qed.

#[local] Instance in_order_trans : Transitive in_order.
Proof. intros x y z. apply trans. Qed.

Lemma go_sort_sorted l : StronglySorted in_order (go_sort l).
Proof. apply StronglySorted_merge_sort; apply _. Qed.

(** Every way of sorting gives the same slice where [Less] is total on the elements. *)
Lemma go_sort_unique l l' :
  (forall x y, x ∈ l -> y ∈ l -> Less x y = false -> Less y x = false -> x = y) ->
  l' ≡ₚ l -> StronglySorted in_order l' -> l' = go_sort l.
Proof.
  intros T P S. apply (StronglySorted_unique_strong in_order); [|done|apply go_sort_sorted|by rewrite go_sort_Permutation].
  intros x y Hx Hy. rewrite P in Hx. rewrite elem_of_go_sort in Hy. unfold in_order. intros E1 E2. by apply T.
Qed.

(** A prefix of the sorted slice holds the elements that come first. *)
Lemma go_sort_take n l x y :
  x ∈ take n (go_sort l) -> y ∈ drop n (go_sort l) -> Less y x = false.
Proof.
  intros Hx Hy. pose proof (go_sort_sorted l) as S. rewrite <- (take_drop n (go_sort l)) in S.
  by apply (StronglySorted_app_1_elem_of in_order _ _ x y S).
Qed.

End Sort.
