(* ===== verification/EpochContext.v ===== *)
(** * Package [consensus/poc]: the epochs

    [epoch_context.go]: counting contributions, removing inactive validators from the
    candidates, looking up the validator of a time slot, and the election of the validators
    of a new epoch.  [Address.Hex] of [common/types.go], which breaks ties in the election,
    is here too. *)

From stdpp Require Import sorting.
From S2P Require Import Prelude Rlp RlpStream TrieEncoding Common Codec Trie TrieModel TrieRefine TrieHash TrieMap TrieIterator.
From S2P Require Import PocContext SecureTrie StateDB StateRevert Keccak KeccakSponge Signature Transaction Block GoSort GoMonad.

(** ** Constants *)

Definition blockInterval : Z := 20.
Definition epochInterval : Z := 360.
Definition maxValidatorSize : nat := 3.
Definition safeSize : nat := maxValidatorSize * 2 / 3 + 1.
Definition consensusSize : nat := maxValidatorSize * 2 / 3 + 1.

(** ** Addresses as strings *)

Definition hex_digit (n : Z) : Z := if n <? 10 then 48 + n else 87 + n.

(** [hex.EncodeToString]. *)
Definition EncodeToString (b : bytes) : bytes := concat (map (fun x => [hex_digit (x / 16); hex_digit (x mod 16)]) b).

(** The digit at place [i] of the checksummed form: letters are capitals where the nibble
    of the hash is above 7. *)
Definition checksum_digit (hash : bytes) (i : nat) (c : Z) : Z :=
  let b := nth (i / 2) hash 0 in
  let hashByte := if Nat.even i then Z.shiftr b 4 else Z.land b 15 in
  if (57 <? c) && (7 <? hashByte) then c - 32 else c.

(** ** Pseudo-random numbers *)

(** [math/rand]: a source made from a seed, and [Int31n], whose result is below its
    argument. *)
Class GoRand := {
  Rand : Type;
  NewSource : Z -> Rand;
  Int31n : Z -> Rand -> Z * Rand;
  Int31n_range n r : 0 < n < 2 ^ 31 -> 0 <= fst (Int31n n r) < n
}.

(** Go's swap of two elements of a slice. *)
Definition swap {A} (i j : nat) (l : list A) : list A :=
  match l !! i, l !! j with Some x, Some y => <[i := y]> (<[j := x]> l) | _, _ => l end.

Record sortableAddress := mkSortable { sa_address : bytes; sa_weight : Z }.

Inductive epoch_error :=
| NoCandidates
| FailedToGetValidators (e : poc_error)
| NoValidatorToKickout
| ErrInvalidMintBlockTime
| FailedToLookup
| TooFewCandidates
| EpochPoc (e : poc_error)
| EpochTrie (e : trie_error).

Section Epoch.
Context {HS : Hasher} {ST : StateTrie} {GR : GoRand}.

Definition Address_Hex (a : bytes) : bytes :=
  let unchecksummed := EncodeToString a in
  text "0x" ++ imap (checksum_digit (keccak256 unchecksummed)) unchecksummed.

Definition Less (a b : sortableAddress) : bool :=
  if sa_weight a <? sa_weight b then false
  else if sa_weight b <? sa_weight a then true
  else match bytes_compare (Address_Hex (sa_address a)) (Address_Hex (sa_address b)) with Lt => true | _ => false end.

(** ** The context and its operations

    An operation changes the context also when it returns an error. *)

Record EpochContext := mkEpochContext {
  TimeStamp : Z;
  ec_PocContext : PocContext;
  ec_stateDB : option StateDB
}.

Definition EC : Type -> Type := go EpochContext epoch_error.

Definition time_stamp : EC Z := gets TimeStamp.

Definition set_pc (pc : PocContext) (ec : EpochContext) : EpochContext := mkEpochContext (TimeStamp ec) pc (ec_stateDB ec).
Definition set_state (s : StateDB) (ec : EpochContext) : EpochContext := mkEpochContext (TimeStamp ec) (ec_PocContext ec) (Some s).

(** An operation of the consensus context; one that fails leaves it as it is. *)
Definition on_pc {E A} (wrap : E -> epoch_error) (f : PocContext -> outcome E (A * PocContext)) : EC A :=
  on_part ec_PocContext set_pc wrap f.

Definition upd_pc {E} (wrap : E -> epoch_error) (f : PocContext -> outcome E PocContext) : EC unit :=
  on_pc wrap (fun pc => pc ← f pc; Ok (tt, pc)).

Definition on_candidates {A} (f : trie -> outcome trie_error (A * trie)) : EC A :=
  on_pc EpochTrie (fun pc => '(a, t) ← f (candidateTrie pc); Ok (a, SetCandidate t pc)).
Definition on_mintCnt {A} (f : trie -> outcome trie_error (A * trie)) : EC A :=
  on_pc EpochTrie (fun pc => '(a, t) ← f (mintCntTrie pc); Ok (a, SetMintCnt t pc)).

(** A nil state is dereferenced. *)
Definition on_state {A} (f : StateDB -> outcome unit (A * StateDB)) : EC A := fun ec =>
  match ec_stateDB ec with
  | None => Panic
  | Some s => match f s with Ok (a, s) => Ok (set_state s ec, inr a) | Err e => Err e | Panic => Panic | OutOfFuel => OutOfFuel end
  end.

Section Ops.
Context (fuel : nat) (db : database).

(** [iter.Next()] of an iterator over the candidates. *)
Definition next_candidate (it : nodeIterator) : EC (option (bytes * bytes) * nodeIterator) :=
  on_candidates (fun t => '(e, it, t) ← Iterator_Next fuel db t it; Ok (e, it, t)).

Fixpoint count_loop (rounds : nat) (e : option (bytes * bytes)) (it : nodeIterator) (ctb : list AccountContribution)
  : EC (list AccountContribution) :=
  match e with
  | None => mret ctb
  | Some (_, candidate) =>
    match rounds with
    | O => go_diverge
    | S rounds =>
      let candidateAddr := BytesToAddress candidate in
      c ← on_state (GetContribution candidateAddr);
      '(e, it) ← next_candidate it;
      count_loop rounds e it (ctb ++ [mkAccountContribution candidateAddr c])
    end
  end.

Definition countContributions : EC (list AccountContribution) :=
  it ← on_candidates (fun t => t_NodeIterator fuel db t []);
  '(e, it) ← next_candidate it;
  match e with
  | None => throw NoCandidates
  | Some _ => count_loop fuel e it []
  end.

(** The mint count of a validator in an epoch; a value of fewer than eight bytes makes
    [Uint64] panic. *)
Definition mint_key (epoch : Z) (validator : bytes) : bytes := be_fixed 8 (u64 epoch) ++ validator.

Definition mint_count (epoch : Z) (validator : bytes) : EC Z :=
  cntBytes ← on_mintCnt (fun t => Get db t (mint_key epoch validator));
  match cntBytes with
  | None => mret 0
  | Some b => if (length b <? 8)%nat then go_panic else mret (i64 (be_decode (take 8 b)))
  end.

Fixpoint inactive_loop (epoch threshold : Z) (validators : list bytes) : EC (list sortableAddress) :=
  match validators with
  | [] => mret []
  | v :: validators =>
    cnt ← mint_count epoch v;
    rest ← inactive_loop epoch threshold validators;
    mret (if cnt <? threshold then mkSortable v cnt :: rest else rest)
  end.

(** Counts the candidates up to a limit. *)
Fixpoint count_candidates (rounds : nat) (limit candidateCount : nat) (it : nodeIterator) : EC nat :=
  match rounds with
  | O => go_diverge
  | S rounds =>
    '(e, it) ← next_candidate it;
    match e with
    | None => mret candidateCount
    | Some _ =>
      let candidateCount := S candidateCount in
      if (limit <=? candidateCount)%nat then mret candidateCount else count_candidates rounds limit candidateCount it
    end
  end.

Fixpoint kickout_loop (candidateCount : nat) (l : list sortableAddress) : EC unit :=
  match l with
  | [] => mret tt
  | v :: l =>
    if (candidateCount <=? safeSize)%nat then mret tt
    else
      upd_pc EpochPoc (KickoutCandidate db (sa_address v));;
      kickout_loop (candidateCount - 1) l
  end.

(** The number of blocks below which a validator is inactive, for the duration of the epoch. *)
Definition mint_threshold (timeOfFirstBlock now : Z) : Z :=
  let epochDuration := if i64 (now - timeOfFirstBlock) <? epochInterval then i64 (now - timeOfFirstBlock) else epochInterval in
  ((epochDuration ÷ blockInterval) ÷ Z.of_nat maxValidatorSize) ÷ 2.

Definition kickoutValidator (timeOfFirstBlock epoch : Z) : EC unit :=
  validators ← on_pc FailedToGetValidators (GetValidators db);
  match validators with
  | [] => throw NoValidatorToKickout
  | _ =>
    now ← time_stamp;
    needKickoutValidators ← inactive_loop epoch (mint_threshold timeOfFirstBlock now) validators;
    match needKickoutValidators with
    | [] => mret tt
    | _ =>
      let needKickoutValidatorCnt := length needKickoutValidators in
      let needKickoutValidators := go_sort (fun a b => Less b a) needKickoutValidators in
      it ← on_candidates (fun t => t_NodeIterator fuel db t []);
      candidateCount ← count_candidates fuel (needKickoutValidatorCnt + safeSize) 0 it;
      kickout_loop candidateCount needKickoutValidators
    end
  end.

Definition lookupValidator (now : Z) : EC bytes :=
  let offset := Z.rem now epochInterval in
  if negb (Z.rem offset blockInterval =? 0) then throw ErrInvalidMintBlockTime
  else
    let offset := offset ÷ blockInterval in
    validators ← on_pc EpochPoc (GetValidators db);
    match validators with
    | [] => throw FailedToLookup
    | _ =>
      let offset := Z.rem offset (len validators) in
      if offset <? 0 then go_panic
      else match validators !! Z.to_nat offset with Some v => mret v | None => go_panic end
    end.

(** ** The election *)

(** The swaps of the shuffle, from the last place down. *)
Fixpoint shuffle {A} (i : nat) (r : Rand) (l : list A) : list A :=
  match i with
  | O => l
  | S i' =>
    let '(j, r) := Int31n (Z.of_nat i + 1) r in
    shuffle i' r (swap i (Z.to_nat j) l)
  end.

Definition election_seed (parentHash : bytes) (i : Z) : Z := i64 (le_decode (take 4 (keccak512_of parentHash)) + i).

(** The validators of the epoch after [i] from the contributions of the candidates. *)
Definition elect_order (parentHash : bytes) (i : Z) (ctbs : list AccountContribution) : list sortableAddress :=
  let candidates := take maxValidatorSize (go_sort Less (map (fun c => mkSortable (ac_Account c) (ac_Contribution c)) ctbs)) in
  shuffle (length candidates - 1) (NewSource (election_seed parentHash i)) candidates.

Definition elect_once (parentHash : bytes) (i : Z) : EC unit :=
  ctbs ← countContributions;
  if (length ctbs <? safeSize)%nat then throw TooFewCandidates
  else
    let sortedValidators := map sa_address (elect_order parentHash i ctbs) in
    upd_pc EpochTrie (fun pc => t ← NewEpochTrie (zeros HashLength) db; Ok (SetEpoch t pc));;
    upd_pc EpochPoc (SetValidators db sortedValidators);;
    upd_pc EpochPoc (SetContributions db ctbs).

(** [iter.Next()] of the iterator over the mint counts of an epoch. *)
Definition next_mint (it : prefixIterator) : EC (option (bytes * bytes) * prefixIterator) :=
  on_mintCnt (fun t => '(e, it, t) ← Iterator_Next_prefix fuel db t it; Ok (e, it, t)).

(** The removal of inactive validators at the start of a round: not for the genesis epoch,
    and once for each mint count of the previous epoch. *)
Definition pre_round (timeOfFirstBlock prevEpoch : Z) (isGenesis : bool) (it : prefixIterator) : EC prefixIterator :=
  if isGenesis then mret it
  else
    '(e, it) ← next_mint it;
    match e with
    | Some _ => kickoutValidator timeOfFirstBlock prevEpoch;; mret it
    | None => mret it
    end.

Fixpoint elect_loop (n : nat) (timeOfFirstBlock prevEpoch : Z) (isGenesis : bool) (parentHash : bytes) (i : Z) (it : prefixIterator)
  : EC unit :=
  match n with
  | O => mret tt
  | S n =>
    it ← pre_round timeOfFirstBlock prevEpoch isGenesis it;
    elect_once parentHash i;;
    elect_loop n timeOfFirstBlock prevEpoch isGenesis parentHash (i + 1) it
  end.

(** [x.Int64()] of a header field; a nil header or field is dereferenced. *)
Definition header_time (h : option Header) : EC Z :=
  match h ≫= hd_Time with Some t => mret (big_Int64 t) | None => go_panic end.

Definition tryElect (timeOfFirstBlock : Z) (genesis parent : option Header) : EC unit :=
  genesisTime ← header_time genesis;
  parentTime ← header_time parent;
  now ← time_stamp;
  let genesisEpoch := genesisTime ÷ epochInterval in
  let prevEpoch := parentTime ÷ epochInterval in
  let currentEpoch := now ÷ epochInterval in
  let prevEpochIsGenesis := prevEpoch =? genesisEpoch in
  let prevEpoch := if prevEpochIsGenesis && (prevEpoch <? currentEpoch) then currentEpoch - 1 else prevEpoch in
  it ← on_mintCnt (fun t => t_PrefixIterator fuel db t (be_fixed 8 (u64 prevEpoch)));
  match parent with
  | Some parent =>
    elect_loop (Z.to_nat (currentEpoch - prevEpoch)) timeOfFirstBlock prevEpoch prevEpochIsGenesis (Header_Hash parent) prevEpoch it
  | None => go_panic
  end.

End Ops.

End Epoch.

(** ** Lemmas: addresses as strings *)

Section Strings.
Context {HS : Hasher}.

(** The digit in lower case. *)
Definition lower (c : Z) : Z := if (65 <=? c) && (c <=? 70) then c + 32 else c.

Lemma hex_digit_cases n : 0 <= n < 16 -> (n < 10 /\ hex_digit n = 48 + n) \/ (10 <= n /\ hex_digit n = 87 + n).
Proof. intros H. unfold hex_digit. destruct (Z.ltb_spec n 10); lia. Qed.

Lemma lower_checksum hash i n : 0 <= n < 16 -> lower (checksum_digit hash i (hex_digit n)) = hex_digit n.
Proof.
  intros H. unfold checksum_digit, lower.
  destruct (hex_digit_cases n H) as [[L ->]|[L ->]]; repeat case_goal; zbool; lia.
Qed.

Lemma lower_imap hash (u : bytes) : (forall c, c ∈ u -> exists n, 0 <= n < 16 /\ c = hex_digit n) -> map lower (imap (checksum_digit hash) u) = u.
Proof.
  intros H. apply list_eq. intros i. change (map lower) with (fmap (M := list) lower). rewrite list_lookup_fmap, list_lookup_imap.
  destruct (u !! i) as [c|] eqn:E; [|done]. cbn. apply list_elem_of_lookup_2 in E. destruct (H c E) as (n & Hn & ->).
  by rewrite lower_checksum.
Qed.

Lemma EncodeToString_digits b c : bytes_ok b -> c ∈ EncodeToString b -> exists n, 0 <= n < 16 /\ c = hex_digit n.
Proof.
  unfold EncodeToString. induction 1 as [|x b Hx Hb IH]; cbn [map concat app]; [by intros H%elem_of_nil|]. unfold byte_ok in Hx.
  intros [->|H]%list.elem_of_cons; [exists (x / 16); split; [|done]; split; [apply Z.div_pos; lia|apply Z.div_lt_upper_bound; lia]|].
  apply list.elem_of_cons in H as [->|H]; [exists (x mod 16); split; [apply Z.mod_pos_bound; lia|done]|by apply IH].
Qed.

Lemma hex_digit_inj n k : 0 <= n < 16 -> 0 <= k < 16 -> hex_digit n = hex_digit k -> n = k.
Proof. intros Hn Hk. destruct (hex_digit_cases n Hn) as [[? ->]|[? ->]], (hex_digit_cases k Hk) as [[? ->]|[? ->]]; lia. Qed.

Lemma EncodeToString_inj a b : bytes_ok a -> bytes_ok b -> EncodeToString a = EncodeToString b -> a = b.
Proof.
  intros Ha. revert b. induction Ha as [|x a Hx Ha IH]; intros b Hb; destruct Hb as [|y b Hy Hb]; [done|done|done|].
  unfold EncodeToString in *. cbn [map concat app]. intros E. injection E as E1 E2 E. unfold byte_ok in *.
  assert (R : forall z, 0 <= z < 256 -> 0 <= z / 16 < 16 /\ 0 <= z mod 16 < 16).
  { intros z Hz. split; [split; [apply Z.div_pos; lia|apply Z.div_lt_upper_bound; lia]|apply Z.mod_pos_bound; lia]. }
  apply hex_digit_inj in E1; [|apply R; lia..]. apply hex_digit_inj in E2; [|apply R; lia..].
  rewrite (IH b Hb E). f_equal. rewrite (Z.div_mod x 16), (Z.div_mod y 16) by lia. lia.
Qed.

Lemma Address_Hex_inj a b : bytes_ok a -> bytes_ok b -> Address_Hex a = Address_Hex b -> a = b.
Proof.
  intros Ha Hb E. unfold Address_Hex in E. apply app_inv_head in E. apply (f_equal (map lower)) in E.
  rewrite !lower_imap in E by (intros c Hc; by apply (EncodeToString_digits _ c) in Hc). by apply EncodeToString_inj.
Qed.

(** ** Lemmas: the order of the election *)

Lemma Less_spec a b :
  Less a b = true <->
  sa_weight b < sa_weight a \/ (sa_weight a = sa_weight b /\ path_lt (Address_Hex (sa_address a)) (Address_Hex (sa_address b))).
Proof.
  unfold Less, path_lt. destruct (Z.ltb_spec (sa_weight a) (sa_weight b)); [split; [done|lia]|].
  destruct (Z.ltb_spec (sa_weight b) (sa_weight a)); [split; [by left|done]|].
  assert (sa_weight a = sa_weight b) by lia. destruct (bytes_compare _ _); split; try done; intros H'; try (right; done); destruct H' as [?|[_ ?]]; try lia; done.
Qed.

Lemma Less_false a b :
  Less a b = false <->
  sa_weight a < sa_weight b \/ (sa_weight a = sa_weight b /\ ~ path_lt (Address_Hex (sa_address a)) (Address_Hex (sa_address b))).
Proof.
  rewrite <- not_true_iff_false, Less_spec. split.
  - intros N. destruct (Z.lt_trichotomy (sa_weight a) (sa_weight b)) as [L|[E|L]]; [by left|right|destruct N; by left].
    split; [done|]. intros P. apply N. by right.
  - intros [L|[E N]] [L'|[E' P]]; [lia|lia|lia|done].
Qed.

Lemma path_lt_total a b : path_lt a b \/ a = b \/ path_lt b a.
Proof.
  unfold path_lt. rewrite (bytes_compare_antisym a b). destruct (bytes_compare a b) eqn:E; [|by left|right; by right].
  apply bytes_compare_eq in E. right. by left.
Qed.

Lemma Less_asym x y : Less x y = true -> Less y x = false.
Proof.
  intros [L|[E P]]%Less_spec; apply Less_false; [by left|right]. split; [done|]. intros P'. by apply (path_lt_irrefl (Address_Hex (sa_address x))), (path_lt_trans _ _ _ P P').
Qed.

Lemma Less_trans x y z : Less y x = false -> Less z y = false -> Less z x = false.
Proof.
  intros [L|[E N]]%Less_false [L'|[E' N']]%Less_false; apply Less_false; [left; lia|left; lia|left; lia|].
  right. split; [lia|]. intros P. destruct (path_lt_total (Address_Hex (sa_address y)) (Address_Hex (sa_address x))) as [Q|[Q|Q]]; [done| |].
  - apply N'. by rewrite Q.
  - by apply N', (path_lt_trans _ _ _ P Q).
Qed.

Lemma Less_total x y :
  bytes_ok (sa_address x) -> bytes_ok (sa_address y) -> Less x y = false -> Less y x = false -> x = y.
Proof.
  intros Ox Oy [L|[E N]]%Less_false [L'|[E' N']]%Less_false; [lia|lia|lia|]. destruct x as [a v], y as [b w]. cbn in *. subst.
  destruct (path_lt_total (Address_Hex a) (Address_Hex b)) as [Q|[Q|Q]]; [done| |done]. by rewrite (Address_Hex_inj a b).
Qed.

(** Every algorithm that sorts by [Less] gives this slice. *)
Lemma sort_candidates_unique l l' :
  Forall (fun x => bytes_ok (sa_address x)) l -> l' ≡ₚ l -> StronglySorted (in_order Less) l' -> l' = go_sort Less l.
Proof.
  intros F P S. apply go_sort_unique; [apply Less_asym|apply Less_trans| |done|done].
  intros x y Hx Hy. apply Less_total; by apply (Forall_elem _ _ _ F).
Qed.

End Strings.

(** ** Lemmas: the shuffle *)

Lemma swap_Permutation {A} i j (l : list A) : swap i j l ≡ₚ l.
Proof.
  unfold swap. destruct (l !! i) as [x|] eqn:Ei; [|done]. destruct (l !! j) as [y|] eqn:Ej; [|done].
  pose proof (lookup_lt_Some _ _ _ Ei). pose proof (lookup_lt_Some _ _ _ Ej).
  apply Permutation_inj. split; [by rewrite !length_insert|].
  exists (fun k => if decide (k = i) then j else if decide (k = j) then i else k). split.
  - intros a b. repeat destruct (decide _); congruence.
  - intros k. destruct (decide (k = i)) as [->|N1]; [by rewrite list_lookup_insert_eq by (by rewrite length_insert)|].
    rewrite list_lookup_insert_ne by done. destruct (decide (k = j)) as [->|N2]; [by rewrite list_lookup_insert_eq|].
    by rewrite list_lookup_insert_ne.
Qed.

Lemma shuffle_Permutation `{GR : GoRand} {A} i : forall r (l : list A), shuffle i r l ≡ₚ l.
Proof.
  induction i as [|i IH]; intros r l; [done|]. cbn [shuffle]. destruct (Int31n _ r) as [j r']. rewrite IH. apply swap_Permutation.
Qed.

(** ** Lemmas: the operations *)

Definition addresses (l : list sortableAddress) : gset bytes := list_to_set (map sa_address l).

Lemma minus_nobody (C : gset bytes) : C ∖ addresses [] = C.
Proof. unfold addresses. set_solver. Qed.

Lemma minus_addresses (C : gset bytes) v l : C ∖ addresses (v :: l) = C ∖ {[sa_address v]} ∖ addresses l.
Proof. unfold addresses. cbn [map list_to_set]. set_solver. Qed.

Section Runs.
Context {HS : Hasher} {ST : StateTrie} {GR : GoRand}.

(** What is known of the state, and the addresses it is asked about. *)
Context (J : StateDB -> Prop) (U : bytes -> Prop).

(** The reads of contributions that a state answers: [w] gives the contribution of every
    address, and the reads keep what is known of the state. *)
Definition contributions (w : bytes -> Z) (s : StateDB) : Prop :=
  J s /\ forall s a, J s -> is_address a -> U a -> exists s', GetContribution a s = Ok (w a, s') /\ J s'.

Lemma contributions_read w s a :
  contributions w s -> is_address a -> U a -> exists s', GetContribution a s = Ok (w a, s') /\ contributions w s'.
Proof. intros (Js & H) Ha Ua. destruct (H s a Js Ha Ua) as (s' & E & Js'). exists s'. by split. Qed.

Context (fuel : nat) (db : database).

(** Fuel for one pass over a trie with a given content. *)
Definition enough (m : gmap bytes bytes) : Prop := (S (node_count m) < fuel)%nat.

Lemma set_candidate_holds pc M t :
  pc_holds db pc M -> thas db t candidatePrefix (pm_candidate M) -> pc_holds db (SetCandidate t pc) M.
Proof. by intros (? & ? & ? & _ & ?) ?. Qed.

Lemma set_mintCnt_holds pc M t :
  pc_holds db pc M -> thas db t mintCntPrefix (pm_mintCnt M) -> pc_holds db (SetMintCnt t pc) M.
Proof. by intros (? & ? & ? & ? & _) ?. Qed.

Lemma next_candidate_holds ec M n it l :
  pc_holds db (ec_PocContext ec) M -> small (pm_candidate M) -> iter_holds db (pm_candidate M) n it l -> (n < fuel)%nat ->
  exists pc' it', next_candidate fuel db it ec = Ok (set_pc pc' ec, inr (head l, it')) /\ pc_holds db pc' M /\
    iter_holds db (pm_candidate M) n it' (tail l).
Proof.
  intros P Sm I Hf. pose proof P as (_ & _ & _ & [TH Pr] & _).
  destruct (Iterator_Next_holds fuel db _ n _ it l I TH Sm Hf) as (it' & t' & E & [TH' Pr'] & I').
  unfold next_candidate, on_candidates, on_pc, on_part. rewrite E. cbn [mbind outcome_bind].
  eexists _, it'. split; [reflexivity|]. split; [|done]. apply set_candidate_holds; [done|]. split; [done|by rewrite Pr'].
Qed.

Lemma candidate_iterator_holds ec M :
  pc_holds db (ec_PocContext ec) M -> small (pm_candidate M) -> map_root (pm_candidate M) <> emptyState -> enough (pm_candidate M) ->
  exists pc' it l, on_candidates (fun t => t_NodeIterator fuel db t []) ec = Ok (set_pc pc' ec, inr it) /\ pc_holds db pc' M /\
    entries_from (pm_candidate M) candidatePrefix l /\ iter_holds db (pm_candidate M) (node_count (pm_candidate M)) it l.
Proof.
  intros P Sm NE Hf. pose proof P as (_ & _ & _ & [TH Pr] & _).
  unfold on_candidates, on_pc, on_part, t_NodeIterator. rewrite Pr, app_nil_r.
  destruct (newNodeIterator_holds fuel db _ _ candidatePrefix TH Sm NE Hf) as (it & t' & l & E & [TH' Pr'] & EF & I).
  rewrite E. cbn [mbind outcome_bind]. eexists _, it, l. split; [reflexivity|]. split; [|done].
  apply set_candidate_holds; [done|]. split; [done|by rewrite Pr'].
Qed.

(** What a context holds: its tries and the contributions its state answers. *)
Definition ec_holds (M : pc_maps) (w : bytes -> Z) (ec : EpochContext) : Prop :=
  pc_holds db (ec_PocContext ec) M /\ exists s, ec_stateDB ec = Some s /\ contributions w s.

Lemma ec_holds_pc M M' w ec pc : ec_holds M w ec -> pc_holds db pc M' -> ec_holds M' w (set_pc pc ec).
Proof. by intros (_ & H) P. Qed.

Definition contribution_of (w : bytes -> Z) (a : bytes) : AccountContribution := mkAccountContribution a (w a).

Lemma count_loop_holds M w n : small (pm_candidate M) -> (n < fuel)%nat -> forall l rounds it ctb ec e,
  ec_holds M w ec -> iter_holds db (pm_candidate M) n it (tail l) -> e = head l -> (length l <= rounds)%nat ->
  (forall kv, kv ∈ l -> is_address (entry_address kv) /\ U (entry_address kv)) ->
  exists ec', count_loop fuel db rounds e it ctb ec = Ok (ec', inr (ctb ++ map (contribution_of w) (map entry_address l))) /\
    ec_holds M w ec' /\ TimeStamp ec' = TimeStamp ec.
Proof.
  intros Sm Hf. induction l as [|[k c] l IH]; intros rounds it ctb ec e H I -> Hr Ha.
  - exists ec. destruct rounds; cbn; by rewrite app_nil_r.
  - destruct rounds as [|rounds]; [cbn in Hr; lia|]. cbn [count_loop head].
    destruct H as (P & s & Es & Cs). destruct (contributions_read w s (BytesToAddress c) Cs) as (s' & Eg & Cs').
    1,2: apply (Ha (k, c)); left.
    unfold mbind, go_bind. unfold on_state at 1. rewrite Es, Eg.
    set (ec1 := set_state s' ec).
    destruct (next_candidate_holds ec1 M n it l) as (pc2 & it2 & E2 & P2 & I2); [done..|]. rewrite E2. cbn [fst snd].
    destruct (IH rounds it2 (ctb ++ [contribution_of w (BytesToAddress c)]) (set_pc pc2 ec1) (head l)) as (ec' & E & H' & T'); try done.
    + split; [done|]. by exists s'.
    + cbn in Hr. lia.
    + intros kv Hkv. apply Ha. by right.
    + exists ec'. split; [|done]. etrans; [exact E|]. cbn [map]. by rewrite <- app_assoc.
Qed.

(** The candidates in the order of the trie. *)
Definition enumerates (L : list bytes) (C : gset bytes) : Prop := StronglySorted path_lt L /\ forall a, a ∈ L <-> a ∈ C.

Lemma enumerates_NoDup L C : enumerates L C -> NoDup L.
Proof.
  intros [S _]. induction S as [|a L S IH F]; [constructor|]. constructor; [|done]. intros H.
  by apply (path_lt_irrefl a), (Forall_elem _ _ _ F).
Qed.

Lemma enumerates_size L C : enumerates L C -> length L = size C.
Proof.
  intros H. pose proof (enumerates_NoDup L C H) as N. destruct H as [_ H].
  assert (E : C = list_to_set L). { apply set_eq. intros a. by rewrite elem_of_list_to_set, H. }
  by rewrite E, size_list_to_set.
Qed.

Lemma countContributions_holds M w C ec :
  ec_holds M w ec -> candidates (pm_candidate M) C -> map_root (pm_candidate M) <> emptyState -> enough (pm_candidate M) -> C <> ∅ ->
  (forall a, a ∈ C -> U a) ->
  exists L ec', countContributions fuel db ec = Ok (ec', inr (map (contribution_of w) L)) /\ enumerates L C /\
    ec_holds M w ec' /\ TimeStamp ec' = TimeStamp ec.
Proof.
  intros H HC NE Hf Ne HU. pose proof (candidates_small _ _ HC) as Sm.
  destruct (candidate_iterator_holds ec M) as (pc1 & it & l & E1 & P1 & EF & I); [apply H|done..|].
  pose proof (candidate_entries _ C l HC EF) as EN. pose proof HC as [HA _].
  pose proof (iter_holds_length _ _ _ _ _ I) as Len. unfold enough in Hf.
  destruct (next_candidate_holds (set_pc pc1 ec) M (node_count (pm_candidate M)) it l) as (pc2 & it2 & E2 & P2 & I2); [done..|lia|].
  unfold countContributions, mbind, go_bind. rewrite E1, E2.
  destruct l as [|kv l]; [destruct Ne; apply set_eq; intros a; rewrite <- (proj2 EN a); set_solver|]. cbn [head].
  destruct (count_loop_holds M w (node_count (pm_candidate M)) Sm ltac:(lia) (kv :: l) fuel it2 [] (set_pc pc2 (set_pc pc1 ec)) (Some kv))
    as (ec' & E & H' & T); try done.
  - eapply ec_holds_pc; [|done]. by eapply ec_holds_pc.
  - lia.
  - intros kv' Hk. assert (Hc : entry_address kv' ∈ C) by (apply EN, list_elem_of_fmap; by exists kv'). split; [by apply HA|by apply HU].
  - exists (map entry_address (kv :: l)), ec'. split; [exact E|]. done.
Qed.

(** ** Lemmas: mint counts *)

(** The values of the mint count trie are counters of eight bytes. *)
Definition mint_ok (m : gmap bytes bytes) : Prop := small m /\ forall k v, m !! k = Some v -> length v = 8%nat.

Definition mint_of (M : pc_maps) (epoch : Z) (a : bytes) : Z :=
  match pm_mintCnt M !! (mintCntPrefix ++ mint_key epoch a) with Some v => i64 (be_decode v) | None => 0 end.

Lemma mint_key_ok epoch a : is_address a -> bytes_ok (mint_key epoch a).
Proof. intros [_ O]. apply bytes_ok_app. split; [apply be_fixed_ok|done]. Qed.

Lemma mint_count_holds ec M epoch a :
  pc_holds db (ec_PocContext ec) M -> mint_ok (pm_mintCnt M) -> is_address a ->
  exists pc', mint_count db epoch a ec = Ok (set_pc pc' ec, inr (mint_of M epoch a)) /\ pc_holds db pc' M.
Proof.
  intros P [_ Mk] Ha. pose proof P as (_ & _ & _ & _ & Hm).
  destruct (Get_holds db _ _ _ (mint_key epoch a) Hm) as (t' & E & TH'); [apply prefixes_ok|by apply mint_key_ok|].
  unfold mint_count, mbind, go_bind, on_mintCnt, on_pc, on_part. rewrite E. cbn [mbind outcome_bind].
  exists (SetMintCnt t' (ec_PocContext ec)). split; [|by apply set_mintCnt_holds].
  unfold mint_of. destruct (pm_mintCnt M !! _) as [v|] eqn:Ev; [|done]. pose proof (Mk _ _ Ev) as Lv. rewrite Lv. cbn [Nat.ltb Nat.leb].
  by rewrite take_ge by lia.
Qed.

(** The validators with too few blocks, with their counts. *)
Definition inactive (M : pc_maps) (epoch threshold : Z) (vs : list bytes) : list sortableAddress :=
  omap (fun v => if mint_of M epoch v <? threshold then Some (mkSortable v (mint_of M epoch v)) else None) vs.

Lemma inactive_loop_holds M epoch threshold : mint_ok (pm_mintCnt M) -> forall vs ec,
  pc_holds db (ec_PocContext ec) M -> Forall is_address vs ->
  exists pc', inactive_loop db epoch threshold vs ec = Ok (set_pc pc' ec, inr (inactive M epoch threshold vs)) /\ pc_holds db pc' M.
Proof.
  intros Mk. induction vs as [|v vs IH]; intros ec P F; [exists (ec_PocContext ec); split; [by destruct ec|done]|].
  apply Forall_cons_iff in F as [Fv F]. destruct (mint_count_holds ec M epoch v P Mk Fv) as (pc1 & E1 & P1).
  destruct (IH (set_pc pc1 ec) P1 F) as (pc2 & E2 & P2). cbn [inactive_loop]. unfold mbind, go_bind. rewrite E1, E2.
  exists pc2. split; [|done]. unfold inactive. cbn. by destruct (_ <? threshold).
Qed.

(** ** Lemmas: removing inactive validators *)

Lemma count_candidates_holds M n limit : small (pm_candidate M) -> (n < fuel)%nat -> forall l rounds c it ec,
  pc_holds db (ec_PocContext ec) M -> iter_holds db (pm_candidate M) n it l -> (length l < rounds)%nat -> (c < limit)%nat ->
  exists pc', count_candidates fuel db rounds limit c it ec = Ok (set_pc pc' ec, inr (Nat.min (c + length l) limit)) /\ pc_holds db pc' M.
Proof.
  intros Sm Hf. induction l as [|kv l IH]; intros rounds c it ec P I Hr Hc; (destruct rounds as [|rounds]; [cbn in Hr; lia|]);
    destruct (next_candidate_holds ec M n it _ P Sm I Hf) as (pc1 & it1 & E1 & P1 & I1);
    cbn [count_candidates head tail length] in *; unfold mbind, go_bind; rewrite E1.
  - exists pc1. split; [|done]. by rewrite Nat.add_0_r, Nat.min_l by lia.
  - destruct (Nat.leb_spec limit (S c)); [exists pc1; split; [|done]; by replace (Nat.min _ _) with (S c) by lia|].
    destruct (IH rounds (S c) it1 (set_pc pc1 ec) P1 I1) as (pc2 & E2 & P2); [lia|lia|].
    exists pc2. split; [|done]. etrans; [exact E2|]. by replace (S c + length l)%nat with (c + S (length l))%nat by lia.
Qed.

Lemma kickout_loop_holds l : forall c ec M C,
  pc_holds db (ec_PocContext ec) M -> candidates (pm_candidate M) C -> Forall (fun x => is_address (sa_address x)) l ->
  exists pc' m', kickout_loop db c l ec = Ok (set_pc pc' ec, inr tt) /\ pc_holds db pc' (set_candidate_map m' M) /\
    candidates m' (C ∖ addresses (take (c - safeSize) l)).
Proof.
  assert (S0 : forall ec M C, pc_holds db (ec_PocContext ec) M -> candidates (pm_candidate M) C -> exists pc' m',
    Ok (E := unit) (ec, inr (A := epoch_error) tt) = Ok (set_pc pc' ec, inr tt) /\ pc_holds db pc' (set_candidate_map m' M) /\ candidates m' (C ∖ addresses [])).
  { intros ec M C P HC. exists (ec_PocContext ec), (pm_candidate M). split; [by destruct ec|]. split; [by destruct M|].
    by rewrite minus_nobody. }
  induction l as [|v l IH]; intros c ec M C P HC F; cbn [kickout_loop]; [rewrite take_nil; by apply S0|].
  apply Forall_cons_iff in F as [Fv F]. destruct (Nat.leb_spec c safeSize).
  - replace (c - safeSize)%nat with O by lia. by apply S0.
  - destruct (KickoutCandidate_holds db _ M C _ P HC Fv) as (pc1 & m1 & E1 & P1 & HC1 & _).
    unfold mbind, go_bind, upd_pc, on_pc, on_part. rewrite E1. cbn [mbind outcome_bind].
    destruct (IH (c - 1)%nat (set_pc pc1 ec) _ _ P1 HC1 F) as (pc2 & m2 & E2 & P2 & HC2).
    exists pc2, m2. split; [exact E2|]. split; [exact P2|]. replace (c - safeSize)%nat with (S (c - 1 - safeSize))%nat by lia.
    cbn [take]. by rewrite minus_addresses.
Qed.

(** The validators that are removed: the least active ones first, as long as more than
    [safeSize] candidates are counted. *)
Definition kicked (M : pc_maps) (C : gset bytes) (epoch threshold : Z) (vs : list bytes) : list sortableAddress :=
  take (size C - safeSize) (go_sort (fun a b => Less b a) (inactive M epoch threshold vs)).

(** Sets of candidates over which the tries can be iterated. *)
Definition iterable (C : gset bytes) : Prop :=
  forall m C', candidates m C' -> C' ⊆ C -> map_root m <> emptyState /\ enough m.

Lemma iterable_mono C C' : iterable C -> C' ⊆ C -> iterable C'.
Proof. intros I S m D HD SD. apply (I m D HD). set_solver. Qed.

Lemma inactive_in M epoch threshold vs x :
  x ∈ inactive M epoch threshold vs <-> sa_address x ∈ vs /\ sa_weight x = mint_of M epoch (sa_address x) /\ sa_weight x < threshold.
Proof.
  unfold inactive. rewrite list_elem_of_omap. split.
  - intros (v & Hv & E). destruct (Z.ltb_spec (mint_of M epoch v) threshold); [|done]. by injection E as <-.
  - intros (Hv & Ew & L). exists (sa_address x). split; [done|]. rewrite <- Ew. rewrite (proj2 (Z.ltb_lt _ _) L). by destruct x.
Qed.

Lemma match_nonempty {A B} (l : list A) (x y : B) : l <> [] -> match l with [] => x | _ :: _ => y end = y.
Proof. by destruct l. Qed.

Lemma kickoutValidator_holds tfb epoch ec M C vs :
  pc_holds db (ec_PocContext ec) M -> candidates (pm_candidate M) C -> iterable C -> mint_ok (pm_mintCnt M) ->
  stored_validators vs M -> addresses_ok vs -> vs <> [] ->
  exists pc' m', kickoutValidator fuel db tfb epoch ec = Ok (set_pc pc' ec, inr tt) /\ pc_holds db pc' (set_candidate_map m' M) /\
    candidates m' (C ∖ addresses (kicked M C epoch (mint_threshold tfb (TimeStamp ec)) vs)).
Proof.
  intros P HC IC Mk Sv Av Nv. destruct (IC _ C HC ltac:(done)) as [NE Hf]. pose proof (candidates_small _ _ HC) as Sm.
  destruct (GetValidators_holds db _ M vs P Av Sv) as (pc1 & E1 & P1 & _).
  destruct (inactive_loop_holds M epoch (mint_threshold tfb (TimeStamp ec)) Mk vs (set_pc pc1 ec) P1 (proj1 Av)) as (pc2 & E2 & P2).
  set (ina := inactive M epoch (mint_threshold tfb (TimeStamp ec)) vs) in *.
  unfold kickoutValidator, mbind, go_bind. unfold on_pc at 1, on_part at 1. rewrite E1. rewrite (match_nonempty vs) by done.
  change (time_stamp (set_pc pc1 ec)) with (Ok (E := unit) (set_pc pc1 ec, inr (A := epoch_error) (TimeStamp ec))). cbv iota beta. rewrite E2.
  unfold kicked. fold ina. destruct (decide (ina = [])) as [Ei|Ni].
  { rewrite Ei. exists pc2, (pm_candidate M). split; [done|]. split; [by destruct M|].
    change (go_sort _ []) with (@nil sortableAddress). rewrite take_nil. by rewrite minus_nobody. }
  rewrite (match_nonempty ina) by done. destruct (candidate_iterator_holds (set_pc pc2 (set_pc pc1 ec)) M) as (pc3 & it & l & E3 & P3 & EF & I); [done..|].
  rewrite E3. pose proof (iter_holds_length _ _ _ _ _ I) as Len. unfold enough in Hf.
  destruct (count_candidates_holds M (node_count (pm_candidate M)) (length ina + safeSize) Sm ltac:(lia) l fuel 0 it
    (set_pc pc3 (set_pc pc2 (set_pc pc1 ec))) P3 I ltac:(lia)) as (pc4 & E4 & P4); [unfold safeSize, maxValidatorSize; cbn; lia|].
  rewrite E4. pose proof (enumerates_size (map entry_address l) C (candidate_entries _ C l HC EF)) as Sz. rewrite length_map in Sz.
  set (srt := go_sort (fun a b => Less b a) ina).
  destruct (kickout_loop_holds srt (Nat.min (0 + length l) (length ina + safeSize)) (set_pc pc4 (set_pc pc3 (set_pc pc2 (set_pc pc1 ec)))) M C P4 HC)
    as (pc5 & m5 & E5 & P5 & HC5).
  { apply List.Forall_forall. intros x Hx. apply list_elem_of_In in Hx. unfold srt in Hx. rewrite elem_of_go_sort in Hx.
    apply inactive_in in Hx as [Hx _]. by apply (Forall_elem _ _ _ (proj1 Av)). }
  exists pc5, m5. split; [exact E5|]. split; [exact P5|]. rewrite Sz in HC5.
  replace (take (size C - safeSize) srt) with (take (Nat.min (0 + size C) (length ina + safeSize) - safeSize) srt); [done|].
  destruct (Nat.le_gt_cases (size C) (length ina + safeSize)).
  - f_equal. lia.
  - rewrite !take_ge; [done| |]; unfold srt; rewrite length_go_sort; lia.
Qed.

(** ** Lemmas: the election *)

(** The first candidates by contribution, each once. *)
Definition elected (w : bytes -> Z) (C : gset bytes) (vs : list bytes) : Prop :=
  length vs = maxValidatorSize /\ NoDup vs /\ (forall v, v ∈ vs -> v ∈ C) /\
  forall v a, v ∈ vs -> a ∈ C -> a ∉ vs -> w a < w v \/ (w a = w v /\ path_lt (Address_Hex v) (Address_Hex a)).

Definition sortable_of (w : bytes -> Z) (a : bytes) : sortableAddress := mkSortable a (w a).

Lemma elect_order_Permutation h i w L :
  elect_order h i (map (contribution_of w) L) ≡ₚ take maxValidatorSize (go_sort Less (map (sortable_of w) L)).
Proof. unfold elect_order. rewrite map_map. apply shuffle_Permutation. Qed.

Lemma elect_order_elected h i w L C :
  enumerates L C -> (forall a, a ∈ C -> is_address a) -> (safeSize <= size C)%nat ->
  elected w C (map sa_address (elect_order h i (map (contribution_of w) L))).
Proof.
  intros EN HA Sz. pose proof (enumerates_NoDup L C EN) as ND. pose proof (enumerates_size L C EN) as Len.
  set (srt := go_sort Less (map (sortable_of w) L)). set (top := take maxValidatorSize srt).
  assert (P : map sa_address (elect_order h i (map (contribution_of w) L)) ≡ₚ map sa_address top) by (by rewrite elect_order_Permutation).
  assert (Psrt : map sa_address srt ≡ₚ L).
  { unfold srt. rewrite go_sort_Permutation, map_map. cbn. by rewrite map_id. }
  assert (W : forall x, x ∈ srt -> x = sortable_of w (sa_address x)).
  { intros x Hx. unfold srt in Hx. rewrite elem_of_go_sort in Hx. by apply list_elem_of_fmap in Hx as (a & -> & _). }
  assert (Split : map sa_address srt = map sa_address top ++ map sa_address (drop maxValidatorSize srt)).
  { rewrite <- map_app. unfold top. by rewrite take_drop. }
  assert (NDs : NoDup (map sa_address srt)) by (by rewrite Psrt).
  split; [|split; [|split]].
  - rewrite P, length_map. unfold top. rewrite length_take. unfold srt. rewrite length_go_sort, length_map, Len.
    change safeSize with 3%nat in *. change maxValidatorSize with 3%nat in *. lia.
  - rewrite P. rewrite Split in NDs. by apply list.NoDup_app in NDs as [? _].
  - intros v Hv. rewrite P in Hv. apply EN. rewrite <- Psrt, Split. apply elem_of_app. by left.
  - intros v a Hv Ha Na. rewrite P in Hv, Na. apply EN in Ha. rewrite <- Psrt, Split in Ha. apply elem_of_app in Ha as [Ha|Ha]; [done|].
    apply list_elem_of_fmap in Hv as (x & -> & Hx). apply list_elem_of_fmap in Ha as (y & -> & Hy).
    pose proof (go_sort_take Less Less_asym Less_trans _ _ _ _ Hx Hy) as N. apply Less_false in N.
    assert (Ix : x ∈ srt) by (rewrite <- (take_drop maxValidatorSize srt); apply elem_of_app; by left).
    assert (Iy : y ∈ srt) by (rewrite <- (take_drop maxValidatorSize srt); apply elem_of_app; by right).
    rewrite (W x Ix), (W y Iy) in N. cbn in N. destruct N as [N|[E N]]; [by left|right]. split; [done|].
    destruct (path_lt_total (Address_Hex (sa_address x)) (Address_Hex (sa_address y))) as [Q|[Q|Q]]; [done| |done].
    assert (Ax : forall z, z ∈ srt -> bytes_ok (sa_address z)).
    { intros z Hz. apply HA, EN. rewrite <- Psrt. apply list_elem_of_fmap. by exists z. }
    apply Address_Hex_inj in Q; [|by apply Ax..]. destruct Na. rewrite <- Q. apply list_elem_of_fmap. by exists x.
Qed.

(** The maps after an election. *)
Definition election_maps (vs : list bytes) (ctbs : list AccountContribution) (M : pc_maps) : pc_maps :=
  put_contributions ctbs (put_validators vs (set_epoch_map ∅ M)).

(** Contributions that the RLP encoding of the context accepts. *)
Definition weights_ok (w : bytes -> Z) (C : gset bytes) : Prop := forall a, a ∈ C -> 0 <= w a < 2 ^ 256 /\ U a.

Lemma elect_once_holds h i ec M w C :
  ec_holds M w ec -> candidates (pm_candidate M) C -> iterable C -> weights_ok w C -> (safeSize <= size C)%nat -> Z.of_nat (size C) < 2 ^ 32 ->
  exists L ec', let vs := map sa_address (elect_order h i (map (contribution_of w) L)) in
    elect_once fuel db h i ec = Ok (ec', inr tt) /\ enumerates L C /\
    ec_holds (election_maps vs (map (contribution_of w) L) M) w ec' /\ TimeStamp ec' = TimeStamp ec.
Proof.
  intros H HC IC Hw Sz Sz'. destruct (IC _ C HC ltac:(done)) as [NE Hf].
  assert (Ne : C <> ∅) by (intros ->; rewrite size_empty in Sz; change safeSize with 3%nat in Sz; lia).
  destruct (countContributions_holds M w C ec H HC NE Hf Ne ltac:(intros a Ha; by apply Hw)) as (L & ec1 & E1 & EN & H1 & T1).
  exists L. unfold elect_once, mbind, go_bind. rewrite E1. pose proof (enumerates_size L C EN) as Len. rewrite length_map, Len.
  rewrite (proj2 (Nat.ltb_ge _ _) Sz). cbv zeta. set (vs := map sa_address (elect_order h i (map (contribution_of w) L))).
  pose proof (elect_order_elected h i w L C EN (proj1 HC) Sz) as (Lv & _ & Iv & _). fold vs in Lv, Iv.
  destruct H1 as (P1 & s & Es & Cs).
  assert (Av : addresses_ok vs).
  { split; [|rewrite Lv; unfold maxValidatorSize; lia]. apply List.Forall_forall. intros v Hv. apply list_elem_of_In in Hv. by apply HC, Iv. }
  assert (P2 : pc_holds db (SetEpoch (Trie Nil (zeros HashLength) epochPrefix 0 0) (ec_PocContext ec1)) (set_epoch_map ∅ M)).
  { destruct P1 as (_ & P1). split; [split; [apply trie_holds_empty|done]|exact P1]. }
  destruct (SetValidators_holds db _ _ vs P2 Av) as (pc3 & E3 & P3 & _).
  assert (Fc : Forall contribution_ok (map (contribution_of w) L)).
  { apply Forall_map, List.Forall_forall. intros a Ha. apply list_elem_of_In, EN in Ha. split; [by apply HC|by apply Hw]. }
  destruct (SetContributions_holds db pc3 _ (map (contribution_of w) L) P3 Fc) as (pc4 & E4 & P4 & _); [by rewrite length_map, Len|].
  exists (set_pc pc4 ec1). split; [|split; [done|split; [|done]]].
  - unfold upd_pc at 1, on_pc at 1, on_part at 1.
    change (NewEpochTrie (zeros HashLength) db) with (Ok (E := trie_error) (Trie Nil (zeros HashLength) epochPrefix 0 0)).
    cbn [mbind outcome_bind]. unfold upd_pc, on_pc, on_part. cbn [ec_PocContext set_pc]. rewrite E3. cbn [mbind outcome_bind ec_PocContext set_pc].
    rewrite E4. reflexivity.
  - split; [done|]. by exists s.
Qed.

(** The validators stored by an election. *)
Lemma election_stored vs ctbs M : stored_validators vs (election_maps vs ctbs M).
Proof. unfold stored_validators, election_maps. cbn. by rewrite lookup_insert_eq. Qed.

Lemma candidate_small m M : pc_small M -> small m -> pc_small (set_candidate_map m M).
Proof.
  intros S Sm m' Hm. pose proof (all_maps_in M) as (I1 & I2 & I3 & _ & I5). unfold all_maps in Hm. cbn in Hm. rewrite !list.elem_of_cons in Hm.
  destruct Hm as [->|[->|[->|[->|[->|Hm]]]]]; [..|by apply elem_of_nil in Hm]; first [exact Sm|by apply S].
Qed.

Lemma mintCnt_small m M : pc_small M -> small m -> pc_small (set_mintCnt_map m M).
Proof.
  intros S Sm m' Hm. pose proof (all_maps_in M) as (I1 & I2 & I3 & I4 & _). unfold all_maps in Hm. cbn in Hm. rewrite !list.elem_of_cons in Hm.
  destruct Hm as [->|[->|[->|[->|[->|Hm]]]]]; [..|by apply elem_of_nil in Hm]; first [exact Sm|by apply S].
Qed.

(** The entries that an election writes are short. *)
Lemma small_insert m k v : small m -> len k < 2 ^ 30 -> bytes_ok v -> len v < 2 ^ 32 -> small (<[k := v]> m).
Proof. intros S Lk Ov Lv k' v'. rewrite lookup_insert_Some. intros [[<- <-]|[_ E]]; [done|by apply S]. Qed.

Lemma election_small vs ctbs M :
  pc_small M -> addresses_ok vs -> length vs = maxValidatorSize -> Forall contribution_ok ctbs -> Z.of_nat (length ctbs) < 2 ^ 24 ->
  pc_small (election_maps vs ctbs M).
Proof.
  intros S [Av _] Lv Fc Lc. pose proof (all_maps_in M) as (_ & I2 & I3 & I4 & I5). intros m Hm. unfold all_maps, election_maps in Hm. cbn in Hm.
  assert (Fa : Forall (fun v => bytes_ok (enc_value Address_type v) /\ len (enc_value Address_type v) <= 29) (map VBytes vs)).
  { apply Forall_map. eapply Forall_impl; [|exact Av]. intros a [La Oa]. unfold AddressLength in La.
    split; [apply (enc_string_ok a Oa); lia|apply (len_enc_bytes a 20); lia]. }
  destruct (enc_slice_ok Address_type (map VBytes vs) 29 ltac:(lia) Fa ltac:(rewrite length_map, Lv; unfold maxValidatorSize; lia)) as [Ov Lv'].
  assert (Fe : Forall (fun v => bytes_ok (enc_value AccountContribution_type v) /\ len (enc_value AccountContribution_type v) <= 100) (map contribution_val ctbs)).
  { apply Forall_map. eapply Forall_impl; [|exact Fc]. intros c Hc. split; [|by apply contribution_value]. by apply contribution_bytes. }
  destruct (enc_slice_ok AccountContribution_type (map contribution_val ctbs) 100 ltac:(lia) Fe ltac:(rewrite length_map; lia)) as [Oc Lc'].
  rewrite !list.elem_of_cons in Hm. destruct Hm as [->|[->|[->|[->|[->|Hm]]]]]; [..|by apply elem_of_nil in Hm]; try (by apply S).
  - apply small_insert; [by intros k v E|by vm_compute|exact Ov|]. apply (Z.le_lt_trans _ _ _ Lv'). rewrite length_map, Lv. by vm_compute.
  - apply small_insert; [by apply S|by vm_compute|exact Oc|]. apply (Z.le_lt_trans _ _ _ Lc'). rewrite length_map. lia.
Qed.

Lemma size_addresses l : (size (addresses l) <= length l)%nat.
Proof.
  unfold addresses. induction l as [|x l IH]; cbn [map list_to_set length]; [by rewrite size_empty|].
  rewrite size_union_alt, size_singleton.
  pose proof (subseteq_size (list_to_set (map sa_address l) ∖ {[sa_address x]}) (list_to_set (C := gset bytes) (map sa_address l)) ltac:(set_solver)). lia.
Qed.

Lemma kicked_safe M C epoch threshold vs :
  (safeSize <= size C)%nat -> (safeSize <= size (C ∖ addresses (kicked M C epoch threshold vs)))%nat.
Proof.
  intros Sz. set (K := addresses (kicked M C epoch threshold vs)).
  assert (SK : (size K <= size C - safeSize)%nat).
  { unfold K. etrans; [apply size_addresses|]. unfold kicked. rewrite length_take. lia. }
  pose proof (size_difference_alt C K). pose proof (subseteq_size (C ∩ K) K ltac:(set_solver)). lia.
Qed.

Lemma kicked_inactive M C epoch threshold vs a :
  a ∈ addresses (kicked M C epoch threshold vs) -> a ∈ vs /\ mint_of M epoch a < threshold.
Proof.
  unfold addresses, kicked. rewrite elem_of_list_to_set. intros (x & -> & Hx)%list_elem_of_fmap.
  assert (Hs : x ∈ go_sort (fun a b => Less b a) (inactive M epoch threshold vs)).
  { rewrite <- (take_drop (size C - safeSize)). apply elem_of_app. by left. }
  rewrite elem_of_go_sort in Hs. apply inactive_in in Hs as (Hv & Ew & L). split; [done|]. by rewrite <- Ew.
Qed.

Lemma elected_addresses w C vs : elected w C vs -> (forall a, a ∈ C -> is_address a) -> addresses_ok vs /\ vs <> [].
Proof.
  intros (Lv & _ & Iv & _) HA. split; [|by destruct vs]. split; [|rewrite Lv; change maxValidatorSize with 3%nat; lia].
  apply List.Forall_forall. intros v Hv. apply list_elem_of_In in Hv. by apply HA, Iv.
Qed.

(** ** Lemmas: the rounds of an election *)

Section Rounds.
Context (tfb prevEpoch now : Z) (isGenesis : bool) (parentHash : bytes) (w : bytes -> Z) (M0 : pc_maps) (C0 : gset bytes).
Context (HI : iterable C0) (Hw : weights_ok w C0) (Hsz : Z.of_nat (size C0) < 2 ^ 32) (Hmk : mint_ok (pm_mintCnt M0)).
Context (Hfm : enough (pm_mintCnt M0)).

(** What holds between the rounds: no candidate is lost but for inactivity. *)
Record round_ok (M : pc_maps) (C : gset bytes) : Prop := mkRoundOk {
  ro_candidates : candidates (pm_candidate M) C;
  ro_subset : C ⊆ C0;
  ro_safe : (safeSize <= size C)%nat;
  ro_mintCnt : pm_mintCnt M = pm_mintCnt M0;
  ro_latestTx : pm_latestTx M = pm_latestTx M0;
  ro_small : pc_small M0 -> Z.of_nat (size C0) < 2 ^ 24 -> pc_small M;
  ro_removed : forall a, a ∈ C0 -> a ∉ C -> isGenesis = false /\ mint_of M0 prevEpoch a < mint_threshold tfb now
}.

(** The iterator over the mint counts, and validators to remove if it has entries. *)
Definition mint_iter (M : pc_maps) (it : prefixIterator) : Prop :=
  isGenesis = false ->
  exists l, prefix_holds db (pm_mintCnt M0) (node_count (pm_mintCnt M0)) it l /\
    (l <> [] -> exists vs, stored_validators vs M /\ addresses_ok vs /\ vs <> []).

Lemma next_mint_holds ec M it l :
  pc_holds db (ec_PocContext ec) M -> pm_mintCnt M = pm_mintCnt M0 ->
  prefix_holds db (pm_mintCnt M0) (node_count (pm_mintCnt M0)) it l ->
  exists pc' it', next_mint fuel db it ec = Ok (set_pc pc' ec, inr (head l, it')) /\ pc_holds db pc' M /\
    prefix_holds db (pm_mintCnt M0) (node_count (pm_mintCnt M0)) it' (tail l).
Proof.
  intros P Em I. pose proof P as (_ & _ & _ & _ & [TH Pr]). rewrite Em in TH. unfold enough in Hfm.
  destruct (Iterator_Next_prefix_holds db _ (proj1 Hmk) fuel _ _ it l I TH ltac:(lia)) as (it' & t' & E & [TH' Pr'] & I').
  unfold next_mint, on_mintCnt, on_pc, on_part. rewrite E. cbn [mbind outcome_bind].
  eexists _, it'. split; [reflexivity|]. split; [|done]. apply set_mintCnt_holds; [done|]. rewrite Em. split; [done|by rewrite Pr'].
Qed.

Lemma pre_round_holds it ec M C :
  ec_holds M w ec -> TimeStamp ec = now -> round_ok M C -> mint_iter M it ->
  exists ec' it' M' C', pre_round fuel db tfb prevEpoch isGenesis it ec = Ok (ec', inr it') /\ ec_holds M' w ec' /\ TimeStamp ec' = now /\ round_ok M' C' /\
    (isGenesis = false -> exists l, prefix_holds db (pm_mintCnt M0) (node_count (pm_mintCnt M0)) it' l).
Proof.
  intros H T R I. unfold pre_round. destruct isGenesis eqn:G.
  { exists ec, it, M, C. split; [reflexivity|]. done. }
  destruct (I G) as (l & Pl & Sv). unfold mbind, go_bind.
  destruct (next_mint_holds ec M it l (proj1 H) (ro_mintCnt _ _ R) Pl) as (pc1 & it1 & E1 & P1 & I1). rewrite E1.
  destruct l as [|e l]; cbn [head].
  { exists (set_pc pc1 ec), it1, M, C. split; [reflexivity|]. split; [by eapply ec_holds_pc|]. split; [done|]. split; [done|]. by exists []. }
  destruct (Sv ltac:(done)) as (vs & Hs & Ha & Nv). pose proof R as [RC RS RZ RM RL RW RR].
  assert (Mk' : mint_ok (pm_mintCnt M)) by (by rewrite RM).
  destruct (kickoutValidator_holds tfb prevEpoch (set_pc pc1 ec) M C vs P1 RC (iterable_mono _ _ HI RS) Mk' Hs Ha Nv)
    as (pc2 & m2 & E2 & P2 & HC2). rewrite E2.
  eexists _, it1, _, _. split; [reflexivity|]. split; [eapply ec_holds_pc; [by eapply ec_holds_pc|exact P2]|]. split; [done|].
  change (TimeStamp (set_pc pc1 ec)) with (TimeStamp ec) in *. rewrite T in *.
  split; [|by exists l]. split; cbn [set_candidate_map pm_candidate pm_mintCnt pm_latestTx]; try done.
  - intros x Hx. apply elem_of_difference in Hx as [Hx _]. by apply RS.
  - by apply kicked_safe.
  - intros S0 Sz. apply candidate_small; [by apply RW|]. by eapply candidates_small.
  - intros a Ha0 Na. destruct (decide (a ∈ C)) as [HaC|]; [|by apply RR]. split; [done|].
    destruct (decide (a ∈ addresses (kicked M C prevEpoch (mint_threshold tfb now) vs))) as [Hk|Nk]; [|destruct Na; by apply elem_of_difference].
    apply kicked_inactive in Hk as [_ L]. unfold mint_of in *. by rewrite RM in L.
Qed.

(** A context after an election. *)
Definition has_elected (ec : EpochContext) : Prop :=
  exists M C L vs, let M' := election_maps vs (map (contribution_of w) L) M in
    ec_holds M' w ec /\ TimeStamp ec = now /\ round_ok M' C /\ enumerates L C /\ elected w C vs.

Lemma round_ok_election vs L M C :
  round_ok M C -> enumerates L C -> elected w C vs -> round_ok (election_maps vs (map (contribution_of w) L) M) C.
Proof.
  intros [RC RS RZ RM RL RW RR] EN El. split; try done. intros S0 Sz. pose proof (subseteq_size C C0 RS) as Sb.
  destruct (elected_addresses w C vs El (proj1 RC)) as [Av _]. apply election_small; [by apply RW|done|apply El|..].
  - apply Forall_map, List.Forall_forall. intros a Ha. apply list_elem_of_In, EN in Ha. split; [by apply RC|by apply Hw, RS].
  - rewrite length_map, (enumerates_size L C EN). lia.
Qed.

Lemma round_holds i it ec M C :
  ec_holds M w ec -> TimeStamp ec = now -> round_ok M C -> mint_iter M it ->
  exists ec1 it1 ec2 M2 C2, pre_round fuel db tfb prevEpoch isGenesis it ec = Ok (ec1, inr it1) /\
    elect_once fuel db parentHash i ec1 = Ok (ec2, inr tt) /\ has_elected ec2 /\
    ec_holds M2 w ec2 /\ TimeStamp ec2 = now /\ round_ok M2 C2 /\ mint_iter M2 it1.
Proof.
  intros H T R I.
  destruct (pre_round_holds it ec M C H T R I) as (ec1 & it1 & M1 & C1 & E1 & H1 & T1 & R1 & I1).
  pose proof R1 as [RC RS RZ RM RL RW RR].
  destruct (elect_once_holds parentHash i ec1 M1 w C1 H1 RC (iterable_mono _ _ HI RS)) as (L & ec2 & E2 & EN & H2 & T2).
  { intros a Ha. by apply Hw, RS. } { done. } { pose proof (subseteq_size C1 C0 RS). lia. }
  set (vs := map sa_address (elect_order parentHash i (map (contribution_of w) L))) in *.
  pose proof (elect_order_elected parentHash i w L C1 EN (proj1 RC) RZ) as El. fold vs in El.
  exists ec1, it1, ec2, (election_maps vs (map (contribution_of w) L) M1), C1. rewrite T1 in T2.
  split; [done|]. split; [done|]. pose proof (round_ok_election vs L M1 C1 R1 EN El) as R2. split; [exists M1, C1, L, vs; done|].
  split; [done|]. split; [done|]. split; [done|].
  intros G. destruct (I1 G) as (l & Pl). exists l. split; [done|]. intros _. exists vs. split; [apply election_stored|].
  by apply (elected_addresses w C1); [|apply RC].
Qed.

Lemma elect_loop_holds n : forall i it ec M C,
  ec_holds M w ec -> TimeStamp ec = now -> round_ok M C -> mint_iter M it ->
  exists ec', elect_loop fuel db (S n) tfb prevEpoch isGenesis parentHash i it ec = Ok (ec', inr tt) /\ has_elected ec'.
Proof.
  induction n as [|n IH]; intros i it ec M C H T R I;
    destruct (round_holds i it ec M C H T R I) as (ec1 & it1 & ec2 & M2 & C2 & E1 & E2 & HE & H2 & T2 & R2 & I2).
  - exists ec2. split; [|done]. cbn [elect_loop]. unfold mbind, go_bind. by rewrite E1, E2.
  - destruct (IH (i + 1) it1 ec2 M2 C2 H2 T2 R2 I2) as (ec' & E & HE'). exists ec'. split; [|done]. rewrite <- E.
    set (k := S n). cbn [elect_loop]. unfold mbind, go_bind. by rewrite E1, E2.
Qed.

End Rounds.

(** ** Lemmas: the start of an election *)

Lemma mint_iterator_holds ec M key :
  pc_holds db (ec_PocContext ec) M -> small (pm_mintCnt M) -> map_root (pm_mintCnt M) <> emptyState -> enough (pm_mintCnt M) ->
  exists pc' it l, on_mintCnt (fun t => t_PrefixIterator fuel db t key) ec = Ok (set_pc pc' ec, inr it) /\ pc_holds db pc' M /\
    prefix_holds db (pm_mintCnt M) (node_count (pm_mintCnt M)) it l.
Proof.
  intros P Sm NE Hf. pose proof P as (_ & _ & _ & _ & [TH Pr]).
  unfold on_mintCnt, on_pc, on_part, t_PrefixIterator. rewrite Pr.
  destruct (newPrefixIterator_holds fuel db _ _ (mintCntPrefix ++ key) TH Sm NE Hf) as (it & t' & l & E & [TH' Pr'] & _ & I).
  rewrite E. cbn [mbind outcome_bind]. eexists _, it, l. split; [reflexivity|]. split; [|done].
  apply set_mintCnt_holds; [done|]. split; [done|by rewrite Pr'].
Qed.

(** The epochs between which an election runs. *)
Definition epoch_of (t : Z) : Z := t ÷ epochInterval.

Definition prev_epoch (genesisTime parentTime now : Z) : Z :=
  if (epoch_of parentTime =? epoch_of genesisTime) && (epoch_of parentTime <? epoch_of now) then epoch_of now - 1 else epoch_of parentTime.

Lemma header_time_ok h t ec : hd_Time h = Some t -> header_time (Some h) ec = Ok (ec, inr (big_Int64 t)).
Proof. intros E. unfold header_time. cbn [mbind option_bind]. by rewrite E. Qed.

Lemma tryElect_run tfb g p tg tp ec M w :
  ec_holds M w ec -> mint_ok (pm_mintCnt M) -> map_root (pm_mintCnt M) <> emptyState -> enough (pm_mintCnt M) ->
  hd_Time g = Some tg -> hd_Time p = Some tp ->
  let prevEpoch := prev_epoch (big_Int64 tg) (big_Int64 tp) (TimeStamp ec) in
  exists ec1 it l, ec_holds M w ec1 /\ TimeStamp ec1 = TimeStamp ec /\ ec_stateDB ec1 = ec_stateDB ec /\
    prefix_holds db (pm_mintCnt M) (node_count (pm_mintCnt M)) it l /\
    tryElect fuel db tfb (Some g) (Some p) ec =
      elect_loop fuel db (Z.to_nat (epoch_of (TimeStamp ec) - prevEpoch)) tfb prevEpoch
        (epoch_of (big_Int64 tp) =? epoch_of (big_Int64 tg)) (Header_Hash p) prevEpoch it ec1.
Proof.
  intros H [Sm _] NE Hf Tg Tp. cbv zeta.
  destruct (mint_iterator_holds ec M (be_fixed 8 (u64 (prev_epoch (big_Int64 tg) (big_Int64 tp) (TimeStamp ec)))) (proj1 H) Sm NE Hf)
    as (pc1 & it & l & E & P1 & I).
  exists (set_pc pc1 ec), it, l. split; [by eapply ec_holds_pc|]. split; [done|]. split; [done|]. split; [done|].
  unfold tryElect, mbind, go_bind. rewrite (header_time_ok g tg ec Tg), (header_time_ok p tp ec Tp). unfold prev_epoch, epoch_of in *.
  change (time_stamp ec) with (Ok (E := unit) (ec, inr (A := epoch_error) (TimeStamp ec))). cbv iota beta zeta.
  rewrite E. reflexivity.
Qed.

(** ** Properties *)

(** C21. Removing inactive validators: exactly the validators with fewer mint counts than the
    threshold are due, the least active first, and as many of them are removed from the
    candidates as leaves [safeSize] candidates; the other tries stay as they are.  The
    operation does not fail, and at least [safeSize] candidates remain if there were as many. *)
Theorem kickoutValidator_removes_inactive tfb epoch ec M C vs :
  pc_holds db (ec_PocContext ec) M -> candidates (pm_candidate M) C -> iterable C -> mint_ok (pm_mintCnt M) ->
  stored_validators vs M -> addresses_ok vs -> vs <> [] ->
  let threshold := mint_threshold tfb (TimeStamp ec) in
  let due := go_sort (fun a b => Less b a) (inactive M epoch threshold vs) in
  (forall x, x ∈ due <-> sa_address x ∈ vs /\ sa_weight x = mint_of M epoch (sa_address x) /\ sa_weight x < threshold) /\
  exists pc' m' C', kickoutValidator fuel db tfb epoch ec = Ok (set_pc pc' ec, inr tt) /\
    pc_holds db pc' (set_candidate_map m' M) /\ candidates m' C' /\
    C' = C ∖ addresses (take (size C - safeSize) due) /\ ((safeSize <= size C)%nat -> (safeSize <= size C')%nat).
Proof.
  intros P HC IC Mk Sv Av Nv. cbv zeta. split; [intros x; rewrite elem_of_go_sort; apply inactive_in|].
  destruct (kickoutValidator_holds tfb epoch ec M C vs P HC IC Mk Sv Av Nv) as (pc' & m' & E & P' & HC').
  exists pc', m', (C ∖ addresses (kicked M C epoch (mint_threshold tfb (TimeStamp ec)) vs)). split; [done|]. split; [done|]. split; [done|].
  split; [done|]. apply kicked_safe.
Qed.

(** What [tryElect] does to the tries and the candidates, with the time of the first block
    [tfb] and the times of the genesis block, the parent and the new block: within an epoch
    nothing; in a new epoch the validators are elected among the remaining candidates by their
    contributions [w], and candidates are lost only for inactivity after the genesis epoch. *)
Definition election (w : bytes -> Z) (tfb tg tp now : Z) (M : pc_maps) (C : gset bytes) (M' : pc_maps) (C' : gset bytes) : Prop :=
  candidates (pm_candidate M') C' /\ pm_mintCnt M' = pm_mintCnt M /\ pm_latestTx M' = pm_latestTx M /\
  if epoch_of now <=? epoch_of tp then C' = C /\ M' = set_candidate_map (pm_candidate M') M
  else (exists vs, stored_validators vs M' /\ elected w C' vs) /\ C' ⊆ C /\ (safeSize <= size C')%nat /\
    forall a, a ∈ C -> a ∉ C' -> epoch_of tp <> epoch_of tg /\ mint_of M (epoch_of tp) a < mint_threshold tfb now.

Lemma election_keeps w tfb tg tp now M C M' C' :
  election w tfb tg tp now M C M' C' -> (safeSize <= size C)%nat -> (exists vs, stored_validators vs M /\ addresses_ok vs /\ vs <> []) ->
  C' ⊆ C /\ (safeSize <= size C')%nat /\ exists vs, stored_validators vs M' /\ addresses_ok vs /\ vs <> [].
Proof.
  intros (HC & _ & _ & El) Sz (vs & Sv & Av). destruct (_ <=? _).
  - destruct El as [-> Em]. split; [done|]. split; [done|]. exists vs. split; [|done]. rewrite Em. exact Sv.
  - destruct El as ((vs' & Sv' & El) & Sub & Sz' & _). split; [done|]. split; [done|]. exists vs'. split; [done|].
    by apply (elected_addresses w C'); [|apply HC].
Qed.

(** What a block needs of [tryElect]: whether or not a new epoch begins, it returns. *)
Lemma tryElect_holds tfb g p tg tp ec M w C :
  ec_holds M w ec -> candidates (pm_candidate M) C -> iterable C -> weights_ok w C ->
  (safeSize <= size C)%nat -> Z.of_nat (size C) < 2 ^ 32 ->
  mint_ok (pm_mintCnt M) -> map_root (pm_mintCnt M) <> emptyState -> enough (pm_mintCnt M) ->
  hd_Time g = Some tg -> hd_Time p = Some tp ->
  (exists vs0, stored_validators vs0 M /\ addresses_ok vs0 /\ vs0 <> []) ->
  exists ec' M' C', tryElect fuel db tfb (Some g) (Some p) ec = Ok (ec', inr tt) /\ ec_holds M' w ec' /\
    election w tfb (big_Int64 tg) (big_Int64 tp) (TimeStamp ec) M C M' C' /\
    (pc_small M -> Z.of_nat (size C) < 2 ^ 24 -> pc_small M').
Proof.
  intros H HC IC Hw Sz Sz' Mk NE Hf Tg Tp Sv.
  destruct (tryElect_run tfb g p tg tp ec M w H Mk NE Hf Tg Tp) as (ec1 & it & l & H1 & T1 & _ & I & E).
  set (isG := epoch_of (big_Int64 tp) =? epoch_of (big_Int64 tg)) in *.
  set (prev := prev_epoch (big_Int64 tg) (big_Int64 tp) (TimeStamp ec)) in *. unfold election.
  destruct (Z.leb_spec (epoch_of (TimeStamp ec)) (epoch_of (big_Int64 tp))) as [Le|Lt].
  { replace (Z.to_nat _) with O in E by (unfold prev, prev_epoch; rewrite (proj2 (Z.ltb_ge _ _)), andb_false_r by lia; lia).
    exists ec1, M, C. rewrite E. cbn [elect_loop]. repeat (split; [done|]). split; [|done]. by split; [|split; [|split; [|split; [|destruct M]]]]. }
  assert (Pv : prev < epoch_of (TimeStamp ec)) by (unfold prev, prev_epoch; destruct (_ && _); lia).
  replace (Z.to_nat (epoch_of (TimeStamp ec) - prev)) with (S (Z.to_nat (epoch_of (TimeStamp ec) - prev - 1))) in E by lia.
  assert (R0 : round_ok tfb prev (TimeStamp ec) isG M C M C) by (split; done).
  assert (I0 : mint_iter isG M M it) by (intros _; exists l; split; [done|by intros _]).
  destruct (elect_loop_holds tfb prev (TimeStamp ec) isG (Header_Hash p) w M C IC Hw Sz' Mk Hf (Z.to_nat (epoch_of (TimeStamp ec) - prev - 1)) prev it ec1 M C H1 T1 R0 I0)
    as (ec' & E' & M' & C' & L & vs & H' & _ & [RC RS RZ RM RL RW RR] & EN & El). rewrite E' in E.
  exists ec', (election_maps vs (map (contribution_of w) L) M'), C'. split; [done|]. split; [exact H'|]. split; [|exact RW].
  split; [done|]. split; [done|]. split; [done|]. split; [exists vs; split; [apply election_stored|done]|]. split; [done|]. split; [done|].
  intros a Ha Na. destruct (RR a Ha Na) as [G L']. apply Z.eqb_neq in G as G'. split; [done|].
  unfold prev, prev_epoch in L'. fold isG in L'. by rewrite G in L'.
Qed.

(** C17. Safety and liveness of the election.  With at least [safeSize] candidates, the first
    block of a new epoch always elects: [tryElect] returns without error, however many
    epochs were skipped; the validators it stores are the [maxValidatorSize] first of the
    remaining candidates by contribution and hex form, each once; the remaining candidates
    are a subset with at least [safeSize] members, and a candidate is lost only if the parent's
    epoch was not the genesis epoch and it minted fewer blocks in it than the threshold. *)
Theorem tryElect_elects tfb g p tg tp ec M w C :
  ec_holds M w ec -> candidates (pm_candidate M) C -> iterable C -> weights_ok w C ->
  (safeSize <= size C)%nat -> Z.of_nat (size C) < 2 ^ 32 ->
  mint_ok (pm_mintCnt M) -> map_root (pm_mintCnt M) <> emptyState -> enough (pm_mintCnt M) ->
  hd_Time g = Some tg -> hd_Time p = Some tp -> epoch_of (big_Int64 tp) < epoch_of (TimeStamp ec) ->
  (exists vs0, stored_validators vs0 M /\ addresses_ok vs0 /\ vs0 <> []) ->
  exists ec' vs pc' C', tryElect fuel db tfb (Some g) (Some p) ec = Ok (ec', inr tt) /\
    GetValidators db (ec_PocContext ec') = Ok (vs, pc') /\ elected w C' vs /\ C' ⊆ C /\ (safeSize <= size C')%nat /\
    (exists M', ec_holds M' w ec' /\ candidates (pm_candidate M') C' /\ pm_mintCnt M' = pm_mintCnt M /\ pm_latestTx M' = pm_latestTx M) /\
    (forall a, a ∈ C -> a ∉ C' ->
       epoch_of (big_Int64 tp) <> epoch_of (big_Int64 tg) /\
       mint_of M (epoch_of (big_Int64 tp)) a < mint_threshold tfb (TimeStamp ec)).
Proof.
  intros H HC IC Hw Sz Sz' Mk NE Hf Tg Tp Lt Sv.
  destruct (tryElect_holds tfb g p tg tp ec M w C H HC IC Hw Sz Sz' Mk NE Hf Tg Tp Sv) as (ec' & M' & C' & E & H' & (HC' & Em & El & Q) & _).
  rewrite (proj2 (Z.leb_gt _ _)) in Q by lia. destruct Q as ((vs & Sv' & Ev) & Sub & Sz2 & Lost).
  destruct (elected_addresses w C' vs Ev (proj1 HC')) as [Av _].
  destruct (GetValidators_holds db _ _ vs (proj1 H') Av Sv') as (pc' & Eg & _).
  exists ec', vs, pc', C'. do 5 (split; [done|]). split; [by exists M'|done].
Qed.

(** Within an epoch nothing is elected: [tryElect] leaves what the tries hold and the
    state, also when there are no candidates. *)
Theorem tryElect_same_epoch tfb g p tg tp ec M w :
  ec_holds M w ec -> mint_ok (pm_mintCnt M) -> map_root (pm_mintCnt M) <> emptyState -> enough (pm_mintCnt M) ->
  hd_Time g = Some tg -> hd_Time p = Some tp -> epoch_of (big_Int64 tp) = epoch_of (TimeStamp ec) ->
  exists ec', tryElect fuel db tfb (Some g) (Some p) ec = Ok (ec', inr tt) /\ ec_holds M w ec' /\ ec_stateDB ec' = ec_stateDB ec.
Proof.
  intros H Mk NE Hf Tg Tp Eq.
  destruct (tryElect_run tfb g p tg tp ec M w H Mk NE Hf Tg Tp) as (ec1 & it & l & H1 & T1 & S1 & I & E).
  replace (Z.to_nat _) with O in E by (unfold prev_epoch; rewrite Eq, Z.ltb_irrefl, andb_false_r; lia).
  exists ec1. by rewrite E.
Qed.

(** Validators take turns: in the slot [k] of an epoch [lookupValidator] returns validator
    [k] modulo their number; at a time that is not a multiple of the block interval it
    returns an error. *)
Theorem lookupValidator_round_robin ec M vs e k :
  pc_holds db (ec_PocContext ec) M -> stored_validators vs M -> addresses_ok vs -> vs <> [] ->
  0 <= e -> 0 <= k < epochInterval ->
  exists pc', pc_holds db pc' M /\
  lookupValidator db (e * epochInterval + k) ec =
    if k mod blockInterval =? 0 then Ok (set_pc pc' ec, inr (nth (Z.to_nat ((k / blockInterval) mod len vs)) vs []))
    else Ok (ec, inl ErrInvalidMintBlockTime).
Proof.
  intros P Sv Av Nv He Hk. destruct (GetValidators_holds db _ M vs P Av Sv) as (pc' & E & P' & _). exists pc'. split; [done|].
  unfold lookupValidator. unfold epochInterval, blockInterval in *.
  assert (Rm : Z.rem (e * 360 + k) 360 = k) by (rewrite Z.rem_mod_nonneg, Z.add_comm, Z.mod_add, Z.mod_small by lia; done).
  rewrite Rm, Z.rem_mod_nonneg by lia. destruct (k mod 20 =? 0) eqn:Ek; [|done]. cbn [negb].
  rewrite Z.quot_div_nonneg by lia. unfold mbind, go_bind, on_pc, on_part. rewrite E, (match_nonempty vs) by done.
  assert (Lp : 0 < len vs) by (destruct vs; [done|rewrite len_cons; pose proof (len_nonneg vs); lia]).
  pose proof (Z.div_pos k 20 ltac:(lia) ltac:(lia)). rewrite Z.rem_mod_nonneg by lia.
  pose proof (Z.mod_pos_bound (k / 20) (len vs) Lp). rewrite (proj2 (Z.ltb_ge _ _)) by lia.
  destruct (vs !! Z.to_nat ((k / 20) mod len vs)) as [v|] eqn:Ev.
  - by rewrite (nth_lookup_Some _ _ _ _ Ev).
  - apply lookup_ge_None in Ev. unfold len in *. lia.
Qed.

End Runs.

(** ** Contributions of a well-formed state *)

Section FromState.
Context {HS : Hasher} {ST : StateTrie}.

Definition state_weight (m : gmap bytes bytes) (s : StateDB) (a : bytes) : Z :=
  match oview m s a with Some o => Contribution (so_data o) | None => 0 end.

(** The states that differ from [s] in what has been loaded only. *)
Definition same_objects (m : gmap bytes bytes) (s s' : StateDB) : Prop :=
  wf m s' /\ s_db s' = s_db s /\ forall a, oview m s' a = oview m s a.

(** A state over a readable trie answers the contributions of its objects. *)
Lemma wf_contributions m s :
  wf m s -> trie_ok (cd_db (s_db s)) m -> contributions (same_objects m s) (fun _ => True) (state_weight m s) s.
Proof.
  intros W T. split; [done|]. intros s1 a (W1 & D1 & V1) _ _. rewrite <- D1 in T.
  destruct (getStateObject_spec m s1 a W1 T) as (s2 & E & W2 & D2 & _ & _ & _ & _ & _ & _ & _ & _ & _ & _ & _ & V2 & _).
  exists s2. unfold GetContribution, read_object, state_weight. rewrite E. cbn [mbind outcome_bind]. rewrite V1.
  split; [by destruct (oview m s a)|]. split; [done|]. split; [by rewrite D2|]. intros b. by rewrite V2.
Qed.

End FromState.

(** ** Witnesses *)

#[local] Existing Instance sample_hasher.

#[local] Instance sample_rand : GoRand.
Proof. refine {| Rand := unit; NewSource _ := tt; Int31n n r := (0, tt) |}. intros n r H. cbn. lia. Defined.

Definition cand (k : Z) : bytes := repeat k 20.
Definition four : gset bytes := {[cand 1]} ∪ {[cand 2]} ∪ {[cand 3]} ∪ {[cand 4]}.
Definition three : list bytes := [cand 1; cand 2; cand 3].

Lemma cand_ok k : byte_ok k -> is_address (cand k).
Proof. intros H. split; [done|]. apply List.Forall_forall. intros x Hx. by apply repeat_spec in Hx as ->. Qed.

Lemma four_ok a : a ∈ four -> is_address a.
Proof.
  intros H. unfold four in H. rewrite !elem_of_union, !elem_of_singleton in H.
  destruct H as [[[->| ->]| ->]| ->]; apply cand_ok; unfold byte_ok; lia.
Qed.

Lemma three_ok : addresses_ok three.
Proof. split; [|by vm_compute]. repeat constructor; try done; unfold byte_ok; lia. Qed.

(** The content of the candidate trie for a subset. *)
Definition sub_map (b1 b2 b3 b4 : bool) : gmap bytes bytes :=
  list_to_map (map (fun a => (candidatePrefix ++ a, a))
    ((if b1 then [cand 1] else []) ++ (if b2 then [cand 2] else []) ++ (if b3 then [cand 3] else []) ++ (if b4 then [cand 4] else []))).

Lemma sub_map_check b1 b2 b3 b4 :
  map_root (sub_map b1 b2 b3 b4) <> emptyState /\ (S (node_count (sub_map b1 b2 b3 b4)) < 30)%nat.
Proof. destruct b1, b2, b3, b4; (split; [by vm_compute|apply Nat.ltb_lt; by vm_compute]). Qed.

Lemma candidates_unique m m' C : candidates m C -> candidates m' C -> m = m'.
Proof. intros [_ H] [_ H']. apply map_eq. intros k. apply option_eq. intros v. by rewrite H, H'. Qed.

Lemma candidates_sub C :
  C ⊆ four -> candidates (sub_map (bool_decide (cand 1 ∈ C)) (bool_decide (cand 2 ∈ C)) (bool_decide (cand 3 ∈ C)) (bool_decide (cand 4 ∈ C))) C.
Proof.
  intros S. split; [intros a Ha; by apply four_ok, S|]. intros k v. unfold sub_map.
  set (l := _ ++ _).
  assert (HL : forall a, a ∈ l <-> a ∈ C).
  { intros a. assert (Q : forall x, a ∈ (if bool_decide (cand x ∈ C) then [cand x] else []) <-> a = cand x /\ cand x ∈ C).
    { intros x. case_bool_decide; [rewrite list_elem_of_singleton; naive_solver|]. rewrite elem_of_nil. naive_solver. }
    unfold l. rewrite !elem_of_app, !Q. split; [naive_solver|]. intros Ha. pose proof (S a Ha) as Hf. unfold four in Hf.
    rewrite !elem_of_union, !elem_of_singleton in Hf. destruct Hf as [[[->| ->]| ->]| ->]; auto. }
  assert (ND : NoDup (map fst (map (fun a => (candidatePrefix ++ a, a)) l))).
  { rewrite map_map. cbn [fst]. change (map ?f l) with (f <$> l). apply NoDup_fmap_2; [intros x y; apply app_inv_head|].
    unfold l. repeat case_bool_decide; apply (bool_decide_unpack _); by vm_compute. }
  rewrite <- elem_of_list_to_map by done. change (map ?f l) with (f <$> l). rewrite list_elem_of_fmap. setoid_rewrite HL. naive_solver.
Qed.

Lemma iterable_four : @iterable sample_hasher 30 four.
Proof. intros m C' HC S. rewrite (candidates_unique _ _ _ HC (candidates_sub C' S)). apply sub_map_check. Qed.

Definition sample_times (t : Z) : Header :=
  mkHeader (zeros 32) (zeros 32) (zeros 20) (zeros 20) (zeros 32) (zeros 32) (zeros 32) (zeros 32) None (zeros 256)
    (Some 1) (Some 1) (Some 0) (Some 0) (Some t) [] (zeros 32) (zeros 8).

(** A consensus context with four candidates and three validators. *)
Lemma sample_poc :
  exists pc M, pc_holds ∅ pc M /\ candidates (pm_candidate M) four /\ stored_validators three M /\ pm_mintCnt M = ∅ /\ pc_small M.
Proof.
  destruct (BecomeCandidate_holds ∅ empty_context empty_maps ∅ (cand 1) (empty_context_holds ∅) empty_candidates) as (pc1 & m1 & _ & P1 & C1 & _);
    [apply cand_ok; unfold byte_ok; lia|].
  destruct (BecomeCandidate_holds ∅ pc1 _ _ (cand 2) P1 C1) as (pc2 & m2 & _ & P2 & C2 & _); [apply cand_ok; unfold byte_ok; lia|].
  destruct (BecomeCandidate_holds ∅ pc2 _ _ (cand 3) P2 C2) as (pc3 & m3 & _ & P3 & C3 & _); [apply cand_ok; unfold byte_ok; lia|].
  destruct (BecomeCandidate_holds ∅ pc3 _ _ (cand 4) P3 C3) as (pc4 & m4 & _ & P4 & C4 & _); [apply cand_ok; unfold byte_ok; lia|].
  destruct (SetValidators_holds ∅ pc4 _ three P4 three_ok) as (pc5 & _ & P5 & _).
  exists pc5. eexists. split; [exact P5|]. rewrite union_empty_l_L in C4. split; [exact C4|].
  split; [unfold stored_validators; cbn; by rewrite lookup_insert_eq|]. split; [done|].
  intros m Hm. unfold all_maps in Hm. cbn in Hm. rewrite !list.elem_of_cons in Hm.
  destruct Hm as [->|[->|[->|[->|[->|Hm]]]]]; [..|by apply elem_of_nil in Hm]; try (by intros ? ?).
  - apply small_insert; [by intros ? ?|by vm_compute| |by vm_compute]. apply (bool_decide_unpack _). by vm_compute.
  - by eapply candidates_small.
Qed.

(** Four candidates, three validators, a state without accounts. *)
Lemma sample_ec now :
  exists ec M w J, ec_holds J (fun _ => True) ∅ M w ec /\ candidates (pm_candidate M) four /\ stored_validators three M /\ pm_mintCnt M = ∅ /\
    TimeStamp ec = now /\ forall a, w a = 0.
Proof.
  destruct sample_poc as (pc & M & P & HC & Sv & Em & _).
  destruct (tr_open_empty ∅ (zeros HashLength) 0) as (t & _ & Ht); [by left|].
  set (s := mkStateDB (mkCachingDB ∅ []) t ∅ ∅ None 0 (zeros HashLength) (zeros HashLength) 0 ∅ 0 ∅ [] [] 0).
  exists (mkEpochContext now pc (Some s)), M, (state_weight ∅ s), (same_objects ∅ s). split; [split; [exact P|]|done].
  exists s. split; [done|]. apply wf_contributions; [by split|]. by split.
Qed.

Lemma mint_ok_empty : mint_ok ∅.
Proof. split; [intros k v|]; intros; by rewrite lookup_empty in *. Qed.

Lemma size_four : size four = 4%nat.
Proof. by vm_compute. Qed.

Lemma kickoutValidator_removes_inactive_witness :
  exists ec M pc' m' C', @candidates (pm_candidate M) four /\ kickoutValidator 30 ∅ 0 1 ec = Ok (set_pc pc' ec, inr tt) /\
    pc_holds ∅ pc' (set_candidate_map m' M) /\ candidates m' C' /\ (3 <= size C')%nat.
Proof.
  destruct (sample_ec 800) as (ec & M & w & J & H & HC & Sv & Em & T & _).
  destruct (kickoutValidator_removes_inactive 30 ∅ 0 1 ec M four three) as (_ & pc' & m' & C' & E & P & HC' & _ & S).
  - apply H.
  - exact HC.
  - exact iterable_four.
  - rewrite Em. exact mint_ok_empty.
  - exact Sv.
  - exact three_ok.
  - discriminate.
  - exists ec, M, pc', m', C'. split; [exact HC|]. split; [exact E|]. split; [exact P|]. split; [exact HC'|].
    apply S. rewrite size_four. change safeSize with 3%nat. lia.
Defined.

Lemma tryElect_elects_witness :
  exists ec ec' vs pc', tryElect 30 ∅ 0 (Some (sample_times 0)) (Some (sample_times 400)) ec = Ok (ec', inr tt) /\
    GetValidators ∅ (ec_PocContext ec') = Ok (vs, pc') /\ length vs = 3%nat /\ NoDup vs.
Proof.
  destruct (sample_ec 800) as (ec & M & w & J & H & HC & Sv & Em & T & W).
  destruct (tryElect_elects J (fun _ => True) 30 ∅ 0 (sample_times 0) (sample_times 400) 0 400 ec M w four) as (ec' & vs & pc' & C' & E & G & El & _).
  - exact H.
  - exact HC.
  - exact iterable_four.
  - intros a _. split; [rewrite W; lia|done].
  - rewrite size_four. change safeSize with 3%nat. lia.
  - rewrite size_four. lia.
  - rewrite Em. exact mint_ok_empty.
  - rewrite Em. by vm_compute.
  - rewrite Em. apply Nat.ltb_lt. by vm_compute.
  - reflexivity.
  - reflexivity.
  - rewrite T. by vm_compute.
  - exists three. split; [exact Sv|]. split; [exact three_ok|discriminate].
  - exists ec, ec', vs, pc'. split; [exact E|]. split; [exact G|]. split; [exact (proj1 El)|exact (proj1 (proj2 El))].
Defined.

Lemma tryElect_same_epoch_witness :
  exists ec ec', tryElect 30 ∅ 0 (Some (sample_times 0)) (Some (sample_times 740)) ec = Ok (ec', inr tt) /\ ec_stateDB ec' = ec_stateDB ec.
Proof.
  destruct (sample_ec 800) as (ec & M & w & J & H & HC & Sv & Em & T & W).
  destruct (tryElect_same_epoch J (fun _ => True) 30 ∅ 0 (sample_times 0) (sample_times 740) 0 740 ec M w) as (ec' & E & _ & S).
  - exact H.
  - rewrite Em. exact mint_ok_empty.
  - rewrite Em. by vm_compute.
  - rewrite Em. apply Nat.ltb_lt. by vm_compute.
  - reflexivity.
  - reflexivity.
  - rewrite T. by vm_compute.
  - exists ec, ec'. split; [exact E|exact S].
Defined.

Lemma lookupValidator_round_robin_witness : exists ec ec', lookupValidator ∅ 400 ec = Ok (ec', inr (cand 3)).
Proof.
  destruct (sample_ec 800) as (ec & M & w & J & H & HC & Sv & Em & T & W).
  destruct (lookupValidator_round_robin ∅ ec M three 1 40) as (pc' & _ & E).
  - apply H.
  - exact Sv.
  - exact three_ok.
  - discriminate.
  - lia.
  - unfold epochInterval. lia.
  - exists ec, (set_pc pc' ec). exact E.
Defined.
