(* ===== verification/Poc.v ===== *)
(** * Package [consensus/poc]: the engine

    [poc.go]: verification of headers and seals, the confirmed block, time slots, mint
    counts, preparing and sealing of headers; [VerifyForkHashes] of [consensus/misc] and the
    queries of [api.go]. *)

From S2P Require Import Prelude Rlp RlpStream TrieEncoding Common Codec Trie TrieModel TrieRefine TrieHash TrieMap TrieIterator.
From S2P Require Import PocContext SecureTrie StateDB Signature ChainConfig Transaction Block GoMonad EpochContext.

Definition extraVanity : Z := 32.
Definition extraSeal : Z := 65.
Definition confirmedBlockHead : bytes := Eval vm_compute in text "confirmed-block-head".

Inductive engine_error :=
| errUnknownBlock | errMissingVanity | errMissingSignature | errInvalidMixDigest | errInvalidUncleHash | errInvalidDifficulty
| ErrInvalidTimestamp | ErrWaitForPrevBlock | ErrMintFutureBlock | ErrMismatchSignerAndValidator | ErrInvalidBlockValidator
| ErrNilBlockHeader | ErrFutureBlock | ErrUnknownAncestor | ErrUnclesNotAllowed | ErrForkHash
| EngineSig (e : sig_error) | EngineTrie (e : trie_error) | EngineEpoch (e : epoch_error) | EnginePoc (e : poc_error)
| ErrKeyNotFound | EngineSign (e : sig_error).

(** The interface to the chain. *)
Record ChainReader := mkChainReader {
  cr_Config : ChainConfig;
  CurrentHeader : option Header;
  GetHeader : bytes -> Z -> option Header;
  GetHeaderByNumber : Z -> option Header;
  GetHeaderByHash : bytes -> option Header
}.

(** The cache of recent signatures, of a library: what it returns for a key was added for
    that key.  [c_all P c] says that all entries of [c] satisfy [P]. *)
Class SigCache := {
  cache : Type;
  c_new : cache;
  c_Get : bytes -> cache -> option bytes * cache;
  c_Add : bytes -> bytes -> cache -> cache;
  c_all : (bytes -> bytes -> Prop) -> cache -> Prop;
  c_new_all P : c_all P c_new;
  c_Get_all P k c : c_all P c -> c_all P (snd (c_Get k c)) /\ forall v, fst (c_Get k c) = Some v -> P k v;
  c_Add_all P k v c : c_all P c -> P k v -> c_all P (c_Add k v c)
}.

(** ** Time slots *)

Definition PrevSlot (now : Z) : Z := (i64 (now - 1) ÷ blockInterval) * blockInterval.
Definition NextSlot (now : Z) : Z := (i64 (i64 (now + blockInterval) - 1) ÷ blockInterval) * blockInterval.

Section Engine.
Context {HS : Hasher} {ST : StateTrie} {GR : GoRand} {CR : Secp256k1} {SC : SigCache}.

Record Poc := mkPoc {
  p_db : database;
  p_signer : bytes;
  p_signatures : cache;
  p_confirmed : option Header
}.

Definition NewPoc (db : database) : Poc := mkPoc db (zeros AddressLength) c_new None.

Definition PM : Type -> Type := go Poc engine_error.

Definition set_signatures (c : cache) (d : Poc) : Poc := mkPoc (p_db d) (p_signer d) c (p_confirmed d).
Definition set_confirmed (h : Header) (d : Poc) : Poc := mkPoc (p_db d) (p_signer d) (p_signatures d) (Some h).
Definition set_pdb (db : database) (d : Poc) : Poc := mkPoc db (p_signer d) (p_signatures d) (p_confirmed d).

Definition Authorize (signer : bytes) (d : Poc) : Poc := mkPoc (p_db d) signer (p_signatures d) (p_confirmed d).
Definition Author (h : Header) : bytes := hd_Validator h.
Definition Coinbase (h : Header) : bytes := hd_Coinbase h.
Definition CalcDifficulty : Z := 1.

(** ** Headers *)

(** The hash that is signed: the header without the signature at the end of the extra data.
    It panics on short extra data and on a header without context. *)
Definition sigHash (h : Header) : outcome unit bytes :=
  if len (hd_Extra h) <? extraSeal then Panic
  else
    match hd_PocContext h with
    | None => Panic
    | Some p =>
      Ok (rlpHash (TSlice TIface) (VList
        [iface Hash_type (VBytes (hd_ParentHash h)); iface Hash_type (VBytes (hd_UncleHash h));
         iface Address_type (VBytes (hd_Validator h)); iface Address_type (VBytes (hd_Coinbase h));
         iface Hash_type (VBytes (hd_Root h)); iface Hash_type (VBytes (hd_RecordRoot h));
         iface Hash_type (VBytes (hd_TxHash h)); iface Hash_type (VBytes (hd_ReceiptHash h));
         iface Bloom_type (VBytes (hd_Bloom h)); iface TBig (VBig (hd_Difficulty h)); iface TBig (VBig (hd_Number h));
         iface TBig (VBig (hd_GasLimit h)); iface TBig (VBig (hd_GasUsed h)); iface TBig (VBig (hd_Time h));
         iface TBytes (VBytes (ztake (len (hd_Extra h) - extraSeal) (hd_Extra h)));
         iface Hash_type (VBytes (hd_MixDigest h)); iface (TByteArray 8) (VBytes (hd_Nonce h));
         iface Hash_type (VBytes (Proto_Root p))]))
    end.

Definition VerifyForkHashes (config : ChainConfig) (h : Header) (uncle : bool) : outcome engine_error unit :=
  if uncle then Ok tt
  else
    match EIP150Block config with
    | None => Ok tt
    | Some b =>
      match hd_Number h with
      | None => Panic
      | Some n =>
        if (b =? n) && negb (bool_decide (EIP150Hash config = zeros HashLength)) && negb (bool_decide (EIP150Hash config = Header_Hash h))
        then Err ErrForkHash else Ok tt
      end
    end.

Definition nonnil {E A} (o : option A) : outcome E A := match o with Some a => Ok a | None => Panic end.

(** The parent is the last of the given headers, or comes from the chain. *)
Definition find_parent (chain : ChainReader) (h : Header) (number : Z) (parents : list Header) : option Header :=
  match list.last parents with Some p => Some p | None => GetHeader chain (hd_ParentHash h) (u64 (number - 1)) end.

Definition verifyHeader (now : Z) (chain : ChainReader) (h : Header) (parents : list Header) : outcome engine_error unit :=
  match hd_Number h with
  | None => Err errUnknownBlock
  | Some n =>
    let number := big_Uint64 n in
    t ← nonnil (hd_Time h);
    if now <? t then Err ErrFutureBlock
    else if len (hd_Extra h) <? extraVanity then Err errMissingVanity
    else if len (hd_Extra h) <? extraVanity + extraSeal then Err errMissingSignature
    else if negb (bool_decide (hd_MixDigest h = zeros HashLength)) then Err errInvalidMixDigest
    else
      difficulty ← nonnil (hd_Difficulty h);
      if negb (big_Uint64 difficulty =? 1) then Err errInvalidDifficulty
      else if negb (bool_decide (hd_UncleHash h = EmptyUncleHash)) then Err errInvalidUncleHash
      else
        VerifyForkHashes (cr_Config chain) h false;;
        match find_parent chain h number parents with
        | None => Err ErrUnknownAncestor
        | Some p =>
          pn ← nonnil (hd_Number p);
          if negb (big_Uint64 pn =? u64 (number - 1)) || negb (bool_decide (Header_Hash p = hd_ParentHash h)) then Err ErrUnknownAncestor
          else
            pt ← nonnil (hd_Time p);
            if big_Uint64 t <? u64 (big_Uint64 pt + blockInterval) then Err ErrInvalidTimestamp else Ok tt
        end
  end.

(** The results for a batch; the headers before one are its parents. *)
Fixpoint verify_batch (now : Z) (chain : ChainReader) (before headers : list Header) : list (outcome engine_error unit) :=
  match headers with
  | [] => []
  | h :: headers => verifyHeader now chain h before :: verify_batch now chain (before ++ [h]) headers
  end.

Definition VerifyHeaders (now : Z) (chain : ChainReader) (headers : list Header) : list (outcome engine_error unit) :=
  verify_batch now chain [] headers.

Definition VerifyUncles (b : Block) : outcome engine_error unit := match b_uncles b with [] => Ok tt | _ => Err ErrUnclesNotAllowed end.

(** ** Signatures *)

Definition ecrecover (h : Header) : PM bytes :=
  let hash := Header_Hash h in
  sigs ← gets p_signatures;
  let '(known, sigs) := c_Get hash sigs in
  modify (set_signatures sigs);;
  match known with
  | Some address => mret address
  | None =>
    if len (hd_Extra h) <? extraSeal then throw errMissingSignature
    else
      let signature := zdrop (len (hd_Extra h) - extraSeal) (hd_Extra h) in
      match sigHash h with
      | Ok sh =>
        match Ecrecover sh signature with
        | Ok pubkey =>
          let signer := pubkey_address pubkey in
          modify (fun d => set_signatures (c_Add hash signer (p_signatures d)) d);;
          mret signer
        | Err e => throw (EngineSig e)
        | _ => go_panic
        end
      | _ => go_panic
      end
  end.

Definition verifyBlockSigner (validator : bytes) (h : Header) : PM unit :=
  signer ← ecrecover h;
  if negb (bool_decide (signer = validator)) then throw ErrInvalidBlockValidator
  else if negb (bool_decide (signer = hd_Validator h)) then throw ErrMismatchSignerAndValidator
  else mret tt.

(** ** The confirmed block *)

Definition loadConfirmedBlockHeader (chain : ChainReader) (d : Poc) : outcome engine_error Header :=
  match p_db d !! confirmedBlockHead with
  | None => Err ErrKeyNotFound
  | Some key => match GetHeaderByHash chain (BytesToHash key) with None => Err ErrNilBlockHeader | Some h => Ok h end
  end.

Definition storeConfirmedBlockHeader : PM unit :=
  c ← gets p_confirmed;
  h ← deref c;
  modify (fun d => set_pdb (<[confirmedBlockHead := Header_Hash h]> (p_db d)) d).

(** The walk from the current header towards the confirmed one. *)
Fixpoint confirm_loop (fuel : nat) (chain : ChainReader) (cur : Header) (epoch : Z) (validatorMap : gset bytes) : PM unit :=
  match fuel with
  | O => go_diverge
  | S fuel =>
    c ← gets p_confirmed;
    confirmed ← deref c;
    cn ← deref (hd_Number confirmed);
    n ← deref (hd_Number cur);
    if negb (bool_decide (Header_Hash confirmed = Header_Hash cur)) && (big_Uint64 cn <? big_Uint64 n) then
      t ← deref (hd_Time cur);
      let curEpoch := big_Int64 t ÷ epochInterval in
      let validatorMap := if curEpoch =? epoch then validatorMap else ∅ in
      if i64 (big_Int64 n - big_Int64 cn) <? Z.of_nat consensusSize - Z.of_nat (size validatorMap) then mret tt
      else
        let validatorMap := {[hd_Validator cur]} ∪ validatorMap in
        if (consensusSize <=? size validatorMap)%nat then
          modify (set_confirmed cur);;
          storeConfirmedBlockHeader
        else
          match GetHeaderByHash chain (hd_ParentHash cur) with
          | None => throw ErrNilBlockHeader
          | Some p => confirm_loop fuel chain p curEpoch validatorMap
          end
    else mret tt
  end.

Definition updateConfirmedBlockHeader (fuel : nat) (chain : ChainReader) : PM unit :=
  c ← gets p_confirmed;
  (match c with
   | Some _ => mret tt
   | None =>
     d ← gets id;
     match loadConfirmedBlockHeader chain d with
     | Ok h => modify (set_confirmed h)
     | Err e => match GetHeaderByNumber chain 0 with None => throw e | Some h => modify (set_confirmed h) end
     | _ => go_panic
     end
   end);;
  cur ← deref (CurrentHeader chain);
  confirm_loop fuel chain cur (-1) ∅.

(** ** Seals *)

(** The validator of the time slot of a header, in the context of its parent. *)
Definition slot_validator (proto : option PocContextProto) (t : Z) : PM bytes :=
  p ← deref proto;
  d ← gets id;
  match NewPocContextFromProto (p_db d) p with
  | Ok pc =>
    match lookupValidator (p_db d) t (mkEpochContext 0 pc None) with
    | Ok (_, inr v) => mret v
    | Ok (_, inl e) => throw (EngineEpoch e)
    | _ => go_panic
    end
  | Err e => throw (EngineTrie e)
  | _ => go_panic
  end.

(** A parent that is not found is dereferenced. *)
Definition verifySeal (fuel : nat) (chain : ChainReader) (h : Header) (parents : list Header) : PM unit :=
  n ← deref (hd_Number h);
  let number := big_Uint64 n in
  if number =? 0 then throw errUnknownBlock
  else
    parent ← deref (find_parent chain h number parents);
    t ← deref (hd_Time h);
    validator ← slot_validator (hd_PocContext parent) (big_Int64 t);
    verifyBlockSigner validator h;;
    updateConfirmedBlockHeader fuel chain.

(** ** Preparing and sealing *)

Definition set_extra (extra : bytes) (h : Header) : Header :=
  mkHeader (hd_ParentHash h) (hd_UncleHash h) (hd_Validator h) (hd_Coinbase h) (hd_Root h) (hd_RecordRoot h) (hd_TxHash h)
    (hd_ReceiptHash h) (hd_PocContext h) (hd_Bloom h) (hd_Difficulty h) (hd_Number h) (hd_GasLimit h) (hd_GasUsed h) (hd_Time h)
    extra (hd_MixDigest h) (hd_Nonce h).

Definition set_prepared (difficulty : option Z) (validator nonce : bytes) (h : Header) : Header :=
  mkHeader (hd_ParentHash h) (hd_UncleHash h) validator (hd_Coinbase h) (hd_Root h) (hd_RecordRoot h) (hd_TxHash h)
    (hd_ReceiptHash h) (hd_PocContext h) (hd_Bloom h) difficulty (hd_Number h) (hd_GasLimit h) (hd_GasUsed h) (hd_Time h)
    (hd_Extra h) (hd_MixDigest h) nonce.

(** The extra data is cut or padded to the vanity, and room for the signature is added. *)
Definition prepared_extra (extra : bytes) : bytes := ztake extraVanity (RightPadBytes extra extraVanity) ++ zeros extraSeal.

Definition Prepare (chain : ChainReader) (h : Header) (d : Poc) : outcome engine_error Header :=
  n ← nonnil (hd_Number h);
  let h := set_extra (prepared_extra (hd_Extra h)) (set_prepared (hd_Difficulty h) (hd_Validator h) (zeros 8) h) in
  match GetHeader chain (hd_ParentHash h) (u64 (big_Uint64 n - 1)) with
  | None => Err ErrUnknownAncestor
  | Some _ =>
    t ← nonnil (hd_Time h);
    Ok (set_prepared (Some CalcDifficulty) (p_signer d) (hd_Nonce h) h)
  end.

Definition checkDeadline (lastTime now : Z) : outcome engine_error unit :=
  let prevSlot := PrevSlot now in
  let nextSlot := NextSlot now in
  if nextSlot <=? lastTime then Err ErrMintFutureBlock
  else if (lastTime =? prevSlot) || (i64 (nextSlot - now) <=? 1) then Ok tt
  else Err ErrWaitForPrevBlock.

Definition CheckValidator (lastBlock : Block) (now : Z) : PM unit :=
  t ← deref (hd_Time (b_header lastBlock));
  match checkDeadline (big_Int64 t) now with
  | Err e => throw e
  | Ok _ =>
    validator ← slot_validator (hd_PocContext (Block_Header lastBlock)) now;
    signer ← gets p_signer;
    if bool_decide (validator = zeros AddressLength) || negb (bool_decide (validator = signer)) then throw ErrInvalidBlockValidator
    else mret tt
  | _ => go_panic
  end.

(** [copy(extra[len(extra)-extraSeal:], sig)]. *)
Definition patch_extra (extra sig : bytes) : bytes :=
  let k := len extra - extraSeal in
  let sig := ztake extraSeal sig in
  ztake k extra ++ sig ++ zdrop (k + len sig) extra.

(** [Seal] waits for the next slot unless it is stopped before; [signFn] is the signing
    function of the account.  The time that is set on a copy of the header is lost. *)
Definition Seal (signFn : bytes -> bytes -> outcome sig_error bytes) (now : Z) (stopped : bool) (b : Block) (d : Poc)
  : outcome engine_error (option Block) :=
  let h := Block_Header b in
  n ← nonnil (hd_Number h);
  if big_Uint64 n =? 0 then Err errUnknownBlock
  else if (0 <? i64 (NextSlot now - now)) && stopped then Ok None
  else
    match sigHash h with
    | Ok sh =>
      sig ← map_err EngineSign (signFn (p_signer d) sh);
      Ok (Some (WithSeal (set_extra (patch_extra (hd_Extra h) sig) h) b))
    | _ => Panic
    end.

(** ** Mint counts *)

(** The count of the validator in the epoch of the parent is read if the trie has an entry
    from that epoch on; the error of the update is dropped. *)
Definition updateMintCnt (fuel : nat) (db : database) (parentBlockTime currentBlockTime : Z) (validator : bytes) (pc : PocContext)
  : outcome trie_error PocContext :=
  let currentEpoch := parentBlockTime ÷ epochInterval in
  let newEpoch := currentBlockTime ÷ epochInterval in
  '(cnt, t) ←
    (if currentEpoch =? newEpoch then
       '(it, t) ← t_NodeIterator fuel db (mintCntTrie pc) (be_fixed 8 (u64 currentEpoch));
       '(e, _, t) ← Iterator_Next fuel db t it;
       match e with
       | None => Ok (1, t)
       | Some _ =>
         '(cntBytes, t) ← Get db t (mint_key currentEpoch validator);
         match cntBytes with
         | None => Ok (1, t)
         | Some b => if (length b <? 8)%nat then Panic else Ok (i64 (i64 (be_decode (take 8 b)) + 1), t)
         end
       end
     else Ok (1, mintCntTrie pc));
  match TryUpdate db t (mint_key newEpoch validator) (be_fixed 8 (u64 cnt)) with
  | Ok t => Ok (SetMintCnt t pc)
  | Err _ => Ok (SetMintCnt t pc)
  | Panic => Panic
  | OutOfFuel => OutOfFuel
  end.

(** The contribution of an account from the time since its latest transaction; the package
    variable [big0] is the receiver of the subtraction and keeps the quotient. *)
Definition AccumulateContribution (db : database) (now : Z) (address : bytes) (pc : PocContext)
  : outcome poc_error (Z * Z * PocContext) :=
  '(tx, pc) ← GetLastedTx db address pc;
  let t := (now - lt_RecordTime tx) / 3600 in
  Ok (2 * t, t, pc).

(** ** Queries *)

(** A context of which only some tries are set. *)
Record partial_context := mkPartial {
  po_epoch : option trie;
  po_contribution : option trie;
  po_latestTx : option trie;
  po_candidate : option trie
}.

Definition header_at (chain : ChainReader) (number : option Z) : option Header :=
  match number with None => CurrentHeader chain | Some n => if n =? -1 then CurrentHeader chain else GetHeaderByNumber chain (u64 n) end.

Definition header_proto (h : option Header) : outcome engine_error PocContextProto :=
  match h with None => Err errUnknownBlock | Some h => nonnil (hd_PocContext h) end.

Definition API_GetValidators (db : database) (chain : ChainReader) (number : option Z) : outcome engine_error (list bytes) :=
  p ← header_proto (header_at chain number);
  t ← map_err EngineTrie (NewEpochTrie (EpochHash p) db);
  let pc := mkPartial (Some t) None None None in
  t ← nonnil (po_epoch pc);
  '(v, _) ← map_err EnginePoc (get_value db t validatorKey (TSlice Address_type));
  Ok (map val_bytes (val_list v)).

(** The trie of the contributions is opened with the prefix of the candidates. *)
Definition API_GetContributions (db : database) (chain : ChainReader) (number : option Z)
  : outcome engine_error (list AccountContribution) :=
  p ← header_proto (header_at chain number);
  t ← map_err EngineTrie (NewCandidateTrie (ContributionHash p) db);
  let pc := mkPartial None (Some t) None None in
  t ← nonnil (po_contribution pc);
  '(v, _) ← map_err EnginePoc (get_value db t contributionKey (TSlice AccountContribution_type));
  Ok (map val_contribution (val_list v)).

Definition API_GetCandidates (fuel : nat) (db : database) (chain : ChainReader) (number : option Z) : outcome engine_error (list bytes) :=
  p ← header_proto (header_at chain number);
  t ← map_err EngineTrie (NewCandidateTrie (CandidateHash p) db);
  let pc := mkPartial None None None (Some t) in
  t ← nonnil (po_candidate pc);
  '(l, _) ← map_err EngineTrie (entries fuel db t []);
  Ok (map entry_address l).

(** The trie of the latest transactions is set as the candidate trie. *)
Definition API_GetLastedTx (db : database) (chain : ChainReader) (account : bytes) : outcome engine_error AccountLastedTx :=
  p ← header_proto (CurrentHeader chain);
  t ← map_err EngineTrie (NewLatestTxTrie (LatestTxHash p) db);
  let pc := mkPartial None None None (Some t) in
  t ← nonnil (po_latestTx pc);
  '(v, _) ← map_err EnginePoc (get_value db t account AccountLastedTx_type);
  Ok (val_lastedTx v).

Definition API_GetConfirmedBlockNumber (chain : ChainReader) (d : Poc) : outcome engine_error (option Z) :=
  match p_confirmed d with
  | Some h => Ok (hd_Number h)
  | None => h ← loadConfirmedBlockHeader chain d; Ok (hd_Number h)
  end.

End Engine.

(** ** Specification: confirmed blocks *)

Definition header_epoch (h : Header) : Z := big_Int64 (default 0 (hd_Time h)) ÷ epochInterval.

(** The validators of a list of blocks. *)
Definition vset (hs : list Header) : gset bytes := list_to_set (map hd_Validator hs).

(** The first block, from the newest on, such that [consensusSize] validators have signed a
    block from the newest of its epoch down to it. *)
Fixpoint scan (epoch : Z) (vs : gset bytes) (hs : list Header) : option Header :=
  match hs with
  | [] => None
  | h :: hs =>
    let vs := {[hd_Validator h]} ∪ (if header_epoch h =? epoch then vs else ∅) in
    if (consensusSize <=? size vs)%nat then Some h else scan (header_epoch h) vs hs
  end.

(** Consecutive blocks of one epoch, the newest first, with enough validators to confirm the
    last of them. *)
Definition confirms (run : list Header) (h : Header) : Prop :=
  list.last run = Some h /\ Forall (fun h' => header_epoch h' = header_epoch h) run /\ (consensusSize <= size (vset run))%nat.

Lemma size_vset_snoc hs h : (size (vset (hs ++ [h])) <= S (size (vset hs)))%nat.
Proof.
  unfold vset. rewrite map_app, list_to_set_app_L. cbn [map list_to_set]. rewrite union_empty_r_L, union_comm_L, size_union_alt, size_singleton.
  pose proof (subseteq_size (list_to_set (map hd_Validator hs) ∖ {[hd_Validator h]}) (list_to_set (C := gset bytes) (map hd_Validator hs)) ltac:(set_solver)). lia.
Qed.

Lemma vset_snoc hs h : vset (hs ++ [h]) = {[hd_Validator h]} ∪ vset hs.
Proof. unfold vset. rewrite map_app, list_to_set_app_L. cbn [map list_to_set]. by rewrite union_empty_r_L, union_comm_L. Qed.

Lemma vset_mono l1 run l2 : (size (vset run) <= size (vset (l1 ++ run ++ l2)))%nat.
Proof. apply subseteq_size. unfold vset. rewrite !map_app, !list_to_set_app_L. set_solver. Qed.

(** The run of the epoch so far, with the next block. *)
Definition next_run (epoch : Z) (r : list Header) (h : Header) : list Header := if header_epoch h =? epoch then r ++ [h] else [h].

Lemma scan_cons epoch r h hs :
  scan epoch (vset r) (h :: hs) =
    if (consensusSize <=? size (vset (next_run epoch r h)))%nat then Some h else scan (header_epoch h) (vset (next_run epoch r h)) hs.
Proof.
  cbn [scan]. unfold next_run. destruct (header_epoch h =? epoch); [by rewrite vset_snoc|].
  assert (E : vset [h] = {[hd_Validator h]} ∪ ∅) by done. by rewrite E.
Qed.

Lemma next_run_epoch epoch r h :
  Forall (fun h' => header_epoch h' = epoch) r -> Forall (fun h' => header_epoch h' = header_epoch h) (next_run epoch r h).
Proof.
  intros F. unfold next_run. destruct (Z.eqb_spec (header_epoch h) epoch) as [E|]; [|by repeat constructor].
  apply Forall_app. split; [eapply Forall_impl; [|exact F]; by intros ? ->|by repeat constructor].
Qed.

Lemma scan_sound hs : forall epoch r h,
  Forall (fun h' => header_epoch h' = epoch) r -> scan epoch (vset r) hs = Some h ->
  exists pre run rest, r ++ hs = pre ++ run ++ rest /\ confirms run h /\ h ∈ hs.
Proof.
  induction hs as [|x hs IH]; intros epoch r h F; [done|]. rewrite scan_cons. pose proof (next_run_epoch epoch r x F) as F'.
  assert (Sp : exists pre, r ++ x :: hs = pre ++ next_run epoch r x ++ hs).
  { unfold next_run. destruct (_ =? _); [exists []|exists r]; by rewrite <- ?app_assoc. }
  destruct Sp as (pre & Sp). destruct (Nat.leb_spec consensusSize (size (vset (next_run epoch r x)))).
  - intros [= <-]. exists pre, (next_run epoch r x), hs. split; [done|]. split; [|left]. split; [|done].
    unfold next_run. destruct (_ =? _); [by rewrite last_snoc|done].
  - intros E. destruct (IH _ _ h F' E) as (p & run & rest & Eq & C & I). exists (pre ++ p), run, rest. split; [|split; [done|by right]].
    rewrite Sp, Eq. by rewrite app_assoc.
Qed.

Lemma scan_complete hs : forall epoch r,
  Forall (fun h' => header_epoch h' = epoch) r -> (size (vset r) < consensusSize)%nat -> scan epoch (vset r) hs = None ->
  forall pre run rest h, r ++ hs = pre ++ run ++ rest -> ~ confirms run h.
Proof.
  induction hs as [|x hs IH]; intros epoch r F Sz.
  { intros _ pre run rest h E (_ & _ & C). rewrite app_nil_r in E. pose proof (vset_mono pre run rest). rewrite <- E in *. lia. }
  rewrite scan_cons. destruct (Nat.leb_spec consensusSize (size (vset (next_run epoch r x)))) as [|Sz']; [done|].
  intros N pre run rest h E C. pose proof (IH _ _ (next_run_epoch epoch r x F) Sz' N) as G.
  unfold next_run in G. destruct (Z.eqb_spec (header_epoch x) epoch) as [Ex|Nx].
  { apply (G pre run rest h); [|done]. by rewrite <- app_assoc. }
  destruct (app_eq_inv r (x :: hs) pre (run ++ rest) E) as [(k & -> & E')|(k & -> & E')].
  - destruct (app_eq_inv run rest k (x :: hs) E') as [(z & -> & Er)|(z & -> & Er)].
    + destruct z as [|z zs].
      * cbn in Er. subst rest. destruct C as (_ & _ & C). pose proof (vset_mono pre k []). rewrite !app_nil_r in *. lia.
      * injection Er as <- Er. destruct k as [|y k]; [by apply (G [] (x :: zs) rest h); [rewrite Er|]|].
        destruct C as (_ & Fr & _). cbn in Fr. inversion Fr as [|? ? Ey Fr']; subst.
        apply Forall_app in F as [_ F]. inversion F; subst. apply Forall_app in Fr' as [_ Fr']. inversion Fr'; subst. congruence.
    + destruct C as (_ & _ & C). pose proof (vset_mono pre run z). lia.
  - by apply (G k run rest h).
Qed.

(** The scan stops at the first block at which it can. *)
Lemma scan_first hs : forall epoch vs h,
  scan epoch vs hs = Some h ->
  exists above below, hs = above ++ h :: below /\ scan epoch vs above = None /\ scan epoch vs (above ++ [h]) = Some h.
Proof.
  induction hs as [|x hs IH]; intros epoch vs h; [done|]. cbn [scan]. set (vs' := {[hd_Validator x]} ∪ _).
  destruct (Nat.leb_spec consensusSize (size vs')) as [L|L].
  - intros [= <-]. exists [], hs. split; [done|]. split; [done|]. cbn [app scan]. fold vs'. by rewrite (proj2 (Nat.leb_le _ _)).
  - intros E. destruct (IH _ _ h E) as (above & below & -> & N & F). exists (x :: above), below. split; [done|]. cbn [app scan].
    fold vs'. by rewrite (proj2 (Nat.leb_gt _ _)).
Qed.

(** The last of [l] is confirmed by the blocks of [l]. *)
Definition confirmed_by (l : list Header) (h : Header) : Prop := exists pre run, l = pre ++ run /\ confirms run h.

(** [h] is the first of [hs], from the newest on, that the blocks from the newest down to it
    confirm. *)
Definition first_confirmed (hs : list Header) (h : Header) : Prop :=
  exists above below, hs = above ++ h :: below /\ confirmed_by (above ++ [h]) h /\
    forall l h', l `prefix_of` above -> ~ confirmed_by l h'.

Lemma scan_first_confirmed hs h : scan (-1) ∅ hs = Some h -> first_confirmed hs h.
Proof.
  change (∅ : gset bytes) with (vset []). intros E. destruct (scan_first hs _ _ h E) as (above & below & Es & N & F).
  assert (Z0 : (size (vset []) < consensusSize)%nat) by (apply Nat.ltb_lt; by vm_compute).
  assert (G : forall l h', l `prefix_of` above -> ~ confirmed_by l h').
  { intros l h' [k ->] (pre & run & -> & C). apply (scan_complete _ (-1) [] (List.Forall_nil _) Z0 N pre run k h'); [|done]. cbn [app]. by rewrite <- app_assoc. }
  exists above, below. split; [done|]. split; [|done].
  destruct (scan_sound (above ++ [h]) (-1) [] h) as (pre & run & rest & Ea & C & _); [constructor|done|]. cbn [app] in Ea.
  exists pre, run. split; [|done]. rewrite app_assoc in Ea. destruct (app_eq_inv above [h] (pre ++ run) rest Ea) as [(k & E1 & E2)|(k & E1 & E2)].
  - exfalso. apply (G (pre ++ run) h); [by exists k|by exists pre, run].
  - destruct k as [|y k]; cbn in E2.
    + exfalso. apply (G (pre ++ run) h); [exists []; by rewrite E1, !app_nil_r|by exists pre, run].
    + injection E2 as <- E2. symmetry in E2. apply app_eq_nil in E2 as [-> _]. by rewrite E1.
Qed.

(** ** Lemmas: the walk *)

Section EngineLemmas.
Context {HS : Hasher} {ST : StateTrie} {GR : GoRand} {CR : Secp256k1} {SC : SigCache}.

(** The blocks [hs], the newest first, are the branch from number [n] down to just above
    [base]. *)
Fixpoint branch (chain : ChainReader) (hs : list Header) (base : Header) (n : Z) : Prop :=
  match hs with
  | [] => hd_Number base = Some n
  | h :: hs =>
    hd_Number h = Some n /\ (exists t, hd_Time h = Some t) /\ GetHeaderByHash chain (hd_ParentHash h) = Some (default base (head hs)) /\
    branch chain hs base (n - 1)
  end.

Lemma branch_number chain hs base n : branch chain hs base n -> hd_Number base = Some (n - len hs) /\ hd_Number (default base (head hs)) = Some n.
Proof.
  revert n. induction hs as [|h hs IH]; intros n B; [change (len []) with 0; rewrite Z.sub_0_r; done|].
  destruct B as (E & _ & _ & B). destruct (IH (n - 1) B) as [E' _]. rewrite len_cons. split; [|done]. rewrite E'. f_equal. lia.
Qed.

Lemma branch_above chain hs base n h : branch chain hs base n -> h ∈ hs -> exists hn, hd_Number h = Some hn /\ n - len hs < hn.
Proof.
  intros B I. revert n B. induction hs as [|x hs IH]; intros n B; [by apply elem_of_nil in I|].
  rewrite len_cons. pose proof (len_nonneg hs). destruct B as (En & _ & _ & B).
  apply list.elem_of_cons in I as [->|I]; [exists n; split; [done|lia]|]. destruct (IH I (n - 1) B) as (hn & E & L). exists hn. split; [done|lia].
Qed.

Lemma scan_short hs : forall epoch vs, (size vs + length hs < consensusSize)%nat -> scan epoch vs hs = None.
Proof.
  induction hs as [|h hs IH]; intros epoch vs L; [done|]. cbn [scan length] in *.
  set (vs' := {[hd_Validator h]} ∪ _).
  assert (S : (size vs' <= S (size vs))%nat).
  { unfold vs'. rewrite size_union_alt, size_singleton. destruct (_ =? _).
    - pose proof (subseteq_size (vs ∖ {[hd_Validator h]}) vs ltac:(set_solver)). lia.
    - pose proof (subseteq_size ((∅ : gset bytes) ∖ {[hd_Validator h]}) ∅ ltac:(set_solver)) as Q. rewrite size_empty in Q. lia. }
  rewrite (proj2 (Nat.leb_gt _ _)) by lia. apply IH. lia.
Qed.

(** The engine after a block is confirmed. *)
Definition confirmed_engine (r : option Header) (d : Poc) : Poc :=
  match r with
  | None => d
  | Some h => set_pdb (<[confirmedBlockHead := Header_Hash h]> (p_db d)) (set_confirmed h d)
  end.

Lemma big_small z : 0 <= z < 2 ^ 63 -> big_Uint64 z = z /\ big_Int64 z = z.
Proof.
  intros H. unfold big_Uint64, big_Int64. rewrite (proj2 (Z.ltb_ge z 0)) by lia. rewrite Z.abs_eq, u64_small by (unfold is_u64; lia).
  split; [done|]. apply i64_small. unfold is_i64. lia.
Qed.

Lemma confirm_loop_spec chain c cn : 0 <= cn -> hd_Number c = Some cn -> forall hs base fuel epoch vs n d,
  p_confirmed d = Some c -> branch chain hs base n -> n - len hs = cn -> n < 2 ^ 63 ->
  (forall h, h ∈ hs -> Header_Hash c <> Header_Hash h) -> (length hs < fuel)%nat ->
  confirm_loop fuel chain (default base (head hs)) epoch vs d = Ok (confirmed_engine (scan epoch vs hs) d, inr tt).
Proof.
  intros Hc Ec. induction hs as [|h hs IH]; intros base fuel epoch vs n d Ed B Hn Hb Hh Hf; (destruct fuel as [|fuel]; [cbn in Hf; lia|]);
    [change (default base (head [])) with base|change (default base (head (h :: hs))) with h];
    cbn [confirm_loop]; unfold mbind, go_bind, gets; rewrite Ed; cbn [deref mret go_ret]; rewrite Ec.
  - change (len []) with 0 in Hn. cbn in B. rewrite B. cbn [deref mret go_ret]. assert (n = cn) as -> by lia.
    by rewrite Z.ltb_irrefl, andb_false_r.
  - destruct B as (En & (t & Et) & Ep & B). rewrite len_cons in Hn. pose proof (len_nonneg hs). rewrite En. cbn [deref mret go_ret].
    destruct (big_small cn ltac:(lia)) as [Uc Ic]. destruct (big_small n ltac:(lia)) as [Un In_]. rewrite Uc, Un, Ic, In_.
    rewrite bool_decide_false by (apply Hh; left). rewrite (proj2 (Z.ltb_lt cn n)) by lia. cbn [negb andb]. rewrite Et. cbn [deref mret go_ret].
    assert (He : big_Int64 t ÷ epochInterval = header_epoch h) by (unfold header_epoch; by rewrite Et). rewrite He.
    rewrite i64_small by (unfold is_i64; lia). cbn [scan]. set (vs' := if header_epoch h =? epoch then vs else ∅).
    destruct (Z.ltb_spec (n - cn) (Z.of_nat consensusSize - Z.of_nat (size vs'))) as [L|L].
    + pose proof (scan_short (h :: hs) (header_epoch h) vs') as N. cbn [scan length] in N. rewrite Z.eqb_refl in N.
      rewrite N; [done|]. unfold len in *. lia.
    + destruct (Nat.leb_spec consensusSize (size ({[hd_Validator h]} ∪ vs'))); [done|]. rewrite Ep.
      rewrite <- (IH base fuel (header_epoch h) _ (n - 1) d Ed B); [done|lia|lia| |cbn in Hf; lia].
      intros h' Hh'. apply Hh. by right.
Qed.

(** The confirmed header an engine starts from. *)
Definition start_header (chain : ChainReader) (d : Poc) : option Header :=
  match p_confirmed d with
  | Some c => Some c
  | None => match loadConfirmedBlockHeader chain d with Ok h => Some h | _ => GetHeaderByNumber chain 0 end
  end.

Lemma loadConfirmed_total chain d : (exists h, loadConfirmedBlockHeader chain d = Ok h) \/ exists e, loadConfirmedBlockHeader chain d = Err e.
Proof. unfold loadConfirmedBlockHeader. repeat case_goal; eauto. Qed.

Lemma updateConfirmed_spec fuel chain d c cn cur hs base n :
  start_header chain d = Some c -> CurrentHeader chain = Some cur -> cur = default base (head hs) ->
  0 <= cn -> hd_Number c = Some cn -> branch chain hs base n -> n - len hs = cn -> n < 2 ^ 63 ->
  (forall h, h ∈ hs -> Header_Hash c <> Header_Hash h) -> (length hs < fuel)%nat ->
  updateConfirmedBlockHeader fuel chain d = Ok (confirmed_engine (scan (-1) ∅ hs) (set_confirmed c d), inr tt).
Proof.
  intros Hs Hc -> H0 Ec B Hn Hb Hh Hf. unfold updateConfirmedBlockHeader, mbind, go_bind, gets.
  assert (Run : confirm_loop fuel chain (default base (head hs)) (-1) ∅ (set_confirmed c d) =
                Ok (confirmed_engine (scan (-1) ∅ hs) (set_confirmed c d), inr tt)) by (by apply (confirm_loop_spec chain c cn H0 Ec hs base fuel _ _ n)).
  unfold start_header in Hs. destruct (p_confirmed d) as [c'|] eqn:Ed.
  - injection Hs as ->. cbn [mret go_ret]. rewrite Hc. cbn [deref mret go_ret]. rewrite <- Run. by destruct d; cbn in *; subst.
  - destruct (loadConfirmed_total chain d) as [(h & El)|(e & El)]; rewrite El in *; change (id d) with d; rewrite El.
    + injection Hs as ->. cbn [modify]. rewrite Hc. exact Run.
    + rewrite Hs. cbn [modify]. rewrite Hc. exact Run.
Qed.

(** ** Properties: the confirmed block *)

(** C18. The walk for the confirmed block ends within the length of the branch and implements
    its specification, on a branch with numbers below 2^63 whose blocks have other hashes than
    the confirmed one.  If no run of blocks of one epoch above the confirmed block has
    [consensusSize] validators, the confirmed block stays and nothing is stored: the fast
    return of the code never misses one.  Otherwise the new confirmed block is the first from
    the head down at which such a run is complete; it is above the old one, and its hash is
    stored, so that it is loaded again after a restart. *)
Theorem updateConfirmed_refines fuel chain d c cn cur hs base n :
  start_header chain d = Some c -> CurrentHeader chain = Some cur -> cur = default base (head hs) ->
  0 <= cn -> hd_Number c = Some cn -> branch chain hs base n -> n - len hs = cn -> n < 2 ^ 63 ->
  (forall h, h ∈ hs -> Header_Hash c <> Header_Hash h) -> (length hs < fuel)%nat ->
  exists d', updateConfirmedBlockHeader fuel chain d = Ok (d', inr tt) /\
    (p_confirmed d' = Some c /\ p_db d' = p_db d /\ (forall pre run rest h, hs = pre ++ run ++ rest -> ~ confirms run h) \/
     exists h hn, first_confirmed hs h /\ p_confirmed d' = Some h /\ hd_Number h = Some hn /\ cn < hn /\
       p_db d' = <[confirmedBlockHead := Header_Hash h]> (p_db d) /\
       (GetHeaderByHash chain (Header_Hash h) = Some h -> loadConfirmedBlockHeader chain d' = Ok h)).
Proof.
  intros Hs Hc Eq H0 Ec B Hn Hb Hh Hf. eexists. split; [by apply (updateConfirmed_spec fuel chain d c cn cur hs base n)|].
  destruct (scan (-1) ∅ hs) as [h|] eqn:E.
  - right. pose proof (scan_first_confirmed hs h E) as F. pose proof F as (above & below & Es & _).
    destruct (branch_above chain hs base n h B) as (hn & Ehn & L); [rewrite Es; apply elem_of_app; right; by left|].
    exists h, hn. split; [done|]. split; [done|]. split; [done|]. split; [lia|]. split; [done|].
    intros G. unfold loadConfirmedBlockHeader. cbn [confirmed_engine set_pdb p_db]. rewrite lookup_insert_eq.
    assert (Lh : len (Header_Hash h) = HashLength) by apply len_rlpHash. by rewrite BytesToHash_id, G.
  - left. split; [done|]. split; [done|]. intros pre run rest h Es. exact (scan_complete hs (-1) [] (List.Forall_nil _) ltac:(apply Nat.ltb_lt; by vm_compute) E pre run rest h Es).
Qed.

(** ** Lemmas: headers *)

(** A header with a number and a time in the range of the clock. *)
Definition dated (h : Header) (n t : Z) : Prop := hd_Number h = Some n /\ hd_Time h = Some t /\ 0 <= n < 2 ^ 63 /\ 0 <= t < 2 ^ 63.

Definition fork_ok (config : ChainConfig) (h : Header) (n : Z) : Prop :=
  EIP150Block config = Some n -> EIP150Hash config <> zeros HashLength -> EIP150Hash config = Header_Hash h.

(** What a header must satisfy besides its link to the parent. *)
Definition well_formed (now : Z) (config : ChainConfig) (h : Header) (n t : Z) : Prop :=
  t <= now /\ extraVanity + extraSeal <= len (hd_Extra h) /\ hd_MixDigest h = zeros HashLength /\
  (exists df, hd_Difficulty h = Some df /\ big_Uint64 df = 1) /\ hd_UncleHash h = EmptyUncleHash /\ fork_ok config h n.

(** A header that passes the checks on itself. *)
Definition acceptable (now : Z) (config : ChainConfig) (h : Header) : Prop :=
  exists n t, hd_Number h = Some n /\ hd_Time h = Some t /\ well_formed now config h n t.

(** The link of a header to its parent, with numbers and times compared by their low 64 bits. *)
Definition links (p h : Header) : Prop :=
  exists n t pn pt, hd_Number h = Some n /\ hd_Time h = Some t /\ hd_Number p = Some pn /\ hd_Time p = Some pt /\
    Header_Hash p = hd_ParentHash h /\ big_Uint64 pn = u64 (big_Uint64 n - 1) /\ u64 (big_Uint64 pt + blockInterval) <= big_Uint64 t.

(** Within the range of the clock the number is the next one and the time at least a block
    interval later. *)
Lemma links_dated p h pn pt n t :
  links p h -> dated p pn pt -> dated h n t -> 0 < n -> pn = n - 1 /\ pt + blockInterval <= t.
Proof.
  intros (n' & t' & pn' & pt' & E1 & E2 & E3 & E4 & _ & En & Lt) (F3 & F4 & Hpn & Hpt) (F1 & F2 & Hn & Ht) Pn.
  assert (n' = n /\ t' = t /\ pn' = pn /\ pt' = pt) as (-> & -> & -> & ->) by (repeat split; congruence).
  rewrite (proj1 (big_small _ Hpn)), (proj1 (big_small _ Hn)), u64_small in En by (unfold is_u64; lia).
  rewrite (proj1 (big_small _ Hpt)), (proj1 (big_small _ Ht)), u64_small in Lt by (unfold is_u64, blockInterval; lia). done.
Qed.

Definition set_number (n : Z) (h : Header) : Header :=
  mkHeader (hd_ParentHash h) (hd_UncleHash h) (hd_Validator h) (hd_Coinbase h) (hd_Root h) (hd_RecordRoot h) (hd_TxHash h) (hd_ReceiptHash h)
    (hd_PocContext h) (hd_Bloom h) (hd_Difficulty h) (Some n) (hd_GasLimit h) (hd_GasUsed h) (hd_Time h) (hd_Extra h) (hd_MixDigest h) (hd_Nonce h).

Lemma VerifyForkHashes_spec config h n :
  hd_Number h = Some n -> VerifyForkHashes config h false = Ok tt /\ fork_ok config h n \/ VerifyForkHashes config h false = Err ErrForkHash /\ ~ fork_ok config h n.
Proof.
  intros E. unfold VerifyForkHashes, fork_ok. rewrite E. destruct (EIP150Block config) as [b|]; [|left; split; [done|]; by intros [=]].
  destruct (Z.eqb_spec b n) as [->|N]; cbn [andb]; [|left; split; [done|]; by intros [=]].
  destruct (bool_decide_reflect (EIP150Hash config = zeros HashLength)) as [Z0|Z0]; cbn [negb andb]; [left; split; [done|]; intros _ N; by destruct N|].
  destruct (bool_decide_reflect (EIP150Hash config = Header_Hash h)) as [Eh|Eh]; cbn [negb]; [by left|right]. split; [done|].
  intros F. by apply Eh, F.
Qed.

Lemma verifyHeader_iff now chain h parents :
  verifyHeader now chain h parents = Ok tt <->
  acceptable now (cr_Config chain) h /\
  exists n p, hd_Number h = Some n /\ find_parent chain h (big_Uint64 n) parents = Some p /\ links p h.
Proof.
  unfold verifyHeader, acceptable, well_formed.
  destruct (hd_Number h) as [n|] eqn:En; [|split; [done|by intros [(? & ? & [=] & _) _]]].
  destruct (hd_Time h) as [t|] eqn:Et; cbn [nonnil mbind outcome_bind]; [|split; [done|by intros [(? & ? & _ & [=] & _) _]]].
  assert (R : forall e (Q : Prop), (Q -> False) -> (Err e = Ok tt :> outcome engine_error unit) <-> Q) by (intros e Q F; split; [done|by intros ?%F]).
  destruct (Z.ltb_spec now t); [apply R; intros [(? & ? & _ & [= <-] & ? & _) _]; lia|].
  destruct (Z.ltb_spec (len (hd_Extra h)) extraVanity);
    [apply R; intros [(? & ? & _ & _ & _ & ? & _) _]; unfold extraVanity, extraSeal in *; lia|].
  destruct (Z.ltb_spec (len (hd_Extra h)) (extraVanity + extraSeal)); [apply R; intros [(? & ? & _ & _ & _ & ? & _) _]; lia|].
  destruct (bool_decide_reflect (hd_MixDigest h = zeros HashLength)); cbn [negb]; [|apply R; by intros [(? & ? & _ & _ & _ & _ & ? & _) _]].
  destruct (hd_Difficulty h) as [df|] eqn:Edf; cbn [nonnil mbind outcome_bind];
    [|split; [done|by intros [(? & ? & _ & _ & _ & _ & _ & (? & [=] & _) & _) _]]].
  destruct (Z.eqb_spec (big_Uint64 df) 1) as [E1|E1]; cbn [negb];
    [|apply R; by intros [(? & ? & _ & _ & _ & _ & _ & (? & [= <-] & ?) & _) _]].
  destruct (bool_decide_reflect (hd_UncleHash h = EmptyUncleHash)); cbn [negb]; [|apply R; by intros [(? & ? & _ & _ & _ & _ & _ & _ & ? & _) _]].
  destruct (VerifyForkHashes_spec (cr_Config chain) h n En) as [[-> F]|[-> F]]; cbn [mbind outcome_bind];
    [|apply R; intros [(n' & ? & [= <-] & _ & _ & _ & _ & _ & _ & F') _]; by apply F].
  transitivity (exists p, find_parent chain h (big_Uint64 n) parents = Some p /\ links p h).
  2: { split; [intros (p & Ep & Lp)|intros [_ (n' & p & [= <-] & Ep & Lp)]; by exists p].
       split; [exists n, t; repeat (split; [done || lia || (by exists df)|]); done|by exists n, p]. }
  destruct (find_parent chain h (big_Uint64 n) parents) as [p|] eqn:Ep; [|apply R; by intros (? & [=] & _)].
  transitivity (links p h); [|split; [by exists p|by intros (? & [= <-] & ?)]]. unfold links. rewrite En, Et.
  destruct (hd_Number p) as [pn|] eqn:Epn; cbn [nonnil mbind outcome_bind]; [|split; [done|by intros (? & ? & ? & ? & _ & _ & [=] & _)]].
  destruct (Z.eqb_spec (big_Uint64 pn) (u64 (big_Uint64 n - 1))) as [E2|E2]; cbn [negb orb];
    [|apply R; by intros (? & ? & ? & ? & [= <-] & _ & [= <-] & _ & _ & ? & _)].
  destruct (bool_decide_reflect (Header_Hash p = hd_ParentHash h)); cbn [negb]; [|apply R; by intros (? & ? & ? & ? & _ & _ & _ & _ & ? & _)].
  destruct (hd_Time p) as [pt|] eqn:Ept; cbn [nonnil mbind outcome_bind]; [|split; [done|by intros (? & ? & ? & ? & _ & _ & _ & [=] & _)]].
  destruct (Z.ltb_spec (big_Uint64 t) (u64 (big_Uint64 pt + blockInterval))).
  - apply R. intros (? & ? & ? & ? & _ & [= <-] & _ & [= <-] & _ & _ & ?). lia.
  - split; [|done]. intros _. by exists n, t, pn, pt.
Qed.

(** ** Lemmas: signatures *)

(** The signer of a header, computed without the cache. *)
Definition recovers (h : Header) (a : bytes) : Prop :=
  exists sh pub, sigHash h = Ok sh /\ Ecrecover sh (zdrop (len (hd_Extra h) - extraSeal) (hd_Extra h)) = Ok pub /\ a = pubkey_address pub.

Lemma recovers_det h a b : recovers h a -> recovers h b -> a = b.
Proof. intros (s & p & E1 & E2 & ->) (s' & p' & E1' & E2' & ->). congruence. Qed.

(** What is cached for a hash is the signer of a header with that hash. *)
Definition cache_ok (d : Poc) : Prop := c_all (fun k v => exists h, Header_Hash h = k /\ recovers h v) (p_signatures d).

Lemma sigHash_extra h sh : sigHash h = Ok sh -> extraSeal <= len (hd_Extra h).
Proof. unfold sigHash. destruct (Z.ltb_spec (len (hd_Extra h)) extraSeal); [done|lia]. Qed.

Lemma ecrecover_sound h d d' a :
  cache_ok d -> ecrecover h d = Ok (d', inr a) -> cache_ok d' /\ exists h', Header_Hash h' = Header_Hash h /\ recovers h' a.
Proof.
  intros C. unfold ecrecover, mbind, go_bind, gets.
  destruct (c_Get_all _ (Header_Hash h) _ C) as [C' G]. destruct (c_Get (Header_Hash h) (p_signatures d)) as [known sigs]. cbn [modify fst snd] in *.
  destruct known as [v|]; [intros [= <- <-]; split; [done|by apply G]|].
  destruct (len (hd_Extra h) <? extraSeal); [done|]. destruct (sigHash h) as [sh|e| |] eqn:Es; try done.
  destruct (Ecrecover sh _) as [pub|e| |] eqn:Er; try done. intros [= <- <-].
  assert (R : recovers h (pubkey_address pub)) by (by exists sh, pub). split; [|by exists h].
  apply c_Add_all; [done|]. by exists h.
Qed.

Lemma ecrecover_complete h d a :
  (forall v, fst (c_Get (Header_Hash h) (p_signatures d)) = Some v -> v = a) -> recovers h a -> exists d', ecrecover h d = Ok (d', inr a).
Proof.
  intros G R. unfold ecrecover, mbind, go_bind, gets. destruct (c_Get (Header_Hash h) (p_signatures d)) as [known sigs]. cbn [modify fst] in *.
  destruct known as [v|]; [rewrite (G v eq_refl); by eexists|]. destruct R as (sh & pub & Es & Er & ->).
  pose proof (sigHash_extra h sh Es). rewrite (proj2 (Z.ltb_ge _ _)) by lia. rewrite Es, Er. by eexists.
Qed.

(** Only the signature at the end of the extra data may change without changing the hash
    that is signed. *)
Lemma sigHash_set_extra h extra :
  len extra = len (hd_Extra h) -> ztake (len extra - extraSeal) extra = ztake (len extra - extraSeal) (hd_Extra h) ->
  sigHash (set_extra extra h) = sigHash h.
Proof. intros L E. unfold sigHash. cbn [hd_Extra set_extra]. rewrite L in *. rewrite E. done. Qed.

Lemma patch_extra_spec extra sig :
  extraSeal <= len extra -> len sig = extraSeal ->
  len (patch_extra extra sig) = len extra /\
  ztake (len extra - extraSeal) (patch_extra extra sig) = ztake (len extra - extraSeal) extra /\
  zdrop (len extra - extraSeal) (patch_extra extra sig) = sig.
Proof.
  intros L Ls. unfold patch_extra. assert (Es : ztake extraSeal sig = sig) by (unfold ztake; apply take_ge; unfold len, extraSeal in *; lia).
  rewrite Es, Ls. replace (len extra - extraSeal + extraSeal) with (len extra) by lia.
  assert (Ed : zdrop (len extra) extra = []) by (unfold zdrop; apply drop_ge; unfold len; lia). rewrite Ed, app_nil_r.
  assert (Lt : len (ztake (len extra - extraSeal) extra) = len extra - extraSeal) by (apply len_ztake; unfold extraSeal in *; lia).
  split; [rewrite len_app, Lt, Ls; lia|]. split; [rewrite <- Lt at 1; by apply ztake_app_len|rewrite <- Lt at 1; by apply zdrop_app_len].
Qed.

Lemma len_sigHash h sh : sigHash h = Ok sh -> len sh = 32.
Proof. unfold sigHash. destruct (_ <? _); [done|]. destruct (hd_PocContext h); [|done]. intros [= <-]. apply len_rlpHash. Qed.

(** ** Lemmas: mint counts *)

Lemma mint_small m k v : mint_ok m -> bytes_ok v -> length v = 8%nat -> len k < 2 ^ 30 -> mint_ok (<[k := v]> m).
Proof.
  intros [Sm Mk] Ov Lv Lk. split; intros k' v'; rewrite lookup_insert_Some; intros [[<- <-]|[_ H]]; [|by apply Sm|done|by apply (Mk k')].
  split; [done|]. split; [done|]. unfold len. lia.
Qed.

Lemma mint_read fuel db t m currentEpoch validator :
  thas db t mintCntPrefix m -> mint_ok m -> map_root m <> emptyState -> enough fuel m -> is_address validator ->
  exists t', (
    '(it, t) ← t_NodeIterator fuel db t (be_fixed 8 (u64 currentEpoch));
    '(e, _, t) ← Iterator_Next fuel db t it;
    match e with
    | None => Ok (1, t)
    | Some _ =>
      '(cntBytes, t) ← Get db t (mint_key currentEpoch validator);
      match cntBytes with
      | None => Ok (1, t)
      | Some b => if (length b <? 8)%nat then Panic else Ok (i64 (i64 (be_decode (take 8 b)) + 1), t)
      end
    end) = Ok (match m !! (mintCntPrefix ++ mint_key currentEpoch validator) with Some v => i64 (i64 (be_decode v) + 1) | None => 1 end, t') /\
    thas db t' mintCntPrefix m.
Proof.
  intros [TH Pr] [Sm Mk] NE Hf Ha. set (start := be_fixed 8 (u64 currentEpoch)).
  unfold t_NodeIterator. rewrite Pr.
  destruct (newNodeIterator_holds fuel db t m (mintCntPrefix ++ start) TH Sm NE Hf) as (it & t1 & l & E1 & [TH1 Pr1] & [EF _] & I). rewrite E1.
  cbn [mbind outcome_bind]. unfold enough in Hf.
  destruct (Iterator_Next_holds fuel db m _ t1 it l I TH1 Sm ltac:(lia)) as (it2 & t2 & E2 & [TH2 Pr2] & _). rewrite E2. cbn [mbind outcome_bind].
  assert (H2 : thas db t2 mintCntPrefix m) by (split; [done|by rewrite Pr2, Pr1]).
  destruct l as [|e l]; cbn [head].
  - exists t2. split; [|done]. destruct (m !! _) as [v|] eqn:Ev; [|done]. exfalso.
    assert (In_ : (mintCntPrefix ++ mint_key currentEpoch validator, v) ∈ ([] : list (bytes * bytes))).
    { apply EF. split; [done|]. unfold mint_key. rewrite app_assoc. apply not_lt_prefix. }
    by apply elem_of_nil in In_.
  - destruct (Get_holds db t2 mintCntPrefix m (mint_key currentEpoch validator) H2) as (t3 & E3 & H3); [apply prefixes_ok|by apply mint_key_ok|].
    rewrite E3. cbn [mbind outcome_bind]. exists t3. split; [|done]. destruct (m !! _) as [v|] eqn:Ev; [|done].
    rewrite (Mk _ _ Ev). cbn [Nat.ltb Nat.leb]. pose proof (Mk _ _ Ev). by rewrite take_ge by lia.
Qed.

(** ** Lemmas: batches *)

(** The parent of the first of [hs] is the last of [before], or comes from the chain. *)
Lemma verify_batch_iff now chain hs : forall before,
  Forall (fun r => r = Ok tt) (verify_batch now chain before hs) <->
  Forall (acceptable now (cr_Config chain)) hs /\
  (forall h, head hs = Some h -> exists n p, hd_Number h = Some n /\ find_parent chain h (big_Uint64 n) before = Some p /\ links p h) /\
  (forall pre a b rest, hs = pre ++ a :: b :: rest -> links a b).
Proof.
  induction hs as [|h hs IH]; intros before; cbn [verify_batch].
  { split; [|done]. intros _. split; [constructor|]. split; [done|]. by intros [|? ?]. }
  rewrite Forall_cons_iff, verifyHeader_iff, IH. setoid_rewrite Forall_cons_iff. split.
  - intros [[Ah Ph] (F & Hd & Ch)]. split; [done|]. split; [by intros ? [= <-]|].
    intros [|x pre] a b rest E; injection E as E1 E2; subst; [|by apply (Ch pre a b rest)].
    destruct (Hd b eq_refl) as (n & p & En & Ep & Lp). unfold find_parent in Ep. rewrite last_snoc in Ep. by injection Ep as <-.
  - intros ([Ah F] & Hd & Ch). split; [split; [done|by apply Hd]|]. split; [done|]. split.
    + intros b Eb. destruct hs as [|b' hs']; [done|]. injection Eb as ->. pose proof (Ch [] h b hs' eq_refl) as Lp.
      pose proof Lp as (n & t & pn & pt & En & _). exists n, h. split; [done|]. split; [|done]. unfold find_parent. by rewrite last_snoc.
    + intros pre a b rest E. apply (Ch (h :: pre) a b rest). cbn. by rewrite E.
Qed.

(** Computations that leave the cache of signatures as it is. *)
Definition keeps {A} (m : PM A) : Prop := forall d d' r, m d = Ok (d', r) -> p_signatures d' = p_signatures d.

Lemma keeps_bind {A B} (m : PM A) (f : A -> PM B) : keeps m -> (forall a, keeps (f a)) -> keeps (m ≫= f).
Proof.
  intros Km Kf d d' r. unfold mbind, go_bind. destruct (m d) as [[d1 [e|a]]|e| |] eqn:E; try done.
  - intros [= <- <-]. by apply (Km d d1 (inl e)).
  - intros E2. rewrite (Kf a d1 d' r E2). by apply (Km d d1 (inr a)).
Qed.

Lemma keeps_ret {A} (a : A) : keeps (mret a).
Proof. by intros d d' r [= <- <-]. Qed.
Lemma keeps_gets {A} (f : Poc -> A) : keeps (gets f).
Proof. by intros d d' r [= <- <-]. Qed.
Lemma keeps_throw {A} e : keeps (throw (A := A) e).
Proof. by intros d d' r [= <- <-]. Qed.
Lemma keeps_deref {A} (o : option A) : keeps (deref o).
Proof. destruct o; [apply keeps_ret|done]. Qed.
Lemma keeps_modify f : (forall d, p_signatures (f d) = p_signatures d) -> keeps (modify f).
Proof. intros H d d' r [= <- <-]. apply H. Qed.
Lemma keeps_panic {A} : keeps (go_panic (A := A)).
Proof. done. Qed.

Create HintDb keeps.
Hint Resolve keeps_bind keeps_ret keeps_gets keeps_throw keeps_deref keeps_modify keeps_panic : keeps.

Lemma keeps_confirm_loop chain fuel : forall cur epoch vs, keeps (confirm_loop fuel chain cur epoch vs).
Proof.
  induction fuel as [|fuel IH]; intros cur epoch vs; [done|]. cbn [confirm_loop].
  do 4 (apply keeps_bind; [auto with keeps|intros ?]). destruct (_ && _); [|apply keeps_ret].
  apply keeps_bind; [auto with keeps|intros ?]. destruct (_ <? _); [apply keeps_ret|]. destruct (_ <=? _)%nat.
  - unfold storeConfirmedBlockHeader. auto 10 with keeps.
  - destruct (GetHeaderByHash chain _); [apply IH|apply keeps_throw].
Qed.

Lemma keeps_updateConfirmed fuel chain : keeps (updateConfirmedBlockHeader fuel chain).
Proof.
  unfold updateConfirmedBlockHeader. apply keeps_bind; [auto with keeps|intros c]. apply keeps_bind.
  - destruct c; [apply keeps_ret|]. apply keeps_bind; [auto with keeps|intros d].
    destruct (loadConfirmedBlockHeader chain d); [auto with keeps| |done|done]. destruct (GetHeaderByNumber chain 0); auto with keeps.
  - intros _. apply keeps_bind; [auto with keeps|intros cur]. apply keeps_confirm_loop.
Qed.

(** The look-up of the slot's validator does not change the engine. *)
Lemma slot_validator_state proto t d d' r : slot_validator proto t d = Ok (d', r) -> d' = d.
Proof.
  unfold slot_validator, mbind, go_bind. destruct proto as [p|]; [|done]. cbn. destruct (NewPocContextFromProto _ p) as [pc|e| |]; try done.
  - destruct (lookupValidator _ _ _) as [[? [?|?]]|?| |]; try done; by intros [= <- <-].
  - by intros [= <- <-].
Qed.

(** ** Properties: headers and seals *)

(** C22. [VerifyHeaders] accepts a batch exactly if it is a chain of headers that pass the checks
    on their fields and hang on a header of the chain: every header names its predecessor by
    hash, has the next number and is at least a block interval younger, where numbers and
    times count modulo 2^64; within the range of the clock they are the next number and the
    later time themselves. *)
Theorem VerifyHeaders_chain now chain headers :
  (Forall (fun r => r = Ok tt) (VerifyHeaders now chain headers) <->
   Forall (acceptable now (cr_Config chain)) headers /\
   (forall h, head headers = Some h -> exists n p, hd_Number h = Some n /\
      GetHeader chain (hd_ParentHash h) (u64 (big_Uint64 n - 1)) = Some p /\ links p h) /\
   (forall pre a b rest, headers = pre ++ a :: b :: rest -> links a b)) /\
  (forall a b pn pt n t, links a b -> dated a pn pt -> dated b n t -> 0 < n -> pn = n - 1 /\ pt + blockInterval <= t).
Proof. split; [apply (verify_batch_iff now chain headers [])|apply links_dated]. Qed.

(** Numbers are compared by their low 64 bits only: a header that is accepted is accepted
    with its number raised by 2^64 too, unless a fork hash is set for that number. *)
Theorem verifyHeader_wraps now chain h parents n :
  hd_Number h = Some n -> 0 <= n -> EIP150Block (cr_Config chain) <> Some (n + 2 ^ 64) ->
  verifyHeader now chain h parents = Ok tt -> verifyHeader now chain (set_number (n + 2 ^ 64) h) parents = Ok tt.
Proof.
  intros En Hn Nf. rewrite !verifyHeader_iff. intros [(n' & t & E & Et & W) (n2 & p & E2 & Ep & Lp)].
  assert (n' = n /\ n2 = n) as [-> ->] by (split; congruence). destruct W as (W1 & W2 & W3 & W4 & W5 & _).
  assert (U : big_Uint64 (n + 2 ^ 64) = big_Uint64 n).
  { unfold big_Uint64. rewrite !Z.abs_eq by lia. unfold u64. replace (n + 2 ^ 64) with (n + 1 * 2 ^ 64) by lia. by rewrite Z.mod_add. }
  split; [exists (n + 2 ^ 64), t; split; [done|]; split; [done|]; repeat (split; [done|]); by intros ?%Nf|].
  exists (n + 2 ^ 64), p. rewrite U. split; [done|]. split; [exact Ep|].
  destruct Lp as (n3 & t3 & pn & pt & E3 & Et3 & Q). assert (n3 = n) as -> by congruence.
  exists (n + 2 ^ 64), t3, pn, pt. by rewrite U.
Qed.

(** C19. A seal is accepted only from the validator of the slot: if [verifySeal] accepts a header,
    the header is not the genesis, its parent is known, its validator field is the address
    that the validators of the parent's context assign to its time, and that address has
    signed a header with the same hash; what is cached stays right. *)
Theorem verifySeal_sound fuel chain h parents d d' :
  cache_ok d -> verifySeal fuel chain h parents d = Ok (d', inr tt) ->
  exists n t p, hd_Number h = Some n /\ big_Uint64 n <> 0 /\ hd_Time h = Some t /\ find_parent chain h (big_Uint64 n) parents = Some p /\
    slot_validator (hd_PocContext p) (big_Int64 t) d = Ok (d, inr (hd_Validator h)) /\
    (exists h', Header_Hash h' = Header_Hash h /\ recovers h' (hd_Validator h)) /\ cache_ok d'.
Proof.
  intros C. unfold verifySeal, mbind, go_bind. destruct (hd_Number h) as [n|]; [|done]. cbn [deref mret go_ret].
  destruct (Z.eqb_spec (big_Uint64 n) 0) as [|Nz]; [done|]. destruct (find_parent chain h (big_Uint64 n) parents) as [p|] eqn:Ep; [|done].
  cbn [deref mret go_ret]. destruct (hd_Time h) as [t|]; [|done]. cbn [deref mret go_ret].
  destruct (slot_validator (hd_PocContext p) (big_Int64 t) d) as [[d1 [e|v]]|e| |] eqn:Ev; try done.
  pose proof (slot_validator_state _ _ _ _ _ Ev) as ->.
  unfold verifyBlockSigner, mbind, go_bind. destruct (ecrecover h d) as [[d2 [e|a]]|e| |] eqn:Er; try done.
  destruct (ecrecover_sound h d d2 a C Er) as [C2 R].
  destruct (bool_decide_reflect (a = v)) as [->|]; cbn [negb]; [|done].
  destruct (bool_decide_reflect (v = hd_Validator h)) as [->|]; cbn [negb]; [|done]. cbn [mret go_ret].
  intros Eu. exists n, t, p. do 4 (split; [done|]). split; [done|]. split; [done|].
  unfold cache_ok. by rewrite (keeps_updateConfirmed fuel chain d2 d' (inr tt) Eu).
Qed.

(** C20. Sealing with the key of the signer makes a header that every verifier accepts: the
    body is kept, the header differs in the last bytes of the extra data only, and
    [verifyBlockSigner] recovers the address of the key, when that address is the header's
    validator and the verifier has cached no other signer for the header's hash. *)
Theorem Seal_verifies b h n D now d sealed v :
  Block_Header b = h -> hd_Number h = Some n -> big_Uint64 n <> 0 -> 1 <= D < secp256k1_N ->
  v = pubkey_address (pubkey_of D) -> hd_Validator h = v -> extraSeal <= len (hd_Extra h) ->
  Seal (fun _ hash => Sign hash D) now false b d = Ok (Some sealed) ->
  (exists extra, b_header sealed = set_extra extra h /\ len extra = len (hd_Extra h) /\
     ztake (len extra - extraSeal) extra = ztake (len extra - extraSeal) (hd_Extra h)) /\
  b_transactions sealed = b_transactions b /\ b_uncles sealed = b_uncles b /\
  forall d', (forall a, fst (c_Get (Header_Hash (b_header sealed)) (p_signatures d')) = Some a -> a = v) ->
    exists d'', verifyBlockSigner v (b_header sealed) d' = Ok (d'', inr tt).
Proof.
  intros Eb En Nz HD Ev Hv Le. unfold Seal. rewrite Eb, En. cbn [nonnil mbind outcome_bind]. rewrite (proj2 (Z.eqb_neq _ _) Nz), andb_false_r.
  destruct (sigHash h) as [sh|e| |] eqn:Es; try done. destruct (Sign_ok sh D (len_sigHash h sh Es) HD) as (sig & -> & So).
  cbn [map_err mbind outcome_bind]. intros [= <-]. destruct (patch_extra_spec (hd_Extra h) sig Le (so_len _ _ _ So)) as (L & T & Dr).
  cbn [WithSeal b_header b_transactions b_uncles]. split; [eexists; split; [done|]; rewrite L; done|]. split; [done|]. split; [done|].
  intros d' G. set (h' := set_extra (patch_extra (hd_Extra h) sig) h) in *.
  assert (R : recovers h' v).
  { exists sh, (pubkey_of D). split; [unfold h'; rewrite sigHash_set_extra; [done|done|by rewrite L]|]. split; [|done].
    unfold h'. cbn [hd_Extra set_extra]. rewrite L, Dr. apply So. }
  destruct (ecrecover_complete h' d' v G R) as (d'' & E). exists d''. unfold verifyBlockSigner, mbind, go_bind. rewrite E.
  rewrite bool_decide_true by done. cbn [negb]. rewrite bool_decide_true by done. done.
Qed.

(** Writing the counter of a validator. *)
Lemma mint_write db t M e v cnt :
  thas db t mintCntPrefix (pm_mintCnt M) -> mint_ok (pm_mintCnt M) -> is_address v ->
  exists t' m', TryUpdate db t (mint_key e v) (be_fixed 8 (u64 cnt)) = Ok t' /\ thas db t' mintCntPrefix m' /\ mint_ok m' /\
    mint_of (set_mintCnt_map m' M) e v = i64 cnt /\
    (forall e' v', mint_key e' v' <> mint_key e v -> mint_of (set_mintCnt_map m' M) e' v' = mint_of M e' v').
Proof.
  intros Hm Mk Hv. destruct (Update_holds db t _ _ (mint_key e v) (be_fixed 8 (u64 cnt)) Hm) as (t' & _ & E & H');
    [apply prefixes_ok|by apply mint_key_ok|by intros F%(f_equal length); rewrite length_be_fixed in F|].
  eexists t', _. split; [exact E|]. split; [exact H'|]. split.
  { apply mint_small; [done|apply be_fixed_ok|by rewrite length_be_fixed|]. destruct Hv as [Lv _]. unfold len, AddressLength in *.
    unfold mint_key. rewrite !length_app, length_be_fixed. change (length mintCntPrefix) with 8%nat. lia. }
  unfold mint_of. cbn [pm_mintCnt set_mintCnt_map]. split.
  - rewrite lookup_insert_eq, be_decode_fixed. change (256 ^ Z.of_nat 8) with (2 ^ 64). fold (u64 (u64 cnt)). by rewrite !i64_u64.
  - intros e' v' Ne. rewrite lookup_insert_ne; [done|]. intros F%app_inv_head. by symmetry in F.
Qed.

Lemma updateMintCnt_holds fuel db parentTime time v pc M :
  pc_holds db pc M -> mint_ok (pm_mintCnt M) -> map_root (pm_mintCnt M) <> emptyState -> enough fuel (pm_mintCnt M) -> is_address v ->
  let e := epoch_of time in
  exists pc' m', updateMintCnt fuel db parentTime time v pc = Ok pc' /\ pc_holds db pc' (set_mintCnt_map m' M) /\ mint_ok m' /\
    mint_of (set_mintCnt_map m' M) e v = (if epoch_of parentTime =? e then i64 (mint_of M e v + 1) else 1) /\
    (forall e' v', mint_key e' v' <> mint_key e v -> mint_of (set_mintCnt_map m' M) e' v' = mint_of M e' v').
Proof.
  intros P Mk NE Hf Hv. cbv zeta. pose proof P as (P1 & P2 & P3 & P4 & Hm). unfold updateMintCnt. cbv zeta. fold (epoch_of parentTime) (epoch_of time).
  destruct (epoch_of parentTime =? epoch_of time) eqn:Ee.
  - apply Z.eqb_eq in Ee. rewrite Ee. destruct (mint_read fuel db (mintCntTrie pc) _ (epoch_of time) v Hm Mk NE Hf Hv) as (t1 & -> & H1).
    cbn [mbind outcome_bind]. destruct (mint_write db t1 M (epoch_of time) v
      (match pm_mintCnt M !! (mintCntPrefix ++ mint_key (epoch_of time) v) with Some v => i64 (i64 (be_decode v) + 1) | None => 1 end) H1 Mk Hv)
      as (t2 & m' & -> & H2 & Mk' & R & O).
    exists (SetMintCnt t2 pc), m'. split; [done|]. split; [done|]. split; [done|]. split; [|done]. rewrite R. unfold mint_of.
    destruct (pm_mintCnt M !! _); [by rewrite i64_small by apply i64_range|done].
  - cbn [mbind outcome_bind]. destruct (mint_write db (mintCntTrie pc) M (epoch_of time) v 1 Hm Mk Hv) as (t2 & m' & -> & H2 & Mk' & R & O).
    exists (SetMintCnt t2 pc), m'. done.
Qed.

(** The mint counter of the validator of a new block goes up by one within an epoch and
    starts at one in a new epoch; no other counter and no other trie changes, and the
    counters stay well formed. *)
Theorem updateMintCnt_counts fuel db parentTime time v pc M :
  pc_holds db pc M -> mint_ok (pm_mintCnt M) -> map_root (pm_mintCnt M) <> emptyState -> enough fuel (pm_mintCnt M) -> is_address v ->
  let e := epoch_of time in
  exists pc' m', updateMintCnt fuel db parentTime time v pc = Ok pc' /\ pc_holds db pc' (set_mintCnt_map m' M) /\ mint_ok m' /\
    mint_of (set_mintCnt_map m' M) e v = (if epoch_of parentTime =? e then i64 (mint_of M e v + 1) else 1) /\
    (forall e' v', mint_key e' v' <> mint_key e v -> mint_of (set_mintCnt_map m' M) e' v' = mint_of M e' v').
Proof. apply updateMintCnt_holds. Qed.

(** The slots around a time are the neighbouring multiples of the block interval. *)
Lemma slots now : 0 < now < 2 ^ 62 ->
  exists k, 0 <= k /\ PrevSlot now = k * blockInterval /\ NextSlot now = (k + 1) * blockInterval /\
    k * blockInterval < now <= (k + 1) * blockInterval.
Proof.
  intros Hn. unfold PrevSlot, NextSlot. unfold blockInterval. change (2 ^ 62) with 4611686018427387904 in Hn.
  rewrite !i64_small by (unfold is_i64; rewrite ?i64_small by (unfold is_i64; lia); lia).
  rewrite !Z.quot_div_nonneg by lia. exists ((now - 1) / 20). pose proof (Z.div_mod (now - 1) 20 ltac:(lia)). pose proof (Z.mod_pos_bound (now - 1) 20 ltac:(lia)).
  assert ((now + 20 - 1) / 20 = (now - 1) / 20 + 1) as -> by (replace (now + 20 - 1) with (now - 1 + 1 * 20) by lia; by rewrite Z.div_add by lia).
  split; [apply Z.div_pos; lia|]. lia.
Qed.

(** The miner starts on a block exactly when the slot after the current time is later than the
    last block and either the last block is the one of the previous slot or the next slot is at
    most a second away; a last block of the next slot or later is refused as a future block. *)
Theorem checkDeadline_spec lastTime now :
  0 < now < 2 ^ 62 ->
  exists k, k * blockInterval < now <= (k + 1) * blockInterval /\
    (checkDeadline lastTime now = Ok tt <->
       lastTime < (k + 1) * blockInterval /\ (lastTime = k * blockInterval \/ (k + 1) * blockInterval - 1 <= now)) /\
    (checkDeadline lastTime now = Err ErrMintFutureBlock <-> (k + 1) * blockInterval <= lastTime) /\
    (checkDeadline lastTime now = Err ErrWaitForPrevBlock <->
       lastTime < (k + 1) * blockInterval /\ lastTime <> k * blockInterval /\ now < (k + 1) * blockInterval - 1).
Proof.
  intros Hn. destruct (slots now Hn) as (k & K0 & Ep & En & B). exists k. split; [done|]. unfold checkDeadline. rewrite Ep, En.
  unfold blockInterval in *. change (2 ^ 62) with 4611686018427387904 in Hn.
  rewrite (i64_small ((k + 1) * 20 - now)) by (unfold is_i64; lia).
  destruct (Z.leb_spec ((k + 1) * 20) lastTime); [repeat split; intros; (done || lia)|].
  destruct (Z.eqb_spec lastTime (k * 20)); cbn [orb]; [repeat split; intros; (done || lia)|].
  destruct (Z.leb_spec ((k + 1) * 20 - now) 1); repeat split; intros; (done || lia).
Qed.

(** [GetLastedTx] of the API never returns a transaction: as the trie it opens is stored as the
    candidate trie, a request that finds the header and its trie dereferences a nil trie. *)
Theorem API_GetLastedTx_never db chain account :
  (forall tx, API_GetLastedTx db chain account <> Ok tx) /\
  (forall h p t, CurrentHeader chain = Some h -> hd_PocContext h = Some p -> NewLatestTxTrie (LatestTxHash p) db = Ok t ->
     API_GetLastedTx db chain account = Panic).
Proof.
  unfold API_GetLastedTx, header_proto. split.
  - intros tx. destruct (CurrentHeader chain) as [h|]; [|done]. destruct (hd_PocContext h) as [p|]; [|done]. cbn [nonnil mbind outcome_bind].
    by destruct (NewLatestTxTrie _ db).
  - intros h p t -> Ep Et. rewrite Ep. cbn [nonnil mbind outcome_bind]. by rewrite Et.
Qed.
End EngineLemmas.

(** ** Witnesses *)

#[local] Existing Instance tail_hasher.
#[local] Existing Instance toy_secp.

(** A cache that keeps all entries. *)
#[local] Instance list_cache : SigCache.
Proof.
  refine {| cache := list (bytes * bytes); c_new := [];
    c_Get k c := (match list_find (fun p => fst p = k) c with Some (_, p) => Some (snd p) | None => None end, c);
    c_Add k v c := (k, v) :: c; c_all P c := Forall (fun p => P (fst p) (snd p)) c |}.
  - intros P. constructor.
  - intros P k c F. split; [done|]. cbn [fst]. intros v. destruct (list_find _ c) as [[i [k' v']]|] eqn:E; [|done].
    intros [= <-]. apply list_find_Some in E as (L & Ek & _). apply list_elem_of_lookup_2 in L. cbn in Ek. subst k'.
    apply (Forall_elem _ _ _ F L).
  - intros P k v c F H. by constructor.
Defined.

Definition sample_config : ChainConfig := mkChainConfig (Some 5) (Some 0) None false None (zeros 32) (Some 0) (Some 0) None.

(** The validators [vs] stored in a context of their own. *)
Definition sample_store (vs : list bytes) : PocContextProto * database :=
  match SetValidators ∅ vs empty_context with
  | Ok pc => match Poc_CommitTo ∅ pc with Ok (p, _, db) => (p, db) | _ => (mkPocContextProto [] [] [] [] [], ∅) end
  | _ => (mkPocContextProto [] [] [] [] [], ∅)
  end.

Definition chain_block (p : PocContextProto) (parent validator : bytes) (n : Z) : Header :=
  mkHeader parent EmptyUncleHash validator (zeros 20) (zeros 32) (zeros 32) (zeros 32) (zeros 32) (Some p) (zeros 256)
    (Some 1) (Some n) (Some 0) (Some 0) (Some (20 * n)) (zeros 97) (zeros 32) (be_fixed 8 n).

Definition proto1 : PocContextProto := Eval vm_compute in fst (sample_store [zeros 20]).
Definition hdr0 : Header := chain_block proto1 (zeros 32) (cand 1) 0.
Definition hdr1 : Header := chain_block proto1 (Header_Hash hdr0) (zeros 20) 1.
Definition hdr2 : Header := chain_block proto1 (Header_Hash hdr1) (cand 2) 2.
Definition hdr3 : Header := chain_block proto1 (Header_Hash hdr2) (cand 3) 3.

Definition sample_chain (cur : Header) : ChainReader :=
  let find x := snd <$> list_find (fun h => Header_Hash h = x) [hdr0; hdr1; hdr2; hdr3] in
  mkChainReader sample_config (Some cur) (fun x _ => find x) (fun n => if n =? 0 then Some hdr0 else None) find.

Lemma sample_hashes : Forall (fun h => Header_Hash hdr0 <> Header_Hash h) [hdr3; hdr2; hdr1].
Proof. apply (bool_decide_eq_true_1 (Forall (fun h => Header_Hash hdr0 <> Header_Hash h) [hdr3; hdr2; hdr1])). vm_compute. reflexivity. Qed.

Lemma updateConfirmed_refines_witness :
  exists d', updateConfirmedBlockHeader 5 (sample_chain hdr3) (NewPoc ∅) = Ok (d', inr tt).
Proof.
  destruct (updateConfirmed_refines 5 (sample_chain hdr3) (NewPoc ∅) hdr0 0 hdr3 [hdr3; hdr2; hdr1] hdr0 3) as (d' & E & _).
  - by vm_compute.
  - reflexivity.
  - reflexivity.
  - lia.
  - reflexivity.
  - cbn [branch head default]. do 3 (split; [reflexivity|]; split; [by eexists|]; split; [by vm_compute|]). reflexivity.
  - reflexivity.
  - lia.
  - intros h Hh. exact (Forall_elem _ _ _ sample_hashes Hh).
  - apply Nat.ltb_lt. reflexivity.
  - exists d'. exact E.
Defined.

Lemma sample_verified : verifyHeader 1000 (sample_chain hdr0) hdr1 [] = Ok tt.
Proof. vm_compute. reflexivity. Qed.

Lemma verifyHeader_wraps_witness : verifyHeader 1000 (sample_chain hdr0) (set_number (1 + 2 ^ 64) hdr1) [] = Ok tt.
Proof. apply (verifyHeader_wraps 1000 (sample_chain hdr0) hdr1 [] 1); [reflexivity|lia|discriminate|exact sample_verified]. Defined.

Definition sample_engine : Poc := NewPoc (snd (sample_store [zeros 20])).

(** The result of a run that is computed and not displayed. *)
Definition ran {S E E' A} (r : outcome E' (S * (E + A))) : bool := match r with Ok (_, inr _) => true | _ => false end.

Lemma ran_ok {S E E' A} (r : outcome E' (S * (E + A))) : ran r = true -> exists d a, r = Ok (d, inr a).
Proof. destruct r as [[d [e|a]]|e| |]; [discriminate|by exists d, a|discriminate..]. Qed.

Lemma sample_seal : exists d', verifySeal 5 (sample_chain hdr0) hdr1 [] sample_engine = Ok (d', inr tt).
Proof.
  assert (E : ran (verifySeal 5 (sample_chain hdr0) hdr1 [] sample_engine) = true) by (vm_compute; reflexivity).
  destruct (ran_ok _ E) as (d & [] & E'). exists d. exact E'.
Qed.

Lemma verifySeal_sound_witness : exists h', Header_Hash h' = Header_Hash hdr1 /\ recovers h' (zeros 20).
Proof.
  destruct sample_seal as [d' E].
  destruct (verifySeal_sound 5 (sample_chain hdr0) hdr1 [] sample_engine d' (c_new_all _) E) as (n & t & p & _ & _ & _ & _ & _ & R & _).
  exact R.
Defined.

Definition sample_sealed : Block := mkBlock hdr1 [] [] None None None.

Definition sealed_ok (r : outcome engine_error (option Block)) : bool := match r with Ok (Some _) => true | _ => false end.

Lemma sealed_some r : sealed_ok r = true -> exists b, r = Ok (Some b).
Proof. destruct r as [[b|]|e| |]; [by exists b|discriminate..]. Qed.

Lemma sample_sealing : exists b, Seal (fun _ hash => Sign hash 11) 40 false sample_sealed sample_engine = Ok (Some b).
Proof. apply sealed_some. vm_compute. reflexivity. Qed.

Lemma Seal_verifies_witness :
  exists b d'', Seal (fun _ hash => Sign hash 11) 40 false sample_sealed sample_engine = Ok (Some b) /\
    verifyBlockSigner (zeros 20) (b_header b) sample_engine = Ok (d'', inr tt).
Proof.
  destruct sample_sealing as [b E].
  destruct (Seal_verifies sample_sealed hdr1 1 11 40 sample_engine b (zeros 20)) as (_ & _ & _ & V).
  - reflexivity.
  - reflexivity.
  - discriminate.
  - split; [lia|reflexivity].
  - vm_compute. reflexivity.
  - reflexivity.
  - apply Z.leb_le. vm_compute. reflexivity.
  - exact E.
  - destruct (V sample_engine) as (d'' & E'); [discriminate|]. exists b, d''. split; [exact E|exact E'].
Defined.

Lemma updateMintCnt_counts_witness :
  exists pc' m', updateMintCnt 30 ∅ 800 820 (cand 1) empty_context = Ok pc' /\ pc_holds ∅ pc' (set_mintCnt_map m' empty_maps) /\
    mint_of (set_mintCnt_map m' empty_maps) (epoch_of 820) (cand 1) = 1.
Proof.
  destruct (updateMintCnt_counts 30 ∅ 800 820 (cand 1) empty_context empty_maps) as (pc' & m' & E & P & _ & C & _).
  - apply empty_context_holds.
  - exact mint_ok_empty.
  - by vm_compute.
  - apply Nat.ltb_lt. vm_compute. reflexivity.
  - apply cand_ok. unfold byte_ok. lia.
  - exists pc', m'. split; [exact E|]. split; [exact P|]. rewrite C. vm_compute. reflexivity.
Defined.

Lemma checkDeadline_spec_witness : exists k, k * blockInterval < 39 <= (k + 1) * blockInterval.
Proof. destruct (checkDeadline_spec 20 39) as (k & H & _); [lia|]. exists k. exact H. Defined.
