(* ===== verification/Execution.v ===== *)
(** * Package [core]: applying transactions and blocks

    [state_transition.go] (transfers, data transactions, candidate transactions),
    [state_processor.go] ([ApplyTransaction], [Process]) and, of [consensus/poc/poc.go],
    [AccumulateRewards] and [Finalize].

    The code works on three shared objects: the state of accounts, the state of records and
    the consensus context of the block.  They are the fields of [world], with the package
    variable [timeOfFirstBlock]; an operation that returns an error keeps what it did to them
    before.  The specification at the end of the definitions is a function on ledgers, records
    and candidate sets; the theorems are in [ExecutionSpec]. *)

From S2P Require Import Prelude Rlp RlpStream TrieEncoding Common Codec Trie TrieModel TrieRefine TrieHash TrieMap TrieIterator.
From S2P Require Import PocContext SecureTrie StateDB StateRevert StateLedger StateRecord Signature ChainConfig Transaction Block.
From S2P Require Import GoMonad EpochContext Poc Dao.

(** ** The world *)

Section Execution.
Context {HS : Hasher} {ST : StateTrie} {GR : GoRand} {SC : Secp256k1}.

Record world := mkWorld {
  w_state : StateDB;
  w_records : StateDBRecord;
  w_poc : option PocContext;
  timeOfFirstBlock : Z
}.

(** The three errors of data transactions have an empty message. *)
Inductive exec_error :=
| ExecTx (e : tx_error)
| ErrNonceTooHigh
| ErrNonceTooLow
| ErrInsufficientBalance
| ErrInvalidType
| ErrNoMessage
| ErrElect (e : epoch_error).

Definition XM : Type -> Type := go world exec_error.

Definition set_w_state (s : StateDB) (w : world) : world := mkWorld s (w_records w) (w_poc w) (timeOfFirstBlock w).
Definition set_w_records (r : StateDBRecord) (w : world) : world := mkWorld (w_state w) r (w_poc w) (timeOfFirstBlock w).
Definition set_w_poc (pc : PocContext) (w : world) : world := mkWorld (w_state w) (w_records w) (Some pc) (timeOfFirstBlock w).
Definition set_w_first (t : Z) (w : world) : world := mkWorld (w_state w) (w_records w) (w_poc w) t.

(** Calls on the parts; those of the states return no error. *)
Definition call {T A} (get : world -> T) (put : T -> world -> world) (f : T -> outcome unit (A * T)) : XM A := fun w =>
  '(a, t) ← f (get w); Ok (put t w, inr a).
Definition ask {A} (f : StateDB -> outcome unit (A * StateDB)) : XM A := call w_state set_w_state f.
Definition run (f : StateDB -> outcome unit StateDB) : XM unit := ask (fun s => s ← f s; Ok (tt, s)).
Definition ask_rec {A} (f : StateDBRecord -> outcome unit (A * StateDBRecord)) : XM A := call w_records set_w_records f.
Definition run_rec (f : StateDBRecord -> outcome unit StateDBRecord) : XM unit := ask_rec (fun s => s ← f s; Ok (tt, s)).

(** A computation outside the world that does not fail. *)
Definition lift {A} (o : outcome unit A) : XM A := fun w => a ← o; Ok (w, inr a).

(** The error of a call is dropped; what it did stays. *)
Definition drop_error {A} (m : XM A) : XM unit := fun w => '(w, _) ← m w; Ok (w, inr tt).

(** ** [state_transition.go] *)

(** The account is created if it does not exist. *)
Definition ensure (a : bytes) (s : StateDB) : outcome unit StateDB :=
  '(ex, s) ← Exist a s; if (ex : bool) then Ok s else CreateAccount a s.

Definition st_from (msg : Message) : XM bytes := run (ensure (msg_from msg));; mret (msg_from msg).

Definition st_to (msg : Message) : XM bytes :=
  match msg_to msg with
  | None => mret (zeros AddressLength)
  | Some to => run (ensure to);; mret to
  end.

Definition preCheck (msg : Message) : XM unit :=
  sender ← st_from msg;
  if msg_checkNonce msg then
    nonce ← ask (GetNonce sender);
    if nonce <? msg_nonce msg then throw ErrNonceTooHigh
    else if msg_nonce msg <? nonce then throw ErrNonceTooLow
    else mret tt
  else mret tt.

Definition CanTransfer (addr : bytes) (amount : Z) : XM bool :=
  balance ← ask (GetBalance addr); mret (amount <=? balance).

Definition Transfer (sender recipient : bytes) (amount : Z) : XM unit :=
  run (SubBalance sender amount);; run (AddBalance recipient amount).

Definition TransitionDb (msg : Message) : XM bool :=
  preCheck msg;;
  sender ← st_from msg;
  recipient ← st_to msg;
  nonce ← ask (GetNonce sender);
  run (SetNonce sender (u64 (nonce + 1)));;
  can ← CanTransfer sender (msg_amount msg);
  if negb can then throw ErrInsufficientBalance
  else
    run (ensure recipient);;
    Transfer sender recipient (msg_amount msg);;
    mret false.

Definition ApplyMessage (msg : Message) : XM bool := TransitionDb msg.

(** The errors of the candidate trie are dropped; without a context the code panics. *)
Definition applyPocMessage (db : database) (msg : Message) : XM unit :=
  let update (f : PocContext -> outcome poc_error PocContext) : XM unit := fun w =>
    match w_poc w with
    | None => Panic
    | Some pc =>
      match f pc with Ok pc => Ok (set_w_poc pc w, inr tt) | Err _ => Ok (w, inr tt) | Panic => Panic | OutOfFuel => OutOfFuel end
    end in
  if msg_type msg =? LoginCandidate then update (BecomeCandidate db (msg_from msg))
  else if msg_type msg =? LogoutCandidate then update (KickoutCandidate db (msg_from msg))
  else throw ErrInvalidType.

Definition Address_Hash (a : bytes) : bytes := BytesToHash a.

(** The hash of a record: the last bytes of the encoded data. *)
Definition data_hash (data : bytes) : bytes :=
  BytesToHash (match EncodeToBytes TBytes (VBytes data) with Ok b => b | _ => [] end).

(** A setter of the object that [GetOrNewStateObject] returned, the stored one. *)
Definition on_record (f : stateObjectRecord -> StateDBRecord -> StateDBRecord) (h : bytes) (s : StateDBRecord) : outcome unit StateDBRecord :=
  match r_stateObjects s !! h with Some o => Ok (f o s) | None => Panic end.

Definition ApplyDataMessage (txHash : bytes) (msg : Message) : XM bool :=
  preCheck msg;;
  sender ← st_from msg;
  let hash := data_hash (msg_data msg) in
  nonce ← ask (GetNonce sender);
  run (SetNonce sender (u64 (nonce + 1)));;
  if msg_type msg =? ConfirmationData then
    ex ← ask_rec (rec_Exist hash);
    if (ex : bool) then throw ErrNoMessage
    else
      _ ← ask_rec (rec_GetOrNewStateObject hash);
      run_rec (on_record (ro_SetOrigin sender) hash);;
      run_rec (on_record (ro_SetOwner sender) hash);;
      run_rec (on_record (ro_SetTxs [txHash]) hash);;
      run (AddRecords sender hash);;
      run (AddContribution sender 2000000000000000000);;
      mret false
  else if msg_type msg =? AuthorizationData then mret false
  else if msg_type msg =? TransferData then
    owner ← ask_rec (rec_GetOwner hash);
    if negb (bool_decide (Address_Hash owner = Address_Hash sender)) then throw ErrNoMessage
    else
      status ← ask_rec (rec_GetStatus hash);
      if negb (status =? 0) then throw ErrNoMessage
      else
        to ← st_to msg;
        run_rec (rec_SetOwner hash to);;
        run_rec (rec_AddTxHash hash txHash);;
        to ← st_to msg;
        run (AddRecords to txHash);;
        run (RemoveRecords sender txHash);;
        run (AddContribution sender 1000000000000000000);;
        mret false
  else mret false.

(** ** [state_processor.go] *)

Section Chain.
Context (fuel : nat) (db : database).

(** The three kinds of transactions; any other type does nothing. *)
Definition dispatch (txHash : bytes) (msg : Message) : XM bool :=
  if msg_type msg =? Binary then ApplyMessage msg
  else if (msg_type msg =? ConfirmationData) || (msg_type msg =? AuthorizationData) || (msg_type msg =? TransferData)
  then ApplyDataMessage txHash msg
  else if (msg_type msg =? LoginCandidate) || (msg_type msg =? LogoutCandidate)
  then applyPocMessage db msg;; mret false
  else mret false.

(** The pending changes are written; the roots are for receipts before Byzantium. *)
Definition write_pending (config : ChainConfig) (number : option Z) : XM (bytes * bytes) :=
  if IsByzantium config number then
    run (Finalise true);; run_rec (rec_Finalise true);; mret ([], [])
  else
    root ← ask (IntermediateRoot (IsEIP158 config number));
    rootRecord ← ask_rec (rec_IntermediateRoot (IsEIP158 config number));
    mret (root, rootRecord).

(** The transaction is returned with its caches. *)
Definition ApplyTransaction (config : ChainConfig) (header : Header) (tx : Transaction) : XM (Receipt * Transaction) := fun w =>
  match AsMessage (MakeSigner config (hd_Number header)) tx with
  | Err e => Ok (w, inl (ExecTx e))
  | Panic => Panic
  | OutOfFuel => OutOfFuel
  | Ok (msg, tx) =>
    match Validate tx with
    | Some e => Ok (w, inl (ExecTx e))
    | None =>
      let '(txHash, tx) := Transaction.Hash tx in
      (failed ← dispatch txHash msg;
       '(root, rootRecord) ← write_pending config (hd_Number header);
       logs ← gets (fun w => GetLogs txHash (w_state w));
       let receipt := NewReceipt root rootRecord failed in
       let receipt := mkReceipt (rc_PostState receipt) (rc_PostStateRecord receipt) (rc_Status receipt) (rc_Bloom receipt) logs txHash
                        (rc_ContractAddress receipt) (rc_GasUsed receipt) in
       bloom ← lift (CreateBloom [receipt]);
       mret (mkReceipt (rc_PostState receipt) (rc_PostStateRecord receipt) (rc_Status receipt) bloom (rc_Logs receipt) (rc_TxHash receipt)
               (rc_ContractAddress receipt) (rc_GasUsed receipt), tx)) w
    end
  end.

(** ** [poc.go]: the end of a block *)

Definition frontierBlockReward : Z := 5000000000000000000.
Definition byzantiumBlockReward : Z := 3000000000000000000.

Definition block_reward (config : ChainConfig) (header : Header) : Z :=
  if IsByzantium config (hd_Number header) then byzantiumBlockReward else frontierBlockReward.

Definition AccumulateRewards (config : ChainConfig) (header : Header) : XM unit :=
  run (AddBalance (hd_Coinbase header) (block_reward config header)).

Definition set_roots (root recordRoot : bytes) (h : Header) : Header :=
  mkHeader (hd_ParentHash h) (hd_UncleHash h) (hd_Validator h) (hd_Coinbase h) root recordRoot (hd_TxHash h) (hd_ReceiptHash h)
    (hd_PocContext h) (hd_Bloom h) (hd_Difficulty h) (hd_Number h) (hd_GasLimit h) (hd_GasUsed h) (hd_Time h) (hd_Extra h)
    (hd_MixDigest h) (hd_Nonce h).

Definition set_proto (p : PocContextProto) (h : Header) : Header :=
  mkHeader (hd_ParentHash h) (hd_UncleHash h) (hd_Validator h) (hd_Coinbase h) (hd_Root h) (hd_RecordRoot h) (hd_TxHash h)
    (hd_ReceiptHash h) (Some p) (hd_Bloom h) (hd_Difficulty h) (hd_Number h) (hd_GasLimit h) (hd_GasUsed h) (hd_Time h) (hd_Extra h)
    (hd_MixDigest h) (hd_Nonce h).

Definition time_of (h : Header) : XM Z := t ← deref (hd_Time h); mret (big_Int64 t).

(** The epoch context shares the state and the consensus context with the caller, who sees
    what [tryElect] did to them also when it fails. *)
Definition elect (genesis parent : option Header) (now : Z) : XM unit := fun w =>
  match w_poc w with
  | None => Panic
  | Some pc =>
    '(ec, r) ← tryElect fuel db (timeOfFirstBlock w) genesis parent (mkEpochContext now pc (Some (w_state w)));
    let w := set_w_poc (ec_PocContext ec) (set_w_state (default (w_state w) (ec_stateDB ec)) w) in
    Ok (w, match r with inl e => inl (ErrElect e) | inr _ => inr tt end)
  end.

Definition count_mint (parentTime time : Z) (validator : bytes) : XM unit := fun w =>
  match w_poc w with
  | None => Panic
  | Some pc => pc ← map_err (fun _ => tt) (updateMintCnt fuel db parentTime time validator pc); Ok (set_w_poc pc w, inr tt)
  end.

Definition poc_proto : XM PocContextProto := fun w =>
  match w_poc w with
  | None => Panic
  | Some pc => '(p, pc) ← ToProto pc; Ok (set_w_poc pc w, inr p)
  end.

Definition read_first_block (chain : ChainReader) : XM unit :=
  first ← gets timeOfFirstBlock;
  if first =? 0 then
    match GetHeaderByNumber chain 1 with
    | None => mret tt
    | Some h => t ← time_of h; modify (set_w_first t)
    end
  else mret tt.

Definition Finalize (chain : ChainReader) (header : Header) (txs : list Transaction) (uncles : list Header) (receipts : list Receipt)
  : XM Block :=
  let config := cr_Config chain in
  AccumulateRewards config header;;
  root ← ask (IntermediateRoot (IsEIP158 config (hd_Number header)));
  recordRoot ← ask_rec (rec_IntermediateRoot (IsEIP158 config (hd_Number header)));
  let header := set_roots root recordRoot header in
  let parent := GetHeaderByHash chain (hd_ParentHash header) in
  now ← time_of header;
  read_first_block chain;;
  elect (GetHeaderByNumber chain 0) parent now;;
  parent ← deref parent;
  parentTime ← time_of parent;
  count_mint parentTime now (hd_Validator header);;
  proto ← poc_proto;
  lift (NewBlock (set_proto proto header) txs uncles receipts).

(** ** [state_processor.go]: blocks *)

Fixpoint process_loop (config : ChainConfig) (blockHash : bytes) (header : Header) (i : Z) (txs : list Transaction)
  : XM (list Receipt * list Log * list Transaction) :=
  match txs with
  | [] => mret ([], [], [])
  | tx :: txs =>
    let '(txHash, tx) := Transaction.Hash tx in
    run (fun s => Ok (StateDB.Prepare txHash blockHash i s));;
    run_rec (fun s => Ok (rec_Prepare txHash blockHash i s));;
    '(receipt, tx) ← ApplyTransaction config header tx;
    '(receipts, logs, txs) ← process_loop config blockHash header (i + 1) txs;
    mret (receipt :: receipts, rc_Logs receipt ++ logs, tx :: txs)
  end.

(** A block without a number is dereferenced. *)
Definition dao_block (config : ChainConfig) (number : option Z) : XM bool :=
  match DAOForkBlock config with
  | Some f => if DAOForkSupport config then n ← deref number; mret (f =? n) else mret false
  | None => mret false
  end.

(** The world has the consensus context of the block.  The gas used is zero. *)
Definition Process (config : ChainConfig) (chain : ChainReader) (block : Block) : XM (list Receipt * list Log * Z) :=
  let header := Block_Header block in
  dao ← dao_block config (hd_Number (b_header block));
  (if (dao : bool) then run ApplyDAOHardFork else mret tt);;
  '(receipts, logs, txs) ← process_loop config (fst (Block_Hash block)) header 0 (b_transactions block);
  drop_error (Finalize chain header txs (b_uncles block) receipts);;
  mret (receipts, logs, 0).

End Chain.
End Execution.
