(* ===== verification/BlockChain.v ===== *)
(** * Package [core]: the block chain

    [src/pkg/core/blockchain.go] and [block_validator.go]: the chain of blocks over the header
    chain, its heads, caches and lock; reading, importing, reorganising and rewinding; the
    checks of a block before and after its execution.

    The engine is the one of [consensus/poc].  Methods are run one at a time: the mutex [mu] is
    a flag of the state, a method that locks it a second time does not return.  The clock, the
    interrupt flag and the random choices are arguments.  What a feed sends is appended to
    [feeds]; log output and statistics are left out.  The theorems are in [BlockChainSpec]. *)

From S2P Require Import Prelude Rlp RlpStream TrieEncoding Common Codec Trie PocContext SecureTrie StateDB StateRecord.
From S2P Require Import Signature ChainConfig Transaction Block ChainDb GoMonad HeaderChain GoSort EpochContext Poc Dao Execution.

Inductive bc_error :=
| BcHeader (e : hc_error)
| BcEngine (e : engine_error)
| BcTrie (e : trie_error)
| BcState (e : state_error)
| BcExec (e : exec_error)
| BcRlp (e : rlp_error)
| BcNoGenesis
| ErrKnownBlock
| NonContiguousBlocks (i : Z)
| FutureBlock
| NonExistentBlock
| InvalidOldChain
| InvalidNewChain
| UncleRootMismatch
| TransactionRootMismatch
| InvalidGasUsed
| InvalidBloom
| InvalidReceiptRoot
| InvalidRoot
| InvalidRecordRoot
| InvalidPocRoot
| HeaderUnknown
| ExportFirstGreater
| ExportNotFound (nr : Z).

(** What the feeds send. *)
Inductive chain_event :=
| RemovedLogsEvent (logs : list Log)
| LogsEvent (logs : list Log)
| ChainEvent (block : Block) (hash : bytes) (logs : list Log)
| ChainHeadEvent (block : Block).

Section BlockChain.
Context {HS : Hasher} {ST : StateTrie} {GR : GoRand} {SC : Secp256k1} {SG : SigCache} {LC : Lru}.

Definition bodyCacheLimit : Z := 256.
Definition blockCacheLimit : Z := 256.
Definition maxFutureBlocks : Z := 256.
Definition maxTimeFutureBlocks : Z := 30.
Definition badBlockLimit : Z := 10.

(** The two caching databases have the chain's database and these recent tries. *)
Record BlockChain := mkBlockChain {
  bc_config : ChainConfig;
  bc_hc : HeaderChain;
  bc_engine : Poc;
  bc_first : Z;
  bc_mu : bool;
  genesisBlock : option Block;
  currentBlock : option Block;
  currentFastBlock : option Block;
  stateTries : list stt;
  recordTries : list stt;
  bodyCache : lru Body;
  bodyRLPCache : lru bytes;
  blockCache : lru Block;
  futureBlocks : lru Block;
  badBlocks : lru Header;
  feeds : list chain_event
}.

Definition set_hc (h : HeaderChain) (s : BlockChain) : BlockChain :=
  mkBlockChain (bc_config s) h (bc_engine s) (bc_first s) (bc_mu s) (genesisBlock s) (currentBlock s) (currentFastBlock s) (stateTries s)
    (recordTries s) (bodyCache s) (bodyRLPCache s) (blockCache s) (futureBlocks s) (badBlocks s) (feeds s).
Definition set_engine (e : Poc) (s : BlockChain) : BlockChain :=
  mkBlockChain (bc_config s) (bc_hc s) e (bc_first s) (bc_mu s) (genesisBlock s) (currentBlock s) (currentFastBlock s) (stateTries s)
    (recordTries s) (bodyCache s) (bodyRLPCache s) (blockCache s) (futureBlocks s) (badBlocks s) (feeds s).
Definition set_first (t : Z) (s : BlockChain) : BlockChain :=
  mkBlockChain (bc_config s) (bc_hc s) (bc_engine s) t (bc_mu s) (genesisBlock s) (currentBlock s) (currentFastBlock s) (stateTries s)
    (recordTries s) (bodyCache s) (bodyRLPCache s) (blockCache s) (futureBlocks s) (badBlocks s) (feeds s).
Definition set_mu (l : bool) (s : BlockChain) : BlockChain :=
  mkBlockChain (bc_config s) (bc_hc s) (bc_engine s) (bc_first s) l (genesisBlock s) (currentBlock s) (currentFastBlock s) (stateTries s)
    (recordTries s) (bodyCache s) (bodyRLPCache s) (blockCache s) (futureBlocks s) (badBlocks s) (feeds s).
Definition set_genesis (b : option Block) (s : BlockChain) : BlockChain :=
  mkBlockChain (bc_config s) (bc_hc s) (bc_engine s) (bc_first s) (bc_mu s) b (currentBlock s) (currentFastBlock s) (stateTries s)
    (recordTries s) (bodyCache s) (bodyRLPCache s) (blockCache s) (futureBlocks s) (badBlocks s) (feeds s).
Definition set_current (b : option Block) (s : BlockChain) : BlockChain :=
  mkBlockChain (bc_config s) (bc_hc s) (bc_engine s) (bc_first s) (bc_mu s) (genesisBlock s) b (currentFastBlock s) (stateTries s)
    (recordTries s) (bodyCache s) (bodyRLPCache s) (blockCache s) (futureBlocks s) (badBlocks s) (feeds s).
Definition set_fast (b : option Block) (s : BlockChain) : BlockChain :=
  mkBlockChain (bc_config s) (bc_hc s) (bc_engine s) (bc_first s) (bc_mu s) (genesisBlock s) (currentBlock s) b (stateTries s)
    (recordTries s) (bodyCache s) (bodyRLPCache s) (blockCache s) (futureBlocks s) (badBlocks s) (feeds s).
Definition set_tries (st rt : list stt) (s : BlockChain) : BlockChain :=
  mkBlockChain (bc_config s) (bc_hc s) (bc_engine s) (bc_first s) (bc_mu s) (genesisBlock s) (currentBlock s) (currentFastBlock s) st rt
    (bodyCache s) (bodyRLPCache s) (blockCache s) (futureBlocks s) (badBlocks s) (feeds s).
Definition set_bc_caches (bo : lru Body) (br : lru bytes) (bl fu : lru Block) (bad : lru Header) (s : BlockChain) : BlockChain :=
  mkBlockChain (bc_config s) (bc_hc s) (bc_engine s) (bc_first s) (bc_mu s) (genesisBlock s) (currentBlock s) (currentFastBlock s) (stateTries s)
    (recordTries s) bo br bl fu bad (feeds s).
Definition set_bodyCache (c : lru Body) (s : BlockChain) : BlockChain :=
  set_bc_caches c (bodyRLPCache s) (blockCache s) (futureBlocks s) (badBlocks s) s.
Definition set_bodyRLPCache (c : lru bytes) (s : BlockChain) : BlockChain :=
  set_bc_caches (bodyCache s) c (blockCache s) (futureBlocks s) (badBlocks s) s.
Definition set_blockCache (c : lru Block) (s : BlockChain) : BlockChain :=
  set_bc_caches (bodyCache s) (bodyRLPCache s) c (futureBlocks s) (badBlocks s) s.
Definition set_futureBlocks (c : lru Block) (s : BlockChain) : BlockChain :=
  set_bc_caches (bodyCache s) (bodyRLPCache s) (blockCache s) c (badBlocks s) s.
Definition set_badBlocks (c : lru Header) (s : BlockChain) : BlockChain :=
  set_bc_caches (bodyCache s) (bodyRLPCache s) (blockCache s) (futureBlocks s) c s.
Definition set_feeds (l : list chain_event) (s : BlockChain) : BlockChain :=
  mkBlockChain (bc_config s) (bc_hc s) (bc_engine s) (bc_first s) (bc_mu s) (genesisBlock s) (currentBlock s) (currentFastBlock s) (stateTries s)
    (recordTries s) (bodyCache s) (bodyRLPCache s) (blockCache s) (futureBlocks s) (badBlocks s) l.

Abbreviation BM := (go BlockChain bc_error).

Definition bc_db (s : BlockChain) : database := chainDb (bc_hc s).

(** [consensus.ErrUnknownAncestor] is one error for the header chain and the engine. *)
Definition of_hc_error (e : hc_error) : bc_error :=
  match e with HeaderChain.ErrUnknownAncestor => BcEngine Poc.ErrUnknownAncestor | e => BcHeader e end.
Definition on_hc {A} (m : go HeaderChain hc_error A) : BM A := on_go bc_hc set_hc of_hc_error m.

Definition read_db {A} (f : database -> outcome unit A) : BM A := on_hc (HeaderChain.read f).
Definition put_db (f : database -> database) : BM unit := on_hc (HeaderChain.write_db f).

(** A write whose error ends the process, and one whose error is returned. *)
Definition put_crit (f : database -> outcome rlp_error database) : BM unit := on_hc (HeaderChain.write_crit f).
Definition put_err (f : database -> outcome rlp_error database) : BM unit :=
  db ← gets bc_db; db ← of_outcome BcRlp (f db); put_db (fun _ => db).

(** A computation that does not fail. *)
Definition calc {A} (o : outcome unit A) : BM A := fun s => a ← o; Ok (s, inr a).

(** [Lock] and the deferred [Unlock]. *)
Definition with_lock {A} (m : BM A) : BM A := fun s =>
  if bc_mu s then OutOfFuel
  else '(s, r) ← m (set_mu true s); Ok (set_mu false s, r).

Definition send (e : chain_event) : BM unit := modify (fun s => set_feeds (feeds s ++ [e]) s).

Definition hash_of (b : Block) : bytes := fst (Block_Hash b).
Definition block_number (b : Block) : BM Z := n ← deref (hd_Number (b_header b)); mret (big_Uint64 n).
Definition hd_number (h : Header) : BM Z := n ← deref (hd_Number h); mret (big_Uint64 n).
Definition parent_hash (b : Block) : bytes := hd_ParentHash (b_header b).

(** ** Reading *)

(** A lookup behind a cache; what is found is added under a key of its own. *)
Definition cached {V} (get : BlockChain -> lru V) (put : lru V -> BlockChain -> BlockChain) (key : bytes) (load : BM (option V))
    (key_of_value : V -> bytes) : BM (option V) :=
  c ← gets get;
  let '(found, c) := lru_Get key c in
  modify (put c);;
  match found with
  | Some v => mret (Some v)
  | None =>
    r ← load;
    match r with
    | None => mret None
    | Some v => modify (fun s => put (lru_Add (key_of_value v) v (get s)) s);; mret (Some v)
    end
  end.

Definition bc_GetBody (hash : bytes) : BM (option Body) :=
  cached bodyCache set_bodyCache hash (n ← on_hc (hc_GetBlockNumber hash); read_db (fun db => ChainDb.GetBody db hash n)) (fun _ => hash).

Definition bc_GetBodyRLP (hash : bytes) : BM (option bytes) :=
  cached bodyRLPCache set_bodyRLPCache hash
    (n ← on_hc (hc_GetBlockNumber hash);
     body ← gets (fun s => ChainDb.GetBodyRLP (bc_db s) hash n);
     mret (if len body =? 0 then None else Some body)) (fun _ => hash).

Definition bc_HasBlock (hash : bytes) (number : Z) : BM bool :=
  gets (fun s => lru_Contains hash (blockCache s) || Has (bc_db s) (blockBodyKey hash number)).

Definition bc_GetBlock (hash : bytes) (number : Z) : BM (option Block) :=
  cached blockCache set_blockCache hash (read_db (fun db => ChainDb.GetBlock db hash number)) hash_of.

Definition bc_GetBlockByHash (hash : bytes) : BM (option Block) := n ← on_hc (hc_GetBlockNumber hash); bc_GetBlock hash n.

Definition bc_GetBlockByNumber (number : Z) : BM (option Block) :=
  hash ← gets (fun s => GetCanonicalHash (bc_db s) number);
  if bool_decide (hash = zeros HashLength) then mret None else bc_GetBlock hash number.

(** [state.New], [state.NewRecord] and [OpenTrie] on the two caching databases. *)
Definition state_cache (s : BlockChain) : cachingDB := mkCachingDB (bc_db s) (stateTries s).
Definition record_cache (s : BlockChain) : cachingDB := mkCachingDB (bc_db s) (recordTries s).
Definition succeeds {A} (f : BlockChain -> outcome trie_error A) : BM bool := fun s =>
  match f s with Ok _ => Ok (s, inr true) | Err _ => Ok (s, inr false) | Panic => Panic | OutOfFuel => OutOfFuel end.
Definition new_state (root : bytes) : BM StateDB := s ← gets state_cache; of_outcome BcTrie (StateDB.New root s).
Definition new_record (root : bytes) : BM StateDBRecord := s ← gets record_cache; of_outcome BcTrie (NewRecord root s).

Definition StateAt : bytes -> BM StateDB := new_state.
Definition StateRecordAt (root : bytes) : BM StateDBRecord := s ← gets state_cache; of_outcome BcTrie (NewRecord root s).

Definition HasBlockAndState (hash : bytes) : BM bool :=
  b ← bc_GetBlockByHash hash;
  match b with
  | None => mret false
  | Some block => succeeds (fun s => OpenTrie (hd_Root (b_header block)) (state_cache s))
  end.

Fixpoint GetBlocksFromHash_loop (n : nat) (hash : bytes) (number : Z) : BM (list Block) :=
  match n with
  | O => mret []
  | S n =>
    b ← bc_GetBlock hash number;
    match b with
    | None => mret []
    | Some block => rest ← GetBlocksFromHash_loop n (parent_hash block) (pred64 number); mret (block :: rest)
    end
  end.

Definition GetBlocksFromHash (hash : bytes) (n : nat) : BM (list Block) :=
  number ← on_hc (hc_GetBlockNumber hash); GetBlocksFromHash_loop n hash number.

Fixpoint GetUnclesInChain (block : option Block) (length : nat) : BM (list Header) :=
  match block, length with
  | Some block, S length =>
    n ← block_number block;
    parent ← bc_GetBlock (parent_hash block) (pred64 n);
    rest ← GetUnclesInChain parent length;
    mret (b_uncles block ++ rest)
  | _, _ => mret []
  end.

(** The blocks [first .. first + k - 1], one after the other. *)
Fixpoint export_loop (nr : Z) (k : nat) : BM bytes :=
  match k with
  | O => mret []
  | S k =>
    b ← bc_GetBlockByNumber nr;
    match b with
    | None => throw (ExportNotFound nr)
    | Some block => e ← of_outcome BcRlp (Block_EncodeRLP block); rest ← export_loop (u64 (nr + 1)) k; mret (e ++ rest)
    end
  end.

(** With [last] the largest number the loop does not end. *)
Definition ExportN (first last : Z) : BM bytes :=
  if last <? first then throw ExportFirstGreater
  else if last =? 2 ^ 64 - 1 then go_diverge
  else export_loop first (Z.to_nat (last - first + 1)).

Definition Export : BM bytes := b ← gets currentBlock; b ← deref b; n ← block_number b; ExportN 0 n.

(** The chain as the engine sees it. *)
Definition hc_read {A} (m : go HeaderChain hc_error (option A)) (s : BlockChain) : option A :=
  match m (bc_hc s) with Ok (_, inr r) => r | _ => None end.
Definition chain_reader (s : BlockChain) : ChainReader :=
  mkChainReader (bc_config s) (HeaderChain.currentHeader (bc_hc s)) (fun h n => hc_read (hc_GetHeader h n) s)
    (fun n => hc_read (hc_GetHeaderByNumber n) s) (fun h => hc_read (hc_GetHeaderByHash h) s).

(** ** The heads *)

Definition set_current_header (h : option Header) : BM unit := on_hc (SetCurrentHeader h).

Definition insert (block : Block) : BM unit :=
  n ← block_number block;
  h ← gets (fun s => GetCanonicalHash (bc_db s) n);
  let updateHeads := negb (bool_decide (h = hash_of block)) in
  put_db (WriteCanonicalHash (hash_of block) n);;
  put_db (WriteHeadBlockHash (hash_of block));;
  modify (set_current (Some block));;
  if updateHeads then
    set_current_header (Some (Block_Header block));;
    put_db (WriteHeadFastBlockHash (hash_of block));;
    modify (set_fast (Some block))
  else mret tt.

(** [reset] is [bc.Reset()]. *)
Definition loadLastState_with (reset : BM unit) : BM unit :=
  head ← gets (fun s => GetHeadBlockHash (bc_db s));
  if bool_decide (head = zeros HashLength) then reset
  else
    cur ← bc_GetBlockByHash head;
    match cur with
    | None => reset
    | Some cur =>
      ok ← succeeds (fun s => StateDB.New (hd_Root (b_header cur)) (state_cache s));
      if negb ok then reset
      else
        ok ← succeeds (fun s => NewRecord (hd_RecordRoot (b_header cur)) (record_cache s));
        if negb ok then reset
        else
          modify (set_current (Some cur));;
          hh ← gets (fun s => GetHeadHeaderHash (bc_db s));
          header ← (if bool_decide (hh = zeros HashLength) then mret None else on_hc (hc_GetHeaderByHash hh));
          let currentHeader := default (Block_Header cur) header in
          set_current_header (Some currentHeader);;
          fh ← gets (fun s => GetHeadFastBlockHash (bc_db s));
          fast ← (if bool_decide (fh = zeros HashLength) then mret None else bc_GetBlockByHash fh);
          let fast := default cur fast in
          modify (set_fast (Some fast));;
          n ← hd_number currentHeader;
          on_hc (hc_GetTd (Header_Hash currentHeader) n);;
          n ← block_number cur;
          on_hc (hc_GetTd (hash_of cur) n);;
          n ← block_number fast;
          on_hc (hc_GetTd (hash_of fast) n);;
          mret tt
    end.

(** The body of [SetHead] after the lock, up to [loadLastState]. *)
Definition rewind_heads (fuel : nat) (head : Z) : BM unit :=
  on_hc (hc_SetHead fuel head DeleteBody);;
  currentHeader ← gets (fun s => HeaderChain.currentHeader (bc_hc s));
  modify (fun s => set_bc_caches (lru_Purge (bodyCache s)) (lru_Purge (bodyRLPCache s)) (lru_Purge (blockCache s)) (lru_Purge (futureBlocks s)) (badBlocks s) s);;
  cur ← gets currentBlock;
  (match cur with
   | None => mret tt
   | Some b =>
     h ← deref currentHeader; hn ← hd_number h; bn ← block_number b;
     if hn <? bn then nb ← bc_GetBlock (Header_Hash h) hn; modify (set_current nb) else mret tt
   end);;
  cur ← gets currentBlock;
  (match cur with
   | None => mret tt
   | Some b =>
     ok ← succeeds (fun s => StateDB.New (hd_Root (b_header b)) (state_cache s));
     (if negb ok then modify (set_current None) else mret tt);;
     b ← gets currentBlock;
     b ← deref b;
     ok ← succeeds (fun s => NewRecord (hd_RecordRoot (b_header b)) (record_cache s));
     if negb ok then modify (set_current None) else mret tt
   end);;
  fast ← gets currentFastBlock;
  (match fast with
   | None => mret tt
   | Some b =>
     h ← deref currentHeader; hn ← hd_number h; bn ← block_number b;
     if hn <? bn then nb ← bc_GetBlock (Header_Hash h) hn; modify (set_fast nb) else mret tt
   end);;
  modify (fun s => match currentBlock s with None => set_current (genesisBlock s) s | Some _ => s end);;
  modify (fun s => match currentFastBlock s with None => set_fast (genesisBlock s) s | Some _ => s end);;
  cur ← gets currentBlock; cur ← deref cur;
  put_db (WriteHeadBlockHash (hash_of cur));;
  fast ← gets currentFastBlock; fast ← deref fast;
  put_db (WriteHeadFastBlockHash (hash_of fast)).

(** After [SetHead(0)] of [ResetWithGenesisBlock]. *)
Definition install_genesis (genesis : Block) : BM unit := with_lock (
  n ← block_number genesis;
  d ← deref (hd_Difficulty (b_header genesis));
  on_hc (hc_WriteTd (hash_of genesis) n d);;
  put_crit (WriteBlock genesis);;
  modify (set_genesis (Some genesis));;
  insert genesis;;
  modify (set_current (Some genesis));;
  on_hc (modify (SetGenesis (Block_Header genesis)));;
  set_current_header (Some (Block_Header genesis));;
  modify (set_fast (Some genesis))).

(** [SetHead], [loadLastState], [Reset] and [ResetWithGenesisBlock] call each other; [depth]
    bounds the calls of [SetHead], of which the second one waits for the lock of the first. *)
Fixpoint bc_SetHead (depth fuel : nat) (head : Z) : BM unit :=
  match depth with
  | O => go_diverge
  | S depth =>
    with_lock (
      rewind_heads fuel head;;
      loadLastState_with (
        g ← gets genesisBlock; g ← deref g;
        bc_SetHead depth fuel 0;; install_genesis g))
  end.

Definition ResetWithGenesisBlock (depth fuel : nat) (genesis : Block) : BM unit := bc_SetHead depth fuel 0;; install_genesis genesis.
Definition Reset (depth fuel : nat) : BM unit := g ← gets genesisBlock; g ← deref g; ResetWithGenesisBlock depth fuel g.
Definition loadLastState (depth fuel : nat) : BM unit := loadLastState_with (Reset depth fuel).

Definition FastSyncCommitHead (hash : bytes) : BM unit :=
  b ← bc_GetBlockByHash hash;
  match b with
  | None => throw NonExistentBlock
  | Some block =>
    db ← gets bc_db;
    of_outcome BcTrie (NewSecure (hd_Root (b_header block)) db 0);;
    with_lock (modify (set_current (Some block)))
  end.

(** The chain of hashes is taken back from its end; a missing block is dereferenced. *)
Fixpoint rollback_loop (chain : list bytes) : BM unit :=
  match chain with
  | [] => mret tt
  | hash :: chain =>
    h ← gets (fun s => HeaderChain.currentHeader (bc_hc s));
    (if bool_decide (ptr_Hash h = hash) then
       h ← deref h;
       n ← hd_number h;
       p ← on_hc (hc_GetHeader (hd_ParentHash h) (pred64 n));
       set_current_header p
     else mret tt);;
    b ← gets currentFastBlock; b ← deref b;
    (if bool_decide (hash_of b = hash) then
       n ← block_number b;
       p ← bc_GetBlock (parent_hash b) (pred64 n);
       modify (set_fast p);;
       p ← deref p;
       put_db (WriteHeadFastBlockHash (hash_of p))
     else mret tt);;
    b ← gets currentBlock; b ← deref b;
    (if bool_decide (hash_of b = hash) then
       n ← block_number b;
       p ← bc_GetBlock (parent_hash b) (pred64 n);
       modify (set_current p);;
       p ← deref p;
       put_db (WriteHeadBlockHash (hash_of p))
     else mret tt);;
    rollback_loop chain
  end.

Definition Rollback (chain : list bytes) : BM unit := with_lock (rollback_loop (rev chain)).

(** ** Reorganisation *)

(** The logs of a block, marked as removed. *)
Definition removed (l : Log) : Log :=
  mkLog (log_Address l) (log_Topics l) (log_Data l) (log_BlockNumber l) (log_TxHash l) (log_TxIndex l) (log_BlockHash l) (log_Index l) true.

Definition collectLogs (h : bytes) : BM (list Log) :=
  n ← on_hc (hc_GetBlockNumber h);
  receipts ← read_db (fun db => GetBlockReceipts db h n);
  mret (concat (map (fun r => map removed (rc_Logs r)) (default [] receipts))).

Definition parent_block (b : Block) : BM (option Block) := n ← block_number b; bc_GetBlock (parent_hash b) (pred64 n).

(** The blocks above the number of the other chain, newest first, with their logs; the block
    at that number, if it is known. *)
Fixpoint reduce_old (fuel : nat) (oldBlock : option Block) (number : Z) : BM (option Block * list Block * list Log) :=
  match fuel with
  | O => go_diverge
  | S fuel =>
    match oldBlock with
    | None => mret (None, [], [])
    | Some b =>
      n ← block_number b;
      if n =? number then mret (Some b, [], [])
      else
        logs ← collectLogs (hash_of b);
        p ← parent_block b;
        '(r, chain, logs') ← reduce_old fuel p number;
        mret (r, b :: chain, logs ++ logs')
    end
  end.

Fixpoint reduce_new (fuel : nat) (newBlock : option Block) (number : Z) : BM (option Block * list Block) :=
  match fuel with
  | O => go_diverge
  | S fuel =>
    match newBlock with
    | None => mret (None, [])
    | Some b =>
      n ← block_number b;
      if n =? number then mret (Some b, [])
      else
        p ← parent_block b;
        '(r, chain) ← reduce_new fuel p number;
        mret (r, b :: chain)
    end
  end.

(** Both chains down to the common block. *)
Fixpoint find_common (fuel : nat) (oldBlock newBlock : Block) : BM (list Block * list Block * list Log) :=
  match fuel with
  | O => go_diverge
  | S fuel =>
    if bool_decide (hash_of oldBlock = hash_of newBlock) then mret ([], [], [])
    else
      logs ← collectLogs (hash_of oldBlock);
      o ← parent_block oldBlock;
      n ← parent_block newBlock;
      match o, n with
      | None, _ => throw InvalidOldChain
      | Some _, None => throw InvalidNewChain
      | Some o, Some n =>
        '(oldChain, newChain, logs') ← find_common fuel o n;
        mret (oldBlock :: oldChain, newBlock :: newChain, logs ++ logs')
      end
  end.

(** The new blocks are made canonical, the newest first. *)
Fixpoint insert_all (newChain : list Block) : BM unit :=
  match newChain with
  | [] => mret tt
  | block :: newChain => insert block;; put_err (WriteTxLookupEntries block);; insert_all newChain
  end.

Fixpoint delete_entries (txs : list Transaction) : BM unit :=
  match txs with
  | [] => mret tt
  | tx :: txs => put_db (DeleteTxLookupEntry (fst (Transaction.Hash tx)));; delete_entries txs
  end.

Definition transactions_of (blocks : list Block) : list Transaction := concat (map b_transactions blocks).

(** The two chains from the heads to the common block, and the logs of the old one. *)
Definition split_chains (fuel : nat) (oldBlock newBlock : Block) : BM (list Block * list Block * list Log) :=
  on ← block_number oldBlock;
  nn ← block_number newBlock;
  '(o, oldChain, logs) ← (if nn <? on then reduce_old fuel (Some oldBlock) nn else mret (Some oldBlock, [], []));
  '(n, newChain) ← (if nn <? on then mret (Some newBlock, []) else reduce_new fuel (Some newBlock) on);
  match o, n with
  | None, _ => throw InvalidOldChain
  | Some _, None => throw InvalidNewChain
  | Some o, Some n =>
    '(oldChain', newChain', logs') ← find_common fuel o n;
    mret (oldChain ++ oldChain', newChain ++ newChain', logs ++ logs')
  end.

Definition reorg (fuel : nat) (oldBlock newBlock : Block) : BM unit :=
  '(oldChain, newChain, deletedLogs) ← split_chains fuel oldBlock newBlock;
  insert_all newChain;;
  delete_entries (TxDifference (transactions_of oldChain) (transactions_of newChain));;
  match deletedLogs with [] => mret tt | _ => send (RemovedLogsEvent deletedLogs) end.

(** ** Writing a block *)

(** What the block and the three states write is collected in a batch, here the map of its
    entries. *)
Definition fill_batch (block : Block) (number : Z) (receipts : list Receipt) (st : StateDB) (rec : StateDBRecord)
  : BM (database * Block * StateDB * StateDBRecord) :=
  config ← gets bc_config;
  let eip158 := IsEIP158 config (hd_Number (b_header block)) in
  batch ← of_outcome BcRlp (WriteBlock block ∅);
  pc ← deref (b_PocContext block);
  '(_, pc, batch) ← calc (Poc_CommitTo batch pc);
  '(r, st, batch) ← calc (StateDB.CommitTo eip158 st batch);
  match r with
  | inl e => throw (BcState e)
  | inr _ =>
    modify (fun s => set_tries (pastTries (s_db st)) (recordTries s) s);;
    '(r, rec, batch) ← calc (rec_CommitTo eip158 rec batch);
    match r with
    | inl e => throw (BcState e)
    | inr _ =>
      modify (fun s => set_tries (stateTries s) (pastTries (r_db rec)) s);;
      batch ← of_outcome BcRlp (WriteBlockReceipts (hash_of block) number receipts batch);
      let block := mkBlock (b_header block) (b_uncles block) (b_transactions block) (b_hash block) (b_size block) (Some pc) in
      mret (batch, block, st, rec)
    end
  end.

(** [coin] is the outcome of [mrand.Float64() < 0.5]. *)
Definition better (externTd localTd number current : Z) (coin : bool) : bool :=
  (localTd <? externTd) || ((externTd =? localTd) && ((number <? current) || ((number =? current) && coin))).

(** The block is canonical: the chain is reorganised unless it extends the head. *)
Definition make_canonical (fuel : nat) (block : Block) (number : Z) (batch : database) (st : StateDB) (rec : StateDBRecord) : BM database :=
  cur ← gets currentBlock; cur ← deref cur;
  (if bool_decide (parent_hash block = hash_of cur) then mret tt else reorg fuel cur block);;
  batch ← of_outcome BcRlp (WriteTxLookupEntries block batch);
  put_db (WritePreimages (StateDB.preimages st));;
  put_db (WritePreimages (r_preimages rec));;
  mret batch.

Definition write_locked (fuel : nat) (coin : bool) (block : Block) (number ptd : Z) (receipts : list Receipt) (st : StateDB) (rec : StateDBRecord)
  : BM WriteStatus := with_lock (
  cur ← gets currentBlock; cur ← deref cur;
  cn ← block_number cur;
  l ← on_hc (hc_GetTd (hash_of cur) cn);
  d ← deref (hd_Difficulty (b_header block));
  let externTd := d + ptd in
  on_hc (hc_WriteTd (hash_of block) number externTd);;
  '(batch, block, st, rec) ← fill_batch block number receipts st rec;
  localTd ← deref l;
  '(status, batch) ←
    (if better externTd localTd number cn coin
     then batch ← make_canonical fuel block number batch st rec; mret (CanonStatTy, batch)
     else mret (SideStatTy, batch));
  put_db (fun db => batch ∪ db);;
  (match status with CanonStatTy => insert block | _ => mret tt end);;
  modify (fun s => set_futureBlocks (lru_Remove (hash_of block) (futureBlocks s)) s);;
  mret status).

Definition WriteBlockAndState (fuel : nat) (coin : bool) (block : Block) (receipts : list Receipt) (st : StateDB) (rec : StateDBRecord)
  : BM WriteStatus :=
  number ← block_number block;
  p ← on_hc (hc_GetTd (parent_hash block) (pred64 number));
  match p with
  | None => throw (BcEngine Poc.ErrUnknownAncestor)
  | Some ptd => write_locked fuel coin block number ptd receipts st rec
  end.

(** ** [block_validator.go] *)

Definition ValidateBody (block : Block) : BM unit :=
  known ← HasBlockAndState (hash_of block);
  if (known : bool) then throw ErrKnownBlock
  else
    parent ← HasBlockAndState (parent_hash block);
    if negb parent then throw (BcEngine Poc.ErrUnknownAncestor)
    else
      let header := Block_Header block in
      of_outcome BcEngine (VerifyUncles block);;
      if negb (bool_decide (CalcUncleHash (b_uncles block) = hd_UncleHash header)) then throw UncleRootMismatch
      else
        hash ← calc (txs_sha (b_transactions block));
        if negb (bool_decide (hash = hd_TxHash header)) then throw TransactionRootMismatch else mret tt.

(** The two states with their tries hashed are returned. *)
Definition ValidateState (block : Block) (st : StateDB) (rec : StateDBRecord) (receipts : list Receipt) (usedGas : Z)
  : BM (StateDB * StateDBRecord) :=
  config ← gets bc_config;
  let header := Block_Header block in
  gasUsed ← deref (hd_GasUsed (b_header block));
  if negb (gasUsed =? usedGas) then throw InvalidGasUsed
  else
    rbloom ← calc (CreateBloom receipts);
    if negb (bool_decide (rbloom = hd_Bloom header)) then throw InvalidBloom
    else
      receiptSha ← calc (receipts_sha receipts);
      if negb (bool_decide (receiptSha = hd_ReceiptHash header)) then throw InvalidReceiptRoot
      else
        '(root, st) ← calc (IntermediateRoot (IsEIP158 config (hd_Number header)) st);
        if negb (bool_decide (hd_Root header = root)) then throw InvalidRoot
        else
          '(root, rec) ← calc (rec_IntermediateRoot (IsEIP158 config (hd_Number header)) rec);
          if negb (bool_decide (hd_RecordRoot header = root)) then throw InvalidRecordRoot else mret (st, rec).

Definition ValidatePocState (block : Block) : BM PocContext :=
  let header := Block_Header block in
  pc ← deref (b_PocContext block);
  '(localRoot, pc) ← calc (PocContext.Root pc);
  proto ← deref (hd_PocContext header);
  if negb (bool_decide (Proto_Root proto = localRoot)) then throw InvalidPocRoot else mret pc.

Definition GasLimitBoundDivisor : Z := 1024.
Definition MinGasLimit : Z := 5000.
Definition TargetGasLimit : Z := 4712388.

(** For a parent with these values of gas used and gas limit. *)
Definition CalcGasLimit (gasUsed gasLimit : Z) : Z :=
  let contrib := gasUsed * 3 / 2 / GasLimitBoundDivisor in
  let decay := gasLimit / GasLimitBoundDivisor - 1 in
  let gl := gasLimit - decay + contrib in
  let gl := Z.max gl MinGasLimit in
  if gl <? TargetGasLimit then Z.min (gasLimit + decay) TargetGasLimit else gl.

(** ** Importing blocks *)

Definition addBadBlock (block : Block) : BM unit :=
  let h := Block_Header block in modify (fun s => set_badBlocks (lru_Add (Header_Hash h) h (badBlocks s)) s).
Definition reportBlock : Block -> BM unit := addBadBlock.

Definition linked_blocks (prev b : Block) : BM bool :=
  n ← block_number b;
  p ← block_number prev;
  mret ((n =? u64 (p + 1)) && bool_decide (parent_hash b = hash_of prev)).

Fixpoint contiguous_blocks (i : Z) (prev : Block) (chain : list Block) : BM unit :=
  match chain with
  | [] => mret tt
  | b :: chain =>
    ok ← linked_blocks prev b;
    if (ok : bool) then contiguous_blocks (i + 1) b chain else throw (NonContiguousBlocks i)
  end.

Definition ordered (chain : list Block) : BM unit := match chain with [] => mret tt | b :: chain => contiguous_blocks 1 b chain end.

(** What happens to a block that the checks before the execution refuse: it is skipped, kept
    for later, or ends the import. *)
Definition refuse (now : Z) (block : Block) (e : bc_error) : BM unit :=
  let queue := modify (fun s => set_futureBlocks (lru_Add (hash_of block) block (futureBlocks s)) s) in
  match e with
  | ErrKnownBlock => mret tt
  | BcEngine Poc.ErrFutureBlock =>
    t ← deref (hd_Time (b_header block));
    if i64 (now + maxTimeFutureBlocks) <? t then throw FutureBlock else queue
  | BcEngine Poc.ErrUnknownAncestor =>
    waiting ← gets (fun s => lru_Contains (parent_hash block) (futureBlocks s));
    if (waiting : bool) then queue else reportBlock block;; throw e
  | _ => reportBlock block;; throw e
  end.

(** An error of a step is reported as a bad block. *)
Definition reporting {A} (block : Block) (m : BM A) : BM A :=
  r ← catch m;
  match r with inl e => reportBlock block;; throw e | inr a => mret a end.

(** The execution of the block on the states of its parent, on the chain's view of [poc.go]'s
    package variable. *)
Definition process_block (fuel : nat) (block : Block) (pc : PocContext) (st : StateDB) (rec : StateDBRecord)
  : BM (list Receipt * list Log * Z * StateDB * StateDBRecord * option PocContext) := fun s =>
  match Process fuel (bc_db s) (bc_config s) (chain_reader s) block (mkWorld st rec (Some pc) (bc_first s)) with
  | Ok (w, inr (receipts, logs, usedGas)) =>
    Ok (set_first (timeOfFirstBlock w) s, inr (receipts, logs, usedGas, w_state w, w_records w, w_poc w))
  | Ok (w, inl e) => Ok (set_first (timeOfFirstBlock w) s, inl (BcExec e))
  | Err e => Err e
  | Panic => Panic
  | OutOfFuel => OutOfFuel
  end.

Definition verify_seal (fuel : nat) (header : Header) : BM unit := fun s =>
  on_go bc_engine set_engine BcEngine (verifySeal fuel (chain_reader s) header []) s.

(** Execution, validation and writing of a block whose header and body are valid. *)
Definition execute_block (fuel : nat) (coin : bool) (block parent : Block) : BM (WriteStatus * Block * list Log) :=
  proto ← deref (hd_PocContext (Block_Header parent));
  db ← gets bc_db;
  pc ← of_outcome BcTrie (NewPocContextFromProto db proto);
  st ← new_state (hd_Root (b_header parent));
  rec ← new_record (hd_RecordRoot (b_header parent));
  '(receipts, logs, usedGas, st, rec, pc) ← reporting block (process_block fuel block pc st rec);
  let block := mkBlock (b_header block) (b_uncles block) (b_transactions block) (b_hash block) (b_size block) pc in
  '(st, rec) ← reporting block (ValidateState block st rec receipts usedGas);
  pc ← reporting block (ValidatePocState block);
  let block := mkBlock (b_header block) (b_uncles block) (b_transactions block) (b_hash block) (b_size block) (Some pc) in
  reporting block (verify_seal fuel (Block_Header block));;
  status ← WriteBlockAndState fuel coin block receipts st rec;
  mret (status, block, logs).

(** The import loop: events so far and logs of canonical blocks go out also with an error, which
    has the index of its block.  [previous] is the block before in the chain; the results are
    those of the headers. *)
Fixpoint insert_loop (fuel : nat) (now : Z) (interrupt coins : nat -> bool) (i : nat) (previous : option Block) (chain : list Block)
    (results : list (outcome engine_error unit)) (events : list chain_event) (logs : list Log) (lastCanon : option Block)
  : BM (list chain_event * list Log * option Block * option (nat * bc_error)) :=
  match chain, results with
  | [], _ => mret (events, logs, lastCanon, None)
  | _ :: _, [] => go_diverge
  | block :: chain, result :: results =>
    if interrupt i then mret (events, logs, lastCanon, None)
    else if bool_decide (hash_of block ∈ BadHashes) then
      reportBlock block;; mret (events, logs, lastCanon, Some (i, BcHeader ErrBlacklistedHash))
    else
      checked ← catch (of_outcome BcEngine result;; ValidateBody block);
      match checked with
      | inl e =>
        r ← catch (refuse now block e);
        match r with
        | inl e => mret (events, logs, lastCanon, Some (i, e))
        | inr _ => insert_loop fuel now interrupt coins (S i) (Some block) chain results events logs lastCanon
        end
      | inr _ =>
        parent ← (match previous with
                  | Some p => mret (Some p)
                  | None => n ← block_number block; bc_GetBlock (parent_hash block) (pred64 n)
                  end);
        parent ← deref parent;
        r ← catch (execute_block fuel (coins i) block parent);
        match r with
        | inl e => mret (events, logs, lastCanon, Some (i, e))
        | inr (status, block, blogs) =>
          match status with
          | CanonStatTy =>
            insert_loop fuel now interrupt coins (S i) (Some block) chain results
              (events ++ [ChainEvent block (hash_of block) blogs]) (logs ++ blogs) (Some block)
          | _ => insert_loop fuel now interrupt coins (S i) (Some block) chain results events logs lastCanon
          end
        end
      end
  end.

Definition LastBlockHash : BM bytes := b ← gets currentBlock; b ← deref b; mret (hash_of b).

Definition insertChain (fuel : nat) (now : Z) (interrupt coins : nat -> bool) (chain : list Block)
  : BM (list chain_event * list Log * option (nat * bc_error)) :=
  r ← catch (ordered chain);
  match r with
  | inl e => mret ([], [], Some (O, e))
  | inr _ =>
    results ← gets (fun s => VerifyHeaders now (chain_reader s) (map Block_Header chain));
    '(events, logs, lastCanon, err) ← insert_loop fuel now interrupt coins O None chain results [] [] None;
    match err, lastCanon with
    | None, Some b =>
      h ← LastBlockHash;
      mret (if bool_decide (h = hash_of b) then events ++ [ChainHeadEvent b] else events, logs, None)
    | _, _ => mret (events, logs, err)
    end
  end.

Fixpoint send_all (events : list chain_event) : BM unit :=
  match events with [] => mret tt | e :: events => send e;; send_all events end.

(** Nothing is sent for a nil slice of logs. *)
Definition PostChainEvents (events : list chain_event) (logs : list Log) : BM unit :=
  (match logs with [] => mret tt | _ => send (LogsEvent logs) end);; send_all events.

(** The index of the block that failed, with the error, or zero. *)
Definition InsertChain (fuel : nat) (now : Z) (interrupt coins : nat -> bool) (chain : list Block) : BM (nat * option bc_error) :=
  '(events, logs, err) ← insertChain fuel now interrupt coins chain;
  PostChainEvents events logs;;
  mret (match err with Some (i, e) => (i, Some e) | None => (O, None) end).

(** The blocks that wait, by number; errors are dropped. *)
Definition block_less (a b : Block) : bool := default 0 (hd_Number (b_header a)) <? default 0 (hd_Number (b_header b)).

Fixpoint insert_each (fuel : nat) (now : Z) (interrupt coins : nat -> bool) (blocks : list Block) : BM unit :=
  match blocks with
  | [] => mret tt
  | b :: blocks => InsertChain fuel now interrupt coins [b];; insert_each fuel now interrupt coins blocks
  end.

Definition procFutureBlocks (fuel : nat) (now : Z) (interrupt coins : nat -> bool) : BM unit :=
  waiting ← gets (fun s => omap (fun k => lru_Peek k (futureBlocks s)) (lru_Keys (futureBlocks s)));
  insert_each fuel now interrupt coins (go_sort block_less waiting).

Definition BadBlocks (s : BlockChain) : list (bytes * Header) :=
  omap (fun k => option_map (fun h => (Header_Hash h, h)) (lru_Peek k (badBlocks s))) (lru_Keys (badBlocks s)).

(** ** Fast synchronisation *)

Definition set_log (number : Z) (hash txHash : bytes) (txIndex index : Z) (l : Log) : Log :=
  mkLog (log_Address l) (log_Topics l) (log_Data l) number txHash txIndex hash index (log_Removed l).

Fixpoint set_logs (number : Z) (hash txHash : bytes) (txIndex logIndex : Z) (logs : list Log) : list Log * Z :=
  match logs with
  | [] => ([], logIndex)
  | l :: logs =>
    let '(rest, last) := set_logs number hash txHash txIndex (u64 (logIndex + 1)) logs in
    (set_log number hash txHash txIndex logIndex l :: rest, last)
  end.

(** A receipt without a transaction is an index out of range; an error of [Sender] is dropped,
    with the zero address. *)
Fixpoint receipts_data (signer : Signer) (number : Z) (hash : bytes) (j logIndex : Z) (txs : list Transaction) (receipts : list Receipt)
  : outcome unit (list Receipt) :=
  match receipts, txs with
  | [], _ => Ok []
  | _ :: _, [] => Panic
  | r :: receipts, tx :: txs =>
    let txHash := fst (Transaction.Hash tx) in
    addr ← match td_Recipient (tx_data tx) with
           | Some _ => Ok (rc_ContractAddress r)
           | None =>
             match Transaction.Sender signer tx with
             | Ok (from, _) => Ok (CreateAddress from (td_AccountNonce (tx_data tx)))
             | Err _ => Ok (CreateAddress (zeros AddressLength) (td_AccountNonce (tx_data tx)))
             | Panic => Panic
             | OutOfFuel => OutOfFuel
             end
           end;
    let '(logs, logIndex) := set_logs number hash txHash j logIndex (rc_Logs r) in
    rest ← receipts_data signer number hash (j + 1) logIndex txs receipts;
    Ok (mkReceipt (rc_PostState r) (rc_PostStateRecord r) (rc_Status r) (rc_Bloom r) logs txHash addr (rc_GasUsed r) :: rest)
  end.

Definition SetReceiptsData (block : Block) (receipts : list Receipt) : BM (list Receipt) :=
  config ← gets bc_config;
  n ← block_number block;
  calc (receipts_data (MakeSigner config (hd_Number (b_header block))) n (hash_of block) 0 0 (b_transactions block) receipts).

(** The three writes of a block into a batch. *)
Definition batch_block (block : Block) (number : Z) (receipts : list Receipt) (batch : database) : outcome rlp_error database :=
  batch ← WriteBody (hash_of block) number (Block_Body block) batch;
  batch ← WriteBlockReceipts (hash_of block) number receipts batch;
  WriteTxLookupEntries block batch.

(** [flush i] tells after which blocks the batch has reached [ethdb.IdealBatchSize] and is
    written. *)
Fixpoint receipt_loop (interrupt flush : nat -> bool) (i : nat) (chain : list Block) (receipts : list (list Receipt)) (batch : database)
  : BM (option database) :=
  match chain, receipts with
  | [], _ => mret (Some batch)
  | _ :: _, [] => go_panic
  | block :: chain, r :: receipts =>
    if interrupt i then mret None
    else
      n ← block_number block;
      known ← on_hc (hc_HasHeader (hash_of block) n);
      if negb known then throw HeaderUnknown
      else
        has ← bc_HasBlock (hash_of block) n;
        if (has : bool) then receipt_loop interrupt flush (S i) chain receipts batch
        else
          r ← SetReceiptsData block r;
          batch ← of_outcome BcRlp (batch_block block n r batch);
          if flush i then put_db (fun db => batch ∪ db);; receipt_loop interrupt flush (S i) chain receipts ∅
          else receipt_loop interrupt flush (S i) chain receipts batch
  end.

(** The head of the fast chain moves to the last block if that is heavier; a missing total
    difficulty of the old head is dereferenced. *)
Definition update_fast (head : Block) : BM unit := with_lock (
  n ← block_number head;
  td ← on_hc (hc_GetTd (hash_of head) n);
  match td with
  | None => mret tt
  | Some td =>
    f ← gets currentFastBlock; f ← deref f;
    fn ← block_number f;
    ftd ← on_hc (hc_GetTd (hash_of f) fn); ftd ← deref ftd;
    if ftd <? td then put_db (WriteHeadFastBlockHash (hash_of head));; modify (set_fast (Some head)) else mret tt
  end).

Definition InsertReceiptChain (interrupt flush : nat -> bool) (chain : list Block) (receipts : list (list Receipt)) : BM unit :=
  ordered chain;;
  r ← receipt_loop interrupt flush O chain receipts ∅;
  match r with
  | None => mret tt
  | Some batch =>
    put_db (fun db => batch ∪ db);;
    head ← deref (list.last chain);
    update_fast head
  end.

(** ** Headers *)

(** The verdicts of the engine reach the header chain by their index.  The lock is taken for
    every header that is written, here for all of them. *)
Definition bc_InsertHeaderChain (fuel : nat) (rnd : nat -> Z) (now : Z) (interrupt coins : nat -> bool) (chain : list Header) (checkFreq : Z) : BM unit :=
  reader ← gets chain_reader;
  let results := VerifyHeaders now reader chain in
  let verify (_ : list Header) (_ : list bool) :=
    imap (fun i (r : outcome engine_error unit) => match r with Ok _ => None | _ => Some (Z.of_nat i) end) results in
  r ← catch (on_hc (ValidateHeaderChain rnd interrupt verify chain checkFreq));
  match r with
  | inl (BcHeader (VerifyFailed (Some i))) => match results !! Z.to_nat i with Some (Err e) => throw (BcEngine e) | _ => go_panic end
  | inl e => throw e
  | inr _ => with_lock (on_hc (hc_InsertHeaderChain fuel interrupt coins chain))
  end.

Definition writeHeader (fuel : nat) (coin : bool) (header : Header) : BM unit := with_lock (on_hc (hc_WriteHeader fuel coin header);; mret tt).

(** ** Opening *)

(** Banned headers of the canonical chain are taken back; a genesis block that is banned wraps
    around. *)
Fixpoint drop_bad (depth fuel : nat) (bad : list bytes) : BM unit :=
  match bad with
  | [] => mret tt
  | hash :: bad =>
    h ← on_hc (hc_GetHeaderByHash hash);
    (match h with
     | None => mret tt
     | Some h =>
       n ← hd_number h;
       c ← on_hc (hc_GetHeaderByNumber n);
       match c with
       | Some c => if bool_decide (Header_Hash c = Header_Hash h) then catch (bc_SetHead depth fuel (pred64 n));; mret tt else mret tt
       | None => mret tt
       end
     end);;
    drop_bad depth fuel bad
  end.

Definition NewBlockChain (depth fuel : nat) (first : Z) (db : database) (config : ChainConfig) (engine : Poc) : outcome unit (bc_error + BlockChain) :=
  r ← NewHeaderChain db;
  match r with
  | inl e => Ok (inl (of_hc_error e))
  | inr hc =>
    let s := mkBlockChain config hc engine first false None None None [] [] (lru_New bodyCacheLimit) (lru_New bodyCacheLimit)
               (lru_New blockCacheLimit) (lru_New maxFutureBlocks) (lru_New badBlockLimit) [] in
    '(s, r) ← (g ← bc_GetBlockByNumber 0;
               match g with
               | None => throw BcNoGenesis
               | Some _ => modify (set_genesis g);; loadLastState depth fuel;; drop_bad depth fuel BadHashes
               end) s;
    Ok (match r with inl e => inl e | inr _ => inr s end)
  end.

End BlockChain.
