(* ===== verification/ExecutionSpec.v ===== *)
(** * Package [core]: what applying transactions and blocks means

    A specification of [Execution] as a function on an abstract world: the nonces, balances
    and contributions of accounts, the records by hash and the set of candidates.  The
    theorems show that the code refines it, on success and on error, that roots in receipts
    and headers commit to the abstract world, and what follows for the chain: the supply
    grows by the block reward only, nonces count transactions, and the cases in which the
    code does not do what its names say. *)

From S2P Require Import Prelude Rlp RlpStream TrieEncoding Common Codec Trie TrieModel TrieRefine TrieHash TrieMap TrieIterator.
From S2P Require Import PocContext SecureTrie StateDB StateRevert StateLedger StateRecord Signature ChainConfig Transaction Block.
From S2P Require Import GoMonad EpochContext Poc Dao Execution.

(** ** Specification *)

Record aworld := mkAWorld { aw_ledger : ledger; aw_records : records; aw_candidates : gset bytes }.

Definition on_ledger (f : ledger -> ledger) (W : aworld) : aworld := mkAWorld (f (aw_ledger W)) (aw_records W) (aw_candidates W).
Definition put_rec (h : bytes) (r : rec) (W : aworld) : aworld := mkAWorld (aw_ledger W) (rset h r (aw_records W)) (aw_candidates W).
Definition set_candidates (C : gset bytes) (W : aworld) : aworld := mkAWorld (aw_ledger W) (aw_records W) C.

Definition bump (a : bytes) (L : ledger) : ledger := lset a (mkAcct (a_nonce (L a) + 1) (a_balance (L a)) (a_contribution (L a))) L.
Definition debit (a : bytes) (v : Z) (L : ledger) : ledger := lset a (mkAcct (a_nonce (L a)) (a_balance (L a) - v) (a_contribution (L a))) L.
Definition credit (a : bytes) (v : Z) (L : ledger) : ledger := lset a (mkAcct (a_nonce (L a)) (a_balance (L a) + v) (a_contribution (L a))) L.
Definition contribute (a : bytes) (v : Z) (L : ledger) : ledger := lset a (mkAcct (a_nonce (L a)) (a_balance (L a)) (a_contribution (L a) + v)) L.

Definition recipient (msg : Message) : bytes := default (zeros AddressLength) (msg_to msg).

Definition nonce_error (msg : Message) (L : ledger) : option exec_error :=
  let nonce := a_nonce (L (msg_from msg)) in
  if negb (msg_checkNonce msg) then None
  else if nonce <? msg_nonce msg then Some ErrNonceTooHigh
  else if msg_nonce msg <? nonce then Some ErrNonceTooLow
  else None.

Definition exec_transfer (msg : Message) (W : aworld) : exec_error + aworld :=
  let from := msg_from msg in
  match nonce_error msg (aw_ledger W) with
  | Some e => inl e
  | None =>
    if a_balance (aw_ledger W from) <? msg_amount msg then inl ErrInsufficientBalance
    else inr (on_ledger (fun L => credit (recipient msg) (msg_amount msg) (debit from (msg_amount msg) (bump from L))) W)
  end.

(** A data transaction of the three kinds; transferring a record changes its origin and
    leaves its owner. *)
Definition exec_data (txHash : bytes) (msg : Message) (W : aworld) : exec_error + aworld :=
  let from := msg_from msg in
  let hash := data_hash (msg_data msg) in
  match nonce_error msg (aw_ledger W) with
  | Some e => inl e
  | None =>
    let W := on_ledger (bump from) W in
    if msg_type msg =? ConfirmationData then
      match aw_records W hash with
      | Some _ => inl ErrNoMessage
      | None => inr (on_ledger (contribute from 2000000000000000000) (put_rec hash (mkRec from from [txHash] 0) W))
      end
    else if msg_type msg =? TransferData then
      match aw_records W hash with
      | None => inl ErrNoMessage
      | Some r =>
        if bool_decide (rc_owner r = from) && (rc_status r =? 0) then
          inr (on_ledger (contribute from 1000000000000000000)
                 (put_rec hash (mkRec (recipient msg) (rc_owner r) (rc_txs r ++ [txHash]) (rc_status r)) W))
        else inl ErrNoMessage
      end
    else inr W
  end.

Definition exec_poc (msg : Message) (W : aworld) : aworld :=
  if msg_type msg =? LoginCandidate then set_candidates (aw_candidates W ∪ {[msg_from msg]}) W
  else if msg_type msg =? LogoutCandidate then set_candidates (aw_candidates W ∖ {[msg_from msg]}) W
  else W.

(** Any other type is accepted and does nothing. *)
Definition exec (txHash : bytes) (msg : Message) (W : aworld) : exec_error + aworld :=
  if msg_type msg =? Binary then exec_transfer msg W
  else if (msg_type msg =? ConfirmationData) || (msg_type msg =? AuthorizationData) || (msg_type msg =? TransferData)
  then exec_data txHash msg W
  else inr (exec_poc msg W).

Fixpoint exec_all (l : list (bytes * Message)) (W : aworld) : exec_error + aworld :=
  match l with
  | [] => inr W
  | (h, msg) :: l => match exec h msg W with inl e => inl e | inr W => exec_all l W end
  end.

(** The numbers of [k] more transactions stay within their widths. *)
Definition in_range (A : gset bytes) (k : Z) (L : ledger) : Prop :=
  (forall a, a ∈ A -> a_nonce (L a) + k < 2 ^ 64 /\ a_contribution (L a) + k * 2000000000000000000 < 2 ^ 256) /\ supply A L < 2 ^ 256.

(** A message between accounts of [A] about records of [H]. *)
Definition msg_within (A H : gset bytes) (msg : Message) : Prop :=
  msg_from msg ∈ A /\ recipient msg ∈ A /\ data_hash (msg_data msg) ∈ H /\
  bytes_ok (msg_data msg) /\ len (msg_data msg) < 2 ^ 32 /\ 0 <= msg_amount msg.

(** ** The abstract world of a world *)

Section Refinement.
Context {HS : Hasher} {ST : StateTrie} {GR : GoRand} {SC : Secp256k1}.
Context (db : database) (del : bool) (A H : gset bytes) (HA : forall a, a ∈ A -> is_address a).

(** The states hold the ledger and the records with room for [n] more entries each, the
    consensus context the candidates and otherwise the content [M]. *)
Record holds (n : Z) (M : pc_maps) (w : world) (W : aworld) : Prop := mkHolds {
  h_ledger : exists m, lholds del A n m (w_state w) (aw_ledger W);
  h_records : exists m, rholds H n m (w_records w) (aw_records W);
  h_poc : exists pc m, w_poc w = Some pc /\ pc_holds db pc (set_candidate_map m M) /\ candidates m (aw_candidates W)
}.

Definition wframe (w' w : world) : Prop :=
  logs (w_state w') = logs (w_state w) /\ timeOfFirstBlock w' = timeOfFirstBlock w.

#[local] Instance wframe_preorder : PreOrder wframe.
Proof. split; [done|]. intros w1 w2 w3 (? & ?) (? & ?). split; congruence. Qed.

(** [m] runs from [w] as [spec] says: to an error, or to a result and an abstract world. *)
Definition steps {X} (n : Z) (M : pc_maps) (m : XM X) (w : world) (spec : exec_error + (X * aworld)) : Prop :=
  exists w' r, m w = Ok (w', r) /\ wframe w' w /\
    match spec with inl e => r = inl e | inr (x, W') => r = inr x /\ holds n M w' W' end.

(** ** Lemmas: running *)

Lemma steps_ret {X} n M w W (x : X) : holds n M w W -> steps n M (mret x) w (inr (x, W)).
Proof. intros Hw. exists w, (inr x). done. Qed.

Lemma steps_throw {X} n M w e : steps (X := X) n M (throw e) w (inl e).
Proof. exists w, (inl e). done. Qed.

Lemma steps_bind {X Y} n n' M (m : XM X) (k : X -> XM Y) w x W spec :
  steps n M m w (inr (x, W)) -> (forall w', wframe w' w -> holds n M w' W -> steps n' M (k x) w' spec) -> steps n' M (m ≫= k) w spec.
Proof.
  intros (w1 & r & E & F & -> & H1) Hk. destruct (Hk w1 F H1) as (w2 & r2 & E2 & F2 & S2).
  exists w2, r2. unfold mbind, go_bind. rewrite E. split; [done|]. split; [by etrans|done].
Qed.

Lemma steps_fail {X Y} n n' M (m : XM X) (k : X -> XM Y) w e : steps n M m w (inl e) -> steps n' M (m ≫= k) w (inl e).
Proof. intros (w1 & r & E & F & ->). exists w1, (inl e). unfold mbind, go_bind. by rewrite E. Qed.

Lemma rholds_mono n n' m s R : rholds H n m s R -> 0 <= n' <= n -> rholds H n' m s R.
Proof. intros [Hs V] Ln. split; [by eapply rec_state_mono|done]. Qed.

Lemma steps_ask {X} n n' M (f : StateDB -> outcome unit (X * StateDB)) w W x L' :
  holds n M w W -> 0 <= n' <= n ->
  (forall m s, lholds del A n m s (aw_ledger W) -> exists s', f s = Ok (x, s') /\ (exists m', lholds del A n' m' s' L') /\ logs s' = logs s) ->
  steps n' M (ask f) w (inr (x, mkAWorld L' (aw_records W) (aw_candidates W))).
Proof.
  intros [(m & Hl) (mr & Hr) Hp] Hn Hf. destruct (Hf m _ Hl) as (s' & E & Hl' & Fl).
  exists (set_w_state s' w), (inr x). unfold ask, call. rewrite E. split; [done|]. split; [done|]. split; [done|].
  split; [done| |done]. exists mr. by eapply rholds_mono.
Qed.

Lemma steps_run n n' M (f : StateDB -> outcome unit StateDB) w W L' :
  holds n M w W -> 0 <= n' <= n ->
  (forall m s, lholds del A n m s (aw_ledger W) -> exists s', f s = Ok s' /\ (exists m', lholds del A n' m' s' L') /\ logs s' = logs s) ->
  steps n' M (run f) w (inr (tt, mkAWorld L' (aw_records W) (aw_candidates W))).
Proof.
  intros Hw Hn Hf. apply (steps_ask n); [done..|]. intros m s Hl. destruct (Hf m s Hl) as (s' & -> & Hs). exists s'. done.
Qed.

Lemma steps_ask_rec {X} n n' M (f : StateDBRecord -> outcome unit (X * StateDBRecord)) w W x R' :
  holds n M w W -> 0 <= n' <= n ->
  (forall m s, rholds H n m s (aw_records W) -> exists s', f s = Ok (x, s') /\ (exists m', rholds H n' m' s' R')) ->
  steps n' M (ask_rec f) w (inr (x, mkAWorld (aw_ledger W) R' (aw_candidates W))).
Proof.
  intros [(ml & Hl) (m & Hr) Hp] Hn Hf. destruct (Hf m _ Hr) as (s' & E & Hr').
  exists (set_w_records s' w), (inr x). unfold ask_rec, call. rewrite E. split; [done|]. split; [done|]. split; [done|].
  split; [|done|done]. exists ml. by eapply lholds_mono.
Qed.

Lemma steps_run_rec n n' M (f : StateDBRecord -> outcome unit StateDBRecord) w W R' :
  holds n M w W -> 0 <= n' <= n ->
  (forall m s, rholds H n m s (aw_records W) -> exists s', f s = Ok s' /\ (exists m', rholds H n' m' s' R')) ->
  steps n' M (run_rec f) w (inr (tt, mkAWorld (aw_ledger W) R' (aw_candidates W))).
Proof.
  intros Hw Hn Hf. apply (steps_ask_rec n); [done..|]. intros m s Hl. destruct (Hf m s Hl) as (s' & -> & Hs). exists s'. done.
Qed.

(** ** Lemmas: the operations of messages *)

Lemma step_ensure n M w L R C a :
  holds n M w (mkAWorld L R C) -> a ∈ A -> steps n M (run (ensure a)) w (inr (tt, mkAWorld L R C)).
Proof.
  intros Hw Ha. pose proof Hw as [(m0 & Hl0) _ _]. pose proof (ls_room _ _ _ _ _ (proj1 Hl0)).
  apply (steps_run n n M _ w _ L Hw); [lia|]. intros m s Hl.
  destruct (ensure_ledger del A m n a s L Hl Ha) as (s' & E & Hl' & F & _). exists s'. split; [done|]. split; [by exists m|apply F].
Qed.

Lemma room n M w W : holds n M w W -> 0 <= n <= n.
Proof. intros [(m & Hl) _ _]. pose proof (ls_room _ _ _ _ _ (proj1 Hl)). lia. Qed.

Lemma step_from n M w L R C msg :
  holds n M w (mkAWorld L R C) -> msg_from msg ∈ A -> steps n M (st_from msg) w (inr (msg_from msg, mkAWorld L R C)).
Proof. intros Hw Ha. eapply steps_bind; [by apply step_ensure|]. intros w1 _ H1. by apply steps_ret. Qed.

Lemma step_to n M w L R C msg :
  holds n M w (mkAWorld L R C) -> recipient msg ∈ A -> steps n M (st_to msg) w (inr (recipient msg, mkAWorld L R C)).
Proof.
  intros Hw Ha. unfold st_to, recipient in *. destruct (msg_to msg) as [to|]; [|by apply steps_ret].
  eapply steps_bind; [by apply step_ensure|]. intros w1 _ H1. by apply steps_ret.
Qed.

Lemma step_nonce n M w L R C a :
  holds n M w (mkAWorld L R C) -> a ∈ A -> steps n M (ask (GetNonce a)) w (inr (a_nonce (L a), mkAWorld L R C)).
Proof.
  intros Hw Ha. apply (steps_ask n n M _ w _ _ L Hw (room _ _ _ _ Hw)). intros m s Hl.
  destruct (GetNonce_ledger del A m n a s L Hl Ha) as (s' & E & Hl' & F). exists s'. split; [done|]. split; [by exists m|apply F].
Qed.

Lemma step_balance n M w L R C a :
  holds n M w (mkAWorld L R C) -> a ∈ A -> steps n M (ask (GetBalance a)) w (inr (a_balance (L a), mkAWorld L R C)).
Proof.
  intros Hw Ha. apply (steps_ask n n M _ w _ _ L Hw (room _ _ _ _ Hw)). intros m s Hl.
  destruct (GetBalance_ledger del A m n a s L Hl Ha) as (s' & E & Hl' & F). exists s'. split; [done|]. split; [by exists m|apply F].
Qed.

Lemma step_bump n M w L R C a :
  holds n M w (mkAWorld L R C) -> a ∈ A -> 0 <= a_nonce (L a) + 1 < 2 ^ 64 ->
  steps n M (run (SetNonce a (u64 (a_nonce (L a) + 1)))) w (inr (tt, mkAWorld (bump a L) R C)).
Proof.
  intros Hw Ha Hn. unfold u64. rewrite Z.mod_small by done. apply (steps_run n n M _ w _ _ Hw (room _ _ _ _ Hw)). intros m s Hl.
  destruct (SetNonce_ledger del A m n a _ s L Hl Ha Hn) as (s' & E & Hl' & F). exists s'. split; [done|]. split; [by exists m|apply F].
Qed.

Lemma step_credit n M w L R C a v :
  holds n M w (mkAWorld L R C) -> a ∈ A -> 0 <= a_balance (L a) + v < 2 ^ 256 ->
  steps n M (run (AddBalance a v)) w (inr (tt, mkAWorld (credit a v L) R C)).
Proof.
  intros Hw Ha Hv. apply (steps_run n n M _ w _ _ Hw (room _ _ _ _ Hw)). intros m s Hl.
  destruct (AddBalance_ledger del A m n a v s L Hl Ha Hv) as (s' & E & Hl' & F). exists s'. split; [done|]. split; [by exists m|apply F].
Qed.

Lemma step_debit n M w L R C a v :
  holds n M w (mkAWorld L R C) -> a ∈ A -> 0 <= a_balance (L a) - v < 2 ^ 256 ->
  steps n M (run (SubBalance a v)) w (inr (tt, mkAWorld (debit a v L) R C)).
Proof.
  intros Hw Ha Hv. apply (steps_run n n M _ w _ _ Hw (room _ _ _ _ Hw)). intros m s Hl.
  destruct (SubBalance_ledger del A m n a v s L Hl Ha Hv) as (s' & E & Hl' & F). exists s'. split; [done|]. split; [by exists m|apply F].
Qed.

Lemma step_contribute n M w L R C a v :
  holds n M w (mkAWorld L R C) -> a ∈ A -> 0 <= a_contribution (L a) + v < 2 ^ 256 ->
  steps n M (run (AddContribution a v)) w (inr (tt, mkAWorld (contribute a v L) R C)).
Proof.
  intros Hw Ha Hv. apply (steps_run n n M _ w _ _ Hw (room _ _ _ _ Hw)). intros m s Hl.
  destruct (AddContribution_ledger del A m n a v s L Hl Ha Hv) as (s' & E & Hl' & F). exists s'. split; [done|]. split; [by exists m|apply F].
Qed.

Lemma step_add_record n M w L R C a h :
  holds (n + 1) M w (mkAWorld L R C) -> a ∈ A -> 0 <= n -> is_hash h -> steps n M (run (AddRecords a h)) w (inr (tt, mkAWorld L R C)).
Proof.
  intros Hw Ha Hn Hh. apply (steps_run (n + 1) n M _ w _ L Hw ltac:(lia)). intros m s Hl.
  destruct (AddRecords_ledger del A m (n + 1) a h s L Hl Ha ltac:(lia) Hh) as (s' & E & Hl' & F). exists s'.
  split; [done|]. replace (n + 1 - 1) with n in Hl' by lia. split; [by exists m|apply F].
Qed.

Lemma step_remove_record n M w L R C a h :
  holds n M w (mkAWorld L R C) -> a ∈ A -> steps n M (run (RemoveRecords a h)) w (inr (tt, mkAWorld L R C)).
Proof.
  intros Hw Ha. apply (steps_run n n M _ w _ L Hw (room _ _ _ _ Hw)). intros m s Hl.
  destruct (RemoveRecords_ledger del A m n a h s L Hl Ha) as (s' & E & Hl' & F). exists s'. split; [done|]. split; [by exists m|apply F].
Qed.

Lemma holds_range n M w L R C a :
  holds n M w (mkAWorld L R C) -> a ∈ A ->
  0 <= a_nonce (L a) < 2 ^ 64 /\ 0 <= a_balance (L a) < 2 ^ 256 /\ 0 <= a_contribution (L a) < 2 ^ 256.
Proof. intros [(m & Hl) _ _] Ha. by eapply lholds_range. Qed.

Lemma step_preCheck n M w L R C msg :
  holds n M w (mkAWorld L R C) -> msg_from msg ∈ A ->
  steps n M (preCheck msg) w (match nonce_error msg L with Some e => inl e | None => inr (tt, mkAWorld L R C) end).
Proof.
  intros Hw Ha. eapply steps_bind; [by apply step_from|]. intros w1 _ H1. unfold nonce_error.
  destruct (msg_checkNonce msg); cbn [negb]; [|by apply steps_ret].
  eapply steps_bind; [by apply step_nonce|]. intros w2 _ H2.
  destruct (a_nonce _ <? _); [apply steps_throw|]. destruct (_ <? a_nonce _); [apply steps_throw|by apply steps_ret].
Qed.

(** The recipient's balance stays within the supply. *)
Lemma credit_fits n M w L R C from to v :
  holds n M w (mkAWorld L R C) -> from ∈ A -> to ∈ A -> 0 <= v <= a_balance (L from) -> supply A L < 2 ^ 256 ->
  0 <= a_balance (debit from v L to) + v < 2 ^ 256.
Proof.
  intros Hw Hf Ht Hv Hs. unfold debit, lset. destruct (decide (to = from)) as [->|N]; cbn [a_balance].
  - pose proof (holds_range _ _ _ _ _ _ from Hw Hf). lia.
  - pose proof (holds_range _ _ _ _ _ _ to Hw Ht).
    assert (B : a_balance (debit from v L to) <= supply A (debit from v L)).
    { apply balance_supply; [|done]. intros b Hb. pose proof (holds_range _ _ _ _ _ _ b Hw Hb). unfold debit, lset. destruct (decide _); [cbn; lia|lia]. }
    unfold debit in B. rewrite supply_lset in B by done. unfold lset in B. rewrite decide_False in B by done. cbn in B. lia.
Qed.

Lemma supply_bump a L : a ∈ A -> supply A (bump a L) = supply A L.
Proof. intros Ha. unfold bump. rewrite supply_lset by done. cbn. lia. Qed.

Lemma bump_balance a b L : a_balance (bump a L b) = a_balance (L b).
Proof. unfold bump, lset. by destruct (decide _) as [->|]. Qed.

Lemma step_transfer n M w L R C msg :
  holds n M w (mkAWorld L R C) -> msg_within A H msg -> in_range A 1 L ->
  steps n M (ApplyMessage msg) w
    (match exec_transfer msg (mkAWorld L R C) with inl e => inl e | inr W => inr (false, W) end).
Proof.
  intros Hw (Hf & Ht & _ & _ & _ & Hv) [Rg Rs]. unfold ApplyMessage, TransitionDb, exec_transfer. cbn [aw_ledger].
  pose proof (step_preCheck n M w L R C msg Hw Hf) as P. destruct (nonce_error msg L) as [e|]; [by eapply steps_fail|].
  eapply steps_bind; [exact P|]. intros w1 _ H1.
  eapply steps_bind; [by apply step_from|]. intros w2 _ H2.
  eapply steps_bind; [by apply step_to|]. intros w3 _ H3.
  eapply steps_bind; [by apply step_nonce|]. intros w4 _ H4.
  destruct (holds_range _ _ _ _ _ _ _ H4 Hf) as (Rn & Rb & _). destruct (Rg _ Hf) as [Rn' _].
  eapply steps_bind; [apply step_bump; [done|done|lia]|]. intros w5 _ H5.
  eapply steps_bind; [eapply steps_bind; [by apply step_balance|intros; by apply steps_ret]|]. intros w6 _ H6.
  rewrite bump_balance. rewrite Z.leb_antisym, negb_involutive. destruct (Z.ltb_spec (a_balance (L (msg_from msg))) (msg_amount msg)); [apply steps_throw|].
  eapply steps_bind; [by apply step_ensure|]. intros w7 _ H7.
  eapply steps_bind; [|intros; by apply steps_ret].
  eapply steps_bind; [apply step_debit; [done|done|rewrite bump_balance; lia]|]. intros w8 _ H8.
  apply step_credit; [done|done|]. apply (credit_fits n M w7 _ R C); [done|done|done|rewrite bump_balance; cbn; lia|by rewrite supply_bump].
Qed.

(** ** Lemmas: data transactions *)

Lemma step_exist n M w L R C h :
  holds n M w (mkAWorld L R C) -> h ∈ H -> steps n M (ask_rec (rec_Exist h)) w (inr (bool_decide (is_Some (R h)), mkAWorld L R C)).
Proof.
  intros Hw Hh. apply (steps_ask_rec n n M _ w _ _ R Hw (room _ _ _ _ Hw)). intros m s Hr.
  destruct (rec_Exist_holds H n m s R h Hr Hh) as (s' & E & Hr' & _). exists s'. split; [done|]. by exists m.
Qed.

Lemma step_owner n M w L R C h :
  holds n M w (mkAWorld L R C) -> h ∈ H ->
  steps n M (ask_rec (rec_GetOwner h)) w (inr (match R h with Some r => rc_owner r | None => zeros AddressLength end, mkAWorld L R C)).
Proof.
  intros Hw Hh. apply (steps_ask_rec n n M _ w _ _ R Hw (room _ _ _ _ Hw)). intros m s Hr.
  destruct (rec_GetOwner_holds H n m s R h Hr Hh) as (s' & E & Hr' & _). exists s'. split; [done|]. by exists m.
Qed.

Lemma step_status n M w L R C h :
  holds n M w (mkAWorld L R C) -> h ∈ H ->
  steps n M (ask_rec (rec_GetStatus h)) w (inr (match R h with Some r => rc_status r | None => 100 end, mkAWorld L R C)).
Proof.
  intros Hw Hh. apply (steps_ask_rec n n M _ w _ _ R Hw (room _ _ _ _ Hw)). intros m s Hr.
  destruct (rec_GetStatus_holds H n m s R h Hr Hh) as (s' & E & Hr' & _). exists s'. split; [done|]. by exists m.
Qed.

(** The records have well-formed addresses and transactions. *)
Lemma rholds_ok n m s R h r : rholds H n m s R -> h ∈ H -> R h = Some r -> is_address (rc_owner r) /\ is_address (rc_origin r).
Proof.
  intros [Hs V] Hh E. rewrite <- V in E by done. destruct (rec_getStateObject_holds H n m s h Hs Hh) as (s1 & _ & H1 & _ & _ & Ho).
  unfold rview in E. destruct (roview m s h) as [o|] eqn:Ev; [|done]. injection E as <-.
  destruct (rs_objects _ _ _ _ H1 h o (Ho o eq_refl)) as (_ & _ & (Po & Pw & _) & _). done.
Qed.

Lemma rplain_origin n a d : rplain n d -> is_address a -> rplain n (rec_origin a d).
Proof. by intros (_ & P) Ha. Qed.

Lemma rplain_owner n a d : rplain n d -> is_address a -> rplain n (rec_owner a d).
Proof. by intros (P1 & _ & P) Ha. Qed.

Lemma rplain_txs n n' l d : rplain n d -> Forall is_hash l -> Z.of_nat (length l) + n' < 2 ^ 26 -> rplain n' (rec_txs l d).
Proof. by intros (P1 & P2 & _ & _ & P) Hl Ln. Qed.

Lemma ro_data_undirty d o : ro_data (ro_undirty (ro_set_data d o)) = d.
Proof. unfold ro_undirty. by destruct (ro_onDirty _). Qed.

(** Recording: a fresh record whose fields are set one after the other. *)
Lemma step_confirm {X} n n' M w L R C h a t (k : XM X) spec :
  holds n M w (mkAWorld L R C) -> h ∈ H -> R h = None -> is_address a -> is_hash t -> 1 + n < 2 ^ 26 ->
  (forall w', holds n M w' (mkAWorld L (rset h (mkRec a a [t] 0) R) C) -> steps n' M k w' spec) ->
  steps n' M
    (_ ← ask_rec (rec_GetOrNewStateObject h);
     run_rec (on_record (ro_SetOrigin a) h);; run_rec (on_record (ro_SetOwner a) h);; run_rec (on_record (ro_SetTxs [t]) h);; k) w spec.
Proof.
  intros [(ml & Hl) (m & [Hs V]) Hp] Hh Rn Ha Ht Hn Hk. cbn [aw_ledger aw_records aw_candidates] in *.
  pose proof (rs_room _ _ _ _ Hs) as Rm.
  destruct (rec_GetOrNew_holds H n m _ h Hs Hh) as (o & s1 & E1 & H1 & F1 & Eo & Ed & V1).
  rewrite V, Rn in Ed by done. cbn [default] in Ed.
  set (R1 := fun b => if decide (b = h) then Some (rec_of (ro_data o)) else R b).
  assert (Hr1 : rholds H n m s1 R1) by (split; [done|intros b Hb; rewrite V1; unfold R1; destruct (decide _); [done|by apply V]]).
  destruct (rs_objects _ _ _ _ H1 h o Eo) as (_ & Eh & Pl & _).
  destruct (ro_set_holds H n n m s1 R1 h o (ro_SetOrigin a) (rec_origin a) Hr1 Eo ltac:(lia)) as (Hr2 & _ & Eo2); [by eexists|by apply rplain_origin|done|].

  set (s2 := ro_SetOrigin a o s1) in *. set (o2 := ro_undirty _) in Eo2.
  assert (D2 : ro_data o2 = rec_origin a (ro_data o)) by apply ro_data_undirty.
  assert (Pl2 : rplain n (ro_data o2)) by (rewrite D2; by apply rplain_origin).
  destruct (ro_set_holds H n n m s2 _ h o2 (ro_SetOwner a) (rec_owner a) Hr2 Eo2 ltac:(lia)) as (Hr3 & _ & Eo3); [by eexists|apply rplain_owner; [exact Pl2|exact Ha]|done|].

  set (s3 := ro_SetOwner a o2 s2) in *. set (o3 := ro_undirty _) in Eo3.
  assert (D3 : ro_data o3 = rec_owner a (ro_data o2)) by apply ro_data_undirty.
  assert (Pl3 : rplain n (ro_data o3)) by (rewrite D3; by apply rplain_owner).
  destruct (ro_set_holds H n n m s3 _ h o3 (ro_SetTxs [t]) (rec_txs [t]) Hr3 Eo3 ltac:(lia)) as (Hr4 & _ & Eo4); [by eexists| |done|].
  { apply (rplain_txs n); [exact Pl3|constructor; [done|constructor]|cbn; lia]. }
  set (s4 := ro_SetTxs [t] o3 s3) in *.
  destruct (Hk (set_w_records s4 w)) as (w' & r & E & F & Sp).
  { split; [by exists ml| |done]. exists m. destruct Hr4 as [Hs4 V4]. split; [done|]. intros b Hb. rewrite V4 by done.
    unfold rset, R1. cbn [aw_records]. destruct (decide (b = h)); [|done]. f_equal. unfold rec_of in *. injection Ed as _ _ _ Es. cbn. by rewrite D3, D2, <- Es. }
  exists w', r. split; [|split; [exact F|exact Sp]]. unfold mbind, go_bind, ask_rec, run_rec, ask_rec, call. cbn [mbind outcome_bind].
  rewrite E1. cbn [mbind outcome_bind set_w_records w_records].
  unfold on_record. rewrite Eo. cbn [mbind outcome_bind set_w_records w_records]. fold s2. rewrite Eo2.
  cbn [mbind outcome_bind set_w_records w_records]. fold s3. rewrite Eo3. exact E.
Qed.

(** Transferring: the origin is replaced and the transaction added. *)
Lemma step_retarget {X} n n' M w L R C h r a t (k : XM X) spec :
  holds (n + 1) M w (mkAWorld L R C) -> h ∈ H -> R h = Some r -> is_address a -> is_hash t -> 0 <= n ->
  (forall w', holds n M w' (mkAWorld L (rset h (mkRec a (rc_owner r) (rc_txs r ++ [t]) (rc_status r)) R) C) -> steps n' M k w' spec) ->
  steps n' M (run_rec (rec_SetOwner h a);; run_rec (rec_AddTxHash h t);; k) w spec.
Proof.
  intros Hw Hh Er Ha Ht Hn Hk.
  eapply (steps_bind (n + 1) n' _ _ _ _ tt (mkAWorld L (rset h (mkRec a (rc_owner r) (rc_txs r) (rc_status r)) R) C)).
  - apply (steps_run_rec (n + 1) (n + 1) M _ w _ _ Hw (room _ _ _ _ Hw)). intros m s Hr.
    destruct (with_record_holds H (n + 1) (n + 1) m s R h (ro_SetOrigin a) (rec_origin a) Hr Hh) as (s' & d & E & Ed & Hr' & _);
      [lia|by eexists|intros d Pd; split; [by apply rplain_origin|done]|].
    exists s'. split; [done|]. exists m. rewrite Er in Ed. change (rec_of d = r) in Ed. destruct Hr' as [Hs' V']. split; [done|]. intros b Hb. rewrite V' by done.
    unfold rset. destruct (decide _); [|done]. f_equal. rewrite <- Ed. done.
  - intros w1 _ H1. set (R1 := rset h (mkRec a (rc_owner r) (rc_txs r) (rc_status r)) R) in *. eapply steps_bind; [|intros w2 _ H2; by apply Hk].
    apply (steps_run_rec (n + 1) n M _ w1 _ _ H1 ltac:(lia)). intros m s Hr.
    destruct (with_record_holds H (n + 1) n m s R1 h (fun o s => ro_SetTxs (Txs (ro_data o) ++ [t]) o s) (fun d => rec_txs (Txs d ++ [t]) d) Hr Hh)
      as (s' & d & E & Ed & Hr' & _); [lia|by eexists| |].
    { intros d Pd. split; [|done]. pose proof Pd as (_ & _ & Pt & Pn & _).
      apply (rplain_txs (n + 1)); [done|apply Forall_app; split; [done|constructor; [done|constructor]]|rewrite length_app; cbn; lia]. }
    exists s'. split; [done|]. exists m. unfold R1, rset in Ed. rewrite decide_True in Ed by done.
    destruct Hr' as [Hs' V']. split; [done|]. intros b Hb. rewrite V' by done. unfold R1, rset. destruct (decide _); [|done]. f_equal.
    unfold rec_of in *. cbn. by injection Ed as -> -> -> ->.
Qed.

Lemma data_hash_ok d : bytes_ok d -> len d < 2 ^ 32 -> is_hash (data_hash d).
Proof.
  intros Hd Ld. unfold data_hash. apply is_hash_BytesToHash.
  assert (Ls : len (enc_value TBytes (VBytes d)) < 2 ^ 64) by (pose proof (len_enc_string_le d); change (enc_value TBytes (VBytes d)) with (enc_string d); lia).
  destruct (EncodeToBytes_spec TBytes (VBytes d)) as [-> _]; [done|done|]. apply enc_string_ok; [done|lia].
Qed.

Lemma Address_Hash_inj a b : is_address a -> is_address b -> Address_Hash a = Address_Hash b -> a = b.
Proof.
  intros [La _] [Lb _]. unfold Address_Hash. rewrite !BytesToHash_pad by (rewrite ?La, ?Lb; done). unfold LeftPadBytes. rewrite La, Lb.
  change (HashLength <=? AddressLength) with false. cbv iota. apply app_inv_head.
Qed.

Lemma holds_mono n n' M w W : holds n M w W -> 0 <= n' <= n -> holds n' M w W.
Proof.
  intros [(m & Hl) (mr & Hr) Hp] Ln. split; [exists m; by eapply lholds_mono| |done]. exists mr. by eapply rholds_mono.
Qed.

(** Transferring a record that [from] may transfer. *)
Lemma step_move n M w L R C msg t r from :
  holds (n + 2) M w (mkAWorld L R C) -> 0 <= n -> from ∈ A -> recipient msg ∈ A -> is_hash t ->
  let h := data_hash (msg_data msg) in h ∈ H -> R h = Some r -> 0 <= a_contribution (L from) + 1000000000000000000 < 2 ^ 256 ->
  steps n M
    (to ← st_to msg; run_rec (rec_SetOwner h to);; run_rec (rec_AddTxHash h t);; to ← st_to msg; run (AddRecords to t);;
     run (RemoveRecords from t);; run (AddContribution from 1000000000000000000);; mret false) w
    (inr (false, mkAWorld (contribute from 1000000000000000000 L)
                   (rset h (mkRec (recipient msg) (rc_owner r) (rc_txs r ++ [t]) (rc_status r)) R) C)).
Proof.
  intros Hw Hn Ha Ht Hht h Hh Er Hc. eapply steps_bind; [by apply step_to|]. intros w1 _ H1.
  eapply (step_retarget (n + 1)); [by replace (n + 1 + 1) with (n + 2) by lia|done|exact Er|by apply HA|done|lia|]. intros w2 H2.
  eapply steps_bind; [by apply step_to|]. intros w3 _ H3.
  eapply steps_bind; [by apply step_add_record|]. intros w4 _ H4.
  eapply steps_bind; [by apply step_remove_record|]. intros w5 _ H5.
  eapply steps_bind; [by apply step_contribute|]. intros w6 _ H6. by apply steps_ret.
Qed.

Lemma step_data n M w L R C msg t :
  holds (n + 2) M w (mkAWorld L R C) -> 0 <= n -> n + 3 < 2 ^ 26 -> msg_within A H msg -> in_range A 1 L -> is_hash t ->
  steps n M (ApplyDataMessage t msg) w
    (match exec_data t msg (mkAWorld L R C) with inl e => inl e | inr W => inr (false, W) end).
Proof.
  intros Hw Hn Hn' (Hf & Ht & Hh & Bd & Ld & _) [Rg _] Hht. unfold ApplyDataMessage, exec_data. cbn [aw_ledger].
  pose proof (data_hash_ok _ Bd Ld) as Hdh. set (h := data_hash (msg_data msg)) in *. set (from := msg_from msg) in *.
  pose proof (step_preCheck (n + 2) M w L R C msg Hw Hf) as P. destruct (nonce_error msg L) as [e|]; [by eapply steps_fail|].
  eapply steps_bind; [exact P|]. intros w1 _ H1.
  eapply steps_bind; [by apply step_from|]. intros w2 _ H2. fold from.
  eapply steps_bind; [by apply step_nonce|]. intros w3 _ H3. destruct (holds_range _ _ _ _ _ _ _ H3 Hf) as (Rn & _ & Rc). destruct (Rg _ Hf) as [Rn' Rc'].
  eapply steps_bind; [apply step_bump; [done|done|lia]|]. intros w4 _ H4. cbn [on_ledger put_rec aw_ledger aw_records aw_candidates].
  assert (Ec : forall b, a_contribution (bump from L b) = a_contribution (L b)) by (intros b; unfold bump, lset; by destruct (decide _) as [->|]).
  destruct (msg_type msg =? ConfirmationData).
  { eapply steps_bind; [by apply step_exist|]. intros w5 _ H5. destruct (R h) as [r|] eqn:Er; [apply steps_throw|]. cbn [bool_decide is_Some_dec].
    eapply (step_confirm (n + 2)); [exact H5|done|done|by apply HA|done|lia|]. intros w6 H6. eapply holds_mono in H6; [|instantiate (1 := n + 1); lia].
    eapply steps_bind; [apply step_add_record; done|]. intros w7 _ H7.
    eapply steps_bind; [apply step_contribute; [done|done|rewrite Ec; lia]|]. intros w8 _ H8. by apply steps_ret. }
  destruct (msg_type msg =? AuthorizationData) eqn:Ea.
  { apply Z.eqb_eq in Ea. rewrite Ea. apply steps_ret. eapply holds_mono; [done|lia]. }
  destruct (msg_type msg =? TransferData).
  2:{ apply steps_ret. eapply holds_mono; [done|lia]. }
  eapply steps_bind; [by apply step_owner|]. intros w5 _ H5.
  destruct (R h) as [r|] eqn:Er.
  - assert (Ow : is_address (rc_owner r)) by (destruct H5 as [_ (mr & Hr) _]; by destruct (rholds_ok _ _ _ _ _ _ Hr Hh Er)).
    destruct (decide (rc_owner r = from)) as [Eo|No].
    + rewrite Eo, !bool_decide_eq_true_2 by done. cbn [negb andb].
      eapply steps_bind; [by apply step_status|]. intros w6 _ H6. rewrite Er. destruct (rc_status r =? 0); [|apply steps_throw]. cbn [negb].
      pose proof (step_move n M w6 (bump from L) R C msg t r from H6 Hn Hf Ht Hht Hh Er ltac:(rewrite Ec; lia)) as Q. rewrite Eo in Q. exact Q.
    + rewrite (bool_decide_eq_false_2 (rc_owner r = from)) by done. cbn [andb].
      rewrite bool_decide_eq_false_2; [apply steps_throw|]. intros F. apply No. apply Address_Hash_inj; [done|by apply HA|done].
  - case_bool_decide; [|apply steps_throw]. cbn [negb]. eapply steps_bind; [by apply step_status|]. intros w6 _ H6. rewrite Er. apply steps_throw.
Qed.

(** ** Lemmas: transactions *)

Lemma step_poc n M w W msg :
  holds n M w W -> is_address (msg_from msg) -> msg_type msg = LoginCandidate \/ msg_type msg = LogoutCandidate ->
  steps n M (applyPocMessage db msg) w (inr (tt, exec_poc msg W)).
Proof.
  intros [Hl Hr (pc & m & Ep & Hp & Hc)] Ha Ht.
  destruct Ht as [Ht|Ht]; unfold applyPocMessage, exec_poc; cbv zeta; rewrite Ht.
  - destruct (BecomeCandidate_holds db pc _ _ _ Hp Hc Ha) as (pc' & m' & E & Hp' & Hc' & _).
    exists (set_w_poc pc' w), (inr tt). cbn. rewrite Ep, E. split; [done|]. split; [done|]. split; [done|]. split; [done..|]. by exists pc', m'.
  - destruct (KickoutCandidate_holds db pc _ _ _ Hp Hc Ha) as (pc' & m' & E & Hp' & Hc' & _).
    exists (set_w_poc pc' w), (inr tt). cbn. rewrite Ep, E. split; [done|]. split; [done|]. split; [done|]. split; [done..|]. by exists pc', m'.
Qed.

Lemma step_dispatch n M w L R C msg t :
  holds (n + 2) M w (mkAWorld L R C) -> 0 <= n -> n + 3 < 2 ^ 26 -> msg_within A H msg -> in_range A 1 L -> is_hash t ->
  steps n M (dispatch db t msg) w
    (match exec t msg (mkAWorld L R C) with inl e => inl e | inr W => inr (false, W) end).
Proof.
  intros Hw Hn Hn' Wm Rg Ht. unfold dispatch, exec. pose proof (holds_mono _ n _ _ _ Hw ltac:(lia)) as Hw'.
  destruct (msg_type msg =? Binary); [by apply step_transfer|].
  destruct (_ || _ || _); [by apply step_data|].
  destruct (_ || _) eqn:E.
  - eapply steps_bind; [apply step_poc; [done|by apply HA, Wm|]|intros; by apply steps_ret].
    apply orb_true_iff in E as [E|E]; apply Z.eqb_eq in E; auto.
  - apply orb_false_iff in E as [E1 E2]. unfold exec_poc. rewrite E1, E2. by apply steps_ret.
Qed.

Section Commit.
Context (keysA : forall a b, a ∈ A -> b ∈ A -> tr_key a = tr_key b -> a = b).
Context (keysH : forall a b, a ∈ H -> b ∈ H -> tr_key a = tr_key b -> a = b).

(** The root of a trie that shows the ledger, and of one that shows the records. *)
Definition ledger_root (root : bytes) (L : ledger) : Prop := exists m, root = map_root m /\ forall a, a ∈ A -> tview m a = L a.
Definition records_root (root : bytes) (R : records) : Prop := exists m, root = map_root m /\ forall h, h ∈ H -> trecords m h = R h.

Lemma step_root n M w L R C :
  holds n M w (mkAWorld L R C) -> exists root, steps n M (ask (IntermediateRoot del)) w (inr (root, mkAWorld L R C)) /\ ledger_root root L.
Proof.
  intros [(m & Hl) Hr Hp]. destruct (IntermediateRoot_ledger del A keysA n m _ L Hl) as (s' & m' & E & Hl' & T & Fl & _).
  exists (map_root m'). split; [|by exists m']. exists (set_w_state s' w), (inr (map_root m')). unfold ask, call. rewrite E.
  split; [done|]. split; [done|]. split; [done|]. split; [by exists m'|done..].
Qed.

Lemma step_record_root n M w L R C b :
  holds n M w (mkAWorld L R C) -> exists root, steps n M (ask_rec (rec_IntermediateRoot b)) w (inr (root, mkAWorld L R C)) /\ records_root root R.
Proof.
  intros [Hl (m & Hr) Hp]. destruct (rec_IntermediateRoot_holds H keysH b n m _ R Hr) as (s' & m' & E & Hr' & T & _).
  exists (map_root m'). split; [|by exists m']. exists (set_w_records s' w), (inr (map_root m')). unfold ask_rec, call. rewrite E.
  split; [done|]. split; [done|]. split; [done|]. split; [done|by exists m'|done].
Qed.

(** The rules of a block: which flag its states are written with. *)
Definition rules_ok (config : ChainConfig) (number : option Z) : Prop :=
  IsEIP158 config number = del /\ (IsByzantium config number = true -> del = true).

(** The roots a receipt has. *)
Definition receipt_roots (config : ChainConfig) (number : option Z) (root rootRecord : bytes) (W : aworld) : Prop :=
  if IsByzantium config number then root = [] /\ rootRecord = []
  else ledger_root root (aw_ledger W) /\ records_root rootRecord (aw_records W).

Lemma step_write n M w L R C config number :
  holds n M w (mkAWorld L R C) -> rules_ok config number ->
  exists root rootRecord, steps n M (write_pending config number) w (inr ((root, rootRecord), mkAWorld L R C)) /\
    receipt_roots config number root rootRecord (mkAWorld L R C).
Proof.
  intros Hw [E158 Ebyz]. unfold write_pending, receipt_roots. destruct (IsByzantium config number).
  - pose proof (Ebyz eq_refl) as Ed. exists [], []. split; [|done].
    eapply (steps_bind n n _ _ _ _ tt (mkAWorld L R C)).
    { apply (steps_run n n M _ w _ L Hw (room _ _ _ _ Hw)). intros m s Hl. rewrite <- Ed.
      destruct (Finalise_ledger del A keysA n m s L Hl) as (s' & m' & E & Hl' & _ & Fl & _). exists s'. split; [done|]. split; [by exists m'|done]. }
    intros w1 _ H1. eapply (steps_bind n n _ _ _ _ tt (mkAWorld L R C)).
    { apply (steps_run_rec n n M _ w1 _ R H1 (room _ _ _ _ Hw)). intros m s Hr.
      destruct (rec_Finalise_holds H keysH true n m s R Hr) as (s' & m' & E & Hr' & _). exists s'. split; [done|]. by exists m'. }
    intros w2 _ H2. by apply steps_ret.
  - rewrite E158. destruct (step_root n M w L R C Hw) as (root & S1 & T1). pose proof S1 as (w1 & r1 & E1 & F1 & -> & H1).
    destruct (step_record_root n M w1 L R C del H1) as (rootRecord & S2 & T2). exists root, rootRecord. split; [|done].
    pose proof S2 as (w2 & r2 & E2 & F2 & -> & H2).
    exists w2, (inr (root, rootRecord)). unfold mbind, go_bind. rewrite E1, E2. split; [done|]. split; [by etrans|done].
Qed.

Lemma CreateBloom_ok rs : exists bloom, CreateBloom rs = Ok bloom /\ len bloom = BloomByteLength /\ bytes_ok bloom.
Proof.
  assert (Z0 : 0 <= 0 < 2 ^ BloomBitLength) by by vm_compute. destruct (CreateBloom_covers rs 0 Z0) as [R _].
  destruct (BytesToBloom_big _ R) as (b & E & Lb & Ob & _). by exists b.
Qed.

(** The hash that a transaction gets, and the message it stands for at a signer. *)
Definition txHash (tx : Transaction) : bytes := fst (Transaction.Hash tx).

Definition denotes (s : Signer) (tx : Transaction) (msg : Message) : Prop :=
  Validate tx = None /\ exists tx', AsMessage s tx = Ok (msg, tx').

Lemma Sender_hash s tx a tx' : Sender s tx = Ok (a, tx') -> tx_data tx' = tx_data tx /\ tx_hash tx' = tx_hash tx.
Proof.
  unfold Sender. destruct (tx_from tx) as [[s' a']|].
  - destruct (Signer_Equal s' s); [by intros [= <- <-]|]. destruct (Signer_Sender s tx); cbn; by intros [= <- <-].
  - destruct (Signer_Sender s tx); cbn; by intros [= <- <-].
Qed.

Lemma AsMessage_hash s tx msg tx' : AsMessage s tx = Ok (msg, tx') -> tx_data tx' = tx_data tx /\ tx_hash tx' = tx_hash tx.
Proof.
  unfold AsMessage. destruct (Sender s tx) as [[a tx1]|e| |] eqn:E; cbn [mbind outcome_bind]; try done. intros [= _ <-]. by eapply Sender_hash.
Qed.

Lemma Hash_data tx : tx_data (snd (Transaction.Hash tx)) = tx_data tx /\ tx_hash (snd (Transaction.Hash tx)) = Some (txHash tx) /\
  tx_from (snd (Transaction.Hash tx)) = tx_from tx.
Proof. unfold txHash, Transaction.Hash. destruct (tx_hash tx) as [h|] eqn:E; by rewrite ?E. Qed.

(** What a transaction stands for does not depend on its cached hash. *)
Lemma denotes_hashed s tx msg : denotes s tx msg -> denotes s (snd (Transaction.Hash tx)) msg.
Proof.
  intros (V & tx' & E). destruct (Hash_data tx) as (D & _ & F). split; [unfold Validate in *; by rewrite D|].
  unfold AsMessage, Sender in *. rewrite D, F. rewrite (Signer_Sender_data s (snd (Transaction.Hash tx)) tx D).
  destruct (tx_from tx) as [[s' a']|].
  - destruct (Signer_Equal s' s); [cbn in *; injection E as <- _; by eexists|].
    destruct (Signer_Sender s tx); cbn in *; try done. injection E as <- _. by eexists.
  - destruct (Signer_Sender s tx); cbn in *; try done. injection E as <- _. by eexists.
Qed.

(** The receipt of a transaction that was applied. *)
Record receipt_of (config : ChainConfig) (number : option Z) (h : bytes) (logs : list Log) (W : aworld) (rc : Receipt) : Prop := mkReceiptOf {
  ro_status : rc_Status rc = ReceiptStatusSuccessful;
  ro_hash : rc_TxHash rc = h;
  ro_logs : rc_Logs rc = logs;
  ro_bloom : CreateBloom [rc] = Ok (rc_Bloom rc);
  ro_roots : receipt_roots config number (rc_PostState rc) (rc_PostStateRecord rc) W
}.

Lemma step_transaction n M w L R C config header tx msg :
  holds (n + 2) M w (mkAWorld L R C) -> 0 <= n -> n + 3 < 2 ^ 26 -> rules_ok config (hd_Number header) ->
  denotes (MakeSigner config (hd_Number header)) tx msg -> is_hash (txHash tx) -> msg_within A H msg -> in_range A 1 L ->
  match exec (txHash tx) msg (mkAWorld L R C) with
  | inl e => exists w', ApplyTransaction db config header tx w = Ok (w', inl e) /\ wframe w' w
  | inr W' => exists w' rc tx', ApplyTransaction db config header tx w = Ok (w', inr (rc, tx')) /\ wframe w' w /\ holds n M w' W' /\
      tx_data tx' = tx_data tx /\ receipt_of config (hd_Number header) (txHash tx) (GetLogs (txHash tx) (w_state w)) W' rc
  end.
Proof.
  intros Hw Hn Hn' Rl (V & tx1 & Em) Hh Wm Rg. unfold ApplyTransaction. rewrite Em.
  destruct (AsMessage_hash _ _ _ _ Em) as [D1 H1].
  replace (Validate tx1) with (Validate tx) by (unfold Validate; by rewrite D1). rewrite V.
  assert (Et : Transaction.Hash tx1 = (txHash tx, snd (Transaction.Hash tx1))).
  { unfold txHash, Transaction.Hash. rewrite H1, D1. by destruct (tx_hash tx). }
  rewrite Et. set (h := txHash tx) in *. set (tx2 := snd (Transaction.Hash tx1)).
  assert (D2 : tx_data tx2 = tx_data tx) by (unfold tx2; destruct (Hash_data tx1) as (-> & _); done).
  pose proof (step_dispatch n M w L R C msg h Hw Hn Hn' Wm Rg Hh) as S1.
  destruct (exec h msg (mkAWorld L R C)) as [e|[L' R' C']].
  - destruct S1 as (w1 & r1 & E1 & F1 & ->). exists w1. unfold mbind, go_bind. by rewrite E1.
  - destruct S1 as (w1 & r1 & E1 & F1 & -> & Hw1).
    destruct (step_write n M w1 L' R' C' config (hd_Number header) Hw1 Rl) as (root & rr & (w2 & r2 & E2 & F2 & -> & Hw2) & Rt).
    set (lg := GetLogs h (w_state w)). assert (El : GetLogs h (w_state w2) = lg) by (unfold lg, GetLogs; by rewrite (proj1 F2), (proj1 F1)).
    set (rc0 := mkReceipt root rr ReceiptStatusSuccessful (zeros BloomByteLength) lg h (zeros AddressLength) None).
    destruct (CreateBloom_ok [rc0]) as (bloom & Eb & _).
    exists w2, (mkReceipt root rr ReceiptStatusSuccessful bloom lg h (zeros AddressLength) None), tx2.
    split; [|split; [by etrans|]; split; [done|]; split; [done|]; by split].
    unfold mbind, go_bind. rewrite E1, E2. cbn [gets]. rewrite El. unfold lift, NewReceipt. cbn [rc_PostState rc_PostStateRecord rc_Status rc_Bloom rc_ContractAddress rc_GasUsed].
    fold rc0. rewrite Eb. done.
Qed.

(** ** Lemmas: the specification *)

Lemma supply_contribute a v L : a ∈ A -> supply A (contribute a v L) = supply A L.
Proof. intros Ha. unfold contribute. rewrite supply_lset by done. cbn. lia. Qed.

Lemma supply_credit a v L : a ∈ A -> supply A (credit a v L) = supply A L + v.
Proof. intros Ha. unfold credit. rewrite supply_lset by done. cbn. lia. Qed.

Lemma supply_debit a v L : a ∈ A -> supply A (debit a v L) = supply A L - v.
Proof. intros Ha. unfold debit. rewrite supply_lset by done. cbn. lia. Qed.

(** The parts of an account that a change leaves. *)
Lemma credit_kept x v L a : a_nonce (credit x v L a) = a_nonce (L a) /\ a_contribution (credit x v L a) = a_contribution (L a).
Proof. unfold credit, lset. by destruct (decide _) as [->|]. Qed.

Lemma debit_kept x v L a : a_nonce (debit x v L a) = a_nonce (L a) /\ a_contribution (debit x v L a) = a_contribution (L a).
Proof. unfold debit, lset. by destruct (decide _) as [->|]. Qed.

Lemma contribute_kept x v L a : a_nonce (contribute x v L a) = a_nonce (L a) /\ a_balance (contribute x v L a) = a_balance (L a).
Proof. unfold contribute, lset. by destruct (decide _) as [->|]. Qed.

Lemma bump_nonce x L a : a_nonce (bump x L a) = a_nonce (L a) + (if decide (a = x) then 1 else 0).
Proof. unfold bump, lset. destruct (decide _) as [->|]; cbn; lia. Qed.

Lemma bump_contribution x L a : a_contribution (bump x L a) = a_contribution (L a).
Proof. unfold bump, lset. by destruct (decide _) as [->|]. Qed.

(** What a transaction does to an account: its nonce and contribution grow by bounded steps. *)
Definition grows (L L' : ledger) : Prop :=
  forall a, a_nonce (L a) <= a_nonce (L' a) <= a_nonce (L a) + 1 /\
    a_contribution (L a) <= a_contribution (L' a) <= a_contribution (L a) + 2000000000000000000.

Lemma exec_effect h msg L R C W' :
  exec h msg (mkAWorld L R C) = inr W' -> msg_from msg ∈ A -> recipient msg ∈ A ->
  grows L (aw_ledger W') /\ supply A (aw_ledger W') = supply A L.
Proof.
  intros E Hf Ht. unfold exec, exec_transfer, exec_data in E. cbn [aw_ledger] in E.
  destruct (_ =? Binary); [|destruct (_ || _ || _)].
  - destruct (nonce_error msg L); [done|]. destruct (_ <? _); [done|]. injection E as <-. cbn [on_ledger aw_ledger]. split.
    + intros a. destruct (credit_kept (recipient msg) (msg_amount msg) (debit (msg_from msg) (msg_amount msg) (bump (msg_from msg) L)) a) as [-> ->].
      destruct (debit_kept (msg_from msg) (msg_amount msg) (bump (msg_from msg) L) a) as [-> ->].
      rewrite bump_nonce, bump_contribution. destruct (decide _); lia.
    + rewrite supply_credit, supply_debit, supply_bump by done. lia.
  - destruct (nonce_error msg L); [done|].
    assert (G : forall v, 0 <= v <= 2000000000000000000 -> grows L (contribute (msg_from msg) v (bump (msg_from msg) L)) /\
      supply A (contribute (msg_from msg) v (bump (msg_from msg) L)) = supply A L).
    { intros v Hv. split; [|by rewrite supply_contribute, supply_bump]. intros a. unfold contribute, bump, lset. repeat destruct (decide _); subst; cbn; lia. }
    cbn [on_ledger aw_records] in E. destruct (_ =? ConfirmationData); [destruct (R _); [done|]; injection E as <-; apply G; lia|].
    destruct (_ =? TransferData); [|injection E as <-; split; [|by apply supply_bump]; intros a; cbn; unfold bump, lset; destruct (decide _); subst; cbn; lia].
    destruct (R _); [|done]. destruct (_ && _); [|done]. injection E as <-. apply G. lia.
  - injection E as <-. unfold exec_poc. split; [|by repeat destruct (_ =? _)]. intros a. repeat destruct (_ =? _); cbn; lia.
Qed.

Lemma in_range_step k L L' : grows L L' -> supply A L' = supply A L -> in_range A (k + 1) L -> in_range A k L'.
Proof.
  intros G S [Rg Rs]. split; [|by rewrite S]. intros a Ha. destruct (Rg a Ha) as [R1 R2]. destruct (G a) as [G1 G2]. lia.
Qed.

Lemma in_range_mono k k' L : in_range A k L -> 0 <= k' <= k -> in_range A k' L.
Proof. intros [Rg Rs] Hk. split; [|done]. intros a Ha. destruct (Rg a Ha). lia. Qed.

(** The receipts of a block: each commits to the world after its transaction. *)
Fixpoint receipts_of (config : ChainConfig) (number : option Z) (logs_of : bytes -> list Log) (l : list (bytes * Message)) (W : aworld)
  (rcs : list Receipt) : Prop :=
  match l, rcs with
  | [], [] => True
  | (h, msg) :: l, rc :: rcs =>
    match exec h msg W with
    | inr W' => receipt_of config number h (logs_of h) W' rc /\ receipts_of config number logs_of l W' rcs
    | inl _ => False
    end
  | _, _ => False
  end.

(** The transactions of a block with the hashes and messages they stand for. *)
Definition means (s : Signer) (tx : Transaction) (hm : bytes * Message) : Prop :=
  fst hm = txHash tx /\ is_hash (fst hm) /\ denotes s tx (snd hm) /\ msg_within A H (snd hm).

Lemma rholds_prepare n m s R th bh i : rholds H n m s R -> rholds H n m (rec_Prepare th bh i s) R.
Proof. intros [[W T O D C Rm] V]. split; [by split|done]. Qed.

Lemma step_prepare n M w L R C th bh i :
  holds n M w (mkAWorld L R C) ->
  exists w', (run (fun s => Ok (StateDB.Prepare th bh i s));; run_rec (fun s => Ok (rec_Prepare th bh i s))) w = Ok (w', inr tt) /\
    wframe w' w /\ holds n M w' (mkAWorld L R C).
Proof.
  intros [(m & Hl) (mr & Hr) Hp]. eexists. split; [reflexivity|]. split; [done|].
  split; [exists m; by apply Prepare_ledger|exists mr; by apply rholds_prepare|done].
Qed.

(** ** Lemmas: the transactions of a block *)

Lemma receipts_of_ext config number f g l : (forall x, f x = g x) -> forall W rcs, receipts_of config number f l W rcs -> receipts_of config number g l W rcs.
Proof.
  intros E. induction l as [|[h msg] l IH]; intros W [|rc rcs]; try done. cbn [receipts_of]. destruct (exec h msg W); [done|].
  intros [Rc Rcs]. split; [by rewrite <- E|by apply IH].
Qed.

Lemma step_process config bh header txs : forall l n M w L R C i,
  holds (n + 2 * len txs) M w (mkAWorld L R C) -> 0 <= n -> n + 2 * len txs + 1 < 2 ^ 26 -> rules_ok config (hd_Number header) ->
  Forall2 (means (MakeSigner config (hd_Number header))) txs l -> in_range A (len txs) L ->
  match exec_all l (mkAWorld L R C) with
  | inl e => exists w', process_loop db config bh header i txs w = Ok (w', inl e)
  | inr W' => exists w' rcs lg txs', process_loop db config bh header i txs w = Ok (w', inr (rcs, lg, txs')) /\ wframe w' w /\ holds n M w' W' /\
      map tx_data txs' = map tx_data txs /\ lg = concat (map rc_Logs rcs) /\
      receipts_of config (hd_Number header) (fun h => GetLogs h (w_state w)) l (mkAWorld L R C) rcs
  end.
Proof.
  induction txs as [|tx txs IH]; intros l n M w L R C i Hw Hn Hn' Rl F Rg; inversion F as [|? [h msg] ? l' (Eh & Hh & De & Wm) F']; subst.
  { cbn [exec_all process_loop]. exists w, [], [], []. rewrite len_nil in *. replace (n + 2 * 0) with n in Hw by lia. done. }
  rewrite len_cons in *. pose proof (len_nonneg txs). cbn [fst snd] in *. cbn [exec_all process_loop].
  destruct (Hash_data tx) as (D1 & H1 & _). rewrite (surjective_pairing (Transaction.Hash tx)). fold (txHash tx). rewrite <- Eh.
  set (tx1 := snd (Transaction.Hash tx)) in *.
  destruct (step_prepare _ _ _ _ _ _ h bh i Hw) as (w1 & E1 & F1 & Hw1).
  unfold mbind, go_bind in E1 |- *. destruct (run _ w) as [[w0 [e|[]]]|e| |]; try done. rewrite E1.
  assert (Eh1 : txHash tx1 = h) by (unfold txHash, Transaction.Hash; rewrite H1; done).
  pose proof (step_transaction (n + 2 * len txs) M w1 L R C config header tx1 msg) as S1. rewrite Eh1 in S1.
  specialize (S1 ltac:(by replace (n + 2 * len txs + 2) with (n + 2 * (1 + len txs)) by lia) ltac:(lia) ltac:(lia) Rl
    (denotes_hashed _ _ _ De) Hh Wm (in_range_mono _ 1 L Rg ltac:(lia))).
  destruct (exec h msg (mkAWorld L R C)) as [e|[L' R' C']] eqn:Ee.
  { destruct S1 as (w2 & E2 & _). rewrite E2. by exists w2. }
  destruct S1 as (w2 & rc & tx2 & E2 & F2 & Hw2 & D2 & Rc). rewrite E2.
  destruct (exec_effect h msg L R C _ Ee (proj1 Wm) (proj1 (proj2 Wm))) as [Gr Su]. cbn [aw_ledger] in Gr, Su.
  pose proof (IH l' n M w2 L' R' C' (i + 1) Hw2 Hn ltac:(lia) Rl F') as S3.
  specialize (S3 (in_range_step _ L L' Gr Su ltac:(by replace (len txs + 1) with (1 + len txs) by lia))).
  destruct (exec_all l' (mkAWorld L' R' C')) as [e|W'].
  { destruct S3 as (w3 & ->). by exists w3. }
  destruct S3 as (w3 & rcs & lg & txs' & -> & F3 & Hw3 & D3 & -> & Rcs).
  exists w3, (rc :: rcs), (concat (map rc_Logs (rc :: rcs))), (tx2 :: txs'). split; [done|]. split; [by do 2 etrans|]. split; [done|].
  split; [cbn [map]; by rewrite D2, D1, D3|]. split; [done|]. cbn [receipts_of]. rewrite Ee.
  assert (Lg : forall w', wframe w' w -> forall x, GetLogs x (w_state w') = GetLogs x (w_state w)) by (intros w' [Fl _] x; unfold GetLogs; by rewrite Fl).
  split; [by rewrite <- (Lg w1 F1)|]. eapply receipts_of_ext; [|exact Rcs].
  apply Lg. by etrans.
Qed.

(** ** Lemmas: the end of a block *)

Section Block.
Context (fuel : nat).

(** What the end of a block needs: its parent and the genesis block are known and have times,
    the tries of the consensus context can be walked, and enough candidates are registered. *)
Record block_ready (chain : ChainReader) (header : Header) (M : pc_maps) (C : gset bytes) (g p : Header) (tg tp t : Z) : Prop := mkReady {
  br_genesis : GetHeaderByNumber chain 0 = Some g;
  br_parent : GetHeaderByHash chain (hd_ParentHash header) = Some p;
  br_times : hd_Time g = Some tg /\ hd_Time p = Some tp /\ hd_Time header = Some t;
  br_first : forall h, GetHeaderByNumber chain 1 = Some h -> is_Some (hd_Time h);
  br_candidates : iterable fuel C /\ (safeSize <= size C)%nat /\ Z.of_nat (size C) < 2 ^ 24 /\ C ⊆ A;
  br_mint : mint_ok (pm_mintCnt M) /\ map_root (pm_mintCnt M) <> emptyState /\ enough fuel (pm_mintCnt M);
  br_validators : exists vs, stored_validators vs M /\ addresses_ok vs /\ vs <> [];
  br_small : pc_small M;
  br_validator : is_address (hd_Validator header)
}.

Definition contribution_in (L : ledger) (a : bytes) : Z := a_contribution (L a).

(** What [election] says does not depend on the map of the candidates before it. *)
Lemma election_candidate w tfb tg tp now mc M C M' C' :
  election w tfb tg tp now (set_candidate_map mc M) C M' C' -> election w tfb tg tp now M C M' C'.
Proof. by destruct M. Qed.

Lemma step_elect n M w L R C chain header g p tg tp t :
  holds n M w (mkAWorld L R C) -> block_ready chain header M C g p tg tp t ->
  exists w' M' C', elect fuel db (Some g) (Some p) (big_Int64 t) w = Ok (w', inr tt) /\ wframe w' w /\
    holds n M' w' (mkAWorld L R C') /\ pc_small M' /\
    election (contribution_in L) (timeOfFirstBlock w) (big_Int64 tg) (big_Int64 tp) (big_Int64 t) M C M' C'.
Proof.
  intros [(m & Hl) Hr (pc & mc & Ep & Hp & Hc)] [_ _ (Tg & Tp & Tt) _ (IC & Sz & Sz' & SA) (Mk & NE & Hf) Sv Sm _].
  cbn [aw_ledger aw_records aw_candidates] in *.
  set (J := fun s : StateDB => lholds del A n m s L /\ logs s = logs (w_state w)). set (U := fun a : bytes => a ∈ A).
  set (wt := contribution_in L).
  assert (CJ : contributions J U wt (w_state w)).
  { split; [done|]. intros s a [Hs Fs] _ Ua. destruct (GetContribution_ledger del A m n a s L Hs Ua) as (s' & E & Hs' & F').
    exists s'. split; [done|]. split; [done|]. rewrite <- Fs. apply F'. }
  assert (EH : ec_holds J U db (set_candidate_map mc M) wt (mkEpochContext (big_Int64 t) pc (Some (w_state w)))) by (split; [done|by exists (w_state w)]).
  assert (Wok : weights_ok U wt C).
  { intros a Ha. split; [|by apply SA]. apply (lholds_range del A m n a (w_state w) L Hl), SA, Ha. }
  destruct (tryElect_holds J U fuel db (timeOfFirstBlock w) g p tg tp _ _ wt C EH Hc IC Wok Sz ltac:(lia) Mk NE Hf Tg Tp Sv)
    as (ec' & M' & C' & E & [Hp' (s' & Es & [[Hl' Fl'] _])] & El & Sm').
  unfold elect. rewrite Ep, E. cbn [mbind outcome_bind]. eexists _, M', C'. split; [reflexivity|]. rewrite Es. cbn [default set_w_state set_w_poc w_state].
  split; [done|]. split; [|split; [|by eapply election_candidate]].
  - split; [by exists m|done|]. exists (ec_PocContext ec'), (pm_candidate M'). split; [done|]. split; [by destruct M'|apply El].
  - apply Sm'; [|done]. apply candidate_small; [done|by eapply candidates_small].
Qed.

(** The time of the first block as [Finalize] knows it. *)
Definition first_time (chain : ChainReader) (w : world) : Z :=
  if timeOfFirstBlock w =? 0 then
    match GetHeaderByNumber chain 1 with
    | Some h => match hd_Time h with Some t => big_Int64 t | None => 0 end
    | None => timeOfFirstBlock w
    end
  else timeOfFirstBlock w.

Lemma step_first chain w :
  (forall h, GetHeaderByNumber chain 1 = Some h -> is_Some (hd_Time h)) ->
  read_first_block chain w = Ok (set_w_first (first_time chain w) w, inr tt).
Proof.
  intros Hf. unfold read_first_block, first_time, time_of, mbind, go_bind. cbn [gets]. destruct (timeOfFirstBlock w =? 0); [|by destruct w].
  destruct (GetHeaderByNumber chain 1) as [h|] eqn:E; [|by destruct w]. destruct (Hf h eq_refl) as [t Et]. by rewrite Et.
Qed.

(** Items that the hash of a list accepts. *)
Definition txs_ok (txs : list Transaction) : Prop :=
  len txs < 2 ^ 64 /\ Forall (fun tx => tx_ok (tx_data tx) /\ item_ok (enc_tx (tx_data tx))) txs.

Lemma get_rlps_ok {X} (e : X -> outcome rlp_error bytes) (f : X -> bytes) l :
  Forall (fun x => e x = Ok (f x) /\ item_ok (f x)) l -> get_rlps e l = Ok (map f l) /\ Forall item_ok (map f l).
Proof.
  induction 1 as [|x l [E I] _ [IH F]]; [done|]. cbn [get_rlps map]. rewrite E, IH. split; [done|by constructor].
Qed.

Lemma len_map {X Y} (f : X -> Y) l : len (map f l) = len l.
Proof. unfold len. by rewrite length_map. Qed.

Lemma txs_sha_ok txs : txs_ok txs -> exists h, txs_sha txs = Ok h.
Proof.
  intros [Ln F]. unfold txs_sha. destruct (get_rlps_ok Transactions_GetRlp (fun tx => enc_tx (tx_data tx)) txs) as [-> I].
  - eapply Forall_impl; [|exact F]. intros tx [Ht Hi]. split; [|done].
    apply EncodeToBytes_spec; [by apply rt_wt, rt_txdata|by apply len_enc_tx].
  - cbn [mbind outcome_bind]. eexists. apply DeriveSha_root; [by rewrite len_map|done].
Qed.

(** Receipts without logs. *)
Definition plain_receipt (rc : Receipt) : Prop :=
  rc_Logs rc = [] /\ rc_Status rc = ReceiptStatusSuccessful /\ (rc_PostState rc = [] \/ is_hash (rc_PostState rc)) /\
  len (rc_Bloom rc) = BloomByteLength /\ bytes_ok (rc_Bloom rc).

Lemma plain_receipt_item rc : plain_receipt rc ->
  Receipts_GetRlp rc = Ok (enc_value receiptRLP_type (receiptRLP_val rc)) /\ item_ok (enc_value receiptRLP_type (receiptRLP_val rc)).
Proof.
  intros (El & Es & Ep & Lb & Ob).
  assert (Hs : bytes_ok (statusEncoding rc) /\ len (statusEncoding rc) <= 32).
  { unfold statusEncoding. rewrite Es. destruct Ep as [->|[Lh Oh]]; [split; [constructor; [done|constructor]|by vm_compute]|].
    destruct (rc_PostState rc); [split; [constructor; [done|constructor]|by vm_compute]|]. split; [done|]. unfold HashLength in Lh. lia. }
  destruct Hs as [Os Ls]. change BloomByteLength with 256 in Lb.
  assert (Ee : enc_value receiptRLP_type (receiptRLP_val rc) = enc_list (enc_string (statusEncoding rc) ++ enc_string (rc_Bloom rc) ++ [0xC0])).
  { unfold receiptRLP_type, receiptRLP_val. rewrite El. done. }
  pose proof (len_enc_string_le (statusEncoding rc) ltac:(lia)). pose proof (len_enc_string_le (rc_Bloom rc) ltac:(lia)).
  set (c := enc_string _ ++ _) in Ee. assert (Lc : len c <= 400) by (unfold c; rewrite !len_app, len_cons, len_nil; lia).
  pose proof (len_enc_list_le c ltac:(lia)). pose proof (len_nonneg c).
  assert (Oc : bytes_ok c).
  { unfold c. rewrite !bytes_ok_app. split; [apply enc_string_ok; [done|lia]|]. split; [apply enc_string_ok; [done|lia]|]. constructor; [done|constructor]. }
  split.
  - apply EncodeToBytes_spec; [|rewrite Ee; lia]. apply rt_wt. unfold receiptRLP_type, receiptRLP_val. rewrite El.
    apply rt_struct_cons; [done|done|]. apply rt_struct_cons; [done|apply rt_byte_array; [done|done|lia]|].
    apply rt_struct_cons; [done|by apply rt_slice|apply rt_struct_nil].
  - rewrite Ee. split; [|split; [by apply enc_list_ok; [|lia]|lia]]. intros F. rewrite F, len_nil in *. lia.
Qed.

Lemma receipts_sha_ok rcs : len rcs < 2 ^ 64 -> Forall plain_receipt rcs -> exists h, receipts_sha rcs = Ok h.
Proof.
  intros Ln F. unfold receipts_sha. destruct (get_rlps_ok Receipts_GetRlp (fun rc => enc_value receiptRLP_type (receiptRLP_val rc)) rcs) as [-> I].
  - eapply Forall_impl; [|exact F]. apply plain_receipt_item.
  - cbn [mbind outcome_bind]. eexists. apply DeriveSha_root; [by rewrite len_map|done].
Qed.

Lemma NewBlock_ok header txs uncles rcs :
  txs_ok txs -> len rcs < 2 ^ 64 -> Forall plain_receipt rcs ->
  exists b, NewBlock header txs uncles rcs = Ok b /\ hd_Root (b_header b) = hd_Root header /\ hd_RecordRoot (b_header b) = hd_RecordRoot header /\
    (forall p, hd_PocContext header = Some p -> hd_PocContext (b_header b) = Some p) /\ b_transactions b = txs.
Proof.
  intros Ht Lr Hr. unfold NewBlock.
  assert (E1 : exists h, match txs with [] => EmptyRootHash | _ => txs_sha txs end = Ok h).
  { destruct txs; [eexists; apply DeriveSha_root; [done|constructor]|by apply txs_sha_ok]. }
  assert (E2 : exists h, match rcs with [] => EmptyRootHash | _ => receipts_sha rcs end = Ok h).
  { destruct rcs; [eexists; apply DeriveSha_root; [done|constructor]|by apply receipts_sha_ok]. }
  assert (E3 : exists h, match rcs with [] => Ok (hd_Bloom (CopyHeader header)) | _ => CreateBloom rcs end = Ok h).
  { destruct rcs; [by eexists|]. destruct (CreateBloom_ok (r :: rcs)) as (b & E & _). by eexists. }
  destruct E1 as (h1 & ->), E2 as (h2 & ->), E3 as (h3 & ->). cbn [mbind outcome_bind]. eexists. split; [reflexivity|].
  cbn. split; [done|]. split; [done|]. split; [|done]. by intros p ->.
Qed.

Lemma is_hash_map_root m : is_hash (map_root m).
Proof.
  unfold map_root, mroot. destruct (build m); first [exact is_hash_emptyRoot|split; [apply len_keccak|apply bytes_ok_keccak]].
Qed.

Lemma receipts_plain config number l : forall W rcs,
  receipts_of config number (fun _ => []) l W rcs -> Forall plain_receipt rcs /\ len rcs = len l /\ concat (map rc_Logs rcs) = [].
Proof.
  induction l as [|[h msg] l IH]; intros W [|rc rcs]; try done. cbn [receipts_of]. destruct (exec h msg W) as [e|W']; [done|].
  intros [[E1 E2 E3 E4 E5] Hr]. destruct (IH W' rcs Hr) as (F & Ln & Lg). split; [|split].
  - constructor; [|done]. split; [done|]. split; [done|]. split.
    + unfold receipt_roots in E5. destruct (IsByzantium _ _); [by left; destruct E5|]. right. destruct E5 as [(m & -> & _) _]. apply is_hash_map_root.
    + destruct (CreateBloom_ok [rc]) as (b & Eb & Lb & Ob). rewrite E4 in Eb. injection Eb as ->. done.
  - rewrite !len_cons. lia.
  - cbn [map concat]. by rewrite E3, Lg.
Qed.

(** The world after a block is finalized, with the time [first] of the first block: the
    reward is paid to the coinbase, the records stay, the validators and candidates are those
    of [election] by the contributions in the ledger, the mint count of the validator goes up
    and no other count changes. *)
Definition finalized (n : Z) (config : ChainConfig) (header : Header) (first tg tp t : Z) (M : pc_maps) (L : ledger) (R : records)
  (C : gset bytes) (w' : world) (M' : pc_maps) (C' : gset bytes) : Prop :=
  let L' := credit (hd_Coinbase header) (block_reward config header) L in
  let now := big_Int64 t in let v := hd_Validator header in
  holds n M' w' (mkAWorld L' R C') /\ timeOfFirstBlock w' = first /\
  (exists M1, election (contribution_in L') first (big_Int64 tg) (big_Int64 tp) now M C M1 C' /\ M' = set_mintCnt_map (pm_mintCnt M') M1) /\
  (C' ⊆ C /\ (safeSize <= size C')%nat /\ exists vs, stored_validators vs M' /\ addresses_ok vs /\ vs <> []) /\
  mint_of M' (epoch_of now) v = (if epoch_of (big_Int64 tp) =? epoch_of now then i64 (mint_of M (epoch_of now) v + 1) else 1) /\
  (forall e a, mint_key e a <> mint_key (epoch_of now) v -> mint_of M' e a = mint_of M e a).

Lemma step_finalize n M w L R C chain header txs uncles rcs g p tg tp t :
  let config := cr_Config chain in
  holds n M w (mkAWorld L R C) -> rules_ok config (hd_Number header) -> block_ready chain header M C g p tg tp t ->
  hd_Coinbase header ∈ A -> supply A L + block_reward config header < 2 ^ 256 ->
  txs_ok txs -> len rcs < 2 ^ 64 -> Forall plain_receipt rcs ->
  exists w' b M' C' root rr, Finalize fuel db chain header txs uncles rcs w = Ok (w', inr b) /\
    finalized n config header (first_time chain w) tg tp t M L R C w' M' C' /\
    NewBlock (set_proto (maps_proto M') (set_roots root rr header)) txs uncles rcs = Ok b /\
    ledger_root root (credit (hd_Coinbase header) (block_reward config header) L) /\ records_root rr R /\
    hd_Root (b_header b) = root /\ hd_RecordRoot (b_header b) = rr /\ hd_PocContext (b_header b) = Some (maps_proto M').
Proof.
  intros config Hw Rl Br Hc Hs Ht Lr Hr. pose proof Br as [Eg Ep (Tg & Tp & Tt) Hf Bc' _ Sv _ Hv].
  set (v := block_reward config header) in *. assert (Pv : 0 <= v) by (unfold v, block_reward; destruct (IsByzantium _ _); by vm_compute).
  assert (Bc : 0 <= a_balance (L (hd_Coinbase header)) + v < 2 ^ 256).
  { pose proof (balance_supply A L (hd_Coinbase header)) as B. pose proof (holds_range _ _ _ _ _ _ _ Hw Hc).
    specialize (B ltac:(intros b Hb; apply (holds_range _ _ _ _ _ _ b Hw Hb)) Hc). lia. }
  destruct (step_credit n M w L R C _ v Hw Hc Bc) as (w1 & r1 & E1 & F1 & -> & Hw1). set (L1 := credit (hd_Coinbase header) v L) in *.
  destruct (step_root n M w1 L1 R C Hw1) as (root & (w2 & r2 & E2 & F2 & -> & Hw2) & T1).
  destruct (step_record_root n M w2 L1 R C (IsEIP158 config (hd_Number header)) Hw2) as (rr & (w3 & r3 & E3 & F3 & -> & Hw3) & T2).
  pose proof (step_first chain w3 Hf) as E4. set (t1 := first_time chain w3) in *.
  assert (Et1 : t1 = first_time chain w) by (unfold t1, first_time; by rewrite (proj2 F3), (proj2 F2), (proj2 F1)).
  assert (Hw4 : holds n M (set_w_first t1 w3) (mkAWorld L1 R C)) by (destruct Hw3; by split).
  destruct (step_elect n M _ L1 R C chain header g p tg tp t Hw4 Br) as (w5 & M5 & C5 & E5 & F5 & Hw5 & Sm & El).
  pose proof (election_keeps _ _ _ _ _ _ _ _ _ El (proj1 (proj2 Bc')) Sv) as (SubC & Sz & Sv5). pose proof El as (HC5 & EM & _ & _).
  pose proof Hw5 as [Hl5 Hr5 (pc5 & m5 & Ep5 & Hp5 & Hc5)]. cbn [aw_ledger aw_records aw_candidates] in *.
  rewrite (candidates_unique m5 _ _ Hc5 HC5) in Hp5. replace (set_candidate_map (pm_candidate M5) M5) with M5 in Hp5 by (by destruct M5).
  destruct (br_mint _ _ _ _ _ _ _ _ _ Br) as (Mk & NE & Hm). rewrite <- EM in Mk, NE, Hm.
  destruct (updateMintCnt_holds fuel db (big_Int64 tp) (big_Int64 t) (hd_Validator header) pc5 M5 Hp5 Mk NE Hm Hv)
    as (pc6 & m6 & E6 & Hp6 & Mk6 & C6 & O6).
  destruct (ToProto_holds db pc6 (set_mintCnt_map m6 M5) Hp6 (mintCnt_small _ _ Sm (proj1 Mk6))) as (pc7 & E7 & Hp7 & _).
  set (M7 := set_mintCnt_map m6 M5) in *.
  destruct (NewBlock_ok (set_proto (maps_proto M7) (set_roots root rr header)) txs uncles rcs Ht Lr Hr) as (b & Eb & R1 & R2 & R3 & _).
  exists (set_w_poc pc7 w5), b, M7, C5, root, rr. split; [|split; [|do 5 (split; [done|]); by apply R3]].
  - unfold Finalize, AccumulateRewards, mbind, go_bind. fold config. fold v. rewrite E1. rewrite (proj1 Rl), E2.
    rewrite (proj1 Rl) in E3. rewrite E3. unfold time_of, mbind, go_bind. cbn [hd_Time set_roots hd_ParentHash hd_Validator]. rewrite Tt. cbn [deref mret go_ret].
    rewrite E4, Eg, Ep, E5. cbn [deref mret go_ret]. rewrite Tp. cbn [deref mret go_ret]. unfold count_mint. rewrite Ep5, E6. cbn [mbind outcome_bind map_err].
    unfold poc_proto. cbn [w_poc set_w_poc]. rewrite E7. cbn [mbind outcome_bind]. unfold lift. rewrite Eb. done.
  - split; [split; [done|done|]|].
    + exists pc7, (pm_candidate M7). split; [done|]. split; [by destruct M5|done].
    + rewrite <- Et1. split; [exact (proj2 F5)|]. split; [by exists M5|]. split; [by destruct Sv5 as (vs & Sv' & Av); split; [|split; [|exists vs]]|].
      cbv zeta. split; [rewrite C6; unfold mint_of; by rewrite EM|]. intros e a Ne. rewrite O6 by done. unfold mint_of. by rewrite EM.
Qed.

(** ** Lemmas: the DAO fork *)

(** Whether the block with a number is the one of the fork, and what the fork does first. *)
Definition dao_forks (config : ChainConfig) (number : option Z) : bool :=
  match DAOForkBlock config, number with Some f, Some n => DAOForkSupport config && (f =? n) | _, _ => false end.

Definition dao_ledger (config : ChainConfig) (number : option Z) (L : ledger) : ledger :=
  if dao_forks config number then drained DAODrainList L else L.

(** The accounts of the fork are known when it happens. *)
Definition dao_ready (config : ChainConfig) (number : option Z) : Prop :=
  is_Some number /\ (dao_forks config number = true -> dao_accounts ⊆ A).

Lemma step_dao n M w L R C config number :
  holds n M w (mkAWorld L R C) -> dao_ready config number -> supply A L < 2 ^ 256 ->
  steps n M (dao ← dao_block config number; if (dao : bool) then run ApplyDAOHardFork else mret tt) w (inr (tt, mkAWorld (dao_ledger config number L) R C)).
Proof.
  intros Hw [[k ->] HD] Hs. unfold dao_ledger, dao_block, dao_forks in *.
  assert (N : forall X : XM unit, X = mret tt -> steps n M X w (inr (tt, mkAWorld L R C))) by (intros X ->; by apply steps_ret).
  destruct (DAOForkBlock config) as [f|]; [|by apply N]. destruct (DAOForkSupport config); cbn [andb] in *; [|by apply N].
  match goal with |- steps _ _ _ _ ?r => change (steps n M (if f =? k then run ApplyDAOHardFork else mret tt) w r) end.
  destruct (f =? k); [|by apply N].
  apply (steps_run n n M _ w _ _ Hw (room _ _ _ _ Hw)). intros m s Hl.
  destruct (ApplyDAOHardFork_ledger del A n m s L Hl (HD eq_refl) Hs) as (s' & E & Hl' & F & _). exists s'. split; [done|]. split; [by exists m|apply F].
Qed.

Lemma dao_supply config number L : dao_ready config number -> supply A (dao_ledger config number L) = supply A L.
Proof.
  intros [_ HD]. unfold dao_ledger. destruct (dao_forks config number); [|done]. specialize (HD eq_refl).
  apply drained_supply; [exact DAODrainList_NoDup|exact DAORefundContract_kept|apply HD, dao_accounts_refund|].
  intros a Ha. by apply HD, dao_accounts_list.
Qed.

Lemma dao_in_range k config number L : dao_ready config number -> in_range A k L -> in_range A k (dao_ledger config number L).
Proof.
  intros Rd [Ra Rs]. split; [|by rewrite dao_supply]. intros a Ha. unfold dao_ledger. destruct (dao_forks config number); [|by apply Ra].
  destruct (drained_kept DAODrainList L a) as [-> ->]. by apply Ra.
Qed.

(** ** Lemmas: blocks *)

Lemma exec_all_supply l : forall W W',
  exec_all l W = inr W' -> Forall (fun hm => msg_within A H (snd hm)) l -> supply A (aw_ledger W') = supply A (aw_ledger W).
Proof.
  induction l as [|[h msg] l IH]; intros [L R C] W' E F; [by injection E as <-|]. apply Forall_cons_iff in F as [(Hf & Ht & _) F].
  cbn [exec_all snd] in *. destruct (exec h msg _) as [e|W1] eqn:E1; [done|]. rewrite (IH W1 W' E F). by apply (exec_effect h msg L R C).
Qed.

Lemma means_within s txs l : Forall2 (means s) txs l -> Forall (fun hm => msg_within A H (snd hm)) l.
Proof. induction 1 as [|tx hm txs l (_ & _ & _ & W) _ IH]; by constructor. Qed.

(** After a transaction that checks the nonce, the same message has a nonce too low. *)
Lemma exec_nonce h msg L R C W' :
  exec h msg (mkAWorld L R C) = inr W' -> msg_checkNonce msg = true ->
  msg_type msg = Binary \/ msg_type msg = ConfirmationData \/ msg_type msg = AuthorizationData \/ msg_type msg = TransferData ->
  nonce_error msg (aw_ledger W') = Some ErrNonceTooLow.
Proof.
  intros E Ck Ty.
  assert (Q : forall L', a_nonce (L' (msg_from msg)) = a_nonce (L (msg_from msg)) + 1 -> nonce_error msg L = None -> nonce_error msg L' = Some ErrNonceTooLow).
  { intros L' El En. unfold nonce_error in *. rewrite Ck in *. cbn [negb] in *. rewrite El.
    destruct (Z.ltb_spec (a_nonce (L (msg_from msg))) (msg_nonce msg)); [done|]. destruct (Z.ltb_spec (msg_nonce msg) (a_nonce (L (msg_from msg)))); [done|].
    rewrite (proj2 (Z.ltb_ge _ _)), (proj2 (Z.ltb_lt _ _)) by lia. done. }
  assert (B : forall L, a_nonce (bump (msg_from msg) L (msg_from msg)) = a_nonce (L (msg_from msg)) + 1) by (intros L0; rewrite bump_nonce; by rewrite decide_True).
  unfold exec, exec_transfer, exec_data in E. cbn [aw_ledger on_ledger put_rec aw_records] in E.
  destruct (nonce_error msg L) eqn:En.
  { destruct Ty as [Ty|[Ty|[Ty|Ty]]]; rewrite Ty in E; done. }
  destruct (msg_type msg =? Binary) eqn:Tb.
  { destruct (_ <? _); [done|]. injection E as <-. apply Q; [|done]. cbn [on_ledger aw_ledger].
    rewrite (proj1 (credit_kept _ _ _ _)), (proj1 (debit_kept _ _ _ _)). apply B. }
  replace ((msg_type msg =? ConfirmationData) || (msg_type msg =? AuthorizationData) || (msg_type msg =? TransferData)) with true in E
    by (destruct Ty as [Ty|[Ty|[Ty|Ty]]]; rewrite Ty in *; done).
  destruct (_ =? ConfirmationData).
  { destruct (R _); [done|]. injection E as <-. apply Q; [|done]. cbn. rewrite (proj1 (contribute_kept _ _ _ _)). apply B. }
  destruct (_ =? TransferData); [|injection E as <-; apply Q; [apply B|done]].
  destruct (R _); [|done]. destruct (_ && _); [|done]. injection E as <-. apply Q; [|done]. cbn. rewrite (proj1 (contribute_kept _ _ _ _)). apply B.
Qed.

(** ** Theorems *)

(** C7. A transaction refines its specification: on a world whose states hold a ledger, records
    and candidates, [ApplyTransaction] returns the error of the specification, or succeeds
    with a world that holds the specified ledger, records and candidates and a receipt whose
    roots (before Byzantium) are roots of tries that show them. *)
Theorem ApplyTransaction_refines n M w L R C config header tx msg :
  holds (n + 2) M w (mkAWorld L R C) -> 0 <= n -> n + 3 < 2 ^ 26 -> rules_ok config (hd_Number header) ->
  denotes (MakeSigner config (hd_Number header)) tx msg -> is_hash (txHash tx) -> msg_within A H msg -> in_range A 1 L ->
  match exec (txHash tx) msg (mkAWorld L R C) with
  | inl e => exists w', ApplyTransaction db config header tx w = Ok (w', inl e)
  | inr W' => exists w' rc tx', ApplyTransaction db config header tx w = Ok (w', inr (rc, tx')) /\ holds n M w' W' /\
      tx_data tx' = tx_data tx /\ receipt_of config (hd_Number header) (txHash tx) (GetLogs (txHash tx) (w_state w)) W' rc
  end.
Proof.
  intros Hw Hn Hn' Rl De Hh Wm Rg. pose proof (step_transaction n M w L R C config header tx msg Hw Hn Hn' Rl De Hh Wm Rg) as S.
  destruct (exec _ _ _) as [e|W']; [destruct S as (w' & E & _); by exists w'|].
  destruct S as (w' & rc & tx' & E & _ & Hw' & D & Rc). by exists w', rc, tx'.
Qed.

(** C26. No replay: once a transfer or a data transaction is applied, applying it again is
    refused because its nonce is too low. *)
Theorem ApplyTransaction_no_replay n M w L R C config header tx msg w' rc tx' :
  holds (n + 4) M w (mkAWorld L R C) -> 0 <= n -> n + 5 < 2 ^ 26 -> rules_ok config (hd_Number header) ->
  denotes (MakeSigner config (hd_Number header)) tx msg -> is_hash (txHash tx) -> msg_within A H msg -> in_range A 2 L ->
  msg_type msg = Binary \/ msg_type msg = ConfirmationData \/ msg_type msg = AuthorizationData \/ msg_type msg = TransferData ->
  ApplyTransaction db config header tx w = Ok (w', inr (rc, tx')) ->
  exists w'', ApplyTransaction db config header tx w' = Ok (w'', inl ErrNonceTooLow).
Proof.
  intros Hw Hn Hn' Rl De Hh Wm Rg Ty E.
  pose proof (step_transaction (n + 2) M w L R C config header tx msg ltac:(by replace (n + 2 + 2) with (n + 4) by lia) ltac:(lia) ltac:(lia) Rl De Hh Wm
    (in_range_mono 2 1 L Rg ltac:(lia))) as S.
  destruct (exec (txHash tx) msg (mkAWorld L R C)) as [e|[L' R' C']] eqn:Ee; [destruct S as (w1 & E1 & _); congruence|].
  destruct S as (w1 & rc1 & tx1 & E1 & _ & Hw1 & _). rewrite E in E1. injection E1 as <- <- <-.
  assert (Ck : msg_checkNonce msg = true) by (destruct De as (_ & tx1 & Em); unfold AsMessage in Em; destruct (Sender _ _) as [[a tx2]|e| |]; cbn in Em; try done; by injection Em as <- _).
  pose proof (exec_nonce _ _ _ _ _ _ Ee Ck Ty) as Ne. cbn [aw_ledger] in Ne.
  destruct (exec_effect _ _ _ _ _ _ Ee (proj1 Wm) (proj1 (proj2 Wm))) as [Gr Su]. cbn [aw_ledger] in Gr, Su.
  pose proof (step_transaction n M w' L' R' C' config header tx msg Hw1 Hn ltac:(lia) Rl De Hh Wm (in_range_step 1 L L' Gr Su Rg)) as S.
  assert (Ex : exec (txHash tx) msg (mkAWorld L' R' C') = inl ErrNonceTooLow).
  { unfold exec, exec_transfer, exec_data. cbn [aw_ledger]. rewrite Ne. destruct Ty as [Ty|[Ty|[Ty|Ty]]]; by rewrite Ty. }
  rewrite Ex in S. destruct S as (w'' & E'' & _). by exists w''.
Qed.

(** C37. Candidate transactions, and transactions of types the chain does not know, are replayed:
    whatever their nonce, [ApplyTransaction] applies them and leaves the ledger as it is, so
    that the same transaction can be applied again. *)
Theorem candidate_tx_replays n M w L R C config header tx msg :
  holds (n + 2) M w (mkAWorld L R C) -> 0 <= n -> n + 3 < 2 ^ 26 -> rules_ok config (hd_Number header) ->
  denotes (MakeSigner config (hd_Number header)) tx msg -> is_hash (txHash tx) -> msg_within A H msg -> in_range A 1 L ->
  msg_type msg = LoginCandidate \/ msg_type msg = LogoutCandidate \/ TransferData < msg_type msg ->
  exists w' rc tx' C', ApplyTransaction db config header tx w = Ok (w', inr (rc, tx')) /\ holds n M w' (mkAWorld L R C') /\
    C' = (if msg_type msg =? LoginCandidate then C ∪ {[msg_from msg]} else if msg_type msg =? LogoutCandidate then C ∖ {[msg_from msg]} else C).
Proof.
  intros Hw Hn Hn' Rl De Hh Wm Rg Ty. pose proof (step_transaction n M w L R C config header tx msg Hw Hn Hn' Rl De Hh Wm Rg) as S.
  unfold exec in S. replace (msg_type msg =? Binary) with false in S
    by (symmetry; apply Z.eqb_neq; unfold Binary, LoginCandidate, LogoutCandidate, TransferData in *; lia).
  replace ((msg_type msg =? ConfirmationData) || (msg_type msg =? AuthorizationData) || (msg_type msg =? TransferData)) with false in S
    by (symmetry; rewrite !orb_false_iff, !Z.eqb_neq; unfold LoginCandidate, LogoutCandidate, ConfirmationData, AuthorizationData, TransferData in *; lia).
  destruct S as (w' & rc & tx' & E & _ & Hw' & _). exists w', rc, tx'. eexists. split; [done|]. split; [|reflexivity].
  unfold exec_poc in Hw'. by repeat destruct (_ =? _).
Qed.

(** Transferring a record does not change its owner: a successful [TransferData] transaction
    replaces the origin of the record by the recipient and leaves the sender as its owner. *)
Theorem TransferData_keeps_owner n M w L R C config header tx msg w' rc tx' :
  holds (n + 2) M w (mkAWorld L R C) -> 0 <= n -> n + 3 < 2 ^ 26 -> rules_ok config (hd_Number header) ->
  denotes (MakeSigner config (hd_Number header)) tx msg -> is_hash (txHash tx) -> msg_within A H msg -> in_range A 1 L ->
  msg_type msg = TransferData -> ApplyTransaction db config header tx w = Ok (w', inr (rc, tx')) ->
  exists R' r, holds n M w' (mkAWorld (contribute (msg_from msg) 1000000000000000000 (bump (msg_from msg) L)) R' C) /\
    R' (data_hash (msg_data msg)) = Some r /\ rc_owner r = msg_from msg /\ rc_origin r = recipient msg.
Proof.
  intros Hw Hn Hn' Rl De Hh Wm Rg Ty E. pose proof (step_transaction n M w L R C config header tx msg Hw Hn Hn' Rl De Hh Wm Rg) as S.
  unfold exec, exec_data in S. rewrite Ty in S. cbn [aw_ledger on_ledger put_rec aw_records aw_candidates] in S.
  change (TransferData =? Binary) with false in S. change ((TransferData =? ConfirmationData) || (TransferData =? AuthorizationData) || (TransferData =? TransferData)) with true in S.
  cbv iota in S. destruct (nonce_error msg L); [destruct S as (? & ? & _); congruence|].
  change (TransferData =? ConfirmationData) with false in S. change (TransferData =? TransferData) with true in S. cbv iota in S.
  destruct (R _) as [r|]; [|destruct S as (? & ? & _); congruence].
  destruct (bool_decide (rc_owner r = msg_from msg)) eqn:Eo; [apply bool_decide_eq_true in Eo|destruct S as (? & ? & _); congruence].
  destruct (rc_status r =? 0); [|destruct S as (? & ? & _); congruence]. cbn [andb] in S.
  destruct S as (w1 & rc1 & tx1 & E1 & _ & Hw1 & _). rewrite E in E1. injection E1 as <- <- <-.
  eexists _, _. split; [exact Hw1|]. cbn [aw_records put_rec on_ledger]. unfold rset. rewrite decide_True by done. split; [reflexivity|]. done.
Qed.


(** C6. A block refines its specification: [Process] moves the balances of the DAO fork in the
    block of the fork, then fails with the first error of the transactions, or applies them
    all in order, pays the reward to the coinbase and, in a new epoch, elects the validators
    among the candidates the transactions leave.  The total of all balances then has grown by
    the block reward and nothing else, the receipts commit to the world after each
    transaction, and the gas used is zero. *)
Theorem Process_refines n M w L R C chain block l g p tg tp t :
  let config := cr_Config chain in let header := Block_Header block in let txs := b_transactions block in
  let L0 := dao_ledger config (hd_Number (b_header block)) L in
  holds (n + 2 * len txs) M w (mkAWorld L R C) -> 0 <= n -> n + 2 * len txs + 1 < 2 ^ 26 -> logs (w_state w) = ∅ ->
  rules_ok config (hd_Number header) -> dao_ready config (hd_Number (b_header block)) ->
  Forall2 (means (MakeSigner config (hd_Number header))) txs l -> txs_ok txs -> in_range A (len txs) L ->
  hd_Coinbase header ∈ A -> supply A L + block_reward config header < 2 ^ 256 ->
  (forall W', exec_all l (mkAWorld L0 R C) = inr W' -> block_ready chain header M (aw_candidates W') g p tg tp t) ->
  match exec_all l (mkAWorld L0 R C) with
  | inl e => exists w', Process fuel db config chain block w = Ok (w', inl e)
  | inr W' => exists w' rcs M' C', Process fuel db config chain block w = Ok (w', inr (rcs, [], 0)) /\
      finalized n config header (first_time chain w) tg tp t M (aw_ledger W') (aw_records W') (aw_candidates W') w' M' C' /\
      receipts_of config (hd_Number header) (fun _ => []) l (mkAWorld L0 R C) rcs /\
      supply A (credit (hd_Coinbase header) (block_reward config header) (aw_ledger W')) = supply A L + block_reward config header
  end.
Proof.
  intros config header txs L0 Hw Hn Hn' Lg Rl Dao F Ht Rg Hc Hs Br.
  destruct (step_dao _ M w L R C config _ Hw Dao (proj2 Rg)) as (w0 & r0 & E0 & F0 & -> & Hw0). fold L0 in Hw0.
  pose proof (dao_supply config _ L Dao) as S0. fold L0 in S0.
  pose proof (step_process config (fst (Block_Hash block)) header txs l n M w0 L0 R C 0 Hw0 Hn Hn' Rl F (dao_in_range _ _ _ _ Dao Rg)) as S.
  assert (P : Process fuel db config chain block w =
    ('(receipts, logs, txs) ← process_loop db config (fst (Block_Hash block)) header 0 txs;
     drop_error (Finalize fuel db chain header txs (b_uncles block) receipts);; mret (receipts, logs, 0)) w0).
  { unfold Process, mbind, go_bind in E0 |- *. destruct (dao_block config _ w) as [[w' [e|d]]|e| |]; try done. by rewrite E0. }
  rewrite P. destruct (exec_all l (mkAWorld L0 R C)) as [e|[L' R' C']] eqn:Ee.
  { destruct S as (w' & E). exists w'. unfold mbind, go_bind. by rewrite E. }
  destruct S as (w1 & rcs & lg & txs' & E1 & F1 & Hw1 & D1 & -> & Rcs).
  eapply (receipts_of_ext _ _ _ (fun _ => [])) in Rcs; [|intros h; unfold GetLogs; by rewrite (proj1 F0), Lg, lookup_empty].
  destruct (receipts_plain _ _ _ _ _ Rcs) as (Pl & Ll & El).
  pose proof (exec_all_supply l _ _ Ee (means_within _ _ _ F)) as Su. cbn [aw_ledger] in Su.
  assert (Lt : len l = len txs) by (unfold len; f_equal; symmetry; by eapply Forall2_length).
  assert (Ht' : txs_ok txs').
  { destruct Ht as [Ln Ft]. split; [unfold len in *; by rewrite <- (length_map tx_data), D1, length_map|].
    rewrite <- (Forall_map tx_data (fun d => tx_ok d /\ item_ok (enc_tx d))) in Ft |- *. by rewrite D1. }
  destruct (step_finalize n M w1 L' R' C' chain header txs' (b_uncles block) rcs g p tg tp t Hw1 Rl (Br _ eq_refl) Hc ltac:(fold config; lia) Ht')
    as (w2 & b & M' & C2 & _ & _ & E2 & Fz & _); [destruct Ht; lia|done|].
  replace (first_time chain w1) with (first_time chain w) in Fz by (unfold first_time; by rewrite (proj2 F1), (proj2 F0)).
  exists w2, rcs, M', C2. split; [|split; [exact Fz|split; [done|rewrite supply_credit by done; cbn [aw_ledger]; by rewrite Su, S0]]].
  unfold mbind, go_bind. rewrite E1. unfold drop_error. rewrite E2. cbn [mbind outcome_bind]. by rewrite El.
Qed.

End Block.
End Commit.
End Refinement.

(** ** Witnesses *)

#[local] Existing Instance sample_hasher.
#[local] Existing Instance toy_secp.
#[local] Instance sample_rand : GoRand.
Proof. refine {| Rand := unit; NewSource _ := tt; Int31n n r := (0, tt) |}. intros n r Hn. cbn. lia. Defined.

(** The sender of every transaction is the zero account under the toy functions. *)
Definition sample_sender : bytes := zeros AddressLength.
Definition sample_accounts : gset bytes := {[sample_sender]} ∪ four.
Definition sample_payload : bytes := [9; 8; 7].
Definition sample_records : gset bytes := {[data_hash sample_payload; data_hash []]}.

Definition sample_signed (txType nonce : Z) (amount : Z) (data : bytes) : Transaction :=
  let tx := newTransaction txType nonce (Some (cand 1)) (Some amount) (Some 0) (Some 0) data in
  match SignTx tx (MakeSigner sample_config (Some 1)) 11 with Ok tx => tx | _ => tx end.

Definition sample_message (txType nonce : Z) (amount : Z) (data : bytes) : Message :=
  mkMessage (Some (cand 1)) sample_sender nonce amount 0 0 data true txType.

Definition tx_pay : Transaction := Eval vm_compute in sample_signed Binary 0 3 [].
Definition tx_confirm : Transaction := Eval vm_compute in sample_signed ConfirmationData 1 0 sample_payload.
Definition tx_login : Transaction := Eval vm_compute in sample_signed LoginCandidate 7 0 [].
Definition tx_transfer : Transaction := Eval vm_compute in sample_signed TransferData 0 0 sample_payload.

Lemma sample_denotes :
  let s := MakeSigner sample_config (Some 1) in
  denotes s tx_pay (sample_message Binary 0 3 []) /\ denotes s tx_confirm (sample_message ConfirmationData 1 0 sample_payload) /\
  denotes s tx_login (sample_message LoginCandidate 7 0 []) /\ denotes s tx_transfer (sample_message TransferData 0 0 sample_payload).
Proof.
  assert (Q : forall s tx msg, Validate tx = None -> (match AsMessage s tx with Ok (m, _) => Some m | _ => None end) = Some msg -> denotes s tx msg).
  { intros s tx msg V E. split; [done|]. destruct (AsMessage s tx) as [[m tx']|e| |]; try done. injection E as ->. by exists tx'. }
  cbv zeta. split; [|split; [|split]]; apply Q; by vm_compute.
Qed.

Lemma sample_txHash tx : tx_hash tx = None -> is_hash (txHash tx).
Proof. intros E. unfold txHash, Transaction.Hash. rewrite E. apply keccak256_hash. Qed.

Lemma sample_accounts_ok a : a ∈ sample_accounts -> is_address a.
Proof.
  intros Ha. apply elem_of_union in Ha as [Ha|Ha]; [|by apply four_ok]. apply elem_of_singleton in Ha as ->. split; [done|apply bytes_ok_zeros].
Qed.

(** The toy hash is injective on strings of one length up to 32. *)
Lemma sample_hash_inj n a b : n <= 32 -> len a = n -> len b = n -> bytes_ok a -> bytes_ok b -> keccak256 a = keccak256 b -> a = b.
Proof.
  intros Hn La Lb Oa Ob E. change (be_fixed 32 (be_decode a) = be_fixed 32 (be_decode b)) in E.
  apply (f_equal be_decode) in E. rewrite !be_decode_fixed in E. change (256 ^ Z.of_nat 32) with (2 ^ 256) in E.
  assert (P : 256 ^ n <= 2 ^ 256) by (change (2 ^ 256) with (256 ^ 32); apply Z.pow_le_mono_r; lia).
  pose proof (be_decode_range a Oa) as Ba. pose proof (be_decode_range b Ob) as Bb. rewrite La in Ba. rewrite Lb in Bb.
  rewrite !Z.mod_small in E by lia. rewrite <- (be_fixed_decode a Oa), <- (be_fixed_decode b Ob), E. f_equal. unfold len in *. lia.
Qed.

Lemma sample_keys_accounts a b : a ∈ sample_accounts -> b ∈ sample_accounts -> tr_key a = tr_key b -> a = b.
Proof.
  intros Ha Hb. destruct (sample_accounts_ok a Ha) as [La Oa], (sample_accounts_ok b Hb) as [Lb Ob]. by apply (sample_hash_inj 20).
Qed.

Lemma sample_records_ok h : h ∈ sample_records -> is_hash h.
Proof.
  intros Hh. apply elem_of_union in Hh as [Hh|Hh]; apply elem_of_singleton in Hh as ->; apply data_hash_ok; first [done|repeat constructor; done].
Qed.

Lemma sample_keys_records a b : a ∈ sample_records -> b ∈ sample_records -> tr_key a = tr_key b -> a = b.
Proof.
  intros Ha Hb. destruct (sample_records_ok a Ha) as [La Oa], (sample_records_ok b Hb) as [Lb Ob]. by apply (sample_hash_inj 32).
Qed.

(** A balance of ten for the sender, no records, four candidates. *)
Definition sample_start : ledger := lset sample_sender (mkAcct 0 10 0) (fun _ => zero_acct).
Definition sample_world : aworld := mkAWorld sample_start (fun _ => None) four.

Lemma sample_sender_in : sample_sender ∈ sample_accounts.
Proof. apply elem_of_union_l, elem_of_singleton. done. Qed.

Lemma cand_in k : 1 <= k <= 4 -> cand k ∈ sample_accounts.
Proof.
  intros Hk. assert (k = 1 \/ k = 2 \/ k = 3 \/ k = 4) as [->|[->|[->| ->]]] by lia; apply (bool_decide_unpack _); by vm_compute.
Qed.

Lemma sample_holds n : 0 <= n < 2 ^ 26 ->
  exists w M, holds ∅ true sample_accounts sample_records n M w sample_world /\ logs (w_state w) = ∅ /\
    stored_validators three M /\ pm_mintCnt M = ∅ /\ pc_small M.
Proof.
  intros Hn. destruct (New_empty_ledger true sample_accounts n (mkCachingDB ∅ [])) as (s0 & E0 & _ & H0); [done|done|].
  assert (L0 : logs s0 = ∅).
  { unfold New in E0. destruct (OpenTrie _ _); cbn in E0; try done. by injection E0 as <-. }
  destruct (AddBalance_ledger true sample_accounts ∅ n sample_sender 10 s0 _ H0 sample_sender_in) as (s & _ & Hs & F); [cbn; lia|].
  destruct (NewRecord_empty sample_records n (mkCachingDB ∅ [])) as (r & _ & _ & Hr); [done|done|].
  destruct sample_poc as (pc & M & P & HC & Sv & Em & Sm).
  exists (mkWorld s r (Some pc) 0), M. split; [|split; [|done]].
  - split; [by exists ∅|by exists ∅|]. exists pc, (pm_candidate M). split; [done|]. split; [by destruct M|done].
  - cbn. rewrite <- L0. apply F.
Qed.

Lemma sample_within txType nonce amount data :
  data = [] \/ data = sample_payload -> 0 <= amount -> msg_within sample_accounts sample_records (sample_message txType nonce amount data).
Proof.
  intros Hd Ha. split; [apply sample_sender_in|]. split; [apply (cand_in 1); lia|]. cbn [sample_message msg_data msg_amount].
  destruct Hd as [->| ->]; (split; [|split; [|by split]]); try (repeat constructor; done).
Qed.

Lemma sample_supply : supply sample_accounts sample_start = 10.
Proof. unfold sample_start. rewrite supply_lset by apply sample_sender_in. by rewrite supply_zero. Qed.

Lemma sample_in_range k : 0 <= k < 100 -> in_range sample_accounts k sample_start.
Proof.
  intros Hk. split; [|by rewrite sample_supply]. intros a _. unfold sample_start, lset. destruct (decide _); cbn; lia.
Qed.

Lemma sample_rules : rules_ok true sample_config (Some 1).
Proof. done. Qed.

Definition sample_block_header : Header :=
  mkHeader (zeros 32) (zeros 32) (cand 2) (cand 1) (zeros 32) (zeros 32) (zeros 32) (zeros 32) None (zeros 256)
    (Some 1) (Some 1) (Some 0) (Some 0) (Some 400) [] (zeros 32) (zeros 8).
Definition sample_reader : ChainReader :=
  mkChainReader sample_config None (fun _ _ => None) (fun _ => Some (sample_times 0)) (fun _ => Some (sample_times 340)).

Lemma sample_ready M :
  stored_validators three M -> pm_mintCnt M = ∅ -> pc_small M ->
  block_ready sample_accounts 30 sample_reader sample_block_header M four (sample_times 0) (sample_times 340) 0 340 400.
Proof.
  intros Sv Em Sm. split; try done.
  - by intros h [= <-].
  - split; [exact iterable_four|]. rewrite size_four. split; [change safeSize with 3%nat; lia|]. split; [lia|]. intros a Ha. by apply elem_of_union_r.
  - rewrite Em. split; [exact mint_ok_empty|]. split; [by vm_compute|]. apply Nat.ltb_lt. by vm_compute.
  - exists three. split; [exact Sv|]. split; [exact three_ok|discriminate].
  - apply cand_ok. unfold byte_ok. lia.
Qed.

(** The outcomes of the samples. *)
Definition succeeds {E X} (r : E + X) : bool := match r with inr _ => true | inl _ => false end.

Lemma succeeds_inr {E X} (r : E + X) : succeeds r = true -> exists x, r = inr x.
Proof. destruct r as [e|x]; [done|]. by exists x. Qed.

Lemma ApplyTransaction_refines_witness :
  exists w w' rc tx', ApplyTransaction ∅ sample_config sample_block_header tx_pay w = Ok (w', inr (rc, tx')) /\ rc_TxHash rc = txHash tx_pay.
Proof.
  destruct (sample_holds 2) as (w & M & Hw & _); [lia|]. exists w.
  pose proof (ApplyTransaction_refines ∅ true sample_accounts sample_records sample_accounts_ok sample_keys_accounts sample_keys_records
    0 M w sample_start (fun _ => None) four sample_config sample_block_header tx_pay (sample_message Binary 0 3 []) Hw ltac:(lia) ltac:(lia)
    sample_rules (proj1 sample_denotes) (sample_txHash tx_pay eq_refl) (sample_within Binary 0 3 [] (or_introl eq_refl) ltac:(lia)) (sample_in_range 1 ltac:(lia))) as S.
  destruct (succeeds_inr (exec (txHash tx_pay) (sample_message Binary 0 3 []) sample_world)) as [W' Ex]; [by vm_compute|].
  unfold sample_world in Ex. rewrite Ex in S. destruct S as (w' & rc & tx' & E & _ & _ & [_ Eh _ _ _]). exists w', rc, tx'. split; [exact E|exact Eh].
Defined.

Lemma ApplyTransaction_no_replay_witness :
  exists w w' rc tx' w'', ApplyTransaction ∅ sample_config sample_block_header tx_pay w = Ok (w', inr (rc, tx')) /\
    ApplyTransaction ∅ sample_config sample_block_header tx_pay w' = Ok (w'', inl ErrNonceTooLow).
Proof.
  destruct (sample_holds 4) as (w & M & Hw & _); [lia|].
  pose proof (step_transaction ∅ true sample_accounts sample_records sample_accounts_ok sample_keys_accounts sample_keys_records
    2 M w sample_start (fun _ => None) four sample_config sample_block_header tx_pay (sample_message Binary 0 3 []) Hw ltac:(lia) ltac:(lia)
    sample_rules (proj1 sample_denotes) (sample_txHash tx_pay eq_refl) (sample_within Binary 0 3 [] (or_introl eq_refl) ltac:(lia)) (sample_in_range 1 ltac:(lia))) as S.
  destruct (succeeds_inr (exec (txHash tx_pay) (sample_message Binary 0 3 []) sample_world)) as [W' Ex]; [by vm_compute|].
  unfold sample_world in Ex. rewrite Ex in S. destruct S as (w' & rc & tx' & E & _).
  destruct (ApplyTransaction_no_replay ∅ true sample_accounts sample_records sample_accounts_ok sample_keys_accounts sample_keys_records
    0 M w sample_start (fun _ => None) four sample_config sample_block_header tx_pay (sample_message Binary 0 3 []) w' rc tx' Hw ltac:(lia) ltac:(lia)
    sample_rules (proj1 sample_denotes) (sample_txHash tx_pay eq_refl) (sample_within Binary 0 3 [] (or_introl eq_refl) ltac:(lia)) (sample_in_range 2 ltac:(lia))
    (or_introl eq_refl) E) as (w'' & E'').
  exists w, w', rc, tx', w''. split; [exact E|exact E''].
Defined.

(** The nonce of the transaction is seven, that of the account zero. *)
Lemma candidate_tx_replays_witness :
  exists w w' rc tx' M, ApplyTransaction ∅ sample_config sample_block_header tx_login w = Ok (w', inr (rc, tx')) /\
    holds ∅ true sample_accounts sample_records 0 M w' (mkAWorld sample_start (fun _ => None) (four ∪ {[sample_sender]})).
Proof.
  destruct (sample_holds 2) as (w & M & Hw & _); [lia|].
  destruct (candidate_tx_replays ∅ true sample_accounts sample_records sample_accounts_ok sample_keys_accounts sample_keys_records
    0 M w sample_start (fun _ => None) four sample_config sample_block_header tx_login (sample_message LoginCandidate 7 0 []) Hw ltac:(lia) ltac:(lia)
    sample_rules (proj1 (proj2 (proj2 sample_denotes))) (sample_txHash tx_login eq_refl) (sample_within LoginCandidate 7 0 [] (or_introl eq_refl) ltac:(lia))
    (sample_in_range 1 ltac:(lia)) (or_introl eq_refl)) as (w' & rc & tx' & C' & E & Hw' & EC).
  exists w, w', rc, tx', M. split; [exact E|]. rewrite EC in Hw'. exact Hw'.
Defined.

(** A world in which the sender owns the record of the payload. *)
Lemma sample_owned : exists w M L R C, holds ∅ true sample_accounts sample_records 2 M w (mkAWorld L R C) /\
  L = contribute sample_sender 2000000000000000000 (bump sample_sender sample_start) /\
  R = rset (data_hash sample_payload) (mkRec sample_sender sample_sender [txHash tx_confirm] 0) (fun _ => None) /\ C = four.
Proof.
  destruct (sample_holds 4) as (w & M & Hw & _); [lia|].
  pose proof (step_data ∅ true sample_accounts sample_records sample_accounts_ok 2 M w sample_start (fun _ => None) four
    (sample_message ConfirmationData 0 0 sample_payload) (txHash tx_confirm) Hw ltac:(lia) ltac:(lia) (sample_within ConfirmationData 0 0 sample_payload (or_intror eq_refl) ltac:(lia))
    (sample_in_range 1 ltac:(lia)) (sample_txHash tx_confirm eq_refl)) as S.
  unfold exec_data in S. replace (nonce_error _ _) with (@None exec_error) in S by (by vm_compute).
  destruct S as (w' & r & _ & _ & _ & Hw'). eexists w', M, _, _, _. split; [exact Hw'|done].
Qed.

Definition tx_move : Transaction := Eval vm_compute in sample_signed TransferData 1 0 sample_payload.

Lemma TransferData_keeps_owner_witness :
  exists w w' rc tx' M L R r, ApplyTransaction ∅ sample_config sample_block_header tx_move w = Ok (w', inr (rc, tx')) /\
    holds ∅ true sample_accounts sample_records 0 M w' (mkAWorld L R four) /\ R (data_hash sample_payload) = Some r /\
    rc_owner r = sample_sender /\ rc_origin r = cand 1.
Proof.
  destruct sample_owned as (w & M & L & R & C & Hw & EL & ER & EC).
  assert (Rg : in_range sample_accounts 1 L).
  { rewrite EL. split; [|rewrite supply_contribute, supply_bump by apply sample_sender_in; by rewrite sample_supply].
    intros a _. unfold contribute, bump, sample_start, lset. repeat destruct (decide _); cbn; lia. }
  assert (De : denotes (MakeSigner sample_config (hd_Number sample_block_header)) tx_move (sample_message TransferData 1 0 sample_payload)).
  { split; [by vm_compute|]. eexists. by vm_compute. }
  pose proof (step_transaction ∅ true sample_accounts sample_records sample_accounts_ok sample_keys_accounts sample_keys_records
    0 M w L R C sample_config sample_block_header tx_move (sample_message TransferData 1 0 sample_payload) Hw ltac:(lia) ltac:(lia)
    sample_rules De (sample_txHash tx_move eq_refl) (sample_within TransferData 1 0 sample_payload (or_intror eq_refl) ltac:(lia)) Rg) as S.
  destruct (succeeds_inr (exec (txHash tx_move) (sample_message TransferData 1 0 sample_payload) (mkAWorld L R C))) as [W' Ex];
    [rewrite EL, ER; by vm_compute|].
  rewrite Ex in S. destruct S as (w' & rc & tx' & E & _).
  destruct (TransferData_keeps_owner ∅ true sample_accounts sample_records sample_accounts_ok sample_keys_accounts sample_keys_records
    0 M w L R C sample_config sample_block_header tx_move (sample_message TransferData 1 0 sample_payload) w' rc tx' Hw ltac:(lia) ltac:(lia)
    sample_rules De (sample_txHash tx_move eq_refl) (sample_within TransferData 1 0 sample_payload (or_intror eq_refl) ltac:(lia)) Rg eq_refl E) as (R' & r & Hw' & Er & Eo & Eg).
  rewrite EC in Hw'. exists w, w', rc, tx', M. eexists _, R', r. split; [exact E|]. split; [exact Hw'|]. split; [exact Er|]. split; [exact Eo|exact Eg].
Defined.


(** A block with a payment and a confirmation. *)
Definition sample_full_block : Block := mkBlock sample_block_header [] [tx_pay; tx_confirm] None None None.
Definition sample_messages : list (bytes * Message) :=
  [(txHash tx_pay, sample_message Binary 0 3 []); (txHash tx_confirm, sample_message ConfirmationData 1 0 sample_payload)].

Lemma sample_tx_item tx : bool_decide (bytes_ok (enc_tx (tx_data tx))) && (0 <? len (enc_tx (tx_data tx))) && (len (enc_tx (tx_data tx)) <? 2 ^ 32) = true ->
  item_ok (enc_tx (tx_data tx)).
Proof.
  intros E. apply andb_prop in E as [E E3]. apply andb_prop in E as [E1 E2]. apply bool_decide_eq_true in E1. zbool.
  split; [|done]. intros F. rewrite F, len_nil in *. lia.
Qed.

Lemma sample_txs_ok : txs_ok [tx_pay; tx_confirm].
Proof.
  split; [done|].
  assert (Ra : forall a, Some (cand 1) = Some a -> is_address a) by (intros a [= <-]; apply cand_ok; unfold byte_ok; lia).
  constructor; [|constructor; [|constructor]]; (split; [|apply sample_tx_item; by vm_compute]).
  - do 4 (split; [by vm_compute|]). split; [exact Ra|]. split; [by vm_compute|]. split; [constructor|]. by vm_compute.
  - do 4 (split; [by vm_compute|]). split; [exact Ra|]. split; [by vm_compute|]. split; [repeat constructor; unfold byte_ok; lia|]. by vm_compute.
Qed.

Lemma sample_dao : dao_ready sample_accounts sample_config (Some 1).
Proof. split; [by exists 1|]. intros E. discriminate E. Qed.

Lemma Process_refines_witness :
  exists w w' rcs, Process 30 ∅ sample_config sample_reader sample_full_block w = Ok (w', inr (rcs, [], 0)).
Proof.
  destruct (sample_holds 4) as (w & M & Hw & Lg & Sv & Em & Sm); [lia|]. exists w.
  destruct sample_denotes as (D1 & D2 & _).
  assert (F : Forall2 (means sample_accounts sample_records (MakeSigner sample_config (Some 1))) [tx_pay; tx_confirm] sample_messages).
  { constructor; [|constructor; [|constructor]]; (split; [reflexivity|]; split; [by apply sample_txHash|]; split; [assumption|]); apply sample_within; [by left|lia|by right|lia]. }
  assert (Ec : match exec_all sample_messages sample_world with inr W' => aw_candidates W' = four | inl _ => False end) by (vm_compute; reflexivity).
  pose proof (Process_refines ∅ true sample_accounts sample_records sample_accounts_ok sample_keys_accounts sample_keys_records 30
    0 M w sample_start (fun _ => None) four sample_reader sample_full_block sample_messages (sample_times 0) (sample_times 340) 0 340 400
    Hw ltac:(lia) ltac:(by vm_compute) Lg sample_rules sample_dao F sample_txs_ok (sample_in_range 2 ltac:(lia)) (cand_in 1 ltac:(lia))
    ltac:(rewrite sample_supply; by vm_compute)) as P. cbv zeta in P.
  change (dao_ledger (cr_Config sample_reader) (hd_Number (b_header sample_full_block)) sample_start) with sample_start in P.
  unfold sample_world in Ec. destruct (exec_all sample_messages _) as [e|W']; [by destruct Ec|].
  destruct P as (w' & rcs & M' & C' & E & _).
  - intros W1 [= <-]. rewrite Ec. destruct (sample_ready M Sv Em Sm) as [B1 B2 B3 B4 B5 B6 B7 B8 B9]. split; [exact B1|exact B2|exact B3|exact B4|exact B5|exact B6|exact B7|exact B8|exact B9].
  - exists w', rcs. exact E.
Defined.
