(* ===== verification/BlockChainSpec.v ===== *)
(** * Theorems on the block chain

    What [BlockChain] promises: the stored blocks form a tree rooted at the genesis block; the
    head is a heaviest block; the canonical numbers up to the head are its ancestry; and the
    index of transactions is the one of the blocks of that chain.  [WriteBlockAndState] keeps
    this, with the reorganisation it may need.  Then the checks of blocks, and the limits of
    the gas limit. *)

From S2P Require Import Prelude Rlp RlpStream TrieEncoding Common Codec Trie PocContext SecureTrie StateDB StateRecord.
From S2P Require Import Signature ChainConfig Transaction Block ChainDb GoMonad HeaderChain GoSort EpochContext Poc Dao Execution BlockChain.

Abbreviation headers := (gmap bytes Header).
Abbreviation difficulties := (gmap bytes Z).

Section Spec.
Context {HS : Hasher} {ST : StateTrie} {GR : GoRand} {SC : Secp256k1} {SG : SigCache} {LC : Lru}.

(** ** Databases that agree outside some keys *)

Definition touch (P : dbkey -> Prop) (db db' : database) : Prop :=
  forall k, key_ok k -> ~ P k -> db' !! key_of k = db !! key_of k.

Lemma touch_refl P db : touch P db db.
Proof. done. Qed.

Lemma touch_trans P db1 db2 db3 : touch P db1 db2 -> touch P db2 db3 -> touch P db1 db3.
Proof. intros A B k K N. by rewrite B, A. Qed.

Lemma touch_weaken (P Q : dbkey -> Prop) db db' : (forall k, P k -> Q k) -> touch P db db' -> touch Q db db'.
Proof. intros I T k K N. apply T; [done|]. auto. Qed.

Lemma touch_put k v (P : dbkey -> Prop) db : key_ok k -> P k -> touch P db (Put (key_of k) v db).
Proof. intros K Pk k' K' N. rewrite lookup_Put by done. rewrite decide_False; [done|]. by intros <-. Qed.

Lemma touch_del k (P : dbkey -> Prop) db : key_ok k -> P k -> touch P db (Del (key_of k) db).
Proof. intros K Pk k' K' N. rewrite lookup_Del by done. rewrite decide_False; [done|]. by intros <-. Qed.

Lemma touch_Get P db db' k : touch P db db' -> key_ok k -> ~ P k -> Get db' (key_of k) = Get db (key_of k).
Proof. intros T K N. apply Get_lookup. by apply T. Qed.

(** The heads, the numbers and the index of transactions. *)
Definition index_key (k : dbkey) : Prop :=
  match k with KCanonical _ | KHeadBlock | KHeadHeader | KHeadFast | KLookup _ => True | _ => False end.

(** ** What is stored of a block *)

(** The transactions of a block, by their hashes. *)
Implicit Type txs : bytes -> list bytes.

Definition context_at (db : database) (hdr : Header) : Prop :=
  exists proto pc, hd_PocContext hdr = Some proto /\ NewPocContextFromProto db proto = Ok pc.

Record stored_block (db : database) txs (h : bytes) (hdr : Header) : Prop := mkStoredBlock {
  sb_number : Get db (key_of (KNumber h)) = encodeBlockNumber (num hdr);
  sb_header : Get db (key_of (KHeader h (num hdr))) = enc_header hdr;
  sb_body : exists body, body_ok body /\ Get db (key_of (KBody h (num hdr))) = enc_body body /\
    tx_hashes (map decoded_tx (bd_Transactions body)) = txs h;
  sb_receipts : Get db (key_of (KReceipts h (num hdr))) = [] \/
    exists rs, receipts_ok rs /\ Get db (key_of (KReceipts h (num hdr))) = enc_receipts rs;
  sb_context : context_at db hdr
}.

Definition stores (db : database) txs (hs : headers) : Prop := forall h hdr, hs !! h = Some hdr -> stored_block db txs h hdr.

(** Nodes that are in a database stay in it. *)
Definition nodes_kept (db db' : database) : Prop := forall k v, len k = 32 -> db !! k = Some v -> db' !! k = Some v.

Lemma nodes_touch P db db' : touch P db db' -> (forall h, ~ P (KNode h)) -> nodes_kept db db'.
Proof. intros T N k v L H. rewrite <- H. by apply (T (KNode k)). Qed.

Lemma New_kept root prefix db db' t :
  nodes_kept db db' -> len root = 32 -> NewTrieWithPrefix root prefix db = Ok t -> NewTrieWithPrefix root prefix db' = Ok t.
Proof.
  intros N L. unfold NewTrieWithPrefix, Trie.New, resolveHash. destruct (negb (EmptyHash root) && negb (bool_decide (root = emptyRoot))); [|by intros].
  destruct (db !! root) as [v|] eqn:E; [|by intros]. by rewrite (N root v L E).
Qed.

Lemma context_kept db db' hdr : header_ok hdr -> nodes_kept db db' -> context_at db hdr -> context_at db' hdr.
Proof.
  intros Ho N (proto & pc & E & O). exists proto, pc. split; [done|]. destruct (ho_PocContext _ Ho) as (q & Eq & ((L1 & _) & (L2 & _) & (L3 & _) & (L4 & _) & (L5 & _))).
  assert (q = proto) as -> by congruence. unfold NewPocContextFromProto, NewEpochTrie, NewContributionTrie, NewLatestTxTrie, NewCandidateTrie, NewMintCntTrie in *.
  repeat match type of O with
  | context [NewTrieWithPrefix ?r ?p db] => destruct (NewTrieWithPrefix r p db) eqn:?; cbn [mbind outcome_bind] in O; try discriminate O
  end.
  repeat match goal with H : NewTrieWithPrefix ?r ?p db = Ok _ |- _ => apply (New_kept _ _ _ _ _ N) in H; [rewrite H; clear H; cbn [mbind outcome_bind]|done] end.
  exact O.
Qed.

Lemma stored_block_kept P db db' txs h hdr :
  touch P db db' -> nodes_kept db db' -> stored_header hdr (num hdr) -> len h = 32 ->
  ~ P (KNumber h) -> ~ P (KHeader h (num hdr)) -> ~ P (KBody h (num hdr)) -> ~ P (KReceipts h (num hdr)) ->
  stored_block db txs h hdr -> stored_block db' txs h hdr.
Proof.
  intros T N (Ho & _ & _ & U) L N1 N2 N3 N4 [S1 S2 S3 S4 S5]. split.
  - by rewrite (touch_Get _ _ _ _ T).
  - by rewrite (touch_Get _ _ _ _ T).
  - destruct S3 as (body & B & E & X). exists body. by rewrite (touch_Get _ _ _ _ T).
  - by rewrite (touch_Get _ _ _ _ T).
  - by apply (context_kept db).
Qed.

Lemma stores_index g db db' txs hs tds :
  tree_ok g hs tds -> touch index_key db db' -> stores db txs hs -> stores db' txs hs.
Proof.
  intros T I S h hdr H. apply (stored_block_kept index_key db); try (by intros []).
  - done.
  - apply (nodes_touch _ _ _ I). by intros h' [].
  - by apply (t_hash _ _ _ T) in H as (_ & St & _).
  - apply (tree_len _ _ _ T). by exists hdr.
  - by apply S.
Qed.

(** ** Blocks and caches in memory *)

Section Tree.
Context (g : bytes) (hs : headers) (tds : difficulties) (T : tree_ok g hs tds) (txs : bytes -> list bytes).

(** A block of the tree. *)
Definition is_block (h : bytes) (b : Block) : Prop := hs !! h = Some (b_header b) /\ hash_of b = h /\ tx_hashes (b_transactions b) = txs h.

Definition warm (s : BlockChain) : Prop := caches_ok hs tds (bc_hc s) /\ lru_all is_block (blockCache s).

(** What the caches do not change. *)
Definition view (s : BlockChain) :=
  (bc_db s, (bc_config s, bc_engine s, bc_first s, bc_mu s, genesisBlock s, currentBlock s, currentFastBlock s),
   (stateTries s, recordTries s, feeds s, futureBlocks s), (genesisHeader (bc_hc s), currentHeader (bc_hc s), currentHeaderHash (bc_hc s))).
Definition quiet (s s' : BlockChain) : Prop := view s' = view s.

Lemma quiet_refl s : quiet s s.
Proof. done. Qed.

Lemma quiet_trans s1 s2 s3 : quiet s1 s2 -> quiet s2 s3 -> quiet s1 s3.
Proof. unfold quiet. by intros -> ->. Qed.

Lemma quiet_db s s' : quiet s s' -> bc_db s' = bc_db s.
Proof. by intros [=]. Qed.

Lemma on_hc_ok {A} (m : go HeaderChain hc_error A) s h a : m (bc_hc s) = Ok (h, inr a) -> on_hc m s = Ok (set_hc h s, inr a).
Proof. intros E. unfold on_hc, on_go. by rewrite E. Qed.

Lemma set_hc_id s : set_hc (bc_hc s) s = s.
Proof. by destruct s. Qed.

Lemma read_db_ok {A} (f : database -> outcome unit A) s a : f (bc_db s) = Ok a -> read_db f s = Ok (s, inr a).
Proof. intros E. unfold read_db. erewrite on_hc_ok; [by rewrite set_hc_id|]. unfold HeaderChain.read. fold (bc_db s). by rewrite E. Qed.

Lemma quiet_hc s h : same (bc_hc s) h -> quiet s (set_hc h s).
Proof. intros (E1 & E2 & E3 & E4). unfold quiet, view, bc_db. cbn. by rewrite E1, E2, E3, E4. Qed.

Lemma CopyHeaders_ok us : Forall header_ok us -> map CopyHeader us = us.
Proof. induction 1 as [|u us Hu F IH]; [done|]. cbn. by rewrite CopyHeader_ok, IH. Qed.

(** The block at a stored hash is found, in the cache or in the database. *)
Lemma GetBlock_holds h hdr s :
  hs !! h = Some hdr -> stored_block (bc_db s) txs h hdr -> warm s ->
  exists b s', bc_GetBlock h (num hdr) s = Ok (s', inr (Some b)) /\ is_block h b /\ quiet s s' /\ warm s'.
Proof.
  intros H [S1 S2 (body & Bo & Eb & Et) S4 (proto & pc & Ep & En)] [Wh Wb]. destruct (t_hash _ _ _ T _ _ H) as (Eh & St & _). pose proof St as (Ho & _).
  unfold bc_GetBlock, cached. go_step. destruct (lru_Get_all _ _ h _ Wb) as [Cg Hg].
  destruct (lru_Get h (blockCache s)) as [[b|] c]; cbn [fst snd] in *.
  - go_step. eexists b, _. split; [reflexivity|]. split; [by apply Hg|]. by split.
  - go_step. assert (E : ChainDb.GetBlock (bc_db s) h (num hdr) =
                Ok (Some (mkBlock hdr (bd_Uncles body) (map decoded_tx (bd_Transactions body)) None None (Some pc)))).
    { unfold ChainDb.GetBlock. rewrite (GetHeader_enc hdr _ _ _ _ St S2). cbn [mbind outcome_bind]. rewrite (GetBody_enc _ _ _ body Bo Eb).
      cbn [mbind outcome_bind]. unfold getPocContextTrie. rewrite Ep, En. cbn [mbind outcome_bind].
      unfold WithBody, NewBlockWithHeader. cbn [b_header b_uncles b_transactions b_hash b_size decoded_body bd_Transactions bd_Uncles].
      rewrite !CopyHeader_ok by (done || by rewrite CopyHeader_ok). by rewrite CopyHeaders_ok by apply Bo. }
    set (b := mkBlock _ _ _ _ _ _) in E.
    go_step (read_db_ok (fun db => ChainDb.GetBlock db h (num hdr)) (set_blockCache c s) _ E). cbn iota. go_step. assert (Ib : is_block h b) by (split; [exact H|]; split; [exact Eh|exact Et]).
    eexists b, _. split; [reflexivity|]. split; [done|]. split; [done|]. split; [exact Wh|]. cbn [blockCache set_blockCache set_bc_caches].
    apply lru_Add_all; [done|]. by rewrite (proj1 (proj2 Ib)).
Qed.

(** ** The two chains from the heads to the common block *)

(** The blocks of some hashes. *)
Definition blocks_of (l : list bytes) (bs : list Block) : Prop := Forall2 is_block l bs.

(** All blocks but the newest one may be asked for. *)
Definition parents_stored (db : database) : Prop := forall h hdr p, hs !! h = Some hdr -> hs !! hd_ParentHash hdr = Some p -> num hdr <> 0 ->
  stored_block db txs (hd_ParentHash hdr) p.

Lemma block_number_ok h b s : is_block h b -> block_number b s = Ok (s, inr (num (b_header b))).
Proof.
  intros (H & _). destruct (t_hash _ _ _ T _ _ H) as (_ & (_ & _ & E & U) & _). unfold block_number. rewrite E. go_step. by rewrite big_Uint64_u64.
Qed.

Lemma block_height h b n : is_block h b -> height (b_header b) = n -> num (b_header b) = Z.of_nat n.
Proof. intros (H & _) <-. pose proof (num_nonneg _ _ _ T _ _ H). unfold height. lia. Qed.

Lemma parent_block_ok h b n s :
  is_block h b -> height (b_header b) = S n -> parents_stored (bc_db s) -> warm s ->
  exists p s', parent_block b s = Ok (s', inr (Some p)) /\ is_block (parent_hash b) p /\ height (b_header p) = n /\ quiet s s' /\ warm s' /\
    ancestry hs (S n) h = ancestry hs n (parent_hash b) ++ [h].
Proof.
  intros Ib En Ps W. pose proof Ib as (H & _). pose proof (block_height h b (S n) Ib En) as Nb.
  destruct (parent_numbered g hs tds T h _ H) as (p & Hp & Ep & Pn & Nu); [lia|]. assert (Hn : height p = n) by lia.
  assert (Np : num p = Z.of_nat n) by (rewrite <- Hn; pose proof (num_nonneg _ _ _ T _ _ Hp); unfold height; lia).
  destruct (GetBlock_holds _ p s Hp (Ps h _ p H Hp ltac:(lia)) W) as (pb & s' & E & Ipb & Q & W').
  exists pb, s'. unfold parent_block. go_step (block_number_ok h b s Ib). rewrite Pn, Hn, <- Np.
  assert (Ehp : b_header pb = p) by (destruct Ipb as (X & _); congruence). rewrite Ehp. split; [exact E|]. split; [exact Ipb|]. split; [done|].
  split; [done|]. split; [done|]. cbn [ancestry]. unfold parent_of. by rewrite H.
Qed.

Lemma hc_GetBlockNumber_found h hdr (c : HeaderChain) :
  caches_ok hs tds c -> hs !! h = Some hdr -> Get (chainDb c) (key_of (KNumber h)) = encodeBlockNumber (num hdr) ->
  exists c', hc_GetBlockNumber h c = Ok (c', inr (num hdr)) /\ same c c' /\ caches_ok hs tds c'.
Proof.
  intros [C1 C2 C3] H G. unfold hc_GetBlockNumber. go_step. destruct (lru_Get_all _ _ h _ C3) as [Cg Hg].
  destruct (lru_Get h (numberCache c)) as [[n|] x]; cbn [fst snd] in *.
  - go_step. destruct (Hg n eq_refl) as (d & Hd & <-). assert (d = hdr) as -> by congruence. eexists. split; [reflexivity|]. by split.
  - go_step. go_step. cbn [chainDb set_numberCache set_caches]. rewrite (GetBlockNumber_enc _ _ (num hdr)) by (done || exact (tree_u64 _ _ _ T _ _ H)).
    destruct (num hdr =? missingNumber); go_step; (eexists; split; [reflexivity|]); (split; [done|]); split; try done.
    apply lru_Add_all; [done|by exists hdr].
Qed.

Lemma collectLogs_ok h hdr s :
  hs !! h = Some hdr -> stored_block (bc_db s) txs h hdr -> warm s ->
  exists logs s', collectLogs h s = Ok (s', inr logs) /\ quiet s s' /\ warm s'.
Proof.
  intros H [S1 _ _ S4 _] [Wh Wb]. destruct (hc_GetBlockNumber_found h hdr (bc_hc s) Wh H S1) as (c & E & Sm & C).
  unfold collectLogs. go_step (on_hc_ok _ s c _ E).
  assert (X : exists r, GetBlockReceipts (bc_db (set_hc c s)) h (num hdr) = Ok r).
  { unfold bc_db. cbn [bc_hc set_hc]. rewrite (proj1 Sm). fold (bc_db s). destruct S4 as [S4|(rs & Ro & S4)].
    - exists None. unfold GetBlockReceipts. change (receiptsKey h (num hdr)) with (key_of (KReceipts h (num hdr))). by rewrite S4.
    - eexists. by apply GetBlockReceipts_enc. }
  destruct X as [r Er]. go_step (read_db_ok (fun db => GetBlockReceipts db h (num hdr)) (set_hc c s) r Er).
  eexists _, _. split; [reflexivity|]. split; [by apply quiet_hc|]. split; [exact C|exact Wb].
Qed.

Definition avail (db : database) (h : bytes) : Prop := exists hdr, hs !! h = Some hdr /\ stored_block db txs h hdr.

Lemma parent_avail db h b n : is_block h b -> height (b_header b) = S n -> parents_stored db -> avail db (parent_hash b).
Proof.
  intros Ib En Ps. pose proof Ib as (H & _). pose proof (block_height h b (S n) Ib En).
  destruct (t_parent _ _ _ T h _ H) as (p & Hp & _); [lia|]. exists p. split; [done|]. apply (Ps h (b_header b)); [done|done|lia].
Qed.

(** The part of an ancestry above a height, newest first. *)
Definition above (m : nat) (l : list bytes) : list bytes := reverse (drop (S m) l).

Lemma above_snoc m l x : (S m <= length l)%nat -> above m (l ++ [x]) = x :: above m l.
Proof. intros L. unfold above. rewrite drop_app_le by done. by rewrite reverse_snoc. Qed.

Lemma above_all m l : (length l <= S m)%nat -> above m l = [].
Proof. intros L. unfold above. by rewrite drop_ge. Qed.

Lemma reduce_old_ok m : forall k fuel h b s,
  is_block h b -> height (b_header b) = (m + k)%nat -> (k < fuel)%nat -> avail (bc_db s) h -> parents_stored (bc_db s) -> warm s ->
  exists r x chain logs s', reduce_old fuel (Some b) (Z.of_nat m) s = Ok (s', inr (Some r, chain, logs)) /\ is_block x r /\
    height (b_header r) = m /\ ancestry hs (m + k) h !! m = Some x /\ avail (bc_db s') x /\
    blocks_of (above m (ancestry hs (m + k) h)) chain /\ quiet s s' /\ warm s'.
Proof.
  induction k as [|k IH]; intros fuel h b s Ib En F Av Ps W; (destruct fuel as [|fuel]; [lia|]); cbn [reduce_old];
    go_step (block_number_ok h b s Ib); rewrite (block_height h b _ Ib En).
  - rewrite Nat.add_0_r in *. rewrite Z.eqb_refl. exists b, h, [], [], s. rewrite ancestry_last, above_all by (rewrite length_ancestry; lia).
    do 5 (split; [done|]). split; [constructor|]. done.
  - rewrite (proj2 (Z.eqb_neq _ _)) by lia. destruct Av as (hdr & Hh & Sb). rewrite (proj1 (proj2 Ib)).
    destruct (collectLogs_ok h hdr s Hh Sb W) as (logs & s1 & E1 & Q1 & W1). go_step E1.
    assert (En' : height (b_header b) = S (m + k)) by lia. rewrite <- (quiet_db _ _ Q1) in Ps.
    destruct (parent_block_ok h b (m + k) s1 Ib En' Ps W1) as (p & s2 & E2 & Ip & Hn & Q2 & W2 & An). go_step E2.
    pose proof (parent_avail _ h b _ Ib En' Ps) as Avp. rewrite <- (quiet_db _ _ Q2) in Ps, Avp.
    destruct (IH fuel _ p s2 Ip Hn ltac:(lia) Avp Ps W2) as (r & x & chain & logs' & s3 & E3 & Ir & Hr & Ax & Avx & Bl & Q3 & W3).
    go_step E3. eexists r, x, (b :: chain), _, s3. split; [reflexivity|]. split; [done|]. split; [done|].
    replace (m + S k)%nat with (S (m + k)) by lia. rewrite An. split; [by apply lookup_app_l_Some|]. split; [done|].
    rewrite above_snoc by (rewrite length_ancestry; lia). split; [by constructor|].
    split; [|done]. eapply quiet_trans; [exact Q1|]. by eapply quiet_trans.
Qed.

Lemma reduce_new_ok m : forall k fuel h b s,
  is_block h b -> height (b_header b) = (m + k)%nat -> (k < fuel)%nat -> parents_stored (bc_db s) -> warm s ->
  exists r x chain s', reduce_new fuel (Some b) (Z.of_nat m) s = Ok (s', inr (Some r, chain)) /\ is_block x r /\
    height (b_header r) = m /\ ancestry hs (m + k) h !! m = Some x /\ blocks_of (above m (ancestry hs (m + k) h)) chain /\ quiet s s' /\ warm s'.
Proof.
  induction k as [|k IH]; intros fuel h b s Ib En F Ps W; (destruct fuel as [|fuel]; [lia|]); cbn [reduce_new];
    go_step (block_number_ok h b s Ib); rewrite (block_height h b _ Ib En).
  - rewrite Nat.add_0_r in *. rewrite Z.eqb_refl. exists b, h, [], s. rewrite ancestry_last, above_all by (rewrite length_ancestry; lia).
    do 4 (split; [done|]). split; [constructor|]. done.
  - rewrite (proj2 (Z.eqb_neq _ _)) by lia. assert (En' : height (b_header b) = S (m + k)) by lia.
    destruct (parent_block_ok h b (m + k) s Ib En' Ps W) as (p & s2 & E2 & Ip & Hn & Q2 & W2 & An). go_step E2. rewrite <- (quiet_db _ _ Q2) in Ps.
    destruct (IH fuel _ p s2 Ip Hn ltac:(lia) Ps W2) as (r & x & chain & s3 & E3 & Ir & Hr & Ax & Bl & Q3 & W3).
    go_step E3. eexists r, x, (b :: chain), s3. split; [reflexivity|]. split; [done|]. split; [done|].
    replace (m + S k)%nat with (S (m + k)) by lia. rewrite An. split; [by apply lookup_app_l_Some|].
    rewrite above_snoc by (rewrite length_ancestry; lia). split; [by constructor|]. split; [by eapply quiet_trans|done].
Qed.

(** The lowest block is the genesis block on both sides. *)
Lemma find_common_ok : forall n fuel o ob x xb s,
  is_block o ob -> is_block x xb -> height (b_header ob) = n -> height (b_header xb) = n -> (n < fuel)%nat ->
  avail (bc_db s) o -> parents_stored (bc_db s) -> warm s ->
  exists c oc nc logs s', find_common fuel ob xb s = Ok (s', inr (oc, nc, logs)) /\
    blocks_of (above c (ancestry hs n o)) oc /\ blocks_of (above c (ancestry hs n x)) nc /\
    (c <= n)%nat /\ ancestry hs n o !! c = ancestry hs n x !! c /\
    (forall j, (c < j <= n)%nat -> ancestry hs n o !! j <> ancestry hs n x !! j) /\ quiet s s' /\ warm s'.
Proof.
  induction n as [|n IH]; intros fuel o ob x xb s Io Ix Eo Ex F Av Ps W; (destruct fuel as [|fuel]; [lia|]); cbn [find_common];
    rewrite (proj1 (proj2 Io)), (proj1 (proj2 Ix)).
  - assert (Z : forall h b, is_block h b -> height (b_header b) = O -> h = g).
    { intros h b (H & _) E. apply (t_root _ _ _ T h _ H). pose proof (num_nonneg _ _ _ T _ _ H). unfold height in E. lia. }
    rewrite (Z o ob Io Eo), (Z x xb Ix Ex), bool_decide_true by done. exists O, [], [], [], s. split; [done|].
    split; [constructor|]. split; [constructor|]. split; [done|]. split; [done|]. split; [lia|done].
  - case_bool_decide as E.
    { subst x. exists (S n), [], [], [], s. rewrite above_all by (rewrite length_ancestry; lia). split; [done|].
      split; [constructor|]. split; [constructor|]. split; [done|]. split; [done|]. split; [lia|done]. }
    destruct Av as (hdr & Hh & Sb). destruct (collectLogs_ok o hdr s Hh Sb W) as (logs & s1 & E1 & Q1 & W1). go_step E1.
    rewrite <- (quiet_db _ _ Q1) in Ps.
    destruct (parent_block_ok o ob n s1 Io Eo Ps W1) as (p & s2 & E2 & Ip & Hn & Q2 & W2 & An). go_step E2.
    pose proof (parent_avail _ o ob _ Io Eo Ps) as Avp. rewrite <- (quiet_db _ _ Q2) in Ps, Avp.
    destruct (parent_block_ok x xb n s2 Ix Ex Ps W2) as (q & s3 & E3 & Iq & Hm & Q3 & W3 & Am). go_step E3.
    rewrite <- (quiet_db _ _ Q3) in Ps, Avp.
    destruct (IH fuel _ p _ q s3 Ip Iq Hn Hm ltac:(lia) Avp Ps W3) as (c & oc & nc & logs' & s4 & E4 & Bo & Bn & Lc & Ec & Df & Q4 & W4).
    go_step E4. eexists c, (ob :: oc), (xb :: nc), _, s4. split; [reflexivity|]. rewrite An, Am.
    rewrite !above_snoc by (rewrite length_ancestry; lia). split; [by constructor|]. split; [by constructor|]. split; [lia|].
    rewrite !lookup_app_l by (rewrite length_ancestry; lia). split; [done|]. split.
    + intros j Hj. destruct (decide (j = S n)) as [->|Nj].
      * rewrite !lookup_app_r by (rewrite length_ancestry; lia). rewrite !length_ancestry, Nat.sub_diag. cbn. congruence.
      * rewrite !lookup_app_l by (rewrite length_ancestry; lia). apply Df. lia.
    + split; [|done]. do 3 (eapply quiet_trans; [eassumption|]). done.
Qed.

Lemma above_split c m l : (c <= m)%nat -> above c l = above m l ++ above c (take (S m) l).
Proof.
  intros L. unfold above. rewrite <- reverse_app. f_equal. destruct (decide (S c <= length l)%nat) as [D|D].
  - rewrite <- (take_drop (S m) l) at 1. rewrite drop_app_le; [done|]. rewrite length_take. lia.
  - rewrite !drop_ge; [done| | |]; rewrite ?length_take; lia.
Qed.

(** Both chains end at the highest common block. *)
Lemma split_chains_ok fuel o ob x xb s :
  is_block o ob -> is_block x xb -> (height (b_header ob) < fuel)%nat -> (height (b_header xb) < fuel)%nat ->
  avail (bc_db s) o -> parents_stored (bc_db s) -> warm s ->
  let A := ancestry hs (height (b_header ob)) o in let B := ancestry hs (height (b_header xb)) x in
  exists c oc nc logs s', split_chains fuel ob xb s = Ok (s', inr (oc, nc, logs)) /\
    blocks_of (above c A) oc /\ blocks_of (above c B) nc /\ (c < length A)%nat /\ (c < length B)%nat /\
    (forall j, (j <= c)%nat -> A !! j = B !! j) /\
    (forall j, (c < j)%nat -> (j < length A)%nat -> (j < length B)%nat -> A !! j <> B !! j) /\ quiet s s' /\ warm s'.
Proof.
  intros Io Ix Fo Fx Av Ps W. cbn zeta. rewrite !length_ancestry. set (no := height (b_header ob)) in *. set (nx := height (b_header xb)) in *.
  assert (Agree : forall c, (c <= no)%nat -> (c <= nx)%nat -> ancestry hs no o !! c = ancestry hs nx x !! c ->
            forall j, (j <= c)%nat -> ancestry hs no o !! j = ancestry hs nx x !! j).
  { intros c L1 L2 E. destruct (ancestry hs no o !! c) as [y|] eqn:Ey; [|apply lookup_ge_None in Ey; rewrite length_ancestry in Ey; lia].
    apply (ancestry_agree hs no o nx x c y); [done|done|done|by rewrite <- E]. }
  unfold split_chains. go_step (block_number_ok o ob s Io). go_step (block_number_ok x xb s Ix).
  rewrite (block_height o ob no Io eq_refl), (block_height x xb nx Ix eq_refl). destruct (Z.ltb_spec (Z.of_nat nx) (Z.of_nat no)) as [L|L].
  - destruct (reduce_old_ok nx (no - nx) fuel o ob s Io ltac:(fold no; lia) ltac:(lia) Av Ps W)
      as (r & y & chain & logs & s1 & E1 & Ir & Hr & Ay & Avy & Bl & Q1 & W1).
    replace (nx + (no - nx))%nat with no in * by lia. go_step E1. go_step. rewrite <- (quiet_db _ _ Q1) in Ps.
    destruct (find_common_ok nx fuel y r x xb s1 Ir Ix Hr eq_refl Fx Avy Ps W1) as (c & oc & nc & logs' & s2 & E2 & Bo & Bn & Lc & Ec & Df & Q2 & W2).
    go_step E2. rewrite <- (ancestry_take hs no o nx y) in Bo, Ec, Df by (done || lia). rewrite lookup_take_lt in Ec by lia.
    eexists c, _, _, _, s2. split; [reflexivity|]. split; [rewrite (above_split c nx) by lia; by apply Forall2_app|]. split; [done|].
    split; [lia|]. split; [lia|]. split; [apply (Agree c); [lia|lia|done]|]. split; [|split; [by eapply quiet_trans|done]].
    intros j L1 L2 L3. specialize (Df j ltac:(lia)). by rewrite lookup_take_lt in Df by lia.
  - go_step. destruct (reduce_new_ok no (nx - no) fuel x xb s Ix ltac:(fold nx; lia) ltac:(lia) Ps W)
      as (r & y & chain & s1 & E1 & Ir & Hr & Ay & Bl & Q1 & W1).
    replace (no + (nx - no))%nat with nx in * by lia. go_step E1. rewrite <- (quiet_db _ _ Q1) in Ps, Av.
    destruct (find_common_ok no fuel o ob y r s1 Io Ir eq_refl Hr Fo Av Ps W1) as (c & oc & nc & logs' & s2 & E2 & Bo & Bn & Lc & Ec & Df & Q2 & W2).
    go_step E2. rewrite <- (ancestry_take hs nx x no y) in Bn, Ec, Df by (done || lia). rewrite (lookup_take_lt _ (S no)) in Ec by lia.
    eexists c, _, _, _, s2. split; [reflexivity|]. split; [done|]. split; [rewrite (above_split c no) by lia; by apply Forall2_app|].
    split; [lia|]. split; [lia|]. split; [apply (Agree c); [lia|lia|done]|]. split; [|split; [by eapply quiet_trans|done]].
    intros j L1 L2 L3. specialize (Df j ltac:(lia)). by rewrite (lookup_take_lt _ (S no)) in Df by lia.
Qed.

(** ** New heads and the index of transactions *)

(** What does not change when blocks become canonical. *)
Definition core (s : BlockChain) := (bc_config s, bc_mu s, genesisBlock s, (stateTries s, recordTries s), futureBlocks s).
Definition steady (s s' : BlockChain) : Prop := core s' = core s.

Lemma steady_trans s1 s2 s3 : steady s1 s2 -> steady s2 s3 -> steady s1 s3.
Proof. unfold steady. by intros -> ->. Qed.

Lemma put_db_ok f s : put_db f s = Ok (set_hc (set_db (f (bc_db s)) (bc_hc s)) s, inr tt).
Proof. done. Qed.

Lemma put_err_ok f s db : f (bc_db s) = Ok db -> put_err f s = Ok (set_hc (set_db db (bc_hc s)) s, inr tt).
Proof. intros E. unfold put_err. go_step. unfold of_outcome at 1. unfold mbind at 1, go_bind. by rewrite E. Qed.

Lemma insert_ok h b s :
  is_block h b -> warm s ->
  exists s', insert b s = Ok (s', inr tt) /\ steady s s' /\ warm s' /\ currentBlock s' = Some b /\
    (forall k, key_ok k -> k <> KHeadHeader -> k <> KHeadFast -> bc_db s' !! key_of k =
       if decide (k = KCanonical (num (b_header b))) then Some h else if decide (k = KHeadBlock) then Some h else bc_db s !! key_of k) /\
    if bool_decide (GetCanonicalHash (bc_db s) (num (b_header b)) = h)
    then currentHeader (bc_hc s') = currentHeader (bc_hc s) /\ currentFastBlock s' = currentFastBlock s
    else currentHeader (bc_hc s') = Some (b_header b) /\ currentFastBlock s' = Some b.
Proof.
  intros Ib [[C1 C2 C3] Wb]. pose proof Ib as (H & Eh & _). destruct (t_hash _ _ _ T _ _ H) as (_ & (Ho & _ & _ & U) & _).
  assert (Kn : key_ok (KCanonical (num (b_header b)))) by exact U.
  assert (G : forall (db : database) k, key_ok k -> k <> KHeadHeader -> k <> KHeadFast ->
     WriteHeadBlockHash h (WriteCanonicalHash h (num (b_header b)) db) !! key_of k =
       if decide (k = KCanonical (num (b_header b))) then Some h else if decide (k = KHeadBlock) then Some h else db !! key_of k).
  { intros db k K N1 N2. unfold WriteHeadBlockHash, WriteCanonicalHash. change headBlockKey with (key_of KHeadBlock).
    change (canonicalKey (num (b_header b))) with (key_of (KCanonical (num (b_header b)))). rewrite !lookup_Put by done.
    repeat case_decide; congruence. }
  unfold insert. go_step (block_number_ok h b s Ib). go_step. rewrite Eh. do 3 go_step. case_bool_decide as Ec; cbn [negb].
  - eexists. split; [reflexivity|]. do 2 (split; [done|]). split; [done|]. split; [exact (G (bc_db s))|done].
  - unfold set_current_header, Block_Header. rewrite CopyHeader_ok by done.
    erewrite go_bind_ok; [|reflexivity]. go_step. eexists. split; [reflexivity|]. do 2 (split; [done|]). split; [done|]. split; [|done].
    intros k K N1 N2. rewrite <- (G (bc_db s) k K N1 N2). unfold bc_db. cbn [set_hc bc_hc set_fast set_current set_db set_head chainDb].
    unfold WriteHeadFastBlockHash, WriteHeadHeaderHash. change headFastKey with (key_of KHeadFast). change headHeaderKey with (key_of KHeadHeader).
    rewrite !lookup_Put by done. by rewrite !decide_False by congruence.
Qed.

(** The hashes of transactions, without repetition on a chain. *)
Definition txs_wf : Prop := forall h hdr, hs !! h = Some hdr ->
  len (txs h) <= 2 ^ 64 /\ Forall (fun t => len t = 32) (txs h) /\ NoDup (concat (map txs (ancestry hs (height hdr) h))).

Lemma entries_ok h b db :
  is_block h b -> len (txs h) <= 2 ^ 64 -> Forall (fun t => len t = 32) (txs h) -> NoDup (txs h) ->
  exists db', WriteTxLookupEntries b db = Ok db' /\
    (forall j t, txs h !! j = Some t -> db' !! key_of (KLookup t) = Some (enc_entry h (num (b_header b)) (Z.of_nat j))) /\
    (forall k, key_ok k -> (forall t, t ∈ txs h -> k <> KLookup t) -> db' !! key_of k = db !! key_of k).
Proof.
  intros (H & Eh & Et) L F ND. destruct (t_hash _ _ _ T _ _ H) as (Hh & (_ & _ & En & U) & _).
  rewrite <- Et in *. unfold hash_of in Eh.
  destruct (WriteTxLookupEntries_spec b (num (b_header b)) db) as (db' & E & G & O); try done.
  - rewrite Eh, <- Hh. apply keccak256_hash.
  - unfold len, tx_hashes in L. by rewrite length_map in L.
  - exists db'. split; [done|]. split; [|done]. intros j t Hj. by rewrite (G j t Hj), Eh.
Qed.

(** The numbers and positions of some blocks are in the database, the others as before. *)
Record indexed (l : list bytes) (db db' : database) : Prop := mkIndexed {
  ix_touch : touch index_key db db';
  ix_number : forall h hdr, h ∈ l -> hs !! h = Some hdr -> Get db' (key_of (KCanonical (num hdr))) = h;
  ix_numbers : forall i, is_u64 i -> (forall h hdr, h ∈ l -> hs !! h = Some hdr -> num hdr <> i) ->
    Get db' (key_of (KCanonical i)) = Get db (key_of (KCanonical i));
  ix_entry : forall h hdr j t, h ∈ l -> hs !! h = Some hdr -> txs h !! j = Some t ->
    Get db' (key_of (KLookup t)) = enc_entry h (num hdr) (Z.of_nat j);
  ix_entries : forall t, len t = 32 -> (forall h, h ∈ l -> t ∉ txs h) -> Get db' (key_of (KLookup t)) = Get db (key_of (KLookup t))
}.

Lemma insert_all_ok : forall bs l s,
  blocks_of l bs -> (forall h h' d d', h ∈ l -> h' ∈ l -> hs !! h = Some d -> hs !! h' = Some d' -> num d = num d' -> h = h') ->
  Forall (fun h => len (txs h) <= 2 ^ 64 /\ Forall (fun t => len t = 32) (txs h)) l -> NoDup (concat (map txs l)) -> warm s ->
  exists s', insert_all bs s = Ok (s', inr tt) /\ steady s s' /\ warm s' /\ indexed l (bc_db s) (bc_db s') /\
    (forall b, list.last bs = Some b -> NoDup l -> GetCanonicalHash (bc_db s) (num (b_header b)) <> hash_of b ->
       currentHeader (bc_hc s') = Some (b_header b) /\ currentFastBlock s' = Some b).
Proof.
  induction bs as [|b bs IH]; intros l s Bl Inj F ND W; inversion Bl as [|h ? l' ? Ib Bl' El]; subst; cbn [insert_all].
  - exists s. split; [done|]. split; [done|]. split; [done|]. split; [|done]. split; try done; intros; by match goal with H : _ ∈ [] |- _ => apply elem_of_nil in H end.
  - apply list.Forall_cons in F as [[Lh Fh] F]. cbn [map concat] in ND. apply list.NoDup_app in ND as (NDh & Dj & ND).
    destruct (insert_ok h b s Ib W) as (s1 & E1 & S1 & W1 & _ & G1 & H1). go_step E1.
    destruct (entries_ok h b (bc_db s1) Ib Lh Fh NDh) as (db2 & E2 & G2 & O2). go_step (put_err_ok _ s1 _ E2).
    set (s2 := set_hc (set_db db2 (bc_hc s1)) s1). assert (W2 : warm s2) by (destruct W1 as [[C1 C2 C3] Wb]; done).
    destruct (IH l' s2 Bl') as (s3 & E3 & S3 & W3 & [I1 I2 I3 I4 I5] & H3); [|done|done|done|].
    { intros x x' d d' Hx Hx'. apply Inj; by right. }
    exists s3. split; [exact E3|]. split; [eapply steady_trans; [exact S1|exact S3]|]. split; [done|]. change (bc_db s2) with db2 in *.
    destruct Ib as (H & Eh & Et). assert (U : is_u64 (num (b_header b))) by exact (tree_u64 _ _ _ T _ _ H).
    assert (Hx : forall x, x ∈ h :: l' -> x = h \/ x ∈ l' /\ x <> h) by (intros x Hx; destruct (decide (x = h)); [by left|apply list.elem_of_cons in Hx; right; tauto]).
    split; [|].
    { split.
    + apply (touch_trans _ _ db2); [|done]. intros k K Nk. rewrite O2; [|done|intros t _ ->; by apply Nk]. rewrite G1; [|done|by intros ->; apply Nk|by intros ->; apply Nk].
      rewrite !decide_False; [done| |]; intros ->; by apply Nk.
    + intros x d Hin Hd. destruct (Hx x Hin) as [->|[Hl Nx]]; [|by apply I2]. assert (d = b_header b) as -> by congruence.
      destruct (decide (h ∈ l')) as [Hl|Nl]; [by apply I2|]. rewrite I3; [|done|].
      * unfold Get. rewrite O2 by done. rewrite G1 by done. by rewrite decide_True.
      * intros y dy Hy Hdy E. apply Nl. assert (h = y) as -> by (apply (Inj h y (b_header b) dy); [by left|by right|done|done|done]). done.
    + intros i Ui Ni. rewrite I3; [|done|intros y dy Hy; apply Ni; by right]. apply Get_lookup. rewrite O2 by done. rewrite G1 by done.
      rewrite decide_False by (intros [= ->]; apply (Ni h (b_header b)); [by left|done|done]). by rewrite decide_False.
    + intros x d j t Hin Hd Hj. destruct (Hx x Hin) as [->|[Hl Nx]]; [|by apply I4]. assert (d = b_header b) as -> by congruence.
      rewrite I5.
      * unfold Get. by rewrite (G2 j t Hj).
      * apply (proj1 (list.Forall_forall _ _) Fh). by eapply list_elem_of_lookup_2.
      * intros y Hy Ht. apply (Dj t); [by eapply list_elem_of_lookup_2|]. apply list_elem_of_In, in_concat. exists (txs y).
        split; [apply in_map; by apply list_elem_of_In|by apply list_elem_of_In].
    + intros t Lt Nt. rewrite I5; [|done|intros y Hy; apply Nt; by right]. apply Get_lookup.
      rewrite O2; [|done|intros t' Ht' [= ->]; by apply (Nt h); [left|]]. rewrite G1 by done. by rewrite !decide_False. }
    intros b' Lb NDl Nc. apply list.NoDup_cons in NDl as [Nh NDl]. destruct bs as [|b2 bs].
    + injection Lb as <-. injection E3 as <-. rewrite Eh in Nc. by rewrite bool_decide_eq_false_2 in H1 by done.
    + apply H3; [done|done|]. rewrite last_lookup in Lb. destruct (Forall2_lookup_r _ _ _ _ _ Bl' Lb) as (h' & Hh' & (H' & Eh' & _)).
      apply list_elem_of_lookup_2 in Hh'. assert (Nn : num (b_header b') <> num (b_header b)).
      { intros En. apply Nh. rewrite (Inj h h' (b_header b) (b_header b')); [done|by left|by right|done|done|done]. }
      assert (U' : is_u64 (num (b_header b'))) by exact (tree_u64 _ _ _ T _ _ H').
      unfold GetCanonicalHash, hash_at in *. change (canonicalKey (num (b_header b'))) with (key_of (KCanonical (num (b_header b')))) in *.
      replace (Get db2 (key_of (KCanonical (num (b_header b'))))) with (Get (bc_db s) (key_of (KCanonical (num (b_header b'))))); [done|].
      apply Get_lookup. rewrite O2 by done. rewrite G1 by done. rewrite decide_False by congruence. by rewrite decide_False.
Qed.

Definition all_txs (l : list bytes) : list bytes := concat (map txs l).

Lemma elem_of_all_txs l t : t ∈ all_txs l <-> exists h, h ∈ l /\ t ∈ txs h.
Proof.
  unfold all_txs. rewrite list_elem_of_In, in_concat. split.
  - intros (x & (h & <- & Hh)%in_map_iff & Ht). exists h. by rewrite !list_elem_of_In.
  - intros (h & Hh & Ht). exists (txs h). rewrite list_elem_of_In in Hh, Ht. split; [by apply in_map|done].
Qed.

Lemma transactions_of_hashes l bs : blocks_of l bs -> tx_hashes (transactions_of bs) = all_txs l.
Proof.
  unfold transactions_of, all_txs, tx_hashes. induction 1 as [|h b l bs (_ & _ & Et) Bl IH]; [done|]. cbn. rewrite map_app, IH. by rewrite <- Et.
Qed.

(** Positions of transactions are taken out of the index. *)
Definition dropped (P : bytes -> Prop) (db db' : database) : Prop :=
  touch (fun k => exists t, k = KLookup t) db db' /\
  forall t, len t = 32 -> (P t -> Get db' (key_of (KLookup t)) = []) /\ (~ P t -> Get db' (key_of (KLookup t)) = Get db (key_of (KLookup t))).

Definition heads (s : BlockChain) := (currentBlock s, currentHeader (bc_hc s), currentFastBlock s).

Lemma delete_entries_ok : forall l s,
  Forall (fun t => len t = 32) (tx_hashes l) -> warm s ->
  exists s', delete_entries l s = Ok (s', inr tt) /\ steady s s' /\ warm s' /\ heads s' = heads s /\
    dropped (fun t => t ∈ tx_hashes l) (bc_db s) (bc_db s').
Proof.
  induction l as [|tx l IH]; intros s F W; cbn [delete_entries].
  - exists s. split; [done|]. split; [done|]. split; [done|]. split; [done|]. split; [done|]. intros t _. split; [by intros []%elem_of_nil|done].
  - cbn [tx_hashes map] in F. apply list.Forall_cons in F as [Lt F]. set (t0 := fst (Transaction.Hash tx)) in *. go_step.
    set (s1 := set_hc _ s). assert (W1 : warm s1) by (destruct W as [[C1 C2 C3] Wb]; done).
    destruct (IH s1 F W1) as (s2 & E2 & S2 & W2 & C2 & [T2 D2]). exists s2. split; [exact E2|]. split; [exact S2|]. split; [done|]. split; [by rewrite C2|].
    assert (E1 : bc_db s1 = Del (key_of (KLookup t0)) (bc_db s)) by done. rewrite E1 in *. split.
    + eapply touch_trans; [|exact T2]. apply touch_del; [done|by exists t0].
    + intros t L. destruct (D2 t L) as [D3 D4]. cbn [tx_hashes map]. fold t0 (tx_hashes l). rewrite list.elem_of_cons.
      destruct (decide (t ∈ tx_hashes l)) as [Hin|Nin]; [split; [by intros _; apply D3|tauto]|]. rewrite (D4 Nin), Get_Del by done.
      destruct (decide (t = t0)) as [->|Nt]; [rewrite decide_True by done; split; [done|tauto]|]. rewrite decide_False by congruence. split; [tauto|done].
Qed.

Lemma TxDifference_hashes a b t : t ∈ tx_hashes (TxDifference a b) <-> t ∈ tx_hashes a /\ t ∉ tx_hashes b.
Proof.
  unfold TxDifference, tx_hashes. rewrite !list_elem_of_fmap. setoid_rewrite list_elem_of_filter. split.
  - intros (x & -> & Nx & Hx). rewrite elem_of_list_to_set, list_elem_of_fmap in Nx. split; [by exists x|]. done.
  - intros [(x & -> & Hx) Nb]. exists x. split; [done|]. split; [|done]. by rewrite elem_of_list_to_set, list_elem_of_fmap.
Qed.

Lemma is_block_in l bs h : blocks_of l bs -> h ∈ l -> exists b, is_block h b.
Proof. intros Bl Hh. apply list_elem_of_lookup_1 in Hh as [i Hi]. destruct (Forall2_lookup_l _ _ _ _ _ Bl Hi) as (b & _ & Ib). by exists b. Qed.

(** The elements of an ancestry stand at their heights. *)
Lemma ancestry_at h b i x : is_block h b -> ancestry hs (height (b_header b)) h !! i = Some x ->
  exists d, hs !! x = Some d /\ num d = Z.of_nat i.
Proof.
  intros (H & _) E. destruct (ancestry_stored g hs tds T h _ H i x E) as (d & Hd & Ed). exists d. split; [done|].
  pose proof (num_nonneg _ _ _ T _ _ Hd). unfold height in Ed. lia.
Qed.

Lemma elem_of_above c l x : x ∈ above c l <-> exists i, (c < i)%nat /\ l !! i = Some x.
Proof.
  unfold above. rewrite elem_of_reverse, list_elem_of_lookup. split.
  - intros [i Hi]. rewrite lookup_drop in Hi. exists (S c + i)%nat. split; [lia|done].
  - intros (i & L & Hi). exists (i - S c)%nat. rewrite lookup_drop. by replace (S c + (i - S c))%nat with i by lia.
Qed.

Lemma NoDup_above c l : NoDup (all_txs l) -> NoDup (all_txs (above c l)).
Proof.
  intros N. assert (P : all_txs (above c l) ≡ₚ all_txs (drop (S c) l)).
  { unfold above. generalize (drop (S c) l). intros k. induction k as [|x k IH]; [done|]. rewrite reverse_cons. unfold all_txs in *.
    rewrite map_app, concat_app. cbn. rewrite app_nil_r. rewrite IH. apply Permutation_app_comm. }
  rewrite P. rewrite <- (take_drop (S c) l) in N. unfold all_txs in *. rewrite map_app, concat_app in N. by apply list.NoDup_app in N as (_ & _ & N).
Qed.

Lemma all_txs_32 h b c : txs_wf -> is_block h b -> Forall (fun t => len t = 32) (all_txs (above c (ancestry hs (height (b_header b)) h))).
Proof.
  intros Wf Ib. apply list.Forall_forall. intros t (x & Hx & Ht)%elem_of_all_txs. apply elem_of_above in Hx as (i & _ & Hi).
  destruct (ancestry_at h b i x Ib Hi) as (d & Hd & _). destruct (Wf x d Hd) as (_ & F & _). by apply (proj1 (list.Forall_forall _ _) F).
Qed.

(** The head header and the head fast block are the lowest block of the chain of [x] that is not
    on the chain of [o]. *)
Definition at_fork (no : nat) (o : bytes) (nx : nat) (x : bytes) (s : BlockChain) : Prop :=
  exists c yb, (forall j, (j <= c)%nat -> ancestry hs no o !! j = ancestry hs nx x !! j) /\ ancestry hs no o !! S c <> ancestry hs nx x !! S c /\
    ancestry hs nx x !! S c = Some (hash_of yb) /\ is_block (hash_of yb) yb /\
    currentHeader (bc_hc s) = Some (b_header yb) /\ currentFastBlock s = Some yb.

Lemma at_fork_heads no o nx x s s' : at_fork no o nx x s -> currentHeader (bc_hc s') = currentHeader (bc_hc s) -> currentFastBlock s' = currentFastBlock s ->
  at_fork no o nx x s'.
Proof. intros (c & yb & Ag & Df & Ey & Iy & Eh & Ef) Hh Hf. exists c, yb. by rewrite Hh, Hf. Qed.

Lemma last_above c l x : l !! S c = Some x -> list.last (above c l) = Some x.
Proof. intros H. unfold above. rewrite last_reverse, head_lookup, lookup_drop. by rewrite Nat.add_0_r. Qed.

Lemma NoDup_ancestry h b : is_block h b -> NoDup (ancestry hs (height (b_header b)) h).
Proof.
  intros Ib. apply NoDup_alt. intros i j x Hi Hj. destruct (ancestry_at h b i x Ib Hi) as (d & Hd & Ei). destruct (ancestry_at h b j x Ib Hj) as (e & He & Ej).
  assert (d = e) as -> by congruence. lia.
Qed.

(** The lowest block of the new chain, and the block at its number of the old one. *)
Lemma fork_lowest o ob x xb c nc :
  is_block o ob -> is_block x xb -> let A := ancestry hs (height (b_header ob)) o in let B := ancestry hs (height (b_header xb)) x in
  blocks_of (above c B) nc -> (c < length A)%nat -> (c < length B)%nat -> (forall j, (j <= c)%nat -> A !! j = B !! j) ->
  (forall j, (c < j)%nat -> (j < length A)%nat -> (j < length B)%nat -> A !! j <> B !! j) -> x ∉ A -> o ∉ B ->
  exists yb z, list.last nc = Some yb /\ B !! S c = Some (hash_of yb) /\ is_block (hash_of yb) yb /\ num (b_header yb) = Z.of_nat (S c) /\
    A !! S c = Some z /\ len z = 32 /\ z <> hash_of yb /\ NoDup (above c B).
Proof.
  intros Io Ix A B Bn La Lb Ag Df Nx No.
  pose proof (length_ancestry hs (height (b_header ob)) o) as LA. pose proof (length_ancestry hs (height (b_header xb)) x) as LB. fold A in LA. fold B in LB.
  pose proof (ancestry_last hs (height (b_header ob)) o) as Ao. pose proof (ancestry_last hs (height (b_header xb)) x) as Bx. fold A in Ao. fold B in Bx.
  assert (La' : (S c < length A)%nat).
  { destruct (decide (c = height (b_header ob))) as [Ec|]; [|lia]. destruct No. rewrite <- Ec, Ag in Ao by lia. by eapply list_elem_of_lookup_2. }
  assert (Lb' : (S c < length B)%nat).
  { destruct (decide (c = height (b_header xb))) as [Ec|]; [|lia]. destruct Nx. rewrite <- Ec, <- Ag in Bx by lia. by eapply list_elem_of_lookup_2. }
  destruct (lookup_lt_is_Some_2 A (S c) La') as [z Ez]. destruct (lookup_lt_is_Some_2 B (S c) Lb') as [y Ey].
  pose proof (last_above c B y Ey) as Ly. rewrite last_lookup in Ly. destruct (Forall2_lookup_l _ _ _ _ _ Bn Ly) as (yb & Hy & Iy). pose proof Iy as (Hyb & Eh & _).
  rewrite (Forall2_length Bn), <- last_lookup in Hy. destruct (ancestry_at x xb (S c) y Ix Ey) as (d & Hd & En). assert (d = b_header yb) as -> by congruence.
  destruct (ancestry_at o ob (S c) z Io Ez) as (dz & Hz & _). specialize (Df (S c) ltac:(lia) La' Lb'). rewrite Ez, Ey in Df.
  exists yb, z. rewrite Eh. do 5 (split; [done|]). split; [apply (tree_len _ _ _ T); by eexists|]. split; [congruence|].
  pose proof (NoDup_ancestry x xb Ix) as N. fold B in N. rewrite <- (take_drop (S c) B) in N. apply list.NoDup_app in N as (_ & _ & N).
  unfold above. by rewrite reverse_Permutation.
Qed.

(** A reorganisation: the blocks of the new chain above the common one are indexed, what only
    the old chain had is dropped; the heads end at the fork. *)
Lemma reorg_ok fuel o ob x xb s :
  is_block o ob -> is_block x xb -> (height (b_header ob) < fuel)%nat -> (height (b_header xb) < fuel)%nat ->
  avail (bc_db s) o -> parents_stored (bc_db s) -> txs_wf -> warm s ->
  let A := ancestry hs (height (b_header ob)) o in let B := ancestry hs (height (b_header xb)) x in
  exists c s' db1, reorg fuel ob xb s = Ok (s', inr tt) /\ steady s s' /\ warm s' /\
    indexed (above c B) (bc_db s) db1 /\ dropped (fun t => t ∈ all_txs (above c A) /\ t ∉ all_txs (above c B)) db1 (bc_db s') /\
    (c < length A)%nat /\ (c < length B)%nat /\ (forall j, (j <= c)%nat -> A !! j = B !! j) /\
    ((forall i z, A !! i = Some z -> Get (bc_db s) (key_of (KCanonical (Z.of_nat i))) = z) -> x ∉ A -> o ∉ B ->
       at_fork (height (b_header ob)) o (height (b_header xb)) x s').
Proof.
  intros Io Ix Fo Fx Av Ps Wf W. cbn zeta. set (A := ancestry _ _ o). set (B := ancestry _ _ x).
  destruct (split_chains_ok fuel o ob x xb s Io Ix Fo Fx Av Ps W) as (c & oc & nc & logs & s1 & E1 & Bo & Bn & La & Lb & Ag & Df & Q1 & W1).
  fold A B in Bo, Bn, La, Lb, Ag, Df. unfold reorg. go_step E1.
  destruct (insert_all_ok nc (above c B) s1 Bn) as (s2 & E2 & S2 & W2 & I2 & H2).
  - intros h h' d d' (i & _ & Hi)%elem_of_above (j & _ & Hj)%elem_of_above Hd Hd' Eq.
    destruct (ancestry_at x xb i h Ix Hi) as (e & He & Ei). destruct (ancestry_at x xb j h' Ix Hj) as (e' & He' & Ej).
    assert (i = j) as -> by (replace e with d in Ei by congruence; replace e' with d' in Ej by congruence; lia). congruence.
  - apply list.Forall_forall. intros h (i & _ & Hi)%elem_of_above. destruct (ancestry_at x xb i h Ix Hi) as (d & Hd & _).
    destruct (Wf h d Hd) as (L & F & _). done.
  - apply NoDup_above. apply (Wf x (b_header xb)). apply Ix.
  - done.
  - go_step E2. destruct (delete_entries_ok (TxDifference (transactions_of oc) (transactions_of nc)) s2) as (s3 & E3 & S3 & W3 & Hd3 & D3); [|done|].
    { apply list.Forall_forall. intros t [Ht _]%TxDifference_hashes. rewrite (transactions_of_hashes _ _ Bo) in Ht.
      by apply (proj1 (list.Forall_forall _ _) (all_txs_32 o ob c Wf Io)). }
    go_step E3. assert (D : dropped (fun t => t ∈ all_txs (above c A) /\ t ∉ all_txs (above c B)) (bc_db s2) (bc_db s3)).
    { destruct D3 as [T3 D3]. split; [done|]. intros t Lt. specialize (D3 t Lt).
      rewrite TxDifference_hashes, (transactions_of_hashes _ _ Bo), (transactions_of_hashes _ _ Bn) in D3. exact D3. }
    rewrite (quiet_db _ _ Q1) in I2. assert (Sq : steady s s1) by (unfold steady, core; unfold quiet, view in Q1; congruence).
    assert (Ss : steady s s3) by (eapply steady_trans; [exact Sq|]; by eapply steady_trans).
    assert (Fk : (forall i z, A !! i = Some z -> Get (bc_db s) (key_of (KCanonical (Z.of_nat i))) = z) -> x ∉ A -> o ∉ B ->
      at_fork (height (b_header ob)) o (height (b_header xb)) x s3).
    { intros Can Nx No. destruct (fork_lowest o ob x xb c nc Io Ix Bn La Lb Ag Df Nx No) as (yb & z & Ly & Ey & Iy & En & Ez & Lz & Nz & ND).
      destruct (H2 yb Ly ND) as [Hh Hf].
      - rewrite En, (quiet_db _ _ Q1). unfold GetCanonicalHash. by erewrite hash_at_hash; [|exact (Can _ _ Ez)|].
      - injection Hd3 as _ Hh3 Hf3. exists c, yb. rewrite Ez, Ey. split; [exact Ag|]. split; [congruence|]. split; [done|]. split; [done|]. by rewrite Hh3, Hf3. }
    destruct logs as [|l logs]; [by exists c, s3, (bc_db s2)|]. eexists c, _, (bc_db s2). split; [reflexivity|]. done.
Qed.
End Tree.

(** ** What a block writes *)

Lemma ok_inj {E A} (a b : A) : @Ok E A a = Ok b -> a = b.
Proof. congruence. Qed.

Definition is_preimage (k : dbkey) : Prop := match k with KPreimage _ => True | _ => False end.
Definition node_key (k : dbkey) : Prop := match k with KNode _ | KPreimage _ => True | _ => False end.

Definition hashes_of (m : gmap bytes bytes) : Prop := map_Forall (fun k _ => len k = 32) m.

Lemma batch_Write_touch (b : list (bytes * bytes)) : forall db,
  Forall (fun kv => exists k, len k = 32 /\ fst kv = key_of (KPreimage k)) b -> touch is_preimage db (batch_Write b db).
Proof.
  unfold batch_Write. induction b as [|[k v] b IH]; intros db F; [done|]. apply list.Forall_cons in F as [(h & L & E) F]. cbn [fst] in E. subst k.
  cbn [fold_left fst snd]. eapply touch_trans; [|by apply IH]. exact (touch_put (KPreimage h) v is_preimage db L I).
Qed.

Lemma preimage_batch_keys l db : Forall (fun kv => len (fst kv) = 32) l ->
  Forall (fun kv => exists k, len k = 32 /\ fst kv = key_of (KPreimage k)) (preimage_batch l db).
Proof.
  unfold preimage_batch. intros F. assert (G : forall acc : batch, Forall (fun kv => exists k, len k = 32 /\ fst kv = key_of (KPreimage k)) acc ->
    Forall (fun kv => exists k, len k = 32 /\ fst kv = key_of (KPreimage k))
      (fold_left (fun b kv => if Has db (table_key preimagePrefix (fst kv)) then b else batch_Put (table_key preimagePrefix (fst kv)) (snd kv) b) l acc)).
  { induction F as [|[k v] l L F IH]; intros acc A; [done|]. cbn [fold_left]. apply IH. destruct (Has _ _); [done|].
    unfold batch_Put. apply Forall_app. split; [done|]. constructor; [by exists k|constructor]. }
  apply G. constructor.
Qed.

Lemma WritePreimages_touch m db : hashes_of m -> touch is_preimage db (WritePreimages m db).
Proof.
  intros H. unfold WritePreimages. destruct (0 <? _); [|done]. apply batch_Write_touch, preimage_batch_keys.
  apply list.Forall_forall. intros [k v] Hkv. by apply elem_of_map_to_list, H in Hkv.
Qed.

(** The entries of the block itself. *)
Definition block_entries (block : Block) (receipts : list Receipt) (k : dbkey) : option bytes :=
  let hdr := b_header block in let x := Header_Hash hdr in
  if decide (k = KHeader x (num hdr)) then Some (enc_header hdr)
  else if decide (k = KNumber x) then Some (encodeBlockNumber (num hdr))
  else if decide (k = KBody x (num hdr)) then Some (enc_body (Block_Body block))
  else if decide (k = KReceipts x (num hdr)) then Some (enc_receipts receipts)
  else None.

(** The batch in terms of the three commits. *)
Lemma commits_fill s block receipts st rec pc b0 b1 b2 b3 p pc' root st' root' rec' :
  let hdr := b_header block in let eip := IsEIP158 (bc_config s) (hd_Number hdr) in
  stored_header hdr (num hdr) -> body_ok (Block_Body block) -> hash_of block = Header_Hash hdr -> receipts_ok receipts ->
  b_PocContext block = Some pc -> WriteBlock block ∅ = Ok b0 -> Poc_CommitTo b0 pc = Ok (p, pc', b1) ->
  StateDB.CommitTo eip st b1 = Ok (inr root, st', b2) -> rec_CommitTo eip rec b2 = Ok (inr root', rec', b3) ->
  touch node_key b0 b3 ->
  let batch := Put (key_of (KReceipts (Header_Hash hdr) (num hdr))) (enc_receipts receipts) b3 in
  fill_batch block (num hdr) receipts st rec s =
    Ok (set_tries (pastTries (s_db st')) (pastTries (r_db rec')) s,
        inr (batch, mkBlock hdr (b_uncles block) (b_transactions block) (b_hash block) (b_size block) (Some pc'), st', rec')) /\
  forall k, key_ok k -> ~ node_key k -> batch !! key_of k = block_entries block receipts k.
Proof.
  intros hdr eip St Bo Eh Ro Ep E0 E1 E2 E3 Tc batch. pose proof St as (_ & _ & _ & U). pose proof (len_Header_Hash hdr) as Lh. split.
  - unfold fill_batch. go_step. fold hdr eip. rewrite E0. go_step. rewrite Ep. go_step. unfold calc. rewrite E1. go_step. rewrite E2. go_step. go_step.
    rewrite E3. go_step. go_step. unfold hash_of in *. rewrite Eh, WriteBlockReceipts_eq by done. go_step. reflexivity.
  - intros k K Nk. unfold batch. rewrite lookup_Put by done. unfold block_entries. fold hdr.
    pose proof (WriteBlock_eq block (num hdr) ∅ St Bo Eh) as W. cbn zeta in W. rewrite E0 in W. apply ok_inj in W. subst b0. fold hdr in Tc.
    destruct (decide (KReceipts (Header_Hash hdr) (num hdr) = k)) as [<-|N]; [by rewrite !decide_False, decide_True by done|].
    rewrite (Tc k K Nk). rewrite !lookup_Put by done. rewrite lookup_empty. repeat case_decide; congruence.
Qed.

(** ** The chain of a block in the index *)

(** The numbers up to the block are its ancestry, and the transactions found are exactly
    those of its chain, at their positions. *)
Record chain_at (hs : headers) txs (n : nat) (h : bytes) (db : database) : Prop := mkChainAt {
  ca_number : forall i x, ancestry hs n h !! i = Some x -> Get db (key_of (KCanonical (Z.of_nat i))) = x;
  ca_entry : forall x d j t, x ∈ ancestry hs n h -> hs !! x = Some d -> txs x !! j = Some t ->
    Get db (key_of (KLookup t)) = enc_entry x (num d) (Z.of_nat j);
  ca_absent : forall t, len t = 32 -> t ∉ all_txs txs (ancestry hs n h) -> Get db (key_of (KLookup t)) = []
}.

Section Chain.
Context (g : bytes) (hs : headers) (tds : difficulties) (T : tree_ok g hs tds) (txs : bytes -> list bytes) (Wf : txs_wf hs txs).

Lemma below_above l c i x t : NoDup (all_txs txs l) -> l !! i = Some x -> t ∈ txs x -> (i <= c)%nat -> t ∉ all_txs txs (above c l).
Proof.
  intros N Hi Ht L (y & (k & Lk & Hk)%elem_of_above & Hy)%elem_of_all_txs.
  rewrite <- (take_drop (S c) l) in N. unfold all_txs in N. rewrite map_app, concat_app in N. apply list.NoDup_app in N as (_ & D & _).
  apply (D t).
  - apply elem_of_all_txs. exists x. split; [|done]. apply list_elem_of_lookup_2 with i. by rewrite lookup_take_lt by lia.
  - apply elem_of_all_txs. exists y. split; [|done]. apply list_elem_of_lookup_2 with (k - S c)%nat. rewrite lookup_drop.
    by replace (S c + (k - S c))%nat with k by lia.
Qed.

Lemma len_tx h d t : hs !! h = Some d -> t ∈ txs h -> len t = 32.
Proof. intros H Ht. destruct (Wf h d H) as (_ & F & _). by apply (proj1 (list.Forall_forall _ _) F). Qed.

Lemma NoDup_chain h d : hs !! h = Some d -> NoDup (all_txs txs (ancestry hs (height d) h)).
Proof. intros H. by destruct (Wf h d H) as (_ & _ & N). Qed.

Lemma ancestry_num h d i x : hs !! h = Some d -> ancestry hs (height d) h !! i = Some x -> exists e, hs !! x = Some e /\ num e = Z.of_nat i.
Proof.
  intros H E. destruct (ancestry_stored g hs tds T h d H i x E) as (e & He & Ee). exists e. split; [done|].
  pose proof (num_nonneg _ _ _ T _ _ He). unfold height in Ee. lia.
Qed.

(** After a reorganisation the index is the one of the new chain. *)
Lemma reorg_chain o od x xd c db db1 db2 :
  hs !! o = Some od -> hs !! x = Some xd -> let A := ancestry hs (height od) o in let B := ancestry hs (height xd) x in
  chain_at hs txs (height od) o db -> indexed hs txs (above c B) db db1 ->
  dropped (fun t => t ∈ all_txs txs (above c A) /\ t ∉ all_txs txs (above c B)) db1 db2 ->
  (forall j, (j <= c)%nat -> A !! j = B !! j) -> chain_at hs txs (height xd) x db2.
Proof.
  intros Ho Hx A B [N0 E0 A0] [I1 I2 I3 I4 I5] [D1 D2] Ag. fold A in N0, E0, A0. split; fold B.
  - intros i y Hy. destruct (ancestry_num x xd i y Hx Hy) as (e & He & Ne). pose proof (tree_u64 _ _ _ T _ _ He) as U. rewrite Ne in U.
    rewrite (touch_Get _ _ _ _ D1) by (done || by intros []). destruct (decide (i <= c)%nat) as [L|L].
    + rewrite I3; [apply N0; by rewrite Ag|done|]. intros h d (k & Lk & Hk)%elem_of_above Hd. destruct (ancestry_num x xd k h Hx Hk) as (e' & He' & Nk).
      assert (e' = d) as -> by congruence. lia.
    + rewrite <- Ne. apply I2; [|done]. apply elem_of_above. exists i. split; [lia|done].
  - intros y d j t Hy Hd Hj. assert (Ht : t ∈ txs y) by by eapply list_elem_of_lookup_2. pose proof (len_tx y d t Hd Ht) as Lt.
    apply list_elem_of_lookup_1 in Hy as [i Hy]. destruct (decide (i <= c)%nat) as [L|L].
    + pose proof (below_above B c i y t (NoDup_chain x xd Hx) Hy Ht L) as NB. assert (HyA : A !! i = Some y) by by rewrite Ag.
      pose proof (below_above A c i y t (NoDup_chain o od Ho) HyA Ht L) as NA. rewrite (proj2 (D2 t Lt)) by tauto.
      rewrite I5; [apply E0; [by eapply list_elem_of_lookup_2|done|done]|done|]. intros h Hh Hth. apply NB, elem_of_all_txs. by exists h.
    + assert (Yb : y ∈ above c B) by (apply elem_of_above; exists i; split; [lia|done]).
      rewrite (proj2 (D2 t Lt)); [by apply I4|]. intros [_ Nb]. apply Nb, elem_of_all_txs. by exists y.
  - intros t Lt Nt. assert (NB : t ∉ all_txs txs (above c B)).
    { intros (h & (i & _ & Hi)%elem_of_above & Hh)%elem_of_all_txs. apply Nt, elem_of_all_txs. exists h. split; [by eapply list_elem_of_lookup_2|done]. }
    destruct (decide (t ∈ all_txs txs (above c A))) as [Ia|Na]; [by apply (proj1 (D2 t Lt))|]. rewrite (proj2 (D2 t Lt)) by tauto.
    rewrite I5; [apply A0; [done|]|done|intros h Hh Hth; apply NB, elem_of_all_txs; by exists h].
    intros (h & Hh & Hth)%elem_of_all_txs. apply list_elem_of_lookup_1 in Hh as [i Hi]. destruct (decide (i <= c)%nat) as [L|L].
    + apply Nt, elem_of_all_txs. exists h. split; [|done]. apply list_elem_of_lookup_2 with i. fold B. by rewrite <- Ag.
    + apply Na, elem_of_all_txs. exists h. split; [|done]. apply elem_of_above. exists i. split; [lia|done].
Qed.

(** The block is put on top of its chain, or once more where it is. *)
Lemma grow_chain x xd n db db' :
  hs !! x = Some xd -> height xd = S n -> (chain_at hs txs n (hd_ParentHash xd) db \/ chain_at hs txs (height xd) x db) ->
  (forall i, is_u64 i -> Get db' (key_of (KCanonical i)) = if decide (i = num xd) then x else Get db (key_of (KCanonical i))) ->
  (forall j t, txs x !! j = Some t -> Get db' (key_of (KLookup t)) = enc_entry x (num xd) (Z.of_nat j)) ->
  (forall t, len t = 32 -> t ∉ txs x -> Get db' (key_of (KLookup t)) = Get db (key_of (KLookup t))) ->
  chain_at hs txs (height xd) x db'.
Proof.
  intros Hx En C G1 G2 G3. assert (An : ancestry hs (height xd) x = ancestry hs n (hd_ParentHash xd) ++ [x]).
  { rewrite En. cbn [ancestry]. unfold parent_of. by rewrite Hx. }
  pose proof (NoDup_chain x xd Hx) as ND. rewrite An in ND. unfold all_txs in ND. rewrite map_app, concat_app in ND. cbn [map concat] in ND.
  rewrite app_nil_r in ND. apply list.NoDup_app in ND as (_ & Dj & _).
  assert (Nx : num xd = Z.of_nat (S n)) by (pose proof (num_nonneg _ _ _ T _ _ Hx); unfold height in En; lia).
  assert (W : (forall i y, ancestry hs n (hd_ParentHash xd) !! i = Some y -> Get db (key_of (KCanonical (Z.of_nat i))) = y) /\
    (forall y d j t, y ∈ ancestry hs n (hd_ParentHash xd) -> hs !! y = Some d -> txs y !! j = Some t ->
       Get db (key_of (KLookup t)) = enc_entry y (num d) (Z.of_nat j)) /\
    (forall t, len t = 32 -> t ∉ all_txs txs (ancestry hs (height xd) x) -> Get db (key_of (KLookup t)) = [])).
  { destruct C as [[N0 E0 A0]|[N0 E0 A0]]; rewrite An in *.
    - split; [done|]. split; [done|]. intros t Lt Nt. apply A0; [done|]. intros It. apply Nt. unfold all_txs. rewrite map_app, concat_app.
      apply elem_of_app. by left.
    - split; [intros i y Hy; apply N0; by apply lookup_app_l_Some|]. split; [|done]. intros y d j t Hy. apply E0. apply elem_of_app. by left. }
  destruct W as (N0 & E0 & A0). split.
  - intros i y Hy. destruct (ancestry_num x xd i y Hx Hy) as (e & He & Ne). pose proof (tree_u64 _ _ _ T _ _ He) as U. rewrite Ne in U.
    rewrite G1 by done. rewrite An in Hy. case_decide as D.
    + assert (i = S n) as -> by lia. rewrite lookup_app_r in Hy by (rewrite length_ancestry; lia). rewrite length_ancestry, Nat.sub_diag in Hy. by injection Hy.
    + apply N0. rewrite lookup_app_l in Hy; [done|]. apply lookup_lt_Some in Hy. rewrite length_app, length_ancestry in *. cbn in Hy. lia.
  - rewrite An. intros y d j t [Hy|Hy%list_elem_of_singleton]%elem_of_app Hd Hj.
    + rewrite G3; [by apply E0|apply (len_tx y d); [done|by eapply list_elem_of_lookup_2]|]. apply Dj. apply elem_of_all_txs. exists y.
      split; [done|by eapply list_elem_of_lookup_2].
    + subst y. assert (d = xd) as -> by congruence. by apply G2.
  - intros t Lt Nt. rewrite G3; [by apply A0|done|]. intros It. apply Nt, elem_of_all_txs. exists x. split; [|done]. rewrite An. apply elem_of_app. right. by apply list_elem_of_singleton.
Qed.
End Chain.

Lemma lookup_batch (m1 m2 : database) k : (m1 ∪ m2) !! k = match m1 !! k with Some v => Some v | None => m2 !! k end.
Proof. rewrite lookup_union. by destruct (m1 !! k), (m2 !! k). Qed.

(** The block itself writes no nodes. *)
Lemma WriteBlock_nodes b b0 db :
  stored_header (b_header b) (num (b_header b)) -> body_ok (Block_Body b) -> hash_of b = Header_Hash (b_header b) -> WriteBlock b ∅ = Ok b0 ->
  nodes_kept db (b0 ∪ db).
Proof.
  intros St Bo Eh E. pose proof (WriteBlock_eq b _ ∅ St Bo Eh) as E'. cbn zeta in E'. rewrite E' in E. apply ok_inj in E. subst b0.
  intros k v L H. destruct St as (_ & _ & _ & U). pose proof (len_Header_Hash (b_header b)). rewrite lookup_batch. change k with (key_of (KNode k)) at 1.
  rewrite !lookup_Put by done. by rewrite !decide_False, lookup_empty by done.
Qed.

(** The index is read at these keys. *)
Definition index_same (db db' : database) : Prop :=
  (forall i, is_u64 i -> Get db' (key_of (KCanonical i)) = Get db (key_of (KCanonical i))) /\
  (forall t, len t = 32 -> Get db' (key_of (KLookup t)) = Get db (key_of (KLookup t))).

Lemma chain_at_frame g hs tds txs h d db db' :
  tree_ok g hs tds -> txs_wf hs txs -> hs !! h = Some d -> index_same db db' -> chain_at hs txs (height d) h db -> chain_at hs txs (height d) h db'.
Proof.
  intros T Wf H [I1 I2] [N0 E0 A0]. split.
  - intros i x Hx. destruct (ancestry_num g hs tds T h d i x H Hx) as (e & He & Ne). pose proof (tree_u64 _ _ _ T _ _ He) as U. rewrite Ne in U.
    rewrite I1 by done. by apply N0.
  - intros x e j t Hx He Hj. rewrite I2 by (apply (len_tx hs txs Wf x e); [done|by eapply list_elem_of_lookup_2]). by apply E0.
  - intros t Lt Nt. rewrite I2 by done. by apply A0.
Qed.

(** A new leaf of the tree is on no other chain. *)
Lemma chain_at_add g hs tds txs hdr ptd h d db :
  tree_ok g hs tds -> addable hs tds hdr -> tds !! hd_ParentHash hdr = Some ptd -> hs !! h = Some d ->
  chain_at hs txs (height d) h db -> chain_at (<[Header_Hash hdr := hdr]> hs) txs (height d) h db.
Proof.
  intros T A P H [N0 E0 A0]. assert (An : ancestry (<[Header_Hash hdr := hdr]> hs) (height d) h = ancestry hs (height d) h).
  { apply (ancestry_insert g hs tds T h d); [done|]. apply (a_fresh _ _ _ A). }
  split; rewrite ?An; try done. intros x e j t Hx He Hj. apply E0; [done| |done]. apply list_elem_of_lookup_1 in Hx as [i Hi].
  destruct (ancestry_num g hs tds T h d i x H Hi) as (e' & He' & _). pose proof (add_mono g hs tds T hdr A ptd P x e' He'). congruence.
Qed.

(** ** The invariant *)

(** The chain holds a tree of blocks with their total difficulties; [head] is a heaviest block
    of it, and the numbers and the index of transactions are those of its chain. *)
Record bc_holds (g : bytes) (hs : headers) (tds : difficulties) txs (head : bytes) (s : BlockChain) : Prop := mkBcHolds {
  bh_tree : tree_ok g hs tds;
  bh_db : db_holds (bc_db s) hs tds;
  bh_stores : stores (bc_db s) txs hs;
  bh_warm : warm hs tds txs s;
  bh_txs : txs_wf hs txs;
  bh_head : exists b, currentBlock s = Some b /\ is_block hs txs head b /\ chain_at hs txs (height (b_header b)) head (bc_db s);
  bh_key : Get (bc_db s) (key_of KHeadBlock) = head;
  bh_heaviest : exists t, tds !! head = Some t /\ forall h t', tds !! h = Some t' -> t' <= t;
  bh_unlocked : bc_mu s = false
}.

(** A block that can be written: its header fits below its parent, its parts can be encoded,
    and no chain of it has a transaction twice. *)
Record writable (hs : headers) (tds : difficulties) txs (block : Block) (receipts : list Receipt) : Prop := mkWritable {
  w_addable : addable hs tds (b_header block);
  w_body : body_ok (Block_Body block);
  w_receipts : receipts_ok receipts;
  w_hash : hash_of block = Header_Hash (b_header block);
  w_txs : tx_hashes (b_transactions block) = txs (hash_of block);
  w_decoded : tx_hashes (map decoded_tx (b_transactions block)) = txs (hash_of block);
  w_wf : txs_wf (<[hash_of block := b_header block]> hs) txs
}.

(** The context and the states of a block are committed: to nodes and preimages, where the
    database has them with the same content, and with which the context of the header opens. *)
Record commits (s : BlockChain) (block : Block) (st : StateDB) (rec : StateDBRecord) (b3 : database) (pc' : PocContext)
    (st' : StateDB) (rec' : StateDBRecord) : Prop := mkCommits {
  cs_run : exists pc b0 b1 b2 p root root', b_PocContext block = Some pc /\ WriteBlock block ∅ = Ok b0 /\ Poc_CommitTo b0 pc = Ok (p, pc', b1) /\
    StateDB.CommitTo (IsEIP158 (bc_config s) (hd_Number (b_header block))) st b1 = Ok (inr root, st', b2) /\
    rec_CommitTo (IsEIP158 (bc_config s) (hd_Number (b_header block))) rec b2 = Ok (inr root', rec', b3) /\ touch node_key b0 b3;
  cs_nodes : nodes_kept (bc_db s) (b3 ∪ bc_db s);
  cs_context : context_at (b3 ∪ bc_db s) (b_header block);
  cs_preimages : hashes_of (StateDB.preimages st') /\ hashes_of (r_preimages rec')
}.

Section Write.
Context (g : bytes) (hs : headers) (tds : difficulties) (T : tree_ok g hs tds) (txs : bytes -> list bytes).
Context (block : Block) (receipts : list Receipt) (W : writable hs tds txs block receipts) (ptd : Z).
Context (P : tds !! parent_hash block = Some ptd).

Abbreviation hdr := (b_header block).
Abbreviation hash := (Header_Hash (b_header block)).
Abbreviation hs' := (<[hash := hdr]> hs).
Abbreviation tds' := (<[hash := diff hdr + ptd]> tds).

Let A : addable hs tds hdr := w_addable _ _ _ _ _ W.

(** What the total difficulty and the block itself add to a database. *)
Definition own_entry (k : dbkey) : option bytes :=
  if decide (k = KTd hash (num hdr)) then Some (enc_string (be_min (diff hdr + ptd))) else block_entries block receipts k.

Definition adds (db db' : database) : Prop :=
  forall k, key_ok k -> ~ index_key k -> ~ node_key k -> db' !! key_of k = match own_entry k with Some v => Some v | None => db !! key_of k end.

Definition own_key (k : dbkey) : Prop :=
  match k with KTd h _ | KHeader h _ | KNumber h | KBody h _ | KReceipts h _ => h = hash | _ => index_key k \/ node_key k end.

Lemma adds_touch db db' : adds db db' -> touch own_key db db'.
Proof.
  intros D k K N. rewrite D; [|done|intros I; apply N; by destruct k; try done; left|intros I; apply N; by destruct k; try done; right].
  unfold own_entry, block_entries. cbn zeta. rewrite !decide_False; [done|..]; intros ->; by apply N.
Qed.

Lemma adds_holds db db' : db_holds db hs tds -> adds db db' -> db_holds db' hs' tds'.
Proof.
  intros D Ad. apply (db_holds_frame (add_db hdr ptd db)); [|by apply (db_add g)]. intros k K Tk.
  pose proof (add_u64 _ _ _ A) as U. pose proof (len_Header_Hash hdr) as L.
  rewrite Ad; [|done|destruct k; try done; by intros []|destruct k; try done; by intros []]. unfold add_db. rewrite !lookup_Put by done. unfold own_entry, block_entries. cbn zeta.
  destruct k; try done; repeat case_decide; congruence.
Qed.

Lemma adds_stores db db' :
  stores db txs hs -> adds db db' -> nodes_kept db db' -> context_at db' hdr -> stores db' txs hs'.
Proof.
  intros S Ad N C h d H. apply lookup_insert_Some in H as [[<- <-]|[Ne H]].
  - pose proof (add_u64 _ _ _ A) as U. pose proof (len_Header_Hash hdr) as L. assert (G : forall k v, key_ok k -> ~ index_key k -> ~ node_key k -> own_entry k = Some v -> Get db' (key_of k) = v).
    { intros k v K N1 N2 E. unfold Get. by rewrite Ad, E. }
    split; try done.
    + apply G; try done; try tauto. unfold own_entry, block_entries. cbn zeta. rewrite !decide_False by done. by rewrite decide_True.
    + apply G; try done; try tauto. unfold own_entry, block_entries. cbn zeta. rewrite decide_False by done. by rewrite decide_True.
    + exists (Block_Body block). split; [apply (w_body _ _ _ _ _ W)|]. rewrite <- (w_hash _ _ _ _ _ W) at 2. split; [|apply (w_decoded _ _ _ _ _ W)].
      apply G; try done; try tauto. unfold own_entry, block_entries. cbn zeta. rewrite !decide_False by done. by rewrite decide_True.
    + right. exists receipts. split; [apply (w_receipts _ _ _ _ _ W)|].
      apply G; try done; try tauto. unfold own_entry, block_entries. cbn zeta. rewrite !decide_False by done. by rewrite decide_True.
  - destruct (t_hash _ _ _ T _ _ H) as (_ & St & _). apply (stored_block_kept own_key db); try done; try congruence.
    + by apply adds_touch.
    + apply (tree_len _ _ _ T). by exists d.
    + by apply S.
Qed.

Lemma is_block_add h b : is_block hs txs h b -> is_block hs' txs h b.
Proof. intros (H & E). split; [by apply (add_mono g hs tds T hdr A ptd P)|done]. Qed.

Lemma warm_add s : warm hs tds txs s -> warm hs' tds' txs s.
Proof.
  intros [C B]. split; [by apply (caches_add g)|]. eapply lru_all_impl; [|exact B]. intros h b. apply is_block_add.
Qed.

(** The parents of all blocks, and the old head, are stored before the block is. *)
Lemma parents_stored_add db : stores db txs hs -> parents_stored hs' txs db.
Proof.
  intros S h d p H Hp N. assert (Q : exists q, hs !! hd_ParentHash d = Some q).
  { apply lookup_insert_Some in H as [[_ <-]|[_ H]].
    - destruct (add_parent g hs tds T hdr A ptd P) as (q & Hq & _). by exists q.
    - destruct (t_parent _ _ _ T h d H N) as (q & Hq & _). by exists q. }
  destruct Q as [q Hq]. pose proof (add_mono g hs tds T hdr A ptd P _ _ Hq). assert (q = p) as -> by congruence. by apply S.
Qed.
(** The block with the context that was committed. *)
Definition own_block (pc : option PocContext) : Block := mkBlock hdr (b_uncles block) (b_transactions block) (b_hash block) (b_size block) pc.

Lemma own_block_ok pc : is_block hs' txs hash (own_block pc).
Proof.
  split; [apply lookup_insert_eq|]. assert (E : hash_of (own_block pc) = hash_of block) by (unfold hash_of, Block_Hash; cbn [own_block b_hash b_header]; by destruct (b_hash block)).
  rewrite E. split; [apply (w_hash _ _ _ _ _ W)|]. rewrite <- (w_hash _ _ _ _ _ W). apply (w_txs _ _ _ _ _ W).
Qed.

Lemma own_height p : hs !! parent_hash block = Some p -> height hdr = S (height p).
Proof. intros H. pose proof (a_parent _ _ _ A p H). pose proof (num_nonneg _ _ _ T _ _ H). unfold height. lia. Qed.

Lemma own_wf : txs_wf hs' txs.
Proof. pose proof (w_wf _ _ _ _ _ W) as H. by rewrite (w_hash _ _ _ _ _ W) in H. Qed.

Lemma index_same_touch (Q : dbkey -> Prop) db db' : touch Q db db' -> (forall k, index_key k -> ~ Q k) -> index_same db db'.
Proof. intros D N. split; intros i Hi; apply (touch_Get _ _ _ _ D); try done; by apply N. Qed.

(** The chain above which the block comes is indexed, by a reorganisation if it is not the head's. *)
Lemma make_canonical_ok fuel head ob pc batch st rec s p :
  currentBlock s = Some ob -> is_block hs txs head ob -> stores (bc_db s) txs hs -> warm hs' tds' txs s ->
  chain_at hs txs (height (b_header ob)) head (bc_db s) -> hs !! parent_hash block = Some p ->
  (height (b_header ob) < fuel)%nat -> (height hdr < fuel)%nat -> hashes_of (StateDB.preimages st) -> hashes_of (r_preimages rec) ->
  exists s' batch', make_canonical fuel (own_block pc) (num hdr) batch st rec s = Ok (s', inr batch') /\
    WriteTxLookupEntries (own_block pc) batch = Ok batch' /\ steady s s' /\ warm hs' tds' txs s' /\
    touch (fun k => index_key k \/ is_preimage k) (bc_db s) (bc_db s') /\
    (chain_at hs' txs (height p) (parent_hash block) (bc_db s') \/ chain_at hs' txs (height hdr) hash (bc_db s')) /\
    (hash ∉ ancestry hs' (height (b_header ob)) head -> head ∉ ancestry hs' (height hdr) hash ->
       chain_at hs' txs (height hdr) hash (bc_db s') /\ at_fork hs' txs (height (b_header ob)) head (height hdr) hash s').
Proof.
  intros Ec Io S Ww Ca Hp F1 F2 H1 H2. pose proof (tree_add g hs tds T hdr A ptd P) as T'. pose proof own_wf as Wf. pose proof (own_block_ok pc) as Ix.
  destruct Io as (Ho & Eo & Et). pose proof (chain_at_add g hs tds txs hdr ptd head _ (bc_db s) T A P Ho Ca) as Ca'.
  assert (R : exists s1, (if bool_decide (parent_hash (own_block pc) = hash_of ob) then mret tt else reorg fuel ob (own_block pc)) s = Ok (s1, inr tt) /\
    steady s s1 /\ warm hs' tds' txs s1 /\ touch (fun k => index_key k \/ is_preimage k) (bc_db s) (bc_db s1) /\
    (chain_at hs' txs (height p) (parent_hash block) (bc_db s1) \/ chain_at hs' txs (height hdr) hash (bc_db s1)) /\
    (hash ∉ ancestry hs' (height (b_header ob)) head -> head ∉ ancestry hs' (height hdr) hash ->
       chain_at hs' txs (height hdr) hash (bc_db s1) /\ at_fork hs' txs (height (b_header ob)) head (height hdr) hash s1)).
  { case_bool_decide as E.
    - exists s. split; [done|]. split; [done|]. split; [done|]. split; [done|]. change (parent_hash block = hash_of ob) in E.
      rewrite Eo in E. rewrite E in *. assert (p = b_header ob) as -> by congruence. split; [by left|]. intros _ No. destruct No.
      rewrite (own_height (b_header ob)) by (by rewrite E). cbn [ancestry]. unfold parent_of. rewrite lookup_insert_eq. fold (parent_hash block). rewrite E.
      apply elem_of_app. left. eapply list_elem_of_lookup_2, ancestry_last.
    - destruct (reorg_ok g hs' tds' T' txs fuel head ob hash (own_block pc) s) as (c & s1 & db1 & E1 & S1 & W1 & I1 & D1 & _ & _ & Ag & Fk); try done.
      + by apply is_block_add.
      + exists (b_header ob). split; [by apply (add_mono g hs tds T hdr A ptd P)|by apply S].
      + by apply parents_stored_add.
      + exists s1. split; [done|]. split; [done|]. split; [done|]. split.
        * apply (touch_trans _ _ db1); [eapply touch_weaken; [|apply I1]; by left|]. eapply touch_weaken; [|apply D1]. intros k [t ->]. by left.
        * assert (Cx : chain_at hs' txs (height hdr) hash (bc_db s1)).
          { apply (reorg_chain g hs' tds' T' txs Wf head (b_header ob) hash hdr c (bc_db s) db1); try done.
            - by apply (add_mono g hs tds T hdr A ptd P).
            - apply lookup_insert_eq. }
          split; [by right|]. intros Nx No. split; [done|]. apply Fk; [apply Ca'|done|done]. }
  destruct R as (s1 & E1 & S1 & W1 & T1 & C1 & F1').
  destruct (entries_ok g hs' tds' T' txs hash (own_block pc) batch Ix) as (batch' & E2 & _).
  - apply (Wf hash hdr). apply lookup_insert_eq.
  - apply (Wf hash hdr). apply lookup_insert_eq.
  - assert (NoDup (all_txs txs (ancestry hs' (height hdr) hash))) as N by (apply NoDup_chain; [done|apply lookup_insert_eq]).
    apply (NoDup_above txs (height p)) in N. rewrite (own_height p Hp) in N. cbn [ancestry] in N.
    rewrite above_snoc, above_all in N by (rewrite length_ancestry; lia). unfold all_txs in N. cbn in N. by rewrite app_nil_r in N.
  - unfold make_canonical. go_step. rewrite Ec. go_step. go_step E1. rewrite E2. go_step. go_step. go_step. eexists _, batch'. split; [reflexivity|].
    split; [done|]. split; [exact S1|]. split; [by destruct W1 as [[? ? ?] ?]|]. match goal with |- touch _ _ ?d /\ _ => set (db2 := d) end. assert (T2 : touch is_preimage (bc_db s1) db2).
    { eapply touch_trans; apply WritePreimages_touch; done. }
    split; [eapply touch_trans; [exact T1|]; eapply touch_weaken; [|exact T2]; by right|].
    assert (Is : index_same (bc_db s1) db2) by (apply (index_same_touch _ _ _ T2); intros k Ik Pk; by destruct k).
    assert (Cx : chain_at hs' txs (height hdr) hash (bc_db s1) -> chain_at hs' txs (height hdr) hash db2).
    { intros C. eapply chain_at_frame; try done. apply lookup_insert_eq. }
    split; [|intros Nx No; destruct (F1' Nx No) as [C F]; split; [by apply Cx|exact F]].
    destruct C1 as [C1|C1]; [left|right; by apply Cx]. eapply chain_at_frame; try done. by apply (add_mono g hs tds T hdr A ptd P).
Qed.

Abbreviation td_entry := (enc_string (be_min (diff hdr + ptd))).

(** The batch over the database, with what else was written. *)
Lemma union_adds b3 batch db db4 db' :
  (forall k, key_ok k -> ~ node_key k -> ~ index_key k -> batch !! key_of k = block_entries block receipts k) ->
  (forall h, len h = 32 -> batch !! h = b3 !! h) ->
  touch (fun k => index_key k \/ is_preimage k) (Put (key_of (KTd hash (num hdr))) td_entry db) db4 -> touch index_key (batch ∪ db4) db' ->
  nodes_kept db (b3 ∪ db) -> context_at (b3 ∪ db) hdr -> adds db db' /\ nodes_kept db db' /\ context_at db' hdr.
Proof.
  intros B Bn T4 T5 N C. pose proof (add_u64 _ _ _ A) as U. pose proof (len_Header_Hash hdr) as L.
  assert (G : forall k, key_ok k -> ~ index_key k -> ~ is_preimage k ->
            db' !! key_of k = match batch !! key_of k with Some v => Some v | None => Put (key_of (KTd hash (num hdr))) td_entry db !! key_of k end).
  { intros k K N1 N2. rewrite (T5 k K N1), lookup_batch, (T4 k K); [done|]. by intros [I|I]. }
  assert (Gn : forall h, len h = 32 -> db' !! h = (b3 ∪ db) !! h).
  { intros h Lh. change h with (key_of (KNode h)) at 1. rewrite G by (done || by intros []). rewrite lookup_Put by done. rewrite decide_False by done.
    change (key_of (KNode h)) with h. rewrite lookup_batch. by rewrite Bn. }
  split; [|split].
  - intros k K N1 N2. rewrite G; [|done|done|by destruct k]. rewrite B by done. rewrite lookup_Put by done. unfold own_entry.
    destruct (decide (k = KTd hash (num hdr))) as [->|Nk]; [rewrite decide_True by done; unfold block_entries; cbn zeta; by rewrite !decide_False by done|].
    by rewrite (decide_False (P := KTd hash (num hdr) = k)) by congruence.
  - intros h v Lh E. rewrite Gn by done. by apply N.
  - apply (context_kept (b3 ∪ db)); [by destruct (a_stored _ _ _ A)| |done]. intros h v Lh E. by rewrite Gn.
Qed.

(** A heaviest block after the block was added. *)
Lemma heaviest_add head t (b : bool) :
  tds !! head = Some t -> (forall h t', tds !! h = Some t' -> t' <= t) ->
  (if b then t <= diff hdr + ptd else diff hdr + ptd <= t) ->
  exists t, tds' !! (if b then hash else head) = Some t /\ forall h t', tds' !! h = Some t' -> t' <= t.
Proof.
  intros Ht Mx Hb. destruct b.
  - exists (diff hdr + ptd). split; [apply lookup_insert_eq|]. intros h t' [[_ <-]|[_ H]]%lookup_insert_Some; [lia|]. apply Mx in H. lia.
  - exists t. split; [by apply (add_mono_td g hs tds T hdr A ptd P)|]. intros h t' [[_ <-]|[_ H]]%lookup_insert_Some; [lia|by apply Mx in H].
Qed.

(** The block on top of its chain: the batch is written and the block becomes the head. *)
Lemma become_current b3 batch pc p s4 db :
  (forall k, key_ok k -> ~ node_key k -> batch !! key_of k = block_entries block receipts k) -> (forall h, len h = 32 -> batch !! h = b3 !! h) ->
  hs !! parent_hash block = Some p -> warm hs' tds' txs s4 ->
  touch (fun k => index_key k \/ is_preimage k) (Put (key_of (KTd hash (num hdr))) td_entry db) (bc_db s4) ->
  (chain_at hs' txs (height p) (parent_hash block) (bc_db s4) \/ chain_at hs' txs (height hdr) hash (bc_db s4)) ->
  nodes_kept db (b3 ∪ db) -> context_at (b3 ∪ db) hdr ->
  exists batch' s5 s6, WriteTxLookupEntries (own_block pc) batch = Ok batch' /\
    put_db (fun db => batch' ∪ db) s4 = Ok (s5, inr tt) /\ insert (own_block pc) s5 = Ok (s6, inr tt) /\
    adds db (bc_db s6) /\ nodes_kept db (bc_db s6) /\ context_at (bc_db s6) hdr /\ warm hs' tds' txs s6 /\ steady s4 s6 /\
    currentBlock s6 = Some (own_block pc) /\ chain_at hs' txs (height hdr) hash (bc_db s6) /\ Get (bc_db s6) (key_of KHeadBlock) = hash /\
    (chain_at hs' txs (height hdr) hash (bc_db s4) -> currentHeader (bc_hc s6) = currentHeader (bc_hc s4) /\ currentFastBlock s6 = currentFastBlock s4).
Proof.
  intros B Bn Hp W4 T4 Ch N C. pose proof (tree_add g hs tds T hdr A ptd P) as T'. pose proof own_wf as Wf. pose proof (own_block_ok pc) as Ix.
  pose proof (add_u64 _ _ _ A) as U. pose proof (len_Header_Hash hdr) as L.
  assert (Hx : hs' !! hash = Some hdr) by apply lookup_insert_eq. destruct (Wf hash hdr Hx) as (Lx & Fx & NDx).
  assert (ND : NoDup (txs hash)).
  { apply (NoDup_above txs (height p)) in NDx. rewrite (own_height p Hp) in NDx. cbn [ancestry] in NDx.
    rewrite above_snoc, above_all in NDx by (rewrite length_ancestry; lia). unfold all_txs in NDx. cbn in NDx. by rewrite app_nil_r in NDx. }
  destruct (entries_ok g hs' tds' T' txs hash (own_block pc) batch Ix Lx Fx ND) as (batch' & E1 & G1 & O1).
  set (s5 := set_hc (set_db (batch' ∪ bc_db s4) (bc_hc s4)) s4). assert (W5 : warm hs' tds' txs s5) by by destruct W4 as [[? ? ?] ?].
  destruct (insert_ok g hs' tds' T' txs hash (own_block pc) s5 Ix W5) as (s6 & E6 & S6 & W6 & C6 & G6 & H6).
  exists batch', s5, s6. split; [done|]. split; [done|]. split; [done|].
  assert (T6 : touch index_key (batch' ∪ bc_db s4) (bc_db s6)).
  { intros k K Nk. rewrite G6; [|done|by intros ->; apply Nk|by intros ->; apply Nk]. rewrite !decide_False; [done| |]; intros ->; by apply Nk. }
  assert (O : forall k, key_ok k -> ~ node_key k -> (forall t, t ∈ txs hash -> k <> KLookup t) -> batch' !! key_of k = block_entries block receipts k).
  { intros k K Nk Nt. rewrite O1 by done. by apply B. }
  destruct (union_adds b3 batch' db (bc_db s4) (bc_db s6)) as (Ad & Nk & Cx); try done.
  { intros k K N1 N2. apply O; [done|done|]. intros t _ ->. by apply N2. }
  { intros h Lh. rewrite <- (Bn h Lh). by apply (O1 (KNode h)). }
  split; [done|]. split; [done|]. split; [done|]. split; [done|]. split; [exact S6|]. split; [done|].
  assert (Ge : forall k, key_ok k -> (exists i, k = KCanonical i) \/ (exists t, k = KLookup t /\ t ∉ txs hash) -> (batch' ∪ bc_db s4) !! key_of k = bc_db s4 !! key_of k).
  { intros k K Hk. rewrite lookup_batch, O; [|done|by destruct Hk as [[i ->]|(t & -> & _)]; intros []|].
    - unfold block_entries. cbn zeta. by destruct Hk as [[i ->]|(t & -> & _)]; rewrite !decide_False.
    - intros t Ht ->. destruct Hk as [[i Hi]|(t' & Et & Nt)]; [done|]. injection Et as ->. done. }
  split; [|split; [unfold Get; rewrite G6 by done; by rewrite decide_False, decide_True by done|]].
  2: { intros [Cn _ _]. pose proof (Cn (height hdr) hash (ancestry_last _ _ _)) as Gc. assert (N0 : Z.of_nat (height hdr) = num hdr) by (pose proof U as [U0 _]; unfold height; lia).
    rewrite N0 in Gc. rewrite bool_decide_eq_true_2 in H6; [exact H6|]. cbn [own_block b_header]. apply hash_at_hash; [|exact L]. rewrite <- Gc. apply Get_lookup.
    apply (Ge (KCanonical (num hdr))); [exact U|left; by eexists]. }
  apply (grow_chain g hs' tds' T' txs Wf hash hdr (height p) (bc_db s4)); [done|by apply own_height|done| | |].
  - intros i Ui. assert (Ki : key_ok (KCanonical i)) by exact Ui. unfold Get. rewrite G6 by done. cbn [own_block b_header]. destruct (decide (i = num hdr)) as [->|Ni]; [by rewrite decide_True|].
    rewrite decide_False by congruence. rewrite decide_False by done. change (bc_db s5) with (batch' ∪ bc_db s4). rewrite Ge; [done|done|left; by exists i].
  - intros j t Hj. assert (Lt : len t = 32) by (apply (len_tx hs' txs Wf hash hdr); [done|by eapply list_elem_of_lookup_2]). unfold Get. rewrite G6 by done.
    rewrite !decide_False by done. change (bc_db s5) with (batch' ∪ bc_db s4). by rewrite lookup_batch, (G1 j t Hj).
  - intros t Lt Nt. unfold Get. rewrite G6 by done. rewrite !decide_False by done. change (bc_db s5) with (batch' ∪ bc_db s4).
    rewrite Ge; [done|done|right; by exists t].
Qed.

(** The total difficulty comes first. *)
Lemma td_written s : warm hs tds txs s ->
  exists s', on_hc (hc_WriteTd hash (num hdr) (diff hdr + ptd)) s = Ok (s', inr tt) /\ steady s s' /\ currentBlock s' = currentBlock s /\
    bc_db s' = Put (key_of (KTd hash (num hdr))) td_entry (bc_db s) /\ warm hs' tds' txs s'.
Proof.
  intros Ww. destruct (warm_add s Ww) as [[C1 C2 C3] B]. eexists. split.
  - apply on_hc_ok. unfold hc_WriteTd, write_crit, modify, mbind, go_bind. rewrite WriteTd_eq by (by apply (a_td _ _ _ A)). reflexivity.
  - split; [done|]. split; [done|]. split; [done|]. split; [|done]. split; cbn; [done| |done]. apply lru_Add_all; [done|apply lookup_insert_eq].
Qed.

Lemma td_stores s s' : bc_db s' = Put (key_of (KTd hash (num hdr))) td_entry (bc_db s) -> stores (bc_db s) txs hs ->
  stores (bc_db s') txs hs /\ index_same (bc_db s) (bc_db s') /\ Get (bc_db s') (key_of KHeadBlock) = Get (bc_db s) (key_of KHeadBlock).
Proof.
  intros E S. pose proof (add_u64 _ _ _ A) as U. pose proof (len_Header_Hash hdr) as L.
  assert (D : touch (fun k => match k with KTd _ _ => True | _ => False end) (bc_db s) (bc_db s')) by (rewrite E; by apply (touch_put (KTd hash (num hdr)))).
  split; [|split; [|by apply (touch_Get _ _ _ _ D); try done; intros []]].
  - intros h d H. destruct (t_hash _ _ _ T _ _ H) as (_ & St & _). eapply stored_block_kept; try exact D; try done; try (by intros []).
    + apply (nodes_touch _ _ _ D). by intros h' [].
    + apply (tree_len _ _ _ T). by exists d.
    + by apply S.
  - apply (index_same_touch _ _ _ D). intros k Ik Pk. by destruct k.
Qed.

Lemma fill_ok s b3 pc' st rec st' rec' :
  commits s block st rec b3 pc' st' rec' ->
  let batch := Put (key_of (KReceipts hash (num hdr))) (enc_receipts receipts) b3 in
  (forall s', bc_config s' = bc_config s -> fill_batch block (num hdr) receipts st rec s' =
    Ok (set_tries (pastTries (s_db st')) (pastTries (r_db rec')) s', inr (batch, own_block (Some pc'), st', rec'))) /\
  (forall k, key_ok k -> ~ node_key k -> batch !! key_of k = block_entries block receipts k) /\ (forall h, len h = 32 -> batch !! h = b3 !! h).
Proof.
  intros [(pc & b0 & b1 & b2 & p & root & root' & Ep & E0 & E1 & E2 & E3 & Tn) _ _ _] batch. pose proof (add_u64 _ _ _ A) as U. pose proof (len_Header_Hash hdr) as L.
  split; [|split].
  - intros s' Ec. rewrite <- Ec in *. eapply (commits_fill s' block receipts st rec); try done; [apply (a_stored _ _ _ A)|apply (w_body _ _ _ _ _ W)|apply (w_hash _ _ _ _ _ W)|apply (w_receipts _ _ _ _ _ W)].
  - eapply (commits_fill s block receipts st rec); try done; [apply (a_stored _ _ _ A)|apply (w_body _ _ _ _ _ W)|apply (w_hash _ _ _ _ _ W)|apply (w_receipts _ _ _ _ _ W)].
  - intros h Lh. unfold batch. change h with (key_of (KNode h)) at 1. rewrite lookup_Put by done. by rewrite decide_False.
Qed.

Lemma own_number s : block_number block s = Ok (s, inr (num hdr)).
Proof.
  destruct (a_stored _ _ _ A) as (_ & _ & E & U). unfold block_number. rewrite E. go_step. by rewrite big_Uint64_u64.
Qed.

Lemma own_difficulty : hd_Difficulty hdr = Some (diff hdr).
Proof. destruct (a_stored _ _ _ A) as (Ho & _). destruct (ho_Difficulty _ Ho) as (d & Ed & _). unfold diff. by rewrite Ed. Qed.

Lemma with_lock_ok {R} (m : go BlockChain bc_error R) s s' r : bc_mu s = false -> m (set_mu true s) = Ok (s', r) -> with_lock m s = Ok (set_mu false s', r).
Proof. intros U E. unfold with_lock. by rewrite U, E. Qed.

(** The block is written and the head chosen, from a state that differs from the invariant's
    in its caches. *)
Lemma write_locked_ok fuel coin head s s1 st rec b3 pc' st' rec' ob t :
  bc_holds g hs tds txs head s -> quiet s s1 -> warm hs tds txs s1 -> commits s block st rec b3 pc' st' rec' ->
  currentBlock s = Some ob -> tds !! head = Some t -> (height (b_header ob) < fuel)%nat -> (height hdr < fuel)%nat ->
  let canon := better (diff hdr + ptd) t (num hdr) (num (b_header ob)) coin in
  exists s', write_locked fuel coin block (num hdr) ptd receipts st rec s1 = Ok (s', inr (if canon then CanonStatTy else SideStatTy)) /\
    bc_holds g hs' tds' txs (if canon then hash else head) s' /\
    (canon = true -> hash ∉ ancestry hs' (height (b_header ob)) head -> head ∉ ancestry hs' (height hdr) hash ->
       at_fork hs' txs (height (b_header ob)) head (height hdr) hash s').
Proof.
  intros [_ D St _ Wf0 (b & Eb & Ib & Ca) Kh (lt & Hlt & Mx) Mu] Q W1 Cm Eo Ht F1 F2 canon. assert (b = ob) as -> by congruence. assert (lt = t) as -> by congruence.
  pose proof (fill_ok s b3 pc' st rec st' rec' Cm) as (Ef & Bk & Bn). destruct Cm as [_ Cn Cx [Cp1 Cp2]].
  destruct (add_parent g hs tds T hdr A ptd P) as (p & Hp & _).
  assert (Q1 : bc_db s1 = bc_db s /\ currentBlock s1 = Some ob /\ bc_mu s1 = false /\ bc_config s1 = bc_config s).
  { injection Q as -> -> _ _ -> _ -> _ _. by rewrite Eo, Mu. }
  destruct Q1 as (Qd & Qc & Qm & Qf). pose proof Ib as (Hh & Eh & _).
  destruct (hc_GetTd_holds g hs tds T head (num (b_header ob)) (bc_hc (set_mu true s1))) as (h2 & E2 & (S2 & _) & C2).
  { fold (bc_db (set_mu true s1)). change (bc_db (set_mu true s1)) with (bc_db s1). by rewrite Qd. }
  { apply W1. }
  { split; [apply (tree_len _ _ _ T); by eexists|]. split; [exact (tree_u64 _ _ _ T _ _ Hh)|]. intros; congruence. }
  set (s2 := set_hc h2 (set_mu true s1)). assert (W2 : warm hs tds txs s2) by (split; [exact C2|apply W1]).
  assert (Db2 : bc_db s2 = bc_db s) by (rewrite <- Qd; exact S2). rewrite Ht in E2.
  destruct (td_written s2 W2) as (s3 & E3 & S3 & Cu3 & D3 & W3). destruct (td_stores s2 s3 D3) as (St3 & Is3 & Kh3); [by rewrite Db2|]. rewrite Db2 in D3, Is3, Kh3.
  assert (Cf : bc_config s3 = bc_config s) by (rewrite <- Qf; by injection S3).
  set (s4 := set_tries (pastTries (s_db st')) (pastTries (r_db rec')) s3). set (batch := Put _ _ b3) in *.
  assert (Ca3 : chain_at hs txs (height (b_header ob)) head (bc_db s4)) by (apply (chain_at_frame g hs tds txs head (b_header ob) (bc_db s)); done).
  assert (Hv : exists t, tds' !! (if canon then hash else head) = Some t /\ forall h t', tds' !! h = Some t' -> t' <= t).
  { apply (heaviest_add head t); [done|done|]. unfold canon, better. destruct (Z.ltb_spec t (diff hdr + ptd)); cbn [orb]; [lia|].
    destruct (Z.eqb_spec (diff hdr + ptd) t); cbn [andb]; [|lia]. destruct (_ || _); lia. }
  assert (Run : forall s' r, (
      '(status, batch) ← (if canon then batch ← make_canonical fuel (own_block (Some pc')) (num hdr) batch st' rec'; mret (CanonStatTy, batch) else mret (SideStatTy, batch));
      put_db (fun db => batch ∪ db);; (match status with CanonStatTy => insert (own_block (Some pc')) | _ => mret tt end);;
      modify (fun s => set_futureBlocks (lru_Remove hash (futureBlocks s)) s);; mret status) s4 = Ok (s', r) ->
    write_locked fuel coin block (num hdr) ptd receipts st rec s1 = Ok (set_mu false s', r)).
  { intros s' r E. apply with_lock_ok; [done|]. go_step. change (currentBlock (set_mu true s1)) with (currentBlock s1). rewrite Qc. go_step.
    go_step (block_number_ok g hs tds T txs head ob (set_mu true s1) Ib). rewrite Eh. go_step (on_hc_ok _ (set_mu true s1) _ _ E2).
    rewrite own_difficulty. go_step. rewrite (w_hash _ _ _ _ _ W). go_step E3. go_step (Ef s3 Cf). go_step.
    rewrite (proj1 (proj2 (own_block_ok (Some pc')))). exact E. }
  destruct canon eqn:Ec.
  - destruct (make_canonical_ok fuel head ob (Some pc') batch st' rec' s4 p) as (s5 & batch' & E5 & Eb5 & S5 & W5 & T5 & C5 & F5); try done.
    { by rewrite <- Qc. }
    change (bc_db s4) with (bc_db s3) in T5. rewrite D3 in T5.
    destruct (become_current b3 batch (Some pc') p s5 (bc_db s) Bk Bn Hp W5 T5 C5 Cn Cx) as (batch2 & s6 & s7 & Eb6 & E6 & E7 & Ad & Nk & Cx7 & W7 & S7 & Cu7 & Ca7 & K7 & H7).
    assert (batch2 = batch') as -> by congruence. eexists. split.
    + apply Run. erewrite go_bind_ok; [|go_step E5; reflexivity]. cbn beta iota. go_step E6. go_step E7. go_step. reflexivity.
    + split; [split; try done|].
      * by apply tree_add.
      * by apply (adds_holds (bc_db s)).
      * by apply (adds_stores (bc_db s)).
      * apply own_wf.
      * exists (own_block (Some pc')). split; [done|]. split; [apply own_block_ok|done].
      * intros _ Nx No. destruct (F5 Nx No) as [C F]. destruct (H7 C) as [Hh7 Hf7]. by apply (at_fork_heads _ _ _ _ _ _ s5).
  - eexists. split.
    + apply Run. do 4 go_step. reflexivity.
    + destruct (union_adds b3 batch (bc_db s) (bc_db s4) (batch ∪ bc_db s4)) as (Ad & Nk & Cxx); try done.
      { intros k K N1 _. by apply Bk. }
      { change (bc_db s4) with (bc_db s3). by rewrite D3. }
      assert (Ge : forall k, key_ok k -> index_key k -> (batch ∪ bc_db s4) !! key_of k = bc_db s4 !! key_of k).
      { intros k K Ik. rewrite lookup_batch, Bk; [|done|intros Nk'; by destruct k]. unfold block_entries. cbn zeta. rewrite !decide_False; [done|..]; by intros ->. }
      split; [split; try done|done].
      * by apply tree_add.
      * by apply (adds_holds (bc_db s)).
      * by apply (adds_stores (bc_db s)).
      * by destruct W3 as [[? ? ?] ?].
      * apply own_wf.
      * exists ob. split; [by rewrite <- Qc|]. split; [by apply is_block_add|].
        apply (chain_at_frame g hs' tds' txs head (b_header ob) (bc_db s4)); [by apply tree_add|apply own_wf|by apply (add_mono g hs tds T hdr A ptd P)| |].
        -- split; intros i Hi; apply Get_lookup, Ge; done.
        -- by apply (chain_at_add g hs tds txs hdr ptd).
      * rewrite <- Kh, <- Kh3. apply Get_lookup. by apply Ge.
Qed.

End Write.

(** ** The gas limit of the next block *)

(** The gas limit a miner gives the next block is one a validator accepts: from a parent
    whose limit is at least the minimum and whose gas used is within its limit, the new limit is
    at least the minimum and differs from the parent's by less than its 1024th part. *)
Theorem CalcGasLimit_acceptable gasUsed gasLimit :
  0 <= gasUsed <= gasLimit -> MinGasLimit <= gasLimit ->
  MinGasLimit <= CalcGasLimit gasUsed gasLimit /\ Z.abs (CalcGasLimit gasUsed gasLimit - gasLimit) < gasLimit / GasLimitBoundDivisor.
Proof.
  unfold CalcGasLimit, MinGasLimit, GasLimitBoundDivisor, TargetGasLimit. intros Hu Hl. cbn zeta.
  assert (Hc : 0 <= gasUsed * 3 / 2 / 1024 <= (gasLimit * 3 / 2) / 1024).
  { split; [repeat apply Z.div_pos; lia|]. apply Z.div_le_mono; [lia|]. apply Z.div_le_mono; lia. }
  rewrite Z.div_div in Hc by lia. change (2 * 1024) with 2048 in Hc. rewrite Z.div_div in Hc by lia. change (2 * 1024) with 2048 in Hc. rewrite Z.div_div by lia. change (2 * 1024) with 2048.
  set (c := gasUsed * 3 / 2048) in *. pose proof (Z.div_mod gasLimit 1024 ltac:(lia)) as D. pose proof (Z.mod_pos_bound gasLimit 1024 ltac:(lia)) as Bm.
  pose proof (Z.div_mod (gasLimit * 3) 2048 ltac:(lia)) as D3. pose proof (Z.mod_pos_bound (gasLimit * 3) 2048 ltac:(lia)).
  set (q := gasLimit / 1024) in *. set (r := gasLimit * 3 / 2048) in *. destruct (Z.ltb_spec (Z.max (gasLimit - (q - 1) + c) 5000) 4712388); lia.
Qed.

(** ** The chain that starts at a genesis block *)

Definition no_txs (h : bytes) : list bytes := [].

(** A genesis block without transactions. *)
Definition genesis_blockchain (config : ChainConfig) (engine : Poc) (gb : Block) (td : Z) : BlockChain :=
  let gh := b_header gb in let c := genesis_chain gh td in
  let db := Put (key_of KHeadBlock) (Header_Hash gh) (Put (key_of (KBody (Header_Hash gh) 0)) (enc_body (mkBody [] [])) (chainDb c)) in
  mkBlockChain config (set_db db c) engine 0 false (Some gb) (Some gb) (Some gb) [] []
    (lru_New 256) (lru_New 256) (lru_New 256) (lru_New 256) (lru_New 10) [].

Lemma genesis_bc_holds config engine gb td :
  let gh := b_header gb in
  stored_header gh 0 -> Header_Hash gh <> zeros HashLength -> td_ok td -> hash_of gb = Header_Hash gh -> b_transactions gb = [] ->
  context_at (bc_db (genesis_blockchain config engine gb td)) gh ->
  bc_holds (Header_Hash gh) {[Header_Hash gh := gh]} {[Header_Hash gh := td]} no_txs (Header_Hash gh) (genesis_blockchain config engine gb td).
Proof.
  intros gh St Nz Td Eh Et Cx. destruct (genesis_holds gh td St Nz Td) as [T D _ _ _ _ (d & Hd & _ & Nm) Hv].
  rewrite lookup_singleton_eq in Hd. injection Hd as <-. pose proof (len_Header_Hash gh) as L. set (s := genesis_blockchain _ _ _ _) in *.
  assert (N0 : num gh = 0) by (destruct St as (_ & _ & E & _); unfold num; by rewrite E).
  assert (Lk : forall k, key_ok k -> bc_db s !! key_of k = if decide (KHeadBlock = k) then Some (Header_Hash gh)
             else if decide (KBody (Header_Hash gh) 0 = k) then Some (enc_body (mkBody [] [])) else chainDb (genesis_chain gh td) !! key_of k).
  { intros k K. unfold s, bc_db, genesis_blockchain. cbn [bc_hc chainDb set_db]. fold gh. by rewrite !lookup_Put by done. }
  assert (Db : db_holds (bc_db s) {[Header_Hash gh := gh]} {[Header_Hash gh := td]}).
  { apply (db_holds_frame (chainDb (genesis_chain gh td))); [|done]. intros k K Tk. rewrite Lk by done. rewrite !decide_False; [done|..]; by intros <-. }
  split; try done.
  - intros h hdr [<- <-]%lookup_singleton_Some. destruct (Db (Header_Hash gh) L) as [E1 G1]. rewrite lookup_singleton_eq in E1, G1.
    destruct (G1 (num gh)) as (E2 & _); [by rewrite N0|]. rewrite Z.eqb_refl in E2. rewrite N0 in *. split; try done; try (by rewrite N0).
    + rewrite N0. exists (mkBody [] []). split; [split; [constructor|split; [constructor|done]]|]. split; [|done]. unfold Get. rewrite Lk by done.
      rewrite decide_False by done. by rewrite decide_True.
    + rewrite N0. left. unfold Get. rewrite Lk by done. rewrite !decide_False by done. unfold genesis_chain, WriteHeadHeaderHash, WriteCanonicalHash. cbn [chainDb].
      change headHeaderKey with (key_of KHeadHeader). change (canonicalKey 0) with (key_of (KCanonical 0)). rewrite !lookup_Put by done.
      by rewrite !decide_False by done.
  - split; [|apply lru_New_all]. split; cbn; apply lru_New_all.
  - intros h hdr [<- <-]%lookup_singleton_Some. unfold height. rewrite N0. split; [done|]. split; constructor.
  - exists gb. split; [done|]. split.
    + split; [by rewrite lookup_singleton_eq|]. split; [done|]. by rewrite Et.
    + fold gh. split.
      * intros i x Hx. assert (i = O) as -> by (apply lookup_lt_Some in Hx; rewrite length_ancestry in Hx; unfold height in Hx; rewrite N0 in Hx; cbn in Hx; lia).
        rewrite (Get_lookup (chainDb (genesis_chain gh td))) by (rewrite Lk by done; by rewrite !decide_False by done). rewrite (Nm O) by done. by rewrite Hx.
      * by intros x e j t _ _ Hj.
      * intros t Lt _. unfold Get. rewrite Lk by done. rewrite !decide_False by done. unfold genesis_chain, WriteHeadHeaderHash, WriteCanonicalHash. cbn [chainDb].
        change headHeaderKey with (key_of KHeadHeader). change (canonicalKey 0) with (key_of (KCanonical 0)). rewrite !lookup_Put by done.
        by rewrite !decide_False by done.
  - unfold Get. rewrite Lk by done. by rewrite decide_True.
Qed.

(** Every hash of the tree with the block has a height below the fuel. *)
Definition deep_enough (fuel : nat) (hs : headers) (block : Block) : Prop :=
  forall h d, (<[hash_of block := b_header block]> hs : headers) !! h = Some d -> (height d < fuel)%nat.

Lemma parent_td g hs tds txs head s block receipts :
  bc_holds g hs tds txs head s -> writable hs tds txs block receipts ->
  exists s1, on_hc (hc_GetTd (parent_hash block) (pred64 (num (b_header block)))) s = Ok (s1, inr (tds !! parent_hash block)) /\
    quiet s s1 /\ warm hs tds txs s1.
Proof.
  intros [T D _ Wm _ _ _ _ _] W. pose proof (w_addable _ _ _ _ _ W) as A. destruct (a_stored _ _ _ A) as (Ho & _).
  destruct (hc_GetTd_holds g hs tds T (parent_hash block) (pred64 (num (b_header block))) (bc_hc s) D (proj1 Wm)) as (h1 & E1 & Sm & C1).
  { split; [apply (ho_ParentHash _ Ho)|]. split; [apply u64_range|]. intros q Hq. unfold pred64. pose proof (a_parent _ _ _ A q Hq).
    rewrite u64_small; [lia|]. pose proof (tree_u64 _ _ _ T _ _ Hq). unfold is_u64 in *. lia. }
  exists (set_hc h1 s). split; [by apply on_hc_ok|]. split; [by apply quiet_hc|]. split; [exact C1|apply Wm].
Qed.

Lemma write_ok fuel coin g hs tds txs head s block receipts st rec b3 pc' st' rec' ob t ptd :
  bc_holds g hs tds txs head s -> writable hs tds txs block receipts -> commits s block st rec b3 pc' st' rec' -> deep_enough fuel hs block ->
  currentBlock s = Some ob -> tds !! head = Some t -> tds !! parent_hash block = Some ptd ->
  let td := diff (b_header block) + ptd in let hs' := <[hash_of block := b_header block]> hs in
  let canon := better td t (num (b_header block)) (num (b_header ob)) coin in
  exists s', WriteBlockAndState fuel coin block receipts st rec s = Ok (s', inr (if canon then CanonStatTy else SideStatTy)) /\
    bc_holds g hs' (<[hash_of block := td]> tds) txs (if canon then hash_of block else head) s' /\
    (canon = true -> hash_of block ∉ ancestry hs' (height (b_header ob)) head -> head ∉ ancestry hs' (height (b_header block)) (hash_of block) ->
       at_fork hs' txs (height (b_header ob)) head (height (b_header block)) (hash_of block) s').
Proof.
  intros I W Cm Fu Eo Ht P. pose proof I as [T D St Wm Wf (b & Eb & Ib & Ca) Kh _ Mu]. assert (b = ob) as -> by congruence. pose proof (w_addable _ _ _ _ _ W) as A.
  destruct (parent_td g hs tds txs head s block receipts I W) as (s1 & E1 & Q & W1).
  unfold WriteBlockAndState. go_step (own_number hs tds txs block receipts W s). go_step E1. rewrite P.
  unfold deep_enough in Fu. cbn zeta. rewrite (w_hash _ _ _ _ _ W) in *.
  apply (write_locked_ok g hs tds T txs block receipts W ptd P fuel coin head s s1 st rec b3 pc' st' rec' ob t); try done.
  - apply (Fu head). by apply (add_mono g hs tds T _ A ptd P), Ib.
  - apply (Fu (Header_Hash (b_header block))). apply lookup_insert_eq.
Qed.


(** C38. A reorganisation inserts the blocks of the new chain from the newest to the oldest, and
    each insertion moves the head header and the head fast block.  Whenever a block that is not
    on the chain of the head, nor above the head, becomes the head, [WriteBlockAndState] leaves
    the head header and the head fast block at the lowest block of the new chain that is not on
    the old one: behind the head block by all the other new blocks, although the comment on the
    loop says that the order does not matter. *)
Theorem reorg_leaves_header_behind fuel coin g hs tds txs head s block receipts st rec b3 pc' st' rec' ob t ptd :
  bc_holds g hs tds txs head s -> writable hs tds txs block receipts -> commits s block st rec b3 pc' st' rec' -> deep_enough fuel hs block ->
  currentBlock s = Some ob -> tds !! head = Some t -> tds !! parent_hash block = Some ptd ->
  better (diff (b_header block) + ptd) t (num (b_header block)) (num (b_header ob)) coin = true ->
  let hs' := <[hash_of block := b_header block]> hs in
  let old := ancestry hs' (height (b_header ob)) head in let new := ancestry hs' (height (b_header block)) (hash_of block) in
  hash_of block ∉ old -> head ∉ new ->
  exists s' c yb, WriteBlockAndState fuel coin block receipts st rec s = Ok (s', inr CanonStatTy) /\
    option_map b_header (currentBlock s') = Some (b_header block) /\
    (forall j, (j <= c)%nat -> old !! j = new !! j) /\ old !! S c <> new !! S c /\ new !! S c = Some (hash_of yb) /\
    currentHeader (bc_hc s') = Some (b_header yb) /\ currentFastBlock s' = Some yb /\ hs' !! hash_of yb = Some (b_header yb).
Proof.
  intros I W Cm Fu Eo Ht P Bt hs' old new Nx No.
  destruct (write_ok fuel coin g hs tds txs head s block receipts st rec b3 pc' st' rec' ob t ptd I W Cm Fu Eo Ht P) as (s' & E & I' & F). rewrite Bt in E, I'.
  destruct (F Bt Nx No) as (c & yb & Ag & Df & Ey & Iy & Eh & Ef). exists s', c, yb. split; [done|]. split.
  - destruct (bh_head _ _ _ _ _ _ I') as (b & -> & (Hb & _) & _). rewrite lookup_insert_eq in Hb. cbn. congruence.
  - do 5 (split; [done|]). apply Iy.
Qed.

End Spec.

(** ** Witnesses *)

Module BlockSamples.
#[local] Existing Instance tail_hasher.
#[local] Existing Instance list_cache.
#[local] Existing Instance HeaderSamples.map_lru.

(** Contexts and states are empty. *)
Definition empty_proto : PocContextProto := mkPocContextProto (zeros 32) (zeros 32) (zeros 32) (zeros 32) (zeros 32).
Definition sample_header (n : Z) (parent : bytes) (d nonce : Z) : Header :=
  mkHeader parent (repeat 6 32) (repeat 7 20) (repeat 8 20) (repeat 9 32) (repeat 10 32) (repeat 11 32) (repeat 12 32)
    (Some empty_proto) (zeros 256) (Some d) (Some n) (Some 1000000) (Some 21000) (Some 1440) (zeros 97) (zeros 32) (be_fixed 8 nonce).

Lemma sample_header_ok' n parent d nonce : is_hash parent -> 0 <= n -> 0 <= d -> header_ok (sample_header n parent d nonce).
Proof.
  intros Hp Hn Hd. destruct (HeaderSamples.chain_header_ok n parent d nonce Hp Hn Hd). split; try done. cbn. exists empty_proto. split; [done|].
  assert (Z : is_hash (zeros 32)) by (split; [done|apply bytes_ok_zeros]). done.
Qed.

Definition get_ok {E A} (d : A) (o : outcome E A) : A := match o with Ok a => a | _ => d end.
Definition no_trie : trie := Trie Nil [] [] 0 0.
Definition context0 : PocContext :=
  Eval vm_compute in get_ok (mkPocContext no_trie no_trie no_trie no_trie no_trie true) (NewPocContextFromProto ∅ empty_proto).

Lemma context0_opens db n parent d nonce : context_at db (sample_header n parent d nonce).
Proof. exists empty_proto, context0. split; [reflexivity|]. vm_compute. reflexivity. Qed.

Definition block0 : Block := mkBlock (sample_header 0 (zeros 32) 1 1) [] [] None None (Some context0).
Definition k0 : bytes := Eval vm_compute in Header_Hash (b_header block0).
Definition sample_block (n : Z) (parent : bytes) (d nonce : Z) : Block := mkBlock (sample_header n parent d nonce) [] [] None None (Some context0).
Definition block1 : Block := sample_block 1 k0 5 2.
Definition config0 : ChainConfig := mkChainConfig (Some 1) None None false None [] None None None.
Definition engine0 : Poc := mkPoc ∅ [] [] None.
Definition bc0 : BlockChain := genesis_blockchain config0 engine0 block0 1.

Definition secure0 : SecureTrie := mkSecureTrie no_trie ∅.
Definition cache0 : cachingDB := mkCachingDB ∅ [].
Definition state0 : StateDB := mkStateDB cache0 secure0 ∅ ∅ None 0 (zeros 32) (zeros 32) 0 ∅ 0 ∅ [] [] 0.
Definition records0 : StateDBRecord := mkStateDBRecord cache0 secure0 ∅ ∅ None (zeros 32) (zeros 32) 0 ∅ 0 ∅ [] [] 0.

Lemma zeros_hash : is_hash (zeros 32).
Proof. split; [done|apply bytes_ok_zeros]. Qed.

Lemma bc0_holds : bc_holds (Header_Hash (b_header block0)) {[Header_Hash (b_header block0) := b_header block0]} {[Header_Hash (b_header block0) := 1]} no_txs
  (Header_Hash (b_header block0)) bc0.
Proof.
  apply genesis_bc_holds; try reflexivity.
  - split; [apply sample_header_ok'; [apply zeros_hash|lia|lia]|]. split; [by vm_compute|]. split; [done|by vm_compute].
  - by vm_compute.
  - split; [lia|by vm_compute].
  - apply context0_opens.
Qed.

Lemma block1_addable : addable {[Header_Hash (b_header block0) := b_header block0]} {[Header_Hash (b_header block0) := 1]} (b_header block1).
Proof.
  split.
  - split; [apply sample_header_ok'; [split; [done|repeat constructor; unfold byte_ok; lia]|lia|lia]|].
    split; [by vm_compute|]. split; [done|by vm_compute].
  - split; [by vm_compute|by vm_compute].
  - by vm_compute.
  - left. by vm_compute.
  - intros p H%lookup_singleton_Some. by destruct H as [_ <-].
  - intros t H%lookup_singleton_Some. destruct H as [_ <-]. split; [by vm_compute|by vm_compute].
Qed.

Lemma body_ok_empty : body_ok (mkBody [] []).
Proof. split; [constructor|split; [constructor|done]]. Qed.

Lemma sample_writable hs tds n parent d nonce :
  addable hs tds (sample_header n parent d nonce) -> writable hs tds no_txs (sample_block n parent d nonce) [].
Proof.
  intros A. split; try reflexivity; [exact A|apply body_ok_empty|split; [constructor|by vm_compute]|].
  intros h e _. split; [by vm_compute|]. split; [constructor|]. assert (E : forall l, concat (map no_txs l) = []) by (intros l; by induction l). rewrite E. constructor.
Qed.

Lemma context0_commits db : exists p pc, Poc_CommitTo db context0 = Ok (p, pc, db).
Proof. eexists _, _. reflexivity. Qed.

Lemma state0_commits eip db : exists root st, StateDB.CommitTo eip state0 db = Ok (inr root, st, db) /\ StateDB.preimages st = ∅.
Proof. eexists _, _. split; reflexivity. Qed.

Lemma records0_commits eip db : exists root rec, rec_CommitTo eip records0 db = Ok (inr root, rec, db) /\ r_preimages rec = ∅.
Proof. eexists _, _. split; reflexivity. Qed.

Lemma sample_commits s hs tds n parent d nonce :
  addable hs tds (sample_header n parent d nonce) -> exists b3 pc' st' rec', commits s (sample_block n parent d nonce) state0 records0 b3 pc' st' rec'.
Proof.
  intros A. set (b := sample_block n parent d nonce). pose proof (WriteBlock_eq b _ ∅ (a_stored _ _ _ A) body_ok_empty eq_refl) as E0. cbv zeta in E0.
  match type of E0 with _ = Ok ?b => set (b0 := b) in E0 end.
  destruct (context0_commits b0) as (p & pc & E1). destruct (state0_commits (IsEIP158 (bc_config s) (hd_Number (b_header b))) b0) as (root & st & E2 & P2).
  destruct (records0_commits (IsEIP158 (bc_config s) (hd_Number (b_header b))) b0) as (root' & rec & E3 & P3).
  exists b0, pc, st, rec. split.
  - exists context0, b0, b0, b0, p, root, root'. split; [reflexivity|]. split; [exact E0|]. split; [exact E1|]. split; [exact E2|]. split; [exact E3|]. apply touch_refl.
  - exact (WriteBlock_nodes b b0 (bc_db s) (a_stored _ _ _ A) body_ok_empty eq_refl E0).
  - apply context0_opens.
  - rewrite P2, P3. split; apply map_Forall_empty.
Qed.

Lemma CalcGasLimit_acceptable_witness : MinGasLimit <= CalcGasLimit 5000 5000 /\ Z.abs (CalcGasLimit 5000 5000 - 5000) < 5000 / GasLimitBoundDivisor.
Proof. apply CalcGasLimit_acceptable; unfold MinGasLimit; lia. Defined.

(** Two chains: [block1], and the lighter block [fork1] with [fork2] on top. *)
Definition fork1 : Block := sample_block 1 k0 4 3.
Definition k1 : bytes := Eval vm_compute in Header_Hash (b_header fork1).
Definition fork2 : Block := sample_block 2 k1 4 4.

(** The trees before the three blocks. *)
Definition tree0 : headers := {[Header_Hash (b_header block0) := b_header block0]}.
Definition tree1 : headers := <[hash_of block1 := b_header block1]> tree0.
Definition tree2 : headers := <[hash_of fork1 := b_header fork1]> tree1.
Definition td0 : difficulties := {[Header_Hash (b_header block0) := 1]}.
Definition td1 : difficulties := <[hash_of block1 := 6]> td0.
Definition td2 : difficulties := <[hash_of fork1 := 5]> td1.

(** A block whose parent has the number below. *)
Lemma sample_addable hs tds n parent d nonce p :
  is_hash parent -> 1 <= n < 2 ^ 32 -> 0 <= d -> hs !! parent = Some p -> num p + 1 = n -> hs !! Header_Hash (sample_header n parent d nonce) = None ->
  len (enc_value Header_type (header_val (sample_header n parent d nonce))) < 2 ^ 64 -> Header_Hash (sample_header n parent d nonce) <> zeros HashLength ->
  (forall t, tds !! parent = Some t -> td_ok (d + t)) -> addable hs tds (sample_header n parent d nonce).
Proof.
  intros Hp Hn Hd Ep En Nh L Nz Ht. assert (Num : num (sample_header n parent d nonce) = n) by reflexivity.
  split; rewrite ?Num.
  - split; [apply sample_header_ok'; [done|lia|lia]|]. split; [done|]. split; [done|unfold is_u64; lia].
  - lia.
  - done.
  - by left.
  - intros q Hq. cbn in Hq. replace q with p by congruence. lia.
  - exact Ht.
Qed.

Lemma kinds_ok : is_hash k0 /\ is_hash k1.
Proof. split; (split; [done|repeat constructor; unfold byte_ok; lia]). Qed.

Lemma fork1_addable : addable tree1 td1 (b_header fork1).
Proof.
  apply (sample_addable _ _ _ _ _ _ (b_header block0)); [apply kinds_ok|lia|lia|by vm_compute..|].
  intros t H. assert (E : td1 !! k0 = Some 1) by by vm_compute. replace t with 1 by congruence. split; [lia|by vm_compute].
Qed.

Lemma fork2_addable : addable tree2 td2 (b_header fork2).
Proof.
  apply (sample_addable _ _ _ _ _ _ (b_header fork1)); [apply kinds_ok|lia|lia|by vm_compute..|].
  intros t H. assert (E : td2 !! k1 = Some 5) by by vm_compute. replace t with 5 by congruence. split; [lia|by vm_compute].
Qed.

(** Heights below four. *)
Lemma shallow hs block : map_Forall (fun _ d => (height d < 4)%nat) (<[hash_of block := b_header block]> hs) -> deep_enough 4 hs block.
Proof. intros F h d H. by apply (F h d H). Qed.

Lemma sample_forked : exists s, bc_holds (Header_Hash (b_header block0)) tree2 td2 no_txs (hash_of block1) s.
Proof.
  destruct (sample_commits bc0 _ _ 1 k0 5 2 block1_addable) as (b3 & pc' & st' & rec' & C).
  destruct (write_ok 4 false _ _ _ _ _ bc0 block1 [] state0 records0 b3 pc' st' rec' block0 1 1 bc0_holds (sample_writable _ _ 1 k0 5 2 block1_addable) C) as (s & _ & I & _).
  - apply shallow, (bool_decide_unpack _). by vm_compute.
  - done.
  - by vm_compute.
  - by vm_compute.
  - replace (better _ _ _ _ _) with true in I by (by vm_compute). replace (diff (b_header block1) + 1) with 6 in I by (by vm_compute). fold tree0 tree1 td0 td1 in I.
    destruct (bh_head _ _ _ _ _ _ I) as (ob & Eo & (Ho & _) & _). assert (E1 : b_header ob = b_header block1) by (unfold tree1 in Ho; rewrite lookup_insert_eq in Ho; congruence).
    destruct (sample_commits s _ _ 1 k0 4 3 fork1_addable) as (c3 & qc' & su' & rec2' & C').
    destruct (write_ok 4 false _ _ _ _ _ s fork1 [] state0 records0 c3 qc' su' rec2' ob 6 1 I (sample_writable _ _ 1 k0 4 3 fork1_addable) C') as (s2 & _ & I2 & _).
    + apply shallow, (bool_decide_unpack _). by vm_compute.
    + done.
    + by vm_compute.
    + by vm_compute.
    + rewrite E1 in I2. replace (better _ _ _ _ _) with false in I2 by (by vm_compute). replace (diff (b_header fork1) + 1) with 5 in I2 by (by vm_compute). by exists s2.
Qed.

(** [fork2] becomes the head, and the head header stays at [fork1]. *)
Lemma reorg_leaves_header_behind_witness :
  exists s s', WriteBlockAndState 4 false fork2 [] state0 records0 s = Ok (s', inr CanonStatTy) /\
    option_map b_header (currentBlock s') = Some (b_header fork2) /\ currentHeader (bc_hc s') = Some (b_header fork1).
Proof.
  destruct sample_forked as (s & I). destruct (bh_head _ _ _ _ _ _ I) as (ob & Eo & (Ho & _) & _). assert (E1 : b_header ob = b_header block1).
  { assert (E : tree2 !! hash_of block1 = Some (b_header block1)) by by vm_compute. congruence. }
  destruct (sample_commits s _ _ 2 k1 4 4 fork2_addable) as (b3 & pc' & st' & rec' & C).
  destruct (reorg_leaves_header_behind 4 false _ _ _ _ _ s fork2 [] state0 records0 b3 pc' st' rec' ob 6 5 I (sample_writable _ _ 2 k1 4 4 fork2_addable) C)
    as (s' & c & yb & E & Ec & Ag & Df & Ey & Eh & _ & Hy); try (rewrite E1 in * ).
  - apply shallow, (bool_decide_unpack _). by vm_compute.
  - done.
  - by vm_compute.
  - by vm_compute.
  - by vm_compute.
  - apply (bool_decide_unpack _). by vm_compute.
  - apply (bool_decide_unpack _). by vm_compute.
  - exists s, s'. split; [exact E|]. split; [exact Ec|]. rewrite Eh. f_equal. destruct c as [|[|c]].
    + assert (E2 : ancestry (<[hash_of fork2 := b_header fork2]> tree2) (height (b_header fork2)) (hash_of fork2) !! 1%nat = Some k1) by by vm_compute.
      assert (E3 : (<[hash_of fork2 := b_header fork2]> tree2 : headers) !! k1 = Some (b_header fork1)) by by vm_compute.
      replace (hash_of yb) with k1 in Hy by congruence. congruence.
    + specialize (Ag 1%nat ltac:(lia)). vm_compute in Ag. discriminate Ag.
    + apply lookup_lt_Some in Ey. rewrite length_ancestry in Ey. vm_compute in Ey. lia.
Defined.
End BlockSamples.
