(* ===== verification/ManagedState.v ===== *)
(** * Package [core/state]: copies of the state and managed nonces

    [statedb.go] ([Copy]), [state_object.go] ([deepCopy]) and [managed_state.go]: a state with
    the nonces of pending transactions on top of those of the accounts.  The theorem says that
    it is a map of nonces that starts with the nonces of the state, as the transaction pool
    takes it to be. *)

From S2P Require Import Prelude Rlp RlpStream TrieEncoding Common Codec Trie TrieModel TrieRefine TrieHash TrieMap SecureTrie StateDB StateRevert StateLedger Block.

Section Managed.
Context {HS : Hasher} {ST : StateTrie}.

(** ** Copies *)

(** The copy has its own callback; the clean storage is not copied. *)
Definition deepCopy (o : stateObject) : stateObject :=
  mkObject (so_address o) (keccak256 (so_address o)) (so_data o) None (so_trie o) (so_code o) (so_dirtyStorage o) (so_dirtyStorage o)
    (so_dirtyCode o) (so_suicided o) false (so_deleted o) true.

(** Only the dirty objects are copied; one that is marked without being there is a nil pointer.
    The trie is the same pointer in both states: a write through one would show in the other.
    The managed state only reads it. *)
Definition Copy (s : StateDB) : outcome unit StateDB :=
  if bool_decide (stateObjectsDirty s ⊆ dom (stateObjects s)) then
    Ok (mkStateDB (s_db s) (s_trie s) (deepCopy <$> base.filter (fun kv : bytes * stateObject => fst kv ∈ stateObjectsDirty s) (stateObjects s)) (stateObjectsDirty s)
          None (refund s) (zeros HashLength) (zeros HashLength) 0 (logs s) (logSize s) (preimages s) [] [] 0)
  else Panic.

(** ** Managed nonces *)

(** The field with the object is not read after the account is made. *)
Record account := mkManagedAccount { nstart : Z; nonces : list bool }.

Record ManagedState := mkManaged { ms_db : StateDB; ms_accounts : gmap bytes account }.

Definition ManageState (s : StateDB) : outcome unit ManagedState := s ← Copy s; Ok (mkManaged s ∅).

Definition ms_SetState (s : StateDB) (ms : ManagedState) : ManagedState := mkManaged s (ms_accounts ms).

Definition hasAccount (a : bytes) (ms : ManagedState) : bool := bool_decide (is_Some (ms_accounts ms !! a)).

Definition newAccount (o : stateObject) : account := mkManagedAccount (Nonce (so_data o)) [].

(** The next nonce of an account. *)
Definition acc_next (acc : account) : Z := u64 (Z.of_nat (length (nonces acc)) + nstart acc).

Definition put_account (a : bytes) (acc : account) (db : StateDB) (ms : ManagedState) : ManagedState := mkManaged db (<[a := acc]> (ms_accounts ms)).

(** An account that is behind the state starts again from it. *)
Definition getAccount (a : bytes) (ms : ManagedState) : outcome unit (account * ManagedState) :=
  match ms_accounts ms !! a with
  | None =>
    '(o, db) ← GetOrNewStateObject a (ms_db ms);
    Ok (newAccount o, put_account a (newAccount o) db ms)
  | Some acc =>
    '(obj, db) ← getStateObject a (ms_db ms);
    let acc := match obj with Some o => if acc_next acc <? Nonce (so_data o) then newAccount o else acc | None => acc end in
    Ok (acc, put_account a acc db ms)
  end.

Fixpoint first_free (l : list bool) (i : Z) : option Z :=
  match l with [] => None | b :: l => if b then first_free l (i + 1) else Some i end.

Definition NewNonce (a : bytes) (ms : ManagedState) : outcome unit (Z * ManagedState) :=
  '(acc, ms) ← getAccount a ms;
  match first_free (nonces acc) 0 with
  | Some i => Ok (u64 (nstart acc + i), ms)
  | None =>
    let acc := mkManagedAccount (nstart acc) (nonces acc ++ [true]) in
    Ok (u64 (Z.of_nat (length (nonces acc) - 1) + nstart acc), put_account a acc (ms_db ms) ms)
  end.

Definition RemoveNonce (a : bytes) (n : Z) (ms : ManagedState) : outcome unit ManagedState :=
  if hasAccount a ms then
    '(acc, ms) ← getAccount a ms;
    let d := u64 (n - nstart acc) in
    Ok (if d <=? Z.of_nat (length (nonces acc)) then put_account a (mkManagedAccount (nstart acc) (take (Z.to_nat d) (nonces acc))) (ms_db ms) ms else ms)
  else Ok ms.

Definition managed_GetNonce (a : bytes) (ms : ManagedState) : outcome unit (Z * ManagedState) :=
  if hasAccount a ms then '(acc, ms) ← getAccount a ms; Ok (acc_next acc, ms)
  else '(n, db) ← GetNonce a (ms_db ms); Ok (n, mkManaged db (ms_accounts ms)).

Definition managed_SetNonce (a : bytes) (n : Z) (ms : ManagedState) : outcome unit ManagedState :=
  '(o, db) ← GetOrNewStateObject a (ms_db ms);
  Ok (put_account a (mkManagedAccount n []) (so_SetNonce n o db) ms).

(** ** Specification: a map of nonces *)

Inductive nonce_op :=
| NonceGet (a : bytes)
| NonceSet (a : bytes) (n : Z)
| NonceNew (a : bytes).

Definition run_nonce_op (op : nonce_op) (ms : ManagedState) : outcome unit (option Z * ManagedState) :=
  match op with
  | NonceGet a => '(n, ms) ← managed_GetNonce a ms; Ok (Some n, ms)
  | NonceSet a n => ms ← managed_SetNonce a n ms; Ok (None, ms)
  | NonceNew a => '(n, ms) ← NewNonce a ms; Ok (Some n, ms)
  end.

Fixpoint run_nonce_ops (ops : list nonce_op) (ms : ManagedState) : outcome unit (list (option Z) * ManagedState) :=
  match ops with
  | [] => Ok ([], ms)
  | op :: ops => '(r, ms) ← run_nonce_op op ms; '(rs, ms) ← run_nonce_ops ops ms; Ok (r :: rs, ms)
  end.

Definition nset (a : bytes) (n : Z) (N : bytes -> Z) : bytes -> Z := fun b => if decide (b = a) then n else N b.

Lemma nset_eq a n N : nset a n N a = n.
Proof. unfold nset. by rewrite decide_True. Qed.

Lemma nset_ne a b n N : a <> b -> nset a n N b = N b.
Proof. intros H. unfold nset. by rewrite decide_False by congruence. Qed.

(** What the operations return, and the nonces after them. *)
Definition nonce_step (op : nonce_op) (N : bytes -> Z) : option Z * (bytes -> Z) :=
  match op with
  | NonceGet a => (Some (N a), N)
  | NonceSet a n => (None, nset a n N)
  | NonceNew a => (Some (N a), nset a (N a + 1) N)
  end.

Fixpoint nonce_steps (ops : list nonce_op) (N : bytes -> Z) : list (option Z) :=
  match ops with [] => [] | op :: ops => let '(r, N) := nonce_step op N in r :: nonce_steps ops N end.

Section Spec.
Context (del : bool) (A : gset bytes) (m : gmap bytes bytes).

Definition op_within (k : Z) (op : nonce_op) : Prop :=
  match op with NonceGet a | NonceNew a => a ∈ A | NonceSet a n => a ∈ A /\ 0 <= n /\ n + k < 2 ^ 64 end.

(** ** Copies show the same ledger *)

Lemma lookup_copied (s : StateDB) a :
  (deepCopy <$> base.filter (fun kv : bytes * stateObject => fst kv ∈ stateObjectsDirty s) (stateObjects s)) !! a =
  if decide (a ∈ stateObjectsDirty s) then deepCopy <$> stateObjects s !! a else None.
Proof.
  rewrite lookup_fmap. case_decide as D.
  - destruct (stateObjects s !! a) as [o|] eqn:E; [by rewrite (map_lookup_filter_Some_2 _ _ a o)|]. rewrite map_lookup_filter_None_2; [done|by left].
  - rewrite map_lookup_filter_None_2; [done|]. right. intros o _ H. by apply D.
Qed.

Lemma Copy_ledger n s L : lholds del A n m s L -> exists s', Copy s = Ok s' /\ lholds del A n m s' L.
Proof.
  intros [H V]. pose proof H as [W T O D C R]. unfold Copy. rewrite bool_decide_true by (intros a Ha%D; by apply elem_of_dom). eexists. split; [done|].
  set (s' := mkStateDB _ _ _ _ _ _ _ _ _ _ _ _ _ _ _). assert (Lk : forall a o, stateObjects s' !! a = Some o -> a ∈ stateObjectsDirty s /\ exists o0, stateObjects s !! a = Some o0 /\ o = deepCopy o0).
  { intros a o. cbn. rewrite lookup_copied. case_decide as Da; [|done]. destruct (stateObjects s !! a) as [o0|]; [|done]. intros [= <-]. split; [done|]. by exists o0. }
  assert (H' : ledger_state del A n m s').
  { split; try done.
    - split; [apply W|]. intros a o (_ & o0 & E & ->)%Lk. apply (object_ok_fields _ _ _ _ o0); try done; [|by apply W]. apply (wf_objects _ _ W a o0 E).
    - intros a o (_ & o0 & E & ->)%Lk. destruct (O a o0 E) as (Ha & P1 & P2 & P3 & P4 & P5). split; [done|]. by split.
    - intros a Ha. cbn. rewrite lookup_copied, decide_True by done. destruct (D a Ha) as [o ->]. by eexists.
    - intros a o (Ha & _)%Lk Na. done. }
  split; [done|]. intros a Ha. rewrite <- V by done. unfold lview, oview. cbn [stateObjects s']. rewrite lookup_copied. case_decide as Da.
  - destruct (D a Da) as [o ->]. cbn. by destruct (so_deleted o).
  - destruct (stateObjects s !! a) as [o|] eqn:E; [|done]. destruct (C a o E Da) as (_ & -> & ->). done.
Qed.

(** ** The nonces *)

(** The managed state shows the nonces [N], which may grow by [k]. *)
Definition shows (n k : Z) (ms : ManagedState) (N : bytes -> Z) : Prop :=
  exists L, lholds del A n m (ms_db ms) L /\ forall a, a ∈ A -> 0 <= N a /\ N a + k < 2 ^ 64 /\
    match ms_accounts ms !! a with
    | None => N a = a_nonce (L a)
    | Some acc => Forall (fun b => b = true) (nonces acc) /\ N a = nstart acc + Z.of_nat (length (nonces acc)) /\ a_nonce (L a) <= N a
    end.

Lemma first_free_none l : Forall (fun b => b = true) l -> forall i, first_free l i = None.
Proof. induction 1 as [|b l -> _ IH]; intros i; [done|]. apply IH. Qed.

(** The account of an address, with the nonces as they were. *)
Lemma getAccount_shows n k ms N a : shows n k ms N -> a ∈ A -> 0 <= k ->
  exists acc ms', getAccount a ms = Ok (acc, ms') /\ shows n k ms' N /\ ms_accounts ms' !! a = Some acc /\ acc_next acc = N a /\ N a = nstart acc + Z.of_nat (length (nonces acc)) /\ Forall (fun b => b = true) (nonces acc).
Proof.
  intros (L & H & I) Ha Hk. destruct (I a Ha) as (N0 & Nk & Ia). unfold getAccount. destruct (ms_accounts ms !! a) as [acc|] eqn:E.
  - destruct Ia as (F & En & Le). destruct H as [H V]. destruct (getStateObject_ledger del A n m (ms_db ms) a H Ha) as (s' & -> & H' & _ & V' & _). cbn [mbind outcome_bind].
    assert (Ea : acc_next acc = N a) by (unfold acc_next; rewrite u64_small by (unfold is_u64; lia); lia).
    assert (Ek : match oview m (ms_db ms) a with Some o => if acc_next acc <? Nonce (so_data o) then newAccount o else acc | None => acc end = acc).
    { destruct (oview m (ms_db ms) a) as [o|] eqn:Eo; [|done]. rewrite (proj2 (Z.ltb_ge _ _)); [done|]. rewrite Ea. etrans; [|exact Le]. rewrite <- (V a Ha). unfold lview. by rewrite Eo. }
    rewrite Ek. eexists _, _. split; [done|]. split; [|split; [apply lookup_insert_eq|done]]. exists L. split; [split; [done|]; intros b Hb; etrans; [apply (lview_ext m m (ms_db ms) s' b); apply V'|by apply V]|].
    intros b Hb. destruct (I b Hb) as (B0 & Bk & Ib). split; [done|]. split; [done|]. cbn. rewrite lookup_insert. case_decide as D; [|done]. by subst b.
  - destruct H as [H V]. destruct (GetOrNew_ledger del A n m (ms_db ms) a H Ha) as (o & s' & -> & H' & _ & _ & _ & Eo & V'). cbn [mbind outcome_bind].
    assert (En : Nonce (so_data o) = N a) by (rewrite Ia, <- (V a Ha), <- Eo; done).
    eexists _, _. split; [done|]. split; [|split; [apply lookup_insert_eq|]].
    + exists L. split; [split; [done|]; intros b Hb; etrans; [apply V'|by apply V]|]. intros b Hb. destruct (I b Hb) as (B0 & Bk & Ib). split; [done|]. split; [done|]. cbn. rewrite lookup_insert. case_decide as D; [|done].
      subst b. cbn. rewrite En. split; [constructor|]. split; lia.
    + unfold acc_next. cbn. rewrite En. split; [|split; [lia|constructor]]. apply u64_small. unfold is_u64. lia.
Qed.

Lemma shows_less n k k' ms N : shows n k ms N -> k' <= k -> shows n k' ms N.
Proof. intros (L & H & I) Lk. exists L. split; [done|]. intros a Ha. destruct (I a Ha) as (B0 & Bk & Ib). split; [done|]. split; [lia|done]. Qed.

Lemma nonce_op_shows n k op ms N : shows n (k + 1) ms N -> op_within (k + 1) op -> 0 <= k ->
  exists ms', run_nonce_op op ms = Ok (fst (nonce_step op N), ms') /\ shows n k ms' (snd (nonce_step op N)).
Proof.
  intros S W Hk. destruct op as [a|a v|a]; cbn [run_nonce_op nonce_step fst snd].
  - cbn in W. unfold managed_GetNonce, hasAccount. destruct (bool_decide_reflect (is_Some (ms_accounts ms !! a))) as [Hs|Hn].
    + destruct (getAccount_shows n (k + 1) ms N a S W ltac:(lia)) as (acc & ms' & -> & S' & _ & En & _). cbn [mbind outcome_bind]. exists ms'. split; [by rewrite En|]. eapply shows_less; [done|lia].
    + destruct S as (L & H & I). destruct (GetNonce_ledger del A m n a (ms_db ms) L H W) as (s' & -> & H' & _). cbn [mbind outcome_bind]. eexists. split.
      * destruct (I a W) as (_ & _ & Ia). destruct (ms_accounts ms !! a); [by destruct Hn|]. by rewrite Ia.
      * apply (shows_less n (k + 1)); [|lia]. by exists L.
  - destruct W as (Ha & V0 & Vk). destruct S as (L & H & I). unfold managed_SetNonce. pose proof (SetNonce_ledger del A m n a v (ms_db ms) L H Ha ltac:(lia)) as (s' & Es & H' & _).
    unfold SetNonce, with_object in Es. destruct (GetOrNewStateObject a (ms_db ms)) as [[o db]|e| |]; try done. cbn [mbind outcome_bind] in *. injection Es as ->.
    eexists. split; [done|]. eexists. split; [exact H'|]. intros b Hb. destruct (I b Hb) as (B0 & Bk & Ib). unfold nset, lset. cbn. rewrite lookup_insert. destruct (decide (b = a)) as [->|Nb].
    + rewrite decide_True by done. split; [done|]. split; [lia|]. cbn. split; [constructor|]. split; lia.
    + rewrite decide_False by done. split; [done|]. split; [lia|done].
  - cbn in W. unfold NewNonce. destruct (getAccount_shows n (k + 1) ms N a S W ltac:(lia)) as (acc & ms' & -> & S' & Ea & En & EN & F). cbn [mbind outcome_bind].
    rewrite (first_free_none _ F). cbn [nonces nstart]. destruct S' as (L & H & I). destruct (I a W) as (N0 & Nk & Ia). rewrite Ea in Ia. eexists. split.
    + rewrite length_app. cbn [length]. do 3 f_equal. replace (length (nonces acc) + 1 - 1)%nat with (length (nonces acc)) by lia. by rewrite <- En.
    + exists L. split; [done|]. intros b Hb. destruct (I b Hb) as (B0 & Bk & Ib). unfold nset. cbn. rewrite lookup_insert. destruct (decide (b = a)) as [->|Nb].
      * rewrite decide_True by done. split; [lia|]. split; [lia|]. cbn. split; [apply Forall_app; split; [done|repeat constructor]|]. rewrite length_app. cbn. split; lia.
      * rewrite decide_False by done. split; [done|]. split; [lia|done].
Qed.

Lemma nonce_ops_show n ops : forall ms N, shows n (Z.of_nat (length ops)) ms N -> Forall (op_within (Z.of_nat (length ops))) ops ->
  exists ms', run_nonce_ops ops ms = Ok (nonce_steps ops N, ms').
Proof.
  induction ops as [|op ops IH]; intros ms N Sh W; [by exists ms|]. apply list.Forall_cons in W as [Wo W]. cbn [length] in *. rewrite Nat2Z.inj_succ in Sh, Wo.
  destruct (nonce_op_shows n (Z.of_nat (length ops)) op ms N) as (ms1 & E & S1); [exact Sh|exact Wo|lia|].
  cbn [run_nonce_ops nonce_steps]. rewrite E. cbn [mbind outcome_bind]. destruct (nonce_step op N) as [r N1]. cbn [fst snd] in *.
  destruct (IH ms1 N1 S1) as (ms2 & ->); [|by exists ms2]. revert W. apply List.Forall_impl. intros [a|a v|a]; cbn; [done| |done]. intros (Ha & V0 & Vk). split; [done|lia].
Qed.

(** C12. The state that [ManageState] makes of a state is a map of nonces that starts with those
    of the accounts: reads, writes and fresh nonces, in any order, return what they would
    return on the map, a fresh nonce being the present one, which grows by one.  Nothing
    panics, and the tracked nonces and those of the state never drift apart.  The bound
    keeps the nonces from wrapping. *)
Theorem managed_nonces n s L ops :
  lholds del A n m s L -> (forall a, a ∈ A -> 0 <= a_nonce (L a) /\ a_nonce (L a) + Z.of_nat (length ops) < 2 ^ 64) ->
  Forall (op_within (Z.of_nat (length ops))) ops ->
  exists ms ms', ManageState s = Ok ms /\ run_nonce_ops ops ms = Ok (nonce_steps ops (fun a => a_nonce (L a)), ms').
Proof.
  intros H B W. destruct (Copy_ledger n s L H) as (s' & E & H'). unfold ManageState. rewrite E. cbn [mbind outcome_bind].
  destruct (nonce_ops_show n ops (mkManaged s' ∅) (fun a => a_nonce (L a))) as (ms' & E'); [|done|by exists (mkManaged s' ∅), ms'].
  exists L. split; [done|]. intros a Ha. destruct (B a Ha) as [B0 Bk]. split; [done|]. by split.
Qed.
End Spec.
End Managed.

(** ** Witness *)

Module ManagedSamples.
#[local] Existing Instance tail_hasher.

Definition sample_address : bytes := zeros 19 ++ [7].

(** An account with nonce five: three fresh nonces, a write and another fresh one. *)
Lemma managed_nonces_witness :
  exists s ms ms', ManageState s = Ok ms /\
    run_nonce_ops [NonceNew sample_address; NonceNew sample_address; NonceGet sample_address; NonceSet sample_address 12; NonceNew sample_address] ms =
      Ok ([Some 5; Some 6; Some 7; None; Some 12], ms').
Proof.
  destruct (New_empty_ledger true {[sample_address]} 0 (mkCachingDB ∅ [])) as (s0 & _ & _ & H0); [done|lia|].
  destruct (SetNonce_ledger true {[sample_address]} ∅ 0 sample_address 5 s0 _ H0) as (s & _ & H & _); [by apply elem_of_singleton|lia|].
  exists s. apply (managed_nonces true {[sample_address]} ∅ 0 s _ [NonceNew sample_address; NonceNew sample_address; NonceGet sample_address; NonceSet sample_address 12; NonceNew sample_address] H).
  - intros a Ha. apply elem_of_singleton in Ha as ->. unfold lset. rewrite decide_True by done. cbn. lia.
  - repeat constructor; cbn; try (by apply elem_of_singleton); lia.
Defined.
End ManagedSamples.
