(* ===== verification/GoHeap.v ===== *)
(** * Go's [container/heap]

    The functions of the standard library's package on a slice with a [Less], as a list: the
    element at [k] has its parent at [(k - 1) / 2].  A heap keeps its elements, and its first
    element is a least one. *)

From S2P Require Import Prelude.

Section Heap.
Context {A : Type} (Less : A -> A -> bool).

Implicit Types (l : list A) (i j k n : nat).

(** ** The functions *)

Definition Swap i j l : list A :=
  match l !! i, l !! j with Some x, Some y => <[i := y]> (<[j := x]> l) | _, _ => l end.

Definition less_at l i j : bool := match l !! i, l !! j with Some x, Some y => Less x y | _, _ => false end.

Definition parent k : nat := ((k - 1) / 2)%nat.

(** The loops end after as many steps as the slice is long. *)
Fixpoint up (fuel : nat) j l : list A :=
  match fuel with
  | O => l
  | S fuel => let i := parent j in if (i =? j)%nat || negb (less_at l j i) then l else up fuel i (Swap i j l)
  end.

Fixpoint down (fuel : nat) i n l : list A :=
  match fuel with
  | O => l
  | S fuel =>
    let j1 := (2 * i + 1)%nat in
    if (n <=? j1)%nat then l
    else
      let j2 := S j1 in
      let j := if (j2 <? n)%nat && less_at l j2 j1 then j2 else j1 in
      if negb (less_at l j i) then l else down fuel j n (Swap i j l)
  end.

Fixpoint init_loop (k : nat) l : list A :=
  match k with O => l | S k => init_loop k (down (length l) k (length l) l) end.
Definition heap_Init l : list A := init_loop (length l / 2) l.

Definition heap_Push (x : A) l : list A := up (S (length l)) (length l) (l ++ [x]).

(** [None] is an index out of range. *)
Definition heap_Pop l : option (A * list A) :=
  let n := (length l - 1)%nat in
  let l := down (length l) O n (Swap O n l) in
  match l !! n with Some x => Some (x, take n l) | None => None end.

Definition heap_Remove i l : option (A * list A) :=
  let n := (length l - 1)%nat in
  let l := if (i =? n)%nat then l else up (S i) i (down (length l) i n (Swap i n l)) in
  match l !! n with Some x => Some (x, take n l) | None => None end.

Definition heap_Fix i l : list A := up (S i) i (down (length l) i (length l) l).

(** ** Swapping *)

Lemma length_Swap i j l : length (Swap i j l) = length l.
Proof. unfold Swap. destruct (l !! i), (l !! j); by rewrite ?length_insert. Qed.

Lemma lookup_Swap i j l k x y : l !! i = Some x -> l !! j = Some y ->
  Swap i j l !! k = if decide (k = i) then Some y else if decide (k = j) then Some x else l !! k.
Proof.
  intros Hi Hj. unfold Swap. rewrite Hi, Hj. pose proof (lookup_lt_Some _ _ _ Hi). pose proof (lookup_lt_Some _ _ _ Hj).
  destruct (decide (k = i)) as [->|Ni]; [apply list_lookup_insert_eq; by rewrite length_insert|]. rewrite list_lookup_insert_ne by done.
  destruct (decide (k = j)) as [->|Nj]; [by apply list_lookup_insert_eq|]. by rewrite list_lookup_insert_ne.
Qed.

Lemma Swap_Permutation i j l : Swap i j l ≡ₚ l.
Proof.
  destruct (l !! i) as [x|] eqn:Hi; [|unfold Swap; by rewrite Hi]. destruct (l !! j) as [y|] eqn:Hj; [|unfold Swap; by rewrite Hi, Hj].
  apply Permutation_inj. split; [apply length_Swap|]. exists (fun k => if decide (k = i) then j else if decide (k = j) then i else k). split.
  - intros a b. repeat case_decide; congruence.
  - intros k. rewrite (lookup_Swap i j l k x y Hi Hj). repeat case_decide; congruence.
Qed.

(** ** The order of a heap *)

Context (asym : forall x y, Less x y = true -> Less y x = false)
        (trans : forall x y z, Less y x = false -> Less z y = false -> Less z x = false).

(** The element at [k] is not less than the one at [p]. *)
Definition above_at l k p : Prop := forall x y, l !! k = Some x -> l !! p = Some y -> Less x y = false.

(** The parents from [lo] on are not above their children among the first [n]. *)
Definition ordered_from (lo n : nat) l : Prop := forall k, (0 < k < n)%nat -> (lo <= parent k)%nat -> above_at l k (parent k).
Definition heap l : Prop := ordered_from 0 (length l) l.

Lemma parent_cases k i : (0 < k)%nat -> parent k = i -> k = (2 * i + 1)%nat \/ k = (2 * i + 2)%nat.
Proof. unfold parent. intros Hk <-. pose proof (Nat.div_mod (k - 1) 2 ltac:(lia)). pose proof (Nat.mod_upper_bound (k - 1) 2 ltac:(lia)). lia. Qed.

Lemma parent_left i : parent (2 * i + 1) = i.
Proof. unfold parent. replace (2 * i + 1 - 1)%nat with (i * 2)%nat by lia. by apply Nat.div_mul. Qed.

Lemma parent_right i : parent (2 * i + 2) = i.
Proof. unfold parent. replace (2 * i + 2 - 1)%nat with (1 + i * 2)%nat by lia. by rewrite Nat.div_add. Qed.

Lemma parent_lt k : (0 < k)%nat -> (parent k < k)%nat.
Proof. intros Hk. unfold parent. apply Nat.Div0.div_lt_upper_bound. lia. Qed.

Lemma less_at_true l i j : less_at l i j = true -> exists x y, l !! i = Some x /\ l !! j = Some y /\ Less x y = true.
Proof. unfold less_at. destruct (l !! i) as [x|], (l !! j) as [y|]; try done. intros E. by exists x, y. Qed.

Lemma less_at_false l i j : less_at l i j = false -> above_at l i j.
Proof. unfold less_at, above_at. intros E x y Hx Hy. by rewrite Hx, Hy in E. Qed.

Lemma above_at_trans l i j k : is_Some (l !! j) -> above_at l i j -> above_at l j k -> above_at l i k.
Proof. intros [y Hy] H1 H2 x z Hx Hz. apply (trans z y x); [by apply H2|by apply H1]. Qed.

(** The child that [down] looks at is not above the other one. *)
Definition least_child i n l : nat := let j1 := (2 * i + 1)%nat in if (S j1 <? n)%nat && less_at l (S j1) j1 then S j1 else j1.

Lemma least_child_cases i n l : (2 * i + 1 < n)%nat -> (n <= length l)%nat ->
  let j := least_child i n l in (0 < j < n)%nat /\ parent j = i /\ forall c, (0 < c < n)%nat -> parent c = i -> above_at l c j.
Proof.
  intros Hn Hl. unfold least_child. assert (R : forall c, (0 < c < n)%nat -> parent c = i -> c = (2 * i + 1)%nat \/ (c = S (2 * i + 1) /\ (S (2 * i + 1) < n)%nat)).
  { intros c Hc Pc. destruct (parent_cases c i) as [->| ->]; [lia|done|by left|right; lia]. }
  assert (Rf : forall c, above_at l c c).
  { intros c x y Hx Hy. assert (x = y) as -> by congruence. destruct (Less y y) eqn:E; [|done]. by rewrite (asym _ _ E) in E. }
  destruct (Nat.ltb_spec (S (2 * i + 1)) n); cbn [andb].
  - destruct (less_at l (S (2 * i + 1)) (2 * i + 1)) eqn:E; cbn zeta.
    + split; [lia|]. split; [replace (S (2 * i + 1)) with (2 * i + 2)%nat by lia; apply parent_right|]. intros c Hc Pc.
      destruct (R c Hc Pc) as [->|[-> _]]; [|apply Rf]. apply less_at_true in E as (x & y & Hx & Hy & E). intros a b Ha Hb.
      assert (a = y) as -> by congruence. assert (b = x) as -> by congruence. by apply asym.
    + split; [lia|]. split; [apply parent_left|]. intros c Hc Pc. destruct (R c Hc Pc) as [->|[-> _]]; [apply Rf|by apply less_at_false].
  - cbn zeta. split; [lia|]. split; [apply parent_left|]. intros c Hc Pc. destruct (R c Hc Pc) as [->|[_ ?]]; [apply Rf|lia].
Qed.

Lemma above_at_same l l' k p : l' !! k = l !! k -> l' !! p = l !! p -> above_at l k p -> above_at l' k p.
Proof. unfold above_at. by intros -> ->. Qed.

Lemma down_keeps : forall fuel i n l k, (n <= length l)%nat -> (i < n)%nat -> (n <= k)%nat -> down fuel i n l !! k = l !! k.
Proof.
  induction fuel as [|fuel IH]; intros i n l k Hn Hi Hk; [done|]. cbn [down]. fold (least_child i n l). destruct (Nat.leb_spec n (2 * i + 1)) as [|Hc]; [done|].
  destruct (least_child_cases i n l Hc Hn) as (Hj & _). set (j := least_child i n l) in *. destruct (less_at l j i) eqn:E; [|done]. cbn [negb].
  apply less_at_true in E as (y & x & Hy & Hx & _). rewrite IH by (rewrite ?length_Swap; lia). rewrite (lookup_Swap i j l k x y Hx Hy).
  rewrite !decide_False by lia. done.
Qed.

Lemma down_Permutation : forall fuel i n l, down fuel i n l ≡ₚ l.
Proof.
  induction fuel as [|fuel IH]; intros i n l; [done|]. cbn [down]. destruct (n <=? _)%nat; [done|]. destruct (negb _); [done|].
  rewrite IH. apply Swap_Permutation.
Qed.

Lemma up_Permutation : forall fuel j l, up fuel j l ≡ₚ l.
Proof.
  induction fuel as [|fuel IH]; intros j l; [done|]. cbn [up]. destruct (_ || _); [done|]. rewrite IH. apply Swap_Permutation.
Qed.

Lemma up_keeps : forall fuel j l k, (j < k)%nat -> up fuel j l !! k = l !! k.
Proof.
  induction fuel as [|fuel IH]; intros j l k Hk; [done|]. cbn [up]. destruct (Nat.eqb_spec (parent j) j) as [|N]; [done|]. cbn [orb].
  destruct (less_at l j (parent j)) eqn:E; [|done]. cbn [negb]. assert (parent j < j)%nat by (destruct j; [done|apply parent_lt; lia]).
  apply less_at_true in E as (x & y & Hx & Hy & _). rewrite IH by lia. rewrite (lookup_Swap _ _ l k y x Hy Hx). by rewrite !decide_False by lia.
Qed.

(** The element at [i] sinks to its place. *)
Lemma down_ordered lo : forall fuel i n l,
  (n <= length l)%nat -> (lo <= i)%nat -> (n <= i + fuel)%nat ->
  (forall k, (0 < k < n)%nat -> (lo <= parent k)%nat -> parent k <> i -> above_at l k (parent k)) ->
  (forall c, (0 < c < n)%nat -> parent c = i -> (0 < i)%nat -> (lo <= parent i)%nat -> above_at l c (parent i)) ->
  ordered_from lo n (down fuel i n l).
Proof.
  induction fuel as [|fuel IH]; intros i n l Hn Hlo Hf He Hg; cbn [down].
  { intros k Hk Hp. apply He; [done|done|]. pose proof (parent_lt k). lia. }
  fold (least_child i n l). destruct (Nat.leb_spec n (2 * i + 1)) as [Hc|Hc].
  { intros k Hk Hp. apply He; [done|done|]. intros E. destruct (parent_cases k i); lia. }
  destruct (least_child_cases i n l Hc Hn) as (Hj & Pj & Lj). set (j := least_child i n l) in *. pose proof (parent_lt j ltac:(lia)) as Pl. rewrite Pj in Pl.
  destruct (less_at l j i) eqn:E; cbn [negb].
  - apply less_at_true in E as (y & x & Hy & Hx & Lyx). set (l' := Swap i j l).
    assert (S : forall k, l' !! k = if decide (k = i) then Some y else if decide (k = j) then Some x else l !! k) by (intros k; by apply lookup_Swap).
    apply IH; [by unfold l'; rewrite length_Swap|lia|lia| |].
    + intros k Hk Hp Nj. destruct (decide (k = i)) as [->|Ni].
      * pose proof (parent_lt i). intros a b. rewrite !S, decide_True, !decide_False by (done || lia). intros [= <-] Hb. apply (Hg j ltac:(lia) Pj ltac:(lia) Hp y b Hy Hb).
      * destruct (decide (k = j)) as [->|Nk].
        -- rewrite Pj. intros a b. rewrite !S, decide_False, !decide_True by lia. intros [= <-] [= <-]. by apply asym.
        -- destruct (decide (parent k = i)) as [Ei|Ni'].
           ++ rewrite Ei. intros a b. rewrite !S, !decide_False, decide_True by (done || lia). intros Ha [= <-]. exact (Lj k Hk Ei a y Ha Hy).
           ++ apply (above_at_same l); [by rewrite S, !decide_False|by rewrite S, !decide_False|]. by apply He.
    + intros c Hc' Pc _ _. rewrite Pj. pose proof (parent_lt c ltac:(lia)). intros a b. rewrite !S, !decide_False, decide_True by lia. intros Ha [= <-].
      refine (He c Hc' _ _ a y Ha _); [lia|lia|by rewrite Pc].
  - apply less_at_false in E. intros k Hk Hp. destruct (decide (parent k = i)) as [Ei|Ni]; [|by apply He]. rewrite Ei.
    apply (above_at_trans l k j i); [apply lookup_lt_is_Some; lia|by apply Lj|done].
Qed.

(** The element at [j] rises to its place. *)
Lemma up_ordered n : forall fuel j l,
  (j < n)%nat -> (n <= length l)%nat -> (j < fuel)%nat ->
  (forall k, (0 < k < n)%nat -> k <> j -> above_at l k (parent k)) ->
  (forall c, (0 < c < n)%nat -> parent c = j -> (0 < j)%nat -> above_at l c (parent j)) ->
  ordered_from 0 n (up fuel j l).
Proof.
  induction fuel as [|fuel IH]; intros j l Hj Hn Hf He Hg; [lia|]. cbn [up]. destruct (Nat.eqb_spec (parent j) j) as [Ej|Nj]; cbn [orb].
  { intros k Hk _. apply He; [done|]. intros ->. pose proof (parent_lt j). lia. }
  assert (Pj : (parent j < j)%nat) by (destruct j; [done|apply parent_lt; lia]). set (i := parent j) in *.
  destruct (less_at l j i) eqn:E; cbn [negb].
  - apply less_at_true in E as (x & y & Hx & Hy & Lxy). set (l' := Swap i j l).
    assert (S : forall k, l' !! k = if decide (k = i) then Some x else if decide (k = j) then Some y else l !! k) by (intros k; by apply lookup_Swap).
    assert (Sib : forall k b, (0 < k < n)%nat -> k <> j -> parent k = i -> l !! k = Some b -> Less b x = false).
    { intros k b Hk Nk Ek Hb. assert (Eb : Less b y = false) by (apply (He k Hk Nk b y Hb); by rewrite Ek). apply (trans x y b); [by apply asym|done]. }
    apply IH; [lia|by unfold l'; rewrite length_Swap|lia| |].
    + intros k Hk Ni. destruct (decide (k = j)) as [->|Nk].
      * fold i. intros a b. rewrite !S, decide_False, !decide_True by lia. intros [= <-] [= <-]. by apply asym.
      * destruct (decide (parent k = i)) as [Ei|Ni'].
        -- rewrite Ei. intros a b. rewrite !S, !decide_False, decide_True by (done || lia). intros Ha [= <-]. by apply (Sib k).
        -- destruct (decide (parent k = j)) as [Ek|Nk'].
           ++ rewrite Ek. intros a b. rewrite !S, !decide_False, decide_True by (done || lia). intros Ha [= <-]. apply (Hg k Hk Ek ltac:(lia) a y Ha Hy).
           ++ apply (above_at_same l); [by rewrite S, !decide_False|by rewrite S, !decide_False|]. by apply He.
    + intros c Hc Pc Hi. pose proof (parent_lt i Hi) as Pi. assert (Eg : above_at l i (parent i)) by (apply He; lia).
      destruct (decide (c = j)) as [->|Nc]; intros a b.
      * rewrite !S, !decide_False, decide_True, !decide_False by lia. intros [= <-] Hb. by apply (Eg y b).
      * assert (c <> i) by (pose proof (parent_lt c); lia). rewrite !S, !decide_False by lia. intros Ha Hb.
        apply (above_at_trans l c i (parent i)); [by exists y| |done|done|done]. rewrite <- Pc. by apply He.
  - apply less_at_false in E. intros k Hk _. destruct (decide (k = j)) as [->|Nk]; [done|by apply He].
Qed.

(** ** What the functions do *)

Lemma heap_head l x y : heap l -> l !! O = Some x -> y ∈ l -> Less y x = false.
Proof.
  intros H Hx (k & Hk)%list_elem_of_lookup_1. revert y Hk. induction k as [k IH] using lt_wf_ind. intros y Hk. destruct k as [|k].
  - assert (y = x) as -> by congruence. destruct (Less x x) eqn:E; [|done]. by rewrite (asym _ _ E) in E.
  - pose proof (lookup_lt_Some _ _ _ Hk). pose proof (parent_lt (S k) ltac:(lia)). destruct (lookup_lt_is_Some_2 l (parent (S k)) ltac:(lia)) as [z Hz].
    apply (trans x z y); [by apply (IH (parent (S k)))|]. by apply (H (S k)); [lia|lia| |].
Qed.

Lemma ordered_take n l : (n <= length l)%nat -> ordered_from 0 n l -> heap (take n l).
Proof.
  intros Hn H k Hk Hp x y. rewrite length_take in Hk. pose proof (parent_lt k ltac:(lia)). rewrite !lookup_take_lt by lia. apply H; lia.
Qed.

Lemma heap_nil : heap [].
Proof. intros k Hk. cbn in Hk. lia. Qed.

Lemma init_loop_heap : forall k l, ordered_from k (length l) l -> heap (init_loop k l) /\ init_loop k l ≡ₚ l.
Proof.
  induction k as [|k IH]; intros l H; [done|]. cbn [init_loop]. set (l' := down _ k _ l). assert (P : l' ≡ₚ l) by apply down_Permutation.
  assert (Ln : length l' = length l) by by rewrite P. destruct (IH l') as [Hh Hp]; [|split; [done|by rewrite Hp]]. rewrite Ln.
  apply down_ordered; [done|lia|lia| |].
  - intros j Hj Hl Nj. apply H; [done|lia].
  - intros c Hc Pc Hk Hl. pose proof (parent_lt k Hk). lia.
Qed.

Lemma heap_Init_spec l : heap (heap_Init l) /\ heap_Init l ≡ₚ l.
Proof.
  apply init_loop_heap. intros k Hk Hp. exfalso. unfold parent in Hp. pose proof (Nat.div_mod (length l) 2 ltac:(lia)). pose proof (Nat.mod_upper_bound (length l) 2 ltac:(lia)).
  pose proof (Nat.div_mod (k - 1) 2 ltac:(lia)). pose proof (Nat.mod_upper_bound (k - 1) 2 ltac:(lia)). lia.
Qed.

Lemma heap_Push_spec x l : heap l -> heap (heap_Push x l) /\ heap_Push x l ≡ₚ x :: l.
Proof.
  intros H. unfold heap_Push. set (l' := l ++ [x]). assert (P : up (S (length l)) (length l) l' ≡ₚ l') by apply up_Permutation. split.
  - unfold heap. assert (Ll : length l' = S (length l)) by (unfold l'; rewrite length_app; cbn; lia). rewrite (Permutation_length P), Ll.
    apply up_ordered; [lia|lia|lia| |].
    + intros k Hk Nk. pose proof (parent_lt k ltac:(lia)). apply (above_at_same l); [by apply lookup_app_l; lia|by apply lookup_app_l; lia|]. apply H; lia.
    + intros c Hc Pc Hj. pose proof (parent_lt c ltac:(lia)). lia.
  - rewrite P. unfold l'. by rewrite Permutation_app_comm.
Qed.

(** What [Pop] and [Remove] do after the element is at the end. *)
Lemma pop_last l l' n x : l' ≡ₚ l -> length l = S n -> l' !! n = Some x -> ordered_from 0 n l' -> heap (take n l') /\ x :: take n l' ≡ₚ l.
Proof.
  intros P Ln Hx Ho. assert (Ll : length l' = S n) by by rewrite P. split; [apply ordered_take; [lia|done]|].
  rewrite <- P at 1. rewrite <- (take_drop n l') at 2. assert (drop n l' = [x]) as ->; [|by rewrite Permutation_app_comm].
  apply list_eq. intros [|i]; rewrite lookup_drop; [by rewrite Nat.add_0_r|]. cbn. apply lookup_ge_None. lia.
Qed.

Lemma heap_Pop_spec l x : heap l -> l !! O = Some x -> exists l', heap_Pop l = Some (x, l') /\ heap l' /\ x :: l' ≡ₚ l.
Proof.
  intros H Hx. unfold heap_Pop. pose proof (lookup_lt_Some _ _ _ Hx) as L0. set (n := (length l - 1)%nat). assert (Ln : length l = S n) by lia.
  destruct (lookup_lt_is_Some_2 l n ltac:(lia)) as [y Hy]. set (s := Swap O n l).
  assert (S : forall k, s !! k = if decide (k = O) then Some y else if decide (k = n) then Some x else l !! k) by (intros k; by apply lookup_Swap).
  assert (Ls : length s = length l) by apply length_Swap. set (l' := down (length l) O n s). assert (P : l' ≡ₚ l) by (unfold l'; rewrite down_Permutation; apply Swap_Permutation).
  assert (Hl : l' !! n = Some x).
  { unfold l'. destruct (decide (n = O)) as [E0|N0]; [|rewrite down_keeps by lia; by rewrite S, decide_False, decide_True].
    rewrite Ln. cbn [down]. rewrite E0. cbn [Nat.leb]. rewrite S, decide_True by done. congruence. }
  rewrite Hl. exists (take n l'). split; [done|]. apply (pop_last l l' n x P Ln Hl). apply down_ordered; [lia|lia|lia| |lia].
  intros k Hk _ Nk. pose proof (parent_lt k ltac:(lia)). apply (above_at_same l); [by rewrite S, !decide_False by lia|by rewrite S, !decide_False by lia|]. apply H; lia.
Qed.

(** [down] leaves the slice alone, or the element that comes to [i] is above its parent. *)
Lemma down_hole n l i : (i < n)%nat -> (n <= length l)%nat ->
  (forall k, (0 < k < n)%nat -> parent k <> i -> k <> i -> above_at l k (parent k)) ->
  (forall c, (0 < c < n)%nat -> parent c = i -> (0 < i)%nat -> above_at l c (parent i)) ->
  let l' := down (length l) i n l in
  (forall k, (0 < k < n)%nat -> k <> i -> above_at l' k (parent k)) /\
  (forall c, (0 < c < n)%nat -> parent c = i -> (0 < i)%nat -> above_at l' c (parent i)).
Proof.
  intros Hi Hn He Hg l'. destruct (length l) as [|f] eqn:El; [lia|]. unfold l'. cbn [down]. fold (least_child i n l).
  destruct (Nat.leb_spec n (2 * i + 1)) as [Hc|Hc].
  { split; [|done]. intros k Hk Nk. apply He; [done| |done]. intros E. destruct (parent_cases k i); lia. }
  destruct (least_child_cases i n l Hc ltac:(lia)) as (Hj & Pj & Lj). set (j := least_child i n l) in *. pose proof (parent_lt j ltac:(lia)) as Pl. rewrite Pj in Pl.
  destruct (less_at l j i) eqn:E; cbn [negb].
  - apply less_at_true in E as (y & x & Hy & Hx & Lyx). set (s := Swap i j l).
    assert (S : forall k, s !! k = if decide (k = i) then Some y else if decide (k = j) then Some x else l !! k) by (intros k; by apply lookup_Swap).
    assert (O : ordered_from 0 n (down f j n s)).
    { apply down_ordered; [unfold s; rewrite length_Swap; lia|lia|lia| |].
      - intros k Hk _ Nj. destruct (decide (k = i)) as [->|Ni].
        + pose proof (parent_lt i). intros a b. rewrite !S, decide_True, !decide_False by (done || lia). intros [= <-] Hb. apply (Hg j ltac:(lia) Pj ltac:(lia) y b Hy Hb).
        + destruct (decide (k = j)) as [->|Nk]; [rewrite Pj; intros a b; rewrite !S, decide_False, !decide_True by lia; intros [= <-] [= <-]; by apply asym|].
          destruct (decide (parent k = i)) as [Ei|Ni'].
          * rewrite Ei. intros a b. rewrite !S, !decide_False, decide_True by (done || lia). intros Ha [= <-]. exact (Lj k Hk Ei a y Ha Hy).
          * apply (above_at_same l); [by rewrite S, !decide_False|by rewrite S, !decide_False|]. by apply He.
      - intros c Hc' Pc _ _. rewrite Pj. pose proof (parent_lt c ltac:(lia)). intros a b. rewrite !S, !decide_False, decide_True by lia. intros Ha [= <-].
        refine (He c Hc' _ _ a y Ha _); [lia|lia|by rewrite Pc]. }
    split; [intros k Hk _; apply O; [done|lia]|]. intros c Hc' Pc H0. pose proof (parent_lt i H0).
    apply (above_at_trans _ c i (parent i)).
    + apply lookup_lt_is_Some. rewrite down_Permutation. unfold s. rewrite length_Swap. lia.
    + rewrite <- Pc. apply O; [done|lia].
    + apply O; lia.
  - apply less_at_false in E. split; [|done]. intros k Hk Nk. destruct (decide (parent k = i)) as [Ei|Ni]; [|by apply He]. rewrite Ei.
    apply (above_at_trans l k j i); [apply lookup_lt_is_Some; lia|by apply Lj|done].
Qed.

Lemma heap_Remove_spec i l x : heap l -> l !! i = Some x -> exists l', heap_Remove i l = Some (x, l') /\ heap l' /\ x :: l' ≡ₚ l.
Proof.
  intros H Hx. unfold heap_Remove. pose proof (lookup_lt_Some _ _ _ Hx) as L0. set (n := (length l - 1)%nat). assert (Ln : length l = S n) by lia.
  destruct (Nat.eqb_spec i n) as [->|Ni].
  - rewrite Hx. exists (take n l). split; [done|]. apply (pop_last l l n x); [done|done|done|]. intros k Hk Hp. apply H; lia.
  - destruct (lookup_lt_is_Some_2 l n ltac:(lia)) as [y Hy]. set (s := Swap i n l).
    assert (S : forall k, s !! k = if decide (k = i) then Some y else if decide (k = n) then Some x else l !! k) by (intros k; by apply lookup_Swap).
    assert (Ls : length s = length l) by apply length_Swap. destruct (down_hole n s i) as [He Hg]; [lia|lia| | |].
    + intros k Hk Np Nk. pose proof (parent_lt k ltac:(lia)). apply (above_at_same l); [by rewrite S, !decide_False by lia|by rewrite S, !decide_False by lia|]. apply H; lia.
    + intros c Hc Pc H0. pose proof (parent_lt c ltac:(lia)). pose proof (parent_lt i H0).
      apply (above_at_same l); [by rewrite S, !decide_False by lia|by rewrite S, !decide_False by lia|].
      apply (above_at_trans l c i (parent i)); [by exists x|rewrite <- Pc; apply H; lia|apply H; lia].
    + rewrite Ls in He, Hg. set (d := down (length l) i n s) in *. set (l' := up (Datatypes.S i) i d).
      assert (P : l' ≡ₚ l) by (unfold l', d; rewrite up_Permutation, down_Permutation; apply Swap_Permutation).
      assert (Ld : length d = length l) by (unfold d; by rewrite down_Permutation).
      assert (Hl : l' !! n = Some x) by (unfold l', d; rewrite up_keeps, down_keeps by lia; by rewrite S, decide_False, decide_True by lia).
      rewrite Hl. exists (take n l'). split; [done|]. apply (pop_last l l' n x P Ln Hl). unfold l'. apply up_ordered; [lia|lia|lia|done|done].
Qed.

(** The first element of a heap is replaced. *)
Lemma heap_Fix_head x y l : heap (y :: l) -> heap (heap_Fix O (x :: l)) /\ heap_Fix O (x :: l) ≡ₚ x :: l.
Proof.
  intros H. unfold heap_Fix. cbn [up]. change (parent O) with O. cbn [Nat.eqb orb]. split; [|apply down_Permutation].
  unfold heap. rewrite (Permutation_length (down_Permutation _ _ _ _)). apply down_ordered; [done|lia|lia| |lia].
  intros k Hk _ Nk. pose proof (parent_lt k ltac:(lia)). apply (above_at_same (y :: l)); [by destruct k; [lia|]|by destruct (parent k)|]. apply H; cbn in *; lia.
Qed.
End Heap.
