(* ===== verification/TxList.v ===== *)
(** * Package [core]: lists of transactions

    [src/pkg/core/tx_list.go]: the map of an account's transactions by nonce with its heap of
    nonces and its cache of the sorted order, the list of transactions of an account with its
    caps on cost and gas, and the heap of all transactions by price.  The specification of the
    first two is a list of transactions in the order of their nonces. *)

From stdpp Require Import sorting.
From S2P Require Import Prelude Rlp RlpStream Common Signature ChainConfig Trie Transaction Block GoSort GoHeap.

(** A [range] over a map visits its entries in an order that the language leaves open. *)
Class RangeOrder := {
  range : forall {A : Type}, list A -> list A;
  range_perm : forall {A : Type} (l : list A), range l ≡ₚ l
}.

Section Lists.
Context {HS : Hasher} {RO : RangeOrder}.

Definition nonce (tx : Transaction) : Z := td_AccountNonce (tx_data tx).
Definition gasPrice (tx : Transaction) : Z := td_Price (tx_data tx).
Definition gas (tx : Transaction) : Z := td_GasLimit (tx_data tx).

(** ** Transactions by nonce *)

(** The cache is [None] where the slice is nil. *)
Record txSortedMap := mkSortedMap { items : gmap Z Transaction; index : list Z; cache : option (list Transaction) }.

Definition newTxSortedMap : txSortedMap := mkSortedMap ∅ [] None.

Definition sm_Get (n : Z) (m : txSortedMap) : option Transaction := items m !! n.

Definition sm_Put (tx : Transaction) (m : txSortedMap) : txSortedMap :=
  let n := nonce tx in
  mkSortedMap (<[n := tx]> (items m)) (match items m !! n with None => heap_Push Z.ltb n (index m) | Some _ => index m end) None.

(** A nonce of the heap without a transaction would be a nil pointer, which is dereferenced. *)
Fixpoint forward_loop (fuel : nat) (threshold : Z) (m : txSortedMap) : outcome unit (list Transaction * txSortedMap) :=
  match fuel with
  | O => OutOfFuel
  | S fuel =>
    match index m with
    | [] => Ok ([], m)
    | n0 :: _ =>
      if n0 <? threshold then
        match heap_Pop Z.ltb (index m) with
        | Some (n, index') =>
          match items m !! n with
          | Some tx =>
            '(removed, m) ← forward_loop fuel threshold (mkSortedMap (base.delete n (items m)) index' (cache m));
            Ok (tx :: removed, m)
          | None => Panic
          end
        | None => Panic
        end
      else Ok ([], m)
    end
  end.

Definition sm_Forward (threshold : Z) (m : txSortedMap) : outcome unit (list Transaction * txSortedMap) :=
  '(removed, m) ← forward_loop (S (length (index m))) threshold m;
  match cache m with
  | None => Ok (removed, m)
  | Some c => if (length removed <=? length c)%nat then Ok (removed, mkSortedMap (items m) (index m) (Some (drop (length removed) c))) else Panic
  end.

Definition sm_Filter (f : Transaction -> bool) (m : txSortedMap) : list Transaction * txSortedMap :=
  let removed := List.filter f (map snd (range (map_to_list (items m)))) in
  match removed with
  | [] => ([], m)
  | _ =>
    let items' := base.filter (fun kv : Z * Transaction => f (snd kv) = false) (items m) in
    (removed, mkSortedMap items' (heap_Init Z.ltb (map fst (range (map_to_list items')))) None)
  end.

(** The highest nonces are dropped one by one; [size] items are left. *)
Fixpoint cap_loop (k : nat) (sorted : list Z) (its : gmap Z Transaction) (size : nat) : outcome unit (list Transaction * gmap Z Transaction) :=
  match k with
  | O => Ok ([], its)
  | S k =>
    match sorted !! (size - 1)%nat with
    | Some n =>
      match its !! n with
      | Some tx => '(drops, its) ← cap_loop k sorted (base.delete n its) (size - 1); Ok (tx :: drops, its)
      | None => Panic
      end
    | None => Panic
    end
  end.

(** A negative threshold is an index out of range. *)
Definition sm_Cap (threshold : Z) (m : txSortedMap) : outcome unit (list Transaction * txSortedMap) :=
  let size := Z.of_nat (base.size (items m)) in
  if size <=? threshold then Ok ([], m)
  else if threshold <? 0 then Panic
  else
    let sorted := go_sort Z.ltb (index m) in
    '(drops, its) ← cap_loop (Z.to_nat (size - threshold)) sorted (items m) (base.size (items m));
    let index' := heap_Init Z.ltb (take (Z.to_nat threshold) sorted) in
    match cache m with
    | None => Ok (drops, mkSortedMap its index' None)
    | Some c =>
      if (length drops <=? length c)%nat then Ok (drops, mkSortedMap its index' (Some (take (length c - length drops) c))) else Panic
    end.

Fixpoint position (n : Z) (l : list Z) : option nat :=
  match l with [] => None | x :: l => if x =? n then Some O else option_map S (position n l) end.

Definition sm_Remove (n : Z) (m : txSortedMap) : outcome unit (bool * txSortedMap) :=
  match items m !! n with
  | None => Ok (false, m)
  | Some _ =>
    index' ← match position n (index m) with
             | None => Ok (index m)
             | Some i => match heap_Remove Z.ltb i (index m) with Some (_, l) => Ok l | None => Panic end
             end;
    Ok (true, mkSortedMap (base.delete n (items m)) index' None)
  end.

Fixpoint ready_loop (fuel : nat) (next : Z) (m : txSortedMap) : outcome unit (list Transaction * txSortedMap) :=
  match fuel with
  | O => OutOfFuel
  | S fuel =>
    match index m with
    | [] => Ok ([], m)
    | n0 :: _ =>
      if n0 =? next then
        match items m !! next, heap_Pop Z.ltb (index m) with
        | Some tx, Some (_, index') =>
          '(ready, m) ← ready_loop fuel (u64 (next + 1)) (mkSortedMap (base.delete next (items m)) index' (cache m));
          Ok (tx :: ready, m)
        | _, _ => Panic
        end
      else Ok ([], m)
    end
  end.

Definition sm_Ready (start : Z) (m : txSortedMap) : outcome unit (list Transaction * txSortedMap) :=
  match index m with
  | [] => Ok ([], m)
  | n0 :: _ =>
    if start <? n0 then Ok ([], m)
    else '(ready, m) ← ready_loop (S (length (index m))) n0 m; Ok (ready, mkSortedMap (items m) (index m) None)
  end.

Definition sm_Len (m : txSortedMap) : Z := Z.of_nat (base.size (items m)).

Definition by_nonce (a b : Transaction) : bool := nonce a <? nonce b.

Definition sm_Flatten (m : txSortedMap) : list Transaction * txSortedMap :=
  match cache m with
  | Some c => (c, m)
  | None => let c := go_sort by_nonce (map snd (range (map_to_list (items m)))) in (c, mkSortedMap (items m) (index m) (Some c))
  end.

(** ** The transactions of an account *)

Record txList := mkTxList { strict : bool; txs : txSortedMap; costcap : Z; gascap : Z }.

Definition newTxList (strict : bool) : txList := mkTxList strict newTxSortedMap 0 0.

Definition set_txs (m : txSortedMap) (l : txList) : txList := mkTxList (strict l) m (costcap l) (gascap l).

Definition Overlaps (tx : Transaction) (l : txList) : bool := bool_decide (is_Some (sm_Get (nonce tx) (txs l))).

(** Whether the transaction was taken, and the one it replaces. *)
Definition tl_Add (tx : Transaction) (priceBump : Z) (l : txList) : bool * option Transaction * txList :=
  let old := sm_Get (nonce tx) (txs l) in
  let refused :=
    match old with
    | None => false
    | Some old =>
      let threshold := gasPrice old * i64 (100 + i64 priceBump) / 100 in
      (gasPrice tx <=? gasPrice old) || (gasPrice tx <? threshold)
    end in
  if refused then (false, None, l)
  else (true, old, mkTxList (strict l) (sm_Put tx (txs l)) (Z.max (costcap l) (Cost tx)) (Z.max (gascap l) (gas tx))).

Definition on_txs {A} (r : outcome unit (A * txSortedMap)) (l : txList) : outcome unit (A * txList) :=
  '(a, m) ← r; Ok (a, set_txs m l).

Definition tl_Forward (threshold : Z) (l : txList) : outcome unit (list Transaction * txList) := on_txs (sm_Forward threshold (txs l)) l.

Definition lowest_of (removed : list Transaction) : Z := foldl (fun lowest tx => if nonce tx <? lowest then nonce tx else lowest) (2 ^ 64 - 1) removed.

(** Those above the limits, and those that come after one of them. *)
Definition tl_Filter (costLimit gasLimit : Z) (l : txList) : list Transaction * list Transaction * txList :=
  if (costcap l <=? costLimit) && (gascap l <=? gasLimit) then ([], [], l)
  else
    let '(removed, m) := sm_Filter (fun tx => (costLimit <? Cost tx) || (gasLimit <? gas tx)) (txs l) in
    if strict l && negb (bool_decide (removed = [])) then
      let '(invalids, m) := sm_Filter (fun tx => lowest_of removed <? nonce tx) m in
      (removed, invalids, mkTxList (strict l) m costLimit gasLimit)
    else (removed, [], mkTxList (strict l) m costLimit gasLimit).

Definition tl_Cap (threshold : Z) (l : txList) : outcome unit (list Transaction * txList) := on_txs (sm_Cap threshold (txs l)) l.

Definition tl_Remove (tx : Transaction) (l : txList) : outcome unit (bool * list Transaction * txList) :=
  '(removed, m) ← sm_Remove (nonce tx) (txs l);
  if negb removed then Ok (false, [], set_txs m l)
  else if strict l then let '(invalids, m) := sm_Filter (fun t => nonce tx <? nonce t) m in Ok (true, invalids, set_txs m l)
  else Ok (true, [], set_txs m l).

Definition tl_Ready (start : Z) (l : txList) : outcome unit (list Transaction * txList) := on_txs (sm_Ready start (txs l)) l.
Definition tl_Len (l : txList) : Z := sm_Len (txs l).
Definition tl_Empty (l : txList) : bool := tl_Len l =? 0.
Definition tl_Flatten (l : txList) : list Transaction * txList := let '(c, m) := sm_Flatten (txs l) in (c, set_txs m l).

(** ** All transactions by price *)

(** The heap keeps transactions that have left the pool until they are met; [all] is the map of
    the transactions of the pool, to which the source has a pointer. *)
Record txPricedList := mkPriced { pitems : list Transaction; stales : Z }.

Definition newTxPricedList : txPricedList := mkPriced [] 0.

Definition by_price (a b : Transaction) : bool := gasPrice a <? gasPrice b.

Definition txhash (tx : Transaction) : bytes := fst (Transaction.Hash tx).

Definition known (all : gmap bytes Transaction) (tx : Transaction) : bool := bool_decide (is_Some (all !! txhash tx)).

Definition pl_Put (tx : Transaction) (l : txPricedList) : txPricedList := mkPriced (heap_Push by_price tx (pitems l)) (stales l).

Definition pl_Removed (all : gmap bytes Transaction) (l : txPricedList) : txPricedList :=
  let n := stales l + 1 in
  if n <=? Z.of_nat (length (pitems l)) / 4 then mkPriced (pitems l) n
  else mkPriced (heap_Init by_price (map snd (range (map_to_list all)))) 0.

Definition push_all (save : list Transaction) (l : txPricedList) : txPricedList := foldl (fun l tx => pl_Put tx l) l save.

(** The transactions to drop, and those to keep; at most [count] are dropped, all of them
    cheaper than [below]. *)
Fixpoint discard_loop (fuel : nat) (all : gmap bytes Transaction) (local : Transaction -> bool) (below : option Z) (count : option Z) (l : txPricedList)
  : outcome unit (list Transaction * list Transaction * txPricedList) :=
  match fuel with
  | O => OutOfFuel
  | S fuel =>
    if match pitems l with [] => true | _ => false end || match count with Some c => c <=? 0 | None => false end then Ok ([], [], l)
    else
      match heap_Pop by_price (pitems l) with
      | None => Panic
      | Some (tx, rest) =>
        if negb (known all tx) then discard_loop fuel all local below count (mkPriced rest (stales l - 1))
        else if match below with Some t => t <=? gasPrice tx | None => false end then Ok ([], [tx], mkPriced rest (stales l))
        else if local tx then
          '(drop, save, l) ← discard_loop fuel all local below count (mkPriced rest (stales l)); Ok (drop, tx :: save, l)
        else
          '(drop, save, l) ← discard_loop fuel all local below (option_map (fun c => c - 1) count) (mkPriced rest (stales l)); Ok (tx :: drop, save, l)
      end
  end.

Definition pl_Cap (all : gmap bytes Transaction) (local : Transaction -> bool) (threshold : Z) (l : txPricedList) : outcome unit (list Transaction * txPricedList) :=
  '(drop, save, l) ← discard_loop (S (length (pitems l))) all local (Some threshold) None l; Ok (drop, push_all save l).

(** A slice of negative capacity cannot be made. *)
Definition pl_Discard (all : gmap bytes Transaction) (local : Transaction -> bool) (count : Z) (l : txPricedList) : outcome unit (list Transaction * txPricedList) :=
  if count <? 0 then Panic
  else '(drop, save, l) ← discard_loop (S (length (pitems l))) all local None (Some count) l; Ok (drop, push_all save l).

(** Stale transactions at the front go. *)
Fixpoint settle (fuel : nat) (all : gmap bytes Transaction) (l : txPricedList) : outcome unit txPricedList :=
  match fuel with
  | O => OutOfFuel
  | S fuel =>
    match pitems l with
    | [] => Ok l
    | head :: _ =>
      if known all head then Ok l
      else match heap_Pop by_price (pitems l) with Some (_, rest) => settle fuel all (mkPriced rest (stales l - 1)) | None => Panic end
    end
  end.

Definition pl_Underpriced (all : gmap bytes Transaction) (local : Transaction -> bool) (tx : Transaction) (l : txPricedList) : outcome unit (bool * txPricedList) :=
  if local tx then Ok (false, l)
  else
    l ← settle (S (length (pitems l))) all l;
    match pitems l with [] => Ok (false, l) | cheapest :: _ => Ok (gasPrice tx <=? gasPrice cheapest, l) end.

(** ** Specification: lists in the order of the nonces *)

Implicit Types L : list Transaction.

Definition ascending L : Prop := StronglySorted (fun a b => nonce a < nonce b) L.

Definition by_nonces L : gmap Z Transaction := list_to_map (map (fun tx => (nonce tx, tx)) L).

(** The map holds the transactions of a list. *)
Record sm_holds (m : txSortedMap) L : Prop := mkSmHolds {
  sm_sorted : ascending L;
  sm_items : items m = by_nonces L;
  sm_heap : heap Z.ltb (index m);
  sm_index : index m ≡ₚ map nonce L;
  sm_cache : cache m = None \/ cache m = Some L
}.

Fixpoint place (tx : Transaction) L : list Transaction :=
  match L with
  | [] => [tx]
  | t :: L' => if nonce t <? nonce tx then t :: place tx L' else if nonce t =? nonce tx then tx :: L' else tx :: L
  end.

Definition before (t : Z) (tx : Transaction) : bool := nonce tx <? t.

Definition keep (f : Transaction -> bool) L : list Transaction := List.filter (fun tx => negb (f tx)) L.

(** The longest prefix with nonces one after the other. *)
Fixpoint run (next : Z) L : list Transaction :=
  match L with [] => [] | t :: L => if nonce t =? next then t :: run (u64 (next + 1)) L else [] end.

Definition ready (start : Z) L : list Transaction :=
  match L with [] => [] | t :: _ => if start <? nonce t then [] else run (nonce t) L end.

(** *** Lemmas on ordered lists *)

Lemma ltb_asym x y : (x <? y) = true -> (y <? x) = false.
Proof. lia. Qed.

Lemma ltb_trans x y z : (y <? x) = false -> (z <? y) = false -> (z <? x) = false.
Proof. lia. Qed.

Lemma ascending_head t L tx : ascending (t :: L) -> tx ∈ L -> nonce t < nonce tx.
Proof. intros H Hx. apply StronglySorted_inv in H as [_ F]. by apply (proj1 (list.Forall_forall _ _) F). Qed.

Lemma ascending_tail t L : ascending (t :: L) -> ascending L.
Proof. intros H. by apply StronglySorted_inv in H as [H _]. Qed.

Lemma ascending_filter f L : ascending L -> ascending (List.filter f L).
Proof.
  induction L as [|t L IH]; intros H; [constructor|]. cbn. pose proof (IH (ascending_tail _ _ H)) as H'. destruct (f t); [|done]. constructor; [done|].
  apply list.Forall_forall. intros tx Hx. apply list_elem_of_In, filter_In in Hx as [Hx _]. apply (ascending_head t L); [done|]. by apply list_elem_of_In.
Qed.

Lemma ascending_take k L : ascending L -> ascending (take k L).
Proof.
  revert k. induction L as [|t L IH]; intros k H; destruct k; try constructor; [by apply IH, (ascending_tail t)|]. apply list.Forall_forall. intros tx Hx.
  apply (ascending_head t L); [done|]. apply list_elem_of_lookup_1 in Hx as [i Hi]. apply lookup_take_Some in Hi as [Hi _]. by eapply list_elem_of_lookup_2.
Qed.

Lemma ascending_drop k L : ascending L -> ascending (drop k L).
Proof. revert k. induction L as [|t L IH]; intros k H; destruct k; try done. by apply IH, (ascending_tail t). Qed.

Lemma ascending_nonces L : ascending L -> NoDup (map nonce L).
Proof.
  induction L as [|t L IH]; intros H; [constructor|]. cbn. constructor; [|by apply IH, (ascending_tail t)]. intros (tx & E & Hx)%list_elem_of_fmap.
  pose proof (ascending_head t L tx H Hx). lia.
Qed.

Lemma ascending_eq L a b : ascending L -> a ∈ L -> b ∈ L -> nonce a = nonce b -> a = b.
Proof.
  induction L as [|t L IH]; intros H Ha Hb E; [by apply elem_of_nil in Ha|]. apply list.elem_of_cons in Ha as [->|Ha], Hb as [->|Hb]; try done.
  - pose proof (ascending_head t L b H Hb). lia.
  - pose proof (ascending_head t L a H Ha). lia.
  - by apply IH; [apply (ascending_tail t)|..].
Qed.

Lemma fst_pairs L : map fst (map (fun tx => (nonce tx, tx)) L) = map nonce L.
Proof. by rewrite map_map. Qed.

Lemma lookup_by_nonces L n tx : ascending L -> by_nonces L !! n = Some tx <-> tx ∈ L /\ nonce tx = n.
Proof.
  intros H. unfold by_nonces. rewrite <- elem_of_list_to_map by (change (NoDup (map fst (map (fun tx => (nonce tx, tx)) L))); rewrite fst_pairs; by apply ascending_nonces).
  rewrite list_elem_of_fmap. split.
  - intros (t & [= -> ->] & Ht). done.
  - intros [Ht <-]. by exists tx.
Qed.

Lemma by_nonces_none L n : ascending L -> by_nonces L !! n = None <-> n ∉ map nonce L.
Proof.
  intros H. rewrite list_elem_of_fmap. split.
  - intros E (t & -> & Ht). assert (X : by_nonces L !! nonce t = Some t) by by apply lookup_by_nonces. congruence.
  - intros N. destruct (by_nonces L !! n) as [t|] eqn:E; [|done]. apply lookup_by_nonces in E as [Ht <-]; [|done]. destruct N. by exists t.
Qed.

Lemma by_nonces_ext L m : ascending L -> (forall n tx, m !! n = Some tx <-> tx ∈ L /\ nonce tx = n) -> m = by_nonces L.
Proof. intros H E. apply map_eq. intros n. apply option_eq. intros tx. rewrite E. by rewrite lookup_by_nonces. Qed.

Lemma by_nonces_list L : ascending L -> map snd (map_to_list (by_nonces L)) ≡ₚ L /\ map fst (map_to_list (by_nonces L)) ≡ₚ map nonce L.
Proof.
  intros H. assert (P : map_to_list (by_nonces L) ≡ₚ map (fun tx => (nonce tx, tx)) L).
  { unfold by_nonces. apply map_to_list_to_map. change (NoDup (map fst (map (fun tx => (nonce tx, tx)) L))). rewrite fst_pairs. by apply ascending_nonces. }
  split; rewrite P; rewrite map_map; [by rewrite map_id|done].
Qed.

Lemma size_by_nonces L : ascending L -> base.size (by_nonces L) = length L.
Proof. intros H. rewrite <- length_map_to_list. rewrite <- (length_map snd). by rewrite (proj1 (by_nonces_list L H)). Qed.

Lemma delete_by_nonces L n : ascending L -> base.delete n (by_nonces L) = by_nonces (keep (fun t => nonce t =? n) L).
Proof.
  intros H. apply by_nonces_ext; [by apply ascending_filter|]. intros k tx. rewrite lookup_delete_Some, lookup_by_nonces by done.
  unfold keep. rewrite (list_elem_of_In (List.filter _ _)), filter_In, <- list_elem_of_In. split.
  - intros (N & Hx & <-). split; [|done]. split; [done|]. apply negb_true_iff. lia.
  - intros ((Hx & E) & <-). split; [|done]. apply negb_true_iff in E. lia.
Qed.

Lemma filter_by_nonces L f : ascending L -> base.filter (fun kv : Z * Transaction => f (snd kv) = false) (by_nonces L) = by_nonces (keep f L).
Proof.
  intros H. apply by_nonces_ext; [by apply ascending_filter|]. intros k tx. rewrite map_lookup_filter_Some, lookup_by_nonces by done. cbn [snd].
  unfold keep. rewrite (list_elem_of_In (List.filter _ _)), filter_In, <- list_elem_of_In. rewrite negb_true_iff. tauto.
Qed.

Lemma delete_head t L : ascending (t :: L) -> base.delete (nonce t) (by_nonces (t :: L)) = by_nonces L.
Proof.
  intros H. apply by_nonces_ext; [by apply (ascending_tail t)|]. intros k tx. rewrite lookup_delete_Some, lookup_by_nonces by done. rewrite list.elem_of_cons. split.
  - intros (N & [->|Hx] & <-); done.
  - intros (Hx & <-). pose proof (ascending_head t L tx H Hx). split; [lia|]. split; [by right|done].
Qed.

(** The front of the heap is the lowest nonce. *)
Lemma index_head l t L : heap Z.ltb l -> l ≡ₚ map nonce (t :: L) -> ascending (t :: L) -> exists l', l = nonce t :: l'.
Proof.
  intros H P S. destruct l as [|n l]; [by apply Permutation_nil_l in P|]. exists l. f_equal.
  assert (Hn : n ∈ map nonce (t :: L)) by (rewrite <- P; by left). assert (Ht : nonce t ∈ n :: l) by (rewrite P; by left).
  pose proof (heap_head Z.ltb ltb_asym ltb_trans (n :: l) n (nonce t) H eq_refl Ht) as E. apply list_elem_of_fmap in Hn as (x & -> & Hx).
  apply list.elem_of_cons in Hx as [->|Hx]; [done|]. pose proof (ascending_head t L x S Hx). lia.
Qed.

Lemma pop_index l t L : heap Z.ltb l -> l ≡ₚ map nonce (t :: L) -> ascending (t :: L) ->
  exists l', heap_Pop Z.ltb l = Some (nonce t, l') /\ heap Z.ltb l' /\ l' ≡ₚ map nonce L.
Proof.
  intros H P S. destruct (index_head l t L H P S) as [l0 E]. destruct (heap_Pop_spec Z.ltb ltb_asym ltb_trans l (nonce t) H) as (l' & Ep & H' & P'); [by rewrite E|].
  exists l'. split; [done|]. split; [done|]. rewrite P in P'. cbn in P'. by apply Permutation_cons_inv in P'.
Qed.

Lemma sm_holds_new : sm_holds newTxSortedMap [].
Proof. split; [constructor|done|apply heap_nil|done|by left]. Qed.

Lemma sm_Get_holds m L n : sm_holds m L -> forall tx, sm_Get n m = Some tx <-> tx ∈ L /\ nonce tx = n.
Proof. intros [S I _ _ _] tx. unfold sm_Get. rewrite I. by apply lookup_by_nonces. Qed.

Lemma sm_Get_nonces m L n : sm_holds m L -> sm_Get n m = by_nonces L !! n.
Proof. intros [_ I _ _ _]. unfold sm_Get. by rewrite I. Qed.

(** *** The operations of the map on the list *)

Lemma elem_of_place tx L t : ascending L -> t ∈ place tx L <-> t = tx \/ (t ∈ L /\ nonce t <> nonce tx).
Proof.
  induction L as [|x L IH]; intros S; cbn [place].
  - rewrite list_elem_of_singleton. split; [by left|]. intros [->|[H _]]; [done|by apply elem_of_nil in H].
  - pose proof (fun y => ascending_head x L y S) as Hd. destruct (Z.ltb_spec (nonce x) (nonce tx)) as [Lt|Ge]; [|destruct (Z.eqb_spec (nonce x) (nonce tx)) as [E|N]].
    + rewrite !list.elem_of_cons, IH by by apply (ascending_tail x). split; [intros [->|[->|[H N]]]; [right; split; [by left|lia]|by left|right; split; [by right|done]]|].
      intros [->|[[->|H] N]]; [right; by left|by left|right; by right].
    + rewrite !list.elem_of_cons. split.
      * intros [->|H]; [by left|]. right. specialize (Hd t H). split; [by right|lia].
      * intros [->|[[->|H] N]]; [by left|done|by right].
    + rewrite !list.elem_of_cons. split.
      * intros [->|[->|H]]; [by left|right; split; [by left|lia]|]. right. specialize (Hd t H). split; [by right|lia].
      * intros [->|[[->|H] _]]; [by left|right; by left|right; by right].
Qed.

Lemma ascending_place tx L : ascending L -> ascending (place tx L).
Proof.
  induction L as [|x L IH]; intros S; cbn [place]; [by repeat constructor|]. pose proof (ascending_tail _ _ S) as S'.
  assert (F : forall y, y ∈ L -> nonce x < nonce y) by (intros y; by apply ascending_head).
  destruct (Z.ltb_spec (nonce x) (nonce tx)) as [Lt|Ge]; [|destruct (Z.eqb_spec (nonce x) (nonce tx)) as [E|N]].
  - constructor; [by apply IH|]. apply list.Forall_forall. intros y [->|[Hy _]]%elem_of_place; [done|by apply F|done].
  - constructor; [done|]. apply list.Forall_forall. intros y Hy. specialize (F y Hy). lia.
  - constructor; [done|]. apply list.Forall_forall. intros y [->|Hy]%list.elem_of_cons; [lia|]. specialize (F y Hy). lia.
Qed.

Lemma place_nonces tx L : ascending L -> nonce tx ∉ map nonce L -> map nonce (place tx L) ≡ₚ nonce tx :: map nonce L.
Proof.
  induction L as [|x L IH]; intros S N; cbn [place map]; [done|]. cbn [map] in N. apply list.not_elem_of_cons in N as [N1 N2].
  destruct (Z.ltb_spec (nonce x) (nonce tx)); [cbn [map]; rewrite IH by (done || by apply (ascending_tail x)); apply perm_swap|].
  destruct (Z.eqb_spec (nonce x) (nonce tx)); [congruence|done].
Qed.

Lemma place_old_nonces tx L : ascending L -> nonce tx ∈ map nonce L -> map nonce (place tx L) = map nonce L.
Proof.
  induction L as [|x L IH]; intros S N; [by apply elem_of_nil in N|]. cbn [place map]. cbn [map] in N.
  destruct (Z.ltb_spec (nonce x) (nonce tx)); [|destruct (Z.eqb_spec (nonce x) (nonce tx)) as [E|]]; cbn [map].
  - f_equal. apply IH; [by apply (ascending_tail x)|]. apply list.elem_of_cons in N as [?|?]; [lia|done].
  - by f_equal.
  - exfalso. apply list.elem_of_cons in N as [?|(y & E & Hy)%list_elem_of_fmap]; [lia|]. pose proof (ascending_head x L y S Hy). lia.
Qed.

Lemma sm_Put_holds m L tx : sm_holds m L -> sm_holds (sm_Put tx m) (place tx L).
Proof.
  intros [S I H P C]. unfold sm_Put. split; cbn [items index cache]; [by apply ascending_place| | | |by left].
  - rewrite I. apply by_nonces_ext; [by apply ascending_place|]. intros n t. rewrite lookup_insert_Some, lookup_by_nonces, elem_of_place by done. split.
    + intros [[<- <-]|(N & Ht & <-)]; [split; [by left|done]|]. split; [right; split; [done|congruence]|done].
    + intros [[->|[Ht N]] <-]; [by left|]. right. split; [congruence|done].
  - destruct (items m !! nonce tx); [done|]. by apply (heap_Push_spec Z.ltb ltb_asym ltb_trans).
  - rewrite I. destruct (by_nonces L !! nonce tx) as [t|] eqn:E.
    + rewrite P. apply lookup_by_nonces in E as [Ht E]; [|done]. rewrite place_old_nonces; [done|done|]. rewrite <- E. apply list_elem_of_fmap. by exists t.
    + rewrite (proj2 (heap_Push_spec Z.ltb ltb_asym ltb_trans _ _ H)), P. symmetry. apply place_nonces; [done|]. by apply by_nonces_none.
Qed.

(** The parts of an ordered list below and from a nonce on. *)
Lemma filter_from t L x : ascending (x :: L) -> t <= nonce x ->
  List.filter (before t) (x :: L) = [] /\ keep (before t) (x :: L) = x :: L.
Proof.
  intros S Hx. assert (F : forall y, y ∈ x :: L -> before t y = false).
  { unfold before. intros y [->|Hy]%list.elem_of_cons; [lia|]. pose proof (ascending_head x L y S Hy). lia. }
  clear S Hx. unfold keep. induction (x :: L) as [|z l IH]; [done|]. cbn [List.filter]. rewrite F by (by left). cbn [negb]. destruct IH as [-> ->]; [|done].
  intros y Hy. apply F. by right.
Qed.

Lemma forward_loop_holds t : forall L m fuel,
  ascending L -> items m = by_nonces L -> heap Z.ltb (index m) -> index m ≡ₚ map nonce L -> (length L < fuel)%nat ->
  let rest := keep (before t) L in
  exists m', forward_loop fuel t m = Ok (List.filter (before t) L, m') /\
    items m' = by_nonces rest /\ heap Z.ltb (index m') /\ index m' ≡ₚ map nonce rest /\ cache m' = cache m.
Proof.
  induction L as [|x L IH]; intros m fuel S I H P F; (destruct fuel as [|fuel]; [lia|]); cbn [forward_loop].
  - cbn in P. apply Permutation_nil_r in P. rewrite P. exists m. by rewrite P.
  - destruct (index_head _ _ _ H P S) as [l0 E]. rewrite E. destruct (Z.ltb_spec (nonce x) t) as [Lt|Ge].
    + destruct (pop_index _ _ _ H P S) as (l' & Ep & H' & P'). rewrite <- E, Ep, I, (proj2 (lookup_by_nonces (x :: L) (nonce x) x S)) by (split; [by left|done]).
      rewrite (delete_head x L S). destruct (IH (mkSortedMap (by_nonces L) l' (cache m)) fuel) as (m' & Em & R); try done; [by apply (ascending_tail x)|cbn in F; lia|].
      rewrite Em. cbn [mbind outcome_bind]. exists m'. unfold keep, before. cbn [List.filter]. rewrite (proj2 (Z.ltb_lt _ _) Lt). cbn [negb]. split; [done|exact R].
    + destruct (filter_from t L x S Ge) as [-> ->]. exists m. done.
Qed.

Lemma filter_keep_split t L : ascending L -> List.filter (before t) L ++ keep (before t) L = L.
Proof.
  induction L as [|x L IH]; intros S; [done|]. destruct (Z.ltb_spec (nonce x) t) as [Lt|Ge].
  - unfold keep, before. cbn [List.filter]. rewrite (proj2 (Z.ltb_lt _ _) Lt). cbn [negb]. cbn. f_equal. by apply IH, (ascending_tail x).
  - by destruct (filter_from t L x S Ge) as [-> ->].
Qed.

Lemma sm_Forward_holds m L t : sm_holds m L ->
  exists m', sm_Forward t m = Ok (List.filter (before t) L, m') /\ sm_holds m' (keep (before t) L).
Proof.
  intros [S I H P C]. unfold sm_Forward. destruct (forward_loop_holds t L m (Datatypes.S (length (index m))) S I H P) as (m' & -> & I' & H' & P' & C').
  { rewrite (Permutation_length P), length_map. lia. }
  cbn [mbind outcome_bind]. pose proof (filter_keep_split t L S) as Sp. destruct C as [C|C]; rewrite C', C.
  - exists m'. split; [done|]. split; try done; [by apply ascending_filter|left; congruence].
  - assert (Le : (length (List.filter (before t) L) <= length L)%nat) by (rewrite <- Sp at 2; rewrite length_app; lia).
    rewrite (proj2 (Nat.leb_le _ _) Le). eexists. split; [done|]. split; cbn [items index cache]; try done; [by apply ascending_filter|].
    right. f_equal. rewrite <- Sp at 2. by rewrite drop_app_length.
Qed.

Lemma filter_Permutation (f : Transaction -> bool) L L' : L ≡ₚ L' -> List.filter f L ≡ₚ List.filter f L'.
Proof.
  induction 1 as [|x l l' P IH|x y l|l1 l2 l3 P1 IH1 P2 IH2]; cbn; [done| | |by etrans].
  - destruct (f x); [by rewrite IH|done].
  - destruct (f x), (f y); try done. apply perm_swap.
Qed.

Lemma keep_all f L : List.filter f L = [] -> keep f L = L.
Proof. unfold keep. induction L as [|x L IH]; [done|]. cbn. destruct (f x); [done|]. cbn. intros E. f_equal. by apply IH. Qed.

Lemma sm_Filter_holds m L f : sm_holds m L ->
  exists removed m', sm_Filter f m = (removed, m') /\ removed ≡ₚ List.filter f L /\ sm_holds m' (keep f L).
Proof.
  intros [S I H P C]. unfold sm_Filter. set (removed := List.filter f _).
  assert (Pr : removed ≡ₚ List.filter f L).
  { unfold removed. apply filter_Permutation. rewrite range_perm, I. apply by_nonces_list, S. }
  destruct removed as [|r removed'] eqn:E.
  - symmetry in Pr. apply Permutation_nil_r in Pr. exists [], m. split; [done|]. split; [by rewrite Pr|]. rewrite (keep_all f L Pr). by split.
  - exists (r :: removed'). eexists. split; [done|]. split; [done|]. rewrite I, filter_by_nonces by done.
    set (K := keep f L). assert (SK : ascending K) by by apply ascending_filter.
    destruct (heap_Init_spec Z.ltb ltb_asym ltb_trans (map fst (range (map_to_list (by_nonces K))))) as [Hh Hp].
    split; cbn [items index cache]; try done; [|by left]. rewrite Hp, range_perm. apply by_nonces_list, SK.
Qed.

Lemma sorted_nonces L : ascending L -> StronglySorted (GoSort.in_order Z.ltb) (map nonce L).
Proof.
  induction L as [|x L IH]; intros S; [constructor|]. cbn. constructor; [by apply IH, (ascending_tail x)|]. apply list.Forall_forall.
  intros n (y & -> & Hy)%list_elem_of_fmap. unfold GoSort.in_order. pose proof (ascending_head x L y S Hy). lia.
Qed.

Lemma sort_index L l : ascending L -> l ≡ₚ map nonce L -> go_sort Z.ltb l = map nonce L.
Proof.
  intros S P. symmetry. apply go_sort_unique; [apply ltb_asym|apply ltb_trans|intros; lia|done|by apply sorted_nonces].
Qed.

Lemma delete_last L t : ascending (L ++ [t]) -> base.delete (nonce t) (by_nonces (L ++ [t])) = by_nonces L.
Proof.
  intros S. rewrite delete_by_nonces by done. f_equal. unfold keep. rewrite List.filter_app. cbn. rewrite Z.eqb_refl. cbn. rewrite app_nil_r.
  assert (F : forall y, y ∈ L -> nonce y < nonce t). { intros y Hy. apply (StronglySorted_app_1_elem_of _ _ _ y t S); [done|by left]. }
  clear S. induction L as [|x L IH]; [done|]. cbn. rewrite (proj2 (Z.eqb_neq (nonce x) (nonce t))) by (specialize (F x ltac:(by left)); lia). cbn. f_equal.
  apply IH. intros y Hy. apply F. by right.
Qed.

Lemma cap_loop_holds L : ascending L -> forall k n, (k <= n)%nat -> (n <= length L)%nat ->
  cap_loop k (map nonce L) (by_nonces (take n L)) n = Ok (reverse (drop (n - k) (take n L)), by_nonces (take (n - k) L)).
Proof.
  intros S. induction k as [|k IH]; intros n Hk Hn; cbn [cap_loop].
  - rewrite Nat.sub_0_r, drop_ge by (rewrite length_take; lia). done.
  - destruct (lookup_lt_is_Some_2 L (n - 1)%nat ltac:(lia)) as [t Ht]. assert (Tn : take n L = take (n - 1) L ++ [t]).
    { replace n with (Datatypes.S (n - 1)) at 1 by lia. by apply take_S_r. }
    change (map nonce L) with (nonce <$> L). rewrite list_lookup_fmap, Ht. cbn [fmap option_fmap option_map]. pose proof (ascending_take n L S) as Sn.
    rewrite (proj2 (lookup_by_nonces (take n L) (nonce t) t Sn)) by (split; [rewrite Tn; apply elem_of_app; right; by left|done]).
    rewrite Tn in Sn. rewrite Tn at 1. rewrite delete_last by done. rewrite IH by lia. cbn [mbind outcome_bind].
    replace (n - 1 - k)%nat with (n - Datatypes.S k)%nat by lia. f_equal. f_equal. rewrite Tn, drop_app_le by (rewrite length_take; lia). by rewrite reverse_snoc.
Qed.

Lemma sm_Cap_holds m L k : sm_holds m L ->
  exists m', sm_Cap (Z.of_nat k) m = Ok (reverse (drop k L), m') /\ sm_holds m' (take k L).
Proof.
  intros [S I H P C]. unfold sm_Cap. rewrite I, size_by_nonces by done. destruct (Z.leb_spec (Z.of_nat (length L)) (Z.of_nat k)) as [Le|Gt].
  - exists m. rewrite drop_ge, take_ge by lia. split; [done|by split].
  - rewrite (proj2 (Z.ltb_ge _ _)) by lia. rewrite (sort_index L) by done. rewrite Nat2Z.id.
    assert (E : cap_loop (Z.to_nat (Z.of_nat (length L) - Z.of_nat k)) (map nonce L) (by_nonces L) (length L) = Ok (reverse (drop k L), by_nonces (take k L))).
    { replace (Z.to_nat (Z.of_nat (length L) - Z.of_nat k)) with (length L - k)%nat by lia.
      rewrite <- (take_ge L (length L)) at 3 by lia. rewrite (cap_loop_holds L S) by lia. replace (length L - (length L - k))%nat with k by lia. by rewrite (take_ge L (length L)) by lia. }
    rewrite E. cbn [mbind outcome_bind].
    assert (X : forall c, c = None \/ c = Some (take k L) -> sm_holds (mkSortedMap (by_nonces (take k L)) (heap_Init Z.ltb (take k (map nonce L))) c) (take k L)).
    { intros c Hc. destruct (heap_Init_spec Z.ltb ltb_asym ltb_trans (take k (map nonce L))) as [Hh Hp]. split; cbn [items index cache]; try done; [by apply ascending_take|].
      rewrite Hp. by rewrite firstn_map. }
    destruct C as [C|C]; rewrite C; [eexists; split; [done|]; apply X; by left|]. rewrite length_reverse, length_drop.
    rewrite (proj2 (Nat.leb_le _ _)) by lia. eexists. split; [done|]. apply X. right. do 2 f_equal. lia.
Qed.

Lemma position_Some n l : n ∈ l -> exists i, position n l = Some i /\ l !! i = Some n.
Proof.
  induction l as [|x l IH]; intros H; [by apply elem_of_nil in H|]. cbn. destruct (Z.eqb_spec x n) as [->|N]; [by exists O|].
  apply list.elem_of_cons in H as [->|H]; [done|]. destruct (IH H) as (i & -> & E). by exists (S i).
Qed.

Lemma keep_nonces n L : ascending L -> n ∈ map nonce L -> n :: map nonce (keep (fun t => nonce t =? n) L) ≡ₚ map nonce L.
Proof.
  induction L as [|x L IH]; intros S H; [by apply elem_of_nil in H|]. unfold keep. cbn [List.filter map]. cbn [map] in H. pose proof (ascending_tail _ _ S) as S'.
  destruct (Z.eqb_spec (nonce x) n) as [E|N]; cbn [negb].
  - rewrite E. constructor. fold (keep (fun t => nonce t =? n) L). rewrite keep_all; [done|]. assert (F : forall y, y ∈ L -> nonce y <> n) by (intros y Hy; pose proof (ascending_head x L y S Hy); lia).
    clear -F. induction L as [|y L IH]; [done|]. cbn. rewrite (proj2 (Z.eqb_neq _ _)) by (apply F; by left). apply IH. intros z Hz. apply F. by right.
  - apply list.elem_of_cons in H as [H|H]; [congruence|]. cbn [map]. rewrite perm_swap. constructor. by apply IH.
Qed.

Lemma sm_Remove_holds m L n : sm_holds m L ->
  exists m', sm_Remove n m = Ok (bool_decide (n ∈ map nonce L), m') /\ sm_holds m' (keep (fun t => nonce t =? n) L).
Proof.
  intros [S I H P C]. unfold sm_Remove. rewrite I. destruct (by_nonces L !! n) as [tx|] eqn:E.
  - apply lookup_by_nonces in E as [Hx En]; [|done]. assert (Hn : n ∈ map nonce L) by (apply list_elem_of_fmap; by exists tx).
    destruct (position_Some n (index m)) as (i & -> & Hi); [by rewrite P|].
    destruct (heap_Remove_spec Z.ltb ltb_asym ltb_trans i (index m) n H Hi) as (l & -> & Hl & Pl). cbn [mbind outcome_bind]. rewrite bool_decide_true by done.
    eexists. split; [done|]. rewrite delete_by_nonces by done. split; cbn [items index cache]; try done; [by apply ascending_filter| |by left].
    rewrite P, <- (keep_nonces n L S Hn) in Pl. by apply Permutation_cons_inv in Pl.
  - apply by_nonces_none in E; [|done]. rewrite bool_decide_false by done. exists m. split; [done|]. rewrite keep_all; [by split|].
    clear -E. induction L as [|x L IH]; [done|]. cbn in *. apply list.not_elem_of_cons in E as [N E]. rewrite (proj2 (Z.eqb_neq _ _)) by congruence. by apply IH.
Qed.

Lemma ready_loop_holds : forall L m fuel next,
  ascending L -> items m = by_nonces L -> heap Z.ltb (index m) -> index m ≡ₚ map nonce L -> (length L < fuel)%nat ->
  let rest := drop (length (run next L)) L in
  exists m', ready_loop fuel next m = Ok (run next L, m') /\ items m' = by_nonces rest /\ heap Z.ltb (index m') /\ index m' ≡ₚ map nonce rest.
Proof.
  induction L as [|x L IH]; intros m fuel next S I H P F; (destruct fuel as [|fuel]; [lia|]); cbn [ready_loop].
  - cbn in P. apply Permutation_nil_r in P. rewrite P. exists m. by rewrite P.
  - destruct (index_head _ _ _ H P S) as [l0 E]. rewrite E. cbn [run]. destruct (Z.eqb_spec (nonce x) next) as [En|Nn].
    + destruct (pop_index _ _ _ H P S) as (l' & Ep & H' & P'). rewrite <- E, Ep, I, <- En, (proj2 (lookup_by_nonces (x :: L) (nonce x) x S)) by (split; [by left|done]).
      rewrite (delete_head x L S). destruct (IH (mkSortedMap (by_nonces L) l' (cache m)) fuel (u64 (nonce x + 1))) as (m' & Em & R); try done; [by apply (ascending_tail x)|cbn in F; lia|].
      rewrite Em. cbn [mbind outcome_bind]. exists m'. split; [done|exact R].
    + exists m. done.
Qed.

Lemma sm_Ready_holds m L start : sm_holds m L ->
  exists m', sm_Ready start m = Ok (ready start L, m') /\ sm_holds m' (drop (length (ready start L)) L).
Proof.
  intros [S I H P C]. unfold sm_Ready, ready. destruct L as [|x L].
  - cbn in P. apply Permutation_nil_r in P. rewrite P. exists m. split; [done|]. split; try done. by rewrite P.
  - destruct (index_head _ _ _ H P S) as [l0 E]. rewrite E. destruct (start <? nonce x); [exists m; split; [done|by split]|]. rewrite <- E.
    destruct (ready_loop_holds (x :: L) m (Datatypes.S (length (index m))) (nonce x) S I H P) as (m' & -> & I' & H' & P').
    { rewrite (Permutation_length P), length_map. lia. }
    cbn [mbind outcome_bind]. eexists. split; [done|]. split; cbn [items index cache]; try done; [by apply ascending_drop|by left].
Qed.

Lemma sm_Len_holds m L : sm_holds m L -> sm_Len m = Z.of_nat (length L).
Proof. intros [S I _ _ _]. unfold sm_Len. by rewrite I, size_by_nonces. Qed.

Lemma sort_txs L l : ascending L -> l ≡ₚ L -> go_sort by_nonce l = L.
Proof.
  intros S P. symmetry. apply go_sort_unique; unfold by_nonce.
  - intros x y. lia.
  - intros x y z. lia.
  - intros x y Hx Hy E1 E2. rewrite P in Hx, Hy. apply (ascending_eq L); [done|done|done|lia].
  - done.
  - clear P. induction S as [|x L S IH F]; constructor; [done|]. revert F. apply List.Forall_impl. intros y. unfold GoSort.in_order. lia.
Qed.

Lemma sm_Flatten_holds m L : sm_holds m L -> exists m', sm_Flatten m = (L, m') /\ sm_holds m' L.
Proof.
  intros [S I H P C]. unfold sm_Flatten. destruct C as [C|C]; rewrite C; [|exists m; split; [done|]; split; try done; by right].
  assert (E : go_sort by_nonce (map snd (range (map_to_list (items m)))) = L).
  { apply sort_txs; [done|]. rewrite range_perm, I. by apply by_nonces_list. }
  rewrite E. eexists. split; [done|]. split; try done. by right.
Qed.

(** ** The transactions of an account *)

(** The list of an account holds the transactions [L]; the caps bound their costs and their gas. *)
Record tl_holds (l : txList) L : Prop := mkTlHolds {
  tl_map : sm_holds (txs l) L;
  tl_nonces : Forall (fun tx => 0 <= nonce tx < 2 ^ 64) L;
  tl_caps : Forall (fun tx => Cost tx <= costcap l /\ gas tx <= gascap l) L
}.

(** A price that replaces another: higher, and by the bump in percent. *)
Definition outbids (bump : Z) (tx old : Transaction) : Prop := gasPrice old < gasPrice tx /\ gasPrice old * i64 (100 + i64 bump) / 100 <= gasPrice tx.

Definition payable (costLimit gasLimit : Z) (tx : Transaction) : bool := (Cost tx <=? costLimit) && (gas tx <=? gasLimit).

(** The longest prefix that satisfies [f]. *)
Fixpoint prefix_of (f : Transaction -> bool) L : list Transaction :=
  match L with [] => [] | t :: L => if f t then t :: prefix_of f L else [] end.

Lemma tl_holds_new b : tl_holds (newTxList b) [].
Proof. split; [apply sm_holds_new|constructor..]. Qed.

(** A part of the list. *)
Lemma tl_holds_sub l L m L' :
  tl_holds l L -> sm_holds m L' -> (forall tx, tx ∈ L' -> tx ∈ L) -> tl_holds (set_txs m l) L'.
Proof.
  intros [_ N C] H Sub. rewrite list.Forall_forall in N, C. split; [done|..]; apply list.Forall_forall; intros tx Hx%Sub; [by apply N|by apply C].
Qed.

Lemma elem_of_filter_list (f : Transaction -> bool) L tx : tx ∈ List.filter f L <-> tx ∈ L /\ f tx = true.
Proof. rewrite !list_elem_of_In. apply filter_In. Qed.

Lemma elem_of_keep (f : Transaction -> bool) L tx : tx ∈ keep f L <-> tx ∈ L /\ f tx = false.
Proof. unfold keep. rewrite elem_of_filter_list. destruct (f tx); cbn; split; intros []; by split. Qed.

Lemma Overlaps_holds l L tx : tl_holds l L -> Overlaps tx l = bool_decide (nonce tx ∈ map nonce L).
Proof.
  intros [H _ _]. unfold Overlaps. rewrite (sm_Get_nonces _ _ _ H). apply bool_decide_ext. rewrite list_elem_of_fmap, <- not_eq_None_Some. 
  destruct (by_nonces L !! nonce tx) as [old|] eqn:E.
  - apply lookup_by_nonces in E as [Hx En]; [|apply H]. split; [intros _; by exists old|done].
  - apply by_nonces_none in E; [|apply H]. split; [done|]. intros (y & Ey & Hy). destruct E. apply list_elem_of_fmap. by exists y.
Qed.

(** An addition is refused where a transaction of the same nonce is not outbid. *)
Lemma tl_Add_holds l L tx bump :
  tl_holds l L -> 0 <= nonce tx < 2 ^ 64 ->
  (exists old, old ∈ L /\ nonce old = nonce tx /\ ~ outbids bump tx old /\ tl_Add tx bump l = (false, None, l)) \/
  exists l', tl_Add tx bump l = (true, by_nonces L !! nonce tx, l') /\ tl_holds l' (place tx L) /\ strict l' = strict l /\
    forall old, by_nonces L !! nonce tx = Some old -> outbids bump tx old.
Proof.
  intros [H N C] Hn. unfold tl_Add. rewrite (sm_Get_nonces _ _ _ H). set (refused := match _ with None => false | Some _ => _ end).
  assert (T : refused = false -> tl_holds (mkTxList (strict l) (sm_Put tx (txs l)) (Z.max (costcap l) (Cost tx)) (Z.max (gascap l) (gas tx))) (place tx L)).
  { intros _. split; cbn [txs costcap gascap]; [by apply sm_Put_holds|..]; apply list.Forall_forall; intros y Hy; (apply elem_of_place in Hy as [->|[Hy _]]; [..|apply H]); try done; try lia.
    - by apply (proj1 (list.Forall_forall _ _) N).
    - pose proof (proj1 (list.Forall_forall _ _) C y Hy). cbn beta in *. lia. }
  destruct (by_nonces L !! nonce tx) as [old|] eqn:E; subst refused.
  - pose proof E as [Ho En]%lookup_by_nonces; [|apply H]. destruct (_ || _) eqn:R; [left; exists old|right].
    + repeat split; try done. unfold outbids. zbool; lia.
    + eexists. split; [done|]. split; [by apply T|]. split; [done|]. intros o [= <-]. unfold outbids. zbool. lia.
  - right. eexists. split; [done|]. split; [by apply T|]. done.
Qed.

Lemma lowest_of_spec removed : removed <> [] -> Forall (fun tx => 0 <= nonce tx < 2 ^ 64) removed ->
  (forall tx, tx ∈ removed -> lowest_of removed <= nonce tx) /\ exists tx, tx ∈ removed /\ lowest_of removed = nonce tx.
Proof.
  intros Ne F. unfold lowest_of.
  assert (G : forall b, let r := foldl (fun lowest tx => if nonce tx <? lowest then nonce tx else lowest) b removed in
    r <= b /\ (forall tx, tx ∈ removed -> r <= nonce tx) /\ (r = b \/ exists tx, tx ∈ removed /\ r = nonce tx)).
  { clear. induction removed as [|x l IH]; intros b; cbn; [split; [lia|]; split; [intros tx H; by apply elem_of_nil in H|by left]|].
    destruct (IH (if nonce x <? b then nonce x else b)) as (Lb & Lt & Ex). destruct (Z.ltb_spec (nonce x) b).
    - split; [lia|]. split; [intros tx [->|H']%list.elem_of_cons; [done|by apply Lt]|]. right. destruct Ex as [->|(y & Hy & ->)]; [exists x; split; [by left|done]|exists y; split; [by right|done]].
    - split; [done|]. split; [intros tx [->|H']%list.elem_of_cons; [lia|by apply Lt]|]. destruct Ex as [Ex|(y & Hy & Ex)]; [by left|right]. exists y. split; [by right|done]. }
  destruct (G (2 ^ 64 - 1)) as (Lb & Lt & Ex). split; [done|]. destruct Ex as [Ex|Ex]; [|done]. destruct removed as [|x l]; [done|]. exists x. split; [by left|].
  pose proof (Lt x ltac:(by left)). apply list.Forall_cons in F as [Fx _]. lia.
Qed.

(** Without the transactions that fail [f] and those that come after one of them, the longest
    prefix that satisfies [f] is left. *)
Lemma keep_after f L n : ascending L ->
  (forall tx, tx ∈ L -> f tx = false -> n <= nonce tx) -> (exists tx, tx ∈ L /\ f tx = false /\ nonce tx = n) ->
  keep (fun tx => n <? nonce tx) (keep (fun tx => negb (f tx)) L) = prefix_of f L /\
  List.filter (fun tx => n <? nonce tx) (keep (fun tx => negb (f tx)) L) = List.filter f (drop (length (prefix_of f L)) L).
Proof.
  unfold keep. induction L as [|x L IH]; intros S Hlt (t & Ht & Ft & En); [by apply elem_of_nil in Ht|]. cbn [prefix_of List.filter]. pose proof (ascending_tail _ _ S) as S'.
  destruct (f x) eqn:Fx; cbn [negb List.filter length drop].
  - assert (Ht' : t ∈ L) by (apply list.elem_of_cons in Ht as [->|Ht]; [congruence|done]). pose proof (ascending_head x L t S Ht').
    rewrite (proj2 (Z.ltb_ge n (nonce x))) by lia. cbn [negb List.filter]. destruct IH as [-> ->]; [done| |by exists t|done]. intros y Hy. apply Hlt. by right.
  - rewrite Fx. assert (En' : n = nonce x). { apply list.elem_of_cons in Ht as [->|Ht]; [done|]. pose proof (ascending_head x L t S Ht). specialize (Hlt x ltac:(by left) Fx). lia. }
    assert (A : forall y, y ∈ List.filter (fun tx => negb (negb (f tx))) L -> (n <? nonce y) = true).
    { intros y [Hy _]%elem_of_filter_list. pose proof (ascending_head x L y S Hy). lia. }
    clear -A. replace (List.filter f L) with (List.filter (fun tx => negb (negb (f tx))) L) by (apply filter_ext; intros; apply negb_involutive).
    induction (List.filter _ L) as [|y l IH]; [done|]. cbn. rewrite A by (by left). cbn. destruct IH as [-> ->]; [intros; apply A; by right|done].
Qed.

Lemma prefix_of_all f L : Forall (fun tx => f tx = true) L -> prefix_of f L = L.
Proof. induction 1 as [|x L H _ IH]; [done|]. cbn. by rewrite H, IH. Qed.

Lemma prefix_of_take f L : prefix_of f L = take (length (prefix_of f L)) L.
Proof. induction L as [|x L IH]; [done|]. cbn. destruct (f x); [|done]. cbn. by rewrite <- IH. Qed.

Lemma elem_of_prefix f L tx : tx ∈ prefix_of f L -> tx ∈ L /\ f tx = true.
Proof.
  induction L as [|x L IH]; intros H; [by apply elem_of_nil in H|]. cbn in H. destruct (f x) eqn:E; [|by apply elem_of_nil in H].
  apply list.elem_of_cons in H as [->|H]; [split; [by left|done]|]. destruct (IH H). split; [by right|done].
Qed.

Lemma filter_none (f : Transaction -> bool) L : Forall (fun tx => f tx = false) L -> List.filter f L = [].
Proof. induction 1 as [|x L H _ IH]; [done|]. cbn. by rewrite H. Qed.

(** What is left of a list after the filter, what is removed and what comes after it. *)
Definition filtered (strict : bool) (f : Transaction -> bool) L : list Transaction := if strict then prefix_of f L else List.filter f L.
Definition unfit (f : Transaction -> bool) L : list Transaction := List.filter (fun tx => negb (f tx)) L.
Definition stranded (strict : bool) (f : Transaction -> bool) L : list Transaction :=
  if strict then List.filter f (drop (length (prefix_of f L)) L) else [].

Lemma filter_is_keep (f : Transaction -> bool) L : List.filter f L = keep (fun tx => negb (f tx)) L.
Proof. unfold keep. apply filter_ext. intros. symmetry. apply negb_involutive. Qed.

Lemma filtered_fit b f L tx : tx ∈ filtered b f L -> tx ∈ L /\ f tx = true.
Proof. destruct b; cbn; [apply elem_of_prefix|apply elem_of_filter_list]. Qed.

Lemma tl_Filter_holds l L c g : tl_holds l L ->
  let f := payable c g in
  exists removed invalids l', tl_Filter c g l = (removed, invalids, l') /\ removed ≡ₚ unfit f L /\ invalids ≡ₚ stranded (strict l) f L /\
    tl_holds l' (filtered (strict l) f L) /\ strict l' = strict l.
Proof.
  intros [H N C] f. rewrite list.Forall_forall in N, C. pose proof (sm_sorted _ _ H) as S. unfold tl_Filter. destruct ((costcap l <=? c) && (gascap l <=? g)) eqn:Q.
  - assert (A : Forall (fun tx => f tx = true) L). { apply list.Forall_forall. intros tx Hx. specialize (C tx Hx). unfold f, payable. zbool. rewrite andb_true_iff. lia. }
    assert (E : prefix_of f L = L /\ List.filter f L = L /\ unfit f L = []).
    { split; [by apply prefix_of_all|]. split.
      - rewrite filter_is_keep. apply keep_all, filter_none. revert A. apply List.Forall_impl. intros a ->. done.
      - apply filter_none. revert A. apply List.Forall_impl. intros a ->. done. }
    destruct E as (E1 & E2 & E3). exists [], [], l. unfold filtered, stranded. rewrite E1, E2, E3, drop_ge by done. split; [done|]. split; [done|].
    split; [by destruct (strict l)|]. split; [|done]. split; [by destruct (strict l)|by destruct (strict l); apply list.Forall_forall..].
  - destruct (sm_Filter_holds (txs l) L (fun tx => (c <? Cost tx) || (g <? gas tx)) H) as (removed & m & -> & Pr & Hm).
    assert (Ef : forall tx, (c <? Cost tx) || (g <? gas tx) = negb (f tx)). { intros tx. unfold f, payable. destruct (Z.ltb_spec c (Cost tx)), (Z.ltb_spec g (gas tx)); zbool; cbn; repeat (rewrite (proj2 (Z.leb_le _ _)) by lia); repeat (rewrite (proj2 (Z.leb_gt _ _)) by lia); done. }
    rewrite (filter_ext _ _ Ef) in Pr. unfold keep in Hm. rewrite (filter_ext _ (fun tx => negb (negb (f tx)))) in Hm by (intros; by rewrite Ef). fold (keep (fun tx => negb (f tx)) L) in Hm.
    assert (T : forall b m L', sm_holds m L' -> (forall tx, tx ∈ L' -> tx ∈ L /\ f tx = true) -> tl_holds (mkTxList b m c g) L').
    { intros b m' L' H' Sub. split; [done|..]; apply list.Forall_forall; intros tx [Hx Fx]%Sub; [by apply N|]. unfold f, payable in Fx. cbn. zbool. done. }
    destruct (strict l && negb (bool_decide (removed = []))) eqn:B.
    + apply andb_true_iff in B as [-> B]. apply negb_true_iff, bool_decide_eq_false in B.
      destruct (lowest_of_spec removed B) as (Lo & t & Ht & Et). { apply list.Forall_forall. intros tx Hx. rewrite Pr in Hx. apply elem_of_filter_list in Hx as [Hx _]. by apply N. }
      destruct (keep_after f L (lowest_of removed) S) as [K1 K2].
      { intros tx Hx Fx. apply Lo. rewrite Pr. apply elem_of_filter_list. by rewrite Fx. }
      { exists t. rewrite Pr in Ht. apply elem_of_filter_list in Ht as [Ht Ft]. split; [done|]. split; [by apply negb_true_iff|done]. }
      destruct (sm_Filter_holds m _ (fun tx => lowest_of removed <? nonce tx) Hm) as (invalids & m' & -> & Pi & Hm'). rewrite K1 in Hm'. rewrite K2 in Pi.
      eexists _, _, _. split; [done|]. split; [done|]. split; [done|]. split; [|done]. apply T; [done|]. apply elem_of_prefix.
    + exists removed, []. eexists. split; [done|]. split; [done|].
      assert (E : filtered (strict l) f L = keep (fun tx => negb (f tx)) L /\ stranded (strict l) f L = []).
      { unfold filtered, stranded. rewrite <- filter_is_keep. destruct (strict l); [|done]. cbn in B. apply negb_false_iff, bool_decide_eq_true in B as ->.
        apply Permutation_nil_l in Pr. assert (A : Forall (fun tx => f tx = true) L).
        { apply list.Forall_forall. intros tx Hx. destruct (f tx) eqn:Fx; [done|]. assert (X : tx ∈ unfit f L) by (apply elem_of_filter_list; by rewrite Fx). unfold unfit in X. rewrite <- Pr in X. by apply elem_of_nil in X. }
        rewrite prefix_of_all, drop_ge by done. split; [|done]. rewrite filter_is_keep. symmetry. by apply keep_all. }
      destruct E as [-> ->]. split; [done|]. split; [|done]. apply T; [done|]. intros tx. rewrite <- filter_is_keep. apply elem_of_filter_list.
Qed.

Lemma tl_Forward_holds l L t : tl_holds l L ->
  exists l', tl_Forward t l = Ok (List.filter (before t) L, l') /\ tl_holds l' (keep (before t) L) /\ strict l' = strict l.
Proof.
  intros H. destruct (sm_Forward_holds (txs l) L t (tl_map _ _ H)) as (m & E & Hm). unfold tl_Forward, on_txs. rewrite E. cbn [mbind outcome_bind].
  eexists. split; [done|]. split; [|done]. apply (tl_holds_sub l L); [done..|]. intros tx [Hx _]%elem_of_keep. done.
Qed.

Lemma tl_Cap_holds l L k : tl_holds l L ->
  exists l', tl_Cap (Z.of_nat k) l = Ok (reverse (drop k L), l') /\ tl_holds l' (take k L) /\ strict l' = strict l.
Proof.
  intros H. destruct (sm_Cap_holds (txs l) L k (tl_map _ _ H)) as (m & E & Hm). unfold tl_Cap, on_txs. rewrite E. cbn [mbind outcome_bind].
  eexists. split; [done|]. split; [|done]. apply (tl_holds_sub l L); [done..|]. intros tx (i & Hx & _)%elem_of_take. by eapply list_elem_of_lookup_2.
Qed.

Lemma tl_Ready_holds l L start : tl_holds l L ->
  exists l', tl_Ready start l = Ok (ready start L, l') /\ tl_holds l' (drop (length (ready start L)) L) /\ strict l' = strict l.
Proof.
  intros H. destruct (sm_Ready_holds (txs l) L start (tl_map _ _ H)) as (m & E & Hm). unfold tl_Ready, on_txs. rewrite E. cbn [mbind outcome_bind].
  eexists. split; [done|]. split; [|done]. apply (tl_holds_sub l L); [done..|]. intros tx Hx. rewrite <- (take_drop (length (ready start L)) L). apply elem_of_app. by right.
Qed.

Lemma tl_Flatten_holds l L : tl_holds l L -> exists l', tl_Flatten l = (L, l') /\ tl_holds l' L /\ strict l' = strict l.
Proof.
  intros H. destruct (sm_Flatten_holds (txs l) L (tl_map _ _ H)) as (m & E & Hm). unfold tl_Flatten. rewrite E.
  eexists. split; [done|]. split; [|done]. by apply (tl_holds_sub l L).
Qed.

Lemma tl_Len_holds l L : tl_holds l L -> tl_Len l = Z.of_nat (length L).
Proof. intros H. apply sm_Len_holds, H. Qed.

Lemma tl_Empty_holds l L : tl_holds l L -> tl_Empty l = bool_decide (L = []).
Proof. intros H. unfold tl_Empty. rewrite (tl_Len_holds l L H). destruct L; [done|]. rewrite bool_decide_false by done. apply Z.eqb_neq. cbn [length]. lia. Qed.

(** After a removal from a strict list those with a higher nonce go too. *)
Definition without (strict : bool) (n : Z) L : list Transaction := if strict then List.filter (before n) L else keep (fun t => nonce t =? n) L.

Lemma tl_Remove_holds l L tx : tl_holds l L -> nonce tx ∈ map nonce L ->
  exists invalids l', tl_Remove tx l = Ok (true, invalids, l') /\ invalids ≡ₚ (if strict l then List.filter (fun t => nonce tx <? nonce t) L else []) /\
    tl_holds l' (without (strict l) (nonce tx) L) /\ strict l' = strict l.
Proof.
  intros H Hn. destruct (sm_Remove_holds (txs l) L (nonce tx) (tl_map _ _ H)) as (m & E & Hm). rewrite bool_decide_true in E by done.
  unfold tl_Remove. rewrite E. cbn [mbind outcome_bind negb]. unfold without. destruct (strict l) eqn:Es.
  - destruct (sm_Filter_holds m _ (fun t => nonce tx <? nonce t) Hm) as (invalids & m' & -> & Pi & Hm').
    eexists _, _. split; [done|].
    assert (E1 : List.filter (fun t => nonce tx <? nonce t) (keep (fun t => nonce t =? nonce tx) L) = List.filter (fun t => nonce tx <? nonce t) L).
    { clear. unfold keep. induction L as [|x L IH]; [done|]. cbn. destruct (Z.eqb_spec (nonce x) (nonce tx)) as [Ex|]; cbn; rewrite IH; [|done].
      by rewrite Ex, (proj2 (Z.ltb_ge _ _)) by lia. }
    assert (E2 : keep (fun t => nonce tx <? nonce t) (keep (fun t => nonce t =? nonce tx) L) = List.filter (before (nonce tx)) L).
    { clear. unfold keep, before. induction L as [|x L IH]; [done|]. cbn. destruct (Z.eqb_spec (nonce x) (nonce tx)) as [Ex|]; cbn.
      - rewrite IH. by rewrite Ex, (proj2 (Z.ltb_ge _ _)) by lia.
      - rewrite IH. destruct (Z.ltb_spec (nonce tx) (nonce x)), (Z.ltb_spec (nonce x) (nonce tx)); cbn; try done; lia. }
    rewrite E1 in Pi. rewrite E2 in Hm'. split; [done|]. split; [|done]. apply (tl_holds_sub l L); [done..|]. intros t [Ht _]%elem_of_filter_list. done.
  - eexists _, _. split; [done|]. split; [done|]. split; [|done]. apply (tl_holds_sub l L); [done..|]. intros t [Ht _]%elem_of_keep. done.
Qed.

Lemma tl_Remove_absent l L tx : tl_holds l L -> nonce tx ∉ map nonce L -> tl_Remove tx l = Ok (false, [], l).
Proof.
  intros H Hn. unfold tl_Remove, sm_Remove. rewrite (sm_items _ _ (tl_map _ _ H)), (proj2 (by_nonces_none _ _ (sm_sorted _ _ (tl_map _ _ H)))) by done.
  cbn. by destruct l.
Qed.

(** *** Sequences of operations *)

Inductive tl_op :=
| OpAdd (tx : Transaction) (bump : Z)
| OpForward (threshold : Z)
| OpFilter (costLimit gasLimit : Z)
| OpCap (k : nat)
| OpRemove (tx : Transaction)
| OpReady (start : Z)
| OpFlatten.

Inductive tl_out :=
| OutAdd (inserted : bool) (old : option Transaction)
| OutTxs (l : list Transaction)
| OutFilter (removed invalids : list Transaction)
| OutRemove (removed : bool) (invalids : list Transaction).

Definition run_op (op : tl_op) (l : txList) : outcome unit (tl_out * txList) :=
  match op with
  | OpAdd tx bump => let '(b, old, l) := tl_Add tx bump l in Ok (OutAdd b old, l)
  | OpForward t => '(r, l) ← tl_Forward t l; Ok (OutTxs r, l)
  | OpFilter c g => let '(r, i, l) := tl_Filter c g l in Ok (OutFilter r i, l)
  | OpCap k => '(r, l) ← tl_Cap (Z.of_nat k) l; Ok (OutTxs r, l)
  | OpRemove tx => '(b, i, l) ← tl_Remove tx l; Ok (OutRemove b i, l)
  | OpReady n => '(r, l) ← tl_Ready n l; Ok (OutTxs r, l)
  | OpFlatten => let '(r, l) := tl_Flatten l in Ok (OutTxs r, l)
  end.

Fixpoint run_ops (ops : list tl_op) (l : txList) : outcome unit (list tl_out * txList) :=
  match ops with
  | [] => Ok ([], l)
  | op :: ops => '(o, l) ← run_op op l; '(os, l) ← run_ops ops l; Ok (o :: os, l)
  end.

(** What the operations do to a list in the order of the nonces.  The order of the
    transactions that a filter returns is left open. *)
Inductive tl_step (strict : bool) : list Transaction -> tl_op -> tl_out -> list Transaction -> Prop :=
| StAdd L tx bump : (forall old, by_nonces L !! nonce tx = Some old -> outbids bump tx old) ->
    tl_step strict L (OpAdd tx bump) (OutAdd true (by_nonces L !! nonce tx)) (place tx L)
| StRefuse L tx bump old : old ∈ L -> nonce old = nonce tx -> ~ outbids bump tx old -> tl_step strict L (OpAdd tx bump) (OutAdd false None) L
| StForward L t : tl_step strict L (OpForward t) (OutTxs (List.filter (before t) L)) (keep (before t) L)
| StFilter L c g removed invalids : removed ≡ₚ unfit (payable c g) L -> invalids ≡ₚ stranded strict (payable c g) L ->
    tl_step strict L (OpFilter c g) (OutFilter removed invalids) (filtered strict (payable c g) L)
| StCap L k : tl_step strict L (OpCap k) (OutTxs (reverse (drop k L))) (take k L)
| StRemove L tx invalids : nonce tx ∈ map nonce L -> invalids ≡ₚ (if strict then List.filter (fun t => nonce tx <? nonce t) L else []) ->
    tl_step strict L (OpRemove tx) (OutRemove true invalids) (without strict (nonce tx) L)
| StAbsent L tx : nonce tx ∉ map nonce L -> tl_step strict L (OpRemove tx) (OutRemove false []) L
| StReady L n : tl_step strict L (OpReady n) (OutTxs (ready n L)) (drop (length (ready n L)) L)
| StFlatten L : tl_step strict L OpFlatten (OutTxs L) L.

Inductive tl_steps (strict : bool) : list Transaction -> list tl_op -> list tl_out -> list Transaction -> Prop :=
| StepsNil L : tl_steps strict L [] [] L
| StepsCons L op out L1 ops outs L2 : tl_step strict L op out L1 -> tl_steps strict L1 ops outs L2 -> tl_steps strict L (op :: ops) (out :: outs) L2.

Definition op_ok (op : tl_op) : Prop := match op with OpAdd tx _ => 0 <= nonce tx < 2 ^ 64 | _ => True end.

Lemma run_op_step op l L : tl_holds l L -> op_ok op ->
  exists out l' L', run_op op l = Ok (out, l') /\ tl_step (strict l) L op out L' /\ tl_holds l' L' /\ strict l' = strict l.
Proof.
  intros H K. destruct op as [tx bump|t|c g|k|tx|n|]; cbn [run_op op_ok] in *.
  - destruct (tl_Add_holds l L tx bump H K) as [(old & Ho & En & No & ->)|(l' & -> & H' & Es & Ou)].
    + eexists _, _, L. split; [done|]. split; [by apply (StRefuse _ _ _ _ old)|done].
    + eexists _, _, _. split; [done|]. split; [by apply StAdd|done].
  - destruct (tl_Forward_holds l L t H) as (l' & -> & H' & Es). eexists _, _, _. split; [done|]. split; [constructor|done].
  - destruct (tl_Filter_holds l L c g H) as (r & i & l' & -> & Pr & Pi & H' & Es). eexists _, _, _. split; [done|]. split; [by constructor|done].
  - destruct (tl_Cap_holds l L k H) as (l' & -> & H' & Es). eexists _, _, _. split; [done|]. split; [constructor|done].
  - destruct (decide (nonce tx ∈ map nonce L)) as [Hn|Hn].
    + destruct (tl_Remove_holds l L tx H Hn) as (i & l' & -> & Pi & H' & Es). eexists _, _, _. split; [done|]. split; [by constructor|done].
    + rewrite (tl_Remove_absent l L tx H Hn). eexists _, _, _. split; [done|]. split; [by constructor|done].
  - destruct (tl_Ready_holds l L n H) as (l' & -> & H' & Es). eexists _, _, _. split; [done|]. split; [constructor|done].
  - destruct (tl_Flatten_holds l L H) as (l' & -> & H' & Es). eexists _, _, _. split; [done|]. split; [constructor|done].
Qed.

Lemma run_ops_steps ops : forall l L, tl_holds l L -> Forall op_ok ops ->
  exists outs l' L', run_ops ops l = Ok (outs, l') /\ tl_steps (strict l) L ops outs L' /\ tl_holds l' L'.
Proof.
  induction ops as [|op ops IH]; intros l L H F; [exists [], l, L; split; [done|]; split; [constructor|done]|].
  apply list.Forall_cons in F as [Fo F]. destruct (run_op_step op l L H Fo) as (out & l1 & L1 & E & St & H1 & Es). cbn [run_ops]. rewrite E. cbn [mbind outcome_bind].
  destruct (IH l1 L1 H1 F) as (outs & l' & L' & -> & St' & H'). cbn [mbind outcome_bind]. eexists _, _, _. split; [done|]. split; [|done].
  rewrite Es in St'. by eapply StepsCons.
Qed.

(** C9. The list of transactions of an account, a map by nonce with a heap of its nonces, a
    cache of the sorted order and caps on cost and gas, is a list in the order of the nonces:
    whatever sequence of additions, [Forward], [Filter], [Cap], [Remove], [Ready] and [Flatten]
    runs on a new list, no call fails, each one returns what the same operation on the ordered
    list gives, and the list read in the end is the ordered one.  A transaction replaces one of
    the same nonce only with a higher price by the bump asked for, and a strict list is cut
    off where a transaction is removed or cannot be paid. *)
Theorem txList_refines strict ops : Forall op_ok ops ->
  exists outs l' L', run_ops ops (newTxList strict) = Ok (outs, l') /\ tl_steps strict [] ops outs L' /\ ascending L' /\
    fst (tl_Flatten l') = L' /\ tl_Len l' = Z.of_nat (length L') /\
    forall n tx, sm_Get n (txs l') = Some tx <-> tx ∈ L' /\ nonce tx = n.
Proof.
  intros F. destruct (run_ops_steps ops _ _ (tl_holds_new strict) F) as (outs & l' & L' & E & St & H). exists outs, l', L'. split; [done|]. split; [done|].
  split; [apply (sm_sorted _ _ (tl_map _ _ H))|]. split; [by destruct (tl_Flatten_holds l' L' H) as (l2 & -> & _)|]. split; [by apply tl_Len_holds|].
  intros n tx. apply sm_Get_holds, H.
Qed.

(** ** All transactions by price *)

Lemma price_asym a b : by_price a b = true -> by_price b a = false.
Proof. unfold by_price. lia. Qed.

Lemma price_trans a b c : by_price b a = false -> by_price c b = false -> by_price c a = false.
Proof. unfold by_price. lia. Qed.

Section Priced.
Context (all : gmap bytes Transaction) (local : Transaction -> bool).

(** What one pass over the heap drops, saves and forgets. *)
Record discards (below : option Z) (count : option Z) (l : txPricedList) (drop save gone : list Transaction) (l' : txPricedList) : Prop := mkDiscards {
  dc_heap : heap by_price (pitems l');
  dc_perm : drop ++ save ++ gone ++ pitems l' ≡ₚ pitems l;
  dc_drop : Forall (fun tx => known all tx = true /\ local tx = false /\ forall t, below = Some t -> gasPrice tx < t) drop;
  dc_save : Forall (fun tx => local tx = true \/ exists t, below = Some t /\ t <= gasPrice tx) save;
  dc_gone : Forall (fun tx => known all tx = false) gone;
  dc_cheap : forall d k, d ∈ drop -> k ∈ pitems l' -> gasPrice d <= gasPrice k;
  dc_stop : pitems l' = [] \/ count = Some (Z.of_nat (length drop)) \/ exists t, below = Some t /\ forall k, k ∈ pitems l' -> t <= gasPrice k;
  dc_count : forall c, count = Some c -> Z.of_nat (length drop) <= c;
  dc_stales : stales l' = stales l - Z.of_nat (length gone)
}.

Lemma discard_loop_spec below : forall fuel count l, heap by_price (pitems l) -> (length (pitems l) < fuel)%nat -> (forall c, count = Some c -> 0 <= c) ->
  exists drop save gone l', discard_loop fuel all local below count l = Ok (drop, save, l') /\ discards below count l drop save gone l'.
Proof.
  induction fuel as [|fuel IH]; intros count l H F Hc; [lia|]. cbn [discard_loop].
  destruct (match pitems l with [] => true | _ => false end || match count with Some c => c <=? 0 | None => false end) eqn:Stop.
  { exists [], [], [], l. split; [done|]. split; try done; try (intros d k Hd; by apply elem_of_nil in Hd); try (cbn; lia).
    destruct (pitems l) as [|x r]; [by left|]. right. left. destruct count as [c|]; [|done]. specialize (Hc c eq_refl). cbn in *. f_equal. lia. }
  apply orb_false_iff in Stop as [S1 S2]. destruct (pitems l) as [|x0 r0] eqn:Ep; [done|].
  destruct (heap_Pop_spec by_price price_asym price_trans (x0 :: r0) x0 H eq_refl) as (rest & -> & Hr & Pr).
  assert (Min : forall k, k ∈ rest -> gasPrice x0 <= gasPrice k).
  { intros k Hk. assert (Hk' : k ∈ x0 :: r0) by (rewrite <- Pr; by right). pose proof (heap_head by_price price_asym price_trans _ x0 k H eq_refl Hk') as Le. unfold by_price in Le. lia. }
  assert (Fr : (length rest < fuel)%nat) by (apply Permutation_length in Pr; cbn in *; lia).
  destruct (known all x0) eqn:Kn; cbn [negb].
  2:{ destruct (IH count (mkPriced rest (stales l - 1)) Hr Fr Hc) as (dr & sv & gn & l' & -> & [D1 D2 D3 D4 D5 D6 D7 D8 D9]). exists dr, sv, (x0 :: gn), l'. split; [done|]. split; try done.
      - rewrite Ep, <- Pr, <- D2. cbn. rewrite <- !Permutation_middle. done.
      - by constructor.
      - rewrite D9. cbn [stales length]. lia. }
  destruct (match below with Some t => t <=? gasPrice x0 | None => false end) eqn:Bl.
  { destruct below as [t|]; [|done]. apply Z.leb_le in Bl. exists [], [x0], [], (mkPriced rest (stales l)). split; [done|]. split; try done; cbn.
    - by rewrite Ep, Pr.
    - constructor; [|constructor]. right. by exists t.
    - intros d k Hd. by apply elem_of_nil in Hd.
    - right. right. exists t. split; [done|]. intros k Hk%Min. lia.
    - lia. }
  destruct (local x0) eqn:Lc.
  { destruct (IH count (mkPriced rest (stales l)) Hr Fr Hc) as (dr & sv & gn & l' & -> & [D1 D2 D3 D4 D5 D6 D7 D8 D9]). exists dr, (x0 :: sv), gn, l'. split; [done|]. split; try done.
    - rewrite Ep, <- Pr, <- D2. cbn. rewrite <- !Permutation_middle. done.
    - constructor; [by left|done]. }
  destruct (IH (option_map (fun c => c - 1) count) (mkPriced rest (stales l)) Hr Fr) as (dr & sv & gn & l' & -> & [D1 D2 D3 D4 D5 D6 D7 D8 D9]).
  { intros c E. destruct count as [c0|]; [|done]. injection E as <-. lia. }
  exists (x0 :: dr), sv, gn, l'. split; [done|]. split; try done.
  - by rewrite Ep, <- Pr, <- D2.
  - constructor; [|done]. split; [done|]. split; [done|]. intros t ->. lia.
  - intros d k [->|Hd]%list.elem_of_cons Hk; [|by apply D6]. apply Min. cbn in D2. rewrite <- D2, !elem_of_app. auto.
  - destruct D7 as [D7|[D7|D7]]; [by left| |by right; right]. right. left. destruct count as [c|]; [|done]. injection D7 as D7. f_equal. cbn [length]. lia.
  - intros c ->. specialize (D8 (c - 1) eq_refl). cbn [length]. lia.
Qed.

Lemma push_all_spec save : forall l, heap by_price (pitems l) ->
  heap by_price (pitems (push_all save l)) /\ pitems (push_all save l) ≡ₚ save ++ pitems l /\ stales (push_all save l) = stales l.
Proof.
  unfold push_all. induction save as [|x save IH]; intros l H; [done|]. cbn [foldl]. destruct (heap_Push_spec by_price price_asym price_trans x (pitems l) H) as [Hh Hp].
  destruct (IH (pl_Put x l) Hh) as (H1 & P1 & S1). split; [done|]. split; [|done]. rewrite P1. cbn [pitems pl_Put]. rewrite Hp. cbn. by rewrite Permutation_middle.
Qed.

(** Known transactions of the heap that are not local. *)
Definition remote (tx : Transaction) : bool := known all tx && negb (local tx).

Lemma filter_drop (f : Transaction -> bool) l : Forall (fun tx => f tx = true) l -> List.filter f l = l.
Proof. induction 1 as [|x l H _ IH]; [done|]. cbn. by rewrite H, IH. Qed.

(** The remote transactions of the heap are those dropped and those left. *)
Lemma discards_remote below count l drop save gone l' (f : Transaction -> bool) :
  discards below count l drop save gone l' -> (forall tx, f tx = true -> remote tx = true /\ forall t, below = Some t -> gasPrice tx < t) ->
  Forall (fun tx => f tx = true) drop -> List.filter f (pitems l) ≡ₚ drop ++ List.filter f (pitems l').
Proof.
  intros [_ P _ Sv Gn _ _ _ _] Hf Fd. rewrite <- (filter_Permutation f _ _ P), !List.filter_app, (filter_drop f drop Fd), (filter_none f save), (filter_none f gone); [done|..].
  - revert Gn. apply List.Forall_impl. intros a K. destruct (f a) eqn:E; [|done]. apply Hf in E as [E _]. unfold remote in E. by rewrite K in E.
  - revert Sv. apply List.Forall_impl. intros a K. destruct (f a) eqn:E; [|done]. apply Hf in E as [E T]. unfold remote in E. destruct K as [K|(t & Et & K)]; [by rewrite K, andb_comm in E|].
    specialize (T t Et). lia.
Qed.

(** The result of a pass, once those saved are pushed back. *)
Lemma discards_pushed below count l drop save gone l' : discards below count l drop save gone l' ->
  let r := push_all save l' in
  heap by_price (pitems r) /\ drop ++ gone ++ pitems r ≡ₚ pitems l /\ stales r = stales l - Z.of_nat (length gone).
Proof.
  intros D. destruct (push_all_spec save l' (dc_heap _ _ _ _ _ _ _ D)) as (Hh & Pp & Ss). split; [done|]. split; [|by rewrite Ss; apply (dc_stales _ _ _ _ _ _ _ D)].
  rewrite Pp, <- (dc_perm _ _ _ _ _ _ _ D). apply Permutation_app_head. rewrite !app_assoc. apply Permutation_app_tail, Permutation_app_comm.
Qed.

Lemma pl_Cap_holds t l : heap by_price (pitems l) ->
  exists drop gone l', pl_Cap all local t l = Ok (drop, l') /\ heap by_price (pitems l') /\ drop ++ gone ++ pitems l' ≡ₚ pitems l /\
    Forall (fun tx => known all tx = false) gone /\ drop ≡ₚ List.filter (fun tx => remote tx && (gasPrice tx <? t)) (pitems l).
Proof.
  intros H. destruct (discard_loop_spec (Some t) (S (length (pitems l))) None l H ltac:(lia)) as (drop & save & gone & l1 & E & D); [done|].
  unfold pl_Cap. rewrite E. cbn [mbind outcome_bind]. destruct (discards_pushed _ _ _ _ _ _ _ D) as (Hh & Pp & _). eexists _, gone, _. split; [done|]. split; [done|]. split; [done|].
  split; [apply D|]. symmetry. rewrite (discards_remote _ _ _ _ _ _ _ (fun tx => remote tx && (gasPrice tx <? t)) D).
  - rewrite (filter_none _ (pitems l1)); [by rewrite app_nil_r|]. apply list.Forall_forall. intros k Hk. destruct (dc_stop _ _ _ _ _ _ _ D) as [S1|[S1|(t' & [= <-] & S1)]]; [|done|].
    + rewrite S1 in Hk. by apply elem_of_nil in Hk.
    + specialize (S1 k Hk). rewrite (proj2 (Z.ltb_ge _ _)) by done. apply andb_false_r.
  - intros tx K. zbool. split; [done|]. by intros ? [= <-].
  - pose proof (dc_drop _ _ _ _ _ _ _ D) as Fd. revert Fd. apply List.Forall_impl. intros a (K1 & K2 & K3). unfold remote. rewrite K1, K2. cbn. specialize (K3 t eq_refl). lia.
Qed.

(** When the pool is full, [Discard] frees [count] slots at the expense of the cheapest:
    it drops exactly as many transactions as asked for, or all of the remote ones where there
    are fewer; only transactions of the pool whose sender is not local are dropped, none of the
    remote ones left is cheaper than one dropped, and the heap keeps every transaction that was
    not dropped except those that had left the pool before. *)
Theorem pl_Discard_cheapest count l : heap by_price (pitems l) -> 0 <= count ->
  exists drop gone l', pl_Discard all local count l = Ok (drop, l') /\ heap by_price (pitems l') /\ drop ++ gone ++ pitems l' ≡ₚ pitems l /\
    Forall (fun tx => known all tx = false) gone /\ Forall (fun tx => remote tx = true) drop /\
    Z.of_nat (length drop) = Z.min count (Z.of_nat (length (List.filter remote (pitems l)))) /\
    forall d k, d ∈ drop -> k ∈ pitems l' -> remote k = true -> gasPrice d <= gasPrice k.
Proof.
  intros H Hc. destruct (discard_loop_spec None (S (length (pitems l))) (Some count) l H ltac:(lia)) as (drop & save & gone & l1 & E & D); [by intros ? [= <-]|].
  unfold pl_Discard. rewrite (proj2 (Z.ltb_ge _ _)), E by done. cbn [mbind outcome_bind]. destruct (discards_pushed _ _ _ _ _ _ _ D) as (Hh & Pp & _).
  assert (Fd : Forall (fun tx => remote tx = true) drop).
  { pose proof (dc_drop _ _ _ _ _ _ _ D) as Fd. revert Fd. apply List.Forall_impl. intros a (K1 & K2 & _). unfold remote. by rewrite K1, K2. }
  eexists _, gone, _. split; [done|]. split; [done|]. split; [done|]. split; [apply D|]. split; [done|]. split.
  - pose proof (discards_remote _ _ _ _ _ _ _ remote D ltac:(done) Fd) as P. apply Permutation_length in P. rewrite length_app in P.
    pose proof (dc_count _ _ _ _ _ _ _ D count eq_refl). destruct (dc_stop _ _ _ _ _ _ _ D) as [S1|[[= S1]|(t & S1 & _)]]; [|lia|done].
    rewrite S1 in P. cbn in P. lia.
  - intros d k Hd Hk Rk. destruct (push_all_spec save l1 (dc_heap _ _ _ _ _ _ _ D)) as (_ & Pk & _). rewrite Pk in Hk. apply elem_of_app in Hk as [Hk|Hk].
    + pose proof (proj1 (list.Forall_forall _ _) (dc_save _ _ _ _ _ _ _ D) k Hk) as [Lk|(t & Et & _)]; [|done]. unfold remote in Rk. rewrite Lk, andb_comm in Rk. done.
    + by apply (dc_cheap _ _ _ _ _ _ _ D).
Qed.

Lemma settle_spec : forall fuel l, heap by_price (pitems l) -> (length (pitems l) < fuel)%nat ->
  exists gone l', settle fuel all l = Ok l' /\ heap by_price (pitems l') /\ gone ++ pitems l' ≡ₚ pitems l /\ Forall (fun tx => known all tx = false) gone /\
    match pitems l' with [] => True | x :: _ => known all x = true end.
Proof.
  induction fuel as [|fuel IH]; intros l H F; [lia|]. cbn [settle]. destruct (pitems l) as [|x r] eqn:Ep; [exists [], l; rewrite Ep; split; [done|]; split; [done|]; split; [done|]; by split|].
  destruct (known all x) eqn:K; [exists [], l; rewrite Ep; split; [done|]; split; [done|]; split; [done|]; by split|].
  destruct (heap_Pop_spec by_price price_asym price_trans (x :: r) x H eq_refl) as (rest & -> & Hr & Pr).
  destruct (IH (mkPriced rest (stales l - 1)) Hr) as (gone & l' & -> & Hh & P & Fg & Hd); [apply Permutation_length in Pr; cbn in *; lia|].
  exists (x :: gone), l'. split; [done|]. split; [done|]. split; [|split; [by constructor|done]]. cbn. by rewrite P.
Qed.

Lemma pl_Underpriced_holds tx l : heap by_price (pitems l) -> local tx = false ->
  exists gone l' b, pl_Underpriced all local tx l = Ok (b, l') /\ heap by_price (pitems l') /\ gone ++ pitems l' ≡ₚ pitems l /\ Forall (fun x => known all x = false) gone /\
    (b = true <-> (exists k, k ∈ pitems l /\ known all k = true) /\ forall k, k ∈ pitems l -> known all k = true -> gasPrice tx <= gasPrice k).
Proof.
  intros H Lc. unfold pl_Underpriced. rewrite Lc. destruct (settle_spec (S (length (pitems l))) l H ltac:(lia)) as (gone & l' & -> & Hh & P & Fg & Hd).
  cbn [mbind outcome_bind]. rewrite list.Forall_forall in Fg. destruct (pitems l') as [|x r] eqn:Ep.
  - exists gone, l', false. split; [done|]. rewrite Ep. split; [done|]. split; [done|]. split; [by apply list.Forall_forall|]. split; [done|]. intros [(k & Hk & Kk) _].
    rewrite <- P, app_nil_r in Hk. by rewrite Fg in Kk.
  - eexists gone, l', _. split; [done|]. rewrite Ep. split; [done|]. split; [done|]. split; [by apply list.Forall_forall|]. rewrite Z.leb_le. split.
    + intros Le. split; [exists x; split; [rewrite <- P, elem_of_app; right; by left|done]|]. intros k Hk Kk. rewrite <- P, elem_of_app in Hk. destruct Hk as [Hk|Hk]; [by rewrite Fg in Kk|].
      pose proof (heap_head by_price price_asym price_trans _ x k Hh eq_refl Hk) as Lk. unfold by_price in Lk. lia.
    + intros [_ Ge]. apply Ge; [|done]. rewrite <- P, elem_of_app. right. by left.
Qed.
End Priced.
End Lists.

(** ** Samples *)

(** The entries in the order of the map. *)
Definition listed_order : RangeOrder := {| range A l := l; range_perm A l := reflexivity l |}.

Module ListSamples.
#[local] Existing Instance tail_hasher.
#[local] Existing Instance listed_order.

Definition sample (n price : Z) : Transaction := newTransaction Binary n (Some (repeat 9 20)) (Some 100) (Some 21000) (Some price) [].

Definition list_ops : list tl_op :=
  [OpAdd (sample 4 3) 10; OpAdd (sample 2 3) 10; OpAdd (sample 3 9) 10; OpAdd (sample 2 5) 10; OpFlatten; OpReady 2; OpCap 1; OpFilter (10 ^ 9) 21000].

Lemma txList_refines_witness : exists outs l' L', run_ops list_ops (newTxList true) = Ok (outs, l') /\ tl_steps true [] list_ops outs L'.
Proof.
  destruct (txList_refines true list_ops) as (outs & l' & L' & E & S & _); [repeat constructor; by vm_compute|]. exists outs, l', L'. split; [exact E|exact S].
Defined.

Definition heaped : txPricedList := mkPriced (heap_Init by_price [sample 1 9; sample 2 4; sample 3 6]) 0.
Definition known_txs : gmap bytes Transaction := list_to_map (map (fun tx => (txhash tx, tx)) [sample 1 9; sample 2 4; sample 3 6]).

Lemma pl_Discard_cheapest_witness : exists drop l', pl_Discard known_txs (fun _ => false) 2 heaped = Ok (drop, l') /\ heap by_price (pitems l').
Proof.
  destruct (pl_Discard_cheapest known_txs (fun _ => false) 2 heaped) as (drop & gone & l' & E & H & _); [apply heap_Init_spec; [apply price_asym|apply price_trans]|lia|]. exists drop, l'. split; [exact E|exact H].
Defined.
End ListSamples.
