(* ===== verification/TxPool.v ===== *)
(** * Package [core]: the transaction pool

    [src/pkg/core/tx_pool.go]: the executable and the queued transactions of each account, the
    index of all of them by hash and the heap by price; the checks on a transaction, its
    addition, the promotion from the queue, the demotion on a new head, removal and eviction.
    What the pool reads of the state is an interface, [PoolState]; a method of the pool runs
    under its lock, so that methods do not interleave. *)

From stdpp Require Import sorting.
From S2P Require Import StateLedger ManagedState.
From S2P Require Import Prelude Rlp RlpStream Common Signature ChainConfig Trie Transaction Block GoMonad GoSort GoHeap TxList.

(** The nonces and the balances of the state of a block, and the managed state on top of it
    with the next nonce of each account. *)
Class PoolState := {
  cstate : Type;
  mstate : Type;
  st_GetNonce : bytes -> cstate -> Z;
  st_GetBalance : bytes -> cstate -> Z;
  ManageState : cstate -> mstate;
  ms_GetNonce : bytes -> mstate -> Z;
  ms_SetNonce : bytes -> Z -> mstate -> mstate;
  ms_managed : forall a s, ms_GetNonce a (ManageState s) = st_GetNonce a s;
  ms_set : forall a n s, ms_GetNonce a (ms_SetNonce a n s) = n;
  ms_other : forall a b n s, a <> b -> ms_GetNonce b (ms_SetNonce a n s) = ms_GetNonce b s
}.

(** The interface over the ledgers of [StateLedger], with the map of nonces that the managed
    state of [ManagedState] implements. *)
Definition nonce_map : PoolState := {|
  cstate := ledger;
  mstate := bytes -> Z;
  st_GetNonce a L := a_nonce (L a);
  st_GetBalance a L := a_balance (L a);
  ManageState L a := a_nonce (L a);
  ms_GetNonce a N := N a;
  ms_SetNonce := nset;
  ms_managed a L := eq_refl;
  ms_set := nset_eq;
  ms_other := nset_ne
|}.

(** The package [prque]: the order in which the entries of a queue with priorities leave it,
    the highest priority first.  The priorities are floats of single precision, which are
    exact up to [2 ^ 24]. *)
Class PriorityQueue := {
  prque : list (bytes * Z) -> list (bytes * Z);
  prque_perm : forall l, prque l ≡ₚ l;
  prque_descending : forall l, Forall (fun p => 0 <= snd p <= 2 ^ 24) l -> StronglySorted (fun p q => snd q <= snd p) (prque l)
}.

Inductive pool_error :=
| ErrInvalidSender
| ErrNonceTooLow
| ErrUnderpriced
| ErrReplaceUnderpriced
| ErrInsufficientFunds
| ErrGasLimit
| ErrNegativeValue
| ErrOversizedData
| ErrKnown (hash : bytes).

Inductive TxStatus := TxStatusUnknown | TxStatusQueued | TxStatusPending | TxStatusIncluded.

(** Durations in nanoseconds; the journal is off where its path is empty. *)
Record TxPoolConfig := mkPoolConfig {
  NoLocals : bool;
  Journal : String.string;
  Rejournal : Z;
  PriceLimit : Z;
  PriceBump : Z;
  AccountSlots : Z;
  GlobalSlots : Z;
  AccountQueue : Z;
  GlobalQueue : Z;
  Lifetime : Z
}.

Definition second : Z := 10 ^ 9.

Definition DefaultTxPoolConfig : TxPoolConfig :=
  mkPoolConfig false "transactions.rlp"%string (3600 * second) 1 10 16 4096 64 1024 (3 * 3600 * second).

Definition sanitize (c : TxPoolConfig) : TxPoolConfig :=
  mkPoolConfig (NoLocals c) (Journal c) (if Rejournal c <? second then second else Rejournal c)
    (if PriceLimit c <? 1 then PriceLimit DefaultTxPoolConfig else PriceLimit c)
    (if PriceBump c <? 1 then PriceBump DefaultTxPoolConfig else PriceBump c)
    (AccountSlots c) (GlobalSlots c) (AccountQueue c) (GlobalQueue c) (Lifetime c).

(** [float64(n)] of an unsigned integer: 53 bits, ties to even. *)
Definition float64_u64 (n : Z) : Z :=
  if n <? 2 ^ 53 then n
  else
    let u := 2 ^ (Z.log2 n - 52) in
    let q := n / u in
    let r := n mod u in
    u * (if 2 * r <? u then q else if u <? 2 * r then q + 1 else if Z.even q then q else q + 1).

(** [time.Since]: a difference of times, which saturates. *)
Definition since (now t : Z) : Z := Z.max (- 2 ^ 63) (Z.min (2 ^ 63 - 1) (now - t)).

Section Pool.
Context {HS : Hasher} {SC : Secp256k1} {RO : RangeOrder} {PS : PoolState} {PQ : PriorityQueue}.

(** [tp_sent] holds the transactions announced on the feed and [tp_journal] those written to
    the journal, the newest first; a heartbeat is a time in nanoseconds since the zero time. *)
Record TxPool := mkTxPool {
  tp_config : TxPoolConfig;
  tp_signer : Signer;
  tp_gasPrice : Z;
  currentState : cstate;
  pendingState : mstate;
  currentMaxGas : Z;
  locals : gset bytes;
  tp_journal : option (list Transaction);
  pending : gmap bytes txList;
  queue : gmap bytes txList;
  beats : gmap bytes Z;
  all : gmap bytes Transaction;
  priced : txPricedList;
  tp_sent : list Transaction
}.

(** ** Field updates *)

Definition set_gasPrice (g : Z) (p : TxPool) : TxPool :=
  mkTxPool (tp_config p) (tp_signer p) g (currentState p) (pendingState p) (currentMaxGas p) (locals p) (tp_journal p) (pending p) (queue p) (beats p) (all p) (priced p) (tp_sent p).
Definition set_states (c : cstate) (m : mstate) (gas : Z) (p : TxPool) : TxPool :=
  mkTxPool (tp_config p) (tp_signer p) (tp_gasPrice p) c m gas (locals p) (tp_journal p) (pending p) (queue p) (beats p) (all p) (priced p) (tp_sent p).
Definition set_pendingState (m : mstate) (p : TxPool) : TxPool := set_states (currentState p) m (currentMaxGas p) p.
Definition set_locals (l : gset bytes) (j : option (list Transaction)) (p : TxPool) : TxPool :=
  mkTxPool (tp_config p) (tp_signer p) (tp_gasPrice p) (currentState p) (pendingState p) (currentMaxGas p) l j (pending p) (queue p) (beats p) (all p) (priced p) (tp_sent p).
Definition set_pending (m : gmap bytes txList) (p : TxPool) : TxPool :=
  mkTxPool (tp_config p) (tp_signer p) (tp_gasPrice p) (currentState p) (pendingState p) (currentMaxGas p) (locals p) (tp_journal p) m (queue p) (beats p) (all p) (priced p) (tp_sent p).
Definition set_queue (m : gmap bytes txList) (p : TxPool) : TxPool :=
  mkTxPool (tp_config p) (tp_signer p) (tp_gasPrice p) (currentState p) (pendingState p) (currentMaxGas p) (locals p) (tp_journal p) (pending p) m (beats p) (all p) (priced p) (tp_sent p).
Definition set_beats (m : gmap bytes Z) (p : TxPool) : TxPool :=
  mkTxPool (tp_config p) (tp_signer p) (tp_gasPrice p) (currentState p) (pendingState p) (currentMaxGas p) (locals p) (tp_journal p) (pending p) (queue p) m (all p) (priced p) (tp_sent p).
Definition set_all (a : gmap bytes Transaction) (l : txPricedList) (p : TxPool) : TxPool :=
  mkTxPool (tp_config p) (tp_signer p) (tp_gasPrice p) (currentState p) (pendingState p) (currentMaxGas p) (locals p) (tp_journal p) (pending p) (queue p) (beats p) a l (tp_sent p).
Definition set_sent (l : list Transaction) (p : TxPool) : TxPool :=
  mkTxPool (tp_config p) (tp_signer p) (tp_gasPrice p) (currentState p) (pendingState p) (currentMaxGas p) (locals p) (tp_journal p) (pending p) (queue p) (beats p) (all p) (priced p) l.

Abbreviation PM := (go TxPool pool_error).

Fixpoint for_each {A} (f : A -> PM unit) (l : list A) : PM unit :=
  match l with [] => mret tt | a :: l => f a;; for_each f l end.

(** ** Senders and local accounts *)

(** [types.Sender]; the address is zero where it fails. *)
Definition sender (s : Signer) (tx : Transaction) : option bytes := match Sender s tx with Ok (a, _) => Some a | _ => None end.
Definition from_of (s : Signer) (tx : Transaction) : bytes := default (zeros AddressLength) (sender s tx).

Definition containsTx (s : Signer) (accounts : gset bytes) (tx : Transaction) : bool :=
  match sender s tx with Some a => bool_decide (a ∈ accounts) | None => false end.

Definition is_local (p : TxPool) : Transaction -> bool := containsTx (tp_signer p) (locals p).

(** ** Checks *)

Definition validateTx (tx : Transaction) (local : bool) (p : TxPool) : option pool_error :=
  if 32 * 1024 <? fst (Size tx) then Some ErrOversizedData
  else if td_Amount (tx_data tx) <? 0 then Some ErrNegativeValue
  else if currentMaxGas p <? gas tx then Some ErrGasLimit
  else
    match sender (tp_signer p) tx with
    | None => Some ErrInvalidSender
    | Some from =>
      let local := local || bool_decide (from ∈ locals p) in
      if negb local && (gasPrice tx <? tp_gasPrice p) then Some ErrUnderpriced
      else if nonce tx <? st_GetNonce from (currentState p) then Some ErrNonceTooLow
      else if st_GetBalance from (currentState p) <? Cost tx then Some ErrInsufficientFunds
      else None
    end.

(** ** The index of all transactions *)

(** [delete(pool.all, hash)] and [pool.priced.Removed()] *)
Definition forget (hash : bytes) : PM unit :=
  modify (fun p => let a := base.delete hash (all p) in set_all a (pl_Removed a (priced p)) p).

(** [pool.all[hash] = tx] and [pool.priced.Put(tx)] *)
Definition remember (hash : bytes) (tx : Transaction) : PM unit :=
  modify (fun p => set_all (<[hash := tx]> (all p)) (pl_Put tx (priced p)) p).

Definition forget_all (txs : list Transaction) : PM unit := for_each (fun tx => forget (txhash tx)) txs.

Definition replaced (old : option Transaction) : PM unit := match old with Some o => forget (txhash o) | None => mret tt end.

Definition journalTx (from : bytes) (tx : Transaction) : PM unit :=
  modify (fun p => match tp_journal p with
                   | Some j => if bool_decide (from ∈ locals p) then set_locals (locals p) (Some (tx :: j)) p else p
                   | None => p
                   end).

(** ** The lists of an account *)

(** A method of a list of the pool, which is shared with the map. *)
Definition on_queue {A} (addr : bytes) (f : txList -> outcome unit (A * txList)) : PM A := fun p =>
  match queue p !! addr with
  | Some l => '(a, l) ← f l; Ok (set_queue (<[addr := l]> (queue p)) p, inr a)
  | None => Panic
  end.

Definition on_pending {A} (addr : bytes) (f : txList -> outcome unit (A * txList)) : PM A := fun p =>
  match pending p !! addr with
  | Some l => '(a, l) ← f l; Ok (set_pending (<[addr := l]> (pending p)) p, inr a)
  | None => Panic
  end.

Definition total {A B} (f : A -> B) (a : A) : outcome unit B := Ok (f a).

Definition enqueueTx (hash : bytes) (tx : Transaction) : PM bool :=
  p ← gets (fun p => p);
  let from := from_of (tp_signer p) tx in
  modify (fun p => set_queue (<[from := default (newTxList false) (queue p !! from)]> (queue p)) p);;
  '(inserted, old) ← on_queue from (total (tl_Add tx (PriceBump (tp_config p))));
  if negb inserted then throw ErrReplaceUnderpriced
  else replaced old;; remember hash tx;; mret (bool_decide (is_Some old)).

Definition promoteTx (now : Z) (addr hash : bytes) (tx : Transaction) : PM unit :=
  p ← gets (fun p => p);
  modify (fun p => set_pending (<[addr := default (newTxList true) (pending p !! addr)]> (pending p)) p);;
  '(inserted, old) ← on_pending addr (total (tl_Add tx (PriceBump (tp_config p))));
  if negb inserted then forget hash
  else
    replaced old;;
    a ← gets all;
    match a !! hash with None => remember hash tx | Some _ => mret tt end;;
    modify (fun p => set_beats (<[addr := now]> (beats p)) p);;
    modify (fun p => set_pendingState (ms_SetNonce addr (u64 (nonce tx + 1)) (pendingState p)) p);;
    modify (fun p => set_sent (tx :: tp_sent p) p).

(** The next nonce of an account is that of a transaction that went, if it was higher. *)
Definition lower_nonce (addr : bytes) (n : Z) : PM unit :=
  modify (fun p => if n <? ms_GetNonce addr (pendingState p) then set_pendingState (ms_SetNonce addr n (pendingState p)) p else p).

(** The error of [enqueueTx] is not looked at. *)
Definition postpone (tx : Transaction) : PM unit := _ ← catch (enqueueTx (txhash tx) tx); mret tt.

Definition removeTx (hash : bytes) : PM unit :=
  p ← gets (fun p => p);
  match all p !! hash with
  | None => mret tt
  | Some tx =>
    let addr := from_of (tp_signer p) tx in
    forget hash;;
    '(removed, invalids) ← match pending p !! addr with
                           | Some _ => on_pending addr (tl_Remove tx)
                           | None => mret (false, [])
                           end;
    if removed : bool then
      p ← gets (fun p => p);
      match pending p !! addr with
      | Some l =>
        if tl_Empty l then modify (fun p => set_beats (base.delete addr (beats p)) (set_pending (base.delete addr (pending p)) p))
        else for_each postpone invalids
      | None => go_panic
      end;;
      lower_nonce addr (nonce tx)
    else
      match queue p !! addr with
      | None => mret tt
      | Some _ =>
        _ ← on_queue addr (tl_Remove tx);
        modify (fun p => match queue p !! addr with
                         | Some l => if tl_Empty l then set_queue (base.delete addr (queue p)) p else p
                         | None => p
                         end)
      end
  end.

Definition remove_all (txs : list Transaction) : PM unit := for_each (fun tx => removeTx (txhash tx)) txs.

(** ** Adding a transaction *)

(** A full pool makes room for a transaction that is not the cheapest. *)
Definition make_room (tx : Transaction) : PM unit :=
  p ← gets (fun p => p);
  let slots := u64 (GlobalSlots (tp_config p) + GlobalQueue (tp_config p)) in
  let n := Z.of_nat (base.size (all p)) in
  if slots <=? n then
    under ← on_part priced (fun l p => set_all (all p) l p) (fun _ => ErrUnderpriced) (pl_Underpriced (all p) (is_local p) tx);
    if under : bool then throw ErrUnderpriced
    else
      drop ← on_part priced (fun l p => set_all (all p) l p) (fun _ => ErrUnderpriced) (pl_Discard (all p) (is_local p) (n - i64 (u64 (slots - 1))));
      remove_all drop
  else mret tt.

Definition add (tx : Transaction) (local : bool) : PM bool :=
  p ← gets (fun p => p);
  let hash := txhash tx in
  match all p !! hash with
  | Some _ => throw (ErrKnown hash)
  | None =>
    match validateTx tx local p with
    | Some e => throw e
    | None =>
      make_room tx;;
      p ← gets (fun p => p);
      let from := from_of (tp_signer p) tx in
      if match pending p !! from with Some l => Overlaps tx l | None => false end then
        '(inserted, old) ← on_pending from (total (tl_Add tx (PriceBump (tp_config p))));
        if negb inserted then throw ErrReplaceUnderpriced
        else
          replaced old;; remember hash tx;; journalTx from tx;;
          modify (fun p => set_sent (tx :: tp_sent p) p);;
          mret (bool_decide (is_Some old))
      else
        replace ← enqueueTx hash tx;
        modify (fun p => if local then set_locals ({[from]} ∪ locals p) (tp_journal p) p else p);;
        journalTx from tx;;
        mret replace
    end
  end.

(** ** Promotion *)

(** The queue of an account: old and unpayable transactions go, executable ones become
    pending, and what exceeds the limit of an account goes. *)
Definition promote_account (now : Z) (addr : bytes) : PM unit :=
  p ← gets (fun p => p);
  match queue p !! addr with
  | None => mret tt
  | Some _ =>
    old ← on_queue addr (tl_Forward (st_GetNonce addr (currentState p)));
    forget_all old;;
    '(drops, _) ← on_queue addr (total (tl_Filter (st_GetBalance addr (currentState p)) (currentMaxGas p)));
    forget_all drops;;
    next ← gets (fun p => ms_GetNonce addr (pendingState p));
    ready ← on_queue addr (tl_Ready next);
    for_each (fun tx => promoteTx now addr (txhash tx) tx) ready;;
    (if bool_decide (addr ∈ locals p) then mret tt
     else caps ← on_queue addr (tl_Cap (i64 (AccountQueue (tp_config p)))); forget_all caps);;
    modify (fun p => match queue p !! addr with
                     | Some l => if tl_Empty l then set_queue (base.delete addr (queue p)) p else p
                     | None => p
                     end)
  end.

Definition lens (m : gmap bytes txList) : list (bytes * Z) := map (fun kv => (fst kv, tl_Len (snd kv))) (range (map_to_list m)).

Definition count_txs (m : gmap bytes txList) : Z := u64 (foldr (fun kv n => snd kv + n) 0 (lens m)).

Definition pending_len (addr : bytes) : PM Z := p ← gets (fun p => p); l ← deref (pending p !! addr); mret (tl_Len l).

(** One transaction of an offender, the last one, goes. *)
Definition cap_one (addr : bytes) : PM unit :=
  n ← pending_len addr;
  drops ← on_pending addr (tl_Cap (n - 1));
  for_each (fun tx => forget (txhash tx);; lower_nonce addr (nonce tx)) drops.

Fixpoint cap_each (offenders : list bytes) (count : Z) : PM Z :=
  match offenders with [] => mret count | a :: offenders => cap_one a;; cap_each offenders (u64 (count - 1)) end.

(** The offenders lose one transaction each until the pool is within its limit or the one
    watched is down to the threshold. *)
Fixpoint reduce (fuel : nat) (offenders : list bytes) (watched : bytes) (threshold count : Z) : PM Z :=
  match fuel with
  | O => go_diverge
  | S fuel =>
    p ← gets (fun p => p);
    if GlobalSlots (tp_config p) <? count then
      n ← pending_len watched;
      if threshold <? n then count ← cap_each offenders count; reduce fuel offenders watched threshold count else mret count
    else mret count
  end.

Definition reduce_from (offenders : list bytes) (watched : bytes) (threshold count : Z) : PM Z :=
  n ← pending_len watched;
  reduce (S (Z.to_nat n)) offenders watched threshold count.

(** Larger offenders are cut to the size of the next one. *)
Fixpoint equalize (spammers offenders : list bytes) (count : Z) : PM (list bytes * Z) :=
  match spammers with
  | [] => mret (offenders, count)
  | offender :: spammers =>
    p ← gets (fun p => p);
    if GlobalSlots (tp_config p) <? count then
      count ← match list.last offenders with
              | Some previous => threshold ← pending_len offender; reduce_from offenders previous threshold count
              | None => mret count
              end;
      equalize spammers (offenders ++ [offender]) count
    else mret (offenders, count)
  end.

Definition limit_pending : PM unit :=
  p ← gets (fun p => p);
  let count := count_txs (pending p) in
  if GlobalSlots (tp_config p) <? count then
    let spammers := prque (List.filter (fun kv => negb (bool_decide (fst kv ∈ locals p)) && (AccountSlots (tp_config p) <? snd kv)) (lens (pending p))) in
    '(offenders, count) ← equalize (map fst spammers) [] count;
    match list.last offenders with
    | Some offender =>
      if GlobalSlots (tp_config p) <? count then _ ← reduce_from offenders offender (AccountSlots (tp_config p)) count; mret tt else mret tt
    | None => mret tt
    end
  else mret tt.

(** Queued transactions go, those of the account with the latest heartbeat first. *)
Fixpoint drop_queued (addresses : list (bytes * Z)) (drop : Z) : PM unit :=
  match addresses with
  | [] => mret tt
  | (addr, _) :: addresses =>
    if drop <=? 0 then mret tt
    else
      txs ← on_queue addr (total tl_Flatten);
      if Z.of_nat (length txs) <=? drop then remove_all txs;; drop_queued addresses (drop - Z.of_nat (length txs))
      else remove_all (take (Z.to_nat drop) (reverse txs));; drop_queued addresses 0
  end.

Definition heartbeat (p : TxPool) (addr : bytes) : Z := default 0 (beats p !! addr).

(** [sort.Sort] leaves open the order of accounts with equal heartbeats; here it is that of
    [GoSort.go_sort], from the order in which the map was walked. *)
Definition limit_queue : PM unit :=
  p ← gets (fun p => p);
  let queued := count_txs (queue p) in
  if GlobalQueue (tp_config p) <? queued then
    let addresses := List.filter (fun a => negb (bool_decide (a ∈ locals p))) (map fst (range (map_to_list (queue p)))) in
    let sorted := go_sort (fun a b : bytes * Z => snd a <? snd b) (map (fun a => (a, heartbeat p a)) addresses) in
    drop_queued (reverse sorted) (queued - GlobalQueue (tp_config p))
  else mret tt.

(** The accounts given, or all that have a queue. *)
Definition promoteExecutables (now : Z) (accounts : option (list bytes)) : PM unit :=
  p ← gets (fun p => p);
  for_each (promote_account now) (match accounts with Some l => l | None => map fst (range (map_to_list (queue p))) end);;
  limit_pending;;
  limit_queue.

Definition addTx (now : Z) (tx : Transaction) (local : bool) : PM unit :=
  replace ← add tx local;
  if replace : bool then mret tt
  else p ← gets (fun p => p); promoteExecutables now (Some [from_of (tp_signer p) tx]).

Definition AddLocal (now : Z) (tx : Transaction) : PM unit := p ← gets (fun p => p); addTx now tx (negb (NoLocals (tp_config p))).
Definition AddRemote (now : Z) (tx : Transaction) : PM unit := addTx now tx false.

(** The errors one by one, and the accounts with a new transaction. *)
Fixpoint add_each (txs : list Transaction) (local : bool) (dirty : gset bytes) : PM (list (option pool_error) * gset bytes) :=
  match txs with
  | [] => mret ([], dirty)
  | tx :: txs =>
    r ← catch (add tx local);
    p ← gets (fun p => p);
    let dirty := match r with inr false => {[from_of (tp_signer p) tx]} ∪ dirty | _ => dirty end in
    '(errs, dirty) ← add_each txs local dirty;
    mret ((match r with inl e => Some e | inr _ => None end) :: errs, dirty)
  end.

Definition addTxsLocked (now : Z) (txs : list Transaction) (local : bool) : PM (list (option pool_error)) :=
  '(errs, dirty) ← add_each txs local ∅;
  (if bool_decide (dirty = ∅) then mret tt else promoteExecutables now (Some (range (elements dirty))));;
  mret errs.

Definition AddLocals (now : Z) (txs : list Transaction) : PM (list (option pool_error)) :=
  p ← gets (fun p => p); addTxsLocked now txs (negb (NoLocals (tp_config p))).
Definition AddRemotes (now : Z) (txs : list Transaction) : PM (list (option pool_error)) := addTxsLocked now txs false.

(** ** Demotion and a new head *)

Definition demote_account (addr : bytes) : PM unit :=
  p ← gets (fun p => p);
  let n := st_GetNonce addr (currentState p) in
  old ← on_pending addr (tl_Forward n);
  forget_all old;;
  '(drops, invalids) ← on_pending addr (fun l => let '(d, i, l) := tl_Filter (st_GetBalance addr (currentState p)) (currentMaxGas p) l in Ok ((d, i), l));
  forget_all drops;;
  for_each postpone invalids;;
  p ← gets (fun p => p);
  l ← deref (pending p !! addr);
  (if (0 <? tl_Len l) && bool_decide (sm_Get n (txs l) = None) then
     gapped ← on_pending addr (tl_Cap 0); for_each postpone gapped
   else mret tt);;
  modify (fun p => match pending p !! addr with
                   | Some l => if tl_Empty l then set_beats (base.delete addr (beats p)) (set_pending (base.delete addr (pending p)) p) else p
                   | None => p
                   end).

Definition demoteUnexecutables : PM unit :=
  p ← gets (fun p => p); for_each demote_account (map fst (range (map_to_list (pending p)))).

(** The next nonce of an account comes after its last pending transaction. *)
Definition renonce (addr : bytes) : PM unit :=
  txs ← on_pending addr (total tl_Flatten);
  tx ← deref (list.last txs);
  modify (fun p => set_pendingState (ms_SetNonce addr (u64 (nonce tx + 1)) (pendingState p)) p).

Section Reset.
Context (GetBlock : bytes -> Z -> option Block) (StateAt : bytes -> option cstate).

(** Headers of stored blocks have a number; an absent one would be a nil pointer. *)
Definition numberU64 (b : Block) : Z := big_Uint64 (default 0 (hd_Number (b_header b))).
Definition hash_of_block (b : Block) : bytes := fst (Block_Hash b).

(** [None] is a block that is not found, which ends the reset. *)
Definition parent_of (b : Block) : option Block := GetBlock (hd_ParentHash (b_header b)) (u64 (numberU64 b - 1)).

(** Goes back to a height, with the transactions met. *)
Fixpoint go_back (fuel : nat) (to : Z) (b : Block) (txs : list Transaction) : outcome unit (option (Block * list Transaction)) :=
  match fuel with
  | O => OutOfFuel
  | S fuel =>
    if to <? numberU64 b then
      match parent_of b with Some b' => go_back fuel to b' (txs ++ b_transactions b) | None => Ok None end
    else Ok (Some (b, txs))
  end.

Fixpoint go_common (fuel : nat) (rem add : Block) (discarded included : list Transaction) : outcome unit (option (list Transaction * list Transaction)) :=
  match fuel with
  | O => OutOfFuel
  | S fuel =>
    if bool_decide (hash_of_block rem = hash_of_block add) then Ok (Some (discarded, included))
    else
      match parent_of rem, parent_of add with
      | Some r, Some a => go_common fuel r a (discarded ++ b_transactions rem) (included ++ b_transactions add)
      | _, _ => Ok None
      end
  end.

(** The transactions of the old chain that the new one does not have; [None] where a block is
    missing.  A head that is not found is a nil pointer. *)
Definition reinjected (fuel : nat) (oldHead newHead : Header) : outcome unit (option (list Transaction)) :=
  let oldNum := big_Uint64 (default 0 (hd_Number oldHead)) in
  let newNum := big_Uint64 (default 0 (hd_Number newHead)) in
  if bool_decide (Header_Hash oldHead = hd_ParentHash newHead) then Ok (Some [])
  else if 64 <? Z.abs (float64_u64 oldNum - float64_u64 newNum) then Ok (Some [])
  else
    match GetBlock (Header_Hash oldHead) oldNum, GetBlock (Header_Hash newHead) newNum with
    | Some rem, Some add =>
      r ← go_back fuel (numberU64 add) rem [];
      match r with
      | None => Ok None
      | Some (rem, discarded) =>
        a ← go_back fuel (numberU64 rem) add [];
        match a with
        | None => Ok None
        | Some (add, included) =>
          c ← go_common fuel rem add discarded included;
          Ok (match c with Some (d, i) => Some (TxDifference d i) | None => None end)
        end
      end
    | _, _ => Panic
    end.

(** The part of [reset] that follows the walk to the common ancestor. *)
Definition reset_to (now : Z) (newHead : Header) (reinject : list Transaction) : PM unit :=
  match StateAt (hd_Root newHead) with
  | None => mret tt
  | Some statedb =>
    modify (set_states statedb (ManageState statedb) (default 0 (hd_GasLimit newHead)));;
    _ ← addTxsLocked now reinject false;
    demoteUnexecutables;;
    p ← gets (fun p => p);
    for_each renonce (map fst (range (map_to_list (pending p))));;
    promoteExecutables now None
  end.

Definition reset (fuel : nat) (now : Z) (oldHead : option Header) (newHead : Header) : PM unit :=
  match oldHead with
  | None => reset_to now newHead []
  | Some oldHead =>
    r ← of_outcome (fun _ : unit => ErrUnderpriced) (reinjected fuel oldHead newHead);
    match r with
    | None => mret tt
    | Some reinject => reset_to now newHead reinject
    end
  end.
End Reset.

(** ** Other operations *)

Definition SetGasPrice (price : Z) : PM unit :=
  modify (set_gasPrice price);;
  p ← gets (fun p => p);
  drop ← on_part priced (fun l p => set_all (all p) l p) (fun _ => ErrUnderpriced) (pl_Cap (all p) (is_local p) price);
  remove_all drop.

Definition stats (p : TxPool) : Z * Z :=
  (foldr (fun kv n => snd kv + n) 0 (lens (pending p)), foldr (fun kv n => snd kv + n) 0 (lens (queue p))).

Definition Get (hash : bytes) (p : TxPool) : option Transaction := all p !! hash.

(** An account without a pending list is a nil pointer. *)
Definition status_of (p : TxPool) (hash : bytes) : outcome unit TxStatus :=
  match all p !! hash with
  | None => Ok TxStatusUnknown
  | Some tx =>
    match pending p !! from_of (tp_signer p) tx with
    | None => Panic
    | Some l => Ok (match sm_Get (nonce tx) (txs l) with Some _ => TxStatusPending | None => TxStatusQueued end)
    end
  end.

Fixpoint Status (hashes : list bytes) (p : TxPool) : outcome unit (list TxStatus) :=
  match hashes with [] => Ok [] | h :: hashes => s ← status_of p h; l ← Status hashes p; Ok (s :: l) end.

(** The sorted lists of the accounts; the caches are filled. *)
Fixpoint flatten_each (on : bytes -> (txList -> outcome unit (list Transaction * txList)) -> PM (list Transaction)) (accounts : list bytes) : PM (list (bytes * list Transaction)) :=
  match accounts with
  | [] => mret []
  | a :: accounts => txs ← on a (total tl_Flatten); rest ← flatten_each on accounts; mret ((a, txs) :: rest)
  end.

Definition Pending : PM (list (bytes * list Transaction)) := p ← gets (fun p => p); flatten_each on_pending (map fst (range (map_to_list (pending p)))).

Definition Content : PM (list (bytes * list Transaction) * list (bytes * list Transaction)) :=
  pend ← Pending;
  p ← gets (fun p => p);
  queued ← flatten_each on_queue (map fst (range (map_to_list (queue p))));
  mret (pend, queued).

(** The tick of the eviction timer. *)
Definition evict (now : Z) : PM unit :=
  p ← gets (fun p => p);
  for_each (fun addr =>
    p ← gets (fun p => p);
    match queue p !! addr with
    | None => mret tt
    | Some _ =>
      if bool_decide (addr ∈ locals p) then mret tt
      else if Lifetime (tp_config p) <? since now (heartbeat p addr) then txs ← on_queue addr (total tl_Flatten); remove_all txs
      else mret tt
    end) (map fst (range (map_to_list (queue p)))).

(** A new pool before its first reset. *)
Definition new_pool (c : TxPoolConfig) (chainId : option Z) (statedb : cstate) : TxPool :=
  let c := sanitize c in
  mkTxPool c (NewEIP155Signer chainId) (PriceLimit c) statedb (ManageState statedb) 0 ∅
    (if NoLocals c || bool_decide (Journal c = EmptyString) then None else Some []) ∅ ∅ ∅ ∅ newTxPricedList [].
End Pool.
