(* ===== verification/TxPoolSpec.v ===== *)
(** * The transaction pool: invariants

    The lists of an account as lists of transactions in the order of their nonces, the
    invariant that relates them to each other, to the index of all transactions and to the
    heap by price, and that every operation of [TxPool] keeps it and returns. *)

From stdpp Require Import sorting.
From S2P Require Import Prelude Rlp RlpStream Common Signature ChainConfig Trie Transaction Block GoMonad GoSort GoHeap TxList TxPool.

Section Spec.
Context {HS : Hasher} {SC : Secp256k1} {RO : RangeOrder} {PS : PoolState} {PQ : PriorityQueue}.

(** ** The invariant *)

(** The transactions of each account. *)
Definition accounts_txs : Type := bytes -> list Transaction.

Implicit Types (p : TxPool) (P Q : accounts_txs) (X : list Transaction) (tx : Transaction) (a b : bytes).

Definition upd a (L : list Transaction) (F : accounts_txs) : accounts_txs := fun b => if decide (b = a) then L else F b.

Definition lists_hold (strict_lists : bool) (m : gmap bytes txList) (F : accounts_txs) : Prop :=
  forall a, match m !! a with Some l => tl_holds l (F a) /\ strict l = strict_lists | None => F a = [] end.

Definition next_nonce p a : Z := ms_GetNonce a (pendingState p).
Definition state_nonce p a : Z := st_GetNonce a (currentState p).

(** The nonces are [c], [c + 1] and so on. *)
Definition contiguous (c : Z) (L : list Transaction) : Prop := map nonce L = seqZ c (Z.of_nat (length L)).

(** The pending transactions of an account have the nonces from that of the state on, and the
    next nonce is the one after them. *)
Definition executable p P : Prop :=
  forall a, contiguous (state_nonce p a) (P a) /\ next_nonce p a = state_nonce p a + Z.of_nat (length (P a)).

(** [ex] says whether the pending transactions are executable in a row; the transactions of [X]
    may be missing from the heap. *)
Record inv (ex : bool) X p P Q : Prop := mkInv {
  iv_pending : lists_hold true (pending p) P;
  iv_queue : lists_hold false (queue p) Q;
  iv_sender : forall a tx, tx ∈ P a ++ Q a -> sender (tp_signer p) tx = Some a;
  iv_listed : forall a tx, tx ∈ P a ++ Q a -> all p !! txhash tx = Some tx;
  iv_apart : forall a n, n ∈ map nonce (P a) -> n ∈ map nonce (Q a) -> False;
  iv_all : forall h tx, all p !! h = Some tx -> txhash tx = h /\ is_Some (sender (tp_signer p) tx) /\ 0 <= nonce tx < 2 ^ 64;
  iv_heap : heap by_price (pitems (priced p));
  iv_priced : forall h tx, all p !! h = Some tx -> tx ∈ pitems (priced p) \/ tx ∈ X;
  iv_room : Z.of_nat (base.size (all p)) <= 2 ^ 24;
  iv_run : ex = true -> executable p P
}.

(** Limits that make sense. *)
Record sane p : Prop := mkSane {
  sn_slots : 1 <= AccountSlots (tp_config p) < 2 ^ 64;
  sn_queue : 0 <= AccountQueue (tp_config p) < 2 ^ 63;
  sn_global : 0 <= GlobalSlots (tp_config p) < 2 ^ 63;
  sn_globalq : 0 <= GlobalQueue (tp_config p) < 2 ^ 63;
  sn_nonces : forall a, 0 <= state_nonce p a < 2 ^ 63
}.

(** What no operation but a reset changes. *)
Definition same p p' : Prop :=
  tp_config p' = tp_config p /\ tp_signer p' = tp_signer p /\ currentState p' = currentState p /\ currentMaxGas p' = currentMaxGas p.

#[global] Instance same_preorder : PreOrder same.
Proof. split; [by intros p|]. intros p q r (A & B & C & D) (A' & B' & C' & D'). by repeat split; etrans. Qed.

Lemma sane_same p p' : sane p -> same p p' -> sane p'.
Proof. intros [A B C D E] (F & _ & G & _). unfold state_nonce in *. split; rewrite ?F; try done. intros a. unfold state_nonce. by rewrite G. Qed.

(** ** Lemmas: lists of accounts *)

Lemma upd_eq a L F : upd a L F a = L.
Proof. unfold upd. by rewrite decide_True. Qed.

Lemma upd_ne a b L F : b <> a -> upd a L F b = F b.
Proof. intros. unfold upd. by rewrite decide_False. Qed.

Lemma upd_cases a L F b : (b = a /\ upd a L F b = L) \/ (b <> a /\ upd a L F b = F b).
Proof. destruct (decide (b = a)) as [->|N]; [left|right]; split; try done; [apply upd_eq|by apply upd_ne]. Qed.

Lemma lists_hold_some s m F a l : lists_hold s m F -> m !! a = Some l -> tl_holds l (F a) /\ strict l = s.
Proof. intros H E. specialize (H a). by rewrite E in H. Qed.

Lemma lists_hold_none s m F a : lists_hold s m F -> m !! a = None -> F a = [].
Proof. intros H E. specialize (H a). by rewrite E in H. Qed.

Lemma lists_hold_insert s m F a l L : lists_hold s m F -> tl_holds l L -> strict l = s -> lists_hold s (<[a := l]> m) (upd a L F).
Proof.
  intros H Hl Sl b. rewrite lookup_insert. destruct (upd_cases a L F b) as [[-> ->]|[N ->]]; [by rewrite decide_True|]. rewrite decide_False by done. apply H.
Qed.

Lemma lists_hold_delete s m F a : lists_hold s m F -> F a = [] -> lists_hold s (base.delete a m) F.
Proof. intros H E b. destruct (decide (b = a)) as [->|N]; [by rewrite lookup_delete_eq|]. rewrite lookup_delete_ne by done. apply H. Qed.

Lemma lists_hold_ext s m F G : lists_hold s m F -> (forall a, F a = G a) -> lists_hold s m G.
Proof. intros H E a. rewrite <- E. apply H. Qed.

Lemma lists_sorted s m F a : lists_hold s m F -> ascending (F a).
Proof. intros H. specialize (H a). destruct (m !! a); [apply H|]. rewrite H. constructor. Qed.

Lemma lists_nonces s m F a tx : lists_hold s m F -> tx ∈ F a -> 0 <= nonce tx < 2 ^ 64.
Proof.
  intros H Hx. specialize (H a). destruct (m !! a) as [l|]; [|rewrite H in Hx; by apply elem_of_nil in Hx].
  by apply (proj1 (list.Forall_forall _ _) (tl_nonces _ _ (proj1 H))).
Qed.

Lemma nonce_in tx L : tx ∈ L -> nonce tx ∈ map nonce L.
Proof. intros H. apply list_elem_of_fmap. by exists tx. Qed.

(** ** Lemmas: contiguous lists *)

Lemma contiguous_cons c x L : contiguous c (x :: L) <-> nonce x = c /\ contiguous (c + 1) L.
Proof.
  unfold contiguous. cbn [map length]. rewrite seqZ_cons by lia. replace (Z.pred (Z.of_nat (S (length L)))) with (Z.of_nat (length L)) by lia.
  replace (Z.succ c) with (c + 1) by lia. split; [by intros [= -> ->]|by intros [-> ->]].
Qed.

Lemma contiguous_in c L n : contiguous c L -> n ∈ map nonce L <-> c <= n < c + Z.of_nat (length L).
Proof. intros ->. apply elem_of_seqZ. Qed.

Lemma contiguous_take c L k : contiguous c L -> contiguous c (take k L).
Proof.
  revert c k. induction L as [|x L IH]; intros c k H; [by rewrite take_nil|]. destruct k as [|k]; [done|]. apply contiguous_cons in H as [E H]. cbn.
  apply contiguous_cons. split; [done|]. by apply IH.
Qed.

Lemma contiguous_drop c L k : contiguous c L -> (k <= length L)%nat -> contiguous (c + Z.of_nat k) (drop k L).
Proof.
  revert c k. induction L as [|x L IH]; intros c k H Lk; [by rewrite drop_nil|]. destruct k as [|k]; [by rewrite Z.add_0_r|]. apply contiguous_cons in H as [E H]. cbn [drop].
  replace (c + Z.of_nat (S k)) with (c + 1 + Z.of_nat k) by lia. apply IH; [done|]. cbn in Lk. lia.
Qed.

Lemma contiguous_app c L M : contiguous c L -> contiguous (c + Z.of_nat (length L)) M -> contiguous c (L ++ M).
Proof. unfold contiguous. intros E E'. rewrite map_app, length_app, Nat2Z.inj_add, seqZ_app by lia. by f_equal. Qed.

Lemma contiguous_before c L n : contiguous c L -> c <= n -> List.filter (before n) L = take (Z.to_nat (n - c)) L /\ keep (before n) L = drop (Z.to_nat (n - c)) L.
Proof.
  unfold keep. revert c. induction L as [|x L IH]; intros c H Ln; [by rewrite take_nil, drop_nil|]. pose proof H as [E H']%contiguous_cons. cbn [List.filter]. assert (Ex : before n x = (c <? n)) by (unfold before; by rewrite E). rewrite Ex.
  destruct (Z.ltb_spec c n).
  - replace (Z.to_nat (n - c)) with (S (Z.to_nat (n - (c + 1)))) by lia. destruct (IH (c + 1) H') as [-> ->]; [lia|]. done.
  - replace n with c by lia. rewrite Z.sub_diag. change (Z.to_nat 0) with O. cbn. assert (A : Forall (fun y => before c y = false) L).
    { apply list.Forall_forall. intros y Hy%nonce_in. apply (contiguous_in _ _ _ H') in Hy. unfold before. lia. }
    rewrite (filter_none (before c) L A). split; [done|]. f_equal. apply (filter_drop (fun t => negb (before c t))). revert A. apply List.Forall_impl. by intros y ->.
Qed.

Lemma contiguous_nil c : contiguous c [].
Proof. done. Qed.

(** ** Lemmas: listed transactions *)

(** A hash is listed once. *)
Lemma listed_once ex X p P Q a b tx tx' : inv ex X p P Q -> tx ∈ P a ++ Q a -> tx' ∈ P b ++ Q b -> txhash tx = txhash tx' -> tx = tx' /\ a = b.
Proof.
  intros I H H' E. pose proof (iv_listed _ _ _ _ _ I a tx H) as L. pose proof (iv_listed _ _ _ _ _ I b tx' H') as L'.
  rewrite E in L. assert (tx = tx') as -> by congruence. split; [done|].
  pose proof (iv_sender _ _ _ _ _ I a tx' H). pose proof (iv_sender _ _ _ _ _ I b tx' H'). congruence.
Qed.

(** A transaction that is not listed any more. *)
Definition unlisted P Q tx : Prop := forall a tx', tx' ∈ P a ++ Q a -> txhash tx' <> txhash tx.

Lemma unlisted_queue ex X p P Q a L tx : inv ex X p P Q -> tx ∈ Q a -> (forall t, t ∈ L -> t ∈ Q a) -> tx ∉ L -> unlisted P (upd a L Q) tx.
Proof.
  intros I H Sub N b tx' H' E. destruct (upd_cases a L Q b) as [[-> Eu]|[Nb Eu]]; rewrite Eu in H'.
  - destruct (listed_once _ _ _ _ _ a a tx' tx I) as [-> _]; [|apply elem_of_app; by right|done|].
    + apply elem_of_app in H' as [H'|H']; apply elem_of_app; [by left|right; by apply Sub].
    + apply elem_of_app in H' as [H'|H']; [|done]. by apply (iv_apart _ _ _ _ _ I a (nonce tx)); apply nonce_in.
  - destruct (listed_once _ _ _ _ _ b a tx' tx I H') as [_ ->]; [apply elem_of_app; by right|done..].
Qed.

Lemma unlisted_pending ex X p P Q a L tx : inv ex X p P Q -> tx ∈ P a -> (forall t, t ∈ L -> t ∈ P a) -> tx ∉ L -> unlisted (upd a L P) Q tx.
Proof.
  intros I H Sub N b tx' H' E. destruct (upd_cases a L P b) as [[-> Eu]|[Nb Eu]]; rewrite Eu in H'.
  - destruct (listed_once _ _ _ _ _ a a tx' tx I) as [-> _]; [|apply elem_of_app; by left|done|].
    + apply elem_of_app in H' as [H'|H']; apply elem_of_app; [left; by apply Sub|by right].
    + apply elem_of_app in H' as [H'|H']; [done|]. by apply (iv_apart _ _ _ _ _ I a (nonce tx)); apply nonce_in.
  - destruct (listed_once _ _ _ _ _ b a tx' tx I H') as [_ ->]; [apply elem_of_app; by left|done..].
Qed.

(** The lists of an account are within the index. *)
Lemma room_list ex X p P Q a : inv ex X p P Q -> Z.of_nat (length (P a)) <= 2 ^ 24 /\ Z.of_nat (length (Q a)) <= 2 ^ 24.
Proof.
  intros I. assert (G : forall L, ascending L -> (forall tx, tx ∈ L -> all p !! txhash tx = Some tx) -> Z.of_nat (length L) <= 2 ^ 24).
  { intros L S Hall. pose proof (iv_room _ _ _ _ _ I) as R.
    assert (ND : NoDup (map txhash L)).
    { apply NoDup_fmap_2_strong; [|by apply (NoDup_fmap_1 nonce), ascending_nonces]. intros x y Hx Hy E. apply Hall in Hx, Hy. rewrite E in Hx. congruence. }
    assert (Sub : (list_to_set (map txhash L) : gset bytes) ⊆ dom (all p)).
    { intros h. rewrite elem_of_list_to_set. intros (x & -> & Hx)%list_elem_of_fmap. apply elem_of_dom. by eexists; apply Hall. }
    apply subseteq_size in Sub. rewrite size_list_to_set, length_map, size_dom in Sub by done. lia. }
  split; apply G.
  - apply (lists_sorted _ _ _ _ (iv_pending _ _ _ _ _ I)).
  - intros tx Hx. apply (iv_listed _ _ _ _ _ I a), elem_of_app. by left.
  - apply (lists_sorted _ _ _ _ (iv_queue _ _ _ _ _ I)).
  - intros tx Hx. apply (iv_listed _ _ _ _ _ I a), elem_of_app. by right.
Qed.

(** ** Lemmas: the index *)

(** Another index and heap over the same lists. *)
Lemma inv_index ex X X' p P Q al l :
  inv ex X p P Q -> heap by_price (pitems l) -> Z.of_nat (base.size al) <= 2 ^ 24 ->
  (forall a tx, tx ∈ P a ++ Q a -> al !! txhash tx = Some tx) ->
  (forall h tx, al !! h = Some tx -> txhash tx = h /\ is_Some (sender (tp_signer p) tx) /\ 0 <= nonce tx < 2 ^ 64) ->
  (forall h tx, al !! h = Some tx -> tx ∈ pitems l \/ tx ∈ X') -> inv ex X' (set_all al l p) P Q.
Proof. intros [] ?????. by split. Qed.

Lemma pl_Removed_heap al l : heap by_price (pitems l) -> heap by_price (pitems (pl_Removed al l)).
Proof. intros H. unfold pl_Removed. destruct (_ <=? _); [done|]. apply heap_Init_spec; [apply price_asym|apply price_trans]. Qed.

Lemma pl_Removed_items (al : gmap bytes Transaction) l h tx : al !! h = Some tx -> tx ∈ pitems l -> tx ∈ pitems (pl_Removed al l).
Proof.
  intros E Hx. unfold pl_Removed. destruct (_ <=? _); [done|]. cbn [pitems].
  rewrite (proj2 (heap_Init_spec by_price price_asym price_trans _)), range_perm. apply list_elem_of_fmap. exists (h, tx). split; [done|]. by apply elem_of_map_to_list.
Qed.

Lemma pl_Removed_other (al : gmap bytes Transaction) l X h tx : al !! h = Some tx -> tx ∈ pitems l \/ tx ∈ X -> tx ∈ pitems (pl_Removed al l) \/ tx ∈ X.
Proof. intros E [H|H]; [left; by eapply pl_Removed_items|by right]. Qed.

Definition forgotten h p : TxPool := set_all (base.delete h (all p)) (pl_Removed (base.delete h (all p)) (priced p)) p.

Lemma forget_run h p : forget h p = Ok (forgotten h p, inr tt).
Proof. done. Qed.

Lemma inv_forget ex X p P Q h : inv ex X p P Q -> (forall a tx, tx ∈ P a ++ Q a -> txhash tx <> h) -> inv ex X (forgotten h p) P Q.
Proof.
  intros I N. apply (inv_index ex X); [done|apply pl_Removed_heap, I|..].
  - pose proof (iv_room _ _ _ _ _ I). pose proof (map_size_delete h (all p)) as E. destruct (all p !! h); cbn in E; lia.
  - intros a tx Hx. rewrite lookup_delete_ne by (apply not_eq_sym; by apply (N a)). by apply (iv_listed _ _ _ _ _ I a).
  - intros k tx [_ E]%lookup_delete_Some. by apply I.
  - intros k tx E. apply (pl_Removed_other _ _ _ k); [done|]. apply lookup_delete_Some in E as [_ E]. by apply (iv_priced _ _ _ _ _ I k).
Qed.

(** A pool of which only the index shrank. *)
Definition shrunk p p' : Prop := exists al l, p' = set_all al l p /\ al ⊆ all p.

Lemma shrunk_forget h p : shrunk p (forgotten h p).
Proof. eexists _, _. split; [done|]. apply delete_subseteq. Qed.

#[global] Instance shrunk_preorder : PreOrder shrunk.
Proof.
  split.
  - intros p. exists (all p), (priced p). by destruct p.
  - intros p q r (al & l & -> & S) (al' & l' & -> & S'). exists al', l'. split; [done|]. by etrans.
Qed.

Lemma shrunk_same p p' : shrunk p p' -> same p p'.
Proof. by intros (al & l & -> & _). Qed.

Lemma forget_all_inv ex X P Q : forall l p, inv ex X p P Q -> (forall tx, tx ∈ l -> unlisted P Q tx) ->
  exists p', forget_all l p = Ok (p', inr tt) /\ inv ex X p' P Q /\ shrunk p p' /\ forall h, h ∉ map txhash l -> all p' !! h = all p !! h.
Proof.
  induction l as [|tx l IH]; intros p I U; [by exists p|]. unfold forget_all. cbn [for_each]. go_step (forget_run (txhash tx) p).
  destruct (IH (forgotten (txhash tx) p)) as (p' & E & I' & S' & K').
  - apply inv_forget; [done|]. apply U. by left.
  - intros t Ht. apply U. by right.
  - exists p'. split; [exact E|]. split; [done|]. split; [etrans; [apply shrunk_forget|done]|]. intros h [N N']%list.not_elem_of_cons. rewrite K' by done. cbn. by apply lookup_delete_ne.
Qed.

Definition remembered h tx p : TxPool := set_all (<[h := tx]> (all p)) (pl_Put tx (priced p)) p.

Lemma remember_run h tx p : remember h tx p = Ok (remembered h tx p, inr tt).
Proof. done. Qed.

Lemma pl_Put_items tx (l : txPricedList) X (h : bytes) (t : Transaction) (al : gmap bytes Transaction) : heap by_price (pitems l) ->
  heap by_price (pitems (pl_Put tx l)) /\ (<[txhash tx := tx]> al !! h = Some t -> (al !! h = Some t -> t ∈ pitems l \/ t ∈ X) -> t ∈ pitems (pl_Put tx l) \/ t ∈ X).
Proof.
  intros H. destruct (heap_Push_spec by_price price_asym price_trans tx (pitems l) H) as [Hh Hp]. split; [done|].
  rewrite lookup_insert. cbn [pitems pl_Put]. rewrite Hp. intros E K. case_decide; [injection E as <-; left; by left|]. destruct (K E); [left; by right|by right].
Qed.

(** The index of a transaction that enters a list; one that is known stays as it is. *)
Lemma inv_remember ex X p P Q tx a :
  inv ex X p P Q -> sender (tp_signer p) tx = Some a -> 0 <= nonce tx < 2 ^ 64 ->
  all p !! txhash tx = Some tx \/ (all p !! txhash tx = None /\ Z.of_nat (base.size (all p)) < 2 ^ 24) -> inv ex X (remembered (txhash tx) tx p) P Q.
Proof.
  intros I Sx Nx K. destruct (pl_Put_items tx (priced p) X [] tx (all p) (iv_heap _ _ _ _ _ I)) as [Hh _]. apply (inv_index ex X); [done|done|..].
  - rewrite map_size_insert. pose proof (iv_room _ _ _ _ _ I). destruct K as [->|[-> K]]; unfold id; lia.
  - intros b t Ht. pose proof (iv_listed _ _ _ _ _ I b t Ht) as L. rewrite lookup_insert. case_decide as D; [|done]. destruct K as [K|[K _]]; congruence.
  - intros h t. rewrite lookup_insert. case_decide as D; [|apply I]. intros [= <-]. split; [done|]. split; [by rewrite Sx|done].
  - intros h t E. apply (pl_Put_items tx (priced p) X h t (all p) (iv_heap _ _ _ _ _ I)); [done|]. apply I.
Qed.

(** ** Lemmas: the lists of the pool *)

Lemma on_queue_run {A} a (f : txList -> outcome unit (A * txList)) p l x l' :
  queue p !! a = Some l -> f l = Ok (x, l') -> on_queue a f p = Ok (set_queue (<[a := l']> (queue p)) p, inr x).
Proof. intros E F. unfold on_queue. rewrite E, F. done. Qed.

Lemma on_pending_run {A} a (f : txList -> outcome unit (A * txList)) p l x l' :
  pending p !! a = Some l -> f l = Ok (x, l') -> on_pending a f p = Ok (set_pending (<[a := l']> (pending p)) p, inr x).
Proof. intros E F. unfold on_pending. rewrite E, F. done. Qed.

Lemma on_queue_total {A} a (f : txList -> A * txList) p l x l' :
  queue p !! a = Some l -> f l = (x, l') -> on_queue a (total f) p = Ok (set_queue (<[a := l']> (queue p)) p, inr x).
Proof. intros E F. apply (on_queue_run a _ p l); [done|]. unfold total. by rewrite F. Qed.

Lemma on_pending_total {A} a (f : txList -> A * txList) p l x l' :
  pending p !! a = Some l -> f l = (x, l') -> on_pending a (total f) p = Ok (set_pending (<[a := l']> (pending p)) p, inr x).
Proof. intros E F. apply (on_pending_run a _ p l); [done|]. unfold total. by rewrite F. Qed.

Lemma elem_upd a L F b tx : tx ∈ upd a L F b -> (b = a /\ tx ∈ L) \/ (b <> a /\ tx ∈ F b).
Proof. destruct (upd_cases a L F b) as [[-> ->]|[N ->]]; auto. Qed.

(** A list of the queue loses transactions. *)
Lemma inv_cut_queue ex X p P Q a l L : inv ex X p P Q -> tl_holds l L -> strict l = false -> (forall tx, tx ∈ L -> tx ∈ Q a) ->
  inv ex X (set_queue (<[a := l]> (queue p)) p) P (upd a L Q).
Proof.
  intros [Ip Iq Is Il Ia Iall Ih Ipr Ir Irun] Hl Sl Sub. assert (G : forall b tx, tx ∈ P b ++ upd a L Q b -> tx ∈ P b ++ Q b).
  { intros b tx [H|H]%elem_of_app; apply elem_of_app; [by left|right]. apply elem_upd in H as [[-> H]|[_ H]]; [by apply Sub|done]. }
  split; try done; cbn.
  - by apply lists_hold_insert.
  - intros b tx H%G. by apply Is.
  - intros b tx H%G. by apply (Il b).
  - intros b n Hp (tx & -> & H)%list_elem_of_fmap. apply (Ia b (nonce tx)); [done|]. apply nonce_in. apply elem_upd in H as [[-> H]|[_ H]]; [by apply Sub|done].
Qed.

(** A list of pending transactions loses some; what it means for those that can be executed is
    up to the caller. *)
Lemma inv_cut_pending ex X p P Q a l L : inv ex X p P Q -> tl_holds l L -> strict l = true -> (forall tx, tx ∈ L -> tx ∈ P a) ->
  inv false X (set_pending (<[a := l]> (pending p)) p) (upd a L P) Q.
Proof.
  intros [Ip Iq Is Il Ia Iall Ih Ipr Ir Irun] Hl Sl Sub. assert (G : forall b tx, tx ∈ upd a L P b ++ Q b -> tx ∈ P b ++ Q b).
  { intros b tx [H|H]%elem_of_app; apply elem_of_app; [left|by right]. apply elem_upd in H as [[-> H]|[_ H]]; [by apply Sub|done]. }
  split; try done; cbn.
  - by apply lists_hold_insert.
  - intros b tx H%G. by apply Is.
  - intros b tx H%G. by apply (Il b).
  - intros b n (tx & -> & H)%list_elem_of_fmap Hq. apply (Ia b (nonce tx)); [|done]. apply nonce_in. apply elem_upd in H as [[-> H]|[_ H]]; [by apply Sub|done].
Qed.

Lemma inv_weaken ex X p P Q : inv ex X p P Q -> inv false X p P Q.
Proof. intros []. by split. Qed.

Lemma inv_executable X p P Q ex : inv false X p P Q -> (ex = true -> executable p P) -> inv ex X p P Q.
Proof. intros [] ?. by split. Qed.

Lemma inv_ext ex X p P Q P' Q' : inv ex X p P Q -> (forall a, P a = P' a) -> (forall a, Q a = Q' a) -> inv ex X p P' Q'.
Proof.
  intros [Ip Iq Is Il Ia Iall Ih Ipr Ir Irun] EP EQ. split; try done.
  - by eapply lists_hold_ext.
  - by eapply lists_hold_ext.
  - intros a tx. rewrite <- EP, <- EQ. apply Is.
  - intros a tx. rewrite <- EP, <- EQ. apply Il.
  - intros a n. rewrite <- EP, <- EQ. apply Ia.
  - intros E a. rewrite <- EP. by apply Irun.
Qed.

(** ** Lemmas: a transaction enters a list *)

(** The index once [tx] has taken the place of [old]. *)
Definition entered (old : option Transaction) tx p : TxPool :=
  remembered (txhash tx) tx (match old with Some o => forgotten (txhash o) p | None => p end).

Lemma entered_run old tx p B (k : unit -> go TxPool pool_error B) :
  (replaced old;; remember (txhash tx) tx ≫= k) p = k tt (entered old tx p).
Proof. by destruct old. Qed.

(** A transaction that may enter: signed by the account, and known as it is or not at all. *)
Record enters p a tx : Prop := mkEnters {
  en_sender : sender (tp_signer p) tx = Some a;
  en_nonce : 0 <= nonce tx < 2 ^ 64;
  en_known : all p !! txhash tx = Some tx \/ (all p !! txhash tx = None /\ Z.of_nat (base.size (all p)) < 2 ^ 24)
}.

Record indexed X P Q p (old : option Transaction) tx p' : Prop := mkIndexed {
  ix_only : p' = set_all (all p') (priced p') p;
  ix_heap : heap by_price (pitems (priced p'));
  ix_room : Z.of_nat (base.size (all p')) <= 2 ^ 24;
  ix_all : forall h t, all p' !! h = Some t -> txhash t = h /\ is_Some (sender (tp_signer p) t) /\ 0 <= nonce t < 2 ^ 64;
  ix_priced : forall h t, all p' !! h = Some t -> t ∈ pitems (priced p') \/ t ∈ X;
  ix_tx : all p' !! txhash tx = Some tx;
  ix_others : forall a t, t ∈ P a ++ Q a -> (forall o, old = Some o -> txhash t <> txhash o) -> all p' !! txhash t = Some t;
  ix_sub : all p' ⊆ <[txhash tx := tx]> (all p);
  ix_same : old = None -> all p' = <[txhash tx := tx]> (all p)
}.

Lemma entered_index ex X P Q p old a tx : inv ex X p P Q -> enters p a tx -> indexed X P Q p old tx (entered old tx p).
Proof.
  intros I [Sx Nx K]. set (q := match old with Some o => forgotten (txhash o) p | None => p end).
  assert (Hq : heap by_price (pitems (priced q))) by (unfold q; destruct old; [apply pl_Removed_heap|]; apply I).
  assert (Sq : all q ⊆ all p) by (unfold q; destruct old; [apply delete_subseteq|done]).
  assert (Oq : forall t, (forall o, old = Some o -> txhash t <> txhash o) -> all q !! txhash t = all p !! txhash t).
  { unfold q. intros t. destruct old as [o|]; [|done]. intros N. cbn. rewrite lookup_delete_ne; [done|]. apply not_eq_sym. by apply N. }
  assert (Lq : forall h t, all q !! h = Some t -> all p !! h = Some t) by (intros h t Et; by apply (lookup_weaken (all q))).
  destruct (pl_Put_items tx (priced q) X [] tx (all q) Hq) as [Hh _]. unfold entered. fold q. split; cbn [remembered all priced set_all].
  - unfold q. by destruct old.
  - done.
  - rewrite map_size_insert. pose proof (map_subseteq_size _ _ Sq). pose proof (iv_room _ _ _ _ _ I). destruct K as [K|[K Rm]]; [|destruct (all q !! txhash tx); unfold id; lia].
    destruct (all q !! txhash tx) eqn:E; unfold id; [lia|]. assert (all q ⊂ all p) as Ss%map_subset_size; [|lia]. split; [done|].
    intros Sub. pose proof (lookup_weaken _ _ _ _ K Sub). congruence.
  - intros h t. rewrite lookup_insert. case_decide as D; [|intros E%Lq; by apply I]. intros [= <-]. split; [done|]. split; [by rewrite Sx|done].
  - intros h t E. apply (pl_Put_items tx (priced q) X h t (all q) Hq); [done|]. intros Et. unfold q in *. destruct old as [o|]; [|by apply (iv_priced _ _ _ _ _ I h)].
    apply (pl_Removed_other _ _ _ h); [done|]. apply (iv_priced _ _ _ _ _ I h). by apply Lq.
  - apply lookup_insert_eq.
  - intros b t Ht N. pose proof (iv_listed _ _ _ _ _ I b t Ht) as L. rewrite lookup_insert. case_decide as D; [|by rewrite Oq]. destruct K as [K|[K _]]; congruence.
  - by apply insert_mono.
  - intros ->. done.
Qed.

Lemma old_of L tx o : ascending L -> by_nonces L !! nonce tx = Some o -> o ∈ L /\ nonce o = nonce tx.
Proof. intros S. by rewrite lookup_by_nonces. Qed.

Lemma inv_enter_queue ex X p P Q a tx l :
  inv ex X p P Q -> enters p a tx -> nonce tx ∉ map nonce (P a) -> tl_holds l (place tx (Q a)) -> strict l = false ->
  inv ex X (entered (by_nonces (Q a) !! nonce tx) tx (set_queue (<[a := l]> (queue p)) p)) P (upd a (place tx (Q a)) Q).
Proof.
  intros I En Np Hl Sl. set (old := by_nonces (Q a) !! nonce tx). pose proof (lists_sorted _ _ _ a (iv_queue _ _ _ _ _ I)) as Sq.
  pose proof (entered_index ex X P Q p old a tx I En) as [E1 E2 E3 E4 E5 E6 E7 _ _].
  assert (Ec : entered old tx (set_queue (<[a := l]> (queue p)) p) = set_queue (<[a := l]> (queue p)) (entered old tx p)) by by destruct old.
  rewrite Ec, E1. clear Ec. pose proof I as [Ip Iq Is Il Ia Iall Ih Ipr Ir Irun].
  assert (G : forall b t, t ∈ P b ++ upd a (place tx (Q a)) Q b -> (b = a /\ t = tx) \/ (t ∈ P b ++ Q b /\ forall o, old = Some o -> txhash t <> txhash o)).
  { intros b t Ht. assert (Hn : forall o, old = Some o -> txhash t = txhash o -> t ∈ P b ++ Q b -> b = a /\ t = o /\ nonce t = nonce tx /\ t ∈ Q a).
    { intros o Eo Eh Hb. apply old_of in Eo as [Ho En']; [|done]. destruct (listed_once _ _ _ _ _ b a t o I Hb) as [-> ->]; [apply elem_of_app; by right|done|done]. }
    apply elem_of_app in Ht as [Ht|Ht].
    - right. split; [apply elem_of_app; by left|]. intros o Eo Eh. destruct (Hn o Eo Eh) as (-> & _ & Et & _); [apply elem_of_app; by left|]. apply Np. rewrite <- Et. by apply nonce_in.
    - apply elem_upd in Ht as [[-> Ht]|[Nb Ht]].
      + apply elem_of_place in Ht as [->|[Ht Nt]]; [by left| |done]. right. split; [apply elem_of_app; by right|]. intros o Eo Eh. destruct (Hn o Eo Eh) as (_ & _ & Et & _); [apply elem_of_app; by right|done].
      + right. split; [apply elem_of_app; by right|]. intros o Eo Eh. destruct (Hn o Eo Eh) as (-> & _); [apply elem_of_app; by right|done]. }
  split; try done; cbn [pending queue tp_signer all priced set_queue set_all].
  - by apply lists_hold_insert.
  - intros b t [[-> ->]|[Ht _]]%G; [apply En|by apply Is].
  - intros b t [[-> ->]|[Ht No]]%G; [done|by apply (E7 b)].
  - intros b n Hn (t & -> & Ht)%list_elem_of_fmap. apply elem_upd in Ht as [[-> Ht]|[_ Ht]]; [|by apply (Ia b (nonce t)), nonce_in].
    apply elem_of_place in Ht as [->|[Ht _]]; [done| |done]. by apply (Ia a (nonce t)), nonce_in.
Qed.

Lemma inv_enter_pending ex X p P Q a tx l :
  inv ex X p P Q -> enters p a tx -> nonce tx ∉ map nonce (Q a) -> tl_holds l (place tx (P a)) -> strict l = true ->
  inv false X (entered (by_nonces (P a) !! nonce tx) tx (set_pending (<[a := l]> (pending p)) p)) (upd a (place tx (P a)) P) Q.
Proof.
  intros I En Nq Hl Sl. set (old := by_nonces (P a) !! nonce tx). pose proof (lists_sorted _ _ _ a (iv_pending _ _ _ _ _ I)) as Sq.
  pose proof (entered_index ex X P Q p old a tx I En) as [E1 E2 E3 E4 E5 E6 E7 _ _].
  assert (Ec : entered old tx (set_pending (<[a := l]> (pending p)) p) = set_pending (<[a := l]> (pending p)) (entered old tx p)) by by destruct old.
  rewrite Ec, E1. clear Ec. pose proof I as [Ip Iq Is Il Ia Iall Ih Ipr Ir Irun].
  assert (G : forall b t, t ∈ upd a (place tx (P a)) P b ++ Q b -> (b = a /\ t = tx) \/ (t ∈ P b ++ Q b /\ forall o, old = Some o -> txhash t <> txhash o)).
  { intros b t Ht. assert (Hn : forall o, old = Some o -> txhash t = txhash o -> t ∈ P b ++ Q b -> b = a /\ t = o /\ nonce t = nonce tx /\ t ∈ P a).
    { intros o Eo Eh Hb. apply old_of in Eo as [Ho En']; [|done]. destruct (listed_once _ _ _ _ _ b a t o I Hb) as [-> ->]; [apply elem_of_app; by left|done|done]. }
    apply elem_of_app in Ht as [Ht|Ht].
    - apply elem_upd in Ht as [[-> Ht]|[Nb Ht]].
      + apply elem_of_place in Ht as [->|[Ht Nt]]; [by left| |done]. right. split; [apply elem_of_app; by left|]. intros o Eo Eh. destruct (Hn o Eo Eh) as (_ & _ & Et & _); [apply elem_of_app; by left|done].
      + right. split; [apply elem_of_app; by left|]. intros o Eo Eh. destruct (Hn o Eo Eh) as (-> & _); [apply elem_of_app; by left|done].
    - right. split; [apply elem_of_app; by right|]. intros o Eo Eh. destruct (Hn o Eo Eh) as (-> & _ & Et & _); [apply elem_of_app; by right|]. apply Nq. rewrite <- Et. by apply nonce_in. }
  split; try done; cbn [pending queue tp_signer all priced set_pending set_all].
  - by apply lists_hold_insert.
  - intros b t [[-> ->]|[Ht _]]%G; [apply En|by apply Is].
  - intros b t [[-> ->]|[Ht No]]%G; [done|by apply (E7 b)].
  - intros b n (t & -> & Ht)%list_elem_of_fmap Hn. apply elem_upd in Ht as [[-> Ht]|[_ Ht]]; [|by apply (Ia b (nonce t)); [apply nonce_in|]].
    apply elem_of_place in Ht as [->|[Ht _]]; [done| |done]. by apply (Ia a (nonce t)); [apply nonce_in|].
Qed.

(** No list of the account is empty. *)
Definition full_pending p P a : Prop := is_Some (pending p !! a) -> P a <> [].
Definition full_queue p Q a : Prop := is_Some (queue p !! a) -> Q a <> [].
Definition full p P Q a : Prop := full_pending p P a /\ full_queue p Q a.

Definition keeps_full p P Q p' P' Q' : Prop := forall b, full p P Q b -> full p' P' Q' b.

Lemma keeps_queue p P Q p' Q' : pending p' = pending p -> (forall b, full_queue p Q b -> full_queue p' Q' b) -> keeps_full p P Q p' P Q'.
Proof. intros E F b [F1 F2]. split; [unfold full_pending; by rewrite E|by apply F]. Qed.

(** A pool of which only the queue and the index changed. *)
Definition queue_only p p' : Prop := exists q al l, p' = set_queue q (set_all al l p).

Lemma queue_only_refl p : queue_only p p.
Proof. exists (queue p), (all p), (priced p). by destruct p. Qed.

Lemma queue_only_trans p q r : queue_only p q -> queue_only q r -> queue_only p r.
Proof. intros (? & ? & ? & ->) (? & ? & ? & ->). by eexists _, _, _. Qed.

Lemma queue_only_same p p' : queue_only p p' -> same p p' /\ pending p' = pending p /\ pendingState p' = pendingState p.
Proof. by intros (? & ? & ? & ->). Qed.

Lemma place_nil tx L : place tx L <> [].
Proof. destruct L as [|t L]; [done|]. cbn. destruct (_ <? _); [done|]. by destruct (_ =? _). Qed.

Lemma place_id tx L : ascending L -> by_nonces L !! nonce tx = None -> nonce tx ∉ map nonce L.
Proof. intros S. by rewrite by_nonces_none. Qed.

Lemma queued_list s m F a : lists_hold s m F -> tl_holds (default (newTxList s) (m !! a)) (F a) /\ strict (default (newTxList s) (m !! a)) = s.
Proof. intros H. specialize (H a). destruct (m !! a) as [l|]; cbn [default]; [done|]. rewrite H. split; [apply tl_holds_new|done]. Qed.

Lemma lookup_insert_is_Some_ne {A} (m : gmap bytes A) a b x : b <> a -> is_Some (<[a := x]> m !! b) -> is_Some (m !! b).
Proof. intros N. by rewrite lookup_insert_ne. Qed.

Lemma from_of_sender s tx a : sender s tx = Some a -> from_of s tx = a.
Proof. unfold from_of. by intros ->. Qed.

Lemma enqueueTx_inv ex X p P Q a tx :
  inv ex X p P Q -> enters p a tx -> nonce tx ∉ map nonce (P a) ->
  (exists p', enqueueTx (txhash tx) tx p = Ok (p', inl ErrReplaceUnderpriced) /\ inv ex X p' P Q /\ nonce tx ∈ map nonce (Q a) /\
     queue_only p p' /\ all p' = all p /\ forall b, full_queue p Q b -> full_queue p' Q b) \/
  (exists p', let Q' := upd a (place tx (Q a)) Q in
     enqueueTx (txhash tx) tx p = Ok (p', inr (bool_decide (nonce tx ∈ map nonce (Q a)))) /\ inv ex X p' P Q' /\ queue_only p p' /\
     all p' ⊆ <[txhash tx := tx]> (all p) /\ (nonce tx ∉ map nonce (Q a) -> all p' = <[txhash tx := tx]> (all p)) /\ forall b, full_queue p Q b -> full_queue p' Q' b).
Proof.
  intros I En Np. unfold enqueueTx. go_step. rewrite (from_of_sender _ _ a (en_sender _ _ _ En)). go_step.
  set (l := default (newTxList false) (queue p !! a)). set (p1 := set_queue (<[a := l]> (queue p)) p).
  destruct (queued_list _ _ _ a (iv_queue _ _ _ _ _ I)) as [Hl Sl]. fold l in Hl, Sl. pose proof (lists_sorted _ _ _ a (iv_queue _ _ _ _ _ I)) as Sq.
  assert (El : queue p1 !! a = Some l) by apply lookup_insert_eq.
  assert (I1 : inv ex X p1 P Q).
  { eapply (inv_ext _ _ _ P (upd a (Q a) Q)); [by apply inv_cut_queue|done|]. intros b. by destruct (upd_cases a (Q a) Q b) as [[-> ->]|[_ ->]]. }
  destruct (tl_Add_holds l (Q a) tx (PriceBump (tp_config p)) Hl (en_nonce _ _ _ En)) as [(old & Ho & En' & _ & Ea)|(l' & Ea & Hl' & Sl' & _)].
  - left. eexists. split.
    { rewrite (go_bind_ok _ _ _ _ _ (on_queue_total a _ p1 l _ l El Ea)). reflexivity. }
    rewrite <- En'. split; [|split; [by apply nonce_in|split; [by eexists _, (all p), (priced p)|split; [done|]]]].
    + eapply (inv_ext _ _ _ P (upd a (Q a) Q)); [by apply inv_cut_queue|done|]. intros b. by destruct (upd_cases a (Q a) Q b) as [[-> ->]|[_ ->]].
    + intros b F2. unfold full_queue. cbn. intros Hs. destruct (decide (b = a)) as [->|Nb]; [intros Eq; rewrite Eq in Ho; by apply elem_of_nil in Ho|].
      apply F2. apply (lookup_insert_is_Some_ne _ a b l); [done|]. by apply (lookup_insert_is_Some_ne _ a b l).
  - right. eexists. cbv zeta. split.
    { rewrite (go_bind_ok _ _ _ _ _ (on_queue_total a _ p1 l _ l' El Ea)). cbn beta iota. cbn [negb].
      rewrite entered_run. unfold mret, go_ret. f_equal. f_equal. f_equal. apply bool_decide_ext. rewrite <- not_eq_None_Some, by_nonces_none by done. split; [by intros ?%dec_stable|auto]. }
    assert (En1 : enters p1 a tx) by (destruct En; by split). split; [|split; [|split; [|split]]].
    + apply (inv_enter_queue ex X p1 P Q a tx l' I1 En1 Np Hl'). by rewrite Sl'.
    + unfold entered. destruct (by_nonces (Q a) !! nonce tx); by eexists _, _, _.
    + apply insert_mono. destruct (by_nonces (Q a) !! nonce tx); [apply delete_subseteq|done].
    + intros Nq. by rewrite (proj2 (by_nonces_none _ _ Sq) Nq).
    + intros b F2 Hs. destruct (upd_cases a (place tx (Q a)) Q b) as [[-> ->]|[Nb ->]]; [apply place_nil|]. apply F2.
      apply (lookup_insert_is_Some_ne _ a b l); [done|]. apply (lookup_insert_is_Some_ne _ a b l'); [done|]. by destruct (by_nonces (Q a) !! nonce tx).
Qed.

(** ** Lemmas: transactions go back to the queue *)

Definition place_all (L txs : list Transaction) : list Transaction := foldl (fun L tx => place tx L) L txs.

(** Transactions of an account that are known and on no list. *)
Record afloat p P Q a (l : list Transaction) : Prop := mkAfloat {
  af_enters : forall tx, tx ∈ l -> sender (tp_signer p) tx = Some a /\ 0 <= nonce tx < 2 ^ 64 /\ all p !! txhash tx = Some tx;
  af_nodup : NoDup (map nonce l);
  af_pending : forall tx, tx ∈ l -> nonce tx ∉ map nonce (P a);
  af_queue : forall tx, tx ∈ l -> nonce tx ∉ map nonce (Q a)
}.

Lemma afloat_enters p P Q a l tx : afloat p P Q a l -> tx ∈ l -> enters p a tx.
Proof. intros A H. destruct (af_enters _ _ _ _ _ A tx H) as (? & ? & ?). by split; [..|left]. Qed.

Lemma in_place_nonces tx L n : ascending L -> n ∈ map nonce (place tx L) <-> n = nonce tx \/ n ∈ map nonce L.
Proof.
  intros S. rewrite !list_elem_of_fmap. split.
  - intros (t & -> & [->|[H _]]%elem_of_place); [by left| |done]. right. by exists t.
  - intros [->|(t & -> & H)]; [exists tx; split; [done|]; apply elem_of_place; [done|by left]|]. destruct (decide (nonce t = nonce tx)) as [E|N].
    + exists tx. split; [done|]. apply elem_of_place; [done|by left].
    + exists t. split; [done|]. apply elem_of_place; [done|by right].
Qed.

Lemma afloat_tail p p' P Q a tx l : afloat p P Q a (tx :: l) -> ascending (Q a) -> same p p' -> all p' = all p -> afloat p' P (upd a (place tx (Q a)) Q) a l.
Proof.
  intros [E N Np Nq] S (_ & Sg & _) Al. cbn in N. apply list.NoDup_cons in N as [Nx N]. split.
  - intros t Ht. rewrite Sg, Al. apply E. by right.
  - done.
  - intros t Ht. apply Np. by right.
  - intros t Ht. rewrite upd_eq, in_place_nonces by done. intros [En|Hq]; [apply Nx; rewrite <- En; by apply nonce_in|]. apply (Nq t); [by right|done].
Qed.

Lemma postpone_run tx p p' r : enqueueTx (txhash tx) tx p = Ok (p', r) -> postpone tx p = Ok (p', inr tt).
Proof. intros E. unfold postpone. erewrite go_bind_ok; [|unfold catch; rewrite E; reflexivity]. done. Qed.

Lemma postpone_all ex X P a : forall l p Q, inv ex X p P Q -> afloat p P Q a l ->
  exists p', let Q' := upd a (place_all (Q a) l) Q in
    for_each postpone l p = Ok (p', inr tt) /\ inv ex X p' P Q' /\ queue_only p p' /\ all p' = all p /\ forall b, full_queue p Q b -> full_queue p' Q' b.
Proof.
  induction l as [|tx l IH]; intros p Q I A; cbn [for_each place_all foldl].
  - exists p. cbv zeta. split; [done|]. assert (E : forall b, Q b = upd a (Q a) Q b) by (intros b; by destruct (upd_cases a (Q a) Q b) as [[-> ->]|[_ ->]]).
    split; [by apply (inv_ext _ _ _ P Q)|]. split; [apply queue_only_refl|]. split; [done|]. intros b F. unfold full_queue. by rewrite <- E.
  - pose proof (afloat_enters _ _ _ _ _ tx A ltac:(by left)) as En.
    destruct (enqueueTx_inv ex X p P Q a tx I En) as [(p1 & _ & _ & Hq & _)|(p1 & E1 & I1 & O1 & _ & A1 & F1)]; [apply (af_pending _ _ _ _ _ A); by left| |].
    { destruct (af_queue _ _ _ _ _ A tx); [by left|done]. }
    assert (Al : all p1 = all p). { rewrite A1 by (apply (af_queue _ _ _ _ _ A); by left). apply insert_id. apply (af_enters _ _ _ _ _ A). by left. }
    destruct (IH p1 (upd a (place tx (Q a)) Q) I1) as (p2 & E2 & I2 & O2 & A2 & F2).
    { eapply afloat_tail; [done|apply (lists_sorted _ _ _ a (iv_queue _ _ _ _ _ I))|by apply queue_only_same|done]. }
    exists p2. rewrite upd_eq in *. assert (Eq : forall b, upd a (place_all (place tx (Q a)) l) (upd a (place tx (Q a)) Q) b = upd a (foldl (fun L tx => place tx L) (place tx (Q a)) l) Q b).
    { intros b. unfold upd. by destruct (decide (b = a)). }
    cbv zeta. split; [|split; [by eapply inv_ext|split; [by eapply queue_only_trans|split; [by rewrite A2|]]]].
    + go_step (postpone_run tx p p1 _ E1). exact E2.
    + intros b Fb. specialize (F2 b (F1 b Fb)). unfold full_queue in *. by rewrite Eq in F2.
Qed.

(** ** Lemmas: removing a transaction *)

Definition lowered a (n : Z) p : TxPool := if n <? next_nonce p a then set_pendingState (ms_SetNonce a n (pendingState p)) p else p.

Lemma lower_nonce_run a n p : lower_nonce a n p = Ok (lowered a n p, inr tt).
Proof. done. Qed.

Lemma lowered_only a n p : exists m, lowered a n p = set_pendingState m p.
Proof. unfold lowered. destruct (_ <? _); [by eexists|]. exists (pendingState p). by destruct p. Qed.

Lemma lowered_nonce a n p b : next_nonce (lowered a n p) b = if decide (b = a) then Z.min n (next_nonce p a) else next_nonce p b.
Proof.
  unfold lowered, next_nonce at 1. destruct (Z.ltb_spec n (next_nonce p a)); cbn; case_decide; subst; [rewrite ms_set; lia|by rewrite ms_other|unfold next_nonce in *; lia|done].
Qed.

(** A change of the next nonces alone. *)
Lemma inv_nonces ex X p P Q m : inv ex X p P Q -> inv false X (set_pendingState m p) P Q.
Proof. intros []. by split. Qed.

Lemma lowered_same a n p : same p (lowered a n p) /\ all (lowered a n p) = all p /\ pending (lowered a n p) = pending p /\ queue (lowered a n p) = queue p.
Proof. destruct (lowered_only a n p) as [m ->]. done. Qed.

(** The pending transactions from nonce [n] on go, and the next nonce with them. *)
Lemma executable_lowered X p P P' Q p' a n :
  executable p P -> n ∈ map nonce (P a) -> inv false X p' P' Q -> same p p' -> pendingState p' = pendingState p ->
  P' a = List.filter (before n) (P a) -> (forall b, b <> a -> P' b = P b) -> executable (lowered a n p') P'.
Proof.
  intros Ex Hn I (_ & _ & Ec & _) Em Ea Eb b. destruct (lowered_same a n p') as [(_ & _ & Ec' & _) _]. unfold state_nonce. rewrite Ec', Ec. rewrite lowered_nonce.
  unfold next_nonce. rewrite Em. case_decide as D.
  - subst b. destruct (Ex a) as [C N]. apply (contiguous_in _ _ _ C) in Hn. rewrite Ea, (proj1 (contiguous_before _ _ n C ltac:(lia))). split; [by apply contiguous_take|].
    rewrite length_take. unfold next_nonce in N. rewrite N. fold (state_nonce p a). lia.
  - rewrite Eb by done. apply Ex.
Qed.

(** A transaction of the index is not listed once its nonce is not. *)
Lemma unlisted_nonce ex X p P Q P' Q' h tx a :
  inv ex X p P Q -> all p !! h = Some tx -> sender (tp_signer p) tx = Some a ->
  (forall b t, t ∈ P' b ++ Q' b -> t ∈ P b ++ Q b) -> nonce tx ∉ map nonce (P' a ++ Q' a) -> forall b t, t ∈ P' b ++ Q' b -> txhash t <> h.
Proof.
  intros I E Sx Sub N b t Ht Eh. pose proof (iv_listed _ _ _ _ _ I b t (Sub b t Ht)) as L. rewrite Eh, E in L. injection L as <-.
  pose proof (iv_sender _ _ _ _ _ I b tx (Sub b tx Ht)) as Sb. assert (b = a) as -> by congruence. by apply N, nonce_in.
Qed.

Lemma before_not n L : n ∉ map nonce (List.filter (before n) L).
Proof. intros (t & -> & [_ H]%elem_of_filter_list)%list_elem_of_fmap. unfold before in H. lia. Qed.

Lemma forgotten_room h p : all (forgotten h p) = base.delete h (all p).
Proof. done. Qed.

(** The state after the transaction and those that come after it left the pending list. *)
Lemma removed_pending ex X p P Q h tx a l L :
  inv ex X p P Q -> all p !! h = Some tx -> sender (tp_signer p) tx = Some a -> tl_holds l L -> strict l = true -> L = List.filter (before (nonce tx)) (P a) ->
  nonce tx ∈ map nonce (P a) -> inv false X (set_pending (<[a := l]> (pending p)) (forgotten h p)) (upd a L P) Q.
Proof.
  intros I Eh Sx Hl Sl EL Hn. assert (Sub : forall t, t ∈ L -> t ∈ P a) by (intros t; rewrite EL; by intros [Ht _]%elem_of_filter_list).
  pose proof (inv_cut_pending ex X p P Q a l L I Hl Sl Sub) as I1. apply (inv_forget false X (set_pending (<[a := l]> (pending p)) p) _ _ h I1).
  apply (unlisted_nonce ex X p P Q _ _ h tx a); [done|done|done| |].
  - intros b t [Ht|Ht]%elem_of_app; apply elem_of_app; [left|by right]. apply elem_upd in Ht as [[-> Ht]|[_ Ht]]; [by apply Sub|done].
  - rewrite upd_eq, EL, map_app, elem_of_app. intros [H|H]; [by apply (before_not (nonce tx) (P a))|]. by apply (iv_apart _ _ _ _ _ I a (nonce tx)).
Qed.

Lemma Permutation_NoDup_nonces l L (f : Transaction -> bool) : ascending L -> l ≡ₚ List.filter f L -> NoDup (map nonce l).
Proof. intros S ->. by apply ascending_nonces, ascending_filter. Qed.

Lemma afloat_invalids ex X p P Q h tx a invalids p1 L :
  inv ex X p P Q -> all p !! h = Some tx -> sender (tp_signer p) tx = Some a -> nonce tx ∈ map nonce (P a) ->
  invalids ≡ₚ List.filter (fun t => nonce tx <? nonce t) (P a) -> L = List.filter (before (nonce tx)) (P a) ->
  tp_signer p1 = tp_signer p -> all p1 = base.delete h (all p) -> afloat p1 (upd a L P) Q a invalids.
Proof.
  intros I Eh Sx Hn Pi EL Sg Al. pose proof (lists_sorted _ _ _ a (iv_pending _ _ _ _ _ I)) as S. split.
  - intros t Ht. rewrite Pi in Ht. apply elem_of_filter_list in Ht as [Ht Lt]. rewrite Sg, Al. assert (Hb : t ∈ P a ++ Q a) by (apply elem_of_app; by left).
    split; [by apply (iv_sender _ _ _ _ _ I)|]. split; [by apply (lists_nonces _ _ _ a _ (iv_pending _ _ _ _ _ I))|]. pose proof (iv_listed _ _ _ _ _ I a t Hb) as L1.
    rewrite lookup_delete_ne; [done|]. intros E. rewrite <- E, Eh in L1. injection L1 as <-. lia.
  - by apply (Permutation_NoDup_nonces _ (P a) (fun t => nonce tx <? nonce t)).
  - intros t Ht. rewrite Pi in Ht. apply elem_of_filter_list in Ht as [Ht Lt]. rewrite upd_eq, EL. intros (t' & En & [_ H]%elem_of_filter_list)%list_elem_of_fmap. unfold before in H. lia.
  - intros t Ht Hq. rewrite Pi in Ht. apply elem_of_filter_list in Ht as [Ht _]. by apply (iv_apart _ _ _ _ _ I a (nonce t)); [apply nonce_in|].
Qed.

Lemma removeTx_pending ex X p P Q h tx a :
  inv ex X p P Q -> all p !! h = Some tx -> sender (tp_signer p) tx = Some a -> nonce tx ∈ map nonce (P a) ->
  exists p' Q', let P' := upd a (List.filter (before (nonce tx)) (P a)) P in
    removeTx h p = Ok (p', inr tt) /\ inv ex X p' P' Q' /\ same p p' /\ all p' = base.delete h (all p) /\ keeps_full p P Q p' P' Q'.
Proof.
  intros I Eh Sx Hn. unfold removeTx. go_step. rewrite Eh. cbv zeta. rewrite (from_of_sender _ _ a Sx). go_step (forget_run h p).
  destruct (pending p !! a) as [l|] eqn:El; [|rewrite (lists_hold_none _ _ _ a (iv_pending _ _ _ _ _ I) El) in Hn; by apply elem_of_nil in Hn].
  destruct (lists_hold_some _ _ _ a l (iv_pending _ _ _ _ _ I) El) as [Hl Sl]. destruct (tl_Remove_holds l (P a) tx Hl Hn) as (invalids & l' & Er & Pi & Hl' & Sl').
  cbn beta iota. rewrite Sl in Pi, Hl'. unfold without in Hl'. set (L := List.filter (before (nonce tx)) (P a)) in *.
  rewrite (go_bind_ok _ _ _ _ _ (on_pending_run a (tl_Remove tx) (forgotten h p) l _ l' El Er)). cbn beta iota. cbn [pending forgotten set_all].
  set (p1 := set_pending (<[a := l']> (pending p)) (forgotten h p)).
  assert (I1 : inv false X p1 (upd a L P) Q) by (apply (removed_pending ex X p P Q h tx a l' L); try done; by rewrite Sl').
  go_step. change (pending p1) with (<[a := l']> (pending p)). rewrite lookup_insert_eq, (tl_Empty_holds _ _ Hl'). destruct (bool_decide_reflect (L = [])) as [En|Ne].
  - go_step. rewrite lower_nonce_run. set (p2 := set_beats (base.delete a (beats p1)) (set_pending (base.delete a (pending p1)) p1)). assert (I2 : inv false X p2 (upd a L P) Q).
    { destruct I1. split; try done. cbn. apply lists_hold_delete; [done|]. by rewrite upd_eq. }
    exists (lowered a (nonce tx) p2), Q. cbv zeta. destruct (lowered_same a (nonce tx) p2) as (S2 & A2 & P2 & Q2). split; [done|]. split; [|split; [|split]].
    + apply inv_executable; [destruct (lowered_only a (nonce tx) p2) as [m ->]; by eapply inv_nonces|]. intros ->. apply (executable_lowered X p P _ Q p2); try done; [by apply I|apply upd_eq|intros; by apply upd_ne].
    + by etrans; [|exact S2].
    + by rewrite A2.
    + intros b [F1 F2]. unfold full, full_pending, full_queue. rewrite P2, Q2. split; [|done]. cbn. rewrite delete_insert_eq. intros Hs. destruct (decide (b = a)) as [->|Nb]; [rewrite lookup_delete_eq in Hs; by destruct Hs|].
      rewrite upd_ne by done. apply F1. by rewrite lookup_delete_ne in Hs.
  - destruct (postpone_all false X (upd a L P) a invalids p1 Q I1) as (p2 & E2 & I2 & O2 & A2 & F2).
    { by apply (afloat_invalids ex X p P Q h tx a). }
    rewrite (go_bind_ok _ _ _ _ _ E2). cbn beta iota. rewrite lower_nonce_run. destruct (queue_only_same _ _ O2) as (S2 & P2 & M2).
    exists (lowered a (nonce tx) p2). eexists. cbv zeta. destruct (lowered_same a (nonce tx) p2) as (S3 & A3 & P3 & Q3). split; [done|]. split; [|split; [|split]].
    + apply inv_executable; [destruct (lowered_only a (nonce tx) p2) as [m ->]; by eapply inv_nonces|]. intros ->.
      eapply (executable_lowered X p P); [by apply I|done|exact I2|done|done|apply upd_eq|intros; by apply upd_ne].
    + etrans; [|exact S3]. done.
    + by rewrite A3, A2.
    + intros b [F1 F1']. assert (Fb : full p1 (upd a L P) Q b).
      { split; [|done]. intros Hs. destruct (upd_cases a L P b) as [[-> ->]|[Nb ->]]; [done|]. apply F1. by apply (lookup_insert_is_Some_ne _ a b l'). }
      apply (keeps_queue p1 _ _ p2 _ P2 F2) in Fb. unfold full, full_pending, full_queue in *. by rewrite P3, Q3.
Qed.

Definition nonce_is (n : Z) tx : bool := nonce tx =? n.

Lemma nonce_is_not n L : n ∉ map nonce (keep (nonce_is n) L).
Proof. intros (t & -> & [_ H]%elem_of_keep)%list_elem_of_fmap. unfold nonce_is in H. lia. Qed.

Lemma keep_absent n L : n ∉ map nonce L -> keep (nonce_is n) L = L.
Proof.
  intros N. apply keep_all, filter_none, list.Forall_forall. intros t Ht. unfold nonce_is. apply Z.eqb_neq. intros <-. by apply N, nonce_in.
Qed.

(** The end of a change to a list of the queue: the entry goes with the last transaction. *)
Definition tidied a p : TxPool :=
  match queue p !! a with Some l => if tl_Empty l then set_queue (base.delete a (queue p)) p else p | None => p end.

Lemma tidied_inv ex X p P Q a : inv ex X p P Q ->
  inv ex X (tidied a p) P Q /\ exists q, tidied a p = set_queue q p /\ (forall b, b <> a -> q !! b = queue p !! b) /\ (is_Some (q !! a) -> Q a <> []).
Proof.
  intros I. unfold tidied. destruct (queue p !! a) as [l|] eqn:El.
  - destruct (lists_hold_some _ _ _ a l (iv_queue _ _ _ _ _ I) El) as [Hl _]. rewrite (tl_Empty_holds _ _ Hl). destruct (bool_decide_reflect (Q a = [])) as [E|N].
    + split; [destruct I; split; try done; by apply lists_hold_delete|]. eexists. split; [done|]. split; [intros b Nb; by rewrite lookup_delete_ne|]. rewrite lookup_delete_eq. by intros [].
    + split; [done|]. exists (queue p). split; [by destruct p|]. by split.
  - split; [done|]. exists (queue p). split; [by destruct p|]. split; [done|]. rewrite El. by intros [].
Qed.

Lemma set_pending_id a l p : pending p !! a = Some l -> set_pending (<[a := l]> (pending p)) p = p.
Proof. intros E. rewrite insert_id by done. by destruct p. Qed.

(** What concerns the other accounts. *)
Definition elsewhere a p p' : Prop := pending p' = pending p /\ pendingState p' = pendingState p /\ locals p' = locals p /\ forall b, b <> a -> queue p' !! b = queue p !! b.

Lemma removeTx_queue ex X p P Q h tx a :
  inv ex X p P Q -> all p !! h = Some tx -> sender (tp_signer p) tx = Some a -> nonce tx ∉ map nonce (P a) ->
  exists p', let Q' := upd a (keep (nonce_is (nonce tx)) (Q a)) Q in
    removeTx h p = Ok (p', inr tt) /\ inv ex X p' P Q' /\ same p p' /\ all p' = base.delete h (all p) /\ keeps_full p P Q p' P Q' /\ elsewhere a p p'.
Proof.
  intros I Eh Sx Nn. unfold removeTx. go_step. rewrite Eh. cbv zeta. rewrite (from_of_sender _ _ a Sx). go_step (forget_run h p). set (L := keep (nonce_is (nonce tx)) (Q a)).
  assert (U : forall b t, t ∈ P b ++ upd a L Q b -> txhash t <> h).
  { apply (unlisted_nonce ex X p P Q _ _ h tx a); [done..| |].
    - intros b t [Ht|Ht]%elem_of_app; apply elem_of_app; [by left|right]. apply elem_upd in Ht as [[-> Ht]|[_ Ht]]; [by apply elem_of_keep in Ht as [Ht _]|done].
    - rewrite upd_eq, map_app, elem_of_app. intros [H|H]; [done|by apply (nonce_is_not (nonce tx) (Q a))]. }
  erewrite go_bind_ok.
  2:{ instantiate (1 := (false, [])). instantiate (1 := forgotten h p). destruct (pending p !! a) as [l|] eqn:El; [|done].
      destruct (lists_hold_some _ _ _ a l (iv_pending _ _ _ _ _ I) El) as [Hl Sl].
      rewrite (on_pending_run a (tl_Remove tx) (forgotten h p) l _ l El (tl_Remove_absent l (P a) tx Hl Nn)). f_equal. f_equal. by apply (set_pending_id a l (forgotten h p)). }
  cbn beta iota. destruct (queue p !! a) as [l|] eqn:El.
  - destruct (lists_hold_some _ _ _ a l (iv_queue _ _ _ _ _ I) El) as [Hl Sl].
    assert (R : exists r l', tl_Remove tx l = Ok (r, l') /\ tl_holds l' L /\ strict l' = false).
    { destruct (decide (nonce tx ∈ map nonce (Q a))) as [Hn|Hn].
      - destruct (tl_Remove_holds l (Q a) tx Hl Hn) as (i & l' & -> & _ & Hl' & Sl'). rewrite Sl in Hl'. eexists _, l'. split; [done|]. split; [exact Hl'|by rewrite Sl'].
      - rewrite (tl_Remove_absent l (Q a) tx Hl Hn). eexists _, l. split; [done|]. unfold L. by rewrite keep_absent. }
    destruct R as (r & l' & Er & Hl' & Sl'). go_step (on_queue_run a (tl_Remove tx) (forgotten h p) l _ l' El Er).
    set (p1 := set_queue (<[a := l']> (queue (forgotten h p))) (forgotten h p)).
    assert (I1 : inv ex X p1 P (upd a L Q)).
    { change p1 with (forgotten h (set_queue (<[a := l']> (queue p)) p)). apply inv_forget; [|done]. apply inv_cut_queue; [done..|]. intros t [Ht _]%elem_of_keep. done. }
    destruct (tidied_inv ex X p1 P _ a I1) as (I2 & q & Eq & Oq & Fq). exists (tidied a p1). cbv zeta. split; [done|]. split; [done|]. rewrite Eq. split; [done|]. split; [done|]. split.
    + intros b [F1 F2]. split; [done|]. cbn. intros Hs. destruct (decide (b = a)) as [->|Nb]; [by apply Fq|]. rewrite upd_ne by done. apply F2. rewrite Oq in Hs by done. by apply (lookup_insert_is_Some_ne _ a b l').
    + split; [done|]. split; [done|]. split; [done|]. intros b Nb. cbn. rewrite Oq by done. cbn. by rewrite lookup_insert_ne.
  - exists (forgotten h p). cbv zeta. split; [done|]. assert (EQ : forall b, Q b = upd a L Q b).
    { intros b. destruct (upd_cases a L Q b) as [[-> ->]|[_ ->]]; [|done]. unfold L. by rewrite (lists_hold_none _ _ _ a (iv_queue _ _ _ _ _ I) El). }
    split; [eapply inv_ext; [apply inv_forget; [done|]|done|done]; intros b t; rewrite EQ; apply U|]. split; [done|]. split; [done|]. split; [|done].
    intros b F. unfold full, full_queue. rewrite <- EQ. exact F.
Qed.

(** Removing a transaction by its hash, wherever it is. *)
Lemma removeTx_inv ex X p P Q h : inv ex X p P Q ->
  exists p' P' Q', removeTx h p = Ok (p', inr tt) /\ inv ex X p' P' Q' /\ same p p' /\ all p' = base.delete h (all p) /\ keeps_full p P Q p' P' Q'.
Proof.
  intros I. destruct (all p !! h) as [tx|] eqn:E.
  - destruct (iv_all _ _ _ _ _ I h tx E) as (_ & [a Sx] & _). destruct (decide (nonce tx ∈ map nonce (P a))) as [Hn|Hn].
    + destruct (removeTx_pending ex X p P Q h tx a I E Sx Hn) as (p' & Q' & R). exists p'. eexists _, Q'. exact R.
    + destruct (removeTx_queue ex X p P Q h tx a I E Sx Hn) as (p' & R1 & R2 & R3 & R4 & R5 & _). exists p', P. by eexists.
  - exists p, P, Q. unfold removeTx. go_step. rewrite E. split; [done|]. split; [done|]. split; [done|]. split; [by rewrite delete_id|]. by intros b.
Qed.

(** A transaction that left the index need not be in the heap. *)
Lemma inv_exempt ex X p P Q tx : inv ex (tx :: X) p P Q -> all p !! txhash tx = None -> inv ex X p P Q.
Proof.
  intros [Ip Iq Is Il Ia Iall Ih Ipr Ir Irun] E. split; try done. intros h t Et. destruct (Ipr h t Et) as [H|[->|H]%list.elem_of_cons]; [by left| |by right].
  destruct (Iall h tx Et) as [<- _]. congruence.
Qed.

Lemma remove_all_inv ex X : forall l p P Q, inv ex (l ++ X) p P Q ->
  exists p' P' Q', remove_all l p = Ok (p', inr tt) /\ inv ex X p' P' Q' /\ same p p' /\ all p' ⊆ all p /\ keeps_full p P Q p' P' Q'.
Proof.
  induction l as [|tx l IH]; intros p P Q I; [exists p, P, Q; split; [done|]; split; [done|]; split; [done|]; split; [done|]; by intros b|].
  unfold remove_all. cbn [for_each]. destruct (removeTx_inv ex _ p P Q (txhash tx) I) as (p1 & P1 & Q1 & E1 & I1 & S1 & A1 & F1). go_step E1.
  destruct (IH p1 P1 Q1) as (p2 & P2 & Q2 & E2 & I2 & S2 & A2 & F2); [apply (inv_exempt ex _ _ _ _ tx); [done|]; rewrite A1; apply lookup_delete_eq|].
  exists p2, P2, Q2. split; [exact E2|]. split; [done|]. split; [by etrans|]. split; [etrans; [exact A2|]; rewrite A1; apply delete_subseteq|]. intros b F. by apply F2, F1.
Qed.

(** ** Lemmas: adding a transaction *)

Lemma on_priced_run {A} (f : txPricedList -> outcome unit (A * txPricedList)) (e : unit -> pool_error) p x l :
  f (priced p) = Ok (x, l) -> on_part priced (fun l p => set_all (all p) l p) e f p = Ok (set_all (all p) l p, inr x).
Proof. intros E. unfold on_part. by rewrite E. Qed.

(** The heap after a pass: what it dropped is exempt. *)
Lemma inv_heap_pass ex X p P Q drop gone l :
  inv ex X p P Q -> heap by_price (pitems l) -> drop ++ gone ++ pitems l ≡ₚ pitems (priced p) -> Forall (fun t => known (all p) t = false) gone ->
  inv ex (drop ++ X) (set_all (all p) l p) P Q.
Proof.
  intros I Hl Pl Fg. apply (inv_index ex X); [done|done|apply I|apply I|apply I|]. intros h t E.
  destruct (iv_priced _ _ _ _ _ I h t E) as [H|H]; [|right; apply elem_of_app; by right]. rewrite <- Pl, !elem_of_app in H. destruct H as [H|[H|H]].
  - right. apply elem_of_app. by left.
  - pose proof (proj1 (list.Forall_forall _ _) Fg t H) as K. destruct (iv_all _ _ _ _ _ I h t E) as [<- _]. unfold known in K. rewrite E in K. by rewrite bool_decide_true in K.
  - by left.
Qed.

Lemma make_room_inv ex p P Q tx : inv ex [] p P Q -> sane p ->
  exists p' r P' Q', make_room tx p = Ok (p', r) /\ inv ex [] p' P' Q' /\ same p p' /\ all p' ⊆ all p /\ keeps_full p P Q p' P' Q' /\
    (r = inl ErrUnderpriced \/ r = inr tt).
Proof.
  intros I Sn. unfold make_room. go_step. set (slots := u64 _). set (n := Z.of_nat (base.size (all p))). destruct (Z.leb_spec slots n) as [Full|].
  2:{ exists p. eexists _, P, Q. split; [done|]. split; [done|]. split; [done|]. split; [done|]. split; [by intros b|by right]. }
  assert (U : exists gone l u, pl_Underpriced (all p) (is_local p) tx (priced p) = Ok (u, l) /\ heap by_price (pitems l) /\ gone ++ pitems l ≡ₚ pitems (priced p) /\ Forall (fun x => known (all p) x = false) gone).
  { destruct (is_local p tx) eqn:Lc.
    - exists [], (priced p), false. unfold pl_Underpriced. rewrite Lc. split; [done|]. split; [apply I|]. by split.
    - destruct (pl_Underpriced_holds (all p) (is_local p) tx (priced p) (iv_heap _ _ _ _ _ I) Lc) as (gone & l & u & E & H & Pl & Fg & _). by exists gone, l, u. }
  destruct U as (gone & l & u & E & Hl & Pl & Fg). go_step (on_priced_run _ (fun _ => ErrUnderpriced) p _ l E). set (p1 := set_all (all p) l p).
  pose proof (inv_heap_pass ex [] p P Q [] gone l I Hl Pl Fg) as I1. change (set_all (all p) l p) with p1 in I1. destruct u.
  { exists p1. eexists _, P, Q. split; [done|]. split; [done|]. split; [done|]. split; [done|]. split; [by intros b|by left]. }
  assert (Hc : 0 <= n - i64 (u64 (slots - 1))).
  { pose proof (iv_room _ _ _ _ _ I). pose proof (u64_range (GlobalSlots (tp_config p) + GlobalQueue (tp_config p))) as R. fold slots in R. unfold is_u64 in R.
    rewrite i64_u64, i64_small by (unfold is_i64; lia). lia. }
  destruct (discard_loop_spec (all p) (is_local p) None (S (length (pitems l))) (Some (n - i64 (u64 (slots - 1)))) l Hl ltac:(lia)) as (drop & save & gone' & l1 & Ed & D); [by intros ? [= <-]|].
  destruct (discards_pushed _ _ _ _ _ _ _ _ _ D) as (Hh & Pp & _).
  assert (Ec : pl_Discard (all p) (is_local p) (n - i64 (u64 (slots - 1))) l = Ok (drop, push_all save l1)) by (unfold pl_Discard; rewrite (proj2 (Z.ltb_ge _ _)), Ed by done; done).
  go_step (on_priced_run _ (fun _ => ErrUnderpriced) p1 _ _ Ec). pose proof (inv_heap_pass ex [] p1 P Q drop gone' _ I1 Hh Pp (dc_gone _ _ _ _ _ _ _ _ _ D)) as I2.
  destruct (remove_all_inv ex [] drop _ P Q I2) as (p3 & P3 & Q3 & E3 & I3 & S3 & A3 & F3). exists p3. eexists _, P3, Q3. split; [exact E3|]. split; [done|]. split; [done|]. split; [done|]. split; [|by right].
  intros c F. by apply F3.
Qed.

Lemma validateTx_sender tx local p : validateTx tx local p = None -> is_Some (sender (tp_signer p) tx).
Proof. unfold validateTx. repeat (destruct (_ <? _); [done|]). by destruct (sender _ _). Qed.

Lemma place_same tx L : ascending L -> nonce tx ∈ map nonce L -> map nonce (place tx L) = map nonce L.
Proof.
  induction L as [|t L IH]; intros S H; [by apply elem_of_nil in H|]. cbn [place]. destruct (Z.ltb_spec (nonce t) (nonce tx)).
  - cbn. f_equal. apply IH; [by apply (ascending_tail t)|]. cbn in H. apply list.elem_of_cons in H as [H|H]; [lia|done].
  - destruct (Z.eqb_spec (nonce t) (nonce tx)) as [E|N]; [cbn; by rewrite E|]. exfalso. cbn in H. apply list.elem_of_cons in H as [H|(y & Ey & Hy)%list_elem_of_fmap]; [lia|].
    pose proof (ascending_head t L y S Hy). lia.
Qed.

(** Nothing of the index but [tx] is new. *)
Lemma journalTx_inv ex X p P Q a tx : inv ex X p P Q ->
  exists p', journalTx a tx p = Ok (p', inr tt) /\ inv ex X p' P Q /\ same p p' /\ all p' = all p /\ keeps_full p P Q p' P Q.
Proof.
  intros I. unfold journalTx, modify. eexists. split; [done|]. destruct (tp_journal p); [|split; [done|]; split; [done|]; split; [done|]; by intros b]. destruct (bool_decide _).
  - split; [by destruct I|]. split; [done|]. split; [done|]. by intros b.
  - split; [done|]. split; [done|]. split; [done|]. by intros b.
Qed.

(** An addition that replaces a pending transaction. *)
Lemma add_pending ex p P Q a tx l : inv ex [] p P Q -> enters p a tx -> pending p !! a = Some l -> nonce tx ∈ map nonce (P a) ->
  (exists l', tl_Add tx (PriceBump (tp_config p)) l = (false, None, l') /\ l' = l) \/
  (exists o l', tl_Add tx (PriceBump (tp_config p)) l = (true, Some o, l') /\
     let p' := entered (Some o) tx (set_pending (<[a := l']> (pending p)) p) in
     let P' := upd a (place tx (P a)) P in inv ex [] p' P' Q /\ keeps_full p P Q p' P' Q).
Proof.
  intros I En El Hn. destruct (lists_hold_some _ _ _ a l (iv_pending _ _ _ _ _ I) El) as [Hl Sl]. pose proof (lists_sorted _ _ _ a (iv_pending _ _ _ _ _ I)) as S.
  destruct (tl_Add_holds l (P a) tx (PriceBump (tp_config p)) Hl (en_nonce _ _ _ En)) as [(old & _ & _ & _ & E)|(l' & E & Hl' & Sl' & _)]; [left; by exists l|right].
  destruct (by_nonces (P a) !! nonce tx) as [o|] eqn:Eo; [|by apply by_nonces_none in Eo]. exists o, l'. split; [done|]. cbv zeta. split.
  - apply inv_executable.
    + rewrite <- Eo. apply (inv_enter_pending ex); [done|done|intros Hq; by apply (iv_apart _ _ _ _ _ I a (nonce tx))|done|by rewrite Sl'].
    + intros ->. intros b. destruct (iv_run _ _ _ _ _ I eq_refl b) as [C N]. destruct (upd_cases a (place tx (P a)) P b) as [[-> ->]|[_ ->]]; [|done].
      unfold contiguous. rewrite place_same by done. assert (Ln : length (place tx (P a)) = length (P a)) by (by rewrite <- (length_map nonce), place_same, length_map). rewrite Ln. by split.
  - intros b [F1 F2]. split; [|done]. intros Hs. destruct (upd_cases a (place tx (P a)) P b) as [[-> ->]|[Nb ->]]; [apply place_nil|]. apply F1. by apply (lookup_insert_is_Some_ne _ a b l').
Qed.

(** The result of an addition: refused, or in a list of its sender. *)
Definition added p tx (r : pool_error + bool) p' P' Q' : Prop :=
  match r with
  | inl _ => all p' ⊆ all p
  | inr _ => all p' ⊆ <[txhash tx := tx]> (all p) /\ all p' !! txhash tx = Some tx /\ exists a, sender (tp_signer p) tx = Some a /\ tx ∈ P' a ++ Q' a
  end.

Lemma place_in tx L : ascending L -> tx ∈ place tx L.
Proof. intros S. apply elem_of_place; [done|by left]. Qed.

Lemma add_replacing ex p P Q a tx l : inv ex [] p P Q -> enters p a tx -> pending p !! a = Some l -> nonce tx ∈ map nonce (P a) ->
  exists p' r P',
    ('(inserted, old) ← on_pending a (total (tl_Add tx (PriceBump (tp_config p))));
     if negb inserted then throw ErrReplaceUnderpriced
     else
       replaced old;; remember (txhash tx) tx;; journalTx a tx;;
       modify (fun p => set_sent (tx :: tp_sent p) p);;
       mret (bool_decide (is_Some old)) : go TxPool pool_error bool) p = Ok (p', r) /\
    inv ex [] p' P' Q /\ same p p' /\ keeps_full p P Q p' P' Q /\ added p tx r p' P' Q.
Proof.
  intros I En El Hn. destruct (add_pending ex p P Q a tx l I En El Hn) as [(l' & E & ->)|(o & l' & E & I' & F')]; go_step (on_pending_total a _ p l _ _ El E).
  - rewrite set_pending_id by done. exists p. eexists _, P. split; [done|]. split; [done|]. split; [done|]. split; [by intros b|]. by cbn.
  - cbn [negb]. rewrite entered_run. set (p1 := entered _ _ _) in *. destruct (journalTx_inv ex [] p1 _ Q a tx I') as (p2 & E2 & I2 & S2 & A2 & F2). go_step E2. go_step.
    eexists _, _, (upd a (place tx (P a)) P). split; [done|]. split; [by destruct I2|]. split; [exact S2|]. split; [intros b F; by apply F2, F'|]. cbn [added]. split.
    + cbn. rewrite A2. apply insert_mono, delete_subseteq.
    + split; [cbn; rewrite A2; apply lookup_insert_eq|]. exists a. split; [apply En|]. rewrite upd_eq. apply elem_of_app. left. apply place_in, (lists_sorted _ _ _ a (iv_pending _ _ _ _ _ I)).
Qed.

Lemma add_queueing ex p P Q a tx (local : bool) : inv ex [] p P Q -> enters p a tx -> nonce tx ∉ map nonce (P a) ->
  exists p' r Q',
    (replace ← enqueueTx (txhash tx) tx;
     modify (fun p => if local then set_locals ({[a]} ∪ locals p) (tp_journal p) p else p);;
     journalTx a tx;;
     mret replace : go TxPool pool_error bool) p = Ok (p', r) /\
    inv ex [] p' P Q' /\ same p p' /\ keeps_full p P Q p' P Q' /\ added p tx r p' P Q'.
Proof.
  intros I En Hn. destruct (enqueueTx_inv ex [] p P Q a tx I En Hn) as [(p1 & E1 & I1 & _ & O1 & A1 & F1)|(p1 & E1 & I1 & O1 & A1 & _ & F1)]; destruct (queue_only_same _ _ O1) as (S1 & P1 & _).
  - rewrite (go_bind_err _ _ _ _ _ E1). exists p1. eexists _, Q. split; [done|]. split; [done|]. split; [done|]. split; [by apply keeps_queue|]. cbn. by rewrite A1.
  - go_step E1. go_step. set (p2 := if local then _ else _). assert (I2 : inv ex [] p2 P (upd a (place tx (Q a)) Q)) by (unfold p2; destruct local; [by destruct I1|done]).
    destruct (journalTx_inv ex [] p2 _ _ a tx I2) as (p3 & E3 & I3 & S3 & A3 & F3). go_step E3. assert (A2 : all p2 = all p1) by (unfold p2; by destruct local).
    exists p3. eexists _, _. split; [done|]. split; [done|]. split; [etrans; [exact S1|]; etrans; [|exact S3]; unfold p2; by destruct local|]. split.
    + intros b F. apply F3. apply (keeps_queue _ _ _ _ _ P1 F1) in F. unfold p2. by destruct local.
    + cbn [added]. rewrite A3, A2. split; [done|]. assert (Ht : tx ∈ P a ++ upd a (place tx (Q a)) Q a).
      { rewrite upd_eq. apply elem_of_app. right. apply place_in, (lists_sorted _ _ _ a (iv_queue _ _ _ _ _ I)). }
      split; [by apply (iv_listed _ _ _ _ _ I1 a)|]. exists a. split; [apply En|done].
Qed.

Lemma add_inv ex p P Q tx local : inv ex [] p P Q -> sane p -> 0 <= nonce tx < 2 ^ 64 -> Z.of_nat (base.size (all p)) < 2 ^ 24 ->
  exists p' r P' Q', add tx local p = Ok (p', r) /\ inv ex [] p' P' Q' /\ same p p' /\ keeps_full p P Q p' P' Q' /\ added p tx r p' P' Q' /\
    (forall e, validateTx tx local p = Some e -> all p !! txhash tx = None -> r = inl e /\ p' = p).
Proof.
  intros I Sn Nx Rm. unfold add. go_step. destruct (all p !! txhash tx) as [t|] eqn:Ek.
  { exists p. eexists _, P, Q. split; [done|]. split; [done|]. split; [done|]. split; [by intros b|]. split; [by cbn|done]. }
  destruct (validateTx tx local p) as [e|] eqn:Ev.
  { exists p. eexists _, P, Q. split; [done|]. split; [done|]. split; [done|]. split; [by intros b|]. split; [by cbn|]. by intros e' [= <-] _. }
  destruct (validateTx_sender _ _ _ Ev) as [a Sx]. destruct (make_room_inv ex p P Q tx I Sn) as (p1 & r1 & P1 & Q1 & E1 & I1 & S1 & A1 & F1 & [->| ->]).
  { rewrite (go_bind_err _ _ _ _ _ E1). exists p1. eexists _, P1, Q1. split; [done|]. split; [done|]. split; [done|]. split; [done|]. by split. }
  go_step E1. go_step. assert (Sx1 : sender (tp_signer p1) tx = Some a) by (by rewrite (proj1 (proj2 S1))). rewrite (from_of_sender _ _ a Sx1).
  assert (En : enters p1 a tx).
  { split; [done|done|]. right. pose proof (map_subseteq_size _ _ A1). split; [|lia]. destruct (all p1 !! txhash tx) eqn:E; [|done]. pose proof (lookup_weaken _ _ _ _ E A1). congruence. }
  assert (Ad : forall r p' P' Q', added p1 tx r p' P' Q' -> added p tx r p' P' Q').
  { intros [e|b] p' P' Q'; cbn; [by intros; etrans|]. intros (H1 & H2 & c & H3 & H4). split; [etrans; [exact H1|]; by apply insert_mono|]. split; [done|]. exists c. split; [|done]. by rewrite <- (proj1 (proj2 S1)). }
  destruct (match pending p1 !! a with Some l => Overlaps tx l | None => false end) eqn:Ov.
  - destruct (pending p1 !! a) as [l|] eqn:El; [|done]. destruct (lists_hold_some _ _ _ a l (iv_pending _ _ _ _ _ I1) El) as [Hl _]. rewrite (Overlaps_holds _ _ _ Hl), bool_decide_eq_true in Ov.
    destruct (add_replacing ex p1 P1 Q1 a tx l I1 En El Ov) as (p2 & r & P2 & E2 & I2 & S2 & F2 & D2). exists p2, r, P2, Q1. split; [exact E2|]. split; [done|]. split; [by etrans|].
    split; [intros b F; by apply F2, F1|]. split; [by apply Ad|done].
  - assert (Nn : nonce tx ∉ map nonce (P1 a)).
    { destruct (pending p1 !! a) as [l|] eqn:El; [|rewrite (lists_hold_none _ _ _ a (iv_pending _ _ _ _ _ I1) El); apply not_elem_of_nil].
      destruct (lists_hold_some _ _ _ a l (iv_pending _ _ _ _ _ I1) El) as [Hl _]. by rewrite (Overlaps_holds _ _ _ Hl), bool_decide_eq_false in Ov. }
    destruct (add_queueing ex p1 P1 Q1 a tx local I1 En Nn) as (p2 & r & Q2 & E2 & I2 & S2 & F2 & D2). exists p2, r, P1, Q2. split; [exact E2|]. split; [done|]. split; [by etrans|].
    split; [intros b F; by apply F2, F1|]. split; [by apply Ad|done].
Qed.

(** ** Lemmas: promotion *)

(** A known transaction joins the pending ones. *)
Lemma inv_join_pending ex X p P Q a tx l :
  inv ex X p P Q -> enters p a tx -> all p !! txhash tx = Some tx -> nonce tx ∉ map nonce (Q a) -> nonce tx ∉ map nonce (P a) -> tl_holds l (place tx (P a)) -> strict l = true ->
  inv false X (set_pending (<[a := l]> (pending p)) p) (upd a (place tx (P a)) P) Q.
Proof.
  intros I En Ek Nq Np Hl Sl. pose proof (lists_sorted _ _ _ a (iv_pending _ _ _ _ _ I)) as S. pose proof I as [Ip Iq Is Il Ia Iall Ih Ipr Ir Irun].
  assert (G : forall b t, t ∈ upd a (place tx (P a)) P b ++ Q b -> (b = a /\ t = tx) \/ t ∈ P b ++ Q b).
  { intros b t [Ht|Ht]%elem_of_app; [|right; apply elem_of_app; by right]. apply elem_upd in Ht as [[-> Ht]|[Nb Ht]]; [|right; apply elem_of_app; by left].
    apply elem_of_place in Ht as [->|[Ht _]]; [by left| |done]. right. apply elem_of_app. by left. }
  split; try done; cbn [pending queue tp_signer all priced set_pending].
  - by apply lists_hold_insert.
  - intros b t [[-> ->]|Ht]%G; [apply En|by apply Is].
  - intros b t [[-> ->]|Ht]%G; [done|by apply (Il b)].
  - intros b n (t & -> & Ht)%list_elem_of_fmap Hn. apply elem_upd in Ht as [[-> Ht]|[_ Ht]]; [|by apply (Ia b (nonce t)); [apply nonce_in|]].
    apply elem_of_place in Ht as [->|[Ht _]]; [done| |done]. by apply (Ia a (nonce t)); [apply nonce_in|].
Qed.

(** What promoting a transaction leaves alone. *)
Definition promoted a p p' : Prop :=
  same p p' /\ all p' = all p /\ priced p' = priced p /\ queue p' = queue p /\ locals p' = locals p /\ forall b, b <> a -> next_nonce p' b = next_nonce p b.

Lemma promoted_refl a p : promoted a p p.
Proof. by split. Qed.

Lemma promoted_trans a p q r : promoted a p q -> promoted a q r -> promoted a p r.
Proof.
  intros (S & A & Pr & Qu & Lo & N) (S' & A' & Pr' & Qu' & Lo' & N'). split; [by etrans|]. split; [congruence|]. split; [congruence|]. split; [congruence|]. split; [congruence|].
  intros b Nb. by rewrite N', N.
Qed.

Lemma promoteTx_inv ex X now p P Q a tx : inv ex X p P Q -> afloat p P Q a [tx] ->
  exists p', let P' := upd a (place tx (P a)) P in
    promoteTx now a (txhash tx) tx p = Ok (p', inr tt) /\ inv false X p' P' Q /\ promoted a p p' /\ next_nonce p' a = u64 (nonce tx + 1) /\ forall b, full_pending p P b -> full_pending p' P' b.
Proof.
  intros I A. pose proof (afloat_enters _ _ _ _ _ tx A ltac:(by left)) as En. destruct (af_enters _ _ _ _ _ A tx ltac:(by left)) as (_ & _ & Ek).
  pose proof (af_pending _ _ _ _ _ A tx ltac:(by left)) as Np. pose proof (af_queue _ _ _ _ _ A tx ltac:(by left)) as Nq.
  unfold promoteTx. go_step. go_step. set (l := default (newTxList true) (pending p !! a)). set (p1 := set_pending (<[a := l]> (pending p)) p).
  destruct (queued_list _ _ _ a (iv_pending _ _ _ _ _ I)) as [Hl Sl]. fold l in Hl, Sl. pose proof (lists_sorted _ _ _ a (iv_pending _ _ _ _ _ I)) as S.
  assert (El : pending p1 !! a = Some l) by apply lookup_insert_eq.
  destruct (tl_Add_holds l (P a) tx (PriceBump (tp_config p)) Hl (en_nonce _ _ _ En)) as [(old & Ho & En' & _ & _)|(l' & Ea & Hl' & Sl' & _)].
  { destruct Np. rewrite <- En'. by apply nonce_in. }
  rewrite (proj2 (by_nonces_none _ _ S) Np) in Ea. go_step (on_pending_total a _ p1 l _ l' El Ea). cbn [negb replaced]. go_step. go_step.
  change (all (set_pending (<[a := l']> (pending p1)) p1)) with (all p). rewrite Ek. go_step. go_step. go_step. eexists. cbv zeta. split; [done|].
  assert (Ei : <[a := l']> (pending p1) = <[a := l']> (pending p)) by apply insert_insert_eq. split; [|split; [|split]].
  - rewrite Ei. pose proof (inv_join_pending ex X p P Q a tx l' I En Ek Nq Np Hl' ltac:(by rewrite Sl')) as []. by split.
  - split; [done|]. split; [done|]. split; [done|]. split; [done|]. split; [done|]. intros b Nb. unfold next_nonce. cbn. by apply ms_other.
  - unfold next_nonce. cbn. apply ms_set.
  - intros b F1. unfold full_pending. cbn. rewrite insert_insert_eq. intros Hs. destruct (upd_cases a (place tx (P a)) P b) as [[-> ->]|[Nb ->]]; [apply place_nil|]. apply F1.
    by apply (lookup_insert_is_Some_ne _ a b l').
Qed.

Lemma afloat_promoted p p' P Q a tx l : afloat p P Q a (tx :: l) -> ascending (P a) -> promoted a p p' -> afloat p' (upd a (place tx (P a)) P) Q a l.
Proof.
  intros [E N Np Nq] S ((_ & Sg & _) & Al & _). cbn in N. apply list.NoDup_cons in N as [Nx N]. split.
  - intros t Ht. rewrite Sg, Al. apply E. by right.
  - done.
  - intros t Ht. rewrite upd_eq, in_place_nonces by done. intros [En|Hq]; [apply Nx; rewrite <- En; by apply nonce_in|]. apply (Np t); [by right|done].
  - intros t Ht. apply Nq. by right.
Qed.

Lemma afloat_head p P Q a tx l : afloat p P Q a (tx :: l) -> afloat p P Q a [tx].
Proof.
  intros [E N Np Nq]. split.
  - intros t ->%list_elem_of_singleton. apply E. by left.
  - cbn. apply NoDup_singleton.
  - intros t ->%list_elem_of_singleton. apply Np. by left.
  - intros t ->%list_elem_of_singleton. apply Nq. by left.
Qed.

Lemma promote_all X now a Q : forall l p P, inv false X p P Q -> afloat p P Q a l ->
  exists p', let P' := upd a (place_all (P a) l) P in
    for_each (fun tx => promoteTx now a (txhash tx) tx) l p = Ok (p', inr tt) /\ inv false X p' P' Q /\ promoted a p p' /\
    next_nonce p' a = match list.last l with Some tx => u64 (nonce tx + 1) | None => next_nonce p a end /\ forall b, full_pending p P b -> full_pending p' P' b.
Proof.
  induction l as [|tx l IH]; intros p P I A; cbn [for_each place_all foldl].
  - exists p. cbv zeta. assert (E : forall b, P b = upd a (P a) P b) by (intros b; by destruct (upd_cases a (P a) P b) as [[-> ->]|[_ ->]]).
    split; [done|]. split; [by apply (inv_ext _ _ _ P Q)|]. split; [apply promoted_refl|]. split; [done|]. intros b F. unfold full_pending. by rewrite <- E.
  - destruct (promoteTx_inv false X now p P Q a tx I (afloat_head _ _ _ _ _ _ A)) as (p1 & E1 & I1 & R1 & N1 & F1). go_step E1.
    destruct (IH p1 (upd a (place tx (P a)) P) I1) as (p2 & E2 & I2 & R2 & N2 & F2).
    { apply (afloat_promoted p); [done|apply (lists_sorted _ _ _ a (iv_pending _ _ _ _ _ I))|done]. }
    exists p2. rewrite upd_eq in *. assert (Eq : forall b, upd a (place_all (place tx (P a)) l) (upd a (place tx (P a)) P) b = upd a (foldl (fun L tx => place tx L) (place tx (P a)) l) P b).
    { intros b. unfold upd. by destruct (decide (b = a)). }
    cbv zeta. split; [exact E2|]. split; [by eapply inv_ext|]. split; [by eapply promoted_trans|]. split.
    + rewrite N2, N1. rewrite last_cons. by destruct (list.last l).
    + intros b Fb. specialize (F2 b (F1 b Fb)). unfold full_pending in *. by rewrite Eq in F2.
Qed.

Lemma place_end tx L : (forall t, t ∈ L -> nonce t < nonce tx) -> place tx L = L ++ [tx].
Proof.
  induction L as [|x L IH]; intros H; [done|]. cbn. rewrite (proj2 (Z.ltb_lt _ _)) by (apply H; by left). f_equal. apply IH. intros t Ht. apply H. by right.
Qed.

Lemma place_all_contiguous c l : forall L, contiguous c L -> contiguous (c + Z.of_nat (length L)) l -> place_all L l = L ++ l.
Proof.
  induction l as [|x l IH]; intros L HL Hl; [by rewrite app_nil_r|]. pose proof Hl as [Ex Hl']%contiguous_cons. cbn [place_all foldl].
  rewrite place_end by (intros t Ht%nonce_in; apply (contiguous_in _ _ _ HL) in Ht; lia).
  change (place_all (L ++ [x]) l = L ++ x :: l). rewrite IH.
  - by rewrite <- app_assoc.
  - apply contiguous_app; [done|]. apply contiguous_cons. by split.
  - rewrite length_app, Nat2Z.inj_add, Z.add_assoc. done.
Qed.

Lemma run_prefix L : forall n, run n L = take (length (run n L)) L.
Proof. induction L as [|x L IH]; intros n; [done|]. cbn. destruct (_ =? _); [|done]. cbn. by rewrite <- IH. Qed.

Lemma ready_prefix n L : ready n L = take (length (ready n L)) L.
Proof. unfold ready. destruct L as [|x L]; [done|]. destruct (_ <? _); [done|]. apply run_prefix. Qed.

Lemma run_contiguous L : forall n, 0 <= n -> ascending L -> (forall t, t ∈ L -> n <= nonce t < 2 ^ 64) -> contiguous n (run n L).
Proof.
  induction L as [|x L IH]; intros n Hn S H; [done|]. cbn. destruct (Z.eqb_spec (nonce x) n) as [E|N]; [|done]. apply contiguous_cons. split; [done|]. pose proof (H x ltac:(by left)) as Hx.
  pose proof (ascending_tail _ _ S) as S'. destruct (decide (n + 1 = 2 ^ 64)) as [En|Nn].
  - destruct L as [|y L]; [done|]. pose proof (ascending_head x (y :: L) y S ltac:(by left)). pose proof (H y ltac:(right; by left)). lia.
  - rewrite u64_small by (unfold is_u64; lia). apply IH; [lia|done|]. intros t Ht. pose proof (ascending_head x L t S Ht). pose proof (H t ltac:(by right)). lia.
Qed.

Lemma ready_contiguous n L : 0 <= n -> ascending L -> (forall t, t ∈ L -> n <= nonce t < 2 ^ 64) -> contiguous n (ready n L).
Proof.
  intros Hn S H. unfold ready. destruct L as [|x L]; [done|]. destruct (Z.ltb_spec n (nonce x)); [done|]. replace (nonce x) with n by (specialize (H x ltac:(by left)); lia). by apply run_contiguous.
Qed.

Lemma last_contiguous c L tx : contiguous c L -> list.last L = Some tx -> nonce tx = c + Z.of_nat (length L) - 1.
Proof.
  intros C E. rewrite last_lookup in E. assert (En : map nonce L !! pred (length L) = Some (nonce tx)) by (change (map nonce L) with (nonce <$> L); by rewrite list_lookup_fmap, E).
  rewrite C in En. apply lookup_seqZ in En as [En _]. apply lookup_lt_Some in E. lia.
Qed.

(** A list of the queue of which some transactions go, also from the index. *)
Lemma cut_queue {A} ex X p P Q a l (f : txList -> outcome unit (A * txList)) x l' L removed :
  inv ex X p P Q -> queue p !! a = Some l -> f l = Ok (x, l') -> tl_holds l' L -> strict l' = false -> (forall t, t ∈ L -> t ∈ Q a) -> (forall t, t ∈ removed -> t ∈ Q a /\ t ∉ L) ->
  let p1 := set_queue (<[a := l']> (queue p)) p in
  on_queue a f p = Ok (p1, inr x) /\ exists p', forget_all removed p1 = Ok (p', inr tt) /\ inv ex X p' P (upd a L Q) /\ shrunk p1 p'.
Proof.
  intros I El Ef Hl Sl Sub Rm p1. split; [by apply (on_queue_run a f p l)|]. pose proof (inv_cut_queue ex X p P Q a l' L I Hl Sl Sub) as I1.
  destruct (forget_all_inv ex X P (upd a L Q) removed p1 I1) as (p' & E & I' & Sh & _); [|by exists p'].
  intros t Ht. destruct (Rm t Ht) as [Hq Nl]. by apply (unlisted_queue ex X p P Q a L t).
Qed.

Lemma filtered_gone (f : Transaction -> bool) L t : t ∈ List.filter f L -> t ∈ L /\ t ∉ keep f L.
Proof. intros [H E]%elem_of_filter_list. split; [done|]. intros [_ E']%elem_of_keep. congruence. Qed.

Lemma unfit_gone f L t : t ∈ unfit f L -> t ∈ L /\ t ∉ filtered false f L.
Proof. intros [H E]%elem_of_filter_list. split; [done|]. cbn. intros [_ E']%elem_of_filter_list. by rewrite E' in E. Qed.

Lemma dropped_gone k (L : list Transaction) t : ascending L -> t ∈ drop k L -> t ∈ L /\ t ∉ take k L.
Proof.
  intros S H. pose proof (NoDup_fmap_1 nonce L (ascending_nonces L S)) as N. rewrite <- (take_drop k L) in N. apply list.NoDup_app in N as (_ & N & _). split.
  - rewrite <- (take_drop k L). apply elem_of_app. by right.
  - intros H'. by apply (N t).
Qed.

Lemma take_in k (L : list Transaction) t : t ∈ take k L -> t ∈ L.
Proof. intros (i & H & _)%elem_of_take. by eapply list_elem_of_lookup_2. Qed.

Lemma drop_in k (L : list Transaction) t : t ∈ drop k L -> t ∈ L.
Proof. intros H. rewrite <- (take_drop k L). apply elem_of_app. by right. Qed.

(** The ready transactions of a queue, and the queue without them. *)
Lemma ready_afloat ex X p P Q a k : inv ex X p P Q -> afloat p P (upd a (drop k (Q a)) Q) a (take k (Q a)).
Proof.
  intros I. pose proof (lists_sorted _ _ _ a (iv_queue _ _ _ _ _ I)) as S. pose proof (ascending_nonces _ S) as N. split.
  - intros t Ht%take_in. assert (Hb : t ∈ P a ++ Q a) by (apply elem_of_app; by right). split; [by apply (iv_sender _ _ _ _ _ I)|].
    split; [by apply (lists_nonces _ _ _ a _ (iv_queue _ _ _ _ _ I))|by apply (iv_listed _ _ _ _ _ I a)].
  - by apply ascending_nonces, ascending_take.
  - intros t Ht%take_in%nonce_in Hp. by apply (iv_apart _ _ _ _ _ I a (nonce t)).
  - intros t Ht Hq. rewrite upd_eq in Hq. rewrite <- (take_drop k (Q a)), map_app in N. apply list.NoDup_app in N as (_ & N & _). by apply (N (nonce t)); [apply nonce_in|].
Qed.

(** Changes to the queue of one account and to the index only. *)
Definition queue_at a p p' : Prop :=
  exists q al l, p' = set_queue q (set_all al l p) /\ al ⊆ all p /\ forall b, b <> a -> q !! b = queue p !! b.

Lemma queue_at_trans a p p1 p2 : queue_at a p p1 -> queue_at a p1 p2 -> queue_at a p p2.
Proof. intros (q & al & l & -> & S & O) (q' & al' & l' & -> & S' & O'). exists q', al', l'. split; [done|]. split; [by etrans|]. intros b Nb. rewrite O' by done. by apply O. Qed.

(** One step of the promotion of an account: a part of its queue goes. *)
Lemma queue_step {A} ex X p P Q a l M (f : txList -> outcome unit (A * txList)) x l' L removed :
  inv ex X p P (upd a M Q) -> queue p !! a = Some l -> f l = Ok (x, l') -> tl_holds l' L -> strict l' = false -> (forall t, t ∈ L -> t ∈ M) -> (forall t, t ∈ removed -> t ∈ M /\ t ∉ L) ->
  exists p1 p2, on_queue a f p = Ok (p1, inr x) /\ forget_all removed p1 = Ok (p2, inr tt) /\ inv ex X p2 P (upd a L Q) /\ queue_at a p p2 /\ queue p2 !! a = Some l'.
Proof.
  intros I El Ef Hl Sl Sub Rm. destruct (cut_queue ex X p P (upd a M Q) a l f x l' L removed I El Ef Hl Sl) as (E1 & p2 & E2 & I2 & (al & pl & -> & S2)).
  - rewrite upd_eq. done.
  - rewrite upd_eq. done.
  - eexists _, _. split; [exact E1|]. split; [exact E2|]. split; [|split].
    + eapply inv_ext; [exact I2|done|]. intros b. unfold upd. by destruct (decide (b = a)).
    + eexists _, al, pl. split; [done|]. split; [done|]. intros b Nb. cbn. by rewrite lookup_insert_ne.
    + cbn. apply lookup_insert_eq.
Qed.

Lemma tidied_at ex X p P Q a L : inv ex X p P (upd a L Q) ->
  inv ex X (tidied a p) P (upd a L Q) /\ queue_at a p (tidied a p) /\ (is_Some (queue (tidied a p) !! a) -> L <> []).
Proof.
  intros I. destruct (tidied_inv ex X p P _ a I) as (I' & q & E & O & F). split; [done|]. rewrite upd_eq in F. split; [|by rewrite E].
  exists q, (all p), (priced p). split; [by rewrite E|]. by split.
Qed.

(** Promoting the transactions that are ready. *)
Lemma promote_ready ex X now p P Q a l M : inv ex X p P (upd a M Q) -> sane p -> queue p !! a = Some l ->
  (ex = true -> forall t, t ∈ M -> state_nonce p a <= nonce t) ->
  exists p1 p2 txs P' l', on_queue a (tl_Ready (next_nonce p a)) p = Ok (p1, inr txs) /\
    for_each (fun tx => promoteTx now a (txhash tx) tx) txs p1 = Ok (p2, inr tt) /\ let L := drop (length txs) M in
    inv ex X p2 P' (upd a L Q) /\ same p p2 /\ all p2 = all p /\ locals p2 = locals p /\ queue p2 = <[a := l']> (queue p) /\ tl_holds l' L /\ strict l' = false /\
    forall b, full_pending p P b -> full_pending p2 P' b.
Proof.
  intros I Sn El Low. destruct (lists_hold_some _ _ _ a l (iv_queue _ _ _ _ _ I) El) as [Hl Sl]. rewrite upd_eq in Hl.
  destruct (tl_Ready_holds l M (next_nonce p a) Hl) as (l' & Er & Hl' & Sl'). set (txs := ready (next_nonce p a) M) in *. set (L := drop (length txs) M) in *.
  set (p1 := set_queue (<[a := l']> (queue p)) p). assert (Et : txs = take (length txs) M) by apply ready_prefix.
  assert (I1 : inv ex X p1 P (upd a L Q)).
  { eapply inv_ext; [apply (inv_cut_queue ex X p P (upd a M Q) a l' L I Hl'); [by rewrite Sl'|]|done|intros b; unfold upd; by destruct (decide (b = a))].
    rewrite upd_eq. intros t Ht. by eapply drop_in. }
  assert (A1 : afloat p1 P (upd a L Q) a txs).
  { rewrite Et. pose proof (ready_afloat ex X p P (upd a M Q) a (length txs) I) as [A B C D]. rewrite upd_eq in *. split; try done. intros t Ht. specialize (D t Ht). by rewrite upd_eq in *. }
  destruct (promote_all X now a (upd a L Q) txs p1 P (inv_weaken _ _ _ _ _ I1) A1) as (p2 & E2 & I2 & (S2 & Al2 & _ & Q2 & Lo2 & O2) & N2 & F2).
  exists p1, p2, txs. eexists _, l'. split; [by apply (on_queue_run a _ p l)|]. split; [exact E2|]. cbv zeta. split; [|by rewrite Sl'].
  apply inv_executable; [exact I2|]. intros ->. specialize (Low eq_refl). pose proof (iv_run _ _ _ _ _ I eq_refl) as Ex. destruct (Ex a) as [C N].
  assert (Cr : contiguous (next_nonce p a) txs).
  { pose proof (sn_nonces _ Sn a). apply ready_contiguous; [lia|apply Hl|]. intros t Ht. split; [|by apply (proj1 (list.Forall_forall _ _) (tl_nonces _ _ Hl))].
    destruct (Z.le_gt_cases (next_nonce p a) (nonce t)) as [Le|Gt]; [done|]. exfalso. apply (iv_apart _ _ _ _ _ I a (nonce t)); [|rewrite upd_eq; by apply nonce_in].
    apply (contiguous_in _ _ _ C). specialize (Low t Ht). lia. }
  intros b. unfold state_nonce. rewrite (proj1 (proj2 (proj2 S2))). change (currentState p1) with (currentState p). fold (state_nonce p b).
  destruct (upd_cases a (place_all (P a) txs) P b) as [[-> ->]|[Nb ->]]; [|rewrite O2 by done; apply Ex]. rewrite (place_all_contiguous (state_nonce p a)) by (done || by rewrite <- N).
  rewrite N2, length_app. split; [apply contiguous_app; [done|by rewrite <- N]|]. destruct (list.last txs) as [t|] eqn:Elast.
  - rewrite (last_contiguous _ _ _ Cr Elast). destruct (room_list _ _ _ _ _ a I) as [R1 R2]. pose proof (sn_nonces _ Sn a). rewrite upd_eq in R2.
    assert (Z.of_nat (length txs) <= 2 ^ 24) by (rewrite Et, length_take; lia). rewrite u64_small by (unfold is_u64; lia). lia.
  - apply last_None in Elast. rewrite Elast. cbn. change (next_nonce p1 a) with (next_nonce p a). lia.
Qed.

Lemma queue_at_frame a p p' : queue_at a p p' ->
  same p p' /\ pending p' = pending p /\ pendingState p' = pendingState p /\ locals p' = locals p /\ all p' ⊆ all p /\ forall b, b <> a -> queue p' !! b = queue p !! b.
Proof. by intros (q & al & l & -> & S & O). Qed.

(** The limit of an account's queue, from which local accounts are exempt. *)
Lemma cap_queue ex X p P Q a l M : inv ex X p P (upd a M Q) -> sane p -> queue p !! a = Some l ->
  exists p' L l', (if bool_decide (a ∈ locals p) then mret tt
             else caps ← on_queue a (tl_Cap (i64 (AccountQueue (tp_config p)))); forget_all caps : go TxPool pool_error unit) p = Ok (p', inr tt) /\
    inv ex X p' P (upd a L Q) /\ queue_at a p p' /\ queue p' !! a = Some l' /\ (forall t, t ∈ L -> t ∈ M).
Proof.
  intros I Sn El. destruct (bool_decide _); [exists p, M, l; split; [done|]; split; [done|]; split; [|done]; exists (queue p), (all p), (priced p); split; [by destruct p|by split]|].
  destruct (lists_hold_some _ _ _ a l (iv_queue _ _ _ _ _ I) El) as [Hl Sl]. rewrite upd_eq in Hl. pose proof (sn_queue _ Sn).
  rewrite i64_small by (unfold is_i64; lia). set (k := Z.to_nat (AccountQueue (tp_config p))). replace (AccountQueue (tp_config p)) with (Z.of_nat k) by lia.
  destruct (tl_Cap_holds l M k Hl) as (l' & Ec & Hl' & Sl'). destruct (queue_step ex X p P Q a l M _ _ l' (take k M) (reverse (drop k M)) I El Ec Hl') as (p1 & p2 & E1 & E2 & I2 & O2 & L2).
  - by rewrite Sl'.
  - intros t. apply take_in.
  - intros t. rewrite elem_of_reverse. apply dropped_gone, Hl.
  - exists p2, (take k M), l'. rewrite (go_bind_ok _ _ _ _ _ E1). split; [exact E2|]. split; [done|]. split; [done|]. split; [done|]. intros t. apply take_in.
Qed.

Lemma promote_account_inv ex X now p P Q a : inv ex X p P Q -> sane p ->
  exists p' P' Q', promote_account now a p = Ok (p', inr tt) /\ inv ex X p' P' Q' /\ same p p' /\ all p' ⊆ all p /\ keeps_full p P Q p' P' Q'.
Proof.
  intros I Sn. unfold promote_account. go_step. destruct (queue p !! a) as [l|] eqn:El; [|exists p, P, Q; split; [done|]; split; [done|]; split; [done|]; split; [done|]; by intros b].
  assert (I0 : inv ex X p P (upd a (Q a) Q)) by (eapply inv_ext; [done|done|]; intros b; by destruct (upd_cases a (Q a) Q b) as [[-> ->]|[_ ->]]).
  destruct (lists_hold_some _ _ _ a l (iv_queue _ _ _ _ _ I) El) as [Hl Sl]. set (c := st_GetNonce a (currentState p)).
  destruct (tl_Forward_holds l (Q a) c Hl) as (l1 & Ef & Hl1 & Sl1). destruct (queue_step ex X p P Q a l (Q a) _ _ l1 (keep (before c) (Q a)) (List.filter (before c) (Q a)) I0 El Ef Hl1) as (p1 & p2 & E1 & E2 & I2 & O2 & L2).
  { by rewrite Sl1. } { by intros t [Ht _]%elem_of_keep. } { intros t. apply filtered_gone. }
  go_step E1. go_step E2. set (M1 := keep (before c) (Q a)) in *. destruct (queue_at_frame _ _ _ O2) as (S2 & P2 & N2 & Lo2 & A2 & Q2).
  destruct (tl_Filter_holds l1 M1 (st_GetBalance a (currentState p)) (currentMaxGas p) Hl1) as (drops & inval & l2 & Ei & Pd & _ & Hl2 & Sl2). rewrite Sl1, Sl in Hl2, Sl2.
  set (M2 := filtered false (payable (st_GetBalance a (currentState p)) (currentMaxGas p)) M1) in *.
  destruct (queue_step ex X p2 P Q a l1 M1 (total (tl_Filter (st_GetBalance a (currentState p)) (currentMaxGas p))) (drops, inval) l2 M2 drops I2 L2) as (p3 & p4 & E3 & E4 & I4 & O4 & L4).
  { unfold total. by rewrite Ei. } { done. } { done. } { by intros t [Ht _]%filtered_fit. } { intros t Ht. rewrite Pd in Ht. by apply unfit_gone. }
  go_step E3. go_step E4. go_step. destruct (queue_at_frame _ _ _ O4) as (S4 & P4 & N4 & Lo4 & A4 & Q4). assert (S04 : same p p4) by by etrans.
  destruct (promote_ready ex X now p4 P Q a l2 M2 I4 (sane_same _ _ Sn S04) L4) as (p5 & p6 & txs & P' & l3 & E5 & E6 & I6 & S6 & A6 & Lo6 & Q6 & Hl3 & Sl3 & F6).
  { intros _ t [[Ht Hb]%elem_of_keep _]%filtered_fit. unfold state_nonce. rewrite (proj1 (proj2 (proj2 S04))). unfold before in Hb. fold c. lia. }
  unfold next_nonce in E5. go_step E5. go_step E6. assert (S06 : same p p6) by by etrans. set (M3 := drop (length txs) M2) in *.
  assert (L6 : queue p6 !! a = Some l3) by (rewrite Q6; apply lookup_insert_eq).
  destruct (cap_queue ex X p6 P' Q a l3 M3 I6 (sane_same _ _ Sn S06) L6) as (p7 & M4 & l4 & E7 & I7 & O7 & L7 & _).
  rewrite Lo6, Lo4, Lo2, (proj1 S06) in E7. go_step E7. destruct (queue_at_frame _ _ _ O7) as (S7 & P7 & N7 & Lo7 & A7 & Q7).
  destruct (tidied_at ex X p7 P' Q a M4 I7) as (I8 & O8 & F8). destruct (queue_at_frame _ _ _ O8) as (S8 & P8 & N8 & Lo8 & A8 & Q8).
  exists (tidied a p7), P', (upd a M4 Q). split; [done|]. split; [done|]. split; [etrans; [exact S06|]; by etrans|]. split.
  - etrans; [exact A8|]. etrans; [exact A7|]. rewrite A6. by etrans.
  - intros b [F1 F1']. split.
    + unfold full_pending. rewrite P8, P7. apply F6. unfold full_pending. by rewrite P4, P2.
    + unfold full_queue. destruct (upd_cases a M4 Q b) as [[-> ->]|[Nb ->]]; [done|]. rewrite Q8, Q7, Q6, lookup_insert_ne, Q4, Q2 by done. done.
Qed.

Lemma promote_accounts_inv ex X now : forall l p P Q, inv ex X p P Q -> sane p ->
  exists p' P' Q', for_each (promote_account now) l p = Ok (p', inr tt) /\ inv ex X p' P' Q' /\ same p p' /\ all p' ⊆ all p /\ keeps_full p P Q p' P' Q'.
Proof.
  induction l as [|a l IH]; intros p P Q I Sn; [exists p, P, Q; split; [done|]; split; [done|]; split; [done|]; split; [done|]; by intros b|].
  cbn [for_each]. destruct (promote_account_inv ex X now p P Q a I Sn) as (p1 & P1 & Q1 & E1 & I1 & S1 & A1 & F1). go_step E1.
  destruct (IH p1 P1 Q1 I1 (sane_same _ _ Sn S1)) as (p2 & P2 & Q2 & E2 & I2 & S2 & A2 & F2). exists p2, P2, Q2. split; [exact E2|]. split; [done|]. split; [by etrans|]. split; [by etrans|].
  intros b F. by apply F2, F1.
Qed.

(** ** Lemmas: counting *)

Definition accounts_of (m : gmap bytes txList) : list bytes := elements (dom m : gset bytes).

(** The number of transactions of some accounts. *)
Definition count_of (F : accounts_txs) (ks : list bytes) : Z := Z.of_nat (length (concat (map F ks))).

Lemma count_of_cons F a ks : count_of F (a :: ks) = Z.of_nat (length (F a)) + count_of F ks.
Proof. unfold count_of. cbn. rewrite length_app. lia. Qed.

Lemma count_of_perm F ks ks' : ks ≡ₚ ks' -> count_of F ks = count_of F ks'.
Proof. induction 1; rewrite ?count_of_cons in *; lia. Qed.

Lemma count_of_ext F G ks : (forall a, a ∈ ks -> F a = G a) -> count_of F ks = count_of G ks.
Proof. induction ks as [|a ks IH]; intros H; [done|]. rewrite !count_of_cons, (H a), IH; [done| |by left]. intros b Hb. apply H. by right. Qed.

Lemma count_of_upd F a L ks : NoDup ks -> a ∈ ks -> count_of (upd a L F) ks = count_of F ks - Z.of_nat (length (F a)) + Z.of_nat (length L).
Proof.
  induction ks as [|b ks IH]; intros N H; [by apply elem_of_nil in H|]. apply list.NoDup_cons in N as [Nb N]. rewrite !count_of_cons. apply list.elem_of_cons in H as [->|H].
  - rewrite upd_eq, (count_of_ext (upd b L F) F); [lia|]. intros c Hc. apply upd_ne. by intros ->.
  - rewrite IH by done. rewrite upd_ne by (by intros ->). lia.
Qed.

Lemma accounts_NoDup m : NoDup (accounts_of m).
Proof. unfold accounts_of. apply NoDup_elements. Qed.

Lemma elem_of_accounts m a : a ∈ accounts_of m <-> is_Some (m !! a).
Proof. unfold accounts_of. by rewrite elem_of_elements, elem_of_dom. Qed.

Lemma range_keys (m : gmap bytes txList) : map fst (range (map_to_list m)) ≡ₚ accounts_of m.
Proof.
  apply NoDup_Permutation.
  - rewrite range_perm. apply NoDup_fst_map_to_list.
  - apply accounts_NoDup.
  - intros a. rewrite elem_of_accounts, range_perm, list_elem_of_fmap. split.
    + intros ([b l] & -> & H%elem_of_map_to_list). by exists l.
    + intros [l H]. exists (a, l). split; [done|]. by apply elem_of_map_to_list.
Qed.

Lemma lens_fst m : map fst (lens m) ≡ₚ accounts_of m.
Proof. unfold lens. rewrite map_map. cbn. change (fun x : bytes * txList => x.1) with (@fst bytes txList). apply range_keys. Qed.

Lemma elem_of_lens s m F a n : lists_hold s m F -> (a, n) ∈ lens m -> is_Some (m !! a) /\ n = Z.of_nat (length (F a)).
Proof.
  intros H ([b l] & [= -> ->] & Hl)%list_elem_of_fmap. rewrite range_perm in Hl. apply elem_of_map_to_list in Hl. destruct (lists_hold_some _ _ _ b l H Hl) as [Hh _]. split; [by eexists|].
  cbn. by apply tl_Len_holds.
Qed.

Lemma lens_count s m F : lists_hold s m F -> foldr (fun kv n => snd kv + n) 0 (lens m) = count_of F (accounts_of m).
Proof.
  intros H. rewrite <- (count_of_perm F _ _ (lens_fst m)). assert (G : forall a n, (a, n) ∈ lens m -> n = Z.of_nat (length (F a))) by (intros a n Hn; by apply (elem_of_lens s m F)).
  induction (lens m) as [|[a n] ls IH]; [done|]. cbn [foldr map fst snd]. rewrite count_of_cons, IH by (intros b k Hk; apply G; by right). f_equal. apply G. by left.
Qed.

(** The pending transactions are within the index. *)
Lemma count_of_room ex X p P Q ks : inv ex X p P Q -> NoDup ks -> count_of P ks <= 2 ^ 24 /\ count_of Q ks <= 2 ^ 24.
Proof.
  intros I. assert (G : forall F, (forall a, ascending (F a)) -> (forall a t, t ∈ F a -> t ∈ P a ++ Q a) -> NoDup ks -> count_of F ks <= 2 ^ 24).
  { intros F S Sub N. assert (ND : NoDup (map txhash (concat (map F ks)))).
    { induction ks as [|a ks IH]; [constructor|]. apply list.NoDup_cons in N as [Na N]. cbn. rewrite map_app. apply list.NoDup_app. split; [|split; [|by apply IH]].
      - apply NoDup_fmap_2_strong; [|by apply (NoDup_fmap_1 nonce), ascending_nonces]. intros x y Hx Hy E. destruct (listed_once _ _ _ _ _ a a x y I) as [-> _]; auto.
      - intros h (x & -> & Hx)%list_elem_of_fmap (y & E & Hy)%list_elem_of_fmap. apply list_elem_of_In, in_concat in Hy as (Ly & HL & Hy). apply in_map_iff in HL as (b & <- & Hb).
        apply list_elem_of_In in Hy, Hb. destruct (listed_once _ _ _ _ _ a b x y I) as [_ ->]; auto. }
    assert (Sb : (list_to_set (map txhash (concat (map F ks))) : gset bytes) ⊆ dom (all p)).
    { intros h. rewrite elem_of_list_to_set. intros (x & -> & Hx)%list_elem_of_fmap. apply list_elem_of_In, in_concat in Hx as (Lx & HL & Hx). apply in_map_iff in HL as (b & <- & Hb).
      apply list_elem_of_In in Hx. apply elem_of_dom. exists x. by apply (iv_listed _ _ _ _ _ I b), Sub. }
    apply subseteq_size in Sb. rewrite size_list_to_set, length_map, size_dom in Sb by done. pose proof (iv_room _ _ _ _ _ I). unfold count_of. lia. }
  intros N. split; apply G; try done.
  - intros a. apply (lists_sorted _ _ _ a (iv_pending _ _ _ _ _ I)).
  - intros a t H. apply elem_of_app. by left.
  - intros a. apply (lists_sorted _ _ _ a (iv_queue _ _ _ _ _ I)).
  - intros a t H. apply elem_of_app. by right.
Qed.

Lemma count_pending ex X p P Q : inv ex X p P Q -> count_txs (pending p) = count_of P (accounts_of (pending p)).
Proof.
  intros I. unfold count_txs. rewrite (lens_count _ _ _ (iv_pending _ _ _ _ _ I)). destruct (count_of_room _ _ _ _ _ _ I (accounts_NoDup (pending p))). apply u64_small. unfold is_u64, count_of in *. lia.
Qed.

Lemma count_queue ex X p P Q : inv ex X p P Q -> count_txs (queue p) = count_of Q (accounts_of (queue p)).
Proof.
  intros I. unfold count_txs. rewrite (lens_count _ _ _ (iv_queue _ _ _ _ _ I)). destruct (count_of_room _ _ _ _ _ _ I (accounts_NoDup (queue p))). apply u64_small. unfold is_u64, count_of in *. lia.
Qed.
End Spec.
