(* ===== verification/TxPoolLimits.v ===== *)
(** * The transaction pool: its limits, and the operations as a whole

    The reduction of the pending and of the queued transactions to the limits of the pool, the
    promotion of executable transactions, the reset to a new head, and the theorems on the
    operations that the rest of the program calls. *)

From stdpp Require Import sorting.
From S2P Require Import Prelude Rlp RlpStream Common Signature ChainConfig Trie Transaction Block GoMonad GoSort GoHeap TxList TxPool TxPoolSpec.

Section Limits.
Context {HS : Hasher} {SC : Secp256k1} {RO : RangeOrder} {PS : PoolState} {PQ : PriorityQueue}.

Implicit Types (p : TxPool) (P Q : accounts_txs) (X : list Transaction) (tx : Transaction) (a b : bytes).

(** ** Reducing the pending transactions *)

Lemma pending_len_run ex X p P Q a : inv ex X p P Q -> is_Some (pending p !! a) -> pending_len a p = Ok (p, inr (Z.of_nat (length (P a)))).
Proof.
  intros I [l El]. unfold pending_len. go_step. rewrite El. cbn [deref]. go_step. destruct (lists_hold_some _ _ _ a l (iv_pending _ _ _ _ _ I) El) as [Hl _].
  by rewrite (tl_Len_holds _ _ Hl).
Qed.

Lemma lists_is_Some s m F a : lists_hold s m F -> F a <> [] -> is_Some (m !! a).
Proof. intros H N. specialize (H a). destruct (m !! a); [by eexists|done]. Qed.

(** What a reduction leaves alone. *)
Definition reduced p p' : Prop := same p p' /\ all p' ⊆ all p /\ queue p' = queue p /\ locals p' = locals p /\ accounts_of (pending p') = accounts_of (pending p).

#[global] Instance reduced_preorder : PreOrder reduced.
Proof.
  split; [by intros p|]. intros p q r (S & A & Qu & Lo & D) (S' & A' & Qu' & Lo' & D'). split; [by etrans|]. split; [by etrans|]. repeat split; congruence.
Qed.

Lemma accounts_insert m a l : is_Some (m !! a) -> accounts_of (<[a := l]> m) = accounts_of m.
Proof. intros H. unfold accounts_of. f_equal. rewrite dom_insert_L. by apply subseteq_union_1_L, singleton_subseteq_l, elem_of_dom. Qed.

Lemma cap_one_inv ex X p P Q a : inv ex X p P Q -> P a <> [] ->
  exists p', cap_one a p = Ok (p', inr tt) /\ inv ex X p' (upd a (take (length (P a) - 1) (P a)) P) Q /\ reduced p p'.
Proof.
  intros I N. pose proof (lists_is_Some _ _ _ a (iv_pending _ _ _ _ _ I) N) as Is. pose proof Is as [l El]. destruct (lists_hold_some _ _ _ a l (iv_pending _ _ _ _ _ I) El) as [Hl Sl].
  unfold cap_one. go_step (pending_len_run _ _ _ _ _ a I Is). destruct (exists_last N) as (L & x & EL). set (k := (length (P a) - 1)%nat).
  assert (Ek : k = length L) by (unfold k; rewrite EL, length_app; cbn; lia). assert (Ln : (0 < length (P a))%nat) by (rewrite EL, length_app; cbn; lia).
  replace (Z.of_nat (length (P a)) - 1) with (Z.of_nat k) by lia. destruct (tl_Cap_holds l (P a) k Hl) as (l' & Ec & Hl' & Sl').
  assert (Ed : reverse (drop k (P a)) = [x]) by (rewrite EL, Ek, drop_app_length; done). rewrite Ed in Ec. assert (Et : take k (P a) = L) by (rewrite EL, Ek, take_app_length; done).
  go_step (on_pending_run a _ p l _ l' El Ec). cbn [for_each]. set (p1 := set_pending (<[a := l']> (pending p)) p).
  assert (I1 : inv false X p1 (upd a (take k (P a)) P) Q) by (apply (inv_cut_pending ex); [done|done|by rewrite Sl'|intros t; apply take_in]).
  assert (I2 : inv false X (forgotten (txhash x) p1) (upd a (take k (P a)) P) Q).
  { apply inv_forget; [done|]. assert (Hx : x ∈ drop k (P a)) by (rewrite EL, Ek, drop_app_length; by left). destruct (dropped_gone k (P a) x (sm_sorted _ _ (tl_map _ _ Hl)) Hx) as [Hx1 Hx2].
    apply (unlisted_pending ex X p P Q a (take k (P a)) x I Hx1); [intros t; apply take_in|done]. }
  rewrite (go_bind_ok _ _ p1 (lowered a (nonce x) (forgotten (txhash x) p1)) tt).
  2:{ go_step (forget_run (txhash x) p1). apply lower_nonce_run. }
  set (p2 := forgotten (txhash x) p1) in *. destruct (lowered_same a (nonce x) p2) as (S3 & A3 & P3 & Q3). eexists. split; [done|]. split.
  - apply inv_executable; [destruct (lowered_only a (nonce x) p2) as [m ->]; by eapply inv_nonces|]. intros ->. pose proof (iv_run _ _ _ _ _ I eq_refl) as Ex.
    apply (executable_lowered X p P _ Q p2); try done; [apply nonce_in; rewrite EL; apply elem_of_app; right; by left| |intros; by apply upd_ne].
    destruct (Ex a) as [C _]. pose proof (last_contiguous _ _ x C ltac:(rewrite EL; apply last_snoc)) as En. rewrite upd_eq, (proj1 (contiguous_before _ _ (nonce x) C ltac:(lia))). f_equal. lia.
  - split; [done|]. split; [rewrite A3; apply delete_subseteq|]. split; [by rewrite Q3|]. destruct (lowered_only a (nonce x) p2) as [m ->]. split; [done|]. cbn. by apply accounts_insert.
Qed.

(** The offenders lose their last transaction each. *)
Definition shorter (offs : list bytes) P P' : Prop := forall a, P' a = if decide (a ∈ offs) then take (length (P a) - 1) (P a) else P a.

Lemma cap_each_inv ex X Q : forall offs p P count, inv ex X p P Q -> NoDup offs -> (forall a, a ∈ offs -> P a <> []) -> count = count_of P (accounts_of (pending p)) ->
  exists p' P', cap_each offs count p = Ok (p', inr (count_of P' (accounts_of (pending p)))) /\ inv ex X p' P' Q /\ reduced p p' /\ shorter offs P P'.
Proof.
  induction offs as [|a offs IH]; intros p P count I N Ne Ec; cbn [cap_each].
  - exists p, P. rewrite Ec. split; [done|]. split; [done|]. split; [done|]. intros a. by rewrite decide_False by apply not_elem_of_nil.
  - apply list.NoDup_cons in N as [Na N]. assert (Nea : P a <> []) by (apply Ne; by left). destruct (cap_one_inv ex X p P Q a I Nea) as (p1 & E1 & I1 & R1). go_step E1.
    pose proof (lists_is_Some _ _ _ a (iv_pending _ _ _ _ _ I) Nea) as Ia. set (P1 := upd a (take (length (P a) - 1) (P a)) P) in *. pose proof R1 as (S1 & A1 & Q1 & Lo1 & D1).
    assert (La : (0 < length (P a))%nat) by (destruct (P a); [done|cbn; lia]).
    assert (E : u64 (count - 1) = count_of P1 (accounts_of (pending p1))).
    { rewrite D1. unfold P1. rewrite count_of_upd; [|apply accounts_NoDup|by apply elem_of_accounts]. rewrite length_take. destruct (count_of_room _ _ _ _ _ _ I (accounts_NoDup (pending p))) as [Rm _].
      assert (Z.of_nat (length (P a)) <= count_of P (accounts_of (pending p))).
      { pose proof (count_of_upd P a [] (accounts_of (pending p)) (accounts_NoDup _) ltac:(by apply elem_of_accounts)) as Eu. cbn in Eu. unfold count_of in *. lia. }
      rewrite Ec. rewrite u64_small by (unfold is_u64; lia). lia. }
    destruct (IH p1 P1 (u64 (count - 1)) I1 N) as (p2 & P2 & E2 & I2 & R2 & Sh); [|done|].
    { intros b Hb. unfold P1. rewrite upd_ne by (by intros ->). apply Ne. by right. }
    exists p2, P2. rewrite D1 in E2. split; [exact E2|]. split; [done|]. split; [by etrans|]. intros b. rewrite (Sh b). unfold P1. destruct (decide (b ∈ offs)) as [Hb|Hb].
    + rewrite decide_True by (by right). rewrite upd_ne by (by intros ->). done.
    + destruct (upd_cases a (take (length (P a) - 1) (P a)) P b) as [[-> ->]|[Nb ->]]; [by rewrite decide_True by (by left)|]. rewrite decide_False; [done|]. by intros [?|?]%list.elem_of_cons.
Qed.

(** The offenders, all of the same length, are cut to the length [m']. *)
Definition cut_to (offs : list bytes) (m' : nat) P P' : Prop := forall a, P' a = if decide (a ∈ offs) then take m' (P a) else P a.

Lemma reduce_inv ex X Q offs w thr : forall fuel p P m count, inv ex X p P Q -> NoDup offs -> w ∈ offs -> (forall a, a ∈ offs -> is_Some (pending p !! a) /\ length (P a) = m) -> 0 <= thr ->
  count = count_of P (accounts_of (pending p)) -> (m < fuel)%nat ->
  exists p' P' m', reduce fuel offs w thr count p = Ok (p', inr (count_of P' (accounts_of (pending p)))) /\ inv ex X p' P' Q /\ reduced p p' /\ cut_to offs m' P P' /\ (m' <= m)%nat /\
    (thr <= Z.of_nat m -> thr <= Z.of_nat m') /\ (count_of P' (accounts_of (pending p)) <= GlobalSlots (tp_config p) \/ Z.of_nat m' <= thr).
Proof.
  induction fuel as [|fuel IH]; intros p P m count I N Hw Hm Ht Ec F; [lia|]. cbn [reduce]. go_step.
  assert (Stop : (count_of P (accounts_of (pending p)) <= GlobalSlots (tp_config p) \/ Z.of_nat m <= thr) ->
    exists p' P' m', (mret count : go TxPool pool_error Z) p = Ok (p', inr (count_of P' (accounts_of (pending p)))) /\ inv ex X p' P' Q /\ reduced p p' /\ cut_to offs m' P P' /\ (m' <= m)%nat /\
      (thr <= Z.of_nat m -> thr <= Z.of_nat m') /\ (count_of P' (accounts_of (pending p)) <= GlobalSlots (tp_config p) \/ Z.of_nat m' <= thr)).
  { intros St. exists p, P, m. rewrite Ec. split; [done|]. split; [done|]. split; [done|]. split; [|done]. intros a. case_decide as D; [|done]. rewrite take_ge; [done|]. destruct (Hm a D) as [_ ->]. done. }
  destruct (Z.ltb_spec (GlobalSlots (tp_config p)) count) as [Lt|Ge]; [|apply Stop; left; lia]. destruct (Hm w Hw) as [Iw Lw]. go_step (pending_len_run _ _ _ _ _ w I Iw). rewrite Lw.
  destruct (Z.ltb_spec thr (Z.of_nat m)) as [Lt'|Ge']; [|apply Stop; right; lia].
  destruct (cap_each_inv ex X Q offs p P count I N) as (p1 & P1 & E1 & I1 & R1 & Sh); [|done|].
  { intros a Ha E. destruct (Hm a Ha) as [_ La]. rewrite E in La. cbn in La. lia. }
  go_step E1. pose proof R1 as (S1 & A1 & Q1 & Lo1 & D1). destruct (IH p1 P1 (m - 1)%nat (count_of P1 (accounts_of (pending p)))) as (p2 & P2 & m2 & E2 & I2 & R2 & C2 & L2 & T2 & G2); try done.
  - intros a Ha. split; [apply elem_of_accounts; rewrite D1; apply elem_of_accounts; by apply Hm|]. rewrite (Sh a), decide_True, length_take by done. destruct (Hm a Ha) as [_ ->]. lia.
  - by rewrite D1.
  - lia.
  - rewrite D1 in E2, G2. exists p2, P2, m2. split; [exact E2|]. split; [done|]. split; [by etrans|]. split; [|split; [lia|split; [intros; apply T2; lia|]]].
    + intros a. rewrite (C2 a), (Sh a). destruct (decide (a ∈ offs)) as [D|D]; [|done]. rewrite take_take. f_equal. destruct (Hm a D) as [_ ->]. lia.
    + by rewrite <- (proj1 S1).
Qed.

(** The accounts of [E] keep a prefix of at least [n] transactions, the others everything. *)
Definition trimmed (E : list bytes) (n : Z) P P' : Prop :=
  forall a, (a ∉ E -> P' a = P a) /\ (a ∈ E -> (exists k, P' a = take k (P a)) /\ n <= Z.of_nat (length (P' a))).

Lemma trimmed_trans E n P P1 P2 : trimmed E n P P1 -> trimmed E n P1 P2 -> trimmed E n P P2.
Proof.
  intros H H' a. destruct (H a) as [K1 K2], (H' a) as [K1' K2']. split; [intros N; by rewrite K1', K1|]. intros Ha. destruct (K2 Ha) as [[k Ek] _], (K2' Ha) as [[k' Ek'] L]. split; [|done].
  rewrite Ek', Ek, take_take. by eexists.
Qed.

Lemma trimmed_cut E offs n m P P' : cut_to offs m P P' -> (forall a, a ∈ offs -> a ∈ E) -> (forall a, a ∈ E -> n <= Z.of_nat (length (P a))) -> (forall a, a ∈ offs -> (m <= length (P a))%nat) -> (offs <> [] -> n <= Z.of_nat m) -> trimmed E n P P'.
Proof.
  intros C Sub Ln Lm Hn a. split; [intros N; rewrite (C a), decide_False; [done|]; by intros H%Sub|]. intros Ha. rewrite (C a). case_decide as D.
  - split; [by eexists|]. rewrite length_take. specialize (Lm a D). assert (offs <> []) by (intros ->; by apply elem_of_nil in D). specialize (Hn H). lia.
  - split; [exists (length (P a)); by rewrite take_ge|by apply Ln].
Qed.

(** The state of the loop over the offenders: those met so far are of the same length while the
    pool is over its limit, and the next ones are not longer. *)
Record levelled (len0 : bytes -> nat) (slots : Z) (sp offs : list bytes) p P (count : Z) : Prop := mkLevelled {
  lv_nodup : NoDup (offs ++ sp);
  lv_long : forall a, a ∈ offs ++ sp -> is_Some (pending p !! a) /\ slots + 1 <= Z.of_nat (length (P a));
  lv_sorted : StronglySorted (fun a b => (len0 b <= len0 a)%nat) sp;
  lv_len : forall a, a ∈ sp -> length (P a) = len0 a;
  lv_level : GlobalSlots (tp_config p) < count -> exists m, (forall a, a ∈ offs -> length (P a) = m) /\ (forall a, a ∈ sp -> offs <> [] -> (len0 a <= m)%nat)
}.

Lemma levelled_step len0 slots o sp offs p P p1 P1 count1 :
  levelled len0 slots (o :: sp) offs p P count1 -> reduced p p1 -> trimmed (offs ++ o :: sp) (slots + 1) P P1 -> (forall a, a ∈ o :: sp -> P1 a = P a) ->
  (GlobalSlots (tp_config p) < count1 -> forall a, a ∈ offs -> length (P1 a) = len0 o) -> levelled len0 slots sp (offs ++ [o]) p1 P1 count1.
Proof.
  intros [N Lg So Ln _] (S1 & A1 & Q1 & Lo1 & D1) T Keep Lv. pose proof (StronglySorted_inv So) as [So' Fo]. split.
  - by rewrite <- app_assoc.
  - intros a. rewrite <- app_assoc. cbn. intros Ha. split; [|by apply (T a)]. apply elem_of_accounts. rewrite D1. apply elem_of_accounts. by apply Lg.
  - done.
  - intros a Ha. rewrite Keep by (by right). apply Ln. by right.
  - intros G. rewrite (proj1 S1) in G. exists (len0 o). split.
    + intros a [Ha| ->%list_elem_of_singleton]%elem_of_app; [by apply Lv|]. rewrite Keep by (by left). apply Ln. by left.
    + intros a Ha _. by apply (proj1 (list.Forall_forall _ _) Fo).
Qed.

(** The next offender: those before it are cut to its length. *)
Lemma equalize_step ex X Q len0 slots o sp offs p P count : 0 <= slots -> inv ex X p P Q -> levelled len0 slots (o :: sp) offs p P count -> count = count_of P (accounts_of (pending p)) ->
  GlobalSlots (tp_config p) < count ->
  exists p1 P1, (match list.last offs with Some prev => threshold ← pending_len o; reduce_from offs prev threshold count | None => mret count end : go TxPool pool_error Z) p =
Ok (p1, inr (count_of P1 (accounts_of (pending p)))) /\ inv ex X p1 P1 Q /\ reduced p p1 /\ trimmed (offs ++ o :: sp) (slots + 1) P P1 /\
levelled len0 slots sp (offs ++ [o]) p1 P1 (count_of P1 (accounts_of (pending p))).
Proof.
  intros Hs I Lv Ec Lt. pose proof Lv as [N Lg So Ln Le]. destruct (Le Lt) as (m & Hm & Hsp). pose proof (lv_len _ _ _ _ _ _ _ Lv o ltac:(by left)) as Lo.
  destruct (list.last offs) as [prev|] eqn:Elast.
  - pose proof (last_Some_elem_of _ _ Elast) as Hp. assert (Io : is_Some (pending p !! o)) by (apply Lg; apply elem_of_app; right; by left). go_step (pending_len_run _ _ _ _ _ o I Io).
    assert (Ip : is_Some (pending p !! prev)) by (apply Lg; apply elem_of_app; by left). unfold reduce_from. go_step (pending_len_run _ _ _ _ _ prev I Ip).
    assert (No : offs <> []) by (intros ->; by apply elem_of_nil in Hp). pose proof (Hsp o ltac:(by left) No) as Lm. pose proof (proj1 (list.NoDup_app _ _) N) as (N1 & N2 & _).
    destruct (reduce_inv ex X Q offs prev (Z.of_nat (length (P o))) (S (Z.to_nat (Z.of_nat (length (P prev))))) p P m count I N1 Hp) as (p1 & P1 & m1 & E1 & I1 & R1 & C1 & L1 & T1 & G1).
    { intros a Ha. split; [apply Lg; apply elem_of_app; by left|by apply Hm]. } { lia. } { done. } { rewrite (Hm prev Hp). lia. }
    specialize (T1 ltac:(lia)). assert (Tr : trimmed (offs ++ o :: sp) (slots + 1) P P1).
    { apply (trimmed_cut _ offs _ m1); [done|intros; apply elem_of_app; by left|intros a Ha; by apply Lg|intros a Ha; by rewrite (Hm a Ha)|].
      intros _. etrans; [|exact T1]. apply Lg. apply elem_of_app. right. by left. }
    exists p1, P1. split; [exact E1|]. split; [done|]. split; [done|]. split; [done|]. apply (levelled_step len0 slots o sp offs p P p1 P1); [|done|done| |].
    + split; try done. intros _. by exists m.
    + intros a Ha. rewrite (C1 a), decide_False; [done|]. intros Ha'. by apply (N2 a).
    + intros G a Ha. rewrite (C1 a), decide_True, length_take, (Hm a Ha) by done. destruct G1 as [G1|G1]; [lia|]. lia.
  - apply last_None in Elast as ->. exists p, P. rewrite <- Ec. split; [done|]. split; [done|]. split; [done|].
    assert (Tr : trimmed ([] ++ o :: sp) (slots + 1) P P) by (intros a; split; [done|]; intros Ha; split; [exists (length (P a)); by rewrite take_ge|by apply Lg]). split; [done|].
    apply (levelled_step len0 slots o sp [] p P p P); try done. intros _ a Ha. by apply elem_of_nil in Ha.
Qed.

Lemma equalize_inv ex X Q len0 slots : 0 <= slots -> forall sp offs p P count, inv ex X p P Q -> levelled len0 slots sp offs p P count -> count = count_of P (accounts_of (pending p)) ->
  exists p' P' offs', equalize sp offs count p = Ok (p', inr (offs', count_of P' (accounts_of (pending p)))) /\ inv ex X p' P' Q /\ reduced p p' /\ trimmed (offs ++ sp) (slots + 1) P P' /\
    NoDup offs' /\ (forall a, a ∈ offs' -> a ∈ offs ++ sp) /\
    (GlobalSlots (tp_config p) < count_of P' (accounts_of (pending p)) -> (forall a, a ∈ offs ++ sp -> a ∈ offs') /\ exists m, forall a, a ∈ offs' -> length (P' a) = m).
Proof.
  intros Hs. induction sp as [|o sp IH]; intros offs p P count I Lv Ec; cbn [equalize].
  - exists p, P, offs. rewrite <- Ec. destruct Lv as [N Lg _ _ Le]. rewrite app_nil_r in *. split; [done|]. split; [done|]. split; [done|]. split; [|split; [done|split; [done|]]].
    + intros a. split; [done|]. intros Ha. split; [exists (length (P a)); by rewrite take_ge|]. by apply Lg.
    + intros G. split; [done|]. destruct (Le G) as (m & Hm & _). by exists m.
  - go_step. destruct (Z.ltb_spec (GlobalSlots (tp_config p)) count) as [Lt|Ge].
    2:{ exists p, P, offs. rewrite <- Ec. destruct Lv as [N Lg _ _ Le]. split; [done|]. split; [done|]. split; [done|]. split; [|split; [|split; [|lia]]].
        - intros a. split; [done|]. intros Ha. split; [exists (length (P a)); by rewrite take_ge|]. by apply Lg.
        - by apply list.NoDup_app in N as (N & _ & _).
        - intros a Ha. apply elem_of_app. by left. }
    destruct (equalize_step ex X Q len0 slots o sp offs p P count Hs I Lv Ec Lt) as (p1 & P1 & E1 & I1 & R1 & T1 & Lv1). rewrite (go_bind_ok _ _ _ _ _ E1). cbn beta iota. pose proof R1 as (S1 & _ & _ & _ & D1).
    destruct (IH (offs ++ [o]) p1 P1 _ I1 Lv1) as (p2 & P2 & offs2 & E2 & I2 & R2 & T2 & N2 & Sub2 & G2); [by rewrite D1|].
    rewrite <- app_assoc in T2, Sub2, G2. cbn in T2, Sub2, G2. rewrite D1 in E2, G2. rewrite (proj1 S1) in G2.
    exists p2, P2, offs2. split; [exact E2|]. split; [done|]. split; [by etrans|]. split; [by eapply trimmed_trans|]. by split.
Qed.

(** The pool is over its limit only where every account has its guaranteed number of slots. *)
Definition within_slots p P : Prop :=
  count_of P (accounts_of (pending p)) <= GlobalSlots (tp_config p) \/
  forall a, a ∉ locals p -> Z.of_nat (length (P a)) <= AccountSlots (tp_config p).

Lemma sorted_fst (l : list (bytes * Z)) (len0 : bytes -> nat) : StronglySorted (fun x y => snd y <= snd x) l -> (forall a n, (a, n) ∈ l -> n = Z.of_nat (len0 a)) -> StronglySorted (fun a b => (len0 b <= len0 a)%nat) (map fst l).
Proof.
  induction 1 as [|[a n] l S IH F]; intros E; [constructor|]. cbn. constructor; [apply IH; intros b k Hk; apply E; by right|]. apply list.Forall_forall. intros b ([b' k] & -> & Hk)%list_elem_of_fmap.
  pose proof (proj1 (list.Forall_forall _ _) F _ Hk) as Le. cbn in *. rewrite (E a n), (E b' k) in Le by (by left || by right). lia.
Qed.

Lemma filter_NoDup_fst (f : bytes * Z -> bool) l : NoDup (map fst l) -> NoDup (map fst (List.filter f l)).
Proof.
  induction l as [|x l IH]; intros N; [done|]. cbn in *. apply list.NoDup_cons in N as [Nx N]. destruct (f x); [|by apply IH]. cbn. constructor; [|by apply IH].
  intros (y & E & Hy)%list_elem_of_fmap. apply list_elem_of_In, filter_In in Hy as [Hy _]. apply Nx. rewrite E. apply list_elem_of_fmap. exists y. split; [done|]. by apply list_elem_of_In.
Qed.

(** The accounts that are over the guaranteed number of slots, the longest first. *)
Lemma spammers_levelled ex X p P Q : inv ex X p P Q -> sane p ->
  let sp := prque (List.filter (fun kv => negb (bool_decide (fst kv ∈ locals p)) && (AccountSlots (tp_config p) <? snd kv)) (lens (pending p))) in
  levelled (fun a => length (P a)) (AccountSlots (tp_config p)) (map fst sp) [] p P (count_of P (accounts_of (pending p))) /\
  forall a, a ∉ map fst sp -> a ∉ locals p -> Z.of_nat (length (P a)) <= AccountSlots (tp_config p).
Proof.
  intros I Sn sp. set (f := fun kv : bytes * Z => _) in sp. set (fl := List.filter f (lens (pending p))) in sp. pose proof (iv_pending _ _ _ _ _ I) as Hp.
  assert (Psp : sp ≡ₚ fl) by apply prque_perm.
  assert (El : forall a n, (a, n) ∈ fl -> is_Some (pending p !! a) /\ n = Z.of_nat (length (P a)) /\ f (a, n) = true).
  { intros a n H. apply list_elem_of_In, filter_In in H as [H Ef]. apply list_elem_of_In in H. destruct (elem_of_lens _ _ _ a n Hp H) as [? ?]. by repeat split. }
  assert (Sl : forall a, a ∈ map fst sp -> is_Some (pending p !! a) /\ AccountSlots (tp_config p) < Z.of_nat (length (P a))).
  { intros a ([b n] & -> & H)%list_elem_of_fmap. rewrite Psp in H. destruct (El b n H) as (? & -> & Ef). split; [done|]. apply andb_true_iff in Ef as [_ Ef]. by apply Z.ltb_lt in Ef. }
  split.
  - split; cbn [app].
    + rewrite Psp. apply filter_NoDup_fst. rewrite lens_fst. apply accounts_NoDup.
    + intros a Ha. destruct (Sl a Ha). split; [done|lia].
    + apply sorted_fst; [apply prque_descending|intros a n H; rewrite Psp in H; by apply El]. apply list.Forall_forall. intros [a n] H. destruct (El a n H) as (_ & -> & _). cbn.
      destruct (room_list _ _ _ _ _ a I). lia.
    + done.
    + intros _. exists O. split; [intros a Ha; by apply elem_of_nil in Ha|done].
  - intros a Na Nl. destruct (pending p !! a) as [l|] eqn:E; [|rewrite (lists_hold_none _ _ _ a Hp E); cbn; pose proof (sn_slots _ Sn); lia].
    destruct (Z.le_gt_cases (Z.of_nat (length (P a))) (AccountSlots (tp_config p))) as [Le|Gt]; [done|]. destruct Na. rewrite Psp. apply list_elem_of_fmap.
    assert (Ha : a ∈ map fst (lens (pending p))) by (rewrite lens_fst; apply elem_of_accounts; by exists l). apply list_elem_of_fmap in Ha as ([b n] & -> & H). cbn in *.
    destruct (elem_of_lens _ _ _ b n Hp H) as [_ ->]. eexists. split; [|apply list_elem_of_In, filter_In; split; [by apply list_elem_of_In|]]; [done|]. unfold f. cbn. rewrite bool_decide_false by done. cbn. lia.
Qed.

Lemma limit_pending_inv ex X p P Q : inv ex X p P Q -> sane p ->
  exists p' P', limit_pending p = Ok (p', inr tt) /\ inv ex X p' P' Q /\ reduced p p' /\ (forall b, full_pending p P b -> full_pending p' P' b) /\ within_slots p' P'.
Proof.
  intros I Sn. unfold limit_pending. go_step. cbv zeta. rewrite (count_pending _ _ _ _ _ I). pose proof (sn_slots _ Sn) as Slots.
  destruct (Z.ltb_spec (GlobalSlots (tp_config p)) (count_of P (accounts_of (pending p)))) as [Lt|Ge]; [|exists p, P; split; [done|]; split; [done|]; split; [done|]; split; [done|]; by left].
  destruct (spammers_levelled ex X p P Q I Sn) as [Lv Small]. set (sp := prque _) in *. destruct (equalize_inv ex X Q _ (AccountSlots (tp_config p)) ltac:(lia) (map fst sp) [] p P _ I Lv eq_refl) as (p1 & P1 & offs & E1 & I1 & R1 & T1 & N1 & Sub1 & G1).
  go_step E1. cbn [app] in *. pose proof R1 as (S1 & A1 & Q1 & Lo1 & D1).
  assert (Fin : forall p2 P2, inv ex X p2 P2 Q -> reduced p1 p2 -> trimmed (map fst sp) 1 P P2 -> (count_of P2 (accounts_of (pending p)) <= GlobalSlots (tp_config p) \/ forall a, a ∈ map fst sp -> Z.of_nat (length (P2 a)) <= AccountSlots (tp_config p)) ->
    inv ex X p2 P2 Q /\ reduced p p2 /\ (forall b, full_pending p P b -> full_pending p2 P2 b) /\ within_slots p2 P2).
  { intros p2 P2 I2 R2 T2 G2. assert (R : reduced p p2) by by etrans. pose proof R as (S2 & A2 & Q2 & Lo2 & D2). split; [done|]. split; [done|]. split.
    - intros b F Hs. destruct (decide (b ∈ map fst sp)) as [Hb|Hb]; [destruct (proj2 (T2 b) Hb) as [_ L]; intros E; rewrite E in L; cbn in L; lia|]. rewrite (proj1 (T2 b) Hb). apply F.
      apply elem_of_accounts. rewrite <- D2. by apply elem_of_accounts.
    - unfold within_slots. rewrite D2, (proj1 S2), Lo2. destruct G2 as [G2|G2]; [by left|right]. intros a Na. destruct (decide (a ∈ map fst sp)) as [Hb|Hb]; [by apply G2|]. rewrite (proj1 (T2 a) Hb). by apply Small. }
  assert (T1' : trimmed (map fst sp) 1 P P1) by (intros a; destruct (T1 a) as [K1 K2]; split; [done|]; intros Ha; destruct (K2 Ha); split; [done|lia]).
  destruct (list.last offs) as [o|] eqn:Elast.
  2:{ apply last_None in Elast as ->. destruct (Fin p1 P1 I1 ltac:(done) T1') as (F1 & F2 & F3 & F4); [|by exists p1, P1].
      destruct (Z.le_gt_cases (count_of P1 (accounts_of (pending p))) (GlobalSlots (tp_config p))) as [Le|Gt]; [by left|right]. destruct (G1 ltac:(lia)) as [All _]. intros a Ha%All. by apply elem_of_nil in Ha. }
  destruct (Z.ltb_spec (GlobalSlots (tp_config p)) (count_of P1 (accounts_of (pending p)))) as [Lt1|Ge1]; [|destruct (Fin p1 P1 I1 ltac:(done) T1') as (F1 & F2 & F3 & F4); [left; lia|by exists p1, P1]].
  destruct (G1 Lt1) as [All (m & Hm)]. pose proof (last_Some_elem_of _ _ Elast) as Ho. assert (Is1 : forall a, a ∈ offs -> is_Some (pending p1 !! a)).
  { intros a Ha. apply elem_of_accounts. rewrite D1. apply elem_of_accounts. exact (proj1 (lv_long _ _ _ _ _ _ _ Lv a (Sub1 a Ha))). }
  destruct (reduce_inv ex X Q offs o (AccountSlots (tp_config p)) (S (Z.to_nat (Z.of_nat (length (P1 o))))) p1 P1 m (count_of P1 (accounts_of (pending p))) I1 N1 Ho) as (p2 & P2 & m2 & E2 & I2 & R2 & C2 & L2 & Tm & G2).
  { intros a Ha. split; [by apply Is1|by apply Hm]. } { lia. } { by rewrite D1. } { rewrite (Hm o Ho). lia. }
  assert (E3 : reduce_from offs o (AccountSlots (tp_config p)) (count_of P1 (accounts_of (pending p))) p1 = Ok (p2, inr (count_of P2 (accounts_of (pending p1))))).
  { unfold reduce_from. go_step (pending_len_run _ _ _ _ _ o I1 (Is1 o Ho)). exact E2. }
  go_step E3. assert (Lm : AccountSlots (tp_config p) <= Z.of_nat m) by (rewrite <- (Hm o Ho); destruct (proj2 (T1 o) (Sub1 o Ho)); lia).
  destruct (Fin p2 P2 I2 R2) as (F1 & F2 & F3 & F4); [..|by exists p2, P2].
  - eapply trimmed_trans; [exact T1'|]. apply (trimmed_cut _ offs _ m2); [done|done|intros a Ha; by destruct (proj2 (T1' a) Ha)|intros a Ha; by rewrite (Hm a Ha)|]. intros _. specialize (Tm Lm). lia.
  - rewrite D1, (proj1 S1) in G2. destruct G2 as [G2|G2]; [by left|right]. intros a Ha. rewrite (C2 a), decide_True, length_take by (by apply All). lia.
Qed.

(** ** Reducing the queued transactions *)

Lemma keep_length n L : ascending L -> n ∈ map nonce L -> length L = S (length (keep (nonce_is n) L)).
Proof. intros S H. pose proof (Permutation_length (keep_nonces n L S H)) as E. cbn in E. rewrite !length_map in E. by rewrite <- E. Qed.

Lemma remove_queued ex X P a : forall l p Q, inv ex X p P Q -> NoDup l -> (forall t, t ∈ l -> t ∈ Q a) ->
  exists p' L, let Q' := upd a L Q in
    remove_all l p = Ok (p', inr tt) /\ inv ex X p' P Q' /\ same p p' /\ all p' ⊆ all p /\ keeps_full p P Q p' P Q' /\ elsewhere a p p' /\ (length L + length l)%nat = length (Q a).
Proof.
  induction l as [|tx l IH]; intros p Q I N Sub; unfold remove_all; cbn [for_each].
  - exists p, (Q a). cbv zeta. assert (E : forall b, Q b = upd a (Q a) Q b) by (intros b; by destruct (upd_cases a (Q a) Q b) as [[-> ->]|[_ ->]]).
    split; [done|]. split; [by apply (inv_ext _ _ _ P Q)|]. split; [done|]. split; [done|]. split; [intros b F; unfold full, full_pending, full_queue; by rewrite <- E|]. split; [by split|]. cbn. lia.
  - apply list.NoDup_cons in N as [Nx N]. assert (Hx : tx ∈ Q a) by (apply Sub; by left). assert (Hb : tx ∈ P a ++ Q a) by (apply elem_of_app; by right).
    pose proof (lists_sorted _ _ _ a (iv_queue _ _ _ _ _ I)) as S. assert (Nn : nonce tx ∉ map nonce (P a)) by (intros H; by apply (iv_apart _ _ _ _ _ I a (nonce tx)), nonce_in).
    destruct (removeTx_queue ex X p P Q (txhash tx) tx a I (iv_listed _ _ _ _ _ I a tx Hb) (iv_sender _ _ _ _ _ I a tx Hb) Nn) as (p1 & E1 & I1 & S1 & A1 & F1 & O1).
    go_step E1. set (L1 := keep (nonce_is (nonce tx)) (Q a)) in *.
    destruct (IH p1 (upd a L1 Q) I1 N) as (p2 & L & E2 & I2 & S2 & A2 & F2 & O2 & Len).
    { intros t Ht. rewrite upd_eq. apply elem_of_keep. split; [apply Sub; by right|]. unfold nonce_is. apply Z.eqb_neq. intros E. apply Nx. rewrite <- (ascending_eq (Q a) t tx); [done|done|apply Sub; by right|done|done]. }
    rewrite upd_eq in Len. exists p2, L. cbv zeta. assert (Eq : forall b, upd a L (upd a L1 Q) b = upd a L Q b) by (intros b; unfold upd; by destruct (decide (b = a))).
    split; [exact E2|]. split; [by eapply inv_ext|]. split; [by etrans|]. split; [etrans; [exact A2|]; rewrite A1; apply delete_subseteq|]. split; [|split].
    + intros b F. specialize (F2 b (F1 b F)). unfold full, full_queue in *. by rewrite Eq in F2.
    + destruct O1 as (O1 & N1 & L1' & Q1), O2 as (O2 & N2 & L2' & Q2). split; [congruence|]. split; [congruence|]. split; [congruence|]. intros b Nb. by rewrite Q2, Q1.
    + rewrite (keep_length (nonce tx) (Q a) S) by (by apply nonce_in). fold L1. cbn. lia.
Qed.

Lemma count_of_sub F ks ks' : NoDup ks' -> (forall a, a ∈ ks' -> a ∈ ks) -> count_of F ks' <= count_of F ks.
Proof.
  intros N Sub. pose proof (NoDup_submseteq _ _ N Sub) as [k E]%submseteq_Permutation. rewrite (count_of_perm F _ _ E). unfold count_of. rewrite map_app, concat_app, length_app. lia.
Qed.

Lemma drop_queued_inv ex X P ks : NoDup ks -> forall addrs drop p Q, inv ex X p P Q -> NoDup (map fst addrs) -> (forall a, a ∈ map fst addrs -> a ∈ ks /\ is_Some (queue p !! a)) ->
  exists p' Q', drop_queued addrs drop p = Ok (p', inr tt) /\ inv ex X p' P Q' /\ same p p' /\ all p' ⊆ all p /\ keeps_full p P Q p' P Q' /\ pending p' = pending p /\ locals p' = locals p /\
    (forall a, is_Some (queue p' !! a) -> is_Some (queue p !! a)) /\ (forall a, a ∉ map fst addrs -> Q' a = Q a) /\
    (count_of Q' ks <= count_of Q ks - drop \/ forall a, a ∈ map fst addrs -> Q' a = []).
Proof.
  intros Nk. induction addrs as [|[a t] addrs IH]; intros drop p Q I N Sub; cbn [drop_queued].
  { exists p, Q. repeat (split; [done|]). split; [by intros b|]. repeat (split; [done|]). right. intros a Ha. by apply elem_of_nil in Ha. }
  destruct (Z.leb_spec drop 0) as [Le|Gt]; [exists p, Q; repeat (split; [done|]); split; [by intros b|]; repeat (split; [done|]); left; lia|].
  cbn [map fst] in *. apply list.NoDup_cons in N as [Na N]. destruct (Sub a ltac:(by left)) as [Ka [l El]]. destruct (lists_hold_some _ _ _ a l (iv_queue _ _ _ _ _ I) El) as [Hl Sl].
  destruct (tl_Flatten_holds l (Q a) Hl) as (l' & Ef & Hl' & Sl'). go_step (on_queue_total a tl_Flatten p l _ l' El Ef). set (p1 := set_queue (<[a := l']> (queue p)) p).
  assert (I1 : inv ex X p1 P Q).
  { eapply (inv_ext _ _ _ P (upd a (Q a) Q)); [apply inv_cut_queue; [done|done|by rewrite Sl'|done]|done|]. intros b. by destruct (upd_cases a (Q a) Q b) as [[-> ->]|[_ ->]]. }
  assert (Ed : forall b, is_Some (queue p1 !! b) <-> is_Some (queue p !! b)) by (intros b; rewrite <- !elem_of_accounts; cbn; rewrite accounts_insert by (by eexists); done).
  assert (F01 : keeps_full p P Q p1 P Q) by (intros b [F1 F2]; split; [done|]; intros Hs%Ed; by apply F2).
  pose proof (NoDup_fmap_1 nonce _ (ascending_nonces _ (sm_sorted _ _ (tl_map _ _ Hl)))) as NQ.
  destruct (Z.leb_spec (Z.of_nat (length (Q a))) drop) as [Le'|Gt'].
  - destruct (remove_queued ex X P a (Q a) p1 Q I1 NQ ltac:(done)) as (p2 & L & E2 & I2 & S2 & A2 & F2 & (O2 & N2 & Lo2 & Q2) & Len). go_step E2. assert (L = []) as -> by (destruct L; [done|cbn in Len; lia]).
    destruct (IH (drop - Z.of_nat (length (Q a))) p2 (upd a [] Q) I2 N) as (p3 & Q3 & E3 & I3 & S3 & A3 & F3 & O3 & Lo3 & D3 & K3 & C3).
    { intros b Hb. destruct (Sub b ltac:(by right)) as [Kb Ib]. split; [done|]. rewrite Q2 by (by intros ->). by apply Ed. }
    exists p3, Q3. split; [exact E3|]. split; [done|]. split; [etrans; [exact S2|done]|]. split; [by etrans|]. split; [intros b F; by apply F3, F2, F01|]. split; [by rewrite O3, O2|]. split; [by rewrite Lo3, Lo2|].
    split; [|split].
    + intros b Hb%D3. apply Ed. destruct (decide (b = a)) as [->|Nb]; [apply Ed; by eexists|]. by rewrite <- Q2.
    + intros b [Nb Hb]%list.not_elem_of_cons. rewrite K3 by done. by apply upd_ne.
    + rewrite count_of_upd in C3 by done. cbn in C3. destruct C3 as [C3|C3]; [left; lia|right]. intros b [->|Hb]%list.elem_of_cons; [rewrite K3 by done; apply upd_eq|by apply C3].
  - set (dl := take (Z.to_nat drop) (reverse (Q a))). assert (Ld : length dl = Z.to_nat drop) by (unfold dl; rewrite length_take, length_reverse; lia).
    destruct (remove_queued ex X P a dl p1 Q I1) as (p2 & L & E2 & I2 & S2 & A2 & F2 & (O2 & N2 & Lo2 & Q2) & Len).
    { apply (sublist_NoDup dl (reverse (Q a))); [by rewrite reverse_Permutation|apply sublist_take]. }
    { intros x Hx%take_in. by rewrite elem_of_reverse in Hx. }
    go_step E2. assert (E3 : drop_queued addrs 0 p2 = Ok (p2, inr tt)) by by destruct addrs as [|[? ?] ?].
    exists p2, (upd a L Q). split; [exact E3|]. split; [done|]. split; [done|]. split; [done|]. split; [intros b F; by apply F2, F01|]. split; [done|]. split; [done|]. split; [|split].
    + intros b Hb. apply Ed. destruct (decide (b = a)) as [->|Nb]; [apply Ed; by eexists|]. by rewrite <- Q2.
    + intros b [Nb Hb]%list.not_elem_of_cons. by apply upd_ne.
    + left. rewrite count_of_upd by done. lia.
Qed.

(** The queue is over its limit only with transactions of local accounts. *)
Definition within_queue p Q : Prop :=
  count_of Q (accounts_of (queue p)) <= GlobalQueue (tp_config p) \/ forall a, a ∉ locals p -> Q a = [].

Lemma limit_queue_inv ex X p P Q : inv ex X p P Q ->
  exists p' Q', limit_queue p = Ok (p', inr tt) /\ inv ex X p' P Q' /\ same p p' /\ all p' ⊆ all p /\ keeps_full p P Q p' P Q' /\ pending p' = pending p /\ locals p' = locals p /\ within_queue p' Q'.
Proof.
  intros I. unfold limit_queue. go_step. cbv zeta. rewrite (count_queue _ _ _ _ _ I). destruct (Z.ltb_spec (GlobalQueue (tp_config p)) (count_of Q (accounts_of (queue p)))) as [Lt|Ge].
  2:{ exists p, Q. repeat (split; [done|]). split; [by intros b|]. split; [done|]. split; [done|]. by left. }
  set (addresses := List.filter _ _). set (sorted := go_sort _ _). assert (Ps : map fst sorted ≡ₚ addresses) by (unfold sorted; rewrite go_sort_Permutation, map_map; cbn; by rewrite map_id).
  assert (Ea : forall a, a ∈ addresses <-> is_Some (queue p !! a) /\ a ∉ locals p).
  { intros a. unfold addresses. rewrite list_elem_of_In, filter_In, <- list_elem_of_In, range_keys, elem_of_accounts. rewrite negb_true_iff, bool_decide_eq_false. done. }
  assert (Na : NoDup addresses).
  { unfold addresses. pose proof (accounts_NoDup (queue p)) as N. rewrite <- range_keys in N. clear -N. induction (map fst _) as [|x l IH]; [done|]. apply list.NoDup_cons in N as [Nx N]. cbn. destruct (negb _); [|by apply IH].
    constructor; [|by apply IH]. intros H%list_elem_of_In. apply filter_In in H as [H _]. by apply Nx, list_elem_of_In. }
  assert (Pr : map fst (reverse sorted) ≡ₚ addresses) by (rewrite reverse_Permutation; done).
  destruct (drop_queued_inv ex X P (accounts_of (queue p)) (accounts_NoDup _) (reverse sorted) (count_of Q (accounts_of (queue p)) - GlobalQueue (tp_config p)) p Q I) as (p' & Q' & E & I' & S' & A' & F' & Pe' & Lo' & D' & K' & C').
  { by rewrite Pr. } { intros a. rewrite Pr, Ea, elem_of_accounts. by intros [? _]. }
  exists p', Q'. split; [exact E|]. repeat (split; [done|]). unfold within_queue. rewrite (proj1 S'), Lo'. destruct C' as [C'|C'].
  - left. etrans; [apply (count_of_sub Q' (accounts_of (queue p)) (accounts_of (queue p')))|lia]; [apply accounts_NoDup|]. intros a. rewrite !elem_of_accounts. apply D'.
  - right. intros a Nl. destruct (queue p !! a) as [l|] eqn:El; [apply C'; rewrite Pr; apply Ea; by rewrite El|]. rewrite K'; [by apply (lists_hold_none _ _ _ a (iv_queue _ _ _ _ _ I))|].
    rewrite Pr, Ea, El. by intros [[] _].
Qed.

(** ** Promotion and additions *)

Lemma promoteExecutables_inv ex X now accounts p P Q : inv ex X p P Q -> sane p ->
  exists p' P' Q', promoteExecutables now accounts p = Ok (p', inr tt) /\ inv ex X p' P' Q' /\ same p p' /\ all p' ⊆ all p /\ keeps_full p P Q p' P' Q' /\ within_slots p' P' /\ within_queue p' Q'.
Proof.
  intros I Sn. unfold promoteExecutables. go_step. set (l := match accounts with Some l => l | None => _ end).
  destruct (promote_accounts_inv ex X now l p P Q I Sn) as (p1 & P1 & Q1 & E1 & I1 & S1 & A1 & F1). go_step E1.
  destruct (limit_pending_inv ex X p1 P1 Q1 I1 (sane_same _ _ Sn S1)) as (p2 & P2 & E2 & I2 & (S2 & A2 & Qu2 & Lo2 & D2) & F2 & W2). go_step E2.
  destruct (limit_queue_inv ex X p2 P2 Q1 I2) as (p3 & Q3 & E3 & I3 & S3 & A3 & F3 & Pe3 & Lo3 & W3).
  exists p3, P2, Q3. split; [exact E3|]. split; [done|]. split; [etrans; [exact S1|]; by etrans|]. split; [etrans; [exact A3|]; by etrans|]. split; [|split; [|done]].
  - intros b F. apply F3. apply F1 in F as [F F']. split; [by apply F2|]. unfold full_queue. by rewrite Qu2.
  - unfold within_slots. by rewrite Pe3, Lo3, (proj1 S3).
Qed.

(** A pool in order: the invariant holds, and no list is empty. *)
Definition pool_ok (ex : bool) p : Prop := exists P Q, inv ex [] p P Q /\ forall a, full p P Q a.

(** A pool within its limits. *)
Definition within_limits p : Prop := exists P Q, inv false [] p P Q /\ within_slots p P /\ within_queue p Q.

Lemma promoteExecutables_ok ex now accounts p : pool_ok ex p -> sane p ->
  exists p', promoteExecutables now accounts p = Ok (p', inr tt) /\ pool_ok ex p' /\ same p p' /\ all p' ⊆ all p /\ within_limits p'.
Proof.
  intros (P & Q & I & F) Sn. destruct (promoteExecutables_inv ex [] now accounts p P Q I Sn) as (p' & P' & Q' & E & I' & S' & A' & F' & W1 & W2).
  exists p'. split; [exact E|]. split; [exists P', Q'; split; [done|]; intros a; by apply F'|]. split; [done|]. split; [done|]. exists P', Q'. split; [by eapply inv_weaken|done].
Qed.

Lemma added_size p tx r p' P' Q' : added p tx r p' P' Q' -> (base.size (all p') <= S (base.size (all p)))%nat.
Proof.
  intros H. assert (Sub : all p' ⊆ <[txhash tx := tx]> (all p) \/ all p' ⊆ all p) by (destruct r; cbn in H; [by right|left; apply H]). destruct Sub as [Sub|Sub]; apply map_subseteq_size in Sub; [|lia].
  rewrite map_size_insert in Sub. destruct (all p !! txhash tx); unfold id in Sub; lia.
Qed.

Lemma add_ok ex p tx local : pool_ok ex p -> sane p -> 0 <= nonce tx < 2 ^ 64 -> Z.of_nat (base.size (all p)) < 2 ^ 24 ->
  exists p' r, add tx local p = Ok (p', r) /\ pool_ok ex p' /\ same p p' /\ (base.size (all p') <= S (base.size (all p)))%nat.
Proof.
  intros (P & Q & I & F) Sn Nx Rm. destruct (add_inv ex p P Q tx local I Sn Nx Rm) as (p' & r & P' & Q' & E & I' & S' & F' & Ad & _). exists p', r. split; [exact E|].
  split; [exists P', Q'; split; [done|]; intros a; by apply F'|]. split; [done|]. by eapply added_size.
Qed.

Lemma addTx_ok ex now p tx local : pool_ok ex p -> sane p -> 0 <= nonce tx < 2 ^ 64 -> Z.of_nat (base.size (all p)) < 2 ^ 24 ->
  exists p' r, addTx now tx local p = Ok (p', r) /\ pool_ok ex p' /\ same p p' /\ (base.size (all p') <= S (base.size (all p)))%nat.
Proof.
  intros K Sn Nx Rm. unfold addTx. destruct (add_ok ex p tx local K Sn Nx Rm) as (p1 & r & E1 & K1 & S1 & Z1). destruct r as [e|[]].
  - rewrite (go_bind_err _ _ _ _ _ E1). by eexists _, _.
  - go_step E1. by eexists _, _.
  - go_step E1. go_step. destruct (promoteExecutables_ok ex now (Some [from_of (tp_signer p1) tx]) p1 K1 (sane_same _ _ Sn S1)) as (p2 & E2 & K2 & S2 & A2 & _). eexists _, _. split; [exact E2|]. split; [done|]. split; [by etrans|]. apply map_subseteq_size in A2. lia.
Qed.

Lemma catch_run {A} (m : go TxPool pool_error A) p p' r : m p = Ok (p', r) -> catch m p = Ok (p', inr r).
Proof. intros E. unfold catch. by rewrite E. Qed.

Lemma add_each_ok ex local : forall l p dirty, pool_ok ex p -> sane p -> Forall (fun tx => 0 <= nonce tx < 2 ^ 64) l -> Z.of_nat (base.size (all p)) + Z.of_nat (length l) <= 2 ^ 24 ->
  exists p' r, add_each l local dirty p = Ok (p', inr r) /\ pool_ok ex p' /\ same p p' /\ length (fst r) = length l /\ (base.size (all p') <= base.size (all p) + length l)%nat.
Proof.
  induction l as [|tx l IH]; intros p dirty K Sn Nx Rm; cbn [add_each]; [exists p; eexists; split; [done|]; split; [done|]; split; [done|]; split; [done|]; lia|]. apply list.Forall_cons in Nx as [Nx Nl].
  destruct (add_ok ex p tx local K Sn Nx ltac:(cbn in Rm; lia)) as (p1 & r & E1 & K1 & S1 & L1). go_step (catch_run _ _ _ _ E1). go_step. set (d := match r with inr false => _ | _ => _ end).
  destruct (IH p1 d K1 (sane_same _ _ Sn S1) Nl ltac:(cbn in Rm; lia)) as (p2 & [errs d'] & E2 & K2 & S2 & L2 & Z2). go_step E2. exists p2. eexists. split; [done|]. split; [done|]. split; [by etrans|]. cbn in *. split; [by rewrite L2|lia].
Qed.

Lemma addTxsLocked_ok ex now local l p : pool_ok ex p -> sane p -> Forall (fun tx => 0 <= nonce tx < 2 ^ 64) l -> Z.of_nat (base.size (all p)) + Z.of_nat (length l) <= 2 ^ 24 ->
  exists p' errs, addTxsLocked now l local p = Ok (p', inr errs) /\ pool_ok ex p' /\ same p p' /\ length errs = length l /\ (base.size (all p') <= base.size (all p) + length l)%nat.
Proof.
  intros K Sn Nx Rm. unfold addTxsLocked. destruct (add_each_ok ex local l p ∅ K Sn Nx Rm) as (p1 & [errs d] & E1 & K1 & S1 & L1 & Z1). go_step E1.
  destruct (bool_decide (d = ∅)); [go_step; by exists p1, errs|]. destruct (promoteExecutables_ok ex now (Some (range (elements d))) p1 K1 (sane_same _ _ Sn S1)) as (p2 & E2 & K2 & S2 & A2 & _).
  go_step E2. exists p2, errs. split; [done|]. split; [done|]. split; [by etrans|]. split; [done|]. apply map_subseteq_size in A2. lia.
Qed.

(** ** Prices, eviction and removal *)

Lemma removeTx_ok ex h p : pool_ok ex p -> exists p', removeTx h p = Ok (p', inr tt) /\ pool_ok ex p' /\ same p p' /\ all p' = base.delete h (all p).
Proof.
  intros (P & Q & I & F). destruct (removeTx_inv ex [] p P Q h I) as (p' & P' & Q' & E & I' & S' & A' & F'). exists p'. split; [exact E|]. split; [exists P', Q'; split; [done|]; intros a; by apply F'|]. done.
Qed.

Lemma SetGasPrice_ok ex price p : pool_ok ex p -> exists p', SetGasPrice price p = Ok (p', inr tt) /\ pool_ok ex p' /\ same p p' /\ all p' ⊆ all p.
Proof.
  intros (P & Q & I & F). unfold SetGasPrice. go_step. go_step. set (p1 := set_gasPrice price p). assert (I1 : inv ex [] p1 P Q) by by destruct I.
  destruct (pl_Cap_holds (all p1) (is_local p1) price (priced p1) (iv_heap _ _ _ _ _ I1)) as (drop & gone & l & E & Hl & Pl & Fg & _). go_step (on_priced_run _ (fun _ => ErrUnderpriced) p1 _ l E).
  pose proof (inv_heap_pass ex [] p1 P Q drop gone l I1 Hl Pl Fg) as I2. destruct (remove_all_inv ex [] drop _ P Q I2) as (p3 & P3 & Q3 & E3 & I3 & S3 & A3 & F3).
  exists p3. split; [exact E3|]. split; [exists P3, Q3; split; [done|]; intros a; apply F3; apply F|]. done.
Qed.

Lemma evict_account ex p P Q a l : inv ex [] p P Q -> queue p !! a = Some l -> (forall b, full p P Q b) ->
  exists p', (txs ← on_queue a (TxPool.total tl_Flatten); remove_all txs : go TxPool pool_error unit) p = Ok (p', inr tt) /\ pool_ok ex p' /\ same p p' /\ all p' ⊆ all p.
Proof.
  intros I El F. destruct (lists_hold_some _ _ _ a l (iv_queue _ _ _ _ _ I) El) as [Hl Sl]. destruct (tl_Flatten_holds l (Q a) Hl) as (l' & Ef & Hl' & Sl').
  go_step (on_queue_total a tl_Flatten p l _ l' El Ef). set (p1 := set_queue (<[a := l']> (queue p)) p).
  assert (I1 : inv ex [] p1 P Q).
  { eapply (inv_ext _ _ _ P (upd a (Q a) Q)); [apply inv_cut_queue; [done|done|by rewrite Sl'|done]|done|]. intros b. by destruct (upd_cases a (Q a) Q b) as [[-> ->]|[_ ->]]. }
  destruct (remove_queued ex [] P a (Q a) p1 Q I1 (NoDup_fmap_1 nonce _ (ascending_nonces _ (sm_sorted _ _ (tl_map _ _ Hl)))) ltac:(done)) as (p2 & L & E2 & I2 & S2 & A2 & F2 & _).
  exists p2. split; [exact E2|]. split; [|by split]. eexists P, _. split; [exact I2|]. intros b. apply F2. destruct (F b) as [F1 Fq]. split; [done|]. intros Hs. apply Fq. apply elem_of_accounts.
  rewrite <- (accounts_insert (queue p) a l') by (by eexists). by apply elem_of_accounts.
Qed.

Lemma evict_ok ex now p : pool_ok ex p -> exists p', evict now p = Ok (p', inr tt) /\ pool_ok ex p' /\ same p p' /\ all p' ⊆ all p.
Proof.
  intros K. unfold evict. go_step. set (l := map fst _). clearbody l. revert p K. induction l as [|a l IH]; intros p K; cbn [for_each]; [by exists p|].
  assert (St : exists p1, (p ← gets (fun p => p);
      match queue p !! a with
      | None => mret tt
      | Some _ =>
        if bool_decide (a ∈ locals p) then mret tt
        else if Lifetime (tp_config p) <? since now (heartbeat p a) then txs ← on_queue a (TxPool.total tl_Flatten); remove_all txs else mret tt
      end : go TxPool pool_error unit) p = Ok (p1, inr tt) /\ pool_ok ex p1 /\ same p p1 /\ all p1 ⊆ all p).
  { go_step. destruct (queue p !! a) as [ql|] eqn:El; [|by exists p]. destruct (bool_decide _); [by exists p|]. destruct (_ <? _); [|by exists p]. destruct K as (P & Q & I & F). by eapply evict_account. }
  destruct St as (p1 & E1 & K1 & S1 & A1). rewrite (go_bind_ok _ _ _ _ _ E1). destruct (IH p1 K1) as (p2 & E2 & K2 & S2 & A2). exists p2. split; [exact E2|]. split; [done|]. split; by etrans.
Qed.

(** ** A new head *)

(** A part of a pending list goes, also from the index. *)
Lemma pending_step {A} X p P Q a l (f : txList -> outcome unit (A * txList)) x l' L removed :
  inv false X p P Q -> pending p !! a = Some l -> f l = Ok (x, l') -> tl_holds l' L -> strict l' = true -> (forall t, t ∈ L -> t ∈ P a) -> (forall t, t ∈ removed -> t ∈ P a /\ t ∉ L) ->
  exists p1 p2, on_pending a f p = Ok (p1, inr x) /\ forget_all removed p1 = Ok (p2, inr tt) /\ inv false X p2 (upd a L P) Q /\ same p p2 /\ pending p2 = <[a := l']> (pending p) /\ queue p2 = queue p /\
    pendingState p2 = pendingState p /\ all p2 ⊆ all p /\ forall h, h ∉ map txhash removed -> all p2 !! h = all p !! h.
Proof.
  intros I El Ef Hl Sl Sub Rm. set (p1 := set_pending (<[a := l']> (pending p)) p). pose proof (inv_cut_pending false X p P Q a l' L I Hl Sl Sub) as I1.
  destruct (forget_all_inv false X (upd a L P) Q removed p1 I1) as (p2 & E2 & I2 & (al & pl & -> & S2) & K2).
  { intros t Ht. destruct (Rm t Ht) as [Hp Nl]. by apply (unlisted_pending false X p P Q a L t). }
  eexists p1, _. split; [by apply (on_pending_run a f p l)|]. split; [exact E2|]. by repeat (split; [done|]).
Qed.

Lemma prefix_gone f L t : ascending L -> t ∈ unfit f L -> t ∈ L /\ t ∉ prefix_of f L.
Proof. intros _ [H E]%elem_of_filter_list. split; [done|]. intros [_ E']%elem_of_prefix. by rewrite E' in E. Qed.

(** The transactions that come after one that cannot be paid. *)
Lemma afloat_stranded X p P Q a f invalids p1 : inv false X p P Q -> invalids ≡ₚ stranded true f (P a) -> tp_signer p1 = tp_signer p ->
  (forall t, t ∈ P a -> f t = true -> all p1 !! txhash t = Some t) -> afloat p1 (upd a (prefix_of f (P a)) P) Q a invalids.
Proof.
  intros I Pi Sg Al. pose proof (lists_sorted _ _ _ a (iv_pending _ _ _ _ _ I)) as S. set (k := length (prefix_of f (P a))).
  assert (Hi : forall t, t ∈ invalids -> t ∈ drop k (P a) /\ f t = true) by (intros t Ht; rewrite Pi in Ht; by apply elem_of_filter_list in Ht).
  pose proof (ascending_nonces _ S) as N. rewrite <- (take_drop k (P a)), map_app in N. apply list.NoDup_app in N as (_ & N & _). split.
  - intros t Ht. destruct (Hi t Ht) as [Hd Ft]. pose proof (drop_in _ _ _ Hd) as Hp. assert (Hb : t ∈ P a ++ Q a) by (apply elem_of_app; by left). rewrite Sg.
    split; [by apply (iv_sender _ _ _ _ _ I)|]. split; [by apply (lists_nonces _ _ _ a _ (iv_pending _ _ _ _ _ I))|by apply Al].
  - rewrite Pi. by apply ascending_nonces, ascending_filter, ascending_drop.
  - intros t Ht. destruct (Hi t Ht) as [Hd _]. rewrite upd_eq, prefix_of_take. fold k. intros H. by apply (N (nonce t)); [|apply nonce_in].
  - intros t Ht Hq. destruct (Hi t Ht) as [Hd%drop_in _]. by apply (iv_apart _ _ _ _ _ I a (nonce t)); [apply nonce_in|].
Qed.

Lemma afloat_all X p P Q a p1 : inv false X p P Q -> tp_signer p1 = tp_signer p -> all p1 = all p -> afloat p1 (upd a [] P) Q a (reverse (P a)).
Proof.
  intros I Sg Al. pose proof (lists_sorted _ _ _ a (iv_pending _ _ _ _ _ I)) as S. split.
  - intros t Ht. rewrite elem_of_reverse in Ht. assert (Hb : t ∈ P a ++ Q a) by (apply elem_of_app; by left). rewrite Sg, Al.
    split; [by apply (iv_sender _ _ _ _ _ I)|]. split; [by apply (lists_nonces _ _ _ a _ (iv_pending _ _ _ _ _ I))|by apply (iv_listed _ _ _ _ _ I a)].
  - rewrite reverse_Permutation. by apply ascending_nonces.
  - intros t _. rewrite upd_eq. apply not_elem_of_nil.
  - intros t Ht Hq. rewrite elem_of_reverse in Ht. by apply (iv_apart _ _ _ _ _ I a (nonce t)); [apply nonce_in|].
Qed.

(** What a demotion leaves alone. *)
Definition demoted a p P p' P' : Prop :=
  same p p' /\ pendingState p' = pendingState p /\ all p' ⊆ all p /\ (forall b, b <> a -> pending p' !! b = pending p !! b /\ P' b = P b).

Lemma contiguous_keep c n L : contiguous c L -> exists c', n <= c' /\ contiguous c' (keep (before n) L).
Proof.
  intros C. destruct (Z.le_gt_cases c n) as [Le|Gt].
  - exists n. split; [done|]. rewrite (proj2 (contiguous_before c L n C Le)). destruct (Nat.le_gt_cases (Z.to_nat (n - c)) (length L)) as [Lk|Gk].
    + replace n with (c + Z.of_nat (Z.to_nat (n - c))) at 1 by lia. by apply contiguous_drop.
    + rewrite drop_ge by lia. done.
  - exists c. split; [lia|]. rewrite keep_all; [done|]. apply filter_none, list.Forall_forall. intros t Ht%nonce_in. apply (contiguous_in _ _ _ C) in Ht. unfold before. lia.
Qed.

(** The first part of a demotion: old and unpayable transactions go, those that come after them
    go back to the queue. *)
Lemma demote_first X p P Q a l k : inv false X p P Q -> pending p !! a = Some l ->
  let n := state_nonce p a in let f := payable (st_GetBalance a (currentState p)) (currentMaxGas p) in let L := prefix_of f (keep (before n) (P a)) in
  exists p1 Q1 l1,
    (old ← on_pending a (tl_Forward n);
     forget_all old;;
     '(drops, invalids) ← on_pending a (fun l => let '(d, i, l) := tl_Filter (st_GetBalance a (currentState p)) (currentMaxGas p) l in Ok ((d, i), l));
     forget_all drops;;
     for_each postpone invalids;; k : go TxPool pool_error unit) p = k p1 /\
    inv false X p1 (upd a L P) Q1 /\ pending p1 = <[a := l1]> (pending p) /\ same p p1 /\ pendingState p1 = pendingState p /\ all p1 ⊆ all p /\ forall b, full_queue p Q b -> full_queue p1 Q1 b.
Proof.
  intros I El n f L. destruct (lists_hold_some _ _ _ a l (iv_pending _ _ _ _ _ I) El) as [Hl Sl]. set (L1 := keep (before n) (P a)) in *.
  destruct (tl_Forward_holds l (P a) n Hl) as (l1 & Ef & Hl1 & Sl1). destruct (pending_step X p P Q a l _ _ l1 L1 (List.filter (before n) (P a)) I El Ef Hl1) as (p1 & p2 & E1 & E2 & I2 & S2 & P2 & Q2 & M2 & A2 & _).
  { by rewrite Sl1. } { by intros t [Ht _]%elem_of_keep. } { intros t. apply filtered_gone. }
  go_step E1. go_step E2. destruct (tl_Filter_holds l1 L1 (st_GetBalance a (currentState p)) (currentMaxGas p) Hl1) as (drops & inval & l2 & Ei & Pd & Pi & Hl2 & Sl2). rewrite Sl1, Sl in *. cbn [filtered] in Hl2.
  destruct (pending_step X p2 (upd a L1 P) Q a l1 (fun l => let '(d, i, l) := tl_Filter (st_GetBalance a (currentState p)) (currentMaxGas p) l in Ok ((d, i), l)) (drops, inval) l2 L drops I2) as (p3 & p4 & E3 & E4 & I4 & S4 & P4 & Q4 & M4 & A4 & K4).
  { rewrite P2. apply lookup_insert_eq. } { by rewrite Ei. } { done. } { done. } { rewrite upd_eq. by intros t [Ht _]%elem_of_prefix. }
  { rewrite upd_eq. intros t Ht. rewrite Pd in Ht. by apply prefix_gone in Ht; [|apply Hl1]. }
  go_step E3. go_step E4. assert (Eq : forall b, upd a L (upd a L1 P) b = upd a L P b) by (intros b; unfold upd; by destruct (decide (b = a))).
  assert (I4' : inv false X p4 (upd a L P) Q) by by eapply inv_ext.
  destruct (postpone_all false X (upd a L P) a inval p4 Q I4') as (p5 & E5 & I5 & O5 & A5 & F5).
  { pose proof (afloat_stranded X p2 (upd a L1 P) Q a f inval p4 I2) as Af. rewrite upd_eq in Af. assert (Af' : afloat p4 (upd a (prefix_of f L1) (upd a L1 P)) Q a inval).
    - apply Af; [done|by apply S4|]. intros t Ht Ft. rewrite K4; [apply (iv_listed _ _ _ _ _ I2 a); rewrite upd_eq; apply elem_of_app; by left|].
      intros (d & Eh & Hd)%list_elem_of_fmap. rewrite Pd in Hd. apply elem_of_filter_list in Hd as [Hd Fd]. destruct (listed_once _ _ _ _ _ a a t d I2) as [-> _]; [rewrite upd_eq; apply elem_of_app; by left..|done|]. unfold f in Ft. by rewrite Ft in Fd.
    - destruct Af' as [B1 B2 B3 B4]. split; try done. intros t Ht. rewrite <- Eq. by apply B3. }
  rewrite (go_bind_ok _ _ _ _ _ E5). destruct (queue_only_same _ _ O5) as (S5 & P5 & M5). exists p5. eexists _, l2. split; [done|]. split; [exact I5|]. split; [by rewrite P5, P4, P2, insert_insert_eq|].
  split; [etrans; [exact S2|]; by etrans|]. split; [congruence|]. split; [rewrite A5; by etrans|]. intros b F. apply F5. unfold full_queue. by rewrite Q4, Q2.
Qed.

(** The second part: a list that does not start at the nonce of the state goes back as a whole. *)
Lemma demote_gap X p P Q a l : inv false X p P Q -> pending p !! a = Some l ->
  exists p1 L Q1 l1,
    (if (0 <? tl_Len l) && bool_decide (sm_Get (state_nonce p a) (txs l) = None) then
       gapped ← on_pending a (tl_Cap 0); for_each postpone gapped
     else mret tt : go TxPool pool_error unit) p = Ok (p1, inr tt) /\
    inv false X p1 (upd a L P) Q1 /\ pending p1 = <[a := l1]> (pending p) /\ tl_holds l1 L /\ same p p1 /\ pendingState p1 = pendingState p /\ all p1 = all p /\ (forall b, full_queue p Q b -> full_queue p1 Q1 b) /\
    L = (if bool_decide (state_nonce p a ∈ map nonce (P a)) then P a else []).
Proof.
  intros I El. destruct (lists_hold_some _ _ _ a l (iv_pending _ _ _ _ _ I) El) as [Hl Sl]. rewrite (tl_Len_holds _ _ Hl), (sm_Get_nonces _ _ _ (tl_map _ _ Hl)).
  destruct ((0 <? Z.of_nat (length (P a))) && bool_decide (by_nonces (P a) !! state_nonce p a = None)) eqn:B.
  - destruct (tl_Cap_holds l (P a) 0 Hl) as (l1 & Ec & Hl1 & Sl1). change (Z.of_nat 0) with 0 in Ec. rewrite drop_0, take_0 in *. go_step (on_pending_run a _ p l _ l1 El Ec).
    set (p1 := set_pending (<[a := l1]> (pending p)) p). assert (I1 : inv false X p1 (upd a [] P) Q) by (apply (inv_cut_pending false); [done|done|by rewrite Sl1|by intros t ?%elem_of_nil]).
    destruct (postpone_all false X (upd a [] P) a (reverse (P a)) p1 Q I1) as (p2 & E2 & I2 & O2 & A2 & F2); [by apply (afloat_all X p)|]. destruct (queue_only_same _ _ O2) as (S2 & P2 & M2).
    exists p2, []. eexists _, l1. split; [exact E2|]. split; [exact I2|]. split; [by rewrite P2|]. split; [done|]. split; [done|]. split; [done|]. split; [done|]. split; [exact F2|].
    apply andb_prop in B as [_ B]. apply bool_decide_eq_true in B. by rewrite bool_decide_eq_false_2 by (by apply by_nonces_none in B; [|apply Hl]).
  - exists p, (P a), Q, l. split; [done|]. split; [eapply inv_ext; [done| |done]; intros b; by destruct (upd_cases a (P a) P b) as [[-> ->]|[_ ->]]|]. split; [by rewrite insert_id|]. do 5 (split; [done|]).
    destruct (bool_decide_reflect (state_nonce p a ∈ map nonce (P a))) as [Hn|Hn]; [done|]. apply andb_false_iff in B as [B|B]; [apply Z.ltb_ge in B; destruct (P a); [done|cbn [length] in B; lia]|].
    apply bool_decide_eq_false in B. destruct B. apply by_nonces_none; [apply Hl|done].
Qed.

(** What a demotion keeps of the pending transactions of an account, in the order of nonces:
    those from the nonce of the state on up to the first that the account cannot pay or that
    does not fit into a block, if the nonce of the state is among them. *)
Definition demoted_txs p a (L : list Transaction) : list Transaction :=
  let n := state_nonce p a in
  let K := prefix_of (payable (st_GetBalance a (currentState p)) (currentMaxGas p)) (keep (before n) L) in
  if bool_decide (n ∈ map nonce K) then K else [].

Lemma demoted_contiguous p a c L : contiguous c L -> contiguous (state_nonce p a) (demoted_txs p a L).
Proof.
  intros C. unfold demoted_txs. cbv zeta. set (K := prefix_of _ _). destruct (contiguous_keep c (state_nonce p a) L C) as (c' & Lc & C').
  assert (CK : contiguous c' K) by (unfold K; rewrite prefix_of_take; by apply contiguous_take).
  case_bool_decide as Hn; [|done]. apply (contiguous_in _ _ _ CK) in Hn. by replace (state_nonce p a) with c' by lia.
Qed.

Lemma demote_account_inv X p P Q a : inv false X p P Q -> is_Some (pending p !! a) ->
  exists p' P' Q', demote_account a p = Ok (p', inr tt) /\ inv false X p' P' Q' /\ demoted a p P p' P' /\ (forall b, full_queue p Q b -> full_queue p' Q' b) /\ full_pending p' P' a /\
    P' a = demoted_txs p a (P a).
Proof.
  intros I [l El]. unfold demote_account. go_step.
  edestruct (demote_first X p P Q a l) as (p1 & Q1 & l1 & E1 & I1 & P1 & S1 & M1 & A1 & F1); [done|done|]. cbv zeta. erewrite E1. clear E1. set (f := payable _ _) in *. set (L := prefix_of f _) in *.
  go_step. assert (El1 : pending p1 !! a = Some l1) by (rewrite P1; apply lookup_insert_eq). rewrite El1. cbn [deref]. go_step.
  destruct (demote_gap X p1 (upd a L P) Q1 a l1 I1 El1) as (p2 & L2 & Q2 & l2 & E2 & I2 & P2 & Hl2 & S2 & M2 & A2 & F2 & C2). unfold state_nonce in E2. rewrite (proj1 (proj2 (proj2 S1))) in E2.
  go_step E2. unfold modify. assert (Eq : forall b, upd a L2 (upd a L P) b = upd a L2 P b) by (intros b; unfold upd; by destruct (decide (b = a))).
  assert (I2' : inv false X p2 (upd a L2 P) Q2) by by eapply inv_ext. assert (El2 : pending p2 !! a = Some l2) by (rewrite P2; apply lookup_insert_eq). rewrite El2, (tl_Empty_holds _ _ Hl2).
  assert (Ct : upd a L2 P a = demoted_txs p a (P a)).
  { rewrite upd_eq, C2, upd_eq. unfold demoted_txs, state_nonce. by rewrite (proj1 (proj2 (proj2 S1))). }
  assert (S02 : same p p2) by by etrans. assert (A02 : all p2 ⊆ all p) by by rewrite A2. assert (O : forall b, b <> a -> pending p2 !! b = pending p !! b) by (intros b Nb; by rewrite P2, lookup_insert_ne, P1, lookup_insert_ne by done).
  destruct (bool_decide_reflect (L2 = [])) as [->|N2].
  - eexists _, (upd a [] P), Q2. split; [done|]. split; [destruct I2'; split; try done; cbn; apply lists_hold_delete; [done|apply upd_eq]|]. split; [|split; [intros b F; by apply F2, F1|split; [|done]]].
    + split; [done|]. split; [by cbn; rewrite M2|]. split; [done|]. intros b Nb. cbn. rewrite lookup_delete_ne by done. split; [by apply O|by apply upd_ne].
    + intros Hs. cbn in Hs. rewrite lookup_delete_eq in Hs. by destruct Hs.
  - exists p2, (upd a L2 P), Q2. split; [done|]. split; [done|]. split; [|split; [intros b F; by apply F2, F1|split; [|done]]].
    + split; [done|]. split; [by rewrite M2|]. split; [done|]. intros b Nb. split; [by apply O|by apply upd_ne].
    + intros _. by rewrite upd_eq.
Qed.

Lemma demote_all X : forall l p P Q, inv false X p P Q -> NoDup l -> (forall a, a ∈ l -> is_Some (pending p !! a)) ->
  exists p' P' Q', for_each demote_account l p = Ok (p', inr tt) /\ inv false X p' P' Q' /\ same p p' /\ pendingState p' = pendingState p /\ all p' ⊆ all p /\ (forall b, full_queue p Q b -> full_queue p' Q' b) /\
    (forall a, a ∉ l -> pending p' !! a = pending p !! a /\ P' a = P a) /\
    (forall a, a ∈ l -> full_pending p' P' a /\ P' a = demoted_txs p a (P a)).
Proof.
  induction l as [|a l IH]; intros p P Q I N Hs; cbn [for_each]; [exists p, P, Q; do 7 (split; [done|]); intros a Ha; by apply elem_of_nil in Ha|]. apply list.NoDup_cons in N as [Na N].
  destruct (demote_account_inv X p P Q a I (Hs a ltac:(by left))) as (p1 & P1 & Q1 & E1 & I1 & (S1 & M1 & A1 & O1) & F1 & Fp1 & C1). go_step E1.
  destruct (IH p1 P1 Q1 I1 N) as (p2 & P2 & Q2 & E2 & I2 & S2 & M2 & A2 & F2 & O2 & C2).
  { intros b Hb. destruct (O1 b) as [-> _]; [by intros ->|]. apply Hs. by right. }
  exists p2, P2, Q2. split; [exact E2|]. split; [done|]. split; [by etrans|]. split; [congruence|]. split; [by etrans|]. split; [intros b F; by apply F2, F1|]. split.
  - intros b [Nb Hb]%list.not_elem_of_cons. destruct (O2 b Hb) as [-> ->]. by apply O1.
  - intros b [->|Hb]%list.elem_of_cons.
    + destruct (O2 a Na) as [Ep EP]. unfold full_pending. rewrite Ep, EP. by split.
    + destruct (C2 b Hb) as [Fb Cb]. split; [done|]. destruct (O1 b) as [_ <-]; [by intros ->|]. rewrite Cb. unfold demoted_txs, state_nonce. by rewrite (proj1 (proj2 (proj2 S1))), (proj2 (proj2 (proj2 S1))).
Qed.

(** The next nonces of the accounts of [l] come after their pending transactions. *)
Lemma renonce_all X P Q : forall l p, inv false X p P Q -> NoDup l -> (forall a, a ∈ l -> P a <> []) ->
  exists p', for_each renonce l p = Ok (p', inr tt) /\ inv false X p' P Q /\ same p p' /\ all p' = all p /\ queue p' = queue p /\ accounts_of (pending p') = accounts_of (pending p) /\
    (forall a, a ∉ l -> next_nonce p' a = next_nonce p a) /\ (forall a t, a ∈ l -> list.last (P a) = Some t -> next_nonce p' a = u64 (nonce t + 1)).
Proof.
  induction l as [|a l IH]; intros p I N Ne; cbn [for_each]; [exists p; do 7 (split; [done|]); intros a t Ha; by apply elem_of_nil in Ha|]. apply list.NoDup_cons in N as [Na N].
  pose proof (lists_is_Some _ _ _ a (iv_pending _ _ _ _ _ I) (Ne a ltac:(by left))) as Ia. pose proof Ia as [l0 El]. destruct (lists_hold_some _ _ _ a l0 (iv_pending _ _ _ _ _ I) El) as [Hl Sl].
  destruct (tl_Flatten_holds l0 (P a) Hl) as (l1 & Ef & Hl1 & Sl1). destruct (list.last (P a)) as [t|] eqn:Elast; [|apply last_None in Elast; by destruct (Ne a ltac:(by left))].
  set (p1 := set_pending (<[a := l1]> (pending p)) p). set (p2 := set_pendingState (ms_SetNonce a (u64 (nonce t + 1)) (pendingState p1)) p1).
  assert (E1 : renonce a p = Ok (p2, inr tt)).
  { unfold renonce. go_step (on_pending_total a tl_Flatten p l0 _ l1 El Ef). rewrite Elast. cbn [deref]. go_step. done. }
  assert (I2 : inv false X p2 P Q).
  { eapply inv_nonces. eapply (inv_ext _ _ _ (upd a (P a) P) Q); [apply (inv_cut_pending false); [done|done|by rewrite Sl1|done]| |done]. intros b. by destruct (upd_cases a (P a) P b) as [[-> ->]|[_ ->]]. }
  go_step E1. destruct (IH p2 I2 N) as (p3 & E3 & I3 & S3 & A3 & Q3 & D3 & O3 & N3); [intros b Hb; apply Ne; by right|]. exists p3. split; [exact E3|]. split; [done|]. split; [done|]. split; [done|]. split; [done|].
  split; [rewrite D3; by apply accounts_insert|]. split.
  - intros b [Nb Hb]%list.not_elem_of_cons. rewrite O3 by done. by apply ms_other.
  - intros b t' [->|Hb]%list.elem_of_cons Et; [|by apply (N3 b)]. rewrite O3 by done. assert (t' = t) as -> by congruence. apply ms_set.
Qed.

(** The state of a new head is in place. *)
Lemma inv_states ex X p P Q c m g : inv ex X p P Q -> inv false X (set_states c m g p) P Q.
Proof. intros []. by split. Qed.

Lemma renonce_executable X P Q p p1 (l : list bytes) : inv false X p P Q -> sane p -> (forall a, contiguous (state_nonce p a) (P a)) -> (forall a, next_nonce p a = state_nonce p a) ->
  (forall a, a ∉ l -> P a = []) -> same p p1 -> (forall a, a ∉ l -> next_nonce p1 a = next_nonce p a) -> (forall a t, a ∈ l -> list.last (P a) = Some t -> next_nonce p1 a = u64 (nonce t + 1)) ->
  (forall a, a ∈ l -> P a <> []) -> executable p1 P.
Proof.
  intros I Sn C M Nl S1 O1 N1 Ne a. unfold state_nonce. rewrite (proj1 (proj2 (proj2 S1))). fold (state_nonce p a). split; [done|]. destruct (decide (a ∈ l)) as [Ha|Ha].
  - destruct (list.last (P a)) as [t|] eqn:Elast; [|apply last_None in Elast; by destruct (Ne a Ha)]. rewrite (N1 a t Ha Elast), (last_contiguous _ _ _ (C a) Elast).
    pose proof (sn_nonces _ Sn a). destruct (room_list _ _ _ _ _ a I). assert (length (P a) <> O) by (destruct (P a); [done|cbn; lia]). rewrite u64_small by (unfold is_u64; lia). lia.
  - rewrite O1, M, (Nl a Ha) by done. cbn. lia.
Qed.

(** The pool after the state of the head is in place and the transactions of blocks that were
    undone are back, without a guarantee on the order of the nonces. *)
Lemma settle_head ex now p P Q : inv false [] p P Q -> (forall a, full p P Q a) -> sane p ->
  (ex = true -> (forall a, exists c, contiguous c (P a)) /\ forall a, next_nonce p a = state_nonce p a) ->
  exists p', (demoteUnexecutables;; p ← gets (fun p => p); for_each renonce (map fst (range (map_to_list (pending p))));; promoteExecutables now None : go TxPool pool_error unit) p = Ok (p', inr tt) /\
    pool_ok ex p' /\ same p p' /\ all p' ⊆ all p /\ within_limits p'.
Proof.
  intros I F Sn Hx. unfold demoteUnexecutables. set (l := map fst (range (map_to_list (pending p)))). assert (Pl : l ≡ₚ accounts_of (pending p)) by apply range_keys.
  destruct (demote_all [] l p P Q I) as (p1 & P1 & Q1 & E1 & I1 & S1 & M1 & A1 & F1 & O1 & C1); [rewrite Pl; apply accounts_NoDup|intros a; by rewrite Pl, elem_of_accounts|].
  rewrite (go_bind_ok _ _ p p1 tt) by (go_step; exact E1). go_step. set (l1 := map fst (range (map_to_list (pending p1)))). assert (Pl1 : l1 ≡ₚ accounts_of (pending p1)) by apply range_keys.
  assert (Full1 : forall a, full p1 P1 Q1 a).
  { intros a. split; [|apply F1, F]. destruct (decide (a ∈ l)) as [Ha|Ha]; [by apply C1|]. destruct (O1 a Ha) as [Ep EP]. unfold full_pending. rewrite Ep, EP. apply F. }
  assert (Ne1 : forall a, a ∈ l1 -> P1 a <> []) by (intros a Ha; apply (Full1 a); apply elem_of_accounts; by rewrite <- Pl1).
  destruct (renonce_all [] P1 Q1 l1 p1 I1) as (p2 & E2 & I2 & S2 & A2 & Q2 & D2 & O2 & N2); [rewrite Pl1; apply accounts_NoDup|done|].
  go_step E2. assert (S02 : same p p2) by by etrans. assert (Full2 : forall a, full p2 P1 Q1 a).
  { intros a. destruct (Full1 a) as [G1 G2]. split; [intros Hs; apply G1; apply elem_of_accounts; rewrite <- D2; by apply elem_of_accounts|]. unfold full_queue. by rewrite Q2. }
  destruct (promoteExecutables_ok ex now None p2) as (p3 & E3 & K3 & S3 & A3 & W3); [|by apply (sane_same p)|exists p3; split; [exact E3|]; split; [done|]; split; [by etrans|]; split; [|done]; etrans; [exact A3|]; by rewrite A2].
  exists P1, Q1. split; [|done]. apply inv_executable; [done|]. intros Hex. destruct (Hx Hex) as [Cg Mn].
  assert (Nl1 : forall a, a ∉ l1 -> P1 a = []).
  { intros a Ha. rewrite Pl1, elem_of_accounts in Ha. apply (lists_hold_none _ _ _ a (iv_pending _ _ _ _ _ I1)). destruct (pending p1 !! a); [|done]. by destruct Ha. }
  apply (renonce_executable [] P1 Q1 p1 p2 l1); try done; [by apply (sane_same p)| |].
  - intros a. unfold state_nonce. rewrite (proj1 (proj2 (proj2 S1))). fold (state_nonce p a). destruct (decide (a ∈ l)) as [Ha|Ha]; [destruct (Cg a) as [c Hc]; rewrite (proj2 (C1 a Ha)); by eapply demoted_contiguous|].
    destruct (O1 a Ha) as [_ ->]. rewrite Pl, elem_of_accounts in Ha. rewrite (lists_hold_none _ _ _ a (iv_pending _ _ _ _ _ I)); [done|]. destruct (pending p !! a); [|done]. by destruct Ha.
  - intros a. unfold next_nonce, state_nonce. rewrite M1, (proj1 (proj2 (proj2 S1))). apply Mn.
Qed.

Lemma reset_to_ok ex StateAt now newHead reinject p statedb : pool_ok ex p -> StateAt (hd_Root newHead) = Some statedb -> sane (set_states statedb (ManageState statedb) (default 0 (hd_GasLimit newHead)) p) ->
  Forall (fun tx => 0 <= nonce tx < 2 ^ 64) reinject -> Z.of_nat (base.size (all p)) + Z.of_nat (length reinject) <= 2 ^ 24 ->
  exists p', reset_to StateAt now newHead reinject p = Ok (p', inr tt) /\ pool_ok (ex && bool_decide (length reinject = 0%nat)) p' /\ currentState p' = statedb /\ tp_config p' = tp_config p /\ (base.size (all p') <= base.size (all p) + length reinject)%nat /\ within_limits p'.
Proof.
  intros (P & Q & I & F) Es Sn Nx Rm. unfold reset_to. rewrite Es. go_step. set (p1 := set_states _ _ _ p) in *. assert (I1 : inv false [] p1 P Q) by by eapply inv_states.
  assert (Mn : forall a, next_nonce p1 a = state_nonce p1 a) by (intros a; apply ms_managed).
  destruct reinject as [|tx l].
  - rewrite (go_bind_ok _ _ p1 p1 [] eq_refl). cbn beta iota. destruct (settle_head ex now p1 P Q I1 F Sn) as (p2 & E2 & K2 & S2 & A2 & W2).
    { intros ->. split; [|done]. intros a. eexists. by apply (iv_run _ _ _ _ _ I eq_refl a). }
    exists p2. split; [exact E2|]. rewrite bool_decide_true, andb_true_r by done. split; [done|]. destruct S2 as (Cf & _ & -> & _). split; [done|]. split; [done|]. split; [|done]. apply map_subseteq_size in A2. cbn in *. lia.
  - destruct (addTxsLocked_ok false now false (tx :: l) p1) as (p2 & errs & E2 & (P2 & Q2 & I2 & F2) & S2 & _ & Z2); [by exists P, Q|done|done|done|]. go_step E2.
    destruct (settle_head false now p2 P2 Q2 I2 F2 (sane_same _ _ Sn S2)) as (p3 & E3 & K3 & S3 & A3 & W3); [done|]. exists p3. split; [exact E3|]. rewrite bool_decide_false, andb_false_r by done. split; [done|].
    destruct S3 as (Cf3 & _ & -> & _), S2 as (Cf2 & _ & -> & _). split; [done|]. split; [by rewrite Cf3, Cf2|]. split; [|done]. apply map_subseteq_size in A3. cbn in *. lia.
Qed.

(** ** Properties of the pool *)

(** Calls of the pool by the rest of the program, and ticks of its own timer.  A reset comes
    with the state of a head that is a child of the one before it. *)
Inductive pool_op :=
| OpAddTx (now : Z) (tx : Transaction) (local : bool)
| OpAddTxs (now : Z) (txs : list Transaction) (local : bool)
| OpRemove (hash : bytes)
| OpSetGasPrice (price : Z)
| OpEvict (now : Z)
| OpNewHead (now : Z) (head : Header) (statedb : cstate).

Definition drop_result {A} (m : go TxPool pool_error A) : go TxPool pool_error unit := _ ← catch m; mret tt.

Definition run_pool_op (op : pool_op) : go TxPool pool_error unit :=
  match op with
  | OpAddTx now tx local => drop_result (addTx now tx local)
  | OpAddTxs now txs local => drop_result (addTxsLocked now txs local)
  | OpRemove h => removeTx h
  | OpSetGasPrice g => SetGasPrice g
  | OpEvict now => evict now
  | OpNewHead now head statedb => reset_to (fun root => if bool_decide (root = hd_Root head) then Some statedb else None) now head []
  end.

Definition run_pool (ops : list pool_op) : go TxPool pool_error unit := for_each run_pool_op ops.

(** The transactions that an operation may bring in. *)
Definition op_txs (op : pool_op) : list Transaction := match op with OpAddTx _ tx _ => [tx] | OpAddTxs _ txs _ => txs | _ => [] end.

Definition op_sane (op : pool_op) : Prop :=
  Forall (fun tx => 0 <= nonce tx < 2 ^ 64) (op_txs op) /\ match op with OpNewHead _ _ statedb => forall a, 0 <= st_GetNonce a statedb < 2 ^ 63 | _ => True end.

(** The transactions of a list are signed by the account and known to the pool. *)
Definition signed_known p a (L : list Transaction) : Prop := Forall (fun tx => sender (tp_signer p) tx = Some a /\ Get (txhash tx) p = Some tx) L.

(** What the callers of the pool rely on. *)
Record consistent p : Prop := mkConsistent {
  cs_pending : forall a l, pending p !! a = Some l -> let L := fst (tl_Flatten l) in
    L <> [] /\ signed_known p a L /\ map nonce L = seqZ (st_GetNonce a (currentState p)) (Z.of_nat (length L)) /\
    ms_GetNonce a (pendingState p) = st_GetNonce a (currentState p) + Z.of_nat (length L);
  cs_none : forall a, pending p !! a = None -> ms_GetNonce a (pendingState p) = st_GetNonce a (currentState p);
  cs_queue : forall a l, queue p !! a = Some l -> let L := fst (tl_Flatten l) in L <> [] /\ signed_known p a L /\ ascending L;
  cs_apart : forall a l l' tx tx', pending p !! a = Some l -> queue p !! a = Some l' -> tx ∈ fst (tl_Flatten l) -> tx' ∈ fst (tl_Flatten l') -> nonce tx <> nonce tx';
  cs_hash : forall h tx, Get h p = Some tx -> txhash tx = h /\ tx ∈ pitems (priced p)
}.

Lemma flatten_content s m F a l : lists_hold s m F -> m !! a = Some l -> fst (tl_Flatten l) = F a.
Proof. intros H E. destruct (lists_hold_some _ _ _ a l H E) as [Hl _]. by destruct (tl_Flatten_holds l (F a) Hl) as (l' & -> & _). Qed.

Lemma pool_ok_consistent p : pool_ok true p -> consistent p.
Proof.
  intros (P & Q & I & F). pose proof (iv_run _ _ _ _ _ I eq_refl) as Ex. assert (SK : forall a L, (forall t, t ∈ L -> t ∈ P a ++ Q a) -> signed_known p a L).
  { intros a L Sub. apply list.Forall_forall. intros t Ht%Sub. split; [by apply (iv_sender _ _ _ _ _ I)|by apply (iv_listed _ _ _ _ _ I a)]. }
  split.
  - intros a l E. rewrite (flatten_content _ _ _ a l (iv_pending _ _ _ _ _ I) E). cbv zeta. split; [apply F; by eexists|]. split; [apply SK; intros t Ht; apply elem_of_app; by left|]. apply Ex.
  - intros a E. destruct (Ex a) as [_ N]. rewrite (lists_hold_none _ _ _ a (iv_pending _ _ _ _ _ I) E) in N. unfold next_nonce, state_nonce in N. cbn in N. lia.
  - intros a l E. rewrite (flatten_content _ _ _ a l (iv_queue _ _ _ _ _ I) E). cbv zeta. split; [apply F; by eexists|]. split; [apply SK; intros t Ht; apply elem_of_app; by right|].
    apply (lists_sorted _ _ _ a (iv_queue _ _ _ _ _ I)).
  - intros a l l' tx tx' E E'. rewrite (flatten_content _ _ _ a l (iv_pending _ _ _ _ _ I) E), (flatten_content _ _ _ a l' (iv_queue _ _ _ _ _ I) E'). intros H H' En.
    apply (iv_apart _ _ _ _ _ I a (nonce tx)); [by apply nonce_in|]. rewrite En. by apply nonce_in.
  - intros h tx E. destruct (iv_all _ _ _ _ _ I h tx E) as [Eh _]. split; [done|]. destruct (iv_priced _ _ _ _ _ I h tx E) as [H|H]; [done|by apply elem_of_nil in H].
Qed.

(** The limits of the configuration. *)
Definition sane_config (c : TxPoolConfig) : Prop :=
  1 <= AccountSlots c < 2 ^ 64 /\ 0 <= AccountQueue c < 2 ^ 63 /\ 0 <= GlobalSlots c < 2 ^ 63 /\ 0 <= GlobalQueue c < 2 ^ 63.

Lemma new_pool_ok c chainId statedb : pool_ok true (new_pool c chainId statedb).
Proof.
  exists (fun _ => []), (fun _ => []). split; [|intros a; split; intros Hs; cbn in Hs; rewrite lookup_empty in Hs; by destruct Hs]. split; cbn.
  - intros a. by rewrite lookup_empty.
  - intros a. by rewrite lookup_empty.
  - intros a tx H. by apply elem_of_nil in H.
  - intros a tx H. by apply elem_of_nil in H.
  - intros a n H. by apply elem_of_nil in H.
  - intros h tx H. by rewrite lookup_empty in H.
  - apply heap_nil.
  - intros h tx H. by rewrite lookup_empty in H.
  - rewrite map_size_empty. lia.
  - intros _ a. split; [done|]. unfold next_nonce, state_nonce. cbn. rewrite ms_managed. lia.
Qed.

Lemma drop_result_run {A} (m : go TxPool pool_error A) p p' r : m p = Ok (p', r) -> drop_result m p = Ok (p', inr tt).
Proof. intros E. unfold drop_result. by rewrite (go_bind_ok _ _ _ _ _ (catch_run _ _ _ _ E)). Qed.

Lemma sane_of c p : tp_config p = c -> sane_config c -> (forall a, 0 <= state_nonce p a < 2 ^ 63) -> sane p.
Proof. intros <- (A & B & C & D) E. by split. Qed.

(** Every operation returns and keeps the pool in order. *)
Lemma run_pool_op_ok op p : pool_ok true p -> sane p -> op_sane op -> Z.of_nat (base.size (all p)) + Z.of_nat (length (op_txs op)) <= 2 ^ 24 ->
  exists p', run_pool_op op p = Ok (p', inr tt) /\ pool_ok true p' /\ sane p' /\ tp_config p' = tp_config p /\ (base.size (all p') <= base.size (all p) + length (op_txs op))%nat.
Proof.
  intros K Sn [Nx So] Rm. destruct op as [now tx local|now txs local|h|g|now|now head st]; cbn [run_pool_op op_txs] in *.
  - apply list.Forall_cons in Nx as [Nx _]. destruct (addTx_ok true now p tx local K Sn Nx ltac:(cbn in Rm; lia)) as (p' & r & E & K' & S' & Z'). exists p'. split; [by eapply drop_result_run|].
    split; [done|]. split; [by eapply sane_same|]. split; [apply S'|cbn; lia].
  - destruct (addTxsLocked_ok true now local txs p K Sn Nx Rm) as (p' & errs & E & K' & S' & _ & Z'). exists p'. split; [by eapply drop_result_run|]. split; [done|]. split; [by eapply sane_same|]. split; [apply S'|lia].
  - destruct (removeTx_ok true h p K) as (p' & E & K' & S' & A'). exists p'. split; [done|]. split; [done|]. split; [by eapply sane_same|]. split; [apply S'|]. rewrite A'.
    pose proof (map_subseteq_size _ _ (delete_subseteq (all p) h)). cbn. lia.
  - destruct (SetGasPrice_ok true g p K) as (p' & E & K' & S' & A'). exists p'. split; [done|]. split; [done|]. split; [by eapply sane_same|]. split; [apply S'|]. apply map_subseteq_size in A'. cbn. lia.
  - destruct (evict_ok true now p K) as (p' & E & K' & S' & A'). exists p'. split; [done|]. split; [done|]. split; [by eapply sane_same|]. split; [apply S'|]. apply map_subseteq_size in A'. cbn. lia.
  - destruct Sn as [A B C D _]. destruct (reset_to_ok true (fun root => if bool_decide (root = hd_Root head) then Some st else None) now head [] p st K) as (p' & E & K' & C' & G' & Z' & _); [by rewrite bool_decide_true|by split|done|cbn; lia|].
    exists p'. split; [done|]. split; [done|]. split; [apply (sane_of (tp_config p)); [done|done|]; intros a; unfold state_nonce; by rewrite C'|]. by split.
Qed.

Lemma run_pool_ok ops : forall p, pool_ok true p -> sane p -> Forall op_sane ops -> Z.of_nat (base.size (all p)) + Z.of_nat (length (concat (map op_txs ops))) <= 2 ^ 24 ->
  exists p', run_pool ops p = Ok (p', inr tt) /\ pool_ok true p' /\ sane p' /\ (base.size (all p') <= base.size (all p) + length (concat (map op_txs ops)))%nat.
Proof.
  induction ops as [|op ops IH]; intros p K Sn So Rm; [exists p; split; [done|]; split; [done|]; split; [done|]; lia|]. apply list.Forall_cons in So as [So Sos]. cbn [map concat] in *. rewrite length_app in *.
  unfold run_pool. cbn [for_each]. destruct (run_pool_op_ok op p K Sn So ltac:(lia)) as (p1 & E1 & K1 & S1 & _ & Z1). rewrite (go_bind_ok _ _ _ _ _ E1).
  destruct (IH p1 K1 S1 Sos ltac:(lia)) as (p2 & E2 & K2 & S2 & Z2). exists p2. split; [exact E2|]. split; [done|]. split; [done|]. lia.
Qed.

(** C2. From a new pool on, whatever sequence of additions, batches of additions, removals, price
    changes, evictions and new heads arrives, every call returns and the pool stays consistent.
    The pending transactions of an account are signed by it, have the nonces from that of the
    state on without a gap, and the next nonce that the pool tells is the one after them; its
    queued transactions have other nonces; no account has an empty list; every listed
    transaction is found by its hash, and every transaction that is found is in the heap by
    price.  (Heads that undo blocks are not among them: see the findings.) *)
Theorem pool_stays_consistent c chainId statedb ops :
  sane_config (sanitize c) -> (forall a, 0 <= st_GetNonce a statedb < 2 ^ 63) -> Forall op_sane ops -> Z.of_nat (length (concat (map op_txs ops))) <= 2 ^ 24 ->
  exists p', run_pool ops (new_pool c chainId statedb) = Ok (p', inr tt) /\ consistent p'.
Proof.
  intros Sc Sn So Rm. destruct (run_pool_ok ops (new_pool c chainId statedb)) as (p' & E & K & _); [apply new_pool_ok|by apply (sane_of (sanitize c))|done|cbn; rewrite map_size_empty; lia|].
  exists p'. split; [exact E|by apply pool_ok_consistent].
Qed.

(** C10. After every round of promotion, as it ends each addition and each new head, the pool is
    within its limits.  It has at most [GlobalSlots] pending transactions, or else no account
    that is not local has more than its guaranteed [AccountSlots]; it has at most [GlobalQueue]
    queued transactions, or else only local accounts have any.  The loops that bring it there
    end, and no call fails. *)
Theorem promotion_within_limits ex now accounts p : pool_ok ex p -> sane p ->
  exists p', promoteExecutables now accounts p = Ok (p', inr tt) /\ pool_ok ex p' /\
    (fst (stats p') <= GlobalSlots (tp_config p') \/ forall a l, pending p' !! a = Some l -> a ∉ locals p' -> tl_Len l <= AccountSlots (tp_config p')) /\
    (snd (stats p') <= GlobalQueue (tp_config p') \/ forall a, is_Some (queue p' !! a) -> a ∈ locals p').
Proof.
  intros (P & Q & I & F) Sn. destruct (promoteExecutables_inv ex [] now accounts p P Q I Sn) as (p' & P' & Q' & E & I' & S' & A' & F' & W1 & W2). exists p'. split; [exact E|].
  assert (Full : forall a, full p' P' Q' a) by (intros a; by apply F'). split; [by exists P', Q'|]. unfold stats. cbn [fst snd].
  rewrite (lens_count _ _ _ (iv_pending _ _ _ _ _ I')), (lens_count _ _ _ (iv_queue _ _ _ _ _ I')). split.
  - destruct W1 as [W1|W1]; [by left|right]. intros a l El Na. destruct (lists_hold_some _ _ _ a l (iv_pending _ _ _ _ _ I') El) as [Hl _]. rewrite (tl_Len_holds _ _ Hl). by apply W1.
  - destruct W2 as [W2|W2]; [by left|right]. intros a Hs. destruct (decide (a ∈ locals p')) as [Ha|Ha]; [done|]. by destruct (proj2 (Full a) Hs); apply W2.
Qed.

(** The list of an account in which a transaction is found. *)
Definition listed_in p a tx : Prop := exists l, (pending p !! a = Some l \/ queue p !! a = Some l) /\ tx ∈ fst (tl_Flatten l).

(** C11. What an addition does: a transaction that fails a check is refused with the error of the
    check and the pool is as before; one that is refused later, as it is too cheap, brings
    nothing into the pool; one that is accepted is found by its hash and is in a list of the
    account that signed it. *)
Theorem add_outcome ex p tx local : pool_ok ex p -> sane p -> 0 <= nonce tx < 2 ^ 64 -> Z.of_nat (base.size (all p)) < 2 ^ 24 ->
  exists p' r, add tx local p = Ok (p', r) /\ pool_ok ex p' /\
    (forall e, Get (txhash tx) p = None -> validateTx tx local p = Some e -> r = inl e /\ p' = p) /\
    match r with
    | inl _ => forall h t, Get h p' = Some t -> Get h p = Some t
    | inr _ => Get (txhash tx) p' = Some tx /\ exists a, sender (tp_signer p) tx = Some a /\ listed_in p' a tx
    end.
Proof.
  intros (P & Q & I & F) Sn Nx Rm. destruct (add_inv ex p P Q tx local I Sn Nx Rm) as (p' & r & P' & Q' & E & I' & S' & F' & Ad & V). exists p', r. split; [exact E|].
  split; [exists P', Q'; split; [done|]; intros a; by apply F'|]. split; [intros e Ek Ev; by apply V|]. destruct r as [e|b]; cbn in Ad.
  - intros h t Et. by apply (lookup_weaken (all p')).
  - destruct Ad as (_ & Ek & a & Sx & Hx). split; [done|]. exists a. split; [done|]. apply elem_of_app in Hx as [Hx|Hx].
    + destruct (lists_is_Some _ _ _ a (iv_pending _ _ _ _ _ I')) as [l El]; [intros En; rewrite En in Hx; by apply elem_of_nil in Hx|]. exists l. split; [by left|]. by rewrite (flatten_content _ _ _ a l (iv_pending _ _ _ _ _ I') El).
    + destruct (lists_is_Some _ _ _ a (iv_queue _ _ _ _ _ I')) as [l El]; [intros En; rewrite En in Hx; by apply elem_of_nil in Hx|]. exists l. split; [by right|]. by rewrite (flatten_content _ _ _ a l (iv_queue _ _ _ _ _ I') El).
Qed.

Lemma before_head tx rest : ascending (tx :: rest) -> List.filter (before (nonce tx)) (tx :: rest) = [].
Proof.
  intros S. apply filter_none, list.Forall_forall. intros t [->|Ht]%list.elem_of_cons; unfold before; [lia|]. pose proof (ascending_head tx rest t S Ht). lia.
Qed.

(** C39. Removing the first pending transaction of an account loses those after it: they are
    pending no more and are not queued either, although the comment of [removeTx] says that
    they move back to the queue, but they stay in the index, so that the pool refuses them as
    known when they are sent again. *)
Theorem removeTx_loses_followers ex p a l tx rest : pool_ok ex p -> pending p !! a = Some l -> fst (tl_Flatten l) = tx :: rest ->
  exists p', removeTx (txhash tx) p = Ok (p', inr tt) /\ pending p' !! a = None /\ queue p' = queue p /\
    forall t local, t ∈ rest -> Get (txhash t) p' = Some t /\ add t local p' = Ok (p', inl (ErrKnown (txhash t))).
Proof.
  intros (P & Q & I & F) El Ef. rewrite (flatten_content _ _ _ a l (iv_pending _ _ _ _ _ I) El) in Ef. destruct (lists_hold_some _ _ _ a l (iv_pending _ _ _ _ _ I) El) as [Hl Sl].
  assert (Hx : tx ∈ P a ++ Q a) by (rewrite Ef; by left). pose proof (iv_sender _ _ _ _ _ I a tx Hx) as Sx. pose proof (iv_listed _ _ _ _ _ I a tx Hx) as Lx.
  pose proof (sm_sorted _ _ (tl_map _ _ Hl)) as So. rewrite Ef in So, Hl. destruct (tl_Remove_holds l (tx :: rest) tx Hl ltac:(by left)) as (inval & l' & Er & _ & Hl' & _). rewrite Sl in Hl'. cbn [without] in Hl'. rewrite before_head in Hl' by done.
  unfold removeTx. go_step. rewrite Lx. cbv zeta. rewrite (from_of_sender _ _ a Sx). go_step (forget_run (txhash tx) p). rewrite El. cbn beta iota.
  rewrite (go_bind_ok _ _ _ _ _ (on_pending_run a (tl_Remove tx) (forgotten (txhash tx) p) l _ l' El Er)). cbn beta iota. go_step.
  change (pending (set_pending (<[a := l']> (pending (forgotten (txhash tx) p))) (forgotten (txhash tx) p))) with (<[a := l']> (pending p)). rewrite lookup_insert_eq, (tl_Empty_holds _ _ Hl'). cbn beta iota.
  go_step. rewrite lower_nonce_run. eexists. split; [done|]. set (p2 := set_beats _ _). destruct (lowered_same a (nonce tx) p2) as (_ & A2 & P2 & Q2). rewrite P2, Q2. split; [apply lookup_delete_eq|]. split; [done|].
  intros t local Ht. assert (Gt : Get (txhash t) (lowered a (nonce tx) p2) = Some t).
  { unfold Get. rewrite A2. cbn. rewrite lookup_delete_ne; [apply (iv_listed _ _ _ _ _ I a); rewrite Ef; apply elem_of_app; left; by right|]. intros Eh.
    destruct (listed_once _ _ _ _ _ a a tx t I Hx) as [<- _]; [rewrite Ef; apply elem_of_app; left; by right|done|]. pose proof (ascending_head tx rest tx So Ht). lia. }
  split; [done|]. unfold add. go_step. unfold Get in Gt. by rewrite Gt.
Qed.

(** The pending transactions of an account in the order of their nonces. *)
Definition pending_txs p a : list Transaction := match pending p !! a with Some l => fst (tl_Flatten l) | None => [] end.

Lemma pending_txs_holds ex X p P Q a : inv ex X p P Q -> pending_txs p a = P a.
Proof.
  intros I. unfold pending_txs. destruct (pending p !! a) as [l|] eqn:El.
  - destruct (lists_hold_some _ _ _ a l (iv_pending _ _ _ _ _ I) El) as [Hl _]. by destruct (tl_Flatten_holds l (P a) Hl) as (l' & -> & _).
  - by rewrite (lists_hold_none _ _ _ a (iv_pending _ _ _ _ _ I) El).
Qed.

Lemma demoted_all p a t L : ascending (t :: L) -> nonce t = state_nonce p a ->
  Forall (fun tx => payable (st_GetBalance a (currentState p)) (currentMaxGas p) tx = true) (t :: L) -> demoted_txs p a (t :: L) = t :: L.
Proof.
  intros S En F. unfold demoted_txs. cbv zeta. rewrite (keep_all (before (state_nonce p a))).
  - rewrite prefix_of_all by done. rewrite bool_decide_eq_true_2; [done|]. rewrite <- En. by left.
  - apply filter_none, list.Forall_forall. intros x Hx. unfold before. apply Z.ltb_ge. rewrite <- En. apply list.elem_of_cons in Hx as [->|Hx]; [lia|]. pose proof (ascending_head t L x S Hx). lia.
Qed.

(** C40. What [demoteUnexecutables] leaves pending: of every account, the transactions from the
    nonce of the state on up to the first that it cannot pay or that does not fit into a block,
    if one of them has the nonce of the state, and else none; the pool stays in order.  The
    loop looks for a missing nonce at the front only.  So a list that begins with the nonce of
    the state and can be paid for stays as it is, whatever nonces are missing behind its front,
    although everything after a gap cannot be executed. *)
Theorem demoteUnexecutables_keeps p : pool_ok false p ->
  exists p', demoteUnexecutables p = Ok (p', inr tt) /\ pool_ok false p' /\
    (forall a, pending_txs p' a = demoted_txs p a (pending_txs p a)) /\
    (forall a t L, pending_txs p a = t :: L -> nonce t = state_nonce p a ->
       Forall (fun tx => payable (st_GetBalance a (currentState p)) (currentMaxGas p) tx = true) (t :: L) -> pending_txs p' a = t :: L).
Proof.
  intros (P & Q & I & F). unfold demoteUnexecutables. go_step. set (l := map fst (range (map_to_list (pending p)))). assert (Pl : l ≡ₚ accounts_of (pending p)) by apply range_keys.
  destruct (demote_all [] l p P Q I) as (p1 & P1 & Q1 & E1 & I1 & _ & _ & _ & F1 & O1 & C1); [rewrite Pl; apply accounts_NoDup|intros a; by rewrite Pl, elem_of_accounts|].
  assert (D : forall a, pending_txs p1 a = demoted_txs p a (pending_txs p a)).
  { intros a. rewrite (pending_txs_holds _ _ _ _ _ a I1), (pending_txs_holds _ _ _ _ _ a I). destruct (decide (a ∈ l)) as [Ha|Ha]; [by apply C1|].
    destruct (O1 a Ha) as [_ ->]. rewrite Pl, elem_of_accounts in Ha. rewrite (lists_hold_none _ _ _ a (iv_pending _ _ _ _ _ I)); [done|]. destruct (pending p !! a); [|done]. by destruct Ha. }
  exists p1. split; [exact E1|]. split; [|split; [exact D|]].
  - exists P1, Q1. split; [done|]. intros a. split; [|apply F1, F]. destruct (decide (a ∈ l)) as [Ha|Ha]; [by apply C1|]. destruct (O1 a Ha) as [Ep EP]. unfold full_pending. rewrite Ep, EP. apply F.
  - intros a t L Et En Fp. rewrite D, Et. apply demoted_all; [|done|done]. rewrite <- Et, (pending_txs_holds _ _ _ _ _ a I). apply (lists_sorted _ _ _ a (iv_pending _ _ _ _ _ I)).
Qed.
End Limits.

(** ** Samples *)

Module PoolSamples.
#[local] Existing Instance tail_hasher.
#[local] Existing Instance toy_secp.
#[local] Existing Instance listed_order.

#[local] Existing Instance nonce_map.

#[local] Instance sorting_queue : PriorityQueue.
Proof.
  refine {| prque l := go_sort (fun x y : bytes * Z => snd y <? snd x) l |}.
  - intros l. apply go_sort_Permutation.
  - intros l _. assert (S : StronglySorted (GoSort.in_order (fun x y : bytes * Z => snd y <? snd x)) (go_sort (fun x y : bytes * Z => snd y <? snd x) l)) by (apply go_sort_sorted; intros; lia).
    induction S as [|x r _ IH F]; constructor; [done|]. revert F. apply List.Forall_impl. intros y. unfold GoSort.in_order. lia.
Defined.

Definition owner : bytes := repeat 7 20.

(** A transaction of the owner; its sender has been derived before. *)
Definition signed (n price : Z) : Transaction :=
  let tx := newTransaction Binary n (Some (repeat 9 20)) (Some 100) (Some 21000) (Some price) [] in
  mkTransaction (tx_data tx) None None (Some (NewEIP155Signer (Some 5), owner)).

Definition rich : cstate := fun _ => StateLedger.mkAcct 0 (10 ^ 12) 0.

Definition sample_ops : list pool_op := [OpNewHead 0 sample_header rich; OpAddTx 1 (signed 0 3) false; OpAddTxs 2 [signed 1 4; signed 2 5; signed 7 9] false; OpEvict 3; OpAddTx 4 (signed 1 8) true].

Lemma sample_config : sane_config (sanitize DefaultTxPoolConfig).
Proof. by vm_compute. Qed.

Lemma sample_sane : Forall op_sane sample_ops.
Proof. repeat constructor; by vm_compute. Qed.

Lemma pool_stays_consistent_witness : exists p', run_pool sample_ops (new_pool DefaultTxPoolConfig (Some 5) rich) = Ok (p', inr tt) /\ consistent p'.
Proof. apply pool_stays_consistent; [apply sample_config|by vm_compute|apply sample_sane|by vm_compute]. Defined.

Definition sample_pool : TxPool :=
  match run_pool sample_ops (new_pool DefaultTxPoolConfig (Some 5) rich) with Ok (p, _) => p | _ => new_pool DefaultTxPoolConfig (Some 5) rich end.

Lemma sample_pool_ok : pool_ok true sample_pool /\ sane sample_pool.
Proof.
  destruct (run_pool_ok sample_ops (new_pool DefaultTxPoolConfig (Some 5) rich)) as (p' & E & K & S & _); [apply new_pool_ok| |apply sample_sane|by vm_compute|].
  - apply (sane_of (sanitize DefaultTxPoolConfig)); [done|apply sample_config|by vm_compute].
  - unfold sample_pool. rewrite E. by split.
Qed.

Lemma promotion_within_limits_witness : exists p', promoteExecutables 5 None sample_pool = Ok (p', inr tt) /\ pool_ok true p'.
Proof.
  destruct (promotion_within_limits true 5 None sample_pool (proj1 sample_pool_ok) (proj2 sample_pool_ok)) as (p' & E & K & _). exists p'. by split.
Defined.

Lemma add_outcome_witness : exists p' r, add (signed 3 6) false sample_pool = Ok (p', r) /\ pool_ok true p'.
Proof.
  destruct (add_outcome true sample_pool (signed 3 6) false (proj1 sample_pool_ok) (proj2 sample_pool_ok)) as (p' & r & E & K & _); [by vm_compute|by vm_compute|]. exists p', r. by split.
Defined.

Definition sample_list : txList := default (newTxList true) (pending sample_pool !! owner).

(** The transactions with the nonces 1 and 2 are lost with the one before them. *)
Lemma removeTx_loses_followers_witness : exists p', removeTx (txhash (signed 0 3)) sample_pool = Ok (p', inr tt) /\ pending p' !! owner = None /\
  add (signed 2 5) false p' = Ok (p', inl (ErrKnown (txhash (signed 2 5)))).
Proof.
  destruct (removeTx_loses_followers true sample_pool owner sample_list (signed 0 3) [signed 1 8; signed 2 5] (proj1 sample_pool_ok)) as (p' & E & N & _ & L).
  - by vm_compute.
  - by vm_compute.
  - exists p'. split; [exact E|]. split; [exact N|]. apply L. right. by left.
Defined.

(** The state before the two blocks with the nonces 0 and 1 of the owner, and after them. *)
Definition after_two : cstate := fun a => if bool_decide (a = owner) then StateLedger.mkAcct 2 (10 ^ 12) 0 else StateLedger.mkAcct 0 (10 ^ 12) 0.

Definition before_reorg : list pool_op := [OpNewHead 0 sample_header after_two; OpSetGasPrice 2; OpAddTx 1 (signed 2 5) false].

(** The new head undoes the transactions 0 and 1; the second one is below the price of the pool
    and does not come back. *)
Lemma reorg_sample : exists p, (run_pool before_reorg;; reset_to (fun _ => Some rich) 2 sample_header [signed 0 5; signed 1 1]) (new_pool DefaultTxPoolConfig (Some 5) after_two) = Ok (p, inr tt) /\
  pool_ok false p.
Proof.
  destruct (run_pool_ok before_reorg (new_pool DefaultTxPoolConfig (Some 5) after_two)) as (p1 & E1 & K1 & S1 & Z1); [apply new_pool_ok|..].
  - apply (sane_of (sanitize DefaultTxPoolConfig)); [done|apply sample_config|]. intros a. unfold state_nonce. cbn. unfold after_two. by destruct (bool_decide _).
  - constructor; [split; [constructor|]; intros a; cbn; unfold after_two; by destruct (bool_decide _)|].
    constructor; [split; [constructor|done]|]. constructor; [split; [constructor; [by vm_compute|constructor]|done]|constructor].
  - by vm_compute.
  - destruct (reset_to_ok true (fun _ => Some rich) 2 sample_header [signed 0 5; signed 1 1] p1 rich K1 eq_refl) as (p2 & E2 & K2 & _).
    + destruct S1 as [A B C D _]. split; [exact A|exact B|exact C|exact D|]. intros a. unfold state_nonce. cbn. lia.
    + repeat constructor; by vm_compute.
    + assert (B : (base.size (all (new_pool DefaultTxPoolConfig (Some 5%Z) after_two)) + length (concat (map op_txs before_reorg)) = 1)%nat) by by vm_compute. rewrite B in Z1. cbn. lia.
    + exists p2. rewrite (go_bind_ok _ _ _ _ _ E1). by split.
Qed.

Definition reorged : TxPool :=
  match (run_pool before_reorg;; reset_to (fun _ => Some rich) 2 sample_header [signed 0 5; signed 1 1]) (new_pool DefaultTxPoolConfig (Some 5) after_two) with
  | Ok (p, _) => p
  | _ => new_pool DefaultTxPoolConfig (Some 5) after_two
  end.

(** The transactions 0 and 2 are pending after the new head, and stay so. *)
Lemma demoteUnexecutables_keeps_witness : map nonce (pending_txs reorged owner) = [0; 2] /\
  exists p', demoteUnexecutables reorged = Ok (p', inr tt) /\ pending_txs p' owner = pending_txs reorged owner.
Proof.
  assert (En : map nonce (pending_txs reorged owner) = [0; 2]) by (vm_compute; reflexivity). split; [exact En|].
  assert (K : pool_ok false reorged) by (destruct reorg_sample as (p & E & K); unfold reorged; by rewrite E).
  assert (En' : state_nonce reorged owner = 0) by (vm_compute; reflexivity).
  assert (Fp : Forall (fun tx => payable (st_GetBalance owner (currentState reorged)) (currentMaxGas reorged) tx = true) (pending_txs reorged owner))
    by (apply List.Forall_forall, List.forallb_forall; vm_compute; reflexivity).
  destruct (demoteUnexecutables_keeps reorged K) as (p' & E & _ & _ & G). specialize (G owner).
  generalize dependent (pending_txs reorged owner). intros [|t L] En Fp G; [discriminate En|]. exists p'. split; [exact E|]. injection En as Et _.
  apply (G t L); [reflexivity|by rewrite Et, En'|exact Fp].
Defined.
End PoolSamples.
