(* ===== verification/TxOrder.v ===== *)
(** * Package [core/types]: transactions by price and nonce

    [transaction.go] ([TransactionsByPriceAndNonce]): the order in which the miner takes the
    pending transactions, by price among the first ones of the accounts and by nonce within an
    account.  The lemmas describe the set as a function from accounts to the lists that are
    left of them. *)

From S2P Require Import Prelude Rlp RlpStream Common Signature Trie Transaction Block GoHeap TxList TxPool.

Section Order.
Context {HS : Hasher} {SC : Secp256k1} {RO : RangeOrder}.

Record TransactionsByPriceAndNonce := mkByPrice { bp_txs : gmap bytes (list Transaction); heads : list Transaction; bp_signer : Signer }.

(** The dearest transaction is the least one. *)
Definition dearer (a b : Transaction) : bool := gasPrice b <? gasPrice a.

(** The walk over the map replaces entries of the map; the sender of a list is its key.  An
    empty list is indexed. *)
Fixpoint take_heads (signer : Signer) (accounts : list bytes) (txs : gmap bytes (list Transaction)) (heads : list Transaction)
  : outcome unit (gmap bytes (list Transaction) * list Transaction) :=
  match accounts with
  | [] => Ok (txs, heads)
  | a :: accounts =>
    match txs !! a with
    | Some (tx :: accTxs) => take_heads signer accounts (<[from_of signer tx := accTxs]> txs) (heads ++ [tx])
    | Some [] => Panic
    | None => take_heads signer accounts txs heads
    end
  end.

Definition NewTransactionsByPriceAndNonce (signer : Signer) (txs : gmap bytes (list Transaction)) : outcome unit TransactionsByPriceAndNonce :=
  '(txs, heads) ← take_heads signer (map fst (range (map_to_list txs))) txs [];
  Ok (mkByPrice txs (heap_Init dearer heads) signer).

Definition Peek (t : TransactionsByPriceAndNonce) : option Transaction := head (heads t).

Definition Pop (t : TransactionsByPriceAndNonce) : outcome unit TransactionsByPriceAndNonce :=
  match heap_Pop dearer (heads t) with
  | Some (_, heads) => Ok (mkByPrice (bp_txs t) heads (bp_signer t))
  | None => Panic
  end.

Definition Shift (t : TransactionsByPriceAndNonce) : outcome unit TransactionsByPriceAndNonce :=
  match heads t with
  | [] => Panic
  | best :: others =>
    let acc := from_of (bp_signer t) best in
    match bp_txs t !! acc with
    | Some (tx :: txs) => Ok (mkByPrice (<[acc := txs]> (bp_txs t)) (heap_Fix dearer O (tx :: others)) (bp_signer t))
    | _ => Pop t
    end
  end.

(** The number of transactions that are left, at most. *)
Definition total_left (m : gmap bytes (list Transaction)) : nat := map_fold (fun _ l n => length l + n)%nat O m.
Definition remaining (t : TransactionsByPriceAndNonce) : nat := (length (heads t) + total_left (bp_txs t))%nat.

(** ** Specification: what is left of each account *)

Definition queues : Type := bytes -> list Transaction.

Definition qset (a : bytes) (l : list Transaction) (Q : queues) : queues := fun b => if decide (b = a) then l else Q b.

Record by_holds (t : TransactionsByPriceAndNonce) (Q : queues) : Prop := mkByHolds {
  bh_heap : heap dearer (heads t);
  bh_once : NoDup (map (from_of (bp_signer t)) (heads t));
  bh_heads : forall tx, tx ∈ heads t -> Q (from_of (bp_signer t) tx) = tx :: default [] (bp_txs t !! from_of (bp_signer t) tx);
  bh_left : forall a, Q a <> [] -> a ∈ map (from_of (bp_signer t)) (heads t);
  bh_signed : forall a tx, tx ∈ Q a -> from_of (bp_signer t) tx = a
}.

Lemma dearer_asym a b : dearer a b = true -> dearer b a = false.
Proof. unfold dearer. lia. Qed.

Lemma dearer_trans a b c : dearer b a = false -> dearer c b = false -> dearer c a = false.
Proof. unfold dearer. lia. Qed.

Lemma qset_eq a l Q : qset a l Q a = l.
Proof. unfold qset. by rewrite decide_True. Qed.

Lemma qset_ne a b l Q : b <> a -> qset a l Q b = Q b.
Proof. intros N. unfold qset. by rewrite decide_False. Qed.

Lemma fold_shorter (m : gmap bytes (list Transaction)) a x l : m !! a = Some (x :: l) ->
  total_left m = S (total_left (<[a := l]> m)).
Proof.
  intros E. assert (I : forall y, total_left (<[a := y]> m) = (length y + total_left (base.delete a m))%nat).
  { intros y. rewrite <- insert_delete_eq. apply (map_fold_insert_L (fun (_ : bytes) (l : list Transaction) n => length l + n)%nat O a y); [intros; lia|apply lookup_delete_eq]. }
  rewrite <- (insert_id m a (x :: l) E) at 1. rewrite !I. done.
Qed.

(** Each account is visited once; the heads so far and the lists left are those of [Q]. *)
Lemma take_heads_holds (signer : Signer) (txs0 : gmap bytes (list Transaction)) : (forall (a : bytes) (l : list Transaction), txs0 !! a = Some l -> l <> [] /\ forall tx, tx ∈ l -> from_of signer tx = a) ->
  forall (accounts : list bytes) (txs : gmap bytes (list Transaction)) (hs : list Transaction), NoDup (map (from_of signer) hs ++ accounts) ->
  (forall tx, tx ∈ hs -> txs0 !! from_of signer tx = Some (tx :: default [] (txs !! from_of signer tx))) ->
  (forall a, a ∈ accounts -> txs !! a = txs0 !! a) ->
  exists txs' hs', take_heads signer accounts txs hs = Ok (txs', hs') /\ NoDup (map (from_of signer) hs') /\
    (forall tx, tx ∈ hs' -> txs0 !! from_of signer tx = Some (tx :: default [] (txs' !! from_of signer tx))) /\
    (forall a, a ∈ map (from_of signer) hs -> a ∈ map (from_of signer) hs') /\
    (forall a, a ∈ accounts -> is_Some (txs0 !! a) -> a ∈ map (from_of signer) hs') /\ (length hs' + total_left txs' = length hs + total_left txs)%nat.
Proof.
  intros W. induction accounts as [|a accounts IH]; intros txs hs ND Hh Ha; cbn [take_heads].
  { exists txs, hs. rewrite app_nil_r in ND. split; [done|]. split; [done|]. split; [done|]. split; [done|]. split; [intros a Hx; by apply elem_of_nil in Hx|done]. }
  rewrite (Ha a) by (by left). destruct (txs0 !! a) as [[|tx l]|] eqn:E.
  - by destruct (W a [] E) as [[] _].
  - destruct (W a _ E) as [_ F]. assert (Ef : from_of signer tx = a) by (apply F; by left). rewrite Ef.
    assert (Na : (a ∉ map (from_of signer) hs) /\ (a ∉ accounts)).
    { apply list.NoDup_app in ND as (_ & Nd & N2). apply list.NoDup_cons in N2 as [N2 _]. split; [|done]. intros Hx. apply (Nd a Hx). by left. }
    destruct (IH (<[a := l]> txs) (hs ++ [tx])) as (txs' & hs' & Et & ND' & Hh' & Hk & Hd & Ct).
    + rewrite map_app. cbn [map]. rewrite Ef, <- app_assoc. exact ND.
    + intros t [Ht|Ht%list_elem_of_singleton]%elem_of_app.
      * rewrite lookup_insert_ne; [by apply Hh|]. intros Ea. apply (proj1 Na). rewrite Ea. apply list_elem_of_fmap. by exists t.
      * subst t. rewrite Ef, lookup_insert_eq. exact E.
    + intros b Hb. rewrite lookup_insert_ne; [apply Ha; by right|]. intros <-. by apply (proj2 Na).
    + exists txs', hs'. split; [done|]. split; [done|]. split; [done|]. split; [intros b Hb; apply Hk; rewrite map_app; apply elem_of_app; by left|]. split.
      * intros b [->|Hb]%list.elem_of_cons Hs; [|by apply Hd]. apply Hk. rewrite map_app. apply elem_of_app. right. cbn. rewrite Ef. by left.
      * rewrite Ct, length_app, (fold_shorter txs a tx l); [cbn; lia|]. rewrite (Ha a) by (by left). done.
  - destruct (IH txs hs) as (txs' & hs' & Et & ND' & Hh' & Hk & Hd & Ct).
    + apply list.NoDup_app in ND as (N1 & Nd & N2). apply list.NoDup_cons in N2 as [_ N2]. apply list.NoDup_app. split; [done|]. split; [|done]. intros b Hb Hx. apply (Nd b Hb). by right.
    + done.
    + intros b Hb. apply Ha. by right.
    + exists txs', hs'. split; [done|]. split; [done|]. split; [done|]. split; [done|]. split; [|done]. intros b [->|Hb]%list.elem_of_cons Hs; [rewrite E in Hs; by destruct Hs|by apply Hd].
Qed.

Lemma NewOrder_holds (signer : Signer) (txs : gmap bytes (list Transaction)) : (forall (a : bytes) (l : list Transaction), txs !! a = Some l -> l <> [] /\ forall tx, tx ∈ l -> from_of signer tx = a) ->
  exists t, NewTransactionsByPriceAndNonce signer txs = Ok t /\ bp_signer t = signer /\ remaining t = total_left txs /\ by_holds t (fun a => default [] (txs !! a)).
Proof.
  intros W. unfold NewTransactionsByPriceAndNonce. destruct (take_heads_holds signer txs W (map fst (range (map_to_list txs))) txs []) as (txs' & hs & -> & ND & Hh & _ & Hd & Ct).
  - cbn. rewrite (fmap_Permutation fst _ _ (range_perm _)). apply NoDup_fst_map_to_list.
  - intros tx Hx. by apply elem_of_nil in Hx.
  - done.
  - cbn [mbind outcome_bind]. eexists. split; [done|]. split; [done|]. destruct (heap_Init_spec dearer dearer_asym dearer_trans hs) as [Hp Pm].
    split; [unfold remaining; cbn [heads bp_txs]; by rewrite (Permutation_length Pm)|]. split; cbn [heads bp_txs bp_signer].
    + done.
    + rewrite (fmap_Permutation _ _ _ Pm). exact ND.
    + intros tx Hx. rewrite Pm in Hx. by rewrite (Hh tx Hx).
    + intros a Ha. rewrite (fmap_Permutation _ _ _ Pm). destruct (txs !! a) as [l|] eqn:E; [|done]. apply Hd; [|by exists l].
      rewrite (fmap_Permutation fst _ _ (range_perm _)). apply list_elem_of_fmap. exists (a, l). split; [done|]. by apply elem_of_map_to_list.
    + intros a tx Hx. destruct (txs !! a) as [l|] eqn:E; [|by apply elem_of_nil in Hx]. by apply (W a l E).
Qed.

(** Nothing is left where there is no next transaction; the next one is the first of its
    account, and no account has a dearer first one. *)
Lemma Peek_holds t Q : by_holds t Q ->
  match Peek t with
  | None => forall a, Q a = []
  | Some tx => (exists r, Q (from_of (bp_signer t) tx) = tx :: r) /\ forall a tx' r, Q a = tx' :: r -> gasPrice tx' <= gasPrice tx
  end.
Proof.
  intros [Hp ND Hh Hl Hs]. unfold Peek. destruct (heads t) as [|best others] eqn:E; cbn [head].
  - intros a. destruct (Q a) as [|tx r] eqn:Eq; [done|]. assert (Ha : a ∈ map (from_of (bp_signer t)) []) by (apply Hl; by rewrite Eq). by apply elem_of_nil in Ha.
  - split; [eexists; apply Hh; by left|]. intros a tx' r Eq. assert (Ha : a ∈ map (from_of (bp_signer t)) (best :: others)) by (apply Hl; by rewrite Eq).
    apply list_elem_of_fmap in Ha as (tx & -> & Hx). rewrite (Hh tx Hx) in Eq. injection Eq as -> _.
    pose proof (heap_head dearer dearer_asym dearer_trans (best :: others) best tx' Hp eq_refl Hx) as D. unfold dearer in D. lia.
Qed.

Lemma Pop_holds t Q tx : by_holds t Q -> Peek t = Some tx ->
  exists t', Pop t = Ok t' /\ bp_signer t' = bp_signer t /\ by_holds t' (qset (from_of (bp_signer t) tx) [] Q) /\ (S (remaining t') = remaining t)%nat.
Proof.
  intros [Hp ND Hh Hl Hs] Pk. unfold Peek in Pk. unfold Pop. destruct (heap_Pop_spec dearer dearer_asym dearer_trans (heads t) tx Hp) as (hs & -> & Hp' & Pm); [by destruct (heads t)|].
  eexists. split; [done|]. split; [done|]. assert (ND' : NoDup (map (from_of (bp_signer t)) (tx :: hs))) by (by rewrite (fmap_Permutation _ _ _ Pm)).
  cbn [map] in ND'. apply list.NoDup_cons in ND' as [Nx ND']. assert (Sub : forall x, x ∈ hs -> x ∈ heads t) by (intros x Hx; rewrite <- Pm; by right). split; [split; cbn [heads bp_txs bp_signer]|].
  - done.
  - done.
  - intros x Hx. rewrite qset_ne; [by apply Hh, Sub|]. intros Ex. apply Nx. rewrite <- Ex. apply list_elem_of_fmap. by exists x.
  - intros a Ha. destruct (decide (a = from_of (bp_signer t) tx)) as [->|Na]; [by rewrite qset_eq in Ha|]. rewrite qset_ne in Ha by done. apply Hl in Ha.
    rewrite <- (fmap_Permutation _ _ _ Pm) in Ha. by apply list.elem_of_cons in Ha as [->|Ha].
  - intros a x Hx. unfold qset in Hx. case_decide; [by apply elem_of_nil in Hx|by apply Hs].
  - unfold remaining. cbn [heads bp_txs]. rewrite <- (Permutation_length Pm). done.
Qed.

Lemma Shift_holds t Q tx r : by_holds t Q -> Peek t = Some tx -> Q (from_of (bp_signer t) tx) = tx :: r ->
  exists t', Shift t = Ok t' /\ bp_signer t' = bp_signer t /\ by_holds t' (qset (from_of (bp_signer t) tx) r Q) /\ (S (remaining t') = remaining t)%nat.
Proof.
  intros B Pk Eq. pose proof B as [Hp ND Hh Hl Hs]. unfold Peek in Pk. unfold Shift. destruct (heads t) as [|best others] eqn:E; [done|]. injection Pk as ->.
  set (a := from_of (bp_signer t) tx) in *. assert (Er : r = default [] (bp_txs t !! a)) by (pose proof (Hh tx ltac:(by left)) as X; fold a in X; rewrite Eq in X; by injection X).
  destruct (bp_txs t !! a) as [[|x l]|] eqn:Et; cbn in Er; [..|].
  1, 3: subst r; destruct (Pop_holds t Q tx B) as (t' & Ep & Sg & B' & Rm); [unfold Peek; by rewrite E|]; exists t'; done.
  subst r. eexists. split; [done|]. split; [done|]. destruct (heap_Fix_head dearer dearer_asym dearer_trans x tx others Hp) as [Hp' Pm].
  assert (Ex : from_of (bp_signer t) x = a) by (apply Hs; rewrite Eq; right; by left). 
  assert (Pa : map (from_of (bp_signer t)) (heap_Fix dearer O (x :: others)) ≡ₚ a :: map (from_of (bp_signer t)) others).
  { etrans; [apply (fmap_Permutation (from_of (bp_signer t)) _ _ Pm)|]. cbn. by rewrite Ex. }
  split; [split; cbn [heads bp_txs bp_signer]|].
  - done.
  - rewrite Pa. exact ND.
  - cbn [map] in ND. apply list.NoDup_cons in ND as [Na _]. intros y Hy. rewrite Pm in Hy. apply list.elem_of_cons in Hy as [->|Hy].
    + by rewrite Ex, qset_eq, lookup_insert_eq.
    + assert (Ny : from_of (bp_signer t) y <> a) by (intros Ey; apply Na; fold a; rewrite <- Ey; apply list_elem_of_fmap; by exists y).
      rewrite qset_ne, lookup_insert_ne by congruence. apply Hh. by right.
  - intros b Hb. rewrite Pa. destruct (decide (b = a)) as [->|Nb]; [by left|]. rewrite qset_ne in Hb by done. exact (Hl b Hb).
  - intros b y Hy. unfold qset in Hy. case_decide as D; [|by apply Hs]. subst b. apply Hs. rewrite Eq. by right.
  - unfold remaining. cbn [heads bp_txs]. rewrite E, (Permutation_length Pm), (fold_shorter _ a x l Et). cbn [length]. lia.
Qed.
End Order.
