(* ===== verification/Miner.v ===== *)
(** * Package [miner]: making blocks

    [src/pkg/miner/worker.go] and [unconfirmed.go]: the work on a new block, the transactions
    that go into it, its sealing and the writing of the result.  The goroutines of the worker
    are the functions that they call on an event: [mintBlock] on a tick, [handle_result] on a
    sealed block, [handle_tx] on a new transaction.  The clock, the pending transactions of the
    pool and the random choices are arguments; what is posted to the event mux and the log are
    left out.  The theorems are in [MinerSpec]. *)

From S2P Require Import Prelude Rlp RlpStream TrieEncoding Common Codec Trie PocContext SecureTrie StateDB StateRecord.
From S2P Require Import Signature ChainConfig Transaction Block ChainDb GoMonad HeaderChain GoSort EpochContext Poc Dao Execution BlockChain.
From S2P Require Import TxList TxOrder.

(** ** Blocks that wait for confirmation *)

(** The ring of [container/ring], from its current element on. *)
Record unconfirmedBlocks := mkUnconfirmed { uc_depth : Z; uc_blocks : list (Z * bytes) }.

(** What becomes of the blocks only goes to the log. *)
Fixpoint shift_blocks (depth height : Z) (l : list (Z * bytes)) : list (Z * bytes) :=
  match l with
  | [] => []
  | next :: l => if height <? u64 (fst next + depth) then next :: l else shift_blocks depth height l
  end.

Definition uc_Shift (height : Z) (u : unconfirmedBlocks) : unconfirmedBlocks := mkUnconfirmed (uc_depth u) (shift_blocks (uc_depth u) height (uc_blocks u)).

Definition uc_Insert (index : Z) (hash : bytes) (u : unconfirmedBlocks) : unconfirmedBlocks :=
  let u := uc_Shift index u in mkUnconfirmed (uc_depth u) (uc_blocks u ++ [(index, hash)]).

Section Miner.
Context {HS : Hasher} {ST : StateTrie} {GR : GoRand} {SC : Secp256k1} {SG : SigCache} {LC : Lru} {RO : RangeOrder}.

(** ** The work on a block *)

(** The state, the records and the consensus context are the world. *)
Record Work := mkWork {
  wk_config : ChainConfig;
  wk_signer : Signer;
  wk_world : world;
  wk_ancestors : gset bytes;
  wk_family : gset bytes;
  wk_uncles : gset bytes;
  wk_tcount : Z;
  wk_block : option Block;
  wk_header : Header;
  wk_txs : list Transaction;
  wk_receipts : list Receipt
}.

Definition set_world (w : world) (e : Work) : Work :=
  mkWork (wk_config e) (wk_signer e) w (wk_ancestors e) (wk_family e) (wk_uncles e) (wk_tcount e) (wk_block e) (wk_header e) (wk_txs e) (wk_receipts e).
Definition add_uncle (h : bytes) (e : Work) : Work :=
  mkWork (wk_config e) (wk_signer e) (wk_world e) (wk_ancestors e) (wk_family e) ({[h]} ∪ wk_uncles e) (wk_tcount e) (wk_block e) (wk_header e) (wk_txs e) (wk_receipts e).
Definition set_tcount (n : Z) (e : Work) : Work :=
  mkWork (wk_config e) (wk_signer e) (wk_world e) (wk_ancestors e) (wk_family e) (wk_uncles e) n (wk_block e) (wk_header e) (wk_txs e) (wk_receipts e).
Definition set_block (b : Block) (e : Work) : Work :=
  mkWork (wk_config e) (wk_signer e) (wk_world e) (wk_ancestors e) (wk_family e) (wk_uncles e) (wk_tcount e) (Some b) (wk_header e) (wk_txs e) (wk_receipts e).
Definition add_result (tx : Transaction) (rc : Receipt) (e : Work) : Work :=
  mkWork (wk_config e) (wk_signer e) (wk_world e) (wk_ancestors e) (wk_family e) (wk_uncles e) (wk_tcount e) (wk_block e) (wk_header e) (wk_txs e ++ [tx]) (wk_receipts e ++ [rc]).

(** ** Transactions *)

(** The three parts of the world go back to their snapshots. *)
Definition revert_world (snap snapRecord : Z) (pocSnap : PocContext) (w : world) : outcome unit world :=
  s ← RevertToSnapshot snap (w_state w);
  r ← rec_RevertToSnapshot snapRecord (w_records w);
  match w_poc w with
  | Some pc => Ok (mkWorld s r (Some (RevertToSnapShot pocSnap pc)) (timeOfFirstBlock w))
  | None => Panic
  end.

Definition commitTransaction (db : database) (tx : Transaction) (env : Work) : outcome unit (Work * option exec_error * list Log) :=
  let w := wk_world env in
  match w_poc w with
  | None => Panic
  | Some pc =>
    let '(snap, s) := StateDB.Snapshot (w_state w) in
    let '(snapRecord, r) := rec_Snapshot (w_records w) in
    let pocSnap := PocContext.Snapshot pc in
    '(w, res) ← ApplyTransaction db (wk_config env) (wk_header env) tx (mkWorld s r (Some pc) (timeOfFirstBlock w));
    match res with
    | inl e => w ← revert_world snap snapRecord pocSnap w; Ok (set_world w env, Some e, [])
    | inr (receipt, tx) => Ok (add_result tx receipt (set_world w env), None, rc_Logs receipt)
    end
  end.

Definition prepare_state (h : bytes) (env : Work) : Work :=
  let w := wk_world env in
  set_world (mkWorld (StateDB.Prepare h (zeros HashLength) (wk_tcount env) (w_state w)) (w_records w) (w_poc w) (timeOfFirstBlock w)) env.

(** [ApplyTransaction] does not count gas and never reports that the limit is reached. *)
Fixpoint commit_loop (fuel : nat) (db : database) (t : TransactionsByPriceAndNonce) (env : Work) (logs : list Log) : outcome unit (Work * list Log) :=
  match fuel with
  | O => OutOfFuel
  | S fuel =>
    match Peek t with
    | None => Ok (env, logs)
    | Some tx =>
      if Protected tx && negb (IsEIP155 (wk_config env) (hd_Number (wk_header env))) then t ← Pop t; commit_loop fuel db t env logs
      else
        let '(h, tx) := Transaction.Hash tx in
        '(env, err, lg) ← commitTransaction db tx (prepare_state h env);
        match err with
        | None => t ← Shift t; commit_loop fuel db t (set_tcount (wk_tcount env + 1) env) (logs ++ lg)
        | Some ErrNonceTooHigh => t ← Pop t; commit_loop fuel db t env logs
        | Some _ => t ← Shift t; commit_loop fuel db t env logs
        end
    end
  end.

(** The logs go to the event mux. *)
Definition commitTransactions (db : database) (t : TransactionsByPriceAndNonce) (env : Work) : outcome unit (Work * list Log) :=
  commit_loop (S (remaining t)) db t env [].

(** ** Uncles *)

Inductive uncle_error := UncleNotUnique | UncleParentUnknown | UncleInFamily.

Definition commitUncle (uncle : Header) (env : Work) : uncle_error + Work :=
  let hash := Header_Hash uncle in
  if bool_decide (hash ∈ wk_uncles env) then inl UncleNotUnique
  else if negb (bool_decide (hd_ParentHash uncle ∈ wk_ancestors env)) then inl UncleParentUnknown
  else if bool_decide (hash ∈ wk_family env) then inl UncleInFamily
  else inr (add_uncle hash env).

(** At most two uncles; the bad ones are to be forgotten. *)
Fixpoint commit_uncles (possible : list (bytes * Block)) (env : Work) (uncles : list Header) (bad : list bytes) : Work * list Header * list bytes :=
  match possible with
  | [] => (env, uncles, bad)
  | (hash, uncle) :: possible =>
    if (length uncles =? 2)%nat then (env, uncles, bad)
    else
      match commitUncle (Block_Header uncle) env with
      | inl _ => commit_uncles possible env uncles (bad ++ [hash])
      | inr env => commit_uncles possible env (uncles ++ [Block_Header uncle]) bad
      end
  end.

(** ** The worker *)

Record worker := mkWorker {
  wr_coinbase : bytes;
  wr_extra : bytes;
  wr_mining : bool;
  wr_current : option Work;
  possibleUncles : gmap bytes Block;
  unconfirmed : unconfirmedBlocks
}.

Definition set_work (e : Work) (w : worker) : worker := mkWorker (wr_coinbase w) (wr_extra w) (wr_mining w) (Some e) (possibleUncles w) (unconfirmed w).
Definition set_possible (m : gmap bytes Block) (w : worker) : worker := mkWorker (wr_coinbase w) (wr_extra w) (wr_mining w) (wr_current w) m (unconfirmed w).
Definition set_unconfirmed (u : unconfirmedBlocks) (w : worker) : worker := mkWorker (wr_coinbase w) (wr_extra w) (wr_mining w) (wr_current w) (possibleUncles w) u.
Definition setCoinbase (a : bytes) (w : worker) : worker := mkWorker a (wr_extra w) (wr_mining w) (wr_current w) (possibleUncles w) (unconfirmed w).
Definition setExtra (extra : bytes) (w : worker) : worker := mkWorker (wr_coinbase w) extra (wr_mining w) (wr_current w) (possibleUncles w) (unconfirmed w).

Abbreviation BM := (go BlockChain bc_error).

Definition hashes_of (l : list Header) : gset bytes := list_to_set (map Header_Hash l).

Definition makeCurrent (parent : Block) (header : Header) : BM Work :=
  st ← StateAt (hd_Root (b_header parent));
  rec ← StateRecordAt (hd_RecordRoot (b_header parent));
  proto ← deref (hd_PocContext (Block_Header parent));
  db ← gets bc_db;
  pc ← of_outcome BcTrie (NewPocContextFromProto db proto);
  blocks ← GetBlocksFromHash (hash_of parent) 7;
  s ← gets (fun s => s);
  let ancestors : gset bytes := list_to_set (map hash_of blocks) in
  mret (mkWork (bc_config s) (NewEIP155Signer (ChainId (bc_config s))) (mkWorld st rec (Some pc) (bc_first s)) ancestors
          (ancestors ∪ hashes_of (concat (map b_uncles blocks))) ∅ 0 None header [] []).

(** The time of a block is later than that of its parent; the wait for a clock that is behind
    is left out. *)
Definition next_time (now parentTime : Z) : Z := if now <=? parentTime then i64 (big_Int64 parentTime + 1) else now.

Definition new_header (parent : Block) (number gasLimit time : Z) (coinbase extra : bytes) : Header :=
  mkHeader (hash_of parent) (zeros HashLength) (zeros AddressLength) coinbase (zeros HashLength) (zeros HashLength) (zeros HashLength) (zeros HashLength)
    None (zeros BloomByteLength) None (Some number) (Some gasLimit) (Some 0) (Some time) extra (zeros HashLength) (zeros 8).

(** The extra data around the block of the DAO fork. *)
Definition dao_extra (config : ChainConfig) (header : Header) : Header :=
  match DAOForkBlock config, hd_Number header with
  | Some fork, Some n =>
    if (fork <=? n) && (n <? fork + DAOForkExtraRange) then
      if DAOForkSupport config then set_extra DAOForkBlockExtra header
      else if bool_decide (hd_Extra header = DAOForkBlockExtra) then set_extra [] header
      else header
    else header
  | _, _ => header
  end.

(** The fork of the DAO, the transactions and the uncles on a new work. *)
Definition fill_work (possible : list (bytes * Block)) (pending : gmap bytes (list Transaction)) (env : Work)
  : BM (Work * list Header * list bytes) :=
  let w := wk_world env in
  db ← gets bc_db;
  dao ← (match DAOForkBlock (wk_config env) with
         | Some fork => if DAOForkSupport (wk_config env) then n ← deref (hd_Number (wk_header env)); mret (fork =? n) else mret false
         | None => mret false
         end);
  st ← (if (dao : bool) then calc (ApplyDAOHardFork (w_state w)) else mret (w_state w));
  t ← calc (NewTransactionsByPriceAndNonce (wk_signer env) pending);
  '(env, _) ← calc (commitTransactions db t (set_world (mkWorld st (w_records w) (w_poc w) (timeOfFirstBlock w)) env));
  mret (commit_uncles possible env [] []).

(** [Finalize] of the engine on the world of the work, which it changes also where it fails.  The
    header of the work keeps the fields that [Finalize] sets in the block. *)
Definition finalize_work (fuel : nat) (uncles : list Header) (env : Work) : BM ((exec_error + Block) * Work) := fun s =>
  match Finalize fuel (bc_db s) (chain_reader s) (wk_header env) (wk_txs env) uncles (wk_receipts env) (wk_world env) with
  | Ok (w, inr b) =>
    let b := mkBlock (b_header b) (b_uncles b) (b_transactions b) (b_hash b) (b_size b) (w_poc w) in
    Ok (set_first (timeOfFirstBlock w) s, inr (inr b, set_block b (set_world w env)))
  | Ok (w, inl e) => Ok (set_first (timeOfFirstBlock w) s, inr (inl e, set_world w env))
  | Err e => Err e
  | Panic => Panic
  | OutOfFuel => OutOfFuel
  end.

(** The new work is the current one also where the end of the block fails. *)
Definition createNewWork (fuel : nat) (now : Z) (pending : gmap bytes (list Transaction)) (self : worker) : BM ((exec_error + Work) * worker) :=
  cur ← gets currentBlock;
  parent ← deref cur;
  ptime ← deref (hd_Time (b_header parent));
  num ← deref (hd_Number (b_header parent));
  gasUsed ← deref (hd_GasUsed (b_header parent));
  gasLimit ← deref (hd_GasLimit (b_header parent));
  let coinbase := if wr_mining self then wr_coinbase self else zeros AddressLength in
  let header := new_header parent (num + 1) (CalcGasLimit gasUsed gasLimit) (next_time now ptime) coinbase (wr_extra self) in
  s ← gets (fun s => s);
  header ← of_outcome BcEngine (Poc.Prepare (chain_reader s) header (bc_engine s));
  env ← makeCurrent parent (dao_extra (bc_config s) header);
  '(env, uncles, bad) ← fill_work (range (map_to_list (possibleUncles self))) pending env;
  let self := set_possible (foldl (fun m h => base.delete h m) (possibleUncles self) bad) self in
  '(r, env) ← finalize_work fuel uncles env;
  let self := set_work env self in
  match r with
  | inl e => mret (inl e, self)
  | inr block =>
    number ← block_number block;
    mret (inr env, if wr_mining self then set_unconfirmed (uc_Shift (u64 (number - 1)) (unconfirmed self)) self else self)
  end.

(** A tick of the clock: the work and what the sealing returned, no block where it was
    interrupted because another head has come.  Errors go to the log.  The clock is read again
    for the header and for the sealing. *)
Definition mintBlock (fuel : nat) (tick now later : Z) (signFn : bytes -> bytes -> outcome sig_error bytes) (stopped : bool) (pending : gmap bytes (list Transaction)) (self : worker)
  : BM (option (Work * option Block) * worker) :=
  cur ← gets currentBlock;
  parent ← deref cur;
  on_go bc_engine set_engine BcEngine (CheckValidator parent tick);;
  '(r, self) ← createNewWork fuel now pending self;
  match r with
  | inl _ => mret (None, self)
  | inr env =>
    block ← deref (wk_block env);
    engine ← gets bc_engine;
    sealed ← catch (of_outcome BcEngine (Seal signFn later stopped block engine));
    mret (match sealed with inl _ => None | inr b => Some (env, b) end, self)
  end.

Definition with_block_hash (h : bytes) (l : Log) : Log :=
  mkLog (log_Address l) (log_Topics l) (log_Data l) (log_BlockNumber l) (log_TxHash l) (log_TxIndex l) h (log_Index l) (log_Removed l).

Definition receipt_block_hash (h : bytes) (rc : Receipt) : Receipt :=
  mkReceipt (rc_PostState rc) (rc_PostStateRecord rc) (rc_Status rc) (rc_Bloom rc) (map (with_block_hash h) (rc_Logs rc)) (rc_TxHash rc)
    (rc_ContractAddress rc) (rc_GasUsed rc).

Definition state_logs (s : StateDB) : list Log := concat (map snd (range (map_to_list (logs s)))).

(** A result of the sealing is written, announced and kept until it is confirmed; the error of
    the write goes to the log.  The logs are shared by the receipts and the state. *)
Definition handle_result (fuel : nat) (coin : bool) (env : Work) (sealed : option Block) (self : worker) : BM worker :=
  match sealed with
  | None => mret self
  | Some block =>
    let h := hash_of block in
    let receipts := map (receipt_block_hash h) (wk_receipts env) in
    let st := w_state (wk_world env) in
    let st := StateDB.set_logs (map (with_block_hash h) <$> logs st) (logSize st) st in
    r ← catch (WriteBlockAndState fuel coin block receipts st (w_records (wk_world env)));
    match r with
    | inl _ => mret self
    | inr stat =>
      let lg := state_logs st in
      PostChainEvents (ChainEvent block h lg :: match stat with CanonStatTy => [ChainHeadEvent block] | _ => [] end) lg;;
      number ← block_number block;
      mret (set_unconfirmed (uc_Insert number h (unconfirmed self)) self)
    end
  end.

(** A transaction of the pool goes to the current work of a worker that does not mine. *)
Definition handle_tx (tx : Transaction) (self : worker) : BM worker :=
  if wr_mining self then mret self
  else
    env ← deref (wr_current self);
    db ← gets bc_db;
    t ← calc (NewTransactionsByPriceAndNonce (wk_signer env) {[TxPool.from_of (wk_signer env) tx := [tx]]});
    '(env, _) ← calc (commitTransactions db t env);
    mret (set_work env self).
End Miner.
