(* ===== verification/MinerSpec.v ===== *)
(** * Package [miner]: what the miner puts into a block

    A transaction that fails leaves no trace in the world of the work: the snapshots are
    restored.  Committing the pending transactions refines a specification on the abstract
    world of [ExecutionSpec]: it takes the dearest first transaction of an account again and
    again, and a node that processes the transactions that were taken gets to the same
    abstract world. *)

From S2P Require Import Prelude Rlp RlpStream TrieEncoding Common Codec Trie TrieModel TrieRefine TrieHash TrieMap TrieIterator.
From S2P Require Import PocContext SecureTrie StateDB StateRevert StateLedger StateUndo StateRecord Signature ChainConfig Transaction Block.
From S2P Require Import GoMonad EpochContext Poc Dao Execution ExecutionSpec.
From S2P Require Import TxOrder Miner.

Section Quiet.
Context {HS : Hasher} {ST : StateTrie} {GR : GoRand} {SC : Secp256k1}.
Context (db : database) (del : bool) (A H : gset bytes) (n : Z) (m mr : gmap bytes bytes) (R : records).

(** ** Failing without a trace *)

Record wok (w : world) : Prop := mkWok {
  wo_state : ledger_state del A n m (w_state w);
  wo_records : rholds H n mr (w_records w) R
}.

(** What happened can be taken back: the entries in the journal undo the changes of the state,
    and the records and the consensus context did not change but for caches. *)
Record quietly (w w' : world) : Prop := mkQuietly {
  qt_state : mild del A n m (w_state w) (w_state w');
  qt_records : rholds H n mr (w_records w') R;
  qt_journal : r_journal (w_records w') = r_journal (w_records w) /\ r_validRevisions (w_records w') = r_validRevisions (w_records w) /\
    r_nextRevisionId (w_records w') = r_nextRevisionId (w_records w);
  qt_poc : w_poc w' = w_poc w;
  qt_first : timeOfFirstBlock w' = timeOfFirstBlock w
}.

Lemma quietly_refl w : wok w -> quietly w w.
Proof. intros [Hs Hr]. split; [by apply mild_refl|done..]. Qed.

Lemma quietly_trans w1 w2 w3 : wok w1 -> quietly w1 w2 -> quietly w2 w3 -> quietly w1 w3.
Proof.
  intros [Hs Hr] [S1 R1 (J1 & V1 & N1) P1 T1] [S2 R2 (J2 & V2 & N2) P2 T2]. split; [by eapply mild_trans|done| |congruence|congruence].
  split; [congruence|]. split; congruence.
Qed.

Lemma quietly_ok w w' : quietly w w' -> wok w'.
Proof. intros [S Rr _ _ _]. split; [apply S|done]. Qed.

Definition quiet {X} (x : XM X) : Prop := forall w, wok w -> exists w' r, x w = Ok (w', r) /\ quietly w w'.
Definition fails_quietly {X} (x : XM X) : Prop := forall w w' e, wok w -> x w = Ok (w', inl e) -> quietly w w'.
Definition never_fails {X} (x : XM X) : Prop := forall w w' e, x w <> Ok (w', inl e).

Lemma quiet_ret {X} (x : X) : quiet (mret x).
Proof. intros w Hw. eexists w, _. split; [done|]. by apply quietly_refl. Qed.

Lemma quiet_throw {X} e : quiet (X := X) (throw e).
Proof. intros w Hw. eexists w, _. split; [done|]. by apply quietly_refl. Qed.

Lemma quiet_bind {X Y} (x : XM X) (k : X -> XM Y) : quiet x -> (forall a, quiet (k a)) -> quiet (x ≫= k).
Proof.
  intros Hx Hk w Hw. destruct (Hx w Hw) as (w1 & r & E & Q). unfold mbind, go_bind. rewrite E. destruct r as [e|a]; [by exists w1, (inl e)|].
  destruct (Hk a w1 (quietly_ok _ _ Q)) as (w2 & r2 & E2 & Q2). exists w2, r2. split; [done|]. by eapply quietly_trans.
Qed.

Lemma quiet_fails {X} (x : XM X) : quiet x -> fails_quietly x.
Proof. intros Hx w w' e Hw E. destruct (Hx w Hw) as (w1 & r & E1 & Q). rewrite E in E1. by injection E1 as <- _. Qed.

Lemma never_quiet {X} (x : XM X) : never_fails x -> fails_quietly x.
Proof. intros Hx w w' e _ E. by destruct (Hx w w' e). Qed.

Lemma fails_bind {X Y} (x : XM X) (k : X -> XM Y) : quiet x -> (forall a, fails_quietly (k a)) -> fails_quietly (x ≫= k).
Proof.
  intros Hx Hk w w' e Hw E. destruct (Hx w Hw) as (w1 & r & E1 & Q). unfold mbind, go_bind in E. rewrite E1 in E. destruct r as [e1|a]; [by injection E as <- _|].
  eapply quietly_trans; [done|exact Q|]. exact (Hk a w1 w' e (quietly_ok _ _ Q) E).
Qed.

Lemma fails_then {X Y} (x : XM X) (k : X -> XM Y) : fails_quietly x -> (forall a, never_fails (k a)) -> fails_quietly (x ≫= k).
Proof.
  intros Hx Hk w w' e Hw E. unfold mbind, go_bind in E. destruct (x w) as [[w1 [e1|a]]|?| |] eqn:E1; try done.
  - injection E as <- <-. by eapply Hx.
  - by destruct (Hk a w1 w' e).
Qed.

Lemma unfailing_bind {X Y} (x : XM X) (k : X -> XM Y) : never_fails x -> (forall a, never_fails (k a)) -> never_fails (x ≫= k).
Proof.
  intros Hx Hk w w' e E. unfold mbind, go_bind in E. destruct (x w) as [[w1 [e1|a]]|?| |] eqn:E1; try done; [by apply (Hx w w1 e1)|by apply (Hk a w1 w' e)].
Qed.

Lemma unfailing_ret {X} (x : X) : never_fails (mret x).
Proof. intros w w' e. done. Qed.

Lemma unfailing_call {T X} (get : world -> T) put (f : T -> outcome unit (X * T)) : never_fails (call get put f).
Proof. intros w w' e. unfold call. by destruct (f (get w)) as [[a t]|?| |]. Qed.

Lemma unfailing_lift {X} (o : outcome unit X) : never_fails (lift o).
Proof. intros w w' e. unfold lift. by destruct o. Qed.

Lemma unfailing_gets {X} (f : world -> X) : never_fails (gets f).
Proof. intros w w' e. done. Qed.

(** ** The operations *)

Lemma quiet_ask {X} (f : StateDB -> outcome unit (X * StateDB)) :
  (forall s, ledger_state del A n m s -> exists x s', f s = Ok (x, s') /\ mild del A n m s s') -> quiet (ask f).
Proof.
  intros Hf w Hw. destruct (Hf (w_state w) (wo_state w Hw)) as (x & s' & E & Md). eexists _, _. unfold ask, call. rewrite E. split; [done|].
  split; [done|apply Hw|done..].
Qed.

Lemma quiet_run (f : StateDB -> outcome unit StateDB) :
  (forall s, ledger_state del A n m s -> exists s', f s = Ok s' /\ mild del A n m s s') -> quiet (run f).
Proof. intros Hf. apply quiet_ask. intros s Hs. destruct (Hf s Hs) as (s' & -> & Md). by exists tt, s'. Qed.

Lemma rec_get_journal h s o s' : rec_getStateObject h s = Ok (o, s') ->
  r_journal s' = r_journal s /\ r_validRevisions s' = r_validRevisions s /\ r_nextRevisionId s' = r_nextRevisionId s.
Proof.
  unfold rec_getStateObject. destruct (r_stateObjects s !! h); [by intros [= _ <-]|].
  destruct (tr_TryGet _ _ _) as [[[[|b enc]|] t]|e| |]; try done; try (by intros [= _ <-]); [|intros [= _ <-]; unfold rec_setError; by destruct (r_dbErr s)].
  destruct (DecodeBytes _ _) as [v|e| |]; try done; [|by intros [= _ <-]]. destruct (val_record v); by intros [= _ <-].
Qed.

Lemma quiet_ask_rec {X} (f : stateObjectRecord -> X) d h : h ∈ H -> quiet (ask_rec (rec_read f d h)).
Proof.
  intros Hh w Hw. destruct (rec_read_holds f d H n mr (w_records w) R h (wo_records w Hw) Hh) as (s' & E & Hr & _). eexists _, _. unfold ask_rec, call. rewrite E.
  split; [done|]. split; [apply mild_refl, Hw|done| |done|done]. unfold rec_read in E. destruct (rec_getStateObject h (w_records w)) as [[o s1]|?| |] eqn:Eg; try done.
  injection E as _ <-. by apply (rec_get_journal h _ o).
Qed.

Lemma quiet_nonce a : a ∈ A -> quiet (ask (GetNonce a)).
Proof. intros Ha. apply quiet_ask. intros s Hs. by apply mild_read. Qed.

Lemma quiet_balance a : a ∈ A -> quiet (ask (GetBalance a)).
Proof. intros Ha. apply quiet_ask. intros s Hs. by apply mild_read. Qed.

Lemma quiet_set_nonce a v : a ∈ A -> quiet (run (SetNonce a (u64 v))).
Proof. intros Ha. apply quiet_run. intros s Hs. apply mild_nonce; [done|done|]. apply u64_range. Qed.

Lemma quiet_ensure a : a ∈ A -> quiet (run (ensure a)).
Proof. intros Ha. apply quiet_run. intros s Hs. by apply mild_ensure. Qed.

(** ** Messages *)

Lemma quiet_from msg : msg_from msg ∈ A -> quiet (st_from msg).
Proof. intros Ha. apply quiet_bind; [by apply quiet_ensure|]. intros _. apply quiet_ret. Qed.

Lemma from_returns msg w w' a : st_from msg w = Ok (w', inr a) -> a = msg_from msg.
Proof. unfold st_from, mbind, go_bind, mret, go_ret. destruct (run _ w) as [[w2 [e2|[]]]|?| |]; try done. by intros [= _ <-]. Qed.

Lemma quiet_to msg : recipient msg ∈ A -> quiet (st_to msg).
Proof.
  unfold recipient, st_to. destruct (msg_to msg) as [to|]; intros Ha; [|apply quiet_ret]. apply quiet_bind; [by apply quiet_ensure|]. intros _. apply quiet_ret.
Qed.

(** The results of the two are known. *)
Lemma quiet_bind_from {Y} msg (k : bytes -> XM Y) : msg_from msg ∈ A -> quiet (k (msg_from msg)) -> quiet (st_from msg ≫= k).
Proof.
  intros Ha Hk w Hw. destruct (quiet_from msg Ha w Hw) as (w1 & r & E & Q). unfold mbind at 1, go_bind at 1. rewrite E. destruct r as [e|a]; [by exists w1, (inl e)|].
  rewrite (from_returns msg w w1 a E). destruct (Hk w1 (quietly_ok _ _ Q)) as (w2 & r2 & E2 & Q2). exists w2, r2. split; [exact E2|]. by eapply quietly_trans.
Qed.

Lemma fails_bind_from {Y} msg (k : bytes -> XM Y) : msg_from msg ∈ A -> fails_quietly (k (msg_from msg)) -> fails_quietly (st_from msg ≫= k).
Proof.
  intros Ha Hk w w' e Hw E. destruct (quiet_from msg Ha w Hw) as (w1 & r & E1 & Q). unfold mbind at 1, go_bind at 1 in E. rewrite E1 in E. destruct r as [e1|a]; [by injection E as <- _|].
  rewrite (from_returns msg w w1 a E1) in E. eapply quietly_trans; [done|exact Q|]. by apply (Hk w1 w' e (quietly_ok _ _ Q)).
Qed.

Lemma quiet_preCheck msg : msg_from msg ∈ A -> quiet (preCheck msg).
Proof.
  intros Ha. unfold preCheck. apply quiet_bind_from; [done|]. destruct (msg_checkNonce msg); [|apply quiet_ret]. apply quiet_bind; [by apply quiet_nonce|].
  intros v. destruct (v <? _); [apply quiet_throw|]. destruct (_ <? v); [apply quiet_throw|apply quiet_ret].
Qed.

Lemma never_to msg : never_fails (st_to msg).
Proof. unfold st_to. destruct (msg_to msg) as [to|]; [|apply unfailing_ret]. apply unfailing_bind; [apply unfailing_call|]. intros _. apply unfailing_ret. Qed.

Lemma transfer_fails msg : msg_from msg ∈ A -> recipient msg ∈ A -> fails_quietly (ApplyMessage msg).
Proof.
  intros Hf Ht. apply fails_bind; [by apply quiet_preCheck|]. intros _. apply fails_bind_from; [done|]. apply fails_bind; [by apply quiet_to|]. intros to.
  apply fails_bind; [by apply quiet_nonce|]. intros v. apply fails_bind; [by apply quiet_set_nonce|]. intros _.
  apply fails_bind; [apply quiet_bind; [by apply quiet_balance|intros; apply quiet_ret]|]. intros can. destruct (negb can); [apply quiet_fails, quiet_throw|].
  apply never_quiet. repeat (apply unfailing_bind; [first [apply unfailing_call|apply unfailing_bind; [apply unfailing_call|intros; apply unfailing_call]]|intros ?]). apply unfailing_ret.
Qed.

Lemma data_fails t msg : msg_from msg ∈ A -> data_hash (msg_data msg) ∈ H -> fails_quietly (ApplyDataMessage t msg).
Proof.
  intros Hf Hh. apply fails_bind; [by apply quiet_preCheck|]. intros _. apply fails_bind_from; [done|]. cbv zeta.
  apply fails_bind; [by apply quiet_nonce|]. intros v. apply fails_bind; [by apply quiet_set_nonce|]. intros _. destruct (_ =? ConfirmationData).
  { apply fails_bind; [by apply quiet_ask_rec|]. intros [|]; [apply quiet_fails, quiet_throw|]. apply never_quiet. repeat (apply unfailing_bind; [apply unfailing_call|intros ?]). apply unfailing_ret. }
  destruct (_ =? AuthorizationData); [apply never_quiet, unfailing_ret|]. destruct (_ =? TransferData); [|apply never_quiet, unfailing_ret].
  apply fails_bind; [by apply quiet_ask_rec|]. intros owner. destruct (negb _); [apply quiet_fails, quiet_throw|].
  apply fails_bind; [by apply quiet_ask_rec|]. intros st. destruct (negb _); [apply quiet_fails, quiet_throw|].
  apply never_quiet. repeat (apply unfailing_bind; [first [apply unfailing_call|apply never_to]|intros ?]). apply unfailing_ret.
Qed.

Lemma poc_never msg : msg_type msg = LoginCandidate \/ msg_type msg = LogoutCandidate -> never_fails (applyPocMessage db msg).
Proof.
  intros Ht w w' e. unfold applyPocMessage. destruct (Z.eqb_spec (msg_type msg) LoginCandidate) as [E1|N1]; [destruct (w_poc w); [|done]; by destruct (BecomeCandidate _ _ _)|].
  destruct (Z.eqb_spec (msg_type msg) LogoutCandidate) as [E2|N2]; [destruct (w_poc w); [|done]; by destruct (KickoutCandidate _ _ _)|]. by destruct Ht.
Qed.

Lemma dispatch_fails t msg : msg_within A H msg -> fails_quietly (dispatch db t msg).
Proof.
  intros (Hf & Ht & Hh & _). unfold dispatch. destruct (_ =? Binary); [by apply transfer_fails|]. destruct (_ || _ || _); [by apply data_fails|].
  destruct (_ || _) eqn:E; [|apply never_quiet, unfailing_ret]. apply never_quiet, unfailing_bind; [|intros; apply unfailing_ret].
  apply poc_never. apply orb_true_iff in E as [E|E]; apply Z.eqb_eq in E; auto.
Qed.

Lemma write_never config number : never_fails (write_pending config number).
Proof. unfold write_pending. destruct (IsByzantium config number); repeat (apply unfailing_bind; [apply unfailing_call|intros ?]); apply unfailing_ret. Qed.

(** A transaction that fails leaves nothing that its snapshots do not take back. *)
Lemma ApplyTransaction_fails config header tx w w' e :
  wok w -> (forall msg tx', AsMessage (MakeSigner config (hd_Number header)) tx = Ok (msg, tx') -> msg_within A H msg) ->
  ApplyTransaction db config header tx w = Ok (w', inl e) -> quietly w w'.
Proof.
  intros Hw Wm. unfold ApplyTransaction. destruct (AsMessage _ tx) as [[msg tx1]|er| |] eqn:Em; try done; [|intros [= <- _]; by apply quietly_refl].
  destruct (Validate tx1) as [er|]; [intros [= <- _]; by apply quietly_refl|]. destruct (Transaction.Hash tx1) as [h tx2]. cbv zeta. intros E. revert E. apply (fails_then _ _ (dispatch_fails h msg (Wm msg tx1 eq_refl))); [|done].
  intros failed. apply unfailing_bind; [apply write_never|]. intros [root rr]. apply unfailing_bind; [apply unfailing_gets|]. intros lg. apply unfailing_bind; [apply unfailing_lift|]. intros bl. apply unfailing_ret.
Qed.
End Quiet.

(** ** One transaction *)

(** No snapshots are pending. *)
Definition settled {HS : Hasher} {ST : StateTrie} (w : world) : Prop := validRevisions (w_state w) = [] /\ r_validRevisions (w_records w) = [].

Section Commit.
Context {HS : Hasher} {ST : StateTrie} {GR : GoRand} {SC : Secp256k1} {RO : TxList.RangeOrder}.
Context (db : database) (del : bool) (A H : gset bytes) (HA : forall a, a ∈ A -> is_address a).
Context (keysA : forall a b, a ∈ A -> b ∈ A -> tr_key a = tr_key b -> a = b).
Context (keysH : forall a b, a ∈ H -> b ∈ H -> tr_key a = tr_key b -> a = b).

(** What a transaction does to the abstract world, on its own. *)
Definition apply_spec (s : Signer) (tx : Transaction) (W : aworld) : exec_error + aworld :=
  match AsMessage s tx with
  | Ok (msg, _) => match Validate tx with Some e => inl (ExecTx e) | None => exec (txHash tx) msg W end
  | Err e => inl (ExecTx e)
  | _ => inl ErrNoMessage
  end.

(** A transaction whose message, if it has one, is about accounts of [A] and records of [H]. *)
Definition tx_fine (s : Signer) (tx : Transaction) : Prop :=
  is_hash (txHash tx) /\ match AsMessage s tx with Ok (msg, _) => msg_within A H msg | Err _ => True | _ => False end.

Lemma AsMessage_hashed s tx :
  match AsMessage s (snd (Transaction.Hash tx)), AsMessage s tx with
  | Ok (m1, _), Ok (m2, _) => m1 = m2 | Err e1, Err e2 => e1 = e2 | Panic, Panic => True | OutOfFuel, OutOfFuel => True | _, _ => False
  end.
Proof.
  destruct (Hash_data tx) as (D & _ & F). unfold AsMessage, Sender. rewrite D, F, (Signer_Sender_data s (snd (Transaction.Hash tx)) tx D).
  destruct (tx_from tx) as [[s' a']|]; [destruct (Signer_Equal s' s); [done|]|]; by destruct (Signer_Sender s tx).
Qed.

Lemma txHash_hashed tx : txHash (snd (Transaction.Hash tx)) = txHash tx.
Proof. destruct (Hash_data tx) as (_ & E & _). unfold txHash at 1, Transaction.Hash at 1. by rewrite E. Qed.

Lemma apply_spec_hashed s tx W : apply_spec s (snd (Transaction.Hash tx)) W = apply_spec s tx W.
Proof.
  unfold apply_spec. pose proof (AsMessage_hashed s tx) as M. rewrite txHash_hashed. assert (V : Validate (snd (Transaction.Hash tx)) = Validate tx) by (unfold Validate; by rewrite (proj1 (Hash_data tx))). rewrite V.
  destruct (AsMessage s (snd (Transaction.Hash tx))) as [[m1 t1]|e1| |], (AsMessage s tx) as [[m2 t2]|e2| |]; try done; by subst.
Qed.

Lemma tx_fine_hashed s tx : tx_fine s tx -> tx_fine s (snd (Transaction.Hash tx)).
Proof.
  intros [Hh Hm]. split; [by rewrite txHash_hashed|]. pose proof (AsMessage_hashed s tx) as M.
  destruct (AsMessage s (snd (Transaction.Hash tx))) as [[m1 t1]|e1| |], (AsMessage s tx) as [[m2 t2]|e2| |]; try done; by subst.
Qed.

Lemma write_settles config number w w' x : write_pending config number w = Ok (w', inr x) -> settled w'.
Proof.
  unfold write_pending. destruct (IsByzantium config number); unfold run, run_rec, ask, ask_rec, call, mbind, go_bind, mret, go_ret, settled.
  - unfold Finalise, rec_Finalise. destruct (finalise_all _ _ _) as [s|?| |]; try done. cbn [mbind outcome_bind].
    destruct (rec_finalise_all _ _ _) as [r|?| |]; try done. cbn [mbind outcome_bind]. by intros [= <- _].
  - unfold IntermediateRoot, rec_IntermediateRoot, Finalise, rec_Finalise. destruct (finalise_all _ _ _) as [s|?| |]; try done. cbn [mbind outcome_bind].
    destruct (tr_Hash _) as [[h t]|?| |]; try done. cbn [mbind outcome_bind]. destruct (rec_finalise_all _ _ _) as [r|?| |]; try done. cbn [mbind outcome_bind].
    destruct (tr_Hash _) as [[h' t']|?| |]; try done. cbn [mbind outcome_bind]. by intros [= <- _].
Qed.

Lemma ApplyTransaction_settles config header tx w w' x : ApplyTransaction db config header tx w = Ok (w', inr x) -> settled w'.
Proof.
  unfold ApplyTransaction. destruct (AsMessage _ tx) as [[msg tx1]|er| |]; try done. destruct (Validate tx1); [done|]. destruct (Transaction.Hash tx1) as [h tx2]. cbv zeta.
  unfold mbind, go_bind. destruct (dispatch db h msg w) as [[w1 [e|f]]|?| |]; try done. destruct (write_pending _ _ w1) as [[w2 [e|[root rr]]]|?| |] eqn:E; try done.
  unfold gets, lift. destruct (CreateBloom _); [|done..]. cbn. intros [= <- _]. by eapply write_settles.
Qed.

(** The world with a snapshot of each part. *)
Definition snapped (pc : PocContext) (w : world) : world :=
  mkWorld (snd (StateDB.Snapshot (w_state w))) (snd (rec_Snapshot (w_records w))) (Some pc) (timeOfFirstBlock w).

Lemma snapped_holds n M w W pc : holds db del A H n M w W -> w_poc w = Some pc -> holds db del A H n M (snapped pc w) W.
Proof.
  intros [(m & [[[Wt Wo] T O D C Rm] V]) (mr & [[Wr Tr Or Dr Cr Rr] Vr]) (pc' & mp & Ep & Hp)] E. rewrite E in Ep. injection Ep as <-.
  split; [exists m|exists mr|by exists pc, mp]; (split; [by split|done]).
Qed.

(** The records have no entries since the snapshot. *)
Lemma rec_Revert_quiet n m s s2 R : rholds H n m s2 R -> r_validRevisions s = [] -> r_journal s2 = r_journal s ->
  r_validRevisions s2 = r_validRevisions (snd (rec_Snapshot s)) ->
  exists s3, rec_RevertToSnapshot (fst (rec_Snapshot s)) s2 = Ok s3 /\ rholds H n m s3 R /\ r_validRevisions s3 = [].
Proof.
  intros Hr Ev Ej Er. unfold rec_RevertToSnapshot. cbn [rec_Snapshot fst snd set_r_revisions r_validRevisions] in *. rewrite Er, Ev. cbn [app revision_index].
  cbn [rev_id]. rewrite (proj2 (Z.leb_le _ _)) by lia. cbn [lookup list_lookup rev_id rev_journalIndex]. rewrite Z.eqb_refl, Ej, Nat.sub_diag. cbn [take rec_undo_all mbind outcome_bind drop].
  eexists. split; [done|]. split; [|done]. destruct Hr as [[W T O D C Rm] V]. split; [by split|done].
Qed.

(** After a failure the snapshots give the world back. *)
Lemma revert_quiet n m mr M w w2 pc L R C : lholds del A n m (w_state w) L -> rholds H n mr (w_records w) R -> w_poc w = Some pc ->
  holds db del A H n M w (mkAWorld L R C) -> settled w -> quietly del A H n m mr R (snapped pc w) w2 ->
  exists w3, revert_world (fst (StateDB.Snapshot (w_state w))) (fst (rec_Snapshot (w_records w))) (PocContext.Snapshot pc) w2 = Ok w3 /\
    holds db del A H n M w3 (mkAWorld L R C) /\ settled w3 /\ wframe w3 w.
Proof.
  intros Hl Hr Ep [_ _ Hp] [Sv Sr] [Md Hr2 (J2 & V2 & _) P2 T2]. cbn [snapped w_state w_records w_poc timeOfFirstBlock] in *.
  destruct (RevertToSnapshot_mild del A n m (w_state w) (w_state w2) L Hl) as (s3 & E3 & Hl3 & V3 & L3); [unfold revisions_ok; rewrite Sv; constructor|done|].
  destruct (rec_Revert_quiet n mr (w_records w) (w_records w2) R Hr2 Sr J2 V2) as (r3 & Er3 & Hr3 & Vr3). unfold revert_world. rewrite E3. cbn [mbind outcome_bind]. rewrite Er3. cbn [mbind outcome_bind]. rewrite P2.
  eexists. split; [done|]. split; [|split; [split; [by rewrite <- Sv|done]|by split]]. split; [by exists m|by exists mr|].
  destruct Hp as (pc' & mp & Ep' & Hp & Hc). rewrite Ep in Ep'. injection Ep' as <-. eexists _, mp. split; [done|]. by split.
Qed.

Lemma commitTransaction_step n M env L R C tx : let w := wk_world env in let s := MakeSigner (wk_config env) (hd_Number (wk_header env)) in
  holds db del A H (n + 2) M w (mkAWorld L R C) -> 0 <= n -> n + 3 < 2 ^ 26 -> settled w -> rules_ok del (wk_config env) (hd_Number (wk_header env)) ->
  tx_fine s tx -> in_range A 1 L ->
  match apply_spec s tx (mkAWorld L R C) with
  | inl e => exists w', commitTransaction db tx env = Ok (set_world w' env, Some e, []) /\ holds db del A H (n + 2) M w' (mkAWorld L R C) /\ settled w' /\ wframe w' w
  | inr W' => exists w' rc tx', commitTransaction db tx env = Ok (add_result tx' rc (set_world w' env), None, rc_Logs rc) /\ holds db del A H n M w' W' /\
      settled w' /\ wframe w' w /\ tx_data tx' = tx_data tx /\ receipt_of A H (wk_config env) (hd_Number (wk_header env)) (txHash tx) (GetLogs (txHash tx) (w_state w)) W' rc
  end.
Proof.
  intros w s Hw Hn Hn' St Rl [Hh Hm] Rg. pose proof Hw as [(m & Hl) (mr & Hr) (pc & mp & Ep & _)]. pose proof (snapped_holds _ _ _ _ _ Hw Ep) as Hw1.
  unfold commitTransaction. fold w. rewrite Ep. rewrite (surjective_pairing (StateDB.Snapshot (w_state w))), (surjective_pairing (rec_Snapshot (w_records w))). fold (snapped pc w).
  assert (Fail : forall w' e, ApplyTransaction db (wk_config env) (wk_header env) tx (snapped pc w) = Ok (w', inl e) ->
    exists w3, revert_world (fst (StateDB.Snapshot (w_state w))) (fst (rec_Snapshot (w_records w))) (PocContext.Snapshot pc) w' = Ok w3 /\ holds db del A H (n + 2) M w3 (mkAWorld L R C) /\ settled w3 /\ wframe w3 w).
  { intros w' e E. apply (revert_quiet (n + 2) m mr M w w' pc L R C Hl Hr Ep Hw St). apply (ApplyTransaction_fails db del A H (n + 2) m mr R (wk_config env) (wk_header env) tx _ _ e); [|..|exact E].
    - destruct Hl as [[[Wt Wo] T O D Cl Rm] V], Hr as [[Wr Tr Or Dr Cr Rr] Vr]. split; [by split|]. split; [by split|done].
    - intros msg tx' Em. fold s in Em. by rewrite Em in Hm. }
  unfold apply_spec. destruct (AsMessage s tx) as [[msg tx1]|er| |] eqn:Em; try done.
  - destruct (Validate tx) as [er|] eqn:V.
    + assert (E : ApplyTransaction db (wk_config env) (wk_header env) tx (snapped pc w) = Ok (snapped pc w, inl (ExecTx er))).
      { unfold ApplyTransaction. fold s. rewrite Em. destruct (AsMessage_hash _ _ _ _ Em) as [D1 _]. assert (V1 : Validate tx1 = Some er) by (unfold Validate in *; by rewrite D1). by rewrite V1. }
      rewrite E. cbn [mbind outcome_bind]. destruct (Fail _ _ E) as (w3 & -> & H3). by exists w3.
    + pose proof (step_transaction db del A H HA keysA keysH n M (snapped pc w) L R C (wk_config env) (wk_header env) tx msg Hw1 Hn Hn' Rl (conj V (ex_intro _ tx1 Em)) Hh Hm Rg) as T.
      destruct (exec _ _ _) as [e|W'].
      * destruct T as (w' & E & _). rewrite E. cbn [mbind outcome_bind]. destruct (Fail _ _ E) as (w3 & -> & H3). by exists w3.
      * destruct T as (w' & rc & tx' & E & Fr & H' & D & Rc). rewrite E. cbn [mbind outcome_bind]. exists w', rc, tx'. split; [done|]. split; [done|]. split; [by eapply ApplyTransaction_settles|]. done.
  - assert (E : ApplyTransaction db (wk_config env) (wk_header env) tx (snapped pc w) = Ok (snapped pc w, inl (ExecTx er))) by (unfold ApplyTransaction; fold s; by rewrite Em).
    rewrite E. cbn [mbind outcome_bind]. destruct (Fail _ _ E) as (w3 & -> & H3). by exists w3.
Qed.

(** ** All transactions *)

Lemma exec_error_high (e : exec_error) : e = ErrNonceTooHigh \/ e <> ErrNonceTooHigh.
Proof. destruct e; (by left) || (by right). Qed.


Section Loop.
Context (s : Signer) (skip : Transaction -> bool).

(** No account has a dearer first transaction. *)
Definition dearest (tx : Transaction) (Q : queues) : Prop := forall a tx' r, Q a = tx' :: r -> TxList.gasPrice tx' <= TxList.gasPrice tx.

(** The choices of the miner on the abstract world: from the lists that are left to the
    transactions taken.  A transaction that may not be in the block, and one whose nonce is too
    high, ends its account; one that fails otherwise is passed over. *)
Inductive commits : queues -> aworld -> list Transaction -> aworld -> Prop :=
| commits_end Q W : (forall a, Q a = []) -> commits Q W [] W
| commits_skip Q W a tx r l W' : Q a = tx :: r -> dearest tx Q -> skip tx = true -> commits (qset a [] Q) W l W' -> commits Q W l W'
| commits_take Q W a tx r W1 l W' : Q a = tx :: r -> dearest tx Q -> skip tx = false -> apply_spec s tx W = inr W1 ->
    commits (qset a r Q) W1 l W' -> commits Q W (tx :: l) W'
| commits_high Q W a tx r l W' : Q a = tx :: r -> dearest tx Q -> skip tx = false -> apply_spec s tx W = inl ErrNonceTooHigh ->
    commits (qset a [] Q) W l W' -> commits Q W l W'
| commits_pass Q W a tx r e l W' : Q a = tx :: r -> dearest tx Q -> skip tx = false -> apply_spec s tx W = inl e -> e <> ErrNonceTooHigh ->
    commits (qset a r Q) W l W' -> commits Q W l W'.
End Loop.

Lemma fine_set s a l Q : (forall b tx, tx ∈ Q b -> tx_fine s tx) -> (forall tx, tx ∈ l -> tx ∈ Q a) -> forall b tx, tx ∈ qset a l Q b -> tx_fine s tx.
Proof. intros F Sub b tx. unfold qset. case_decide; [intros Hx; apply (F a), Sub, Hx|apply F]. Qed.

(** A transaction that succeeds stands for a message, and stays within the numbers. *)
Lemma apply_spec_means s tx L R C W' : tx_fine s tx -> apply_spec s tx (mkAWorld L R C) = inr W' ->
  exists msg, means A H s tx (txHash tx, msg) /\ exec (txHash tx) msg (mkAWorld L R C) = inr W' /\ grows L (aw_ledger W') /\ supply A (aw_ledger W') = supply A L.
Proof.
  intros [Hh Hm]. unfold apply_spec. destruct (AsMessage s tx) as [[msg tx1]|er| |] eqn:Em; try done. destruct (Validate tx) eqn:V; [done|]. intros E. exists msg.
  split; [split; [done|]; split; [done|]; split; [|done]; split; [done|by exists tx1]|]. split; [done|]. by apply (exec_effect A (txHash tx) msg L R C W' E); apply Hm.
Qed.

Lemma prepared_holds n M h env W : holds db del A H n M (wk_world env) W -> holds db del A H n M (wk_world (prepare_state h env)) W.
Proof. intros [(m & Hl) Hr Hp]. split; [exists m; by apply Prepare_ledger|done|done]. Qed.

(** What committing gives: the transactions [l] taken, the messages [ps] they stand for and the
    receipts added; there are at most [k]. *)
Record committed (k : nat) (n : Z) (M : pc_maps) (Q : queues) (W : aworld) (env env' : Work) : Prop := mkCommitted {
  cm_frame : wk_config env' = wk_config env /\ wk_header env' = wk_header env /\ wk_signer env' = wk_signer env;
  cm_result : let s := MakeSigner (wk_config env) (hd_Number (wk_header env)) in
    exists l ps rcs W', commits s (fun tx => Protected tx && negb (IsEIP155 (wk_config env) (hd_Number (wk_header env)))) Q W l W' /\
      Forall2 (means A H s) l ps /\ exec_all ps W = inr W' /\ holds db del A H n M (wk_world env') W' /\
      map tx_data (wk_txs env') = map tx_data (wk_txs env) ++ map tx_data l /\ wk_tcount env' = wk_tcount env + len l /\
      wk_receipts env' = wk_receipts env ++ rcs /\
      receipts_of A H (wk_config env) (hd_Number (wk_header env)) (fun h => GetLogs h (w_state (wk_world env))) ps W rcs /\ (length l <= k)%nat
}.

Lemma receipts_logs config number ps W rcs w1 w2 : wframe w1 w2 -> receipts_of A H config number (fun h => GetLogs h (w_state w1)) ps W rcs ->
  receipts_of A H config number (fun h => GetLogs h (w_state w2)) ps W rcs.
Proof. intros [Fl _]. apply receipts_of_ext. intros x. unfold GetLogs. by rewrite Fl. Qed.

(** A step that takes no transaction. *)
Lemma committed_pass k n M Q Q' W env env1 env' : wk_config env1 = wk_config env -> wk_header env1 = wk_header env -> wk_signer env1 = wk_signer env ->
  wk_txs env1 = wk_txs env -> wk_receipts env1 = wk_receipts env -> wk_tcount env1 = wk_tcount env -> wframe (wk_world env1) (wk_world env) ->
  (forall l W', commits (MakeSigner (wk_config env) (hd_Number (wk_header env))) (fun tx => Protected tx && negb (IsEIP155 (wk_config env) (hd_Number (wk_header env)))) Q' W l W' ->
    commits (MakeSigner (wk_config env) (hd_Number (wk_header env))) (fun tx => Protected tx && negb (IsEIP155 (wk_config env) (hd_Number (wk_header env)))) Q W l W') ->
  committed k n M Q' W env1 env' -> committed (S k) n M Q W env env'.
Proof.
  intros Ec Eh Es Et Er En Fr K [Fm (l & ps & rcs & W' & Cm & Fp & Ex & Hd & Tx & Tc & Rc & Rs & Lk)]. rewrite Ec, Eh in *. split; [by rewrite Es in Fm|].
  exists l, ps, rcs, W'. split; [by apply K|]. split; [done|]. split; [done|]. split; [done|]. rewrite <- Et, <- Er, <- En. split; [done|]. split; [done|]. split; [done|]. split; [by eapply receipts_logs|lia].
Qed.

(** A step that takes a transaction. *)
Lemma committed_take k n M Q a tx r L R C W1 env w' rc tx' env' : let s := MakeSigner (wk_config env) (hd_Number (wk_header env)) in
  Q a = tx :: r -> dearest tx Q -> Protected tx && negb (IsEIP155 (wk_config env) (hd_Number (wk_header env))) = false ->
  tx_fine s tx -> apply_spec s tx (mkAWorld L R C) = inr W1 -> wframe w' (wk_world env) -> tx_data tx' = tx_data tx ->
  receipt_of A H (wk_config env) (hd_Number (wk_header env)) (txHash tx) (GetLogs (txHash tx) (w_state (wk_world env))) W1 rc ->
  committed k n M (qset a r Q) W1 (set_tcount (wk_tcount env + 1) (add_result tx' rc (set_world w' env))) env' -> committed (S k) n M Q (mkAWorld L R C) env env'.
Proof.
  intros s Eq De Sk Fx Ea Fr D Rc [Fm (l & ps & rcs & W' & Cm & Fp & Ex & Hd & Tx & Tc & Er & Rs & Lk)]. destruct (apply_spec_means s tx L R C W1 Fx Ea) as (msg & Me & Ee & _).
  split; [done|]. exists (tx :: l), ((txHash tx, msg) :: ps), (rc :: rcs), W'. split; [by eapply commits_take|]. split; [by constructor|]. cbn [exec_all]. rewrite Ee. split; [done|]. split; [done|].
  cbn [wk_txs wk_tcount wk_receipts set_tcount add_result set_world] in *. rewrite Tx, map_app, <- app_assoc. cbn [map app]. rewrite D. split; [done|].
  rewrite Tc, len_cons. split; [lia|]. rewrite Er, <- app_assoc. split; [done|]. cbn [receipts_of length]. rewrite Ee. split; [|lia]. split; [done|]. eapply receipts_logs; [exact Fr|exact Rs].
Qed.

Lemma commit_loop_refines M : forall fuel t Q n env L R C lg, let s := MakeSigner (wk_config env) (hd_Number (wk_header env)) in
  (remaining t < fuel)%nat -> by_holds t Q -> (forall a tx, tx ∈ Q a -> tx_fine s tx) ->
  holds db del A H (n + 2 * Z.of_nat (remaining t)) M (wk_world env) (mkAWorld L R C) -> settled (wk_world env) -> 0 <= n -> n + 2 * Z.of_nat (remaining t) + 1 < 2 ^ 26 ->
  rules_ok del (wk_config env) (hd_Number (wk_header env)) -> in_range A (Z.of_nat (remaining t)) L ->
  exists env' lg', commit_loop fuel db t env lg = Ok (env', lg') /\ committed (remaining t) n M Q (mkAWorld L R C) env env'.
Proof.
  induction fuel as [|fuel IH]; intros t Q n env L R C lg s Hf B Fn Hw St Hn Hn' Rl Rg; [lia|]. cbn [commit_loop]. pose proof (Peek_holds t Q B) as Pk. destruct (Peek t) as [tx|] eqn:Ep.
  2: { exists env, lg. split; [done|]. split; [done|]. exists [], [], [], (mkAWorld L R C). split; [by constructor|]. split; [constructor|]. split; [done|].
       split; [eapply holds_mono; [exact Hw|lia]|]. rewrite !app_nil_r, len_nil. split; [done|]. split; [lia|]. split; [done|]. split; [done|cbn; lia]. }
  destruct Pk as [(r & Eq) De]. set (a := TxPool.from_of (bp_signer t) tx) in *. destruct (Protected tx && negb _) eqn:Sk.
  { destruct (Pop_holds t Q tx B Ep) as (t' & -> & _ & B' & Rm). cbn [mbind outcome_bind]. destruct (IH t' (qset a [] Q) n env L R C lg) as (env' & lg' & E & Cm); try done; try lia.
    - apply fine_set; [exact Fn|]. intros x Hx. by apply elem_of_nil in Hx.
    - eapply holds_mono; [exact Hw|lia].
    - eapply in_range_mono; [exact Rg|lia].
    - exists env', lg'. split; [done|]. rewrite <- Rm. eapply (committed_pass _ n M Q (qset a [] Q)); try done. intros l W' K. by eapply commits_skip. }
  assert (Fx : tx_fine s tx) by (apply (Fn a); rewrite Eq; by left). rewrite (surjective_pairing (Transaction.Hash tx)). set (h := fst (Transaction.Hash tx)). set (tx1 := snd (Transaction.Hash tx)).
  assert (Rp : (0 < remaining t)%nat) by (destruct (Pop_holds t Q tx B Ep) as (? & _ & _ & _ & ?); lia). set (k := Z.of_nat (remaining t)) in *.
  pose proof (commitTransaction_step (n + 2 * (k - 1)) M (prepare_state h env) L R C tx1) as S1. cbv zeta in S1. change (wk_config (prepare_state h env)) with (wk_config env) in S1. change (wk_header (prepare_state h env)) with (wk_header env) in S1. fold s in S1.
  specialize (S1 ltac:(apply prepared_holds; by replace (n + 2 * (k - 1) + 2) with (n + 2 * k) by lia) ltac:(lia) ltac:(lia) St Rl (tx_fine_hashed s tx Fx) ltac:(eapply in_range_mono; [exact Rg|lia])).
  unfold tx1 in S1. rewrite apply_spec_hashed, txHash_hashed in S1. fold tx1 in S1. replace (n + 2 * (k - 1) + 2) with (n + 2 * k) in S1 by lia.
  destruct (apply_spec s tx (mkAWorld L R C)) as [e|[L1 R1 C1]] eqn:Ea.
  - destruct S1 as (w' & E & Hw' & St' & Fr). rewrite E. cbn [mbind outcome_bind]. set (env1 := set_world w' (prepare_state h env)).
    assert (Sh : forall t' l, (exists t0, Ok (E := unit) t0 = Ok t' /\ by_holds t0 (qset a l Q) /\ (S (remaining t0) = remaining t)%nat) -> (forall x, x ∈ l -> x ∈ Q a) ->
      exists env' lg', commit_loop fuel db t' env1 lg = Ok (env', lg') /\ committed (remaining t') n M (qset a l Q) (mkAWorld L R C) env1 env').
    { intros t' l (t0 & [= ->] & B' & Rm) Sub. apply IH; try done; try lia; [by apply fine_set|eapply holds_mono; [exact Hw'|lia]|eapply in_range_mono; [exact Rg|lia]]. }
    destruct (exec_error_high e) as [->|Ne].
    + destruct (Pop_holds t Q tx B Ep) as (t' & -> & _ & B' & Rm). cbn [mbind outcome_bind]. destruct (Sh t' []) as (env' & lg' & E' & Cm); [by exists t'|intros x Hx; by apply elem_of_nil in Hx|].
      exists env', lg'. split; [done|]. rewrite <- Rm. eapply (committed_pass _ n M Q (qset a [] Q) _ env env1); try done. intros l W' K. by eapply commits_high.
    + destruct (Shift_holds t Q tx r B Ep Eq) as (t' & Es & _ & B' & Rm). destruct (Sh t' r) as (env' & lg' & E' & Cm); [by exists t'|intros x Hx; rewrite Eq; by right|].
      exists env', lg'. split; [rewrite Es; destruct e; try done; exact E'|]. rewrite <- Rm. eapply (committed_pass _ n M Q (qset a r Q) _ env env1); try done. intros l W' K. by eapply commits_pass.
  - destruct S1 as (w' & rc & tx' & E & Hw' & St' & Fr & D & Rc). rewrite E. cbn [mbind outcome_bind]. destruct (Shift_holds t Q tx r B Ep Eq) as (t' & -> & _ & B' & Rm). cbn [mbind outcome_bind].
    destruct (apply_spec_means s tx L R C _ Fx Ea) as (msg & _ & _ & Gr & Su). cbn [aw_ledger] in Gr, Su.
    destruct (IH t' (qset a r Q) n (set_tcount (wk_tcount env + 1) (add_result tx' rc (set_world w' env))) L1 R1 C1 (lg ++ rc_Logs rc)) as (env' & lg' & E' & Cm); try done; try lia.
    + apply fine_set; [exact Fn|]. intros x Hx. rewrite Eq. by right.
    + eapply holds_mono; [exact Hw'|lia].
    + eapply in_range_step; [exact Gr|exact Su|]. eapply in_range_mono; [exact Rg|lia].
    + exists env', lg'. split; [exact E'|]. rewrite <- Rm. eapply (committed_take _ n M Q a tx r L R C (mkAWorld L1 R1 C1) env w' rc tx'); try done. rewrite D. apply Hash_data.
Qed.

(** ** Theorems *)

(** The pending transactions as the pool gives them, by account. *)
Definition pending_ok (signer s : Signer) (pending : gmap bytes (list Transaction)) : Prop :=
  forall a l, pending !! a = Some l -> l <> [] /\ forall tx, tx ∈ l -> TxPool.from_of signer tx = a /\ tx_fine s tx.

(** C8. The work on a block ends, whatever transactions are pending, valid or not: the miner
    takes the dearest first transaction of an account again and again, puts those into the
    block that succeed, and those that fail leave no trace in the state, the records and the
    candidates, as their snapshots are restored.  Every node that processes the transactions of
    the block from a world that shows the same, succeeds with each of them and gets to the same
    abstract world as the miner. *)
Theorem commitTransactions_replays n M env L R C pending :
  let s := MakeSigner (wk_config env) (hd_Number (wk_header env)) in let k := Z.of_nat (total_left pending) in let W := mkAWorld L R C in
  pending_ok (wk_signer env) s pending -> holds db del A H (n + 2 * k) M (wk_world env) W -> settled (wk_world env) -> 0 <= n -> n + 2 * k + 1 < 2 ^ 26 ->
  rules_ok del (wk_config env) (hd_Number (wk_header env)) -> in_range A k L ->
  exists t env' lg l W', NewTransactionsByPriceAndNonce (wk_signer env) pending = Ok t /\ commitTransactions db t env = Ok (env', lg) /\
    commits s (fun tx => Protected tx && negb (IsEIP155 (wk_config env) (hd_Number (wk_header env)))) (fun a => default [] (pending !! a)) W l W' /\
    map tx_data (wk_txs env') = map tx_data (wk_txs env) ++ map tx_data l /\ holds db del A H n M (wk_world env') W' /\
    forall v bh i, holds db del A H (n + 2 * k) M v W ->
      exists v' rcs lg' txs', process_loop db (wk_config env) bh (wk_header env) i l v = Ok (v', inr (rcs, lg', txs')) /\ holds db del A H n M v' W'.
Proof.
  intros s k W Pk Hw St Hn Hn' Rl Rg. destruct (NewOrder_holds (wk_signer env) pending) as (t & Et & _ & Rt & B).
  { intros a l E. destruct (Pk a l E) as [Ne F]. split; [done|]. intros tx Hx. by apply F. }
  destruct (commit_loop_refines M (S (remaining t)) t _ n env L R C [] ltac:(lia) B) as (env' & lg & E & [_ Cm]); try done; try (by rewrite Rt).
  { intros a tx Hx. destruct (pending !! a) as [l|] eqn:E; [|by apply elem_of_nil in Hx]. by apply (Pk a l E). }
  destruct Cm as (l & ps & rcs & W' & Cm & Fp & Ex & Hd & Tx & _ & _ & _ & Lk). exists t, env', lg, l, W'. split; [done|]. split; [done|]. split; [done|]. split; [done|]. split; [done|].
  intros v bh i Hv. assert (Ll : len l <= k) by (unfold len, k; rewrite Rt in Lk; lia). pose proof (len_nonneg l).
  pose proof (step_process db del A H HA keysA keysH (wk_config env) bh (wk_header env) l ps n M v L R C i) as P.
  specialize (P ltac:(eapply holds_mono; [exact Hv|lia]) Hn ltac:(lia) Rl Fp ltac:(eapply in_range_mono; [exact Rg|lia])). rewrite Ex in P.
  destruct P as (v' & rcs' & lg' & txs' & E' & _ & Hv' & _). by exists v', rcs', lg', txs'.
Qed.
End Commit.

(** ** Witness *)

Module MinerSamples.
#[local] Existing Instance sample_hasher.
#[local] Existing Instance toy_secp.
#[local] Existing Instance sample_rand.
#[local] Existing Instance TxList.listed_order.

Lemma sample_settled n : 0 <= n < 2 ^ 26 -> exists w M, holds ∅ true sample_accounts sample_records n M w sample_world /\ settled w.
Proof.
  intros Hn. destruct (New_empty_ledger true sample_accounts n (mkCachingDB ∅ [])) as (s0 & E0 & _ & H0); [done|done|].
  assert (V0 : validRevisions s0 = []) by (unfold New in E0; destruct (OpenTrie _ _); cbn in E0; try done; by injection E0 as <-).
  destruct (AddBalance_ledger true sample_accounts ∅ n sample_sender 10 s0 _ H0 sample_sender_in) as (s & _ & Hs & F); [cbn; lia|].
  destruct (NewRecord_empty sample_records n (mkCachingDB ∅ [])) as (r & Er & _ & Hr); [done|done|].
  assert (Vr : r_validRevisions r = []) by (unfold NewRecord in Er; destruct (OpenTrie _ _); cbn in Er; try done; by injection Er as <-).
  destruct sample_poc as (pc & M & P & HC & _). exists (mkWorld s r (Some pc) 0), M. split; [|split; [cbn; rewrite <- V0; apply F|done]].
  split; [by exists ∅|by exists ∅|]. exists pc, (pm_candidate M). split; [done|]. split; [by destruct M|done].
Qed.

Definition sample_signer : Signer := MakeSigner sample_config (Some 1).

(** A payment, a transfer of a record whose nonce is too low then, and a confirmation. *)
Definition sample_pending : gmap bytes (list Transaction) := {[sample_sender := [tx_pay; tx_transfer; tx_confirm]]}.

Definition sample_env (w : world) : Work := mkWork sample_config sample_signer w ∅ ∅ ∅ 0 None sample_block_header [] [].

Lemma denotes_fine tx ty nc am data : denotes sample_signer tx (sample_message ty nc am data) -> tx_hash tx = None -> data = [] \/ data = sample_payload -> 0 <= am ->
  TxPool.from_of sample_signer tx = sample_sender /\ tx_fine sample_accounts sample_records sample_signer tx.
Proof.
  intros (_ & tx' & Em) Hh Hd Ha. unfold tx_fine. rewrite Em. split; [|split; [by apply sample_txHash|by apply sample_within]].
  unfold AsMessage in Em. unfold TxPool.from_of, TxPool.sender. destruct (Sender sample_signer tx) as [[a t]|?| |]; try done.
  apply (f_equal (fun o => match o with Ok (m, _) => msg_from m | _ => [] end)) in Em. exact Em.
Qed.

Lemma sample_pending_ok : pending_ok sample_accounts sample_records sample_signer sample_signer sample_pending.
Proof.
  intros a l E. unfold sample_pending in E. apply lookup_singleton_Some in E as [<- <-]. split; [done|]. destruct sample_denotes as (D1 & D2 & _ & D4). intros tx Hx.
  repeat (apply list.elem_of_cons in Hx as [->|Hx]; [eapply denotes_fine; [eassumption|reflexivity|by (left + right)|lia]|]). by apply elem_of_nil in Hx.
Qed.

Lemma commitTransactions_replays_witness :
  exists w t env' lg l W', NewTransactionsByPriceAndNonce sample_signer sample_pending = Ok t /\ commitTransactions ∅ t (sample_env w) = Ok (env', lg) /\
    commits sample_signer (fun tx => Protected tx && negb (IsEIP155 sample_config (Some 1))) (fun a => default [] (sample_pending !! a)) sample_world l W'.
Proof.
  destruct (sample_settled 6) as (w & M & Hw & St); [lia|]. exists w. assert (K : total_left sample_pending = 3%nat) by reflexivity.
  destruct (commitTransactions_replays ∅ true sample_accounts sample_records sample_accounts_ok sample_keys_accounts sample_keys_records 0 M (sample_env w) sample_start (fun _ => None) four sample_pending
    sample_pending_ok) as (t & env' & lg & l & W' & E1 & E2 & Cm & _); rewrite ?K.
  - exact Hw.
  - exact St.
  - lia.
  - lia.
  - exact sample_rules.
  - exact (sample_in_range 3 ltac:(lia)).
  - exists t, env', lg, l, W'. split; [exact E1|]. split; [exact E2|exact Cm].
Defined.
End MinerSamples.
